(* ===== verification/_CoqProject ===== *)
-Q . S2P
Prelude.v
Calls.v
RustStr.v
Floats.v
CoreObservability.v
Json.v
NopModels.v
ErrorCodes.v
CoreFrames.v
CoreCodec.v
CoreCache.v
NcpFrames.v
NcpHandshake.v
NcpSession.v
NcpFailover.v
NopFrames.v
NopDag.v
NopMapper.v
NopCondition.v
NopConditionSpec.v
NopStore.v
NopCallback.v
NopDelegation.v
NopOrchestrator.v
NopOrchestratorSpec.v
NwpTopology.v
NwpFence.v
NdpFrames.v
NdpRegistry.v
NdpProfile.v
NipFrames.v
NipDer.v
NipX509.v
NipVerifier.v
NipSigner.v
NdpValidator.v
NipRa.v
NipCaStore.v
NipCaService.v
NipCaSpec.v
NwpContext.v
NwpContextSpec.v
NwpMemory.v
NwpQuery.v
NwpQuerySpec.v
NwpAction.v
NwpActionSpec.v
NipReputation.v
NwpReputation.v
NwpAnchor.v
NwpAnchorSpec.v
NwpAnchorClient.v
NopProfile.v
NopProfileSpec.v
NwpComplex.v
NwpComplexSpec.v
NwpLlm.v
NwpLlmSpec.v
NipX509Builder.v
NipAcme.v
NipAcmeClient.v
NipAcmeSpec.v
NipAcmeFlow.v
NipCaRouter.v
NipCaSqlStore.v
NpsConformance.v
NipCaRouterSpec.v
NipCaClient.v
NwpFrames.v
NwpProfile.v
NwpBridge.v
NwpBridgeMcp.v
NwpBridgeServer.v
NwpBridgeSpec.v
NwpSqlProvider.v
NwpNative.v
NopClient.v
NipIdentity.v
CaServer.v
CaServerSpec.v
