(* ===== verification/Prelude.v ===== *)
(** * NPS Rust SDK: a verification library

    The NPS SDK implements five protocols in five crates over a common one:
    nps-core (frames and their encodings), nps-ncp (the native transport),
    nps-nop (orchestration of tasks over agents), nps-ndp (discovery), nps-nip
    (identities and their certificate authority) and nps-nwp (the nodes that
    serve data and actions).  This library translates their code, file by
    file, into executable definitions and proves what each part promises and
    what the parts promise together.

    ** Conventions

    A [u64], [i64], [u32] or [f64] keeps its width: integers are [Z] with the
    bounds and the wrap-around of the source written out, floats are the
    standard library's [spec_float].  A [String] is its UTF-8 bytes.  A
    [serde_json::Value] is [Json.Value], an object a list sorted by key.  A
    [Result] is [Prelude.result]; a function that can panic answers an
    [option], [None] being the panic.  A method behind a lock is a [Calls.Call],
    a state monad with errors and panics.  A [HashMap] is a [gmap]; where the
    code observes its order, the order is an argument.  A time is a number of
    nanoseconds, and each reading of a clock and each random draw is an
    argument or comes from an environment.

    A type class, or a record of operations, stands for code that is not in
    the repository, or for the host of the code: the serializers
    ([SerdeCodec], [JsonParser] and the [*Serde] classes for derived code),
    digests, signatures and encodings ([Digests], [Ed25519],
    [Ed25519Signing], [Base64] and its encoders, [HexDecoder]), dates
    ([Timestamps], [DateTimes], [Calendar], [Clocks], [ContextTime],
    [SystemTimes], [CaDates]), certificates ([X509Parser], [Rcgen],
    [CsrParser]), keys and their files ([KeyCipher], [FileSystem],
    [Connection]), texts ([DebugText], [FloatText], [StatusText],
    [UrlParser]) and surroundings ([NopEnv], [HashOrder], [ReputationLogs],
    [LlmEnv]). Their [*Laws] state documented behaviour only, such as that
    what was written is read back, and every theorem that needs them has a
    witness at a concrete instance.

    ** The files

    Shared: Prelude (results, options, lists, fuel, the hint databases), Calls
    (methods over a store), RustStr (str), Floats, Json.

    nps-core: CoreFrames (frames.rs, error.rs, registry.rs), CoreCodec
    (codec.rs), CoreCache (cache.rs); ErrorCodes holds status_codes.rs and the
    error codes of all crates.

    nps-ncp: NcpFrames (lib.rs), NcpHandshake (preamble.rs, patch_format.rs,
    encoding_policy.rs, handshake_profile.rs), NcpSession (transport.rs: both
    ends of a connection over CoreCodec and NcpHandshake), NcpFailover
    (failover.rs).

    nps-nop: NopModels and NopFrames are its data.  NopDag validates a graph,
    NopCallback a callback URL, NopCondition (with NopConditionSpec) decides
    the condition of a node, NopMapper builds its parameters and merges
    results, NopStore keeps task records, NopDelegation follows a cluster over
    a failover; NopOrchestrator (with NopOrchestratorSpec) runs a task through
    all of them.  NopProfile and NopProfileSpec: portable_profile.rs.

    nps-ndp: NdpFrames (frames.rs), NdpRegistry (registry.rs, dns_txt.rs,
    federation.rs), NdpProfile (registry_profile.rs), NdpValidator
    (validator.rs, over the key texts of NipSigner).

    nps-nip: NipFrames; NipDer (phase3.rs, x509/oids.rs), NipX509
    (x509/verifier.rs), NipVerifier (verifier.rs, revocation_policy.rs,
    trust_validator.rs) check identities.  NipSigner, NipRa, NipCaStore and
    NipCaService (with NipCaSpec) are the certificate authority,
    NipX509Builder its certificates, NipCaRouter (with NipCaRouterSpec) its
    HTTP interface.  NipAcme, NipAcmeClient, NipAcmeSpec and NipAcmeFlow: the
    agent-01 challenge, server and client.  NipReputation: signed incident
    logs.

    nps-nwp: NwpTopology, NwpFence (anchor_fence.rs), NwpAnchor and
    NwpAnchorSpec (anchor_server.rs behind NwpReputation), NwpAnchorClient
    (anchor_client.rs, run against NwpAnchor); NwpMemory (memory_server.rs,
    node_http.rs), NwpQuery and NwpQuerySpec (query.rs); NwpAction and
    NwpActionSpec (action_server.rs); NwpComplex and NwpComplexSpec
    (complex_server.rs); NwpContext and NwpContextSpec (context_store.rs),
    NwpLlm and NwpLlmSpec (llm_action_server.rs over that store).
    NwpFrames (frames.rs, cgn.rs) and NwpProfile (portable_profile.rs) are the
    frames of the protocol and its portable decisions.  NwpBridge holds what
    the inbound bridges share (bridge_inbound/backend.rs, error_map.rs,
    tool_name.rs, jsonrpc.rs, options.rs), NwpBridgeMcp the MCP bridge
    (mcp.rs), NwpBridgeServer the other two (a2a.rs, grpc.rs) and the HTTP host
    in front of them (server.rs), NwpBridgeSpec their properties.
    NwpSqlProvider (sql_provider.rs) pages a table through NwpQuery; NwpNative
    holds both ends of a conversation in frames (native_server.rs, client.rs).

    Clients, stores and servers: NopClient is nps-nop/src/client.rs and
    callback.rs.  NipCaClient (nps-nip/src/ca_client.rs) is run against
    NipCaRouter.  NipCaSqlStore (nps-nip/src/ca/sql_store.rs) is a second store
    behind the interface of NipCaStore.  NipIdentity: identity.rs.  CaServer
    and CaServerSpec are ca-server (ca.rs, db.rs, main.rs).  CoreObservability
    measures: telemetry.rs of nps-core, nps-nwp and nps-nop, and
    nps-core/src/observability.rs.  NpsConformance is nps-conformance (lib.rs,
    alpha19.rs).

    A file named Spec holds the properties of the file before it; the other
    files hold their own after the definitions.

    ** What the theorems show

    Orchestration: a run that reports completion completed its end nodes,
    respects dependencies and the concurrency limit under every completion
    order, ends, and leaves the store in the state it reports; the condition
    language evaluates as its grammar says, but for a Boolean literal at the
    left of a comparison; validation accepts exactly the acyclic well-formed
    graphs; the portable profile runs the least topological order and
    compensates in reverse.

    Transport: frames, headers and payloads that the decoders of the host
    admit (no float in JSON, nothing nested deeper than the limits of
    serde_json and rmp_serde, CoreCodec.shallow) are read back as they were
    sent, over any split of a session into frames; both ends of a handshake
    agree on what was negotiated.

    Discovery and identity: an announcement under an older number is never
    replayed; a certificate is accepted exactly under the documented steps;
    a chain the authority issues verifies; a revocation is permanent,
    reaches the sessions of a group and is seen over HTTP; every certificate
    of the ACME server was earned by signed requests, a nonce opens one
    request, and the client gets its certificate; without the operator's key
    nothing changes the authority but a signed request of a group or a
    decision on a pending registration.

    Nodes: a context has one mutation in flight and none is lost, and a
    completion or a stream resolves its reservation once, under every
    interleaving; tasks only move forward, and one whose thread ended is
    final unless its provider cancelled its own handle; an idempotency key
    replays the answer of its own caller once that answer is stored (calls
    that overlap both execute); a network of complex nodes answers after
    finitely many fetches; calls reach the handler of an Anchor only through
    its gate, its budget and its limiter; a fenced Anchor never acts under
    an old epoch; SQL text denotes the filter and never contains a value;
    answers stay within their budgets.

    Bridges and clients: a tool the MCP bridge lists is the one that its
    name calls, with the answer of its node; every request of a bridge has
    the answer its path, method, headers and body ask for, and none reaches
    a node before the verifier and the body limit; the portable decisions
    are those of a table of cases; what the CA client revoked is refused to
    it afterwards and is in the list whose signature it checks.

    Stores and servers: streaming over SQL pages gives every row once, in
    order, and ends; a query over the native transport is answered with what
    the handler of the node returned; the SQL store of certificates answers
    as the in-memory one does, but where it chooses among the records of a NID
    by the text of their dates; an identity that was saved loads with its
    passphrase; the CA server keeps and revokes what it registers, its dates
    are those of the calendar and are read back, and its numbering stops at
    the tenth certificate.  A conformance manifest is valid exactly when it
    answers every case of its catalog consistently.

    ** Fuel

    Recursion that is not structural has fuel, and a theorem (or the shape
    of the recursion) says that the fuel given is enough: the topological
    sorts use one more than the number of nodes, since each round settles a
    node (NopDag.validate_dag_correct,
    NopProfileSpec.stable_topology_least); the tokenizer and the parser of
    conditions use the length of their input
    (NopConditionSpec.evaluate_expr); the DAG loop uses the nodes not yet
    run (NopOrchestratorSpec.run_dag_reports); a network of complex nodes
    uses the requested depth, which the code bounds by 5
    (NwpComplexSpec.network_expansion); a stream of SQL pages uses one more
    than the rows (NwpSqlProvider.stream_all_rows), a native conversation
    one more than the bytes to read (NwpNative.serve_stream_ends), a wait
    the polls that fit before its deadline (NopClient.wait_ends); string
    searches use the length of the string.  The eight draws of a context id
    and the steps of a task thread are bounds of the source.

    ** Not modelled

    Sockets, HTTP transports, database drivers, ciphers and file systems are
    parameters of the files that use them, and derived serializers are classes.
    The records of outbound bridges (bridge.rs) have no operations, and nps-sdk
    only re-exports.  Left out are the time-outs that fire
    inside a blocking read: a run of the native transport is one in which no
    deadline fires.  A DAG node in flight acts on the store only when it ends;
    NopStore.update_subtask_commute is why that loses nothing. *)

From stdpp Require Export base gmap strings list sorting pretty.
From Stdlib Require Export ZArith Lia.

Local Open Scope Z_scope.

(** ** Rust's [Result] *)

(** [Result<A, E>]; the error type comes first so that [result E] is a
    monad and stdpp's [x ← m; k] is Rust's [?]. *)
Inductive result (E A : Type) : Type :=
| Ok (a : A)
| Err (e : E).
Arguments Ok {E A} a.
Arguments Err {E A} e.

#[export] Instance result_ret E : MRet (result E) := fun A a => Ok a.
#[export] Instance result_bind E : MBind (result E) := fun A B f m =>
  match m with Ok a => f a | Err e => Err e end.
#[export] Instance result_fmap E : FMap (result E) := fun A B f m =>
  match m with Ok a => Ok (f a) | Err e => Err e end.

#[export] Instance result_eq_dec {E A} `{EqDecision E, EqDecision A} :
  EqDecision (result E A).
Proof.
  intros [a|e] [b|f]; unfold Decision; decide equality; apply decide; tc_solve.
Defined.

(** [Option::ok_or]. *)
Definition ok_or {E A} (o : option A) (e : E) : result E A :=
  match o with Some a => Ok a | None => Err e end.

(** [Result::map_err]. *)
Definition map_err {E F A} (f : E -> F) (r : result E A) : result F A :=
  match r with Ok a => Ok a | Err e => Err (f e) end.

Definition is_ok {E A} (r : result E A) : bool :=
  match r with Ok _ => true | Err _ => false end.

Lemma result_bind_Ok {E A B} (m : result E A) (f : A -> result E B) b :
  (m ≫= f) = Ok b <-> exists a, m = Ok a /\ f a = Ok b.
Proof.
  destruct m as [a|e]; cbn; split.
  - by exists a.
  - intros (? & [= ->] & ?). done.
  - done.
  - by intros (? & ? & ?).
Qed.

Lemma ok_or_Ok {E A} (o : option A) (e : E) a : ok_or o e = Ok a <-> o = Some a.
Proof. destruct o; cbn; split; congruence. Qed.

(** ** Machine integers *)

Definition u8_range (z : Z) : Prop := 0 <= z < 256.
Definition u64_max : Z := 18446744073709551615.
Definition i64_max : Z := 9223372036854775807.
Definition i64_min : Z := -9223372036854775808.
Definition is_u64 (z : Z) : bool := (0 <=? z) && (z <=? u64_max).
Definition u64_range (z : Z) : Prop := 0 <= z <= u64_max.

(** [as u16], [as u32]: truncation to the width. *)
Definition wrap_u8 (z : Z) : Z := z mod 256.
Definition wrap_u16 (z : Z) : Z := z mod 65536.
Definition wrap_u32 (z : Z) : Z := z mod 4294967296.
Definition wrap_u64 (z : Z) : Z := z mod 18446744073709551616.

(** [to_be_bytes] and [from_be_bytes] of an [n]-byte integer. *)
Fixpoint be_bytes (n : nat) (z : Z) : list Z :=
  match n with
  | O => []
  | S m => be_bytes m (z / 256) ++ [z mod 256]
  end.

Definition be_val (l : list Z) : Z := fold_left (fun acc b => acc * 256 + b) l 0.

(** [to_le_bytes] and [from_le_bytes]. *)
Fixpoint le_bytes (n : nat) (z : Z) : list Z :=
  match n with
  | O => []
  | S m => z mod 256 :: le_bytes m (z / 256)
  end.

Fixpoint le_val (l : list Z) : Z :=
  match l with [] => 0 | b :: r => b + 256 * le_val r end.

Lemma be_bytes_length n z : length (be_bytes n z) = n.
Proof. revert z; induction n; intros; cbn; rewrite ?length_app, ?IHn; cbn; lia. Qed.

Lemma be_bytes_u8 n z : Forall u8_range (be_bytes n z).
Proof.
  revert z; induction n; intros; cbn; [constructor |].
  apply Forall_app; split; [apply IHn | repeat constructor];
    unfold u8_range; apply Z.mod_pos_bound; lia.
Qed.

Lemma be_val_snoc l b : be_val (l ++ [b]) = be_val l * 256 + b.
Proof. unfold be_val. by rewrite fold_left_app. Qed.

Lemma be_val_be_bytes n z : be_val (be_bytes n z) = z mod 256 ^ Z.of_nat n.
Proof.
  revert z; induction n; intros z; cbn [be_bytes].
  - cbn. by rewrite Z.mod_1_r.
  - rewrite be_val_snoc, IHn, Nat2Z.inj_succ, Z.pow_succ_r by lia.
    rewrite (Z.rem_mul_r z 256) by lia. lia.
Qed.

Lemma be_val_range l : Forall u8_range l -> 0 <= be_val l < 256 ^ Z.of_nat (length l).
Proof.
  induction l as [|b l IH] using rev_ind; intros H; [cbn; lia |].
  apply Forall_app in H as [Hl Hb]. inversion_clear Hb as [|? ? Hb' _].
  rewrite be_val_snoc, length_app; cbn [length].
  rewrite Nat.add_1_r, Nat2Z.inj_succ, Z.pow_succ_r by lia.
  specialize (IH Hl). unfold u8_range in Hb'. lia.
Qed.

Lemma be_bytes_be_val l : Forall u8_range l -> be_bytes (length l) (be_val l) = l.
Proof.
  induction l as [|b l IH] using rev_ind; intros H; [done |].
  apply Forall_app in H as [Hl Hb]. inversion_clear Hb as [|? ? Hb' _].
  unfold u8_range in Hb'.
  rewrite length_app, Nat.add_1_r; cbn [be_bytes].
  rewrite be_val_snoc.
  replace ((be_val l * 256 + b) / 256) with (be_val l)
    by (rewrite Z.div_add_l, Z.div_small by lia; lia).
  rewrite Z.add_comm, Z.mod_add, Z.mod_small by lia. by rewrite IH.
Qed.

Lemma le_bytes_length n z : length (le_bytes n z) = n.
Proof. revert z; induction n; intros; cbn; by rewrite ?IHn. Qed.

Lemma le_val_le_bytes n z : le_val (le_bytes n z) = z mod 256 ^ Z.of_nat n.
Proof.
  revert z; induction n; intros z; cbn [le_bytes le_val].
  - cbn. by rewrite Z.mod_1_r.
  - rewrite IHn, Nat2Z.inj_succ, Z.pow_succ_r by lia.
    rewrite (Z.rem_mul_r z 256) by lia. lia.
Qed.

(** ** Clocks

    An [Instant] is a number of nanoseconds; its seconds are an [i64], and
    adding a [Duration] that leaves that range panics ([None]). *)
Definition nanos_per_sec : Z := 1000000000.
Definition instant_add_secs (now secs : Z) : option Z :=
  if i64_max <? now / nanos_per_sec + secs then None
  else Some (now + secs * nanos_per_sec).

Lemma instant_add_secs_Some now secs t :
  instant_add_secs now secs = Some t -> t = now + secs * nanos_per_sec.
Proof. unfold instant_add_secs. case_match; congruence. Qed.

(** ** Slices *)

(** [&v[a..b]], for [a <= b <= v.len()]. *)
Definition slice {A} (a b : nat) (l : list A) : list A := take (b - a) (drop a l).

Lemma slice_app_r {A} (l k : list A) : slice (length l) (length l + length k) (l ++ k) = k.
Proof.
  unfold slice. rewrite drop_app_length.
  replace (length l + length k - length l)%nat with (length k) by lia. apply take_ge. lia.
Qed.

(** ** Automation *)

Create HintDb nps.
Create Rewrite HintDb nps.
#[export] Hint Rewrite @length_app @be_bytes_length @le_bytes_length : nps.
#[export] Hint Resolve be_bytes_u8 : nps.

(** Split every [match] of the goal and of the hypotheses, and simplify. *)
Ltac crush_match :=
  repeat (case_match; simplify_eq/=; try done).

(** Split a conjunction of booleans in the hypotheses. *)
Ltac bool_hyps :=
  repeat match goal with
  | H : _ && _ = true |- _ => apply andb_true_iff in H as [? ?]
  | H : _ || _ = false |- _ => apply orb_false_iff in H as [? ?]
  | H : negb _ = true |- _ => apply negb_true_iff in H
  | H : negb _ = false |- _ => apply negb_false_iff in H
  | H : bool_decide _ = true |- _ => apply bool_decide_eq_true in H
  | H : bool_decide _ = false |- _ => apply bool_decide_eq_false in H
  end.

(** Turn boolean comparisons of integers in the hypotheses into propositions. *)
Ltac cmp_hyps :=
  repeat match goal with
  | H : (_ <? _)%Z = true |- _ => apply Z.ltb_lt in H
  | H : (_ <? _)%Z = false |- _ => apply Z.ltb_ge in H
  | H : (_ <=? _)%Z = true |- _ => apply Z.leb_le in H
  | H : (_ <=? _)%Z = false |- _ => apply Z.leb_gt in H
  | H : (_ =? _)%Z = true |- _ => apply Z.eqb_eq in H
  | H : (_ =? _)%Z = false |- _ => apply Z.eqb_neq in H
  | H : (_ <? _)%nat = true |- _ => apply Nat.ltb_lt in H
  | H : (_ <? _)%nat = false |- _ => apply Nat.ltb_ge in H
  | H : (_ <=? _)%nat = true |- _ => apply Nat.leb_le in H
  | H : (_ <=? _)%nat = false |- _ => apply Nat.leb_gt in H
  | H : (_ =? _)%nat = true |- _ => apply Nat.eqb_eq in H
  | H : (_ =? _)%nat = false |- _ => apply Nat.eqb_neq in H
  end.

(** Case-split the first boolean comparison an [if] of the goal tests, and
    close the branch arithmetic rules out. *)
Ltac split_if := 
  match goal with
  | |- context [if ?b then _ else _] =>
    let E := fresh "E" in destruct b eqn:E; bool_hyps; cmp_hyps; try (exfalso; lia)
  end.
