(* ===== verification/Calls.v ===== *)
(** * Calls: methods that read and change a store

    The body of a method behind a lock, as a state monad with errors and
    panics: [None] is a panic, and an error keeps the store as the method left
    it when it returned. *)

From S2P Require Import Prelude.

Section monad.
Context {E S : Type}.
Definition Call (A : Type) : Type := S -> option (result E A * S).
Definition call_ret {A} (a : A) : Call A := fun s => Some (Ok a, s).
Definition call_bind {A B} (m : Call A) (f : A -> Call B) : Call B := fun s =>
  match m s with
  | None => None
  | Some (Err e, s') => Some (Err e, s')
  | Some (Ok a, s') => f a s'
  end.
Definition call_fail {A} (e : E) : Call A := fun s => Some (Err e, s).
Definition call_result {A} (r : result E A) : Call A := fun s => Some (r, s).
Definition call_panic {A} (o : option A) : Call A := fun s =>
  match o with Some a => Some (Ok a, s) | None => None end.
Definition call_get {A} (f : S -> A) : Call A := fun s => Some (Ok (f s), s).
Definition call_modify (f : S -> S) : Call unit := fun s => Some (Ok tt, f s).
End monad.

Declare Scope call_scope.
Delimit Scope call_scope with call.
Notation "x <- m ;; k" := (call_bind m (fun x => k)) (at level 100, m at next level, right associativity) : call_scope.
Notation "m ;; k" := (call_bind m (fun _ => k)) (at level 100, right associativity) : call_scope.

(** ** Inverting a call *)

Lemma call_bind_inv {E S A B} (m : Call (E := E) (S := S) A) (f : A -> Call B) s out s' :
  call_bind m f s = Some (out, s') ->
  (exists e, m s = Some (Err e, s') /\ out = Err e) \/
  (exists a s1, m s = Some (Ok a, s1) /\ f a s1 = Some (out, s')).
Proof.
  unfold call_bind. destruct (m s) as [[[a|e] s1]|]; [| |done].
  - intros H. right. by exists a, s1.
  - intros [= <- <-]. left. by exists e.
Qed.

Lemma call_result_inv {E S A} (r : result E A) (s : S) out s' :
  call_result r s = Some (out, s') -> r = out /\ s' = s.
Proof. by intros [= -> ->]. Qed.

Lemma call_panic_inv {E S A} (o : option A) (s : S) out s' :
  call_panic (E := E) o s = Some (out, s') -> exists a, o = Some a /\ out = Ok a /\ s' = s.
Proof. unfold call_panic. destruct o as [a|]; [|done]. intros [= <- <-]. by exists a. Qed.

Lemma call_get_inv {E S A} (f : S -> A) (s : S) out s' :
  call_get (E := E) f s = Some (out, s') -> out = Ok (f s) /\ s' = s.
Proof. by intros [= <- <-]. Qed.

Lemma call_ret_inv {E S A} (a : A) (s : S) out s' :
  call_ret (E := E) a s = Some (out, s') -> out = Ok a /\ s' = s.
Proof. by intros [= <- <-]. Qed.

Lemma call_fail_inv {E S A} (e : E) (s : S) out s' :
  call_fail (A := A) e s = Some (out, s') -> out = Err e /\ s' = s.
Proof. by intros [= <- <-]. Qed.

(** A call that succeeds, with its result named. *)
Lemma call_done {E S A} (m : option (result E A * S)) :
  match m with Some (Ok _, _) => true | _ => false end = true -> exists a g, m = Some (Ok a, g).
Proof. destruct m as [[[a|e] g]|]; [|done..]. intros _. by exists a, g. Qed.

(** Name the result of a closed call that computes to a success. *)
Ltac run_call m a g E :=
  destruct (call_done m) as (a & g & E); [vm_compute; reflexivity |].
