(* ===== verification/RustStr.v ===== *)
(** * RustStr: the [str] and [String] operations the program uses

    A Rust string is a Stdlib [string] holding its UTF-8 bytes; a [char] is
    its code point as a [Z].  [chars] and [of_chars] decode and encode
    UTF-8, so the operations that work on characters ([trim],
    [split_whitespace], the tokenizer of the condition language) see whole
    code points, and the operations on byte indices see bytes. *)

From S2P Require Import Prelude.
From Stdlib Require Export Ascii.
Local Open Scope Z_scope.

(** ** Bytes *)

Definition byte_of (a : ascii) : Z := Z.of_N (N_of_ascii a).
Definition ascii_of (b : Z) : ascii := ascii_of_N (Z.to_N b).

(** [str::as_bytes] and [String::from_utf8_unchecked]. *)
Fixpoint bytes_of (s : string) : list Z :=
  match s with
  | EmptyString => []
  | String.String a r => byte_of a :: bytes_of r
  end.

Fixpoint of_bytes (l : list Z) : string :=
  match l with
  | [] => EmptyString
  | b :: r => String.String (ascii_of b) (of_bytes r)
  end.

Lemma ascii_of_byte_of a : ascii_of (byte_of a) = a.
Proof. unfold ascii_of, byte_of. by rewrite N2Z.id, ascii_N_embedding. Qed.

Lemma of_bytes_bytes_of s : of_bytes (bytes_of s) = s.
Proof. induction s; cbn; [done |]. by rewrite ascii_of_byte_of, IHs. Qed.

Lemma bytes_of_u8 s : Forall u8_range (bytes_of s).
Proof.
  induction s as [|a s IH]; cbn; constructor; [|done].
  unfold u8_range, byte_of. pose proof (N_ascii_bounded a). lia.
Qed.

Lemma bytes_of_app s t : bytes_of (s +:+ t) = bytes_of s ++ bytes_of t.
Proof. induction s as [|a s IH]; [done |]. change (bytes_of (String.String a (s +:+ t)) = byte_of a :: bytes_of s ++ bytes_of t). cbn [bytes_of]. by rewrite IH. Qed.

Definition is_empty (s : string) : bool :=
  match s with EmptyString => true | _ => false end.

(** ** Characters *)

Fixpoint decode_utf8 (l : list Z) : list Z :=
  match l with
  | [] => []
  | b0 :: r0 =>
    if b0 <? 128 then b0 :: decode_utf8 r0 else
    match r0 with
    | [] => [b0]
    | b1 :: r1 =>
      if b0 <? 224 then (b0 mod 32) * 64 + b1 mod 64 :: decode_utf8 r1 else
      match r1 with
      | [] => [b0; b1]
      | b2 :: r2 =>
        if b0 <? 240
        then (b0 mod 16) * 4096 + (b1 mod 64) * 64 + b2 mod 64 :: decode_utf8 r2
        else match r2 with
        | [] => [b0; b1; b2]
        | b3 :: r3 =>
          (b0 mod 8) * 262144 + (b1 mod 64) * 4096 + (b2 mod 64) * 64 + b3 mod 64
            :: decode_utf8 r3
        end
      end
    end
  end.

Definition encode_char (c : Z) : list Z :=
  if c <? 128 then [c]
  else if c <? 2048 then [192 + c / 64; 128 + c mod 64]
  else if c <? 65536 then [224 + c / 4096; 128 + (c / 64) mod 64; 128 + c mod 64]
  else [240 + c / 262144; 128 + (c / 4096) mod 64; 128 + (c / 64) mod 64; 128 + c mod 64].

Definition chars (s : string) : list Z := decode_utf8 (bytes_of s).
Definition of_chars (l : list Z) : string := of_bytes (concat (map encode_char l)).

(** [char::is_whitespace]: the Unicode property White_Space. *)
Definition is_whitespace (c : Z) : bool :=
  ((9 <=? c) && (c <=? 13)) || (c =? 32) || (c =? 133) || (c =? 160) || (c =? 5760)
  || ((8192 <=? c) && (c <=? 8202)) || (c =? 8232) || (c =? 8233) || (c =? 8239)
  || (c =? 8287) || (c =? 12288).

Definition is_ascii_digit (c : Z) : bool := (48 <=? c) && (c <=? 57).
Definition is_ascii_alphabetic (c : Z) : bool :=
  ((65 <=? c) && (c <=? 90)) || ((97 <=? c) && (c <=? 122)).

(** The Unicode tables behind [char::is_alphabetic] and [char::is_numeric],
    for code points outside ASCII; on ASCII both are fixed. *)
Class UnicodeTables : Type := {
  uni_alphabetic : Z -> bool;
  uni_numeric : Z -> bool
}.

Definition is_alphabetic `{UnicodeTables} (c : Z) : bool :=
  if c <? 128 then is_ascii_alphabetic c else uni_alphabetic c.
Definition is_alphanumeric `{UnicodeTables} (c : Z) : bool :=
  if c <? 128 then is_ascii_alphabetic c || is_ascii_digit c
  else uni_alphabetic c || uni_numeric c.

Fixpoint drop_while {A} (p : A -> bool) (l : list A) : list A :=
  match l with
  | [] => []
  | x :: r => if p x then drop_while p r else l
  end.

Fixpoint take_while {A} (p : A -> bool) (l : list A) : list A :=
  match l with
  | [] => []
  | x :: r => if p x then x :: take_while p r else []
  end.

Lemma take_drop_while {A} (p : A -> bool) l : take_while p l ++ drop_while p l = l.
Proof. induction l; cbn; [done |]. destruct (p a); cbn; by f_equal. Qed.

Lemma drop_while_length {A} (p : A -> bool) l : (length (drop_while p l) <= length l)%nat.
Proof. induction l; cbn; [lia |]. destruct (p a); cbn; lia. Qed.

(** [str::trim]. *)
Definition trim (s : string) : string :=
  of_chars (rev (drop_while is_whitespace (rev (drop_while is_whitespace (chars s))))).

(** Groups of characters that satisfy no [p], separated by those that do;
    empty groups are dropped. *)
Fixpoint fields (p : Z -> bool) (cur : list Z) (l : list Z) : list (list Z) :=
  match l with
  | [] => if decide (cur = []) then [] else [rev cur]
  | c :: r =>
    if p c then (if decide (cur = []) then fields p [] r else rev cur :: fields p [] r)
    else fields p (c :: cur) r
  end.

(** [str::split_whitespace]. *)
Definition split_whitespace (s : string) : list string :=
  map of_chars (fields is_whitespace [] (chars s)).

(** ** Substrings *)

(** [str::strip_prefix]. *)
Fixpoint strip_prefix (p s : string) : option string :=
  match p, s with
  | EmptyString, _ => Some s
  | String.String a p', String.String b s' => if Ascii.eqb a b then strip_prefix p' s' else None
  | String.String _ _, EmptyString => None
  end.

(** [str::starts_with]. *)
Definition starts_with (p s : string) : bool :=
  match strip_prefix p s with Some _ => true | None => false end.

(** [str::split(c)] on an ASCII separator: always at least one segment. *)
Fixpoint split_on (c : ascii) (s : string) : list string :=
  match s with
  | EmptyString => [EmptyString]
  | String.String a r =>
    if Ascii.eqb a c then EmptyString :: split_on c r
    else match split_on c r with
         | [] => [String.String a EmptyString]
         | x :: xs => String.String a x :: xs
         end
  end.

(** [str::split_once(c)]. *)
Fixpoint split_once (c : ascii) (s : string) : option (string * string) :=
  match s with
  | EmptyString => None
  | String.String a r =>
    if Ascii.eqb a c then Some (EmptyString, r)
    else match split_once c r with
         | Some (x, y) => Some (String.String a x, y)
         | None => None
         end
  end.

(** [[String]::join(sep)]. *)
Fixpoint join (sep : string) (l : list string) : string :=
  match l with
  | [] => ""
  | [x] => x
  | x :: r => x +:+ sep +:+ join sep r
  end.

Definition ascii_lower (a : ascii) : ascii :=
  let b := byte_of a in if (65 <=? b) && (b <=? 90) then ascii_of (b + 32) else a.

(** [str::to_ascii_lowercase] and [str::eq_ignore_ascii_case]. *)
Fixpoint to_ascii_lowercase (s : string) : string :=
  match s with
  | EmptyString => EmptyString
  | String.String a r => String.String (ascii_lower a) (to_ascii_lowercase r)
  end.
Definition eq_ignore_ascii_case (s t : string) : bool :=
  String.eqb (to_ascii_lowercase s) (to_ascii_lowercase t).

(** ** Numbers in strings *)

Fixpoint digits_val (acc : Z) (l : list Z) : option Z :=
  match l with
  | [] => Some acc
  | c :: r => if is_ascii_digit c then digits_val (acc * 10 + (c - 48)) r else None
  end.

(** [str::parse::<u64>]: an optional [+], then at least one ASCII digit, in
    range. *)
Definition parse_u64 (s : string) : option Z :=
  let body := match strip_prefix "+" s with Some r => r | None => s end in
  if is_empty body then None
  else match digits_val 0 (bytes_of body) with
       | Some n => if n <=? u64_max then Some n else None
       | None => None
       end.

(** [format!("{n}")]. *)
Definition fmt_Z (n : Z) : string := pretty n.

(** [format!("{b:02X}")] for a byte. *)
Definition hex_digit_upper (d : Z) : ascii := ascii_of (if d <? 10 then 48 + d else 55 + d).
Definition fmt_02X (b : Z) : string :=
  String.String (hex_digit_upper (b / 16)) (String.String (hex_digit_upper (b mod 16)) "").

Lemma digits_val_nonneg acc l n : 0 <= acc -> digits_val acc l = Some n -> 0 <= n.
Proof.
  revert acc; induction l as [|c l IH]; cbn; intros acc Ha H; [naive_solver |].
  destruct (is_ascii_digit c) eqn:Hc; [|done].
  unfold is_ascii_digit in Hc. apply IH in H; lia.
Qed.

Lemma parse_u64_range s n : parse_u64 s = Some n -> u64_range n.
Proof.
  unfold parse_u64. intros H. destruct (is_empty _); [done |].
  destruct (digits_val 0 _) eqn:Hd; [|done].
  apply digits_val_nonneg in Hd; [|lia].
  destruct (_ <=? u64_max) eqn:?; simplify_eq/=. unfold u64_range. lia.
Qed.

Lemma strip_prefix_spec p s r : strip_prefix p s = Some r <-> s = p +:+ r.
Proof.
  revert s; induction p as [|a p IH]; intros s.
  { change (Some s = Some r <-> s = r). split; congruence. }
  change (String.String a p +:+ r) with (String.String a (p +:+ r)).
  destruct s as [|b s]; cbn [strip_prefix]; [done |].
  destruct (Ascii.eqb_spec a b) as [->|Hne].
  - rewrite IH. split; [by intros -> | congruence].
  - split; [done |]. congruence.
Qed.

Lemma starts_with_spec p s : starts_with p s = true <-> exists r, s = p +:+ r.
Proof.
  unfold starts_with. destruct (strip_prefix p s) as [r|] eqn:E.
  - apply strip_prefix_spec in E. split; [by exists r | done].
  - split; [done |]. intros [r Hr]. apply strip_prefix_spec in Hr. congruence.
Qed.

(** *** Separators *)

(** The string has no occurrence of the separator. *)
Definition lacks (c : ascii) (s : string) : Prop := split_on c s = [s].

Lemma split_on_cons c s : exists x l, split_on c s = x :: l.
Proof.
  destruct s as [|a s]; [by exists "", [] |]. cbn.
  destruct (Ascii.eqb a c); [by eexists _, _ |]. destruct (split_on c s); by eexists _, _.
Qed.

Lemma lacks_cons c a s : lacks c (String.String a s) <-> a <> c /\ lacks c s.
Proof.
  unfold lacks. cbn. destruct (Ascii.eqb_spec a c) as [->|Hne].
  - split; [done | tauto].
  - destruct (split_on_cons c s) as (x & l & ->). split.
    + intros [= -> ->]. done.
    + intros [_ E]. by simplify_eq.
Qed.

Lemma split_on_app c s t :
  lacks c s -> split_on c (s +:+ String.String c t) = s :: split_on c t.
Proof.
  induction s as [|a s IH]; intros Hs.
  - change (split_on c (String.String c t) = "" :: split_on c t). cbn [split_on].
    by rewrite Ascii.eqb_refl.
  - change (String.String a s +:+ String.String c t) with (String.String a (s +:+ String.String c t)).
    apply lacks_cons in Hs as [Hne%Ascii.eqb_neq Hs]. cbn [split_on]. by rewrite Hne, (IH Hs).
Qed.

Lemma join_cons sep x y l : join sep (x :: y :: l) = x +:+ sep +:+ join sep (y :: l).
Proof. done. Qed.

Lemma split_on_join c segs :
  Forall (lacks c) segs -> segs <> [] -> split_on c (join (String.String c "") segs) = segs.
Proof.
  intros H Hne. induction H as [|s segs Hs H IH]; [done |].
  destruct segs as [|s2 segs]; [done |]. rewrite join_cons.
  change (String.String c "" +:+ ?r) with (String.String c r). by rewrite split_on_app, IH.
Qed.

Lemma split_on_lacks c s : Forall (lacks c) (split_on c s).
Proof.
  induction s as [|a s IH]; cbn; [by repeat constructor |].
  destruct (Ascii.eqb_spec a c) as [->|Hne]; [by constructor |].
  destruct (split_on_cons c s) as (x & l & E). rewrite E in *.
  inversion_clear IH. constructor; [by apply lacks_cons | done].
Qed.

Lemma join_split_on c s : join (String.String c "") (split_on c s) = s.
Proof.
  induction s as [|a s IH]; [done |]. cbn [split_on].
  destruct (split_on_cons c s) as (x & l & E). rewrite E in *.
  destruct (Ascii.eqb_spec a c) as [->|Hne].
  - rewrite join_cons, IH. done.
  - rewrite <-IH. by destruct l.
Qed.

Lemma split_once_spec c s x y :
  split_once c s = Some (x, y) <-> s = x +:+ String.String c y /\ lacks c x.
Proof.
  revert x; induction s as [|a s IH]; intros x; cbn.
  - split; [done |]. by intros [E _]; destruct x.
  - destruct (Ascii.eqb_spec a c) as [->|Hne].
    + split; [by intros [= <- <-] |]. intros [E Hx]. destruct x as [|b x].
      * by injection E as ->.
      * apply lacks_cons in Hx as [Hb _]. by injection E as <- _.
    + destruct (split_once c s) as [[u v]|] eqn:E.
      * split.
        -- intros [= <- <-]. destruct (proj1 (IH u) eq_refl) as [-> Hu]. split; [done |].
           by apply lacks_cons.
        -- intros [E' Hx]. destruct x as [|b x]; [by injection E' as -> _ |].
           apply lacks_cons in Hx as [_ Hx]. injection E' as -> ->.
           pose proof (proj2 (IH x) (conj eq_refl Hx)). by simplify_eq.
      * split; [done |]. intros [E' Hx]. destruct x as [|b x]; [by injection E' as -> _ |].
        apply lacks_cons in Hx as [_ Hx]. injection E' as -> ->.
        by pose proof (proj2 (IH x) (conj eq_refl Hx)).
Qed.

Lemma chars_cons a s : byte_of a < 128 -> chars (String.String a s) = byte_of a :: chars s.
Proof. intros Ha. unfold chars. cbn. assert (E : (byte_of a <? 128) = true) by lia. by rewrite E. Qed.

Lemma drop_while_keeps {A} (p : A -> bool) l c : In c l -> p c = false -> In c (drop_while p l).
Proof.
  intros Hc Hp. induction l as [|x l IH]; [done |]. cbn. destruct (p x) eqn:E; [|done].
  destruct Hc as [->|Hc]; [congruence | auto].
Qed.

Lemma of_chars_nonempty l c : In c l -> is_empty (of_chars l) = false.
Proof.
  destruct l as [|x l]; [done |]. intros _. unfold of_chars. cbn [map concat].
  assert (Hx : exists b t, encode_char x = b :: t)
    by (unfold encode_char; repeat case_match; eauto).
  destruct Hx as (b & t & ->). done.
Qed.

(** A string with a character that is not white space does not trim away. *)
Lemma trim_nonempty s c : In c (chars s) -> is_whitespace c = false -> is_empty (trim s) = false.
Proof.
  intros Hc Hw. unfold trim. apply (of_chars_nonempty _ c). rewrite <-in_rev.
  apply drop_while_keeps; [|done]. rewrite <-in_rev. by apply drop_while_keeps.
Qed.

(** ** UTF-8 *)

Definition is_char (c : Z) : Prop := 0 <= c < 1114112.

Lemma bytes_of_of_bytes l : Forall u8_range l -> bytes_of (of_bytes l) = l.
Proof.
  induction 1 as [|b l Hb _ IH]; [done |]. cbn. rewrite IH. f_equal.
  unfold byte_of, ascii_of. unfold u8_range in Hb. rewrite N_ascii_embedding by lia. lia.
Qed.

Lemma encode_char_u8 c : is_char c -> Forall u8_range (encode_char c).
Proof.
  unfold is_char, encode_char, u8_range. intros Hc.
  destruct (c <? 128) eqn:?; [repeat constructor; lia |].
  destruct (c <? 2048) eqn:?;
    [repeat constructor; Z.div_mod_to_equations; lia |].
  destruct (c <? 65536) eqn:?; repeat constructor; Z.div_mod_to_equations; lia.
Qed.

Lemma decode_encode_char c l :
  is_char c -> decode_utf8 (encode_char c ++ l) = c :: decode_utf8 l.
Proof.
  unfold is_char, encode_char. intros Hc.
  destruct (c <? 128) eqn:E1; [cbn; by rewrite E1 |].
  destruct (c <? 2048) eqn:E2; [| destruct (c <? 65536) eqn:E3]; cbn [app decode_utf8].
  - replace (192 + c / 64 <? 128) with false by (Z.div_mod_to_equations; lia).
    replace (192 + c / 64 <? 224) with true by (Z.div_mod_to_equations; lia).
    f_equal. Z.div_mod_to_equations; lia.
  - replace (224 + c / 4096 <? 128) with false by (Z.div_mod_to_equations; lia).
    replace (224 + c / 4096 <? 224) with false by (Z.div_mod_to_equations; lia).
    replace (224 + c / 4096 <? 240) with true by (Z.div_mod_to_equations; lia).
    f_equal. Z.div_mod_to_equations; lia.
  - replace (240 + c / 262144 <? 128) with false by (Z.div_mod_to_equations; lia).
    replace (240 + c / 262144 <? 224) with false by (Z.div_mod_to_equations; lia).
    replace (240 + c / 262144 <? 240) with false by (Z.div_mod_to_equations; lia).
    f_equal. Z.div_mod_to_equations; lia.
Qed.

Lemma chars_of_chars l : Forall is_char l -> chars (of_chars l) = l.
Proof.
  intros H. unfold chars, of_chars. rewrite bytes_of_of_bytes.
  - induction H as [|c l Hc _ IH]; [done |]. cbn [map concat].
    by rewrite decode_encode_char, IH.
  - induction H as [|c l Hc _ IH]; [constructor |]. cbn [map concat].
    apply Forall_app. by split; [apply encode_char_u8 |].
Qed.

(** A string that neither starts nor ends with white space is its own trim. *)
Lemma trim_id l c d m :
  Forall is_char l -> l = c :: m -> is_whitespace c = false ->
  last l = Some d -> is_whitespace d = false -> trim (of_chars l) = of_chars l.
Proof.
  intros Hl Hc Hwc Hd Hwd. unfold trim. rewrite chars_of_chars by done.
  assert (E1 : drop_while is_whitespace l = l) by (subst l; cbn; by rewrite Hwc).
  rewrite E1. destruct l as [|x l0 _] using rev_ind; [done |].
  rewrite last_snoc in Hd. injection Hd as ->.
  rewrite rev_unit. cbn [drop_while]. rewrite Hwd. f_equal. by rewrite <-rev_unit, rev_involutive.
Qed.

(** *** Concatenation *)

Lemma append_assoc a b c : (a +:+ b) +:+ c = a +:+ (b +:+ c).
Proof.
  induction a as [|x a IH]; [done |].
  change (String.String x ((a +:+ b) +:+ c) = String.String x (a +:+ (b +:+ c))). by rewrite IH.
Qed.

Lemma of_bytes_app a b : of_bytes (a ++ b) = of_bytes a +:+ of_bytes b.
Proof.
  induction a as [|x a IH]; [done |].
  change (String.String (ascii_of x) (of_bytes (a ++ b)) = String.String (ascii_of x) (of_bytes a +:+ of_bytes b)).
  by rewrite IH.
Qed.

Lemma length_append a b : String.length (a +:+ b) = (String.length a + String.length b)%nat.
Proof.
  induction a as [|c a IH]; [done |].
  change (S (String.length (a +:+ b)) = S (String.length a + String.length b)%nat). by rewrite IH.
Qed.

Lemma substring_app a b : String.substring 0 (String.length a) (a +:+ b) = a.
Proof.
  induction a as [|c a IH]; [by destruct b |].
  change (String.String c (String.substring 0 (String.length a) (a +:+ b)) = String.String c a). by rewrite IH.
Qed.

(** Cutting a longer text goes on with the last segment of a shorter one. *)
Lemma split_on_more c s t :
  split_on c (s +:+ t) = removelast (split_on c s) ++ split_on c (List.last (split_on c s) "" +:+ t).
Proof.
  induction s as [|a s IH]; [done |].
  change (String.String a s +:+ t) with (String.String a (s +:+ t)).
  destruct (split_on_cons c s) as (x & l & E). rewrite E in IH. cbn [split_on]. rewrite IH, E.
  destruct (Ascii.eqb a c) eqn:Ea; [by destruct l |].
  destruct l as [|y l]; [|done]. cbn [removelast List.last app].
  change (String.String a x +:+ t) with (String.String a (x +:+ t)). cbn [split_on]. by rewrite Ea.
Qed.
