(* ===== verification/Floats.v ===== *)
(** * Floats: the IEEE 754 operations the program performs

    [f64] and [f32] are the Standard Library's executable [spec_float];
    every operation rounds to nearest, ties to even, as Rust's do. *)

From S2P Require Import Prelude RustStr.
From Stdlib Require Export SpecFloat.
Local Open Scope Z_scope.

Definition prec64 : Z := 53.
Definition emax64 : Z := 1024.
Definition prec32 : Z := 24.
Definition emax32 : Z := 128.

#[export] Instance spec_float_eq_dec : EqDecision spec_float.
Proof. refine (fun x y => _); unfold Decision; repeat decide equality. Defined.

Definition f_is_finite (f : spec_float) : bool :=
  match f with S754_zero _ | S754_finite _ _ _ => true | _ => false end.

Definition f_zero : spec_float := S754_zero false.

(** [n as f64] for an integer [n]. *)
Definition f64_of_Z (n : Z) : spec_float := binary_normalize prec64 emax64 n 0 false.

(** Rounding the exact value of [f] to another format ([as f32], [as f64]). *)
Definition f_convert (prec emax : Z) (f : spec_float) : spec_float :=
  match f with
  | S754_finite s m e => binary_round prec emax s m e
  | other => other
  end.
Definition f32_of_f64 (f : spec_float) : spec_float := f_convert prec32 emax32 f.
Definition f64_of_f32 (f : spec_float) : spec_float := f_convert prec64 emax64 f.

(** [m / 10^k], correctly rounded. *)
Definition f64_of_decimal (neg : bool) (m : Z) (k : nat) : spec_float :=
  match m with
  | Zpos p =>
    match 10 ^ Z.of_nat k with
    | Zpos d => SFdiv prec64 emax64 (S754_finite neg p 0) (S754_finite false d 0)
    | _ => S754_nan
    end
  | _ => S754_zero neg
  end.

(** [str::parse::<f64>] on the strings the condition tokenizer produces: an
    optional minus sign followed by digits and dots.  At most one dot and at
    least one digit are required. *)
Definition parse_f64 (s : string) : option spec_float :=
  let (neg, body) := match strip_prefix "-" s with
                     | Some r => (true, r) | None => (false, s) end in
  let (ip, fp) := match split_once "."%char body with
                  | Some (a, b) => (a, b) | None => (body, EmptyString) end in
  if is_empty ip && is_empty fp then None
  else match digits_val 0 (bytes_of (ip +:+ fp)) with
       | Some m => Some (f64_of_decimal neg m (String.length fp))
       | None => None
       end.

(** ** Bit patterns of [f32] *)

Definition f32_to_bits (f : spec_float) : Z :=
  match f with
  | S754_zero s => if s then 2147483648 else 0
  | S754_infinity s => (if s then 2147483648 else 0) + 2139095040
  | S754_nan => 2143289344
  | S754_finite s m e =>
    (if s then 2147483648 else 0) +
    (if Zpos m <? 8388608 then Zpos m else (e + 150) * 8388608 + (Zpos m - 8388608))
  end.

Definition f32_of_bits (b : Z) : spec_float :=
  let s := 2147483648 <=? b in
  let r := b mod 2147483648 in
  let ex := r / 8388608 in
  let m := r mod 8388608 in
  if ex =? 255 then (if m =? 0 then S754_infinity s else S754_nan)
  else if ex =? 0 then
    match m with Zpos p => S754_finite s p (-149) | _ => S754_zero s end
  else match m + 8388608 with
       | Zpos p => S754_finite s p (ex - 150)
       | _ => S754_nan
       end.

Definition f32_to_le_bytes (f : spec_float) : list Z := le_bytes 4 (f32_to_bits f).
Definition f32_of_le_bytes (l : list Z) : spec_float := f32_of_bits (le_val l).

(** A canonical, finite [f32]: either normal, or subnormal at the least
    exponent. *)
Definition f32_canonical (f : spec_float) : bool :=
  match f with
  | S754_zero _ => true
  | S754_finite _ m e =>
    ((Zpos m <? 8388608) && (e =? -149))
    || ((8388608 <=? Zpos m) && (Zpos m <? 16777216) && (-149 <=? e) && (e <=? 104))
  | _ => false
  end.

Lemma f32_bits_roundtrip f :
  f32_canonical f = true -> f32_of_bits (f32_to_bits f) = f.
Proof.
  destruct f as [s | s | | s m e]; cbn; try done.
  - intros _. by destruct s.
  - intros H. unfold f32_of_bits, f32_to_bits.
    set (body := if Zpos m <? 8388608 then Zpos m else _).
    assert (Hb : 0 <= body < 2147483648 /\
      ((body / 8388608 = 0 /\ body mod 8388608 = Zpos m /\ e = -149) \/
       (body / 8388608 = e + 150 /\ body mod 8388608 + 8388608 = Zpos m /\ 1 <= e + 150 <= 254))).
    { unfold body. destruct (Zpos m <? 8388608) eqn:Hm.
      - split; [lia |]. left. rewrite Z.div_small, Z.mod_small by lia. lia.
      - apply orb_true_iff in H as [H|H]; bool_hyps; [lia |].
        split; [lia |]. right.
        rewrite Z.div_add_l, (Z.add_comm (_ * _)), Z.mod_add by lia.
        rewrite Z.div_small, Z.mod_small by lia. lia. }
    destruct Hb as [Hr Hcase].
    assert (Hs : (2147483648 <=? (if s then 2147483648 else 0) + body) = s)
      by (destruct s; lia).
    assert (Hmod : ((if s then 2147483648 else 0) + body) mod 2147483648 = body).
    { destruct s; [rewrite Z.add_comm, <-(Z.mul_1_l 2147483648) at 1;
        rewrite Z.mod_add by lia |]; apply Z.mod_small; lia. }
    rewrite Hs, Hmod.
    destruct Hcase as [(-> & -> & ->) | (-> & Hm & He)]; [done |].
    destruct (e + 150 =? 255) eqn:?; [lia |]. destruct (e + 150 =? 0) eqn:?; [lia |].
    rewrite Hm. f_equal. lia.
Qed.

Lemma f32_to_bits_range f : f32_canonical f = true -> 0 <= f32_to_bits f < 4294967296.
Proof.
  destruct f as [s | s | | s m e]; cbn; try done; [by destruct s |].
  destruct (_ <? _) eqn:?; intros H; apply orb_true_iff in H as [H|H]; bool_hyps;
    destruct s; lia.
Qed.

Lemma f32_le_bytes_roundtrip f :
  f32_canonical f = true -> f32_of_le_bytes (f32_to_le_bytes f) = f.
Proof.
  intros H. unfold f32_of_le_bytes, f32_to_le_bytes.
  rewrite le_val_le_bytes, Z.mod_small; [by apply f32_bits_roundtrip |].
  by apply f32_to_bits_range.
Qed.
