(* ===== verification/CoreObservability.v ===== *)
(** * CoreObservability: meters, spans, probes, metrics, log lines and shutdown

    Models nps-core/src/telemetry.rs, with the instruments nps-nwp and nps-nop
    declare in their telemetry.rs.  An instrument is shared by its meter and by
    whoever records on it: a handle is its position in the meter.  The sum of a
    counter that leaves 64 bits is a panic, as in a build that checks overflow:
    [None].

    Models nps-core/src/observability.rs.  A handle of a metric is its position
    in the registry, which shares the cells.  The escapes all stand for single
    bytes below 128, which occur in no longer character, so strings are treated
    byte by byte.  The order of a hash table is an argument. *)

From S2P Require Import Prelude RustStr Floats.
(** ** Meters and spans *)

Local Open Scope Z_scope.

(** ** Counters *)

Abbreviation Cells := (gmap (list string) Z).

Definition counter_add (by_ : Z) (labels : list string) (c : Cells) : option Cells :=
  let v := default 0 (c !! labels) + by_ in
  if v <=? u64_max then Some (<[labels := v]> c) else None.
Definition counter_inc : Cells -> option Cells := counter_add 1 [].
Definition counter_inc_labels (labels : list string) : Cells -> option Cells := counter_add 1 labels.

(** [values().sum()]: the sums on the way are no larger than the total. *)
Definition counter_total (c : Cells) : option Z :=
  let t := map_fold (fun _ v acc => v + acc) 0 c in if t <=? u64_max then Some t else None.
Definition counter_value (labels : list string) (c : Cells) : Z := default 0 (c !! labels).

(** ** Histograms *)

Record HistogramInner : Type := mkHistogram {
  hg_count : Z; hg_sum : spec_float; hg_min : spec_float; hg_max : spec_float }.
Definition histogram_default : HistogramInner := mkHistogram 0 f_zero f_zero f_zero.

Definition histogram_record (value : spec_float) (h : HistogramInner) : option HistogramInner :=
  let '(lo, hi) :=
    if hg_count h =? 0 then (value, value)
    else (if SFltb value (hg_min h) then value else hg_min h, if SFltb (hg_max h) value then value else hg_max h) in
  if hg_count h + 1 <=? u64_max
  then Some (mkHistogram (hg_count h + 1) (SFadd prec64 emax64 (hg_sum h) value) lo hi)
  else None.

Definition histogram_mean (h : HistogramInner) : spec_float :=
  if hg_count h =? 0 then f_zero else SFdiv prec64 emax64 (hg_sum h) (f64_of_Z (hg_count h)).

(** ** Meters *)

Record InstrumentInfo : Type := mkInfo { in_name : string; in_unit : string; in_description : string }.
Inductive Instrument : Type :=
| ICounter (info : InstrumentInfo) (c : Cells)
| IHistogram (info : InstrumentInfo) (h : HistogramInner).

Record Meter : Type := mkMeter { mt_name : string; mt_version : string; mt_instruments : list Instrument }.
Definition meter_new (name version : string) : Meter := mkMeter name version [].

Definition push_instrument (i : Instrument) (m : Meter) : nat * Meter :=
  (length (mt_instruments m), mkMeter (mt_name m) (mt_version m) (mt_instruments m ++ [i])).
Definition meter_counter (name unit_ description : string) : Meter -> nat * Meter :=
  push_instrument (ICounter (mkInfo name unit_ description) ∅).
Definition meter_histogram (name unit_ description : string) : Meter -> nat * Meter :=
  push_instrument (IHistogram (mkInfo name unit_ description) histogram_default).

Inductive MetricKind : Type := KCounter | KHistogram.
Record MetricSnapshot : Type := mkSnapshot {
  ms_name : string; ms_unit : string; ms_description : string; ms_kind : MetricKind; ms_value : spec_float; ms_count : Z }.

Definition instrument_snapshot (i : Instrument) : option MetricSnapshot :=
  match i with
  | ICounter info c =>
    total ← counter_total c;
    Some (mkSnapshot (in_name info) (in_unit info) (in_description info) KCounter (f64_of_Z total) total)
  | IHistogram info h =>
    Some (mkSnapshot (in_name info) (in_unit info) (in_description info) KHistogram (hg_sum h) (hg_count h))
  end.
Definition meter_snapshot (m : Meter) : option (list MetricSnapshot) := mapM instrument_snapshot (mt_instruments m).

(** What is recorded through a handle. *)
Inductive Recording : Type := Add (by_ : Z) (labels : list string) | Observe (value : spec_float).

Definition record_on (r : Recording) (i : Instrument) : option Instrument :=
  match r, i with
  | Add by_ labels, ICounter info c => ICounter info <$> counter_add by_ labels c
  | Observe value, IHistogram info h => IHistogram info <$> histogram_record value h
  | _, i => Some i
  end.
Definition meter_record (handle : nat) (r : Recording) (m : Meter) : option Meter :=
  match mt_instruments m !! handle with
  | None => Some m
  | Some i => i' ← record_on r i; Some (mkMeter (mt_name m) (mt_version m) (<[handle := i']> (mt_instruments m)))
  end.

(** *** The instruments of the protocols *)

(** A recorder of spans is shared: sources and spans hold its position. *)
Record TraceSource : Type := mkTraceSource { ts_name : string; ts_recorder : option nat }.
Definition trace_source_new (name : string) : TraceSource := mkTraceSource name None.

Record NwpTelemetry : Type := mkNwpTelemetry {
  nw_meter : Meter; nw_source : TraceSource; nw_frames_processed : nat; nw_frame_duration_ms : nat; nw_cgn_consumed : nat; nw_frame_errors : nat }.
Definition nwp_telemetry_new : NwpTelemetry :=
  let m := meter_new "nps.nwp" "1.0.0" in
  let '(frames_processed, m) := meter_counter "nps.frames.processed" "{frames}" "Total NWP frames processed" m in
  let '(frame_duration_ms, m) := meter_histogram "nps.frames.processing_ms" "ms" "NWP frame processing duration" m in
  let '(cgn_consumed, m) := meter_counter "nps.cgn.consumed" "{cgn}" "CGN units consumed in NWP responses" m in
  let '(frame_errors, m) := meter_counter "nps.frames.errors" "{frames}" "NWP frames that returned an error response" m in
  mkNwpTelemetry m (trace_source_new "nps.nwp") frames_processed frame_duration_ms cgn_consumed frame_errors.

Record NopTelemetry : Type := mkNopTelemetry {
  no_meter : Meter; no_source : TraceSource; no_task_duration_ms : nat; no_node_duration_ms : nat; no_node_retries : nat;
  no_tasks_completed : nat; no_tasks_failed : nat }.
Definition nop_telemetry_new : NopTelemetry :=
  let m := meter_new "nps.nop" "1.0.0" in
  let '(task_duration_ms, m) := meter_histogram "nps.nop.task.duration_ms" "ms" "NOP task total execution duration" m in
  let '(node_duration_ms, m) := meter_histogram "nps.nop.node.duration_ms" "ms" "NOP DAG node execution duration" m in
  let '(node_retries, m) := meter_counter "nps.nop.node.retries" "{retries}" "NOP DAG node retry attempts" m in
  let '(tasks_completed, m) := meter_counter "nps.nop.tasks.completed" "{tasks}" "NOP tasks completed successfully" m in
  let '(tasks_failed, m) := meter_counter "nps.nop.tasks.failed" "{tasks}" "NOP tasks that failed or timed out" m in
  mkNopTelemetry m (trace_source_new "nps.nop") task_duration_ms node_duration_ms node_retries tasks_completed tasks_failed.

(** ** Spans *)

Record RecordedSpan : Type := mkRecordedSpan {
  rs_id : Z; rs_operation : string; rs_source : string; rs_attributes : list (string * string) }.

Record Span : Type := mkSpan {
  sp_id : Z; sp_operation : string; sp_source : string; sp_recorder : option nat; sp_attributes : list (string * string) }.

(** The sequence of all spans of the process, and what the recorders hold. *)
Record Tracing : Type := mkTracing { tr_seq : Z; tr_recorders : list (list RecordedSpan) }.
Definition tracing_start : Tracing := mkTracing 1 [].

Definition recorder_new (t : Tracing) : nat * Tracing :=
  (length (tr_recorders t), mkTracing (tr_seq t) (tr_recorders t ++ [[]])).
Definition set_recorder (recorder : nat) (s : TraceSource) : TraceSource := mkTraceSource (ts_name s) (Some recorder).

(** [fetch_add] wraps. *)
Definition start_span (s : TraceSource) (operation : string) (t : Tracing) : Span * Tracing :=
  (mkSpan (tr_seq t) operation (ts_name s) (ts_recorder s) [],
   mkTracing ((tr_seq t + 1) mod (u64_max + 1)) (tr_recorders t)).
Definition set_attribute (key value : string) (s : Span) : Span :=
  mkSpan (sp_id s) (sp_operation s) (sp_source s) (sp_recorder s) (sp_attributes s ++ [(key, value)]).

(** A span is recorded when it is dropped. *)
Definition end_span (s : Span) (t : Tracing) : Tracing :=
  match sp_recorder s with
  | None => t
  | Some r =>
    mkTracing (tr_seq t)
      (alter (fun l => l ++ [mkRecordedSpan (sp_id s) (sp_operation s) (sp_source s) (sp_attributes s)]) r (tr_recorders t))
  end.

(** ** Counters account for what was added *)

Fixpoint add_all (l : list (Z * list string)) (c : Cells) : option Cells :=
  match l with [] => Some c | (n, labels) :: rest => c ← counter_add n labels c; add_all rest c end.

Definition sum_of (l : list Z) : Z := foldr Z.add 0 l.
Definition added_to (labels : list string) (l : list (Z * list string)) : Z :=
  sum_of (map fst (List.filter (fun nl => bool_decide (snd nl = labels)) l)).

Definition cells_sum (c : Cells) : Z := map_fold (fun _ v acc => v + acc) 0 c.

Lemma cells_sum_insert (labels : list string) (v : Z) (c : Cells) : cells_sum (<[labels := v]> c) = cells_sum c - default 0 (c !! labels) + v.
Proof.
  unfold cells_sum. destruct (c !! labels) as [u|] eqn:E; cbn.
  - assert (Ed : delete labels c !! labels = None) by apply lookup_delete_eq.
    rewrite <- insert_delete_eq. rewrite <- (insert_delete_id c labels u E) at 2.
    rewrite !map_fold_insert_L by (done || (intros; lia)). lia.
  - rewrite map_fold_insert_L by (try done; intros; lia). lia.
Qed.

(** Whatever is added to a counter, in whatever order and under whatever
    labels: each cell holds the sum of what was added under its labels, and
    the total is the sum of everything. *)
Lemma counter_accounts l c : add_all l ∅ = Some c ->
  (forall labels, counter_value labels c = added_to labels l) /\ cells_sum c = sum_of (map fst l).
Proof.
  assert (G : forall l c c', add_all l c = Some c' ->
    (forall labels, counter_value labels c' = counter_value labels c + added_to labels l) /\
    cells_sum c' = cells_sum c + sum_of (map fst l)).
  { clear. induction l as [|[n labels] l IH]; intros c c'; cbn [add_all].
    { intros [= ->]. unfold added_to, sum_of. cbn. split; [intros|]; lia. }
    destruct (counter_add n labels c) as [c1|] eqn:E; [|done]. intros [H1 H2]%IH.
    unfold counter_add in E. destruct (_ <=? u64_max); [|done]. injection E as <-.
    unfold counter_value, added_to, sum_of in *. rewrite cells_sum_insert in H2. split; [|cbn in *; lia].
    intros k. rewrite H1. cbn. destruct (bool_decide_reflect (labels = k)) as [->|Hn]; cbn.
    - rewrite lookup_insert_eq. cbn. lia.
    - rewrite lookup_insert_ne by done. done. }
  intros H. destruct (G l ∅ c H) as [H1 H2]. split; [|done]. intros k. by rewrite H1.
Qed.

(** ** Histograms bound what was observed *)

(** The order of floats, as an order of keys: sign, exponent, mantissa. *)
Definition f_key (f : spec_float) : Z * Z * Z :=
  match f with
  | S754_infinity true => (-2, 0, 0)
  | S754_finite true m e => (-1, - e, - Zpos m)
  | S754_zero _ | S754_nan => (0, 0, 0)
  | S754_finite false m e => (1, e, Zpos m)
  | S754_infinity false => (2, 0, 0)
  end.
Definition key_lt (a b : Z * Z * Z) : Prop :=
  let '(x, y, z) := a in let '(x', y', z') := b in x < x' \/ x = x' /\ (y < y' \/ y = y' /\ z < z').

Definition is_number (f : spec_float) : Prop := f <> S754_nan.

Lemma SFltb_key f g : is_number f -> is_number g -> SFltb f g = true <-> key_lt (f_key f) (f_key g).
Proof.
  unfold is_number. intros Hf Hg.
  destruct f as [[]|[]| |[] m e], g as [[]|[]| |[] m' e']; try done; unfold SFltb; cbn;
    repeat (match goal with |- context [Z.compare ?a ?b] => destruct (Z.compare_spec a b)
                          | |- context [Pos.compare_cont Eq ?a ?b] => change (Pos.compare_cont Eq a b) with (Pos.compare a b); destruct (Pos.compare_spec a b) end; cbn);
    split; try done; try lia.
Qed.

(** The least and the greatest of what was seen. *)
Definition bounds_of (vs : list spec_float) (h : HistogramInner) : Prop :=
  In (hg_min h) vs /\ In (hg_max h) vs /\
  forall v, In v vs -> SFltb v (hg_min h) = false /\ SFltb (hg_max h) v = false.

Fixpoint record_all (vs : list spec_float) (h : HistogramInner) : option HistogramInner :=
  match vs with [] => Some h | v :: vs => h ← histogram_record v h; record_all vs h end.

Lemma key_not_lt f g : is_number f -> is_number g -> SFltb f g = false <-> ~ key_lt (f_key f) (f_key g).
Proof. intros Hf Hg. rewrite <- (SFltb_key f g Hf Hg). by destruct (SFltb f g). Qed.

Lemma record_bounds seen v h h' :
  Forall is_number seen -> is_number v -> hg_count h = Z.of_nat (length seen) -> (seen <> [] -> bounds_of seen h) ->
  histogram_record v h = Some h' -> hg_count h' = Z.of_nat (length (seen ++ [v])) /\ bounds_of (seen ++ [v]) h'.
Proof.
  intros Hs Hv Hc Hb. unfold histogram_record. rewrite Hc.
  destruct seen as [|u seen].
  - cbn. intros [= <-]. split; [done|]. assert (Hn : SFltb v v = false)
      by (apply key_not_lt; [done..|]; destruct (f_key v) as [[]]; cbn; lia).
    unfold bounds_of. cbn. split; [by left|]. split; [by left|]. by intros w [<-|[]].
  - destruct (Hb ltac:(done)) as (Hmin & Hmax & Hall). set (all := u :: seen) in *.
    replace (Z.of_nat (length all) =? 0) with false by (symmetry; apply Z.eqb_neq; unfold all; cbn [length]; lia).
    clearbody all.
    destruct (_ <=? u64_max); [|done]. intros [= <-]. cbn. split; [rewrite length_app; cbn; lia|].
    assert (Nmin : is_number (hg_min h)) by (rewrite Forall_forall in Hs; apply Hs; by apply list_elem_of_In).
    assert (Nmax : is_number (hg_max h)) by (rewrite Forall_forall in Hs; apply Hs; by apply list_elem_of_In).
    assert (Hself : forall x, is_number x -> SFltb x x = false)
      by (intros x Hx; apply key_not_lt; [done..|]; destruct (f_key x) as [[]]; cbn; lia).
    assert (Nall : forall w, In w all -> is_number w)
      by (intros w Hw; rewrite Forall_forall in Hs; apply Hs; by apply list_elem_of_In).
    split; [|split]; cbn [hg_min hg_max].
    + destruct (SFltb v (hg_min h)); apply in_or_app; [right; by left|by left].
    + destruct (SFltb (hg_max h) v); apply in_or_app; [right; by left|by left].
    + intros w Hw. split.
      * destruct (SFltb v (hg_min h)) eqn:E; apply in_app_or in Hw as [Hw|[<-|[]]]; [|by apply Hself|by apply Hall|done].
        destruct (Hall w Hw) as [H1 _]. apply (key_not_lt w (hg_min h)) in H1; [|auto..].
        apply SFltb_key in E; [|done..]. apply key_not_lt; [auto..|].
        destruct (f_key v) as [[]], (f_key w) as [[]], (f_key (hg_min h)) as [[]]. cbn in *. lia.
      * destruct (SFltb (hg_max h) v) eqn:E; apply in_app_or in Hw as [Hw|[<-|[]]]; [|by apply Hself|by apply Hall|done].
        destruct (Hall w Hw) as [_ H1]. apply (key_not_lt (hg_max h) w) in H1; [|auto..].
        apply SFltb_key in E; [|done..]. apply key_not_lt; [auto..|].
        destruct (f_key v) as [[]], (f_key w) as [[]], (f_key (hg_max h)) as [[]]. cbn in *. lia.
Qed.

(** A histogram of numbers counts them, and its bounds are the least and the
    greatest of them. *)
Lemma histogram_accounts vs h : Forall is_number vs -> record_all vs histogram_default = Some h ->
  hg_count h = Z.of_nat (length vs) /\ (vs <> [] -> bounds_of vs h).
Proof.
  intros Hn. assert (G : forall vs seen h h', Forall is_number seen -> Forall is_number vs ->
    hg_count h = Z.of_nat (length seen) -> (seen <> [] -> bounds_of seen h) -> record_all vs h = Some h' ->
    hg_count h' = Z.of_nat (length (seen ++ vs)) /\ (seen ++ vs <> [] -> bounds_of (seen ++ vs) h')).
  { clear. induction vs as [|v vs IH]; intros seen h h' Hs Hv Hc Hb; cbn.
    { intros [= <-]. rewrite app_nil_r. done. }
    apply Forall_cons in Hv as [Hv Hvs].
    destruct (histogram_record v h) as [h1|] eqn:E; [|done]. cbn. intros Hr.
    destruct (record_bounds seen v h h1 Hs Hv Hc Hb E) as [Hc1 Hb1].
    destruct (IH (seen ++ [v]) h1 h') as [H1 H2]; auto.
    - apply Forall_app. split; [done|]. by constructor.
    - rewrite <- app_assoc in H1, H2. by split. }
  intros Hr. by apply (G vs [] histogram_default h).
Qed.

(** The first observation is never compared: a NaN stays the bound for good. *)
Lemma first_nan_stays v : is_number v ->
  exists h, record_all [S754_nan; v] histogram_default = Some h /\ hg_min h = S754_nan /\ hg_max h = S754_nan.
Proof. intros Hv. eexists. split; [reflexivity|]. cbn. destruct v as [| | |[] ? ?]; done. Qed.

(** ** A span is recorded once *)

(** What happens to spans: each step starts one, marks one or ends one. *)
Inductive TraceOp : Type :=
| StartSpan (source : TraceSource) (operation : string)
| SetAttribute (i : nat) (key value : string)
| EndSpan (i : nat).

Definition trace_step (op : TraceOp) (st : list Span * Tracing) : list Span * Tracing :=
  let '(open, t) := st in
  match op with
  | StartSpan source operation => let '(s, t) := start_span source operation t in (open ++ [s], t)
  | SetAttribute i key value => (alter (set_attribute key value) i open, t)
  | EndSpan i => match open !! i with Some s => (delete i open, end_span s t) | None => (open, t) end
  end.
Definition trace_steps (ops : list TraceOp) (st : list Span * Tracing) : list Span * Tracing :=
  fold_left (fun st op => trace_step op st) ops st.

Definition recorded_ids (t : Tracing) (r : nat) : list Z := map rs_id (default [] (tr_recorders t !! r)).

(** Open and recorded spans have distinct identifiers, all drawn already. *)
Definition spans_inv (st : list Span * Tracing) : Prop :=
  0 <= tr_seq (snd st) /\
  forall r, NoDup (map sp_id (fst st) ++ recorded_ids (snd st) r) /\
            Forall (fun i => i < tr_seq (snd st)) (map sp_id (fst st) ++ recorded_ids (snd st) r).

Lemma alter_ids key value i (l : list Span) : map sp_id (alter (set_attribute key value) i l) = map sp_id l.
Proof. revert i. induction l as [|s l IH]; intros [|i]; cbn; [done..|]. by rewrite IH. Qed.

Lemma delete_ids i (l : list Span) s : l !! i = Some s -> map sp_id l ≡ₚ sp_id s :: map sp_id (delete i l).
Proof.
  revert i. induction l as [|x l IH]; intros [|i] E; cbn in *; try done; [by simplify_eq|].
  rewrite (IH i E). constructor.
Qed.

Lemma end_span_ids s t r : recorded_ids (end_span s t) r =
  recorded_ids t r ++ (if bool_decide (sp_recorder s = Some r /\ is_Some (tr_recorders t !! r)) then [sp_id s] else []).
Proof.
  unfold end_span, recorded_ids. destruct (sp_recorder s) as [q|]; cbn; [|by rewrite bool_decide_eq_false_2, app_nil_r by naive_solver].
  destruct (decide (q = r)) as [->|Hn].
  - rewrite list_lookup_alter_eq. destruct (tr_recorders t !! r) as [l|]; cbn.
    + rewrite bool_decide_eq_true_2 by eauto. by rewrite map_app.
    + rewrite bool_decide_eq_false_2 by (intros [_ [? ?]]; done). done.
  - rewrite list_lookup_alter_ne by done. rewrite bool_decide_eq_false_2 by naive_solver. by rewrite app_nil_r.
Qed.

(** Identifiers that survive when an open span is recorded, or dropped. *)
Lemma ended_ids open i s t r : open !! i = Some s ->
  exists l, map sp_id open ++ recorded_ids t r ≡ₚ l ++ map sp_id (delete i open) ++ recorded_ids (end_span s t) r.
Proof.
  intros E. pose proof (delete_ids i open s E) as Hp. rewrite end_span_ids. destruct (bool_decide _).
  - exists []. rewrite Hp. cbn. rewrite app_assoc. apply Permutation_cons_append.
  - exists [sp_id s]. rewrite Hp. by rewrite app_nil_r.
Qed.

Lemma spans_inv_step op st : spans_inv st -> tr_seq (snd st) < u64_max -> spans_inv (trace_step op st).
Proof.
  destruct st as [open t]. unfold spans_inv. cbn. intros [H0 Hi] Hs.
  destruct op as [source operation|i key value|i]; cbn.
  - unfold recorded_ids. cbn. fold (recorded_ids t). rewrite Z.mod_small by lia. split; [lia|]. intros r.
    destruct (Hi r) as [Hd Hb]. fold (recorded_ids t r). rewrite map_app, <- app_assoc. cbn.
    rewrite <- Permutation_middle. split.
    + apply NoDup_cons. split; [|done]. intros Hin. rewrite Forall_forall in Hb. apply Hb in Hin. lia.
    + constructor; [lia|]. eapply Forall_impl; [exact Hb|]. cbn. lia.
  - split; [done|]. intros r. rewrite alter_ids. apply Hi.
  - destruct (open !! i) as [s|] eqn:E; [|by split]. cbn.
    replace (tr_seq (end_span s t)) with (tr_seq t) by (unfold end_span; by destruct (sp_recorder s)).
    split; [done|]. intros r. destruct (Hi r) as [Hd Hb]. destruct (ended_ids open i s t r E) as (l & Hp).
    rewrite Hp in Hd, Hb. apply NoDup_app in Hd as (_ & _ & Hd). by apply Forall_app in Hb as [_ Hb].
Qed.

(** Over any run in which the sequence does not wrap, a recorder holds each
    span at most once, and none that is still open. *)
Lemma spans_recorded_once ops rs :
  Z.of_nat (length ops) < u64_max ->
  spans_inv (trace_steps ops ([], mkTracing 1 (repeat [] rs))).
Proof.
  intros Hl. assert (G : forall ops st, spans_inv st -> tr_seq (snd st) + Z.of_nat (length ops) <= u64_max ->
    spans_inv (trace_steps ops st)).
  { clear. induction ops as [|op ops IH]; intros st Hi Hb; [done|]. cbn in Hb. apply IH.
    - apply spans_inv_step; [done|lia].
    - destruct st as [open t], op as [source operation|i key value|i]; cbn in *; [|lia|].
      + destruct Hi as [H0 _]. cbn in H0. rewrite Z.mod_small by lia. lia.
      + destruct (open !! i); cbn; [|lia]. unfold end_span. destruct (sp_recorder _); cbn; lia. }
  apply G; [|cbn; lia]. split; [done|]. intros r. unfold recorded_ids. cbn.
  replace (default [] (repeat [] rs !! r)) with (@nil RecordedSpan); [split; constructor|].
  destruct (repeat [] rs !! r) as [l|] eqn:E; [|done]. cbn.
  apply list_elem_of_lookup_2, list_elem_of_In, repeat_spec in E. done.
Qed.

(** The instruments of the protocols start at zero under distinct names. *)
Lemma protocol_instruments :
  (exists l, meter_snapshot (nw_meter nwp_telemetry_new) = Some l /\ NoDup (map ms_name l) /\ Forall (fun s => ms_count s = 0) l) /\
  (exists l, meter_snapshot (no_meter nop_telemetry_new) = Some l /\ NoDup (map ms_name l) /\ Forall (fun s => ms_count s = 0) l).
Proof.
  split; (eexists; split; [vm_compute; reflexivity|]; split; [|by repeat constructor]);
    apply (bool_decide_unpack _); by vm_compute.
Qed.

(** ** Probes, the metrics registry, log lines and shutdown *)

Local Open Scope Z_scope.

(** ** JSON strings *)

Definition quote : ascii := "034"%char.
Definition backslash : ascii := "092"%char.
Definition quote_s : string := String.String quote "".

Definition hex_lower (d : Z) : ascii := ascii_of (if d <? 10 then 48 + d else 87 + d).

Definition json_char (a : ascii) : string :=
  let c := byte_of a in
  if c =? 34 then String.String backslash quote_s
  else if c =? 92 then String.String backslash (String.String backslash "")
  else if c =? 10 then String.String backslash "n"
  else if c =? 13 then String.String backslash "r"
  else if c =? 9 then String.String backslash "t"
  else if c <? 32 then
    String.String backslash ("u00" +:+ String.String (hex_lower (c / 16)) (String.String (hex_lower (c mod 16)) ""))
  else String.String a "".

Fixpoint json_chars (s : string) : string :=
  match s with EmptyString => "" | String.String a r => json_char a +:+ json_chars r end.
Definition json_string (s : string) : string := quote_s +:+ json_chars s +:+ quote_s.

(** ** Health and readiness *)

Record HealthProbeResponse : Type := mkProbeResponse {
  hp_status_code : Z; hp_content_type : string; hp_body : string; hp_status : string; hp_reason : option string }.

Definition JSON_CONTENT_TYPE : string := "application/json; charset=utf-8".

Definition probe_ok : HealthProbeResponse :=
  mkProbeResponse 200 JSON_CONTENT_TYPE
    ("{" +:+ quote_s +:+ "status" +:+ quote_s +:+ ":" +:+ quote_s +:+ "ok" +:+ quote_s +:+ "}") "ok" None.
Definition probe_error (reason : string) : HealthProbeResponse :=
  mkProbeResponse 503 JSON_CONTENT_TYPE
    ("{" +:+ quote_s +:+ "status" +:+ quote_s +:+ ":" +:+ quote_s +:+ "error" +:+ quote_s +:+ ","
     +:+ quote_s +:+ "reason" +:+ quote_s +:+ ":" +:+ json_string reason +:+ "}")
    "error" (Some reason).

Definition render_healthz : HealthProbeResponse := probe_ok.

(** A probe looks at the world, which it may change. *)
Record ReadinessProbe (W : Type) : Type := mkProbe { pb_name : string; pb_check : W -> option string * W }.
Arguments mkProbe {W}. Arguments pb_name {W}. Arguments pb_check {W}.

Fixpoint render_readyz {W} (probes : list (ReadinessProbe W)) (w : W) : HealthProbeResponse * W :=
  match probes with
  | [] => (probe_ok, w)
  | p :: rest =>
    match pb_check p w with
    | (Some reason, w) => (probe_error reason, w)
    | (None, w) => render_readyz rest w
    end
  end.

(** ** Metrics *)

Definition METRICS_CONTENT_TYPE : string := "text/plain; version=0.0.4; charset=utf-8".
Definition CELL_SEPARATOR : ascii := "031"%char.

Abbreviation PromCells := (gmap string spec_float).
Record PromCounter : Type := mkPromCounter {
  pc_name : string; pc_help : string; pc_labels : list string; pc_cells : PromCells }.
Record PromGauge : Type := mkPromGauge { pg_name : string; pg_help : string; pg_value : spec_float }.
Inductive MetricEntry : Type := MCounter (c : PromCounter) | MGauge (g : PromGauge).
Abbreviation MetricsRegistry := (list MetricEntry).

Definition register_counter (name help : string) (labels : list string) (r : MetricsRegistry) : nat * MetricsRegistry :=
  (length r, r ++ [MCounter (mkPromCounter name help labels (if labels is [] then {["" := f_zero]} else ∅))]).
Definition register_gauge (name help : string) (r : MetricsRegistry) : nat * MetricsRegistry :=
  (length r, r ++ [MGauge (mkPromGauge name help f_zero)]).

(** A label without a value has the empty one; values past the labels are
    dropped. *)
Definition label_values_of (labels values : list string) : list string :=
  imap (fun i _ => default "" (values !! i)) labels.
Definition cell_key (labels values : list string) : string :=
  if labels is [] then "" else join (String.String CELL_SEPARATOR "") (label_values_of labels values).

Definition f_add : spec_float -> spec_float -> spec_float := SFadd prec64 emax64.
Definition f_one : spec_float := f64_of_Z 1.

Definition counter_inc_by (by_ : spec_float) (values : list string) (c : PromCounter) : PromCounter :=
  let key := cell_key (pc_labels c) values in
  mkPromCounter (pc_name c) (pc_help c) (pc_labels c)
    (<[key := f_add (default f_zero (pc_cells c !! key)) by_]> (pc_cells c)).
Definition inc_by (handle : nat) (by_ : spec_float) (values : list string) : MetricsRegistry -> MetricsRegistry :=
  alter (fun e => match e with MCounter c => MCounter (counter_inc_by by_ values c) | e => e end) handle.
Definition inc (handle : nat) : MetricsRegistry -> MetricsRegistry := inc_by handle f_one [].
Definition inc_labels (handle : nat) (values : list string) : MetricsRegistry -> MetricsRegistry := inc_by handle f_one values.

Definition gauge_update (f : spec_float -> spec_float) (handle : nat) : MetricsRegistry -> MetricsRegistry :=
  alter (fun e => match e with MGauge g => MGauge (mkPromGauge (pg_name g) (pg_help g) (f (pg_value g))) | e => e end) handle.
Definition gauge_set (handle : nat) (v : spec_float) : MetricsRegistry -> MetricsRegistry := gauge_update (fun _ => v) handle.
Definition gauge_inc (handle : nat) : MetricsRegistry -> MetricsRegistry := gauge_update (fun x => f_add x f_one) handle.
Definition gauge_dec (handle : nat) : MetricsRegistry -> MetricsRegistry := gauge_update (fun x => SFsub prec64 emax64 x f_one) handle.
Definition gauge_add (handle : nat) (by_ : spec_float) : MetricsRegistry -> MetricsRegistry := gauge_update (fun x => f_add x by_) handle.
Definition gauge_value (handle : nat) (r : MetricsRegistry) : option spec_float :=
  match r !! handle with Some (MGauge g) => Some (pg_value g) | _ => None end.

(** *** Numbers *)

(** The value of a float with no fraction. *)
Definition whole (v : spec_float) : option Z :=
  match v with
  | S754_zero _ => Some 0
  | S754_finite neg m e =>
    let n := if neg then Z.neg m else Z.pos m in
    if 0 <=? e then Some (n * 2 ^ e) else if n mod 2 ^ (- e) =? 0 then Some (n / 2 ^ (- e)) else None
  | _ => None
  end.

(** [n / d] to the nearest integer, to the even one between two. *)
Definition div_half_even (n d : Z) : Z :=
  let q := n / d in
  match 2 * (n mod d) ?= d with Lt => q | Gt => q + 1 | Eq => if Z.even q then q else q + 1 end.

Fixpoint digits_n (n : nat) (z : Z) : string :=
  match n with
  | O => ""
  | S n => digits_n n (z / 10) +:+ String.String (ascii_of (48 + z mod 10)) ""
  end.

(** [format!("{v:.16}")]. *)
Definition fmt_16 (v : spec_float) : string :=
  match v with
  | S754_nan => "NaN"
  | S754_infinity neg => (if neg then "-" else "") +:+ "inf"
  | S754_zero neg => (if neg then "-" else "") +:+ "0." +:+ digits_n 16 0
  | S754_finite neg m e =>
    let scaled := if 0 <=? e then Z.pos m * 2 ^ e * 10 ^ 16 else div_half_even (Z.pos m * 10 ^ 16) (2 ^ (- e)) in
    (if neg then "-" else "") +:+ fmt_Z (scaled / 10 ^ 16) +:+ "." +:+ digits_n 16 scaled
  end.

(** [trim_end_matches(c)]. *)
Fixpoint trim_end (c : ascii) (s : string) : string :=
  match s with
  | EmptyString => ""
  | String.String a r =>
    let t := trim_end c r in if Ascii.eqb a c && is_empty t then "" else String.String a t
  end.

Definition format_double (v : spec_float) : string :=
  let fraction := trim_end "." (trim_end "0" (fmt_16 v)) in
  match whole v with Some n => if Z.abs n <? 10 ^ 15 then fmt_Z n else fraction | None => fraction end.

(** *** The exposition *)

Definition label_char (a : ascii) : string :=
  let c := byte_of a in
  if c =? 92 then String.String backslash (String.String backslash "")
  else if c =? 34 then String.String backslash quote_s
  else if c =? 10 then String.String backslash "n"
  else String.String a "".
Fixpoint label_chars (s : string) : string :=
  match s with EmptyString => "" | String.String a r => label_char a +:+ label_chars r end.
Definition label_special (b : Z) : bool := (b =? 92) || (b =? 34) || (b =? 10).
Definition escape_label (v : string) : string :=
  if negb (existsb label_special (bytes_of v)) then v else label_chars v.

Definition newline : string := String.String "010"%char "".

Definition metric_header (name help kind : string) : string :=
  "# HELP " +:+ name +:+ " " +:+ help +:+ newline +:+ "# TYPE " +:+ name +:+ " " +:+ kind +:+ newline.

(** The labels of a cell, read back from its key. *)
Definition cell_labels (labels : list string) (key : string) : list (string * string) :=
  let parts := split_on CELL_SEPARATOR key in imap (fun i l => (l, default "" (parts !! i))) labels.
Definition label_text (lv : string * string) : string :=
  fst lv +:+ "=" +:+ quote_s +:+ escape_label (snd lv) +:+ quote_s.
Definition cell_line (name : string) (labels : list string) (cell : string * spec_float) : string :=
  name +:+ (if labels is [] then "" else "{" +:+ join "," (map label_text (cell_labels labels (fst cell))) +:+ "}")
  +:+ " " +:+ format_double (snd cell) +:+ newline.

Section render.
(** The order in which a hash table is gone through. *)
Context (hash_order : PromCells -> list (string * spec_float)).

Definition counter_write_to (c : PromCounter) : string :=
  metric_header (pc_name c) (pc_help c) "counter"
  +:+ foldr String.app "" (map (cell_line (pc_name c) (pc_labels c)) (hash_order (pc_cells c))).
Definition gauge_write_to (g : PromGauge) : string :=
  metric_header (pg_name g) (pg_help g) "gauge" +:+ pg_name g +:+ " " +:+ format_double (pg_value g) +:+ newline.
Definition render (r : MetricsRegistry) : string :=
  foldr String.app "" (map (fun e => match e with MCounter c => counter_write_to c | MGauge g => gauge_write_to g end) r).
End render.

(** ** Log lines *)

Inductive LogLevel : Type := LTrace | LDebug | LInfo | LWarn | LError | LCritical | LNone.
#[export] Instance LogLevel_eq_dec : EqDecision LogLevel.
Proof. solve_decision. Defined.

Definition level_name (l : LogLevel) : string :=
  match l with
  | LTrace => "trace" | LDebug => "debug" | LInfo => "info" | LWarn => "warn"
  | LError => "error" | LCritical => "critical" | LNone => "none"
  end.

Definition level_names : list (string * LogLevel) :=
  [("trace", LTrace); ("debug", LDebug); ("info", LInfo); ("information", LInfo); ("warn", LWarn); ("warning", LWarn);
   ("error", LError); ("critical", LCritical); ("none", LNone)].
Definition level_parse (raw : string) : option LogLevel :=
  snd <$> find (fun nl => String.eqb (fst nl) (to_ascii_lowercase (trim raw))) level_names.

Definition LOG_LEVEL_ENV_VAR : string := "NPS_LOG_LEVEL".
(** [env]: the variable's value, when it has one that is text. *)
Definition resolve_log_level (env : string -> option string) (fallback : LogLevel) : LogLevel :=
  match env LOG_LEVEL_ENV_VAR with
  | Some raw => if is_empty (trim raw) then fallback else default fallback (level_parse raw)
  | None => fallback
  end.

Definition log_member (key value : string) : string := quote_s +:+ key +:+ quote_s +:+ ":" +:+ json_string value.
Definition json_log_line (timestamp_iso : string) (level : LogLevel) (msg logger : string) (trace_id : option string) : string :=
  "{" +:+ log_member "timestamp" timestamp_iso +:+ "," +:+ log_member "level" (level_name level)
  +:+ "," +:+ log_member "msg" msg +:+ "," +:+ log_member "logger" logger
  +:+ match trace_id with
      | Some tid => if is_empty tid then "" else "," +:+ log_member "trace_id" tid
      | None => ""
      end +:+ "}".

(** ** Shutdown *)

Definition DEFAULT_DRAIN_TIMEOUT_SECS : Z := 30.
Record ShutdownState : Type := mkShutdown { sd_stopping : bool }.
Definition shutdown_new : ShutdownState := mkShutdown false.
Definition mark_stopping (s : ShutdownState) : ShutdownState := mkShutdown true.

(** ** What a reader of JSON makes of a log line *)

Definition hex_val (a : ascii) : option Z :=
  let c := byte_of a in
  if (48 <=? c) && (c <=? 57) then Some (c - 48) else if (97 <=? c) && (c <=? 102) then Some (c - 87)
  else if (65 <=? c) && (c <=? 70) then Some (c - 55) else None.

(** A JSON string after its opening quote, and what follows it. *)
Fixpoint read_chars (s : string) : option (string * string) :=
  match s with
  | EmptyString => None
  | String.String a r =>
    if Ascii.eqb a quote then Some ("", r)
    else if Ascii.eqb a backslash then
      match r with
      | String.String "u" (String.String h1 (String.String h2 (String.String h3 (String.String h4 r)))) =>
        x1 ← hex_val h1; x2 ← hex_val h2; x3 ← hex_val h3; x4 ← hex_val h4;
        '(t, rest) ← read_chars r;
        Some (of_bytes (encode_char (4096 * x1 + 256 * x2 + 16 * x3 + x4)) +:+ t, rest)
      | String.String b r =>
        c ← (if Ascii.eqb b quote then Some b else if Ascii.eqb b backslash then Some b
             else if Ascii.eqb b "/" then Some b else if Ascii.eqb b "b" then Some "008"%char
             else if Ascii.eqb b "f" then Some "012"%char else if Ascii.eqb b "n" then Some "010"%char
             else if Ascii.eqb b "r" then Some "013"%char else if Ascii.eqb b "t" then Some "009"%char else None);
        '(t, rest) ← read_chars r; Some (String.String c t, rest)
      | EmptyString => None
      end
    else if byte_of a <? 32 then None
    else '(t, rest) ← read_chars r; Some (String.String a t, rest)
  end.

Definition expect (a : ascii) (s : string) : option string :=
  match s with String.String b r => if Ascii.eqb a b then Some r else None | EmptyString => None end.
Definition read_member (s : string) : option (string * string * string) :=
  s ← expect quote s; '(key, s) ← read_chars s; s ← expect ":" s; s ← expect quote s;
  '(value, s) ← read_chars s; Some (key, value, s).
Fixpoint read_members (fuel : nat) (s : string) : option (list (string * string)) :=
  match fuel with
  | O => None
  | S fuel =>
    '(key, value, s) ← read_member s;
    match s with
    | String.String "," s => rest ← read_members fuel s; Some ((key, value) :: rest)
    | "}" => Some [(key, value)]
    | _ => None
    end
  end.
Definition read_object (s : string) : option (list (string * string)) :=
  s ← expect "{" s; read_members (String.length s) s.

Lemma read_char a r : read_chars (json_char a +:+ r) = '(t, rest) ← read_chars r; Some (String.String a t, rest).
Proof. destruct a as [[] [] [] [] [] [] [] []]; reflexivity. Qed.

Lemma read_json_chars s r : read_chars (json_chars s +:+ String.String quote r) = Some (s, r).
Proof.
  induction s as [|a s IH]; [done|]. change (json_chars (String.String a s)) with (json_char a +:+ json_chars s).
  rewrite append_assoc, read_char, IH. done.
Qed.

(** The key is written as it stands: it needs no escape. *)
Lemma read_log_member key value r :
  json_chars key = key -> read_member (log_member key value +:+ r) = Some (key, value, r).
Proof.
  intros Hk. assert (E : log_member key value +:+ r =
    String.String quote (json_chars key +:+ String.String quote (String.String ":" (String.String quote
      (json_chars value +:+ String.String quote r))))).
  { unfold log_member, json_string. rewrite Hk. rewrite !append_assoc. reflexivity. }
  rewrite E. unfold read_member. cbn [expect Ascii.eqb]. rewrite Ascii.eqb_refl. cbn [mbind option_bind].
  rewrite read_json_chars. cbn -[json_chars read_chars]. by rewrite read_json_chars.
Qed.

(** One member of an object, and the rest of it. *)
Lemma read_members_next n key value r l :
  json_chars key = key -> read_members n r = Some l ->
  read_members (S n) (log_member key value +:+ "," +:+ r) = Some ((key, value) :: l).
Proof. intros Hk Hr. cbn -[log_member read_member]. rewrite read_log_member by done. cbn.
  change ("," +:+ r) with (String.String "," r). cbn. by rewrite Hr. Qed.
Lemma read_members_last n key value :
  json_chars key = key -> read_members (S n) (log_member key value +:+ "}") = Some [(key, value)].
Proof. intros Hk. cbn -[log_member read_member]. by rewrite read_log_member. Qed.

Lemma read_members_more n m s l : (n <= m)%nat -> read_members n s = Some l -> read_members m s = Some l.
Proof.
  revert m s l. induction n as [|n IH]; intros m s l Hm; [done|]. destruct m as [|m]; [lia|]. cbn -[read_member].
  destruct (read_member s) as [[[k v] t]|]; [|done]. cbn. destruct t as [|a t]; [done|].
  destruct a as [[] [] [] [] [] [] [] []]; try done.
  destruct (read_members n t) as [l'|] eqn:E; [|done]. by rewrite (IH m t l') by (done || lia).
Qed.

(** The members a log line was written from. *)
Definition log_members (timestamp_iso : string) (level : LogLevel) (msg logger : string) (trace_id : option string) :
  list (string * string) :=
  [("timestamp", timestamp_iso); ("level", level_name level); ("msg", msg); ("logger", logger)]
  ++ match trace_id with Some tid => if is_empty tid then [] else [("trace_id", tid)] | None => [] end.

Lemma log_line_roundtrip timestamp_iso level msg logger trace_id :
  read_object (json_log_line timestamp_iso level msg logger trace_id)
  = Some (log_members timestamp_iso level msg logger trace_id).
Proof.
  unfold read_object, json_log_line, log_members.
  change ("{" +:+ ?s) with (String.String "{" s). cbn [expect Ascii.eqb]. cbv [mbind option_bind].
  apply (read_members_more 5).
  - unfold log_member. rewrite !length_append. change (String.length quote_s) with 1%nat. lia.
  - do 3 (apply read_members_next; [done|]). destruct trace_id as [tid|]; [|by apply read_members_last].
    destruct (is_empty tid); [by apply read_members_last|]. rewrite append_assoc.
    apply read_members_next; [done|]. by apply read_members_last.
Qed.

(** *** A record is one line *)

Definition printable (s : string) : Prop := Forall (fun b => 32 <= b) (bytes_of s).

Lemma printable_app a b : printable (a +:+ b) <-> printable a /\ printable b.
Proof. unfold printable. by rewrite bytes_of_app, Forall_app. Qed.
Lemma printable_check s : forallb (fun b => 32 <=? b) (bytes_of s) = true -> printable s.
Proof. unfold printable. rewrite forallb_forall, Forall_forall. intros H b Hb%list_elem_of_In. apply H in Hb. lia. Qed.

Lemma json_char_printable a : printable (json_char a).
Proof. apply printable_check. by destruct a as [[] [] [] [] [] [] [] []]. Qed.
Lemma json_string_printable s : printable (json_string s).
Proof.
  unfold json_string. rewrite !printable_app. split_and!; [by apply printable_check| |by apply printable_check].
  induction s as [|a s IH]; [by apply printable_check|]. apply printable_app. split; [apply json_char_printable|done].
Qed.

Lemma log_line_is_one_line timestamp_iso level msg logger trace_id :
  printable (json_log_line timestamp_iso level msg logger trace_id).
Proof.
  unfold json_log_line, log_member. rewrite !printable_app.
  split_and!; try apply json_string_printable; try (by apply printable_check).
  destruct trace_id as [tid|]; [|by apply printable_check]. destruct (is_empty tid); [by apply printable_check|].
  rewrite !printable_app. split_and!; try apply json_string_printable; by apply printable_check.
Qed.

(** ** What the registry keeps apart *)

(** A label's value is read back as it was given. *)
Lemma cell_labels_given labels values :
  labels <> [] -> Forall (lacks CELL_SEPARATOR) values ->
  cell_labels labels (cell_key labels values) = zip labels (label_values_of labels values).
Proof.
  intros Hne Hv. unfold cell_labels, cell_key. destruct labels as [|l0 labels]; [done|].
  rewrite split_on_join.
  - unfold label_values_of. generalize (l0 :: labels). clear. intros labels.
    apply list_eq. intros i. rewrite list_lookup_imap, lookup_zip_with.
    rewrite !list_lookup_imap. by destruct (labels !! i).
  - unfold label_values_of. apply Forall_lookup_2. intros i x. rewrite list_lookup_imap.
    destruct ((l0 :: labels) !! i); [|done]. cbn. intros [= <-].
    destruct (values !! i) as [v|] eqn:E; [|done]. cbn. by eapply Forall_lookup_1 in Hv.
  - done.
Qed.

(** So values that differ where there are labels are counted apart. *)
Lemma cell_key_inj labels values values' :
  labels <> [] -> Forall (lacks CELL_SEPARATOR) values -> Forall (lacks CELL_SEPARATOR) values' ->
  cell_key labels values = cell_key labels values' ->
  forall i, (i < length labels)%nat -> default "" (values !! i) = default "" (values' !! i).
Proof.
  intros Hne Hv Hv' E i Hi. pose proof (cell_labels_given labels values Hne Hv) as H1.
  rewrite E, cell_labels_given in H1 by done. apply lookup_lt_is_Some in Hi as [l Hl].
  assert (G : forall vs, zip labels (label_values_of labels vs) !! i = Some (l, default "" (vs !! i))).
  { intros vs. rewrite lookup_zip_with, Hl. cbn. unfold label_values_of. rewrite list_lookup_imap, Hl. done. }
  pose proof (G values) as G1. rewrite <- H1, G in G1. by injection G1.
Qed.

(** A value with the separator in it moves into its neighbour's label, and the
    neighbour's value is lost. *)
Lemma separator_shifts_labels :
  let v := "x" +:+ String.String CELL_SEPARATOR "y" in
  cell_labels ["a"; "b"] (cell_key ["a"; "b"] [v; "z"]) = [("a", "x"); ("b", "y")]
  /\ cell_key ["a"; "b"] [v; "z"] = cell_key ["a"; "b"] ["x"; "y" +:+ String.String CELL_SEPARATOR "z"].
Proof. by vm_compute. Qed.

(** A value of a label in the exposition, after its opening quote. *)
Fixpoint read_label (s : string) : option (string * string) :=
  match s with
  | EmptyString => None
  | String.String a r =>
    if Ascii.eqb a quote then Some ("", r)
    else if Ascii.eqb a backslash then
      match r with
      | String.String b r =>
        '(t, rest) ← read_label r; Some (String.String (if Ascii.eqb b "n" then "010"%char else b) t, rest)
      | EmptyString => None
      end
    else '(t, rest) ← read_label r; Some (String.String a t, rest)
  end.

Lemma escape_label_spec v : escape_label v = label_chars v.
Proof.
  unfold escape_label. destruct (existsb _ _) eqn:E; [done|]. cbn. symmetry. revert E.
  induction v as [|a v IH]; cbn; [done|]. intros [Ha E]%orb_false_iff. rewrite (IH E).
  unfold label_special in Ha. unfold label_char. apply orb_false_iff in Ha as [Ha H3].
  apply orb_false_iff in Ha as [H1 H2]. by rewrite H1, H2, H3.
Qed.

Lemma read_label_char a r : read_label (label_char a +:+ r) = '(t, rest) ← read_label r; Some (String.String a t, rest).
Proof. destruct a as [[] [] [] [] [] [] [] []]; reflexivity. Qed.

Lemma label_roundtrip v r : read_label (escape_label v +:+ String.String quote r) = Some (v, r).
Proof.
  rewrite escape_label_spec. induction v as [|a v IH]; [done|].
  change (label_chars (String.String a v)) with (label_char a +:+ label_chars v).
  by rewrite append_assoc, read_label_char, IH.
Qed.

(** What is counted through one handle changes nothing else. *)
Lemma inc_by_other h h' by_ values r : h <> h' -> inc_by h by_ values r !! h' = r !! h'.
Proof. intros Hn. by apply list_lookup_alter_ne. Qed.
Lemma inc_by_cell h by_ values r c key :
  r !! h = Some (MCounter c) ->
  exists c', inc_by h by_ values r !! h = Some (MCounter c') /\ pc_labels c' = pc_labels c /\ pc_name c' = pc_name c /\
    pc_cells c' !! key = (if String.eqb key (cell_key (pc_labels c) values)
                          then Some (f_add (default f_zero (pc_cells c !! key)) by_) else pc_cells c !! key).
Proof.
  intros E. unfold inc_by. rewrite list_lookup_alter_eq, E. cbn. eexists. split; [done|]. cbn. split; [done|]. split; [done|].
  destruct (String.eqb_spec key (cell_key (pc_labels c) values)) as [->|Hn]; [by rewrite lookup_insert_eq|].
  by rewrite lookup_insert_ne.
Qed.

(** Handles name distinct metrics, whatever their names. *)
Lemma register_distinct name help labels r :
  let '(h, r') := register_counter name help labels r in r !! h = None /\ is_Some (r' !! h) /\ take h r' = r.
Proof.
  cbn. split_and!.
  - by apply lookup_ge_None_2.
  - rewrite lookup_app_r by done. rewrite Nat.sub_diag. by eexists.
  - by rewrite take_app_length.
Qed.

(** ** Readiness *)

(** What the probes say in turn, up to the first that fails: those after it are
    not asked. *)
Fixpoint first_failure {W} (probes : list (ReadinessProbe W)) (w : W) : option string * W :=
  match probes with
  | [] => (None, w)
  | p :: rest => match pb_check p w with (None, w') => first_failure rest w' | failed => failed end
  end.

Lemma readyz_reports {W} (probes : list (ReadinessProbe W)) w :
  render_readyz probes w =
  (match fst (first_failure probes w) with None => probe_ok | Some reason => probe_error reason end,
   snd (first_failure probes w)).
Proof. revert w. induction probes as [|p l IH]; intros w; cbn; [done|]. by destruct (pb_check p w) as [[]]. Qed.

Lemma readyz_ok_iff {W} (probes : list (ReadinessProbe W)) w :
  hp_status_code (fst (render_readyz probes w)) = 200 <-> fst (first_failure probes w) = None.
Proof. rewrite readyz_reports. cbn. by destruct (fst _). Qed.

(** The reason can be read back from the body. *)
Lemma readyz_body reason :
  read_object (hp_body (probe_error reason)) = Some [("status", "error"); ("reason", reason)].
Proof.
  set (body := log_member "status" "error" +:+ "," +:+ (log_member "reason" reason +:+ "}")).
  transitivity (read_members (String.length body) body); [reflexivity|].
  apply (read_members_more 2); [unfold body; rewrite !length_append; cbn; lia|].
  apply read_members_next; [done|]. by apply read_members_last.
Qed.

(** ** Levels *)

Lemma level_name_parse l : level_parse (level_name l) = Some l.
Proof. by destruct l. Qed.
Lemma resolve_log_level_cases env fallback :
  resolve_log_level env fallback = fallback \/
  exists raw, env LOG_LEVEL_ENV_VAR = Some raw /\ level_parse raw = Some (resolve_log_level env fallback).
Proof.
  unfold resolve_log_level. destruct (env _) as [raw|]; [|by left]. destruct (is_empty _); [by left|].
  destruct (level_parse raw) as [l|] eqn:E; [right; by exists raw|by left].
Qed.

(** ** Numbers *)

Example format_double_values :
  map format_double [S754_finite false 1 (-1); S754_finite true 9 (-2); f64_of_Z (10 ^ 15); f64_of_Z (-7);
                     S754_zero true; S754_nan; S754_infinity true; S754_finite false 1 (-70); S754_finite true 1 (-70);
                     S754_finite false 7205759403792794 (-56)]
  = ["0.5"; "-2.25"; "1000000000000000"; "-7"; "0"; "NaN"; "-inf"; "0"; "-0"; "0.1"].
Proof. by vm_compute. Qed.
