(* ===== verification/Json.v ===== *)
(** * Json: the [serde_json::Value] data the frames are made of

    [Value], [Number] and [Map] follow the public data type of [serde_json];
    a [Map] iterates in the order of its keys, so it is a list of pairs
    sorted by key.  Only the type and its accessors are here: serializers
    and parsers are third-party code and are parameters of the files that
    call them. *)

From S2P Require Import Prelude RustStr Floats.
Local Open Scope Z_scope.

(** ** Numbers *)

(** An integer that fits [u64], a negative integer that fits [i64], or a
    finite float. *)
Inductive Number : Type :=
| PosInt (n : Z)
| NegInt (n : Z)
| Float (f : spec_float).

Definition number_as_u64 (n : Number) : option Z :=
  match n with PosInt z => Some z | _ => None end.
Definition number_as_i64 (n : Number) : option Z :=
  match n with
  | PosInt z => if z <=? i64_max then Some z else None
  | NegInt z => Some z
  | Float _ => None
  end.
Definition number_as_f64 (n : Number) : option spec_float :=
  match n with PosInt z | NegInt z => Some (f64_of_Z z) | Float f => Some f end.

(** [Number::from_f64]. *)
Definition number_from_f64 (f : spec_float) : option Number :=
  if f_is_finite f then Some (Float f) else None.

Definition number_eqb (a b : Number) : bool :=
  match a, b with
  | PosInt x, PosInt y => x =? y
  | NegInt x, NegInt y => x =? y
  | Float x, Float y => SFeqb x y
  | _, _ => false
  end.

(** ** Values *)

Unset Elimination Schemes.
Inductive Value : Type :=
| VNull
| VBool (b : bool)
| VNumber (n : Number)
| VString (s : string)
| VArray (l : list Value)
| VObject (m : list (string * Value)).
Set Elimination Schemes.

Abbreviation Map := (list (string * Value)).
Abbreviation FrameDict := (list (string * Value)).

(** Induction through arrays and objects. *)
Section value_ind.
Variable P : Value -> Prop.
Hypothesis Hnull : P VNull.
Hypothesis Hbool : forall b, P (VBool b).
Hypothesis Hnum : forall n, P (VNumber n).
Hypothesis Hstr : forall s, P (VString s).
Hypothesis Harr : forall l, Forall P l -> P (VArray l).
Hypothesis Hobj : forall m, Forall (fun kv => P (snd kv)) m -> P (VObject m).

Fixpoint Value_ind (v : Value) : P v :=
  match v with
  | VNull => Hnull
  | VBool b => Hbool b
  | VNumber n => Hnum n
  | VString s => Hstr s
  | VArray l => Harr l
      ((fix go (l : list Value) : Forall P l :=
          match l with
          | [] => List.Forall_nil _
          | x :: r => List.Forall_cons _ _ _ (Value_ind x) (go r)
          end) l)
  | VObject m => Hobj m
      ((fix go (m : Map) : Forall (fun kv => P (snd kv)) m :=
          match m with
          | [] => List.Forall_nil _
          | kv :: r => List.Forall_cons _ _ _ (Value_ind (snd kv)) (go r)
          end) m)
  end.
End value_ind.

Definition as_object (v : Value) : option Map :=
  match v with VObject m => Some m | _ => None end.
Definition as_array (v : Value) : option (list Value) :=
  match v with VArray l => Some l | _ => None end.
Definition as_str (v : Value) : option string :=
  match v with VString s => Some s | _ => None end.
Definition as_bool (v : Value) : option bool :=
  match v with VBool b => Some b | _ => None end.
Definition as_u64 (v : Value) : option Z :=
  match v with VNumber n => number_as_u64 n | _ => None end.
Definition as_i64 (v : Value) : option Z :=
  match v with VNumber n => number_as_i64 n | _ => None end.
Definition as_f64 (v : Value) : option spec_float :=
  match v with VNumber n => number_as_f64 n | _ => None end.
Definition is_null (v : Value) : bool :=
  match v with VNull => true | _ => false end.

(** serde_json's parser, [from_str::<Value>] and [from_slice]: a parameter of
    the files that call it. *)
Class JsonParser : Type := { parse_json : string -> result string Value }.

(** [PartialEq for Value]. *)
Fixpoint value_eqb (a b : Value) : bool :=
  match a, b with
  | VNull, VNull => true
  | VBool x, VBool y => Bool.eqb x y
  | VNumber x, VNumber y => number_eqb x y
  | VString x, VString y => String.eqb x y
  | VArray l, VArray k =>
    (fix go (l k : list Value) : bool :=
       match l, k with
       | [], [] => true
       | x :: l', y :: k' => value_eqb x y && go l' k'
       | _, _ => false
       end) l k
  | VObject m, VObject n =>
    (fix go (m n : Map) : bool :=
       match m, n with
       | [], [] => true
       | (i, x) :: m', (j, y) :: n' => String.eqb i j && value_eqb x y && go m' n'
       | _, _ => false
       end) m n
  | _, _ => false
  end.

(** ** Maps *)

Fixpoint map_get {V} (k : string) (m : list (string * V)) : option V :=
  match m with
  | [] => None
  | (k', v) :: r => if String.eqb k k' then Some v else map_get k r
  end.

(** [Map::insert]: replaces the value of a present key, keeps the order. *)
Fixpoint map_insert {V} (k : string) (v : V) (m : list (string * V)) : list (string * V) :=
  match m with
  | [] => [(k, v)]
  | (k', v') :: r =>
    match String.compare k k' with
    | Eq => (k, v) :: r
    | Lt => (k, v) :: m
    | Gt => (k', v') :: map_insert k v r
    end
  end.

Definition map_remove {V} (k : string) (m : list (string * V)) : list (string * V) :=
  List.filter (fun kv => negb (String.eqb k (fst kv))) m.

Definition map_contains {V} (k : string) (m : list (string * V)) : bool :=
  match map_get k m with Some _ => true | None => false end.

(** [iter().collect()] into a [Map]: later entries win. *)
Definition map_collect {V} (l : list (string * V)) : list (string * V) :=
  fold_left (fun m kv => map_insert (fst kv) (snd kv) m) l [].

(** [Value::get] with a string key. *)
Definition vget (k : string) (v : Value) : option Value :=
  match v with VObject m => map_get k m | _ => None end.

(** Strictly increasing keys: the order a [Map] keeps. *)
Definition keys_sorted {V} (m : list (string * V)) : Prop :=
  StronglySorted (fun a b => String.compare (fst a) (fst b) = Lt) m.

Lemma compare_refl s : String.compare s s = Eq.
Proof.
  induction s as [|a s IH]; cbn; [done |].
  assert (Ascii.compare a a = Eq) as ->; [|done].
  unfold Ascii.compare. apply N.compare_refl.
Qed.

Lemma compare_trans s t u :
  String.compare s t = Lt -> String.compare t u = Lt -> String.compare s u = Lt.
Proof.
  revert t u; induction s as [|a s IH]; intros [|b t] [|c u]; cbn; try done.
  unfold Ascii.compare.
  destruct (N.compare_spec (N_of_ascii a) (N_of_ascii b)) as [E1|E1|E1]; try done;
  destruct (N.compare_spec (N_of_ascii b) (N_of_ascii c)) as [E2|E2|E2]; try done; intros H1 H2;
  destruct (N.compare_spec (N_of_ascii a) (N_of_ascii c)) as [E3|E3|E3]; try lia; try done.
  by eapply IH.
Qed.

Lemma map_get_insert {V} k k' (v : V) m :
  map_get k (map_insert k' v m) = if String.eqb k k' then Some v else map_get k m.
Proof.
  induction m as [|[k1 v1] m IH]; cbn; [done |].
  destruct (String.compare k' k1) eqn:E; cbn.
  - apply String.compare_eq_iff in E as ->. by destruct (String.eqb k k1).
  - done.
  - rewrite IH. destruct (String.eqb_spec k k1) as [->|]; [|done].
    destruct (String.eqb_spec k1 k') as [->|]; [|done].
    by rewrite compare_refl in E.
Qed.

Lemma map_get_remove {V} k k' (m : list (string * V)) :
  map_get k (map_remove k' m) = if String.eqb k k' then None else map_get k m.
Proof.
  unfold map_remove.
  induction m as [|[k1 v1] m IH]; cbn; [by destruct (String.eqb k k') |].
  destruct (String.eqb_spec k' k1) as [->|]; cbn; rewrite IH.
  - by destruct (String.eqb k k1).
  - destruct (String.eqb_spec k k1) as [->|]; [|done].
    destruct (String.eqb_spec k1 k'); congruence.
Qed.

Lemma map_insert_insert {V} k (v w : V) m :
  map_insert k v (map_insert k w m) = map_insert k v m.
Proof.
  induction m as [|[k1 v1] m IH]; cbn; [by rewrite compare_refl |].
  destruct (String.compare k k1) eqn:E; cbn.
  - by rewrite compare_refl.
  - by rewrite compare_refl.
  - by rewrite E, IH.
Qed.

Lemma map_insert_keys_sorted {V} k (v : V) m : keys_sorted m -> keys_sorted (map_insert k v m).
Proof.
  unfold keys_sorted. intros H; induction H as [|[k1 v1] m Hs IH Hall]; cbn; [by repeat constructor |].
  destruct (String.compare k k1) eqn:E.
  - apply String.compare_eq_iff in E as ->. by constructor.
  - constructor; [by constructor |]. constructor; [done |].
    eapply List.Forall_impl; [|exact Hall]. intros [k2 v2]; cbn. by apply compare_trans.
  - constructor; [done |].
    assert (Hlt : String.compare k1 k = Lt) by (rewrite String.compare_antisym, E; done).
    clear IH Hs E. induction m as [|[k2 v2] m IH2]; cbn; [by repeat constructor |].
    inversion_clear Hall. destruct (String.compare k k2); by repeat (constructor; eauto).
Qed.

Lemma map_collect_keys_sorted {V} (l : list (string * V)) : keys_sorted (map_collect l).
Proof.
  unfold map_collect. assert (keys_sorted ([] : list (string * V))) as H by constructor.
  revert H. generalize ([] : list (string * V)) as acc.
  induction l as [|[k v] l IH]; intros acc H; cbn; [done |].
  by apply IH, map_insert_keys_sorted.
Qed.

Lemma map_get_In {V} k (v : V) m : map_get k m = Some v -> In (k, v) m.
Proof.
  induction m as [|[k1 v1] m IH]; cbn; [done |].
  destruct (String.eqb_spec k k1) as [->|]; [intros [= ->]; by left | by right; auto].
Qed.

(** Two sorted maps with the same lookups are equal. *)
Lemma keys_sorted_ext {V} (m n : list (string * V)) :
  keys_sorted m -> keys_sorted n -> (forall k, map_get k m = map_get k n) -> m = n.
Proof.
  assert (Hnone : forall k k1 (r : list (string * V)), String.compare k k1 = Lt \/ k = k1 ->
    Forall (fun b => String.compare k1 (fst b) = Lt) r -> map_get k r = None).
  { intros k k1 r Hk Hall. destruct (map_get k r) eqn:E; [|done]. exfalso.
    apply map_get_In in E. rewrite List.Forall_forall in Hall. specialize (Hall _ E); cbn in Hall.
    destruct Hk as [Hk| ->]; [pose proof (compare_trans _ _ _ Hk Hall) as HH|
      rename Hall into HH]; by rewrite compare_refl in HH. }
  intros Hm; revert n; induction Hm as [|[k1 v1] m Hs IH Hall]; intros n Hn Heq.
  - destruct n as [|[k2 v2] n]; [done |]. specialize (Heq k2); cbn in Heq.
    by rewrite String.eqb_refl in Heq.
  - destruct Hn as [|[k2 v2] n Hs2 Hall2].
    { specialize (Heq k1); cbn in Heq. by rewrite String.eqb_refl in Heq. }
    cbn in Hall, Hall2.
    destruct (String.compare k1 k2) eqn:E.
    + apply String.compare_eq_iff in E as ->.
      pose proof (Heq k2) as H2; cbn in H2. rewrite String.eqb_refl in H2. injection H2 as ->.
      f_equal. apply IH; [done |]. intros k. specialize (Heq k); cbn in Heq.
      destruct (String.eqb_spec k k2) as [Hk|]; [|done]. rewrite Hk.
      rewrite (Hnone k2 k2 m), (Hnone k2 k2 n) by auto. done.
    + exfalso. pose proof (Heq k1) as H2; cbn in H2. rewrite String.eqb_refl in H2.
      destruct (String.eqb_spec k1 k2) as [->|]; [by rewrite compare_refl in E |].
      rewrite (Hnone k1 k2 n) in H2; auto. done.
    + exfalso. assert (E' : String.compare k2 k1 = Lt) by (rewrite String.compare_antisym, E; done).
      pose proof (Heq k2) as H2; cbn in H2. rewrite String.eqb_refl in H2.
      destruct (String.eqb_spec k2 k1) as [->|]; [by rewrite compare_refl in E |].
      rewrite (Hnone k2 k1 m) in H2; auto. done.
Qed.

Lemma keys_sorted_NoDup {V} (m : list (string * V)) : keys_sorted m -> List.NoDup (map fst m).
Proof.
  intros H; induction H as [|[k v] m Hs IH Hall]; cbn; constructor; [|done].
  intros Hin. apply in_map_iff in Hin as ([k' v'] & Hk & Hin); cbn in Hk; subst.
  rewrite List.Forall_forall in Hall. specialize (Hall _ Hin); cbn in Hall.
  by rewrite compare_refl in Hall.
Qed.

Lemma map_get_collect_sorted {V} (m : list (string * V)) k :
  keys_sorted m -> map_get k (map_collect m) = map_get k m.
Proof.
  intros Hs%keys_sorted_NoDup. unfold map_collect.
  assert (Hg : forall acc, map_get k (fold_left (fun m kv => map_insert (fst kv) (snd kv) m) m acc)
    = match map_get k m with Some v => Some v | None => map_get k acc end).
  { induction m as [|[k1 v1] m IH]; intros acc; cbn in *; [done |].
    inversion Hs as [|? ? Hn Hs']; subst. rewrite (IH Hs'), map_get_insert.
    destruct (String.eqb_spec k k1) as [->|]; [|done].
    destruct (map_get k1 m) eqn:E; [|done]. exfalso. apply Hn.
    apply map_get_In in E. by apply (in_map fst) in E. }
  rewrite Hg. by destruct (map_get k m).
Qed.

(** Collecting a map into a map is the identity. *)
Lemma map_collect_sorted {V} (m : list (string * V)) : keys_sorted m -> map_collect m = m.
Proof.
  intros H. apply keys_sorted_ext; [apply map_collect_keys_sorted | done |].
  intros k. by apply map_get_collect_sorted.
Qed.

#[export] Hint Rewrite @map_get_insert @map_get_remove : nps.
#[export] Hint Resolve map_insert_keys_sorted map_collect_keys_sorted : nps.

(** ** Dictionaries of frames *)

(** [if let Some(v) = o { m.insert(k, v) }]. *)
Definition insert_opt {V} (k : string) (o : option V) (m : list (string * V)) : list (string * V) :=
  match o with Some v => map_insert k v m | None => m end.

(** [json!(v)] for a list of strings, and the reverse reading, which skips
    what is not a string. *)
Definition vstrings (l : list string) : Value := VArray (map VString l).
Definition strings_of (l : list Value) : list string := omap as_str l.

Definition vnat (n : Z) : Value := VNumber (PosInt n).

Lemma map_get_insert_opt {V} k k' (o : option V) m :
  map_get k (insert_opt k' o m) =
  if String.eqb k k' then (match o with Some v => Some v | None => map_get k m end)
  else map_get k m.
Proof.
  destruct o; cbn; [apply map_get_insert | by destruct (String.eqb k k')].
Qed.

Lemma strings_of_map l : strings_of (map VString l) = l.
Proof. unfold strings_of. induction l; cbn; [done | by f_equal]. Qed.

(** A dictionary built by a chain of (possibly skipped) insertions, and what
    a key reads in it. *)
Definition dict_of {V} (l : list (string * option V)) : list (string * V) :=
  fold_left (fun m ko => insert_opt (fst ko) (snd ko) m) l [].

Fixpoint last_of {V} (k : string) (l : list (string * option V)) : option V :=
  match l with
  | [] => None
  | (k', o) :: r =>
    if String.eqb k k'
    then match last_of k r with Some v => Some v | None => o end
    else last_of k r
  end.

Lemma map_get_dict_of {V} k (l : list (string * option V)) :
  map_get k (dict_of l) = last_of k l.
Proof.
  unfold dict_of. assert (Hg : forall m, map_get k (fold_left
    (fun m ko => insert_opt (fst ko) (snd ko) m) l m)
    = match last_of k l with Some v => Some v | None => map_get k m end).
  { induction l as [|[k' o] l IH]; intros m; cbn; [done |].
    rewrite IH, map_get_insert_opt. destruct (String.eqb k k'); [|done].
    destruct (last_of k l); [done |]. by destruct o. }
  rewrite Hg. by destruct (last_of k l).
Qed.

Lemma dict_of_keys_sorted {V} (l : list (string * option V)) : keys_sorted (dict_of l).
Proof.
  unfold dict_of. assert (H : keys_sorted ([] : list (string * V))) by constructor.
  revert H. generalize ([] : list (string * V)) as m.
  induction l as [|[k [v|]] l IH]; intros m H; cbn; [done | | by apply IH].
  apply IH. by apply map_insert_keys_sorted.
Qed.

(** Evaluate every lookup of a literal key in a dictionary. *)
Ltac get_literal :=
  rewrite ?map_get_dict_of; cbn [last_of String.eqb Ascii.eqb Bool.eqb andb fst snd].

(** ** Equality and well-formedness of values *)

#[export] Instance Number_eq_dec : EqDecision Number.
Proof. solve_decision. Defined.

Definition value_eq_dec : forall x y : Value, Decision (x = y).
Proof.
  refine (fix go x y : Decision (x = y) :=
    match x, y with
    | VNull, VNull => left eq_refl
    | VBool a, VBool b => cast_if (decide (a = b))
    | VNumber a, VNumber b => cast_if (decide (a = b))
    | VString a, VString b => cast_if (decide (a = b))
    | VArray l, VArray k => cast_if (@list_eq_dec _ go l k)
    | VObject m, VObject n =>
      cast_if (@list_eq_dec _ (@prod_eq_dec _ _ _ go) m n)
    | _, _ => right _
    end); abstract congruence.
Defined.
#[export] Instance Value_eq_dec : EqDecision Value := value_eq_dec.

(** No floating-point number occurs in the value. *)
Fixpoint float_free (v : Value) : bool :=
  match v with
  | VNumber (Float _) => false
  | VArray l => forallb float_free l
  | VObject m => forallb (fun kv => float_free (snd kv)) m
  | _ => true
  end.
