(* ===== verification/NopModels.v ===== *)
(** * NopModels: the data of the NOP orchestrator

    Models nps-nop/src/orch_models.rs, models.rs, result.rs, constants.rs,
    options.rs and error_codes.rs.  A [HashMap] field whose iteration order
    the code observes is the association list of that order; the orders are
    arbitrary.  At the end, the delay that the retry loop of orchestrator.rs
    asks a policy for. *)

From S2P Require Import Prelude RustStr Floats Json.
From Stdlib Require Import Floats.SpecFloat.
Local Open Scope Z_scope.

(** ** constants.rs and error_codes.rs *)

Definition MAX_DAG_NODES : nat := 32.
Definition MAX_DELEGATE_CHAIN_DEPTH : Z := 3.
Definition MAX_CONDITION_LENGTH : nat := 512.
Definition MAX_INPUT_MAPPING_DEPTH : nat := 8.
Definition DEFAULT_TIMEOUT_MS : Z := 30000.
Definition MAX_TIMEOUT_MS : Z := 3600000.

Definition TASK_TIMEOUT : string := "NOP-TASK-TIMEOUT".
Definition TASK_DAG_INVALID : string := "NOP-TASK-DAG-INVALID".
Definition TASK_DAG_CYCLE : string := "NOP-TASK-DAG-CYCLE".
Definition TASK_DAG_TOO_LARGE : string := "NOP-TASK-DAG-TOO-LARGE".
Definition TASK_ALREADY_COMPLETED : string := "NOP-TASK-ALREADY-COMPLETED".
Definition TASK_CANCELLED : string := "NOP-TASK-CANCELLED".
Definition DELEGATE_CHAIN_TOO_DEEP : string := "NOP-DELEGATE-CHAIN-TOO-DEEP".
Definition DELEGATE_TIMEOUT : string := "NOP-DELEGATE-TIMEOUT".
Definition SYNC_DEPENDENCY_FAILED : string := "NOP-SYNC-DEPENDENCY-FAILED".
Definition STREAM_SEQ_GAP : string := "NOP-STREAM-SEQ-GAP".
Definition STREAM_NID_MISMATCH : string := "NOP-STREAM-NID-MISMATCH".
Definition RESOURCE_INSUFFICIENT : string := "NOP-RESOURCE-INSUFFICIENT".
Definition CONDITION_EVAL_ERROR : string := "NOP-CONDITION-EVAL-ERROR".
Definition INPUT_MAPPING_ERROR : string := "NOP-INPUT-MAPPING-ERROR".
Definition COMPENSATION_FAILED : string := "NOP-COMPENSATION-FAILED".
Definition COMPENSATION_NOT_SUPPORTED : string := "NOP-COMPENSATION-NOT-SUPPORTED".

(** ** models.rs *)

Definition runs_on_failure (policy : option string) : bool :=
  match policy with
  | Some p => String.eqb p "best_effort" || String.eqb p "strict"
              || String.eqb p "on_failure" || String.eqb p "always"
  | None => false
  end.
Definition runs_on_success (policy : option string) : bool :=
  match policy with Some p => String.eqb p "always" | None => false end.
Definition is_strict (policy : option string) : bool :=
  match policy with Some p => String.eqb p "strict" | None => false end.

Inductive TaskState : Type :=
| Pending | Preflight | Running | WaitingSync | Completed | Failed | Cancelled | Skipped
| Compensating | Compensated.
#[export] Instance TaskState_eq_dec : EqDecision TaskState.
Proof. solve_decision. Defined.

Definition state_as_str (s : TaskState) : string :=
  match s with
  | Pending => "pending"
  | Preflight => "preflight"
  | Running => "running"
  | WaitingSync => "waiting_sync"
  | Completed => "completed"
  | Failed => "failed"
  | Cancelled => "cancelled"
  | Skipped => "skipped"
  | Compensating => "compensating"
  | Compensated => "compensated"
  end.

Definition state_from_str (s : string) : option TaskState :=
  if String.eqb s "pending" then Some Pending
  else if String.eqb s "preflight" then Some Preflight
  else if String.eqb s "running" then Some Running
  else if String.eqb s "waiting_sync" then Some WaitingSync
  else if String.eqb s "completed" then Some Completed
  else if String.eqb s "failed" then Some Failed
  else if String.eqb s "cancelled" then Some Cancelled
  else if String.eqb s "skipped" then Some Skipped
  else if String.eqb s "compensating" then Some Compensating
  else if String.eqb s "compensated" then Some Compensated
  else None.

Definition state_is_terminal (s : TaskState) : bool :=
  match s with Completed | Failed | Cancelled | Compensated => true | _ => false end.

(** [NopTaskStatus]: accessors over the raw status object. *)
Definition status_state (raw : Map) : option TaskState :=
  s ← map_get "state" raw ≫= as_str; state_from_str s.
Definition status_is_terminal (raw : Map) : bool :=
  match status_state raw with Some s => state_is_terminal s | None => false end.
Definition status_task_id (raw : Map) : string :=
  default "" (map_get "task_id" raw ≫= as_str).

(** [BackoffStrategy::compute_delay_ms], on [u64]; [None] where a debug build
    panics: a product or a shift out of range. *)
Inductive BackoffStrategy : Type := Fixed | Linear | Exponential.

Definition backoff_delay_ms (s : BackoffStrategy) (base_ms max_ms attempt : Z) : option Z :=
  let checked z := if z <=? u64_max then Some z else None in
  raw ← match s with
        | Fixed => Some base_ms
        | Linear => checked (base_ms * (attempt + 1))
        | Exponential => if attempt <? 64 then checked (base_ms * Z.shiftl 1 attempt) else None
        end;
  Some (Z.min raw max_ms).

(** ** orch_models.rs *)

Record RetryPolicy : Type := mkRetryPolicy {
  rp_max_retries : Z;
  rp_backoff : string;
  rp_initial_delay_ms : Z;
  rp_max_delay_ms : Z;
  rp_retry_on : option (list string)
}.

Definition RetryPolicy_default : RetryPolicy := mkRetryPolicy 0 "exponential" 1000 30000 None.

Record DagNode : Type := mkDagNode {
  n_id : string;
  n_action : string;
  n_agent : string;
  n_input_from : option (list string);
  n_input_mapping : option (list (string * Value));
  n_timeout_ms : option Z;
  n_retry_policy : option RetryPolicy;
  n_condition : option string;
  n_min_required : Z;
  n_compensate_action : option string;
  n_compensate_params_mapping : option (list (string * Value))
}.

Record DagEdge : Type := mkDagEdge { e_from : string; e_to : string }.
Record TaskDag : Type := mkTaskDag { d_nodes : list DagNode; d_edges : list DagEdge }.

Record TaskContext : Type := mkTaskContext {
  tc_session_id : option string;
  tc_trace_id : option string;
  tc_span_id : option string;
  tc_trace_flags : option Z;
  tc_baggage : option (list (string * string));
  tc_custom : option Value
}.
Definition TaskContext_default : TaskContext := mkTaskContext None None None None None None.

Record StreamError : Type := mkStreamError {
  se_code : string; se_message : string; se_retryable : bool
}.

Record TaskFrame : Type := mkTaskFrame {
  t_task_id : string;
  t_dag : TaskDag;
  t_timeout_ms : Z;
  t_max_retries : Z;
  t_priority : string;
  t_callback_url : option string;
  t_callback_secret : option string;
  t_preflight : bool;
  t_context : option TaskContext;
  t_request_id : option string;
  t_delegate_depth : Z;
  t_compensation_policy : string
}.

Definition TaskFrame_new (task_id : string) (dag : TaskDag) : TaskFrame :=
  mkTaskFrame task_id dag DEFAULT_TIMEOUT_MS 2 "normal" None None false None None 0 "best_effort".

Record DelegateFrame : Type := mkDelegateFrame {
  dl_parent_task_id : string;
  dl_subtask_id : string;
  dl_node_id : string;
  dl_target_agent_nid : string;
  dl_action : string;
  dl_params : option Value;
  dl_delegated_scope : Value;
  dl_deadline_at : string;
  dl_idempotency_key : option string;
  dl_priority : option string;
  dl_context : option TaskContext;
  dl_delegate_depth : Z;
  dl_target_cluster_anchor : option string
}.

Record AlignStreamFrame : Type := mkAlign {
  as_stream_id : string;
  as_task_id : string;
  as_subtask_id : string;
  as_seq : Z;
  as_payload_ref : option string;
  as_data : option Value;
  as_window_size : option Z;
  as_is_final : bool;
  as_sender_nid : string;
  as_error : option StreamError;
  as_ack_seq : option Z;
  as_nak_seq : option Z
}.

Definition final_ok (task_id subtask_id sender_nid : string) (seq : Z) (data : option Value)
    : AlignStreamFrame :=
  mkAlign "" task_id subtask_id seq None data None true sender_nid None None None.
Definition final_err (task_id subtask_id sender_nid : string) (seq : Z) (error : StreamError)
    : AlignStreamFrame :=
  mkAlign "" task_id subtask_id seq None None None true sender_nid (Some error) None None.

(** ** result.rs *)

Record SagaCompensationResult : Type := mkSaga {
  sc_attempted : nat;
  sc_succeeded : nat;
  sc_failed : nat;
  sc_failed_node_ids : list string
}.

Record NopTaskResult : Type := mkTaskResult {
  r_task_id : string;
  r_final_state : TaskState;
  r_aggregated_result : option Value;
  r_error_code : option string;
  r_error_message : option string;
  r_node_results : gmap string Value;
  r_compensation : option SagaCompensationResult
}.

Definition task_success (task_id : string) (aggregated : option Value)
    (node_results : gmap string Value) (compensation : option SagaCompensationResult)
    : NopTaskResult :=
  mkTaskResult task_id Completed aggregated None None node_results compensation.
Definition task_failure (task_id error_code error_message : string)
    (compensation : option SagaCompensationResult) : NopTaskResult :=
  mkTaskResult task_id Failed None (Some error_code) (Some error_message) ∅ compensation.
Definition task_cancelled (task_id reason : string) : NopTaskResult :=
  mkTaskResult task_id Cancelled None (Some TASK_CANCELLED) (Some reason) ∅ None.

(** ** Lemmas *)

Lemma state_from_as_str s : state_from_str (state_as_str s) = Some s.
Proof. by destruct s. Qed.

Lemma state_as_str_inj s t : state_as_str s = state_as_str t -> s = t.
Proof.
  intros H. assert (E : state_from_str (state_as_str s) = state_from_str (state_as_str t)) by congruence.
  rewrite !state_from_as_str in E. congruence.
Qed.

(** ** The delay before a retry, a product of [f64]s brought back to [u32] *)

Local Open Scope Z_scope.

Definition u32_top : Z := 4294967295.

(** [2f64.powi(n)], exact where it has a value. *)
Definition f64_powi2 (n : Z) : spec_float :=
  if 1024 <=? n then S754_infinity false
  else if n <? - 1074 then S754_zero false
  else binary_normalize prec64 emax64 1 n false.

(** [attempt as i32]. *)
Definition as_i32 (n : Z) : Z := if n <=? 2147483647 then n else n - 4294967296.

(** [f64::min]: a number wins over a NaN. *)
Definition f64_min (a b : spec_float) : spec_float :=
  match a, b with
  | S754_nan, _ => b
  | _, S754_nan => a
  | _, _ => if SFltb b a then b else a
  end.

(** [f as u32]: toward zero, saturating, a NaN as zero; any power of two
    past the 64th saturates. *)
Definition f64_as_u32 (f : spec_float) : Z :=
  match f with
  | S754_zero _ | S754_nan => 0
  | S754_infinity s => if s then 0 else u32_top
  | S754_finite true _ _ => 0
  | S754_finite false m e => Z.min u32_top (if 0 <=? e then Z.pos m * 2 ^ Z.min e 64 else Z.pos m / 2 ^ (- e))
  end.

(** [None] is the overflow of [attempt + 1]. *)
Definition policy_delay_ms (p : RetryPolicy) (attempt : Z) : option Z :=
  factor ← (if String.eqb (rp_backoff p) "fixed" then Some (f64_of_Z 1)
            else if String.eqb (rp_backoff p) "linear"
            then if attempt + 1 <=? u32_top then Some (f64_of_Z (attempt + 1)) else None
            else Some (f64_powi2 (as_i32 attempt)));
  Some (f64_as_u32 (f64_min (SFmul prec64 emax64 (f64_of_Z (rp_initial_delay_ms p)) factor) (f64_of_Z (rp_max_delay_ms p)))).

(** The wait of the retry loop after its [attempt]th failure, from one. *)
Definition retry_wait_ms (policy : option RetryPolicy) (attempt : Z) : option Z :=
  match policy with Some p => policy_delay_ms p (attempt - 1) | None => Some 1000 end.

(** The delays of the default policy, which double up to the cap. *)
Example default_delays : map (policy_delay_ms RetryPolicy_default) [0; 1; 2; 3; 4; 5; 6; 254; 1023; 2147483647] =
  map Some [1000; 2000; 4000; 8000; 16000; 30000; 30000; 30000; 30000; 30000].
Proof. vm_compute. reflexivity. Qed.

Example linear_delays : map (policy_delay_ms (mkRetryPolicy 3 "linear" 1500 u32_top None)) [0; 1; 2; 9; 4294967294; 4294967295] =
  [Some 1500; Some 3000; Some 4500; Some 15000; Some u32_top; None].
Proof. vm_compute. reflexivity. Qed.

(** No delay times an infinite factor is not a number, and the cap is taken
    for it; an attempt past [i32] counts down. *)
Example odd_delays :
  policy_delay_ms (mkRetryPolicy 3 "exponential" 0 30000 None) 1023 = Some 0 /\
  policy_delay_ms (mkRetryPolicy 3 "exponential" 0 30000 None) 1024 = Some 30000 /\
  policy_delay_ms (mkRetryPolicy 3 "exponential" 1000 30000 None) 4294967295 = Some 500.
Proof. vm_compute. repeat split. Qed.

(** The loop counts its attempts in a byte, where the policy and a run without
    one never fail. *)
Lemma retry_wait_total policy attempt : 1 <= attempt <= 256 -> is_Some (retry_wait_ms policy attempt).
Proof.
  intros H. unfold retry_wait_ms, policy_delay_ms. destruct policy as [p|]; [|by eexists].
  replace (attempt - 1 + 1 <=? u32_top) with true by (unfold u32_top; lia).
  repeat case_match; simplify_eq/=; by eexists.
Qed.
