(* ===== verification/ErrorCodes.v ===== *)
(** * ErrorCodes: the wire error codes and their status tables

    [status_codes.rs] of nps-core and the [error_codes.rs] of the five
    protocol crates: the declared codes, [to_nps_status] of each protocol as
    the table of its match arms in order, and [to_http_status]. *)

From S2P Require Import Prelude RustStr.
Local Open Scope Z_scope.

(** First arm whose pattern is the code. *)
Fixpoint arm {A} (code : string) (arms : list (string * A)) : option A :=
  match arms with
  | [] => None
  | (c, a) :: arms => if String.eqb code c then Some a else arm code arms
  end.

(** ** nps-core: statuses *)

Definition status_codes : list string :=
  [
   "NPS-OK";
   "NPS-OK-ACCEPTED";
   "NPS-OK-NO-CONTENT";
   "NPS-CLIENT-BAD-FRAME";
   "NPS-CLIENT-BAD-PARAM";
   "NPS-CLIENT-NOT-FOUND";
   "NPS-CLIENT-CONFLICT";
   "NPS-CLIENT-GONE";
   "NPS-CLIENT-UNPROCESSABLE";
   "NPS-AUTH-UNAUTHENTICATED";
   "NPS-AUTH-FORBIDDEN";
   "NPS-LIMIT-RATE";
   "NPS-LIMIT-BUDGET";
   "NPS-LIMIT-PAYLOAD";
   "NPS-LIMIT-RESOURCE";
   "NPS-SERVER-INTERNAL";
   "NPS-SERVER-UNSUPPORTED";
   "NPS-SERVER-UNAVAILABLE";
   "NPS-SERVER-TIMEOUT";
   "NPS-SERVER-ENCODING-UNSUPPORTED";
   "NPS-DOWNSTREAM-UNAVAILABLE";
   "NPS-STREAM-SEQ-GAP";
   "NPS-STREAM-NOT-FOUND";
   "NPS-STREAM-LIMIT";
   "NPS-PROTO-VERSION-INCOMPATIBLE";
   "NPS-PROTO-PREAMBLE-INVALID";
   "NPS-CLIENT-RATE-LIMITED";
   "NPS-CLIENT-REQUEST-TOO-LARGE";
   "NPS-LIMIT-EXCEEDED"].

Definition http_arms : list (string * Z) :=
  [
   ("NPS-OK", 200);
   ("NPS-OK-ACCEPTED", 202);
   ("NPS-OK-NO-CONTENT", 204);
   ("NPS-CLIENT-BAD-FRAME", 400);
   ("NPS-CLIENT-BAD-PARAM", 400);
   ("NPS-CLIENT-NOT-FOUND", 404);
   ("NPS-CLIENT-CONFLICT", 409);
   ("NPS-CLIENT-GONE", 410);
   ("NPS-CLIENT-UNPROCESSABLE", 422);
   ("NPS-CLIENT-RATE-LIMITED", 429);
   ("NPS-CLIENT-REQUEST-TOO-LARGE", 413);
   ("NPS-AUTH-UNAUTHENTICATED", 401);
   ("NPS-AUTH-FORBIDDEN", 403);
   ("NPS-LIMIT-RATE", 429);
   ("NPS-LIMIT-BUDGET", 429);
   ("NPS-LIMIT-PAYLOAD", 413);
   ("NPS-LIMIT-RESOURCE", 429);
   ("NPS-LIMIT-EXCEEDED", 429);
   ("NPS-SERVER-INTERNAL", 500);
   ("NPS-SERVER-UNSUPPORTED", 501);
   ("NPS-SERVER-UNAVAILABLE", 503);
   ("NPS-SERVER-TIMEOUT", 504);
   ("NPS-SERVER-ENCODING-UNSUPPORTED", 415);
   ("NPS-DOWNSTREAM-UNAVAILABLE", 502);
   ("NPS-STREAM-SEQ-GAP", 422);
   ("NPS-STREAM-NOT-FOUND", 404);
   ("NPS-STREAM-LIMIT", 429);
   ("NPS-PROTO-VERSION-INCOMPATIBLE", 426);
   ("NPS-PROTO-PREAMBLE-INVALID", 400)].

Definition to_http_status (code : string) : option Z := arm code http_arms.

(** ** nps-ncp *)

Definition ncp_codes : list string :=
  [
   "NCP-ANCHOR-NOT-FOUND";
   "NCP-ANCHOR-SCHEMA-INVALID";
   "NCP-ANCHOR-ID-MISMATCH";
   "NCP-ANCHOR-STALE";
   "NCP-FRAME-UNKNOWN-TYPE";
   "NCP-FRAME-PAYLOAD-TOO-LARGE";
   "NCP-FRAME-FLAGS-INVALID";
   "NCP-DIFF-FORMAT-UNSUPPORTED";
   "NCP-STREAM-SEQ-GAP";
   "NCP-STREAM-NOT-FOUND";
   "NCP-STREAM-LIMIT-EXCEEDED";
   "NCP-STREAM-WINDOW-OVERFLOW";
   "NCP-ENCODING-UNSUPPORTED";
   "NCP-ENC-NOT-NEGOTIATED";
   "NCP-ENC-AUTH-FAILED";
   "NCP-VERSION-INCOMPATIBLE";
   "NCP-PREAMBLE-INVALID";
   "NCP-KEEPALIVE-TIMEOUT";
   "NCP-REKEY-REQUIRED";
   "NCP-EARLY-DATA-REJECTED";
   "NCP-NID-MISMATCH"].

Definition ncp_arms : list (string * string) :=
  [
   ("NCP-ANCHOR-NOT-FOUND", "NPS-CLIENT-NOT-FOUND");
   ("NCP-ANCHOR-SCHEMA-INVALID", "NPS-CLIENT-BAD-FRAME");
   ("NCP-ANCHOR-ID-MISMATCH", "NPS-CLIENT-CONFLICT");
   ("NCP-ANCHOR-STALE", "NPS-CLIENT-CONFLICT");
   ("NCP-FRAME-UNKNOWN-TYPE", "NPS-CLIENT-BAD-FRAME");
   ("NCP-FRAME-PAYLOAD-TOO-LARGE", "NPS-LIMIT-PAYLOAD");
   ("NCP-FRAME-FLAGS-INVALID", "NPS-CLIENT-BAD-FRAME");
   ("NCP-DIFF-FORMAT-UNSUPPORTED", "NPS-CLIENT-BAD-FRAME");
   ("NCP-STREAM-SEQ-GAP", "NPS-STREAM-SEQ-GAP");
   ("NCP-STREAM-NOT-FOUND", "NPS-STREAM-NOT-FOUND");
   ("NCP-STREAM-LIMIT-EXCEEDED", "NPS-STREAM-LIMIT");
   ("NCP-STREAM-WINDOW-OVERFLOW", "NPS-STREAM-LIMIT");
   ("NCP-ENCODING-UNSUPPORTED", "NPS-SERVER-ENCODING-UNSUPPORTED");
   ("NCP-ENC-NOT-NEGOTIATED", "NPS-CLIENT-BAD-FRAME");
   ("NCP-ENC-AUTH-FAILED", "NPS-CLIENT-BAD-FRAME");
   ("NCP-VERSION-INCOMPATIBLE", "NPS-PROTO-VERSION-INCOMPATIBLE");
   ("NCP-PREAMBLE-INVALID", "NPS-PROTO-PREAMBLE-INVALID");
   ("NCP-KEEPALIVE-TIMEOUT", "NPS-SERVER-TIMEOUT");
   ("NCP-REKEY-REQUIRED", "NPS-CLIENT-BAD-FRAME");
   ("NCP-EARLY-DATA-REJECTED", "NPS-PROTO-VERSION-INCOMPATIBLE");
   ("NCP-NID-MISMATCH", "NPS-AUTH-UNAUTHENTICATED")].

Definition ncp_to_nps_status (code : string) : string :=
  default "NPS-SERVER-INTERNAL" (arm code ncp_arms).

(** ** nps-nwp *)

Definition nwp_codes : list string :=
  [
   "NWP-AUTH-NID-SCOPE-VIOLATION";
   "NWP-AUTH-NID-EXPIRED";
   "NWP-AUTH-NID-REVOKED";
   "NWP-AUTH-NID-UNTRUSTED-ISSUER";
   "NWP-AUTH-NID-CAPABILITY-MISSING";
   "NWP-AUTH-ASSURANCE-TOO-LOW";
   "NWP-AUTH-REPUTATION-BLOCKED";
   "NWP-REPUTATION-THROTTLED";
   "NWP-REPUTATION-REJECTED";
   "NWP-REPUTATION-BANNED";
   "NWP-QUERY-FILTER-INVALID";
   "NWP-QUERY-FIELD-UNKNOWN";
   "NWP-QUERY-CURSOR-INVALID";
   "NWP-QUERY-REGEX-UNSAFE";
   "NWP-QUERY-VECTOR-UNSUPPORTED";
   "NWP-QUERY-AGGREGATE-UNSUPPORTED";
   "NWP-QUERY-AGGREGATE-INVALID";
   "NWP-QUERY-STREAM-UNSUPPORTED";
   "NWP-ACTION-NOT-FOUND";
   "NWP-ACTION-PARAMS-INVALID";
   "NWP-ACTION-IDEMPOTENCY-CONFLICT";
   "NWP-LLM-CONTEXT-NOT-FOUND";
   "NWP-LLM-CONTEXT-EXPIRED";
   "NWP-LLM-CONTEXT-VERSION-CONFLICT";
   "NWP-LLM-CONTEXT-BINDING-MISMATCH";
   "NWP-LLM-CONTEXT-FORBIDDEN";
   "NWP-LLM-CONTEXT-LIMIT-EXCEEDED";
   "NWP-LLM-CONTEXT-OPERATION-UNSUPPORTED";
   "NWP-TASK-NOT-FOUND";
   "NWP-TASK-ALREADY-CANCELLED";
   "NWP-TASK-ALREADY-COMPLETED";
   "NWP-TASK-ALREADY-FAILED";
   "NWP-SUBSCRIBE-STREAM-NOT-FOUND";
   "NWP-SUBSCRIBE-LIMIT-EXCEEDED";
   "NWP-SUBSCRIBE-FILTER-UNSUPPORTED";
   "NWP-SUBSCRIBE-INTERRUPTED";
   "NWP-SUBSCRIBE-SEQ-TOO-OLD";
   "NWP-SUBSCRIBE-LEASE-INVALID";
   "NWP-SUBSCRIBE-LEASE-EXPIRED";
   "NWP-BUDGET-EXCEEDED";
   "NWP-CGN-LIMIT-EXCEEDED";
   "NWP-DEPTH-EXCEEDED";
   "NWP-GRAPH-CYCLE";
   "NWP-NODE-UNAVAILABLE";
   "NWP-MANIFEST-VERSION-UNSUPPORTED";
   "NWP-MANIFEST-NODE-TYPE-REMOVED";
   "NWP-MANIFEST-NODE-TYPE-UNKNOWN";
   "NWP-RATE-LIMIT-EXCEEDED";
   "NWP-RESERVED-TYPE-UNSUPPORTED";
   "NWP-HTTP-ORIGIN-FORBIDDEN";
   "NWP-HTTP-CONTENT-TYPE-UNSUPPORTED";
   "NWP-HTTP-ACCEPT-UNSATISFIABLE";
   "NWP-HTTP-REQUEST-ID-MISMATCH";
   "NWP-HTTP-FRAME-BODY-MALFORMED";
   "NWP-HTTP-BODY-TOO-LARGE";
   "NWP-CAPABILITY-ADVERTISED-UNIMPLEMENTED";
   "NWP-TOPOLOGY-UNAUTHORIZED";
   "NWP-TOPOLOGY-UNSUPPORTED-SCOPE";
   "NWP-TOPOLOGY-DEPTH-UNSUPPORTED";
   "NWP-TOPOLOGY-FILTER-UNSUPPORTED";
   "NWP-ANCHOR-NOT-LEADER";
   "NWP-ANCHOR-EPOCH-FENCED";
   "NWP-BRIDGE-DIRECTION-UNSUPPORTED";
   "NWP-BRIDGE-TARGET-INVALID";
   "NWP-BRIDGE-PROTOCOL-UNSUPPORTED";
   "NWP-BRIDGE-ENDPOINT-INVALID";
   "NWP-BRIDGE-UPSTREAM-FAILED";
   "NWP-BRIDGE-SERVER-TOOL-NOT-FOUND";
   "NWP-BRIDGE-SERVER-DISPATCHER-MISSING";
   "NWP-BRIDGE-SERVER-DISPATCH-FAILED"].

Definition nwp_arms : list (string * string) :=
  [
   ("NWP-AUTH-NID-SCOPE-VIOLATION", "NPS-AUTH-FORBIDDEN");
   ("NWP-AUTH-NID-EXPIRED", "NPS-AUTH-UNAUTHENTICATED");
   ("NWP-AUTH-NID-REVOKED", "NPS-AUTH-UNAUTHENTICATED");
   ("NWP-AUTH-NID-UNTRUSTED-ISSUER", "NPS-AUTH-UNAUTHENTICATED");
   ("NWP-AUTH-NID-CAPABILITY-MISSING", "NPS-AUTH-FORBIDDEN");
   ("NWP-AUTH-ASSURANCE-TOO-LOW", "NPS-AUTH-FORBIDDEN");
   ("NWP-AUTH-REPUTATION-BLOCKED", "NPS-AUTH-FORBIDDEN");
   ("NWP-REPUTATION-THROTTLED", "NPS-CLIENT-RATE-LIMITED");
   ("NWP-REPUTATION-REJECTED", "NPS-AUTH-FORBIDDEN");
   ("NWP-REPUTATION-BANNED", "NPS-AUTH-FORBIDDEN");
   ("NWP-QUERY-FILTER-INVALID", "NPS-CLIENT-BAD-PARAM");
   ("NWP-QUERY-FIELD-UNKNOWN", "NPS-CLIENT-BAD-PARAM");
   ("NWP-QUERY-CURSOR-INVALID", "NPS-CLIENT-BAD-PARAM");
   ("NWP-QUERY-REGEX-UNSAFE", "NPS-CLIENT-BAD-PARAM");
   ("NWP-QUERY-VECTOR-UNSUPPORTED", "NPS-SERVER-UNSUPPORTED");
   ("NWP-QUERY-AGGREGATE-UNSUPPORTED", "NPS-SERVER-UNSUPPORTED");
   ("NWP-QUERY-AGGREGATE-INVALID", "NPS-CLIENT-BAD-PARAM");
   ("NWP-QUERY-STREAM-UNSUPPORTED", "NPS-SERVER-UNSUPPORTED");
   ("NWP-ACTION-NOT-FOUND", "NPS-CLIENT-NOT-FOUND");
   ("NWP-ACTION-PARAMS-INVALID", "NPS-CLIENT-UNPROCESSABLE");
   ("NWP-ACTION-IDEMPOTENCY-CONFLICT", "NPS-CLIENT-CONFLICT");
   ("NWP-LLM-CONTEXT-NOT-FOUND", "NPS-CLIENT-NOT-FOUND");
   ("NWP-LLM-CONTEXT-EXPIRED", "NPS-CLIENT-GONE");
   ("NWP-LLM-CONTEXT-VERSION-CONFLICT", "NPS-CLIENT-CONFLICT");
   ("NWP-LLM-CONTEXT-BINDING-MISMATCH", "NPS-CLIENT-CONFLICT");
   ("NWP-LLM-CONTEXT-FORBIDDEN", "NPS-AUTH-FORBIDDEN");
   ("NWP-LLM-CONTEXT-LIMIT-EXCEEDED", "NPS-LIMIT-RESOURCE");
   ("NWP-LLM-CONTEXT-OPERATION-UNSUPPORTED", "NPS-SERVER-UNSUPPORTED");
   ("NWP-TASK-NOT-FOUND", "NPS-CLIENT-NOT-FOUND");
   ("NWP-TASK-ALREADY-CANCELLED", "NPS-CLIENT-CONFLICT");
   ("NWP-TASK-ALREADY-COMPLETED", "NPS-CLIENT-CONFLICT");
   ("NWP-TASK-ALREADY-FAILED", "NPS-CLIENT-CONFLICT");
   ("NWP-SUBSCRIBE-STREAM-NOT-FOUND", "NPS-CLIENT-NOT-FOUND");
   ("NWP-SUBSCRIBE-LIMIT-EXCEEDED", "NPS-LIMIT-EXCEEDED");
   ("NWP-SUBSCRIBE-FILTER-UNSUPPORTED", "NPS-SERVER-UNSUPPORTED");
   ("NWP-SUBSCRIBE-INTERRUPTED", "NPS-SERVER-UNAVAILABLE");
   ("NWP-SUBSCRIBE-SEQ-TOO-OLD", "NPS-CLIENT-CONFLICT");
   ("NWP-SUBSCRIBE-LEASE-INVALID", "NPS-CLIENT-BAD-PARAM");
   ("NWP-SUBSCRIBE-LEASE-EXPIRED", "NPS-CLIENT-GONE");
   ("NWP-BUDGET-EXCEEDED", "NPS-LIMIT-BUDGET");
   ("NWP-CGN-LIMIT-EXCEEDED", "NPS-CLIENT-REQUEST-TOO-LARGE");
   ("NWP-DEPTH-EXCEEDED", "NPS-CLIENT-BAD-PARAM");
   ("NWP-GRAPH-CYCLE", "NPS-CLIENT-UNPROCESSABLE");
   ("NWP-NODE-UNAVAILABLE", "NPS-SERVER-UNAVAILABLE");
   ("NWP-MANIFEST-VERSION-UNSUPPORTED", "NPS-CLIENT-BAD-PARAM");
   ("NWP-MANIFEST-NODE-TYPE-REMOVED", "NPS-CLIENT-BAD-FRAME");
   ("NWP-MANIFEST-NODE-TYPE-UNKNOWN", "NPS-CLIENT-BAD-FRAME");
   ("NWP-RATE-LIMIT-EXCEEDED", "NPS-LIMIT-RATE");
   ("NWP-RESERVED-TYPE-UNSUPPORTED", "NPS-SERVER-UNSUPPORTED");
   ("NWP-HTTP-ORIGIN-FORBIDDEN", "NPS-AUTH-FORBIDDEN");
   ("NWP-HTTP-CONTENT-TYPE-UNSUPPORTED", "NPS-CLIENT-BAD-FRAME");
   ("NWP-HTTP-ACCEPT-UNSATISFIABLE", "NPS-CLIENT-BAD-PARAM");
   ("NWP-HTTP-REQUEST-ID-MISMATCH", "NPS-CLIENT-BAD-PARAM");
   ("NWP-HTTP-FRAME-BODY-MALFORMED", "NPS-CLIENT-BAD-FRAME");
   ("NWP-HTTP-BODY-TOO-LARGE", "NPS-LIMIT-PAYLOAD");
   ("NWP-CAPABILITY-ADVERTISED-UNIMPLEMENTED", "NPS-SERVER-UNSUPPORTED");
   ("NWP-TOPOLOGY-UNAUTHORIZED", "NPS-AUTH-FORBIDDEN");
   ("NWP-TOPOLOGY-UNSUPPORTED-SCOPE", "NPS-CLIENT-BAD-PARAM");
   ("NWP-TOPOLOGY-DEPTH-UNSUPPORTED", "NPS-CLIENT-BAD-PARAM");
   ("NWP-TOPOLOGY-FILTER-UNSUPPORTED", "NPS-CLIENT-BAD-PARAM");
   ("NWP-ANCHOR-NOT-LEADER", "NPS-CLIENT-CONFLICT");
   ("NWP-ANCHOR-EPOCH-FENCED", "NPS-CLIENT-CONFLICT");
   ("NWP-BRIDGE-DIRECTION-UNSUPPORTED", "NPS-SERVER-UNSUPPORTED");
   ("NWP-BRIDGE-TARGET-INVALID", "NPS-CLIENT-UNPROCESSABLE");
   ("NWP-BRIDGE-PROTOCOL-UNSUPPORTED", "NPS-SERVER-UNSUPPORTED");
   ("NWP-BRIDGE-ENDPOINT-INVALID", "NPS-CLIENT-UNPROCESSABLE");
   ("NWP-BRIDGE-UPSTREAM-FAILED", "NPS-DOWNSTREAM-UNAVAILABLE");
   ("NWP-BRIDGE-SERVER-TOOL-NOT-FOUND", "NPS-CLIENT-NOT-FOUND");
   ("NWP-BRIDGE-SERVER-DISPATCHER-MISSING", "NPS-SERVER-INTERNAL");
   ("NWP-BRIDGE-SERVER-DISPATCH-FAILED", "NPS-SERVER-INTERNAL")].

Definition nwp_to_nps_status (code : string) : string :=
  default "NPS-SERVER-INTERNAL" (arm code nwp_arms).

(** ** nps-ndp *)

Definition ndp_codes : list string :=
  [
   "NDP-RESOLVE-NOT-FOUND";
   "NDP-RESOLVE-AMBIGUOUS";
   "NDP-RESOLVE-TIMEOUT";
   "NDP-RESOLVE-STALE";
   "NDP-ANNOUNCE-SIGNATURE-INVALID";
   "NDP-ANNOUNCE-NID-MISMATCH";
   "NDP-ANNOUNCE-ROLE-REMOVED";
   "NDP-ANNOUNCE-ROLE-UNKNOWN";
   "NDP-ANNOUNCE-CONFLICT";
   "NDP-ANNOUNCE-PROFILE-VIOLATION";
   "NDP-ANNOUNCE-STALE";
   "NDP-GRAPH-SEQ-ROLLBACK";
   "NDP-GRAPH-SEQ-GAP";
   "NDP-GRAPH-INVALID";
   "NDP-GRAPH-TOO-LARGE";
   "NDP-ISSUER-NOT-ALLOWED";
   "NDP-CA-ATTEST-REQUIRED";
   "NDP-FEDERATION-LOOP";
   "NDP-CLUSTER-SPLIT";
   "NDP-REGISTRY-UNAVAILABLE";
   "NDP-STATE-UNAVAILABLE";
   "NDP-STATE-CORRUPT"].

Definition ndp_arms : list (string * string) :=
  [
   ("NDP-RESOLVE-NOT-FOUND", "NPS-CLIENT-NOT-FOUND");
   ("NDP-RESOLVE-AMBIGUOUS", "NPS-CLIENT-CONFLICT");
   ("NDP-RESOLVE-TIMEOUT", "NPS-SERVER-TIMEOUT");
   ("NDP-RESOLVE-STALE", "NPS-CLIENT-NOT-FOUND");
   ("NDP-ANNOUNCE-SIGNATURE-INVALID", "NPS-AUTH-UNAUTHENTICATED");
   ("NDP-ANNOUNCE-NID-MISMATCH", "NPS-CLIENT-BAD-FRAME");
   ("NDP-ANNOUNCE-ROLE-REMOVED", "NPS-CLIENT-BAD-FRAME");
   ("NDP-ANNOUNCE-ROLE-UNKNOWN", "NPS-CLIENT-BAD-FRAME");
   ("NDP-ANNOUNCE-CONFLICT", "NPS-CLIENT-CONFLICT");
   ("NDP-ANNOUNCE-PROFILE-VIOLATION", "NPS-AUTH-FORBIDDEN");
   ("NDP-ANNOUNCE-STALE", "NPS-CLIENT-NOT-FOUND");
   ("NDP-GRAPH-SEQ-ROLLBACK", "NPS-CLIENT-BAD-FRAME");
   ("NDP-GRAPH-SEQ-GAP", "NPS-STREAM-SEQ-GAP");
   ("NDP-GRAPH-INVALID", "NPS-CLIENT-BAD-FRAME");
   ("NDP-GRAPH-TOO-LARGE", "NPS-LIMIT-PAYLOAD");
   ("NDP-ISSUER-NOT-ALLOWED", "NPS-AUTH-FORBIDDEN");
   ("NDP-CA-ATTEST-REQUIRED", "NPS-AUTH-UNAUTHENTICATED");
   ("NDP-FEDERATION-LOOP", "NPS-CLIENT-CONFLICT");
   ("NDP-CLUSTER-SPLIT", "NPS-CLIENT-CONFLICT");
   ("NDP-REGISTRY-UNAVAILABLE", "NPS-SERVER-UNAVAILABLE");
   ("NDP-STATE-UNAVAILABLE", "NPS-SERVER-UNAVAILABLE");
   ("NDP-STATE-CORRUPT", "NPS-SERVER-INTERNAL")].

Definition ndp_to_nps_status (code : string) : string :=
  default "NPS-SERVER-INTERNAL" (arm code ndp_arms).

(** ** nps-nip *)

Definition nip_codes : list string :=
  [
   "NIP-CERT-EXPIRED";
   "NIP-CERT-REVOKED";
   "NIP-CERT-SIGNATURE-INVALID";
   "NIP-CERT-UNTRUSTED-ISSUER";
   "NIP-CERT-CAPABILITY-MISSING";
   "NIP-CERT-SCOPE-VIOLATION";
   "NIP-CA-NID-NOT-FOUND";
   "NIP-CA-NID-ALREADY-EXISTS";
   "NIP-CA-SERIAL-DUPLICATE";
   "NIP-CA-RENEWAL-TOO-EARLY";
   "NIP-CA-SCOPE-EXPANSION-DENIED";
   "NIP-RA-TOKEN-INVALID";
   "NIP-RA-TOKEN-EXPIRED";
   "NIP-RA-NID-NOT-ALLOWED";
   "NIP-RA-PENDING-REJECTED";
   "NIP-OCSP-UNAVAILABLE";
   "NIP-TRUST-FRAME-INVALID";
   "NIP-ASSURANCE-MISMATCH";
   "NIP-ASSURANCE-UNKNOWN";
   "NIP-REPUTATION-ENTRY-INVALID";
   "NIP-REPUTATION-LOG-UNREACHABLE";
   "NIP-CERT-FORMAT-INVALID";
   "NIP-CERT-EKU-MISSING";
   "NIP-CERT-SUBJECT-NID-MISMATCH";
   "NIP-ACME-CHALLENGE-FAILED";
   "NIP-TRUST-FRAME-EXPIRED";
   "NIP-TRUST-FRAME-GRANTOR-REVOKED";
   "NIP-TRUST-FRAME-SCOPE-EXCEEDS-GRANTOR";
   "NIP-TRUST-FRAME-NODES-PATTERN-INVALID";
   "NIP-REVOKE-FRAME-INVALID";
   "NIP-REVOKE-FRAME-UNAUTHORIZED-ISSUER";
   "NIP-REVOKE-FRAME-SERIAL-MISMATCH";
   "NIP-REVOKE-FRAME-REASON-UNKNOWN";
   "NIP-REPUTATION-GOSSIP-FORK";
   "NIP-REPUTATION-GOSSIP-SIG-INVALID";
   "NIP-CA-GROUP-REVOKED";
   "NIP-CA-PARENT-NOT-FOUND";
   "NIP-CA-PARENT-NOT-GROUP";
   "NIP-CA-SESSION-VALIDITY-INVALID";
   "NIP-CA-JWS-INVALID";
   "NIP-CA-JWS-EXPIRED";
   "NIP-CERT-PARENT-REVOKED";
   "NIP-OCSP-STAPLE-EXPIRED";
   "NIP-OCSP-UNKNOWN";
   "NIP-REVOCATION-STATE-STALE";
   "NIP-CERT-NODE-ROLES-MISMATCH";
   "NIP-CERT-CAPABILITIES-EXCEEDED"].

Definition nip_arms : list (string * string) :=
  [
   ("NIP-CERT-EXPIRED", "NPS-AUTH-UNAUTHENTICATED");
   ("NIP-CERT-REVOKED", "NPS-AUTH-UNAUTHENTICATED");
   ("NIP-CERT-SIGNATURE-INVALID", "NPS-AUTH-UNAUTHENTICATED");
   ("NIP-CERT-UNTRUSTED-ISSUER", "NPS-AUTH-UNAUTHENTICATED");
   ("NIP-CERT-CAPABILITY-MISSING", "NPS-AUTH-FORBIDDEN");
   ("NIP-CERT-SCOPE-VIOLATION", "NPS-AUTH-FORBIDDEN");
   ("NIP-CA-NID-NOT-FOUND", "NPS-CLIENT-NOT-FOUND");
   ("NIP-CA-NID-ALREADY-EXISTS", "NPS-CLIENT-CONFLICT");
   ("NIP-CA-SERIAL-DUPLICATE", "NPS-CLIENT-CONFLICT");
   ("NIP-CA-RENEWAL-TOO-EARLY", "NPS-CLIENT-BAD-PARAM");
   ("NIP-CA-SCOPE-EXPANSION-DENIED", "NPS-AUTH-FORBIDDEN");
   ("NIP-RA-TOKEN-INVALID", "NPS-AUTH-UNAUTHENTICATED");
   ("NIP-RA-TOKEN-EXPIRED", "NPS-AUTH-UNAUTHENTICATED");
   ("NIP-RA-NID-NOT-ALLOWED", "NPS-AUTH-FORBIDDEN");
   ("NIP-RA-PENDING-REJECTED", "NPS-AUTH-FORBIDDEN");
   ("NIP-OCSP-UNAVAILABLE", "NPS-SERVER-UNAVAILABLE");
   ("NIP-OCSP-STAPLE-EXPIRED", "NPS-AUTH-UNAUTHENTICATED");
   ("NIP-OCSP-UNKNOWN", "NPS-AUTH-UNAUTHENTICATED");
   ("NIP-REVOCATION-STATE-STALE", "NPS-SERVER-UNAVAILABLE");
   ("NIP-TRUST-FRAME-INVALID", "NPS-CLIENT-BAD-FRAME");
   ("NIP-TRUST-FRAME-EXPIRED", "NPS-AUTH-UNAUTHENTICATED");
   ("NIP-TRUST-FRAME-GRANTOR-REVOKED", "NPS-AUTH-UNAUTHENTICATED");
   ("NIP-TRUST-FRAME-SCOPE-EXCEEDS-GRANTOR", "NPS-AUTH-FORBIDDEN");
   ("NIP-TRUST-FRAME-NODES-PATTERN-INVALID", "NPS-CLIENT-BAD-FRAME");
   ("NIP-REVOKE-FRAME-INVALID", "NPS-CLIENT-BAD-FRAME");
   ("NIP-REVOKE-FRAME-UNAUTHORIZED-ISSUER", "NPS-AUTH-FORBIDDEN");
   ("NIP-REVOKE-FRAME-SERIAL-MISMATCH", "NPS-CLIENT-BAD-PARAM");
   ("NIP-REVOKE-FRAME-REASON-UNKNOWN", "NPS-CLIENT-BAD-FRAME");
   ("NIP-ASSURANCE-MISMATCH", "NPS-CLIENT-BAD-FRAME");
   ("NIP-ASSURANCE-UNKNOWN", "NPS-CLIENT-BAD-FRAME");
   ("NIP-REPUTATION-ENTRY-INVALID", "NPS-CLIENT-BAD-FRAME");
   ("NIP-REPUTATION-LOG-UNREACHABLE", "NPS-DOWNSTREAM-UNAVAILABLE");
   ("NIP-REPUTATION-GOSSIP-FORK", "NPS-SERVER-INTERNAL");
   ("NIP-REPUTATION-GOSSIP-SIG-INVALID", "NPS-CLIENT-BAD-FRAME");
   ("NIP-CERT-FORMAT-INVALID", "NPS-CLIENT-BAD-FRAME");
   ("NIP-CERT-EKU-MISSING", "NPS-CLIENT-BAD-FRAME");
   ("NIP-CERT-SUBJECT-NID-MISMATCH", "NPS-CLIENT-BAD-FRAME");
   ("NIP-ACME-CHALLENGE-FAILED", "NPS-CLIENT-BAD-FRAME");
   ("NIP-CA-GROUP-REVOKED", "NPS-AUTH-FORBIDDEN");
   ("NIP-CA-PARENT-NOT-FOUND", "NPS-CLIENT-NOT-FOUND");
   ("NIP-CA-PARENT-NOT-GROUP", "NPS-CLIENT-BAD-PARAM");
   ("NIP-CA-SESSION-VALIDITY-INVALID", "NPS-CLIENT-BAD-PARAM");
   ("NIP-CA-JWS-INVALID", "NPS-AUTH-UNAUTHENTICATED");
   ("NIP-CA-JWS-EXPIRED", "NPS-AUTH-UNAUTHENTICATED");
   ("NIP-CERT-PARENT-REVOKED", "NPS-AUTH-UNAUTHENTICATED");
   ("NIP-CERT-NODE-ROLES-MISMATCH", "NPS-AUTH-FORBIDDEN");
   ("NIP-CERT-CAPABILITIES-EXCEEDED", "NPS-AUTH-FORBIDDEN")].

Definition nip_to_nps_status (code : string) : string :=
  default "NPS-SERVER-INTERNAL" (arm code nip_arms).

(** ** nps-nop *)

Definition nop_codes : list string :=
  [
   "NOP-TASK-NOT-FOUND";
   "NOP-TASK-TIMEOUT";
   "NOP-TASK-DAG-INVALID";
   "NOP-TASK-DAG-CYCLE";
   "NOP-TASK-DAG-TOO-LARGE";
   "NOP-TASK-ALREADY-COMPLETED";
   "NOP-TASK-CANCELLED";
   "NOP-DELEGATE-SCOPE-VIOLATION";
   "NOP-DELEGATE-REJECTED";
   "NOP-DELEGATE-CHAIN-TOO-DEEP";
   "NOP-DELEGATE-TIMEOUT";
   "NOP-SYNC-TIMEOUT";
   "NOP-SYNC-DEPENDENCY-FAILED";
   "NOP-STREAM-SEQ-GAP";
   "NOP-STREAM-NID-MISMATCH";
   "NOP-STREAM-NAK";
   "NOP-STREAM-NAK-UNRESOLVABLE";
   "NOP-TASK-RESULT-EXPIRED";
   "NOP-RESOURCE-INSUFFICIENT";
   "NOP-CONDITION-EVAL-ERROR";
   "NOP-INPUT-MAPPING-ERROR";
   "NOP-COMPENSATION-FAILED";
   "NOP-COMPENSATION-PARTIAL-FAILED";
   "NOP-COMPENSATION-NOT-SUPPORTED";
   "NOP-CALLBACK-HMAC-MISSING";
   "NOP-CALLBACK-INVALID";
   "NOP-CALLBACK-HMAC-INVALID";
   "NOP-CLAIM-CONFLICT";
   "NOP-SPAWN-SPEC-INVALID";
   "NOP-RUNTIME-IDLE-TIMEOUT";
   "NOP-RUNTIME-MAX-RUNTIME";
   "NOP-REPLAY-CONFLICT";
   "NOP-REPLAY-LIMIT";
   "NOP-AGGREGATION-INVALID"].

Definition nop_arms : list (string * string) :=
  [
   ("NOP-TASK-NOT-FOUND", "NPS-CLIENT-NOT-FOUND");
   ("NOP-TASK-TIMEOUT", "NPS-SERVER-TIMEOUT");
   ("NOP-TASK-DAG-INVALID", "NPS-CLIENT-BAD-FRAME");
   ("NOP-TASK-DAG-CYCLE", "NPS-CLIENT-BAD-FRAME");
   ("NOP-TASK-DAG-TOO-LARGE", "NPS-CLIENT-BAD-FRAME");
   ("NOP-TASK-ALREADY-COMPLETED", "NPS-CLIENT-CONFLICT");
   ("NOP-TASK-CANCELLED", "NPS-CLIENT-CONFLICT");
   ("NOP-DELEGATE-SCOPE-VIOLATION", "NPS-AUTH-FORBIDDEN");
   ("NOP-DELEGATE-REJECTED", "NPS-CLIENT-UNPROCESSABLE");
   ("NOP-DELEGATE-CHAIN-TOO-DEEP", "NPS-CLIENT-BAD-PARAM");
   ("NOP-DELEGATE-TIMEOUT", "NPS-SERVER-TIMEOUT");
   ("NOP-SYNC-TIMEOUT", "NPS-SERVER-TIMEOUT");
   ("NOP-SYNC-DEPENDENCY-FAILED", "NPS-CLIENT-UNPROCESSABLE");
   ("NOP-STREAM-SEQ-GAP", "NPS-STREAM-SEQ-GAP");
   ("NOP-STREAM-NID-MISMATCH", "NPS-AUTH-UNAUTHENTICATED");
   ("NOP-STREAM-NAK", "NPS-STREAM-SEQ-GAP");
   ("NOP-STREAM-NAK-UNRESOLVABLE", "NPS-STREAM-SEQ-GAP");
   ("NOP-TASK-RESULT-EXPIRED", "NPS-CLIENT-NOT-FOUND");
   ("NOP-RESOURCE-INSUFFICIENT", "NPS-SERVER-UNAVAILABLE");
   ("NOP-CONDITION-EVAL-ERROR", "NPS-CLIENT-BAD-PARAM");
   ("NOP-INPUT-MAPPING-ERROR", "NPS-CLIENT-UNPROCESSABLE");
   ("NOP-COMPENSATION-FAILED", "NPS-CLIENT-UNPROCESSABLE");
   ("NOP-COMPENSATION-PARTIAL-FAILED", "NPS-CLIENT-UNPROCESSABLE");
   ("NOP-COMPENSATION-NOT-SUPPORTED", "NPS-CLIENT-UNPROCESSABLE");
   ("NOP-CALLBACK-HMAC-MISSING", "NPS-AUTH-UNAUTHENTICATED");
   ("NOP-CALLBACK-INVALID", "NPS-CLIENT-BAD-PARAM");
   ("NOP-CALLBACK-HMAC-INVALID", "NPS-AUTH-UNAUTHENTICATED");
   ("NOP-CLAIM-CONFLICT", "NPS-CLIENT-CONFLICT");
   ("NOP-SPAWN-SPEC-INVALID", "NPS-CLIENT-BAD-PARAM");
   ("NOP-RUNTIME-IDLE-TIMEOUT", "NPS-SERVER-TIMEOUT");
   ("NOP-RUNTIME-MAX-RUNTIME", "NPS-SERVER-TIMEOUT");
   ("NOP-REPLAY-CONFLICT", "NPS-CLIENT-CONFLICT");
   ("NOP-REPLAY-LIMIT", "NPS-LIMIT-RESOURCE");
   ("NOP-AGGREGATION-INVALID", "NPS-CLIENT-BAD-PARAM")].

Definition nop_to_nps_status (code : string) : string :=
  default "NPS-SERVER-INTERNAL" (arm code nop_arms).

(** ** The tables are total *)

(** What a table must do for its declared codes: an arm of its own, with a
    status that has an HTTP error class. *)
Definition covered (codes : list string) (arms : list (string * string)) : bool :=
  forallb (fun code =>
    match arm code arms with
    | None => false
    | Some status =>
      match to_http_status status with
      | Some h => (400 <=? h) && (h <? 600)
      | None => false
      end
    end) codes.

Definition only_declared (codes : list string) (arms : list (string * string)) : bool :=
  forallb (fun a => existsb (String.eqb (fst a)) codes) arms.

Lemma arm_In {A} code (arms : list (string * A)) a : arm code arms = Some a -> In (code, a) arms.
Proof.
  induction arms as [|[c b] arms IH]; cbn; [done |].
  destruct (String.eqb_spec code c) as [->|]; [intros [= ->]; by left | auto].
Qed.

Lemma covered_spec codes arms code :
  covered codes arms = true -> In code codes ->
  exists status h, arm code arms = Some status /\ to_http_status status = Some h /\ 400 <= h < 600.
Proof.
  intros Hc Hin. unfold covered in Hc. rewrite forallb_forall in Hc. specialize (Hc _ Hin).
  destruct (arm code arms) as [status|]; [|done].
  destruct (to_http_status status) as [h|] eqn:E; [|done].
  apply andb_prop in Hc as [H1 H2]. exists status, h. repeat split; [done | lia | lia].
Qed.

Lemma undeclared_falls_back codes arms code :
  only_declared codes arms = true -> ~ In code codes -> arm code arms = None.
Proof.
  intros Ho Hn. destruct (arm code arms) as [a|] eqn:E; [|done]. exfalso.
  apply arm_In in E. unfold only_declared in Ho. rewrite forallb_forall in Ho.
  specialize (Ho _ E). apply existsb_exists in Ho as (c & Hc & Heq).
  apply String.eqb_eq in Heq. cbn in Heq. by subst.
Qed.

(** The status tables of the five protocols are total and exact: every
    declared error code has an arm of its own and its status has an HTTP error
    class, a code is declared once, and every other string falls back to
    NPS-SERVER-INTERNAL. *)
Theorem error_codes_mapped codes arms to_status :
  In (codes, arms, to_status)
    [(ncp_codes, ncp_arms, ncp_to_nps_status); (nwp_codes, nwp_arms, nwp_to_nps_status);
     (ndp_codes, ndp_arms, ndp_to_nps_status); (nip_codes, nip_arms, nip_to_nps_status);
     (nop_codes, nop_arms, nop_to_nps_status)] ->
  List.NoDup codes /\
  (forall code, In code codes ->
     exists h, arm code arms = Some (to_status code) /\
               to_http_status (to_status code) = Some h /\ 400 <= h < 600) /\
  (forall code, ~ In code codes -> to_status code = "NPS-SERVER-INTERNAL").
Proof.
  assert (main : forall codes arms,
    covered codes arms = true -> only_declared codes arms = true ->
    bool_decide (base.NoDup codes) = true ->
    List.NoDup codes /\
    (forall code, In code codes -> exists h,
       arm code arms = Some (default "NPS-SERVER-INTERNAL" (arm code arms)) /\
       to_http_status (default "NPS-SERVER-INTERNAL" (arm code arms)) = Some h /\ 400 <= h < 600) /\
    (forall code, ~ In code codes ->
       default "NPS-SERVER-INTERNAL" (arm code arms) = "NPS-SERVER-INTERNAL")).
  { intros cs ars Hc Ho Hd. split; [apply bool_decide_eq_true in Hd; by apply NoDup_ListNoDup |]. split.
    - intros code Hin. destruct (covered_spec _ _ _ Hc Hin) as (st & h & E & Hh & Hr).
      exists h. by rewrite E.
    - intros code Hn. by rewrite (undeclared_falls_back _ _ _ Ho Hn). }
  cbn [In]. intros Hin.
  repeat destruct Hin as [[= <- <- <-]|Hin]; [apply main; by vm_compute .. | destruct Hin].
Qed.

Lemma error_codes_mapped_witness :
  exists h, arm "NOP-TASK-TIMEOUT" nop_arms = Some (nop_to_nps_status "NOP-TASK-TIMEOUT") /\
            to_http_status (nop_to_nps_status "NOP-TASK-TIMEOUT") = Some h /\ 400 <= h < 600.
Proof.
  apply (error_codes_mapped nop_codes nop_arms nop_to_nps_status).
  - do 4 right. left. reflexivity.
  - vm_compute. tauto.
Defined.
