(* ===== verification/CoreFrames.v ===== *)
(** * CoreFrames: frame types, the frame header and the frame registry

    Models nps-core/src/error.rs, frames.rs and registry.rs. *)

From S2P Require Import Prelude RustStr Floats Json.
Local Open Scope Z_scope.

(** ** Errors (error.rs) *)

Inductive NpsError : Type :=
| Frame (m : string)
| Codec (m : string)
| AnchorNotFound (m : string)
| AnchorPoison (m : string)
| Identity (m : string)
| Io (m : string).

Abbreviation NpsResult := (result NpsError).

(** ** Frame types (frames.rs) *)

Inductive FrameType : Type :=
| Anchor | Diff | Stream | Caps | Hello | Nop | Query | Action
| Ident | Trust | Revoke | Announce | Resolve | Graph
| Task | Delegate | Sync | AlignStream | Error.

#[export] Instance FrameType_eq_dec : EqDecision FrameType.
Proof. solve_decision. Defined.

Definition as_u8 (ft : FrameType) : Z :=
  match ft with
  | Anchor => 0x01 | Diff => 0x02 | Stream => 0x03 | Caps => 0x04
  | Hello => 0x06 | Nop => 0x07 | Query => 0x10 | Action => 0x11
  | Ident => 0x20 | Trust => 0x21 | Revoke => 0x22
  | Announce => 0x30 | Resolve => 0x31 | Graph => 0x32
  | Task => 0x40 | Delegate => 0x41 | Sync => 0x42 | AlignStream => 0x43
  | Error => 0xFE
  end.

Definition from_u8 (v : Z) : NpsResult FrameType :=
  match v with
  | 0x01 => Ok Anchor | 0x02 => Ok Diff | 0x03 => Ok Stream | 0x04 => Ok Caps
  | 0x06 => Ok Hello | 0x07 => Ok Nop | 0x10 => Ok Query | 0x11 => Ok Action
  | 0x20 => Ok Ident | 0x21 => Ok Trust | 0x22 => Ok Revoke
  | 0x30 => Ok Announce | 0x31 => Ok Resolve | 0x32 => Ok Graph
  | 0x40 => Ok Task | 0x41 => Ok Delegate | 0x42 => Ok Sync | 0x43 => Ok AlignStream
  | 0xFE => Ok Error
  | _ => Err (Frame ("unknown frame type: 0x" +:+ fmt_02X v))
  end.

Inductive EncodingTier : Type := TJson | TMsgPack | TBinaryVector | TReserved.

#[export] Instance EncodingTier_eq_dec : EqDecision EncodingTier.
Proof. solve_decision. Defined.

Definition tier_u8 (t : EncodingTier) : Z :=
  match t with TJson => 0 | TMsgPack => 1 | TBinaryVector => 2 | TReserved => 3 end.

(** ** The frame header (frames.rs) *)

Record FrameHeader : Type := mkHeader {
  frame_type : FrameType;
  flags : Z;
  payload_length : Z;
  is_extended : bool
}.

(** [FrameHeader::new]. *)
Definition header_new (ft : FrameType) (tier : EncodingTier) (is_final : bool)
    (payload_length : Z) : FrameHeader :=
  let is_extended := 0xFFFF <? payload_length in
  let flags := Z.land (tier_u8 tier) 0x03 in
  let flags := if is_final then Z.lor flags 0x04 else flags in
  let flags := if is_extended then Z.lor flags 0x80 else flags in
  mkHeader ft flags payload_length is_extended.

Definition encoding_tier (h : FrameHeader) : EncodingTier :=
  match Z.land (flags h) 0x03 with
  | 0 => TJson | 1 => TMsgPack | 2 => TBinaryVector | _ => TReserved
  end.

Definition is_final (h : FrameHeader) : bool := negb (Z.land (flags h) 0x04 =? 0).

Definition header_size (h : FrameHeader) : nat := if is_extended h then 8%nat else 4%nat.

(** [FrameHeader::parse]. *)
Definition parse (wire : list Z) : NpsResult FrameHeader :=
  match wire with
  | b0 :: b1 :: b2 :: b3 :: rest =>
    ft ← from_u8 b0;
    if negb (Z.land b1 0x80 =? 0) then
      match rest with
      | b4 :: b5 :: b6 :: b7 :: _ => Ok (mkHeader ft b1 (be_val [b4; b5; b6; b7]) true)
      | _ => Err (Frame "buffer too small for extended header")
      end
    else Ok (mkHeader ft b1 (be_val [b2; b3]) false)
  | _ => Err (Frame "buffer too small for header")
  end.

(** [FrameHeader::to_bytes]; the length is truncated to the field. *)
Definition to_bytes (h : FrameHeader) : list Z :=
  if is_extended h
  then [as_u8 (frame_type h); flags h; 0; 0] ++ be_bytes 4 (wrap_u32 (payload_length h))
  else [as_u8 (frame_type h); flags h] ++ be_bytes 2 (wrap_u16 (payload_length h)).

(** ** The frame registry (registry.rs) *)

Record FrameRegistry : Type := mkRegistry { registered : gset Z }.

Definition registry_new : FrameRegistry := mkRegistry ∅.
Definition register (r : FrameRegistry) (ft : FrameType) : FrameRegistry :=
  mkRegistry ({[ as_u8 ft ]} ∪ registered r).
Definition is_registered (r : FrameRegistry) (ft : FrameType) : bool :=
  bool_decide (as_u8 ft ∈ registered r).

Definition create_default : FrameRegistry :=
  fold_left register [Anchor; Diff; Stream; Caps; Hello; Error] registry_new.
Definition create_full : FrameRegistry :=
  fold_left register
    [Query; Action; Ident; Trust; Revoke; Announce; Resolve; Graph;
     Task; Delegate; Sync; AlignStream] create_default.

(** ** Lemmas *)

Lemma from_u8_as_u8 ft : from_u8 (as_u8 ft) = Ok ft.
Proof. by destruct ft. Qed.

Lemma as_u8_range ft : u8_range (as_u8 ft).
Proof. destruct ft; unfold u8_range; cbn; lia. Qed.

Lemma as_u8_inj ft ft' : as_u8 ft = as_u8 ft' -> ft = ft'.
Proof.
  intros H. assert (E : from_u8 (as_u8 ft) = from_u8 (as_u8 ft')) by by rewrite H.
  rewrite !from_u8_as_u8 in E. by injection E.
Qed.

Lemma from_u8_Ok v ft : from_u8 v = Ok ft -> v = as_u8 ft.
Proof.
  unfold from_u8. intros H.
  repeat match type of H with
  | context [match ?x with _ => _ end] => is_var x; destruct x; try done; simplify_eq/=; try done
  end.
Qed.

Lemma header_new_tier ft t fin n : encoding_tier (header_new ft t fin n) = t.
Proof. unfold header_new, encoding_tier; cbn. by destruct t, fin, (0xFFFF <? n). Qed.

Lemma header_new_final ft t fin n : is_final (header_new ft t fin n) = fin.
Proof. unfold header_new, is_final; cbn. by destruct t, fin, (0xFFFF <? n). Qed.

Lemma header_new_ext_flag ft t fin n :
  negb (Z.land (flags (header_new ft t fin n)) 0x80 =? 0) = (0xFFFF <? n).
Proof. unfold header_new; cbn. by destruct t, fin, (0xFFFF <? n). Qed.

Lemma to_bytes_length h : length (to_bytes h) = header_size h.
Proof. unfold to_bytes, header_size. destruct (is_extended h); by autorewrite with nps. Qed.

Lemma be_val_wrap_u32 n : be_val (be_bytes 4 (wrap_u32 n)) = wrap_u32 n.
Proof.
  rewrite be_val_be_bytes. unfold wrap_u32.
  change (256 ^ Z.of_nat 4) with 4294967296. by rewrite Zmod_mod.
Qed.

Lemma be_val_wrap_u16 n : be_val (be_bytes 2 (wrap_u16 n)) = wrap_u16 n.
Proof.
  rewrite be_val_be_bytes. unfold wrap_u16.
  change (256 ^ Z.of_nat 2) with 65536. by rewrite Zmod_mod.
Qed.

Lemma be_bytes_4 z : exists a b c d, be_bytes 4 z = [a; b; c; d].
Proof. cbn. eauto. Qed.
Lemma be_bytes_2 z : exists a b, be_bytes 2 z = [a; b].
Proof. cbn. eauto. Qed.

(** What [parse] reads back from a header [new] built, whatever the length:
    the length is the one that fits the field. *)
Lemma parse_to_bytes_new ft t fin n rest :
  0 <= n ->
  parse (to_bytes (header_new ft t fin n) ++ rest)
  = Ok (mkHeader ft (flags (header_new ft t fin n)) (wrap_u32 n) (0xFFFF <? n)).
Proof.
  intros Hn. pose proof (header_new_ext_flag ft t fin n) as Hext.
  unfold to_bytes. cbn [is_extended header_new frame_type payload_length].
  destruct (0xFFFF <? n) eqn:E.
  - destruct (be_bytes_4 (wrap_u32 n)) as (a & b & c & d & Hb).
    pose proof (be_val_wrap_u32 n) as Hv. rewrite Hb in Hv |- *. cbn [app parse].
    rewrite from_u8_as_u8; cbn [mbind result_bind]. by rewrite Hext, Hv.
  - destruct (be_bytes_2 (wrap_u16 n)) as (a & b & Hb).
    pose proof (be_val_wrap_u16 n) as Hv. rewrite Hb in Hv |- *. cbn [app parse].
    rewrite from_u8_as_u8; cbn [mbind result_bind]. rewrite Hext, Hv.
    unfold wrap_u16, wrap_u32. by rewrite !Z.mod_small by lia.
Qed.

(** ** Properties *)

(** A header built for a payload of at most [u32::MAX] bytes survives
    serialization: parsing its bytes, followed by anything, gives it back. *)
Theorem header_roundtrip ft t fin n rest :
  0 <= n < 4294967296 ->
  parse (to_bytes (header_new ft t fin n) ++ rest) = Ok (header_new ft t fin n).
Proof.
  intros Hn. rewrite parse_to_bytes_new by lia.
  unfold wrap_u32. by rewrite Z.mod_small by lia.
Qed.

Lemma header_roundtrip_witness :
  0 <= 70000 < 4294967296 /\
  parse (to_bytes (header_new Query TMsgPack true 70000) ++ [7])
  = Ok (header_new Query TMsgPack true 70000).
Proof. split; [lia | apply (header_roundtrip Query TMsgPack true 70000 [7]); lia]. Defined.

(** [create_full] registers every frame type except the NCP keepalive
    [Nop]. *)
Theorem create_full_registered ft :
  is_registered create_full ft = negb (bool_decide (ft = Nop)).
Proof. by destruct ft; vm_compute. Qed.

(** Beyond [u32::MAX] bytes the length field of a frame wraps, so the
    header read back declares [n mod 2^32] bytes. *)
Theorem header_length_wraps ft t fin n rest :
  4294967296 <= n ->
  exists h, parse (to_bytes (header_new ft t fin n) ++ rest) = Ok h /\
    payload_length h = n mod 4294967296 /\ payload_length h < n.
Proof.
  intros Hn. eexists. rewrite parse_to_bytes_new by lia. split; [done |]. cbn.
  unfold wrap_u32. pose proof (Z.mod_pos_bound n 4294967296). lia.
Qed.

Lemma header_length_wraps_witness :
  exists h, parse (to_bytes (header_new Query TMsgPack true 4294967301) ++ []) = Ok h /\
    payload_length h = 4294967301 mod 4294967296 /\ payload_length h < 4294967301.
Proof. apply (header_length_wraps Query TMsgPack true 4294967301 []). lia. Defined.
