(* ===== verification/CoreCodec.v ===== *)
(** * CoreCodec: frame payload encodings and [NpsFrameCodec]

    Models nps-core/src/codec.rs.  The JSON and MessagePack serializers are
    third-party; they are the operations of [SerdeCodec], and [SerdeLaws]
    is what the program relies on: reading back what was written. *)

From S2P Require Import Prelude RustStr Floats Json CoreFrames.
Local Open Scope Z_scope.

(** ** The serializers *)

Class SerdeCodec : Type := {
  json_to_vec : Map -> result string (list Z);
  json_from_slice : list Z -> result string Value;
  rmp_to_vec_named : Value -> result string (list Z);
  rmp_from_slice : list Z -> result string Value
}.

(** At most [n] arrays and objects stand around any part of the value. *)
Fixpoint shallow (n : nat) (v : Value) {struct v} : bool :=
  match v, n with
  | VArray l, S n => forallb (shallow n) l
  | VObject m, S n => forallb (fun kv => shallow n (snd kv)) m
  | VArray _, O | VObject _, O => false
  | _, _ => true
  end.

(** The readers count the arrays and objects they are inside of and stop at a
    documented limit: [serde_json] at the 128th, [rmp_serde] at the 1024th. *)
Definition JSON_NESTING : nat := 127.
Definition MSGPACK_NESTING : nat := 1023.

(** What the writers wrote the readers read back, within their nesting
    limits.  [serde_json] reads integers, strings, booleans, arrays and objects
    back exactly (floats only up to the last digit, so they are left out) and
    refuses what is nested deeper; [rmp_serde] also reads floats back. *)
Class SerdeLaws `{SerdeCodec} : Prop := {
  json_roundtrip m b :
    float_free (VObject m) = true -> shallow JSON_NESTING (VObject m) = true ->
    json_to_vec m = Ok b -> json_from_slice b = Ok (VObject m);
  json_too_deep m b :
    shallow JSON_NESTING (VObject m) = false -> json_to_vec m = Ok b ->
    exists e, json_from_slice b = Err e;
  rmp_roundtrip v b :
    shallow MSGPACK_NESTING v = true -> rmp_to_vec_named v = Ok b -> rmp_from_slice b = Ok v
}.

(** The payloads a tier reads back exactly. *)
Definition readable (tier : EncodingTier) (dict : FrameDict) : bool :=
  match tier with
  | TJson => float_free (VObject dict) && shallow JSON_NESTING (VObject dict)
  | TMsgPack => shallow MSGPACK_NESTING (VObject dict)
  | _ => false
  end.

(** A serializer that knows finitely many values and writes the position of
    a value in its table.  It satisfies the laws, so it can stand for the
    third-party serializers when a theorem is evaluated at a concrete input. *)
Definition table_write (tbl : list Value) (v : Value) : result string (list Z) :=
  match list_find (fun x => x = v) tbl with
  | Some (i, _) => Ok [Z.of_nat i]
  | None => Err "unsupported value"
  end.

Definition table_read (tbl : list Value) (b : list Z) : result string Value :=
  match b with
  | [i] => ok_or (tbl !! Z.to_nat i) "bad index"
  | _ => Err "bad length"
  end.

(** The table behind a reader that stops at [JSON_NESTING]. *)
Definition table_read_json (tbl : list Value) (b : list Z) : result string Value :=
  v ← table_read tbl b;
  if shallow JSON_NESTING v then Ok v else Err "recursion limit exceeded".

Definition table_codec (tbl : list Value) : SerdeCodec := {|
  json_to_vec := fun m => table_write tbl (VObject m);
  json_from_slice := table_read_json tbl;
  rmp_to_vec_named := table_write tbl;
  rmp_from_slice := table_read tbl
|}.

Lemma table_write_read tbl v b : table_write tbl v = Ok b -> table_read tbl b = Ok v.
Proof.
  unfold table_write, table_read. destruct (list_find _ tbl) as [[i x]|] eqn:E; [|done].
  apply list_find_Some in E as (Hi & -> & _). intros [= <-]. by rewrite Nat2Z.id, Hi.
Qed.

Lemma table_laws tbl : @SerdeLaws (table_codec tbl).
Proof.
  constructor; cbn -[shallow]; intros ? ?; unfold table_read_json.
  - intros _ Hs E%table_write_read. rewrite E. cbn -[shallow]. by rewrite Hs.
  - intros Hs E%table_write_read. rewrite E. cbn -[shallow]. rewrite Hs. eauto.
  - intros _. apply table_write_read.
Qed.

(** *** Nesting *)

Lemma shallow_mono v : forall n k, (n <= k)%nat -> shallow n v = true -> shallow k v = true.
Proof.
  induction v as [|b|num|str|l IH|m IH] using Value_ind; intros n k Hk; destruct n, k; try done; try lia; cbn;
    rewrite !forallb_forall; intros H x Hx.
  - rewrite List.Forall_forall in IH. apply (IH x Hx n); [lia | by apply H].
  - rewrite List.Forall_forall in IH. apply (IH x Hx n); [lia | by apply H].
Qed.

Lemma shallow_insert n k v m :
  shallow n v = true -> shallow (S n) (VObject m) = true ->
  shallow (S n) (VObject (map_insert k v m)) = true.
Proof.
  intros Hv. cbn. induction m as [|[k' w] m IH]; cbn; intros Hm; [by rewrite Hv |].
  apply andb_true_iff in Hm as [Hw Hm].
  destruct (String.compare k k'); cbn; rewrite ?Hv, ?Hw, ?Hm; cbn; auto.
Qed.

Lemma shallow_insert_opt n k o m :
  (forall v, o = Some v -> shallow n v = true) -> shallow (S n) (VObject m) = true ->
  shallow (S n) (VObject (insert_opt k o m)) = true.
Proof. destruct o; cbn [insert_opt]; auto using shallow_insert. Qed.

Lemma shallow_vstrings n l : shallow (S n) (vstrings l) = true.
Proof. by induction l. Qed.

Lemma shallow_fmap {A} n (f : A -> Value) (o : option A) v :
  (forall a, shallow n (f a) = true) -> f <$> o = Some v -> shallow n v = true.
Proof. intros Hf. destruct o; cbn; intros [= <-]; auto. Qed.

Lemma shallow_lookup n k v m :
  map_get k m = Some v -> shallow (S n) (VObject m) = true -> shallow n v = true.
Proof.
  intros Hk Hm. cbn in Hm. rewrite forallb_forall in Hm.
  apply map_get_In in Hk. apply (Hm _ Hk).
Qed.

Section codec.
Context {SC : SerdeCodec}.

(** ** Tier 1 and tier 2 *)

Definition encode_json (dict : FrameDict) : NpsResult (list Z) :=
  map_err Codec (json_to_vec dict).

Definition encode_msgpack (dict : FrameDict) : NpsResult (list Z) :=
  map_err Codec (rmp_to_vec_named (VObject dict)).

Definition decode_json (payload : list Z) : NpsResult FrameDict :=
  v ← map_err Codec (json_from_slice payload);
  match v with
  | VObject m => Ok m
  | _ => Err (Codec "expected JSON object")
  end.

Definition decode_msgpack (payload : list Z) : NpsResult FrameDict :=
  v ← map_err Codec (rmp_from_slice payload);
  match v with
  | VObject m => Ok m
  | _ => Err (Codec "expected MsgPack map")
  end.

(** ** Tier 3: BinaryVector *)

Definition BINARY_VECTOR_MAGIC : list Z := bytes_of "NPBV".
Definition BINARY_VECTOR_VERSION : Z := 1.
Definition BINARY_VECTOR_PREFIX : nat := 16.
Definition BINARY_VECTOR_MARKER : string := "$nps_binary_vector".

(** The loop of [extract_vector_search_vector]: every element must be a
    finite number. *)
Fixpoint collect_f32 (values : list Value) : option (list spec_float) :=
  match values with
  | [] => Some []
  | v :: r =>
    match as_f64 v with
    | None => None
    | Some x =>
      if negb (f_is_finite x) then None
      else match collect_f32 r with
           | Some l => Some (f32_of_f64 x :: l)
           | None => None
           end
    end
  end.

(** The marker left in the metadata at the place of the vector. *)
Definition vector_marker (index dim : nat) : FrameDict :=
  map_insert "dim" (VNumber (PosInt (Z.of_nat dim)))
    (map_insert "dtype" (VString "float32")
      (map_insert BINARY_VECTOR_MARKER (VNumber (PosInt (Z.of_nat index))) [])).

Definition extract_vector_search_vector (metadata : FrameDict)
    (vectors : list (list spec_float)) : FrameDict * list (list spec_float) :=
  match map_get "vector_search" metadata with
  | Some (VObject vector_search) =>
    match map_get "vector" vector_search with
    | Some (VArray values) =>
      match collect_f32 values with
      | Some vector =>
        let marker := vector_marker (length vectors) (length vector) in
        (map_insert "vector_search"
           (VObject (map_insert "vector" (VObject marker) vector_search)) metadata,
         vectors ++ [vector])
      | None => (metadata, vectors)
      end
    | _ => (metadata, vectors)
    end
  | _ => (metadata, vectors)
  end.

Definition vector_segment (vector : list spec_float) : list Z :=
  be_bytes 4 (wrap_u32 (Z.of_nat (length vector))) ++ concat (map f32_to_le_bytes vector).

Definition encode_binary_vector (dict : FrameDict) : NpsResult (list Z) :=
  let (metadata, vectors) := extract_vector_search_vector dict [] in
  if 65535 <? Z.of_nat (length vectors)
  then Err (Codec "binary vector supports at most 65535 vectors per frame")
  else
    metadata_bytes ← map_err Codec (rmp_to_vec_named (VObject metadata));
    Ok (BINARY_VECTOR_MAGIC ++ [BINARY_VECTOR_VERSION; 0]
        ++ be_bytes 2 (wrap_u16 (Z.of_nat (length vectors)))
        ++ be_bytes 4 (wrap_u32 (Z.of_nat (length metadata_bytes)))
        ++ be_bytes 4 0
        ++ metadata_bytes
        ++ concat (map vector_segment vectors)).

(** The inner loop of [decode_binary_vector]: [dim] floats. *)
Fixpoint read_f32s (dim : nat) (rest : list Z) : list spec_float * list Z :=
  match dim with
  | O => ([], rest)
  | S d =>
    let (v, rest') := read_f32s d (drop 4 rest) in
    (f32_of_le_bytes (take 4 rest) :: v, rest')
  end.

(** The outer loop: [vector_count] segments; [rest] is the payload from the
    current offset on. *)
Fixpoint read_segments (vector_count : nat) (rest : list Z)
    : NpsResult (list (list spec_float) * list Z) :=
  match vector_count with
  | O => Ok ([], rest)
  | S n =>
    if (length rest <? 4)%nat then Err (Codec "binary vector segment missing dimension")
    else
      let dim := be_val (take 4 rest) in
      let rest := drop 4 rest in
      if Z.of_nat (length rest) <? dim * 4
      then Err (Codec "binary vector segment is truncated")
      else
        let (vector, rest) := read_f32s (Z.to_nat dim) rest in
        '(vectors, rest) ← read_segments n rest;
        Ok (vector :: vectors, rest)
  end.

(** The numbers put back for one vector. *)
Fixpoint restore_numbers (vector : list spec_float) : NpsResult (list Value) :=
  match vector with
  | [] => Ok []
  | x :: r =>
    n ← ok_or (number_from_f64 (f64_of_f32 x))
          (Codec "binary vector values must be finite float32");
    l ← restore_numbers r;
    Ok (VNumber n :: l)
  end.

Definition restore_vector_search_vector (metadata : FrameDict)
    (vectors : list (list spec_float)) : NpsResult FrameDict :=
  match map_get "vector_search" metadata with
  | Some (VObject vector_search) =>
    match map_get "vector" vector_search with
    | None => Ok metadata
    | Some (VObject marker) =>
      index ← ok_or (map_get BINARY_VECTOR_MARKER marker ≫= as_u64)
                (Codec "binary vector marker missing vector index");
      if Z.of_nat (length vectors) <=? index
      then Err (Codec ("binary vector marker references vector " +:+ fmt_Z index
                  +:+ ", but only " +:+ fmt_Z (Z.of_nat (length vectors))
                  +:+ " vectors are present"))
      else
        let vector := nth (Z.to_nat index) vectors [] in
        if negb (bool_decide (map_get "dtype" marker ≫= as_str = Some "float32"))
        then Err (Codec "binary vector v1 only supports dtype=float32")
        else
          dim ← ok_or (map_get "dim" marker ≫= as_u64)
            (Codec "binary vector marker dimension does not match vector segment");
          if negb (dim =? Z.of_nat (length vector))
          then Err (Codec "binary vector marker dimension does not match vector segment")
          else
            l ← restore_numbers vector;
            Ok (map_insert "vector_search"
                  (VObject (map_insert "vector" (VArray l) vector_search)) metadata)
    | Some _ => Err (Codec "binary vector marker must be an object")
    end
  | _ => Ok metadata
  end.

Definition decode_binary_vector (payload : list Z) : NpsResult FrameDict :=
  if (length payload <? BINARY_VECTOR_PREFIX)%nat
  then Err (Codec ("binary vector payload too short: "
              +:+ fmt_Z (Z.of_nat (length payload)) +:+ " bytes"))
  else if negb (bool_decide (slice 0 4 payload = BINARY_VECTOR_MAGIC))
  then Err (Codec "binary vector payload magic mismatch")
  else if negb (nth 4 payload 0 =? BINARY_VECTOR_VERSION)
  then Err (Codec ("unsupported binary vector version: " +:+ fmt_Z (nth 4 payload 0)))
  else if negb (nth 5 payload 0 =? 0) || negb (be_val (slice 12 16 payload) =? 0)
  then Err (Codec "binary vector reserved fields must be zero")
  else
    let vector_count := be_val (slice 6 8 payload) in
    let metadata_len := be_val (slice 8 12 payload) in
    if Z.of_nat (length payload - BINARY_VECTOR_PREFIX) <? metadata_len
    then Err (Codec "binary vector metadata length exceeds payload length")
    else
      let offset := BINARY_VECTOR_PREFIX in
      metadata ← map_err Codec
        (rmp_from_slice (slice offset (offset + Z.to_nat metadata_len) payload));
      match metadata with
      | VObject metadata =>
        '(vectors, rest) ←
          read_segments (Z.to_nat vector_count) (drop (offset + Z.to_nat metadata_len) payload);
        if negb (length rest =? 0)%nat
        then Err (Codec "binary vector payload has trailing bytes")
        else restore_vector_search_vector metadata vectors
      | _ => Err (Codec "binary vector metadata root must be a map")
      end.

(** ** [NpsFrameCodec] *)

Definition DEFAULT_MAX_PAYLOAD : Z := 10 * 1024 * 1024.

Record NpsFrameCodec : Type := mkCodec {
  registry : FrameRegistry;
  max_payload : Z
}.

Definition codec_new (registry : FrameRegistry) : NpsFrameCodec :=
  mkCodec registry DEFAULT_MAX_PAYLOAD.

Definition with_max_payload (c : NpsFrameCodec) (max_payload : Z) : NpsFrameCodec :=
  mkCodec (registry c) max_payload.

(** The dispatch on the tier, shared by [encode] and the transport. *)
Definition encode_tier (tier : EncodingTier) (dict : FrameDict) : NpsResult (list Z) :=
  match tier with
  | TJson => encode_json dict
  | TMsgPack => encode_msgpack dict
  | TBinaryVector => encode_binary_vector dict
  | TReserved => Err (Codec "reserved encoding tier 0x03")
  end.

Definition encode (c : NpsFrameCodec) (ft : FrameType) (dict : FrameDict)
    (tier : EncodingTier) (is_final : bool) : NpsResult (list Z) :=
  payload ← encode_tier tier dict;
  if max_payload c <? Z.of_nat (length payload)
  then Err (Codec ("payload " +:+ fmt_Z (Z.of_nat (length payload))
              +:+ " exceeds max " +:+ fmt_Z (max_payload c)))
  else
    let header := header_new ft tier is_final (Z.of_nat (length payload)) in
    Ok (to_bytes header ++ payload).

Definition decode_tier (tier : EncodingTier) (payload : list Z) : NpsResult FrameDict :=
  match tier with
  | TJson => decode_json payload
  | TMsgPack => decode_msgpack payload
  | TBinaryVector => decode_binary_vector payload
  | TReserved => Err (Codec "reserved encoding tier 0x03")
  end.

Definition decode (c : NpsFrameCodec) (wire : list Z) : NpsResult (FrameType * FrameDict) :=
  header ← parse wire;
  let hdr_len := header_size header in
  let plen := Z.to_nat (payload_length header) in
  if (length wire <? hdr_len + plen)%nat
  then Err (Codec "wire too short for declared payload")
  else
    let payload := slice hdr_len (hdr_len + plen) wire in
    dict ← decode_tier (encoding_tier header) payload;
    if negb (is_registered (registry c) (frame_type header))
    then Err (Frame ("unregistered frame type 0x" +:+ fmt_02X (as_u8 (frame_type header))))
    else Ok (frame_type header, dict).

Definition peek_header (wire : list Z) : NpsResult FrameHeader := parse wire.

(** ** Lemmas *)

Lemma vector_segment_length v : length (vector_segment v) = (4 + 4 * length v)%nat.
Proof.
  unfold vector_segment. autorewrite with nps.
  assert (length (concat (map f32_to_le_bytes v)) = 4 * length v)%nat as ->; [|done].
  induction v as [|x v IH]; cbn [map concat length]; [done |].
  rewrite length_app, IH. unfold f32_to_le_bytes. rewrite le_bytes_length. lia.
Qed.

Lemma read_f32s_spec v tl :
  Forall (fun f => f32_canonical f = true) v ->
  read_f32s (length v) (concat (map f32_to_le_bytes v) ++ tl) = (v, tl).
Proof.
  intros H; induction H as [|x v Hx Hv IH]; [done |].
  cbn [map concat length read_f32s]. rewrite <-app_assoc.
  assert (Hl : length (f32_to_le_bytes x) = 4%nat) by apply le_bytes_length.
  rewrite take_app_length', drop_app_length', IH by done.
  by rewrite f32_le_bytes_roundtrip.
Qed.

(** Segments are read back one by one, leaving what follows them. *)
Lemma read_segments_spec vs tl :
  Forall (fun v => Forall (fun f => f32_canonical f = true) v
                   /\ Z.of_nat (length v) < 4294967296) vs ->
  read_segments (length vs) (concat (map vector_segment vs) ++ tl) = Ok (vs, tl).
Proof.
  intros H; induction H as [|v vs [Hv Hlen] Hvs IH]; [done |].
  cbn [map concat length read_segments].
  set (fl := concat (map f32_to_le_bytes v)).
  set (dimb := be_bytes 4 (wrap_u32 (Z.of_nat (length v)))).
  change (vector_segment v) with (dimb ++ fl). rewrite <-!app_assoc. assert (Hd : length dimb = 4%nat) by apply be_bytes_length.
  assert (Hdim : be_val dimb = Z.of_nat (length v)).
  { unfold dimb. rewrite be_val_wrap_u32. unfold wrap_u32. rewrite Z.mod_small; lia. }
  rewrite length_app, Hd. split_if.
  rewrite take_app_length', drop_app_length', Hdim by done.
  assert (Hfl : length fl = (4 * length v)%nat).
  { pose proof (vector_segment_length v) as Hs. unfold vector_segment in Hs.
    autorewrite with nps in Hs. fold fl in Hs. lia. }
  rewrite length_app, Hfl. split_if.
  rewrite Nat2Z.id. unfold fl. rewrite read_f32s_spec by done. rewrite IH. done.
Qed.

Lemma digits2_shift k m : digits2_pos (Pos.iter xO m k) = (digits2_pos m + k)%positive.
Proof.
  revert m. induction k using Pos.peano_ind; intros m.
  - rewrite Pos.add_1_r. reflexivity.
  - rewrite Pos.iter_succ, Pos.add_succ_r, <-IHk. reflexivity.
Qed.

Lemma digits2_bound m : Zpos m < 2 ^ Zpos (digits2_pos m) /\ 2 ^ (Zpos (digits2_pos m) - 1) <= Zpos m.
Proof.
  induction m as [m [IH1 IH2]|m [IH1 IH2]|]; cbn [digits2_pos]; [| | cbn; lia];
    rewrite !Pos2Z.inj_succ, Z.pow_succ_r by lia; split; try lia;
    (replace (Z.succ (Zpos (digits2_pos m)) - 1) with (Z.succ (Zpos (digits2_pos m) - 1)) by lia);
    rewrite Z.pow_succ_r by lia; lia.
Qed.

(** Rounding an exact number whose exponent already fits does nothing. *)
Lemma binary_round_aux_exact s mz ez :
  fexp 53 1024 (Zpos (digits2_pos mz) + ez) = ez -> ez <= 971 ->
  binary_round_aux 53 1024 s (Zpos mz) ez loc_Exact = S754_finite s mz ez.
Proof.
  intros Hf He.
  assert (Hshr : shr_fexp 53 1024 (Zpos mz) ez loc_Exact
                 = ({| shr_m := Zpos mz; shr_r := false; shr_s := false |}, ez)).
  { unfold shr_fexp. cbn [Zdigits2]. rewrite Hf, Z.sub_diag. done. }
  unfold binary_round_aux. rewrite Hshr. cbn [shr_m loc_of_shr_record round_nearest_even].
  rewrite Hshr. cbn [shr_m]. destruct (ez <=? 1024 - 53) eqn:E; [done | lia].
Qed.

(** Every canonical [f32] is exactly an [f64], and a finite one. *)
Lemma f64_of_f32_finite f : f32_canonical f = true -> f_is_finite (f64_of_f32 f) = true.
Proof.
  destruct f as [s| | |s m e]; cbn; try done. intros H.
  pose proof (digits2_bound m) as [Hlt Hge].
  assert (Hd : Zpos (digits2_pos m) <= 24).
  { destruct (Z_le_gt_dec (Zpos (digits2_pos m)) 24); [done |].
    assert (2 ^ 24 <= 2 ^ (Zpos (digits2_pos m) - 1)) by (apply Z.pow_le_mono_r; lia).
    apply orb_true_iff in H as [H|H]; bool_hyps; lia. }
  assert (He : -149 <= e <= 104) by (apply orb_true_iff in H as [H|H]; bool_hyps; lia).
  unfold f64_of_f32, f_convert, binary_round, prec64, emax64.
  assert (Hf : fexp 53 1024 (Zpos (digits2_pos m) + e) = Zpos (digits2_pos m) + e - 53).
  { unfold fexp, emin. lia. }
  rewrite Hf. unfold shl_align.
  destruct (Zpos (digits2_pos m) + e - 53 - e) as [|p|p] eqn:E; [lia | lia |].
  rewrite binary_round_aux_exact; [done | | lia].
  rewrite digits2_shift. unfold fexp, emin. lia.
Qed.

Lemma restore_numbers_spec fs :
  Forall (fun f => f32_canonical f = true) fs ->
  restore_numbers fs = Ok (map (fun f => VNumber (Float (f64_of_f32 f))) fs).
Proof.
  intros H; induction H as [|f fs Hf Hfs IH]; [done |].
  cbn [restore_numbers map]. unfold number_from_f64. rewrite f64_of_f32_finite by done.
  rewrite IH. done.
Qed.

Lemma slice_prefix {A} n (l k : list A) : length l = n -> slice 0 n (l ++ k) = l.
Proof. intros <-. unfold slice. rewrite drop_0, Nat.sub_0_r. apply take_app_length. Qed.

Lemma slice_middle {A} a b (l m k : list A) :
  length l = a -> (a + length m = b)%nat -> slice a b (l ++ m ++ k) = m.
Proof.
  intros <- <-. unfold slice. rewrite drop_app_length.
  replace (length l + length m - length l)%nat with (length m) by lia. apply take_app_length.
Qed.

(** The payload [encode_binary_vector] lays out for some metadata bytes and
    vectors. *)
Definition bv_payload (metadata_bytes : list Z) (vectors : list (list spec_float)) : list Z :=
  BINARY_VECTOR_MAGIC ++ [BINARY_VECTOR_VERSION; 0]
  ++ be_bytes 2 (wrap_u16 (Z.of_nat (length vectors)))
  ++ be_bytes 4 (wrap_u32 (Z.of_nat (length metadata_bytes)))
  ++ be_bytes 4 0 ++ metadata_bytes ++ concat (map vector_segment vectors).

Lemma bv_payload_header mb vs :
  Z.of_nat (length vs) < 65536 -> Z.of_nat (length mb) < 4294967296 ->
  exists hd, bv_payload mb vs = hd ++ mb ++ concat (map vector_segment vs) /\
    length hd = 16%nat /\
    slice 0 4 (bv_payload mb vs) = BINARY_VECTOR_MAGIC /\
    nth 4 (bv_payload mb vs) 0 = BINARY_VECTOR_VERSION /\
    nth 5 (bv_payload mb vs) 0 = 0 /\
    be_val (slice 12 16 (bv_payload mb vs)) = 0 /\
    be_val (slice 6 8 (bv_payload mb vs)) = Z.of_nat (length vs) /\
    be_val (slice 8 12 (bv_payload mb vs)) = Z.of_nat (length mb).
Proof.
  intros Hv Hm.
  pose proof (be_val_wrap_u16 (Z.of_nat (length vs))) as H2.
  pose proof (be_val_wrap_u32 (Z.of_nat (length mb))) as H4.
  unfold bv_payload.
  destruct (be_bytes_2 (wrap_u16 (Z.of_nat (length vs)))) as (a & b & Hab).
  destruct (be_bytes_4 (wrap_u32 (Z.of_nat (length mb)))) as (c & d & e & f & Hcd).
  rewrite Hab in H2 |- *. rewrite Hcd in H4 |- *.
  change (be_bytes 4 0) with [0; 0; 0; 0].
  unfold wrap_u16 in H2. unfold wrap_u32 in H4. rewrite Z.mod_small in H2, H4 by lia.
  exists (BINARY_VECTOR_MAGIC ++ [BINARY_VECTOR_VERSION; 0] ++ [a; b] ++ [c; d; e; f] ++ [0; 0; 0; 0]).
  repeat split; try done.
Qed.

(** Reading a laid-out payload back reaches [restore_vector_search_vector]
    with the same metadata and vectors. *)
Lemma decode_bv_payload mb md vs :
  rmp_from_slice mb = Ok (VObject md) ->
  Z.of_nat (length vs) < 65536 -> Z.of_nat (length mb) < 4294967296 ->
  Forall (fun v => Forall (fun f => f32_canonical f = true) v
                   /\ Z.of_nat (length v) < 4294967296) vs ->
  decode_binary_vector (bv_payload mb vs) = restore_vector_search_vector md vs.
Proof.
  intros Hmb Hv Hm Hall.
  destruct (bv_payload_header mb vs Hv Hm) as (hd & Hp & Hl & H0 & H4 & H5 & H12 & H6 & H8).
  unfold decode_binary_vector. rewrite H0, H4, H5, H12, H6, H8, !Nat2Z.id.
  rewrite bool_decide_eq_true_2 by done. cbn [negb orb Z.eqb].
  change (BINARY_VECTOR_VERSION =? BINARY_VECTOR_VERSION) with true. cbn [negb].
  assert (Hlen : length (bv_payload mb vs)
    = (16 + length mb + length (concat (map vector_segment vs)))%nat)
    by (rewrite Hp, !length_app, Hl; lia).
  unfold BINARY_VECTOR_PREFIX. rewrite Hlen. split_if. split_if.
  rewrite Hp. rewrite slice_middle by lia. rewrite Hmb. cbn [map_err mbind result_bind].
  rewrite app_assoc, drop_app_length' by (rewrite length_app; lia).
  rewrite <-(app_nil_r (concat _)), read_segments_spec by done. done.
Qed.

(** The dictionary with the numbers of [vector_search.vector] replaced. *)
Definition set_vector (dict vs : FrameDict) (l : list Value) : FrameDict :=
  map_insert "vector_search" (VObject (map_insert "vector" (VArray l) vs)) dict.

Lemma extract_vectors dict vs vals fs :
  map_get "vector_search" dict = Some (VObject vs) ->
  map_get "vector" vs = Some (VArray vals) -> collect_f32 vals = Some fs ->
  extract_vector_search_vector dict [] =
  (map_insert "vector_search"
     (VObject (map_insert "vector" (VObject (vector_marker 0 (length fs))) vs)) dict, [fs]).
Proof. intros Hd Hv Hc. unfold extract_vector_search_vector. by rewrite Hd, Hv, Hc. Qed.

Lemma vector_marker_lookups i n :
  (map_get BINARY_VECTOR_MARKER (vector_marker i n) ≫= as_u64 = Some (Z.of_nat i)) /\
  (map_get "dtype" (vector_marker i n) ≫= as_str = Some "float32") /\
  (map_get "dim" (vector_marker i n) ≫= as_u64 = Some (Z.of_nat n)).
Proof. done. Qed.

Lemma restore_marked dict vs fs :
  Forall (fun f => f32_canonical f = true) fs ->
  restore_vector_search_vector
    (map_insert "vector_search"
       (VObject (map_insert "vector" (VObject (vector_marker 0 (length fs))) vs)) dict) [fs]
  = Ok (set_vector dict vs (map (fun f => VNumber (Float (f64_of_f32 f))) fs)).
Proof.
  intros Hc. destruct (vector_marker_lookups 0 (length fs)) as (H1 & H2 & H3).
  unfold restore_vector_search_vector.
  rewrite map_get_insert, String.eqb_refl, map_get_insert, String.eqb_refl, H1, H2, H3.
  change (ok_or (Some ?a) ?e) with (@Ok NpsError _ a).
  cbn [mbind result_bind ok_or length Z.of_nat Z.leb Z.compare Z.to_nat nth].
  rewrite bool_decide_eq_true_2 by done. cbn [negb]. rewrite Z.eqb_refl. cbn [negb].
  rewrite restore_numbers_spec by done. cbn [mbind result_bind].
  unfold set_vector. by rewrite !map_insert_insert.
Qed.

(** The marker is no deeper than the array it replaces. *)
Lemma shallow_marked dict vs vals n :
  map_get "vector_search" dict = Some (VObject vs) -> map_get "vector" vs = Some (VArray vals) ->
  shallow MSGPACK_NESTING (VObject dict) = true ->
  shallow MSGPACK_NESTING (VObject (map_insert "vector_search"
    (VObject (map_insert "vector" (VObject (vector_marker 0 n)) vs)) dict)) = true.
Proof.
  intros Hd Hv Hs. apply shallow_insert; [|done]. apply shallow_insert; [done |].
  by apply (shallow_lookup _ _ _ _ Hd).
Qed.

(** ** Properties *)

(** For a dictionary nested at most 1023 deep whose [vector_search.vector] is an array of
    numbers, decoding what [encode_binary_vector] produced gives the
    dictionary back with each number rounded to [f32]; the vector itself
    travels in the binary segment and every other entry through the metadata. *)
Theorem binary_vector_roundtrip {SL : SerdeLaws} dict vs vals fs payload :
  map_get "vector_search" dict = Some (VObject vs) ->
  map_get "vector" vs = Some (VArray vals) ->
  shallow MSGPACK_NESTING (VObject dict) = true ->
  collect_f32 vals = Some fs ->
  forallb f32_canonical fs = true ->
  encode_binary_vector dict = Ok payload ->
  Z.of_nat (length payload) < 4294967296 ->
  decode_binary_vector payload
  = Ok (set_vector dict vs (map (fun f => VNumber (Float (f64_of_f32 f))) fs)).
Proof.
  intros Hd Hv Hsh Hc Hcan He Hlen.
  assert (Hcan' : Forall (fun f => f32_canonical f = true) fs)
    by (by rewrite List.Forall_forall; apply forallb_forall).
  unfold encode_binary_vector in He. rewrite (extract_vectors _ _ _ _ Hd Hv Hc) in He.
  cbn [length Z.of_nat Z.ltb] in He.
  destruct (rmp_to_vec_named _) as [mb|] eqn:Hmb; [|done]. cbn in He.
  injection He as <-. fold (bv_payload mb [fs]) in Hlen |- *.
  change (_ :: _ :: _ :: _ :: _) with (bv_payload mb [fs]) in Hlen |- *.
  assert (Hl : Z.of_nat (length mb) + Z.of_nat (length fs) < 4294967296).
  { revert Hlen. unfold bv_payload. cbn [map concat].
    rewrite !length_app, vector_segment_length. lia. }
  apply rmp_roundtrip in Hmb; [|by eapply shallow_marked].
  rewrite (decode_bv_payload _ _ _ Hmb); [by apply restore_marked | cbn; lia | lia |].
  constructor; [split; [done | lia] | constructor].
Qed.

(** When [vector_search.vector] is present but is neither an object nor
    an array of finite numbers, the encoder emits a payload that its own
    decoder refuses. *)
Theorem binary_vector_rejects_other_vectors {SL : SerdeLaws} dict vs v payload :
  map_get "vector_search" dict = Some (VObject vs) ->
  map_get "vector" vs = Some v -> as_object v = None ->
  (forall vals, as_array v = Some vals -> collect_f32 vals = None) ->
  shallow MSGPACK_NESTING (VObject dict) = true ->
  encode_binary_vector dict = Ok payload -> Z.of_nat (length payload) < 4294967296 ->
  decode_binary_vector payload = Err (Codec "binary vector marker must be an object").
Proof.
  intros Hd Hv Hobj Harr Hsh He Hlen.
  assert (Hex : extract_vector_search_vector dict [] = (dict, [])).
  { unfold extract_vector_search_vector. rewrite Hd, Hv.
    destruct v; try done. by rewrite (Harr l). }
  unfold encode_binary_vector in He. rewrite Hex in He. cbn in He.
  destruct (rmp_to_vec_named _) as [mb|] eqn:Hmb; [|done]. injection He as <-.
  change (_ :: _ :: _ :: _ :: _) with (bv_payload mb []) in Hlen |- *.
  assert (Hl : Z.of_nat (length mb) < 4294967296).
  { revert Hlen. unfold bv_payload. rewrite !length_app. lia. }
  apply rmp_roundtrip in Hmb; [|done]. rewrite (decode_bv_payload _ _ _ Hmb) by (done || constructor).
  unfold restore_vector_search_vector. rewrite Hd, Hv. by destruct v.
Qed.

(** Splitting a wire frame: the header and exactly the declared payload. *)
Lemma decode_split c ft tier fin payload :
  Z.of_nat (length payload) < 4294967296 ->
  decode c (to_bytes (header_new ft tier fin (Z.of_nat (length payload))) ++ payload)
  = (dict ← decode_tier tier payload;
     if negb (is_registered (registry c) ft)
     then Err (Frame ("unregistered frame type 0x" +:+ fmt_02X (as_u8 ft)))
     else Ok (ft, dict)).
Proof.
  intros Hlen. unfold decode. set (h := header_new _ _ _ _).
  assert (Hp : parse (to_bytes h ++ payload) = Ok h).
  { unfold h. rewrite parse_to_bytes_new by lia. unfold wrap_u32. by rewrite Z.mod_small by lia. }
  rewrite Hp. cbn [mbind result_bind].
  rewrite length_app, to_bytes_length.
  assert (Hpl : Z.to_nat (payload_length h) = length payload) by (cbn; lia).
  rewrite Hpl. split_if.
  rewrite <-(to_bytes_length h), slice_app_r.
  assert (Ht : encoding_tier h = tier) by apply header_new_tier. by rewrite Ht.
Qed.

Lemma tier_roundtrip {SL : SerdeLaws} tier dict payload :
  readable tier dict = true ->
  encode_tier tier dict = Ok payload -> decode_tier tier payload = Ok dict.
Proof.
  destruct tier; try done; cbn [readable encode_tier decode_tier]; intros Hr Hp.
  - apply andb_true_iff in Hr as [Hff Hs]. unfold encode_json in Hp. destruct (json_to_vec dict) eqn:E; [|done]. injection Hp as ->.
    unfold decode_json. by rewrite (json_roundtrip _ _ Hff Hs E).
  - unfold encode_msgpack in Hp. destruct (rmp_to_vec_named _) eqn:E; [|done]. injection Hp as ->.
    unfold decode_msgpack. by rewrite (rmp_roundtrip _ _ Hr E).
Qed.

(** What nests deeper than [serde_json] reads is encoded all the same, and
    the codec does not decode its own frame. *)
Theorem deep_json_not_decoded {SL : SerdeLaws} c ft dict fin wire :
  shallow JSON_NESTING (VObject dict) = false ->
  max_payload c < 4294967296 -> encode c ft dict TJson fin = Ok wire ->
  exists e, decode c wire = Err (Codec e).
Proof.
  intros Hd Hmax He. unfold encode in He.
  destruct (encode_tier TJson dict) as [payload|] eqn:Hp; [|done]. cbn [mbind result_bind] in He.
  destruct (max_payload c <? _) eqn:Hlen; [done |]. cmp_hyps. injection He as <-.
  rewrite decode_split by lia. cbn in Hp |- *. unfold encode_json in Hp.
  destruct (json_to_vec dict) eqn:E; [|done]. injection Hp as ->.
  destruct (json_too_deep _ _ Hd E) as (e & He). unfold decode_json. rewrite He. by exists e.
Qed.

(** C36: [NpsFrameCodec::decode] inverts [NpsFrameCodec::encode] on the JSON
    and MessagePack tiers for every registered frame type, when the codec's
    limit is below 2^32 and the payload is one its reader reads back: on the
    JSON tier without floating-point numbers and nested at most 127 deep, on
    the MessagePack tier nested at most 1023 deep. *)
Theorem codec_roundtrip {SL : SerdeLaws} c ft dict tier fin wire :
  readable tier dict = true ->
  is_registered (registry c) ft = true ->
  max_payload c < 4294967296 ->
  encode c ft dict tier fin = Ok wire ->
  decode c wire = Ok (ft, dict).
Proof.
  intros Ht Hreg Hmax He. unfold encode in He.
  destruct (encode_tier tier dict) as [payload|] eqn:Hp; [|done]. cbn in He.
  destruct (max_payload c <? _) eqn:Hlen; [done |]. cmp_hyps. injection He as <-.
  rewrite decode_split by lia. rewrite Hreg. cbn [negb].
  by rewrite (tier_roundtrip tier dict payload Ht Hp).
Qed.

(** A codec never accepts a truncated frame, an unregistered frame type
    or the reserved tier: a decoded frame is registered, its payload lies
    within the wire and its tier is one of the three encodings. *)
Theorem decode_sound c wire ft dict :
  decode c wire = Ok (ft, dict) ->
  exists h, parse wire = Ok h /\ frame_type h = ft /\
    is_registered (registry c) ft = true /\ encoding_tier h <> TReserved /\
    (header_size h + Z.to_nat (payload_length h) <= length wire)%nat /\
    decode_tier (encoding_tier h)
      (slice (header_size h) (header_size h + Z.to_nat (payload_length h)) wire) = Ok dict.
Proof.
  unfold decode. intros H. apply result_bind_Ok in H as (h & Hh & H). exists h.
  destruct (_ <? _)%nat eqn:Hlen; [done |]. cmp_hyps.
  apply result_bind_Ok in H as (d & Hd & H).
  destruct (is_registered _ _) eqn:Hr; [|done]. cbn in H. injection H as <- <-.
  repeat split; try done. intros E. by rewrite E in Hd.
Qed.

End codec.

(** ** Witnesses *)

Definition sample_vals : list Value :=
  [VNumber (PosInt 1); VNumber (Float (f64_of_decimal true 25 1))].
Definition sample_search : FrameDict :=
  [("k", VNumber (PosInt 3)); ("vector", VArray sample_vals)].
Definition sample_query : FrameDict := [("vector_search", VObject sample_search)].
Definition sample_tbl : list Value :=
  [VObject (fst (extract_vector_search_vector sample_query [])); VObject sample_query;
   VObject [("vector_search", VObject [("vector", VString "oops")])]].

Lemma binary_vector_roundtrip_witness :
  exists payload,
    @encode_binary_vector (table_codec sample_tbl) sample_query = Ok payload /\
    @decode_binary_vector (table_codec sample_tbl) payload = Ok
      [("vector_search", VObject [("k", VNumber (PosInt 3));
         ("vector", VArray [VNumber (Float (f64_of_Z 1)); VNumber (Float (f64_of_decimal true 25 1))])])].
Proof.
  eexists. split; [vm_compute; reflexivity |].
  etransitivity.
  - apply (@binary_vector_roundtrip (table_codec sample_tbl) (table_laws sample_tbl) sample_query
      sample_search sample_vals [f32_of_f64 (f64_of_Z 1); f32_of_f64 (f64_of_decimal true 25 1)]);
      vm_compute; reflexivity.
  - vm_compute. reflexivity.
Defined.

Lemma binary_vector_rejects_witness :
  exists payload,
    @encode_binary_vector (table_codec sample_tbl)
      [("vector_search", VObject [("vector", VString "oops")])] = Ok payload /\
    @decode_binary_vector (table_codec sample_tbl) payload
    = Err (Codec "binary vector marker must be an object").
Proof.
  eexists. split; [vm_compute; reflexivity |].
  apply (@binary_vector_rejects_other_vectors (table_codec sample_tbl) (table_laws sample_tbl)
    [("vector_search", VObject [("vector", VString "oops")])] [("vector", VString "oops")]
    (VString "oops")); done.
Defined.

Lemma codec_roundtrip_witness :
  exists wire,
    @encode (table_codec sample_tbl) (codec_new create_full) Query sample_query TMsgPack true = Ok wire /\
    @decode (table_codec sample_tbl) (codec_new create_full) wire = Ok (Query, sample_query).
Proof.
  eexists. split; [vm_compute; reflexivity |].
  apply (@codec_roundtrip (table_codec sample_tbl) (table_laws sample_tbl)
           (codec_new create_full) Query sample_query TMsgPack true);
    [vm_compute; reflexivity | vm_compute; reflexivity | vm_compute; reflexivity | vm_compute; reflexivity].
Defined.

Lemma decode_sound_witness :
  exists h, parse [0x10; 5; 0; 1; 1] = Ok h /\ frame_type h = Query /\
    is_registered create_full Query = true /\ encoding_tier h <> TReserved /\
    (header_size h + Z.to_nat (payload_length h) <= 5)%nat /\
    @decode_tier (table_codec sample_tbl) (encoding_tier h)
      (slice (header_size h) (header_size h + Z.to_nat (payload_length h)) [0x10; 5; 0; 1; 1])
    = Ok sample_query.
Proof.
  apply (@decode_sound (table_codec sample_tbl) (codec_new create_full) [0x10; 5; 0; 1; 1]
           Query sample_query). vm_compute. reflexivity.
Defined.
