(* ===== verification/CoreCache.v ===== *)
(** * CoreCache: the anchor frame cache

    Models nps-core/src/cache.rs.  The clock is injectable in the source;
    here each operation takes the instant its one clock reading returns.
    SHA-256, hex and the JSON printer are third-party and are parameters. *)

From S2P Require Import Prelude RustStr Floats Json CoreFrames.
Local Open Scope Z_scope.

(** Third-party digests and printers used to name an anchor. *)
Class Digests : Type := {
  sha256 : list Z -> list Z;
  hex_encode : list Z -> string;
  json_to_string : Value -> string
}.

Record CacheEntry : Type := mkCacheEntry { schema : Map; expires : Z }.

(** [AnchorFrameCache::store]. *)
Abbreviation AnchorStore := (gmap string CacheEntry).

Section cache.
Context {D : Digests}.

Definition key_le (a b : string * Value) : Prop := String.leb (fst a) (fst b) = true.
#[local] Instance key_le_dec : RelDecision key_le.
Proof. intros a b. unfold key_le. tc_solve. Defined.

(** [AnchorFrameCache::compute_anchor_id]. *)
Definition compute_anchor_id (schema : Map) : string :=
  let sorted := merge_sort key_le schema in
  let canonical := json_to_string (VObject (map_collect sorted)) in
  "sha256:" +:+ hex_encode (sha256 (bytes_of canonical)).

(** [AnchorFrameCache::set]; [None] is the panic of the deadline overflow. *)
Definition cache_set (now : Z) (store : AnchorStore) (sch : Map) (ttl_secs : Z)
    : option (NpsResult string * AnchorStore) :=
  let anchor_id := compute_anchor_id sch in
  exp ← instant_add_secs now ttl_secs;
  let poisoned :=
    match store !! anchor_id with
    | Some existing =>
      negb (value_eqb (VObject (schema existing)) (VObject sch)) && (now <? expires existing)
    | None => false
    end in
  if poisoned
  then Some (Err (AnchorPoison ("anchor " +:+ anchor_id
              +:+ " already cached with different schema")), store)
  else Some (Ok anchor_id, <[anchor_id := mkCacheEntry sch exp]> store).

(** [AnchorFrameCache::get]. *)
Definition cache_get (now : Z) (store : AnchorStore) (anchor_id : string) : option Map :=
  match store !! anchor_id with
  | Some e => if now <? expires e then Some (schema e) else None
  | None => None
  end.

Definition cache_get_required (now : Z) (store : AnchorStore) (anchor_id : string)
    : NpsResult Map := ok_or (cache_get now store anchor_id) (AnchorNotFound anchor_id).

Definition cache_invalidate (store : AnchorStore) (anchor_id : string) : AnchorStore :=
  delete anchor_id store.

Definition cache_evict_expired (now : Z) (store : AnchorStore) : AnchorStore :=
  filter (fun kv => now < expires (snd kv)) store.

Definition cache_len (now : Z) (store : AnchorStore) : nat :=
  size (filter (fun kv => now < expires (snd kv)) store).

Definition cache_is_empty (now : Z) (store : AnchorStore) : bool :=
  (cache_len now store =? 0)%nat.

(** One operation of the cache at some instant. *)
Inductive cache_step : AnchorStore -> AnchorStore -> Prop :=
| step_set now store sch ttl r store' :
    cache_set now store sch ttl = Some (r, store') -> cache_step store store'
| step_invalidate store id : cache_step store (cache_invalidate store id)
| step_evict now store : cache_step store (cache_evict_expired now store).

(** Every entry is stored under the identifier of its own schema. *)
Definition content_addressed (store : AnchorStore) : Prop :=
  forall id e, store !! id = Some e -> compute_anchor_id (schema e) = id.

Definition cache_reachable : AnchorStore -> Prop := rtc cache_step ∅.

(** ** Lemmas *)

Lemma cache_set_cases now store sch ttl r store' :
  cache_set now store sch ttl = Some (r, store') ->
  let id := compute_anchor_id sch in
  (r = Ok id /\ store' = <[id := mkCacheEntry sch (now + ttl * nanos_per_sec)]> store) \/
  (r = Err (AnchorPoison ("anchor " +:+ id +:+ " already cached with different schema")) /\
   store' = store /\
   exists e, store !! id = Some e /\ now < expires e /\
     value_eqb (VObject (schema e)) (VObject sch) = false).
Proof.
  unfold cache_set. intros H; cbn zeta.
  destruct (instant_add_secs now ttl) as [t|] eqn:Ht; [|done]. cbn in H.
  apply instant_add_secs_Some in Ht as ->.
  destruct (store !! compute_anchor_id sch) as [e|] eqn:E.
  - destruct (negb _ && _) eqn:Hp; simplify_eq; [|by left].
    apply andb_true_iff in Hp as [Hne Hnow]. apply negb_true_iff in Hne. cmp_hyps.
    right. eauto 10.
  - simplify_eq. by left.
Qed.

Lemma cache_step_content_addressed store store' :
  cache_step store store' -> content_addressed store -> content_addressed store'.
Proof.
  intros Hstep Hinv id e. destruct Hstep as [now store sch ttl r store' Hset|store id'|now store].
  - apply cache_set_cases in Hset as [[_ ->]|(_ & -> & _)]; [|apply Hinv].
    rewrite lookup_insert. case_decide; [intros; simplify_eq/=; done | apply Hinv].
  - unfold cache_invalidate. rewrite lookup_delete. case_decide; [done | apply Hinv].
  - unfold cache_evict_expired. rewrite map_lookup_filter_Some. intros [? _]. by apply Hinv.
Qed.

(** ** Properties *)

(** In every reachable cache, whatever the order of insertions,
    invalidations and evictions, an anchor id resolves only to a schema that
    hashes to it. *)
Theorem cache_reachable_content_addressed store now id sch :
  cache_reachable store -> cache_get now store id = Some sch -> compute_anchor_id sch = id.
Proof.
  intros Hr Hg.
  assert (Hinv : content_addressed store).
  { assert (H0 : content_addressed ∅) by (intros ? ? H; by rewrite lookup_empty in H).
    revert H0. unfold cache_reachable in Hr. induction Hr; [done |].
    eauto using cache_step_content_addressed. }
  unfold cache_get in Hg. destruct (store !! id) as [e|] eqn:E; [|done].
  destruct (now <? expires e); simplify_eq. by apply Hinv.
Qed.

(** [set] followed by [get]: the schema is served under the returned id
    exactly until the deadline, and every other id is untouched; a poisoning
    attempt changes nothing. *)
Theorem cache_set_get now store sch ttl r store' now' id :
  cache_set now store sch ttl = Some (r, store') ->
  (r = Ok (compute_anchor_id sch) ->
     cache_get now' store' id =
       if String.eqb id (compute_anchor_id sch)
       then (if now' <? now + ttl * nanos_per_sec then Some sch else None)
       else cache_get now' store id) /\
  (is_ok r = false -> store' = store /\
     exists old, cache_get now store (compute_anchor_id sch) = Some old /\
       value_eqb (VObject old) (VObject sch) = false).
Proof.
  intros H. apply cache_set_cases in H as [[-> ->]|(-> & -> & e & He & Hn & Hne)]; split; try done.
  - intros _. unfold cache_get. rewrite lookup_insert.
    destruct (String.eqb_spec id (compute_anchor_id sch)) as [->|].
    + by rewrite decide_True.
    + by rewrite decide_False by congruence.
  - intros _. split; [done |]. exists (schema e). unfold cache_get. rewrite He.
    by destruct (Z.ltb_spec now (expires e)); [|lia].
Qed.

(** Eviction is invisible: it removes only entries no later [get] would
    return, and leaves the number of live entries unchanged. *)
Theorem cache_evict_invisible now now' store id :
  now <= now' ->
  cache_get now' (cache_evict_expired now store) id = cache_get now' store id /\
  cache_len now (cache_evict_expired now store) = cache_len now store.
Proof.
  intros Hle. split.
  - unfold cache_get, cache_evict_expired.
    destruct (store !! id) as [e|] eqn:E.
    + destruct (decide (now < expires e)) as [Hlt|Hge].
      * assert (filter (fun kv => now < expires (snd kv)) store !! id = Some e) as ->; [|done].
        by apply map_lookup_filter_Some.
      * assert (filter (fun kv => now < expires (snd kv)) store !! id = None) as ->.
        { apply map_lookup_filter_None. right. intros x Hx. by simplify_eq. }
        by destruct (Z.ltb_spec now' (expires e)); [lia|].
    + assert (filter (fun kv => now < expires (snd kv)) store !! id = None) as ->; [|done].
      apply map_lookup_filter_None. by left.
  - unfold cache_len, cache_evict_expired. rewrite map_filter_filter_r; [done | naive_solver].
Qed.

End cache.

(** ** Witnesses *)

Definition toy_digests : Digests := {|
  sha256 := fun b => take 4 b;
  hex_encode := of_bytes;
  json_to_string := fun v => match v with
    | VObject ((k, _) :: _) => k +:+ "...." | _ => "{}...." end
|}.

Definition toy_store : AnchorStore :=
  {[ @compute_anchor_id toy_digests [("a", VNull)] := mkCacheEntry [("a", VNull)] 5000000000 ]}.

Lemma cache_reachable_witness :
  @cache_reachable toy_digests toy_store /\ @compute_anchor_id toy_digests [("a", VNull)] = "sha256:a...".
Proof.
  assert (Hr : @cache_reachable toy_digests toy_store).
  { eapply rtc_l; [|apply rtc_refl].
    eapply (@step_set toy_digests 0 (∅ : AnchorStore) [("a", VNull)] 5). vm_compute. reflexivity. }
  split; [done |].
  apply (@cache_reachable_content_addressed toy_digests toy_store 1 "sha256:a..." [("a", VNull)] Hr).
  vm_compute. reflexivity.
Defined.

Lemma cache_set_get_witness :
  cache_get 4 toy_store "sha256:a..." = Some [("a", VNull)].
Proof.
  assert (Hs : @cache_set toy_digests 0 ∅ [("a", VNull)] 5 = Some (Ok "sha256:a...", toy_store))
    by (vm_compute; reflexivity).
  apply (@cache_set_get toy_digests _ _ _ _ _ _ 4 "sha256:a...") in Hs as [Hs _].
  rewrite (Hs eq_refl). vm_compute. reflexivity.
Defined.

Lemma cache_evict_witness :
  cache_get 9 (cache_evict_expired 7 toy_store) "sha256:a..." =
  cache_get 9 toy_store "sha256:a...".
Proof. apply (cache_evict_invisible 7 9 toy_store "sha256:a..."). lia. Defined.
