(* ===== verification/NcpFrames.v ===== *)
(** * NcpFrames: the NCP frames and their dictionaries

    Models the frame structs of nps-ncp/src/lib.rs with [to_dict] and
    [from_dict]. *)

From S2P Require Import Prelude RustStr Floats Json CoreFrames.
Local Open Scope Z_scope.

Definition get_str (d : FrameDict) (k : string) : NpsResult string :=
  ok_or (map_get k d ≫= as_str) (Frame ("missing field: " +:+ k)).
Definition opt_str (d : FrameDict) (k : string) : option string := map_get k d ≫= as_str.
Definition opt_u64 (d : FrameDict) (k : string) : option Z := map_get k d ≫= as_u64.
Definition opt_bool (d : FrameDict) (k : string) : option bool := map_get k d ≫= as_bool.
Definition opt_strings (d : FrameDict) (k : string) : option (list string) :=
  strings_of <$> (map_get k d ≫= as_array).

(** ** AnchorFrame *)

Record AnchorFrame : Type := mkAnchorFrame {
  af_anchor_id : string;
  af_schema : Map;
  af_namespace : option string;
  af_description : option string;
  af_node_type : option string;
  af_ttl : Z
}.

Definition AnchorFrame_to_dict (f : AnchorFrame) : FrameDict :=
  let m := map_insert "anchor_id" (VString (af_anchor_id f)) [] in
  let m := map_insert "schema" (VObject (af_schema f)) m in
  let m := map_insert "ttl" (vnat (af_ttl f)) m in
  let m := insert_opt "namespace" (VString <$> af_namespace f) m in
  let m := insert_opt "description" (VString <$> af_description f) m in
  insert_opt "node_type" (VString <$> af_node_type f) m.

Definition AnchorFrame_from_dict (d : FrameDict) : NpsResult AnchorFrame :=
  anchor_id ← get_str d "anchor_id";
  let schema := default [] (map_get "schema" d ≫= as_object) in
  let ttl := default 3600 (opt_u64 d "ttl") in
  Ok (mkAnchorFrame anchor_id schema (opt_str d "namespace") (opt_str d "description")
        (opt_str d "node_type") ttl).

(** ** DiffFrame *)

Record DiffFrame : Type := mkDiffFrame {
  df_anchor_id : string;
  df_new_anchor_id : string;
  df_patch : list Value
}.

Definition DiffFrame_to_dict (f : DiffFrame) : FrameDict :=
  let m := map_insert "anchor_id" (VString (df_anchor_id f)) [] in
  let m := map_insert "new_anchor_id" (VString (df_new_anchor_id f)) m in
  map_insert "patch" (VArray (df_patch f)) m.

Definition DiffFrame_from_dict (d : FrameDict) : NpsResult DiffFrame :=
  anchor_id ← get_str d "anchor_id";
  new_anchor_id ← get_str d "new_anchor_id";
  Ok (mkDiffFrame anchor_id new_anchor_id (default [] (map_get "patch" d ≫= as_array))).

(** ** StreamFrame *)

Record StreamFrame : Type := mkStreamFrame {
  sf_anchor_id : string;
  sf_seq : Z;
  sf_payload : Value;
  sf_is_last : bool
}.

Definition StreamFrame_to_dict (f : StreamFrame) : FrameDict :=
  let m := map_insert "anchor_id" (VString (sf_anchor_id f)) [] in
  let m := map_insert "seq" (vnat (sf_seq f)) m in
  let m := map_insert "payload" (sf_payload f) m in
  map_insert "is_last" (VBool (sf_is_last f)) m.

Definition StreamFrame_from_dict (d : FrameDict) : NpsResult StreamFrame :=
  anchor_id ← get_str d "anchor_id";
  Ok (mkStreamFrame anchor_id (default 0 (opt_u64 d "seq"))
        (default VNull (map_get "payload" d)) (default false (opt_bool d "is_last"))).

(** ** CapsFrame *)

Record CapsFrame : Type := mkCapsFrame {
  cf_node_id : option string;
  cf_caps : list string;
  cf_anchor_ref : option string;
  cf_count : option Z;
  cf_data : list Value;
  cf_next_cursor : option string;
  cf_token_est : option Z;
  cf_cached : option bool;
  cf_tokenizer_used : option string;
  cf_request_id : option string;
  cf_payload : option Value;
  cf_negotiated_encoding : option string;
  cf_enabled_encodings : option (list string);
  cf_session_version : option string;
  cf_supported_protocols : option (list string);
  cf_max_frame_payload : option Z;
  cf_ext_support : option bool;
  cf_max_concurrent_streams : option Z
}.

Definition CapsFrame_new (anchor_ref : string) (data : list Value) : CapsFrame :=
  mkCapsFrame None [] (Some anchor_ref) (Some (Z.of_nat (length data))) data
    None None None None None None None None None None None None None.

Definition non_empty {A} (l : list A) : bool := match l with [] => false | _ => true end.
Definition is_some {A} (o : option A) : bool := match o with Some _ => true | None => false end.

Definition CapsFrame_to_dict (f : CapsFrame) : FrameDict :=
  let m : FrameDict := [] in
  let m := insert_opt "node_id" (VString <$> cf_node_id f) m in
  let m := if non_empty (cf_caps f) then map_insert "caps" (vstrings (cf_caps f)) m else m in
  let m := insert_opt "anchor_ref" (VString <$> cf_anchor_ref f) m in
  let m :=
    if is_some (cf_count f) || non_empty (cf_data f)
    then
      let m := map_insert "count"
                 (vnat (default (Z.of_nat (length (cf_data f))) (cf_count f))) m in
      map_insert "data" (VArray (cf_data f)) m
    else m in
  let m := insert_opt "next_cursor" (VString <$> cf_next_cursor f) m in
  let m := insert_opt "token_est" (vnat <$> cf_token_est f) m in
  let m := insert_opt "cached" (VBool <$> cf_cached f) m in
  let m := insert_opt "tokenizer_used" (VString <$> cf_tokenizer_used f) m in
  let m := insert_opt "request_id" (VString <$> cf_request_id f) m in
  let m := insert_opt "payload" (cf_payload f) m in
  let m := insert_opt "negotiated_encoding" (VString <$> cf_negotiated_encoding f) m in
  let m := insert_opt "enabled_encodings" (vstrings <$> cf_enabled_encodings f) m in
  let m := insert_opt "session_version" (VString <$> cf_session_version f) m in
  let m := insert_opt "supported_protocols" (vstrings <$> cf_supported_protocols f) m in
  let m := insert_opt "max_frame_payload" (vnat <$> cf_max_frame_payload f) m in
  let m := insert_opt "ext_support" (VBool <$> cf_ext_support f) m in
  insert_opt "max_concurrent_streams" (vnat <$> cf_max_concurrent_streams f) m.

Definition CapsFrame_from_dict (d : FrameDict) : NpsResult CapsFrame :=
  let node_id := opt_str d "node_id" in
  let caps := default [] (opt_strings d "caps") in
  Ok (mkCapsFrame node_id caps (opt_str d "anchor_ref") (opt_u64 d "count")
        (default [] (map_get "data" d ≫= as_array))
        (opt_str d "next_cursor") (opt_u64 d "token_est") (opt_bool d "cached")
        (opt_str d "tokenizer_used") (opt_str d "request_id") (map_get "payload" d)
        (opt_str d "negotiated_encoding") (opt_strings d "enabled_encodings")
        (opt_str d "session_version") (opt_strings d "supported_protocols")
        (opt_u64 d "max_frame_payload") (opt_bool d "ext_support")
        (opt_u64 d "max_concurrent_streams")).

(** ** HelloFrame *)

Record HelloFrame : Type := mkHelloFrame {
  hf_nps_version : string;
  hf_supported_encodings : list string;
  hf_supported_protocols : list string;
  hf_min_version : option string;
  hf_agent_id : option string;
  hf_max_frame_payload : Z;
  hf_ext_support : bool;
  hf_max_concurrent_streams : Z;
  hf_e2e_enc_algorithms : option (list string);
  hf_ping_interval_ms : Z
}.

Definition DEFAULT_MAX_FRAME_PAYLOAD : Z := 0xFFFF.
Definition DEFAULT_MAX_CONCURRENT_STREAMS : Z := 32.

Definition HelloFrame_new (nps_version : string)
    (supported_encodings supported_protocols : list string) : HelloFrame :=
  mkHelloFrame nps_version supported_encodings supported_protocols None None
    DEFAULT_MAX_FRAME_PAYLOAD false DEFAULT_MAX_CONCURRENT_STREAMS None 0.

Definition HelloFrame_to_dict (f : HelloFrame) : FrameDict :=
  let m := map_insert "nps_version" (VString (hf_nps_version f)) [] in
  let m := map_insert "supported_encodings" (vstrings (hf_supported_encodings f)) m in
  let m := map_insert "supported_protocols" (vstrings (hf_supported_protocols f)) m in
  let m := map_insert "max_frame_payload" (vnat (hf_max_frame_payload f)) m in
  let m := map_insert "ext_support" (VBool (hf_ext_support f)) m in
  let m := map_insert "max_concurrent_streams" (vnat (hf_max_concurrent_streams f)) m in
  let m := insert_opt "min_version" (VString <$> hf_min_version f) m in
  let m := insert_opt "agent_id" (VString <$> hf_agent_id f) m in
  let m := insert_opt "e2e_enc_algorithms" (vstrings <$> hf_e2e_enc_algorithms f) m in
  if 0 <? hf_ping_interval_ms f
  then map_insert "ping_interval_ms" (vnat (hf_ping_interval_ms f)) m else m.

Definition HelloFrame_from_dict (d : FrameDict) : NpsResult HelloFrame :=
  nps_version ← get_str d "nps_version";
  Ok (mkHelloFrame nps_version
        (default [] (opt_strings d "supported_encodings"))
        (default [] (opt_strings d "supported_protocols"))
        (opt_str d "min_version") (opt_str d "agent_id")
        (default DEFAULT_MAX_FRAME_PAYLOAD (opt_u64 d "max_frame_payload"))
        (default false (opt_bool d "ext_support"))
        (default DEFAULT_MAX_CONCURRENT_STREAMS (opt_u64 d "max_concurrent_streams"))
        (opt_strings d "e2e_enc_algorithms")
        (default 0 (opt_u64 d "ping_interval_ms"))).

(** ** ErrorFrame *)

Record ErrorFrame : Type := mkErrorFrame {
  ef_error_code : string;
  ef_message : string;
  ef_detail : option Value
}.

Definition ErrorFrame_to_dict (f : ErrorFrame) : FrameDict :=
  let m := map_insert "error_code" (VString (ef_error_code f)) [] in
  let m := map_insert "message" (VString (ef_message f)) m in
  insert_opt "detail" (ef_detail f) m.

Definition ErrorFrame_from_dict (d : FrameDict) : NpsResult ErrorFrame :=
  error_code ← get_str d "error_code";
  message ← get_str d "message";
  Ok (mkErrorFrame error_code message (map_get "detail" d)).

(** ** Lemmas *)

Lemma opt_str_back (o : option string) :
  (VString <$> o) ≫= as_str = o.
Proof. by destruct o. Qed.
Lemma opt_u64_back (o : option Z) :
  (vnat <$> o) ≫= as_u64 = o.
Proof. by destruct o. Qed.
Lemma opt_bool_back (o : option bool) :
  (VBool <$> o) ≫= as_bool = o.
Proof. by destruct o. Qed.
Lemma opt_strings_back (o : option (list string)) :
  strings_of <$> ((vstrings <$> o) ≫= as_array) = o.
Proof. destruct o; cbn; by rewrite ?strings_of_map. Qed.
(** Reading back what a chain of insertions of literal keys wrote: the chain
    is given as a list of keys and optional values. *)
Ltac frame_roundtrip E :=
  rewrite E; unfold get_str, opt_str, opt_u64, opt_bool, opt_strings; get_literal;
  rewrite ?opt_str_back, ?opt_u64_back, ?opt_bool_back, ?opt_strings_back;
  unfold vstrings, vnat;
  cbn [mbind option_bind as_str as_array as_object as_bool as_u64 number_as_u64 fmap option_fmap
       option_map default ok_or result_bind];
  rewrite ?strings_of_map.

(** [to_dict] fills in the count of a non-empty data list. *)
Definition caps_counted (f : CapsFrame) : CapsFrame :=
  mkCapsFrame (cf_node_id f) (cf_caps f) (cf_anchor_ref f)
    (if is_some (cf_count f) || non_empty (cf_data f)
     then Some (default (Z.of_nat (length (cf_data f))) (cf_count f)) else None)
    (cf_data f) (cf_next_cursor f) (cf_token_est f) (cf_cached f) (cf_tokenizer_used f)
    (cf_request_id f) (cf_payload f) (cf_negotiated_encoding f) (cf_enabled_encodings f)
    (cf_session_version f) (cf_supported_protocols f) (cf_max_frame_payload f)
    (cf_ext_support f) (cf_max_concurrent_streams f).

(** ** Properties *)

Lemma AnchorFrame_roundtrip f : AnchorFrame_from_dict (AnchorFrame_to_dict f) = Ok f.
Proof.
  assert (E : AnchorFrame_to_dict f = dict_of
    [("anchor_id", Some (VString (af_anchor_id f))); ("schema", Some (VObject (af_schema f)));
     ("ttl", Some (vnat (af_ttl f))); ("namespace", VString <$> af_namespace f);
     ("description", VString <$> af_description f); ("node_type", VString <$> af_node_type f)])
    by done.
  unfold AnchorFrame_from_dict. frame_roundtrip E. by destruct f.
Qed.

Lemma DiffFrame_roundtrip f : DiffFrame_from_dict (DiffFrame_to_dict f) = Ok f.
Proof.
  assert (E : DiffFrame_to_dict f = dict_of
    [("anchor_id", Some (VString (df_anchor_id f)));
     ("new_anchor_id", Some (VString (df_new_anchor_id f)));
     ("patch", Some (VArray (df_patch f)))]) by done.
  unfold DiffFrame_from_dict. frame_roundtrip E. by destruct f.
Qed.

Lemma StreamFrame_roundtrip f : StreamFrame_from_dict (StreamFrame_to_dict f) = Ok f.
Proof.
  assert (E : StreamFrame_to_dict f = dict_of
    [("anchor_id", Some (VString (sf_anchor_id f))); ("seq", Some (vnat (sf_seq f)));
     ("payload", Some (sf_payload f)); ("is_last", Some (VBool (sf_is_last f)))]) by done.
  unfold StreamFrame_from_dict. frame_roundtrip E. by destruct f.
Qed.

Lemma ErrorFrame_roundtrip f : ErrorFrame_from_dict (ErrorFrame_to_dict f) = Ok f.
Proof.
  assert (E : ErrorFrame_to_dict f = dict_of
    [("error_code", Some (VString (ef_error_code f))); ("message", Some (VString (ef_message f)));
     ("detail", ef_detail f)]) by done.
  unfold ErrorFrame_from_dict. frame_roundtrip E. by destruct f.
Qed.

Lemma HelloFrame_roundtrip f :
  0 <= hf_ping_interval_ms f -> HelloFrame_from_dict (HelloFrame_to_dict f) = Ok f.
Proof.
  intros Hp.
  assert (E : HelloFrame_to_dict f = dict_of
    [("nps_version", Some (VString (hf_nps_version f)));
     ("supported_encodings", Some (vstrings (hf_supported_encodings f)));
     ("supported_protocols", Some (vstrings (hf_supported_protocols f)));
     ("max_frame_payload", Some (vnat (hf_max_frame_payload f)));
     ("ext_support", Some (VBool (hf_ext_support f)));
     ("max_concurrent_streams", Some (vnat (hf_max_concurrent_streams f)));
     ("min_version", VString <$> hf_min_version f); ("agent_id", VString <$> hf_agent_id f);
     ("e2e_enc_algorithms", vstrings <$> hf_e2e_enc_algorithms f);
     ("ping_interval_ms", if 0 <? hf_ping_interval_ms f
                          then Some (vnat (hf_ping_interval_ms f)) else None)])
    by (unfold HelloFrame_to_dict; by destruct (0 <? hf_ping_interval_ms f)).
  unfold HelloFrame_from_dict. frame_roundtrip E. destruct f; cbn in *.
  split_if; cbn; repeat f_equal; lia.
Qed.

Lemma CapsFrame_roundtrip f : CapsFrame_from_dict (CapsFrame_to_dict f) = Ok (caps_counted f).
Proof.
  set (counted := is_some (cf_count f) || non_empty (cf_data f)).
  assert (E : CapsFrame_to_dict f = dict_of
    [("node_id", VString <$> cf_node_id f);
     ("caps", if non_empty (cf_caps f) then Some (vstrings (cf_caps f)) else None);
     ("anchor_ref", VString <$> cf_anchor_ref f);
     ("count", if counted then Some (vnat (default (Z.of_nat (length (cf_data f))) (cf_count f)))
               else None);
     ("data", if counted then Some (VArray (cf_data f)) else None);
     ("next_cursor", VString <$> cf_next_cursor f); ("token_est", vnat <$> cf_token_est f);
     ("cached", VBool <$> cf_cached f); ("tokenizer_used", VString <$> cf_tokenizer_used f);
     ("request_id", VString <$> cf_request_id f); ("payload", cf_payload f);
     ("negotiated_encoding", VString <$> cf_negotiated_encoding f);
     ("enabled_encodings", vstrings <$> cf_enabled_encodings f);
     ("session_version", VString <$> cf_session_version f);
     ("supported_protocols", vstrings <$> cf_supported_protocols f);
     ("max_frame_payload", vnat <$> cf_max_frame_payload f);
     ("ext_support", VBool <$> cf_ext_support f);
     ("max_concurrent_streams", vnat <$> cf_max_concurrent_streams f)])
    by (unfold CapsFrame_to_dict; fold counted; by destruct (non_empty (cf_caps f)), counted).
  unfold CapsFrame_from_dict, caps_counted. fold counted. frame_roundtrip E.
  unfold counted.
  destruct (cf_caps f), (cf_count f), (cf_data f); cbn; rewrite ?strings_of_map; reflexivity.
Qed.

(** Every NCP frame survives its dictionary: [from_dict] inverts
    [to_dict]; a Caps frame comes back with the count of its data filled in. *)
Theorem ncp_frames_roundtrip :
  (forall f, AnchorFrame_from_dict (AnchorFrame_to_dict f) = Ok f) /\
  (forall f, DiffFrame_from_dict (DiffFrame_to_dict f) = Ok f) /\
  (forall f, StreamFrame_from_dict (StreamFrame_to_dict f) = Ok f) /\
  (forall f, ErrorFrame_from_dict (ErrorFrame_to_dict f) = Ok f) /\
  (forall f, CapsFrame_from_dict (CapsFrame_to_dict f) = Ok (caps_counted f)) /\
  (forall f, 0 <= hf_ping_interval_ms f -> HelloFrame_from_dict (HelloFrame_to_dict f) = Ok f).
Proof.
  repeat split; eauto using AnchorFrame_roundtrip, DiffFrame_roundtrip, StreamFrame_roundtrip,
    ErrorFrame_roundtrip, CapsFrame_roundtrip, HelloFrame_roundtrip.
Qed.

Lemma ncp_frames_roundtrip_witness :
  HelloFrame_from_dict (HelloFrame_to_dict (HelloFrame_new "0.11" ["json"] ["ncp"]))
  = Ok (HelloFrame_new "0.11" ["json"] ["ncp"]).
Proof. destruct ncp_frames_roundtrip as (_ & _ & _ & _ & _ & H). apply H. cbn. lia. Defined.
