(* ===== verification/NcpHandshake.v ===== *)
(** * NcpHandshake: preamble, encoding policy and native-mode negotiation

    Models nps-ncp/src/preamble.rs, patch_format.rs, encoding_policy.rs and
    handshake_profile.rs.  Durations are numbers of nanoseconds. *)

From S2P Require Import Prelude RustStr Floats Json CoreFrames NcpFrames.
Local Open Scope Z_scope.

(** ** Preamble (preamble.rs) *)

Definition PREAMBLE_LITERAL : string := "NPS/1.0" +:+ of_bytes [10].
Definition PREAMBLE_BYTES : list Z := bytes_of PREAMBLE_LITERAL.
Definition PREAMBLE_LENGTH : nat := 8.
Definition READ_TIMEOUT_SECS : Z := 10.

Definition preamble_matches (buf : list Z) : bool :=
  (PREAMBLE_LENGTH <=? length buf)%nat
  && bool_decide (take PREAMBLE_LENGTH buf = PREAMBLE_BYTES).

Definition preamble_validate (buf : list Z) : NpsResult unit :=
  if (length buf <? PREAMBLE_LENGTH)%nat
  then Err (Frame ("short read (" +:+ fmt_Z (Z.of_nat (length buf)) +:+ "/" +:+ fmt_Z 8
              +:+ " bytes); peer is not speaking NCP"))
  else if negb (preamble_matches buf)
  then
    if (4 <=? length buf)%nat && bool_decide (take 4 buf = bytes_of "NPS/")
    then Err (Frame "future-major-version NPS preamble; close with NPS-PREAMBLE-UNSUPPORTED-VERSION diagnostic")
    else Err (Frame "preamble mismatch; peer is not speaking NPS/1.x")
  else Ok tt.

(** ** Patch formats (patch_format.rs) *)

Definition JSON_PATCH : string := "json_patch".
Definition BINARY_BITSET : string := "binary_bitset".

Definition patch_is_known (format : string) : bool :=
  String.eqb format JSON_PATCH || String.eqb format BINARY_BITSET.

Definition allows_with_msgpack (format : string) (msgpack_available : bool) : bool :=
  if String.eqb format JSON_PATCH then true
  else if String.eqb format BINARY_BITSET then msgpack_available
  else false.

(** ** Encoding policy (encoding_policy.rs) *)

Definition BINARY_VECTOR_TOKEN : string := "binary_vector.v1".

Record NcpEncodingPolicy : Type := mkPolicy {
  default_tier : EncodingTier;
  binary_vector_enabled : bool
}.

Definition policy_new (t : EncodingTier) : NcpEncodingPolicy := mkPolicy t false.
Definition with_binary_vector (t : EncodingTier) (b : bool) : NcpEncodingPolicy := mkPolicy t b.

Definition encoding_token (tier : EncodingTier) : string :=
  match tier with
  | TJson => "json"
  | TMsgPack => "msgpack"
  | TBinaryVector => BINARY_VECTOR_TOKEN
  | TReserved => "unknown:" +:+ fmt_Z (tier_u8 TReserved)
  end.

Definition policy_enabled_encodings (p : NcpEncodingPolicy) : list string :=
  if binary_vector_enabled p
  then [encoding_token (default_tier p); BINARY_VECTOR_TOKEN]
  else [encoding_token (default_tier p)].

Definition is_binary_vector_frame (ft : FrameType) : bool := bool_decide (ft = Query).

Definition allows (p : NcpEncodingPolicy) (tier : EncodingTier) (ft : FrameType) : bool :=
  bool_decide (tier = default_tier p)
  || (bool_decide (tier = TBinaryVector) && binary_vector_enabled p && is_binary_vector_frame ft).

Definition ensure_allows (p : NcpEncodingPolicy) (header : FrameHeader) : NpsResult unit :=
  if allows p (encoding_tier header) (frame_type header) then Ok tt
  else Err (Codec ("Frame type 0x" +:+ fmt_02X (as_u8 (frame_type header)) +:+ " used "
         +:+ encoding_token (encoding_tier header)
         +:+ ", but the negotiated session policy allows "
         +:+ join ", " (policy_enabled_encodings p) +:+ ".")).

Definition str_mem (s : string) (l : list string) : bool := existsb (String.eqb s) l.

Definition from_enabled_encodings (t : EncodingTier) (enabled : option (list string))
    : NcpEncodingPolicy :=
  mkPolicy t (match enabled with
              | Some e => existsb (fun enc => String.eqb enc BINARY_VECTOR_TOKEN) e
              | None => false
              end).

(** ** Handshake profile (handshake_profile.rs) *)

Record NcpHandshakeProfile : Type := mkProfile {
  hp_min_version : string;
  hp_nps_version : string;
  hp_supported_encodings : list string;
  hp_supported_protocols : list string;
  hp_max_frame_payload : Z;
  hp_ext_support : bool;
  hp_max_concurrent_streams : Z
}.

Definition profile_default : NcpHandshakeProfile :=
  mkProfile "0.1" "0.11" ["msgpack"; "json"; "binary_vector.v1"]
    ["ncp"; "nwp"; "nip"; "ndp"; "nop"] 0xFFFF false 32.

Inductive NcpHandshakeAction : Type := Continue | Accept | SilentClose | ErrorClose.
#[export] Instance NcpHandshakeAction_eq_dec : EqDecision NcpHandshakeAction.
Proof. solve_decision. Defined.

Record NcpHandshakeDecision : Type := mkDecision {
  hd_action : NcpHandshakeAction;
  hd_status : option string;
  hd_error : option string;
  hd_diagnostic_error : option string;
  hd_session_version : option string;
  hd_negotiated_encoding : option string;
  hd_enabled_encodings : option (list string);
  hd_supported_protocols : option (list string);
  hd_max_frame_payload : option Z;
  hd_ext_support : option bool;
  hd_max_concurrent_streams : option Z
}.

Definition with_action (a : NcpHandshakeAction) : NcpHandshakeDecision :=
  mkDecision a None None None None None None None None None None.

Definition version_error : NcpHandshakeDecision :=
  mkDecision ErrorClose (Some "NPS-PROTO-VERSION-INCOMPATIBLE")
    (Some "NCP-VERSION-INCOMPATIBLE") None None None None None None None None.

Definition encoding_error : NcpHandshakeDecision :=
  mkDecision ErrorClose (Some "NPS-SERVER-ENCODING-UNSUPPORTED")
    (Some "NCP-ENCODING-UNSUPPORTED") None None None None None None None None.

Definition evaluate_preamble (received : list Z) (elapsed timeout : Z) : NcpHandshakeDecision :=
  if negb (timeout =? 0) && (timeout <=? elapsed) then with_action SilentClose
  else if (length received <? PREAMBLE_LENGTH)%nat then with_action Continue
  else if negb (bool_decide (take PREAMBLE_LENGTH received = PREAMBLE_BYTES))
  then mkDecision SilentClose None None (Some "NCP-PREAMBLE-INVALID")
         None None None None None None None
  else with_action Continue.

Definition evaluate_hello_header (header : FrameHeader) (elapsed timeout max_hello_payload : Z)
    : NcpHandshakeDecision :=
  if negb (timeout =? 0) && (timeout <=? elapsed) then with_action SilentClose
  else if negb (bool_decide (frame_type header = Hello))
       || negb (bool_decide (encoding_tier header = TJson))
       || negb (Z.land (flags header) 0x08 =? 0)
       || is_extended header
       || (max_hello_payload <? payload_length header)
  then with_action SilentClose
  else with_action Continue.

(** [parse_version]: [major.minor], two [u64]s. *)
Definition parse_version (value : string) : option (Z * Z) :=
  match split_on "."%char value with
  | [a; b] =>
    major ← parse_u64 a;
    minor ← parse_u64 b;
    Some (major, minor)
  | _ => None
  end.

(** The derived order of pairs, and [max]/[min] for it. *)
Definition ver_lt (a b : Z * Z) : bool :=
  (a.1 <? b.1) || ((a.1 =? b.1) && (a.2 <? b.2)).
Definition ver_max (a b : Z * Z) : Z * Z := if ver_lt b a then a else b.
Definition ver_min (a b : Z * Z) : Z * Z := if ver_lt b a then b else a.

(** The [seen.insert] filter: keep the first occurrence of each token. *)
Fixpoint dedup (seen : list string) (l : list string) : list string :=
  match l with
  | [] => []
  | x :: r => if str_mem x seen then dedup seen r else x :: dedup (x :: seen) r
  end.

Definition stable_token (server_encodings : list string) (token : string) : bool :=
  (String.eqb token "msgpack" || String.eqb token "json") && str_mem token server_encodings.

Definition negotiate_handshake (server : NcpHandshakeProfile) (client : HelloFrame)
    : NcpHandshakeDecision :=
  match parse_version (hp_min_version server), parse_version (hp_nps_version server) with
  | Some server_min, Some server_max =>
    let client_min_token := default (hf_nps_version client) (hf_min_version client) in
    match parse_version client_min_token, parse_version (hf_nps_version client) with
    | Some client_min, Some client_max =>
      if ver_lt server_max server_min || ver_lt client_max client_min then version_error
      else
      let overlap_min := ver_max server_min client_min in
      let overlap_max := ver_min server_max client_max in
      if ver_lt overlap_max overlap_min then version_error
      else
      match find (stable_token (hp_supported_encodings server)) (hf_supported_encodings client) with
      | None => encoding_error
      | Some stable =>
        let protocols :=
          dedup [] (List.filter (fun token => str_mem token (hp_supported_protocols server))
                      (hf_supported_protocols client)) in
        if negb (str_mem "ncp" protocols)
           || (hf_max_frame_payload client =? 0) || (hp_max_frame_payload server =? 0)
           || (hf_max_concurrent_streams client =? 0) || (hp_max_concurrent_streams server =? 0)
        then version_error
        else
        let enabled :=
          if str_mem "binary_vector.v1" (hp_supported_encodings server)
             && existsb (fun token => String.eqb token "binary_vector.v1")
                  (hf_supported_encodings client)
          then [stable; "binary_vector.v1"] else [stable] in
        mkDecision Accept None None None
          (Some (fmt_Z overlap_max.1 +:+ "." +:+ fmt_Z overlap_max.2))
          (Some stable) (Some enabled) (Some protocols)
          (Some (Z.min (hp_max_frame_payload server) (hf_max_frame_payload client)))
          (Some (hp_ext_support server && hf_ext_support client))
          (Some (Z.min (hp_max_concurrent_streams server) (hf_max_concurrent_streams client)))
      end
    | _, _ => version_error
    end
  | _, _ => version_error
  end.

(** ** Lemmas *)

Lemma str_mem_In s l : str_mem s l = true <-> In s l.
Proof.
  unfold str_mem. rewrite existsb_exists. split.
  - intros (x & Hx & E). apply String.eqb_eq in E as ->. done.
  - intros H. exists s. by rewrite String.eqb_refl.
Qed.

Lemma dedup_spec seen l :
  List.NoDup (dedup seen l) /\ (forall x, In x (dedup seen l) <-> In x l /\ ~ In x seen).
Proof.
  revert seen; induction l as [|a l IH]; intros seen; cbn; [split; [constructor | tauto] |].
  destruct (str_mem a seen) eqn:E.
  - destruct (IH seen) as [Hn Hin]. split; [done |]. intros x. rewrite Hin.
    apply str_mem_In in E. split; [tauto |]. intros [[->|]]; tauto.
  - destruct (IH (a :: seen)) as [Hn Hin].
    assert (Ha : ~ In a seen) by (intros Ha; apply str_mem_In in Ha; congruence).
    split.
    + constructor; [|done]. rewrite Hin. cbn. tauto.
    + intros x. cbn. rewrite Hin. cbn. destruct (String.string_dec a x) as [->|]; tauto.
Qed.

Definition ver_le (a b : Z * Z) : Prop := a.1 < b.1 \/ (a.1 = b.1 /\ a.2 <= b.2).

Lemma ver_lt_false a b : ver_lt a b = false <-> ver_le b a.
Proof. unfold ver_lt, ver_le. lia. Qed.

Lemma ver_min_spec a b v : ver_le v (ver_min a b) <-> ver_le v a /\ ver_le v b.
Proof. unfold ver_min. destruct (ver_lt b a) eqn:E; unfold ver_lt, ver_le in *; lia. Qed.

Lemma ver_max_spec a b v : ver_le (ver_max a b) v <-> ver_le a v /\ ver_le b v.
Proof. unfold ver_max. destruct (ver_lt b a) eqn:E; unfold ver_lt, ver_le in *; lia. Qed.

Lemma ver_min_in a b : ver_min a b = a \/ ver_min a b = b.
Proof. unfold ver_min. destruct (ver_lt b a); auto. Qed.

Lemma ver_le_refl a : ver_le a a.
Proof. unfold ver_le. lia. Qed.

(** ** The contract of the negotiation *)

(** A version both sides speak. *)
Definition version_common (server : NcpHandshakeProfile) (client : HelloFrame) (v : Z * Z) : Prop :=
  exists smin smax cmin cmax,
    parse_version (hp_min_version server) = Some smin /\
    parse_version (hp_nps_version server) = Some smax /\
    parse_version (default (hf_nps_version client) (hf_min_version client)) = Some cmin /\
    parse_version (hf_nps_version client) = Some cmax /\
    ver_le smin v /\ ver_le v smax /\ ver_le cmin v /\ ver_le v cmax.

(** Both sides can carry the session: a common stable encoding, the NCP
    protocol on both sides and no zero limit. *)
Definition session_possible (server : NcpHandshakeProfile) (client : HelloFrame) : Prop :=
  (exists e, (e = "msgpack" \/ e = "json") /\
     In e (hf_supported_encodings client) /\ In e (hp_supported_encodings server)) /\
  In "ncp" (hf_supported_protocols client) /\ In "ncp" (hp_supported_protocols server) /\
  hf_max_frame_payload client <> 0 /\ hp_max_frame_payload server <> 0 /\
  hf_max_concurrent_streams client <> 0 /\ hp_max_concurrent_streams server <> 0.

Lemma stable_token_true l t :
  stable_token l t = true <-> (t = "msgpack" \/ t = "json") /\ In t l.
Proof.
  unfold stable_token. rewrite andb_true_iff, orb_true_iff, !String.eqb_eq, str_mem_In. done.
Qed.

Lemma protocols_In server client x :
  In x (dedup [] (List.filter (fun token => str_mem token (hp_supported_protocols server))
                    (hf_supported_protocols client)))
  <-> In x (hf_supported_protocols client) /\ In x (hp_supported_protocols server).
Proof.
  destruct (dedup_spec [] (List.filter (fun token => str_mem token (hp_supported_protocols server))
                    (hf_supported_protocols client))) as [_ H].
  rewrite H, filter_In, str_mem_In. cbn. tauto.
Qed.

(** The version part of [negotiate_handshake], as one test. *)
Definition version_overlap (server : NcpHandshakeProfile) (client : HelloFrame) : option (Z * Z) :=
  smin ← parse_version (hp_min_version server);
  smax ← parse_version (hp_nps_version server);
  cmin ← parse_version (default (hf_nps_version client) (hf_min_version client));
  cmax ← parse_version (hf_nps_version client);
  if ver_lt smax smin || ver_lt cmax cmin
     || ver_lt (ver_min smax cmax) (ver_max smin cmin)
  then None else Some (ver_min smax cmax).

Definition limits_ok (server : NcpHandshakeProfile) (client : HelloFrame) (protocols : list string)
    : bool :=
  negb (negb (str_mem "ncp" protocols)
    || (hf_max_frame_payload client =? 0) || (hp_max_frame_payload server =? 0)
    || (hf_max_concurrent_streams client =? 0) || (hp_max_concurrent_streams server =? 0)).

Definition session_protocols (server : NcpHandshakeProfile) (client : HelloFrame) : list string :=
  dedup [] (List.filter (fun token => str_mem token (hp_supported_protocols server))
              (hf_supported_protocols client)).

Definition session_enabled (server : NcpHandshakeProfile) (client : HelloFrame) (stable : string)
    : list string :=
  if str_mem "binary_vector.v1" (hp_supported_encodings server)
     && existsb (fun token => String.eqb token "binary_vector.v1") (hf_supported_encodings client)
  then [stable; "binary_vector.v1"] else [stable].

(** The decision, step by step. *)
Lemma negotiate_unfold server client :
  negotiate_handshake server client =
  match version_overlap server client with
  | None => version_error
  | Some v =>
    match find (stable_token (hp_supported_encodings server)) (hf_supported_encodings client) with
    | None => encoding_error
    | Some stable =>
      if limits_ok server client (session_protocols server client)
      then mkDecision Accept None None None
             (Some (fmt_Z v.1 +:+ "." +:+ fmt_Z v.2)) (Some stable)
             (Some (session_enabled server client stable)) (Some (session_protocols server client))
             (Some (Z.min (hp_max_frame_payload server) (hf_max_frame_payload client)))
             (Some (hp_ext_support server && hf_ext_support client))
             (Some (Z.min (hp_max_concurrent_streams server) (hf_max_concurrent_streams client)))
      else version_error
    end
  end.
Proof.
  unfold negotiate_handshake, version_overlap, limits_ok.
  destruct (parse_version (hp_min_version server)) as [smin|]; [|done]. cbn.
  destruct (parse_version (hp_nps_version server)) as [smax|]; [|done]. cbn.
  destruct (parse_version (default _ _)) as [cmin|]; [|done]. cbn.
  destruct (parse_version (hf_nps_version client)) as [cmax|]; [|done]. cbn.
  destruct (ver_lt smax smin || ver_lt cmax cmin); [done |]. cbn.
  destruct (ver_lt _ _); [done |].
  destruct (find _ _) as [stable|]; [|done]. by destruct (_ || _).
Qed.

(** [version_overlap] is the greatest version both sides speak. *)
Lemma version_overlap_spec server client v :
  version_overlap server client = Some v <->
  version_common server client v /\
  (forall w, version_common server client w -> ver_le w v).
Proof.
  unfold version_overlap, version_common.
  destruct (parse_version (hp_min_version server)) as [smin|]; cbn;
    [|split; [done | intros [(?&?&?&?&?&_) _]; done]].
  destruct (parse_version (hp_nps_version server)) as [smax|]; cbn;
    [|split; [done | intros [(?&?&?&?&_&?&_) _]; done]].
  destruct (parse_version (default _ _)) as [cmin|]; cbn;
    [|split; [done | intros [(?&?&?&?&_&_&?&_) _]; done]].
  destruct (parse_version (hf_nps_version client)) as [cmax|]; cbn;
    [|split; [done | intros [(?&?&?&?&_&_&_&?&_) _]; done]].
  destruct (_ || _) eqn:E.
  - split; [done |]. intros [(?&?&?&?&[= <-]&[= <-]&[= <-]&[= <-]& H1 & H2 & H3 & H4) _].
    unfold ver_min, ver_max, ver_lt, ver_le in *. exfalso.
    destruct smin, smax, cmin, cmax, v; cbn in *. repeat case_match; cbn in *; lia.
  - apply orb_false_iff in E as [E E3]. apply orb_false_iff in E as [E1 E2].
    rewrite !ver_lt_false in *. apply ver_max_spec in E3 as [E3 E4].
    pose proof (proj1 (ver_min_spec smax cmax _) (ver_le_refl _)) as [L1 L2].
    split.
    + intros [= <-]. split; [eauto 15|].
      intros w (?&?&?&?&[= <-]&[= <-]&[= <-]&[= <-]&?&?&?&?). by apply ver_min_spec.
    + intros [(?&?&?&?&[= <-]&[= <-]&[= <-]&[= <-]& H1 & H2 & H3 & H4) Hmax]. f_equal.
      assert (Ha : ver_le v (ver_min smax cmax)) by by apply ver_min_spec.
      assert (Hb : ver_le (ver_min smax cmax) v) by (apply Hmax; eauto 15).
      unfold ver_le in Ha, Hb. destruct v, (ver_min smax cmax); cbn in *; f_equal; lia.
Qed.

Lemma version_overlap_None server client :
  version_overlap server client = None -> forall v, ~ version_common server client v.
Proof.
  unfold version_overlap, version_common.
  intros H v (smin & smax & cmin & cmax & H1 & H2 & H3 & H4 & L1 & L2 & L3 & L4).
  rewrite H1, H2, H3, H4 in H. cbn in H. destruct (_ || _) eqn:E; [|done].
  unfold ver_min, ver_max, ver_lt, ver_le in *.
  destruct smin, smax, cmin, cmax, v; cbn in *. repeat case_match; cbn in *; lia.
Qed.

Lemma limits_ok_spec server client :
  limits_ok server client (session_protocols server client) = true <->
  In "ncp" (hf_supported_protocols client) /\ In "ncp" (hp_supported_protocols server) /\
  hf_max_frame_payload client <> 0 /\ hp_max_frame_payload server <> 0 /\
  hf_max_concurrent_streams client <> 0 /\ hp_max_concurrent_streams server <> 0.
Proof.
  unfold limits_ok, session_protocols. pose proof (protocols_In server client "ncp") as Hin.
  rewrite <-str_mem_In in Hin. rewrite negb_true_iff, !orb_false_iff, negb_false_iff, !Z.eqb_neq.
  tauto.
Qed.

(** ** Properties *)

(** The server accepts a Hello exactly when the two sides share a
    version and a session is possible between them; otherwise it closes with
    an error carrying both a status and a code. *)
Theorem negotiate_accepts_iff server client :
  (hd_action (negotiate_handshake server client) = Accept <->
   (exists v, version_common server client v) /\ session_possible server client) /\
  (hd_action (negotiate_handshake server client) <> Accept ->
   hd_action (negotiate_handshake server client) = ErrorClose /\
   is_some (hd_status (negotiate_handshake server client)) = true /\
   is_some (hd_error (negotiate_handshake server client)) = true).
Proof.
  rewrite negotiate_unfold. unfold session_possible.
  destruct (version_overlap server client) as [v|] eqn:Ev.
  2:{ split; [|done]. split; [done |]. intros [[v Hv] _]. by apply (version_overlap_None _ _ Ev) in Hv. }
  apply version_overlap_spec in Ev as [Hv _].
  destruct (find _ _) as [t|] eqn:Ef.
  - apply find_some in Ef as [Hin Ht]. apply stable_token_true in Ht as [Ht Hs].
    rewrite <-limits_ok_spec. destruct (limits_ok _ _ _); cbn;
      [|split; [split; [done | by intros (_ & _ & ?)] | done]].
    split; [|done]. split; [|done]. intros _. split; [by exists v |]. split; [by exists t | done].
  - split; [|done]. split; [done |]. intros [_ [(e & He & Hc & Hs) _]]. exfalso.
    assert (stable_token (hp_supported_encodings server) e = true) by by apply stable_token_true.
    pose proof (find_none _ _ Ef e Hc). congruence.
Qed.

(** What an accepted negotiation fixes: the greatest common version, the
    client's first stable encoding the server knows, BinaryVector exactly when
    both list it, the common protocols without repetition, and the minimum of
    each limit, all non-zero. *)
Theorem negotiate_result server client :
  hd_action (negotiate_handshake server client) = Accept ->
  exists v stable protocols,
    let d := negotiate_handshake server client in
    version_common server client v /\ (forall w, version_common server client w -> ver_le w v) /\
    hd_session_version d = Some (fmt_Z v.1 +:+ "." +:+ fmt_Z v.2) /\
    hd_negotiated_encoding d = Some stable /\
    (stable = "msgpack" \/ stable = "json") /\ In stable (hp_supported_encodings server) /\
    (exists before after, hf_supported_encodings client = before ++ stable :: after /\
       Forall (fun e => stable_token (hp_supported_encodings server) e = false) before) /\
    (exists enabled, hd_enabled_encodings d = Some enabled /\ head enabled = Some stable /\
       (In "binary_vector.v1" enabled <->
        In "binary_vector.v1" (hp_supported_encodings server) /\
        In "binary_vector.v1" (hf_supported_encodings client))) /\
    hd_supported_protocols d = Some protocols /\ List.NoDup protocols /\
    (forall p, In p protocols <->
       In p (hf_supported_protocols client) /\ In p (hp_supported_protocols server)) /\
    hd_max_frame_payload d = Some (Z.min (hp_max_frame_payload server) (hf_max_frame_payload client)) /\
    hd_max_concurrent_streams d
    = Some (Z.min (hp_max_concurrent_streams server) (hf_max_concurrent_streams client)).
Proof.
  rewrite negotiate_unfold. destruct (version_overlap server client) as [v|] eqn:Ev; [|done].
  apply version_overlap_spec in Ev as [Hv Hmax].
  destruct (find _ _) as [t|] eqn:Ef; [|done].
  destruct (limits_ok _ _ _) eqn:El; [|done]. intros _.
  exists v, t, (session_protocols server client). cbn.
  pose proof (find_some _ _ Ef) as [Hin Ht]. apply stable_token_true in Ht as [Ht Hs].
  repeat (split; [done |]). split.
  { clear -Ef. induction (hf_supported_encodings client) as [|e l IH]; cbn in Ef; [done |].
    destruct (stable_token _ e) eqn:E; [injection Ef as ->; exists [], l; done |].
    destruct (IH Ef) as (b & a & -> & Hb). exists (e :: b), a. split; [done | by constructor]. }
  split.
  { exists (session_enabled server client t). split; [done |].
    unfold session_enabled. rewrite <-(str_mem_In _ (hp_supported_encodings server)).
    rewrite <-(str_mem_In _ (hf_supported_encodings client)).
    assert (existsb (fun token => String.eqb token "binary_vector.v1") (hf_supported_encodings client)
      = str_mem "binary_vector.v1" (hf_supported_encodings client)) as ->.
    { unfold str_mem. clear. induction (hf_supported_encodings client) as [|e l IH]; [done |].
      cbn [existsb]. f_equal; [apply String.eqb_sym | exact IH]. }
    destruct (_ && _) eqn:E; cbn; split; try done.
    - apply andb_true_iff in E. tauto.
    - apply andb_false_iff in E. split.
      + intros [E'|[]]. rewrite E' in Ht. destruct Ht; discriminate.
      + intros [? ?]. destruct E; congruence. }
  split; [done |]. split; [apply dedup_spec |]. split; [apply protocols_In | done].
Qed.

(** The two stages before the Hello payload: after a complete preamble
    only the exact eight bytes let the connection continue, and a Hello
    header passes only if it is an unencrypted, unextended JSON Hello within
    the payload limit; a stage past its deadline always closes silently. *)
Theorem handshake_gates received header elapsed timeout max_hello :
  (hd_action (evaluate_preamble received elapsed timeout) = Continue <->
   (timeout = 0 \/ elapsed < timeout) /\
   ((length received < PREAMBLE_LENGTH)%nat \/ take PREAMBLE_LENGTH received = PREAMBLE_BYTES)) /\
  (hd_action (evaluate_hello_header header elapsed timeout max_hello) = Continue <->
   (timeout = 0 \/ elapsed < timeout) /\
   frame_type header = Hello /\ encoding_tier header = TJson /\
   Z.land (flags header) 0x08 = 0 /\ is_extended header = false /\
   payload_length header <= max_hello) /\
  (timeout <> 0 -> timeout <= elapsed ->
   evaluate_preamble received elapsed timeout = with_action SilentClose /\
   evaluate_hello_header header elapsed timeout max_hello = with_action SilentClose).
Proof.
  unfold evaluate_preamble, evaluate_hello_header.
  destruct (negb (timeout =? 0) && (timeout <=? elapsed)) eqn:Et.
  - apply andb_true_iff in Et as [E1 E2]. bool_hyps. cmp_hyps.
    split; [|split; [|done]]; (split; [done | lia]).
  - assert (Ht : timeout = 0 \/ elapsed < timeout) by lia.
    split; [|split; [|lia]].
    + split_if; [by split; [intros _; split; [|left] |] |].
      case_bool_decide; cbn; [by split; [intros _; split; [|right] |] |].
      split; [done |]. intros [_ [?|?]]; [lia | done].
    + destruct (_ || _) eqn:E; cbn; (split; [|]); try done.
      * intros (_ & H1 & H2 & H3 & H4 & H5). rewrite H1, H2, H3, H4 in E.
        rewrite !bool_decide_eq_true_2 in E by done. cbn in E. cmp_hyps. lia.
      * intros _. bool_hyps. cmp_hyps. eauto 10.
Qed.

(** ** Witnesses *)

Definition sample_hello : HelloFrame :=
  mkHelloFrame "0.10" ["binary_vector.v1"; "json"; "msgpack"] ["nwp"; "ncp"; "nwp"]
    (Some "0.4") None 4096 true 8 None 0.

Lemma negotiate_accepts_witness :
  hd_action (negotiate_handshake profile_default (HelloFrame_new "0.11" ["cbor"] ["ncp"])) = ErrorClose.
Proof.
  destruct (negotiate_accepts_iff profile_default (HelloFrame_new "0.11" ["cbor"] ["ncp"])) as [_ H].
  apply H. vm_compute. discriminate.
Defined.

Lemma negotiate_result_witness :
  hd_action (negotiate_handshake profile_default sample_hello) = Accept /\
  exists v stable protocols,
    let d := negotiate_handshake profile_default sample_hello in
    hd_session_version d = Some (fmt_Z v.1 +:+ "." +:+ fmt_Z v.2) /\
    hd_negotiated_encoding d = Some stable /\ hd_supported_protocols d = Some protocols.
Proof.
  assert (Ha : hd_action (negotiate_handshake profile_default sample_hello) = Accept)
    by (vm_compute; reflexivity).
  split; [exact Ha |].
  destruct (negotiate_result profile_default sample_hello Ha)
    as (v & t & p & _ & _ & H1 & H2 & _ & _ & _ & _ & H3 & _). exists v, t, p. auto.
Defined.

Lemma handshake_gates_witness :
  evaluate_preamble [1; 2] 10 10 = with_action SilentClose.
Proof.
  destruct (handshake_gates [1; 2] (header_new Hello TJson true 5) 10 10 99) as (_ & _ & H).
  apply H; lia.
Defined.
