(* ===== verification/NcpSession.v ===== *)
(** * NcpSession: the native-mode transport

    Models nps-ncp/src/transport.rs over byte streams: what a peer can still
    read is the list of bytes before end of file, what it writes is appended
    to its output.  A run is one in which no deadline fires.  [eof] is the
    text of the I/O error a short read produces. *)

From S2P Require Import Prelude RustStr Floats Json CoreFrames CoreCodec NcpFrames NcpHandshake.
Local Open Scope Z_scope.

Record NcpHandshakeError : Type := mkHandshakeError { he_error_code : string; he_message : string }.

Inductive ConnectError : Type :=
| CHandshake (e : NcpHandshakeError)
| CNps (e : NpsError).

Definition HANDSHAKE_UNEXPECTED_FRAME : string := "NCP-HANDSHAKE-UNEXPECTED-FRAME".

Record NcpServerOptions : Type := mkServerOptions {
  so_max_hello_payload : Z;
  so_preamble_read_timeout : Z;
  so_hello_read_timeout : Z;
  so_handshake_profile : NcpHandshakeProfile
}.

Definition server_options_default : NcpServerOptions :=
  mkServerOptions 0xFFFF (READ_TIMEOUT_SECS * nanos_per_sec) (5 * nanos_per_sec) profile_default.

(** A live session: unread input, written output, and what was negotiated. *)
Record NcpSession : Type := mkSession {
  ses_in : list Z;
  ses_out : list Z;
  ses_server_caps : CapsFrame;
  ses_policy : NcpEncodingPolicy
}.

Record NcpServerConnection : Type := mkConnection {
  conn_in : list Z;
  conn_client_hello : HelloFrame;
  conn_handshake_profile : NcpHandshakeProfile
}.

Section transport.
Context {SC : SerdeCodec}.
Context (eof : string).

(** [AsyncReadExt::read_exact] into a buffer of [n] bytes. *)
Definition read_exact (n : nat) (input : list Z) : NpsResult (list Z * list Z) :=
  if (length input <? n)%nat then Err (Io eof) else Ok (take n input, drop n input).

(** [read_frame_header]: two bytes first, to see the EXT flag. *)
Definition read_frame_header (input : list Z) : NpsResult (FrameHeader * list Z * list Z) :=
  '(peek, input) ← read_exact 2 input;
  let ext := negb (Z.land (nth 1 peek 0) 0x80 =? 0) in
  let remaining := if ext then 6%nat else 2%nat in
  '(rest, input) ← read_exact remaining input;
  let raw := peek ++ rest in
  header ← parse raw;
  Ok (header, raw, input).

Definition read_payload (input : list Z) (len : Z) : NpsResult (list Z * list Z) :=
  read_exact (Z.to_nat len) input.

Definition decode_handshake_payload (header : FrameHeader) (payload : list Z) : NpsResult FrameDict :=
  match encoding_tier header with
  | TJson => decode_json payload
  | TMsgPack => decode_msgpack payload
  | TBinaryVector => decode_binary_vector payload
  | TReserved => Err (Codec "Unsupported handshake encoding tier: reserved (0x03).")
  end.

(** [encode_frame]: always final, no payload limit. *)
Definition encode_frame (ft : FrameType) (dict : FrameDict) (tier : EncodingTier)
    : NpsResult (list Z) :=
  payload ← encode_tier tier dict;
  let header := header_new ft tier true (Z.of_nat (length payload)) in
  Ok (to_bytes header ++ payload).

Definition send_frame (s : NcpSession) (ft : FrameType) (dict : FrameDict) (tier : EncodingTier)
    : NpsResult NcpSession :=
  wire ← encode_frame ft dict tier;
  header ← parse wire;
  _ ← ensure_allows (ses_policy s) header;
  Ok (mkSession (ses_in s) (ses_out s ++ wire) (ses_server_caps s) (ses_policy s)).

(** [recv_frame]: [Ok (None, _)] is the clean end of file. *)
Definition recv_frame (s : NcpSession) : NpsResult (option (FrameType * FrameDict) * NcpSession) :=
  match read_exact 1 (ses_in s) with
  | Err _ => Ok (None, s)
  | Ok (first, input) =>
    '(second, input) ← read_exact 1 input;
    let ext := negb (Z.land (nth 0 second 0) 0x80 =? 0) in
    let remaining := if ext then 6%nat else 2%nat in
    '(rest, input) ← read_exact remaining input;
    let raw := [nth 0 first 0; nth 0 second 0] ++ rest in
    header ← parse raw;
    _ ← ensure_allows (ses_policy s) header;
    '(payload, input) ← read_payload input (payload_length header);
    dict ← decode_handshake_payload header payload;
    Ok (Some (frame_type header, dict),
        mkSession input (ses_out s) (ses_server_caps s) (ses_policy s))
  end.

(** ** Client: [NcpNativeClient::connect_detailed] *)

(** Steps 1 and 2: what the client writes. *)
Definition client_request (hello : HelloFrame) : NpsResult (list Z) :=
  hello_wire ← encode_frame Hello (HelloFrame_to_dict hello) TJson;
  Ok (PREAMBLE_BYTES ++ hello_wire).

(** Steps 3 to 6: what it makes of the reply. *)
Definition client_finish (written reply : list Z) : result ConnectError NcpSession :=
  '(header, _, input) ← map_err CNps (read_frame_header reply);
  '(payload, input) ← map_err CNps (read_payload input (payload_length header));
  if bool_decide (frame_type header = Error)
  then
    dict ← map_err CNps (decode_handshake_payload header payload);
    err ← map_err CNps (ErrorFrame_from_dict dict);
    Err (CHandshake (mkHandshakeError (ef_error_code err) (ef_message err)))
  else if negb (bool_decide (frame_type header = Caps))
  then Err (CHandshake (mkHandshakeError HANDSHAKE_UNEXPECTED_FRAME
         ("Expected CapsFrame (0x" +:+ fmt_02X (as_u8 Caps) +:+ "), got 0x"
          +:+ fmt_02X (as_u8 (frame_type header)) +:+ ".")))
  else
    let negotiated_tier := encoding_tier header in
    dict ← map_err CNps (decode_handshake_payload header payload);
    caps ← map_err CNps (CapsFrame_from_dict dict);
    let policy := from_enabled_encodings negotiated_tier (cf_enabled_encodings caps) in
    Ok (mkSession input written caps policy).

(** ** Server: [NcpServer::accept_connection] *)

Definition accept_connection (o : NcpServerOptions) (input : list Z)
    : NpsResult NcpServerConnection :=
  '(preamble_buf, input) ← read_exact PREAMBLE_LENGTH input;
  _ ← preamble_validate preamble_buf;
  '(header, _, input) ← read_frame_header input;
  let decision :=
    evaluate_hello_header header 0 (so_hello_read_timeout o) (so_max_hello_payload o) in
  if negb (bool_decide (hd_action decision = Continue))
  then Err (Frame "Invalid native NCP Hello header.")
  else
    '(payload, input) ← read_payload input (payload_length header);
    dict ← decode_json payload;
    hello ← HelloFrame_from_dict dict;
    Ok (mkConnection input hello (so_handshake_profile o)).

(** [NcpServerConnection::reject]: the bytes written before the close. *)
Definition reject (error : ErrorFrame) : NpsResult (list Z) :=
  encode_frame Error (ErrorFrame_to_dict error) TJson.

Definition caps_with_negotiation (c : CapsFrame) (d : NcpHandshakeDecision) : CapsFrame :=
  mkCapsFrame (cf_node_id c) (cf_caps c) (cf_anchor_ref c) (cf_count c) (cf_data c)
    (cf_next_cursor c) (cf_token_est c) (cf_cached c) (cf_tokenizer_used c) (cf_request_id c)
    (cf_payload c) (hd_negotiated_encoding d) (hd_enabled_encodings d) (hd_session_version d)
    (hd_supported_protocols d) (hd_max_frame_payload d) (hd_ext_support d)
    (hd_max_concurrent_streams d).

(** [NcpServerConnection::accept]: the bytes written, and the session or the
    error returned. *)
Definition accept (conn : NcpServerConnection) (server_caps : CapsFrame)
    : list Z * NpsResult NcpSession :=
  let negotiation := negotiate_handshake (conn_handshake_profile conn) (conn_client_hello conn) in
  if negb (bool_decide (hd_action negotiation = Accept))
  then
    let error_code := default "NCP-VERSION-INCOMPATIBLE" (hd_error negotiation) in
    let status := default "NPS-PROTO-VERSION-INCOMPATIBLE" (hd_status negotiation) in
    let error := mkErrorFrame error_code "Native NCP handshake negotiation failed."
                   (Some (VObject [("status", VString status)])) in
    match reject error with
    | Err e => ([], Err e)
    | Ok wire => (wire, Err (Frame ("[" +:+ error_code +:+
                   "] Native NCP handshake negotiation failed.")))
    end
  else
    let default_tier :=
      if bool_decide (hd_negotiated_encoding negotiation = Some "msgpack")
      then TMsgPack else TJson in
    let binary_vector_enabled :=
      match hd_enabled_encodings negotiation with
      | Some items => existsb (fun item => String.eqb item "binary_vector.v1") items
      | None => false
      end in
    let policy := with_binary_vector default_tier binary_vector_enabled in
    let server_caps := caps_with_negotiation server_caps negotiation in
    match encode_frame Caps (CapsFrame_to_dict server_caps) default_tier with
    | Err e => ([], Err e)
    | Ok wire => (wire, Ok (mkSession (conn_in conn) wire server_caps policy))
    end.

(** ** Lemmas *)

Lemma read_exact_app n l k : length l = n -> read_exact n (l ++ k) = Ok (l, k).
Proof.
  intros <-. unfold read_exact. rewrite length_app. split_if.
  by rewrite take_app_length, drop_app_length.
Qed.

(** A header written by [to_bytes] is read whole, and nothing after it. *)
Lemma read_header_new ft t fin n rest :
  0 <= n < 4294967296 ->
  let h := header_new ft t fin n in
  exists b0 b1 tl, to_bytes h = b0 :: b1 :: tl /\
    (if negb (Z.land b1 0x80 =? 0) then length tl = 6%nat else length tl = 2%nat) /\
    parse (b0 :: b1 :: tl) = Ok h /\
    read_frame_header (to_bytes h ++ rest) = Ok (h, to_bytes h, rest).
Proof.
  intros Hn h. pose proof (header_new_ext_flag ft t fin n) as Hext. fold h in Hext.
  assert (Hp : parse (to_bytes h) = Ok h).
  { rewrite <-(app_nil_r (to_bytes h)). unfold h. rewrite parse_to_bytes_new by lia.
    unfold wrap_u32. by rewrite Z.mod_small by lia. }
  assert (Hshape : exists tl, to_bytes h = as_u8 (frame_type h) :: flags h :: tl /\
    length tl = (if is_extended h then 6%nat else 2%nat)).
  { unfold to_bytes. destruct (is_extended h); eexists; (split; [reflexivity |]);
      autorewrite with nps; done. }
  destruct Hshape as (tl & Ht & Hl). exists (as_u8 (frame_type h)), (flags h), tl.
  assert (Hlen : if negb (Z.land (flags h) 0x80 =? 0) then length tl = 6%nat else length tl = 2%nat)
    by (rewrite Hext; unfold h in Hl; cbn in Hl; by destruct (65535 <? n)).
  rewrite <-Ht. split; [done |]. split; [done |]. split; [by rewrite Ht in Hp |- * |].
  unfold read_frame_header. rewrite Ht.
  change ((as_u8 (frame_type h) :: flags h :: tl) ++ rest)
    with ([as_u8 (frame_type h); flags h] ++ (tl ++ rest)).
  rewrite read_exact_app by done. cbn [mbind result_bind nth].
  rewrite read_exact_app by (destruct (negb _); done). cbn [mbind result_bind app].
  rewrite <-Ht, Hp. done.
Qed.

Lemma encode_frame_Ok ft dict tier wire :
  encode_frame ft dict tier = Ok wire ->
  exists payload, encode_tier tier dict = Ok payload /\
    wire = to_bytes (header_new ft tier true (Z.of_nat (length payload))) ++ payload.
Proof.
  unfold encode_frame. intros H. apply result_bind_Ok in H as (p & Hp & H).
  injection H as <-. eauto.
Qed.

Lemma decode_handshake_payload_tier h payload :
  encoding_tier h <> TReserved ->
  decode_handshake_payload h payload = decode_tier (encoding_tier h) payload.
Proof. unfold decode_handshake_payload. by destruct (encoding_tier h). Qed.

Lemma float_free_insert k v m :
  float_free v = true -> float_free (VObject m) = true ->
  float_free (VObject (map_insert k v m)) = true.
Proof.
  intros Hv. cbn. induction m as [|[k' w] m IH]; cbn; intros Hm; [by rewrite Hv |].
  apply andb_true_iff in Hm as [Hw Hm].
  destruct (String.compare k k'); cbn; rewrite ?Hv, ?Hw, ?Hm; cbn; auto.
Qed.

Lemma float_free_insert_opt k o m :
  (forall v, o = Some v -> float_free v = true) -> float_free (VObject m) = true ->
  float_free (VObject (insert_opt k o m)) = true.
Proof. destruct o; cbn [insert_opt]; auto using float_free_insert. Qed.

Lemma float_free_vstrings l : float_free (vstrings l) = true.
Proof. by induction l. Qed.

Lemma float_free_fmap {A} (f : A -> Value) (o : option A) v :
  (forall a, float_free (f a) = true) -> f <$> o = Some v -> float_free v = true.
Proof. intros Hf. destruct o; cbn; intros [= <-]; auto. Qed.

Lemma HelloFrame_float_free f : float_free (VObject (HelloFrame_to_dict f)) = true.
Proof.
  unfold HelloFrame_to_dict. cbv zeta. destruct (0 <? _);
  repeat first [apply float_free_insert | apply float_free_insert_opt
    | intros ? ?; eapply float_free_fmap; [|eassumption]; intros ?
    | apply float_free_vstrings | reflexivity].
Qed.

Lemma HelloFrame_readable f : readable TJson (HelloFrame_to_dict f) = true.
Proof.
  unfold readable. rewrite HelloFrame_float_free. cbn [andb].
  apply (shallow_mono _ 2); [unfold JSON_NESTING; lia |].
  unfold HelloFrame_to_dict. cbv zeta. destruct (0 <? _);
  repeat first [apply shallow_insert | apply shallow_insert_opt
    | intros ? ?; eapply shallow_fmap; [|eassumption]; intros ?
    | apply shallow_vstrings | reflexivity].
Qed.

(** Data a Caps frame may carry on either tier: its elements stand inside the
    object of the frame and an array. *)
Definition plain (n : nat) (v : Value) : bool := float_free v && shallow n v.

Lemma CapsFrame_shallow n f :
  forallb (shallow (S n)) (cf_data f) = true ->
  (forall v, cf_payload f = Some v -> shallow (S (S n)) v = true) ->
  shallow (S (S (S n))) (VObject (CapsFrame_to_dict f)) = true.
Proof.
  intros Hd Hp. unfold CapsFrame_to_dict. cbv zeta.
  destruct (non_empty (cf_caps f)), (is_some (cf_count f) || non_empty (cf_data f));
  repeat first [apply shallow_insert | apply shallow_insert_opt; [exact Hp |]
    | apply shallow_insert_opt
    | intros ? ?; eapply shallow_fmap; [|eassumption]; intros ?
    | apply shallow_vstrings | exact Hd | reflexivity].
Qed.

Lemma CapsFrame_float_free f :
  forallb float_free (cf_data f) = true ->
  (forall v, cf_payload f = Some v -> float_free v = true) ->
  float_free (VObject (CapsFrame_to_dict f)) = true.
Proof.
  intros Hd Hp. unfold CapsFrame_to_dict. cbv zeta.
  destruct (non_empty (cf_caps f)), (is_some (cf_count f) || non_empty (cf_data f));
  repeat first [apply float_free_insert | apply float_free_insert_opt; [exact Hp |]
    | apply float_free_insert_opt
    | intros ? ?; eapply float_free_fmap; [|eassumption]; intros ?
    | apply float_free_vstrings | exact Hd | reflexivity].
Qed.

Lemma CapsFrame_readable tier f :
  tier = TJson \/ tier = TMsgPack ->
  forallb (plain 125) (cf_data f) = true ->
  (forall v, cf_payload f = Some v -> plain 126 v = true) ->
  readable tier (CapsFrame_to_dict f) = true.
Proof.
  intros Ht Hd Hp. assert (Hs : shallow 127 (VObject (CapsFrame_to_dict f)) = true).
  { apply (CapsFrame_shallow 124).
    - revert Hd. rewrite !forallb_forall. intros Hd x Hx. by destruct (andb_prop _ _ (Hd x Hx)).
    - intros v Hv. by destruct (andb_prop _ _ (Hp v Hv)). }
  destruct Ht as [-> | ->]; unfold readable.
  - rewrite CapsFrame_float_free; [done | |].
    + revert Hd. rewrite !forallb_forall. intros Hd x Hx. by destruct (andb_prop _ _ (Hd x Hx)).
    + intros v Hv. by destruct (andb_prop _ _ (Hp v Hv)).
  - apply (shallow_mono _ 127); [unfold MSGPACK_NESTING; lia | done].
Qed.

(** A frame that [encode_frame] wrote is taken off the stream whole. *)
Lemma read_frame {SL : SerdeLaws} ft dict tier wire rest :
  readable tier dict = true ->
  Z.of_nat (length wire) < 4294967296 ->
  encode_frame ft dict tier = Ok wire ->
  exists payload, let h := header_new ft tier true (Z.of_nat (length payload)) in
    wire = to_bytes h ++ payload /\
    read_frame_header (wire ++ rest) = Ok (h, to_bytes h, payload ++ rest) /\
    read_payload (payload ++ rest) (payload_length h) = Ok (payload, rest) /\
    decode_handshake_payload h payload = Ok dict /\
    decode_tier tier payload = Ok dict.
Proof.
  intros Ht Hlen He. apply encode_frame_Ok in He as (p & Hp & ->).
  exists p. set (h := header_new _ _ _ _). cbn zeta. rewrite length_app, Nat2Z.inj_add in Hlen.
  destruct (read_header_new ft tier true (Z.of_nat (length p)) (p ++ rest))
    as (b0 & b1 & tl & _ & _ & _ & Hr); [lia |]. fold h in Hr.
  assert (Htier : encoding_tier h = tier) by apply header_new_tier.
  pose proof (tier_roundtrip tier dict p Ht Hp) as Hd.
  split; [done |]. split; [by rewrite <-app_assoc |].
  split; [unfold read_payload; apply read_exact_app; cbn; lia |].
  split; [|done].
  rewrite decode_handshake_payload_tier; rewrite Htier; [done |].
  by destruct tier.
Qed.

(** [recv_frame] reads the header byte by byte; on a stream that starts with
    a whole header this is [read_frame_header]. *)
Lemma recv_frame_header s h rest :
  (forall b0 b1 tl, to_bytes h = b0 :: b1 :: tl ->
     length tl = if negb (Z.land b1 0x80 =? 0) then 6%nat else 2%nat) ->
  (2 <= length (to_bytes h))%nat -> parse (to_bytes h) = Ok h ->
  ses_in s = to_bytes h ++ rest ->
  recv_frame s =
    _ ← ensure_allows (ses_policy s) h;
    '(payload, input) ← read_payload rest (payload_length h);
    dict ← decode_handshake_payload h payload;
    Ok (Some (frame_type h, dict), mkSession input (ses_out s) (ses_server_caps s) (ses_policy s)).
Proof.
  intros Hshape Hlen Hp Hin. unfold recv_frame. rewrite Hin.
  destruct (to_bytes h) as [|b0 [|b1 tl]]; cbn in Hlen; [lia | lia |].
  specialize (Hshape b0 b1 tl eq_refl).
  change ((b0 :: b1 :: tl) ++ rest) with ([b0] ++ [b1] ++ (tl ++ rest)).
  rewrite read_exact_app by done. rewrite read_exact_app by done. cbn [mbind result_bind nth].
  rewrite read_exact_app by done. cbn [mbind result_bind app]. rewrite Hp. done.
Qed.

Lemma recv_frame_sent {SL : SerdeLaws} s ft dict tier wire rest :
  readable tier dict = true ->
  Z.of_nat (length wire) < 4294967296 ->
  encode_frame ft dict tier = Ok wire ->
  (forall h, parse wire = Ok h -> ensure_allows (ses_policy s) h = Ok tt) ->
  ses_in s = wire ++ rest ->
  recv_frame s = Ok (Some (ft, dict),
    mkSession rest (ses_out s) (ses_server_caps s) (ses_policy s)).
Proof.
  intros Ht Hlen He Hal Hin.
  destruct (read_frame ft dict tier wire rest Ht Hlen He) as (p & Hw & _ & Hpay & Hd & _).
  set (h := header_new ft tier true (Z.of_nat (length p))) in *.
  rewrite Hw, length_app, Nat2Z.inj_add in Hlen.
  destruct (read_header_new ft tier true (Z.of_nat (length p)) (p ++ rest))
    as (b0 & b1 & tl & Htb & Htl & Hparse & _); [lia |]. fold h in Htb, Hparse.
  rewrite (recv_frame_header s h (p ++ rest)).
  - rewrite Hal; [|].
    + cbn [mbind result_bind]. rewrite Hpay. cbn [mbind result_bind]. by rewrite Hd.
    + rewrite Hw. unfold h. rewrite parse_to_bytes_new by lia. unfold h, header_new, wrap_u32.
      by rewrite Z.mod_small by lia.
  - intros c0 c1 tl' E. rewrite Htb in E. injection E as <- <- <-.
    by destruct (negb _).
  - rewrite Htb. cbn. lia.
  - by rewrite Htb.
  - by rewrite Hin, Hw, <-app_assoc.
Qed.

(** ** Properties *)

(** A sequence of sends, and reads until the clean end of file. *)
Fixpoint send_all (s : NcpSession) (items : list (FrameType * FrameDict * EncodingTier))
    : NpsResult NcpSession :=
  match items with
  | [] => Ok s
  | (ft, dict, tier) :: rest => s' ← send_frame s ft dict tier; send_all s' rest
  end.

Fixpoint recv_all (fuel : nat) (s : NcpSession) : NpsResult (list (FrameType * FrameDict)) :=
  match fuel with
  | O => Ok []
  | S fuel =>
    '(frame, s') ← recv_frame s;
    match frame with
    | None => Ok []
    | Some fr => rest ← recv_all fuel s'; Ok (fr :: rest)
    end
  end.

Definition sendable (item : FrameType * FrameDict * EncodingTier) : Prop :=
  readable item.2 item.1.2 = true /\
  forall wire, encode_frame item.1.1 item.1.2 item.2 = Ok wire ->
    Z.of_nat (length wire) < 4294967296.

(** C27: a session is a faithful channel: whatever sequence of frames one end
    sends under the negotiated policy, the other end, holding the same policy,
    receives exactly those frames in that order and then the clean end of
    file, provided each frame is one the readers read back: a JSON frame
    without floating-point numbers and nested at most 127 deep or a MessagePack
    frame nested at most 1023 deep, of less than 2^32 bytes on the wire. *)
Theorem session_stream {SL : SerdeLaws} items s s' :
  Forall sendable items -> send_all s items = Ok s' ->
  exists wire, ses_out s' = ses_out s ++ wire /\
    forall r fuel, ses_in r = wire -> ses_policy r = ses_policy s ->
      (length items < fuel)%nat -> recv_all fuel r = Ok (map fst items).
Proof.
  intros Hs; revert s. induction Hs as [|[[ft dict] tier] items [Ht Hlen] Hs IH];
    intros s Hsend; cbn [send_all] in Hsend.
  - injection Hsend as <-. exists []. rewrite app_nil_r. split; [done |].
    intros r [|fuel] Hin _ ?; [done |]. cbn. unfold recv_frame. by rewrite Hin.
  - apply result_bind_Ok in Hsend as (s1 & H1 & Hsend).
    unfold send_frame in H1. apply result_bind_Ok in H1 as (wire & He & H1).
    apply result_bind_Ok in H1 as (h & Hh & H1). apply result_bind_Ok in H1 as ([] & Hal & H1).
    injection H1 as <-.
    destruct (IH _ Hsend) as (w & Hout & IH'). cbn in Hout, IH'. exists (wire ++ w).
    split; [by rewrite Hout, app_assoc |].
    intros r [|fuel] Hin Hpol Hfuel; [cbn in Hfuel; lia |]. cbn [recv_all].
    rewrite (recv_frame_sent r ft dict tier wire w Ht (Hlen _ He) He);
      [| intros h' Hh'; rewrite Hpol; congruence | done].
    cbn [mbind result_bind]. rewrite IH'; [done | done | done | cbn in Hfuel; lia].
Qed.

Lemma client_finish_frame {SL : SerdeLaws} ft dict tier wire written tail :
  readable tier dict = true ->
  Z.of_nat (length wire) < 4294967296 -> encode_frame ft dict tier = Ok wire ->
  (ft = Error -> client_finish written (wire ++ tail) =
     (err ← map_err CNps (ErrorFrame_from_dict dict);
      Err (CHandshake (mkHandshakeError (ef_error_code err) (ef_message err))))) /\
  (ft = Caps -> client_finish written (wire ++ tail) =
     (caps ← map_err CNps (CapsFrame_from_dict dict);
      Ok (mkSession tail written caps
            (from_enabled_encodings tier (cf_enabled_encodings caps))))).
Proof.
  intros Ht Hlen He.
  destruct (read_frame ft dict tier wire tail Ht Hlen He) as (p & _ & Hh & Hp & Hd & _).
  split; intros ->; unfold client_finish; rewrite Hh; cbn [map_err mbind result_bind];
    rewrite Hp; cbn [map_err mbind result_bind]; rewrite Hd, ?header_new_tier;
    cbn [frame_type header_new]; by rewrite ?bool_decide_eq_true_2, ?bool_decide_eq_false_2 by done.
Qed.

(** The server reads exactly the Hello the client wrote. *)
Lemma accept_connection_request {SL : SerdeLaws} o hello req extra :
  0 <= hf_ping_interval_ms hello -> 0 <= so_hello_read_timeout o ->
  client_request hello = Ok req ->
  Z.of_nat (length req) - 12 <= Z.min 0xFFFF (so_max_hello_payload o) ->
  accept_connection o (req ++ extra) = Ok (mkConnection extra hello (so_handshake_profile o)).
Proof.
  intros Hping Hto Hreq Hlen. unfold client_request in Hreq.
  apply result_bind_Ok in Hreq as (wire & He & Hreq).
  assert (req = PREAMBLE_BYTES ++ wire) as -> by congruence. clear Hreq.
  rewrite length_app in Hlen. change (length PREAMBLE_BYTES) with 8%nat in Hlen.
  destruct (read_frame Hello (HelloFrame_to_dict hello) TJson wire extra) as
    (p & Hw & Hh & Hp & _ & Hd); [apply HelloFrame_readable | lia | done |].
  set (h := header_new _ _ _ _) in *.
  assert (Hpl : Z.of_nat (length p) <= 65535 /\ Z.of_nat (length p) <= so_max_hello_payload o).
  { rewrite Hw, length_app, to_bytes_length in Hlen.
    assert (4 <= header_size h)%nat by (unfold header_size; destruct (is_extended h); lia). lia. }
  unfold accept_connection. rewrite <-app_assoc, read_exact_app by done.
  cbn [mbind result_bind]. replace (preamble_validate PREAMBLE_BYTES) with (Ok (E := NpsError) tt)
    by (symmetry; vm_compute; reflexivity).
  cbn [mbind result_bind]. rewrite Hh. cbn [mbind result_bind].
  assert (Hcont : hd_action (evaluate_hello_header h 0 (so_hello_read_timeout o)
                    (so_max_hello_payload o)) = Continue).
  { unfold evaluate_hello_header.
    replace (negb (so_hello_read_timeout o =? 0) && (so_hello_read_timeout o <=? 0)) with false by lia.
    assert (Hx : (65535 <? Z.of_nat (length p)) = false) by lia.
    assert (Hy : (so_max_hello_payload o <? Z.of_nat (length p)) = false) by lia.
    unfold h, header_new, encoding_tier. cbn. rewrite Hx, Hy. done. }
  rewrite Hcont, bool_decide_eq_true_2 by done. cbn [negb].
  rewrite Hp. cbn [mbind result_bind]. change (decode_json p) with (decode_tier TJson p).
  rewrite Hd. cbn [mbind result_bind]. rewrite HelloFrame_roundtrip by done. done.
Qed.

(** C32: the handshake is an agreement, provided that the Hello with its header
    is no longer than 65535 bytes and the server's own limit, that the server's
    Caps data and payload hold no floating-point number and nest at most 125
    and 126 deep, and that the reply is written and below 2^32 bytes.  The
    server reads back the Hello the client wrote and keeps the bytes that
    follow it.  If it accepts, the client ends with the server's encoding
    policy and capabilities, with the stream just after the Caps frame; if it
    refuses, the client reports the error code the negotiation chose. *)
Theorem handshake_agreement {SL : SerdeLaws} o hello req extra caps :
  0 <= hf_ping_interval_ms hello -> 0 <= so_hello_read_timeout o ->
  client_request hello = Ok req ->
  Z.of_nat (length req) - 12 <= Z.min 0xFFFF (so_max_hello_payload o) ->
  forallb (plain 125) (cf_data caps) = true ->
  (forall v, cf_payload caps = Some v -> plain 126 v = true) ->
  exists conn, accept_connection o (req ++ extra) = Ok conn /\
    conn_client_hello conn = hello /\ conn_in conn = extra /\
    let d := negotiate_handshake (so_handshake_profile o) hello in
    forall wire r tail, accept conn caps = (wire, r) ->
      0 < Z.of_nat (length wire) < 4294967296 ->
      match r with
      | Ok s => hd_action d = Accept /\ ses_in s = extra /\
          exists c, client_finish req (wire ++ tail) = Ok c /\
            ses_policy c = ses_policy s /\ ses_in c = tail /\
            ses_server_caps c = caps_counted (ses_server_caps s)
      | Err _ => hd_action d <> Accept /\
          client_finish req (wire ++ tail) = Err (CHandshake (mkHandshakeError
            (default "NCP-VERSION-INCOMPATIBLE" (hd_error d))
            "Native NCP handshake negotiation failed."))
      end.
Proof.
  intros Hping Hto Hreq Hlen Hdata Hpay.
  exists (mkConnection extra hello (so_handshake_profile o)).
  split; [by apply accept_connection_request | split; [done | split; [done |]]].
  intros d wire r tail. unfold accept. cbn [conn_handshake_profile conn_client_hello]. fold d.
  case_bool_decide as Ha; cbn [negb].
  - set (tier := if bool_decide (hd_negotiated_encoding d = Some "msgpack") then TMsgPack else TJson).
    set (caps' := caps_with_negotiation caps d).
    destruct (encode_frame Caps (CapsFrame_to_dict caps') tier) as [w|e] eqn:He; cbn;
      intros [= <- <-] Hw; [|cbn in Hw; lia].
    split; [done | split; [done |]].
    assert (Ht : readable tier (CapsFrame_to_dict caps') = true).
    { apply CapsFrame_readable; [unfold tier; case_bool_decide; auto | done | done]. }
    destruct (client_finish_frame Caps _ tier w req tail Ht (proj2 Hw) He) as [_ Hc].
    rewrite Hc, CapsFrame_roundtrip by done. cbn [map_err mbind result_bind].
    eexists. split; [done |]. cbn. done.
  - unfold reject. set (err := mkErrorFrame _ _ _).
    destruct (encode_frame Error (ErrorFrame_to_dict err) TJson) as [w|e] eqn:He;
      intros [= <- <-] Hw; [|cbn in Hw; lia].
    split; [done |].
    destruct (client_finish_frame Error (ErrorFrame_to_dict err) TJson w req tail) as [Hc _];
      [by vm_compute | lia | done |].
    rewrite Hc, ErrorFrame_roundtrip by done. done.
Qed.

End transport.

(** ** Witnesses *)

Definition session_tbl : list Value :=
  [VObject (HelloFrame_to_dict sample_hello);
   VObject [("k", VNumber (PosInt 3))]; VObject [("done", VBool true)];
   VObject (CapsFrame_to_dict (caps_with_negotiation (CapsFrame_new "sha256:00" [VNull])
     (negotiate_handshake profile_default sample_hello)))].

Lemma session_stream_witness :
  let SC := table_codec session_tbl in
  let s0 := mkSession [] [] (CapsFrame_new "a" []) (with_binary_vector TMsgPack false) in
  let items := [(Query, [("k", VNumber (PosInt 3))], TMsgPack);
                (Stream, [("done", VBool true)], TMsgPack)] in
  exists wire, wire = [0x10; 5; 0; 1; 1; 0x03; 5; 0; 1; 2] /\
    recv_all "eof" 3 (mkSession wire [] (CapsFrame_new "b" []) (with_binary_vector TMsgPack false))
    = Ok (map fst items).
Proof.
  intros SC s0 items.
  destruct (@session_stream SC "eof" (table_laws session_tbl) items s0
    (mkSession [] [0x10; 5; 0; 1; 1; 0x03; 5; 0; 1; 2] (CapsFrame_new "a" [])
       (with_binary_vector TMsgPack false))) as (w & Hw & H).
  - apply Forall_cons; split; [|apply Forall_cons; split; [|by apply Forall_nil]];
      (split; [vm_compute; reflexivity |]); intros wire Hw;
      apply encode_frame_Ok in Hw as (p & Hp & ->); vm_compute in Hp; injection Hp as <-;
      vm_compute; done.
  - vm_compute. reflexivity.
  - exists w. cbn in Hw. split; [by symmetry |]. subst w. apply H; [done | done | cbn; lia].
Defined.

Lemma handshake_agreement_witness :
  let SC := table_codec session_tbl in
  exists req conn, client_request sample_hello = Ok req /\
    accept_connection "eof" server_options_default (req ++ [42]) = Ok conn /\
    conn_client_hello conn = sample_hello /\ conn_in conn = [42] /\
    exists wire s c, accept conn (CapsFrame_new "sha256:00" [VNull]) = (wire, Ok s) /\
      client_finish "eof" req (wire ++ [43]) = Ok c /\ ses_policy c = ses_policy s /\
      ses_policy s = with_binary_vector TJson true.
Proof.
  intros SC. eexists. 
  destruct (@handshake_agreement SC "eof" (table_laws session_tbl) server_options_default
    sample_hello _ [42] (CapsFrame_new "sha256:00" [VNull]) ltac:(done) ltac:(done)
    ltac:(vm_compute; reflexivity) ltac:(done) ltac:(done) ltac:(intros v Hv; discriminate Hv))
    as (conn & Hc & Hh & Hin & H).
  exists conn. split; [vm_compute; reflexivity |]. split; [exact Hc |]. split; [done |].
  split; [done |].
  assert (Hconn : conn = mkConnection [42] sample_hello profile_default).
  { vm_compute in Hc. injection Hc as <-. vm_compute. reflexivity. }
  subst conn. cbn zeta in H.
  assert (Hacc : exists wire s, accept (mkConnection [42] sample_hello profile_default)
      (CapsFrame_new "sha256:00" [VNull]) = (wire, Ok s) /\ 0 < Z.of_nat (length wire) < 4294967296 /\
      ses_policy s = with_binary_vector TJson true)
    by (eexists _, _; split; [vm_compute; reflexivity | split; [done | vm_compute; reflexivity]]).
  destruct Hacc as (wire & s & Ha & Hlen & Hp).
  destruct (H wire (Ok s) [43] Ha Hlen) as (_ & _ & c & Hcf & Hpol & _).
  exists wire, s, c. auto.
Defined.
