(* ===== verification/NcpFailover.v ===== *)
(** * NcpFailover: reconnecting across an Anchor failover

    Models nps-ncp/src/failover.rs.  The injected closures act on a world
    [W], which they may change: the resolver may answer differently each
    time it is asked. *)

From S2P Require Import Prelude RustStr.
Local Open Scope Z_scope.

Definition DEFAULT_MAX_ATTEMPTS : Z := 2.

Inductive FailoverConfigError : Type :=
| MaxAttemptsTooSmall (n : Z).

Inductive FailoverError (E : Type) : Type :=
| Exhausted (e : E)
| Resolve (e : E).
Arguments Exhausted {E} e.
Arguments Resolve {E} e.

Definition into_inner {E} (f : FailoverError E) : E :=
  match f with Exhausted e | Resolve e => e end.

Section failover.
Context {W S E : Type}.

Record NcpFailoverConnector : Type := mkConnector {
  resolve_active : W -> result E (string * Z) * W;
  connect_fn : string -> Z -> W -> result E S * W;
  is_failover_shaped : E -> bool;
  max_attempts : Z
}.

Definition with_max_attempts (r : W -> result E (string * Z) * W)
    (c : string -> Z -> W -> result E S * W) (m : E -> bool) (n : Z)
    : result FailoverConfigError NcpFailoverConnector :=
  if n <? 1 then Err (MaxAttemptsTooSmall n) else Ok (mkConnector r c m n).

Definition connector_new (r : W -> result E (string * Z) * W)
    (c : string -> Z -> W -> result E S * W) (m : E -> bool)
    : result FailoverConfigError NcpFailoverConnector :=
  with_max_attempts r c m DEFAULT_MAX_ATTEMPTS.

(** The [for _ in 0..self.max_attempts] loop; [None] is the panic of
    [last.expect]. *)
Fixpoint connect_loop (k : NcpFailoverConnector) (n : nat) (last : option E) (w : W)
    : option (result (FailoverError E) S * W) :=
  match n with
  | O => e ← last; Some (Err (Exhausted e), w)
  | Datatypes.S n =>
    match resolve_active k w with
    | (Err e, w) => Some (Err (Resolve e), w)
    | (Ok (host, port), w) =>
      match connect_fn k host port w with
      | (Ok session, w) => Some (Ok session, w)
      | (Err e, w) =>
        if is_failover_shaped k e then connect_loop k n (Some e) w
        else Some (Err (Exhausted e), w)
      end
    end
  end.

Definition connect (k : NcpFailoverConnector) (w : W) : option (result (FailoverError E) S * W) :=
  connect_loop k (Z.to_nat (max_attempts k)) None w.

(** ** Specification

    [failed k w n e w']: [n] attempts from [w], each resolving the Anchor
    afresh and failing in a failover-shaped way, the last with [e]. *)
Inductive failed (k : NcpFailoverConnector) : W -> nat -> option E -> W -> Prop :=
| failed_none w : failed k w 0 None w
| failed_more w n o w1 host port w2 e w3 :
    failed k w n o w1 ->
    resolve_active k w1 = (Ok (host, port), w2) ->
    connect_fn k host port w2 = (Err e, w3) ->
    is_failover_shaped k e = true ->
    failed k w (Datatypes.S n) (Some e) w3.

(** What ends the loop after [n] such attempts. *)
Inductive outcome (k : NcpFailoverConnector) (max : nat) (w : W)
    : result (FailoverError E) S -> W -> Prop :=
| out_session n o w1 host port w2 s w3 :
    failed k w n o w1 -> (n < max)%nat ->
    resolve_active k w1 = (Ok (host, port), w2) -> connect_fn k host port w2 = (Ok s, w3) ->
    outcome k max w (Ok s) w3
| out_resolve n o w1 e w2 :
    failed k w n o w1 -> (n < max)%nat -> resolve_active k w1 = (Err e, w2) ->
    outcome k max w (Err (Resolve e)) w2
| out_other n o w1 host port w2 e w3 :
    failed k w n o w1 -> (n < max)%nat ->
    resolve_active k w1 = (Ok (host, port), w2) -> connect_fn k host port w2 = (Err e, w3) ->
    is_failover_shaped k e = false ->
    outcome k max w (Err (Exhausted e)) w3
| out_exhausted e w1 :
    failed k w max (Some e) w1 -> outcome k max w (Err (Exhausted e)) w1.

Lemma connect_loop_spec k max w n o w1 :
  failed k w (max - n) o w1 -> (n <= max)%nat -> (n = 0 -> o <> None)%nat ->
  exists r w', connect_loop k n o w1 = Some (r, w') /\ outcome k max w r w'.
Proof.
  revert o w1. induction n as [|n IH]; intros o w1 Hf Hn Ho; cbn.
  - destruct o as [e|]; [|by destruct (Ho eq_refl)].
    rewrite Nat.sub_0_r in Hf. eexists _, _. split; [done | by apply out_exhausted].
  - destruct (resolve_active k w1) as [[[host port]|e] w2] eqn:Hr;
      [| eexists _, _; split; [done | eapply out_resolve; [done | lia | done]]].
    destruct (connect_fn k host port w2) as [[s|e] w3] eqn:Hc;
      [eexists _, _; split; [done | eapply out_session; [done | lia | done | done]] |].
    destruct (is_failover_shaped k e) eqn:He;
      [| eexists _, _; split; [done | eapply out_other; [done | lia | done | done | done]]].
    apply IH; [| lia | done].
    replace (max - n)%nat with (Datatypes.S (max - Datatypes.S n)) by lia.
    by eapply failed_more.
Qed.

(** [connect] on a connector that construction accepted never panics:
    it resolves afresh before every attempt, stops at the first session, the
    first resolution error or the first error that is not failover-shaped,
    and after [max_attempts] failover-shaped failures returns the last. *)
Theorem connect_outcome r c m n k w :
  with_max_attempts r c m n = Ok k ->
  exists res w', connect k w = Some (res, w') /\ outcome k (Z.to_nat n) w res w'.
Proof.
  unfold with_max_attempts, connect. split_if; [done |]. intros [= <-]. cbn [max_attempts].
  apply connect_loop_spec; [|lia|lia].
  rewrite Nat.sub_diag. constructor.
Qed.

End failover.

Arguments NcpFailoverConnector : clear implicits.

(** [is_nid_mismatch]. *)
Definition NID_MISMATCH : string := "NCP-NID-MISMATCH".
Definition is_nid_mismatch (code : string) : bool := String.eqb code NID_MISMATCH.

(** ** Witness: the successor is found on the second resolution *)

Definition two_anchors (w : nat) : result string (string * Z) * nat :=
  (Ok (match w with O => ("old-anchor", 17433) | _ => ("new-anchor", 17433) end), S w).
Definition connect_new (host : string) (port : Z) (w : nat) : result string string * nat :=
  if String.eqb host "old-anchor" then (Err NID_MISMATCH, w) else (Ok host, w).

Lemma connect_outcome_witness :
  exists k, connector_new two_anchors connect_new is_nid_mismatch = Ok k /\
    connect k 0%nat = Some (Ok "new-anchor", 2%nat) /\
    outcome k 2 0%nat (Ok "new-anchor") 2%nat.
Proof.
  eexists. split; [reflexivity |].
  split; [reflexivity |].
  destruct (connect_outcome two_anchors connect_new is_nid_mismatch 2 _ 0%nat eq_refl)
    as (res & w' & H & Ho).
  assert (E : connect (mkConnector two_anchors connect_new is_nid_mismatch 2) 0%nat
              = Some (Ok "new-anchor", 2%nat)) by reflexivity.
  rewrite E in H. injection H as <- <-. exact Ho.
Defined.
