(* ===== verification/NopFrames.v ===== *)
(** * NopFrames: the NOP frames on the wire

    Models nps-nop/src/frames.rs: the four frames of the orchestration
    protocol and their dictionaries.  The accessors [get_str], [opt_str] and
    [opt_u64] are those of NcpFrames, which the crate repeats. *)

From S2P Require Import Prelude RustStr Floats Json CoreFrames NcpFrames.
Local Open Scope Z_scope.

Definition opt_i64 (d : FrameDict) (k : string) : option Z := map_get k d ≫= as_i64.

(** [json!(v)] for an [i64]. *)
Definition vint (n : Z) : Value := VNumber (if 0 <=? n then PosInt n else NegInt n).

Definition i64_range (n : Z) : Prop := i64_min <= n <= i64_max.

(** ** TaskFrame *)

Record TaskFrame : Type := mkTaskFrame {
  tf_task_id : string;
  tf_dag : Value;
  tf_timeout_ms : option Z;
  tf_callback_url : option string;
  tf_context : option Value;
  tf_priority : option string;
  tf_depth : option Z;
  tf_compensation_policy : option string;
  tf_result_ttl_seconds : Z
}.

Definition TaskFrame_to_dict (f : TaskFrame) : FrameDict :=
  let m := map_insert "task_id" (VString (tf_task_id f)) [] in
  let m := map_insert "dag" (tf_dag f) m in
  let m := insert_opt "timeout_ms" (vnat <$> tf_timeout_ms f) m in
  let m := insert_opt "callback_url" (VString <$> tf_callback_url f) m in
  let m := insert_opt "context" (tf_context f) m in
  let m := insert_opt "priority" (VString <$> tf_priority f) m in
  let m := insert_opt "depth" (vint <$> tf_depth f) m in
  let m := insert_opt "compensation_policy" (VString <$> tf_compensation_policy f) m in
  if negb (tf_result_ttl_seconds f =? 3600)
  then map_insert "result_ttl_seconds" (vnat (tf_result_ttl_seconds f)) m else m.

Definition TaskFrame_from_dict (d : FrameDict) : NpsResult TaskFrame :=
  task_id ← get_str d "task_id";
  Ok (mkTaskFrame task_id (default VNull (map_get "dag" d)) (opt_u64 d "timeout_ms")
        (opt_str d "callback_url") (map_get "context" d) (opt_str d "priority")
        (opt_i64 d "depth") (opt_str d "compensation_policy")
        (default 3600 (opt_u64 d "result_ttl_seconds"))).

(** ** DelegateFrame *)

Record DelegateFrame : Type := mkDelegateFrame {
  dl_task_id : string;
  dl_subtask_id : string;
  dl_action : string;
  dl_target_nid : string;
  dl_inputs : option Value;
  dl_config : option Value;
  dl_idempotency_key : option string;
  dl_target_cluster_anchor : option string
}.

Definition DelegateFrame_to_dict (f : DelegateFrame) : FrameDict :=
  let m := map_insert "parent_task_id" (VString (dl_task_id f)) [] in
  let m := map_insert "subtask_id" (VString (dl_subtask_id f)) m in
  let m := map_insert "action" (VString (dl_action f)) m in
  let m := map_insert "target_agent_nid" (VString (dl_target_nid f)) m in
  let m := insert_opt "inputs" (dl_inputs f) m in
  let m := insert_opt "config" (dl_config f) m in
  let m := insert_opt "idempotency_key" (VString <$> dl_idempotency_key f) m in
  insert_opt "target_cluster_anchor" (VString <$> dl_target_cluster_anchor f) m.

(** The keys of the protocol first, then those of the old wire format. *)
Definition get_str_or (d : FrameDict) (k old : string) : NpsResult string :=
  match opt_str d k with Some v => Ok v | None => get_str d old end.

Definition DelegateFrame_from_dict (d : FrameDict) : NpsResult DelegateFrame :=
  task_id ← get_str_or d "parent_task_id" "task_id";
  target_nid ← get_str_or d "target_agent_nid" "target_nid";
  subtask_id ← get_str d "subtask_id";
  action ← get_str d "action";
  Ok (mkDelegateFrame task_id subtask_id action target_nid (map_get "inputs" d)
        (map_get "config" d) (opt_str d "idempotency_key") (opt_str d "target_cluster_anchor")).

(** ** SyncFrame *)

Record SyncFrame : Type := mkSyncFrame {
  sy_task_id : string;
  sy_sync_id : string;
  sy_subtask_ids : list string;
  sy_min_required : Z;
  sy_aggregate : string;
  sy_timeout_ms : option Z
}.

Definition SyncFrame_to_dict (f : SyncFrame) : FrameDict :=
  let m := map_insert "task_id" (VString (sy_task_id f)) [] in
  let m := map_insert "sync_id" (VString (sy_sync_id f)) m in
  let m := map_insert "subtask_ids" (vstrings (sy_subtask_ids f)) m in
  let m := map_insert "min_required" (vint (sy_min_required f)) m in
  let m := map_insert "aggregate" (VString (sy_aggregate f)) m in
  insert_opt "timeout_ms" (vnat <$> sy_timeout_ms f) m.

Definition SyncFrame_from_dict (d : FrameDict) : NpsResult SyncFrame :=
  task_id ← get_str d "task_id";
  sync_id ← get_str d "sync_id";
  Ok (mkSyncFrame task_id sync_id (default [] (opt_strings d "subtask_ids"))
        (default 0 (opt_i64 d "min_required")) (default "merge" (opt_str d "aggregate"))
        (opt_u64 d "timeout_ms")).

(** ** AlignStreamFrame *)

Record AlignStreamFrame : Type := mkAlignStreamFrame {
  as_sync_id : string;
  as_task_id : string;
  as_subtask_id : string;
  as_seq : Z;
  as_is_final : bool;
  as_source_nid : option string;
  as_result : option Value;
  as_error : option Value;
  as_window_size : option Z;
  as_ack_seq : option Z;
  as_nak_seq : option Z
}.

Definition align_error_code (f : AlignStreamFrame) : option string :=
  as_error f ≫= (fun e => vget "error_code" e ≫= as_str).
Definition align_error_message (f : AlignStreamFrame) : option string :=
  as_error f ≫= (fun e => vget "message" e ≫= as_str).

Definition AlignStreamFrame_to_dict (f : AlignStreamFrame) : FrameDict :=
  let m := map_insert "sync_id" (VString (as_sync_id f)) [] in
  let m := map_insert "task_id" (VString (as_task_id f)) m in
  let m := map_insert "subtask_id" (VString (as_subtask_id f)) m in
  let m := map_insert "seq" (vnat (as_seq f)) m in
  let m := map_insert "is_final" (VBool (as_is_final f)) m in
  let m := insert_opt "source_nid" (VString <$> as_source_nid f) m in
  let m := insert_opt "result" (as_result f) m in
  let m := insert_opt "error" (as_error f) m in
  let m := insert_opt "window_size" (vnat <$> as_window_size f) m in
  let m := insert_opt "ack_seq" (vnat <$> as_ack_seq f) m in
  insert_opt "nak_seq" (vnat <$> as_nak_seq f) m.

Definition AlignStreamFrame_from_dict (d : FrameDict) : NpsResult AlignStreamFrame :=
  sync_id ← get_str d "sync_id";
  task_id ← get_str d "task_id";
  subtask_id ← get_str d "subtask_id";
  Ok (mkAlignStreamFrame sync_id task_id subtask_id (default 0 (opt_u64 d "seq"))
        (default false (opt_bool d "is_final")) (opt_str d "source_nid") (map_get "result" d)
        (map_get "error" d) (opt_u64 d "window_size") (opt_u64 d "ack_seq")
        (opt_u64 d "nak_seq")).

(** ** Round trips *)

Lemma vint_back n : i64_range n -> as_i64 (vint n) = Some n.
Proof.
  intros [Hl Hu]. unfold vint, as_i64. cbn. destruct (Z.leb_spec 0 n); cbn; [|done].
  by destruct (Z.leb_spec n i64_max); [|lia].
Qed.

Lemma opt_i64_back (o : option Z) :
  (forall n, o = Some n -> i64_range n) -> (vint <$> o) ≫= as_i64 = o.
Proof. destruct o as [n|]; [|done]. intros H. apply vint_back. auto. Qed.

Lemma TaskFrame_roundtrip f :
  (forall n, tf_depth f = Some n -> i64_range n) ->
  TaskFrame_from_dict (TaskFrame_to_dict f) = Ok f.
Proof.
  intros Hd.
  assert (E : TaskFrame_to_dict f = dict_of
    [("task_id", Some (VString (tf_task_id f))); ("dag", Some (tf_dag f));
     ("timeout_ms", vnat <$> tf_timeout_ms f); ("callback_url", VString <$> tf_callback_url f);
     ("context", tf_context f); ("priority", VString <$> tf_priority f);
     ("depth", vint <$> tf_depth f);
     ("compensation_policy", VString <$> tf_compensation_policy f);
     ("result_ttl_seconds", if negb (tf_result_ttl_seconds f =? 3600)
                            then Some (vnat (tf_result_ttl_seconds f)) else None)])
    by (unfold TaskFrame_to_dict; by destruct (negb _)).
  unfold TaskFrame_from_dict, opt_i64. frame_roundtrip E. rewrite opt_i64_back by done.
  destruct f; cbn in *. destruct (Z.eqb_spec tf_result_ttl_seconds0 3600); cbn; by subst.
Qed.

Lemma DelegateFrame_roundtrip f : DelegateFrame_from_dict (DelegateFrame_to_dict f) = Ok f.
Proof.
  assert (E : DelegateFrame_to_dict f = dict_of
    [("parent_task_id", Some (VString (dl_task_id f)));
     ("subtask_id", Some (VString (dl_subtask_id f))); ("action", Some (VString (dl_action f)));
     ("target_agent_nid", Some (VString (dl_target_nid f))); ("inputs", dl_inputs f);
     ("config", dl_config f); ("idempotency_key", VString <$> dl_idempotency_key f);
     ("target_cluster_anchor", VString <$> dl_target_cluster_anchor f)]) by done.
  unfold DelegateFrame_from_dict, get_str_or. frame_roundtrip E. by destruct f.
Qed.

Lemma SyncFrame_roundtrip f :
  i64_range (sy_min_required f) -> SyncFrame_from_dict (SyncFrame_to_dict f) = Ok f.
Proof.
  intros Hm.
  assert (E : SyncFrame_to_dict f = dict_of
    [("task_id", Some (VString (sy_task_id f))); ("sync_id", Some (VString (sy_sync_id f)));
     ("subtask_ids", Some (vstrings (sy_subtask_ids f)));
     ("min_required", Some (vint (sy_min_required f)));
     ("aggregate", Some (VString (sy_aggregate f)));
     ("timeout_ms", vnat <$> sy_timeout_ms f)]) by done.
  unfold SyncFrame_from_dict, opt_i64. frame_roundtrip E. rewrite vint_back by done.
  by destruct f.
Qed.

Lemma AlignStreamFrame_roundtrip f :
  AlignStreamFrame_from_dict (AlignStreamFrame_to_dict f) = Ok f.
Proof.
  assert (E : AlignStreamFrame_to_dict f = dict_of
    [("sync_id", Some (VString (as_sync_id f))); ("task_id", Some (VString (as_task_id f)));
     ("subtask_id", Some (VString (as_subtask_id f))); ("seq", Some (vnat (as_seq f)));
     ("is_final", Some (VBool (as_is_final f))); ("source_nid", VString <$> as_source_nid f);
     ("result", as_result f); ("error", as_error f); ("window_size", vnat <$> as_window_size f);
     ("ack_seq", vnat <$> as_ack_seq f); ("nak_seq", vnat <$> as_nak_seq f)]) by done.
  unfold AlignStreamFrame_from_dict. frame_roundtrip E. by destruct f.
Qed.

(** Every NOP frame survives its dictionary, its signed integers being
    [i64] values; and a Delegate frame written with the keys of the old wire
    format reads as the one with the protocol's keys. *)
Theorem nop_frames_roundtrip :
  (forall f, (forall n, tf_depth f = Some n -> i64_range n) ->
     TaskFrame_from_dict (TaskFrame_to_dict f) = Ok f) /\
  (forall f, DelegateFrame_from_dict (DelegateFrame_to_dict f) = Ok f) /\
  (forall f, i64_range (sy_min_required f) -> SyncFrame_from_dict (SyncFrame_to_dict f) = Ok f) /\
  (forall f, AlignStreamFrame_from_dict (AlignStreamFrame_to_dict f) = Ok f) /\
  (forall task_id target_nid subtask_id action,
     DelegateFrame_from_dict (map_collect
       [("task_id", VString task_id); ("target_nid", VString target_nid);
        ("subtask_id", VString subtask_id); ("action", VString action)])
     = Ok (mkDelegateFrame task_id subtask_id action target_nid None None None None)).
Proof.
  repeat split; eauto using TaskFrame_roundtrip, DelegateFrame_roundtrip, SyncFrame_roundtrip,
    AlignStreamFrame_roundtrip.
Qed.

Lemma nop_frames_roundtrip_witness :
  let f := mkSyncFrame "t" "s" ["a"; "b"] (-1) "merge" (Some 5) in
  SyncFrame_from_dict (SyncFrame_to_dict f) = Ok f.
Proof.
  destruct nop_frames_roundtrip as (_ & _ & H & _). apply H. unfold i64_range. cbn.
  unfold i64_min, i64_max. lia.
Defined.
