(* ===== verification/NopDag.v ===== *)
(** * NopDag: DAG validation

    Models nps-nop/src/validation.rs, [validate_dag]: limits, uniqueness,
    closedness of the references, Kahn's topological sort.  [HashMap]s and
    [HashSet]s are stdpp's [gmap] and [gset]: the code only looks keys up and
    asks whether some value has a property, so their order is not observed. *)

From S2P Require Import Prelude RustStr Json NopModels.
From stdpp Require Import relations.
Local Open Scope Z_scope.

Record DagValidationResult : Type := mkValidation {
  v_is_valid : bool;
  v_error_code : option string;
  v_error_message : option string;
  v_topological_order : option (list string)
}.

Definition validation_success (order : list string) : DagValidationResult :=
  mkValidation true None None (Some order).
Definition validation_failure (code message : string) : DagValidationResult :=
  mkValidation false (Some code) (Some message) None.

(** [node_ids.insert] over the nodes: the set, or the first duplicate. *)
Fixpoint collect_ids (seen : gset string) (nodes : list DagNode) : string + gset string :=
  match nodes with
  | [] => inr seen
  | n :: rest =>
    if decide (n_id n ∈ seen) then inl (n_id n)
    else collect_ids ({[n_id n]} ∪ seen) rest
  end.

(** The edge loop: [adjacency] and [in_degree], or the error. *)
Fixpoint add_edges (ids : gset string) (edges : list DagEdge)
    (adjacency : gmap string (list string)) (in_degree : gmap string Z)
    : string + (gmap string (list string) * gmap string Z) :=
  match edges with
  | [] => inr (adjacency, in_degree)
  | e :: rest =>
    if negb (bool_decide (e_from e ∈ ids))
    then inl ("Edge references unknown source node: '" +:+ e_from e +:+ "'.")
    else if negb (bool_decide (e_to e ∈ ids))
    then inl ("Edge references unknown target node: '" +:+ e_to e +:+ "'.")
    else add_edges ids rest (alter (fun l => l ++ [e_to e]) (e_from e) adjacency)
           (alter (Z.add 1) (e_to e) in_degree)
  end.

(** The first [input_from] reference to no node. *)
Definition bad_input (ids : gset string) (nodes : list DagNode) : option (string * string) :=
  head (n ← nodes; from ← default [] (n_input_from n);
        if decide (from ∈ ids) then [] else [(n_id n, from)]).

Definition long_condition (nodes : list DagNode) : option string :=
  head (n ← nodes; match n_condition n with
                   | Some c => if (MAX_CONDITION_LENGTH <? length (chars c))%nat then [n_id n] else []
                   | None => []
                   end).

(** One pass over [neighbors]; [None] is the panic of [unwrap]. *)
Fixpoint visit_neighbors (neighbors : list string) (remaining : gmap string Z) (queue : list string)
    : option (gmap string Z * list string) :=
  match neighbors with
  | [] => Some (remaining, queue)
  | n :: rest =>
    d ← remaining !! n;
    let d := d - 1 in
    visit_neighbors rest (<[n := d]> remaining) (if d =? 0 then queue ++ [n] else queue)
  end.

(** The [while let Some(current) = queue.pop_front()] loop; [fuel] bounds the
    number of pops. *)
Fixpoint kahn (fuel : nat) (adjacency : gmap string (list string)) (remaining : gmap string Z)
    (queue sorted : list string) : option (list string) :=
  match fuel with
  | O => None
  | S fuel =>
    match queue with
    | [] => Some sorted
    | current :: queue =>
      '(remaining, queue) ← visit_neighbors (default [] (adjacency !! current)) remaining queue;
      kahn fuel adjacency remaining queue (sorted ++ [current])
    end
  end.

Definition start_queue (nodes : list DagNode) (remaining : gmap string Z) : list string :=
  omap (fun n => if decide (remaining !! n_id n = Some 0) then Some (n_id n) else None) nodes.

(** [validate_dag]; [None] would be a panic or a loop that outlives its fuel,
    which [validate_dag_total] excludes. *)
Definition validate_dag (dag : TaskDag) : option DagValidationResult :=
  let nodes := d_nodes dag in
  let invalid msg := Some (validation_failure TASK_DAG_INVALID msg) in
  if decide (nodes = []) then invalid "DAG must contain at least one node."
  else if (MAX_DAG_NODES <? length nodes)%nat
  then Some (validation_failure TASK_DAG_TOO_LARGE
         ("DAG contains " +:+ fmt_Z (Z.of_nat (length nodes))
          +:+ " nodes, exceeding the maximum of " +:+ fmt_Z (Z.of_nat MAX_DAG_NODES) +:+ "."))
  else
  match collect_ids ∅ nodes with
  | inl dup => invalid ("Duplicate node ID: '" +:+ dup +:+ "'.")
  | inr ids =>
    let adjacency := gset_to_gmap [] ids in
    let in_degree := gset_to_gmap 0 ids in
    match add_edges ids (d_edges dag) adjacency in_degree with
    | inl msg => invalid msg
    | inr (adjacency, in_degree) =>
      match bad_input ids nodes with
      | Some (id, from) =>
        invalid ("Node '" +:+ id +:+ "' references unknown upstream node '" +:+ from
                 +:+ "' in input_from.")
      | None =>
        if negb (existsb (fun kv => kv.2 =? 0) (map_to_list in_degree))
        then invalid "DAG must have at least one start node (no incoming edges)."
        else if negb (existsb (fun kv => (length kv.2 =? 0)%nat) (map_to_list adjacency))
        then invalid "DAG must have at least one end node (no outgoing edges)."
        else
        match long_condition nodes with
        | Some id =>
          Some (validation_failure CONDITION_EVAL_ERROR
            ("Node '" +:+ id +:+ "' condition expression exceeds "
             +:+ fmt_Z (Z.of_nat MAX_CONDITION_LENGTH) +:+ " characters."))
        | None =>
          sorted ← kahn (S (length nodes)) adjacency in_degree (start_queue nodes in_degree) [];
          if negb (length sorted =? size ids)%nat
          then Some (validation_failure TASK_DAG_CYCLE "DAG contains a cycle.")
          else Some (validation_success sorted)
        end
      end
    end
  end.

(** ** Specification *)

(** There is an edge from [u] to [v]. *)
Definition edge (edges : list DagEdge) (u v : string) : Prop := mkDagEdge u v ∈ edges.

Definition acyclic (edges : list DagEdge) : Prop := forall v, ~ tc (edge edges) v v.

(** Every node comes after all its predecessors. *)
Definition topological (edges : list DagEdge) (order : list string) : Prop :=
  forall l1 v l2, order = l1 ++ v :: l2 -> forall u, edge edges u v -> u ∈ l1.

Definition node_ids (dag : TaskDag) : list string := map n_id (d_nodes dag).

(** The limits and references of a well-formed DAG, acyclicity apart. *)
Record dag_shape (dag : TaskDag) : Prop := mkShape {
  sh_nonempty : d_nodes dag <> [];
  sh_size : (length (d_nodes dag) <= MAX_DAG_NODES)%nat;
  sh_unique : NoDup (node_ids dag);
  sh_edges : forall e, e ∈ d_edges dag -> e_from e ∈ node_ids dag /\ e_to e ∈ node_ids dag;
  sh_inputs : forall n from, n ∈ d_nodes dag -> from ∈ default [] (n_input_from n) ->
                from ∈ node_ids dag;
  sh_conditions : forall n c, n ∈ d_nodes dag -> n_condition n = Some c ->
                (length (chars c) <= MAX_CONDITION_LENGTH)%nat
}.

(** What [validate_dag] is meant to accept. *)
Definition dag_ok (dag : TaskDag) : Prop := dag_shape dag /\ acyclic (d_edges dag).

Definition has_start (dag : TaskDag) : Prop :=
  exists v, v ∈ node_ids dag /\ forall u, ~ edge (d_edges dag) u v.
Definition has_end (dag : TaskDag) : Prop :=
  exists v, v ∈ node_ids dag /\ forall u, ~ edge (d_edges dag) v u.

(** ** Counting edges *)

Fixpoint occ (v : string) (l : list string) : Z :=
  match l with [] => 0 | x :: r => (if decide (x = v) then 1 else 0) + occ v r end.

Definition outs (edges : list DagEdge) (u : string) : list string :=
  omap (fun e => if decide (e_from e = u) then Some (e_to e) else None) edges.

(** Edges into [v] whose source is not yet sorted. *)
Fixpoint pend (edges : list DagEdge) (sorted : list string) (v : string) : Z :=
  match edges with
  | [] => 0
  | e :: r => (if decide (e_to e = v /\ e_from e ∉ sorted) then 1 else 0) + pend r sorted v
  end.

Lemma occ_nonneg v l : 0 <= occ v l.
Proof. induction l; cbn; [done | case_decide; lia]. Qed.

Lemma occ_pos v l : 0 < occ v l <-> v ∈ l.
Proof.
  induction l as [|x l IH]; cbn; [set_solver by lia |].
  pose proof (occ_nonneg v l). rewrite elem_of_cons. case_decide; naive_solver lia.
Qed.

Lemma pend_nonneg edges s v : 0 <= pend edges s v.
Proof. induction edges; cbn; [done | case_decide; lia]. Qed.

Lemma pend_zero edges s v : pend edges s v = 0 <-> forall u, edge edges u v -> u ∈ s.
Proof.
  unfold edge. induction edges as [|[a b] r IH]; cbn [pend e_to e_from]; [set_solver |].
  pose proof (pend_nonneg r s v). case_decide as Hd.
  - destruct Hd as [-> Ha]. split; [lia |]. intros Hu. destruct Ha. apply Hu. left.
  - rewrite Z.add_0_l, IH. split; intros Hu u Hin.
    + apply elem_of_cons in Hin as [[= -> ->]|Hin]; [|by apply Hu].
      destruct (decide (a ∈ s)); [done |]. by destruct Hd.
    + apply Hu. by right.
Qed.

Lemma pend_step edges s c v : c ∉ s ->
  pend edges s v = pend edges (s ++ [c]) v + occ v (outs edges c).
Proof.
  intros Hc. induction edges as [|[a b] r IH]; [done |].
  unfold outs. cbn [omap list_omap e_from e_to]. cbn [pend e_from e_to]. rewrite IH. fold (outs r c).
  repeat case_decide; cbn [occ]; repeat case_decide; subst; set_solver by lia.
Qed.

Lemma pend_nil edges v : pend edges [] v = occ v (map e_to edges).
Proof.
  induction edges as [|[a b] r IH]; [done |]. cbn. rewrite IH.
  repeat case_decide; subst; set_solver by lia.
Qed.

(** ** The loops *)

Lemma add_edges_spec ids edges adj deg :
  match add_edges ids edges adj deg with
  | inl _ => exists e, e ∈ edges /\ ~ (e_from e ∈ ids /\ e_to e ∈ ids)
  | inr (adj', deg') =>
    (forall e, e ∈ edges -> e_from e ∈ ids /\ e_to e ∈ ids) /\
    (forall u, adj' !! u = (fun l => l ++ outs edges u) <$> adj !! u) /\
    (forall v, deg' !! v = (fun d => d + occ v (map e_to edges)) <$> deg !! v)
  end.
Proof.
  revert adj deg. induction edges as [|e r IH]; intros adj deg; cbn [add_edges].
  { split; [set_solver |]. split; intros x; destruct (_ !! x); cbn; rewrite ?app_nil_r, ?Z.add_0_r; done. }
  case_bool_decide as Hf; cbn [negb]; [|exists e; set_solver].
  case_bool_decide as Ht; cbn [negb]; [|exists e; set_solver].
  specialize (IH (alter (fun l => l ++ [e_to e]) (e_from e) adj) (alter (Z.add 1) (e_to e) deg)).
  destruct (add_edges ids r _ _) as [|[adj' deg']]; [destruct IH as (e' & He' & Hn); exists e'; set_solver |].
  destruct IH as (Hin & Ha & Hd). split; [set_solver |]. split.
  - intros u. rewrite Ha. unfold outs. cbn [omap list_omap].
    destruct (decide (e_from e = u)) as [<-|Hne].
    + rewrite lookup_alter_eq. destruct (adj !! e_from e); cbn; [|done].
      by rewrite <-app_assoc.
    + rewrite lookup_alter_ne by done. done.
  - intros v. rewrite Hd. cbn [map occ]. destruct (decide (e_to e = v)) as [<-|Hne].
    + rewrite lookup_alter_eq. destruct (deg !! e_to e); cbn; f_equal. lia.
    + rewrite lookup_alter_ne by done. done.
Qed.

Lemma visit_neighbors_spec ns rem queue :
  (forall v, v ∈ ns -> is_Some (rem !! v)) ->
  (forall v d, rem !! v = Some d -> occ v ns <= d) ->
  exists rem' q, visit_neighbors ns rem queue = Some (rem', queue ++ q) /\
    (forall v, rem' !! v = (fun d => d - occ v ns) <$> rem !! v) /\
    NoDup q /\ forall v, v ∈ q <-> v ∈ ns /\ rem !! v = Some (occ v ns).
Proof.
  revert rem queue. induction ns as [|n r IH]; intros rem queue Hdom Hle; cbn [visit_neighbors].
  { exists rem, []. rewrite app_nil_r. split; [done |]. split; [|split; [constructor | set_solver]].
    intros v. destruct (rem !! v); cbn; by rewrite ?Z.sub_0_r. }
  destruct (Hdom n) as [d Hd]; [left |]. rewrite Hd. cbn [mbind option_bind].
  pose proof (Hle n d Hd) as Hdn. cbn [occ] in Hdn. rewrite decide_True in Hdn by done.
  pose proof (occ_nonneg n r) as Hn0.
  destruct (IH (<[n := d - 1]> rem) (if d - 1 =? 0 then queue ++ [n] else queue))
    as (rem' & q & Hv & Hrem & Hnd & Hq).
  { intros v Hv. destruct (decide (v = n)) as [->|]; [by rewrite lookup_insert_eq |].
    rewrite lookup_insert_ne by done. apply Hdom. by right. }
  { intros v d' Hl. destruct (decide (v = n)) as [->|]; [rewrite lookup_insert_eq in Hl; simplify_eq; lia |].
    rewrite lookup_insert_ne in Hl by done. apply Hle in Hl. cbn [occ] in Hl. case_decide; [done | lia]. }
  exists rem', (if d - 1 =? 0 then n :: q else q). rewrite Hv.
  split; [destruct (d - 1 =? 0); [by rewrite <-app_assoc | done] |].
  split; [|split].
  - intros v. rewrite Hrem. cbn [occ]. destruct (decide (v = n)) as [->|].
    + rewrite lookup_insert_eq, Hd, decide_True by done. cbn. f_equal. lia.
    + rewrite lookup_insert_ne, decide_False by done. by rewrite Z.add_0_l.
  - destruct (d - 1 =? 0) eqn:E; [|done]. cmp_hyps. constructor; [|done].
    rewrite Hq, lookup_insert_eq. intros [Hin%occ_pos _]. lia.
  - intros v. cbn [occ]. transitivity ((d - 1 = 0 /\ v = n) \/ v ∈ q).
    { destruct (d - 1 =? 0) eqn:E; cmp_hyps; set_solver. }
    rewrite Hq, elem_of_cons. destruct (decide (v = n)) as [->|].
    + rewrite lookup_insert_eq, decide_True, Hd by done. pose proof (occ_pos n r).
      split; [|intros [_ [= ?]]].
      * intros [[? _]|[? [= ?]]]; (split; [by left | f_equal; lia]).
      * destruct (decide (n ∈ r)); [right; split; [done | f_equal; lia] |].
        left. split; [|done]. assert (~ 0 < occ n r) by tauto. lia.
    + rewrite lookup_insert_ne, decide_False, Z.add_0_l by done. naive_solver.
Qed.

(** The state of Kahn's loop: [remaining] counts the edges from unsorted
    nodes, and the nodes it gives zero are exactly those sorted or queued. *)
Record kahn_inv (ids : gset string) (edges : list DagEdge) (remaining : gmap string Z)
    (queue sorted : list string) : Prop := {
  ki_remaining : forall v, v ∈ ids -> remaining !! v = Some (pend edges sorted v);
  ki_dom : forall v d, remaining !! v = Some d -> v ∈ ids;
  ki_nodup : NoDup (sorted ++ queue);
  ki_ready : forall v, v ∈ sorted ++ queue <-> v ∈ ids /\ pend edges sorted v = 0;
  ki_topological : topological edges sorted
}.

Lemma topological_snoc edges sorted c :
  topological edges sorted -> (forall u, edge edges u c -> u ∈ sorted) ->
  topological edges (sorted ++ [c]).
Proof.
  intros Ht Hc l1 v l2 E u Hu.
  destruct l2 as [|x l2 _] using rev_ind.
  - apply app_inj_tail in E as [<- <-]. by apply Hc.
  - change (v :: l2 ++ [x]) with ((v :: l2) ++ [x]) in E.
    rewrite app_assoc in E. apply app_inj_tail in E as [E _]. by eapply Ht.
Qed.

Lemma outs_elem edges u v : v ∈ outs edges u <-> edge edges u v.
Proof.
  unfold outs, edge. rewrite list_elem_of_omap. split.
  - intros ([a b] & Hin & H). cbn in H. case_decide; [|done]. by simplify_eq.
  - intros Hin. exists (mkDagEdge u v). cbn. by rewrite decide_True.
Qed.

Lemma kahn_step ids edges rem c queue sorted rem' q :
  (forall e, e ∈ edges -> e_from e ∈ ids /\ e_to e ∈ ids) ->
  kahn_inv ids edges rem (c :: queue) sorted ->
  (forall v, rem' !! v = (fun d => d - occ v (outs edges c)) <$> rem !! v) ->
  NoDup q -> (forall v, v ∈ q <-> v ∈ outs edges c /\ rem !! v = Some (occ v (outs edges c))) ->
  kahn_inv ids edges rem' (queue ++ q) (sorted ++ [c]).
Proof.
  intros Hedges [Hrem Hdom Hnd Hready Htop] Hrem' Hndq Hq.
  assert (Hc : c ∉ sorted).
  { apply NoDup_app in Hnd as (_ & Hdisj & _). intros Hin. by apply (Hdisj c Hin); left. }
  assert (Hcid : c ∈ ids /\ pend edges sorted c = 0) by (apply Hready; set_solver).
  pose proof (fun v => pend_step edges sorted c v Hc) as Hstep.
  assert (Hqv : forall v, v ∈ q <-> v ∈ outs edges c /\ pend edges (sorted ++ [c]) v = 0).
  { intros v. rewrite Hq. split; intros [Hv Hz]; (split; [done |]).
    - rewrite (Hrem v) in Hz by by eapply Hdom. injection Hz as Hz. specialize (Hstep v). lia.
    - rewrite (Hrem v); [f_equal; specialize (Hstep v); lia |].
      apply outs_elem in Hv. by apply Hedges in Hv as [_ ?]. }
  constructor.
  - intros v Hv. rewrite Hrem', Hrem by done. cbn. f_equal. specialize (Hstep v). lia.
  - intros v d Hd. rewrite Hrem' in Hd. destruct (rem !! v) eqn:E; [|done]. by eapply Hdom.
  - rewrite <-app_assoc. cbn [app]. change (c :: queue ++ q) with ((c :: queue) ++ q).
    rewrite app_assoc. apply NoDup_app. split; [done |]. split; [|done].
    intros v Hv Hvq. apply Hready in Hv as [_ Hz]. apply Hq in Hvq as [Hout Hz'].
    apply occ_pos in Hout. specialize (Hstep v). pose proof (pend_nonneg edges (sorted ++ [c]) v). lia.
  - intros v. rewrite <-app_assoc. cbn [app].
    change (c :: queue ++ q) with ((c :: queue) ++ q). rewrite app_assoc, elem_of_app, Hready, Hqv.
    specialize (Hstep v). pose proof (pend_nonneg edges (sorted ++ [c]) v).
    pose proof (occ_nonneg v (outs edges c)). pose proof (occ_pos v (outs edges c)) as Hop. split.
    + intros [[Hv Hz]|[Hv Hz]]; [split; [done | lia] |]. split; [|done].
      apply outs_elem in Hv. by apply Hedges in Hv as [_ ?].
    + intros [Hv Hz]. destruct (decide (v ∈ outs edges c)); [by right | left].
      split; [done |]. assert (~ 0 < occ v (outs edges c)) by (rewrite Hop; done). lia.
  - apply topological_snoc; [done |]. apply pend_zero, Hcid.
Qed.

Lemma kahn_spec ids edges adj fuel rem queue sorted :
  (forall e, e ∈ edges -> e_from e ∈ ids /\ e_to e ∈ ids) ->
  (forall u, u ∈ ids -> adj !! u = Some (outs edges u)) ->
  kahn_inv ids edges rem queue sorted ->
  (size ids < fuel + length sorted)%nat ->
  exists order, kahn fuel adj rem queue sorted = Some order /\
    NoDup order /\ topological edges order /\
    forall v, v ∈ order <-> v ∈ ids /\ pend edges order v = 0.
Proof.
  intros Hedges Hadj. revert rem queue sorted.
  induction fuel as [|fuel IH]; intros rem queue sorted Hinv Hfuel.
  - pose proof Hinv as [_ _ Hnd Hready _]. exfalso.
    assert (Hl : (length sorted <= size ids)%nat); [|lia].
    apply NoDup_app in Hnd as (Hnd & _ & _).
    assert (Hs : sorted ⊆+ elements ids).
    { apply NoDup_submseteq; [done |]. intros v Hv. apply elem_of_elements.
      apply Hready. set_solver. }
    by apply submseteq_length in Hs.
  - cbn [kahn]. destruct queue as [|c queue].
    { exists sorted. destruct Hinv as [_ _ Hnd Hready Htop]. rewrite app_nil_r in Hnd, Hready. done. }
    pose proof Hinv as [Hrem Hdom Hnd Hready _].
    assert (Hc : c ∈ ids) by (apply Hready; set_solver).
    rewrite (Hadj c Hc). cbn [default from_option id].
    assert (Hcs : c ∉ sorted).
    { apply NoDup_app in Hnd as (_ & Hdisj & _). intros Hin. by apply (Hdisj c Hin); left. }
    destruct (visit_neighbors_spec (outs edges c) rem queue) as (rem' & q & Hv & Hr & Hndq & Hq).
    + intros v Hv%outs_elem. apply Hedges in Hv as [_ Hv]. rewrite (Hrem v Hv). by eexists.
    + intros v d Hd. rewrite (Hrem v) in Hd by by eapply Hdom. injection Hd as <-.
      pose proof (pend_step edges sorted c v Hcs). pose proof (pend_nonneg edges (sorted ++ [c]) v). lia.
    + rewrite Hv. cbn [mbind option_bind]. apply IH; [by eapply kahn_step |].
      rewrite length_app. cbn [length]. lia.
Qed.

(** ** Cycles *)

(** A set whose elements all have a predecessor in it contains a cycle. *)
Lemma back_path (R : string -> string -> Prop) l n :
  l <> [] -> (forall v, v ∈ l -> exists u, u ∈ l /\ R u v) ->
  exists p, length p = S n /\ (forall v, v ∈ p -> v ∈ l) /\
    forall p1 u v p2, p = p1 ++ u :: v :: p2 -> R u v.
Proof.
  intros Hl Hpred. induction n as [|n (p & Hlen & Hin & Hp)].
  - destruct l as [|x l]; [done |]. exists [x]. split; [done |].
    split; [set_solver |]. intros [|? [|? ?]] ? ? ?; discriminate.
  - destruct p as [|v p]; [done |]. destruct (Hpred v) as (u & Hu & Huv); [apply Hin; left |].
    exists (u :: v :: p). split; [cbn in *; lia |]. split; [set_solver |].
    intros [|x p1] a b p2 E; cbn in E; simplify_eq; [done |]. by eapply Hp.
Qed.

Lemma path_tc (R : string -> string -> Prop) p u v p1 p2 p3 :
  (forall p1 u v p2, p = p1 ++ u :: v :: p2 -> R u v) ->
  p = p1 ++ u :: p2 ++ v :: p3 -> tc R u v.
Proof.
  revert u p1. induction p2 as [|w p2 IH]; intros u p1 HR E; cbn in E.
  - apply tc_once. by eapply HR.
  - eapply tc_l; [by eapply HR |]. apply (IH w (p1 ++ [u])); [done |]. by rewrite <-app_assoc.
Qed.

Lemma not_NoDup_split (p : list string) :
  ~ NoDup p -> exists p1 x p2 p3, p = p1 ++ x :: p2 ++ x :: p3.
Proof.
  induction p as [|x p IH]; intros Hn; [by destruct Hn; constructor |].
  destruct (decide (x ∈ p)) as [Hin|Hx].
  - apply list_elem_of_split in Hin as (p2 & p3 & ->). by exists [], x, p2, p3.
  - destruct IH as (p1 & y & p2 & p3 & ->); [intros Hp; apply Hn; by constructor |].
    by exists (x :: p1), y, p2, p3.
Qed.

Lemma cycle_exists (R : string -> string -> Prop) l :
  l <> [] -> (forall v, v ∈ l -> exists u, u ∈ l /\ R u v) -> exists v, tc R v v.
Proof.
  intros Hl Hpred. destruct (back_path R l (length l) Hl Hpred) as (p & Hlen & Hin & Hp).
  destruct (not_NoDup_split p) as (p1 & x & p2 & p3 & E).
  { intros Hnd. assert (Hs : p ⊆+ l) by by apply NoDup_submseteq.
    apply submseteq_length in Hs. lia. }
  exists x. by eapply path_tc.
Qed.

Lemma topological_tc edges order u v l1 l2 :
  topological edges order -> order = l1 ++ v :: l2 -> tc (edge edges) u v -> u ∈ l1.
Proof.
  intros Ht Ho Huv.
  revert l1 l2 Ho. induction Huv as [u v Huv|u w v Huw Hwv IH]; intros l1 l2 Ho; [by eapply Ht |].
  specialize (IH l1 l2 Ho). apply list_elem_of_split in IH as (a & b & ->).
  rewrite <-app_assoc in Ho. cbn in Ho. apply (Ht _ _ _ Ho) in Huw. set_solver.
Qed.

Lemma topological_acyclic edges order :
  NoDup order -> topological edges order ->
  (forall e, e ∈ edges -> e_to e ∈ order) -> acyclic edges.
Proof.
  intros Hnd Ht Hin v Hv.
  assert (Hvo : v ∈ order).
  { assert (exists u, edge edges u v) as [u Hu].
    { clear -Hv. induction Hv; [by eexists | done]. }
    by apply (Hin _ Hu). }
  apply list_elem_of_split in Hvo as (l1 & l2 & E).
  pose proof (topological_tc _ _ _ _ _ _ Ht E Hv) as H1. subst order.
  apply NoDup_app in Hnd as (_ & Hd & _). apply (Hd v H1). left.
Qed.

(** ** The checks before the sort *)

Lemma collect_ids_spec seen nodes :
  match collect_ids seen nodes with
  | inl _ => ~ (NoDup (map n_id nodes) /\ forall v, v ∈ map n_id nodes -> v ∉ seen)
  | inr ids => NoDup (map n_id nodes) /\ (forall v, v ∈ map n_id nodes -> v ∉ seen) /\
      forall v, v ∈ ids <-> v ∈ seen \/ v ∈ map n_id nodes
  end.
Proof.
  revert seen. induction nodes as [|n r IH]; intros seen; cbn [collect_ids map].
  { split; [constructor | set_solver]. }
  case_decide as Hn; [intros [_ H]; apply (H (n_id n)); [left | done] |].
  specialize (IH ({[n_id n]} ∪ seen)). destruct (collect_ids _ r) as [|ids].
  - intros [Hnd Hs]. apply IH. apply NoDup_cons in Hnd as [Hx Hnd]. split; [done |]. set_solver.
  - destruct IH as (Hnd & Hs & Hids). split; [|split; [set_solver |]].
    + apply NoDup_cons. split; [|done]. intros Hin. apply (Hs _ Hin). set_solver.
    + intros v. rewrite Hids. set_solver.
Qed.

Lemma bad_input_None ids nodes :
  bad_input ids nodes = None <->
  forall n from, n ∈ nodes -> from ∈ default [] (n_input_from n) -> from ∈ ids.
Proof.
  unfold bad_input. rewrite head_None. split.
  - intros H n from Hn Hf. destruct (decide (from ∈ ids)) as [|Hnot]; [done | exfalso].
    assert (Hin : (n_id n, from) ∈ (@nil (string * string))); [|by apply elem_of_nil in Hin].
    rewrite <-H. apply list_elem_of_bind. exists n. split; [|done].
    apply list_elem_of_bind. exists from. split; [|done]. rewrite decide_False by done. left.
  - intros H. destruct (mbind _ nodes) as [|x l] eqn:E; [done | exfalso].
    assert (Hx : x ∈ x :: l) by left. rewrite <-E in Hx.
    apply list_elem_of_bind in Hx as (n & Hx & Hn).
    apply list_elem_of_bind in Hx as (from & Hx & Hf).
    rewrite decide_True in Hx by eauto. by apply elem_of_nil in Hx.
Qed.

Lemma long_condition_None nodes :
  long_condition nodes = None <->
  forall n c, n ∈ nodes -> n_condition n = Some c -> (length (chars c) <= MAX_CONDITION_LENGTH)%nat.
Proof.
  unfold long_condition. rewrite head_None. split.
  - intros H n c Hn Hc. destruct (MAX_CONDITION_LENGTH <? length (chars c))%nat eqn:E; cmp_hyps; [|done].
    exfalso. assert (Hin : n_id n ∈ (@nil string)); [|by apply elem_of_nil in Hin].
    rewrite <-H. apply list_elem_of_bind. exists n. split; [|done]. rewrite Hc.
    apply Nat.ltb_lt in E. rewrite E. left.
  - intros H. destruct (mbind _ nodes) as [|x l] eqn:E; [done | exfalso].
    assert (Hx : x ∈ x :: l) by left. rewrite <-E in Hx.
    apply list_elem_of_bind in Hx as (n & Hx & Hn).
    destruct (n_condition n) as [c|] eqn:Hc; [|by apply elem_of_nil in Hx].
    specialize (H n c Hn Hc). apply Nat.ltb_ge in H. rewrite H in Hx. by apply elem_of_nil in Hx.
Qed.

Lemma existsb_map_to_list {A} (m : gmap string A) (p : A -> bool) :
  existsb (fun kv => p kv.2) (map_to_list m) = true <-> exists k a, m !! k = Some a /\ p a = true.
Proof.
  rewrite existsb_exists. split.
  - intros ([k a] & Hin & Hp). apply list_elem_of_In, elem_of_map_to_list in Hin. eauto.
  - intros (k & a & Hin & Hp). exists (k, a). split; [|done].
    by apply list_elem_of_In, elem_of_map_to_list.
Qed.

Lemma start_queue_spec nodes rem :
  NoDup (map n_id nodes) ->
  NoDup (start_queue nodes rem) /\
  forall v, v ∈ start_queue nodes rem <-> v ∈ map n_id nodes /\ rem !! v = Some 0.
Proof.
  unfold start_queue. induction nodes as [|n r IH]; intros Hnd; cbn [omap list_omap map].
  { split; [constructor | set_solver]. }
  apply NoDup_cons in Hnd as [Hn Hnd]. destruct (IH Hnd) as [IH1 IH2].
  case_decide as Hz.
  - split; [apply NoDup_cons; split; [by rewrite IH2; intros [? _] | done] |].
    intros v. rewrite !elem_of_cons, IH2. naive_solver.
  - split; [done |]. intros v. rewrite elem_of_cons, IH2. naive_solver.
Qed.

Lemma acyclic_flip edges : acyclic edges -> forall v, ~ tc (fun a b => edge edges b a) v v.
Proof.
  intros Ha v Hv. apply (Ha v).
  assert (Hg : forall a b, tc (fun a b => edge edges b a) a b -> tc (edge edges) b a).
  { intros a b H. induction H as [a b H|a b c H _ IH]; [by apply tc_once |].
    eapply tc_r; [exact IH | done]. }
  by apply Hg.
Qed.

(** An acyclic graph has a source and a sink. *)
Lemma acyclic_source edges l :
  acyclic edges -> l <> [] -> (forall e, e ∈ edges -> e_from e ∈ l) ->
  exists v, v ∈ l /\ forall u, ~ edge edges u v.
Proof.
  intros Ha Hl Hin.
  destruct (decide (Exists (fun v => outs (map (fun e => mkDagEdge (e_to e) (e_from e)) edges) v = []) l))
    as [Hex|Hno].
  - apply Exists_exists in Hex as (v & Hv & Ho). exists v. split; [done |]. intros u Hu.
    assert (Hm : u ∈ outs (map (fun e => mkDagEdge (e_to e) (e_from e)) edges) v); [|rewrite Ho in Hm; by apply elem_of_nil in Hm].
    apply outs_elem, list_elem_of_fmap. by exists (mkDagEdge u v).
  - destruct (cycle_exists (edge edges) l Hl) as [v Hv]; [|by destruct (Ha v)].
    intros v Hv. rewrite <-Forall_Exists_neg, Forall_forall in Hno. specialize (Hno v Hv).
    destruct (outs _ v) as [|u r] eqn:E; [done |]. exists u.
    assert (Hu : u ∈ u :: r) by left. rewrite <-E in Hu.
    apply outs_elem, list_elem_of_fmap in Hu as ([a b] & [= -> ->] & Hab).
    split; [by apply (Hin (mkDagEdge a b)) | done].
Qed.

Lemma acyclic_sink edges l :
  acyclic edges -> l <> [] -> (forall e, e ∈ edges -> e_to e ∈ l) ->
  exists v, v ∈ l /\ forall u, ~ edge edges v u.
Proof.
  intros Ha Hl Hin.
  destruct (decide (Exists (fun v => outs edges v = []) l)) as [Hex|Hno].
  - apply Exists_exists in Hex as (v & Hv & Ho). exists v. split; [done |].
    intros u Hu%outs_elem. rewrite Ho in Hu. by apply elem_of_nil in Hu.
  - destruct (cycle_exists (fun a b => edge edges b a) l Hl) as [v Hv];
      [|by destruct (acyclic_flip _ Ha v)].
    intros v Hv. rewrite <-Forall_Exists_neg, Forall_forall in Hno. specialize (Hno v Hv).
    destruct (outs edges v) as [|u r] eqn:E; [done |]. exists u.
    assert (Hu : u ∈ u :: r) by left. rewrite <-E in Hu. apply outs_elem in Hu.
    split; [by apply (Hin _ Hu) | done].
Qed.

(** ** [validate_dag] as a whole *)

Definition sorted_result (dag : TaskDag) (order : list string) : DagValidationResult :=
  if (length order =? length (d_nodes dag))%nat then validation_success order
  else validation_failure TASK_DAG_CYCLE "DAG contains a cycle.".

Definition kahn_order (dag : TaskDag) (order : list string) : Prop :=
  NoDup order /\ topological (d_edges dag) order /\
  forall v, v ∈ order <-> v ∈ node_ids dag /\ forall u, edge (d_edges dag) u v -> u ∈ order.

Definition rejected (r : DagValidationResult) : Prop :=
  exists code msg, r = validation_failure code msg /\ code <> TASK_DAG_CYCLE.

Lemma lookup_all {A} (x : A) (ids : gset string) v : v ∈ ids -> gset_to_gmap x ids !! v = Some x.
Proof. intros Hv. by apply lookup_gset_to_gmap_Some. Qed.

Lemma has_start_deg dag ids (deg : gmap string Z) :
  (forall v, v ∈ ids <-> v ∈ node_ids dag) ->
  (forall v, deg !! v = (fun d => d + occ v (map e_to (d_edges dag))) <$> (gset_to_gmap 0 ids : gmap string Z) !! v) ->
  existsb (fun kv => kv.2 =? 0) (map_to_list deg) = true <-> has_start dag.
Proof.
  intros Hids Hdeg. rewrite (existsb_map_to_list deg (fun d => d =? 0)). unfold has_start.
  split.
  - intros (v & d & Hv & Hd). cmp_hyps. subst d. rewrite Hdeg in Hv.
    destruct (_ !! v) eqn:E; [|done]. apply lookup_gset_to_gmap_Some in E as [Hin <-].
    cbn in Hv. injection Hv as Hv. exists v. split; [by apply Hids |].
    rewrite <-pend_nil in Hv. intros u Hu. apply (proj1 (pend_zero _ _ _)) with (u := u) in Hv; [|done].
    by apply elem_of_nil in Hv.
  - intros (v & Hv & Hno). exists v, 0. split; [|done]. rewrite Hdeg.
    rewrite lookup_all by by apply Hids. cbn. f_equal. rewrite <-pend_nil. apply pend_zero. intros u Hu. by destruct (Hno u).
Qed.

Lemma has_end_adj dag ids (adj : gmap string (list string)) :
  (forall v, v ∈ ids <-> v ∈ node_ids dag) ->
  (forall v, adj !! v = (fun l => l ++ outs (d_edges dag) v) <$> (gset_to_gmap [] ids : gmap string (list string)) !! v) ->
  existsb (fun kv => (length kv.2 =? 0)%nat) (map_to_list adj) = true <-> has_end dag.
Proof.
  intros Hids Hadj. rewrite (existsb_map_to_list adj (fun l => (length l =? 0)%nat)). unfold has_end.
  split.
  - intros (v & l & Hv & Hl). cmp_hyps. apply nil_length_inv in Hl as ->. rewrite Hadj in Hv.
    destruct (_ !! v) eqn:E; [|done]. apply lookup_gset_to_gmap_Some in E as [Hin <-].
    cbn in Hv. injection Hv as Hv. exists v. split; [by apply Hids |].
    intros u Hu%outs_elem. rewrite Hv in Hu. by apply elem_of_nil in Hu.
  - intros (v & Hv & Hno). exists v, []. split; [|done]. rewrite Hadj.
    rewrite lookup_all by by apply Hids. cbn. f_equal. destruct (outs _ v) as [|u r] eqn:E; [done |]. destruct (Hno u).
    apply outs_elem. rewrite E. left.
Qed.

(** The sort, once the checks have passed. *)
Lemma sort_spec dag ids adj deg :
  dag_shape dag -> (forall v, v ∈ ids <-> v ∈ node_ids dag) ->
  (forall u, adj !! u = (fun l => l ++ outs (d_edges dag) u) <$> (gset_to_gmap [] ids : gmap string (list string)) !! u) ->
  (forall v, deg !! v = (fun d => d + occ v (map e_to (d_edges dag))) <$> (gset_to_gmap 0 ids : gmap string Z) !! v) ->
  size ids = length (d_nodes dag) /\
  exists order, kahn (S (length (d_nodes dag))) adj deg (start_queue (d_nodes dag) deg) [] = Some order /\
    kahn_order dag order.
Proof.
  intros Hsh Hids Hadj Hdeg.
  assert (Hsize : size ids = length (d_nodes dag)).
  { assert (Hp : elements ids ≡ₚ node_ids dag).
    { apply NoDup_Permutation; [apply NoDup_elements | apply Hsh |].
      intros v. by rewrite elem_of_elements, Hids. }
    apply Permutation_length in Hp. unfold node_ids in Hp. rewrite length_map in Hp. exact Hp. }
  split; [done |].
  destruct (start_queue_spec (d_nodes dag) deg) as [Hnd Hq]; [apply Hsh |].
  assert (Hd0 : forall v, v ∈ ids -> deg !! v = Some (pend (d_edges dag) [] v)).
  { intros v Hv. rewrite Hdeg, lookup_all by done.
    cbn. by rewrite pend_nil. }
  destruct (kahn_spec ids (d_edges dag) adj (S (length (d_nodes dag))) deg
              (start_queue (d_nodes dag) deg) []) as (order & Hk & Hndo & Htop & Hin).
  - intros e He. rewrite !Hids. by apply Hsh.
  - intros u Hu. rewrite Hadj, lookup_all by done. done.
  - constructor; [done | | done | |].
    + intros v d Hv. rewrite Hdeg in Hv. destruct (_ !! v) eqn:E; [|done].
      by apply lookup_gset_to_gmap_Some in E as [? _].
    + intros v. cbn [app]. rewrite Hq. fold (node_ids dag). rewrite <-Hids.
      split; intros [Hv Hz]; (split; [done |]); rewrite (Hd0 v Hv) in *; [by injection Hz | by rewrite Hz].
    + intros [|? ?] ? ? ?; discriminate.
  - cbn. lia.
  - exists order. split; [done |]. split; [done |]. split; [done |].
    intros v. rewrite Hin, Hids, pend_zero. done.
Qed.

Lemma validate_dag_cases dag :
  exists r, validate_dag dag = Some r /\
    ((~ (dag_shape dag /\ has_start dag /\ has_end dag) /\ rejected r) \/
     (dag_shape dag /\ has_start dag /\ has_end dag /\
      exists order, kahn_order dag order /\ r = sorted_result dag order)).
Proof.
  unfold validate_dag. cbv zeta.
  case_decide as Hne; [eexists; split; [done |]; left; split; [by intros [[] _] | by eexists _, _] |].
  destruct (MAX_DAG_NODES <? length (d_nodes dag))%nat eqn:Hsz; cmp_hyps.
  { eexists. split; [done |]. left. split; [intros [[] _]; lia | by eexists _, _]. }
  pose proof (collect_ids_spec ∅ (d_nodes dag)) as Hids. destruct (collect_ids _ _) as [dup|ids].
  { eexists. split; [done |]. left. split; [|by eexists _, _].
    intros [[] _]. apply Hids. split; [done | set_solver]. }
  destruct Hids as (Hnd & _ & Hids0).
  assert (Hids : forall v, v ∈ ids <-> v ∈ node_ids dag) by (intros v; rewrite Hids0; set_solver).
  pose proof (add_edges_spec ids (d_edges dag) (gset_to_gmap [] ids) (gset_to_gmap 0 ids)) as He.
  destruct (add_edges _ _ _ _) as [msg|[adj deg]].
  { eexists. split; [done |]. left. split; [|by eexists _, _].
    intros [[_ _ _ Hed _ _] _]. destruct He as (e & He & Hn). apply Hn. rewrite !Hids. by apply Hed. }
  destruct He as (Hed & Hadj & Hdeg).
  destruct (bad_input ids (d_nodes dag)) as [[id from]|] eqn:Hbi.
  { eexists. split; [done |]. left. split; [|by eexists _, _].
    intros [[_ _ _ _ Hin _] _]. assert (Hb : bad_input ids (d_nodes dag) = None); [|congruence].
    apply bad_input_None. intros. apply Hids. eauto. }
  pose proof (has_start_deg dag ids deg Hids Hdeg) as Hst.
  destruct (existsb _ (map_to_list deg)); cbn [negb].
  2: { eexists. split; [done |]. left. split; [|by eexists _, _]. intros (_ & H & _). by apply Hst in H. }
  pose proof (has_end_adj dag ids adj Hids Hadj) as Hen.
  destruct (existsb _ (map_to_list adj)); cbn [negb].
  2: { eexists. split; [done |]. left. split; [|by eexists _, _]. intros (_ & _ & H). by apply Hen in H. }
  destruct (long_condition (d_nodes dag)) as [id|] eqn:Hlc.
  { eexists. split; [done |]. left. split; [|by eexists _, _].
    intros [[_ _ _ _ _ Hc] _]. apply long_condition_None in Hc. congruence. }
  assert (Hshape : dag_shape dag).
  { constructor; [done | done | done | | |].
    - intros e Hin. rewrite <-!Hids. by apply Hed.
    - intros n from Hn Hf. apply Hids. by eapply bad_input_None.
    - by apply long_condition_None. }
  destruct (sort_spec dag ids adj deg Hshape Hids Hadj Hdeg) as (Hsize & order & Hk & Hord).
  rewrite Hk. cbn [mbind option_bind]. exists (sorted_result dag order).
  split; [rewrite Hsize; unfold sorted_result; by destruct (_ =? _)%nat |].
  right. split; [done |]. split; [by apply Hst |]. split; [by apply Hen |]. eauto.
Qed.

Lemma kahn_order_complete dag order :
  dag_shape dag -> kahn_order dag order ->
  acyclic (d_edges dag) <-> length order = length (d_nodes dag).
Proof.
  intros Hsh (Hnd & Htop & Hin).
  assert (Hsub : order ⊆+ node_ids dag) by (apply NoDup_submseteq; [done |]; intros v; rewrite Hin; tauto).
  assert (Hlen : length (node_ids dag) = length (d_nodes dag)) by apply length_map.
  split.
  - intros Ha. destruct (decide (filter (fun v => v ∉ order) (node_ids dag) = [])) as [Hnil|Hne].
    + assert (Hsub2 : node_ids dag ⊆+ order).
      { apply NoDup_submseteq; [apply Hsh |]. intros v Hv.
        destruct (decide (v ∈ order)); [done |].
        assert (Hf : v ∈ filter (fun v => v ∉ order) (node_ids dag)) by by apply list_elem_of_filter.
        rewrite Hnil in Hf. by apply elem_of_nil in Hf. }
      apply submseteq_length in Hsub, Hsub2. lia.
    + exfalso. destruct (cycle_exists (edge (d_edges dag)) _ Hne) as [v Hv]; [|by destruct (Ha v)].
      intros v [Hvo Hvn]%list_elem_of_filter.
      destruct (decide (Exists (fun e => e_to e = v /\ e_from e ∉ order) (d_edges dag))) as [Hex|Hno].
      * apply Exists_exists in Hex as ([u w] & He & Hw & Hu). cbn in Hw, Hu. subst w.
        exists u. split; [|done]. apply list_elem_of_filter. split; [done |].
        by apply (sh_edges _ Hsh) in He as [? _].
      * destruct Hvo. apply Hin. split; [done |]. intros u Hu.
        destruct (decide (u ∈ order)); [done |]. destruct Hno. apply Exists_exists.
        by exists (mkDagEdge u v).
  - intros Hl. apply (topological_acyclic _ order); [done | done |].
    intros e He. assert (Hp : order ≡ₚ node_ids dag)
      by (apply submseteq_length_Permutation; [done | lia]).
    rewrite Hp. by apply (sh_edges _ Hsh).
Qed.

(** C26: [validate_dag] always answers, accepts exactly the well-formed
    acyclic graphs, and hands out a topological order: a permutation of the
    nodes in which every node comes after all its predecessors. *)
Theorem validate_dag_correct dag :
  exists r, validate_dag dag = Some r /\
    (v_is_valid r = true <-> dag_ok dag) /\
    (forall order, v_topological_order r = Some order ->
       v_is_valid r = true /\ order ≡ₚ node_ids dag /\ topological (d_edges dag) order).
Proof.
  destruct (validate_dag_cases dag) as (r & Hr & Hcase). exists r. split; [done |].
  destruct Hcase as [[Hno (code & msg & -> & _)]|(Hsh & Hst & Hen & order & Hord & ->)].
  - split; [|done]. split; [done |]. intros [Hsh Ha]. destruct Hno. split; [done |].
    assert (Hne : node_ids dag <> []) by (intros E; apply map_eq_nil in E; by destruct Hsh).
    split; [apply acyclic_source | apply acyclic_sink]; try done; intros e He;
      by apply (sh_edges _ Hsh).
  - pose proof (kahn_order_complete dag order Hsh Hord) as Hac. unfold sorted_result.
    destruct (_ =? _)%nat eqn:E; cmp_hyps; cbn.
    + split; [split; [intros _; split; tauto | done] |]. intros o [= <-]. split; [done |].
      destruct Hord as (Hnd & Htop & Hin). split; [|done].
      apply submseteq_length_Permutation; [|unfold node_ids; rewrite length_map; lia].
      apply NoDup_submseteq; [done |]. intros v; rewrite Hin; tauto.
    + split; [|done]. split; [done |]. intros [_ Ha]. tauto.
Qed.

(** The cycle error is exact: it is reported for, and only for, a graph
    that is well formed, has a start and an end node, and has a cycle. *)
Theorem validate_dag_cycle dag r :
  validate_dag dag = Some r ->
  (v_error_code r = Some TASK_DAG_CYCLE <->
   dag_shape dag /\ has_start dag /\ has_end dag /\ ~ acyclic (d_edges dag)).
Proof.
  intros Hv. destruct (validate_dag_cases dag) as (r' & Hr & Hcase).
  rewrite Hv in Hr. injection Hr as <-.
  destruct Hcase as [[Hno (code & msg & -> & Hcode)]|(Hsh & Hst & Hen & order & Hord & ->)].
  - cbn. split; [congruence | tauto].
  - pose proof (kahn_order_complete dag order Hsh Hord) as Hac. unfold sorted_result.
    destruct (_ =? _)%nat eqn:E; cmp_hyps; cbn; [split; [done | tauto] |]. split; [|done].
    intros _. split; [done |]. split; [done |]. split; [done |]. tauto.
Qed.

(** ** Witness *)

Definition plain_node (id : string) (input_from : list string) : DagNode :=
  mkDagNode id "nwp://a/act" "urn:nps:agent:a" (Some input_from) None None None None 0 None None.

Definition looped : TaskDag :=
  mkTaskDag [plain_node "a" []; plain_node "b" []; plain_node "c" []; plain_node "d" []]
    [mkDagEdge "a" "b"; mkDagEdge "b" "c"; mkDagEdge "c" "b"; mkDagEdge "c" "d"].

Lemma validate_dag_cycle_witness : ~ acyclic (d_edges looped).
Proof.
  destruct (validate_dag_cycle looped
    (validation_failure TASK_DAG_CYCLE "DAG contains a cycle.")) as [H _];
    [vm_compute; reflexivity |].
  apply H. reflexivity.
Defined.
