(* ===== verification/NopMapper.v ===== *)
(** * NopMapper: input mapping and result aggregation

    Models nps-nop/src/input_mapper.rs and aggregator.rs.  The context of
    upstream results is a [gmap]; the [input_mapping] object is the list of
    its entries in iteration order. *)

From S2P Require Import Prelude RustStr Json NopModels.
Local Open Scope Z_scope.

Record MappingError : Type := mkMappingError { me_message : string; me_error_code : string }.
Definition mapping_error (message : string) : MappingError :=
  mkMappingError message INPUT_MAPPING_ERROR.

(** The path segments: [path.split('.')] without the empty ones. *)
Definition path_parts (path : string) : list string :=
  filter (fun s => s <> "") (split_on "."%char path).

(** [context.iter().collect()]: a [Map] is sorted by key, so the order of
    the [HashMap] does not show. *)
Definition context_object (context : gmap string Value) : Value :=
  VObject (map_collect (map_to_list context)).

Fixpoint navigate (current : Value) (parts : list string) : option Value :=
  match parts with
  | [] => Some current
  | part :: rest =>
    match current with
    | VObject obj => v ← map_get part obj; navigate v rest
    | _ => None
    end
  end.

Definition resolve (path : string) (context : gmap string Value)
    : result MappingError (option Value) :=
  if is_empty (trim path) then Err (mapping_error "Input mapping path must not be empty.")
  else if negb (starts_with "$." path)
  then Err (mapping_error ("Input mapping path must start with '$.' — got: " +:+ path))
  else
    let parts := path_parts path in
    if (MAX_INPUT_MAPPING_DEPTH + 1 <? length parts)%nat
    then Err (mapping_error ("Input mapping path depth " +:+ fmt_Z (Z.of_nat (length parts) - 1)
           +:+ " exceeds maximum " +:+ fmt_Z (Z.of_nat MAX_INPUT_MAPPING_DEPTH) +:+ ": " +:+ path))
    else
    match parts with
    | [_] => Ok (Some (context_object context))
    | _ :: node_id :: rest =>
      match context !! node_id with
      | Some node_result => Ok (navigate node_result rest)
      | None => Ok None
      end
    | [] => Ok None (* parts[1] of an empty list: excluded by the prefix *)
    end.

(** A [Value::String] resolves as a path, anything else stands for itself. *)
Definition resolve_leaf (p : Value) (context : gmap string Value) : result MappingError Value :=
  match p with
  | VString s => v ← resolve s context; Ok (default VNull v)
  | other => Ok other
  end.

Fixpoint resolve_list (arr : list Value) (context : gmap string Value)
    : result MappingError (list Value) :=
  match arr with
  | [] => Ok []
  | p :: rest => v ← resolve_leaf p context; vs ← resolve_list rest context; Ok (v :: vs)
  end.

Definition resolve_param (path_element : Value) (context : gmap string Value)
    : result MappingError Value :=
  match path_element with
  | VArray arr => l ← resolve_list arr context; Ok (VArray l)
  | other => resolve_leaf other context
  end.

Fixpoint build_loop (mapping : list (string * Value)) (context : gmap string Value) (out : Map)
    : result MappingError Map :=
  match mapping with
  | [] => Ok out
  | (param_name, path_element) :: rest =>
    resolved ← resolve_param path_element context;
    build_loop rest context (map_insert param_name resolved out)
  end.

Definition build_params (input_mapping : option (list (string * Value)))
    (context : gmap string Value) : result MappingError Value :=
  match input_mapping with
  | None | Some [] => Ok (VObject [])
  | Some mapping => out ← build_loop mapping context []; Ok (VObject out)
  end.

(** ** aggregator.rs *)

Fixpoint merge_from (i : nat) (results : list Value) (merged : Map) : Map :=
  match results with
  | [] => merged
  | VObject obj :: rest =>
    merge_from (S i) rest (fold_left (fun m kv => map_insert kv.1 kv.2 m) obj merged)
  | other :: rest =>
    merge_from (S i) rest (map_insert ("_result_" +:+ fmt_Z (Z.of_nat i)) other merged)
  end.

Definition merge (results : list Value) : Value := VObject (merge_from 0 results []).
Definition build_array (results : list Value) : Value := VArray results.

Definition aggregate (strategy : string) (results : list Value) (min_required : nat) : Value :=
  match results with
  | [] => VObject []
  | first :: _ =>
    if String.eqb strategy "first" then first
    else if String.eqb strategy "all" then build_array results
    else if String.eqb strategy "fastest_k" then
      let n := if (0 <? min_required)%nat then min_required else length results in
      build_array (take (Nat.min n (length results)) results)
    else merge results
  end.

Definition aggregate_end_nodes (end_node_ids : list string) (all_results : gmap string Value)
    (strategy : string) : Value :=
  aggregate strategy (omap (fun id => all_results !! id) end_node_ids) 0.

(** ** Paths *)

(** A path segment: not empty and without a dot. *)
Definition segment (s : string) : Prop := s <> "" /\ lacks "."%char s.

Lemma path_parts_join segs :
  Forall segment segs -> segs <> [] -> path_parts (join "." segs) = segs.
Proof.
  intros H Hne. unfold path_parts.
  rewrite (split_on_join "."%char) by (done || by eapply Forall_impl; [exact H | intros ? []]).
  clear Hne. induction H as [|s segs [Hs _] _ IH]; [done |].
  rewrite filter_cons_True by done. by rewrite IH.
Qed.

Lemma trim_dollar p : is_empty (trim ("$." +:+ p)) = false.
Proof.
  apply (trim_nonempty _ 36); [|done].
  change ("$." +:+ p) with (String.String "$"%char ("." +:+ p)). rewrite chars_cons by done.
  by left.
Qed.

(** Path resolution does what its documentation says: a path of at most
    eight named segments is the value found by following them through the
    upstream results, with [None] at the first missing one; a deeper path is
    refused. *)
Theorem resolve_path_spec context node segs :
  Forall segment (node :: segs) ->
  resolve (join "." ("$" :: node :: segs)) context =
    if (MAX_INPUT_MAPPING_DEPTH <? length (node :: segs))%nat
    then Err (mapping_error ("Input mapping path depth "
           +:+ fmt_Z (Z.of_nat (length (node :: segs))) +:+ " exceeds maximum "
           +:+ fmt_Z (Z.of_nat MAX_INPUT_MAPPING_DEPTH) +:+ ": "
           +:+ join "." ("$" :: node :: segs)))
    else Ok (result ← context !! node; navigate result segs).
Proof.
  intros H. set (path := join _ _).
  assert (Hpath : path = "$." +:+ join "." (node :: segs)) by done.
  unfold resolve. rewrite Hpath at 1. rewrite trim_dollar.
  assert (Hp : starts_with "$." path = true) by (apply starts_with_spec; eauto).
  rewrite Hp. cbn [negb].
  assert (Hparts : path_parts path = "$" :: node :: segs)
    by (apply path_parts_join; [constructor; [by split | done] | done]).
  rewrite Hparts. cbn [length].
  replace (MAX_INPUT_MAPPING_DEPTH + 1 <? S (S (length segs)))%nat
    with (MAX_INPUT_MAPPING_DEPTH <? S (length segs))%nat
    by (unfold MAX_INPUT_MAPPING_DEPTH; destruct (Nat.ltb_spec 8 (S (length segs)));
        symmetry; [apply Nat.ltb_lt | apply Nat.ltb_ge]; lia).
  replace (Z.of_nat (S (S (length segs))) - 1) with (Z.of_nat (S (length segs))) by lia.
  destruct (_ <? _)%nat; [done |].
  destruct (context !! node); done.
Qed.

(** ** Parameters *)

Lemma build_loop_spec mapping context out :
  NoDup (map fst mapping) ->
  match build_loop mapping context out with
  | Ok out' =>
      (forall k p, In (k, p) mapping ->
         exists v, resolve_param p context = Ok v /\ map_get k out' = Some v) /\
      (forall k, k ∉ map fst mapping -> map_get k out' = map_get k out) /\
      (keys_sorted out -> keys_sorted out')
  | Err e => exists k p, In (k, p) mapping /\ resolve_param p context = Err e
  end.
Proof.
  revert out. induction mapping as [|[k p] rest IH]; intros out Hnd; cbn [build_loop].
  { split; [done | split; done]. }
  apply NoDup_cons in Hnd as [Hk Hnd]. cbn in Hk.
  destruct (resolve_param p context) as [v|e] eqn:Hp; cbn [mbind result_bind];
    [|by exists k, p; split; [left |]].
  specialize (IH (map_insert k v out) Hnd). destruct (build_loop rest _ _) as [out'|e].
  - destruct IH as (H1 & H2 & H3). split; [|split].
    + intros k' p' [[= <- <-]|Hin]; [|eauto]. exists v. split; [done |].
      rewrite H2 by done. by rewrite map_get_insert, String.eqb_refl.
    + intros k' Hk'. cbn in Hk'. apply not_elem_of_cons in Hk' as [Hne Hk'].
      rewrite H2, map_get_insert by done. by destruct (String.eqb_spec k' k).
    + intros Hs. apply H3. by apply map_insert_keys_sorted.
  - destruct IH as (k' & p' & Hin & He). exists k', p'. split; [by right | done].
Qed.

(** [build_params] is a pointwise function of the mapping: it fails
    exactly when some parameter fails to resolve; otherwise the object holds
    the resolution of every parameter and nothing else, whatever the order in
    which the hash map yields its entries. *)
Theorem build_params_spec mapping context :
  NoDup (map fst mapping) ->
  ((exists e, build_params (Some mapping) context = Err e) <->
   (exists k p e, In (k, p) mapping /\ resolve_param p context = Err e)) /\
  (forall v, build_params (Some mapping) context = Ok v ->
     exists out, v = VObject out /\ keys_sorted out /\
       (forall k p, In (k, p) mapping ->
          exists r, resolve_param p context = Ok r /\ map_get k out = Some r) /\
       (forall k, k ∉ map fst mapping -> map_get k out = None)) /\
  (forall mapping' v, mapping ≡ₚ mapping' -> build_params (Some mapping) context = Ok v ->
     build_params (Some mapping') context = Ok v).
Proof.
  assert (Hbp : forall m, build_params (Some m) context
                = (out ← build_loop m context []; Ok (VObject out))) by by intros [|? ?].
  assert (Hnil : keys_sorted (@nil (string * Value))) by constructor.
  intros Hnd. pose proof (build_loop_spec mapping context [] Hnd) as H. rewrite !Hbp.
  destruct (build_loop mapping context []) as [out|e]; cbn [mbind result_bind].
  - destruct H as (H1 & H2 & H3). split; [|split].
    + split; [by intros [] |]. intros (k & p & e & Hin & He).
      destruct (H1 k p Hin) as (v & Hv & _). congruence.
    + intros v [= <-]. exists out. repeat split; auto.
    + intros mapping' v Hperm [= <-].
      assert (Hnd' : NoDup (map fst mapping')) by by rewrite <-Hperm.
      pose proof (build_loop_spec mapping' context [] Hnd') as H'. rewrite Hbp.
      destruct (build_loop mapping' context []) as [out'|e]; cbn [mbind result_bind].
      * destruct H' as (H1' & H2' & H3'). do 2 f_equal. symmetry. apply keys_sorted_ext; [auto | auto |].
        intros k. destruct (decide (k ∈ map fst mapping)) as [Hk|Hk].
        -- apply list_elem_of_In, in_map_iff in Hk as ([k' p] & <- & Hin). cbn.
           destruct (H1 k' p Hin) as (r & Hr & ->).
           destruct (H1' k' p) as (r' & Hr' & ->); [by rewrite <-Hperm | congruence].
        -- rewrite H2 by done. by rewrite H2' by by rewrite <-Hperm.
      * destruct H' as (k & p & Hin & He). rewrite <-Hperm in Hin.
        destruct (H1 k p Hin) as (r & Hr & _). congruence.
  - destruct H as (k & p & Hin & He). split; [|done]. split; [intros _; eauto | eauto].
Qed.

(** ** Aggregation *)

Lemma merge_objects i objs m :
  merge_from i (map VObject objs) m = fold_left (fun m kv => map_insert kv.1 kv.2 m) (concat objs) m.
Proof.
  revert i m. induction objs as [|o objs IH]; intros i m; [done |]. cbn [map merge_from concat].
  by rewrite IH, fold_left_app.
Qed.

Lemma fold_insert_spec (l : list (string * Value)) m :
  NoDup (map fst l) -> keys_sorted m ->
  keys_sorted (fold_left (fun m kv => map_insert kv.1 kv.2 m) l m) /\
  (forall k v, In (k, v) l -> map_get k (fold_left (fun m kv => map_insert kv.1 kv.2 m) l m) = Some v) /\
  (forall k, k ∉ map fst l -> map_get k (fold_left (fun m kv => map_insert kv.1 kv.2 m) l m) = map_get k m).
Proof.
  revert m. induction l as [|[k v] l IH]; intros m Hnd Hm; [done |].
  apply NoDup_cons in Hnd as [Hk Hnd]. cbn [fold_left fst snd].
  destruct (IH (map_insert k v m) Hnd) as (H1 & H2 & H3); [by apply map_insert_keys_sorted |].
  split; [done |]. split.
  - intros k' v' [[= <- <-]|Hin]; [|auto]. by rewrite H3, map_get_insert, String.eqb_refl by done.
  - intros k' Hk'. cbn in Hk'. apply not_elem_of_cons in Hk' as [Hne Hk'].
    rewrite H3, map_get_insert by done. by destruct (String.eqb_spec k' k).
Qed.

(** Merging object results does not depend on their order when no two of
    them share a key, and then keeps every entry of every object; the order
    comes from a hash map, so this is when the aggregate is determined. *)
Theorem merge_order_independent objs objs' :
  NoDup (map fst (concat objs)) -> objs ≡ₚ objs' ->
  merge (map VObject objs) = merge (map VObject objs') /\
  exists out, merge (map VObject objs) = VObject out /\
    forall k v, In (k, v) (concat objs) -> map_get k out = Some v.
Proof.
  intros Hnd Hp. unfold merge. rewrite !merge_objects.
  assert (Hc : concat objs ≡ₚ concat objs').
  { clear Hnd. induction Hp; cbn; [done | by rewrite IHHp | | by etransitivity].
    rewrite !app_assoc. by rewrite (Permutation_app_comm x y). }
  assert (Hnd' : NoDup (map fst (concat objs'))) by by rewrite <-Hc.
  assert (Hs : keys_sorted (@nil (string * Value))) by constructor.
  destruct (fold_insert_spec _ [] Hnd Hs) as (S1 & I1 & O1).
  destruct (fold_insert_spec _ [] Hnd' Hs) as (S2 & I2 & O2).
  split; [|eauto]. f_equal. apply keys_sorted_ext; [done | done |].
  intros k. destruct (decide (k ∈ map fst (concat objs))) as [Hk|Hk].
  - apply list_elem_of_In, in_map_iff in Hk as ([k' v] & <- & Hin). cbn.
    rewrite (I1 _ _ Hin). symmetry. apply I2. by rewrite <-Hc.
  - rewrite O1 by done. by rewrite O2 by by rewrite <-Hc.
Qed.

(** With a shared key the order decides: the last result wins. *)
Lemma merge_order_matters :
  merge (map VObject [[("a", vnat 1)]; [("a", vnat 2)]])
  <> merge (map VObject [[("a", vnat 2)]; [("a", vnat 1)]]).
Proof. vm_compute. discriminate. Qed.

(** ** Witnesses *)

Definition sample_context : gmap string Value :=
  <["fetch" := VObject [("body", VObject [("len", vnat 3)])]]> ∅.

Lemma resolve_path_witness :
  resolve "$.fetch.body.len" sample_context = Ok (Some (vnat 3)).
Proof.
  refine (eq_trans (resolve_path_spec sample_context "fetch" ["body"; "len"] _) _).
  - repeat constructor; discriminate.
  - vm_compute. reflexivity.
Defined.

Lemma build_params_witness :
  build_params (Some [("n", VString "$.fetch.body.len"); ("k", VArray [vnat 1; VString "$.no"])])
    sample_context = Ok (VObject [("k", VArray [vnat 1; VNull]); ("n", vnat 3)]).
Proof.
  destruct (build_params_spec [("k", VArray [vnat 1; VString "$.no"]); ("n", VString "$.fetch.body.len")]
              sample_context) as (_ & _ & H).
  - vm_compute. repeat constructor; set_solver.
  - apply H; [constructor | vm_compute; reflexivity].
Defined.

Lemma merge_order_witness :
  merge (map VObject [[("a", vnat 1)]; [("b", vnat 2)]])
  = merge (map VObject [[("b", vnat 2)]; [("a", vnat 1)]]).
Proof.
  apply (merge_order_independent [[("a", vnat 1)]; [("b", vnat 2)]]).
  - cbn. repeat constructor; set_solver.
  - constructor.
Defined.
