(* ===== verification/NopCondition.v ===== *)
(** * NopCondition: the condition language of DAG nodes

    Models nps-nop/src/condition.rs: the tokenizer, the recursive-descent
    parser that evaluates as it goes, and the value comparisons.  The parser
    works on the tokens from the current position on; reading past their end
    is the panic of the code's indexing.  [value_text] is [Value::to_string]
    on arrays and objects, which is third-party. *)

From S2P Require Import Prelude RustStr Floats Json NopModels NopMapper.
Local Open Scope Z_scope.

Record ConditionError : Type := mkConditionError { ce_message : string }.

Definition condition_error (message expression : string) : ConditionError :=
  mkConditionError (message +:+ "  Expression: «" +:+ expression +:+ "»").

(** ** Tokenizer *)

Inductive TokenKind : Type :=
| KDollarPath | KNumber | KStr | KTrue | KFalse | KNull
| KGt | KGte | KLt | KLte | KEq | KNeq | KAnd | KOr | KNot | KLParen | KRParen | KEof.
#[export] Instance TokenKind_eq_dec : EqDecision TokenKind.
Proof. solve_decision. Defined.

Record Token : Type := mkToken { tk_kind : TokenKind; tk_raw : string }.

Section condition.
Context {UT : UnicodeTables}.
Context (value_text : Value -> string).

Definition is_path_char (c : Z) : bool :=
  is_alphanumeric c || (c =? 95) || (c =? 46) || (c =? 36).
Definition is_number_char (c : Z) : bool := is_ascii_digit c || (c =? 46).

(** Two-character operators, tried before the one-character ones. *)
Definition two_char_op (c d : Z) : option Token :=
  if (c =? 62) && (d =? 61) then Some (mkToken KGte ">=")
  else if (c =? 60) && (d =? 61) then Some (mkToken KLte "<=")
  else if (c =? 61) && (d =? 61) then Some (mkToken KEq "==")
  else if (c =? 33) && (d =? 61) then Some (mkToken KNeq "!=")
  else if (c =? 38) && (d =? 38) then Some (mkToken KAnd "&&")
  else if (c =? 124) && (d =? 124) then Some (mkToken KOr "||")
  else None.

Definition one_char_op (c : Z) : option Token :=
  if c =? 62 then Some (mkToken KGt ">")
  else if c =? 60 then Some (mkToken KLt "<")
  else if c =? 33 then Some (mkToken KNot "!")
  else if c =? 40 then Some (mkToken KLParen "(")
  else if c =? 41 then Some (mkToken KRParen ")")
  else None.

Definition keyword (kw : string) : option Token :=
  if String.eqb kw "true" then Some (mkToken KTrue "true")
  else if String.eqb kw "false" then Some (mkToken KFalse "false")
  else if String.eqb kw "null" then Some (mkToken KNull "null")
  else None.

(** What the loop body takes from the characters [c :: rest] at position
    [i]: a token (none for white space) and the characters after it. *)
Definition next_token (input : string) (i : nat) (c : Z) (rest : list Z)
    : result ConditionError (option Token * list Z) :=
  let next := head rest in
  if is_whitespace c then Ok (None, rest)
  else if (c =? 36) && bool_decide (next = Some 46)
  then Ok (Some (mkToken KDollarPath (of_chars (take_while is_path_char (c :: rest)))),
           drop_while is_path_char (c :: rest))
  else if c =? 34
  then Ok (Some (mkToken KStr (of_chars (take_while (fun x => negb (x =? 34)) rest))),
           tail (drop_while (fun x => negb (x =? 34)) rest))
  else if is_ascii_digit c || ((c =? 45) && match next with Some d => is_ascii_digit d | None => false end)
  then
    let sign := if c =? 45 then [c] else [] in
    let body := if c =? 45 then rest else c :: rest in
    Ok (Some (mkToken KNumber (of_chars (sign ++ take_while is_number_char body))),
        drop_while is_number_char body)
  else
  match (d ← next; two_char_op c d) with
  | Some t => Ok (Some t, tail rest)
  | None =>
    match one_char_op c with
    | Some t => Ok (Some t, rest)
    | None =>
      if is_alphabetic c
      then
        let kw := of_chars (take_while is_alphanumeric (c :: rest)) in
        match keyword kw with
        | Some t => Ok (Some t, drop_while is_alphanumeric (c :: rest))
        | None => Err (condition_error ("Unknown token '" +:+ kw +:+ "'.") input)
        end
      else Err (condition_error ("Unexpected character '" +:+ of_chars [c] +:+ "' at position "
             +:+ fmt_Z (Z.of_nat i) +:+ ".") input)
    end
  end.

(** The [while i < n] loop; [None] when [fuel], which bounds the number of
    iterations, runs out. *)
Fixpoint tokenize_loop (fuel : nat) (input : string) (n : nat) (cs : list Z) (tokens : list Token)
    : option (result ConditionError (list Token)) :=
  match fuel with
  | O => None
  | S fuel =>
    match cs with
    | [] => Some (Ok (tokens ++ [mkToken KEof ""]))
    | c :: rest =>
      match next_token input (n - length cs) c rest with
      | Err e => Some (Err e)
      | Ok (None, cs') => tokenize_loop fuel input n cs' tokens
      | Ok (Some t, cs') => tokenize_loop fuel input n cs' (tokens ++ [t])
      end
    end
  end.

Definition tokenize (input : string) : option (result ConditionError (list Token)) :=
  let cs := chars input in tokenize_loop (S (length cs)) input (length cs) cs [].

(** ** Values *)

Inductive Val : Type :=
| Num (f : spec_float)
| Str (s : string)
| Bool (b : bool)
| Null.

Definition vals_equal (a b : Val) : bool :=
  match a, b with
  | Num x, Num y => SFeqb x y
  | Str x, Str y => String.eqb x y
  | Bool x, Bool y => Bool.eqb x y
  | Null, Null => true
  | _, _ => false
  end.

Definition is_comparison_op (k : TokenKind) : bool :=
  match k with KGt | KGte | KLt | KLte | KEq | KNeq => true | _ => false end.

Definition as_truthy (v : Val) : bool :=
  match v with
  | Bool b => b
  | Num d => negb (SFeqb d f_zero)
  | Str s => negb (is_empty s)
  | Null => false
  end.

Definition compare (lhs : Val) (op : TokenKind) (rhs : Val) : bool :=
  if decide (op = KEq) then vals_equal lhs rhs
  else if decide (op = KNeq) then negb (vals_equal lhs rhs)
  else
  match lhs, rhs with
  | Null, _ | _, Null => false
  | Num ld, Num rd =>
    match op with
    | KGt => SFltb rd ld
    | KGte => SFleb rd ld
    | KLt => SFltb ld rd
    | KLte => SFleb ld rd
    | _ => false
    end
  | Str ls, Str rs =>
    let cmp := String.compare ls rs in
    match op with
    | KGt => bool_decide (cmp = Gt)
    | KGte => negb (bool_decide (cmp = Lt))
    | KLt => bool_decide (cmp = Lt)
    | KLte => negb (bool_decide (cmp = Gt))
    | _ => false
    end
  | _, _ => false
  end.

(** ** Parser *)

(** A parse: the value and the remaining tokens, an error, or [None] for a
    panic (no current token) or exhausted fuel. *)
Definition parse_result (A : Type) : Type := option (result ConditionError (A * list Token)).

Definition pbind {A B} (m : parse_result A) (k : A -> list Token -> parse_result B)
    : parse_result B :=
  match m with
  | None => None
  | Some (Err e) => Some (Err e)
  | Some (Ok (a, ts)) => k a ts
  end.

(** [self.current().kind], whose index panics past the end. *)
Definition peek {A} (ts : list Token) (k : TokenKind -> parse_result A) : parse_result A :=
  match ts with [] => None | tok :: _ => k (tk_kind tok) end.

Definition resolve_path (context : gmap string Value) (path : string)
    : result ConditionError Val :=
  element ← map_err (fun e => condition_error (me_message e) path) (resolve path context);
  Ok match element with
     | None | Some VNull => Null
     | Some (VNumber n) => Num (default f_zero (number_as_f64 n))
     | Some (VString s) => Str s
     | Some (VBool b) => Bool b
     | Some other => Str (value_text other)
     end.

Definition token_value (context : gmap string Value) (tok : Token) : result ConditionError Val :=
  match tk_kind tok with
  | KDollarPath => resolve_path context (tk_raw tok)
  | KNumber =>
    match parse_f64 (tk_raw tok) with
    | Some f => Ok (Num f)
    | None => Err (condition_error ("Invalid number '" +:+ tk_raw tok +:+ "'.") "")
    end
  | KStr => Ok (Str (tk_raw tok))
  | KTrue => Ok (Bool true)
  | KFalse => Ok (Bool false)
  | KNull => Ok Null
  | _ => Err (condition_error ("Expected a value, got '" +:+ tk_raw tok +:+ "'.") "")
  end.

Definition parse_value (context : gmap string Value) (ts : list Token) : parse_result Val :=
  match ts with
  | [] => None
  | tok :: ts => Some (v ← token_value context tok; Ok (v, ts))
  end.

Section parser.
Variable context : gmap string Value.

Fixpoint parse_or_expr (fuel : nat) (ts : list Token) : parse_result bool :=
  match fuel with
  | O => None
  | S fuel => pbind (parse_and_expr fuel ts) (or_loop fuel)
  end
with or_loop (fuel : nat) (left : bool) (ts : list Token) : parse_result bool :=
  match fuel with
  | O => None
  | S fuel =>
    peek ts (fun k =>
      if decide (k = KOr)
      then pbind (parse_and_expr fuel (tail ts)) (fun right ts => or_loop fuel (left || right) ts)
      else Some (Ok (left, ts)))
  end
with parse_and_expr (fuel : nat) (ts : list Token) : parse_result bool :=
  match fuel with
  | O => None
  | S fuel => pbind (parse_not_expr fuel ts) (and_loop fuel)
  end
with and_loop (fuel : nat) (left : bool) (ts : list Token) : parse_result bool :=
  match fuel with
  | O => None
  | S fuel =>
    peek ts (fun k =>
      if decide (k = KAnd)
      then pbind (parse_not_expr fuel (tail ts)) (fun right ts => and_loop fuel (left && right) ts)
      else Some (Ok (left, ts)))
  end
with parse_not_expr (fuel : nat) (ts : list Token) : parse_result bool :=
  match fuel with
  | O => None
  | S fuel =>
    peek ts (fun k =>
      if decide (k = KNot)
      then pbind (parse_not_expr fuel (tail ts)) (fun b ts => Some (Ok (negb b, ts)))
      else parse_comparison fuel ts)
  end
with parse_comparison (fuel : nat) (ts : list Token) : parse_result bool :=
  match fuel with
  | O => None
  | S fuel =>
    peek ts (fun k =>
      if decide (k = KLParen)
      then
        pbind (parse_or_expr fuel (tail ts)) (fun inner ts =>
          peek ts (fun k =>
            if decide (k = KRParen) then Some (Ok (inner, tail ts))
            else Some (Err (condition_error "Expected ')'." ""))))
      else if decide (k = KTrue) then Some (Ok (true, tail ts))
      else if decide (k = KFalse) then Some (Ok (false, tail ts))
      else
        pbind (parse_value context ts) (fun lhs ts =>
          peek ts (fun op_kind =>
            if negb (is_comparison_op op_kind) then Some (Ok (as_truthy lhs, ts))
            else pbind (parse_value context (tail ts)) (fun rhs ts =>
                   Some (Ok (compare lhs op_kind rhs, ts))))))
  end.

(** Fuel enough for any token list ([parse_total]). *)
Definition parse_fuel (ts : list Token) : nat := 6 * length ts + 6.

End parser.

(** [evaluate]: the tokens after a complete expression are not looked at. *)
Definition evaluate (condition : string) (context : gmap string Value)
    : option (result ConditionError bool) :=
  if is_empty (trim condition) then Some (Ok true)
  else
    match tokenize (trim condition) with
    | None => None
    | Some (Err e) => Some (Err e)
    | Some (Ok tokens) =>
      match parse_or_expr context (parse_fuel tokens) tokens with
      | None => None
      | Some (Err e) => Some (Err e)
      | Some (Ok (b, _)) => Some (Ok b)
      end
    end.

(** ** The parser always answers *)

(** A token list the tokenizer makes: its only [KEof] is the last token. *)
Definition ends_eof (ts : list Token) : Prop :=
  exists l t, ts = l ++ [t] /\ tk_kind t = KEof /\ Forall (fun t => tk_kind t <> KEof) l.

Lemma ends_eof_cons t ts : ends_eof (t :: ts) -> tk_kind t <> KEof -> ends_eof ts.
Proof.
  intros ([|x l] & e & E & He & Hl) Ht; cbn in E; simplify_eq.
  exists l, e. by inversion_clear Hl.
Qed.

Lemma ends_eof_not_nil : ~ ends_eof [].
Proof. by intros ([|? ?] & ? & E & _). Qed.

Definition answers {A} (m : parse_result A) (Q : list Token -> Prop) : Prop :=
  exists r, m = Some r /\ forall a ts, r = Ok (a, ts) -> Q ts.

Lemma answers_bind {A B} (m : parse_result A) (k : A -> list Token -> parse_result B) P Q :
  answers m P -> (forall a ts, P ts -> answers (k a ts) Q) -> answers (pbind m k) Q.
Proof.
  intros (r & -> & Hr) Hk. destruct r as [[a ts]|e]; cbn; [by eapply Hk, Hr |].
  by exists (Err e).
Qed.

Lemma answers_weaken {A} (m : parse_result A) (P Q : list Token -> Prop) :
  answers m P -> (forall ts, P ts -> Q ts) -> answers m Q.
Proof. intros (r & Hm & Hr) HPQ. exists r. split; [done | eauto]. Qed.

(** What is left is shorter, and still ends in the end token. *)
Definition shorter (n : nat) (ts : list Token) : Prop := ends_eof ts /\ (length ts < n)%nat.

Lemma peek_answers {A} ts (k : TokenKind -> parse_result A) Q :
  ends_eof ts -> (forall t r, ts = t :: r -> answers (k (tk_kind t)) Q) -> answers (peek ts k) Q.
Proof. destruct ts as [|t r]; intros He Hk; [by destruct ends_eof_not_nil | by apply (Hk t r)]. Qed.

Lemma answers_ret {A} (a : A) ts Q : Q ts -> answers (Some (Ok (a, ts))) Q.
Proof. intros HQ. exists (Ok (a, ts)). split; [done |]. by intros ? ? [= _ <-]. Qed.

Lemma answers_err {A} e Q : answers (A := A) (Some (Err e)) Q.
Proof. by exists (Err e). Qed.

Lemma parse_value_answers context ts n :
  ends_eof ts -> (length ts <= n)%nat -> answers (parse_value context ts) (shorter n).
Proof.
  destruct ts as [|t r]; intros He Hn; [by destruct ends_eof_not_nil |].
  cbn [parse_value length] in *. destruct (token_value context t) as [v|e] eqn:E; cbn;
    [|apply answers_err].
  apply answers_ret. split; [|lia]. apply (ends_eof_cons t); [done |].
  intros Hk. unfold token_value in E. by rewrite Hk in E.
Qed.

Section total.
Variable context : gmap string Value.

Lemma parsers_total fuel :
  (forall ts, ends_eof ts -> (6 * length ts + 4 <= fuel)%nat ->
     answers (parse_or_expr context fuel ts) (shorter (length ts))) /\
  (forall left ts, ends_eof ts -> (6 * length ts + 1 <= fuel)%nat ->
     answers (or_loop context fuel left ts) (shorter (S (length ts)))) /\
  (forall ts, ends_eof ts -> (6 * length ts + 3 <= fuel)%nat ->
     answers (parse_and_expr context fuel ts) (shorter (length ts))) /\
  (forall left ts, ends_eof ts -> (6 * length ts + 1 <= fuel)%nat ->
     answers (and_loop context fuel left ts) (shorter (S (length ts)))) /\
  (forall ts, ends_eof ts -> (6 * length ts + 2 <= fuel)%nat ->
     answers (parse_not_expr context fuel ts) (shorter (length ts))) /\
  (forall ts, ends_eof ts -> (6 * length ts + 1 <= fuel)%nat ->
     answers (parse_comparison context fuel ts) (shorter (length ts))).
Proof.
  induction fuel as [|fuel (IHor & IHol & IHand & IHal & IHnot & IHcmp)]; [repeat split; intros; lia |].
  repeat split.
  - intros ts He Hf. cbn [parse_or_expr]. eapply answers_bind; [apply IHand; [done | lia] |].
    intros b ts' [He' Hl]. eapply answers_weaken; [apply IHol; [done | lia] |].
    intros ts'' [? ?]. split; [done | lia].
  - intros left ts He Hf. cbn [or_loop]. apply peek_answers; [done |]. intros t r ->. cbn [length tail] in *.
    case_decide as Hk; [|by apply answers_ret; split; [|cbn; lia]].
    eapply answers_bind; [apply IHand; [eapply ends_eof_cons; [done | congruence] | lia] |].
    intros b ts' [He' Hl]. eapply answers_weaken; [apply IHol; [done | lia] |].
    intros ts'' [? ?]. split; [done | lia].
  - intros ts He Hf. cbn [parse_and_expr]. eapply answers_bind; [apply IHnot; [done | lia] |].
    intros b ts' [He' Hl]. eapply answers_weaken; [apply IHal; [done | lia] |].
    intros ts'' [? ?]. split; [done | lia].
  - intros left ts He Hf. cbn [and_loop]. apply peek_answers; [done |]. intros t r ->. cbn [length tail] in *.
    case_decide as Hk; [|by apply answers_ret; split; [|cbn; lia]].
    eapply answers_bind; [apply IHnot; [eapply ends_eof_cons; [done | congruence] | lia] |].
    intros b ts' [He' Hl]. eapply answers_weaken; [apply IHal; [done | lia] |].
    intros ts'' [? ?]. split; [done | lia].
  - intros ts He Hf. cbn [parse_not_expr]. apply peek_answers; [done |]. intros t r ->.
    case_decide as Hk; [|apply IHcmp; [done | lia]]. cbn [length tail] in *.
    eapply answers_bind; [apply IHnot; [eapply ends_eof_cons; [done | congruence] | lia] |].
    intros b ts' [He' Hl]. apply answers_ret. split; [done | lia].
  - intros ts He Hf. cbn [parse_comparison]. apply peek_answers; [done |]. intros t r ->. cbn [length tail] in *.
    case_decide as Hk.
    { eapply answers_bind; [apply IHor; [eapply ends_eof_cons; [done | congruence] | lia] |].
      intros b ts' [He' Hl]. apply peek_answers; [done |]. intros t' r' ->.
      case_decide; [|apply answers_err]. apply answers_ret. cbn in Hl |- *.
      split; [eapply ends_eof_cons; [done | congruence] | lia]. }
    case_decide; [apply answers_ret; split; [eapply ends_eof_cons; [done | congruence] | cbn; lia] |].
    case_decide; [apply answers_ret; split; [eapply ends_eof_cons; [done | congruence] | cbn; lia] |].
    eapply answers_bind; [apply (parse_value_answers _ _ (S (length r))); [done | cbn; lia] |].
    intros v ts' [He' Hl]. apply peek_answers; [done |]. intros t' r' ->. cbn [length tail] in *.
    destruct (is_comparison_op (tk_kind t')) eqn:Hop; cbn [negb];
      [|by apply answers_ret; split; [|cbn; lia]].
    eapply answers_bind;
      [apply (parse_value_answers _ _ (length r')); [eapply ends_eof_cons; [done |] | lia] |].
    { intros Hx. by rewrite Hx in Hop. }
    intros w ts'' [? ?]. apply answers_ret. split; [done | lia].
Qed.

Lemma parse_total ts :
  ends_eof ts -> exists r, parse_or_expr context (parse_fuel ts) ts = Some r.
Proof.
  intros He. destruct (parsers_total (parse_fuel ts)) as [H _].
  destruct (H ts He) as (r & Hr & _); [unfold parse_fuel; lia | eauto].
Qed.

End total.

(** ** So does the tokenizer *)

Lemma alphabetic_alphanumeric c : is_alphabetic c = true -> is_alphanumeric c = true.
Proof. unfold is_alphabetic, is_alphanumeric. destruct (c <? 128); intros ->; done. Qed.

Lemma tail_length {A} (l : list A) : (length (tail l) <= length l)%nat.
Proof. destruct l; cbn; lia. Qed.

Lemma two_char_op_kind c d t : two_char_op c d = Some t -> tk_kind t <> KEof.
Proof. unfold two_char_op. intros H. repeat case_match; by simplify_eq. Qed.
Lemma one_char_op_kind c t : one_char_op c = Some t -> tk_kind t <> KEof.
Proof. unfold one_char_op. intros H. repeat case_match; by simplify_eq. Qed.
Lemma keyword_kind s t : keyword s = Some t -> tk_kind t <> KEof.
Proof. unfold keyword. intros H. repeat case_match; by simplify_eq. Qed.

(** Every step consumes a character, and makes no end token. *)
Lemma next_token_progress input i c rest o cs' :
  next_token input i c rest = Ok (o, cs') ->
  (length cs' <= length rest)%nat /\ forall t, o = Some t -> tk_kind t <> KEof.
Proof.
  unfold next_token. cbv zeta. intros H.
  destruct (is_whitespace c); [by simplify_eq |].
  destruct ((c =? 36) && _) eqn:E1.
  { simplify_eq. split; [|by intros ? [= <-]]. bool_hyps. cmp_hyps. subst c.
    apply drop_while_length. }
  destruct (c =? 34).
  { simplify_eq. split; [|by intros ? [= <-]]. etransitivity; [apply tail_length | apply drop_while_length]. }
  destruct (is_ascii_digit c || _) eqn:E2.
  { simplify_eq. split; [|by intros ? [= <-]]. destruct (c =? 45) eqn:E3; [apply drop_while_length |].
    rewrite andb_false_l, orb_false_r in E2. cbn [drop_while]. unfold is_number_char at 1.
    rewrite E2. apply drop_while_length. }
  destruct (head rest ≫= two_char_op c) as [t|] eqn:E3.
  { simplify_eq. split; [apply tail_length |]. intros ? [= <-].
    destruct rest as [|d rest]; cbn in E3; [done |]. by apply two_char_op_kind in E3. }
  destruct (one_char_op c) as [t|] eqn:E4.
  { simplify_eq. split; [done |]. intros ? [= <-]. by apply one_char_op_kind in E4. }
  destruct (is_alphabetic c) eqn:E5; [|done].
  destruct (keyword _) as [t|] eqn:E6; [|done]. simplify_eq.
  split; [|intros ? [= <-]; by apply keyword_kind in E6].
  cbn [drop_while]. rewrite alphabetic_alphanumeric by done. apply drop_while_length.
Qed.

Lemma tokenize_loop_total fuel input n cs tokens :
  (length cs < fuel)%nat -> Forall (fun t => tk_kind t <> KEof) tokens ->
  exists r, tokenize_loop fuel input n cs tokens = Some r /\ forall ts, r = Ok ts -> ends_eof ts.
Proof.
  revert cs tokens. induction fuel as [|fuel IH]; intros cs tokens Hl Ht; [lia |].
  cbn [tokenize_loop]. destruct cs as [|c rest].
  { eexists. split; [done |]. intros ts [= <-]. by exists tokens, (mkToken KEof ""). }
  destruct (next_token input _ c rest) as [[[t|] cs']|e] eqn:E; [| |by exists (Err e)];
    apply next_token_progress in E as [Hc Hk]; cbn in Hl.
  - apply IH; [lia |]. apply Forall_app. split; [done |]. constructor; [by apply Hk | constructor].
  - apply IH; [lia | done].
Qed.

(** Evaluation of a condition always returns: neither the tokenizer nor
    the parser indexes out of bounds or loops, whatever the string. *)
Theorem evaluate_total condition context : exists r, evaluate condition context = Some r.
Proof.
  unfold evaluate. destruct (is_empty _); [eauto |].
  destruct (tokenize_loop_total (S (length (chars (trim condition)))) (trim condition)
    (length (chars (trim condition))) (chars (trim condition)) []) as (r & Hr & He); [lia | done |].
  unfold tokenize. cbv zeta. rewrite Hr. destruct r as [ts|e]; [|eauto].
  destruct (parse_total context ts) as (r & ->); [by apply He |].
  destruct r as [[b ?]|e]; eauto.
Qed.

End condition.
