(* ===== verification/NopConditionSpec.v ===== *)
(** * NopConditionSpec: what condition expressions mean

    An abstract syntax for the conditions of NopCondition, a printer with
    the usual precedences ([!] over [&&] over [||], both binary operators to
    the left), a direct evaluation, and the theorem that the tokenizer and
    the one-pass parser compute exactly that evaluation on printed
    expressions. *)

From S2P Require Import Prelude RustStr Floats Json NopModels NopMapper NopCondition.
Local Open Scope Z_scope.

(** ** Syntax *)

Inductive lit : Type :=
| LPath (l : list Z)
| LNum (l : list Z)
| LStr (l : list Z)
| LBool (b : bool)
| LNull.

Inductive cmp_op : Type := OGt | OGte | OLt | OLte | OEq | ONeq.

Inductive expr : Type :=
| EOr (a b : expr)
| EAnd (a b : expr)
| ENot (a : expr)
| EConst (b : bool)
| EVal (v : lit)
| ECmp (l : lit) (op : cmp_op) (r : lit).

Definition bool_token (b : bool) : Token :=
  if b then mkToken KTrue "true" else mkToken KFalse "false".

Definition lit_token (v : lit) : Token :=
  match v with
  | LPath l => mkToken KDollarPath (of_chars l)
  | LNum l => mkToken KNumber (of_chars l)
  | LStr l => mkToken KStr (of_chars l)
  | LBool b => bool_token b
  | LNull => mkToken KNull "null"
  end.

Definition op_token (op : cmp_op) : Token :=
  match op with
  | OGt => mkToken KGt ">"
  | OGte => mkToken KGte ">="
  | OLt => mkToken KLt "<"
  | OLte => mkToken KLte "<="
  | OEq => mkToken KEq "=="
  | ONeq => mkToken KNeq "!="
  end.

Definition paren (l : list Token) : list Token :=
  mkToken KLParen "(" :: l ++ [mkToken KRParen ")"].

(** The tokens of [e] where an operator of level [lvl] or above may stand. *)
Fixpoint pr (lvl : nat) (e : expr) : list Token :=
  match e with
  | EOr a b =>
    let s := pr 0 a ++ mkToken KOr "||" :: pr 1 b in
    if decide (lvl = 0%nat) then s else paren s
  | EAnd a b =>
    let s := pr 1 a ++ mkToken KAnd "&&" :: pr 2 b in
    if decide (lvl <= 1)%nat then s else paren s
  | ENot a =>
    let s := mkToken KNot "!" :: pr 2 a in
    if decide (lvl <= 2)%nat then s else paren s
  | EConst b => [bool_token b]
  | EVal v => [lit_token v]
  | ECmp l op r => [lit_token l; op_token op; lit_token r]
  end.

(** The expressions without a Boolean literal at the left of a comparison.  The
    grammar has those comparisons too, but the parser takes a leading [true] or
    [false] for a whole comparison. *)
Definition not_bool (v : lit) : bool := match v with LBool _ => false | _ => true end.

Fixpoint expr_ok (e : expr) : Prop :=
  match e with
  | EOr a b | EAnd a b => expr_ok a /\ expr_ok b
  | ENot a => expr_ok a
  | EConst _ | EVal _ => True
  | ECmp l _ _ => not_bool l = true
  end.

Section spec.
Context {UT : UnicodeTables}.
Context (value_text : Value -> string).
Context (context : gmap string Value).

(** The order on values: numbers by IEEE comparison, strings by their bytes;
    nothing else is ordered, and NaN is not ordered with anything. *)
Definition val_order (a b : Val) : option comparison :=
  match a, b with
  | Num x, Num y => SFcompare x y
  | Str x, Str y => Some (String.compare x y)
  | _, _ => None
  end.

Definition val_same (a b : Val) : bool :=
  match a, b with
  | Null, Null => true
  | Bool x, Bool y => bool_decide (x = y)
  | _, _ => bool_decide (val_order a b = Some Eq)
  end.

Definition cmp_sem (op : cmp_op) (a b : Val) : bool :=
  match op with
  | OEq => val_same a b
  | ONeq => negb (val_same a b)
  | OGt => bool_decide (val_order a b = Some Gt)
  | OLt => bool_decide (val_order a b = Some Lt)
  | OGte => bool_decide (val_order a b = Some Gt \/ val_order a b = Some Eq)
  | OLte => bool_decide (val_order a b = Some Lt \/ val_order a b = Some Eq)
  end.

Definition eval_lit (v : lit) : result ConditionError Val :=
  token_value value_text context (lit_token v).

(** Both operands are always evaluated, left first: an error in either is
    the error of the whole. *)
Fixpoint eval (e : expr) : result ConditionError bool :=
  match e with
  | EOr a b => x ← eval a; y ← eval b; Ok (x || y)
  | EAnd a b => x ← eval a; y ← eval b; Ok (x && y)
  | ENot a => x ← eval a; Ok (negb x)
  | EConst b => Ok b
  | EVal v => x ← eval_lit v; Ok (as_truthy x)
  | ECmp l op r => x ← eval_lit l; y ← eval_lit r; Ok (cmp_sem op x y)
  end.

(** What the evaluator makes of any expression: the value, and whether it
    stopped before the end of it.  It stops at the operator of a comparison with
    a Boolean literal at its left, whose value is then that literal; what is
    left of the expression is dropped, up to a parenthesis, which is refused. *)
Definition closing (r : result ConditionError (bool * bool)) : result ConditionError (bool * bool) :=
  '(b, stop) ← r;
  if (stop : bool) then Err (condition_error "Expected ')'." "") else Ok (b, false).

Fixpoint run (lvl : nat) (e : expr) : result ConditionError (bool * bool) :=
  match e with
  | EOr a b =>
    let s := '(x, stop) ← run 0 a;
             if (stop : bool) then Ok (x, true) else '(y, stop) ← run 1 b; Ok (x || y, stop) in
    if decide (lvl = 0%nat) then s else closing s
  | EAnd a b =>
    let s := '(x, stop) ← run 1 a;
             if (stop : bool) then Ok (x, true) else '(y, stop) ← run 2 b; Ok (x && y, stop) in
    if decide (lvl <= 1)%nat then s else closing s
  | ENot a =>
    let s := '(x, stop) ← run 2 a; Ok (negb x, stop) in
    if decide (lvl <= 2)%nat then s else closing s
  | EConst b => Ok (b, false)
  | EVal v => x ← eval_lit v; Ok (as_truthy x, false)
  | ECmp (LBool b) _ _ => Ok (b, true)
  | ECmp l op r => x ← eval_lit l; y ← eval_lit r; Ok (cmp_sem op x y, false)
  end.

Lemma closing_done (r : result ConditionError bool) : closing (b ← r; Ok (b, false)) = (b ← r; Ok (b, false)).
Proof. by destruct r. Qed.

(** Without such comparisons that is the direct evaluation. *)
Lemma run_eval e lvl : expr_ok e -> run lvl e = (b ← eval e; Ok (b, false)).
Proof.
  revert lvl. induction e as [a IHa b IHb|a IHa b IHb|a IHa|b|v|l op r]; intros lvl Hok; cbn [run eval expr_ok] in *.
  - destruct Hok as [Ha Hb]. rewrite IHa, IHb by done.
    assert (E : forall f : bool -> bool -> bool, ('(x, stop) ← (b0 ← eval a; Ok (b0, false));
      if (stop : bool) then Ok (x, true) else '(y, stop) ← (b0 ← eval b; Ok (b0, false)); Ok (f x y, stop))
      = (b0 ← (x ← eval a; y ← eval b; Ok (f x y)); Ok (b0, false)))
      by (intros f; destruct (eval a); [|done]; by destruct (eval b)).
    rewrite (E orb), closing_done. by case_decide.
  - destruct Hok as [Ha Hb]. rewrite IHa, IHb by done.
    assert (E : forall f : bool -> bool -> bool, ('(x, stop) ← (b0 ← eval a; Ok (b0, false));
      if (stop : bool) then Ok (x, true) else '(y, stop) ← (b0 ← eval b; Ok (b0, false)); Ok (f x y, stop))
      = (b0 ← (x ← eval a; y ← eval b; Ok (f x y)); Ok (b0, false)))
      by (intros f; destruct (eval a); [|done]; by destruct (eval b)).
    rewrite (E andb), closing_done. by case_decide.
  - rewrite IHa by done.
    assert (E : ('(x, stop) ← (b ← eval a; Ok (b, false)); Ok (negb x, stop))
      = (b ← (x ← eval a; Ok (negb x)); Ok (b, false))) by by destruct (eval a).
    rewrite E, closing_done. by case_decide.
  - done.
  - by destruct (eval_lit v).
  - assert (E : (x ← eval_lit l; y ← eval_lit r; Ok (cmp_sem op x y, false))
      = (b ← (x ← eval_lit l; y ← eval_lit r; Ok (cmp_sem op x y)); Ok (b, false))).
    { destruct (eval_lit l); [cbn [mbind result_bind] | done]. by destruct (eval_lit r). }
    by destruct l.
Qed.

(** ** Comparison *)

Lemma SFcompare_swap x y : SFcompare y x = CompOpp <$> SFcompare x y.
Proof.
  destruct x as [s|s| |s m e], y as [s'|s'| |s' m' e']; try destruct s; try destruct s';
    try reflexivity; cbn; rewrite (Z.compare_antisym e e'); destruct (e ?= e')%Z; cbn;
    try reflexivity; change PosDef.Pos.compare_cont with Pos.compare_cont;
    rewrite (Pos.compare_cont_antisym _ _ Eq); cbn; by destruct (Pos.compare_cont Eq _ _).
Qed.

Local Ltac dec := first [rewrite decide_True by done | rewrite !decide_False by done
                        | rewrite decide_False, decide_True by done].
(** The code's comparison is the order of the values. *)
Lemma compare_sem op x y : compare x (tk_kind (op_token op)) y = cmp_sem op x y.
Proof.
  unfold compare.
  destruct x as [f|s|b|], y as [g|t|c|];
    try (destruct op; cbn [op_token tk_kind cmp_sem]; dec; reflexivity).
  - destruct op; cbn [op_token tk_kind cmp_sem]; dec;
      cbn [val_same val_order vals_equal]; unfold SFltb, SFleb, SFeqb; try rewrite (SFcompare_swap f g);
      destruct (SFcompare f g) as [[]|]; reflexivity.
  - assert (Heq : String.eqb s t = bool_decide (Some (String.compare s t) = Some Eq)).
    { destruct (String.eqb_spec s t) as [->|Hne].
      - pose proof (String.compare_antisym t t) as E. by destruct (String.compare t t).
      - rewrite bool_decide_false; [done |]. by intros [= ?%String.compare_eq_iff]. }
    destruct op; cbn [op_token tk_kind cmp_sem]; dec;
      cbn [val_same val_order vals_equal]; cbv zeta; rewrite ?Heq; by destruct (String.compare s t).
  - destruct op; cbn [op_token tk_kind cmp_sem]; dec; by destruct b, c.
Qed.

(** ** Parsing printed expressions *)

(** With enough fuel [p] yields [r]. *)
Definition runs {A} (p : nat -> parse_result A) (r : result ConditionError (A * list Token)) : Prop :=
  exists n, forall f, (n <= f)%nat -> p f = Some r.

Lemma runs_S {A} (p body : nat -> parse_result A) r :
  (forall f, p (S f) = body f) -> runs body r -> runs p r.
Proof.
  intros Hp [n Hn]. exists (S n). intros [|f] Hf; [lia |]. rewrite Hp. apply Hn. lia.
Qed.

Lemma runs_const {A} (p : nat -> parse_result A) r : (forall f, p f = Some r) -> runs p r.
Proof. intros H. by exists 0%nat. Qed.

(** One step of each parsing function. *)
Lemma parse_or_S f ts :
  parse_or_expr value_text context (S f) ts
  = pbind (parse_and_expr value_text context f ts) (or_loop value_text context f).
Proof. reflexivity. Qed.

Lemma or_loop_S f left ts :
  or_loop value_text context (S f) left ts = peek ts (fun k =>
    if decide (k = KOr)
    then pbind (parse_and_expr value_text context f (tail ts))
           (fun right ts => or_loop value_text context f (left || right) ts)
    else Some (Ok (left, ts))).
Proof. reflexivity. Qed.

Lemma parse_and_S f ts :
  parse_and_expr value_text context (S f) ts
  = pbind (parse_not_expr value_text context f ts) (and_loop value_text context f).
Proof. reflexivity. Qed.

Lemma and_loop_S f left ts :
  and_loop value_text context (S f) left ts = peek ts (fun k =>
    if decide (k = KAnd)
    then pbind (parse_not_expr value_text context f (tail ts))
           (fun right ts => and_loop value_text context f (left && right) ts)
    else Some (Ok (left, ts))).
Proof. reflexivity. Qed.

Lemma parse_not_S f ts :
  parse_not_expr value_text context (S f) ts = peek ts (fun k =>
    if decide (k = KNot)
    then pbind (parse_not_expr value_text context f (tail ts)) (fun b ts => Some (Ok (negb b, ts)))
    else parse_comparison value_text context f ts).
Proof. reflexivity. Qed.

Lemma parse_comparison_S f ts :
  parse_comparison value_text context (S f) ts = peek ts (fun k =>
    if decide (k = KLParen)
    then
      pbind (parse_or_expr value_text context f (tail ts)) (fun inner ts =>
        peek ts (fun k =>
          if decide (k = KRParen) then Some (Ok (inner, tail ts))
          else Some (Err (condition_error "Expected ')'." ""))))
    else if decide (k = KTrue) then Some (Ok (true, tail ts))
    else if decide (k = KFalse) then Some (Ok (false, tail ts))
    else
      pbind (parse_value value_text context ts) (fun lhs ts =>
        peek ts (fun op_kind =>
          if negb (is_comparison_op op_kind) then Some (Ok (as_truthy lhs, ts))
          else pbind (parse_value value_text context (tail ts)) (fun rhs ts =>
                 Some (Ok (compare lhs op_kind rhs, ts)))))).
Proof. reflexivity. Qed.

Ltac run_step :=
  match goal with
  | |- runs ?p ?r =>
    let H := lazymatch p with
      | fun f => parse_or_expr _ _ _ ?k => constr:(fun f => parse_or_S f k)
      | fun f => or_loop _ _ _ ?b ?k => constr:(fun f => or_loop_S f b k)
      | fun f => parse_and_expr _ _ _ ?k => constr:(fun f => parse_and_S f k)
      | fun f => and_loop _ _ _ ?b ?k => constr:(fun f => and_loop_S f b k)
      | fun f => parse_not_expr _ _ _ ?k => constr:(fun f => parse_not_S f k)
      | fun f => parse_comparison _ _ _ ?k => constr:(fun f => parse_comparison_S f k)
      end in
    eapply (runs_S p _ r);
    [intros f; etransitivity;
     [exact (H f) | cbn [app peek tk_kind tail];
      repeat first [rewrite decide_True by done | rewrite decide_False by done]; reflexivity]
    | cbv beta]
  end.

Lemma runs_bind {A B} (p : nat -> parse_result A) (k : nat -> A -> list Token -> parse_result B)
    (m : result ConditionError A) ts r :
  runs p (a ← m; Ok (a, ts)) ->
  match m with Ok a => runs (fun f => k f a ts) r | Err e => r = Err e end ->
  runs (fun f => pbind (p f) (k f)) r.
Proof.
  intros [n Hn] Hk. destruct m as [a|e]; cbn in Hn.
  - destruct Hk as [n' Hn']. exists (Nat.max n n'). intros f Hf. rewrite Hn by lia. cbn.
    apply Hn'. lia.
  - exists n. intros f Hf. rewrite Hn by done. cbn. by subst.
Qed.

(** What may follow an expression: not a comparison operator, so that a
    value is not taken for the left of one. *)
Definition follows (ok : TokenKind -> Prop) (k : list Token) : Prop :=
  exists t r, k = t :: r /\ is_comparison_op (tk_kind t) = false /\ ok (tk_kind t).

(** Where the parser stopped: at a comparison operator. *)
Definition stuck (k : list Token) : Prop := exists t r, k = t :: r /\ is_comparison_op (tk_kind t) = true.

(** What a parser does on a printed expression and what follows: it goes on
    with [after], or stops, or fails. *)
Definition parses_to (m : result ConditionError (bool * bool)) (p : nat -> parse_result bool)
    (after : bool -> result ConditionError (bool * list Token) -> Prop) : Prop :=
  match m with
  | Ok (b, false) => forall r, after b r -> runs p r
  | Ok (b, true) => exists k', stuck k' /\ runs p (Ok (b, k'))
  | Err x => runs p (Err x)
  end.

Definition parses_or (e : expr) : Prop := forall k, follows (fun x => x <> KAnd) k ->
  parses_to (run 0 e) (fun f => parse_or_expr value_text context f (pr 0 e ++ k))
    (fun b => runs (fun f => or_loop value_text context f b k)).

Definition parses_and (e : expr) : Prop := forall k, follows (fun _ => True) k ->
  parses_to (run 1 e) (fun f => parse_and_expr value_text context f (pr 1 e ++ k))
    (fun b => runs (fun f => and_loop value_text context f b k)).

Definition parses_not (e : expr) : Prop := forall k, follows (fun _ => True) k ->
  parses_to (run 2 e) (fun f => parse_not_expr value_text context f (pr 2 e ++ k)) (fun b r => r = Ok (b, k)).

Definition parses_cmp (e : expr) : Prop := forall k, follows (fun _ => True) k ->
  parses_to (run 3 e) (fun f => parse_comparison value_text context f (pr 3 e ++ k)) (fun b r => r = Ok (b, k)).

Lemma follows_weaken (P Q : TokenKind -> Prop) k :
  (forall x, P x -> Q x) -> follows P k -> follows Q k.
Proof. intros HPQ (t & r & H1 & H2 & H3). exists t, r. auto. Qed.

Lemma and_loop_halts b t k : tk_kind t <> KAnd -> runs (fun f => and_loop value_text context f b (t :: k)) (Ok (b, t :: k)).
Proof. intros Hne. run_step. by apply runs_const. Qed.
Lemma or_loop_halts b t k : tk_kind t <> KOr -> runs (fun f => or_loop value_text context f b (t :: k)) (Ok (b, t :: k)).
Proof. intros Hne. run_step. by apply runs_const. Qed.

Lemma and_loop_stop b k :
  follows (fun x => x <> KAnd) k -> runs (fun f => and_loop value_text context f b k) (Ok (b, k)).
Proof. intros (t & r & -> & _ & Hne). by apply and_loop_halts. Qed.
Lemma or_loop_stop b k :
  follows (fun x => x <> KOr) k -> runs (fun f => or_loop value_text context f b k) (Ok (b, k)).
Proof. intros (t & r & -> & _ & Hne). by apply or_loop_halts. Qed.
Lemma and_loop_stuck b k : stuck k -> runs (fun f => and_loop value_text context f b k) (Ok (b, k)).
Proof. intros (t & r & -> & Ht). apply and_loop_halts. intros E. by rewrite E in Ht. Qed.
Lemma or_loop_stuck b k : stuck k -> runs (fun f => or_loop value_text context f b k) (Ok (b, k)).
Proof. intros (t & r & -> & Ht). apply or_loop_halts. intros E. by rewrite E in Ht. Qed.

(** A parser that hands its value to a loop: what it is to do on an expression
    is what the inner parser and the loop do. *)
Lemma parses_bind {m m' : result ConditionError (bool * bool)} {p} {g : nat -> bool -> list Token -> parse_result bool} {k}
    {after : bool -> result ConditionError (bool * list Token) -> Prop} (f : bool -> bool) :
  parses_to m p (fun b r => r = Ok (b, k)) ->
  m' = ('(b, stop) ← m; Ok (f b, stop)) ->
  (forall b r, after (f b) r -> runs (fun n => g n b k) r) ->
  (forall b k', stuck k' -> runs (fun n => g n b k') (Ok (f b, k'))) ->
  parses_to m' (fun n => pbind (p n) (g n)) after.
Proof.
  intros Hp -> Hafter Hstuck. destruct m as [[b [|]]|x]; cbn [parses_to mbind result_bind] in *.
  - destruct Hp as (k' & Hk' & Hp). exists k'. split; [done |].
    apply runs_bind with (m := Ok b) (ts := k'); [done | by apply Hstuck].
  - intros r Hr. apply runs_bind with (m := Ok b) (ts := k); [by apply Hp | by apply Hafter].
  - by apply runs_bind with (m := Err x) (ts := k).
Qed.

(** From one level to the one below it. *)
Lemma cmp_to_not e : pr 2 e = pr 3 e -> run 2 e = run 3 e ->
  (exists t r, pr 3 e = t :: r /\ tk_kind t <> KNot) -> parses_cmp e -> parses_not e.
Proof.
  intros E Er (t & r & Ht & Hk) H k Hf. specialize (H k Hf). rewrite Er, E. rewrite Ht in H |- *.
  unfold parses_to in *. destruct (run 3 e) as [[b [|]]|x].
  - destruct H as (k' & Hk' & H). exists k'. split; [done |]. by run_step.
  - intros r' Hr'. specialize (H r' Hr'). by run_step.
  - by run_step.
Qed.

Lemma not_to_and e : pr 1 e = pr 2 e -> run 1 e = run 2 e -> parses_not e -> parses_and e.
Proof.
  intros E Er H k Hf. specialize (H k Hf). rewrite Er, E. revert H. generalize (pr 2 e ++ k). intros ts H.
  assert (Hb : parses_to (run 2 e) (fun f => pbind (parse_not_expr value_text context f ts) (and_loop value_text context f))
                 (fun b => runs (fun f => and_loop value_text context f b k))).
  { apply (parses_bind (fun b => b) H); [|done | intros; by apply and_loop_stuck].
    by destruct (run 2 e) as [[b st]|]. }
  unfold parses_to in *. destruct (run 2 e) as [[b [|]]|x].
  - destruct Hb as (k' & Hk' & Hb). exists k'. split; [done |]. by run_step.
  - intros r Hr. specialize (Hb r Hr). by run_step.
  - by run_step.
Qed.

(** A conjunction read whole. *)
Lemma and_whole e k : parses_and e -> follows (fun x => x <> KAnd) k ->
  parses_to (run 1 e) (fun f => parse_and_expr value_text context f (pr 1 e ++ k)) (fun b r => r = Ok (b, k)).
Proof.
  intros H Hf. specialize (H k (follows_weaken _ _ _ (fun _ _ => I) Hf)). unfold parses_to in *.
  destruct (run 1 e) as [[b [|]]|x]; [done | | done]. intros r ->. by apply H, and_loop_stop.
Qed.

Lemma and_to_or e : pr 0 e = pr 1 e -> run 0 e = run 1 e -> parses_and e -> parses_or e.
Proof.
  intros E Er H k Hf. pose proof (and_whole e k H Hf) as Hw. rewrite Er, E. revert Hw. generalize (pr 1 e ++ k). intros ts Hw.
  assert (Hb : parses_to (run 1 e) (fun f => pbind (parse_and_expr value_text context f ts) (or_loop value_text context f))
                 (fun b => runs (fun f => or_loop value_text context f b k))).
  { apply (parses_bind (fun b => b) Hw); [|done | intros; by apply or_loop_stuck].
    by destruct (run 1 e) as [[b st]|]. }
  unfold parses_to in *. destruct (run 1 e) as [[b [|]]|x].
  - destruct Hb as (k' & Hk' & Hb). exists k'. split; [done |]. by run_step.
  - intros r Hr. specialize (Hb r Hr). by run_step.
  - by run_step.
Qed.

Lemma or_to_cmp e : pr 3 e = paren (pr 0 e) -> run 3 e = closing (run 0 e) -> parses_or e -> parses_cmp e.
Proof.
  intros E Er H k Hf. specialize (H (mkToken KRParen ")" :: k)). rewrite E, Er. unfold paren. cbn [app]. rewrite <-app_assoc.
  cbn [app]. revert H. generalize (pr 0 e ++ mkToken KRParen ")" :: k). intros ts H.
  specialize (H ltac:(by eexists _, _)). unfold parses_to in *. destruct (run 0 e) as [[b [|]]|x]; cbn [closing mbind result_bind].
  - destruct H as (k' & (t & r & -> & Ht) & H). run_step. apply runs_bind with (m := Ok b) (ts := t :: r); [done |].
    apply runs_const. intros f. cbn [peek]. rewrite decide_False; [done |]. intros Ek. by rewrite Ek in Ht.
  - intros r ->. run_step. apply runs_bind with (m := Ok b) (ts := mkToken KRParen ")" :: k); [|by apply runs_const].
    apply H. apply or_loop_stop. by eexists _, _.
  - run_step. by apply runs_bind with (m := Err x) (ts := k).
Qed.

Lemma lit_token_kind v :
  tk_kind (lit_token v) <> KNot /\ tk_kind (lit_token v) <> KLParen /\
  (not_bool v = true -> tk_kind (lit_token v) <> KTrue /\ tk_kind (lit_token v) <> KFalse).
Proof. by destruct v as [| | |[]|]. Qed.

Lemma parse_lit v k :
  parse_value value_text context (lit_token v :: k) = Some (x ← eval_lit v; Ok (x, k)).
Proof. done. Qed.

(** All four levels of an expression that binds as tightly as a comparison. *)
Lemma all_levels e :
  (forall l l', pr l e = pr l' e) -> (forall l l', run l e = run l' e) -> (exists t r, pr 3 e = t :: r /\ tk_kind t <> KNot) ->
  parses_cmp e -> parses_or e /\ parses_and e /\ parses_not e /\ parses_cmp e.
Proof.
  intros E Er Hk H. assert (Hn : parses_not e) by (apply cmp_to_not; auto).
  assert (Ha : parses_and e) by (apply not_to_and; auto).
  split; [by apply and_to_or | done].
Qed.

Lemma parses_const b : parses_cmp (EConst b).
Proof.
  intros k Hf r ->. destruct b; run_step; by apply runs_const.
Qed.

Lemma parses_val v : parses_cmp (EVal v).
Proof.
  destruct (not_bool v) eqn:Hv.
  - intros k (t & r & -> & Hop & _).
    destruct (lit_token_kind v) as (_ & Hp & Hb). destruct (Hb Hv). unfold parses_to. cbn [pr run].
    destruct (eval_lit v) as [x|x] eqn:Ev; cbn [mbind result_bind]; [intros r' -> |]; run_step; apply runs_const; intros f;
      rewrite parse_lit, Ev; cbn; [by rewrite Hop | done].
  - destruct v as [| | |[]|]; try done; intros k Hf r ->; run_step; by apply runs_const.
Qed.

Lemma parses_compare l op r : parses_cmp (ECmp l op r).
Proof.
  intros k _. unfold parses_to. destruct (not_bool l) eqn:Hv.
  - destruct (lit_token_kind l) as (_ & Hp & Hb). destruct (Hb Hv). cbn [pr].
    assert (Er : run 3 (ECmp l op r) = (x ← eval_lit l; y ← eval_lit r; Ok (cmp_sem op x y, false))) by by destruct l.
    rewrite Er. assert (Hop : is_comparison_op (tk_kind (op_token op)) = true) by by destruct op.
    destruct (eval_lit l) as [x|x] eqn:El; cbn [mbind result_bind].
    + destruct (eval_lit r) as [y|y] eqn:Ey; cbn [mbind result_bind]; [intros r' -> |]; run_step; apply runs_const; intros f;
        rewrite parse_lit, El; cbn [mbind result_bind pbind peek]; rewrite Hop; cbn [negb tail];
        rewrite parse_lit, Ey; cbn; by rewrite ?compare_sem.
    + run_step. apply runs_const. intros f. by rewrite parse_lit, El.
  - destruct l as [| | |b|]; try done. cbn [run]. exists (op_token op :: lit_token r :: k). split.
    + eexists _, _. split; [done |]. by destruct op.
    + destruct b; run_step; by apply runs_const.
Qed.

(** The first token of a printed expression decides the comparison level. *)
Lemma paren_head e : pr 3 e = paren (pr 0 e) -> exists t r, pr 3 e = t :: r /\ tk_kind t <> KNot.
Proof. intros ->. by eexists _, _. Qed.

(** A binary operator at its own level. *)
Lemma parses_or_EOr a b : parses_or a -> parses_and b -> parses_or (EOr a b).
Proof.
  intros Ia Ib k Hf. pose proof (and_whole b k Ib Hf) as Hb. cbn [pr run]. rewrite !decide_True by done. rewrite <-app_assoc. cbn [app].
  specialize (Ia (mkToken KOr "||" :: pr 1 b ++ k) ltac:(by eexists _, _)). revert Ia Hb.
  generalize (pr 1 b ++ k). intros ts. generalize (pr 0 a ++ mkToken KOr "||" :: ts). intros ts0 Ia Hb.
  unfold parses_to in Ia. destruct (run 0 a) as [[x [|]]|x]; cbn [mbind result_bind]; [exact Ia | | exact Ia].
  assert (Hl : parses_to ('(y, stop) ← run 1 b; Ok (x || y, stop))
                 (fun f => or_loop value_text context f x (mkToken KOr "||" :: ts))
                 (fun b => runs (fun f => or_loop value_text context f b k))).
  { assert (Hbind : parses_to ('(y, stop) ← run 1 b; Ok (x || y, stop))
      (fun f => pbind (parse_and_expr value_text context f ts) (fun right ts => or_loop value_text context f (x || right) ts))
      (fun b => runs (fun f => or_loop value_text context f b k)))
      by (apply (parses_bind (orb x) Hb); [done | done | intros; by apply or_loop_stuck]).
    unfold parses_to in *. destruct ('(y, stop) ← run 1 b; Ok (x || y, stop)) as [[c [|]]|e].
    - destruct Hbind as (k' & Hk' & Hbind). exists k'. split; [done |]. by run_step.
    - intros r Hr. specialize (Hbind r Hr). by run_step.
    - by run_step. }
  unfold parses_to in *. destruct ('(y, stop) ← run 1 b; Ok (x || y, stop)) as [[c [|]]|e]; [|intros r Hr; by apply Ia, Hl | by apply Ia].
  destruct Hl as (k' & Hk' & Hl). exists k'. split; [done | by apply Ia].
Qed.

Lemma parses_and_EAnd a b : parses_and a -> parses_not b -> parses_and (EAnd a b).
Proof.
  intros Ia Ib k Hf. pose proof (Ib k Hf) as Hb. cbn [pr run]. rewrite !decide_True by done. rewrite <-app_assoc. cbn [app].
  specialize (Ia (mkToken KAnd "&&" :: pr 2 b ++ k) ltac:(by eexists _, _)). revert Ia Hb.
  generalize (pr 2 b ++ k). intros ts. generalize (pr 1 a ++ mkToken KAnd "&&" :: ts). intros ts0 Ia Hb.
  unfold parses_to in Ia. destruct (run 1 a) as [[x [|]]|x]; cbn [mbind result_bind]; [exact Ia | | exact Ia].
  assert (Hl : parses_to ('(y, stop) ← run 2 b; Ok (x && y, stop))
                 (fun f => and_loop value_text context f x (mkToken KAnd "&&" :: ts))
                 (fun b => runs (fun f => and_loop value_text context f b k))).
  { assert (Hbind : parses_to ('(y, stop) ← run 2 b; Ok (x && y, stop))
      (fun f => pbind (parse_not_expr value_text context f ts) (fun right ts => and_loop value_text context f (x && right) ts))
      (fun b => runs (fun f => and_loop value_text context f b k)))
      by (apply (parses_bind (andb x) Hb); [done | done | intros; by apply and_loop_stuck]).
    unfold parses_to in *. destruct ('(y, stop) ← run 2 b; Ok (x && y, stop)) as [[c [|]]|e].
    - destruct Hbind as (k' & Hk' & Hbind). exists k'. split; [done |]. by run_step.
    - intros r Hr. specialize (Hbind r Hr). by run_step.
    - by run_step. }
  unfold parses_to in *. destruct ('(y, stop) ← run 2 b; Ok (x && y, stop)) as [[c [|]]|e]; [|intros r Hr; by apply Ia, Hl | by apply Ia].
  destruct Hl as (k' & Hk' & Hl). exists k'. split; [done | by apply Ia].
Qed.

Lemma parses_not_ENot a : parses_not a -> parses_not (ENot a).
Proof.
  intros Ia k Hf. specialize (Ia k Hf). cbn [pr run]. rewrite !decide_True by lia. cbn [app]. revert Ia.
  generalize (pr 2 a ++ k). intros ts Ia. unfold parses_to in *.
  destruct (run 2 a) as [[b [|]]|x]; cbn [mbind result_bind].
  - destruct Ia as (k' & Hk' & Ia). exists k'. split; [done |]. run_step.
    apply runs_bind with (m := Ok b) (ts := k'); [done | by apply runs_const].
  - intros r ->. run_step. apply runs_bind with (m := Ok b) (ts := k); [by apply Ia | by apply runs_const].
  - run_step. by apply runs_bind with (m := Err x) (ts := k).
Qed.

Lemma parses e : parses_or e /\ parses_and e /\ parses_not e /\ parses_cmp e.
Proof.
  induction e as [a IHa b IHb|a IHa b IHb|a IHa|b|v|l op r].
  - destruct IHa as (Ia & _), IHb as (_ & Ib & _). assert (Hor := parses_or_EOr a b Ia Ib).
    assert (Hc : parses_cmp (EOr a b)) by by apply or_to_cmp.
    assert (Hn : parses_not (EOr a b)) by (apply cmp_to_not; [done | done | by apply paren_head | done]).
    split; [done |]. split; [by apply not_to_and | done].
  - destruct IHa as (_ & Ia & _), IHb as (_ & _ & Ib & _). assert (Hand := parses_and_EAnd a b Ia Ib).
    assert (Hor : parses_or (EAnd a b)) by by apply and_to_or.
    assert (Hc : parses_cmp (EAnd a b)) by by apply or_to_cmp.
    split; [done |]. split; [done |]. split; [|done].
    apply cmp_to_not; [done | done | by apply paren_head | done].
  - destruct IHa as (_ & _ & Ia & _). assert (Hn := parses_not_ENot a Ia).
    assert (Ha : parses_and (ENot a)) by by apply not_to_and.
    assert (Hor : parses_or (ENot a)) by by apply and_to_or.
    split; [done |]. split; [done |]. split; [done |]. by apply or_to_cmp.
  - apply all_levels; [done | done | eexists _, _; split; [done | by destruct b] | apply parses_const].
  - apply all_levels; [done | done | eexists _, _; split; [done | apply lit_token_kind] | apply parses_val].
  - apply all_levels; [done | done | eexists _, _; split; [done | apply lit_token_kind] | apply parses_compare].
Qed.

(** ** More fuel changes nothing *)

Lemma pbind_mono {A B} (m m' : parse_result A) (k k' : A -> list Token -> parse_result B) r :
  (forall x, m = Some x -> m' = Some x) ->
  (forall a ts x, k a ts = Some x -> k' a ts = Some x) ->
  pbind m k = Some r -> pbind m' k' = Some r.
Proof.
  intros Hm Hk H. destruct m as [x|]; [|done]. rewrite (Hm x eq_refl).
  destruct x as [[a ts]|]; [|done]. by apply Hk.
Qed.

Lemma peek_mono {A} ts (k k' : TokenKind -> parse_result A) r :
  (forall t x, k t = Some x -> k' t = Some x) -> peek ts k = Some r -> peek ts k' = Some r.
Proof. destruct ts as [|t ts]; cbn; [done | intros H; apply H]. Qed.

Lemma parsers_mono f :
  (forall ts r, parse_or_expr value_text context f ts = Some r ->
     parse_or_expr value_text context (S f) ts = Some r) /\
  (forall b ts r, or_loop value_text context f b ts = Some r ->
     or_loop value_text context (S f) b ts = Some r) /\
  (forall ts r, parse_and_expr value_text context f ts = Some r ->
     parse_and_expr value_text context (S f) ts = Some r) /\
  (forall b ts r, and_loop value_text context f b ts = Some r ->
     and_loop value_text context (S f) b ts = Some r) /\
  (forall ts r, parse_not_expr value_text context f ts = Some r ->
     parse_not_expr value_text context (S f) ts = Some r) /\
  (forall ts r, parse_comparison value_text context f ts = Some r ->
     parse_comparison value_text context (S f) ts = Some r).
Proof.
  induction f as [|f (H1 & H2 & H3 & H4 & H5 & H6)]; [done |].
  repeat split; intros *.
  - rewrite (parse_or_S (S f)), parse_or_S. apply pbind_mono; auto.
  - rewrite (or_loop_S (S f)), or_loop_S. apply peek_mono. intros t x.
    case_decide; [|done]. apply pbind_mono; auto.
  - rewrite (parse_and_S (S f)), parse_and_S. apply pbind_mono; auto.
  - rewrite (and_loop_S (S f)), and_loop_S. apply peek_mono. intros t x.
    case_decide; [|done]. apply pbind_mono; auto.
  - rewrite (parse_not_S (S f)), parse_not_S. apply peek_mono. intros t x.
    case_decide; [apply pbind_mono; auto | auto].
  - rewrite (parse_comparison_S (S f)), parse_comparison_S. apply peek_mono. intros t x.
    case_decide; [apply pbind_mono; auto | auto].
Qed.

Lemma parse_or_mono f f' ts r :
  (f <= f')%nat -> parse_or_expr value_text context f ts = Some r ->
  parse_or_expr value_text context f' ts = Some r.
Proof.
  intros Hf H. induction Hf as [|f' _ IH]; [done |]. by apply parsers_mono.
Qed.

(** ** Writing tokens down *)

Definition tok_text (t : Token) : list Z :=
  if decide (tk_kind t = KStr) then 34 :: chars (tk_raw t) ++ [34] else chars (tk_raw t).

Fixpoint render (ts : list Token) : list Z :=
  match ts with
  | [] => []
  | [t] => tok_text t
  | t :: r => tok_text t ++ 32 :: render r
  end.

Definition ascii_path_char (c : Z) : Prop := 0 <= c < 128 /\ is_path_char c = true.

(** A literal the tokenizer can read back. *)
Definition lit_ok (v : lit) : Prop :=
  match v with
  | LPath l => exists m, l = 36 :: 46 :: m /\ Forall ascii_path_char m
  | LNum l => exists sign d m, l = sign ++ d :: m /\ (sign = [] \/ sign = [45]) /\
      is_ascii_digit d = true /\ Forall (fun c => is_number_char c = true) m
  | LStr l => Forall is_char l /\ 34 ∉ l
  | LBool _ | LNull => True
  end.

Fixpoint lits_ok (e : expr) : Prop :=
  match e with
  | EOr a b | EAnd a b => lits_ok a /\ lits_ok b
  | ENot a => lits_ok a
  | EConst _ => True
  | EVal v => lit_ok v
  | ECmp l _ r => lit_ok l /\ lit_ok r
  end.

Definition boundary (k : list Z) : Prop := k = [] \/ exists k', k = 32 :: k'.

Definition solid (t : Token) : Prop :=
  exists c rest d, tok_text t = c :: rest /\ Forall is_char (tok_text t) /\
    is_whitespace c = false /\ last (tok_text t) = Some d /\ is_whitespace d = false /\
    forall input i k, boundary k -> next_token input i c (rest ++ k) = Ok (Some t, k).

Lemma split_while {A} (p : A -> bool) (l k : list A) :
  Forall (fun x => p x = true) l -> match k with [] => True | c :: _ => p c = false end ->
  take_while p (l ++ k) = l /\ drop_while p (l ++ k) = k.
Proof.
  intros Hl Hk. induction Hl as [|x l Hx _ [IH1 IH2]]; cbn.
  - destruct k as [|c k]; [done |]. cbn. by rewrite Hk.
  - by rewrite Hx, IH1, IH2.
Qed.

Lemma boundary_stop (p : Z -> bool) k :
  p 32 = false -> boundary k -> match k with [] => True | c :: _ => p c = false end.
Proof. by intros Hp [->|[k' ->]]. Qed.

(** The tokens with a fixed spelling. *)
Lemma solid_fixed t :
  In t [bool_token true; bool_token false; mkToken KNull "null"; op_token OGt; op_token OGte;
        op_token OLt; op_token OLte; op_token OEq; op_token ONeq; mkToken KAnd "&&";
        mkToken KOr "||"; mkToken KNot "!"; mkToken KLParen "("; mkToken KRParen ")"] ->
  solid t.
Proof.
  intros H. cbn [In] in H.
  repeat (destruct H as [<-|H]; [
    eexists _, _, _; split; [vm_compute; reflexivity |];
    split; [repeat constructor; done |]; split; [reflexivity |]; split; [reflexivity |];
    split; [reflexivity |]; intros input i k [->|[k' ->]]; reflexivity |]). done.
Qed.

Lemma solid_path m : Forall ascii_path_char m -> solid (lit_token (LPath (36 :: 46 :: m))).
Proof.
  intros Hm. unfold lit_token.
  assert (Hc : Forall is_char (36 :: 46 :: m)).
  { constructor; [done |]. constructor; [done |]. eapply Forall_impl; [exact Hm |].
    intros x [? _]. unfold is_char. lia. }
  assert (Hp : Forall (fun x => is_path_char x = true) (36 :: 46 :: m)).
  { constructor; [done |]. constructor; [done |]. eapply Forall_impl; [exact Hm | by intros x [_ ?]]. }
  assert (Ht : tok_text (mkToken KDollarPath (of_chars (36 :: 46 :: m))) = 36 :: 46 :: m)
    by (unfold tok_text; cbn [tk_kind tk_raw]; by rewrite decide_False, chars_of_chars).
  assert (Hl : exists d, last (36 :: 46 :: m) = Some d /\ is_whitespace d = false).
  { destruct m as [|x m0 _] using rev_ind; [by exists 46 |]. exists x.
    change (36 :: 46 :: m0 ++ [x]) with ((36 :: 46 :: m0) ++ [x]). rewrite last_snoc. split; [done |].
    apply Forall_app in Hm as [_ Hx]. inversion_clear Hx as [|? ? [Hr Hpx] _].
    unfold is_whitespace, is_path_char, is_alphanumeric, is_ascii_alphabetic, is_ascii_digit in *.
    replace (x <? 128) with true in Hpx by lia. lia. }
  destruct Hl as (d & Hd & Hdw).
  exists 36, (46 :: m), d. rewrite Ht. split; [done |]. split; [done |]. split; [done |].
  split; [done |]. split; [done |]. intros input i k Hk.
  destruct (split_while is_path_char (36 :: 46 :: m) k) as [E1 E2]; [done | by apply boundary_stop |].
  unfold next_token. cbn [app head] in *. rewrite E1, E2. reflexivity.
Qed.

Lemma digit_facts d : is_ascii_digit d = true ->
  is_whitespace d = false /\ is_char d /\ is_number_char d = true /\ (d =? 36) = false /\
  (d =? 34) = false /\ (d =? 45) = false.
Proof.
  unfold is_number_char, is_whitespace, is_char. intros H. rewrite H.
  unfold is_ascii_digit in H. repeat split; lia.
Qed.

Lemma number_facts x : is_number_char x = true -> is_whitespace x = false /\ is_char x.
Proof. unfold is_number_char, is_ascii_digit, is_whitespace, is_char. split; lia. Qed.

Lemma solid_number sign d m :
  (sign = [] \/ sign = [45]) -> is_ascii_digit d = true ->
  Forall (fun c => is_number_char c = true) m -> solid (lit_token (LNum (sign ++ d :: m))).
Proof.
  intros Hs Hd Hm. unfold lit_token. destruct (digit_facts d Hd) as (Hw & Hc & Hn & H36 & H34 & H45).
  assert (Hall : Forall is_char (sign ++ d :: m)).
  { apply Forall_app. split; [destruct Hs as [->| ->]; repeat constructor; done |].
    constructor; [done |]. eapply Forall_impl; [exact Hm |]. intros x Hx. by apply number_facts. }
  assert (Ht : tok_text (mkToken KNumber (of_chars (sign ++ d :: m))) = sign ++ d :: m)
    by (unfold tok_text; cbn [tk_kind tk_raw]; by rewrite decide_False, chars_of_chars).
  assert (Hl : exists e, last (sign ++ d :: m) = Some e /\ is_whitespace e = false).
  { rewrite last_app_cons. destruct m as [|x m0 _] using rev_ind; [by exists d |]. exists x.
    change (d :: m0 ++ [x]) with ((d :: m0) ++ [x]). rewrite last_snoc. split; [done |].
    apply Forall_app in Hm as [_ Hx]. inversion_clear Hx. by apply number_facts. }
  destruct Hl as (e & He & Hew).
  assert (Hnum : Forall (fun c => is_number_char c = true) (d :: m)) by by constructor.
  assert (Hsplit : forall k, boundary k -> take_while is_number_char ((d :: m) ++ k) = d :: m /\
            drop_while is_number_char ((d :: m) ++ k) = k).
  { intros k Hk. apply split_while; [done | by apply boundary_stop]. }
  destruct Hs as [->| ->]; cbn [app] in *.
  - exists d, m, e. rewrite Ht. do 5 (split; [done |]). intros input i k Hk.
    destruct (Hsplit k Hk) as [E1 E2]. unfold next_token. cbv zeta.
    rewrite Hw, H36, H34, Hd, H45, E1, E2. done.
  - exists 45, (d :: m), e. rewrite Ht. do 5 (split; [done |]). intros input i k Hk.
    destruct (Hsplit k Hk) as [E1 E2]. unfold next_token. cbv zeta. cbn [app head is_whitespace].
    rewrite Hd. cbn [app] in E1, E2.
    change (45 =? 45) with true. cbv iota. rewrite E1, E2. done.
Qed.

Lemma solid_string l : Forall is_char l -> 34 ∉ l -> solid (lit_token (LStr l)).
Proof.
  intros Hl Hq. unfold lit_token.
  assert (Ht : tok_text (mkToken KStr (of_chars l)) = 34 :: l ++ [34])
    by (unfold tok_text; cbn [tk_kind tk_raw]; by rewrite decide_True, chars_of_chars).
  exists 34, (l ++ [34]), 34. rewrite Ht. split; [done |].
  split; [constructor; [done |]; apply Forall_app; split; [done | by repeat constructor] |].
  split; [done |]. split; [by change (34 :: l ++ [34]) with ((34 :: l) ++ [34]); rewrite last_snoc |].
  split; [done |]. intros input i k Hk. rewrite <-app_assoc.
  destruct (split_while (fun x => negb (x =? 34)) l ([34] ++ k)) as [E1 E2].
  - apply Forall_forall. intros x Hx. destruct (Z.eqb_spec x 34); [by subst | done].
  - done.
  - unfold next_token. cbn [is_whitespace]. rewrite E1, E2. done.
Qed.

Lemma solid_lit v : lit_ok v -> solid (lit_token v).
Proof.
  destruct v as [l|l|l|b|]; cbn [lit_ok].
  - intros (m & -> & Hm). by apply solid_path.
  - intros (sign & d & m & -> & Hs & Hd & Hm). by apply solid_number.
  - intros [Hl Hq]. by apply solid_string.
  - intros _. apply solid_fixed. destruct b; cbn; tauto.
  - intros _. apply solid_fixed. cbn; tauto.
Qed.

Lemma solid_pr lvl e : lits_ok e -> Forall solid (pr lvl e).
Proof.
  assert (Hf : forall t, In t [mkToken KAnd "&&"; mkToken KOr "||"; mkToken KNot "!";
      mkToken KLParen "("; mkToken KRParen ")"] -> solid t)
    by (intros t Ht; apply solid_fixed; cbn in *; tauto).
  assert (Hpar : forall l, Forall solid l -> Forall solid (paren l)).
  { intros l Hl. constructor; [apply Hf; cbn; tauto |]. apply Forall_app. split; [done |].
    constructor; [apply Hf; cbn; tauto | constructor]. }
  revert lvl. induction e as [a IHa b IHb|a IHa b IHb|a IHa|b|v|l op r]; intros lvl; cbn [lits_ok pr].
  - intros [Ha Hb].
    assert (H : Forall solid (pr 0 a ++ mkToken KOr "||" :: pr 1 b)).
    { apply Forall_app. split; [auto |]. constructor; [apply Hf; cbn; tauto | auto]. }
    case_decide; auto.
  - intros [Ha Hb].
    assert (H : Forall solid (pr 1 a ++ mkToken KAnd "&&" :: pr 2 b)).
    { apply Forall_app. split; [auto |]. constructor; [apply Hf; cbn; tauto | auto]. }
    case_decide; auto.
  - intros Ha. assert (H : Forall solid (mkToken KNot "!" :: pr 2 a))
      by (constructor; [apply Hf; cbn; tauto | auto]).
    case_decide; auto.
  - intros _. constructor; [|constructor]. apply solid_fixed. destruct b; cbn; tauto.
  - intros Hv. constructor; [by apply solid_lit | constructor].
  - intros [Hl Hr]. constructor; [by apply solid_lit |].
    constructor; [apply solid_fixed; destruct op; cbn; tauto |].
    constructor; [by apply solid_lit | constructor].
Qed.

Lemma tokenize_render fuel input n ts acc :
  Forall solid ts -> (length (render ts) < fuel)%nat ->
  tokenize_loop fuel input n (render ts) acc = Some (Ok (acc ++ ts ++ [mkToken KEof ""])).
Proof.
  intros H. revert fuel acc. induction H as [|t r Ht Hr IH]; intros fuel acc Hf.
  - destruct fuel; [cbn in Hf; lia | done].
  - destruct Ht as (c & rest & d & Htext & _ & _ & _ & _ & Hnext).
    destruct fuel as [|fuel]; [lia |]. destruct r as [|t2 r].
    + cbn [render] in Hf |- *. rewrite Htext in Hf |- *. cbn [tokenize_loop].
      rewrite <-(app_nil_r rest) at 2. rewrite Hnext by by left.
      destruct fuel; [cbn in Hf; lia |]. cbn [tokenize_loop]. by rewrite <-app_assoc.
    + change (render (t :: t2 :: r)) with (tok_text t ++ 32 :: render (t2 :: r)) in Hf |- *.
      rewrite Htext in Hf |- *. cbn [app tokenize_loop].
      rewrite Hnext by (right; by eexists). cbn [app length] in Hf. rewrite length_app in Hf. cbn [length] in Hf.
      destruct fuel as [|fuel]; [lia |]. cbn [tokenize_loop].
      replace (next_token input _ 32 (render (t2 :: r)))
        with (Ok (E := ConditionError) (@None Token, render (t2 :: r))) by done.
      rewrite IH by lia. by rewrite <-app_assoc.
Qed.

(** The text of a list of solid tokens has no outer white space. *)
Lemma render_solid ts :
  Forall solid ts -> ts <> [] ->
  Forall is_char (render ts) /\
  (exists c m, render ts = c :: m /\ is_whitespace c = false) /\
  (exists d, last (render ts) = Some d /\ is_whitespace d = false).
Proof.
  intros H Hne. induction H as [|t r Ht Hr IH]; [done |].
  destruct Ht as (c & rest & d & Htext & Hchars & Hcw & Hd & Hdw & _).
  destruct r as [|t2 r].
  - cbn [render]. eauto 10.
  - destruct IH as (IH1 & _ & d' & Hd' & Hdw'); [done |].
    change (render (t :: t2 :: r)) with (tok_text t ++ 32 :: render (t2 :: r)).
    split; [apply Forall_app; split; [done | by constructor] |].
    split; [rewrite Htext; eauto |]. exists d'. split; [|done].
    rewrite last_app_cons, last_cons, Hd'. done.
Qed.

Lemma pr_nonempty lvl e : pr lvl e <> [].
Proof.
  destruct e; cbn; try case_decide; try done;
    intros E; apply app_eq_nil in E as [_ E]; done.
Qed.

(** C33: [evaluate] on every expression of the grammar, written down with the
    documented precedences and white space between tokens.  Without a Boolean
    literal at the left of a comparison it is a correct interpreter: the value,
    or the first error, is the one the direct semantics gives.  In general it is
    what [run] says: a comparison with a Boolean literal at its left counts as
    that literal, and the rest of the expression after it is dropped
    unevaluated, or refused at the next closing parenthesis (so
    [true == false] is true). *)
Theorem evaluate_expr e : lits_ok e ->
  evaluate value_text (of_chars (render (pr 0 e))) context = Some ('(b, _) ← run 0 e; Ok b) /\
  (expr_ok e -> evaluate value_text (of_chars (render (pr 0 e))) context = Some (eval e)).
Proof.
  intros Hl.
  assert (Hrun : evaluate value_text (of_chars (render (pr 0 e))) context = Some ('(b, _) ← run 0 e; Ok b)).
  2:{ split; [done |]. intros Hok. rewrite Hrun, run_eval by done. by destruct (eval e). }
  pose proof (solid_pr 0 e Hl) as Hs.
  destruct (render_solid _ Hs (pr_nonempty 0 e)) as (Hc & (c & m & Hcm & Hcw) & d & Hd & Hdw).
  unfold evaluate. rewrite (trim_id _ c d m) by done.
  rewrite (of_chars_nonempty _ c) by (rewrite Hcm; by left).
  unfold tokenize. cbv zeta. rewrite chars_of_chars, tokenize_render by (done || lia).
  cbn [app]. set (ts := pr 0 e ++ [mkToken KEof ""]).
  assert (Hn : exists ts', runs (fun f => parse_or_expr value_text context f ts) ('(b, _) ← run 0 e; Ok (b, ts'))).
  { destruct (parses e) as [Hp _]. specialize (Hp [mkToken KEof ""] ltac:(by eexists _, _)). unfold parses_to in Hp. fold ts in Hp.
    destruct (run 0 e) as [[b [|]]|x]; cbn [mbind result_bind].
    - destruct Hp as (k' & _ & Hp). by exists k'.
    - eexists. apply Hp, or_loop_stop. by eexists _, _.
    - by exists []. }
  destruct Hn as (ts' & n & Hn).
  destruct (parse_total value_text context ts) as [r Hr].
  { exists (pr 0 e), (mkToken KEof ""). split; [done |]. split; [done |].
    eapply Forall_impl; [exact Hs |]. intros t (c' & rest & _ & _ & _ & _ & _ & _ & Hnext).
    specialize (Hnext "" 0%nat [] (or_introl eq_refl)).
    by apply next_token_progress in Hnext as [_ Hk]; apply Hk. }
  specialize (Hn (Nat.max n (parse_fuel ts)) ltac:(lia)).
  apply (parse_or_mono _ (Nat.max n (parse_fuel ts))) in Hr as Hr'; [|lia].
  rewrite Hr. assert (r = ('(b, _) ← run 0 e; Ok (b, ts'))) as -> by congruence.
  by destruct (run 0 e) as [[b st]|].
Qed.

End spec.

(** ** Witnesses *)

#[local] Instance ascii_only : UnicodeTables :=
  {| uni_alphabetic := fun _ => false; uni_numeric := fun _ => false |}.

Definition no_text (v : Value) : string := "".

(** [!($.a.score > 0.7 && $.a.ok == true) || 'x' != null], with double quotes. *)
Definition sample_expr : expr :=
  EOr (ENot (EAnd (ECmp (LPath (chars "$.a.score")) OGt (LNum (chars "0.7")))
                  (ECmp (LPath (chars "$.a.ok")) OEq (LBool true))))
      (ECmp (LStr (chars "x")) ONeq LNull).

Definition sample_results : gmap string Value :=
  <["a" := VObject [("ok", VBool true); ("score", vnat 1)]]> ∅.

Lemma evaluate_expr_witness :
  let q := of_chars [34] in
  evaluate no_text ("! ( $.a.score > 0.7 && $.a.ok == true ) || " +:+ q +:+ "x" +:+ q +:+ " != null")
    sample_results = Some (Ok true).
Proof.
  refine (eq_trans (eq_trans _ (proj2 (evaluate_expr no_text sample_results sample_expr _) _)) _).
  - vm_compute. reflexivity.
  - cbn [lits_ok sample_expr lit_ok]. repeat split.
    + exists (chars "a.score"). split; [reflexivity |]. vm_compute. repeat constructor; done.
    + exists [], 48, (chars ".7"). split; [reflexivity |]. split; [by left |]. split; [reflexivity |].
      vm_compute. repeat constructor; done.
    + exists (chars "a.ok"). split; [reflexivity |]. vm_compute. repeat constructor; done.
    + vm_compute. repeat constructor; done.
    + vm_compute. set_solver.
  - vm_compute. repeat split.
  - vm_compute. reflexivity.
Defined.

(** A leading Boolean literal is taken for a whole comparison and what
    follows it is dropped, so [true == false] holds; so is anything after a
    complete expression, and the missing quote of a string. *)
Lemma evaluate_ignores_rest :
  evaluate no_text "true == false" ∅ = Some (Ok true) /\
  evaluate no_text "false == false" ∅ = Some (Ok false) /\
  evaluate no_text "1 == 1 ) null ( true" ∅ = Some (Ok true) /\
  evaluate no_text ("1 == 2 " +:+ of_chars [34] +:+ "unterminated") ∅ = Some (Ok false).
Proof. vm_compute. done. Qed.
