(* ===== verification/NopStore.v ===== *)
(** * NopStore: the task store

    Models nps-nop/src/store.rs.  The orchestrator drives a store through
    the trait [NopTaskStore]; a run of the orchestrator is described by the
    operations it issues ([StoreOp]), and the in-memory store interprets
    them on a map of task records. *)

From S2P Require Import Prelude RustStr Json NopModels.
Local Open Scope Z_scope.

Record NopSubtaskRecord : Type := mkSubtask {
  sub_node_id : string;
  sub_subtask_id : string;
  sub_state : TaskState;
  sub_result : option Value;
  sub_error_code : option string;
  sub_error_message : option string;
  sub_attempt_count : Z
}.

Record NopTaskRecord : Type := mkTaskRecord {
  rec_task_id : string;
  rec_frame : TaskFrame;
  rec_state : TaskState;
  rec_started_at_ms : Z;
  rec_completed_at_ms : option Z;
  rec_subtasks : gmap string NopSubtaskRecord
}.

Record SubtaskUpdate : Type := mkUpdate {
  su_result : option Value;
  su_error_code : option string;
  su_error_message : option string;
  su_attempt : Z
}.
Definition update_default : SubtaskUpdate := mkUpdate None None None 0.

(** ** [InMemoryNopTaskStore] *)

Abbreviation Store := (gmap string NopTaskRecord).

Definition save (s : Store) (record : NopTaskRecord) : result string Store :=
  match s !! rec_task_id record with
  | Some _ => Err ("Task already exists: " +:+ rec_task_id record)
  | None => Ok (<[rec_task_id record := record]> s)
  end.

Definition set_state (state : TaskState) (r : NopTaskRecord) : NopTaskRecord :=
  mkTaskRecord (rec_task_id r) (rec_frame r) state (rec_started_at_ms r) (rec_completed_at_ms r)
    (rec_subtasks r).

Definition update_state (s : Store) (task_id : string) (state : TaskState) : Store :=
  alter (set_state state) task_id s.

(** The writes to one subtask record. *)
Definition merge_update (state : TaskState) (u : SubtaskUpdate) (sub : NopSubtaskRecord)
    : NopSubtaskRecord :=
  let over {A} (new old : option A) := match new with Some _ => new | None => old end in
  mkSubtask (sub_node_id sub) (sub_subtask_id sub) state
    (over (su_result u) (sub_result sub))
    (over (su_error_code u) (sub_error_code sub))
    (over (su_error_message u) (sub_error_message sub))
    (if 0 <? su_attempt u then su_attempt u else sub_attempt_count sub).

Definition set_subtask (node_id subtask_id : string) (state : TaskState) (u : SubtaskUpdate)
    (r : NopTaskRecord) : NopTaskRecord :=
  let sub := default (mkSubtask node_id subtask_id state None None None 0)
               (rec_subtasks r !! node_id) in
  mkTaskRecord (rec_task_id r) (rec_frame r) (rec_state r) (rec_started_at_ms r)
    (rec_completed_at_ms r) (<[node_id := merge_update state u sub]> (rec_subtasks r)).

Definition update_subtask (s : Store) (task_id node_id subtask_id : string) (state : TaskState)
    (u : SubtaskUpdate) : Store :=
  alter (set_subtask node_id subtask_id state u) task_id s.

(** ** Operations as data *)

Inductive StoreOp : Type :=
| UpdateState (state : TaskState)
| UpdateSubtask (node_id subtask_id : string) (state : TaskState) (u : SubtaskUpdate).

Definition apply_op (task_id : string) (s : Store) (op : StoreOp) : Store :=
  match op with
  | UpdateState state => update_state s task_id state
  | UpdateSubtask node_id subtask_id state u => update_subtask s task_id node_id subtask_id state u
  end.

Definition apply_ops (task_id : string) (s : Store) (ops : list StoreOp) : Store :=
  fold_left (apply_op task_id) ops s.

(** ** Lemmas *)

Lemma apply_ops_app t s l k : apply_ops t s (l ++ k) = apply_ops t (apply_ops t s l) k.
Proof. apply fold_left_app. Qed.

Lemma apply_op_other t t' s op : t <> t' -> apply_op t s op !! t' = s !! t'.
Proof. intros Hne. destruct op; cbn; unfold update_state, update_subtask; by rewrite lookup_alter_ne. Qed.

Definition op_effect (op : StoreOp) : NopTaskRecord -> NopTaskRecord :=
  match op with
  | UpdateState state => set_state state
  | UpdateSubtask node_id subtask_id state u => set_subtask node_id subtask_id state u
  end.

Lemma apply_op_self t s op r : s !! t = Some r -> apply_op t s op !! t = Some (op_effect op r).
Proof. intros Hr. destruct op; cbn; unfold update_state, update_subtask; by rewrite lookup_alter_eq, Hr. Qed.

(** The state the operations leave a task in, and the subtask records of a node. *)
Definition is_subtask_op (op : StoreOp) : bool :=
  match op with UpdateSubtask _ _ _ _ => true | UpdateState _ => false end.

Lemma apply_ops_lookup t s ops r :
  s !! t = Some r -> exists r', apply_ops t s ops !! t = Some r' /\
    rec_frame r' = rec_frame r /\ rec_started_at_ms r' = rec_started_at_ms r.
Proof.
  revert s r. induction ops as [|op ops IH]; intros s r Hr; [eauto |].
  cbn [apply_ops fold_left]. fold (apply_ops t (apply_op t s op) ops).
  destruct (IH _ _ (apply_op_self t s op r Hr)) as (r' & H1 & H2 & H3). exists r'. split; [done |].
  by destruct op.
Qed.

Lemma apply_subtask_ops_state t s ops r :
  s !! t = Some r -> Forall (fun op => is_subtask_op op = true) ops ->
  rec_state <$> apply_ops t s ops !! t = Some (rec_state r).
Proof.
  intros Hr Hops. revert s r Hr. induction Hops as [|op ops Hop _ IH]; intros s r Hr.
  { cbn. by rewrite Hr. }
  cbn [apply_ops fold_left]. fold (apply_ops t (apply_op t s op) ops).
  rewrite (IH _ _ (apply_op_self t s op r Hr)). by destruct op.
Qed.

(** Updates of different subtasks commute, so the order in which the
    concurrently running nodes of a task write to the store is immaterial. *)
Theorem update_subtask_commute s t n1 n2 id1 id2 st1 st2 u1 u2 :
  n1 <> n2 ->
  update_subtask (update_subtask s t n1 id1 st1 u1) t n2 id2 st2 u2
  = update_subtask (update_subtask s t n2 id2 st2 u2) t n1 id1 st1 u1.
Proof.
  intros Hne. unfold update_subtask. apply map_eq. intros k.
  destruct (decide (k = t)) as [->|]; [|by rewrite !lookup_alter_ne].
  rewrite !lookup_alter_eq. destruct (s !! t) as [r|]; cbn; [|done]. f_equal.
  unfold set_subtask; cbn. f_equal.
  rewrite !lookup_insert_ne by done. by rewrite insert_insert_ne.
Qed.

Lemma update_subtask_commute_witness :
  update_subtask (update_subtask ∅ "t" "a" "1" Running update_default) "t" "b" "2" Failed update_default
  = update_subtask (update_subtask ∅ "t" "b" "2" Failed update_default) "t" "a" "1" Running update_default.
Proof. apply update_subtask_commute. discriminate. Defined.

(** The store never overwrites a task: saving succeeds exactly for an
    unknown id, after which the record is found and no other task changed;
    updates of an unknown task do nothing. *)
Theorem save_spec s r :
  (forall s', save s r = Ok s' <->
     s !! rec_task_id r = None /\ s' = <[rec_task_id r := r]> s) /\
  (is_Some (s !! rec_task_id r) -> save s r = Err ("Task already exists: " +:+ rec_task_id r)) /\
  (forall t op, s !! t = None -> apply_op t s op = s).
Proof.
  unfold save. split; [|split].
  - intros s'. destruct (s !! rec_task_id r); naive_solver.
  - by intros [x ->].
  - intros t op Ht. apply map_eq. intros k. destruct (decide (k = t)) as [->|].
    + destruct op; cbn; unfold update_state, update_subtask; by rewrite lookup_alter_eq, Ht.
    + by rewrite apply_op_other.
Qed.

Lemma save_witness :
  save (<["t" := mkTaskRecord "t" (TaskFrame_new "t" (mkTaskDag [] [])) Pending 0 None ∅]> ∅)
    (mkTaskRecord "t" (TaskFrame_new "t" (mkTaskDag [] [])) Pending 5 None ∅)
  = Err "Task already exists: t".
Proof.
  destruct (save_spec (<["t" := mkTaskRecord "t" (TaskFrame_new "t" (mkTaskDag [] [])) Pending 0 None ∅]> ∅)
    (mkTaskRecord "t" (TaskFrame_new "t" (mkTaskDag [] [])) Pending 5 None ∅)) as (_ & H & _).
  apply H. vm_compute. eexists. reflexivity.
Defined.
