(* ===== verification/NopCallback.v ===== *)
(** * NopCallback: callback URLs and the SSRF guard

    Models nps-nop/src/validation.rs, [validate_callback_url] with
    [extract_host] and [is_private_host], over the textual address syntax
    of the standard library's [IpAddr] parser. *)

From S2P Require Import Prelude RustStr.
Local Open Scope Z_scope.

(** ** [std::net]: addresses and their text

    An IPv4 address is its four octets, an IPv6 address its eight segments.
    The parsing functions take a prefix off a list of bytes. *)

Inductive IpAddr : Type :=
| V4 (octets : list Z)
| V6 (segments : list Z).

Definition hex_digit (c : Z) : option Z :=
  if is_ascii_digit c then Some (c - 48)
  else if (97 <=? c) && (c <=? 102) then Some (c - 87)
  else if (65 <=? c) && (c <=? 70) then Some (c - 55)
  else None.
Definition to_digit (radix c : Z) : option Z :=
  if radix =? 10 then (if is_ascii_digit c then Some (c - 48) else None) else hex_digit c.
Definition is_digit (radix c : Z) : bool :=
  match to_digit radix c with Some _ => true | None => false end.

(** [Parser::read_number]: at most [max_digits] digits, the value below
    [bound], no leading zero unless allowed. *)
Definition read_number (radix : Z) (max_digits : nat) (allow_zero_prefix : bool) (bound : Z)
    (l : list Z) : option (Z * list Z) :=
  let ds := take_while (is_digit radix) l in
  let v := fold_left (fun acc c => acc * radix + default 0 (to_digit radix c)) ds 0 in
  if (max_digits <? length ds)%nat then None
  else if decide (ds = []) then None
  else if negb allow_zero_prefix && bool_decide (head l = Some 48) && (1 <? length ds)%nat then None
  else if v <? bound then Some (v, drop_while (is_digit radix) l) else None.

Definition read_given_char (c : Z) (l : list Z) : option (list Z) :=
  match l with x :: r => if x =? c then Some r else None | [] => None end.

Definition read_separator {A} (sep : Z) (index : nat) (inner : list Z -> option (A * list Z))
    (l : list Z) : option (A * list Z) :=
  match index with
  | O => inner l
  | S _ => l ← read_given_char sep l; inner l
  end.

Definition read_octet (l : list Z) : option (Z * list Z) := read_number 10 3 false 256 l.

Definition read_ipv4_addr (l : list Z) : option (list Z * list Z) :=
  '(a, l) ← read_octet l;
  '(b, l) ← read_separator 46 1 read_octet l;
  '(c, l) ← read_separator 46 2 read_octet l;
  '(d, l) ← read_separator 46 3 read_octet l;
  Some ([a; b; c; d], l).

(** [read_groups]: groups [i .. i + n] of an IPv6 address, the last two
    possibly in IPv4 notation; the groups read and whether that was so. *)
Fixpoint read_groups (i n : nat) (l : list Z) : list Z * bool * list Z :=
  match n with
  | O => ([], false, l)
  | S n' =>
    match (if (0 <? n')%nat then read_separator 58 i read_ipv4_addr l else None) with
    | Some ([a; b; c; d], l) => ([a * 256 + b; c * 256 + d], true, l)
    | _ =>
      match read_separator 58 i (read_number 16 4 true 65536) l with
      | Some (g, l) => let '(gs, v4, l) := read_groups (S i) n' l in (g :: gs, v4, l)
      | None => ([], false, l)
      end
    end
  end.

Definition read_ipv6_addr (l : list Z) : option (list Z * list Z) :=
  let '(head, head_ipv4, l) := read_groups 0 8 l in
  if (length head =? 8)%nat then Some (head, l)
  else if head_ipv4 then None
  else
    l ← read_given_char 58 l;
    l ← read_given_char 58 l;
    let '(tail, _, l) := read_groups 0 (8 - (length head + 1)) l in
    Some (head ++ repeat 0 (8 - length head - length tail) ++ tail, l).

(** [str::parse::<IpAddr>]: the whole string. *)
Definition parse_ip (s : string) : option IpAddr :=
  match read_ipv4_addr (bytes_of s) with
  | Some (octets, []) => Some (V4 octets)
  | Some (_, _ :: _) => None
  | None =>
    match read_ipv6_addr (bytes_of s) with
    | Some (segments, []) => Some (V6 segments)
    | _ => None
    end
  end.

(** ** The guard *)

Definition is_private_ipv4 (b : list Z) : bool :=
  match b with
  | [b0; b1; _; _] =>
    (b0 =? 127) || (b0 =? 10) || (b0 =? 0)
    || ((b0 =? 172) && ((16 <=? b1) && (b1 <=? 31)))
    || ((b0 =? 192) && (b1 =? 168))
    || ((b0 =? 169) && (b1 =? 254))
  | _ => false
  end.

Definition is_private_ipv6 (seg : list Z) : bool :=
  if bool_decide (seg = [0; 0; 0; 0; 0; 0; 0; 1]) then true
  else
    let s0 := nth 0 seg 0 in
    let link_local := Z.land s0 0xffc0 =? 0xfe80 in
    let site_local := Z.land s0 0xffc0 =? 0xfec0 in
    let unique_local := Z.land s0 0xfe00 =? 0xfc00 in
    link_local || site_local || unique_local.

(** [Ipv6Addr::to_ipv4_mapped]. *)
Definition to_ipv4_mapped (seg : list Z) : option (list Z) :=
  match seg with
  | [0; 0; 0; 0; 0; 65535; a; b] => Some [a / 256; a mod 256; b / 256; b mod 256]
  | _ => None
  end.

Definition is_private_ip (ip : IpAddr) : bool :=
  match ip with
  | V4 b => is_private_ipv4 b
  | V6 seg =>
    match to_ipv4_mapped seg with
    | Some b => is_private_ipv4 b
    | None => is_private_ipv6 seg
    end
  end.

(** Byte-level [trim_start_matches], [trim_end_matches]. *)
Definition trim_start_matches (c : Z) (l : list Z) : list Z := drop_while (fun x => x =? c) l.
Definition trim_end_matches (c : Z) (l : list Z) : list Z :=
  rev (drop_while (fun x => x =? c) (rev l)).

Definition is_private_host (host : string) : bool :=
  if is_empty host then true
  else if eq_ignore_ascii_case host "localhost" then true
  else
    let stripped := of_bytes (trim_end_matches 93 (trim_start_matches 91 (bytes_of host))) in
    match parse_ip stripped with
    | Some ip => is_private_ip ip
    | None => false
    end.

(** The part after the last [@]. *)
Definition after_last_at (l : list Z) : list Z :=
  rev (take_while (fun x => negb (x =? 64)) (rev l)).

Definition extract_host (rest : string) : string :=
  let authority :=
    take_while (fun x => negb ((x =? 47) || (x =? 63) || (x =? 35))) (bytes_of rest) in
  let authority := after_last_at authority in
  match authority with
  | 91 :: stripped =>
    if existsb (fun x => x =? 93) stripped
    then of_bytes (91 :: take_while (fun x => negb (x =? 93)) stripped ++ [93])
    else of_bytes authority
  | _ => of_bytes (take_while (fun x => negb (x =? 58)) authority)
  end.

(** [callback_url.split_once("://")]. *)
Fixpoint split_once_scheme (s : string) : option (string * string) :=
  match strip_prefix "://" s with
  | Some r => Some ("", r)
  | None =>
    match s with
    | EmptyString => None
    | String.String a r =>
      match split_once_scheme r with
      | Some (x, y) => Some (String.String a x, y)
      | None => None
      end
    end
  end.

(** [None] when the URL is acceptable, else the reason. *)
Definition validate_callback_url (callback_url : string) : option string :=
  if is_empty (trim callback_url) then Some "callback_url must not be empty."
  else
  match split_once_scheme callback_url with
  | None => Some ("callback_url '" +:+ callback_url +:+ "' is not a valid absolute URI.")
  | Some (s, rest) =>
    let scheme := to_ascii_lowercase s in
    if negb (String.eqb scheme "https")
    then Some ("callback_url MUST use the https:// scheme (got '" +:+ scheme +:+ "://').")
    else
      let host := extract_host rest in
      if is_empty host
      then Some ("callback_url '" +:+ callback_url +:+ "' is not a valid absolute URI.")
      else if is_private_host host
      then Some ("callback_url host '" +:+ host
                 +:+ "' resolves to a private or loopback address (SSRF guard).")
      else None
  end.

(** ** Address ranges *)

(** [x] lies in the block of addresses that share the first [len] of [width]
    bits with [base]. *)
Definition in_cidr (width base len x : Z) : Prop :=
  x / 2 ^ (width - len) = base / 2 ^ (width - len).

Definition v4_value (b : list Z) : Z := fold_left (fun acc x => acc * 256 + x) b 0.
Definition v6_value (seg : list Z) : Z := fold_left (fun acc x => acc * 65536 + x) seg 0.

Definition v4 (a b c d : Z) : Z := v4_value [a; b; c; d].

(** The blocks the guard is documented to refuse. *)
Definition blocked_v4 (x : Z) : Prop :=
  in_cidr 32 (v4 127 0 0 0) 8 x \/ in_cidr 32 (v4 10 0 0 0) 8 x \/ in_cidr 32 (v4 0 0 0 0) 8 x \/
  in_cidr 32 (v4 172 16 0 0) 12 x \/ in_cidr 32 (v4 192 168 0 0) 16 x \/
  in_cidr 32 (v4 169 254 0 0) 16 x.
Definition blocked_v6 (x : Z) : Prop :=
  x = 1 \/ in_cidr 128 (0xfe80 * 2 ^ 112) 10 x \/ in_cidr 128 (0xfec0 * 2 ^ 112) 10 x \/
  in_cidr 128 (0xfc00 * 2 ^ 112) 7 x.

Definition ip_ok (ip : IpAddr) : Prop :=
  match ip with
  | V4 b => length b = 4%nat /\ Forall u8_range b
  | V6 seg => length seg = 8%nat /\ Forall (fun s => 0 <= s < 65536) seg
  end.

Definition blocked (ip : IpAddr) : Prop :=
  match ip with
  | V4 b => blocked_v4 (v4_value b)
  | V6 seg =>
    match to_ipv4_mapped seg with
    | Some _ => blocked_v4 (v6_value seg mod 2 ^ 32)
    | None => blocked_v6 (v6_value seg)
    end
  end.

Lemma private_v4_spec a b c d :
  Forall u8_range [a; b; c; d] ->
  is_private_ipv4 [a; b; c; d] = true <-> blocked_v4 (v4_value [a; b; c; d]).
Proof.
  intros H. inversion_clear H as [|? ? Ha H1]. inversion_clear H1 as [|? ? Hb H2].
  inversion_clear H2 as [|? ? Hc H3]. inversion_clear H3 as [|? ? Hd _].
  unfold u8_range in *. set (x := v4_value [a; b; c; d]).
  assert (Hx : x = ((a * 256 + b) * 256 + c) * 256 + d) by (unfold x, v4_value; cbn; lia).
  clearbody x. unfold blocked_v4, in_cidr.
  change (2 ^ (32 - 8)) with 16777216. change (2 ^ (32 - 12)) with 1048576.
  change (2 ^ (32 - 16)) with 65536.
  assert (E8 : x / 16777216 = a) by (subst x; Z.div_mod_to_equations; lia).
  assert (E12 : x / 1048576 = a * 16 + b / 16) by (subst x; Z.div_mod_to_equations; lia).
  assert (E16 : x / 65536 = a * 256 + b) by (subst x; Z.div_mod_to_equations; lia).
  rewrite E8, E12, E16. cbn -[Z.eqb Z.leb orb andb Z.div v4].
  clear E8 E12 E16 Hx.
  assert (Hb16 : 16 <= b <= 31 <-> b / 16 = 1) by (Z.div_mod_to_equations; lia).
  assert (0 <= b / 16 < 16) by (Z.div_mod_to_equations; lia).
  change (v4 127 0 0 0 / 16777216) with 127. change (v4 10 0 0 0 / 16777216) with 10.
  change (v4 0 0 0 0 / 16777216) with 0. change (v4 172 16 0 0 / 1048576) with 2753.
  change (v4 192 168 0 0 / 65536) with 49320. change (v4 169 254 0 0 / 65536) with 43518.
  split; intros; lia.
Qed.

(** The segment masks keep the leading bits. *)
Definition all_bytes : list Z := map Z.of_nat (seq 0 256).

Lemma all_bytes_In b : 0 <= b < 256 -> In b all_bytes.
Proof. intros Hb. apply in_map_iff. exists (Z.to_nat b). split; [lia | apply in_seq; lia]. Qed.

Lemma segment_masks :
  forallb (fun a => forallb (fun b => let s := a * 256 + b in
    (Z.land s 0xffc0 =? s / 64 * 64) && (Z.land s 0xfe00 =? s / 512 * 512)) all_bytes) all_bytes = true.
Proof. vm_compute. reflexivity. Qed.

Lemma segment_mask s : 0 <= s < 65536 ->
  Z.land s 0xffc0 = s / 64 * 64 /\ Z.land s 0xfe00 = s / 512 * 512.
Proof.
  intros Hs. pose proof segment_masks as H. rewrite forallb_forall in H.
  specialize (H (s / 256) (all_bytes_In (s / 256) ltac:(Z.div_mod_to_equations; lia))).
  rewrite forallb_forall in H.
  specialize (H (s mod 256) (all_bytes_In (s mod 256) ltac:(Z.div_mod_to_equations; lia))).
  cbv zeta in H. replace (s / 256 * 256 + s mod 256) with s in H by (Z.div_mod_to_equations; lia).
  apply andb_true_iff in H as [H1 H2]. cmp_hyps. done.
Qed.

Lemma v6_head s r :
  length r = 7%nat -> Forall (fun s => 0 <= s < 65536) r ->
  exists low, v6_value (s :: r) = s * 2 ^ 112 + low /\ 0 <= low < 2 ^ 112.
Proof.
  intros Hl H. do 8 (destruct r as [|? r]; try done).
  repeat match goal with H : Forall _ (_ :: _) |- _ => inversion_clear H end.
  unfold v6_value; cbn [fold_left].
  match goal with |- exists low, ?v = _ /\ _ => exists (v - s * 2 ^ 112) end. lia.
Qed.

Lemma private_v6_spec seg :
  length seg = 8%nat -> Forall (fun s => 0 <= s < 65536) seg ->
  is_private_ipv6 seg = true <-> blocked_v6 (v6_value seg).
Proof.
  intros Hl H. unfold is_private_ipv6, blocked_v6.
  assert (Hone : v6_value seg = 1 <-> seg = [0; 0; 0; 0; 0; 0; 0; 1]).
  { split; [|by intros ->]. do 9 (destruct seg as [|? seg]; try done).
    repeat match goal with H : Forall _ (_ :: _) |- _ => inversion_clear H end.
    unfold v6_value; cbn [fold_left]. intros E. repeat f_equal; lia. }
  case_bool_decide as Hd; [tauto |].
  destruct seg as [|s r]; [done |]. cbn [nth]. inversion_clear H as [|? ? Hs Hr].
  destruct (v6_head s r) as (low & Hv & Hlow); [by injection Hl | done |].
  destruct (segment_mask s Hs) as [M1 M2]. rewrite M1, M2.
  unfold in_cidr. rewrite Hv in Hone |- *.
  change (128 - 10) with 118. change (128 - 7) with 121.
  assert (Hdiv : (s * 2 ^ 112 + low) / 2 ^ 112 = s)
    by (rewrite Z.div_add_l by done; rewrite (Z.div_small low) by done; lia).
  assert (E10 : (s * 2 ^ 112 + low) / 2 ^ 118 = s / 64).
  { change (2 ^ 118) with (2 ^ 112 * 64). by rewrite <-Z.div_div, Hdiv by lia. }
  assert (E7 : (s * 2 ^ 112 + low) / 2 ^ 121 = s / 512).
  { change (2 ^ 121) with (2 ^ 112 * 512). by rewrite <-Z.div_div, Hdiv by lia. }
  rewrite E10, E7.
  change (0xfe80 * 2 ^ 112 / 2 ^ 118) with 1018. change (0xfec0 * 2 ^ 112 / 2 ^ 118) with 1019.
  change (0xfc00 * 2 ^ 112 / 2 ^ 121) with 126.
  assert (Hn : s * 2 ^ 112 + low <> 1) by tauto.
  split; intros; lia.
Qed.

(** The guard refuses exactly the addresses of the documented private,
    loopback and link-local blocks, IPv4-mapped IPv6 addresses included. *)
Theorem private_ip_ranges ip : ip_ok ip -> is_private_ip ip = true <-> blocked ip.
Proof.
  destruct ip as [b|seg]; cbn [ip_ok is_private_ip blocked]; intros [Hl H].
  - do 5 (destruct b as [|? b]; try done). by apply private_v4_spec.
  - destruct (to_ipv4_mapped seg) as [b|] eqn:E; [|by apply private_v6_spec].
    unfold to_ipv4_mapped in E. repeat (case_match; try done). simplify_eq.
    repeat match goal with H : Forall _ (_ :: _) |- _ => inversion_clear H end.
    match goal with |- context [is_private_ipv4 [?x / 256; _; ?y / 256; _]] =>
      rename x into g; rename y into h end.
    rewrite private_v4_spec; [|repeat constructor; unfold u8_range; Z.div_mod_to_equations; lia].
    replace (v4_value [g / 256; g mod 256; h / 256; h mod 256])
      with (v6_value [0; 0; 0; 0; 0; 65535; g; h] mod 2 ^ 32); [done |].
    unfold v6_value, v4_value; cbn [fold_left]. Z.div_mod_to_equations; lia.
Qed.

(** ** Dotted quads *)

Definition octet_digits (b : Z) : list Z := bytes_of (fmt_Z b).

Lemma octet_digits_ok b : 0 <= b < 256 ->
  let ds := octet_digits b in
  forallb is_ascii_digit ds = true /\ (length ds <= 3)%nat /\ ds <> [] /\
  negb (bool_decide (head ds = Some 48) && (1 <? length ds)%nat) = true /\
  fold_left (fun acc c => acc * 10 + default 0 (to_digit 10 c)) ds 0 = b.
Proof.
  intros Hb.
  assert (H : forallb (fun b => let ds := octet_digits b in
      forallb is_ascii_digit ds && (length ds <=? 3)%nat && negb (bool_decide (ds = []))
      && negb (bool_decide (head ds = Some 48) && (1 <? length ds)%nat)
      && (fold_left (fun acc c => acc * 10 + default 0 (to_digit 10 c)) ds 0 =? b)) all_bytes = true)
    by (vm_compute; reflexivity).
  rewrite forallb_forall in H. specialize (H b (all_bytes_In b Hb)). cbv zeta in H.
  bool_hyps. cmp_hyps. cbv zeta. split; [done |]. split; [done |]. split; [done |].
  split; [|done]. by apply negb_true_iff.
Qed.

Lemma to_digit_10 c : is_digit 10 c = is_ascii_digit c.
Proof. unfold is_digit, to_digit. cbn. by destruct (is_ascii_digit c). Qed.

Lemma take_drop_digits ds r :
  forallb is_ascii_digit ds = true -> match r with [] => True | c :: _ => is_ascii_digit c = false end ->
  take_while (is_digit 10) (ds ++ r) = ds /\ drop_while (is_digit 10) (ds ++ r) = r.
Proof.
  intros Hds Hr. induction ds as [|d ds IH]; cbn in *.
  - destruct r as [|c r]; [done |]. cbn. by rewrite to_digit_10, Hr.
  - apply andb_true_iff in Hds as [Hd Hds]. rewrite to_digit_10, Hd.
    destruct (IH Hds) as [-> ->]. done.
Qed.

Lemma read_octet_print b r :
  0 <= b < 256 -> match r with [] => True | c :: _ => is_ascii_digit c = false end ->
  read_octet (octet_digits b ++ r) = Some (b, r).
Proof.
  intros Hb Hr. destruct (octet_digits_ok b Hb) as (Hd & Hl & Hne & Hz & Hv). set (ds := octet_digits b) in *.
  destruct (take_drop_digits ds r Hd Hr) as [E1 E2].
  unfold read_octet, read_number. rewrite E1, E2.
  replace (3 <? length ds)%nat with false by (symmetry; apply Nat.ltb_ge; lia).
  rewrite decide_False by done. rewrite Hv.
  replace (head (ds ++ r)) with (head ds) by by destruct ds.
  cbn [negb andb]. destruct (bool_decide _ && _); [done |].
  by replace (b <? 256) with true by lia.
Qed.

Definition dotted (a b c d : Z) : string :=
  fmt_Z a +:+ "." +:+ fmt_Z b +:+ "." +:+ fmt_Z c +:+ "." +:+ fmt_Z d.

Lemma dotted_bytes a b c d :
  bytes_of (dotted a b c d)
  = octet_digits a ++ 46 :: octet_digits b ++ 46 :: octet_digits c ++ 46 :: octet_digits d.
Proof. unfold dotted. rewrite !bytes_of_app. done. Qed.

Lemma parse_ip_dotted a b c d :
  0 <= a < 256 -> 0 <= b < 256 -> 0 <= c < 256 -> 0 <= d < 256 ->
  parse_ip (dotted a b c d) = Some (V4 [a; b; c; d]).
Proof.
  intros Ha Hb Hc Hd. unfold parse_ip, read_ipv4_addr. rewrite dotted_bytes.
  rewrite read_octet_print by done. cbn [mbind option_bind read_separator read_given_char Z.eqb Pos.eqb].
  rewrite read_octet_print by done. cbn [mbind option_bind read_separator read_given_char Z.eqb Pos.eqb].
  rewrite read_octet_print by done. cbn [mbind option_bind read_separator read_given_char Z.eqb Pos.eqb].
  rewrite <-(app_nil_r (octet_digits d)). rewrite read_octet_print by done. done.
Qed.

(** The characters of a dotted quad: digits and dots. *)
Definition quad_char (x : Z) : bool := is_ascii_digit x || (x =? 46).

Lemma dotted_chars a b c d :
  0 <= a < 256 -> 0 <= b < 256 -> 0 <= c < 256 -> 0 <= d < 256 ->
  forallb quad_char (bytes_of (dotted a b c d)) = true.
Proof.
  intros Ha Hb Hc Hd. rewrite dotted_bytes.
  assert (Hq : forall b, 0 <= b < 256 -> forallb quad_char (octet_digits b) = true).
  { intros x Hx. apply octet_digits_ok in Hx as (Hx & _). apply forallb_forall. intros y Hy.
    rewrite forallb_forall in Hx. unfold quad_char. by rewrite Hx. }
  repeat (rewrite forallb_app || cbn [forallb]). rewrite !Hq by done. done.
Qed.

Lemma take_while_all {A} (p : A -> bool) l k :
  forallb p l = true -> match k with [] => True | c :: _ => p c = false end ->
  take_while p (l ++ k) = l.
Proof.
  intros Hl Hk. induction l as [|x l IH]; cbn in *.
  - destruct k; [done |]. cbn. by rewrite Hk.
  - apply andb_true_iff in Hl as [Hx Hl]. by rewrite Hx, IH.
Qed.

Lemma forallb_weaken {A} (p q : A -> bool) l :
  (forall x, p x = true -> q x = true) -> forallb p l = true -> forallb q l = true.
Proof. intros Hpq. rewrite !forallb_forall. auto. Qed.

(** Nothing, or a path, query or fragment. *)
Definition url_tail (s : string) : Prop :=
  match bytes_of s with [] => True | c :: _ => c = 47 \/ c = 63 \/ c = 35 end.

Lemma extract_host_quad q tail :
  forallb quad_char (bytes_of q) = true -> bytes_of q <> [] -> url_tail tail ->
  extract_host (q +:+ tail) = q.
Proof.
  intros Hq Hne Ht. unfold extract_host. rewrite bytes_of_app.
  rewrite take_while_all.
  - assert (Hat : after_last_at (bytes_of q) = bytes_of q).
    { unfold after_last_at. rewrite <-(app_nil_r (rev (bytes_of q))), take_while_all;
        [apply rev_involutive | | done].
      apply forallb_forall. intros x Hx. rewrite <-in_rev in Hx. rewrite forallb_forall in Hq.
      specialize (Hq x Hx). unfold quad_char, is_ascii_digit in Hq. lia. }
    rewrite Hat. destruct (bytes_of q) as [|x l] eqn:E; [done |].
    assert (Hx91 : x <> 91).
    { cbn in Hq. apply andb_true_iff in Hq as [Hx _]. unfold quad_char, is_ascii_digit in Hx. lia. }
    assert (Hcol : take_while (fun x => negb (x =? 58)) (x :: l) = x :: l).
    { rewrite <-(app_nil_r (x :: l)) at 1. apply take_while_all; [|done].
      eapply forallb_weaken; [|exact Hq]. unfold quad_char, is_ascii_digit. intros; lia. }
    rewrite Hcol. rewrite <-E. destruct x as [|p|p]; try apply of_bytes_bytes_of.
    repeat (destruct p as [p|p|]; try apply of_bytes_bytes_of; try done).
  - eapply forallb_weaken; [|exact Hq]. unfold quad_char, is_ascii_digit. intros; lia.
  - unfold url_tail in Ht. destruct (bytes_of tail); [done | lia].
Qed.

(** A callback to a literal IPv4 address is refused exactly when the
    address lies in a private, loopback or link-local block, whatever the
    path, query or fragment. *)
Theorem callback_guard_v4 a b c d tail :
  0 <= a < 256 -> 0 <= b < 256 -> 0 <= c < 256 -> 0 <= d < 256 -> url_tail tail ->
  (validate_callback_url ("https://" +:+ dotted a b c d +:+ tail) <> None <->
   blocked_v4 (v4_value [a; b; c; d])).
Proof.
  intros Ha Hb Hc Hd Ht. rewrite <-(private_v4_spec a b c d) by (repeat constructor; lia).
  pose proof (dotted_chars a b c d Ha Hb Hc Hd) as Hq.
  pose proof (parse_ip_dotted a b c d Ha Hb Hc Hd) as Hp. set (q := dotted a b c d) in *.
  assert (Hne : exists x l, bytes_of q = x :: l /\ quad_char x = true).
  { unfold q in *. rewrite dotted_bytes in *. destruct (octet_digits a) as [|x l].
    - eexists _, _. split; [reflexivity | done].
    - eexists _, _. split; [reflexivity |]. cbn in Hq. by apply andb_true_iff in Hq as [? _]. }
  destruct Hne as (x & l & Hx & Hxq).
  assert (Hbody : validate_callback_url ("https://" +:+ q +:+ tail) =
    if is_private_host q then Some ("callback_url host '" +:+ q
                 +:+ "' resolves to a private or loopback address (SSRF guard).") else None).
  { unfold validate_callback_url. rewrite (trim_nonempty _ 104);
      [| change (In 104 (chars (String.String "h"%char ("ttps://" +:+ q +:+ tail))));
         rewrite chars_cons by done; by left | done].
    change (split_once_scheme ("https://" +:+ q +:+ tail)) with (Some ("https", q +:+ tail)).
    cbv beta iota zeta.
    rewrite extract_host_quad by (done || by rewrite Hx).
    change (String.eqb (to_ascii_lowercase "https") "https") with true. cbn [negb].
    destruct q as [|y q']; [done |]. done. }
  rewrite Hbody. unfold is_private_host.
  assert (Hempty : is_empty q = false) by (destruct q; done).
  assert (Hlocal : eq_ignore_ascii_case q "localhost" = false).
  { unfold eq_ignore_ascii_case. destruct q as [|y q']; [done |]. cbn in Hx. injection Hx as Hy _.
    destruct (String.eqb_spec (to_ascii_lowercase (String.String y q')) (to_ascii_lowercase "localhost"))
      as [E|]; [|done].
    cbn in E. injection E as E _. exfalso. unfold ascii_lower in E.
    rewrite Hy in E. unfold quad_char, is_ascii_digit in Hxq.
    replace ((65 <=? x) && (x <=? 90)) with false in E by lia. subst y.
    vm_compute in Hy. lia. }
  assert (Hstrip : of_bytes (trim_end_matches 93 (trim_start_matches 91 (bytes_of q))) = q).
  { unfold trim_start_matches, trim_end_matches.
    assert (Hdw : forall z l, forallb quad_char l = true -> z <> 46 /\ is_ascii_digit z = false ->
              drop_while (fun x => x =? z) l = l).
    { intros z [|w m] Hw [Hz1 Hz2]; [done |]. cbn in Hw |- *. apply andb_true_iff in Hw as [Hw _].
      destruct (Z.eqb_spec w z) as [->|]; [|done]. unfold quad_char in Hw. rewrite Hz2 in Hw. lia. }
    rewrite (Hdw 91) by done. rewrite Hdw; [by rewrite rev_involutive, of_bytes_bytes_of | | done].
    apply forallb_forall. intros w Hw. rewrite <-in_rev in Hw. by rewrite forallb_forall in Hq; apply Hq. }
  rewrite Hempty, Hlocal, Hstrip, Hp. cbn [is_private_ip].
  destruct (is_private_ipv4 _); split; done.
Qed.

(** ** Witnesses *)

Lemma private_ip_ranges_witness : blocked (V6 [0; 0; 0; 0; 0; 65535; 2560; 1]).
Proof.
  destruct (private_ip_ranges (V6 [0; 0; 0; 0; 0; 65535; 2560; 1])) as [H _].
  - split; [done |]. repeat constructor; done.
  - apply H. vm_compute. reflexivity.
Defined.

Lemma callback_guard_v4_witness :
  validate_callback_url "https://169.254.169.254/latest/meta-data" <> None.
Proof.
  destruct (callback_guard_v4 169 254 169 254 "/latest/meta-data") as [_ H]; [done .. | by left |].
  apply H. unfold blocked_v4, in_cidr. do 5 right. vm_compute. reflexivity.
Defined.

(** The unspecified IPv6 address is none of them, unlike 0.0.0.0. *)
Lemma unspecified_v6_accepted :
  validate_callback_url "https://[::]/" = None /\ validate_callback_url "https://0.0.0.0/" <> None.
Proof. split; [vm_compute; reflexivity | vm_compute; discriminate]. Qed.
