(* ===== verification/NopDelegation.v ===== *)
(** * NopDelegation: following a cluster across a failover

    Models nps-nop/src/cluster_delegation.rs.  The resolver keeps, per
    cluster, the Anchor it believes to be active.  Its methods take [&self]
    and lock the cache for each access, so the cache is a shared state; the
    section [sequential] gives each method as one function, the section
    [concurrent] splits [resolve_active] at its two locks, as threads run it,
    and lets the other methods happen in between.  The injected cluster
    lookup is an argument: the answer it gives when it is called. *)

From S2P Require Import Prelude RustStr Json NopFrames.
From stdpp Require Import relations.
Local Open Scope Z_scope.

Record ClusterAnchorInfo : Type := mkInfo { active_nid : string; cluster_epoch : Z }.

Abbreviation ActiveMap := (gmap string ClusterAnchorInfo).

(** ** Sequential use *)

Section sequential.
Variable resolve_cluster : string -> option ClusterAnchorInfo.

Definition resolve_active (active : ActiveMap) (cluster_anchor : string)
    : option ClusterAnchorInfo * ActiveMap :=
  if is_empty cluster_anchor then (None, active)
  else
    match active !! cluster_anchor with
    | Some hit => (Some hit, active)
    | None =>
      match resolve_cluster cluster_anchor with
      | None => (None, active)
      | Some fresh => (Some fresh, <[cluster_anchor := fresh]> active)
      end
    end.

Definition resolve_delegate_target (active : ActiveMap) (frame : DelegateFrame)
    : option string * ActiveMap :=
  match dl_target_cluster_anchor frame with
  | None => (Some (dl_target_nid frame), active)
  | Some cluster =>
    if is_empty cluster then (Some (dl_target_nid frame), active)
    else let '(i, active) := resolve_active active cluster in (active_nid <$> i, active)
  end.
End sequential.

Definition on_anchor_failover (active : ActiveMap) (cluster_anchor successor_nid : string)
    (epoch : Z) : bool * ActiveMap :=
  if is_empty cluster_anchor || is_empty successor_nid then (false, active)
  else
    let set := (true, <[cluster_anchor := mkInfo successor_nid epoch]> active) in
    match active !! cluster_anchor with
    | Some cur => if epoch <=? cluster_epoch cur then (false, active) else set
    | None => set
    end.

Definition invalidate (active : ActiveMap) (cluster_anchor : string) : ActiveMap :=
  delete cluster_anchor active.

Definition cached_len (active : ActiveMap) : nat := size active.

(** ** Concurrent use *)

(** A thread between the two locks of [resolve_active] has missed the cache
    for its cluster and is waiting for the lookup, or holds the answer. *)
Inductive Lookup : Type :=
| Asking (cluster : string)
| Answered (cluster : string) (fresh : ClusterAnchorInfo).

Definition lookup_cluster (l : Lookup) : string :=
  match l with Asking c => c | Answered c _ => c end.

Record Shared : Type := mkShared { active : ActiveMap; in_flight : list Lookup }.

Inductive Event : Type :=
| Begin (cluster : string)                                  (* first lock: a miss *)
| Answer (cluster : string) (fresh : option ClusterAnchorInfo)
| Publish (cluster : string) (fresh : ClusterAnchorInfo)    (* second lock: the insert *)
| Failover (cluster nid : string) (epoch : Z) (accepted : bool)
| Invalidate (cluster : string).

(** Hits change nothing and are left out. *)
Inductive step : Shared -> Event -> Shared -> Prop :=
| step_begin s c :
    is_empty c = false -> active s !! c = None ->
    step s (Begin c) (mkShared (active s) (Asking c :: in_flight s))
| step_answer s c i fresh :
    in_flight s !! i = Some (Asking c) ->
    step s (Answer c fresh)
      (mkShared (active s)
         (match fresh with
          | Some f => <[i := Answered c f]> (in_flight s)
          | None => delete i (in_flight s)
          end))
| step_publish s c i fresh :
    in_flight s !! i = Some (Answered c fresh) ->
    step s (Publish c fresh) (mkShared (<[c := fresh]> (active s)) (delete i (in_flight s)))
| step_failover s c n e :
    step s (Failover c n e (on_anchor_failover (active s) c n e).1)
      (mkShared (on_anchor_failover (active s) c n e).2 (in_flight s))
| step_invalidate s c :
    step s (Invalidate c) (mkShared (invalidate (active s) c) (in_flight s)).

Inductive steps : Shared -> list Event -> Shared -> Prop :=
| steps_nil s : steps s [] s
| steps_cons s e s1 es s2 : step s e s1 -> steps s1 es s2 -> steps s (e :: es) s2.

(** ** Lemmas *)

(** [settled c s]: [c] is cached and no thread is looking it up. *)
Definition settled (c : string) (s : Shared) : Prop :=
  is_Some (active s !! c) /\ Forall (fun l => lookup_cluster l <> c) (in_flight s).

Definition invalidates (c : string) (e : Event) : bool :=
  match e with Invalidate c' => String.eqb c c' | _ => false end.

(** The accepted failovers of [c] among some events, in order. *)
Definition successors (c : string) (es : list Event) : list ClusterAnchorInfo :=
  omap (fun e => match e with
    | Failover c' n ep true => if String.eqb c c' then Some (mkInfo n ep) else None
    | _ => None
    end) es.

Lemma last_cons {A} (x d : A) l : List.last (x :: l) d = List.last l x.
Proof. revert x d. induction l as [|y l IH]; intros x d; [done |].
  change (List.last (y :: l) d = List.last (y :: l) x). by rewrite !IH.
Qed.

Lemma failover_cases m c n e :
  let '(ok, m') := on_anchor_failover m c n e in
  (ok = false /\ m' = m) \/
  (ok = true /\ m' = <[c := mkInfo n e]> m /\ is_empty c = false /\ is_empty n = false /\
   forall cur, m !! c = Some cur -> cluster_epoch cur < e).
Proof.
  unfold on_anchor_failover. destruct (is_empty c), (is_empty n); cbn; auto.
  destruct (m !! c) as [cur|] eqn:E.
  - destruct (Z.leb_spec e (cluster_epoch cur)); [by left |]. right. repeat split; try done.
    intros ? [= <-]. done.
  - right. by repeat split.
Qed.

(** From a settled state, without invalidation, a cluster's entry changes
    only by accepted failovers, each to a strictly newer epoch. *)
Lemma settled_step c s ev s' : settled c s -> invalidates c ev = false -> step s ev s' ->
  settled c s' /\
  match successors c [ev] with
  | [] => active s' !! c = active s !! c
  | new :: _ => active s' !! c = Some new /\
                forall cur, active s !! c = Some cur -> cluster_epoch cur < cluster_epoch new
  end.
Proof.
  intros [[cur Hc] Hf] Hi Hs. unfold settled.
  destruct Hs as [s c' Hne Hm|s c' i fresh Hl|s c' i fresh Hl|s c' n e|s c']; cbn in *.
  - split; [split; [by exists cur |] |done]. constructor; [|done]. cbn. intros ->. congruence.
  - split; [|done]. split; [by exists cur |].
    pose proof (Forall_lookup_1 _ _ _ _ Hf Hl) as Hne. cbn in Hne. destruct fresh as [f|].
    + by apply Forall_insert.
    + by apply Forall_delete.
  - pose proof (Forall_lookup_1 _ _ _ _ Hf Hl) as Hne. cbn in Hne.
    rewrite lookup_insert_ne by done. split; [|done]. split; [by exists cur |].
    by apply Forall_delete.
  - pose proof (failover_cases (active s) c' n e) as H.
    destruct (on_anchor_failover (active s) c' n e) as [ok m']; cbn.
    destruct H as [[-> ->]|(-> & -> & _ & _ & H)]; [by repeat split; eauto |].
    destruct (String.eqb_spec c c') as [<-|Hne]; cbn.
    + rewrite lookup_insert_eq. repeat split; eauto.
    + rewrite lookup_insert_ne by done. repeat split; eauto.
  - apply String.eqb_neq in Hi. unfold invalidate. rewrite lookup_delete_ne by done.
    repeat split; eauto.
Qed.

(** ** Theorems *)

(** The cache only moves forward once it is settled.  While no lookup of
    the cluster is in flight, whatever threads do - lookups, failovers and
    invalidations of other clusters, failovers of this one, in any
    interleaving - the entry is always the last accepted failover (or the
    entry it started with), and the epochs of the entries it takes strictly
    increase: a stale or equal epoch never redirects a delegation. *)
Theorem resolver_forward c s es s' :
  settled c s -> steps s es s' -> forallb (fun e => negb (invalidates c e)) es = true ->
  exists cur, active s !! c = Some cur /\
    active s' !! c = Some (List.last (successors c es) cur) /\
    settled c s' /\
    Sorted.StronglySorted (fun a b => cluster_epoch a < cluster_epoch b) (cur :: successors c es).
Proof.
  intros Hset Hs. revert Hset. induction Hs as [s|s e s1 es s2 Hs Hss IH]; intros Hset Hes.
  - destruct Hset as [[cur Hc] Hf]. exists cur. by repeat (split || constructor); eauto.
  - cbn [forallb] in Hes. apply andb_prop in Hes as [He Hes]. apply negb_true_iff in He.
    destruct (settled_step c s e s1 Hset He Hs) as [Hset1 Hstep].
    destruct (IH Hset1 Hes) as (cur1 & Hc1 & Hlast & Hset2 & Hsorted).
    destruct Hset as [[cur Hc] _]. exists cur. split; [done |].
    change (e :: es) with ([e] ++ es). unfold successors in *. rewrite omap_app.
    destruct (omap _ [e]) as [|new rest] eqn:E; cbn [app].
    + replace cur1 with cur in * by congruence. done.
    + assert (rest = []) as ->.
      { cbn in E. destruct e as [| | |c' n ep [] |]; try done. by destruct (String.eqb c c'); simplify_eq. }
      destruct Hstep as [Hnew Hlt]. replace cur1 with new in * by congruence.
      specialize (Hlt _ Hc). split; [|split; [done |]].
      * by rewrite last_cons.
      * cbn [app]. constructor; [done |]. constructor; [done |].
        inversion Hsorted as [|? ? _ Hall]; subst. eapply Forall_impl; [exact Hall | cbn; lia].
Qed.

(** What one call does. [resolve_delegate_target] without a cluster never
    looks it up and returns the agent; with one it returns the cached Anchor,
    and asks only on a miss, caching a positive answer and nothing else.
    [on_anchor_failover] is accepted exactly for a non-blank cluster and
    successor whose epoch is strictly newer than the cached one, if any, and
    then every delegation to the cluster goes to the successor; otherwise the
    cache is as it was. *)
Theorem delegate_target_spec resolve m f c :
  dl_target_cluster_anchor f = Some c ->
  (c = "" -> resolve_delegate_target resolve m f = (Some (dl_target_nid f), m)) /\
  (c <> "" -> forall i, m !! c = Some i ->
     resolve_delegate_target resolve m f = (Some (active_nid i), m)) /\
  (c <> "" -> m !! c = None ->
     resolve_delegate_target resolve m f
     = (active_nid <$> resolve c, match resolve c with Some i => <[c := i]> m | None => m end)) /\
  (forall n e, let '(ok, m') := on_anchor_failover m c n e in
     (ok = true <-> c <> "" /\ n <> "" /\
        forall cur, m !! c = Some cur -> cluster_epoch cur < e) /\
     (ok = true -> (resolve_delegate_target resolve m' f).1 = Some n) /\
     (ok = false -> m' = m)).
Proof.
  intros Hf. unfold resolve_delegate_target, resolve_active. rewrite Hf.
  split; [by intros -> |].
  assert (Hne : forall s, is_empty s = false <-> s <> "") by (intros []; cbn; split; congruence).
  split; [intros Hc%Hne i Hi; by rewrite Hc, Hi |].
  split; [intros Hc%Hne Hi; rewrite Hc, Hi; by destruct (resolve c) |].
  intros n e. pose proof (failover_cases m c n e) as H.
  unfold on_anchor_failover in *.
  destruct (is_empty c) eqn:Ec; [|destruct (is_empty n) eqn:En]; cbn in *.
  - repeat split; try done. intros (Hc & _). apply Hne in Hc. congruence.
  - repeat split; try done. intros (_ & Hn & _). apply Hne in Hn. congruence.
  - apply Hne in Ec, En. destruct (m !! c) as [cur|] eqn:E.
    + destruct (Z.leb_spec e (cluster_epoch cur)); (repeat split; try done).
      * intros (_ & _ & Hlt). specialize (Hlt _ eq_refl). lia.
      * by intros ? [= <-].
      * intros _. by rewrite lookup_insert_eq.
    + repeat split; try done. intros _. by rewrite lookup_insert_eq.
Qed.

(** ** Witnesses and the race *)

Definition cl : string := "urn:nps:cluster:x:main".
Definition info_a : ClusterAnchorInfo := mkInfo "a" 1.
Definition one_cached : Shared := mkShared {[cl := info_a]} [].

Lemma resolver_forward_witness :
  exists s', steps one_cached [Failover cl "b" 3 true; Failover cl "c" 3 false] s' /\
    exists cur, active one_cached !! cl = Some cur /\ active s' !! cl = Some (mkInfo "b" 3).
Proof.
  eexists. assert (Hs : steps one_cached [Failover cl "b" 3 true; Failover cl "c" 3 false]
    (mkShared (on_anchor_failover (on_anchor_failover {[cl := info_a]} cl "b" 3).2 cl "c" 3).2 [])).
  { eapply steps_cons; [exact (step_failover one_cached cl "b" 3) |].
    eapply steps_cons; [exact (step_failover _ cl "c" 3) |]. apply steps_nil. }
  split; [exact Hs |].
  destruct (resolver_forward cl one_cached _ _ (conj (ex_intro _ info_a eq_refl) (Forall_nil_2 _)) Hs eq_refl)
    as (cur & Hc & Hl & _).
  exists cur. split; [exact Hc |]. exact Hl.
Defined.

Lemma delegate_target_witness :
  let f := mkDelegateFrame "t" "s" "do" "agent" None None None (Some cl) in
  resolve_delegate_target (fun _ => Some info_a) ∅ f = (Some "a", {[cl := info_a]}).
Proof.
  intros f. destruct (delegate_target_spec (fun _ => Some info_a) ∅ f cl eq_refl) as (_ & _ & H & _).
  rewrite H; [reflexivity | discriminate | reflexivity].
Defined.

(** While a lookup is in flight the cache does move backward: a thread that
    missed before a failover publishes its older answer over the successor,
    so later delegations go to the superseded Anchor. *)
Lemma late_answer_overwrites_failover :
  exists s', steps (mkShared ∅ [])
    [Begin cl; Answer cl (Some info_a); Failover cl "b" 2 true; Publish cl info_a] s' /\
  active s' !! cl = Some info_a.
Proof.
  eexists. split.
  - eapply steps_cons; [by apply step_begin |].
    eapply steps_cons; [apply (step_answer _ cl 0 (Some info_a)); reflexivity |].
    eapply steps_cons; [exact (step_failover _ cl "b" 2) |].
    eapply steps_cons; [apply (step_publish _ cl 0 info_a); reflexivity |]. apply steps_nil.
  - reflexivity.
Qed.
