(* ===== verification/NopOrchestrator.v ===== *)
(** * NopOrchestrator: running a task DAG

    Models nps-nop/src/orchestrator.rs.  Everything the orchestrator does
    not decide itself is the environment [NopEnv]: what each worker stream
    delivers before the node's deadline, the order in which concurrently
    running nodes finish, the iteration order of the hash map of nodes, the
    clock and fresh identifiers, and whether the task's timer fires.

    A node in flight is represented by the outcome its run will deliver and
    the store updates it will issue; both depend only on the snapshot of the
    results taken at launch, and updates of different nodes commute
    ([NopStore.update_subtask_commute]). *)

From S2P Require Import Prelude RustStr Json NopModels NopDag NopMapper NopCondition NopStore NopCallback.
Local Open Scope Z_scope.

Record NodeOutcome : Type := mkOutcome {
  o_state : TaskState;
  o_result : option Value;
  o_error_code : option string;
  o_error_message : option string
}.
Definition outcome_new (state : TaskState) (r : option Value) (code : option string) : NodeOutcome :=
  mkOutcome state r code None.

Record NopOrchestratorOptions : Type := mkOptions {
  max_concurrent_nodes : nat;
  validate_sender_nid : bool;
  enable_callback : bool;
  default_aggregate_strategy : string
}.

(** What a worker's stream delivers within the deadline, and whether it
    closes within it. *)
Record WorkerStream : Type := mkStream { ws_frames : list AlignStreamFrame; ws_closes : bool }.

Record PreflightResult : Type := mkPreflight {
  pf_agent_nid : string;
  pf_available : bool;
  pf_unavailable_reason : option string
}.

Class NopEnv : Type := {
  env_delegate : DelegateFrame -> nat -> WorkerStream;
  env_preflight : string -> string -> PreflightResult;
  env_probe_order : list (string * string) -> list (string * string);
  env_uuid : string -> nat -> string;
  env_now_ms : string -> nat -> Z;
  env_next : nat -> nat;
  env_key_order : list string -> list string;
  env_timeout : option nat
}.

(** The orders the environment chooses are orders of what it is given. *)
Class NopEnvLaws `{NopEnv} : Prop := {
  env_probe_perm l : env_probe_order l ≡ₚ l;
  env_key_perm l : env_key_order l ≡ₚ l
}.

(** ** Free helpers *)

Definition is_success (s : option TaskState) : bool :=
  match s with Some Completed | Some Skipped => true | _ => false end.
Definition is_failed (s : option TaskState) : bool :=
  match s with Some Failed => true | _ => false end.

Definition success_count (states : gmap string TaskState) (deps : list string) : nat :=
  length (List.filter (fun d => is_success (states !! d)) deps).
Definition failed_count (states : gmap string TaskState) (deps : list string) : nat :=
  length (List.filter (fun d => is_failed (states !! d)) deps).

Definition deps_of (n : DagNode) : list string := default [] (n_input_from n).
Definition required_k (n : DagNode) : nat :=
  if 0 <? n_min_required n then Z.to_nat (n_min_required n) else length (deps_of n).

Definition are_deps_done (node : DagNode) (states : gmap string TaskState) : bool :=
  match deps_of node with
  | [] => true
  | deps =>
    let total := length deps in
    let k := required_k node in
    let success := success_count states deps in
    let failed := failed_count states deps in
    if (k <=? success)%nat then true
    else if (total - failed <? k)%nat then true
    else false
  end.

(** [all_nodes[end_node_id]] would panic on an unknown id. *)
Definition can_end_node_still_succeed (end_node_id : string) (all_nodes : gmap string DagNode)
    (node_states : gmap string TaskState) : bool :=
  match all_nodes !! end_node_id with
  | None => false
  | Some node =>
    match deps_of node with
    | [] => false
    | deps => (required_k node <=? length deps - failed_count node_states deps)%nat
    end
  end.

(** Breadth-first search; [fuel] bounds the pops of the queue. *)
Fixpoint bfs (fuel : nat) (target : string) (edges : list DagEdge) (visited : gset string)
    (queue : list string) : option bool :=
  match fuel with
  | O => None
  | S fuel =>
    match queue with
    | [] => Some false
    | cur :: queue =>
      if String.eqb cur target then Some true
      else if decide (cur ∈ visited) then bfs fuel target edges visited queue
      else bfs fuel target edges ({[cur]} ∪ visited) (queue ++ outs edges cur)
    end
  end.

Definition can_reach_end_node (end_node_id failed_node_id : string) (edges : list DagEdge)
    : option bool :=
  bfs (S (S (length edges))) end_node_id edges ∅ [failed_node_id].

Definition should_retry (policy : option RetryPolicy) (error_code : option string)
    (attempt max_retries : nat) : bool :=
  if (max_retries <? attempt)%nat then false
  else
    match (p ← policy; rp_retry_on p) with
    | Some ((_ :: _) as retry_on) =>
      match error_code with
      | Some code => existsb (fun c => String.eqb c code) retry_on
      | None => true
      end
    | _ => true
    end.

Definition compensation_failure_error_code (task : TaskFrame)
    (compensation : option SagaCompensationResult) : option string :=
  if negb (is_strict (Some (t_compensation_policy task))) then None
  else
    comp ← compensation;
    if (sc_failed comp =? 0)%nat then None
    else Some (if (sc_attempted comp =? 0)%nat then COMPENSATION_NOT_SUPPORTED else COMPENSATION_FAILED).

Section orchestrator.
Context {UT : UnicodeTables}.
Context (value_text : Value -> string).
Context {NE : NopEnv}.
Context (opts : NopOrchestratorOptions).

(** ** One execution of a node *)

Inductive StreamStop : Type :=
| StopGap
| StopSender
| StopFinal (frame : AlignStreamFrame)
| StopEnd.

(** The [while let Some(frame) = stream.next()] loop; [last_seq + 1] wraps in
    a release build. *)
Fixpoint consume (agent : string) (last_seq : Z) (frames : list AlignStreamFrame) : StreamStop :=
  match frames with
  | [] => StopEnd
  | frame :: rest =>
    if negb (as_seq frame =? last_seq) && negb (as_seq frame =? 0)
       && negb (as_seq frame =? wrap_u64 (last_seq + 1))
    then StopGap
    else if validate_sender_nid opts && negb (String.eqb (as_sender_nid frame) agent)
    then StopSender
    else if as_is_final frame then StopFinal frame
    else consume agent (as_seq frame) rest
  end.

Definition node_timeout_ms (task : TaskFrame) (node : DagNode) : Z :=
  Z.min (default (t_timeout_ms task) (n_timeout_ms node)) MAX_TIMEOUT_MS.

Definition stream_outcome (task : TaskFrame) (node : DagNode) (s : WorkerStream) : NodeOutcome :=
  match consume (n_agent node) 0 (ws_frames s) with
  | StopGap => outcome_new Failed None (Some STREAM_SEQ_GAP)
  | StopSender => outcome_new Failed None (Some STREAM_NID_MISMATCH)
  | StopFinal frame =>
    match as_error frame with
    | Some err => mkOutcome Failed None (Some (se_code err)) (Some (se_message err))
    | None => outcome_new Completed (as_data frame) None
    end
  | StopEnd =>
    if ws_closes s
    then mkOutcome Failed None (Some DELEGATE_TIMEOUT) (Some "Stream ended without final frame.")
    else mkOutcome Failed None (Some DELEGATE_TIMEOUT)
           (Some ("Node '" +:+ n_id node +:+ "' timed out after "
                  +:+ fmt_Z (node_timeout_ms task node) +:+ "ms."))
  end.

Definition delegate_frame (task : TaskFrame) (node : DagNode) (subtask_id idempotency_key : string)
    (params : Value) (now : Z) : DelegateFrame :=
  mkDelegateFrame (t_task_id task) subtask_id (n_id node) (n_agent node) (n_action node)
    (Some params) (VObject []) (fmt_Z (now + node_timeout_ms task node)) (Some idempotency_key)
    (Some (t_priority task)) (Some (default TaskContext_default (t_context task)))
    (t_delegate_depth task + 1) None.

Definition execute_node_once (task : TaskFrame) (node : DagNode) (subtask_id idempotency_key : string)
    (attempt : nat) (context : gmap string Value) : NodeOutcome :=
  match build_params (n_input_mapping node) context with
  | Err e => mkOutcome Failed None (Some (me_error_code e)) (Some (me_message e))
  | Ok params =>
    let frame := delegate_frame task node subtask_id idempotency_key params
                   (env_now_ms subtask_id attempt) in
    stream_outcome task node (env_delegate frame attempt)
  end.

(** ** Retries *)

Definition update_attempt (r : option Value) (code msg : option string) (attempt : nat)
    : SubtaskUpdate := mkUpdate r code msg (Z.of_nat attempt).

(** Attempts [attempt, ..., attempt + remaining - 1]; the delays between them
    do not change the outcome. *)
Fixpoint attempts (task : TaskFrame) (node : DagNode) (subtask_id key : string) (max_retries : nat)
    (context : gmap string Value) (remaining attempt : nat) : NodeOutcome * list StoreOp :=
  let write st u := UpdateSubtask (n_id node) subtask_id st u in
  match remaining with
  | O =>
    (outcome_new Failed None (Some DELEGATE_TIMEOUT),
     [write Failed (update_attempt None (Some DELEGATE_TIMEOUT)
        (Some ("Node '" +:+ n_id node +:+ "' exhausted " +:+ fmt_Z (Z.of_nat max_retries)
               +:+ " retries.")) 0)])
  | S remaining =>
    let running := write Running (update_attempt None None None attempt) in
    let outcome := execute_node_once task node subtask_id key attempt context in
    if decide (o_state outcome = Completed)
    then (outcome, [running; write Completed (update_attempt (o_result outcome) None None attempt)])
    else if negb (should_retry (n_retry_policy node) (o_error_code outcome) attempt max_retries)
    then (outcome, [running; write Failed (update_attempt None (o_error_code outcome)
                                             (o_error_message outcome) attempt)])
    else
      let '(o, ops) := attempts task node subtask_id key max_retries context remaining (S attempt) in
      (o, running :: ops)
  end.

Definition max_retries_of (task : TaskFrame) (node : DagNode) : nat :=
  Z.to_nat (match n_retry_policy node with
            | Some p => rp_max_retries p
            | None => t_max_retries task
            end).

(** The condition, evaluated once before the first attempt; evaluation
    always answers ([NopCondition.evaluate_total]). *)
Definition node_condition (node : DagNode) (context : gmap string Value)
    : result ConditionError bool :=
  match n_condition node with
  | Some cond =>
    if is_empty cond then Ok true
    else default (Ok true) (evaluate value_text cond context)
  | None => Ok true
  end.

Definition execute_node_with_retry (task : TaskFrame) (node : DagNode)
    (context : gmap string Value) : NodeOutcome * list StoreOp :=
  let subtask_id := env_uuid (n_id node) 0 in
  let idempotency_key := env_uuid (n_id node) 1 in
  let max_retries := max_retries_of task node in
  match node_condition node context with
  | Ok false =>
    (outcome_new Skipped None None,
     [UpdateSubtask (n_id node) subtask_id Skipped update_default])
  | Err e =>
    (outcome_new Failed None (Some CONDITION_EVAL_ERROR),
     [UpdateSubtask (n_id node) subtask_id Failed
        (update_attempt None (Some CONDITION_EVAL_ERROR) (Some (ce_message e)) 1)])
  | Ok true =>
    attempts task node subtask_id idempotency_key max_retries context (S max_retries) 1
  end.

(** ** Saga compensation *)

Definition blank (a : option string) : bool :=
  match a with Some s => is_empty (trim s) | None => true end.

Fixpoint compensate_loop (task : TaskFrame) (all_nodes : gmap string DagNode)
    (node_results : gmap string Value) (ids : list string) (succeeded : nat)
    (failed_ids : list string) : nat * list string :=
  match ids with
  | [] => (succeeded, failed_ids)
  | id :: rest =>
    match all_nodes !! id with
    | None => (succeeded, failed_ids)
    | Some node =>
      let compensation_node :=
        mkDagNode (n_id node) (default "" (n_compensate_action node)) (n_agent node)
          (n_input_from node) (n_compensate_params_mapping node) (n_timeout_ms node)
          (n_retry_policy node) (n_condition node) (n_min_required node)
          (n_compensate_action node) (n_compensate_params_mapping node) in
      let outcome := execute_node_once task compensation_node (env_uuid id 2) (env_uuid id 3) 1
                       node_results in
      if decide (o_state outcome = Completed)
      then compensate_loop task all_nodes node_results rest (S succeeded) failed_ids
      else compensate_loop task all_nodes node_results rest succeeded (failed_ids ++ [id])
    end
  end.

Definition compensate_action_of (all_nodes : gmap string DagNode) (id : string) : option string :=
  n ← all_nodes !! id; n_compensate_action n.

Definition completed_reverse (all_nodes : gmap string DagNode) (topo_order : list string)
    (node_states : gmap string TaskState) : list string :=
  rev (List.filter (fun id => bool_decide (node_states !! id = Some Completed)
                             && bool_decide (is_Some (all_nodes !! id))) topo_order).

Definition run_saga_compensation (task : TaskFrame) (all_nodes : gmap string DagNode)
    (topo_order : list string) (node_results : gmap string Value)
    (node_states : gmap string TaskState) : SagaCompensationResult * list StoreOp :=
  let completed := completed_reverse all_nodes topo_order node_states in
  let missing := List.filter (fun id => blank (compensate_action_of all_nodes id)) completed in
  if is_strict (Some (t_compensation_policy task)) && negb (length missing =? 0)%nat
  then (mkSaga 0 0 (length missing) missing, [])
  else
    let to_compensate :=
      List.filter (fun id => negb (blank (compensate_action_of all_nodes id))) completed in
    match to_compensate with
    | [] => (mkSaga 0 0 0 [], [])
    | _ =>
      let '(succeeded, failed_ids) := compensate_loop task all_nodes node_results to_compensate 0 [] in
      (mkSaga (length to_compensate) succeeded (length failed_ids) failed_ids,
       [UpdateState Compensating])
    end.

(** [if runs_on_*(policy) { Some(self.run_saga_compensation(..)) } else { None }]. *)
Definition compensate_if (run : bool) (task : TaskFrame) (all_nodes : gmap string DagNode)
    (topo_order : list string) (node_results : gmap string Value)
    (node_states : gmap string TaskState) : option SagaCompensationResult * list StoreOp :=
  if run
  then let '(c, ops) := run_saga_compensation task all_nodes topo_order node_results node_states in
       (Some c, ops)
  else (None, []).

(** ** The DAG loop *)

Record DagRun : Type := mkRun {
  run_states : gmap string TaskState;
  run_results : gmap string Value;
  run_in_flight : list (string * (NodeOutcome * list StoreOp));
  run_ops : list StoreOp
}.

(** Nodes not started whose dependencies are done. *)
Definition ready_nodes (task : TaskFrame) (r : DagRun) : list DagNode :=
  List.filter (fun n => are_deps_done n (run_states r))
    (List.filter (fun n => negb (bool_decide (is_Some (run_states r !! n_id n)))
                        && negb (existsb (fun f => String.eqb (fst f) (n_id n)) (run_in_flight r)))
       (d_nodes (t_dag task))).

(** The K-of-N pass: a ready node whose K can no longer be met fails here. *)
Fixpoint sync_filter (ready : list DagNode) (states : gmap string TaskState) (ops : list StoreOp)
    : list DagNode * gmap string TaskState * list StoreOp :=
  match ready with
  | [] => ([], states, ops)
  | n :: rest =>
    match deps_of n with
    | [] => let '(keep, states, ops) := sync_filter rest states ops in (n :: keep, states, ops)
    | deps =>
      let k := required_k n in
      let success := success_count states deps in
      if (success <? k)%nat
      then
        sync_filter rest (<[n_id n := Failed]> states)
          (ops ++ [UpdateSubtask (n_id n) (env_uuid (n_id n) 4) Failed
             (update_attempt None (Some SYNC_DEPENDENCY_FAILED)
                (Some ("Only " +:+ fmt_Z (Z.of_nat success) +:+ "/" +:+ fmt_Z (Z.of_nat k)
                       +:+ " required dependencies succeeded.")) 1)])
      else let '(keep, states, ops) := sync_filter rest states ops in (n :: keep, states, ops)
    end
  end.

Fixpoint launch (task : TaskFrame) (ready : list DagNode) (results : gmap string Value)
    (in_flight : list (string * (NodeOutcome * list StoreOp)))
    : list (string * (NodeOutcome * list StoreOp)) :=
  match ready with
  | [] => in_flight
  | node :: rest =>
    if (max_concurrent_nodes opts <=? length in_flight)%nat then in_flight
    else launch task rest results
           (in_flight ++ [(n_id node, execute_node_with_retry task node results)])
  end.

(** What an iteration does before it waits. *)
Definition schedule (task : TaskFrame) (r : DagRun) : DagRun :=
  let '(ready, states, ops) := sync_filter (ready_nodes task r) (run_states r) (run_ops r) in
  mkRun states (run_results r) (launch task ready (run_results r) (run_in_flight r)) ops.

(** The completion of the in-flight node at position [i]. *)
Definition finish (r : DagRun) (i : nat) : option (string * NodeOutcome * DagRun) :=
  '(id, (outcome, ops)) ← run_in_flight r !! i;
  Some (id, outcome,
    mkRun (<[id := o_state outcome]> (run_states r))
      (match o_state outcome, o_result outcome with
       | Completed, Some v => <[id := v]> (run_results r)
       | _, _ => run_results r
       end)
      (delete i (run_in_flight r)) (run_ops r ++ ops)).

Inductive LoopEnd : Type :=
| Finished (r : DagRun)
| Aborted (failed_node_id : string) (outcome : NodeOutcome) (r : DagRun).

Definition all_nodes_of (task : TaskFrame) : gmap string DagNode :=
  list_to_map (rev (map (fun n => (n_id n, n)) (d_nodes (t_dag task)))).

Definition end_node_ids (task : TaskFrame) : list string :=
  List.filter (fun id => negb (existsb (fun e => String.eqb (e_from e) id) (d_edges (t_dag task))))
    (env_key_order (map n_id (d_nodes (t_dag task)))).

(** [None] would be exhausted fuel, in the loop or in the search. *)
Fixpoint must_abort (task : TaskFrame) (ends : list string) (failed_id : string)
    (states : gmap string TaskState) : option bool :=
  match ends with
  | [] => Some false
  | e :: rest =>
    reach ← can_reach_end_node e failed_id (d_edges (t_dag task));
    if reach && negb (can_end_node_still_succeed e (all_nodes_of task) states)
    then Some true
    else must_abort task rest failed_id states
  end.

Fixpoint dag_loop (fuel : nat) (task : TaskFrame) (iteration : nat) (r : DagRun) : option LoopEnd :=
  match fuel with
  | O => None
  | S fuel =>
    if negb (size (run_states r) <? size (all_nodes_of task))%nat then Some (Finished r)
    else
      let r := schedule task r in
      match run_in_flight r with
      | [] => Some (Finished r)
      | _ =>
        '(id, outcome, r) ← finish r (env_next iteration mod length (run_in_flight r));
        if decide (o_state outcome = Failed)
        then
          abort ← must_abort task (end_node_ids task) id (run_states r);
          if abort : bool then Some (Aborted id outcome r)
          else dag_loop fuel task (S iteration) r
        else dag_loop fuel task (S iteration) r
      end
  end.

Definition failed_nodes (states : gmap string TaskState) : list string :=
  map fst (map_collect (List.filter (fun kv => bool_decide (snd kv = Failed)) (map_to_list states))).

Definition run_start : DagRun := mkRun ∅ ∅ [] [].

(** [run_dag]: the result, and the store updates issued. *)
Definition run_dag (task : TaskFrame) (topo_order : list string)
    : option (NopTaskResult * list StoreOp) :=
  let policy := Some (t_compensation_policy task) in
  let all_nodes := all_nodes_of task in
  let fail code msg comp := task_failure (t_task_id task) code msg comp in
  stop ← dag_loop (S (length (d_nodes (t_dag task)))) task 0 run_start;
  match stop with
  | Aborted id outcome r =>
    let drained := concat (map (fun f => snd (snd f)) (run_in_flight r)) in
    let '(compensation, ops) := compensate_if (runs_on_failure policy) task all_nodes topo_order
                                  (run_results r) (run_states r) in
    let error_code := default SYNC_DEPENDENCY_FAILED
                        (compensation_failure_error_code task compensation) in
    Some (fail error_code ("Node '" +:+ id +:+ "' failed: " +:+ default "" (o_error_code outcome))
            compensation, run_ops r ++ drained ++ ops)
  | Finished r =>
    let failed := failed_nodes (run_states r) in
    let end_failed := existsb (fun e => is_failed (run_states r !! e)) (end_node_ids task) in
    if negb (length failed =? 0)%nat && end_failed
    then
      let '(compensation, ops) := compensate_if (runs_on_failure policy) task all_nodes topo_order
                                    (run_results r) (run_states r) in
      let error_code := default SYNC_DEPENDENCY_FAILED
                          (compensation_failure_error_code task compensation) in
      Some (fail error_code ("End node(s) failed: " +:+ join ", " failed) compensation,
            run_ops r ++ ops)
    else
      let aggregated := aggregate_end_nodes (end_node_ids task) (run_results r)
                          (default_aggregate_strategy opts) in
      let '(compensation, ops) := compensate_if (runs_on_success policy) task all_nodes topo_order
                                    (run_results r) (run_states r) in
      Some (task_success (t_task_id task) (Some aggregated) (run_results r) compensation,
            run_ops r ++ ops)
  end.

(** ** Lifecycle *)

Fixpoint unique_agents (seen : list string) (nodes : list DagNode) : list (string * string) :=
  match nodes with
  | [] => []
  | n :: rest =>
    if existsb (String.eqb (n_agent n)) seen then unique_agents seen rest
    else (n_agent n, n_action n) :: unique_agents (n_agent n :: seen) rest
  end.

Definition run_preflight (task : TaskFrame) : option string :=
  let probes := env_probe_order (unique_agents [] (d_nodes (t_dag task))) in
  res ← find (fun p => negb (pf_available p)) (map (fun a => env_preflight a.1 a.2) probes);
  Some ("Agent '" +:+ pf_agent_nid res +:+ "' is unavailable: "
        +:+ default "no reason given" (pf_unavailable_reason res)).

(** [run_lifecycle]: the result, the store updates, and the callback fired. *)
Definition run_lifecycle (task : TaskFrame) (topo_order : list string)
    : option (NopTaskResult * list StoreOp * option (string * NopTaskResult)) :=
  let pre := if t_preflight task then [UpdateState Preflight] else [] in
  match (if t_preflight task then run_preflight task else None) with
  | Some fail =>
    Some (task_failure (t_task_id task) RESOURCE_INSUFFICIENT fail None,
          pre ++ [UpdateState Failed], None)
  | None =>
    '(result, ops) ← run_dag task topo_order;
    let callback :=
      if enable_callback opts
      then url ← t_callback_url task; if is_empty url then None else Some (url, result)
      else None in
    Some (result, pre ++ [UpdateState Running] ++ ops ++ [UpdateState (r_final_state result)], callback)
  end.

(** [execute] on a store: the result and the store afterwards.  When the
    task's timer fires, only the updates issued before it have happened. *)
Definition execute (store : Store) (task : TaskFrame) : option (NopTaskResult * Store) :=
  let id := t_task_id task in
  let fail code msg := Some (task_failure id code msg None, store) in
  if MAX_DELEGATE_CHAIN_DEPTH <=? t_delegate_depth task
  then fail DELEGATE_CHAIN_TOO_DEEP
         ("Delegation chain depth " +:+ fmt_Z (t_delegate_depth task)
          +:+ " exceeds the maximum of " +:+ fmt_Z MAX_DELEGATE_CHAIN_DEPTH +:+ ".")
  else
  match (url ← t_callback_url task; if is_empty url then None else validate_callback_url url) with
  | Some err => fail TASK_DAG_INVALID err
  | None =>
    validation ← validate_dag (t_dag task);
    if negb (v_is_valid validation)
    then fail (default "" (v_error_code validation)) (default "" (v_error_message validation))
    else
      let topo_order := default [] (v_topological_order validation) in
      match store !! id with
      | Some _ => fail TASK_ALREADY_COMPLETED ("Task '" +:+ id +:+ "' already exists.")
      | None =>
        let record := mkTaskRecord id task Pending (env_now_ms id 0) None ∅ in
        let store := match save store record with Ok s => s | Err _ => store end in
        '(result, ops, _) ← run_lifecycle task topo_order;
        match env_timeout with
        | None => Some (result, apply_ops id store ops)
        | Some n =>
          let timeout_ms := Z.min (t_timeout_ms task) MAX_TIMEOUT_MS in
          Some (task_failure id TASK_TIMEOUT
                  ("Task exceeded timeout of " +:+ fmt_Z timeout_ms +:+ "ms.") None,
                apply_ops id store (take n ops ++ [UpdateState Failed]))
        end
      end
  end.

Definition cancel (store : Store) (task_id : string) : Store := update_state store task_id Cancelled.

End orchestrator.
