(* ===== verification/NopOrchestratorSpec.v ===== *)
(** * NopOrchestratorSpec: what the orchestrator guarantees

    Theorems about NopOrchestrator: one node's execution and retries, the
    reachability search, saga compensation, the DAG loop under every
    completion order, and the store after [execute]. *)

From S2P Require Import Prelude RustStr Json NopModels NopDag NopMapper NopCondition NopStore NopCallback NopOrchestrator.
From stdpp Require Import relations.
Local Open Scope Z_scope.

Section spec.
Context {UT : UnicodeTables}.
Context (value_text : Value -> string).
Context {NE : NopEnv}.
Context (opts : NopOrchestratorOptions).

(** ** One stream *)

(** Sequence numbers repeat, advance by one, or restart at zero. *)
Fixpoint seq_ok (last : Z) (frames : list AlignStreamFrame) : Prop :=
  match frames with
  | [] => True
  | f :: rest =>
    (as_seq f = last \/ as_seq f = 0 \/ as_seq f = wrap_u64 (last + 1)) /\ seq_ok (as_seq f) rest
  end.

Definition sender_ok (agent : string) (f : AlignStreamFrame) : Prop :=
  validate_sender_nid opts = true -> as_sender_nid f = agent.

(** [f] is the final frame of a well-behaved prefix of the stream. *)
Definition accepted (agent : string) (last : Z) (frames : list AlignStreamFrame)
    (f : AlignStreamFrame) : Prop :=
  exists pre post, frames = pre ++ f :: post /\ Forall (fun g => as_is_final g = false) pre /\
    as_is_final f = true /\ Forall (sender_ok agent) (pre ++ [f]) /\ seq_ok last (pre ++ [f]).

Lemma consume_final agent last frames f :
  consume opts agent last frames = StopFinal f <-> accepted agent last frames f.
Proof.
  revert last. induction frames as [|g rest IH]; intros last; cbn [consume].
  { split; [done |]. intros (pre & post & E & _). by destruct pre. }
  assert (Hseq : negb (as_seq g =? last) && negb (as_seq g =? 0)
                 && negb (as_seq g =? wrap_u64 (last + 1)) = false <->
                 (as_seq g = last \/ as_seq g = 0 \/ as_seq g = wrap_u64 (last + 1))) by lia.
  destruct (negb (as_seq g =? last) && _ && _) eqn:Es.
  { split; [done |]. intros (pre & post & E & _ & _ & _ & Hs).
    assert (Hg : seq_ok last [g] \/ exists p, seq_ok last (g :: p))
      by (destruct pre as [|x pre]; cbn in E; simplify_eq; [by left | right; eauto]).
    destruct Hg as [[Hg _]|[p [Hg _]]]; apply Hseq in Hg; done. }
  pose proof (proj1 Hseq eq_refl) as Hg.
  assert (Hsend : validate_sender_nid opts && negb (String.eqb (as_sender_nid g) agent) = false <->
                  sender_ok agent g).
  { unfold sender_ok. destruct (validate_sender_nid opts); cbn; [|done].
    destruct (String.eqb_spec (as_sender_nid g) agent); cbn; naive_solver. }
  destruct (validate_sender_nid opts && _) eqn:Ev.
  { split; [done |]. intros (pre & post & E & _ & _ & Hs & _).
    assert (Hg' : sender_ok agent g)
      by (destruct pre as [|x pre]; cbn in E, Hs; simplify_eq; by inversion_clear Hs).
    by apply Hsend in Hg'. }
  pose proof (proj1 Hsend eq_refl) as Hg'.
  destruct (as_is_final g) eqn:Ef.
  - split.
    + intros [= <-]. exists [], rest. split; [done |]. split; [done |]. split; [done |].
      split; [by repeat constructor | done].
    + intros (pre & post & E & Hn & Hf & _). destruct pre as [|x pre]; cbn in E; simplify_eq; [done |].
      inversion_clear Hn. congruence.
  - rewrite IH. split.
    + intros (pre & post & -> & Hn & Hf & Hs & Hq). exists (g :: pre), post.
      split; [done |]. split; [by constructor |]. split; [done |]. split; [by constructor | done].
    + intros (pre & post & E & Hn & Hf & Hs & Hq). destruct pre as [|x pre]; cbn in E; simplify_eq; [congruence |].
      inversion_clear Hn. inversion_clear Hs. destruct Hq as [_ Hq]. exists pre, post. done.
Qed.

Lemma stream_outcome_state task node s :
  o_state (stream_outcome opts task node s) = Completed \/
  o_state (stream_outcome opts task node s) = Failed.
Proof. unfold stream_outcome. repeat case_match; cbn; auto. Qed.

(** A node completes exactly when its stream reaches a final frame
    without error, every frame up to it in sequence and, when validation is
    on, sent by the node's agent; the node's result is that frame's data. *)
Theorem stream_completes_iff task node s data :
  (o_state (stream_outcome opts task node s) = Completed /\
   o_result (stream_outcome opts task node s) = data) <->
  exists f, accepted (n_agent node) 0 (ws_frames s) f /\ as_error f = None /\ as_data f = data.
Proof.
  unfold stream_outcome. split.
  - destruct (consume _ _ _ _) as [| |f|] eqn:E; cbn; [by intros [] .. | |].
    + destruct (as_error f) eqn:Ee; cbn; [by intros [] |]. intros [_ <-].
      exists f. by apply consume_final in E.
    + by destruct (ws_closes s); intros [].
  - intros (f & Hf%consume_final & He & <-). by rewrite Hf, He.
Qed.

(** ** Retries *)

Section retries.
Variables (task : TaskFrame) (node : DagNode) (sid key : string).
Variables (max_retries : nat) (context : gmap string Value).

Definition attempt_outcome (i : nat) : NodeOutcome :=
  execute_node_once opts task node sid key i context.
Definition retried (i : nat) : Prop :=
  o_state (attempt_outcome i) <> Completed /\
  should_retry (n_retry_policy node) (o_error_code (attempt_outcome i)) i max_retries = true.
Definition running_op (i : nat) : StoreOp :=
  UpdateSubtask (n_id node) sid Running (update_attempt None None None i).
Definition final_op (o : NodeOutcome) (i : nat) : StoreOp :=
  if decide (o_state o = Completed)
  then UpdateSubtask (n_id node) sid Completed (update_attempt (o_result o) None None i)
  else UpdateSubtask (n_id node) sid Failed (update_attempt None (o_error_code o) (o_error_message o) i).

Lemma attempts_spec remaining a :
  (a + remaining = max_retries + 2)%nat -> (1 <= remaining)%nat ->
  exists n, (a <= n <= S max_retries)%nat /\
    (forall i, (a <= i < n)%nat -> retried i) /\ ~ retried n /\
    attempts opts task node sid key max_retries context remaining a
    = (attempt_outcome n, map running_op (seq a (S n - a)) ++ [final_op (attempt_outcome n) n]).
Proof.
  revert a. induction remaining as [|remaining IH]; intros a Hsum Hpos; [lia |].
  cbn [attempts]. fold (attempt_outcome a). unfold final_op. case_decide as Hc.
  - exists a. split; [lia |]. split; [lia |]. split; [by intros [? _] |].
    replace (S a - a)%nat with 1%nat by lia. cbn [seq map app]. by rewrite decide_True.
  - destruct (should_retry _ _ a max_retries) eqn:Hr; cbn [negb].
    + assert (Ha : (a <= max_retries)%nat).
      { unfold should_retry in Hr. destruct (max_retries <? a)%nat eqn:E; [done | cmp_hyps; lia]. }
      destruct (IH (S a)) as (n & Hn & Hbefore & Hstop & Hrun); [lia | lia |].
      exists n. split; [lia |]. split.
      { intros i Hi. destruct (decide (i = a)) as [->|]; [done | apply Hbefore; lia]. }
      split; [done |]. rewrite Hrun. f_equal.
      replace (S n - a)%nat with (S (S n - S a)) by lia. done.
    + exists a. split; [lia |]. split; [lia |]. split; [intros [_ Hr']; congruence |].
      replace (S a - a)%nat with 1%nat by lia. cbn [seq map app]. by rewrite decide_False.
Qed.

End retries.

Definition retry_outcome task node context n : NodeOutcome :=
  attempt_outcome task node (env_uuid (n_id node) 0) (env_uuid (n_id node) 1) context n.

(** A node is tried at most [max_retries + 1] times: the outcome is that
    of the first attempt that completes or may not be retried, every earlier
    attempt having failed with a retryable error; the exhaustion branch after
    the loop is never reached, and one Running update is written per attempt. *)
Theorem retries_bounded task node context :
  node_condition value_text node context = Ok true ->
  let max_retries := max_retries_of task node in
  let sid := env_uuid (n_id node) 0 in
  let retried := retried task node sid (env_uuid (n_id node) 1) max_retries context in
  exists n, (1 <= n <= S max_retries)%nat /\ (forall i, (1 <= i < n)%nat -> retried i) /\ ~ retried n /\
    execute_node_with_retry value_text opts task node context
    = (retry_outcome task node context n,
       map (running_op node sid) (seq 1 n) ++ [final_op node sid (retry_outcome task node context n) n]).
Proof.
  intros Hc. cbv zeta. unfold execute_node_with_retry. rewrite Hc.
  destruct (attempts_spec task node (env_uuid (n_id node) 0) (env_uuid (n_id node) 1)
    (max_retries_of task node) context (S (max_retries_of task node)) 1)
    as (n & Hn & H1 & H2 & H3); [lia | lia |].
  exists n. split; [lia |]. split; [done |]. split; [done |]. rewrite H3. unfold retry_outcome.
  by replace (S n - 1)%nat with n by lia.
Qed.

(** ** Reachability *)

Fixpoint unseen (edges : list DagEdge) (visited : gset string) : nat :=
  match edges with
  | [] => 0
  | e :: r => ((if decide (e_from e ∈ visited) then 0 else 1) + unseen r visited)%nat
  end.

Lemma unseen_visit edges visited c :
  c ∉ visited -> unseen edges visited = (unseen edges ({[c]} ∪ visited) + length (outs edges c))%nat.
Proof.
  intros Hc. induction edges as [|[a b] r IH]; [done |]. unfold outs. cbn [omap list_omap e_from e_to].
  cbn [unseen e_from]. rewrite IH. fold (outs r c).
  repeat case_decide; cbn [length]; subst; set_solver by lia.
Qed.

Lemma unseen_le edges visited : (unseen edges visited <= length edges)%nat.
Proof. induction edges; cbn; [lia | case_decide; lia]. Qed.

Lemma bfs_spec edges target fuel visited queue :
  (length queue + unseen edges visited < fuel)%nat ->
  target ∉ visited ->
  (forall x y, x ∈ visited -> edge edges x y -> y ∈ visited \/ y ∈ queue) ->
  exists b, bfs fuel target edges visited queue = Some b /\
    (b = true <-> exists x, (x ∈ visited \/ x ∈ queue) /\ rtc (edge edges) x target).
Proof.
  revert visited queue. induction fuel as [|fuel IH]; intros visited queue Hf Ht Hclosed; [lia |].
  cbn [bfs]. destruct queue as [|c queue].
  { exists false. split; [done |]. split; [done |]. intros (x & [Hx|Hx] & Hr); [|by apply elem_of_nil in Hx].
    exfalso. induction Hr as [|x y z Hxy _ IHr]; [done |].
    destruct (Hclosed x y Hx Hxy) as [?|Hy]; [auto | by apply elem_of_nil in Hy]. }
  cbn [length] in Hf. destruct (String.eqb_spec c target) as [->|Hne].
  { exists true. split; [done |]. split; [|done]. intros _. exists target.
    split; [right; left | done]. }
  case_decide as Hv.
  - destruct (IH visited queue) as (b & Hb & Hbr); [lia | done | |].
    { intros x y Hx Hxy. destruct (Hclosed x y Hx Hxy) as [?|Hy]; [by left |].
      apply elem_of_cons in Hy as [->|?]; [by left | by right]. }
    exists b. split; [done |]. rewrite Hbr. split; intros (x & Hx & Hr); exists x; (split; [|done]).
    + destruct Hx; [by left | right; by right].
    + destruct Hx as [?|Hx]; [by left |]. apply elem_of_cons in Hx as [->|?]; [by left | by right].
  - pose proof (unseen_visit edges visited c Hv) as Hu.
    destruct (IH ({[c]} ∪ visited) (queue ++ outs edges c)) as (b & Hb & Hbr).
    + rewrite length_app. lia.
    + set_solver.
    + intros x y [->%elem_of_singleton|Hx]%elem_of_union Hxy.
      * right. apply elem_of_app. right. by apply outs_elem.
      * destruct (Hclosed x y Hx Hxy) as [?|Hy]; [set_solver |].
        apply elem_of_cons in Hy as [->|?]; set_solver.
    + exists b. split; [done |]. rewrite Hbr. split.
      * intros (x & [[->%elem_of_singleton|Hx]%elem_of_union|Hx] & Hr).
        -- exists c. split; [right; left | done].
        -- exists x. split; [by left | done].
        -- apply elem_of_app in Hx as [Hx|Hx]; [exists x; split; [right; by right | done] |].
           exists c. split; [right; left |]. apply outs_elem in Hx. by eapply rtc_l.
      * intros (x & [Hx|Hx] & Hr); exists x; (split; [set_solver | done]).
Qed.

(** The search for an affected end node is graph reachability: it always
    ends, and finds the end node exactly when a path of edges leads there. *)
Theorem can_reach_correct edges end_id failed_id :
  exists b, can_reach_end_node end_id failed_id edges = Some b /\
    (b = true <-> rtc (edge edges) failed_id end_id).
Proof.
  destruct (bfs_spec edges end_id (S (S (length edges))) ∅ [failed_id]) as (b & Hb & Hbr).
  - pose proof (unseen_le edges ∅). cbn [length]. lia.
  - set_solver.
  - set_solver.
  - exists b. split; [done |]. rewrite Hbr. split.
    + intros (x & [Hx|Hx] & Hr); [set_solver |].
      apply elem_of_cons in Hx as [->|Hx]; [done | by apply elem_of_nil in Hx].
    + intros Hr. exists failed_id. split; [right; left | done].
Qed.

(** ** Saga compensation *)

Section saga.
Variables (task : TaskFrame) (all_nodes : gmap string DagNode) (results : gmap string Value).

Definition compensation_node (node : DagNode) : DagNode :=
  mkDagNode (n_id node) (default "" (n_compensate_action node)) (n_agent node)
    (n_input_from node) (n_compensate_params_mapping node) (n_timeout_ms node)
    (n_retry_policy node) (n_condition node) (n_min_required node)
    (n_compensate_action node) (n_compensate_params_mapping node).

(** The compensation of [id] completes. *)
Definition compensates (id : string) : bool :=
  match all_nodes !! id with
  | Some node =>
    bool_decide (o_state (execute_node_once opts task (compensation_node node) (env_uuid id 2)
                            (env_uuid id 3) 1 results) = Completed)
  | None => false
  end.

Lemma compensate_loop_spec ids ok bad :
  (forall id, In id ids -> is_Some (all_nodes !! id)) ->
  compensate_loop opts task all_nodes results ids ok bad
  = ((ok + length (List.filter compensates ids))%nat,
     bad ++ List.filter (fun id => negb (compensates id)) ids).
Proof.
  revert ok bad. induction ids as [|id ids IH]; intros ok bad Hin; cbn [compensate_loop List.filter].
  { by rewrite Nat.add_0_r, app_nil_r. }
  destruct (Hin id) as [node Hn]; [by left |].
  assert (Hc : compensates id = bool_decide (o_state (execute_node_once opts task
    (compensation_node node) (env_uuid id 2) (env_uuid id 3) 1 results) = Completed))
    by (unfold compensates; by rewrite Hn).
  rewrite Hn. fold (compensation_node node).
  match goal with |- context [decide ?P] => destruct (decide P) as [Hd|Hd] end;
    rewrite IH by (intros; apply Hin; by right); rewrite Hc.
  - rewrite bool_decide_eq_true_2 by done. cbn. f_equal. lia.
  - rewrite bool_decide_eq_false_2 by done. cbn. by rewrite <-app_assoc.
Qed.

Lemma filter_length_split {A} (p : A -> bool) l :
  (length (List.filter p l) + length (List.filter (fun x => negb (p x)) l))%nat = length l.
Proof. induction l as [|x l IH]; cbn; [done |]. destruct (p x); cbn; lia. Qed.

Definition to_compensate (topo : list string) (states : gmap string TaskState) : list string :=
  List.filter (fun id => negb (blank (compensate_action_of all_nodes id)))
    (completed_reverse all_nodes topo states).

(** Rollback compensates exactly the completed nodes that declare an
    action, each once and in reverse topological order, so a node is undone
    only after every completed node that depends on it; failures do not stop
    it, and the counts add up.  Under the strict policy one completed node
    without an action makes it refuse before touching anything. *)
Theorem saga_spec topo states :
  let completed := completed_reverse all_nodes topo states in
  let missing := List.filter (fun id => blank (compensate_action_of all_nodes id)) completed in
  let todo := to_compensate topo states in
  (forall edges l1 u l2 v, topological edges topo -> todo = l1 ++ u :: l2 ->
     NoDup topo -> edge edges u v -> v ∈ todo -> v ∈ l1) /\
  (forall id, In id todo <-> In id topo /\ states !! id = Some Completed /\
     exists n a, all_nodes !! id = Some n /\ n_compensate_action n = Some a /\ is_empty (trim a) = false) /\
  fst (run_saga_compensation opts task all_nodes topo results states) =
    (if is_strict (Some (t_compensation_policy task)) && negb (length missing =? 0)%nat
     then mkSaga 0 0 (length missing) missing
     else mkSaga (length todo) (length (List.filter compensates todo))
            (length (List.filter (fun id => negb (compensates id)) todo))
            (List.filter (fun id => negb (compensates id)) todo)) /\
  (length (List.filter compensates todo) + length (List.filter (fun id => negb (compensates id)) todo)
   = length todo)%nat.
Proof.
  cbv zeta.
  assert (Hin : forall id, In id (to_compensate topo states) -> is_Some (all_nodes !! id)).
  { intros id. unfold to_compensate, completed_reverse. rewrite filter_In, <-in_rev, filter_In.
    intros [[_ H] _]. by bool_hyps. }
  split; [|split; [|split; [|apply filter_length_split]]].
  - intros edges l1 u l2 v Htop E Hnd Huv Hv.
    (* the list is a filter of the reverse of [topo] *)
    set (keep := fun id => (bool_decide (states !! id = Some Completed)
                   && bool_decide (is_Some (all_nodes !! id)))
                   && negb (blank (compensate_action_of all_nodes id))).
    assert (Hrev : to_compensate topo states = rev (List.filter keep topo)).
    { unfold to_compensate, completed_reverse, keep. clear. induction topo as [|x topo IH]; [done |].
      cbn [List.filter]. destruct (bool_decide _ && bool_decide _) eqn:E1; cbn [andb rev]; [|done].
      rewrite List.filter_app, IH. cbn [List.filter].
      destruct (negb (blank _)); cbn [rev]; [done | by rewrite app_nil_r]. }
    rewrite Hrev in E, Hv. apply (f_equal (@rev string)) in E. rewrite rev_involutive in E.
    rewrite rev_app_distr in E. cbn [rev] in E. rewrite <-app_assoc in E. cbn [app] in E.
    assert (Hsplit : exists a b, topo = a ++ u :: b /\ List.filter keep b = rev l1).
    { clear -E Hnd. revert E. generalize (rev l2) as pre, (rev l1) as post. induction topo as [|x topo IH];
        intros pre post E; [by destruct pre |]. apply NoDup_cons in Hnd as [Hx Hnd].
      cbn [List.filter] in E. destruct (keep x) eqn:Ek.
      - destruct pre as [|y pre]; cbn in E; injection E as -> E1.
        + by exists [], topo.
        + destruct (IH Hnd pre post E1) as (a & b & -> & Hb). by exists (y :: a), b.
      - destruct (IH Hnd pre post E) as (a & b & -> & Hb). by exists (x :: a), b. }
    destruct Hsplit as (a & b & -> & Hb).
    apply list_elem_of_In in Hv. rewrite <-in_rev, filter_In in Hv. destruct Hv as [Hv Hk].
    apply list_elem_of_In. rewrite in_rev, <-Hb. apply filter_In. split; [|done].
    apply in_app_iff in Hv as [Hv|[Hv|Hv]]; [|subst v|done]; exfalso.
    + apply list_elem_of_In, list_elem_of_split in Hv as (a1 & a2 & ->).
      rewrite <-app_assoc in Htop. cbn in Htop.
      pose proof (Htop a1 v _ eq_refl u Huv) as Hu.
      rewrite <-app_assoc in Hnd. apply NoDup_app in Hnd as (_ & Hd & _).
      apply (Hd u Hu). set_solver.
    + pose proof (Htop a u b eq_refl u Huv) as Hu.
      apply NoDup_app in Hnd as (_ & Hd & _). apply (Hd u Hu). left.
  - intros id. unfold to_compensate, completed_reverse. rewrite filter_In, <-in_rev, filter_In.
    unfold compensate_action_of. split.
    + intros [[Hi H] Hb]. bool_hyps. split; [done |]. split; [done |].
      destruct (all_nodes !! id) as [n|]; [|done]. cbn in Hb.
      destruct (n_compensate_action n) as [a|] eqn:Ha; [|done]. cbn in Hb. by exists n, a.
    + intros (Hi & Hs & n & a & Hn & Ha & Ht). rewrite Hn, Hs. cbn. rewrite Ha. cbn. rewrite Ht.
      rewrite !bool_decide_eq_true_2 by done. done.
  - unfold run_saga_compensation. cbv zeta. fold (to_compensate topo states).
    destruct (is_strict _ && _); [done |].
    change (List.filter (fun id => negb (blank (compensate_action_of all_nodes id)))
              (completed_reverse all_nodes topo states)) with (to_compensate topo states).
    rewrite compensate_loop_spec by done. by destruct (to_compensate topo states).
Qed.

End saga.

(** ** The DAG loop *)

Section dag.
Variable task : TaskFrame.
Let nodes := d_nodes (t_dag task).
Hypothesis Hunique : NoDup (map n_id nodes).

Definition succeeded (states : gmap string TaskState) (id : string) : Prop :=
  is_success (states !! id) = true.

(** K of the node's dependencies have succeeded. *)
Definition k_satisfied (states : gmap string TaskState) (n : DagNode) : Prop :=
  deps_of n = [] \/ (required_k n <= success_count states (deps_of n))%nat.

(** The entry a node leaves in flight: its run on some snapshot of results. *)
Definition entry_of (results : gmap string Value) (id : string) (entry : NodeOutcome * list StoreOp)
    : Prop :=
  exists n ctx, n ∈ nodes /\ n_id n = id /\ ctx ⊆ results /\
    entry = execute_node_with_retry value_text opts task n ctx.

Record run_inv (r : DagRun) : Prop := {
  ri_known : forall id s, run_states r !! id = Some s -> id ∈ map n_id nodes;
  ri_fresh : forall id, id ∈ map fst (run_in_flight r) -> run_states r !! id = None;
  ri_nodup : NoDup (map fst (run_in_flight r));
  ri_limit : (length (run_in_flight r) <= max_concurrent_nodes opts)%nat;
  ri_entries : forall id e, (id, e) ∈ run_in_flight r -> entry_of (run_results r) id e;
  ri_started : forall n, n ∈ nodes -> n_id n ∈ map fst (run_in_flight r) \/ succeeded (run_states r) (n_id n) ->
                 k_satisfied (run_states r) n;
  ri_settled : forall id s, run_states r !! id = Some s -> s = Completed \/ s = Failed \/ s = Skipped;
  ri_results : forall id v, run_results r !! id = Some v -> run_states r !! id = Some Completed
}.

Lemma run_inv_start : run_inv run_start.
Proof.
  constructor; cbn.
  - intros id s H. by rewrite lookup_empty in H.
  - intros id H. by apply elem_of_nil in H.
  - constructor.
  - lia.
  - intros id e H. by apply elem_of_nil in H.
  - intros n _ [H|H]; [by apply elem_of_nil in H |]. unfold succeeded in H. by rewrite lookup_empty in H.
  - intros id s H. by rewrite lookup_empty in H.
  - intros id s H. by rewrite lookup_empty in H.
Qed.

(** States only grow. *)
Lemma success_count_mono (s s' : gmap string TaskState) deps :
  s ⊆ s' -> (success_count s deps <= success_count s' deps)%nat.
Proof.
  intros Hs. unfold success_count. induction deps as [|d deps IH]; [done |]. cbn [List.filter].
  destruct (is_success (s !! d)) eqn:E; cbn.
  - assert (E' : s' !! d = s !! d).
    { destruct (s !! d) eqn:Ed; [|done]. by eapply lookup_weaken. }
    rewrite E', E. cbn. lia.
  - destruct (is_success (s' !! d)); cbn; lia.
Qed.

Lemma k_satisfied_mono (s s' : gmap string TaskState) n :
  s ⊆ s' -> k_satisfied s n -> k_satisfied s' n.
Proof.
  intros Hs [?|Hk]; [by left | right]. pose proof (success_count_mono s s' (deps_of n) Hs). lia.
Qed.

Lemma node_of_id n n' : n ∈ nodes -> n' ∈ nodes -> n_id n = n_id n' -> n = n'.
Proof.
  intros Hn Hn' E.
  apply list_elem_of_lookup in Hn as [i Hi], Hn' as [j Hj].
  assert (i = j) as ->; [|congruence].
  apply (NoDup_lookup (map n_id nodes) i j (n_id n)); [done | |].
  - by rewrite list_lookup_fmap, Hi.
  - rewrite list_lookup_fmap, Hj. cbn. by rewrite E.
Qed.

(** The K-of-N pass keeps nodes whose K is met and fails the others. *)
Lemma sync_filter_spec ready states ops :
  NoDup (map n_id ready) -> (forall n, n ∈ ready -> states !! n_id n = None) ->
  exists keep states' ops', sync_filter ready states ops = (keep, states', ops') /\
    states ⊆ states' /\ sublist keep ready /\
    (forall n, n ∈ keep -> k_satisfied states' n /\ states' !! n_id n = None) /\
    (forall id s, states' !! id = Some s -> states !! id = Some s \/
       (s = Failed /\ exists n, n ∈ ready /\ n ∉ keep /\ n_id n = id)) /\
    (forall n, n ∈ ready -> n ∈ keep \/ states' !! n_id n = Some Failed).
Proof.
  revert states ops. induction ready as [|n ready IH]; intros states ops Hnd Hfresh.
  { exists [], states, ops. split; [done |]. split; [done |]. split; [constructor |].
    split; [set_solver |]. split; [by left | set_solver]. }
  apply NoDup_cons in Hnd as [Hn Hnd]. cbn [sync_filter].
  assert (Hne : forall m, m ∈ ready -> n_id m <> n_id n).
  { intros m Hm E. apply Hn. rewrite <-E. by apply list_elem_of_fmap_2. }
  assert (Hkeep : (deps_of n = [] \/ (required_k n <= success_count states (deps_of n))%nat) ->
    exists keep states' ops', (let '(keep, states', ops') := sync_filter ready states ops in
       (n :: keep, states', ops')) = (keep, states', ops') /\
    states ⊆ states' /\ sublist keep (n :: ready) /\
    (forall m, m ∈ keep -> k_satisfied states' m /\ states' !! n_id m = None) /\
    (forall id s, states' !! id = Some s -> states !! id = Some s \/
       (s = Failed /\ exists m, m ∈ n :: ready /\ m ∉ keep /\ n_id m = id)) /\
    (forall m, m ∈ n :: ready -> m ∈ keep \/ states' !! n_id m = Some Failed)).
  { intros Hk. destruct (IH states ops Hnd) as (keep & st & ops' & -> & Hsub & Hl & Hok & Hst & Hall).
    { intros m Hm. apply Hfresh. by right. }
    exists (n :: keep), st, ops'. split; [done |]. split; [done |]. split; [by constructor |].
    split; [|split].
    - intros m [->|Hm]%elem_of_cons; [|by apply Hok]. split; [by eapply k_satisfied_mono |].
      destruct (st !! n_id n) as [s|] eqn:E; [|done].
      apply Hst in E as [E|(_ & m & Hm & _ & E)]; [rewrite Hfresh in E by left; done |].
      by destruct (Hne m Hm).
    - intros id s H. apply Hst in H as [?|(-> & m & Hm & Hmk & E)]; [by left | right].
      split; [done |]. exists m. split; [by right |]. split; [|done].
      intros [->|?]%elem_of_cons; [by destruct (Hne n Hm) | done].
    - intros m [->|Hm]%elem_of_cons; [left; left |]. destruct (Hall m Hm); [left; by right | by right]. }
  destruct (deps_of n) as [|d deps] eqn:Ed; [apply Hkeep; by left |]. rewrite <-Ed in *.
  destruct (success_count states (deps_of n) <? required_k n)%nat eqn:E; cmp_hyps;
    [|apply Hkeep; by right].
  clear Hkeep. edestruct (IH (<[n_id n := Failed]> states)) as (keep & st & ops' & -> & Hsub & Hl & Hok & Hst & Hall);
    [done | intros m Hm; rewrite lookup_insert_ne by (by apply not_eq_sym, Hne); apply Hfresh; by right |].
  assert (Hsub0 : states ⊆ <[n_id n := Failed]> states)
    by (apply insert_subseteq, Hfresh; left).
  exists keep, st, ops'. split; [done |]. split; [by etransitivity |]. split; [by constructor |].
  split; [done |]. split.
  - intros id s H. apply Hst in H as [H|(-> & m & Hm & Hmk & E')].
    + destruct (decide (id = n_id n)) as [->|]; [|left; by rewrite lookup_insert_ne in H].
      rewrite lookup_insert_eq in H. injection H as <-. right. split; [done |]. exists n.
      split; [left |]. split; [|done]. intros Hk. apply Hok in Hk as [_ Hk].
      apply (lookup_weaken _ _ (n_id n) Failed) in Hsub; [congruence | by rewrite lookup_insert_eq].
    + right. split; [done |]. exists m. split; [by right | done].
  - intros m [->|Hm]%elem_of_cons.
    + right. apply (lookup_weaken _ _ (n_id n) Failed) in Hsub; [done | by rewrite lookup_insert_eq].
    + destruct (Hall m Hm); auto.
Qed.

(** Launching takes a prefix of the ready nodes, up to the limit. *)
Lemma launch_spec ready results fl :
  exists pre, prefix pre ready /\
    launch value_text opts task ready results fl
    = fl ++ map (fun n => (n_id n, execute_node_with_retry value_text opts task n results)) pre /\
    (length fl + length pre <= Nat.max (max_concurrent_nodes opts) (length fl))%nat /\
    (fl = [] -> ready <> [] -> (0 < max_concurrent_nodes opts)%nat -> pre <> []).
Proof.
  revert fl. induction ready as [|n ready IH]; intros fl; cbn [launch].
  { exists []. cbn. rewrite app_nil_r, Nat.add_0_r. split; [done |]. split; [done |]. split; [lia | done]. }
  destruct (max_concurrent_nodes opts <=? length fl)%nat eqn:E; cmp_hyps.
  { exists []. cbn. rewrite app_nil_r, Nat.add_0_r. split; [apply prefix_nil |]. split; [done |].
    split; [lia |]. intros -> _ H. cbn in E. lia. }
  destruct (IH (fl ++ [(n_id n, execute_node_with_retry value_text opts task n results)]))
    as (pre & Hp & Hl & Hlen & _).
  exists (n :: pre). split; [by apply prefix_cons |]. rewrite Hl, <-app_assoc. split; [done |].
  rewrite length_app in Hlen. cbn [length] in *. split; [lia | done].
Qed.

Lemma ready_nodes_spec r n :
  n ∈ ready_nodes task r <->
  n ∈ nodes /\ run_states r !! n_id n = None /\ n_id n ∉ map fst (run_in_flight r) /\
  are_deps_done n (run_states r) = true.
Proof.
  unfold ready_nodes. rewrite !list_elem_of_In, !filter_In, <-!list_elem_of_In. fold nodes.
  rewrite andb_true_iff, !negb_true_iff, bool_decide_eq_false, <-eq_None_not_Some.
  assert (Hex : existsb (fun f => String.eqb (fst f) (n_id n)) (run_in_flight r) = false <->
                n_id n ∉ map fst (run_in_flight r)).
  { rewrite <-not_true_iff_false, existsb_exists, list_elem_of_In, in_map_iff.
    split; intros H (f & H1 & H2); apply H; exists f.
    - split; [done |]. by apply String.eqb_eq.
    - apply String.eqb_eq in H2. done. }
  rewrite Hex. tauto.
Qed.

Lemma ready_nodes_sublist r : sublist (map n_id (ready_nodes task r)) (map n_id nodes).
Proof.
  unfold ready_nodes. fold nodes.
  assert (Hf : forall (p : DagNode -> bool) l, sublist (List.filter p l) l).
  { intros p l. induction l as [|x l IH]; cbn; [constructor |]. destruct (p x); by constructor. }
  assert (Hm : forall (l k : list DagNode), sublist l k -> sublist (map n_id l) (map n_id k))
    by (induction 1; cbn; by constructor).
  apply Hm. etransitivity; apply Hf.
Qed.

Lemma sublist_NoDup {A} (l k : list A) : sublist l k -> NoDup k -> NoDup l.
Proof.
  induction 1 as [|x l k Hs IH|x l k Hs IH]; [done | |];
    intros [Hx Hk]%NoDup_cons; [|auto].
  apply NoDup_cons. split; [|auto]. intros Hin. apply Hx. eapply elem_of_submseteq; [done | by apply sublist_submseteq].
Qed.

(** One thing the loop does: prepare an iteration, or take the completion of
    any node in flight.  [env_next] picks one of these runs. *)
Inductive dag_step : DagRun -> DagRun -> Prop :=
| step_schedule r : dag_step r (schedule value_text opts task r)
| step_finish r i id o r' : finish r i = Some (id, o, r') -> dag_step r r'.

Lemma sync_filter_all ready states ops :
  (forall n, n ∈ ready -> k_satisfied states n) ->
  sync_filter ready states ops = (ready, states, ops).
Proof.
  revert states ops. induction ready as [|n ready IH]; intros states ops Hk; [done |].
  cbn [sync_filter]. rewrite IH by (intros; apply Hk; by right).
  destruct (Hk n) as [Hd|Hd]; [left | by rewrite Hd |].
  destruct (deps_of n) as [|d deps]; [done |].
  replace (_ <? _)%nat with false by (symmetry; by apply Nat.ltb_ge). done.
Qed.

Lemma launch_ids results pre :
  map fst (map (fun n => (n_id n, execute_node_with_retry value_text opts task n results)) pre)
  = map n_id pre.
Proof. rewrite map_map. done. Qed.

Lemma schedule_spec r :
  run_inv r ->
  let r' := schedule value_text opts task r in
  run_inv r' /\ run_states r ⊆ run_states r' /\ run_results r' = run_results r /\
  (run_in_flight r = [] -> run_in_flight r' = [] -> (0 < max_concurrent_nodes opts)%nat ->
     forall n, n ∈ ready_nodes task r -> run_states r' !! n_id n = Some Failed).
Proof.
  intros [Hknown Hfresh Hnd Hlimit Hentries Hstarted Hsettled Hresults]. unfold schedule.
  destruct (sync_filter_spec (ready_nodes task r) (run_states r) (run_ops r))
    as (keep & st & ops & -> & Hsub & Hkeep & Hok & Hst & Hall).
  { eapply sublist_NoDup; [apply ready_nodes_sublist | done]. }
  { intros n Hn. by apply ready_nodes_spec in Hn as (_ & ? & _). }
  destruct (launch_spec keep (run_results r) (run_in_flight r)) as (pre & Hpre & -> & Hlen & Hmore).
  assert (Hpk : forall n, n ∈ pre -> n ∈ keep).
  { intros n Hn. destruct Hpre as [k ->]. apply elem_of_app. by left. }
  assert (Hkr : forall n, n ∈ keep -> n ∈ ready_nodes task r).
  { intros n Hn. eapply elem_of_submseteq; [done | by apply sublist_submseteq]. }
  assert (Hpn : forall n, n ∈ pre -> n ∈ nodes /\ n_id n ∉ map fst (run_in_flight r) /\
                  k_satisfied st n /\ st !! n_id n = None).
  { intros n Hn. pose proof (Hpk n Hn) as Hk. apply Hkr, ready_nodes_spec in Hk as (? & _ & ? & _).
    by destruct (Hok n (Hpk n Hn)). }
  cbn [run_states run_results run_in_flight].
  split; [|split; [done | split; [done |]]].
  - constructor; cbn [run_states run_results run_in_flight].
    + intros id s H. apply Hst in H as [H|(_ & n & Hn & _ & <-)]; [by eapply Hknown |].
      apply ready_nodes_spec in Hn as (Hn & _). by apply list_elem_of_fmap_2.
    + intros id. rewrite map_app, launch_ids, elem_of_app. intros [Hid|Hid].
      * destruct (st !! id) as [s|] eqn:E; [|done]. exfalso.
        apply Hst in E as [E|(_ & n & Hn & _ & <-)]; [rewrite Hfresh in E; done |].
        by apply ready_nodes_spec in Hn as (_ & _ & Hn & _).
      * apply list_elem_of_In, in_map_iff in Hid as (n & <- & Hn%list_elem_of_In). by apply Hpn.
    + rewrite map_app, launch_ids. apply NoDup_app. split; [done |]. split.
      * intros id Hid Hin. apply list_elem_of_In, in_map_iff in Hin as (n & <- & Hn%list_elem_of_In).
        by destruct (Hpn n Hn) as (_ & ? & _).
      * eapply sublist_NoDup; [|eapply sublist_NoDup; [apply ready_nodes_sublist | exact Hunique]].
        assert (Hm : forall (l k : list DagNode), sublist l k -> sublist (map n_id l) (map n_id k))
          by (induction 1; cbn; by constructor).
        apply Hm. etransitivity; [|exact Hkeep]. destruct Hpre as [k ->]. by apply sublist_inserts_r.
    + rewrite length_app, length_map. lia.
    + intros id e. rewrite elem_of_app. intros [He|He]; [by apply Hentries |].
      apply list_elem_of_In, in_map_iff in He as (n & [= <- <-] & Hn%list_elem_of_In).
      exists n, (run_results r). by destruct (Hpn n Hn) as (? & _).
    + intros n Hn. rewrite map_app, launch_ids, elem_of_app. intros [[Hin|Hin]|Hs].
      * eapply k_satisfied_mono; [done |]. apply Hstarted; [done | by left].
      * apply list_elem_of_In, in_map_iff in Hin as (m & Em & Hm%list_elem_of_In).
        destruct (Hpn m Hm) as (Hmn & _ & Hk & _). by rewrite <-(node_of_id m n Hmn Hn Em).
      * unfold succeeded in Hs. destruct (st !! n_id n) as [s|] eqn:E; [|done].
        apply Hst in E as [E|(-> & _)]; [|done].
        eapply k_satisfied_mono; [done |]. apply Hstarted; [done | right]. unfold succeeded. by rewrite E.
    + intros id s H. apply Hst in H as [H|(-> & _)]; [by eapply Hsettled | auto].
    + intros id v H. apply Hresults in H. by eapply lookup_weaken.
  - intros E E' Hmax n Hn. destruct (Hall n Hn) as [Hk|?]; [|done]. exfalso.
    apply app_eq_nil in E' as [_ E']. apply map_eq_nil in E'.
    apply Hmore; [done | | done | done]. intros ->. by apply elem_of_nil in Hk.
Qed.

Lemma attempt_outcome_state node sid key context i :
  o_state (attempt_outcome task node sid key context i) = Completed \/
  o_state (attempt_outcome task node sid key context i) = Failed.
Proof.
  unfold attempt_outcome, execute_node_once.
  destruct (build_params _ _); [apply stream_outcome_state | by right].
Qed.

Lemma execute_node_state node context :
  let o := fst (execute_node_with_retry value_text opts task node context) in
  o_state o = Completed \/ o_state o = Failed \/ o_state o = Skipped.
Proof.
  cbv zeta. unfold execute_node_with_retry. destruct (node_condition _ _ _) as [[]|]; cbn [fst]; [|auto..].
  destruct (attempts_spec task node (env_uuid (n_id node) 0) (env_uuid (n_id node) 1)
    (max_retries_of task node) context (S (max_retries_of task node)) 1) as (n & _ & _ & _ & ->); [lia | lia |].
  cbn [fst]. destruct (attempt_outcome_state node (env_uuid (n_id node) 0) (env_uuid (n_id node) 1) context n); auto.
Qed.

Lemma finish_spec r i id o r' :
  run_inv r -> finish r i = Some (id, o, r') ->
  run_inv r' /\ run_states r !! id = None /\ run_states r' = <[id := o_state o]> (run_states r) /\
  id ∈ map n_id nodes /\ (exists n ctx, n ∈ nodes /\ n_id n = id /\
    o = fst (execute_node_with_retry value_text opts task n ctx)).
Proof.
  intros [Hknown Hfresh Hnd Hlimit Hentries Hstarted Hsettled Hresults] Hf. unfold finish in Hf.
  destruct (run_in_flight r !! i) as [[id' [o' ops]]|] eqn:Ei; [|done]. cbn in Hf. simplify_eq.
  assert (Hin : (id, (o, ops)) ∈ run_in_flight r) by by eapply list_elem_of_lookup_2.
  assert (Hidin : id ∈ map fst (run_in_flight r)) by (apply list_elem_of_In, in_map_iff; exists (id, (o, ops)); by rewrite <-list_elem_of_In).
  assert (Hnone : run_states r !! id = None) by by apply Hfresh.
  destruct (Hentries _ _ Hin) as (n & ctx & Hn & En & Hctx & Ee).
  assert (Eo : o = fst (execute_node_with_retry value_text opts task n ctx)) by by rewrite <-Ee.
  assert (Hnode : id ∈ map n_id nodes) by (rewrite <-En; by apply list_elem_of_fmap_2).
  assert (Hsplit : run_in_flight r = take i (run_in_flight r) ++ (id, (o, ops)) :: drop (S i) (run_in_flight r))
    by by rewrite take_drop_middle.
  set (fl' := delete i (run_in_flight r)).
  assert (Hfl : forall e, e ∈ fl' -> e ∈ run_in_flight r).
  { intros e. unfold fl'. rewrite delete_take_drop. rewrite Hsplit at 3. rewrite !elem_of_app, elem_of_cons. tauto. }
  assert (Hnd' : NoDup (map fst fl') /\ id ∉ map fst fl').
  { unfold fl'. rewrite delete_take_drop, map_app. rewrite Hsplit, map_app in Hnd. cbn [map fst] in Hnd.
    apply NoDup_app in Hnd as (H1 & H2 & H3). apply NoDup_cons in H3 as [H3 H4]. split.
    - apply NoDup_app. split; [done |]. split; [|done]. intros x Hx Hx'. apply (H2 x Hx). by right.
    - rewrite elem_of_app. intros [Hx|Hx]; [|done]. apply (H2 id Hx). left. }
  destruct Hnd' as [Hnd' Hnotin].
  assert (Hfst : forall x, x ∈ map fst fl' -> x ∈ map fst (run_in_flight r)).
  { intros x Hx. apply list_elem_of_In, in_map_iff in Hx as (e & <- & He%list_elem_of_In).
    apply list_elem_of_In, in_map. apply list_elem_of_In. by apply Hfl. }
  assert (Hsub : run_states r ⊆ <[id := o_state o]> (run_states r)) by by apply insert_subseteq.
  split; [|eauto 10]. constructor; cbn [run_states run_results run_in_flight].
  - intros x s Hx. destruct (decide (x = id)) as [->|]; [done |].
    rewrite lookup_insert_ne in Hx by done. by eapply Hknown.
  - intros x Hx. rewrite lookup_insert_ne by (intros ->; done). by apply Hfresh, Hfst.
  - done.
  - unfold fl'. rewrite delete_take_drop, length_app. rewrite Hsplit, length_app in Hlimit. cbn in Hlimit. lia.
  - intros x e He. apply Hfl, Hentries in He as (n' & ctx' & H1 & H2 & H3 & H4).
    exists n', ctx'. split; [done |]. split; [done |]. split; [|done].
    etransitivity; [exact H3 |]. destruct (o_state o), (o_result o); try done.
    apply insert_subseteq. destruct (run_results r !! id) eqn:E; [|done]. apply Hresults in E. congruence.
  - intros m Hm Hor. eapply k_satisfied_mono; [exact Hsub |]. apply Hstarted; [done |].
    destruct (decide (n_id m = id)) as [Em|Hne]; [left; by rewrite Em |].
    destruct Hor as [Hx|Hs]; [left; by apply Hfst | right].
    unfold succeeded in *. by rewrite lookup_insert_ne in Hs.
  - intros x s Hx. destruct (decide (x = id)) as [->|].
    + rewrite lookup_insert_eq in Hx. injection Hx as <-. rewrite Eo.
      destruct (execute_node_state n ctx) as [?|[?|?]]; auto.
    + rewrite lookup_insert_ne in Hx by done. by eapply Hsettled.
  - intros x v Hx. destruct (decide (x = id)) as [->|].
    + rewrite lookup_insert_eq. destruct (o_state o) eqn:Es, (o_result o) eqn:Er; try done;
        apply Hresults in Hx; congruence.
    + rewrite lookup_insert_ne by done. apply (Hresults _ v).
      destruct (o_state o), (o_result o); rewrite ?lookup_insert_ne in Hx by done; done.
Qed.

Lemma step_inv r r' : dag_step r r' -> run_inv r -> run_inv r'.
Proof. intros [r0|r0 i id o r1 Hf] Hinv; [by apply schedule_spec | by eapply finish_spec]. Qed.

Lemma run_inv_reachable r : rtc dag_step run_start r -> run_inv r.
Proof.
  intros H. assert (Hg : forall r0, rtc dag_step r0 r -> run_inv r0 -> run_inv r).
  { clear H. induction 1 as [|r1 r2 r3 Hs _ IH]; [done |]. intros Hi. apply IH. by eapply step_inv. }
  apply (Hg _ H), run_inv_start.
Qed.

Lemma all_nodes_size : size (all_nodes_of task) = length nodes.
Proof.
  unfold all_nodes_of. fold nodes. rewrite map_size_list_to_map.
  - by rewrite length_rev, length_map.
  - change (NoDup (map fst (rev (map (fun n => (n_id n, n)) nodes)))).
    rewrite map_rev, map_map. cbn. change (fun x => n_id x) with n_id.
    by rewrite <-Permutation_rev.
Qed.

Lemma states_size r : run_inv r -> (size (run_states r) <= length nodes)%nat.
Proof.
  intros [Hknown _ _ _ _ _ _ _]. rewrite <-(length_map n_id nodes).
  rewrite <-length_map_to_list, <-(length_map fst).
  apply submseteq_length, NoDup_submseteq; [apply NoDup_fst_map_to_list |].
  intros id Hid. apply list_elem_of_In, in_map_iff in Hid as ([k s] & <- & Hin%list_elem_of_In).
  apply elem_of_map_to_list in Hin. by eapply Hknown.
Qed.

Lemma must_abort_spec ends id states :
  exists b, must_abort task ends id states = Some b /\
    (b = true <-> exists e, e ∈ ends /\ rtc (edge (d_edges (t_dag task))) id e /\
       can_end_node_still_succeed e (all_nodes_of task) states = false).
Proof.
  induction ends as [|e ends (b & Hb & IH)]; cbn [must_abort].
  { exists false. split; [done |]. split; [done |]. intros (e & He & _). by apply elem_of_nil in He. }
  destruct (bfs_spec (d_edges (t_dag task)) e (S (S (length (d_edges (t_dag task))))) ∅ [id]) as (x & Hx & Hxr).
  { pose proof (unseen_le (d_edges (t_dag task)) ∅). cbn [length]. lia. }
  { set_solver. } { set_solver. }
  assert (Hreach : x = true <-> rtc (edge (d_edges (t_dag task))) id e).
  { rewrite Hxr. split.
    - intros (y & [Hy|Hy] & Hr); [set_solver |].
      apply elem_of_cons in Hy as [->|Hy]; [done | by apply elem_of_nil in Hy].
    - intros Hr. exists id. split; [right; left | done]. }
  unfold can_reach_end_node. rewrite Hx. cbn [mbind option_bind].
  destruct x; cbn [andb].
  - destruct (can_end_node_still_succeed e _ _) eqn:Ec; cbn [negb].
    + exists b. split; [done |]. rewrite IH. split.
      * intros (e' & ? & ?). exists e'. split; [by right | done].
      * intros (e' & [->|?]%elem_of_cons & ? & ?); [congruence | eauto].
    + exists true. split; [done |]. split; [|done]. intros _. exists e. split; [left | tauto].
  - exists b. split; [done |]. rewrite IH. split.
    + intros (e' & ? & ?). exists e'. split; [by right | done].
    + intros (e' & [->|?]%elem_of_cons & Hr & ?); [by apply Hreach in Hr | eauto].
Qed.

(** How the loop can end. *)
Definition loop_end_ok (stop : LoopEnd) : Prop :=
  match stop with
  | Finished r =>
    rtc dag_step run_start r /\ run_in_flight r = [] /\
    (size (run_states r) = length nodes \/ exists r0, rtc dag_step run_start r0 /\ r = schedule value_text opts task r0)
  | Aborted id o r =>
    rtc dag_step run_start r /\ o_state o = Failed /\ run_states r !! id = Some Failed /\
    exists e, e ∈ end_node_ids task /\ rtc (edge (d_edges (t_dag task))) id e /\
      can_end_node_still_succeed e (all_nodes_of task) (run_states r) = false
  end.

(** While a node has no state there are fewer states than nodes. *)
Lemma states_room r id :
  run_inv r -> id ∈ map n_id nodes -> run_states r !! id = None ->
  (size (run_states r) < length nodes)%nat.
Proof.
  intros Hinv Hid Hnone.
  assert (Hle : (size (<[id := Failed]> (run_states r)) <= length nodes)%nat).
  { rewrite <-(length_map n_id nodes), <-length_map_to_list, <-(length_map fst).
    apply submseteq_length, NoDup_submseteq; [apply NoDup_fst_map_to_list |].
    intros x Hx. apply list_elem_of_In, in_map_iff in Hx as ([k s] & <- & Hin%list_elem_of_In).
    apply elem_of_map_to_list in Hin. cbn. destruct (decide (k = id)) as [->|]; [done |].
    rewrite lookup_insert_ne in Hin by done. by eapply ri_known. }
  rewrite map_size_insert_None in Hle by done. lia.
Qed.

Lemma full_no_flight r : run_inv r -> size (run_states r) = length nodes -> run_in_flight r = [].
Proof.
  intros Hinv Hs. destruct (run_in_flight r) as [|[id e] fl] eqn:E; [done | exfalso].
  assert (Hid : run_states r !! id = None) by (apply (ri_fresh _ Hinv); rewrite E; left).
  destruct (ri_entries _ Hinv id e) as (n & _ & Hn & En & _); [rewrite E; left |].
  pose proof (states_room r id Hinv) as Hroom. rewrite <-En in Hroom at 1.
  specialize (Hroom (list_elem_of_fmap_2 n_id nodes n Hn) Hid). lia.
Qed.

Lemma finish_pick r k :
  run_in_flight r <> [] -> exists id o r', finish r (k mod length (run_in_flight r)) = Some (id, o, r').
Proof.
  intros Hne. unfold finish. destruct (run_in_flight r !! _) as [[id [o ops]]|] eqn:E; [by eexists _, _, _ |].
  apply lookup_ge_None in E. destruct (run_in_flight r) as [|x fl]; [done |].
  pose proof (Nat.mod_upper_bound k (length (x :: fl))). cbn in *. lia.
Qed.

Lemma dag_loop_spec fuel it r :
  rtc dag_step run_start r -> (length nodes < fuel + size (run_states r))%nat ->
  exists stop, dag_loop value_text opts fuel task it r = Some stop /\ loop_end_ok stop.
Proof.
  revert it r. induction fuel as [|fuel IH]; intros it r Hreach Hf.
  { pose proof (states_size r (run_inv_reachable r Hreach)). lia. }
  pose proof (run_inv_reachable r Hreach) as Hinv. cbn [dag_loop]. rewrite all_nodes_size.
  destruct (size (run_states r) <? length nodes)%nat eqn:Es; cmp_hyps; cbn [negb].
  2: { eexists. split; [done |]. pose proof (states_size r Hinv).
       assert (Heq : size (run_states r) = length nodes) by lia. split; [done |].
       split; [by apply full_no_flight | by left]. }
  destruct (schedule_spec r Hinv) as (Hinv1 & Hsub & _ & _).
  assert (Hreach1 : rtc dag_step run_start (schedule value_text opts task r))
    by (eapply rtc_r; [done | constructor]).
  set (r1 := schedule value_text opts task r) in *.
  destruct (run_in_flight r1) as [|x fl] eqn:Efl.
  { eexists. split; [done |]. split; [done |]. split; [done |]. right. by exists r. }
  rewrite <-Efl. destruct (finish_pick r1 (env_next it)) as (id & o & r2 & Hfin); [by rewrite Efl |].
  rewrite Hfin. cbn [mbind option_bind].
  destruct (finish_spec r1 _ id o r2 Hinv1 Hfin) as (Hinv2 & Hnone & Hst & _).
  assert (Hreach2 : rtc dag_step run_start r2) by (eapply rtc_r; [exact Hreach1 | by eapply step_finish]).
  assert (Hsize : (S (size (run_states r)) <= size (run_states r2))%nat).
  { apply map_subseteq_size in Hsub. rewrite Hst, map_size_insert_None by done. lia. }
  case_decide as Ho; [|apply IH; [done | lia]].
  destruct (must_abort_spec (end_node_ids task) id (run_states r2)) as (b & -> & Hb).
  cbn [mbind option_bind]. destruct b; [|apply IH; [done | lia]].
  eexists. split; [done |]. split; [done |]. split; [done |].
  split; [by rewrite Hst, lookup_insert_eq, Ho | by apply Hb].
Qed.

Lemma dag_loop_total :
  exists stop, dag_loop value_text opts (S (length nodes)) task 0 run_start = Some stop /\ loop_end_ok stop.
Proof. apply dag_loop_spec; [apply rtc_refl |]. cbn. lia. Qed.

(** C2: in every state the loop can reach, whatever the order in which nodes
    finish: at most [max_concurrent_nodes] nodes are in flight; no node is
    started twice; a node is started only once K of its dependencies have
    succeeded; and the results are those of completed nodes. *)
Theorem dag_run_safe r :
  rtc dag_step run_start r ->
  (length (run_in_flight r) <= max_concurrent_nodes opts)%nat /\
  NoDup (map fst (run_in_flight r)) /\
  (forall id, id ∈ map fst (run_in_flight r) -> run_states r !! id = None) /\
  (forall n, n ∈ nodes -> n_id n ∈ map fst (run_in_flight r) \/ succeeded (run_states r) (n_id n) ->
     deps_of n = [] \/ (required_k n <= success_count (run_states r) (deps_of n))%nat) /\
  (forall id v, run_results r !! id = Some v -> run_states r !! id = Some Completed).
Proof. intros H. by destruct (run_inv_reachable r H). Qed.

(** C1: [run_dag] always ends, in a reachable state of the loop.  It reports
    Failed only when some node failed from which an end node can be reached,
    and Completed only when no end node failed, with the results of the
    completed nodes and the aggregate of the end nodes. *)
Theorem run_dag_reports topo :
  exists result ops r, run_dag value_text opts task topo = Some (result, ops) /\
    rtc dag_step run_start r /\
    ((r_final_state result = Failed /\ r_node_results result = ∅ /\
      exists id e, run_states r !! id = Some Failed /\ e ∈ end_node_ids task /\
        rtc (edge (d_edges (t_dag task))) id e) \/
     (r_final_state result = Completed /\ r_node_results result = run_results r /\
      r_aggregated_result result = Some (aggregate_end_nodes (end_node_ids task) (run_results r)
                                           (default_aggregate_strategy opts)) /\
      forall e, e ∈ end_node_ids task -> run_states r !! e <> Some Failed)).
Proof.
  destruct dag_loop_total as (stop & Hstop & Hok). unfold run_dag. fold nodes. rewrite Hstop.
  cbn [mbind option_bind]. destruct stop as [r|id o r]; cbn [loop_end_ok] in Hok.
  - destruct Hok as (Hreach & _ & _).
    destruct (negb (length (failed_nodes (run_states r)) =? 0)%nat && existsb _ _) eqn:E.
    + apply andb_true_iff in E as [_ E]. apply existsb_exists in E as (e & He & Hf).
      unfold is_failed in Hf. destruct (run_states r !! e) as [s|] eqn:Es; [|done]. destruct s; try done.
      destruct (compensate_if _ _ _ _ _ _ _) as [c ops]. eexists _, _, r. split; [done |].
      split; [done |]. left. split; [done |]. split; [done |]. exists e, e. split; [done |].
      split; [by apply list_elem_of_In | apply rtc_refl].
    + destruct (compensate_if _ _ _ _ _ _ _) as [c ops]. eexists _, _, r. split; [done |].
      split; [done |]. right. split; [done |]. split; [done |]. split; [done |].
      intros e He Hf.
      assert (Hex : existsb (fun e => is_failed (run_states r !! e)) (end_node_ids task) = true).
      { apply existsb_exists. exists e. split; [by apply list_elem_of_In |]. by rewrite Hf. }
      rewrite Hex, andb_true_r in E. apply negb_false_iff in E. cmp_hyps.
      unfold failed_nodes in E. rewrite length_map in E.
      assert (Hin : In (e, Failed) (List.filter (fun kv => bool_decide (snd kv = Failed)) (map_to_list (run_states r)))).
      { apply filter_In. split; [|by apply bool_decide_eq_true_2].
        by apply list_elem_of_In, elem_of_map_to_list. }
      destruct (List.filter _ (map_to_list (run_states r))) as [|kv l]; [done |].
      assert (Hne : map_collect (kv :: l) <> []); [|by destruct (map_collect (kv :: l))].
      intros Hnil. assert (Hg : map_get e (map_collect (kv :: l)) <> None); [|by rewrite Hnil in Hg].
      unfold map_collect.
      assert (Hgen : forall l (m : list (string * TaskState)), (map_get e m <> None \/ In (e, Failed) l) ->
                map_get e (fold_left (fun m kv => map_insert kv.1 kv.2 m) l m) <> None).
      { clear. induction l as [|[k s] l IH]; intros m [H|H]; cbn; [done | done | |].
        - apply IH. left. rewrite map_get_insert. by destruct (String.eqb e k).
        - apply IH. destruct H as [[= -> ->]|H]; [left | by right].
          by rewrite map_get_insert, String.eqb_refl. }
      apply Hgen. by right.
  - destruct Hok as (Hreach & Ho & Hs & e & He & Hr & _).
    destruct (compensate_if _ _ _ _ _ _ _) as [c ops]. eexists _, _, r. split; [done |].
    split; [done |]. left. split; [done |]. split; [done |]. by exists id, e.
Qed.

(** ** When nothing fails, everything runs *)

Definition dep_edges : list DagEdge := n ← nodes; d ← deps_of n; [mkDagEdge d (n_id n)].

Lemma dep_edge n d : n ∈ nodes -> d ∈ deps_of n -> edge dep_edges d (n_id n).
Proof.
  intros Hn Hd. unfold edge, dep_edges. apply list_elem_of_bind. exists n. split; [|done].
  apply list_elem_of_bind. exists d. split; [left | done].
Qed.

Record healthy : Prop := {
  he_acyclic : acyclic dep_edges;
  he_closed : forall n d, n ∈ nodes -> d ∈ deps_of n -> d ∈ map n_id nodes;
  he_required : forall n, n ∈ nodes -> (required_k n <= length (deps_of n))%nat;
  he_workers : (0 < max_concurrent_nodes opts)%nat;
  he_success : forall n ctx, n ∈ nodes ->
    o_state (fst (execute_node_with_retry value_text opts task n ctx)) <> Failed
}.

Definition no_failure (r : DagRun) : Prop := forall id, run_states r !! id <> Some Failed.

Lemma count_filters {A} (p q : A -> bool) (l : list A) :
  (forall x, p x = true -> q x = true -> False) ->
  (length (List.filter p l) + length (List.filter q l) <= length l)%nat.
Proof.
  intros Hpq. induction l as [|x l IH]; cbn; [lia |].
  destruct (p x) eqn:Ep, (q x) eqn:Eq; cbn; try lia. by destruct (Hpq x).
Qed.

Lemma healthy_ready r n :
  healthy -> no_failure r -> n ∈ nodes -> are_deps_done n (run_states r) = true ->
  k_satisfied (run_states r) n.
Proof.
  intros Hh Hnf Hn. unfold are_deps_done, k_satisfied.
  pose proof (he_required Hh n Hn) as Hk.
  assert (H0 : failed_count (run_states r) (deps_of n) = 0%nat).
  { unfold failed_count. generalize (deps_of n) as l. induction l as [|d l IH]; [done |]. cbn.
    destruct (is_failed (run_states r !! d)) eqn:E; [|done].
    unfold is_failed in E. specialize (Hnf d). by destruct (run_states r !! d) as [[]|]. }
  destruct (deps_of n) as [|d deps] eqn:Ed; [by left |]. rewrite <-Ed in *. right.
  destruct (required_k n <=? _)%nat eqn:E; cmp_hyps; [done |]. rewrite H0 in *.
  destruct (length (deps_of n) - 0 <? required_k n)%nat eqn:E2; cmp_hyps; [lia | done].
Qed.

Lemma healthy_schedule r :
  healthy -> run_inv r -> no_failure r ->
  run_states (schedule value_text opts task r) = run_states r /\
  (run_in_flight (schedule value_text opts task r) = [] -> size (run_states r) = length nodes).
Proof.
  intros Hh Hinv Hnf.
  assert (Hk : forall n, n ∈ ready_nodes task r -> k_satisfied (run_states r) n).
  { intros n Hn. apply ready_nodes_spec in Hn as (Hn & _ & _ & Hd). by apply healthy_ready. }
  unfold schedule. rewrite sync_filter_all by done. cbn [run_states run_in_flight]. split; [done |].
  destruct (launch_spec (ready_nodes task r) (run_results r) (run_in_flight r)) as (pre & _ & -> & _ & Hmore).
  intros [Hfl Hpre]%app_eq_nil. apply map_eq_nil in Hpre.
  assert (Hready : ready_nodes task r = []).
  { destruct (ready_nodes task r) as [|x l]; [done |]. exfalso. by apply Hmore; [| | apply Hh |]. }
  (* the nodes without a state all wait for one another *)
  set (waiting := List.filter (fun id => negb (bool_decide (is_Some (run_states r !! id)))) (map n_id nodes)).
  destruct (decide (waiting = [])) as [Hw|Hw].
  - assert (Hall : forall id, id ∈ map n_id nodes -> is_Some (run_states r !! id)).
    { intros id Hid. destruct (decide (is_Some (run_states r !! id))) as [|Hno]; [done | exfalso].
      assert (Hin : In id waiting).
      { apply filter_In. split; [by apply list_elem_of_In |]. by rewrite bool_decide_eq_false_2. }
      by rewrite Hw in Hin. }
    apply Nat.le_antisymm; [by apply states_size |].
    rewrite <-(length_map n_id nodes), <-length_map_to_list, <-(length_map fst (map_to_list _)).
    apply submseteq_length, NoDup_submseteq; [done |]. intros id Hid.
    destruct (Hall id Hid) as [s Hs]. apply list_elem_of_In, in_map_iff. exists (id, s).
    split; [done |]. by apply list_elem_of_In, elem_of_map_to_list.
  - exfalso. destruct (cycle_exists (edge dep_edges) waiting Hw) as [v Hv]; [|by destruct (he_acyclic Hh v)].
    intros v Hv. apply list_elem_of_In, filter_In in Hv as [Hv Hnone].
    apply in_map_iff in Hv as (n & <- & Hn%list_elem_of_In).
    apply negb_true_iff, bool_decide_eq_false, eq_None_not_Some in Hnone.
    assert (Hnd : are_deps_done n (run_states r) = false).
    { destruct (are_deps_done n (run_states r)) eqn:E; [|done]. exfalso.
      assert (Hin : n ∈ ready_nodes task r) by (apply ready_nodes_spec; rewrite Hfl; set_solver).
      rewrite Hready in Hin. by apply elem_of_nil in Hin. }
    (* some dependency has not succeeded *)
    assert (Hdep : exists d, d ∈ deps_of n /\ run_states r !! d = None).
    { destruct (decide (Exists (fun d => run_states r !! d = None) (deps_of n))) as [Hex|Hno].
      - apply Exists_exists in Hex as (d & ? & ?). eauto.
      - exfalso. rewrite <-Forall_Exists_neg, Forall_forall in Hno.
        assert (Hs : success_count (run_states r) (deps_of n) = length (deps_of n)).
        { unfold success_count. clear -Hno Hinv Hnf. induction (deps_of n) as [|d l IH]; [done |]. cbn.
          destruct (run_states r !! d) as [s|] eqn:Es; [|by destruct (Hno d); [left |]].
          rewrite <-IH by (intros; apply Hno; by right).
          destruct (ri_settled _ Hinv d s Es) as [->|[->| ->]]; cbn; [done | by destruct (Hnf d) | done]. }
        unfold are_deps_done in Hnd. destruct (deps_of n) as [|d l] eqn:Ed; [done |]. rewrite <-Ed in *.
        rewrite Hs in Hnd. pose proof (he_required Hh n Hn) as Hle. apply Nat.leb_le in Hle.
        by rewrite Hle in Hnd. }
    destruct Hdep as (d & Hd & Hdn). exists d. split.
    + apply list_elem_of_In, filter_In. split; [apply list_elem_of_In; by eapply he_closed |].
      rewrite bool_decide_eq_false_2; [done |]. by rewrite Hdn; intros [? ?].
    + by apply dep_edge.
Qed.

Lemma healthy_loop fuel it r :
  healthy -> rtc dag_step run_start r -> no_failure r ->
  (length nodes < fuel + size (run_states r))%nat ->
  exists r', dag_loop value_text opts fuel task it r = Some (Finished r') /\
    rtc dag_step run_start r' /\ no_failure r' /\ size (run_states r') = length nodes.
Proof.
  intros Hh. revert it r. induction fuel as [|fuel IH]; intros it r Hreach Hnf Hf.
  { pose proof (states_size r (run_inv_reachable r Hreach)). lia. }
  pose proof (run_inv_reachable r Hreach) as Hinv. cbn [dag_loop]. rewrite all_nodes_size.
  destruct (size (run_states r) <? length nodes)%nat eqn:Es; cmp_hyps; cbn [negb].
  2: { exists r. pose proof (states_size r Hinv). split; [done |]. split; [done |]. split; [done | lia]. }
  destruct (healthy_schedule r Hh Hinv Hnf) as [Hst1 Hend].
  destruct (schedule_spec r Hinv) as (Hinv1 & _).
  assert (Hreach1 : rtc dag_step run_start (schedule value_text opts task r))
    by (eapply rtc_r; [done | constructor]).
  set (r1 := schedule value_text opts task r) in *.
  destruct (run_in_flight r1) as [|x fl] eqn:Efl; [specialize (Hend eq_refl); lia |].
  rewrite <-Efl. destruct (finish_pick r1 (env_next it)) as (id & o & r2 & Hfin); [by rewrite Efl |].
  rewrite Hfin. cbn [mbind option_bind].
  destruct (finish_spec r1 _ id o r2 Hinv1 Hfin) as (Hinv2 & Hnone & Hst & _ & n & ctx & Hn & En & Eo).
  rewrite decide_False by (rewrite Eo; by apply (he_success Hh)).
  apply IH.
  - eapply rtc_r; [exact Hreach1 | by eapply step_finish].
  - intros id'. rewrite Hst. destruct (decide (id' = id)) as [->|].
    + rewrite lookup_insert_eq, Eo. intros [= E]. by apply (he_success Hh n ctx Hn).
    + rewrite lookup_insert_ne, Hst1 by done. apply Hnf.
  - rewrite Hst, map_size_insert_None, Hst1 by done. lia.
Qed.

(** C31: when the dependencies are acyclic, K is never more than the number of
    dependencies, at least one node may run and no node's execution fails,
    the task completes and every node ran to success or was skipped by its
    condition. *)
Theorem healthy_dag_completes topo :
  healthy ->
  exists result ops r, run_dag value_text opts task topo = Some (result, ops) /\
    r_final_state result = Completed /\ r_node_results result = run_results r /\
    rtc dag_step run_start r /\ forall n, n ∈ nodes -> succeeded (run_states r) (n_id n).
Proof.
  intros Hh. destruct (healthy_loop (S (length nodes)) 0 run_start Hh) as (r & Hr & Hreach & Hnf & Hsize).
  - apply rtc_refl.
  - intros id. cbn. by rewrite lookup_empty.
  - cbn. lia.
  - unfold run_dag. fold nodes. rewrite Hr. cbn [mbind option_bind].
    assert (Hex : existsb (fun e => is_failed (run_states r !! e)) (end_node_ids task) = false).
    { apply not_true_iff_false. rewrite existsb_exists. intros (e & _ & He).
      specialize (Hnf e). unfold is_failed in He. by destruct (run_states r !! e) as [[]|]. }
    rewrite Hex, andb_false_r. destruct (compensate_if _ _ _ _ _ _ _) as [c ops].
    eexists _, _, r. split; [done |]. split; [done |]. split; [done |]. split; [done |].
    intros n Hn. pose proof (run_inv_reachable r Hreach) as Hinv.
    destruct (run_states r !! n_id n) as [s|] eqn:Es.
    + unfold succeeded. rewrite Es.
      destruct (ri_settled _ Hinv _ s Es) as [->|[->| ->]]; [done | by destruct (Hnf (n_id n)) | done].
    + pose proof (states_room r (n_id n) Hinv (list_elem_of_fmap_2 n_id nodes n Hn) Es). lia.
Qed.

End dag.

(** ** The store after [execute] *)

Lemma final_ops_state t s ops st r :
  s !! t = Some r -> rec_state <$> apply_ops t s (ops ++ [UpdateState st]) !! t = Some st.
Proof.
  intros Hr. rewrite apply_ops_app. destruct (apply_ops_lookup t s ops r Hr) as (r' & Hr' & _).
  cbn [apply_ops fold_left]. fold (apply_ops t s ops). by rewrite (apply_op_self _ _ _ _ Hr').
Qed.

Lemma apply_ops_other t t' s ops : t <> t' -> apply_ops t s ops !! t' = s !! t'.
Proof.
  intros Hne. revert s. induction ops as [|op ops IH]; intros s; [done |].
  cbn [apply_ops fold_left]. fold (apply_ops t (apply_op t s op) ops). by rewrite IH, apply_op_other.
Qed.

Lemma run_lifecycle_ops task topo result ops cb :
  run_lifecycle value_text opts task topo = Some (result, ops, cb) ->
  exists ops', ops = ops' ++ [UpdateState (r_final_state result)].
Proof.
  unfold run_lifecycle. destruct (if t_preflight task then _ else _) as [f|].
  - intros [= <- <- _]. by eexists.
  - destruct (run_dag _ _ _ _) as [[res ops1]|]; [|done]. cbn. intros [= <- <- _].
    exists ((if t_preflight task then [UpdateState Preflight] else []) ++ [UpdateState Running] ++ ops1).
    by rewrite <-!app_assoc.
Qed.

Lemma execute_total store task : exists result, execute value_text opts store task = Some result.
Proof.
  unfold execute. cbv zeta. destruct (_ <=? _); [eauto |].
  destruct (t_callback_url task ≫= _); [eauto |].
  destruct (validate_dag_cases (t_dag task)) as (v & Hv & Hcase). rewrite Hv. cbn [mbind option_bind].
  destruct Hcase as [[_ (code & msg & -> & _)]|(Hsh & _ & _ & order & _ & ->)]; [cbn; eauto |].
  destruct (negb (v_is_valid _)); [eauto |]. destruct (store !! t_task_id task); [eauto |].
  assert (Hl : forall topo, exists x, run_lifecycle value_text opts task topo = Some x).
  { intros topo. unfold run_lifecycle. destruct (if t_preflight task then _ else _); [eauto |].
    destruct (dag_loop_total task) as (stop & Hstop & _); [apply Hsh |].
    unfold run_dag. rewrite Hstop. cbn [mbind option_bind]. destruct stop.
    - destruct (negb _ && _); destruct (compensate_if _ _ _ _ _ _ _); cbn; eauto.
    - destruct (compensate_if _ _ _ _ _ _ _); cbn; eauto. }
  destruct (Hl (default [] (v_topological_order (sorted_result (t_dag task) order)))) as [[[res ops] cb] ->].
  cbn. destruct env_timeout; eauto.
Qed.

(** [execute] always answers, and the store agrees with the answer: a
    task refused before it starts (too deep, a bad callback, an invalid DAG, a
    known id) leaves the store as it was; any other task was unknown, and its
    record ends in the state the result reports, also when the timer fires.
    No other task's record changes. *)
Theorem execute_store store task :
  exists result store', execute value_text opts store task = Some (result, store') /\
    ((r_final_state result = Failed /\ store' = store) \/
     (store !! t_task_id task = None /\ dag_ok (t_dag task) /\
      rec_state <$> store' !! t_task_id task = Some (r_final_state result))) /\
    forall other, other <> t_task_id task -> store' !! other = store !! other.
Proof.
  destruct (execute_total store task) as [[result store'] H]. exists result, store'. split; [done |].
  unfold execute in H. cbv zeta in H.
  destruct (_ <=? _); [by simplify_eq; split; [left|] |].
  destruct (t_callback_url task ≫= _); [by simplify_eq; split; [left|] |].
  destruct (validate_dag_cases (t_dag task)) as (v & Hv & Hcase). rewrite Hv in H. cbn [mbind option_bind] in H.
  destruct (v_is_valid v) eqn:Hvalid; cbn [negb] in H; [|by simplify_eq; split; [left|]].
  assert (Hdag : dag_ok (t_dag task)).
  { destruct Hcase as [[_ (code & msg & -> & _)]|(Hsh & _ & _ & order & Ho & ->)]; [done |].
    split; [done |]. apply (kahn_order_complete _ order Hsh Ho). unfold sorted_result in Hvalid.
    destruct (_ =? _)%nat eqn:E; [by cmp_hyps | done]. }
  destruct (store !! t_task_id task) eqn:Es; [by simplify_eq; split; [left|] |].
  destruct (run_lifecycle value_text opts task _) as [[[res ops] cb]|] eqn:Hl; [|done]. cbn in H.
  unfold save in H. cbn [rec_task_id] in H. rewrite Es in H.
  apply run_lifecycle_ops in Hl as (ops' & Eo).
  set (record := mkTaskRecord _ _ _ _ _ _) in H.
  assert (Hrec : <[t_task_id task := record]> store !! t_task_id task = Some record) by apply lookup_insert_eq.
  assert (Hother : forall ops other, other <> t_task_id task ->
            apply_ops (t_task_id task) (<[t_task_id task := record]> store) ops !! other = store !! other).
  { intros ops0 other Hne. rewrite apply_ops_other by done. by rewrite lookup_insert_ne. }
  destruct env_timeout as [n|]; simplify_eq; (split; [right | auto]); (split; [done | split; [done |]]).
  - by rewrite (final_ops_state _ _ _ _ record).
  - by rewrite (final_ops_state _ _ _ _ record).
Qed.

End spec.

(** ** Witnesses *)

#[local] Instance ascii_tables : UnicodeTables :=
  {| uni_alphabetic := fun _ => false; uni_numeric := fun _ => false |}.

Definition no_value_text (v : Value) : string := "".

(** Workers that answer at once: [bad] agents with an error, the others with
    their node's id. *)
Definition reply (bad : string -> bool) (f : DelegateFrame) (attempt : nat) : WorkerStream :=
  mkStream
    [if bad (dl_node_id f)
     then final_err (dl_parent_task_id f) (dl_subtask_id f) (dl_target_agent_nid f) 0
            (mkStreamError "X" "boom" false)
     else final_ok (dl_parent_task_id f) (dl_subtask_id f) (dl_target_agent_nid f) 1
            (Some (VObject [(dl_node_id f, VString (dl_action f))]))] true.

Definition sample_env (bad : string -> bool) : NopEnv := {|
  env_delegate := reply bad;
  env_preflight := fun agent _ => mkPreflight agent true None;
  env_probe_order := fun l => l;
  env_uuid := fun id _ => id;
  env_now_ms := fun _ _ => 0;
  env_next := fun _ => 0%nat;
  env_key_order := fun l => l;
  env_timeout := None
|}.

Definition sample_opts : NopOrchestratorOptions := mkOptions 2 true true "merge".

Definition chain : TaskDag :=
  mkTaskDag [plain_node "a" []; plain_node "b" ["a"]; plain_node "c" ["b"]]
    [mkDagEdge "a" "b"; mkDagEdge "b" "c"].
Definition chain_task : TaskFrame := TaskFrame_new "t" chain.

Lemma chain_unique : NoDup (map n_id (d_nodes (t_dag chain_task))).
Proof. cbn. repeat constructor; set_solver. Qed.

Lemma retries_bounded_witness :
  let E := sample_env (fun _ => true) in
  exists n, (1 <= n <= 3)%nat /\
    execute_node_with_retry no_value_text sample_opts chain_task (plain_node "a" []) ∅
    = (retry_outcome sample_opts chain_task (plain_node "a" []) ∅ n,
       map (running_op (plain_node "a" []) "a") (seq 1 n)
       ++ [final_op (plain_node "a" []) "a" (retry_outcome sample_opts chain_task (plain_node "a" []) ∅ n) n]).
Proof.
  intros E.
  destruct (retries_bounded no_value_text sample_opts chain_task (plain_node "a" []) ∅ eq_refl)
    as (n & Hn & _ & _ & H). exists n. split; [exact Hn | exact H].
Defined.

Lemma dag_run_safe_witness :
  let E := sample_env (fun _ => false) in
  let r := schedule no_value_text sample_opts chain_task run_start in
  map fst (run_in_flight r) = ["a"] /\ (length (run_in_flight r) <= 2)%nat.
Proof.
  intros E r. split; [vm_compute; reflexivity |].
  destruct (dag_run_safe no_value_text sample_opts chain_task chain_unique r) as (H & _).
  - apply rtc_once. constructor.
  - exact H.
Defined.

Lemma run_dag_reports_witness :
  let E := sample_env (fun id => String.eqb id "b") in
  exists result ops r id, run_dag no_value_text sample_opts chain_task ["a"; "b"; "c"] = Some (result, ops) /\
    rtc (dag_step no_value_text sample_opts chain_task) run_start r /\
    r_final_state result = Failed /\ run_states r !! id = Some Failed.
Proof.
  intros E.
  destruct (run_dag_reports no_value_text sample_opts chain_task chain_unique ["a"; "b"; "c"])
    as (result & ops & r & Hr & Hs & [(Hf & _ & id & e & Hid & _)|(Hc & _)]).
  - exists result, ops, r, id. auto.
  - exfalso. revert Hc. vm_compute in Hr. injection Hr as <- _. discriminate.
Defined.

Lemma healthy_dag_completes_witness :
  let E := sample_env (fun _ => false) in
  exists result ops, run_dag no_value_text sample_opts chain_task ["a"; "b"; "c"] = Some (result, ops) /\
    r_final_state result = Completed.
Proof.
  intros E.
  assert (Hh : healthy no_value_text sample_opts chain_task).
  { assert (Hde : dep_edges chain_task = [mkDagEdge "a" "b"; mkDagEdge "b" "c"]) by reflexivity.
    assert (Hnodes : d_nodes (t_dag chain_task) = [plain_node "a" []; plain_node "b" ["a"]; plain_node "c" ["b"]])
      by reflexivity.
    constructor; rewrite ?Hnodes.
    - rewrite Hde. apply (topological_acyclic _ ["a"; "b"; "c"]); [exact chain_unique | |].
      + intros l1 v l2 Hl u Hu. unfold edge in Hu.
        destruct l1 as [|x [|y [|z l1]]]; cbn in Hl; simplify_eq; set_solver.
      + intros e He. set_solver.
    - intros n d Hn Hd. repeat (apply elem_of_cons in Hn as [->|Hn]; [cbn in Hd |- *; set_solver |]).
      by apply elem_of_nil in Hn.
    - intros n Hn. repeat (apply elem_of_cons in Hn as [->|Hn]; [cbn; lia |]). by apply elem_of_nil in Hn.
    - cbn. lia.
    - intros n ctx Hn. repeat (apply elem_of_cons in Hn as [->|Hn]; [vm_compute; discriminate |]).
      by apply elem_of_nil in Hn. }
  destruct (healthy_dag_completes no_value_text sample_opts chain_task chain_unique ["a"; "b"; "c"] Hh)
    as (result & ops & r & Hr & Hc & _).
  exists result, ops. split; [exact Hr | exact Hc].
Defined.

(** ** Runs that report more than happened *)

Definition states_of (o : option (NopTaskResult * Store)) : option (TaskState * list (string * TaskState)) :=
  match o with
  | Some (r, s) => Some (r_final_state r,
      match s !! "t" with
      | Some rec => map (fun kv => (kv.1, sub_state kv.2)) (map_to_list (rec_subtasks rec))
      | None => []
      end)
  | None => None
  end.

(** When the first node of a chain of three fails, the second is failed by the
    K-of-N pass, which leaves nothing in flight: the loop stops before the
    third node is looked at, and the task is reported Completed. *)
Lemma chain_failure_reported_completed :
  let E := sample_env (fun id => String.eqb id "a") in
  states_of (execute no_value_text sample_opts ∅ chain_task)
  = Some (Completed, [("a", Failed); ("b", Failed)]).
Proof. vm_compute. reflexivity. Qed.

(** Validation looks for cycles among the edges only; nodes that wait for one
    another through [input_from] never run, and the task is reported
    Completed. *)
Definition deadlocked : TaskDag :=
  mkTaskDag [plain_node "a" ["b"]; plain_node "b" ["a"]] [mkDagEdge "a" "b"].

Lemma dependency_cycle_reported_completed :
  let E := sample_env (fun _ => false) in
  states_of (execute no_value_text sample_opts ∅ (TaskFrame_new "t" deadlocked)) = Some (Completed, []).
Proof. vm_compute. reflexivity. Qed.

(** A node that completes while the aborting loop drains what is in flight is
    not compensated: its state is no longer recorded. *)
Definition undoable (id : string) : DagNode :=
  mkDagNode id "nwp://a/act" "urn:nps:agent:a" None None None None None 0 (Some "nwp://a/undo") None.
Definition two_ends : TaskDag := mkTaskDag [undoable "a"; undoable "b"] [].

Lemma drained_node_not_compensated :
  let E := sample_env (fun id => String.eqb id "a") in
  states_of (execute no_value_text sample_opts ∅ (TaskFrame_new "t" two_ends))
  = Some (Failed, [("a", Failed); ("b", Completed)]) /\
  option_map (fun x => r_compensation (fst x))
    (execute no_value_text sample_opts ∅ (TaskFrame_new "t" two_ends)) = Some (Some (mkSaga 0 0 0 [])).
Proof. split; vm_compute; reflexivity. Qed.
