(* ===== verification/NwpTopology.v ===== *)
(** * NwpTopology: topology events and snapshots

    The data of nps-nwp/src/anchor_client.rs that Anchors exchange, and the
    factories of the [anchor_state] events. *)

From S2P Require Import Prelude RustStr Json.
Local Open Scope Z_scope.

Record MemberInfo : Type := mkMember {
  mi_nid : string;
  mi_node_roles : list string;
  mi_activation_mode : string;
  mi_child_anchor : option bool;
  mi_member_count : option Z;
  mi_tags : option (list string);
  mi_joined_at : option string;
  mi_last_seen : option string;
  mi_capabilities : option Value;
  mi_metrics : option Value
}.

Record TopologySnapshot : Type := mkSnapshot {
  ts_version : Z;
  ts_anchor_nid : string;
  ts_cluster_size : Z;
  ts_members : list MemberInfo;
  ts_truncated : option bool;
  ts_cluster_epoch : option Z
}.

Definition snapshot_effective_cluster_epoch (s : TopologySnapshot) : Z :=
  default 1 (ts_cluster_epoch s).

Record MemberChanges : Type := mkChanges {
  mc_node_roles : option (list string);
  mc_activation_mode : option string;
  mc_tags : option (list string);
  mc_member_count : option Z;
  mc_last_seen : option string;
  mc_capabilities : option Value;
  mc_metrics : option Value
}.

Inductive TopologyEvent : Type :=
| MemberJoined (version : Z) (member : MemberInfo)
| MemberLeft (version : Z) (nid : string)
| MemberUpdated (version : Z) (nid : string) (changes : MemberChanges)
| AnchorState (version : Z) (field : string) (details : option Value)
| ResyncRequired (reason : string).

(** ** [impl AnchorState] *)

Definition FIELD_ANCHOR_FAILOVER : string := "anchor_failover".
Definition FIELD_ANCHOR_QUORUM_LOST : string := "anchor_quorum_lost".
Definition REASON_PLANNED : string := "planned".
Definition REASON_ACTIVE_LOST : string := "active_lost".

Definition failover_with (successor_nid : string) (cluster_epoch : Z) (reason : string)
    (version : Z) : TopologyEvent :=
  AnchorState version FIELD_ANCHOR_FAILOVER
    (Some (VObject (map_collect [("successor_nid", VString successor_nid);
                                 ("cluster_epoch", vnat cluster_epoch);
                                 ("reason", VString reason)]))).

Definition failover (successor_nid : string) (cluster_epoch : Z) : TopologyEvent :=
  failover_with successor_nid cluster_epoch REASON_PLANNED 0.

Definition quorum_lost_with (quorum_size available version : Z) : TopologyEvent :=
  AnchorState version FIELD_ANCHOR_QUORUM_LOST
    (Some (VObject (map_collect [("quorum_size", vnat quorum_size); ("available", vnat available)]))).

Definition quorum_lost (quorum_size available : Z) : TopologyEvent :=
  quorum_lost_with quorum_size available 0.

(** The successor and epoch an [anchor_failover] event announces. *)
Definition announced (ev : TopologyEvent) : option (string * Z) :=
  match ev with
  | AnchorState _ field (Some details) =>
    if String.eqb field FIELD_ANCHOR_FAILOVER
    then n ← vget "successor_nid" details ≫= as_str;
         e ← vget "cluster_epoch" details ≫= as_u64;
         Some (n, e)
    else None
  | _ => None
  end.

Lemma announced_failover nid e reason v : 0 <= e <= u64_max ->
  announced (failover_with nid e reason v) = Some (nid, e).
Proof. done. Qed.
