(* ===== verification/NwpFence.v ===== *)
(** * NwpFence: ownership of a cluster and its fencing token

    Models nps-nwp/src/anchor_fence.rs.  An [AnchorOwnership] is the view one
    Anchor has of its cluster; the host drives it with the operations of
    [FenceOp].  [observed] runs them and keeps, as a ghost, every epoch the
    Anchor has been shown, so that the theorems can speak of its whole
    history. *)

From S2P Require Import Prelude RustStr Json ErrorCodes NwpTopology.
Local Open Scope Z_scope.

(** ** Errors *)

Definition ANCHOR_EPOCH_FENCED : string := "NWP-ANCHOR-EPOCH-FENCED".
Definition ANCHOR_NOT_LEADER : string := "NWP-ANCHOR-NOT-LEADER".

Record TopologyProtocolError : Type := mkTopologyError {
  nwp_error_code : string;
  te_nps_status : string;
  te_message : string
}.

Definition topology_error (code message : string) : TopologyProtocolError :=
  mkTopologyError code (nwp_to_nps_status code) message.

Definition http_status (e : TopologyProtocolError) : Z :=
  if String.eqb (te_nps_status e) "NPS-CLIENT-CONFLICT" then 409
  else if String.eqb (te_nps_status e) "NPS-AUTH-FORBIDDEN" then 403
  else 400.

(** ** Ownership *)

Inductive AnchorRole : Type := Active | Standby.
#[export] Instance AnchorRole_eq_dec : EqDecision AnchorRole.
Proof. solve_decision. Defined.

Record AnchorOwnership : Type := mkOwnership {
  anchor_nid : string;
  own_epoch : Z;
  role : AnchorRole;
  degraded : bool;
  highest_observed_epoch : Z;
  pending_events : list TopologyEvent;
  streams_open : bool
}.

Definition ownership_new (nid : string) : AnchorOwnership :=
  mkOwnership nid 1 Active false 1 [] true.

Definition ownership_new_standby (nid : string) (epoch : Z) : AnchorOwnership :=
  mkOwnership nid epoch Standby false epoch [] true.

(** The result is paired with the state the call leaves. *)
Definition on_inbound_frame (s : AnchorOwnership) (inbound_epoch : option Z)
    (sender_anchor_nid : option string) (is_topology_write : bool)
    : result TopologyProtocolError unit * AnchorOwnership :=
  let inbound := default 1 inbound_epoch in
  let highest := if highest_observed_epoch s <? inbound then inbound
                 else highest_observed_epoch s in
  let s := mkOwnership (anchor_nid s) (own_epoch s) (role s) (degraded s) highest
             (pending_events s) (streams_open s) in
  if own_epoch s <? inbound
  then
    let ev := failover_with (default "" sender_anchor_nid) inbound REASON_ACTIVE_LOST 0 in
    (Err (topology_error ANCHOR_EPOCH_FENCED
            ("inbound cluster_epoch " +:+ fmt_Z inbound +:+ " supersedes this Anchor's epoch "
             +:+ fmt_Z (own_epoch s) +:+ "; this Anchor is fenced.")),
     mkOwnership (anchor_nid s) (own_epoch s) Standby (degraded s) highest
       (pending_events s ++ [ev]) false)
  else if is_topology_write && (negb (bool_decide (role s = Active)) || degraded s)
  then
    let why := if negb (bool_decide (role s = Active)) then "this Anchor is a standby"
               else "this Anchor is read-only-degraded (quorum lost)" in
    (Err (topology_error ANCHOR_NOT_LEADER
            ("topology writes are only accepted by the active cluster owner: " +:+ why +:+ ".")), s)
  else (Ok tt, s).

Definition stamp_response (s : AnchorOwnership) (snapshot : TopologySnapshot) : TopologySnapshot :=
  mkSnapshot (ts_version snapshot) (ts_anchor_nid snapshot) (ts_cluster_size snapshot)
    (ts_members snapshot) (ts_truncated snapshot) (Some (own_epoch s)).

Definition on_quorum_lost (s : AnchorOwnership) (quorum_size available : Z)
    : TopologyEvent * AnchorOwnership :=
  let ev := quorum_lost quorum_size available in
  (ev, mkOwnership (anchor_nid s) (own_epoch s) (role s) true (highest_observed_epoch s)
         (pending_events s ++ [ev]) (streams_open s)).

Definition on_quorum_restored (s : AnchorOwnership) : AnchorOwnership :=
  mkOwnership (anchor_nid s) (own_epoch s) (role s) false (highest_observed_epoch s)
    (pending_events s) (streams_open s).

Definition take_pending_events (s : AnchorOwnership) : list TopologyEvent * AnchorOwnership :=
  (pending_events s,
   mkOwnership (anchor_nid s) (own_epoch s) (role s) (degraded s) (highest_observed_epoch s)
     [] (streams_open s)).

Definition on_take_ownership (s : AnchorOwnership) (new_epoch : Z) (reason : string)
    : result TopologyProtocolError TopologyEvent * AnchorOwnership :=
  if new_epoch <=? highest_observed_epoch s
  then
    (Err (topology_error ANCHOR_EPOCH_FENCED
            ("cluster_epoch must strictly increase: " +:+ fmt_Z new_epoch
             +:+ " does not exceed the highest observed epoch "
             +:+ fmt_Z (highest_observed_epoch s) +:+ ".")), s)
  else
    let ev := failover_with (anchor_nid s) new_epoch reason 0 in
    (Ok ev, mkOwnership (anchor_nid s) new_epoch Active false new_epoch
              (pending_events s ++ [ev]) true).

(** ** Histories *)

Inductive FenceOp : Type :=
| OpFrame (epoch : option Z) (sender : option string) (write : bool)
| OpQuorumLost (quorum_size available : Z)
| OpQuorumRestored
| OpTakeOwnership (epoch : Z) (reason : string)
| OpTakeEvents.

Definition fence_op (s : AnchorOwnership) (op : FenceOp) : AnchorOwnership :=
  match op with
  | OpFrame e n w => (on_inbound_frame s e n w).2
  | OpQuorumLost q a => (on_quorum_lost s q a).2
  | OpQuorumRestored => on_quorum_restored s
  | OpTakeOwnership e r => (on_take_ownership s e r).2
  | OpTakeEvents => (take_pending_events s).2
  end.

(** The epochs an operation shows to the Anchor: those of the frames it
    receives, and those it owned the cluster under. *)
Definition shown (s : AnchorOwnership) (op : FenceOp) : list Z :=
  match op with
  | OpFrame e _ _ => [default 1 e]
  | OpTakeOwnership e r => if is_ok (on_take_ownership s e r).1 then [e] else []
  | _ => []
  end.

(** [observed s seen]: some history from a fresh Anchor leads to [s], and
    [seen] are the epochs it was shown, the initial one included. *)
Inductive observed : AnchorOwnership -> list Z -> Prop :=
| observed_new nid : observed (ownership_new nid) [1]
| observed_standby nid e : observed (ownership_new_standby nid e) [e]
| observed_op s seen op : observed s seen -> observed (fence_op s op) (shown s op ++ seen).

(** ** Lemmas *)

(** Case analysis on the comparisons of the definitions. *)
Local Ltac by_cases :=
  repeat (cbn in *; match goal with
    | |- context [if (?a <? ?b) then _ else _] => destruct (Z.ltb_spec a b)
    | |- context [if (?a <=? ?b) then _ else _] => destruct (Z.leb_spec a b)
    | |- context [if ?b then _ else _] => destruct b eqn:?
    end).

(** The invariant: the highest epoch bounds all that was seen; the Anchor's
    own epoch never exceeds it, and an active Anchor owns the highest. *)
Record fence_inv (s : AnchorOwnership) (seen : list Z) : Prop := {
  fi_seen : Forall (fun e => e <= highest_observed_epoch s) seen;
  fi_max : In (highest_observed_epoch s) seen;
  fi_own : own_epoch s <= highest_observed_epoch s;
  fi_active : role s = Active -> own_epoch s = highest_observed_epoch s;
  fi_closed : streams_open s = false -> role s = Standby
}.

Lemma seen_weaken (m m' : Z) seen : m <= m' ->
  Forall (fun e => e <= m) seen -> Forall (fun e => e <= m') seen.
Proof. intros Hm H. eapply Forall_impl; [exact H |]. cbn. lia. Qed.

Lemma fence_op_inv s seen op : fence_inv s seen -> fence_inv (fence_op s op) (shown s op ++ seen).
Proof.
  intros [Hs Hm Ho Ha Hc].
  destruct op as [e n w|q a| |e r|]; try (split; done).
  - unfold fence_op, shown, on_inbound_frame. cbn [own_epoch role degraded app].
    set (inbound := default 1 e).
    assert (Hx : exists h, (if highest_observed_epoch s <? inbound then inbound
                            else highest_observed_epoch s) = h /\ h = Z.max (highest_observed_epoch s) inbound)
      by (destruct (Z.ltb_spec (highest_observed_epoch s) inbound); eexists; split; [done | lia | done | lia]).
    destruct Hx as (h & -> & Hh).
    assert (Hs' : Forall (fun e => e <= h) (inbound :: seen))
      by (constructor; [cbn beta; lia | eapply seen_weaken; [|done]; lia]).
    assert (Hm' : In h (inbound :: seen))
      by (destruct (Z.max_spec (highest_observed_epoch s) inbound) as [[_ E]|[_ E]]; rewrite Hh, E;
          [by left | by right]).
    by_cases; split; cbn; try done; try lia; intros Hr; specialize (Ha Hr); lia.
  - unfold fence_op, shown, on_take_ownership.
    by_cases; split; cbn; try done; try lia; try (by left).
    constructor; [lia |]. eapply seen_weaken; [|done]. lia.
Qed.

Lemma observed_inv s seen : observed s seen -> fence_inv s seen.
Proof.
  induction 1; [| | by apply fence_op_inv];
    (split; cbn; [constructor; [cbn; lia | constructor] | by left | lia | done | done]).
Qed.

(** What a frame meets, on every branch. *)
Lemma inbound_cases s e n w :
  let r := on_inbound_frame s e n w in
  let inbound := default 1 e in
  (own_epoch s < inbound /\ (exists m, r.1 = Err (topology_error ANCHOR_EPOCH_FENCED m)) /\
     role r.2 = Standby /\ streams_open r.2 = false) \/
  (inbound <= own_epoch s /\ w = true /\ (role s = Standby \/ degraded s = true) /\
     (exists m, r.1 = Err (topology_error ANCHOR_NOT_LEADER m))) \/
  (inbound <= own_epoch s /\ (w = true -> role s = Active /\ degraded s = false) /\ r.1 = Ok tt).
Proof.
  unfold on_inbound_frame. cbn [own_epoch role degraded].
  destruct (Z.ltb_spec (own_epoch s) (default 1 e)); [left; cbn; eauto |].
  right. destruct w; cbn [andb]; [|right; cbn; repeat split; done || lia].
  destruct (role s), (degraded s); cbn; eauto 10.
Qed.

(** ** Theorems *)

(** The fence is a fencing token.  Whatever the history of an Anchor, when
    it accepts a topology write it is the active owner, with quorum, and its
    epoch is at least every epoch it was ever shown, that of the write
    included; so after a frame from a newer leader no write is accepted before
    a take-over above that epoch.  And a take-over succeeds exactly above
    every epoch ever shown. *)
Theorem fence_token s seen :
  observed s seen ->
  (forall e n, (on_inbound_frame s e n true).1 = Ok tt ->
     role s = Active /\ degraded s = false /\ default 1 e <= own_epoch s /\
     Forall (fun e' => e' <= own_epoch s) seen) /\
  (forall e r, is_ok (on_take_ownership s e r).1 = true <-> Forall (fun e' => e' < e) seen) /\
  (forall e r ev s', on_take_ownership s e r = (Ok ev, s') ->
     own_epoch s' = e /\ role s' = Active /\ degraded s' = false /\ streams_open s' = true).
Proof.
  intros [Hs Hm Ho Ha Hc]%observed_inv. split; [|split].
  - intros e n Hok.
    destruct (inbound_cases s e n true) as [(_ & (m & Hr) & _)|[(_ & _ & _ & (m & Hr))|(Hle & Hw & _)]];
      [congruence | congruence |].
    destruct (Hw eq_refl) as [Hrole Hd]. specialize (Ha Hrole). repeat split; try done.
    by rewrite Ha.
  - intros e r. unfold on_take_ownership. destruct (Z.leb_spec e (highest_observed_epoch s)); cbn; split.
    + done.
    + intros Hf. rewrite Forall_forall in Hf. specialize (Hf _ (proj2 (list_elem_of_In _ _) Hm)). lia.
    + intros _. eapply Forall_impl; [exact Hs | cbn; lia].
    + done.
  - intros e r ev s'. unfold on_take_ownership. by_cases; by intros [= _ <-].
Qed.

(** What a frame meets is decided by the epochs and the role alone: a
    newer epoch fences the Anchor (standby, streams closed, one
    terminal failover event naming the sender), reads under a known epoch
    always pass, writes pass exactly at an active owner with quorum, and both
    refusals are HTTP conflicts; only a fence changes more than the highest
    epoch seen. *)
Theorem inbound_frame_spec s e n w :
  let '(r, s') := on_inbound_frame s e n w in
  let inbound := default 1 e in
  (r = Ok tt <-> inbound <= own_epoch s /\ (w = false \/ role s = Active /\ degraded s = false)) /\
  (forall err, r = Err err -> http_status err = 409 /\
     (nwp_error_code err = ANCHOR_EPOCH_FENCED <-> own_epoch s < inbound)) /\
  (own_epoch s < inbound -> role s' = Standby /\ streams_open s' = false /\
     pending_events s' = pending_events s
       ++ [failover_with (default "" n) inbound REASON_ACTIVE_LOST 0]) /\
  (inbound <= own_epoch s -> own_epoch s <= highest_observed_epoch s -> s' = s) /\
  own_epoch s' = own_epoch s /\ degraded s' = degraded s /\
  highest_observed_epoch s' = Z.max (highest_observed_epoch s) inbound.
Proof.
  unfold on_inbound_frame. cbn [own_epoch role degraded].
  set (inbound := default 1 e).
  assert (Hh : (if highest_observed_epoch s <? inbound then inbound else highest_observed_epoch s)
               = Z.max (highest_observed_epoch s) inbound) by (destruct (Z.ltb_spec (highest_observed_epoch s) inbound); lia).
  destruct (Z.ltb_spec (own_epoch s) inbound) as [Hlt|Hle]; cbn.
  - repeat split; try done; try lia; try (by intros [? _]; lia);
      intros; simplify_eq; try done; lia.
  - assert (Hs : own_epoch s <= highest_observed_epoch s ->
      mkOwnership (anchor_nid s) (own_epoch s) (role s) (degraded s)
        (if highest_observed_epoch s <? inbound then inbound else highest_observed_epoch s)
        (pending_events s) (streams_open s) = s).
    { intros Ho. rewrite Hh, Z.max_l by lia. by destruct s. }
    destruct w, (role s) eqn:Er, (degraded s) eqn:Ed; cbn;
      repeat split; try done; try lia; try naive_solver; intros; simplify_eq; try done; try lia.
Qed.

(** ** Witness *)

Definition two_takeovers : AnchorOwnership :=
  fold_left fence_op [OpFrame (Some 2) (Some "b") false; OpTakeOwnership 3 REASON_ACTIVE_LOST]
    (ownership_new "a").

Lemma fence_token_witness :
  observed two_takeovers [3; 2; 1] /\ (on_inbound_frame two_takeovers (Some 3) None true).1 = Ok tt /\
  Forall (fun e' => e' <= own_epoch two_takeovers) [3; 2; 1].
Proof.
  assert (H : observed two_takeovers [3; 2; 1]).
  { exact (observed_op _ _ (OpTakeOwnership 3 REASON_ACTIVE_LOST)
             (observed_op _ _ (OpFrame (Some 2) (Some "b") false) (observed_new "a"))). }
  split; [exact H |]. split; [vm_compute; reflexivity |].
  apply (proj1 (fence_token _ _ H) (Some 3) None). vm_compute. reflexivity.
Defined.
