(* ===== verification/NdpFrames.v ===== *)
(** * NdpFrames: the discovery frames

    Models nps-ndp/src/frames.rs: Announce with its signed form, Resolve, and
    Graph with its validation.  [GraphNode] and [GraphEdge] are read and
    written by derived serde code, which is the parameter [GraphSerde]. *)

From S2P Require Import Prelude RustStr Floats Json CoreFrames NcpFrames.
Local Open Scope Z_scope.

(** ** AnnounceFrame *)

Record AnnounceFrame : Type := mkAnnounce {
  an_nid : string;
  an_addresses : list Map;
  an_caps : list string;
  an_ttl : Z;
  an_timestamp : string;
  an_signature : string;
  an_node_type : option string;
  an_node_roles : option (list string);
  an_cluster_anchor : option string;
  an_cluster_epoch : option Z;
  an_spawn_spec_ref : option string;
  an_bridge_protocols : option (list string);
  an_bridge_inbound_protocols : option (list string);
  an_activation_mode : option string;
  an_activation_endpoint : option Map;
  an_heartbeat_interval_ms : Z;
  an_health : option string;
  an_last_seen : option string;
  an_graph_seq : option Z
}.

Definition DEFAULT_CLUSTER_EPOCH : Z := 1.

Definition effective_cluster_epoch (f : AnnounceFrame) : Z :=
  default DEFAULT_CLUSTER_EPOCH (an_cluster_epoch f).

(** The last two lines are the sort through a [BTreeMap]. *)
Definition unsigned_dict (f : AnnounceFrame) : FrameDict :=
  let m := map_insert "nid" (VString (an_nid f)) [] in
  let m := map_insert "addresses" (VArray (map VObject (an_addresses f))) m in
  let m := map_insert "capabilities" (vstrings (an_caps f)) m in
  let m := map_insert "ttl" (vnat (an_ttl f)) m in
  let m := map_insert "timestamp" (VString (an_timestamp f)) m in
  let m := map_insert "heartbeat_interval_ms" (vnat (an_heartbeat_interval_ms f)) m in
  let m := insert_opt "node_type" (VString <$> an_node_type f) m in
  let m := insert_opt "node_roles" (vstrings <$> an_node_roles f) m in
  let m := insert_opt "cluster_anchor" (VString <$> an_cluster_anchor f) m in
  let m := insert_opt "cluster_epoch" (vnat <$> an_cluster_epoch f) m in
  let m := insert_opt "spawn_spec_ref" (VString <$> an_spawn_spec_ref f) m in
  let m := insert_opt "bridge_protocols" (vstrings <$> an_bridge_protocols f) m in
  let m := insert_opt "bridge_inbound_protocols" (vstrings <$> an_bridge_inbound_protocols f) m in
  let m := insert_opt "activation_mode" (VString <$> an_activation_mode f) m in
  let m := insert_opt "activation_endpoint" (VObject <$> an_activation_endpoint f) m in
  let m := insert_opt "graph_seq" (vnat <$> an_graph_seq f) m in
  let sorted := map_collect m in
  map_collect sorted.

Definition AnnounceFrame_to_dict (f : AnnounceFrame) : FrameDict :=
  let m := unsigned_dict f in
  let m := map_insert "signature" (VString (an_signature f)) m in
  let m := insert_opt "node_roles" (vstrings <$> an_node_roles f) m in
  let m := insert_opt "cluster_anchor" (VString <$> an_cluster_anchor f) m in
  let m := insert_opt "cluster_epoch" (vnat <$> an_cluster_epoch f) m in
  let m := insert_opt "spawn_spec_ref" (VString <$> an_spawn_spec_ref f) m in
  let m := insert_opt "bridge_protocols" (vstrings <$> an_bridge_protocols f) m in
  let m := insert_opt "bridge_inbound_protocols" (vstrings <$> an_bridge_inbound_protocols f) m in
  let m := insert_opt "activation_mode" (VString <$> an_activation_mode f) m in
  let m := insert_opt "activation_endpoint" (VObject <$> an_activation_endpoint f) m in
  let m := map_insert "heartbeat_interval_ms" (vnat (an_heartbeat_interval_ms f)) m in
  let m := insert_opt "health" (VString <$> an_health f) m in
  insert_opt "last_seen" (VString <$> an_last_seen f) m.

(** The objects of an array; other values are skipped. *)
Definition objects_of (l : list Value) : list Map := omap as_object l.

Definition AnnounceFrame_from_dict (d : FrameDict) : NpsResult AnnounceFrame :=
  let addresses := default [] (objects_of <$> (map_get "addresses" d ≫= as_array)) in
  let caps_raw := match map_get "capabilities" d with
                  | Some v => Some v | None => map_get "caps" d end in
  let caps := default [] (strings_of <$> (caps_raw ≫= as_array)) in
  nid ← get_str d "nid";
  timestamp ← get_str d "timestamp";
  Ok (mkAnnounce nid addresses caps (default 300 (opt_u64 d "ttl")) timestamp
        (default "" (opt_str d "signature")) (opt_str d "node_type") (opt_strings d "node_roles")
        (opt_str d "cluster_anchor") (opt_u64 d "cluster_epoch") (opt_str d "spawn_spec_ref")
        (opt_strings d "bridge_protocols") (opt_strings d "bridge_inbound_protocols")
        (opt_str d "activation_mode") (map_get "activation_endpoint" d ≫= as_object)
        (default 60000 (opt_u64 d "heartbeat_interval_ms")) (opt_str d "health")
        (opt_str d "last_seen") (opt_u64 d "graph_seq")).

(** ** ResolveFrame *)

Record ResolveFrame : Type := mkResolve {
  rs_target : string;
  rs_requester_nid : option string;
  rs_resolved : option Map
}.

Definition ResolveFrame_to_dict (f : ResolveFrame) : FrameDict :=
  let m := map_insert "target" (VString (rs_target f)) [] in
  let m := insert_opt "requester_nid" (VString <$> rs_requester_nid f) m in
  insert_opt "resolved" (VObject <$> rs_resolved f) m.

Definition ResolveFrame_from_dict (d : FrameDict) : NpsResult ResolveFrame :=
  target ← get_str d "target";
  Ok (mkResolve target (opt_str d "requester_nid") (map_get "resolved" d ≫= as_object)).

(** ** GraphFrame *)

Record GraphNode : Type := mkGraphNode {
  gn_nid : string;
  gn_cluster_anchor : option string;
  gn_node_roles : option (list string)
}.

Record GraphEdge : Type := mkGraphEdge {
  ge_from_nid : string;
  ge_to_nid : string;
  ge_latency_ms : option Z;
  ge_protocol : option string
}.

(** [#[derive(Serialize, Deserialize)]] on the two structs. *)
Class GraphSerde : Type := {
  node_to_value : GraphNode -> Value;
  node_from_value : Value -> option GraphNode;
  edge_to_value : GraphEdge -> Value;
  edge_from_value : Value -> option GraphEdge
}.
Class GraphSerdeLaws `{GraphSerde} : Prop := {
  node_value_roundtrip n : node_from_value (node_to_value n) = Some n;
  edge_value_roundtrip e : edge_from_value (edge_to_value e) = Some e
}.

Record GraphFrame : Type := mkGraph {
  gf_graph_id : string;
  gf_nodes : list GraphNode;
  gf_edges : list GraphEdge;
  gf_ttl : Z;
  gf_metadata : option Map
}.

Definition MAX_GRAPH_NODES : nat := 256.
Definition MAX_GRAPH_EDGES : nat := 1024.
Definition GRAPH_INVALID : string := "NDP-GRAPH-INVALID".
Definition GRAPH_TOO_LARGE : string := "NDP-GRAPH-TOO-LARGE".

Definition graph_error {A} (message : string) : NpsResult A :=
  Err (Frame (GRAPH_INVALID +:+ ": " +:+ message)).

Fixpoint check_nodes (node_ids : gset string) (nodes : list GraphNode) : NpsResult (gset string) :=
  match nodes with
  | [] => Ok node_ids
  | node :: rest =>
    if is_empty (gn_nid node) then graph_error "graph nodes require nid"
    else check_nodes ({[gn_nid node]} ∪ node_ids) rest
  end.

Fixpoint check_edges (node_ids : gset string) (edges : list GraphEdge) : NpsResult unit :=
  match edges with
  | [] => Ok tt
  | edge :: rest =>
    if is_empty (ge_from_nid edge) || is_empty (ge_to_nid edge)
    then graph_error "graph edges require from_nid and to_nid"
    else if String.eqb (ge_from_nid edge) (ge_to_nid edge)
    then graph_error "graph self-edges are forbidden"
    else if negb (bool_decide (ge_from_nid edge ∈ node_ids))
            || negb (bool_decide (ge_to_nid edge ∈ node_ids))
    then graph_error "graph edge endpoints must appear in nodes"
    else check_edges node_ids rest
  end.

Definition graph_validate (g : GraphFrame) : NpsResult unit :=
  if (MAX_GRAPH_NODES <? length (gf_nodes g))%nat
  then Err (Frame (GRAPH_TOO_LARGE +:+ ": nodes length exceeds "
                   +:+ fmt_Z (Z.of_nat MAX_GRAPH_NODES)))
  else if (MAX_GRAPH_EDGES <? length (gf_edges g))%nat
  then Err (Frame (GRAPH_TOO_LARGE +:+ ": edges length exceeds "
                   +:+ fmt_Z (Z.of_nat MAX_GRAPH_EDGES)))
  else
    node_ids ← check_nodes ∅ (gf_nodes g);
    check_edges node_ids (gf_edges g).

Section graph.
Context `{GraphSerde}.

Definition nodes_of (l : list Value) : list GraphNode := omap node_from_value l.
Definition edges_of (l : list Value) : list GraphEdge := omap edge_from_value l.

Definition GraphFrame_to_dict (g : GraphFrame) : FrameDict :=
  let m := map_insert "graph_id" (VString (gf_graph_id g)) [] in
  let m := map_insert "nodes" (VArray (map node_to_value (gf_nodes g))) m in
  let m := map_insert "edges" (VArray (map edge_to_value (gf_edges g))) m in
  let m := map_insert "ttl" (vnat (gf_ttl g)) m in
  insert_opt "metadata" (VObject <$> gf_metadata g) m.

Definition GraphFrame_from_dict (d : FrameDict) : NpsResult GraphFrame :=
  let nodes := default [] (nodes_of <$> (map_get "nodes" d ≫= as_array)) in
  let edges := default [] (edges_of <$> (map_get "edges" d ≫= as_array)) in
  let frame := mkGraph (default "" (opt_str d "graph_id")) nodes edges
                 (wrap_u32 (default 300 (opt_u64 d "ttl")))
                 (map_get "metadata" d ≫= as_object) in
  _ ← graph_validate frame;
  Ok frame.
End graph.

(** ** Lemmas *)

Lemma objects_back (l : list Map) : objects_of (map VObject l) = l.
Proof. unfold objects_of. induction l; cbn; [done | by f_equal]. Qed.

Lemma opt_object_back (o : option Map) : (VObject <$> o) ≫= as_object = o.
Proof. by destruct o. Qed.

Lemma omap_back {A B} (f : A -> option B) (g : B -> A) l :
  (forall b, f (g b) = Some b) -> omap f (map g l) = l.
Proof. intros Hfg. induction l as [|b l IH]; cbn; [done |]. by rewrite Hfg, IH. Qed.

(** The signed entries, as a chain of insertions. *)
Definition signed_entries (f : AnnounceFrame) : list (string * option Value) :=
  [("nid", Some (VString (an_nid f)));
   ("addresses", Some (VArray (map VObject (an_addresses f))));
   ("capabilities", Some (vstrings (an_caps f))); ("ttl", Some (vnat (an_ttl f)));
   ("timestamp", Some (VString (an_timestamp f)));
   ("heartbeat_interval_ms", Some (vnat (an_heartbeat_interval_ms f)));
   ("node_type", VString <$> an_node_type f); ("node_roles", vstrings <$> an_node_roles f);
   ("cluster_anchor", VString <$> an_cluster_anchor f);
   ("cluster_epoch", vnat <$> an_cluster_epoch f);
   ("spawn_spec_ref", VString <$> an_spawn_spec_ref f);
   ("bridge_protocols", vstrings <$> an_bridge_protocols f);
   ("bridge_inbound_protocols", vstrings <$> an_bridge_inbound_protocols f);
   ("activation_mode", VString <$> an_activation_mode f);
   ("activation_endpoint", VObject <$> an_activation_endpoint f);
   ("graph_seq", vnat <$> an_graph_seq f)].

Lemma unsigned_dict_entries f : unsigned_dict f = dict_of (signed_entries f).
Proof.
  change (unsigned_dict f) with (map_collect (map_collect (dict_of (signed_entries f)))).
  by rewrite !map_collect_sorted by auto using dict_of_keys_sorted, map_collect_keys_sorted.
Qed.

Definition wire_entries (f : AnnounceFrame) : list (string * option Value) :=
  signed_entries f ++
  [("signature", Some (VString (an_signature f))); ("node_roles", vstrings <$> an_node_roles f);
   ("cluster_anchor", VString <$> an_cluster_anchor f);
   ("cluster_epoch", vnat <$> an_cluster_epoch f);
   ("spawn_spec_ref", VString <$> an_spawn_spec_ref f);
   ("bridge_protocols", vstrings <$> an_bridge_protocols f);
   ("bridge_inbound_protocols", vstrings <$> an_bridge_inbound_protocols f);
   ("activation_mode", VString <$> an_activation_mode f);
   ("activation_endpoint", VObject <$> an_activation_endpoint f);
   ("heartbeat_interval_ms", Some (vnat (an_heartbeat_interval_ms f)));
   ("health", VString <$> an_health f); ("last_seen", VString <$> an_last_seen f)].

Lemma to_dict_entries f : AnnounceFrame_to_dict f = dict_of (wire_entries f).
Proof.
  unfold AnnounceFrame_to_dict. rewrite unsigned_dict_entries.
  unfold wire_entries, dict_of. by rewrite fold_left_app.
Qed.

(** The frame as its signature covers it: without signature and liveness. *)
Definition signed_part (f : AnnounceFrame) : AnnounceFrame :=
  mkAnnounce (an_nid f) (an_addresses f) (an_caps f) (an_ttl f) (an_timestamp f) ""
    (an_node_type f) (an_node_roles f) (an_cluster_anchor f) (an_cluster_epoch f)
    (an_spawn_spec_ref f) (an_bridge_protocols f) (an_bridge_inbound_protocols f)
    (an_activation_mode f) (an_activation_endpoint f) (an_heartbeat_interval_ms f) None None
    (an_graph_seq f).

Lemma or_self {A} (o : option A) : match o with Some v => Some v | None => o end = o.
Proof. by destruct o. Qed.

(** Reading a chain of insertions of literal keys, some of them repeated. *)
Local Ltac read_entries :=
  unfold get_str, opt_str, opt_u64, opt_bool, opt_strings, wire_entries, signed_entries;
  cbn [app]; get_literal;
  rewrite ?or_self, ?opt_str_back, ?opt_u64_back, ?opt_object_back, ?opt_strings_back;
  unfold vstrings, vnat;
  cbn [mbind option_bind as_str as_array as_object as_bool as_u64 number_as_u64 fmap option_fmap
       option_map default ok_or result_bind];
  rewrite ?strings_of_map, ?objects_back.

Lemma announce_from_signed f : AnnounceFrame_from_dict (unsigned_dict f) = Ok (signed_part f).
Proof. unfold AnnounceFrame_from_dict. rewrite unsigned_dict_entries. by read_entries. Qed.

Lemma announce_from_wire f : AnnounceFrame_from_dict (AnnounceFrame_to_dict f) = Ok f.
Proof.
  unfold AnnounceFrame_from_dict. rewrite to_dict_entries. read_entries. by destruct f.
Qed.

Lemma ResolveFrame_roundtrip f : ResolveFrame_from_dict (ResolveFrame_to_dict f) = Ok f.
Proof.
  unfold ResolveFrame_from_dict. change (ResolveFrame_to_dict f) with (dict_of
    [("target", Some (VString (rs_target f))); ("requester_nid", VString <$> rs_requester_nid f);
     ("resolved", VObject <$> rs_resolved f)]).
  read_entries. by destruct f.
Qed.

(** An Announce frame survives its dictionary, and its signed form covers
    exactly what it should: it is the same for two frames if and only if they
    agree on everything but the signature and the liveness fields [health] and
    [last_seen], and reading it back gives all of that. A Resolve frame
    survives its dictionary too. *)
Theorem announce_signed_form :
  (forall f, AnnounceFrame_from_dict (AnnounceFrame_to_dict f) = Ok f) /\
  (forall f, AnnounceFrame_from_dict (unsigned_dict f) = Ok (signed_part f)) /\
  (forall f g, unsigned_dict f = unsigned_dict g <-> signed_part f = signed_part g) /\
  (forall f, ResolveFrame_from_dict (ResolveFrame_to_dict f) = Ok f).
Proof.
  split; [exact announce_from_wire |]. split; [exact announce_from_signed |].
  split; [|exact ResolveFrame_roundtrip]. intros f g. split; intros E.
  - pose proof (announce_from_signed f) as H. rewrite E, announce_from_signed in H. congruence.
  - rewrite !unsigned_dict_entries. change (signed_entries f) with (signed_entries (signed_part f)).
    by rewrite E.
Qed.

(** *** Graphs *)

(** What an accepted graph satisfies. *)
Record graph_ok (g : GraphFrame) : Prop := {
  go_nodes : (length (gf_nodes g) <= 256)%nat;
  go_edges : (length (gf_edges g) <= 1024)%nat;
  go_nids : Forall (fun n => gn_nid n <> "") (gf_nodes g);
  go_ends : Forall (fun e => ge_from_nid e <> ge_to_nid e /\
              In (ge_from_nid e) (map gn_nid (gf_nodes g)) /\
              In (ge_to_nid e) (map gn_nid (gf_nodes g))) (gf_edges g)
}.

Lemma is_empty_spec s : is_empty s = true <-> s = "".
Proof. destruct s; cbn; split; congruence. Qed.

Lemma check_nodes_Ok ids nodes ids' :
  check_nodes ids nodes = Ok ids' <->
  Forall (fun n => gn_nid n <> "") nodes /\ ids' = list_to_set (map gn_nid nodes) ∪ ids.
Proof.
  revert ids; induction nodes as [|n nodes IH]; intros ids; cbn.
  - split; [intros [= ->]; split; [done | set_solver] | intros [_ ->]; f_equal; set_solver].
  - destruct (is_empty (gn_nid n)) eqn:E.
    + apply is_empty_spec in E. split; [done |]. intros [H _]. by inversion H.
    + rewrite IH, Forall_cons. assert (gn_nid n <> "") by (intros X; by apply is_empty_spec in X; congruence).
      split; [intros [H1 ->] | intros [[_ H1] ->]]; repeat split; try done; set_solver.
Qed.

Lemma check_edges_Ok ids edges :
  "" ∉ ids ->
  check_edges ids edges = Ok tt <->
  Forall (fun e => ge_from_nid e <> ge_to_nid e /\ ge_from_nid e ∈ ids /\ ge_to_nid e ∈ ids) edges.
Proof.
  intros Hne. induction edges as [|e edges IH]; cbn; [by split |]. rewrite Forall_cons, <-IH.
  destruct (is_empty (ge_from_nid e)) eqn:E1; [|destruct (is_empty (ge_to_nid e)) eqn:E2]; cbn.
  - apply is_empty_spec in E1. rewrite E1. split; [done | naive_solver].
  - apply is_empty_spec in E2. rewrite E2. split; [done | naive_solver].
  - destruct (String.eqb_spec (ge_from_nid e) (ge_to_nid e)); [by split; [|naive_solver] |].
    case_bool_decide; [|by split; [|naive_solver]].
    case_bool_decide; [cbn; naive_solver | by split; [|naive_solver]].
Qed.

Lemma graph_validate_Ok g : graph_validate g = Ok tt <-> graph_ok g.
Proof.
  unfold graph_validate, MAX_GRAPH_NODES, MAX_GRAPH_EDGES.
  destruct (Nat.ltb_spec 256 (length (gf_nodes g))); [split; [done | intros []; lia] |].
  destruct (Nat.ltb_spec 1024 (length (gf_edges g))); [split; [done | intros []; lia] |].
  rewrite result_bind_Ok.
  assert (Hin : forall s, s ∈ (list_to_set (map gn_nid (gf_nodes g)) ∪ ∅ : gset string)
                          <-> In s (map gn_nid (gf_nodes g))).
  { intros s. rewrite <-list_elem_of_In. set_solver. }
  assert (Hne : Forall (fun n => gn_nid n <> "") (gf_nodes g) ->
    "" ∉ (list_to_set (map gn_nid (gf_nodes g)) ∪ ∅ : gset string)).
  { rewrite Hin, in_map_iff, Forall_forall. intros Hf (n & Hn & Hi).
    by apply (Hf n (proj2 (list_elem_of_In _ _) Hi)). }
  split.
  - intros (ids & [Hn ->]%check_nodes_Ok & He). apply check_edges_Ok in He; [|by apply Hne].
    split; [lia | lia | done |]. eapply Forall_impl; [exact He |]. intros e. cbn. by rewrite !Hin.
  - intros [_ _ Hn He]. eexists. split; [by apply check_nodes_Ok |].
    apply check_edges_Ok; [by apply Hne |]. eapply Forall_impl; [exact He |].
    intros e. cbn. by rewrite !Hin.
Qed.

Section graph_theorem.
Context `{GraphSerdeLaws}.

(** C40: graph frames are validated on receipt: whatever the dictionary, a
    decoded graph has at most 256 nodes and 1024 edges, no blank node, no
    self-edge and no dangling edge; conversely every such graph with a 32-bit
    ttl survives its dictionary, and any other is refused. *)
Theorem graph_frame_validated :
  (forall d g, GraphFrame_from_dict d = Ok g -> graph_ok g) /\
  (forall g, 0 <= gf_ttl g < 2 ^ 32 ->
     (graph_ok g -> GraphFrame_from_dict (GraphFrame_to_dict g) = Ok g) /\
     (~ graph_ok g -> exists e, GraphFrame_from_dict (GraphFrame_to_dict g) = Err e)).
Proof.
  split.
  - intros d g. unfold GraphFrame_from_dict. rewrite result_bind_Ok.
    intros ([] & Hv & [= <-]). by apply graph_validate_Ok.
  - intros g Httl.
    assert (E : GraphFrame_from_dict (GraphFrame_to_dict g) = (_ ← graph_validate g; Ok g)).
    { unfold GraphFrame_from_dict. change (GraphFrame_to_dict g) with (dict_of
        [("graph_id", Some (VString (gf_graph_id g)));
         ("nodes", Some (VArray (map node_to_value (gf_nodes g))));
         ("edges", Some (VArray (map edge_to_value (gf_edges g))));
         ("ttl", Some (vnat (gf_ttl g))); ("metadata", VObject <$> gf_metadata g)]).
      read_entries. unfold nodes_of, edges_of.
      rewrite (omap_back _ _ _ node_value_roundtrip), (omap_back _ _ _ edge_value_roundtrip).
      unfold wrap_u32, id. rewrite Z.mod_small by lia. by destruct g. }
    rewrite E. split.
    + intros ->%graph_validate_Ok. done.
    + intros Hn. destruct (graph_validate g) as [[]|e] eqn:Ev; [|by exists e].
      by apply graph_validate_Ok in Ev.
Qed.
End graph_theorem.

(** ** Witness *)

(** A concrete serde for the witness: the derived object form. *)
Definition object_serde : GraphSerde := {|
  node_to_value n := VObject (dict_of
    [("nid", Some (VString (gn_nid n))); ("cluster_anchor", VString <$> gn_cluster_anchor n);
     ("node_roles", vstrings <$> gn_node_roles n)]);
  node_from_value v :=
    m ← as_object v; nid ← opt_str m "nid";
    Some (mkGraphNode nid (opt_str m "cluster_anchor") (opt_strings m "node_roles"));
  edge_to_value e := VObject (dict_of
    [("from_nid", Some (VString (ge_from_nid e))); ("to_nid", Some (VString (ge_to_nid e)));
     ("latency_ms", vnat <$> ge_latency_ms e); ("protocol", VString <$> ge_protocol e)]);
  edge_from_value v :=
    m ← as_object v; a ← opt_str m "from_nid"; b ← opt_str m "to_nid";
    Some (mkGraphEdge a b (opt_u64 m "latency_ms") (opt_str m "protocol"))
|}.

Lemma object_serde_laws : @GraphSerdeLaws object_serde.
Proof.
  split.
  - intros n. cbn [node_to_value node_from_value object_serde mbind option_bind as_object].
    read_entries. by destruct n.
  - intros e. cbn [edge_to_value edge_from_value object_serde mbind option_bind as_object].
    read_entries. by destruct e.
Qed.

Definition two_nodes : GraphFrame :=
  mkGraph "g" [mkGraphNode "a" None None; mkGraphNode "b" (Some "c") (Some ["anchor"])]
    [mkGraphEdge "a" "b" (Some 5) None] 300 None.

Lemma graph_frame_validated_witness :
  @GraphFrame_from_dict object_serde (@GraphFrame_to_dict object_serde two_nodes) = Ok two_nodes.
Proof.
  destruct (@graph_frame_validated object_serde object_serde_laws) as [_ H].
  refine (proj1 (H two_nodes _) _); [cbn; lia |].
  split; cbn; [lia | lia | by repeat (apply Forall_cons; split) |].
  apply Forall_singleton. cbn. by auto.
Defined.
