(* ===== verification/NdpRegistry.v ===== *)
(** * NdpRegistry: the in-memory registry and cluster resolution

    Models nps-ndp/src/registry.rs with its helpers dns_txt.rs and
    federation.rs.  Time is in nanoseconds, as in Prelude.  A [HashMap] is
    iterated in an order of its own, the parameter [hash_values]; the trait
    [NdpClusterResolution] is a class, and the highest-epoch rule is defined
    and specified once, against it. *)

From S2P Require Import Prelude RustStr Floats Json CoreFrames NcpFrames ErrorCodes NdpFrames.
Local Open Scope Z_scope.

(** [HashMap::values]. *)
Class HashOrder : Type := { hash_values : forall {A}, gmap string A -> list A }.
Class HashOrderLaws `{HashOrder} : Prop := {
  hash_values_perm A (m : gmap string A) : hash_values m ≡ₚ map snd (map_to_list m)
}.

(** ** Cluster resolution *)

Definition CLUSTER_SPLIT : string := "NDP-CLUSTER-SPLIT".

Record NdpClusterSplitError : Type := mkSplit { sp_cluster_anchor : string; sp_epoch : Z }.

Definition split_error_code (_ : NdpClusterSplitError) : string := CLUSTER_SPLIT.
Definition split_nps_status (_ : NdpClusterSplitError) : string := ndp_to_nps_status CLUSTER_SPLIT.

(** The trait: an implementor supplies its live announcements. *)
Class NdpClusterResolution (R : Type) : Type := { live_frames : R -> list AnnounceFrame }.

(** [iter().max()]. *)
Definition max_of (l : list Z) : option Z :=
  fold_right (fun x m => Some (match m with Some y => Z.max x y | None => x end)) None l.

Definition advertises (cluster_anchor : string) (f : AnnounceFrame) : bool :=
  bool_decide (an_cluster_anchor f = Some cluster_anchor).

Definition select_leader (cluster_anchor : string) (live : list AnnounceFrame)
    : result NdpClusterSplitError (option AnnounceFrame) :=
  if is_empty cluster_anchor then Ok None
  else
    let members := List.filter (advertises cluster_anchor) live in
    match members with
    | [] => Ok None
    | _ =>
      let top := default DEFAULT_CLUSTER_EPOCH (max_of (map effective_cluster_epoch members)) in
      let leaders := List.filter (fun f => effective_cluster_epoch f =? top) members in
      if (1 <? length leaders)%nat then Err (mkSplit cluster_anchor top)
      else Ok (head leaders)
    end.

(** The trait's default method. *)
Definition resolve_cluster {R} `{NdpClusterResolution R} (r : R) (cluster_anchor : string)
    : result NdpClusterSplitError (option AnnounceFrame) :=
  select_leader cluster_anchor (live_frames r).

(** ** The registry *)

Record ResolveResult : Type := mkResolveResult { rr_host : string; rr_port : Z; rr_protocol : string }.

Record RegEntry : Type := mkEntry { re_frame : AnnounceFrame; re_expires : Z }.

Abbreviation NdpStore := (gmap string RegEntry).

(** [None] is the panic of the deadline overflow. *)
Definition announce (now : Z) (store : NdpStore) (frame : AnnounceFrame) : option NdpStore :=
  if an_ttl frame =? 0 then Some (delete (an_nid frame) store)
  else
    expires ← instant_add_secs now (an_ttl frame);
    Some (<[an_nid frame := mkEntry frame expires]> store).

Definition get_by_nid (now : Z) (store : NdpStore) (nid : string) : option AnnounceFrame :=
  match store !! nid with
  | Some e => if now <? re_expires e then Some (re_frame e) else None
  | None => None
  end.

(** [str::find('/')], as the two parts around the first slash. *)
Definition split_slash (s : string) : option (string * string) := split_once "/"%char s.

Definition nwp_target_matches_nid (nid target : string) : bool :=
  match split_on ":"%char nid with
  | p0 :: p1 :: p2 :: nid_host :: ((_ :: _) as segments) =>
    if negb (String.eqb p0 "urn") || negb (String.eqb p1 "nps") || negb (String.eqb p2 "node")
    then false
    else
      let nid_path := join "/" segments in
      match strip_prefix "nwp://" target with
      | None => false
      | Some rest =>
        match split_slash rest with
        | None => false
        | Some (authority, path) =>
          if negb (String.eqb authority nid_host) then false
          else String.eqb path nid_path || starts_with (nid_path +:+ "/") path
        end
      end
  | _ => false
  end.

Definition address_result (addr : Map) : ResolveResult :=
  mkResolveResult (default "" (map_get "host" addr ≫= as_str))
    (default 17433 (map_get "port" addr ≫= as_u64))
    (default "nwp" (map_get "protocol" addr ≫= as_str)).

(** ** DNS *)

Definition extract_host_from_target (target : string) : option string :=
  rest ← strip_prefix "nwp://" target;
  fst <$> split_slash rest.

(** The fields read from the tokens of a record: version, nid, port. *)
Definition txt_token (acc : option string * option string * Z) (token : string)
    : option string * option string * Z :=
  let '(version, nid, port) := acc in
  match split_once "="%char token with
  | None => acc
  | Some (key, value) =>
    if String.eqb key "v" then (Some value, nid, port)
    else if String.eqb key "nid" then (version, Some value, port)
    else if String.eqb key "port" then (version, nid, default port (parse_u64 value))
    else acc
  end.

Definition parse_nps_txt_record (txt host : string) : option ResolveResult :=
  let '(version, nid, port) := fold_left txt_token (split_whitespace txt) (None, None, 17433) in
  v ← version;
  if negb (String.eqb v "nps1") then None
  else
    _ ← nid;
    Some (mkResolveResult host port "https").

Section registry.
Context `{HashOrder}.

Definition live_entries (now : Z) (store : NdpStore) : list RegEntry :=
  List.filter (fun e => now <? re_expires e) (hash_values store).

Definition get_all (now : Z) (store : NdpStore) : list AnnounceFrame :=
  map re_frame (live_entries now store).

Definition resolve (now : Z) (store : NdpStore) (target : string) : option ResolveResult :=
  e ← find (fun e => nwp_target_matches_nid (an_nid (re_frame e)) target) (live_entries now store);
  addr ← head (an_addresses (re_frame e));
  Some (address_result addr).

(** [lookup] is the injected resolver. *)
Definition resolve_via_dns (lookup : string -> result string (list string)) (now : Z)
    (store : NdpStore) (target : string) : option ResolveResult :=
  match resolve now store target with
  | Some r => Some r
  | None =>
    host ← extract_host_from_target target;
    match lookup ("_nps-node." +:+ host) with
    | Err _ => None
    | Ok records => head (omap (fun r => parse_nps_txt_record r host) records)
    end
  end.

(** The registry at an instant of its clock. *)
Record InMemoryNdpRegistry : Type := mkRegistry { reg_store : NdpStore; reg_clock : Z }.

#[export] Instance in_memory_resolution : NdpClusterResolution InMemoryNdpRegistry :=
  {| live_frames r := get_all (reg_clock r) (reg_store r) |}.
End registry.

(** ** Federation *)

Definition MAX_FEDERATION_HOPS : nat := 3.
Definition FEDERATION_LOOP : string := "NDP-FEDERATION-LOOP".

Definition parse_forwarded_by (header : option string) : list string :=
  List.filter (fun hop => negb (is_empty hop)) (map trim (split_on ","%char (default "" header))).

Definition append_forwarded_by (own_nid : string) (header : option string)
    : NpsResult (option string) :=
  let hops := parse_forwarded_by header in
  if existsb (fun hop => String.eqb hop own_nid) hops
  then Err (Frame (FEDERATION_LOOP +:+ ": own NID already appears in ndp-forwarded-by"))
  else if (MAX_FEDERATION_HOPS <=? length hops)%nat then Ok None
  else Ok (Some (join ", " (hops ++ [own_nid]))).

(** ** Lemmas: the highest epoch *)

Lemma max_of_spec l : l <> [] ->
  exists m, max_of l = Some m /\ In m l /\ Forall (fun x => x <= m) l.
Proof.
  induction l as [|x l IH]; [done |]. intros _. destruct l as [|y l].
  - exists x. repeat split; [by left | by apply Forall_singleton].
  - destruct IH as (m & Hm & Hin & Hall); [done |]. exists (Z.max x m).
    change (max_of (x :: y :: l)) with
      (Some (match max_of (y :: l) with Some m => Z.max x m | None => x end)).
    rewrite Hm. split; [done |]. split.
    + destruct (Z.max_spec x m) as [[_ ->]|[_ ->]]; [by right | by left].
    + constructor; [lia |]. eapply Forall_impl; [exact Hall | cbn; lia].
Qed.

Lemma filter_perm {A} (p : A -> bool) (l l' : list A) :
  l ≡ₚ l' -> List.filter p l ≡ₚ List.filter p l'.
Proof.
  induction 1 as [|x l l' H IH|x y l|l1 l2 l3 H1 IH1 H2 IH2]; cbn.
  - done.
  - destruct (p x); by rewrite IH.
  - destruct (p x), (p y); try done. constructor.
  - by rewrite IH1.
Qed.

#[local] Instance filter_proper {A} (p : A -> bool) : Proper ((≡ₚ) ==> (≡ₚ)) (List.filter p).
Proof. intros l l'. apply filter_perm. Qed.
#[local] Instance map_proper {A B} (g : A -> B) : Proper ((≡ₚ) ==> (≡ₚ)) (map g).
Proof. intros l l'. apply Permutation_map. Qed.

(** What an election among [members] must answer. *)
Definition election (c : string) (members : list AnnounceFrame)
    (answer : result NdpClusterSplitError (option AnnounceFrame)) : Prop :=
  match answer with
  | Ok None => members = []
  | Ok (Some f) => exists l, members ≡ₚ f :: l /\
      Forall (fun g => effective_cluster_epoch g < effective_cluster_epoch f) l
  | Err e => exists f g l, members ≡ₚ f :: g :: l /\ e = mkSplit c (effective_cluster_epoch f) /\
      effective_cluster_epoch g = effective_cluster_epoch f /\
      Forall (fun h => effective_cluster_epoch h <= effective_cluster_epoch f) l
  end.

Lemma filter_split {A} (p : A -> bool) (l : list A) :
  l ≡ₚ List.filter p l ++ List.filter (fun x => negb (p x)) l.
Proof.
  induction l as [|x l IH]; cbn; [done |].
  destruct (p x); cbn; rewrite IH at 1; [done |]. by rewrite Permutation_middle.
Qed.

Lemma filter_Forall {A} (p : A -> bool) (P : A -> Prop) l :
  (forall x, In x l -> p x = true -> P x) -> Forall P (List.filter p l).
Proof.
  intros H. apply Forall_forall. intros x Hx%list_elem_of_In.
  apply filter_In in Hx as [Hx Hp]. auto.
Qed.

Lemma select_leader_election c live : c <> "" ->
  election c (List.filter (advertises c) live) (select_leader c live).
Proof.
  intros Hc. unfold select_leader.
  replace (is_empty c) with false by (symmetry; by destruct c).
  set (members := List.filter (advertises c) live).
  destruct (list_eq_nil_dec members) as [->|Hne]; [done |].
  destruct (max_of_spec (map effective_cluster_epoch members)) as (top & Ht & Hin & Hmax).
  { by destruct members. }
  rewrite Ht. cbn [default]. unfold id.
  set (p := fun f => effective_cluster_epoch f =? top).
  pose proof (filter_split p members) as Hsplit.
  apply in_map_iff in Hin as (m & Hm & Hinm). rewrite Forall_forall in Hmax.
  assert (Hrest : Forall (fun g => effective_cluster_epoch g < top)
                    (List.filter (fun f => negb (p f)) members)).
  { apply filter_Forall. intros g Hg Hp%negb_true_iff%Z.eqb_neq.
    enough (effective_cluster_epoch g <= top) by lia. by apply Hmax, list_elem_of_In, in_map. }
  assert (Htop : Forall (fun g => effective_cluster_epoch g = top) (List.filter p members)).
  { apply filter_Forall. by intros g _ Hp%Z.eqb_eq. }
  assert (Hml : In m (List.filter p members)) by (apply filter_In; split; [done | by apply Z.eqb_eq]).
  assert (Hgoal : election c members (if (1 <? length (List.filter p members))%nat
     then Err (mkSplit c top) else Ok (head (List.filter p members)))); [|by destruct members].
  destruct (List.filter p members) as [|f [|g l]]; [destruct Hml | |]; cbn.
  - inversion_clear Htop as [|? ? Hf _]. eexists. split; [exact Hsplit |]. by rewrite Hf.
  - inversion_clear Htop as [|? ? Hf Htop']. inversion_clear Htop' as [|? ? Hg Hl].
    exists f, g, (l ++ List.filter (fun f => negb (p f)) members). rewrite Hf, Hg.
    repeat split; [done |]. apply Forall_app.
    split; (eapply Forall_impl; [eassumption | cbn; lia]).
Qed.

(** An element of one listing is in the other. *)
Lemma perm_head {A} (x : A) l l' : x :: l ≡ₚ l' -> In x l'.
Proof. intros H. apply list_elem_of_In. rewrite <-H. by left. Qed.

Lemma election_perm c ms ms' o : ms ≡ₚ ms' -> election c ms o -> election c ms' o.
Proof.
  intros Hp. destruct o as [[f|]|e]; cbn.
  - intros (l & H & ?). exists l. by rewrite <-Hp.
  - intros ->. by apply Permutation_nil.
  - intros (f & g & l & H & ?). exists f, g, l. by rewrite <-Hp.
Qed.

Lemma election_one_split c ms f e : election c ms (Ok (Some f)) -> election c ms (Err e) -> False.
Proof.
  intros (l & Hl & Hlt) (f1 & g & l1 & H1 & _ & Hg & Hle). rewrite H1 in Hl.
  rewrite Forall_forall in Hlt, Hle.
  assert (Hf : effective_cluster_epoch f <= effective_cluster_epoch f1).
  { pose proof (perm_head _ _ _ (symmetry Hl)) as [->|[->|H]]; [lia | lia |].
    by apply Hle, list_elem_of_In. }
  pose proof (perm_head _ _ _ Hl) as [<-|H].
  - apply Permutation_cons_inv in Hl. apply perm_head in Hl.
    apply list_elem_of_In in Hl. specialize (Hlt _ Hl). lia.
  - apply list_elem_of_In in H. specialize (Hlt _ H). lia.
Qed.

(** The answer of an election is determined. *)
Lemma election_det c ms o o' : election c ms o -> election c ms o' -> o = o'.
Proof.
  destruct o as [[f|]|e], o' as [[f'|]|e']; intros H H'; try done.
  - destruct H as (l & Hl & Hlt), H' as (l' & Hl' & Hlt'). rewrite Hl in Hl'.
    rewrite Forall_forall in Hlt, Hlt'.
    pose proof (perm_head _ _ _ Hl') as [->|H1%list_elem_of_In]; [done |].
    pose proof (perm_head _ _ _ (symmetry Hl')) as [->|H2%list_elem_of_In]; [done |].
    specialize (Hlt _ H2). specialize (Hlt' _ H1). lia.
  - destruct H as (l & Hl & _). cbn in H'. subst. by apply Permutation_nil in Hl.
  - by destruct (election_one_split c ms f e').
  - destruct H' as (l & Hl & _). cbn in H. subst. by apply Permutation_nil in Hl.
  - destruct H' as (f & g & l & Hl & _). cbn in H. subst. by apply Permutation_nil in Hl.
  - by destruct (election_one_split c ms f' e).
  - destruct H as (f & g & l & Hl & _). cbn in H'. subst. by apply Permutation_nil in Hl.
  - destruct H as (f & g & l & Hl & -> & Hg & Hle), H' as (f' & g' & l' & Hl' & -> & Hg' & Hle').
    rewrite Hl in Hl'. rewrite Forall_forall in Hle, Hle'.
    assert (effective_cluster_epoch f <= effective_cluster_epoch f').
    { pose proof (perm_head _ _ _ Hl') as [->|[->|H%list_elem_of_In]]; [lia | lia | auto]. }
    assert (effective_cluster_epoch f' <= effective_cluster_epoch f).
    { pose proof (perm_head _ _ _ (symmetry Hl')) as [->|[->|H'%list_elem_of_In]]; [lia | lia | auto]. }
    do 2 f_equal. lia.
Qed.

(** ** Theorems *)

(** Resolving a cluster is an election among its live members, whatever
    the order the registry lists them in: nothing when there is none, the one
    member of highest epoch when exactly one has it, and otherwise a split
    error naming the cluster and that epoch; an absent epoch counts as 1, and
    a blank cluster never resolves. Every implementation of the trait inherits
    this. *)
Theorem resolve_cluster_spec {R} `{NdpClusterResolution R} (r : R) c :
  (c = "" -> resolve_cluster r c = Ok None) /\
  (c <> "" -> forall live answer, live ≡ₚ live_frames r ->
     (resolve_cluster r c = answer <-> election c (List.filter (advertises c) live) answer)).
Proof.
  split; [by intros -> |]. intros Hc live answer Hp.
  pose proof (select_leader_election c (live_frames r) Hc) as He.
  apply (filter_perm (advertises c)) in Hp. split.
  - intros <-. by eapply election_perm, He.
  - intros Ha. eapply election_det; [exact He |]. by eapply election_perm, Ha.
Qed.

Section registry_theorems.
Context `{HashOrderLaws}.

Lemma live_after_announce now store f store' t :
  announce now store f = Some store' -> 0 < an_ttl f ->
  t < now + an_ttl f * nanos_per_sec ->
  get_all t store' ≡ₚ
    f :: map re_frame (List.filter (fun e => t <? re_expires e)
                         (map snd (map_to_list (delete (an_nid f) store)))).
Proof.
  unfold announce. intros Ha Httl Ht. destruct (Z.eqb_spec (an_ttl f) 0); [lia |].
  destruct (instant_add_secs now (an_ttl f)) as [ex|] eqn:Ex; [|done].
  apply instant_add_secs_Some in Ex as ->. injection Ha as <-.
  unfold get_all, live_entries. rewrite hash_values_perm.
  rewrite <-insert_delete_eq, map_to_list_insert by apply lookup_delete_eq. cbn.
  by destruct (Z.ltb_spec t (now + an_ttl f * nanos_per_sec)); [|lia].
Qed.

(** Failover through the registry. Announcing a cluster Anchor under an
    epoch strictly above that of every other registered member makes it the
    resolved Anchor at once, and until its announcement expires, whatever else
    lapses meanwhile; and withdrawing an announcement (ttl 0) removes that NID
    and nothing else. *)
Theorem announce_takes_over now store f store' c :
  announce now store f = Some store' ->
  (0 < an_ttl f -> c <> "" -> an_cluster_anchor f = Some c ->
   (forall nid e, store !! nid = Some e -> nid <> an_nid f ->
      an_cluster_anchor (re_frame e) = Some c ->
      effective_cluster_epoch (re_frame e) < effective_cluster_epoch f) ->
   forall t, t < now + an_ttl f * nanos_per_sec ->
     resolve_cluster (mkRegistry store' t) c = Ok (Some f) /\
     get_by_nid t store' (an_nid f) = Some f) /\
  (an_ttl f = 0 -> forall t nid,
     get_by_nid t store' nid = if decide (nid = an_nid f) then None else get_by_nid t store nid).
Proof.
  intros Ha. split.
  - intros Httl Hc Hca Hothers t Ht. split.
    + pose proof (live_after_announce now store f store' t Ha Httl Ht) as Hl.
      apply (filter_perm (advertises c)) in Hl. cbn in Hl.
      unfold advertises at 2 in Hl. rewrite bool_decide_true in Hl by done.
      eapply (election_det c); [by apply select_leader_election |]. cbn.
      eexists. split; [exact Hl |]. apply filter_Forall. intros g Hg Hadv%bool_decide_eq_true.
      apply in_map_iff in Hg as (e & <- & He). apply filter_In in He as [He _].
      apply in_map_iff in He as ([nid e'] & <- & Hin). cbn in *.
      apply list_elem_of_In, elem_of_map_to_list in Hin.
      apply lookup_delete_Some in Hin as [Hne Hs]. by eapply Hothers.
    + unfold announce in Ha. destruct (Z.eqb_spec (an_ttl f) 0); [lia |].
      destruct (instant_add_secs now (an_ttl f)) as [ex|] eqn:Ex; [|done].
      apply instant_add_secs_Some in Ex as ->. injection Ha as <-.
      unfold get_by_nid. rewrite lookup_insert_eq. cbn.
      by destruct (Z.ltb_spec t (now + an_ttl f * nanos_per_sec)); [|lia].
  - intros Httl t nid. unfold announce in Ha. rewrite Httl in Ha. injection Ha as <-.
    unfold get_by_nid. destruct (decide (nid = an_nid f)) as [->|Hne].
    + by rewrite lookup_delete_eq.
    + by rewrite lookup_delete_ne.
Qed.

End registry_theorems.

(** ** Targets *)

Lemma join_app_split (nid : string) l : l <> [] ->
  split_on ":"%char nid = l <-> nid = join ":" l /\ Forall (lacks ":"%char) l.
Proof.
  intros Hne. split.
  - intros <-. split; [by rewrite (join_split_on ":"%char) | apply split_on_lacks].
  - intros [-> Hf]. by rewrite (split_on_join ":"%char).
Qed.

(** The urls a NID serves: its path, or anything below it. *)
Definition serves (nid target : string) : Prop :=
  exists host segments rest, segments <> [] /\
    nid = join ":" ("urn" :: "nps" :: "node" :: host :: segments) /\
    Forall (lacks ":"%char) (host :: segments) /\ lacks "/"%char host /\
    target = "nwp://" +:+ (host +:+ ("/" +:+ (join "/" segments +:+ rest))) /\
    (rest = "" \/ exists sub, rest = "/" +:+ sub).

Lemma app_empty_r (s : string) : s +:+ "" = s.
Proof. induction s as [|a s IH]; [done |]. change (String.String a (s +:+ "") = String.String a s). by rewrite IH. Qed.

Lemma path_below nid_path path :
  String.eqb path nid_path || starts_with (nid_path +:+ "/") path = true <->
  exists rest, path = nid_path +:+ rest /\ (rest = "" \/ exists sub, rest = "/" +:+ sub).
Proof.
  rewrite orb_true_iff, String.eqb_eq, starts_with_spec. split.
  - intros [->|[r ->]]; [exists ""; split; [by rewrite app_empty_r | by left] |].
    exists ("/" +:+ r). rewrite append_assoc. split; [done |]. right. by exists r.
  - intros (rest & -> & [->|[sub ->]]); [left; apply app_empty_r | right].
    exists sub. by rewrite append_assoc.
Qed.

Lemma nwp_target_matches_spec nid target :
  nwp_target_matches_nid nid target = true <-> serves nid target.
Proof.
  unfold nwp_target_matches_nid, serves. split.
  - destruct (split_on ":"%char nid) as [|p0 [|p1 [|p2 [|host [|s0 segs]]]]] eqn:Es; try done.
    apply join_app_split in Es as [Hnid Hf]; [|done].
    destruct (String.eqb_spec p0 "urn") as [->|], (String.eqb_spec p1 "nps") as [->|],
      (String.eqb_spec p2 "node") as [->|]; try done. cbn [negb orb].
    destruct (strip_prefix "nwp://" target) as [rest|] eqn:Et; [|done].
    apply strip_prefix_spec in Et as ->.
    destruct (split_slash rest) as [[authority path]|] eqn:Er; [|done].
    apply split_once_spec in Er as [-> Hl].
    destruct (String.eqb_spec authority host) as [->|]; [|done]. cbn [negb].
    intros (r & -> & Hr)%path_below. exists host, (s0 :: segs), r.
    repeat split; try done. by apply (Forall_app _ ["urn"; "nps"; "node"]) in Hf as [_ ?].
  - intros (host & segs & r & Hne & -> & Hf & Hl & -> & Hr).
    destruct segs as [|s0 segs]; [done |].
    rewrite (proj2 (join_app_split _ ("urn" :: "nps" :: "node" :: host :: s0 :: segs) ltac:(done))).
    2:{ split; [done |]. by repeat (apply Forall_cons; split; [vm_compute; done |]). }
    cbn [negb orb String.eqb Ascii.eqb Bool.eqb].
    rewrite (proj2 (strip_prefix_spec "nwp://" _ _) eq_refl).
    set (path := join "/" (s0 :: segs) +:+ r).
    change (split_slash (host +:+ ("/" +:+ path)))
      with (split_once "/"%char (host +:+ String.String "/"%char path)).
    rewrite (proj2 (split_once_spec _ _ host path) (conj eq_refl Hl)).
    rewrite String.eqb_refl. cbn [negb]. apply path_below. by exists r.
Qed.

Section resolve_theorem.
Context `{HashOrderLaws}.

Lemma live_entries_In now store e :
  In e (live_entries now store) <-> exists nid, store !! nid = Some e /\ now < re_expires e.
Proof.
  unfold live_entries. rewrite filter_In, <-list_elem_of_In, hash_values_perm.
  rewrite list_elem_of_In, in_map_iff. split.
  - intros [([nid e'] & <- & Hin) Hlt]. exists nid. cbn in *.
    apply list_elem_of_In, elem_of_map_to_list in Hin. split; [done | lia].
  - intros (nid & Hs & Hlt). split; [|lia]. exists (nid, e). split; [done |].
    by apply list_elem_of_In, elem_of_map_to_list.
Qed.

(** A resolved target is the first address of a live announcement that
    serves it: the NID's path, or a path below it, on exactly its host - never
    a sibling path or another host. When one live announcement serves the
    target, its first address is the answer, and when none does there is none;
    DNS is asked only when the registry has no answer. *)
Theorem resolve_target_spec now store target lookup :
  let serving e := exists nid, store !! nid = Some e /\ now < re_expires e /\
                     serves (an_nid (re_frame e)) target in
  (forall r, resolve now store target = Some r -> exists e addr, serving e /\
     head (an_addresses (re_frame e)) = Some addr /\ r = address_result addr) /\
  (forall e, serving e -> (forall e', serving e' -> e' = e) ->
     resolve now store target = address_result <$> head (an_addresses (re_frame e))) /\
  ((forall e, ~ serving e) -> resolve now store target = None) /\
  (forall r, resolve now store target = Some r -> resolve_via_dns lookup now store target = Some r).
Proof.
  set (p := fun e => nwp_target_matches_nid (an_nid (re_frame e)) target).
  intros serving.
  assert (Hs : forall e, (In e (live_entries now store) /\ p e = true) <-> serving e).
  { intros e. unfold p. rewrite nwp_target_matches_spec, live_entries_In. unfold serving. naive_solver. }
  unfold resolve_via_dns, resolve. fold p.
  destruct (find p (live_entries now store)) as [e|] eqn:E; cbn.
  - apply find_some, Hs in E. split; [|split; [|split]].
    + intros r. destruct (head _) as [addr|] eqn:Ea; [|done]. intros [= <-]. eauto.
    + intros e' He' Huniq. rewrite <-(Huniq _ E). by destruct (head _).
    + intros Hn. by destruct (Hn e).
    + by intros r ->.
  - split; [done |]. split; [|split; [done | done]].
    intros e He _. apply Hs in He as [Hin Hp]. by rewrite (find_none _ _ E _ Hin) in Hp.
Qed.
End resolve_theorem.

(** ** Federation *)

(** A hop as it travels: trimmed, not blank, without a comma. *)
Definition hop_ok (nid : string) : Prop := nid <> "" /\ trim nid = nid /\ lacks ","%char nid.

Definition header_of (hops : list string) : option string :=
  match hops with [] => None | _ => Some (join ", " hops) end.

Lemma trim_space s : trim (String.String " "%char s) = trim s.
Proof. unfold trim. by rewrite chars_cons. Qed.

Lemma join_comma_space h t : join ", " (h :: t) = join "," (h :: map (fun s => " " +:+ s) t).
Proof.
  revert h. induction t as [|x t IH]; intros h; [done |].
  change (join ", " (h :: x :: t)) with (h +:+ (", " +:+ join ", " (x :: t))).
  rewrite IH. cbn [map]. rewrite join_cons. destruct t; [done |].
  cbn [map]. rewrite !join_cons. by rewrite !append_assoc.
Qed.

Lemma parse_header hops : Forall hop_ok hops -> parse_forwarded_by (header_of hops) = hops.
Proof.
  intros Hh. destruct hops as [|h t]; [done |]. unfold parse_forwarded_by, header_of. cbn [default].
  unfold id. rewrite join_comma_space, (split_on_join ","%char).
  - inversion_clear Hh as [|? ? (Hne & Ht & _) Hh']. cbn [map List.filter]. rewrite Ht.
    replace (is_empty h) with false by (symmetry; by destruct h). cbn. f_equal.
    clear Hne Ht h. induction Hh' as [|y u Hy _ IH]; [done |]. destruct Hy as (Hny & Hy & _).
    cbn [map List.filter]. change (" " +:+ y) with (String.String " "%char y). rewrite trim_space, Hy.
    replace (is_empty y) with false by (symmetry; by destruct y). cbn. by rewrite IH.
  - inversion_clear Hh as [|? ? (_ & _ & Hl) Hh']. constructor; [done |].
    apply Forall_forall. intros s Hs%list_elem_of_In.
    apply in_map_iff in Hs as (y & <- & Hx). rewrite Forall_forall in Hh'.
    apply list_elem_of_In in Hx. destruct (Hh' _ Hx) as (_ & _ & Hl').
    change (" " +:+ y) with (String.String " "%char y). by apply lacks_cons.
  - done.
Qed.

Lemma append_header hops own : Forall hop_ok hops ->
  append_forwarded_by own (header_of hops) =
  if decide (own ∈ hops) then Err (Frame (FEDERATION_LOOP +:+ ": own NID already appears in ndp-forwarded-by"))
  else if (3 <=? length hops)%nat then Ok None else Ok (header_of (hops ++ [own])).
Proof.
  intros Hh. unfold append_forwarded_by. rewrite parse_header by done.
  assert (E : existsb (fun hop => String.eqb hop own) hops = bool_decide (own ∈ hops)).
  { apply eq_true_iff_eq. rewrite existsb_exists, bool_decide_eq_true, list_elem_of_In. split.
    - intros (x & Hx & ->%String.eqb_eq). done.
    - intros Hx. exists own. by rewrite String.eqb_refl. }
  rewrite E. case_bool_decide; [by rewrite decide_True | rewrite decide_False by done].
  unfold MAX_FEDERATION_HOPS. destruct (3 <=? length hops)%nat; [done |]. by destruct hops.
Qed.

(** A query that visits registries in turn, each forwarding it to the next
    with the header it was given; [None] is a registry that stops. *)
Fixpoint route (header : option string) (nids : list string) : NpsResult (option string) :=
  match nids with
  | [] => Ok header
  | own :: rest =>
    next ← append_forwarded_by own header;
    match next with None => Ok None | Some h => route (Some h) rest end
  end.

Lemma route_from hops nids : Forall hop_ok hops -> Forall hop_ok nids -> List.NoDup hops ->
  (length hops <= 3)%nat -> nids <> [] ->
  (forall h, route (header_of hops) nids = Ok (Some h) <->
     List.NoDup (hops ++ nids) /\ (length (hops ++ nids) <= 3)%nat /\
     header_of (hops ++ nids) = Some h).
Proof.
  intros Hh Hn. revert hops Hh. induction Hn as [|own nids Hown Hn IH]; intros hops Hh Hd Hlen Hne h; [done |].
  cbn [route]. rewrite append_header by done.
  destruct (decide (own ∈ hops)) as [Hin|Hin].
  { split; [done |]. intros (Hdup & _). apply NoDup_remove_2 in Hdup. destruct Hdup.
    apply in_or_app. left. by apply list_elem_of_In. }
  destruct (Nat.leb_spec 3 (length hops)); cbn [mbind result_bind].
  { split; [done |]. rewrite length_app. cbn. intros (_ & Hl & _). lia. }
  assert (Hh' : Forall hop_ok (hops ++ [own])) by (apply Forall_app; split; [done | by apply Forall_singleton]).
  assert (Hd' : List.NoDup (hops ++ [own])).
  { apply NoDup_ListNoDup, NoDup_app. split; [by apply NoDup_ListNoDup |].
    split; [by intros x Hx ->%list_elem_of_singleton | apply NoDup_singleton]. }
  assert (E : hops ++ own :: nids = (hops ++ [own]) ++ nids) by by rewrite <-app_assoc.
  rewrite E. cbn. destruct (header_of (hops ++ [own])) as [h'|] eqn:Eh; [|by destruct hops].
  rewrite <-Eh. destruct nids as [|n nids].
  - cbn. rewrite app_nil_r, Eh. rewrite length_app. cbn. naive_solver lia.
  - apply IH; [done | done | rewrite length_app; cbn; lia | done].
Qed.

(** Federation cannot loop. A query is forwarded along a sequence of
    registries exactly when they are at most three and all distinct, and the
    header then lists them in order, whatever the NIDs (trimmed, not blank,
    without comma); a registry that sees itself refuses. *)
Theorem federation_bounded nids :
  Forall hop_ok nids -> nids <> [] ->
  (forall h, route None nids = Ok (Some h) <->
     List.NoDup nids /\ (length nids <= 3)%nat /\ h = join ", " nids) /\
  parse_forwarded_by (Some (join ", " nids)) = nids /\
  (forall own, In own nids -> exists e,
     append_forwarded_by own (Some (join ", " nids)) = Err (Frame e)).
Proof.
  intros Hn Hne.
  assert (Eh : header_of nids = Some (join ", " nids)) by by destruct nids.
  split; [|split].
  - intros h. rewrite (route_from [] nids); [| done | done | constructor | cbn; lia | done].
    cbn [app]. rewrite Eh. naive_solver.
  - rewrite <-Eh. by apply parse_header.
  - intros own Hin. rewrite <-Eh, append_header by done. rewrite decide_True by (by apply list_elem_of_In). by eexists.
Qed.

(** ** Witnesses *)

(** A hash order for the witnesses: the map's own enumeration. *)
Definition map_order : HashOrder := {| hash_values A m := map snd (map_to_list m) |}.
Lemma map_order_laws : @HashOrderLaws map_order.
Proof. by split. Qed.

Definition anchor_of (nid : string) (epoch : option Z) (ttl : Z) : AnnounceFrame :=
  mkAnnounce nid [[("host", VString "h"); ("port", vnat 1)]] [] ttl "" "" None None (Some "main") epoch
    None None None None None 60000 None None None.

Definition frame_a : AnnounceFrame := anchor_of "urn:nps:node:x:a" None 300.
Definition frame_b : AnnounceFrame := anchor_of "urn:nps:node:x:b" (Some 2) 300.
Definition store_a : NdpStore := {[an_nid frame_a := mkEntry frame_a (300 * nanos_per_sec)]}.

Lemma resolve_cluster_spec_witness :
  @resolve_cluster _ (@in_memory_resolution map_order)
    (mkRegistry (<[an_nid frame_b := mkEntry frame_b (300 * nanos_per_sec)]> store_a) 0) "main"
  = Ok (Some frame_b).
Proof.
  destruct (@resolve_cluster_spec _ (@in_memory_resolution map_order)
    (mkRegistry (<[an_nid frame_b := mkEntry frame_b (300 * nanos_per_sec)]> store_a) 0) "main") as [_ H].
  apply (H ltac:(discriminate) _ (Ok (Some frame_b)) (reflexivity _)).
  exists [frame_a]. split; [vm_compute; apply perm_swap || reflexivity |].
  by apply Forall_singleton.
Defined.

Lemma announce_takes_over_witness :
  exists store', announce 0 store_a frame_b = Some store' /\
  @resolve_cluster _ (@in_memory_resolution map_order) (mkRegistry store' 5) "main" = Ok (Some frame_b).
Proof.
  exists (<[an_nid frame_b := mkEntry frame_b (300 * nanos_per_sec)]> store_a).
  split; [reflexivity |].
  destruct (@announce_takes_over map_order map_order_laws 0 store_a frame_b
    (<[an_nid frame_b := mkEntry frame_b (300 * nanos_per_sec)]> store_a) "main") as [H _]; [reflexivity |].
  apply H; [cbn; lia | discriminate | reflexivity | | cbn; unfold nanos_per_sec; lia].
  intros nid e Hs _ _. unfold store_a in Hs. apply lookup_singleton_Some in Hs as [_ <-]. reflexivity.
Defined.

Lemma federation_bounded_witness :
  route None ["urn:nps:a"; "urn:nps:b"] = Ok (Some "urn:nps:a, urn:nps:b").
Proof.
  apply (federation_bounded ["urn:nps:a"; "urn:nps:b"]).
  - repeat (apply Forall_cons; split; [by repeat split |]). by apply Forall_nil.
  - discriminate.
  - repeat split; [|cbn; lia]. apply NoDup_ListNoDup. apply (bool_decide_eq_true_1 _). reflexivity.
Defined.

Lemma resolve_target_spec_witness :
  @resolve map_order 0 store_a "nwp://x/a/sub" = Some (mkResolveResult "h" 1 "nwp").
Proof.
  destruct (@resolve_target_spec map_order map_order_laws 0 store_a "nwp://x/a/sub" (fun _ => Err "")) as (_ & H & _).
  rewrite (H (mkEntry frame_a (300 * nanos_per_sec))).
  - reflexivity.
  - exists (an_nid frame_a). split; [reflexivity |]. split; [reflexivity |].
    apply nwp_target_matches_spec. reflexivity.
  - intros e (nid & Hs & _). unfold store_a in Hs. apply lookup_singleton_Some in Hs as [_ <-]. reflexivity.
Defined.

(** When a NID and one below it are both announced, the entry a target
    resolves to depends on the order of the hash map. *)
Lemma resolve_order_dependent :
  let f1 := anchor_of "urn:nps:node:x:a" None 300 in
  let f2 := mkAnnounce "urn:nps:node:x:a:b" [[("host", VString "other")]] [] 300 "" "" None None None
    None None None None None None 60000 None None None in
  let store : NdpStore := {["urn:nps:node:x:a" := mkEntry f1 9; "urn:nps:node:x:a:b" := mkEntry f2 9]} in
  let rev_order : HashOrder := {| hash_values A m := rev (map snd (map_to_list m)) |} in
  @resolve map_order 0 store "nwp://x/a/b" <> @resolve rev_order 0 store "nwp://x/a/b".
Proof. by vm_compute. Qed.
