(* ===== verification/NdpProfile.v ===== *)
(** * NdpProfile: the registry admission profile

    Models nps-ndp/src/registry_profile.rs: the state machine that admits
    Announce frames (sequence numbers, replay, freshness), and its queries.
    A frame is the JSON value received; whether its signature verified is an
    argument, as in the code.  RFC 3339 parsing, SHA-256 and the JSON text of
    scalars are third-party code and parameters.  Times are seconds. *)

From S2P Require Import Prelude RustStr Floats Json CoreFrames CoreCache NdpFrames NdpRegistry.
Local Open Scope Z_scope.

(** [OffsetDateTime::parse(_, &Rfc3339)] then [unix_timestamp]. *)
Class Clocks : Type := { parse_rfc3339 : string -> option Z }.

Definition ANNOUNCE_SIGNATURE_INVALID : string := "NDP-ANNOUNCE-SIGNATURE-INVALID".
Definition ANNOUNCE_PROFILE_VIOLATION : string := "NDP-ANNOUNCE-PROFILE-VIOLATION".
Definition ANNOUNCE_CONFLICT : string := "NDP-ANNOUNCE-CONFLICT".
Definition ANNOUNCE_STALE : string := "NDP-ANNOUNCE-STALE".
Definition GRAPH_SEQ_ROLLBACK : string := "NDP-GRAPH-SEQ-ROLLBACK".

Inductive NdpRegistryDecision : Type := Accepted | Duplicate | Refreshed | Removed | Rejected.
#[export] Instance NdpRegistryDecision_eq_dec : EqDecision NdpRegistryDecision.
Proof. solve_decision. Defined.

Definition decision_as_str (d : NdpRegistryDecision) : string :=
  match d with
  | Accepted => "accepted"
  | Duplicate => "duplicate"
  | Refreshed => "refreshed"
  | Removed => "removed"
  | Rejected => "rejected"
  end.

Record NdpRegistryAdmission : Type := mkAdmission {
  decision : NdpRegistryDecision;
  adm_error_code : option string
}.

Definition accepted (d : NdpRegistryDecision) : NdpRegistryAdmission := mkAdmission d None.
Definition reject (error_code : string) : NdpRegistryAdmission := mkAdmission Rejected (Some error_code).

Record NdpClusterSelection : Type := mkSelection {
  sel_nid : option string;
  sel_epoch : option Z;
  sel_error_code : option string
}.

(** ** Reading the fields of a frame *)

Definition string_value (frame : Map) (field : string) : option string :=
  map_get field frame ≫= as_str.
Definition number_value (frame : Map) (field : string) : option Z :=
  map_get field frame ≫= as_u64.
Definition strings (frame : Map) (field : string) : list string :=
  default [] (strings_of <$> (map_get field frame ≫= as_array)).

Definition str_in (s : string) (l : list string) : bool := existsb (fun x => String.eqb x s) l.

Definition is_bridge (frame : Map) : bool :=
  str_in "bridge" (strings frame "node_roles")
  || bool_decide (string_value frame "node_type" = Some "bridge").

(** [None] when some item is not a non-blank string. *)
Fixpoint protocol_items (items : list Value) : option (list string) :=
  match items with
  | [] => Some []
  | item :: rest =>
    value ← as_str item;
    if is_empty (trim value) then None
    else values ← protocol_items rest; Some (value :: values)
  end.

Definition protocol_list (frame : Map) (field : string) : option (bool * list string) :=
  match map_get field frame with
  | None => Some (false, [])
  | Some value => items ← as_array value; values ← protocol_items items; Some (true, values)
  end.

Definition non_empty {A} (l : list A) : bool := match l with [] => false | _ => true end.

Definition bridge_shape_is_valid (frame : Map) : bool :=
  match protocol_list frame "bridge_protocols" with
  | None => false
  | Some (outbound_present, outbound) =>
    match protocol_list frame "bridge_inbound_protocols" with
    | None => false
    | Some (inbound_present, inbound) =>
      if is_bridge frame then non_empty outbound || non_empty inbound
      else negb outbound_present && negb inbound_present
    end
  end.

(** [left.get("health") == right.get("health") && ...] *)
Definition opt_value_eqb (a b : option Value) : bool :=
  match a, b with
  | Some x, Some y => value_eqb x y
  | None, None => true
  | _, _ => false
  end.

Definition same_liveness (left right : Value) : bool :=
  opt_value_eqb (vget "health" left) (vget "health" right)
  && opt_value_eqb (vget "last_seen" left) (vget "last_seen" right).

(** ** The canonical signed body *)

Section canonical.
Context {D : Digests}.

Definition field_le (a b : string * string) : Prop := (fst a ≤ fst b)%string.
#[local] Instance field_le_dec : RelDecision field_le.
Proof. intros a b. unfold field_le. tc_solve. Defined.

(** Each field is written before the sort, which compares keys only. *)
Fixpoint write_canonical (value : Value) : string :=
  match value with
  | VObject object =>
    let written := map (fun kv => match kv with
      | (k, v) => (is_null v, (k, json_to_string (VString k) +:+ ":" +:+ write_canonical v)) end) object in
    let fields := map snd (List.filter (fun w => negb (fst w)) written) in
    "{" +:+ join "," (map snd (merge_sort field_le fields)) +:+ "}"
  | VArray items => "[" +:+ join "," (map write_canonical items) +:+ "]"
  | scalar => json_to_string scalar
  end.

Definition canonical_root (object : Map) : Map :=
  let root := fold_left (fun m field => map_remove field m)
                ["frame"; "signature"; "health"; "last_seen"] object in
  let root := List.filter (fun kv => negb (is_null (snd kv))) root in
  match map_get "heartbeat_interval_ms" root with
  | Some _ => root
  | None => map_insert "heartbeat_interval_ms" (vnat 60000) root
  end.

Definition canonical_announce_json (frame : Value) : result string string :=
  object ← ok_or (as_object frame) "AnnounceFrame must be an object";
  Ok (write_canonical (VObject (canonical_root object))).

Definition signed_digest_of (canonical : string) : string :=
  hex_encode (sha256 (bytes_of canonical)).
End canonical.

(** ** The state machine *)

Record Entry : Type := mkPEntry { pe_frame : Value; pe_signed_digest : string; pe_expires_at : Z }.

Record NdpRegistryProfile : Type := mkProfile {
  security_profile : string;
  entries : gmap string Entry;
  sequences : gmap string Z
}.

Definition profile_new (security_profile : string) : NdpRegistryProfile :=
  mkProfile security_profile ∅ ∅.

(** [(received_at - timestamp).abs()] in [i64]; [None] is overflow, a panic
    in a checked build. *)
Definition skew (received_at timestamp : Z) : option Z :=
  let d := received_at - timestamp in
  if (i64_min <? d) && (d <=? i64_max) then Some (Z.abs d) else None.

Section profile.
Context {D : Digests} {C : Clocks}.

Definition time_value (frame : Map) (field : string) : option Z :=
  string_value frame field ≫= parse_rfc3339.

(** [checked_add] on [i64]. *)
Definition freshness_deadline (frame : Map) : option Z :=
  source ← match time_value frame "last_seen" with
           | Some t => Some t | None => time_value frame "timestamp" end;
  let ttl := default 0 (number_value frame "ttl") in
  if i64_max <? ttl then None
  else if i64_max <? source + ttl then None else Some (source + ttl).

(** The sequence number, or the profile violation. *)
Definition announce_sequence (profile : string) (object : Map) : option Z :=
  match map_get "graph_seq" object with
  | Some value => as_u64 value
  | None => if String.eqb profile "local-dev" then Some 0 else None
  end.

(** Admission after the shape of the frame was checked. *)
Definition admit_checked (p : NdpRegistryProfile) (frame : Value) (object : Map) (nid : string)
    (sequence ttl received_at : Z) : NdpRegistryAdmission * NdpRegistryProfile :=
  match canonical_announce_json frame with
  | Err _ => (reject ANNOUNCE_PROFILE_VIOLATION, p)
  | Ok canonical =>
    let digest := signed_digest_of canonical in
    let admit_new :=
      if ttl =? 0
      then (accepted Removed,
            mkProfile (security_profile p) (delete nid (entries p)) (<[nid := sequence]> (sequences p)))
      else
        match freshness_deadline object with
        | None => (reject ANNOUNCE_STALE, p)
        | Some expires_at =>
          if expires_at <=? received_at then (reject ANNOUNCE_STALE, p)
          else (accepted Accepted,
                mkProfile (security_profile p) (<[nid := mkPEntry frame digest expires_at]> (entries p))
                  (<[nid := sequence]> (sequences p)))
        end in
    match sequences p !! nid with
    | None => admit_new
    | Some highest =>
      if sequence <? highest then (reject GRAPH_SEQ_ROLLBACK, p)
      else if sequence =? highest
      then
        match entries p !! nid with
        | None => (accepted Duplicate, p)
        | Some current =>
          if negb (String.eqb (pe_signed_digest current) digest) then (reject ANNOUNCE_CONFLICT, p)
          else if same_liveness (pe_frame current) frame then (accepted Duplicate, p)
          else
            match freshness_deadline object with
            | None => (reject ANNOUNCE_STALE, p)
            | Some expires_at =>
              if expires_at <=? received_at then (reject ANNOUNCE_STALE, p)
              else (accepted Refreshed,
                    mkProfile (security_profile p)
                      (<[nid := mkPEntry frame digest expires_at]> (entries p)) (sequences p))
            end
        end
      else admit_new
    end
  end.

(** [None] is the overflow of [skew]. *)
Definition apply_announce (p : NdpRegistryProfile) (frame : Value) (signature_valid : bool)
    (received_at : Z) : option (NdpRegistryAdmission * NdpRegistryProfile) :=
  if negb signature_valid then Some (reject ANNOUNCE_SIGNATURE_INVALID, p)
  else
    match as_object frame with
    | None => Some (reject ANNOUNCE_PROFILE_VIOLATION, p)
    | Some object =>
      match string_value object "nid", time_value object "timestamp",
            announce_sequence (security_profile p) object with
      | Some nid, Some timestamp, Some sequence =>
        match number_value object "ttl" with
        | Some ttl =>
          if 4294967295 <? ttl then Some (reject ANNOUNCE_PROFILE_VIOLATION, p)
          else if negb (bridge_shape_is_valid object)
          then Some (reject ANNOUNCE_PROFILE_VIOLATION, p)
          else if String.eqb (security_profile p) "local-dev"
          then Some (admit_checked p frame object nid sequence ttl received_at)
          else
            d ← skew received_at timestamp;
            if 300 <? d then Some (reject ANNOUNCE_SIGNATURE_INVALID, p)
            else Some (admit_checked p frame object nid sequence ttl received_at)
        | None => Some (reject ANNOUNCE_PROFILE_VIOLATION, p)
        end
      | _, _, _ => Some (reject ANNOUNCE_PROFILE_VIOLATION, p)
      end
    end.

(** ** Queries; [entries_of] is an iteration of the hash map *)

Context (entries_of : gmap string Entry -> list (string * Entry)).

Definition sorted (l : list string) : list string := merge_sort String.le l.

Definition live_nids (p : NdpRegistryProfile) (now : Z) : list string :=
  sorted (map fst (List.filter (fun e => now <? pe_expires_at (snd e)) (entries_of (entries p)))).

(** [BTreeMap] of the sequences, in key order. *)
Definition highest_sequences (p : NdpRegistryProfile) : list (string * Z) :=
  map_collect (map_to_list (sequences p)).

Definition has_stale_entry (p : NdpRegistryProfile) (now : Z) : bool :=
  existsb (fun e => pe_expires_at (snd e) <=? now) (entries_of (entries p)).

Definition cluster_member (cluster_anchor : string) (e : string * Entry) : option (string * Z) :=
  frame ← as_object (pe_frame (snd e));
  if negb (bool_decide (string_value frame "cluster_anchor" = Some cluster_anchor))
     || negb (str_in "anchor" (strings frame "node_roles"))
  then None
  else Some (fst e, default 1 (number_value frame "cluster_epoch")).

Definition cluster_members (p : NdpRegistryProfile) (cluster_anchor : string) (now : Z)
    : list (string * Z) :=
  omap (cluster_member cluster_anchor)
    (List.filter (fun e => now <? pe_expires_at (snd e)) (entries_of (entries p))).

Definition profile_resolve_cluster (p : NdpRegistryProfile) (cluster_anchor : string) (now : Z)
    : NdpClusterSelection :=
  let members := cluster_members p cluster_anchor now in
  match max_of (map snd members) with
  | None => mkSelection None None None
  | Some top =>
    match sorted (map fst (List.filter (fun m => snd m =? top) members)) with
    | [leader] => mkSelection (Some leader) (Some top) None
    | _ => mkSelection None None (Some CLUSTER_SPLIT)
    end
  end.

Definition bridge_member (field protocol : string) (e : string * Entry) : option string :=
  frame ← as_object (pe_frame (snd e));
  if bool_decide (string_value frame "health" = Some "draining")
     || negb (is_bridge frame) || negb (str_in protocol (strings frame field))
  then None else Some (fst e).

Definition discover_bridges (p : NdpRegistryProfile) (direction protocol : string) (now : Z)
    : list string :=
  match (if String.eqb direction "inbound" then Some "bridge_inbound_protocols"
         else if String.eqb direction "outbound" then Some "bridge_protocols" else None) with
  | None => []
  | Some field =>
    sorted (omap (bridge_member field protocol)
      (List.filter (fun e => now <? pe_expires_at (snd e)) (entries_of (entries p))))
  end.
End profile.

(** ** What one announcement does *)

Section admission.
Context {D : Digests} {C : Clocks}.

(** The NID and sequence number of a well-formed frame. *)
Definition frame_key (profile : string) (frame : Value) : option (string * Z) :=
  object ← as_object frame;
  nid ← string_value object "nid";
  s ← announce_sequence profile object;
  Some (nid, s).

Definition digest_of (frame : Value) : option string :=
  match canonical_announce_json frame with Ok c => Some (signed_digest_of c) | Err _ => None end.

Definition deadline_of (frame : Value) : option Z := as_object frame ≫= freshness_deadline.

(** [nid] was never announced, or only under smaller sequence numbers. *)
Definition newer (p : NdpRegistryProfile) (nid : string) (s : Z) : Prop :=
  forall h, sequences p !! nid = Some h -> h < s.

(** The effect of each decision. *)
Definition admission_effect (p : NdpRegistryProfile) (frame : Value) (received_at : Z)
    (adm : NdpRegistryAdmission) (p' : NdpRegistryProfile) : Prop :=
  security_profile p' = security_profile p /\
  (decision adm = Rejected <-> is_Some (adm_error_code adm)) /\
  match decision adm with
  | Rejected => p' = p
  | Duplicate => p' = p /\ exists nid s, frame_key (security_profile p) frame = Some (nid, s) /\
                   sequences p !! nid = Some s
  | Refreshed => exists nid s e digest expires, frame_key (security_profile p) frame = Some (nid, s) /\
      sequences p !! nid = Some s /\ entries p !! nid = Some e /\ digest_of frame = Some digest /\
      pe_signed_digest e = digest /\ deadline_of frame = Some expires /\ received_at < expires /\
      sequences p' = sequences p /\ entries p' = <[nid := mkPEntry frame digest expires]> (entries p)
  | Removed => exists nid s, frame_key (security_profile p) frame = Some (nid, s) /\
      newer p nid s /\ sequences p' = <[nid := s]> (sequences p) /\ entries p' = delete nid (entries p)
  | Accepted => exists nid s digest expires, frame_key (security_profile p) frame = Some (nid, s) /\
      newer p nid s /\ digest_of frame = Some digest /\ deadline_of frame = Some expires /\
      received_at < expires /\ sequences p' = <[nid := s]> (sequences p) /\
      entries p' = <[nid := mkPEntry frame digest expires]> (entries p)
  end.

Lemma rejected_effect p frame t code : admission_effect p frame t (reject code) p.
Proof. by repeat split; eauto. Qed.

Lemma admit_checked_effect p frame object nid s ttl t :
  as_object frame = Some object -> string_value object "nid" = Some nid ->
  announce_sequence (security_profile p) object = Some s ->
  let '(adm, p') := admit_checked p frame object nid s ttl t in admission_effect p frame t adm p'.
Proof.
  intros Ho Hn Hs.
  assert (Hk : frame_key (security_profile p) frame = Some (nid, s))
    by (unfold frame_key; by rewrite Ho; cbn; rewrite Hn; cbn; rewrite Hs).
  unfold admit_checked. destruct (canonical_announce_json frame) as [c|] eqn:Ec;
    [|by apply rejected_effect].
  assert (Hd : digest_of frame = Some (signed_digest_of c)) by (unfold digest_of; by rewrite Ec).
  assert (Hf : deadline_of frame = freshness_deadline object) by (unfold deadline_of; by rewrite Ho).
  assert (Hnew : newer p nid s ->
    let '(adm, p') :=
      if ttl =? 0
      then (accepted Removed,
            mkProfile (security_profile p) (delete nid (entries p)) (<[nid := s]> (sequences p)))
      else match freshness_deadline object with
        | None => (reject ANNOUNCE_STALE, p)
        | Some expires_at =>
          if expires_at <=? t then (reject ANNOUNCE_STALE, p)
          else (accepted Accepted,
                mkProfile (security_profile p)
                  (<[nid := mkPEntry frame (signed_digest_of c) expires_at]> (entries p))
                  (<[nid := s]> (sequences p)))
        end in admission_effect p frame t adm p').
  { intros Hnew. destruct (ttl =? 0).
    - split; [done |]. split; [cbn; split; [done | by intros []] |]. by exists nid, s.
    - destruct (freshness_deadline object) as [ex|] eqn:Ex; [|by apply rejected_effect].
      destruct (Z.leb_spec ex t); [by apply rejected_effect |].
      split; [done |]. split; [cbn; split; [done | by intros []] |].
      exists nid, s, (signed_digest_of c), ex. by rewrite Hf. }
  destruct (sequences p !! nid) as [h|] eqn:Eh.
  - destruct (Z.ltb_spec s h); [by apply rejected_effect |].
    destruct (Z.eqb_spec s h) as [->|Hne].
    + destruct (entries p !! nid) as [e|] eqn:Ee.
      * destruct (String.eqb_spec (pe_signed_digest e) (signed_digest_of c)) as [Hde|];
          [cbn [negb] | by apply rejected_effect].
        destruct (same_liveness (pe_frame e) frame).
        { split; [done |]. split; [cbn; split; [done | by intros []] |]. split; [done |]. by exists nid, h. }
        destruct (freshness_deadline object) as [ex|] eqn:Ex; [|by apply rejected_effect].
        destruct (Z.leb_spec ex t); [by apply rejected_effect |].
        split; [done |]. split; [cbn; split; [done | by intros []] |].
        exists nid, h, e, (signed_digest_of c), ex. by rewrite Hf.
      * split; [done |]. split; [cbn; split; [done | by intros []] |]. split; [done |]. by exists nid, h.
    + apply Hnew. intros h' [= <-]%(eq_trans (eq_sym Eh)). lia.
  - apply Hnew. intros h' E. congruence.
Qed.

Lemma apply_announce_effect p frame ok t adm p' :
  apply_announce p frame ok t = Some (adm, p') ->
  admission_effect p frame t adm p' /\ (decision adm <> Rejected -> ok = true).
Proof.
  unfold apply_announce. destruct ok; cbn [negb].
  2:{ intros [= <- <-]. split; [by apply rejected_effect | done]. }
  intros H. split; [|done]. revert H.
  destruct (as_object frame) as [object|] eqn:Ho; [|intros [= <- <-]; by apply rejected_effect].
  destruct (string_value object "nid") as [nid|] eqn:Hn; [|intros [= <- <-]; by apply rejected_effect].
  destruct (time_value object "timestamp") as [ts|]; [|intros [= <- <-]; by apply rejected_effect].
  destruct (announce_sequence _ object) as [s|] eqn:Hs; [|intros [= <- <-]; by apply rejected_effect].
  destruct (number_value object "ttl") as [ttl|]; [|intros [= <- <-]; by apply rejected_effect].
  destruct (_ <? ttl); [intros [= <- <-]; by apply rejected_effect |].
  destruct (bridge_shape_is_valid object); cbn [negb]; [|intros [= <- <-]; by apply rejected_effect].
  pose proof (admit_checked_effect p frame object nid s ttl t Ho Hn Hs) as He.
  destruct (admit_checked p frame object nid s ttl t) as [a q].
  destruct (String.eqb _ "local-dev"); [by intros [= <- <-] |].
  destruct (skew t ts) as [d|]; cbn; [|done].
  destruct (300 <? d); [intros [= <- <-]; by apply rejected_effect | by intros [= <- <-]].
Qed.

(** ** Histories *)

Inductive announce_step : NdpRegistryProfile -> NdpRegistryProfile -> Prop :=
| announce_step_apply p frame ok t adm p' :
    apply_announce p frame ok t = Some (adm, p') -> announce_step p p'.

Definition announces : NdpRegistryProfile -> NdpRegistryProfile -> Prop := rtc announce_step.

(** Every entry is the frame announced under the highest sequence number of
    its NID, with that frame's digest and deadline. *)
Definition profile_inv (p : NdpRegistryProfile) : Prop :=
  forall nid e, entries p !! nid = Some e -> exists s,
    frame_key (security_profile p) (pe_frame e) = Some (nid, s) /\ sequences p !! nid = Some s /\
    digest_of (pe_frame e) = Some (pe_signed_digest e) /\
    deadline_of (pe_frame e) = Some (pe_expires_at e).

Lemma announce_step_inv p p' : announce_step p p' -> profile_inv p -> profile_inv p'.
Proof.
  intros [? frame ok t adm ? H] Hinv. apply apply_announce_effect in H as [(Hsp & _ & He) _].
  intros nid' e' Hl. rewrite Hsp. destruct (decision adm).
  - destruct He as (nid & s & dg & ex & Hk & _ & Hd & Hx & _ & Hs & Hen). rewrite Hen in Hl. rewrite Hs.
    destruct (decide (nid = nid')) as [->|Hne].
    + rewrite lookup_insert_eq in Hl. injection Hl as <-. exists s. cbn. by rewrite lookup_insert_eq.
    + rewrite lookup_insert_ne in Hl by done. rewrite lookup_insert_ne by done. by apply Hinv.
  - destruct He as [-> _]. by apply Hinv.
  - destruct He as (nid & s & e & dg & ex & Hk & Hs & _ & Hd & _ & Hx & _ & Hsq & Hen).
    rewrite Hen in Hl. rewrite Hsq. destruct (decide (nid = nid')) as [->|Hne].
    + rewrite lookup_insert_eq in Hl. injection Hl as <-. by exists s.
    + rewrite lookup_insert_ne in Hl by done. by apply Hinv.
  - destruct He as (nid & s & Hk & _ & Hs & Hen). rewrite Hen in Hl. rewrite Hs.
    apply lookup_delete_Some in Hl as [Hne Hl]. rewrite lookup_insert_ne by done. by apply Hinv.
  - subst. by apply Hinv.
Qed.

Lemma announces_inv p p' : announces p p' -> profile_inv p -> profile_inv p'.
Proof. induction 1; eauto using announce_step_inv. Qed.

(** The highest sequence number of a NID, or a smaller one without entry. *)
Definition beyond (p : NdpRegistryProfile) (nid : string) (s : Z) (absent : bool) : Prop :=
  exists s', sequences p !! nid = Some s' /\ s <= s' /\
    (absent = true -> is_Some (entries p !! nid) -> s < s').

Lemma announce_step_beyond p p' nid s absent :
  announce_step p p' -> beyond p nid s absent -> beyond p' nid s absent.
Proof.
  intros [? frame ok t adm ? H] (s0 & Hs0 & Hle & Hab).
  apply apply_announce_effect in H as [(_ & _ & He) _]. unfold beyond. destruct (decision adm).
  - destruct He as (n & s1 & dg & ex & _ & Hnew & _ & _ & _ & Hs & Hen). rewrite Hs, Hen.
    destruct (decide (n = nid)) as [->|Hne].
    + specialize (Hnew _ Hs0). rewrite lookup_insert_eq. exists s1. repeat split; [lia | lia].
    + rewrite !lookup_insert_ne by done. by exists s0.
  - destruct He as [-> _]. by exists s0.
  - destruct He as (n & s1 & e & dg & ex & _ & _ & Hentry & _ & _ & _ & _ & -> & ->).
    exists s0. repeat split; [done | done |]. intros Ha Hsome. apply Hab; [done |].
    destruct (decide (n = nid)) as [->|Hne]; [by eexists |]. by rewrite lookup_insert_ne in Hsome.
  - destruct He as (n & s1 & _ & Hnew & Hs & Hen). rewrite Hs, Hen.
    destruct (decide (n = nid)) as [->|Hne].
    + specialize (Hnew _ Hs0). rewrite lookup_insert_eq. exists s1. repeat split; [lia | lia].
    + rewrite lookup_insert_ne, lookup_delete_ne by done. by exists s0.
  - subst. by exists s0.
Qed.

Lemma announces_beyond p p' nid s absent :
  announces p p' -> beyond p nid s absent -> beyond p' nid s absent.
Proof. induction 1; eauto using announce_step_beyond. Qed.

(** C28: no announcement under an older sequence number can be replayed (one
    under the current number is applied again). Whatever frames arrive, in
    whatever order and with whatever signatures, the sequence number of a NID
    never decreases; a NID that was withdrawn (or never entered) at some number
    comes back only under a strictly larger one; and every entry is the frame
    announced under its NID's highest number, with that frame's own digest and
    deadline. *)
Theorem no_replay profile p p' :
  announces (profile_new profile) p -> announces p p' ->
  profile_inv p' /\
  forall nid s, sequences p !! nid = Some s ->
    exists s', sequences p' !! nid = Some s' /\ s <= s' /\
      (entries p !! nid = None -> is_Some (entries p' !! nid) -> s < s').
Proof.
  intros H0 H1. split.
  - apply (announces_inv (profile_new profile)); [by etrans | by intros nid e].
  - intros nid s Hs.
    assert (Hb : beyond p nid s (bool_decide (entries p !! nid = None))).
    { exists s. repeat split; [done | lia |]. intros Hn%bool_decide_eq_true [e He]. congruence. }
    assert (Hb' : beyond p' nid s (bool_decide (entries p !! nid = None))).
    { by eapply announces_beyond. }
    destruct Hb' as (s' & ? & ? & Hx). exists s'. repeat split; [done | done |].
    intros Hn. apply Hx. by apply bool_decide_eq_true.
Qed.

(** The decision says what happened. A frame is rejected exactly with an
    error code and then changes nothing; nothing is admitted without a valid
    signature; a duplicate changes nothing; a refresh replaces the entry by
    the same signed body under the same number, and only while it is fresh; an
    acceptance or a removal happens only under a number above every earlier
    one of that NID, which it records; no other NID is touched. *)
Theorem announce_admission p frame ok t adm p' :
  apply_announce p frame ok t = Some (adm, p') ->
  admission_effect p frame t adm p' /\
  (ok = false -> decision adm = Rejected /\ p' = p) /\
  (forall nid, (forall s, frame_key (security_profile p) frame <> Some (nid, s)) ->
     entries p' !! nid = entries p !! nid /\ sequences p' !! nid = sequences p !! nid).
Proof.
  intros H. apply apply_announce_effect in H as [He Hok]. split; [done |]. split.
  - intros ->. destruct (decide (decision adm = Rejected)) as [Hr|Hr]; [|by specialize (Hok Hr)].
    destruct He as (_ & _ & He). by rewrite Hr in He.
  - intros nid Hk. destruct He as (_ & _ & He). destruct (decision adm).
    + destruct He as (n & s & dg & ex & E & _ & _ & _ & _ & -> & ->).
      assert (n <> nid) by (intros ->; by apply (Hk s)). by rewrite !lookup_insert_ne.
    + by destruct He as [-> _].
    + destruct He as (n & s & e & dg & ex & E & _ & _ & _ & _ & _ & _ & -> & ->).
      assert (n <> nid) by (intros ->; by apply (Hk s)). by rewrite lookup_insert_ne.
    + destruct He as (n & s & E & _ & -> & ->).
      assert (n <> nid) by (intros ->; by apply (Hk s)). by rewrite lookup_insert_ne, lookup_delete_ne.
    + by subst.
Qed.
End admission.

(** ** The election of a cluster's anchor *)

Section election.
Context (entries_of : gmap string Entry -> list (string * Entry)).
Context (entries_of_perm : forall m, entries_of m ≡ₚ map_to_list m).

(** [nid] is listed, fresh, and announces itself as an anchor of [c]. *)
Definition anchor_member (p : NdpRegistryProfile) (c : string) (now : Z) (nid : string) (epoch : Z) : Prop :=
  exists e, entries p !! nid = Some e /\ now < pe_expires_at e /\
    cluster_member c (nid, e) = Some (nid, epoch).

Lemma cluster_member_nid c x m : cluster_member c x = Some m -> fst m = fst x.
Proof.
  unfold cluster_member. destruct (as_object _); cbn; [|done]. destruct (_ || _); [done |]. by intros [= <-].
Qed.

Lemma cluster_members_spec p c now nid epoch :
  In (nid, epoch) (cluster_members entries_of p c now) <-> anchor_member p c now nid epoch.
Proof.
  unfold cluster_members, anchor_member. rewrite <-list_elem_of_In, list_elem_of_omap. split.
  - intros ([n e] & Hin & Hm). pose proof (cluster_member_nid _ _ _ Hm) as En. cbn in En. subst n.
    apply list_elem_of_In, filter_In in Hin as [Hin Hlt%Z.ltb_lt].
    apply list_elem_of_In in Hin. rewrite entries_of_perm in Hin. apply elem_of_map_to_list in Hin.
    by exists e.
  - intros (e & Hl & Hlt & Hm). exists (nid, e). split; [|done].
    apply list_elem_of_In, filter_In. split; [|by apply Z.ltb_lt].
    apply list_elem_of_In. rewrite entries_of_perm. by apply elem_of_map_to_list.
Qed.

Lemma NoDup_omap_member c (l : list (string * Entry)) :
  NoDup (map fst l) -> NoDup (map fst (omap (cluster_member c) l)).
Proof.
  induction l as [|x l IH]; [done |]. intros [Hx Hl]%NoDup_cons. cbn.
  destruct (cluster_member c x) as [m|] eqn:Em; [|by apply IH].
  cbn. apply NoDup_cons. split; [|by apply IH].
  rewrite (cluster_member_nid _ _ _ Em). intros Hin. apply Hx.
  apply list_elem_of_In, in_map_iff in Hin as (m' & E' & Hin).
  apply list_elem_of_In, list_elem_of_omap in Hin as (y & Hy & Hmy).
  rewrite (cluster_member_nid _ _ _ Hmy) in E'. rewrite <-E'.
  apply list_elem_of_In, in_map, list_elem_of_In, Hy.
Qed.

Lemma NoDup_map_fst_filter {A B} (f : A * B -> bool) l :
  NoDup (map fst l) -> NoDup (map fst (List.filter f l)).
Proof.
  induction l as [|x l IH]; [done |]. intros [Hx Hl]%NoDup_cons. cbn.
  destruct (f x); cbn; [|by apply IH]. apply NoDup_cons. split; [|by apply IH].
  intros Hin. apply Hx. apply list_elem_of_In, in_map_iff in Hin as (y & E & [Hy _]%filter_In).
  rewrite <-E. by apply list_elem_of_In, in_map.
Qed.

Lemma cluster_members_NoDup p c now : NoDup (map fst (cluster_members entries_of p c now)).
Proof.
  unfold cluster_members. apply NoDup_omap_member, NoDup_map_fst_filter.
  change (map fst) with (fmap (M := list) (@fst string Entry)).
  rewrite entries_of_perm. apply NoDup_fst_map_to_list.
Qed.

Lemma sorted_perm l : sorted l ≡ₚ l.
Proof. apply merge_sort_Permutation. Qed.

Lemma NoDup_fst_eq {A B} (l : list (A * B)) k v v' :
  NoDup (map fst l) -> In (k, v) l -> In (k, v') l -> v = v'.
Proof.
  induction l as [|[k0 v0] l IH]; [done |]. intros [Hk Hl]%NoDup_cons [E|H] [E'|H'].
  - congruence.
  - injection E as -> ->. destruct Hk. apply (in_map fst) in H'. by apply list_elem_of_In.
  - injection E' as -> ->. destruct Hk. apply (in_map fst) in H. by apply list_elem_of_In.
  - by apply IH.
Qed.

(** The three outcomes, over the list of members. *)
Definition leads (ms : list (string * Z)) (nid : string) (epoch : Z) : Prop :=
  In (nid, epoch) ms /\ forall n e, In (n, e) ms -> n <> nid -> e < epoch.
Definition tied (ms : list (string * Z)) : Prop :=
  exists n n' e, n <> n' /\ In (n, e) ms /\ In (n', e) ms /\ forall m e', In (m, e') ms -> e' <= e.

Lemma leads_not_tied ms nid epoch : leads ms nid epoch -> tied ms -> False.
Proof.
  intros [Hin Hlt] (n & n' & e & Hne & H1 & H2 & Hmax). pose proof (Hmax _ _ Hin) as Hle.
  destruct (decide (n = nid)) as [->|Hn]; [|by specialize (Hlt _ _ H1 Hn); lia].
  specialize (Hlt _ _ H2 (not_eq_sym Hne)). lia.
Qed.

Lemma leads_unique ms nid epoch nid' epoch' : NoDup (map fst ms) ->
  leads ms nid epoch -> leads ms nid' epoch' -> nid = nid' /\ epoch = epoch'.
Proof.
  intros Hnd [H1 Hl] [H1' Hl']. destruct (decide (nid = nid')) as [->|Hne].
  - split; [done |]. eapply NoDup_fst_eq; eauto.
  - specialize (Hl _ _ H1' (not_eq_sym Hne)). specialize (Hl' _ _ H1 Hne). lia.
Qed.

(** What [profile_resolve_cluster] computes from the members. *)
Definition select (ms : list (string * Z)) : NdpClusterSelection :=
  match max_of (map snd ms) with
  | None => mkSelection None None None
  | Some top =>
    match sorted (map fst (List.filter (fun m => snd m =? top) ms)) with
    | [leader] => mkSelection (Some leader) (Some top) None
    | _ => mkSelection None None (Some CLUSTER_SPLIT)
    end
  end.

Lemma select_cases ms : NoDup (map fst ms) ->
  (ms = [] /\ select ms = mkSelection None None None) \/
  (exists nid epoch, leads ms nid epoch /\ select ms = mkSelection (Some nid) (Some epoch) None) \/
  (tied ms /\ select ms = mkSelection None None (Some CLUSTER_SPLIT)).
Proof.
  intros Hnd. destruct (decide (ms = [])) as [->|Hne]; [by left |]. right. unfold select.
  destruct (max_of_spec (map snd ms)) as (top & -> & Hin & Hmax);
    [by intros ?%map_eq_nil |].
  apply in_map_iff in Hin as ((n & e) & E & Hin). cbn in E. subst e.
  assert (Hle : forall m e, In (m, e) ms -> e <= top).
  { intros m e Hm. rewrite List.Forall_forall in Hmax. apply Hmax. by apply (in_map snd) in Hm. }
  set (tops := List.filter _ ms).
  assert (Htops : forall m, In m (map fst tops) <-> In (m, top) ms).
  { intros m. rewrite in_map_iff. split.
    - intros ((m' & e) & <- & [Hm E%Z.eqb_eq]%filter_In). cbn in E. by subst e.
    - intros Hm. exists (m, top). split; [done |]. apply filter_In. split; [done | apply Z.eqb_refl]. }
  assert (Hnt : NoDup (map fst tops)) by by apply NoDup_map_fst_filter.
  clearbody tops. assert (Hn : In n (sorted (map fst tops))).
  { apply list_elem_of_In. rewrite sorted_perm. by apply list_elem_of_In, Htops. }
  assert (Hs : forall m, In m (sorted (map fst tops)) -> In (m, top) ms).
  { intros m. rewrite <-list_elem_of_In, sorted_perm, list_elem_of_In. apply Htops. }
  assert (Hns : NoDup (sorted (map fst tops))) by by rewrite sorted_perm.
  assert (Hall : forall m, In (m, top) ms -> In m (sorted (map fst tops))).
  { intros m. rewrite <-list_elem_of_In, sorted_perm, list_elem_of_In. apply Htops. }
  destruct (sorted (map fst tops)) as [|l1 [|l2 l]]; [done | left | right].
  - destruct Hn as [<-|[]]. exists l1, top. split; [|done]. split; [done |].
    intros m e Hm Hne'. specialize (Hle _ _ Hm). destruct (decide (e = top)) as [->|]; [|lia].
    by destruct (Hall _ Hm) as [?|[]].
  - split; [|done]. exists l1, l2, top. split; [|split; [|split; [|done]]].
    + apply NoDup_cons in Hns as [Hl1 _]. intros <-. apply Hl1. by left.
    + apply Hs. by left.
    + apply Hs. right. by left.
Qed.

Lemma profile_resolve_cluster_select p c now :
  profile_resolve_cluster entries_of p c now = select (cluster_members entries_of p c now).
Proof. done. Qed.

(** The portable profile elects a cluster's anchor by epoch, whatever the
    order its hash map is iterated in. It answers [nid] exactly when [nid] is a
    live anchor member whose epoch is above that of every other live member,
    and then reports that epoch; it reports a split exactly when two live
    members share the highest epoch; and it answers nothing exactly when no
    live member is listed. *)
Theorem profile_cluster_election p c now :
  let sel := profile_resolve_cluster entries_of p c now in
  let member := anchor_member p c now in
  (forall nid epoch, sel = mkSelection (Some nid) (Some epoch) None <->
     member nid epoch /\ forall n e, member n e -> n <> nid -> e < epoch) /\
  (sel = mkSelection None None (Some CLUSTER_SPLIT) <->
     exists n n' e, n <> n' /\ member n e /\ member n' e /\ forall m e', member m e' -> e' <= e) /\
  (sel = mkSelection None None None <-> forall n e, ~ member n e).
Proof.
  cbv zeta. rewrite profile_resolve_cluster_select.
  pose proof (cluster_members_spec p c now) as Hms. pose proof (cluster_members_NoDup p c now) as Hnd.
  set (ms := cluster_members _ _ _ _) in *. clearbody ms.
  setoid_rewrite <-Hms. change (exists n n' e, n <> n' /\ _) with (tied ms).
  destruct (select_cases ms Hnd) as [[-> ->]|[(nid & epoch & Hl & ->)|[Ht ->]]].
  - split; [|split]; [by split; [|intros [[]]] | by split; [|intros (?&?&?&_&[]&_)] | by split; [intros _ ?? [] |]].
  - split; [|split].
    + intros nid' epoch'. split; [by intros [= <- <-] |]. intros Hl'.
      by destruct (leads_unique _ _ _ _ _ Hnd Hl Hl') as [-> ->].
    + split; [done |]. intros Ht. by destruct (leads_not_tied _ _ _ Hl Ht).
    + split; [done |]. intros Hno. destruct Hl as [Hin _]. by destruct (Hno _ _ Hin).
  - split; [|split].
    + intros nid' epoch'. split; [done |]. intros Hl. by destruct (leads_not_tied _ _ _ Hl Ht).
    + by split.
    + split; [done |]. destruct Ht as (n & _ & e & _ & Hin & _). intros Hno. by destruct (Hno _ _ Hin).
Qed.
End election.

(** ** Witnesses *)

(** Digests and clocks for the witnesses. *)
Definition plain_digests : Digests := {|
  sha256 l := l; hex_encode l := "d";
  json_to_string v := match v with VString s => s | _ => "1" end |}.
Definition plain_clocks : Clocks := {| parse_rfc3339 s := Some (Z.of_nat (String.length s)) |}.

Definition announced (nid : string) (ttl seq epoch : Z) : Value :=
  VObject (map_collect [("nid", VString nid); ("timestamp", VString "0123456789");
    ("graph_seq", vnat seq); ("ttl", vnat ttl); ("cluster_anchor", VString "main");
    ("node_roles", VArray [VString "anchor"]); ("cluster_epoch", vnat epoch)]).

(** The profile after admitting the frames at instant 10. *)
Definition admit_all (frames : list Value) : NdpRegistryProfile :=
  fold_left (fun p f => match @apply_announce plain_digests plain_clocks p f true 10 with
                        | Some (_, p') => p' | None => p end) frames (profile_new "prod").

Definition join_a : Value := announced "urn:nps:a" 300 5 1.
Definition leave_a : Value := announced "urn:nps:a" 0 6 1.
Definition join_b : Value := announced "urn:nps:b" 300 1 2.

Lemma no_replay_witness :
  exists s', sequences (admit_all [join_a; leave_a]) !! "urn:nps:a" = Some s' /\ 5 <= s'.
Proof.
  destruct (@no_replay plain_digests plain_clocks "prod" (admit_all [join_a]) (admit_all [join_a; leave_a]))
    as [_ H].
  - apply rtc_once. by eapply (@announce_step_apply plain_digests plain_clocks _ join_a true 10).
  - apply rtc_once. by eapply (@announce_step_apply plain_digests plain_clocks _ leave_a true 10).
  - destruct (H "urn:nps:a" 5) as (s' & E & Hle & _); [reflexivity | by exists s'].
Defined.

Lemma announce_admission_witness :
  @apply_announce plain_digests plain_clocks (admit_all [join_a]) leave_a true 10
    = Some (accepted Removed, admit_all [join_a; leave_a]) /\
  entries (admit_all [join_a; leave_a]) !! "urn:nps:b" = entries (admit_all [join_a]) !! "urn:nps:b".
Proof.
  assert (E : @apply_announce plain_digests plain_clocks (admit_all [join_a]) leave_a true 10
    = Some (accepted Removed, admit_all [join_a; leave_a])) by reflexivity.
  split; [exact E |].
  destruct (@announce_admission plain_digests plain_clocks _ _ _ _ _ _ E) as (_ & _ & H).
  apply (H "urn:nps:b"). intros s. vm_compute. intros [=].
Defined.

Lemma profile_cluster_election_witness :
  profile_resolve_cluster map_to_list (admit_all [join_a; join_b]) "main" 20
    = mkSelection (Some "urn:nps:b") (Some 2) None.
Proof.
  destruct (profile_cluster_election map_to_list (fun m => reflexivity _)
    (admit_all [join_a; join_b]) "main" 20) as [H _].
  apply H. split.
  - eexists. split; [vm_compute; reflexivity |]. split; [vm_compute; reflexivity | vm_compute; reflexivity].
  - intros n e (en & Hl & _ & Hm) Hne. apply elem_of_map_to_list, list_elem_of_In in Hl.
    assert (Hall : forallb (fun x => match cluster_member "main" x with
        | Some m => String.eqb (fst m) "urn:nps:b" || (snd m <? 2) | None => true end)
      (map_to_list (entries (admit_all [join_a; join_b]))) = true) by (vm_compute; reflexivity).
    rewrite forallb_forall in Hall. specialize (Hall _ Hl). rewrite Hm in Hall. cbn [fst snd] in Hall.
    destruct (String.eqb_spec n "urn:nps:b") as [E|_]; [destruct (Hne E) | exact (proj1 (Z.ltb_lt _ _) Hall)].
Defined.
