(* ===== verification/NipFrames.v ===== *)
(** * NipFrames: assurance levels and the identity frames

    Models nps-nip/src/assurance_level.rs, cert_format.rs and frames.rs: the
    Ident, Trust and Revoke frames, the part of each its signature covers, and
    the validation of a revocation.  The derived serde code of
    [IdentReputationPolicyHint] and the Debug text of a string are parameters. *)

From S2P Require Import Prelude RustStr Floats Json CoreFrames NcpFrames.
Local Open Scope Z_scope.

(** ** AssuranceLevel *)

Record AssuranceLevel : Type := mkLevel { wire : string; rank : Z }.
#[export] Instance AssuranceLevel_eq_dec : EqDecision AssuranceLevel.
Proof. solve_decision. Defined.

Definition ANONYMOUS : AssuranceLevel := mkLevel "anonymous" 0.
Definition ATTESTED : AssuranceLevel := mkLevel "attested" 1.
Definition VERIFIED : AssuranceLevel := mkLevel "verified" 2.

Definition meets_or_exceeds (self required : AssuranceLevel) : bool := rank required <=? rank self.

(** The text of [format!("{:?}", s)]. *)
Class DebugText : Type := { debug_str : string -> string }.

Definition from_wire `{DebugText} (w : string) : result string AssuranceLevel :=
  if is_empty w then Ok ANONYMOUS
  else match List.find (fun l => String.eqb (wire l) w) [ANONYMOUS; ATTESTED; VERIFIED] with
       | Some l => Ok l
       | None => Err ("unknown assurance_level: " +:+ debug_str w)
       end.

Definition from_rank (r : Z) : result string AssuranceLevel :=
  match List.find (fun l => rank l =? r) [ANONYMOUS; ATTESTED; VERIFIED] with
  | Some l => Ok l
  | None => Err ("unknown assurance_level rank: " +:+ fmt_Z r)
  end.

Definition V1_PROPRIETARY : string := "v1-proprietary".
Definition V2_X509 : string := "v2-x509".

(** ** IdentFrame *)

Record IdentReputationPolicyHint : Type := mkHint { log_sources : list string; consent : bool }.

(** The derived [Serialize] and [Deserialize] of the hint. *)
Class HintSerde : Type := {
  hint_to_value : IdentReputationPolicyHint -> option Value;
  hint_from_value : Value -> option IdentReputationPolicyHint
}.
Class HintSerdeLaws `{HintSerde} : Prop := {
  hint_written h : is_Some (hint_to_value h);
  hint_roundtrip h v : hint_to_value h = Some v -> hint_from_value v = Some h
}.

Record IdentFrame : Type := mkIdent {
  id_nid : string;
  id_pub_key : string;
  id_meta : option Map;
  id_signature : option string;
  id_capabilities : list string;
  id_scope : option Value;
  id_issued_by : option string;
  id_issued_at : option string;
  id_expires_at : option string;
  id_serial : option string;
  id_assurance_level : option AssuranceLevel;
  id_cert_format : option string;
  id_cert_chain : option (list string);
  id_ocsp_staple : option string;
  id_reputation_policy : option IdentReputationPolicyHint;
  id_node_roles : option (list string)
}.

Definition IdentFrame_new (nid pub_key : string) : IdentFrame :=
  mkIdent nid pub_key None None [] None None None None None None None None None None None.

(** The dictionary the Ed25519 signature covers. *)
Definition ident_unsigned_dict (f : IdentFrame) : FrameDict :=
  let m := map_insert "nid" (VString (id_nid f)) [] in
  let m := map_insert "pub_key" (VString (id_pub_key f)) m in
  let m := insert_opt "metadata" (VObject <$> id_meta f) m in
  insert_opt "assurance_level" (VString <$> (wire <$> id_assurance_level f)) m.

(** [if !l.is_empty() { m.insert(k, json!(l)) }]. *)
Definition nonempty_strings (l : list string) : option Value :=
  match l with [] => None | _ => Some (vstrings l) end.

Section ident.
Context `{HintSerde} `{DebugText}.

Definition IdentFrame_to_dict (f : IdentFrame) : FrameDict :=
  let m := ident_unsigned_dict f in
  let m := insert_opt "capabilities" (nonempty_strings (id_capabilities f)) m in
  let m := insert_opt "scope" (id_scope f) m in
  let m := insert_opt "issued_by" (VString <$> id_issued_by f) m in
  let m := insert_opt "issued_at" (VString <$> id_issued_at f) m in
  let m := insert_opt "expires_at" (VString <$> id_expires_at f) m in
  let m := insert_opt "serial" (VString <$> id_serial f) m in
  let m := insert_opt "signature" (VString <$> id_signature f) m in
  let m := insert_opt "cert_format" (VString <$> id_cert_format f) m in
  let m := insert_opt "cert_chain" (vstrings <$> id_cert_chain f) m in
  let m := insert_opt "ocsp_staple" (VString <$> id_ocsp_staple f) m in
  let m := insert_opt "reputation_policy" (id_reputation_policy f ≫= hint_to_value) m in
  insert_opt "node_roles" (vstrings <$> id_node_roles f) m.

Definition IdentFrame_from_dict (d : FrameDict) : NpsResult IdentFrame :=
  let assurance_level :=
    opt_str d "assurance_level" ≫= (fun s => match from_wire s with Ok l => Some l | Err _ => None end) in
  nid ← get_str d "nid";
  pub_key ← get_str d "pub_key";
  Ok (mkIdent nid pub_key (map_get "metadata" d ≫= as_object) (opt_str d "signature")
        (default [] (opt_strings d "capabilities")) (map_get "scope" d)
        (opt_str d "issued_by") (opt_str d "issued_at") (opt_str d "expires_at")
        (opt_str d "serial") assurance_level (opt_str d "cert_format")
        (opt_strings d "cert_chain") (opt_str d "ocsp_staple")
        (map_get "reputation_policy" d ≫= hint_from_value) (opt_strings d "node_roles")).
End ident.

(** ** TrustFrame *)

Record TrustFrame : Type := mkTrust {
  tr_grantor_nid : string;
  tr_grantee_ca : string;
  tr_trust_scope : list string;
  tr_nodes : list string;
  tr_issued_at : string;
  tr_expires_at : string;
  tr_serial : string;
  tr_signer_nid : string;
  tr_signature : string
}.

Definition trust_unsigned_dict (f : TrustFrame) : FrameDict :=
  let m := map_insert "frame" (VString "0x21") [] in
  let m := map_insert "grantor_nid" (VString (tr_grantor_nid f)) m in
  let m := map_insert "grantee_ca" (VString (tr_grantee_ca f)) m in
  let m := map_insert "trust_scope" (vstrings (tr_trust_scope f)) m in
  let m := map_insert "nodes" (vstrings (tr_nodes f)) m in
  let m := map_insert "issued_at" (VString (tr_issued_at f)) m in
  let m := map_insert "expires_at" (VString (tr_expires_at f)) m in
  let m := map_insert "serial" (VString (tr_serial f)) m in
  map_insert "signer_nid" (VString (tr_signer_nid f)) m.

Definition TrustFrame_to_dict (f : TrustFrame) : FrameDict :=
  map_insert "signature" (VString (tr_signature f)) (trust_unsigned_dict f).

(** [Option::or_else]. *)
Definition or_else {A} (a b : option A) : option A := match a with Some _ => a | None => b end.

Definition TrustFrame_from_dict (d : FrameDict) : NpsResult TrustFrame :=
  grantor_nid ← ok_or (or_else (opt_str d "grantor_nid") (opt_str d "issuer_nid"))
                  (Frame "missing field: grantor_nid");
  grantee_ca ← ok_or (or_else (opt_str d "grantee_ca") (opt_str d "subject_nid"))
                  (Frame "missing field: grantee_ca");
  let trust_scope := default [] (or_else (opt_strings d "trust_scope") (opt_strings d "scopes")) in
  expires_at ← get_str d "expires_at";
  signature ← get_str d "signature";
  Ok (mkTrust grantor_nid grantee_ca trust_scope (default [] (opt_strings d "nodes"))
        (default "" (opt_str d "issued_at")) expires_at (default "" (opt_str d "serial"))
        (default "" (or_else (or_else (opt_str d "signer_nid") (opt_str d "grantor_nid"))
                             (opt_str d "issuer_nid")))
        signature).

(** ** RevokeFrame *)

Definition REVOKE_FRAME_INVALID : string := "NIP-REVOKE-FRAME-INVALID".
Definition REASON_PARENT_REVOKED : string := "parent_revoked".

Record RevokeFrame : Type := mkRevoke {
  rv_target_nid : string;
  rv_serial : option string;
  rv_reason : string;
  rv_revoked_at : string;
  rv_parent_nid : option string;
  rv_signer_nid : string;
  rv_signature : string
}.

Definition revoke_unsigned_dict (f : RevokeFrame) : FrameDict :=
  let m := map_insert "frame" (VString "0x22") [] in
  let m := map_insert "target_nid" (VString (rv_target_nid f)) m in
  let m := map_insert "reason" (VString (rv_reason f)) m in
  let m := map_insert "revoked_at" (VString (rv_revoked_at f)) m in
  let m := map_insert "signer_nid" (VString (rv_signer_nid f)) m in
  let m := insert_opt "serial" (VString <$> rv_serial f) m in
  insert_opt "parent_nid" (VString <$> rv_parent_nid f) m.

Definition RevokeFrame_to_dict (f : RevokeFrame) : FrameDict :=
  map_insert "signature" (VString (rv_signature f)) (revoke_unsigned_dict f).

Definition revoke_validate (f : RevokeFrame) : NpsResult unit :=
  if String.eqb (rv_reason f) REASON_PARENT_REVOKED
  then
    if is_empty (default "" (rv_parent_nid f))
    then Err (Frame (REVOKE_FRAME_INVALID +:+ ": parent_nid is required when reason=parent_revoked"))
    else Ok tt
  else
    match rv_parent_nid f with
    | Some _ => Err (Frame (REVOKE_FRAME_INVALID
                  +:+ ": parent_nid must be omitted unless reason=parent_revoked"))
    | None => Ok tt
    end.

Definition RevokeFrame_from_dict (d : FrameDict) : NpsResult RevokeFrame :=
  target_nid ← ok_or (or_else (opt_str d "target_nid") (opt_str d "nid"))
                 (Frame "missing field: target_nid");
  reason ← get_str d "reason";
  revoked_at ← get_str d "revoked_at";
  let frame := mkRevoke target_nid (opt_str d "serial") reason revoked_at (opt_str d "parent_nid")
                 (default "" (opt_str d "signer_nid")) (default "" (opt_str d "signature")) in
  _ ← revoke_validate frame;
  Ok frame.

(** ** Lemmas *)

Lemma from_wire_wire `{DebugText} l : In l [ANONYMOUS; ATTESTED; VERIFIED] -> from_wire (wire l) = Ok l.
Proof. intros [<-|[<-|[<-|[]]]]; reflexivity. Qed.

Lemma from_rank_Ok r l : from_rank r = Ok l <-> In l [ANONYMOUS; ATTESTED; VERIFIED] /\ rank l = r.
Proof.
  unfold from_rank. destruct (List.find _ _) as [l'|] eqn:E.
  - apply find_some in E as [Hin Hr%Z.eqb_eq]. split; [by intros [= <-] |].
    intros [Hin' Hr']. f_equal. subst r.
    destruct Hin as [<-|[<-|[<-|[]]]], Hin' as [<-|[<-|[<-|[]]]]; done.
  - split; [done |]. intros [Hin Hr]. eapply find_none in E; [|exact Hin].
    by apply Z.eqb_neq in E.
Qed.

Lemma nonempty_back l : default [] (strings_of <$> (nonempty_strings l ≫= as_array)) = l.
Proof. destruct l as [|s l]; [done |]. cbn. by rewrite strings_of_map. Qed.

Lemma opt_object_back' (o : option Map) : (VObject <$> o) ≫= as_object = o.
Proof. by destruct o. Qed.

(** The chain of insertions behind [to_dict]. *)
Definition ident_signed_entries (f : IdentFrame) : list (string * option Value) :=
  [("nid", Some (VString (id_nid f))); ("pub_key", Some (VString (id_pub_key f)));
   ("metadata", VObject <$> id_meta f);
   ("assurance_level", VString <$> (wire <$> id_assurance_level f))].

(** What the signature of an Ident frame covers. *)
Definition ident_signed_part (f : IdentFrame) : string * string * option Map * option string :=
  (id_nid f, id_pub_key f, id_meta f, wire <$> id_assurance_level f).

Lemma ident_unsigned_inj f g :
  ident_unsigned_dict f = ident_unsigned_dict g <-> ident_signed_part f = ident_signed_part g.
Proof.
  change (ident_unsigned_dict f) with (dict_of (ident_signed_entries f)).
  change (ident_unsigned_dict g) with (dict_of (ident_signed_entries g)).
  unfold ident_signed_part, ident_signed_entries. split.
  - intros E.
    assert (G : forall k, last_of k (ident_signed_entries f) = last_of k (ident_signed_entries g))
      by (intros k; rewrite <-!map_get_dict_of; by f_equal).
    pose proof (G "nid") as G1. pose proof (G "pub_key") as G2. pose proof (G "metadata") as G3.
    pose proof (G "assurance_level") as G4. cbn in G1, G2, G3, G4.
    destruct (id_meta f), (id_meta g), (id_assurance_level f), (id_assurance_level g);
      cbn in *; congruence.
  - intros [= -> -> -> ->]. done.
Qed.

Section roundtrips.
Context `{HintSerdeLaws} `{DebugText}.

Definition known_level (f : IdentFrame) : Prop :=
  forall l, id_assurance_level f = Some l -> In l [ANONYMOUS; ATTESTED; VERIFIED].

Lemma level_back (o : option AssuranceLevel) :
  (forall l, o = Some l -> In l [ANONYMOUS; ATTESTED; VERIFIED]) ->
  (wire <$> o) ≫= (fun s => match from_wire s with Ok l => Some l | Err _ => None end) = o.
Proof. destruct o as [l|]; [|done]. intros Hl. cbn. by rewrite from_wire_wire by auto. Qed.

Lemma hint_back (o : option IdentReputationPolicyHint) :
  (o ≫= hint_to_value) ≫= hint_from_value = o.
Proof.
  destruct o as [h|]; [|done]. cbn. destruct (hint_written h) as [v Hv]. rewrite Hv. cbn.
  by apply hint_roundtrip.
Qed.

Lemma IdentFrame_roundtrip f : known_level f -> IdentFrame_from_dict (IdentFrame_to_dict f) = Ok f.
Proof.
  intros Hl.
  assert (E : IdentFrame_to_dict f = dict_of (ident_signed_entries f ++
    [("capabilities", nonempty_strings (id_capabilities f)); ("scope", id_scope f);
     ("issued_by", VString <$> id_issued_by f); ("issued_at", VString <$> id_issued_at f);
     ("expires_at", VString <$> id_expires_at f); ("serial", VString <$> id_serial f);
     ("signature", VString <$> id_signature f); ("cert_format", VString <$> id_cert_format f);
     ("cert_chain", vstrings <$> id_cert_chain f); ("ocsp_staple", VString <$> id_ocsp_staple f);
     ("reputation_policy", id_reputation_policy f ≫= hint_to_value);
     ("node_roles", vstrings <$> id_node_roles f)])) by done.
  unfold IdentFrame_from_dict, ident_signed_entries in *. cbn [app] in E.
  frame_roundtrip E. rewrite nonempty_back, opt_object_back', level_back, hint_back by done.
  by destruct f.
Qed.

Lemma TrustFrame_roundtrip f : TrustFrame_from_dict (TrustFrame_to_dict f) = Ok f.
Proof.
  assert (E : TrustFrame_to_dict f = dict_of
    [("frame", Some (VString "0x21")); ("grantor_nid", Some (VString (tr_grantor_nid f)));
     ("grantee_ca", Some (VString (tr_grantee_ca f)));
     ("trust_scope", Some (vstrings (tr_trust_scope f))); ("nodes", Some (vstrings (tr_nodes f)));
     ("issued_at", Some (VString (tr_issued_at f))); ("expires_at", Some (VString (tr_expires_at f)));
     ("serial", Some (VString (tr_serial f))); ("signer_nid", Some (VString (tr_signer_nid f)));
     ("signature", Some (VString (tr_signature f)))]) by done.
  unfold TrustFrame_from_dict, or_else. frame_roundtrip E. by destruct f.
Qed.

Lemma RevokeFrame_from_to f :
  RevokeFrame_from_dict (RevokeFrame_to_dict f) = (_ ← revoke_validate f; Ok f).
Proof.
  assert (E : RevokeFrame_to_dict f = dict_of
    [("frame", Some (VString "0x22")); ("target_nid", Some (VString (rv_target_nid f)));
     ("reason", Some (VString (rv_reason f))); ("revoked_at", Some (VString (rv_revoked_at f)));
     ("signer_nid", Some (VString (rv_signer_nid f))); ("serial", VString <$> rv_serial f);
     ("parent_nid", VString <$> rv_parent_nid f); ("signature", Some (VString (rv_signature f)))])
    by done.
  unfold RevokeFrame_from_dict, or_else. frame_roundtrip E. by destruct f.
Qed.

(** The rule of a revocation: a parent is named exactly when it is the reason. *)
Definition revoke_ok (f : RevokeFrame) : Prop :=
  (rv_reason f = REASON_PARENT_REVOKED -> exists p, rv_parent_nid f = Some p /\ p <> "") /\
  (rv_reason f <> REASON_PARENT_REVOKED -> rv_parent_nid f = None).

Lemma revoke_validate_Ok f : revoke_validate f = Ok tt <-> revoke_ok f.
Proof.
  unfold revoke_validate, revoke_ok. destruct (String.eqb_spec (rv_reason f) REASON_PARENT_REVOKED) as [E|E].
  - destruct (rv_parent_nid f) as [[|a p]|]; cbn.
    + split; [done |]. intros [Hx _]. destruct (Hx E) as (q & [= <-] & ?). done.
    + split; [|done]. intros _. split; [by eexists | done].
    + split; [done |]. intros [Hx _]. by destruct (Hx E) as (q & ? & ?).
  - destruct (rv_parent_nid f); split; try done. intros [_ Hx]. by specialize (Hx E).
Qed.

(** The identity frames survive their dictionaries (an Ident frame whose
    assurance level is one of the three), and a Revoke frame does exactly when
    it names a parent if and only if its reason is that the parent was revoked;
    no dictionary decodes to a Revoke frame that breaks that rule. *)
Theorem nip_frames_roundtrip :
  (forall f, known_level f -> IdentFrame_from_dict (IdentFrame_to_dict f) = Ok f) /\
  (forall f, TrustFrame_from_dict (TrustFrame_to_dict f) = Ok f) /\
  (forall f, RevokeFrame_from_dict (RevokeFrame_to_dict f) = Ok f <-> revoke_ok f) /\
  (forall d f, RevokeFrame_from_dict d = Ok f -> revoke_ok f).
Proof.
  split; [exact IdentFrame_roundtrip |]. split; [exact TrustFrame_roundtrip |]. split.
  - intros f. rewrite RevokeFrame_from_to, result_bind_Ok, <-revoke_validate_Ok. split.
    + by intros ([] & ? & _).
    + by exists tt.
  - intros d f. unfold RevokeFrame_from_dict. rewrite !result_bind_Ok.
    intros (t & _ & Ht). apply result_bind_Ok in Ht as (r & _ & Hr).
    apply result_bind_Ok in Hr as (v & _ & Hv). apply result_bind_Ok in Hv as ([] & Hv & [= <-]).
    by apply revoke_validate_Ok.
Qed.
End roundtrips.

(** ** Witness *)

(** The derived object form of the hint. *)
Definition object_hint : HintSerde := {|
  hint_to_value h := Some (VObject (dict_of
    [("log_sources", nonempty_strings (log_sources h)); ("consent", Some (VBool (consent h)))]));
  hint_from_value v := match v with
    | VObject m => Some (mkHint (default [] (opt_strings m "log_sources")) (default false (opt_bool m "consent")))
    | _ => None end |}.
Lemma object_hint_laws : @HintSerdeLaws object_hint.
Proof.
  split; [by eexists |]. intros [l c] v [= <-]. cbn [hint_from_value object_hint].
  unfold opt_strings, opt_bool. get_literal. rewrite nonempty_back. done.
Qed.
Definition quoted : DebugText := {| debug_str s := s |}.

Lemma nip_frames_roundtrip_witness :
  let f := mkRevoke "urn:nps:agent:x:a" None "parent_revoked" "2026-01-01T00:00:00Z"
             (Some "urn:nps:agent:x:p") "" "" in
  RevokeFrame_from_dict (RevokeFrame_to_dict f) = Ok f.
Proof.
  destruct (@nip_frames_roundtrip object_hint object_hint_laws quoted) as (_ & _ & H & _).
  apply H. split; [intros _; by eexists | done].
Defined.
