(* ===== verification/NipDer.v ===== *)
(** * NipDer: DER reading and Phase-3 enforcement

    Models nps-nip/src/phase3.rs and the encoders of nps-nip/src/x509/oids.rs.
    A cursor [Der] is the bytes that remain after its position.  Base64, the
    calendar of the time crate and the Display of a date are parameters; a
    date is its number of nanoseconds since the epoch. *)

From S2P Require Import Prelude RustStr Floats Json CoreFrames NcpFrames NipFrames.
Local Open Scope Z_scope.

Class Base64 : Type := {
  b64_standard : string -> result string (list Z);
  b64_url_no_pad : string -> result string (list Z);
  b64_url : string -> result string (list Z)
}.

(** [Date::from_calendar_date], [Time::from_hms], [assume_utc] and [Display]. *)
Class Calendar : Type := {
  utc_datetime : Z -> Z -> Z -> Z -> Z -> Z -> option Z;
  show_datetime : Z -> string
}.

(** ** Results shared by the verifiers *)

Record NipIdentVerifyResult : Type := mkVerify {
  valid : bool;
  step_failed : Z;
  vr_error_code : option string;
  message : option string
}.

Definition ok : NipIdentVerifyResult := mkVerify true 0 None None.
Definition fail (step : Z) (code msg : string) : NipIdentVerifyResult :=
  mkVerify false step (Some code) (Some msg).

Definition CERT_NODE_ROLES_MISMATCH : string := "NIP-CERT-NODE-ROLES-MISMATCH".
Definition CERT_CAPABILITIES_EXCEEDED : string := "NIP-CERT-CAPABILITIES-EXCEEDED".
Definition OCSP_STAPLE_EXPIRED : string := "NIP-OCSP-STAPLE-EXPIRED".

(** ** The cursor *)

(** A DER length prefix: the content length and the size of the prefix. *)
Definition read_len (b : list Z) : option (nat * nat) :=
  match b with
  | [] => None
  | first :: rest =>
    if Z.land first 128 =? 0 then Some (Z.to_nat first, 1%nat)
    else
      let n := Z.to_nat (Z.land first 127) in
      if (n =? 0)%nat || (4 <? n)%nat || (length rest <? n)%nat then None
      else Some (Z.to_nat (fold_left (fun len x => Z.lor (Z.shiftl len 8) x) (take n rest) 0), S n)
  end.

(** [Der::read]: the tag, the content, and the bytes after it. *)
Definition der_read (b : list Z) : option (Z * list Z * list Z) :=
  match b with
  | tag :: (_ :: _) as rest =>
    '(len, hdr) ← read_len rest;
    if (length rest <? hdr + len)%nat then None
    else Some (tag, take len (drop hdr rest), drop (hdr + len) rest)
  | _ => None
  end.

Definition at_end (b : list Z) : bool := match b with [] => true | _ => false end.

(** ** UTF-8 *)

Definition is_cont (b : Z) : bool := (128 <=? b) && (b <=? 191).

(** [String::from_utf8] accepts exactly the well-formed sequences. *)
Fixpoint utf8_valid (l : list Z) : bool :=
  match l with
  | [] => true
  | b0 :: r0 =>
    if b0 <? 128 then utf8_valid r0
    else match r0 with
    | [] => false
    | b1 :: r1 =>
      if (194 <=? b0) && (b0 <=? 223) then is_cont b1 && utf8_valid r1
      else match r1 with
      | [] => false
      | b2 :: r2 =>
        if (224 <=? b0) && (b0 <=? 239)
        then ((if b0 =? 224 then 160 else 128) <=? b1) && (b1 <=? (if b0 =? 237 then 159 else 191))
             && is_cont b2 && utf8_valid r2
        else match r2 with
        | [] => false
        | b3 :: r3 =>
          if (240 <=? b0) && (b0 <=? 244)
          then ((if b0 =? 240 then 144 else 128) <=? b1) && (b1 <=? (if b0 =? 244 then 143 else 191))
               && is_cont b2 && is_cont b3 && utf8_valid r3
          else false
        end
      end
    end
  end.

Definition from_utf8 (l : list Z) : option string :=
  if utf8_valid l then Some (of_bytes l) else None.

(** ** OIDs *)

(** Base-128 digits of [n >= 128], the last without the continuation bit. *)
Fixpoint base128 (fuel : nat) (v : Z) : list Z :=
  match fuel with
  | O => []
  | S k => if v =? 0 then [] else base128 k (v / 128) ++ [v mod 128 + 128]
  end.

(** Ten digits cover a [u64]. *)
Definition oid_component (n : Z) : list Z :=
  if n <? 128 then [n] else base128 10 (n / 128) ++ [n mod 128].

Definition encode_oid_content (oid : list Z) : list Z :=
  match oid with
  | a :: b :: rest => wrap_u8 (a * 40 + b) :: concat (map oid_component rest)
  | _ => []
  end.

Definition EKU_AGENT_IDENTITY_OID : list Z := [1; 3; 6; 1; 4; 1; 65715; 1; 1].
Definition EKU_NODE_IDENTITY_OID : list Z := [1; 3; 6; 1; 4; 1; 65715; 1; 2].
Definition NID_ASSURANCE_LEVEL_OID : list Z := [1; 3; 6; 1; 4; 1; 65715; 2; 1].
Definition ID_NPS_NODE_ROLES_OID : list Z := [1; 3; 6; 1; 4; 1; 65715; 2; 2].
Definition ID_NPS_CAPABILITIES_OID : list Z := [1; 3; 6; 1; 4; 1; 65715; 2; 3].
Definition EXTENSION_EXTENDED_KEY_USAGE_OID : list Z := [2; 5; 29; 37].

Definition build_eku_extension_value (eku_oid : list Z) : list Z :=
  let oid_content := encode_oid_content eku_oid in
  let oid_tlv := 6 :: wrap_u8 (Z.of_nat (length oid_content)) :: oid_content in
  48 :: wrap_u8 (Z.of_nat (length oid_tlv)) :: oid_tlv.

(** ** SEQUENCE OF UTF8String *)

(** The loop over the elements; the length of the input bounds it. *)
Fixpoint utf8_items (fuel : nat) (b : list Z) : option (list string) :=
  if at_end b then Some []
  else match fuel with
  | O => None
  | S k =>
    '(t, c, rest) ← der_read b;
    if negb (t =? 12) then None
    else s ← from_utf8 c; out ← utf8_items k rest; Some (s :: out)
  end.

Definition parse_utf8_sequence (value : list Z) : option (list string) :=
  '(tag, content, _) ← der_read value;
  if negb (tag =? 48) then None else utf8_items (length content) content.

Definition encode_len (n : nat) : list Z :=
  let z := Z.of_nat n in
  if z <? 128 then [wrap_u8 z]
  else if z <? 256 then [129; wrap_u8 z]
  else [130; wrap_u8 (Z.shiftr z 8); wrap_u8 (Z.land z 255)].

Definition tlv (tag : Z) (content : list Z) : list Z := tag :: encode_len (length content) ++ content.

Definition build_utf8_sequence_extension_value (values : list string) : list Z :=
  let inner := fold_left (fun inner v => inner ++ [12] ++ encode_len (length (bytes_of v)) ++ bytes_of v)
                 values [] in
  [48] ++ encode_len (length inner) ++ inner.

(** ** Extensions of a certificate *)

(** Walk tbsCertificate to the [3] EXPLICIT block. *)
Fixpoint find_extensions (fuel : nat) (b : list Z) : option (list Z) :=
  match fuel with
  | O => None
  | S k => '(t, v, rest) ← der_read b; if t =? 163 then Some v else find_extensions k rest
  end.

Fixpoint find_extension (fuel : nat) (wanted it : list Z) : option (list Z) :=
  match fuel with
  | O => None
  | S k =>
    match der_read it with
    | None => None
    | Some (t, ext, rest) =>
      if negb (t =? 48) then find_extension k wanted rest
      else match der_read ext with
      | None => find_extension k wanted rest
      | Some (ot, ov, e) =>
        if negb (ot =? 6) || negb (bool_decide (ov = wanted)) then find_extension k wanted rest
        else
          let next := match der_read e with
                      | Some (1, _, e') => der_read e'
                      | x => x
                      end in
          match next with
          | Some (4, value, _) => Some value
          | _ => None
          end
      end
    end
  end.

Definition find_extension_value (cert_der : list Z) (oid : list Z) : option (list Z) :=
  let wanted := encode_oid_content oid in
  '(t, cert, _) ← der_read cert_der;
  if negb (t =? 48) then None else
  '(t, tbs, _) ← der_read cert;
  if negb (t =? 48) then None else
  exts ← find_extensions (S (length tbs)) tbs;
  '(t, ext_seq, _) ← der_read exts;
  if negb (t =? 48) then None else find_extension (S (length ext_seq)) wanted ext_seq.

Definition read_utf8_sequence_extension (leaf_der oid : list Z) : option (list string) :=
  raw ← find_extension_value leaf_der oid;
  Some (default [] (parse_utf8_sequence raw)).

(** ** The OCSP staple *)

(** The content of the first response's nextUpdate. *)
Definition ocsp_next_update_content (der : list Z) : option (list Z) :=
  '(tag, body, _) ← der_read der;
  if negb (tag =? 48) then None else
  '(status_tag, _, resp) ← der_read body;
  if negb (status_tag =? 10) then None else
  '(rb_tag, rb, _) ← der_read resp;
  if negb (rb_tag =? 160) then None else
  '(t, rb_seq, _) ← der_read rb;
  if negb (t =? 48) then None else
  '(oid_tag, _, rbs) ← der_read rb_seq;
  if negb (oid_tag =? 6) then None else
  '(os_tag, basic_der, _) ← der_read rbs;
  if negb (os_tag =? 4) then None else
  '(t, basic, _) ← der_read basic_der;
  if negb (t =? 48) then None else
  '(t, tbs, _) ← der_read basic;
  if negb (t =? 48) then None else
  cur ← der_read tbs;
  cur ← (let '(t, _, rd) := cur in if t =? 160 then der_read rd else Some cur);
  cur ← (let '(t, _, rd) := cur in if Z.land t 192 =? 128 then der_read rd else Some cur);
  cur ← (let '(t, _, rd) := cur in if (t =? 24) || (t =? 23) then der_read rd else Some cur);
  let '(t, responses, _) := cur in
  if negb (t =? 48) then None else
  '(t, single, _) ← der_read responses;
  if negb (t =? 48) then None else
  '(t, _, sr) ← der_read single;
  if negb (t =? 48) then None else
  '(t, _, sr) ← der_read sr;
  if negb (Z.land t 192 =? 128) then None else
  '(t, _, sr) ← der_read sr;
  if negb (t =? 24) && negb (t =? 23) then None else
  '(t, next, _) ← der_read sr;
  if negb (t =? 160) then None else
  '(t, gt, _) ← der_read next;
  if negb (t =? 24) then None else Some gt.

(** [str::parse::<i64>] of at most four bytes. *)
Definition parse_i64 (s : list Z) : option Z :=
  match s with
  | 43 :: (_ :: _) as r => digits_val 0 r
  | 45 :: (_ :: _) as r => Z.opp <$> digits_val 0 r
  | [] | [43] | [45] => None
  | _ => digits_val 0 s
  end.

(** [s.is_char_boundary(i)], for valid UTF-8. *)
Definition is_char_boundary (s : list Z) (i : nat) : bool :=
  match s !! i with Some b => negb (is_cont b) | None => (i =? length s)%nat end.

(** [&s[a..b]]: the outer [None] is the panic off a character boundary. *)
Definition str_slice (s : list Z) (a b : nat) : option (list Z) :=
  if is_char_boundary s a && is_char_boundary s b then Some (slice a b s) else None.

(** The bytes before the first dot. *)
Definition before_dot (s : list Z) : list Z := take_while (fun b => negb (b =? 46)) s.

Section phase3.
Context `{Base64} `{Calendar}.

(** The closure [num]: [None] is a panic, [Some None] a parse error. *)
Definition num (s : list Z) (a b : nat) : option (option Z) :=
  r ← str_slice s a b; Some (parse_i64 r).

(** [None] is a panic. *)
Definition parse_generalized_time (b : list Z) : option (option Z) :=
  if negb (utf8_valid b) then Some None
  else match rev b with
  | 90 :: r =>
    let s := before_dot (rev r) in
    if negb (length s =? 14)%nat then Some None
    else
      year ← num s 0 4; match year with None => Some None | Some year =>
      month ← num s 4 6; match month with None => Some None | Some month =>
      day ← num s 6 8; match day with None => Some None | Some day =>
      hour ← num s 8 10; match hour with None => Some None | Some hour =>
      min ← num s 10 12; match min with None => Some None | Some min =>
      sec ← num s 12 14; match sec with None => Some None | Some sec =>
      Some (utc_datetime year (wrap_u8 month) (wrap_u8 day) (wrap_u8 hour) (wrap_u8 min) (wrap_u8 sec))
      end end end end end end
  | _ => Some None
  end.

Definition try_get_ocsp_next_update (der : list Z) : option (option Z) :=
  match ocsp_next_update_content der with
  | None => Some None
  | Some gt => parse_generalized_time gt
  end.

Definition phase3_base64url_decode (s : string) : option (list Z) :=
  match b64_url_no_pad s with
  | Ok b => Some b
  | Err _ =>
    match b64_url s with
    | Ok b => Some b
    | Err _ => match b64_standard s with Ok b => Some b | Err _ => None end
    end
  end.

(** [claimed \ attested], in the order claimed. *)
Definition excess (claimed attested : list string) : list string :=
  List.filter (fun c => negb (existsb (fun a => String.eqb a c) attested)) claimed.

Definition STEP : Z := 3.

(** The two subset checks: the first failure. *)
Definition check_attested (attested : option (list string)) (claimed : list string)
    (code text : string) : option NipIdentVerifyResult :=
  a ← attested;
  let ex := excess claimed a in
  match ex with [] => None | _ => Some (fail STEP code (text +:+ join ", " ex +:+ ".")) end.

(** The staple check; [None] is a panic. *)
Definition check_staple (staple : string) (now : Z) : option NipIdentVerifyResult :=
  if is_empty staple
  then Some (fail STEP OCSP_STAPLE_EXPIRED
    "Phase-3 enforcement requires ocsp_staple on v2-x509 IdentFrames; none was supplied.")
  else match phase3_base64url_decode staple with
  | None => Some (fail STEP OCSP_STAPLE_EXPIRED "ocsp_staple is not valid base64url.")
  | Some der =>
    next_update ← try_get_ocsp_next_update der;
    match next_update with
    | None => Some (fail STEP OCSP_STAPLE_EXPIRED
        "ocsp_staple could not be parsed as a DER OCSPResponse with a nextUpdate.")
    | Some t =>
      if t <=? now
      then Some (fail STEP OCSP_STAPLE_EXPIRED
             ("ocsp_staple nextUpdate " +:+ show_datetime t +:+ " has elapsed."))
      else Some ok
    end
  end.

Definition enforce (frame : IdentFrame) (leaf_der : list Z) (now : Z) : option NipIdentVerifyResult :=
  match check_attested (read_utf8_sequence_extension leaf_der ID_NPS_NODE_ROLES_OID)
          (default [] (id_node_roles frame)) CERT_NODE_ROLES_MISMATCH
          "IdentFrame.node_roles claims role(s) not attested by id-nps-node-roles: " with
  | Some r => Some r
  | None =>
    match check_attested (read_utf8_sequence_extension leaf_der ID_NPS_CAPABILITIES_OID)
            (id_capabilities frame) CERT_CAPABILITIES_EXCEEDED
            "IdentFrame.capabilities claims capabilit(ies) not attested by id-nps-capabilities: " with
    | Some r => Some r
    | None => check_staple (default "" (id_ocsp_staple frame)) now
    end
  end.
End phase3.

(** ** Lemmas: the cursor *)

Lemma land_pow2_sub (z : Z) : 0 <= z -> Z.land z 255 = z mod 256.
Proof. intros _. change 255 with (Z.ones 8). by rewrite Z.land_ones. Qed.

Lemma lor_shiftl_8 (h l : Z) : 0 <= l < 256 -> Z.lor (Z.shiftl h 8) l = h * 256 + l.
Proof.
  intros Hl. rewrite Z.shiftl_mul_pow2 by lia. change (h * 256) with (h * 2 ^ 8).
  symmetry. apply Z.add_nocarry_lor. apply Z.bits_inj'. intros i Hi. rewrite Z.land_spec, Z.bits_0.
  destruct (Z.ltb_spec i 8).
  - by rewrite Z.mul_pow2_bits_low.
  - destruct (decide (l = 0)) as [->|]; [by rewrite Z.bits_0, andb_false_r |].
    rewrite (Z.bits_above_log2 l); [by rewrite andb_false_r | lia |].
    apply Z.log2_lt_pow2; [lia |]. assert (2 ^ 8 <= 2 ^ i) by (apply Z.pow_le_mono_r; lia). lia.
Qed.

Lemma read_len_encode n rest : Z.of_nat n < 65536 ->
  read_len (encode_len n ++ rest) = Some (n, length (encode_len n)).
Proof.
  intros Hn. unfold encode_len. set (z := Z.of_nat n).
  assert (Hz : Z.to_nat z = n) by apply Nat2Z.id.
  assert (Hr : 0 <= z < 65536) by lia. clearbody z.
  destruct (Z.ltb_spec z 128).
  - cbn [app read_len length]. unfold wrap_u8. rewrite Z.mod_small by lia.
    assert (Z.land z 128 = 0) as ->.
    { apply Z.bits_inj'. intros i Hi. rewrite Z.land_spec, Z.bits_0.
      destruct (decide (i = 7)) as [->|].
      - destruct (decide (z = 0)) as [->|]; [done |].
        rewrite (Z.bits_above_log2 z); [done | lia |]. apply Z.log2_lt_pow2; lia.
      - replace (Z.testbit 128 i) with false; [by rewrite andb_false_r |].
        symmetry. change 128 with (2 ^ 7). apply Z.pow2_bits_false. lia. }
    cbn. by rewrite Hz.
  - destruct (Z.ltb_spec z 256).
    + cbn [app read_len]. unfold wrap_u8. rewrite Z.mod_small by lia.
      change (Z.land 129 128) with 128. change (Z.to_nat (Z.land 129 127)) with 1%nat.
      cbn -[Z.shiftl Z.lor]. rewrite take_0. cbn [fold_left]. by rewrite Z.shiftl_0_l, Z.lor_0_l, Hz.
    + cbn [app read_len].
      change (Z.land 130 128) with 128. change (Z.to_nat (Z.land 130 127)) with 2%nat.
      cbn -[Z.shiftl Z.lor Z.shiftr Z.land]. rewrite take_0. cbn [fold_left]. rewrite Z.shiftl_0_l, Z.lor_0_l, land_pow2_sub by lia.
      unfold wrap_u8. rewrite Z.shiftr_div_pow2 by lia. change (2 ^ 8) with 256.
      assert (z / 256 < 256) by (apply Z.div_lt_upper_bound; lia).
      assert (0 <= z / 256) by (apply Z.div_pos; lia).
      rewrite (Z.mod_small (z / 256)), Z.mod_mod by lia.
      rewrite lor_shiftl_8 by (apply Z.mod_pos_bound; lia).
      rewrite Z.mul_comm, <-Z.div_mod by lia. by rewrite Hz.
Qed.

Lemma encode_len_cons n : exists b l, encode_len n = b :: l.
Proof. unfold encode_len. repeat case_match; by eexists _, _. Qed.

Lemma der_read_tlv tag content rest : Z.of_nat (length content) < 65536 ->
  der_read (tlv tag content ++ rest) = Some (tag, content, rest).
Proof.
  intros Hc. unfold tlv. cbn [app]. rewrite <-app_assoc. unfold der_read.
  destruct (encode_len_cons (length content)) as (b & l & E).
  pose proof (read_len_encode (length content) (content ++ rest) Hc) as Hr. rewrite E in *.
  cbn [app]. cbn [app] in Hr. rewrite Hr. cbn [mbind option_bind].
  change (b :: l ++ content ++ rest) with ((b :: l) ++ content ++ rest).
  destruct (Nat.ltb_spec (length ((b :: l) ++ content ++ rest)) (length (b :: l) + length content)).
  { rewrite !length_app in *. lia. }
  rewrite drop_app_length, take_app_length.
  by rewrite <-drop_drop, drop_app_length, drop_app_length.
Qed.

Lemma tlv_length tag c : Z.of_nat (length c) < 65536 -> (length c < length (tlv tag c))%nat.
Proof. intros _. unfold tlv. cbn. rewrite length_app. lia. Qed.

Lemma tlv_not_end tag c rest : at_end (tlv tag c ++ rest) = false.
Proof. done. Qed.

(** ** Lemmas: attested lists *)

Definition utf8_string (s : string) : Prop := utf8_valid (bytes_of s) = true.

Definition items_bytes (values : list string) : list Z :=
  concat (map (fun v => tlv 12 (bytes_of v)) values).

Lemma build_items values :
  build_utf8_sequence_extension_value values = tlv 48 (items_bytes values).
Proof.
  unfold build_utf8_sequence_extension_value, items_bytes.
  assert (E : forall acc, fold_left (fun inner v => inner ++ [12] ++ encode_len (length (bytes_of v))
      ++ bytes_of v) values acc = acc ++ concat (map (fun v => tlv 12 (bytes_of v)) values)).
  { induction values as [|v vs IH]; intros acc; cbn [fold_left map concat]; [by rewrite app_nil_r |].
    rewrite IH. unfold tlv. rewrite <-!app_assoc. cbn [app]. by rewrite <-!app_assoc. }
  by rewrite E.
Qed.

Lemma items_length v values :
  length (items_bytes (v :: values)) = (length (tlv 12 (bytes_of v)) + length (items_bytes values))%nat.
Proof. unfold items_bytes. cbn [map concat]. by rewrite length_app. Qed.

Lemma utf8_items_back values fuel :
  Forall utf8_string values -> Z.of_nat (length (items_bytes values)) < 65536 ->
  (length (items_bytes values) <= fuel)%nat -> utf8_items fuel (items_bytes values) = Some values.
Proof.
  revert fuel; induction values as [|v values IH]; intros fuel Hu Hl Hf; [by destruct fuel |].
  inversion_clear Hu as [|? ? Hv Hvs]. rewrite items_length in Hl, Hf.
  assert (Hb : (length (bytes_of v) < length (tlv 12 (bytes_of v)))%nat)
    by (unfold tlv; cbn; rewrite length_app; lia).
  destruct fuel as [|fuel]; [lia |]. cbn [utf8_items].
  change (items_bytes (v :: values)) with (tlv 12 (bytes_of v) ++ items_bytes values).
  rewrite tlv_not_end, der_read_tlv by lia. cbn [mbind option_bind negb Z.eqb Pos.eqb].
  unfold from_utf8. rewrite Hv. cbn [mbind option_bind].
  rewrite IH by (done || lia). cbn. by rewrite of_bytes_bytes_of.
Qed.

(** ** Lemmas: the subset checks *)

Lemma excess_nil claimed attested : excess claimed attested = [] <-> incl claimed attested.
Proof.
  unfold excess. split.
  - intros E c Hc. destruct (existsb (fun a => String.eqb a c) attested) eqn:Ex.
    + apply existsb_exists in Ex as (a & Ha & ->%String.eqb_eq). done.
    + assert (Hin : In c []); [|done]. rewrite <-E. apply filter_In. by rewrite Ex.
  - intros Hi. destruct (List.filter _ claimed) as [|c l] eqn:E; [done |].
    assert (Hc : In c (c :: l)) by by left. rewrite <-E in Hc.
    apply filter_In in Hc as [Hc Hn]. apply Hi in Hc.
    assert (existsb (fun a => String.eqb a c) attested = true) as Ht
      by (apply existsb_exists; exists c; split; [done | apply String.eqb_refl]).
    by rewrite Ht in Hn.
Qed.

(** The attestation allows the claim: absent, or a superset. *)
Definition attests (attested : option (list string)) (claimed : list string) : Prop :=
  forall a, attested = Some a -> incl claimed a.

Lemma check_attested_None attested claimed code text :
  check_attested attested claimed code text = None <-> attests attested claimed.
Proof.
  unfold check_attested, attests. destruct attested as [a|]; cbn; [|by split].
  destruct (excess claimed a) as [|c l] eqn:E.
  - split; [|done]. intros _ ? [= <-]. by apply excess_nil.
  - split; [done |]. intros Hi. specialize (Hi _ eq_refl). apply excess_nil in Hi. congruence.
Qed.

Lemma check_attested_invalid attested claimed code text r :
  check_attested attested claimed code text = Some r -> valid r = false /\ step_failed r = 3.
Proof.
  unfold check_attested. destruct attested as [a|]; cbn; [|done].
  destruct (excess claimed a); [done |]. by intros [= <-].
Qed.

Section phase3_theorems.
Context `{Base64} `{Calendar}.

(** A staple whose next update is after [now]. *)
Definition fresh_staple (staple : option string) (now : Z) : Prop :=
  exists s der t, staple = Some s /\ s <> "" /\ phase3_base64url_decode s = Some der /\
    try_get_ocsp_next_update der = Some (Some t) /\ now < t.

Lemma check_staple_ok staple now :
  check_staple (default "" staple) now = Some ok <-> fresh_staple staple now.
Proof.
  unfold check_staple, fresh_staple. destruct staple as [[|a s]|]; cbn [default id is_empty].
  - split; [done | naive_solver].
  - set (st := String.String a s). destruct (phase3_base64url_decode st) as [der|] eqn:Ed; [|by split; [|naive_solver]].
    destruct (try_get_ocsp_next_update der) as [[t|]|] eqn:Et; cbn; [|by split; [|naive_solver]..].
    destruct (Z.leb_spec t now).
    + split; [done |]. intros (s' & der' & t' & [= <-] & _ & E1 & E2 & Hlt).
      fold st in E1. rewrite Ed in E1. injection E1 as <-. rewrite Et in E2. injection E2 as <-. lia.
    + split; [|done]. intros _. by exists st, der, t.
  - split; [done | naive_solver].
Qed.

Lemma check_staple_invalid s now r :
  check_staple s now = Some r -> r = ok \/ (valid r = false /\ step_failed r = 3).
Proof.
  unfold check_staple. destruct (is_empty s); [intros [= <-]; by right |].
  destruct (phase3_base64url_decode s); [|intros [= <-]; by right].
  destruct (try_get_ocsp_next_update _) as [[t|]|]; cbn; [|intros [= <-]; by right | done].
  destruct (t <=? now); intros [= <-]; [by right | by left].
Qed.

Lemma enforce_ok f leaf now :
  enforce f leaf now = Some ok <->
  attests (read_utf8_sequence_extension leaf ID_NPS_NODE_ROLES_OID) (default [] (id_node_roles f)) /\
  attests (read_utf8_sequence_extension leaf ID_NPS_CAPABILITIES_OID) (id_capabilities f) /\
  fresh_staple (id_ocsp_staple f) now.
Proof.
  unfold enforce. destruct (check_attested _ (default [] _) _ _) as [r|] eqn:E1.
  { split.
    - intros [= ->]. by apply check_attested_invalid in E1 as [? _].
    - intros (Ha & _). eapply check_attested_None in Ha. rewrite E1 in Ha. done. }
  apply check_attested_None in E1. destruct (check_attested _ (id_capabilities f) _ _) as [r|] eqn:E2.
  { split.
    - intros [= ->]. by apply check_attested_invalid in E2 as [? _].
    - intros (_ & Ha & _). eapply check_attested_None in Ha. rewrite E2 in Ha. done. }
  apply check_attested_None in E2. rewrite check_staple_ok. tauto.
Qed.

Lemma enforce_invalid f leaf now r :
  enforce f leaf now = Some r -> r = ok \/ (valid r = false /\ step_failed r = 3).
Proof.
  unfold enforce. destruct (check_attested _ (default [] _) _ _) as [r1|] eqn:E1.
  { intros [= <-]. right. by eapply check_attested_invalid. }
  destruct (check_attested _ (id_capabilities f) _ _) as [r2|] eqn:E2.
  { intros [= <-]. right. by eapply check_attested_invalid. }
  apply check_staple_invalid.
Qed.

Lemma check_attested_code attested claimed code text r :
  check_attested attested claimed code text = Some r -> vr_error_code r = Some code.
Proof.
  unfold check_attested. destruct attested as [a|]; cbn; [|done].
  destruct (excess claimed a); [done |]. by intros [= <-].
Qed.

Lemma check_staple_code s now r :
  check_staple s now = Some r -> r = ok \/ vr_error_code r = Some OCSP_STAPLE_EXPIRED.
Proof.
  unfold check_staple. destruct (is_empty s); [intros [= <-]; by right |].
  destruct (phase3_base64url_decode s); [|intros [= <-]; by right].
  destruct (try_get_ocsp_next_update _) as [[t|]|]; cbn; [|intros [= <-]; by right | done].
  destruct (t <=? now); intros [= <-]; [by right | by left].
Qed.

(** Phase-3 enforcement accepts exactly when the roles and the
    capabilities a frame claims are among those the certificate attests (where
    it attests any) and the frame staples an OCSP response that is still
    fresh. Otherwise it fails at step 3, and its code is the first broken row:
    roles, then capabilities, then staple. *)
Theorem phase3_spec f leaf now :
  let roles := attests (read_utf8_sequence_extension leaf ID_NPS_NODE_ROLES_OID)
                 (default [] (id_node_roles f)) in
  let caps := attests (read_utf8_sequence_extension leaf ID_NPS_CAPABILITIES_OID) (id_capabilities f) in
  (enforce f leaf now = Some ok <-> roles /\ caps /\ fresh_staple (id_ocsp_staple f) now) /\
  forall r, enforce f leaf now = Some r -> r = ok \/
    (valid r = false /\ step_failed r = 3 /\
     (vr_error_code r = Some CERT_NODE_ROLES_MISMATCH /\ ~ roles \/
      vr_error_code r = Some CERT_CAPABILITIES_EXCEEDED /\ roles /\ ~ caps \/
      vr_error_code r = Some OCSP_STAPLE_EXPIRED /\ roles /\ caps /\
        ~ fresh_staple (id_ocsp_staple f) now)).
Proof.
  cbv zeta. split; [apply enforce_ok |]. intros r Hr.
  destruct (enforce_invalid _ _ _ _ Hr) as [->|[Hv Hs]]; [by left | right].
  split; [done |]. split; [done |]. revert Hr. unfold enforce.
  destruct (check_attested _ (default [] _) _ _) as [r1|] eqn:E1.
  { intros [= ->]. left. split; [by eapply check_attested_code |].
    intros Ha. eapply check_attested_None in Ha. by rewrite E1 in Ha. }
  destruct (check_attested _ (id_capabilities f) _ _) as [r2|] eqn:E2.
  { intros [= ->]. right; left. split; [by eapply check_attested_code |].
    split; [by eapply check_attested_None |].
    intros Ha. eapply check_attested_None in Ha. by rewrite E2 in Ha. }
  intros Hr. right; right. destruct (check_staple_code _ _ _ Hr) as [->|Hc]; [done |].
  split; [done |]. split; [by eapply check_attested_None |]. split; [by eapply check_attested_None |].
  intros Hf%check_staple_ok. rewrite Hr in Hf. injection Hf as ->. done.
Qed.

(** A staple whose date holds a character across a field boundary is a panic:
    the slice of a field falls inside the character. *)
Lemma staple_date_can_panic :
  parse_generalized_time (bytes_of "202" ++ [195; 169] ++ bytes_of "123456789Z") = None.
Proof. reflexivity. Qed.
End phase3_theorems.

(** The two TLV encodings agree with the reader. An element of less than
    64 KiB reads back as its tag and content, whatever follows it; and the
    attested list an issued certificate carries reads back as the list, when
    its strings are UTF-8 and its encoding is under 64 KiB. *)
Theorem attested_list_roundtrip :
  (forall tag content rest, Z.of_nat (length content) < 65536 ->
     der_read (tlv tag content ++ rest) = Some (tag, content, rest)) /\
  (forall values, Forall utf8_string values -> Z.of_nat (length (items_bytes values)) < 65536 ->
     parse_utf8_sequence (build_utf8_sequence_extension_value values) = Some values).
Proof.
  split; [exact der_read_tlv |]. intros values Hu Hl. rewrite build_items.
  unfold parse_utf8_sequence. rewrite <-(app_nil_r (tlv 48 _)), der_read_tlv by done.
  cbn [mbind option_bind negb Z.eqb Pos.eqb]. by apply utf8_items_back.
Qed.

(** At 64 KiB the length prefix is truncated, to that of an empty element. *)
Lemma long_element_length_lost n : Z.of_nat n = 65536 ->
  encode_len n = [130; 0; 0] /\ read_len (encode_len n) = Some (0%nat, 3%nat).
Proof. intros E. unfold encode_len. rewrite E. by split. Qed.

(** ** Witness *)

Lemma attested_list_roundtrip_witness :
  parse_utf8_sequence (build_utf8_sequence_extension_value ["memory"; "anchor"])
    = Some ["memory"; "anchor"].
Proof.
  destruct attested_list_roundtrip as [_ H]. apply H.
  - repeat constructor.
  - vm_compute. reflexivity.
Defined.
