(* ===== verification/NipX509.v ===== *)
(** * NipX509: verification of X.509 NID certificate chains

    Models nps-nip/src/x509/verifier.rs and [oid_equals] of x509/oids.rs.  The
    x509-parser crate is the parameter [X509Parser], its certificate reduced to
    the parts the verifier reads; Ed25519 is the parameter [Ed25519]. *)

From S2P Require Import Prelude RustStr Floats Json CoreFrames CoreCache NcpFrames NipFrames NipDer.
Local Open Scope Z_scope.

(** ed25519-dalek: [VerifyingKey::from_bytes], [Signature::from_slice],
    [Signature::from_bytes] (of 64 bytes) and [verify]. *)
Class Ed25519 : Type := {
  VerifyingKey : Type;
  Signature : Type;
  key_from_bytes : list Z -> result string VerifyingKey;
  sig_from_slice : list Z -> result string Signature;
  sig_from_bytes : list Z -> Signature;
  ed_verify : VerifyingKey -> list Z -> Signature -> result string unit
}.

(** The parts of a parsed extension: its OID components (when they iterate),
    and the OIDs of [ParsedExtension::ExtendedKeyUsage] when it is one. *)
Record X509Extension : Type := mkExt {
  ext_oid : option (list Z);
  ext_critical : bool;
  ext_value : list Z;
  ext_eku : option (list (option (list Z)))
}.

(** A common name or a general name that is not text, or not a URI, is [None]. *)
Record X509Certificate : Type := mkCert {
  x_der : list Z;
  x_tbs : list Z;
  x_signature : list Z;
  x_spki : list Z;
  x_extensions : list X509Extension;
  x_common_names : list (option string);
  x_san : option (list (option string))
}.

Class X509Parser : Type := { from_der : list Z -> result string X509Certificate }.

Definition CERT_FORMAT_INVALID : string := "NIP-CERT-FORMAT-INVALID".
Definition CERT_EKU_MISSING : string := "NIP-CERT-EKU-MISSING".
Definition CERT_SUBJECT_NID_MISMATCH : string := "NIP-CERT-SUBJECT-NID-MISMATCH".
Definition ASSURANCE_MISMATCH : string := "NIP-ASSURANCE-MISMATCH".
Definition ASSURANCE_UNKNOWN : string := "NIP-ASSURANCE-UNKNOWN".

Record VerifyResult : Type := mkX509Result {
  xr_valid : bool;
  xr_error_code : option string;
  xr_message : option string;
  xr_leaf_der : option (list Z)
}.

Definition x509_ok (leaf_der : list Z) : VerifyResult := mkX509Result true None None (Some leaf_der).
Definition x509_fail (code msg : string) : VerifyResult := mkX509Result false (Some code) (Some msg) None.

Definition oid_equals (parsed : option (list Z)) (expected : list Z) : bool :=
  match parsed with None => false | Some components => bool_decide (components = expected) end.

(** ** The raw EKU fallback *)

Definition read_der_length (b : list Z) : option (nat * nat) := read_len b.

(** The walk over the elements; each step advances, so the size bounds it. *)
Fixpoint raw_seq_loop (fuel : nat) (value expected : list Z) (pos stop : nat) : bool :=
  match fuel with
  | O => false
  | S k =>
    if (stop <? pos + 2)%nat then false
    else if negb (bool_decide (value !! pos = Some 6)) then false
    else match read_der_length (drop (pos + 1) value) with
    | None => false
    | Some (oid_len, hdr) =>
      let oid_start := (pos + 1 + hdr)%nat in
      if (length value <? oid_start + oid_len)%nat then false
      else if bool_decide (slice oid_start (oid_start + oid_len) value = encode_oid_content expected)
      then true
      else raw_seq_loop k value expected (oid_start + oid_len) stop
    end
  end.

Definition raw_seq_contains_oid (value expected : list Z) : bool :=
  match value with
  | first :: (_ :: _) as rest =>
    if negb (first =? 48) then false
    else match read_der_length rest with
    | None => false
    | Some (content_len, hdr) =>
      let start := (1 + hdr)%nat in
      let stop := (start + content_len)%nat in
      if (length value <? stop)%nat then false
      else raw_seq_loop (S (length value)) value expected start stop
    end
  | _ => false
  end.

(** ** The stages: [None] is a pass *)

Definition eku_allows (ext : X509Extension) : bool :=
  match ext_eku ext with
  | Some others => existsb (fun oid => oid_equals oid EKU_AGENT_IDENTITY_OID
                                       || oid_equals oid EKU_NODE_IDENTITY_OID) others
  | None => raw_seq_contains_oid (ext_value ext) EKU_AGENT_IDENTITY_OID
            || raw_seq_contains_oid (ext_value ext) EKU_NODE_IDENTITY_OID
  end.

Definition check_leaf_eku (leaf : X509Certificate) : option VerifyResult :=
  match List.find (fun e => oid_equals (ext_oid e) EXTENSION_EXTENDED_KEY_USAGE_OID) (x_extensions leaf) with
  | None => Some (x509_fail CERT_EKU_MISSING "leaf has no ExtendedKeyUsage extension")
  | Some ext =>
    if negb (ext_critical ext)
    then Some (x509_fail CERT_EKU_MISSING "ExtendedKeyUsage extension is not marked critical")
    else if eku_allows ext then None
    else Some (x509_fail CERT_EKU_MISSING
           "ExtendedKeyUsage does not contain agent-identity or node-identity OID")
  end.

Definition text_in (s : string) (l : list (option string)) : bool :=
  existsb (fun o => bool_decide (o = Some s)) l.

Definition check_subject_nid (leaf : X509Certificate) (asserted_nid : string) : option VerifyResult :=
  if negb (text_in asserted_nid (x_common_names leaf))
  then Some (x509_fail CERT_SUBJECT_NID_MISMATCH
         ("leaf subject CN does not match asserted NID (" +:+ asserted_nid +:+ ")"))
  else if text_in asserted_nid (default [] (x_san leaf)) then None
  else Some (x509_fail CERT_SUBJECT_NID_MISMATCH "no SAN URI matches asserted NID").

Section x509.
Context {D : Digests} `{Base64} `{Ed25519} `{X509Parser}.

Definition check_assurance_level (leaf : X509Certificate) (asserted : option AssuranceLevel)
    : option VerifyResult :=
  asserted ← asserted;
  match List.find (fun e => oid_equals (ext_oid e) NID_ASSURANCE_LEVEL_OID) (x_extensions leaf) with
  | None => None
  | Some ext =>
    match ext_value ext with
    | [10; 1; r] =>
      match from_rank r with
      | Err _ => Some (x509_fail ASSURANCE_UNKNOWN
                   ("assurance-level extension contains unknown value: " +:+ fmt_Z r))
      | Ok cert_level =>
        if negb (bool_decide (cert_level = asserted))
        then Some (x509_fail ASSURANCE_MISMATCH
               ("cert assurance-level (" +:+ wire cert_level +:+ ") does not match asserted ("
                +:+ wire asserted +:+ ")"))
        else None
      end
    | v => Some (x509_fail CERT_FORMAT_INVALID ("malformed assurance-level extension: " +:+ hex_encode v))
    end
  end.

Definition verify_signed_by (child issuer : X509Certificate) : result string unit :=
  let pub_key_bytes := x_spki issuer in
  if negb (length pub_key_bytes =? 32)%nat
  then Err ("issuer pubkey is not 32 bytes (" +:+ fmt_Z (Z.of_nat (length pub_key_bytes)) +:+ " bytes)")
  else
    verifying_key ← map_err (fun e => "issuer Ed25519 pubkey parse: " +:+ e) (key_from_bytes pub_key_bytes);
    signature ← map_err (fun e => "child signature parse: " +:+ e) (sig_from_slice (x_signature child));
    map_err (fun e => "Ed25519 verify failed: " +:+ e) (ed_verify verifying_key (x_tbs child) signature).

(** Each link [i] is signed by its successor. *)
Fixpoint check_links (i : nat) (chain : list X509Certificate) : option VerifyResult :=
  match chain with
  | child :: (issuer :: _) as rest =>
    match verify_signed_by child issuer with
    | Err e => Some (x509_fail CERT_FORMAT_INVALID
        ("chain link " +:+ fmt_Z (Z.of_nat i) +:+ " signature did not verify: " +:+ e))
    | Ok _ => check_links (S i) rest
    end
  | _ => None
  end.

Definition anchors_at (last : X509Certificate) (root_der : list Z) : bool :=
  bool_decide (x_der last = root_der)
  || match from_der root_der with Ok root => is_ok (verify_signed_by last root) | Err _ => false end.

(** [leaf :: rest] is the chain, which is never empty here. *)
Definition check_chain_signature (leaf : X509Certificate) (rest : list X509Certificate)
    (trusted_roots_der : list (list Z)) : option VerifyResult :=
  match trusted_roots_der with
  | [] => Some (x509_fail CERT_FORMAT_INVALID "no trusted X.509 roots configured")
  | _ =>
    match check_links 0 (leaf :: rest) with
    | Some r => Some r
    | None =>
      if existsb (anchors_at (List.last rest leaf)) trusted_roots_der then None
      else Some (x509_fail CERT_FORMAT_INVALID "chain does not anchor to any trusted root")
    end
  end.

Definition base64_url_decode (s : string) : result string (list Z) :=
  match b64_url_no_pad s with Ok b => Ok b | Err _ => b64_url s end.

(** The two loops that fill the chain, stopping at the first error. *)
Fixpoint decode_chain (i : nat) (l : list string) : result VerifyResult (list (list Z)) :=
  match l with
  | [] => Ok []
  | s :: rest =>
    match base64_url_decode s with
    | Err e => Err (x509_fail CERT_FORMAT_INVALID
        ("chain[" +:+ fmt_Z (Z.of_nat i) +:+ "] base64url decode: " +:+ e))
    | Ok b => ders ← decode_chain (S i) rest; Ok (b :: ders)
    end
  end.

Fixpoint parse_chain (i : nat) (l : list (list Z)) : result VerifyResult (list X509Certificate) :=
  match l with
  | [] => Ok []
  | der :: rest =>
    match from_der der with
    | Err e => Err (x509_fail CERT_FORMAT_INVALID
        ("chain[" +:+ fmt_Z (Z.of_nat i) +:+ "] DER parse: " +:+ e))
    | Ok c => certs ← parse_chain (S i) rest; Ok (c :: certs)
    end
  end.

Definition x509_verify (cert_chain_b64u_der : list string) (asserted_nid : string)
    (asserted_assurance_level : option AssuranceLevel) (trusted_root_certs_der : list (list Z))
    : VerifyResult :=
  match cert_chain_b64u_der with
  | [] => x509_fail CERT_FORMAT_INVALID "cert_chain is empty"
  | _ =>
    match decode_chain 0 cert_chain_b64u_der with
    | Err r => r
    | Ok chain_der =>
      match parse_chain 0 chain_der with
      | Err r => r
      | Ok [] => x509_fail CERT_FORMAT_INVALID "cert_chain is empty"
      | Ok (leaf :: rest) =>
        match check_leaf_eku leaf with Some r => r | None =>
        match check_subject_nid leaf asserted_nid with Some r => r | None =>
        match check_assurance_level leaf asserted_assurance_level with Some r => r | None =>
        match check_chain_signature leaf rest trusted_root_certs_der with Some r => r | None =>
        x509_ok (default [] (head chain_der))
        end end end end
      end
    end
  end.
End x509.

(** ** What an accepted chain proves *)

(** The value the issuer writes for each role is one the verifier knows. *)
Lemma issued_eku_recognised :
  raw_seq_contains_oid (build_eku_extension_value EKU_AGENT_IDENTITY_OID) EKU_AGENT_IDENTITY_OID = true /\
  raw_seq_contains_oid (build_eku_extension_value EKU_NODE_IDENTITY_OID) EKU_NODE_IDENTITY_OID = true /\
  raw_seq_contains_oid (build_eku_extension_value EKU_NODE_IDENTITY_OID) EKU_AGENT_IDENTITY_OID = false.
Proof. by vm_compute. Qed.

Lemma existsb_oid_equals o e : oid_equals o e = true <-> o = Some e.
Proof.
  destruct o as [c|]; cbn; [|done]. rewrite bool_decide_eq_true. split; congruence.
Qed.

Lemma text_in_spec s l : text_in s l = true <-> In (Some s) l.
Proof.
  unfold text_in. rewrite existsb_exists. split.
  - by intros (o & Hin & ->%bool_decide_eq_true).
  - intros Hin. exists (Some s). split; [done | by apply bool_decide_eq_true].
Qed.

Section chain_theorems.
Context {D : Digests} `{Base64} `{Ed25519} `{X509Parser}.

Definition signed (child issuer : X509Certificate) : Prop := verify_signed_by child issuer = Ok tt.

(** Every certificate is signed by the next one. *)
Fixpoint linked (chain : list X509Certificate) : Prop :=
  match chain with
  | child :: (issuer :: _) as rest => signed child issuer /\ linked rest
  | _ => True
  end.

(** The certificate is a trusted root or is signed by one. *)
Definition anchored (last : X509Certificate) (roots : list (list Z)) : Prop :=
  exists root, In root roots /\
    (x_der last = root \/ exists c, from_der root = Ok c /\ signed last c).

(** The leaf names [nid], and its first EKU extension is critical and one of
    the identity roles. *)
Definition identity_leaf (leaf : X509Certificate) (nid : string) : Prop :=
  check_leaf_eku leaf = None /\ In (Some nid) (x_common_names leaf) /\
  In (Some nid) (default [] (x_san leaf)).

(** The level the leaf carries, if it carries one, is the one asserted. *)
Definition level_agrees (leaf : X509Certificate) (asserted : option AssuranceLevel) : Prop :=
  forall l e, asserted = Some l ->
    List.find (fun e => oid_equals (ext_oid e) NID_ASSURANCE_LEVEL_OID) (x_extensions leaf) = Some e ->
    ext_value e = [10; 1; rank l] /\ In l [ANONYMOUS; ATTESTED; VERIFIED].

Lemma check_assurance_None leaf asserted :
  check_assurance_level leaf asserted = None <-> level_agrees leaf asserted.
Proof.
  unfold check_assurance_level, level_agrees. destruct asserted as [l|]; cbn [mbind option_bind];
    [|by split].
  destruct (List.find _ _) as [e|]; [|by split].
  split.
  - intros Hn ? ? [= <-] [= <-]. revert Hn.
    destruct (ext_value e) as [|[|[]|] [|[|[]|] [|r []]]] eqn:Ev; try done;
    repeat (match goal with |- context [match ?p with _ => _ end] => is_var p; destruct p end; try done).
    all: destruct (from_rank r) as [cl|] eqn:Er; try done;
      apply from_rank_Ok in Er as [Hin <-];
      case_bool_decide as Hc; try done; cbn; intros _; by subst.
  - intros Hx. destruct (Hx l e eq_refl eq_refl) as [-> Hin].
    rewrite (proj2 (from_rank_Ok (rank l) l)) by done.
    rewrite bool_decide_eq_true_2 by done. done.
Qed.

Lemma check_links_cons i c d l : check_links i (c :: d :: l) =
  match verify_signed_by c d with
  | Err e => Some (x509_fail CERT_FORMAT_INVALID
      ("chain link " +:+ fmt_Z (Z.of_nat i) +:+ " signature did not verify: " +:+ e))
  | Ok _ => check_links (S i) (d :: l)
  end.
Proof. done. Qed.

Lemma check_links_None i chain : check_links i chain = None <-> linked chain.
Proof.
  revert i; induction chain as [|c chain IH]; intros i; [done |].
  destruct chain as [|d chain]; [done |]. rewrite check_links_cons. change (linked (c :: d :: chain)) with (signed c d /\ linked (d :: chain)).
  unfold signed.
  destruct (verify_signed_by c d) as [[]|e]; [|by split; [|intros [? _]]].
  rewrite IH. tauto.
Qed.

Lemma anchors_at_spec last roots : existsb (anchors_at last) roots = true <-> anchored last roots.
Proof.
  unfold anchored. rewrite existsb_exists. split; intros (root & Hin & Hr); exists root; (split; [done |]).
  - unfold anchors_at in Hr. apply orb_true_iff in Hr as [Hr%bool_decide_eq_true|Hr]; [by left | right].
    destruct (from_der root) as [c|]; [|done]. exists c. split; [done |].
    unfold signed. by destruct (verify_signed_by last c) as [[]|].
  - unfold anchors_at. apply orb_true_iff. destruct Hr as [->|(c & -> & ->)];
      [left; by apply bool_decide_eq_true | by right].
Qed.

Lemma check_chain_None leaf rest roots :
  check_chain_signature leaf rest roots = None <->
  linked (leaf :: rest) /\ anchored (List.last rest leaf) roots.
Proof.
  unfold check_chain_signature. rewrite <-anchors_at_spec, <-(check_links_None 0).
  destruct roots as [|r roots].
  { cbn. split; [done | by intros [_ ?]]. }
  destruct (check_links 0 (leaf :: rest)); [by split; [|intros [? _]] |].
  destruct (existsb _ (r :: roots)); [done | by split; [|intros [_ ?]]].
Qed.

Lemma decode_chain_Ok i l ders : decode_chain i l = Ok ders <-> mapM (M := result string) base64_url_decode l = Ok ders.
Proof.
  revert i ders; induction l as [|s l IH]; intros i ders; cbn; [by split; intros [= <-] |].
  destruct (base64_url_decode s) as [b|e]; cbn; [|done].
  rewrite !result_bind_Ok. setoid_rewrite IH. split; intros (x & E & [= <-]); exists x; split; try done; by rewrite ?E.
Qed.

Lemma parse_chain_Ok i l certs : parse_chain i l = Ok certs <-> mapM (M := result string) from_der l = Ok certs.
Proof.
  revert i certs; induction l as [|s l IH]; intros i certs; cbn; [by split; intros [= <-] |].
  destruct (from_der s) as [b|e]; cbn; [|done].
  rewrite !result_bind_Ok. setoid_rewrite IH. split; intros (x & E & [= <-]); exists x; split; try done; by rewrite ?E.
Qed.

Lemma decode_chain_Err i l r : decode_chain i l = Err r -> xr_valid r = false.
Proof.
  revert i; induction l as [|s l IH]; intros i; cbn; [done |].
  destruct (base64_url_decode s); [|by intros [= <-]].
  destruct (decode_chain (S i) l) eqn:E; cbn; [done |]. intros [= <-]. by eapply IH.
Qed.

Lemma parse_chain_Err i l r : parse_chain i l = Err r -> xr_valid r = false.
Proof.
  revert i; induction l as [|s l IH]; intros i; cbn; [done |].
  destruct (from_der s); [|by intros [= <-]].
  destruct (parse_chain (S i) l) eqn:E; cbn; [done |]. intros [= <-]. by eapply IH.
Qed.

(** A stage that fails answers an invalid result. *)
Lemma stages_invalid leaf rest nid lv roots r :
  check_leaf_eku leaf = Some r \/ check_subject_nid leaf nid = Some r \/
  check_assurance_level leaf lv = Some r \/ check_chain_signature leaf rest roots = Some r ->
  xr_valid r = false.
Proof.
  assert (Hl : forall i l r, check_links i l = Some r -> xr_valid r = false).
  { intros i l; revert i; induction l as [|c [|d l] IH]; intros i r'; try done.
    rewrite check_links_cons. destruct (verify_signed_by c d); [apply IH | by intros [= <-]]. }
  intros [E|[E|[E|E]]]; revert E.
  - unfold check_leaf_eku. repeat case_match; by intros [= <-].
  - unfold check_subject_nid. repeat case_match; by intros [= <-].
  - unfold check_assurance_level. destruct lv; cbn; [|done]. repeat case_match; by intros [= <-].
  - unfold check_chain_signature. destruct roots; [by intros [= <-] |].
    destruct (check_links 0 (leaf :: rest)) eqn:El; [intros [= <-]; by eapply Hl |].
    destruct (existsb _ _); [done | by intros [= <-]].
Qed.

(** The chain as the verifier reads it. *)
Definition chain_of (b64 : list string) : result string (list X509Certificate) :=
  ders ← mapM base64_url_decode b64; mapM from_der ders.

(** Past decoding and parsing, a chain is valid exactly when the four checks pass. *)
Lemma x509_verify_parsed b64 nid lv roots ders leaf rest :
  decode_chain 0 b64 = Ok ders -> parse_chain 0 ders = Ok (leaf :: rest) ->
  xr_valid (x509_verify b64 nid lv roots) = true <->
  identity_leaf leaf nid /\ level_agrees leaf lv /\ linked (leaf :: rest) /\ anchored (List.last rest leaf) roots.
Proof.
  intros Ed Ep. unfold x509_verify. destruct b64 as [|s b64]; [by injection Ed as <- |]. rewrite Ed, Ep.
  unfold identity_leaf. rewrite <-!text_in_spec, <-check_assurance_None. rewrite <-(check_chain_None leaf rest roots).
  destruct (check_leaf_eku leaf) as [r1|] eqn:E1.
  { rewrite (stages_invalid leaf rest nid lv roots r1) by auto. naive_solver. }
  destruct (check_subject_nid leaf nid) as [r2|] eqn:E2.
  { rewrite (stages_invalid leaf rest nid lv roots r2) by auto. split; [done |].
    intros ((_ & C1 & C2) & _). unfold check_subject_nid in E2. by rewrite C1, C2 in E2. }
  assert (C12 : text_in nid (x_common_names leaf) = true /\ text_in nid (default [] (x_san leaf)) = true).
  { unfold check_subject_nid in E2. destruct (text_in nid (x_common_names leaf)); [|done].
    by destruct (text_in nid (default [] (x_san leaf))). }
  destruct (check_assurance_level leaf lv) as [r3|] eqn:E3.
  { rewrite (stages_invalid leaf rest nid lv roots r3) by auto. naive_solver. }
  destruct (check_chain_signature leaf rest roots) as [r4|] eqn:E4.
  { rewrite (stages_invalid leaf rest nid lv roots r4) by auto. naive_solver. }
  naive_solver.
Qed.

(** A NID certificate chain is accepted exactly when it decodes to a
    non-empty list whose first certificate carries a critical identity EKU and
    names the NID both as common name and as URI, does not contradict the
    asserted assurance level, each certificate is signed by the next, and the
    last is a trusted root or is signed by one. *)
Theorem x509_verify_spec b64 nid lv roots :
  xr_valid (x509_verify b64 nid lv roots) = true <->
  exists leaf rest, chain_of b64 = Ok (leaf :: rest) /\
    identity_leaf leaf nid /\ level_agrees leaf lv /\
    linked (leaf :: rest) /\ anchored (List.last rest leaf) roots.
Proof.
  assert (Hc : forall l, chain_of b64 = Ok l <->
    exists ders, decode_chain 0 b64 = Ok ders /\ parse_chain 0 ders = Ok l).
  { intros l. unfold chain_of. rewrite result_bind_Ok. setoid_rewrite decode_chain_Ok.
    by setoid_rewrite parse_chain_Ok. }
  split.
  - intros Hv. destruct (decode_chain 0 b64) as [ders|r] eqn:Ed.
    + destruct (parse_chain 0 ders) as [[|leaf rest]|r] eqn:Ep.
      * unfold x509_verify in Hv. rewrite Ed, Ep in Hv. by destruct b64.
      * exists leaf, rest. rewrite Hc. split; [by exists ders |]. by apply (x509_verify_parsed b64 nid lv roots ders).
      * unfold x509_verify in Hv. rewrite Ed, Ep in Hv. apply parse_chain_Err in Ep. destruct b64; [done | congruence].
    + unfold x509_verify in Hv. rewrite Ed in Hv. apply decode_chain_Err in Ed. destruct b64; [done | congruence].
  - intros (leaf & rest & (ders & Ed & Ep)%Hc & Hok). by apply (x509_verify_parsed b64 nid lv roots ders leaf rest).
Qed.

(** Nothing but its key and signature is read of a certificate above the leaf:
    with any other extensions, such as those of an agent's own leaf
    certificate, it still issues. *)
Definition with_extensions (exts : list X509Extension) (c : X509Certificate) : X509Certificate :=
  mkCert (x_der c) (x_tbs c) (x_signature c) (x_spki c) exts (x_common_names c) (x_san c).

Lemma issuers_need_not_be_cas leaf rest roots exts :
  check_chain_signature leaf (map (with_extensions exts) rest) roots
  = check_chain_signature leaf rest roots.
Proof.
  assert (Hs : forall c d, verify_signed_by c (with_extensions exts d) = verify_signed_by c d) by done.
  assert (Hs' : forall c d, verify_signed_by (with_extensions exts c) d = verify_signed_by c d) by done.
  assert (Hlast : forall l, anchors_at (List.last (map (with_extensions exts) l) leaf)
                            = anchors_at (List.last l leaf)).
  { assert (Hg : forall l d d', anchors_at d = anchors_at d' ->
      anchors_at (List.last (map (with_extensions exts) l) d) = anchors_at (List.last l d')).
    { induction l as [|c [|c' l] IH]; intros d d' Hd; [done | done |]. by apply (IH d d'). }
    intros l. by apply Hg. }
  assert (Hlinks : forall i c l, check_links i (c :: map (with_extensions exts) l) = check_links i (c :: l)).
  { intros i c l; revert i c; induction l as [|d l IH]; intros i c; [done |].
    cbn [map]. rewrite !check_links_cons, Hs.
    destruct (verify_signed_by c d); [|done]. rewrite <-IH.
    destruct l as [|d' l]; [done |]. cbn [map]. by rewrite !check_links_cons. }
  unfold check_chain_signature. rewrite Hlinks, Hlast. done.
Qed.
End chain_theorems.
