(* ===== verification/NipVerifier.v ===== *)
(** * NipVerifier: verification of identities and of trust

    Models nps-nip/src/verifier.rs (the six steps), revocation_policy.rs,
    trust_validator.rs, and the signature checks of identity.rs.  A date is
    its number of nanoseconds; Ed25519, base64, hex, the HTTP client and the
    live revocation sources are parameters. *)

From S2P Require Import Prelude RustStr Floats Json CoreFrames CoreCache NcpFrames NipFrames NipDer NipX509.
Local Open Scope Z_scope.

(** [OffsetDateTime::parse(_, &Rfc3339)]. *)
Class Timestamps : Type := { parse_ts : string -> option Z }.
(** [hex::decode]. *)
Class HexDecoder : Type := { hex_decode : string -> result string (list Z) }.

Definition CERT_EXPIRED : string := "NIP-CERT-EXPIRED".
Definition CERT_REVOKED : string := "NIP-CERT-REVOKED".
Definition CERT_SIGNATURE_INVALID : string := "NIP-CERT-SIGNATURE-INVALID".
Definition CERT_UNTRUSTED_ISSUER : string := "NIP-CERT-UNTRUSTED-ISSUER".
Definition CERT_CAPABILITY_MISSING : string := "NIP-CERT-CAPABILITY-MISSING".
Definition CERT_SCOPE_VIOLATION : string := "NIP-CERT-SCOPE-VIOLATION".
Definition OCSP_UNAVAILABLE : string := "NIP-OCSP-UNAVAILABLE".
Definition TRUST_FRAME_INVALID : string := "NIP-TRUST-FRAME-INVALID".
Definition TRUST_FRAME_EXPIRED : string := "NIP-TRUST-FRAME-EXPIRED".
Definition TRUST_FRAME_SCOPE_EXCEEDS_GRANTOR : string := "NIP-TRUST-FRAME-SCOPE-EXCEEDS-GRANTOR".

(** ** The revocation policy *)

Inductive NipRevocationMode : Type := IfConfigured | Required.
Inductive NipRevocationSource : Type := LocalCrl | Callback | CaStore | Ocsp.
Inductive NipRevocationOutcome : Type := Good | Revoked | Unavailable.
#[export] Instance NipRevocationMode_eq_dec : EqDecision NipRevocationMode.
Proof. solve_decision. Defined.
#[export] Instance NipRevocationSource_eq_dec : EqDecision NipRevocationSource.
Proof. solve_decision. Defined.
#[export] Instance NipRevocationOutcome_eq_dec : EqDecision NipRevocationOutcome.
Proof. solve_decision. Defined.

(** [{source:?}]. *)
Definition source_debug (s : NipRevocationSource) : string :=
  match s with LocalCrl => "LocalCrl" | Callback => "Callback" | CaStore => "CaStore" | Ocsp => "Ocsp" end.

Record NipRevocationPolicy : Type := mkPolicy {
  mode : NipRevocationMode;
  pol_ocsp_fail_open : bool;
  consulted_sources : list NipRevocationSource
}.

Definition policy_new (m : NipRevocationMode) (fail_open : bool) : NipRevocationPolicy := mkPolicy m fail_open [].

Definition observe (p : NipRevocationPolicy) (source : NipRevocationSource) (outcome : NipRevocationOutcome)
    : option NipIdentVerifyResult * NipRevocationPolicy :=
  let p' := mkPolicy (mode p) (pol_ocsp_fail_open p) (consulted_sources p ++ [source]) in
  if bool_decide (source = Ocsp) && bool_decide (outcome = Unavailable) && pol_ocsp_fail_open p
  then (None, p')
  else
    match outcome with
    | Good => (None, p')
    | Revoked => (Some (fail 4 CERT_REVOKED
        ("Revocation source " +:+ source_debug source +:+ " reports the certificate revoked.")), p')
    | Unavailable => (Some (fail 4 OCSP_UNAVAILABLE
        ("Revocation source " +:+ source_debug source +:+ " is unavailable.")), p')
    end.

Definition complete (p : NipRevocationPolicy) : NipIdentVerifyResult :=
  if bool_decide (mode p = Required) && bool_decide (consulted_sources p = [])
  then fail 4 OCSP_UNAVAILABLE
         "Revocation mode is required, but no revocation source is configured."
  else ok.

(** ** Options and context *)

Record NipVerifyContext : Type := mkContext {
  required_capabilities : list string;
  target_node_path : option string;
  as_of : option Z
}.

Record NipCertRecord : Type := mkCertRecord {
  cr_serial : string;
  cr_revoked_at : option string;
  cr_revoke_reason : option string
}.

Record OcspResponse : Type := mkOcsp { oc_valid : bool; oc_error_code : option string }.

(** What [reqwest] answers: a transport error, or a status with the body as
    [resp.json()] reads it. *)
Inductive HttpReply : Type :=
| Transport (err : string)
| Reply (status : Z) (body : result string OcspResponse).

(** The callback and the store answer as functions of what they are asked. *)
Record NipVerifierOptions : Type := mkOptions {
  trusted_ca_public_keys : gmap string string;
  trusted_x509_roots_der : list (list Z);
  local_revoked_serials : list string;
  local_crl_configured : bool;
  revocation_check : option (IdentFrame -> option NipIdentVerifyResult);
  revocation_store : option (string -> option NipCertRecord);
  ocsp_url : option string;
  ocsp_fail_open : bool;
  revocation_mode : NipRevocationMode;
  min_assurance_level : option AssuranceLevel;
  phase3_enforcement : bool
}.

(** ** Scope patterns *)

(** [str::strip_suffix("/*")]. *)
Definition strip_scope_suffix (pattern : string) : option string :=
  match rev (bytes_of pattern) with
  | 42 :: 47 :: r => Some (of_bytes (rev r))
  | _ => None
  end.

Definition nwp_path_matches (pattern path : string) : bool :=
  if String.eqb pattern "*" then true
  else match strip_scope_suffix pattern with
  | Some prefix =>
    let lower_path := to_ascii_lowercase path in
    let lower_prefix := to_ascii_lowercase prefix in
    starts_with lower_prefix lower_path
    && ((String.length path =? String.length prefix)%nat
        || bool_decide (bytes_of path !! String.length prefix = Some 47))
  | None => eq_ignore_ascii_case pattern path
  end.

(** [.filter(|c| !have.contains(c))]. *)
Definition missing_from (required have : list string) : list string :=
  List.filter (fun c => negb (existsb (fun h => String.eqb h c) have)) required.

(** Percent-encoding of the path segment of the OCSP request. *)
Definition unreserved (b : Z) : bool :=
  ((65 <=? b) && (b <=? 90)) || ((97 <=? b) && (b <=? 122)) || ((48 <=? b) && (b <=? 57))
  || (b =? 45) || (b =? 95) || (b =? 46) || (b =? 126).

Definition escape (value : string) : string :=
  String.concat "" (map (fun b => if unreserved b then of_bytes [b] else "%" +:+ fmt_02X b) (bytes_of value)).

Definition trim_end_matches_slash (s : string) : string :=
  of_bytes (rev (drop_while (fun b => b =? 47) (rev (bytes_of s)))).

(** ** Signatures *)

Section verifier.
Context {D : Digests} `{Base64} `{Calendar} `{Ed25519} `{X509Parser} `{HexDecoder} `{Timestamps}.

(** Keys sorted, then inserted in that order. *)
Definition canonical_json (d : FrameDict) : string :=
  let keys := merge_sort String.le (map fst d) in
  let ordered := fold_left (fun m k => insert_opt k (map_get k d) m) keys [] in
  json_to_string (VObject ordered).

Definition parse_pub_key_string (s : string) : result string (list Z) :=
  match strip_prefix "ed25519:" s with
  | None => Err ("unsupported public key format: " +:+ s)
  | Some body =>
    raw ← map_err (fun e => "hex decode: " +:+ e) (hex_decode body);
    if negb (length raw =? 32)%nat
    then Err ("public key wrong size: " +:+ fmt_Z (Z.of_nat (length raw)))
    else Ok raw
  end.

Definition verify_signature (frame : IdentFrame) (ca_pub_key_str : string) : NipIdentVerifyResult :=
  let bad msg := fail 3 CERT_SIGNATURE_INVALID msg in
  match id_signature frame with
  | None => bad "missing signature"
  | Some sig_str =>
    match strip_prefix "ed25519:" sig_str with
    | None => bad "malformed signature prefix"
    | Some body =>
      match parse_pub_key_string ca_pub_key_str with
      | Err e => bad e
      | Ok pub_key_bytes =>
        match key_from_bytes pub_key_bytes with
        | Err e => bad ("invalid Ed25519 pubkey: " +:+ e)
        | Ok verifying_key =>
          match b64_standard body with
          | Err e => bad ("base64 decode: " +:+ e)
          | Ok sig_bytes =>
            match sig_from_slice sig_bytes with
            | Err e => bad ("signature parse: " +:+ e)
            | Ok signature =>
              let canonical := canonical_json (ident_unsigned_dict frame) in
              if is_ok (ed_verify verifying_key (bytes_of canonical) signature) then ok
              else bad "Certificate signature verification failed."
            end
          end
        end
      end
    end
  end.

(** [NipIdentity::verify_with_pub_key_str]; its canonical form is the same. *)
Definition verify_with_pub_key_str (payload : FrameDict) (pub_key signature : string) : bool :=
  match strip_prefix "ed25519:" pub_key with
  | None => false
  | Some hex_str =>
    match hex_decode hex_str with
    | Err _ => false
    | Ok bytes =>
      if negb (length bytes =? 32)%nat then false
      else match key_from_bytes bytes with
      | Err _ => false
      | Ok vk =>
        match strip_prefix "ed25519:" signature with
        | None => false
        | Some sig_b64 =>
          match b64_standard sig_b64 with
          | Err _ => false
          | Ok sig_bytes =>
            if negb (length sig_bytes =? 64)%nat then false
            else is_ok (ed_verify vk (bytes_of (canonical_json payload)) (sig_from_bytes sig_bytes))
          end
        end
      end
    end
  end.

(** ** The six steps; [None] is a pass *)

Definition check_expiry (frame : IdentFrame) (now : Z) : option NipIdentVerifyResult :=
  match id_expires_at frame with
  | None => None
  | Some expires_at =>
    let expired := Some (fail 1 CERT_EXPIRED ("Certificate expired at " +:+ expires_at +:+ ".")) in
    match parse_ts expires_at with
    | Some exp => if now <? exp then None else expired
    | None => expired
    end
  end.

(** The key of the expected issuer, or the failure. *)
Definition check_issuer (o : NipVerifierOptions) (frame : IdentFrame) (issuer_nid : string)
    : result NipIdentVerifyResult string :=
  let known :=
    ok_or (trusted_ca_public_keys o !! issuer_nid)
      (fail 2 CERT_UNTRUSTED_ISSUER ("Issuer '" +:+ issuer_nid +:+ "' is not in the trusted issuers list.")) in
  match id_issued_by frame with
  | Some declared =>
    if negb (String.eqb declared issuer_nid)
    then Err (fail 2 CERT_UNTRUSTED_ISSUER ("Issuer '" +:+ declared
                +:+ "' does not match expected issuer '" +:+ issuer_nid +:+ "'."))
    else known
  | None => known
  end.

Definition check_min_assurance (o : NipVerifierOptions) (frame : IdentFrame) : option NipIdentVerifyResult :=
  min ← min_assurance_level o;
  let got := default ANONYMOUS (id_assurance_level frame) in
  if meets_or_exceeds got min then None
  else Some (fail 3 ASSURANCE_MISMATCH ("assurance_level (" +:+ wire got
               +:+ ") below required minimum (" +:+ wire min +:+ ")")).

(** Step 3b; the outer [None] is a panic. *)
Definition check_x509 (o : NipVerifierOptions) (frame : IdentFrame) (now : Z)
    : option (option NipIdentVerifyResult) :=
  match trusted_x509_roots_der o with
  | [] => Some None
  | roots =>
    if negb (bool_decide (id_cert_format frame = Some V2_X509)) then Some None
    else
      let chain := default [] (id_cert_chain frame) in
      let r := x509_verify chain (id_nid frame) (id_assurance_level frame) roots in
      if negb (xr_valid r)
      then Some (Some (fail 3 (default CERT_FORMAT_INVALID (xr_error_code r))
                          (default "X.509 chain validation failed" (xr_message r))))
      else if negb (phase3_enforcement o) then Some None
      else
        match chain with
        | [] => Some (Some (fail 3 CERT_FORMAT_INVALID "cert_chain is empty."))
        | leaf_b64u :: _ =>
          match b64_url_no_pad leaf_b64u with
          | Err _ => Some (Some (fail 3 CERT_FORMAT_INVALID "cert_chain[0] is not valid base64url DER."))
          | Ok leaf_der =>
            phase3_result ← enforce frame leaf_der now;
            Some (if valid phase3_result then None else Some phase3_result)
          end
        end
  end.

Definition ocsp_transport_failure (nid err : string) : NipIdentVerifyResult :=
  fail 4 OCSP_UNAVAILABLE ("OCSP call failed for NID " +:+ nid +:+ ": " +:+ err).

Definition ocsp_code (error_code : option string) : string :=
  match error_code with
  | None => CERT_REVOKED
  | Some c =>
    if String.eqb c CERT_REVOKED then CERT_REVOKED
    else if String.eqb c CERT_EXPIRED then CERT_EXPIRED
    else if String.eqb c OCSP_UNAVAILABLE then OCSP_UNAVAILABLE
    else CERT_REVOKED
  end.

Definition ocsp_check (http_get : string -> HttpReply) (url nid : string) : NipIdentVerifyResult :=
  match http_get (trim_end_matches_slash url +:+ "/" +:+ escape nid) with
  | Transport e => ocsp_transport_failure nid e
  | Reply status body =>
    if negb ((200 <=? status) && (status <? 300))
    then fail 4 OCSP_UNAVAILABLE ("OCSP endpoint returned " +:+ fmt_Z status +:+ ".")
    else match body with
    | Err e => ocsp_transport_failure nid e
    | Ok b =>
      if negb (oc_valid b)
      then fail 4 (ocsp_code (oc_error_code b)) ("OCSP check failed for NID " +:+ nid +:+ ".")
      else ok
    end
  end.

Definition ocsp_outcome (r : NipIdentVerifyResult) : NipRevocationOutcome :=
  if valid r then Good
  else if bool_decide (vr_error_code r = Some CERT_REVOKED) then Revoked else Unavailable.

(** The four sources, each with the policy so far. *)
Definition consult_crl (o : NipVerifierOptions) (serial : string) (p : NipRevocationPolicy)
    : option NipIdentVerifyResult * NipRevocationPolicy :=
  if local_crl_configured o || match local_revoked_serials o with [] => false | _ => true end
  then
    let revoked := negb (is_empty serial) && existsb (fun s => String.eqb s serial) (local_revoked_serials o) in
    observe p LocalCrl (if revoked then Revoked else Good)
  else (None, p).

Definition consult_callback (o : NipVerifierOptions) (frame : IdentFrame) (p : NipRevocationPolicy)
    : option NipIdentVerifyResult * NipRevocationPolicy :=
  match revocation_check o with
  | None => (None, p)
  | Some cb =>
    match cb frame with
    | Some r => if negb (valid r) then (Some r, p) else (None, snd (observe p Callback Good))
    | None => (None, snd (observe p Callback Good))
    end
  end.

Definition consult_store (o : NipVerifierOptions) (serial : string) (p : NipRevocationPolicy)
    : option NipIdentVerifyResult * NipRevocationPolicy :=
  match revocation_store o with
  | None => (None, p)
  | Some get_by_serial =>
    let revoked := match get_by_serial serial with
                   | Some item => bool_decide (is_Some (cr_revoked_at item))
                   | None => false
                   end in
    observe p CaStore (if revoked then Revoked else Good)
  end.

Definition consult_ocsp (http_get : string -> HttpReply) (o : NipVerifierOptions) (frame : IdentFrame)
    (p : NipRevocationPolicy) : option NipIdentVerifyResult * NipRevocationPolicy :=
  match ocsp_url o with
  | None => (None, p)
  | Some url => observe p Ocsp (ocsp_outcome (ocsp_check http_get url (id_nid frame)))
  end.

Definition check_revocation (http_get : string -> HttpReply) (o : NipVerifierOptions) (frame : IdentFrame)
    : NipIdentVerifyResult :=
  let serial := default "" (id_serial frame) in
  let p := policy_new (revocation_mode o) (ocsp_fail_open o) in
  match consult_crl o serial p with (Some r, _) => r | (None, p) =>
  match consult_callback o frame p with (Some r, _) => r | (None, p) =>
  match consult_store o serial p with (Some r, _) => r | (None, p) =>
  match consult_ocsp http_get o frame p with (Some r, _) => r | (None, p) => complete p
  end end end end.

Definition check_capabilities (frame : IdentFrame) (context : NipVerifyContext) : option NipIdentVerifyResult :=
  match missing_from (required_capabilities context) (id_capabilities frame) with
  | [] => None
  | missing => Some (fail 5 CERT_CAPABILITY_MISSING
      ("Certificate is missing required capabilities: " +:+ join ", " missing +:+ "."))
  end.

Definition check_scope (frame : IdentFrame) (target_path : string) : NipIdentVerifyResult :=
  match (id_scope frame ≫= vget "nodes") ≫= as_array with
  | None => fail 6 CERT_SCOPE_VIOLATION "IdentFrame scope is missing 'nodes' field."
  | Some nodes =>
    if existsb (fun pattern => match as_str pattern with
                               | Some p => nwp_path_matches p target_path | None => false end) nodes
    then ok
    else fail 6 CERT_SCOPE_VIOLATION ("Target path '" +:+ target_path
           +:+ "' is not covered by the certificate scope.")
  end.

(** [now_utc] is the wall clock; [None] is a panic. *)
Definition verify (http_get : string -> HttpReply) (now_utc : Z) (o : NipVerifierOptions)
    (frame : IdentFrame) (issuer_nid : string) (context : NipVerifyContext)
    : option NipIdentVerifyResult :=
  let now := default now_utc (as_of context) in
  match check_expiry frame now with Some r => Some r | None =>
  match check_issuer o frame issuer_nid with Err r => Some r | Ok ca_pub_key_str =>
  let r := verify_signature frame ca_pub_key_str in
  if negb (valid r) then Some r else
  match check_min_assurance o frame with Some r => Some r | None =>
  x ← check_x509 o frame now;
  match x with Some r => Some r | None =>
  let revocation := check_revocation http_get o frame in
  if negb (valid revocation) then Some revocation else
  match check_capabilities frame context with Some r => Some r | None =>
  match target_node_path context with
  | Some target => Some (check_scope frame target)
  | None => Some ok
  end end end end end end.
End verifier.

(** ** Trust frames *)

Record TrustFrameValidationContext : Type := mkTrustContext {
  trusted_grantors : list string;
  expected_grantee_ca : string;
  tc_required_capabilities : list string;
  tc_target_node_path : option string;
  tc_as_of : option Z
}.

Definition blank (s : string) : bool := is_empty (trim s).

Definition trust_incomplete (f : TrustFrame) : bool :=
  blank (tr_grantor_nid f) || blank (tr_grantee_ca f) || blank (tr_issued_at f)
  || blank (tr_expires_at f) || blank (tr_serial f) || blank (tr_signer_nid f)
  || blank (tr_signature f) || match tr_trust_scope f with [] => true | _ => false end
  || match tr_nodes f with [] => true | _ => false end.

Definition trust_validate `{Timestamps} (now_utc : Z) (frame : TrustFrame)
    (context : TrustFrameValidationContext) : NipIdentVerifyResult :=
  if trust_incomplete frame
  then fail 3 TRUST_FRAME_INVALID
    "TrustFrame is missing grantor, grantee, issued_at, expires_at, serial, signer_nid, signature, trust_scope, or nodes."
  else match parse_ts (tr_issued_at frame) with
  | None => fail 3 TRUST_FRAME_INVALID
      ("TrustFrame issued_at is not a valid timestamp: " +:+ tr_issued_at frame +:+ ".")
  | Some _ =>
    match parse_ts (tr_expires_at frame) with
    | None => fail 3 TRUST_FRAME_INVALID
        ("TrustFrame expires_at is not a valid timestamp: " +:+ tr_expires_at frame +:+ ".")
    | Some expires_at =>
      if expires_at <=? default now_utc (tc_as_of context)
      then fail 3 TRUST_FRAME_EXPIRED ("TrustFrame expired at " +:+ tr_expires_at frame +:+ ".")
      else if negb (existsb (fun g => String.eqb g (tr_grantor_nid frame)) (trusted_grantors context))
      then fail 3 CERT_UNTRUSTED_ISSUER
        ("TrustFrame grantor '" +:+ tr_grantor_nid frame +:+ "' is not a trusted grantor.")
      else if negb (String.eqb (tr_grantee_ca frame) (expected_grantee_ca context))
      then fail 3 TRUST_FRAME_INVALID
        ("TrustFrame grantee '" +:+ tr_grantee_ca frame +:+ "' does not match expected CA '"
         +:+ expected_grantee_ca context +:+ "'.")
      else match missing_from (tc_required_capabilities context) (tr_trust_scope frame) with
      | _ :: _ as missing => fail 5 TRUST_FRAME_SCOPE_EXCEEDS_GRANTOR
          ("TrustFrame is missing required capabilities: " +:+ join ", " missing +:+ ".")
      | [] =>
        match tc_target_node_path context with
        | Some target =>
          if existsb (fun pattern => nwp_path_matches pattern target) (tr_nodes frame) then ok
          else fail 6 CERT_SCOPE_VIOLATION
            ("Target path '" +:+ target +:+ "' is not covered by the TrustFrame node scope.")
        | None => ok
        end
      end
    end
  end.

(** ** Lemmas: paths *)

Lemma lower_length s : String.length (to_ascii_lowercase s) = String.length s.
Proof. induction s as [|a s IH]; cbn; congruence. Qed.

Lemma lower_app s t :
  to_ascii_lowercase (s +:+ t) = to_ascii_lowercase s +:+ to_ascii_lowercase t.
Proof.
  induction s as [|a s IH]; [done |].
  change (String.String (ascii_lower a) (to_ascii_lowercase (s +:+ t))
    = String.String (ascii_lower a) (to_ascii_lowercase s +:+ to_ascii_lowercase t)). by rewrite IH.
Qed.

Lemma bytes_of_length s : length (bytes_of s) = String.length s.
Proof. induction s; cbn; congruence. Qed.

(** A string whose lower case starts with [p] starts with as many characters
    that lower to [p]. *)
Lemma lower_prefix_split p s r :
  to_ascii_lowercase s = p +:+ r ->
  exists a b, s = a +:+ b /\ to_ascii_lowercase a = p /\ to_ascii_lowercase b = r.
Proof.
  revert s; induction p as [|c p IH]; intros s E.
  - by exists "", s.
  - destruct s as [|x s]; [done |]. cbn in E. injection E as Ec E.
    destruct (IH s E) as (a & b & -> & <- & <-). exists (String.String x a), b. repeat split. cbn. by rewrite Ec.
Qed.

Lemma strip_scope_suffix_spec pattern prefix :
  strip_scope_suffix pattern = Some prefix <-> pattern = prefix +:+ "/*".
Proof.
  unfold strip_scope_suffix. split.
  - intros E. destruct (rev (bytes_of pattern)) as [|b1 [|b2 r]] eqn:Er; [done | |].
    { by repeat case_match. }
    assert (b1 = 42 /\ b2 = 47 /\ prefix = of_bytes (rev r)) as (-> & -> & ->)
      by (repeat case_match; by simplify_eq).
    apply (f_equal (@rev Z)) in Er. rewrite rev_involutive in Er. cbn in Er.
    rewrite <-(of_bytes_bytes_of pattern), Er, <-app_assoc. cbn.
    clear. induction (rev r) as [|b l IH]; [done |].
    change (String.String (ascii_of b) (of_bytes (l ++ [47; 42]))
      = String.String (ascii_of b) (of_bytes l +:+ "/*")). by rewrite IH.
  - intros ->. rewrite bytes_of_app, rev_app_distr. cbn.
    by rewrite rev_involutive, of_bytes_bytes_of.
Qed.

(** [path] lies at or below [prefix], at a segment boundary. *)
Definition at_or_below (prefix path : string) : Prop :=
  exists a b, path = a +:+ b /\ eq_ignore_ascii_case a prefix = true /\
    (b = "" \/ exists r, b = "/" +:+ r).

Lemma eq_ignore_spec s t : eq_ignore_ascii_case s t = true <-> to_ascii_lowercase s = to_ascii_lowercase t.
Proof. apply String.eqb_eq. Qed.

Lemma string_length_app' s t : String.length (s +:+ t) = (String.length s + String.length t)%nat.
Proof. rewrite <-!bytes_of_length, bytes_of_app. apply length_app. Qed.

Lemma slash_at a b : bytes_of (a +:+ b) !! String.length a = Some 47 <-> exists r, b = "/" +:+ r.
Proof.
  rewrite bytes_of_app, <-bytes_of_length, lookup_app_r, Nat.sub_diag by done. split.
  - destruct b as [|c b]; [done |]. cbn. intros [= E]. exists b.
    rewrite <-(ascii_of_byte_of c), E. done.
  - by intros [r ->].
Qed.

Lemma nwp_path_matches_prefix prefix path :
  nwp_path_matches (prefix +:+ "/*") path = true <-> at_or_below prefix path.
Proof.
  unfold nwp_path_matches, at_or_below. destruct (String.eqb_spec (prefix +:+ "/*") "*") as [E|_].
  { apply (f_equal String.length) in E. rewrite string_length_app' in E. cbn in E. lia. }
  rewrite (proj2 (strip_scope_suffix_spec _ _) eq_refl).
  rewrite andb_true_iff, orb_true_iff, starts_with_spec, Nat.eqb_eq, bool_decide_eq_true. split.
  - intros [[r Hr] Hb]. apply lower_prefix_split in Hr as (a & b & -> & Ha & _).
    assert (El : String.length prefix = String.length a)
      by (rewrite <-(lower_length a), Ha; by rewrite lower_length).
    exists a, b. split; [done |]. split; [by apply eq_ignore_spec |]. rewrite El in Hb.
    destruct Hb as [Hb|Hb]; [left | right; by apply slash_at in Hb].
    rewrite string_length_app' in Hb. destruct b; [done | cbn in Hb; lia].
  - intros (a & b & -> & Ha%eq_ignore_spec & Hb).
    assert (El : String.length prefix = String.length a)
      by (rewrite <-(lower_length a), Ha; by rewrite lower_length).
    rewrite lower_app, Ha, El. split; [by eexists |]. destruct Hb as [->|Hb]; [left | right].
    + rewrite string_length_app'. cbn. lia.
    + by apply slash_at.
Qed.

(** What a scope pattern covers: everything for a bare star; for a pattern
    ending in slash-star, the prefix itself and what lies under it after a
    slash (so never a sibling whose name only starts alike); otherwise one path.
    ASCII case is ignored throughout. *)
Theorem nwp_path_matches_spec :
  (forall path, nwp_path_matches "*" path = true) /\
  (forall prefix path, nwp_path_matches (prefix +:+ "/*") path = true <-> at_or_below prefix path) /\
  (forall pattern path, pattern <> "*" -> (forall prefix, pattern <> prefix +:+ "/*") ->
     (nwp_path_matches pattern path = true <-> eq_ignore_ascii_case pattern path = true)).
Proof.
  split; [done |]. split; [exact nwp_path_matches_prefix |].
  intros pattern path Hs Hp. unfold nwp_path_matches.
  destruct (String.eqb_spec pattern "*") as [|_]; [done |].
  destruct (strip_scope_suffix pattern) as [prefix|] eqn:E; [|done].
  by apply strip_scope_suffix_spec, Hp in E.
Qed.

(** ** Lemmas: capabilities *)

Lemma missing_from_nil required have : missing_from required have = [] <-> incl required have.
Proof. apply excess_nil. Qed.

(** ** Lemmas: the six steps *)

Section steps.
Context {D : Digests} `{Base64} `{Calendar} `{Ed25519} `{X509Parser} `{HexDecoder} `{Timestamps}.

Definition unexpired (f : IdentFrame) (now : Z) : Prop :=
  forall s, id_expires_at f = Some s -> exists t, parse_ts s = Some t /\ now < t.

Definition issued_by (o : NipVerifierOptions) (f : IdentFrame) (issuer key : string) : Prop :=
  (forall d, id_issued_by f = Some d -> d = issuer) /\ trusted_ca_public_keys o !! issuer = Some key.

(** [sig] is an Ed25519 signature of the payload under the key text. *)
Definition signed_under (key : string) (payload : FrameDict) (sig : option string) : Prop :=
  exists hex raw k b64 bytes s,
    key = "ed25519:" +:+ hex /\ hex_decode hex = Ok raw /\ length raw = 32%nat /\
    key_from_bytes raw = Ok k /\ sig = Some ("ed25519:" +:+ b64) /\ b64_standard b64 = Ok bytes /\
    sig_from_slice bytes = Ok s /\ ed_verify k (bytes_of (canonical_json payload)) s = Ok tt.

Definition assured (o : NipVerifierOptions) (f : IdentFrame) : Prop :=
  forall min, min_assurance_level o = Some min ->
    rank min <= rank (default ANONYMOUS (id_assurance_level f)).

(** The X.509 chain vouches for a v2 frame, once trust anchors are set. *)
Definition chain_vouches (o : NipVerifierOptions) (f : IdentFrame) (now : Z) : Prop :=
  trusted_x509_roots_der o <> [] -> id_cert_format f = Some V2_X509 ->
  let chain := default [] (id_cert_chain f) in
  xr_valid (x509_verify chain (id_nid f) (id_assurance_level f) (trusted_x509_roots_der o)) = true /\
  (phase3_enforcement o = true -> exists leaf rest der,
     chain = leaf :: rest /\ b64_url_no_pad leaf = Ok der /\ enforce f der now = Some ok).

(** No configured source reports a revocation, or fails without being allowed
    to; and there is a source when one is required. *)
Definition not_revoked (http_get : string -> HttpReply) (o : NipVerifierOptions) (f : IdentFrame) : Prop :=
  let serial := default "" (id_serial f) in
  (serial <> "" -> ~ In serial (local_revoked_serials o)) /\
  (forall cb r, revocation_check o = Some cb -> cb f = Some r -> valid r = true) /\
  (forall get item, revocation_store o = Some get -> get serial = Some item -> cr_revoked_at item = None) /\
  (forall url, ocsp_url o = Some url ->
     let r := ocsp_check http_get url (id_nid f) in
     valid r = true \/ (ocsp_fail_open o = true /\ vr_error_code r <> Some CERT_REVOKED)) /\
  (revocation_mode o = Required ->
     local_crl_configured o = true \/ local_revoked_serials o <> [] \/ is_Some (revocation_check o) \/
     is_Some (revocation_store o) \/ is_Some (ocsp_url o)).

Definition in_scope (f : IdentFrame) (target : string) : Prop :=
  exists nodes p, (id_scope f ≫= vget "nodes") = Some (VArray nodes) /\ In (VString p) nodes /\
    nwp_path_matches p target = true.

Lemma check_expiry_None f now : check_expiry f now = None <-> unexpired f now.
Proof.
  unfold check_expiry, unexpired. destruct (id_expires_at f) as [s|]; [|by split].
  destruct (parse_ts s) as [t|] eqn:E.
  - destruct (Z.ltb_spec now t).
    + split; [|done]. intros _ ? [= <-]. by exists t.
    + split; [done |]. intros Hu. destruct (Hu s eq_refl) as (t' & Et & ?).
      rewrite E in Et. injection Et as <-. lia.
  - split; [done |]. intros Hu. destruct (Hu s eq_refl) as (t' & Et & ?). congruence.
Qed.

Lemma check_issuer_Ok o f issuer key : check_issuer o f issuer = Ok key <-> issued_by o f issuer key.
Proof.
  unfold check_issuer, issued_by. destruct (id_issued_by f) as [d|].
  - destruct (String.eqb_spec d issuer) as [->|Hne]; cbn [negb].
    + rewrite ok_or_Ok. split; [intros E; split; [by intros ? [= <-] | done] | by intros [_ ?]].
    + split; [done |]. intros [Hd _]. by destruct Hne; apply Hd.
  - rewrite ok_or_Ok. split; [intros E; split; done | by intros [_ ?]].
Qed.

Lemma parse_pub_key_Ok s raw :
  parse_pub_key_string s = Ok raw <->
  exists body, s = "ed25519:" +:+ body /\ hex_decode body = Ok raw /\ length raw = 32%nat.
Proof.
  unfold parse_pub_key_string. destruct (strip_prefix "ed25519:" s) as [body|] eqn:E.
  - apply strip_prefix_spec in E. rewrite result_bind_Ok. split.
    + intros (r & Hr & Hl). destruct (hex_decode body) as [x|] eqn:Eh; [|done]. injection Hr as ->.
      destruct (Nat.eqb_spec (length r) 32); [|done]. injection Hl as ->. by exists body.
    + intros (b & Eb & Hh & Hl). exists raw. assert (Heq : Some b = Some body).
      { rewrite E in Eb. apply strip_prefix_spec in Eb. by rewrite (proj2 (strip_prefix_spec _ _ body) eq_refl) in Eb. }
      injection Heq as ->. rewrite Hh. split; [done |]. by rewrite Hl.
  - split; [done |]. intros (b & Eb & _). apply strip_prefix_spec in Eb. congruence.
Qed.

Lemma verify_signature_ok f key :
  valid (verify_signature f key) = true <-> signed_under key (ident_unsigned_dict f) (id_signature f).
Proof.
  unfold signed_under. transitivity (exists raw k b64 bytes s, parse_pub_key_string key = Ok raw /\
    key_from_bytes raw = Ok k /\ id_signature f = Some ("ed25519:" +:+ b64) /\
    b64_standard b64 = Ok bytes /\ sig_from_slice bytes = Ok s /\
    ed_verify k (bytes_of (canonical_json (ident_unsigned_dict f))) s = Ok tt).
  2:{ setoid_rewrite parse_pub_key_Ok. split.
      - intros (raw & k & b64 & bytes & s & (body & ?&?&?) & ?&?&?&?&?). by exists body, raw, k, b64, bytes, s.
      - intros (body & raw & k & b64 & bytes & s & ?&?&?&?&?&?&?&?). exists raw, k, b64, bytes, s.
        repeat split; try done. by exists body. }
  unfold verify_signature. destruct (id_signature f) as [sig|]; [|by split; [|intros (?&?&?&?&?&_&_&[=]&_)]].
  destruct (strip_prefix "ed25519:" sig) as [body|] eqn:Es.
  2:{ split; [done |]. intros (?&?&b&?&?&?&?&[= ->]&_).
      by rewrite (proj2 (strip_prefix_spec _ _ b) eq_refl) in Es. }
  assert (Hb : forall b, Some sig = Some ("ed25519:" +:+ b) <-> b = body).
  { intros b. split; [|intros ->; apply strip_prefix_spec in Es; congruence].
    intros [= ->]. rewrite (proj2 (strip_prefix_spec _ _ b) eq_refl) in Es. congruence. }
  setoid_rewrite Hb.
  destruct (parse_pub_key_string key) as [raw|] eqn:Er; [|by split; [|intros (?&?&?&?&?&[=]&_)]].
  destruct (key_from_bytes raw) as [k|] eqn:Ek.
  2:{ split; [done |]. intros (?&?&?&?&?&[= <-]&E&_). congruence. }
  destruct (b64_standard body) as [bytes|] eqn:Eb; [|split; [done |]].
  2:{ intros (?&?&?&?&?&?&?&->&?&_). congruence. }
  destruct (sig_from_slice bytes) as [s|] eqn:Eg; [|split; [done |]].
  2:{ intros (?&?&?&?&?&?&?&->&?&?&_). congruence. }
  destruct (ed_verify k _ s) as [[]|] eqn:Ev; cbn.
  - split; [|done]. intros _. by exists raw, k, body, bytes, s.
  - split; [done |]. intros (?&?&?&?&?&[= <-]&E1&->&E2&E3&E4). congruence.
Qed.

Lemma check_min_assurance_None o f : check_min_assurance o f = None <-> assured o f.
Proof.
  unfold check_min_assurance, assured. destruct (min_assurance_level o) as [min|]; cbn [mbind option_bind]; [|by split].
  unfold meets_or_exceeds. destruct (Z.leb_spec (rank min) (rank (default ANONYMOUS (id_assurance_level f)))).
  - split; [|done]. by intros _ ? [= <-].
  - split; [done |]. intros Hm. specialize (Hm min eq_refl). lia.
Qed.

Lemma enforce_valid f der now r : enforce f der now = Some r -> valid r = true -> r = ok.
Proof. intros E Hv. destruct (enforce_invalid _ _ _ _ E) as [|[Hf _]]; congruence. Qed.

Lemma check_x509_pass o f now : check_x509 o f now = Some None <-> chain_vouches o f now.
Proof.
  unfold check_x509, chain_vouches. destruct (trusted_x509_roots_der o) as [|root roots]; [by split |].
  destruct (decide (id_cert_format f = Some V2_X509)) as [Ec|Ec].
  2:{ rewrite bool_decide_eq_false_2 by done. by split. }
  rewrite bool_decide_eq_true_2 by done. cbn [negb].
  set (chain := default [] (id_cert_chain f)).
  destruct (xr_valid (x509_verify chain _ _ _)) eqn:Ex; cbn [negb].
  2:{ split; [done |]. intros Hx. by destruct (Hx ltac:(done) Ec) as [? _]. }
  destruct (phase3_enforcement o) eqn:Ep; cbn [negb]; [|by split].
  destruct chain as [|leaf rest] eqn:El.
  { split; [done |]. intros Hx. destruct (Hx ltac:(done) Ec) as [_ Hx'].
    by destruct (Hx' eq_refl) as (? & ? & ? & ? & _). }
  destruct (b64_url_no_pad leaf) as [der|] eqn:Ed.
  2:{ split; [done |]. intros Hx. destruct (Hx ltac:(done) Ec) as [_ Hx'].
      destruct (Hx' eq_refl) as (l & r & d & [= <- <-] & E & _). congruence. }
  destruct (enforce f der now) as [r|] eqn:Ee; cbn [mbind option_bind].
  2:{ split; [done |]. intros Hx. destruct (Hx ltac:(done) Ec) as [_ Hx'].
      destruct (Hx' eq_refl) as (l & r & d & [= <- <-] & E & E'). congruence. }
  split.
  - destruct (valid r) eqn:Ev; [|done]. intros _ _ _. split; [done |]. intros _.
    exists leaf, rest, der. split; [done |]. split; [done |]. rewrite Ee. f_equal. by eapply enforce_valid.
  - intros Hx. destruct (Hx ltac:(done) Ec) as [_ Hx'].
    destruct (Hx' eq_refl) as (l & r' & d & [= <- <-] & E & E'). rewrite Ed in E. injection E as <-.
    rewrite Ee in E'. by injection E' as ->.
Qed.

(** *** Revocation: what each source lets through *)

Definition consulted (p : NipRevocationPolicy) (configured : bool) (s : NipRevocationSource)
    : NipRevocationPolicy :=
  if configured then mkPolicy (mode p) (pol_ocsp_fail_open p) (consulted_sources p ++ [s]) else p.

Lemma observe_good p s : observe p s Good = (None, consulted p true s).
Proof. unfold observe. by rewrite bool_decide_eq_false_2 with (P := Good = Unavailable), andb_false_r. Qed.

Lemma observe_revoked p s : exists r, fst (observe p s Revoked) = Some r /\ valid r = false /\
  vr_error_code r = Some CERT_REVOKED /\ step_failed r = 4.
Proof.
  unfold observe. rewrite bool_decide_eq_false_2 with (P := Revoked = Unavailable), andb_false_r by done.
  by eexists.
Qed.

Definition crl_clear (o : NipVerifierOptions) (serial : string) : Prop :=
  serial <> "" -> ~ In serial (local_revoked_serials o).
Definition crl_configured (o : NipVerifierOptions) : bool :=
  local_crl_configured o || match local_revoked_serials o with [] => false | _ => true end.

Lemma consult_crl_spec o serial p :
  (crl_clear o serial /\ consult_crl o serial p = (None, consulted p (crl_configured o) LocalCrl)) \/
  (~ crl_clear o serial /\ exists r p', consult_crl o serial p = (Some r, p') /\ valid r = false /\
     vr_error_code r = Some CERT_REVOKED).
Proof.
  unfold consult_crl, crl_clear. fold (crl_configured o).
  destruct (crl_configured o) eqn:Ec.
  2:{ left. unfold crl_configured in Ec. destruct (local_revoked_serials o); [|by rewrite orb_true_r in Ec].
      split; [by intros _ [] | done]. }
  destruct (is_empty serial) eqn:Ee; cbn [negb andb].
  { left. assert (serial = "") as -> by by destruct serial. split; [done | apply observe_good]. }
  destruct (existsb _ _) eqn:Ex.
  - right. apply existsb_exists in Ex as (s & Hin & ->%String.eqb_eq). split.
    + intros Hc. apply Hc; [by intros -> | done].
    + destruct (observe_revoked p LocalCrl) as (r & E & Hv & Hcode & _).
      destruct (observe p LocalCrl Revoked) as [o' p']. cbn in E. subst. by exists r, p'.
  - left. split; [|apply observe_good]. intros _ Hin.
    assert (existsb (fun s => String.eqb s serial) (local_revoked_serials o) = true); [|congruence].
    apply existsb_exists. exists serial. split; [done | apply String.eqb_refl].
Qed.

Definition is_set {A} (o : option A) : bool := match o with Some _ => true | None => false end.

Definition callback_clear (o : NipVerifierOptions) (f : IdentFrame) : Prop :=
  forall cb r, revocation_check o = Some cb -> cb f = Some r -> valid r = true.

Lemma consult_callback_spec o f p :
  (callback_clear o f /\ consult_callback o f p = (None, consulted p (is_set (revocation_check o)) Callback)) \/
  (~ callback_clear o f /\ exists r p', consult_callback o f p = (Some r, p') /\ valid r = false).
Proof.
  unfold consult_callback, callback_clear. destruct (revocation_check o) as [cb|]; [|by left].
  destruct (cb f) as [r|] eqn:E; cbn [is_set].
  - destruct (valid r) eqn:Ev; cbn [negb].
    + left. split; [intros ? ? [= <-]; rewrite E; by intros [= <-] | by rewrite observe_good].
    + right. split; [|by exists r, p]. intros Hc. specialize (Hc cb r eq_refl E). congruence.
  - left. split; [intros ? ? [= <-]; by rewrite E | by rewrite observe_good].
Qed.

Definition store_clear (o : NipVerifierOptions) (serial : string) : Prop :=
  forall get item, revocation_store o = Some get -> get serial = Some item -> cr_revoked_at item = None.

Lemma consult_store_spec o serial p :
  (store_clear o serial /\ consult_store o serial p = (None, consulted p (is_set (revocation_store o)) CaStore)) \/
  (~ store_clear o serial /\ exists r p', consult_store o serial p = (Some r, p') /\ valid r = false /\
     vr_error_code r = Some CERT_REVOKED).
Proof.
  unfold consult_store, store_clear. destruct (revocation_store o) as [get|]; [|by left].
  destruct (get serial) as [item|] eqn:E; cbn [is_set].
  - case_bool_decide as Hr.
    + right. split.
      * intros Hc. specialize (Hc get item eq_refl E). rewrite Hc in Hr. by destruct Hr.
      * destruct (observe_revoked p CaStore) as (r & Er & Hv & Hcode & _).
        destruct (observe p CaStore Revoked) as [o' p']. cbn in Er. subst. by exists r, p'.
    + left. split; [|apply observe_good]. intros ? ? [= <-]. rewrite E. intros [= <-].
      destruct (cr_revoked_at item); [|done]. destruct Hr. by eexists.
  - left. split; [|apply observe_good]. intros ? ? [= <-]. by rewrite E.
Qed.

Definition ocsp_clear (http_get : string -> HttpReply) (o : NipVerifierOptions) (f : IdentFrame) : Prop :=
  forall url, ocsp_url o = Some url ->
    let r := ocsp_check http_get url (id_nid f) in
    valid r = true \/ (ocsp_fail_open o = true /\ vr_error_code r <> Some CERT_REVOKED).

Lemma consult_ocsp_spec http_get o f p : pol_ocsp_fail_open p = ocsp_fail_open o ->
  (ocsp_clear http_get o f /\
     consult_ocsp http_get o f p = (None, consulted p (is_set (ocsp_url o)) Ocsp)) \/
  (~ ocsp_clear http_get o f /\ exists r p', consult_ocsp http_get o f p = (Some r, p') /\ valid r = false).
Proof.
  intros Hp. unfold consult_ocsp, ocsp_clear. destruct (ocsp_url o) as [url|]; [|by left].
  cbn [is_set]. set (r := ocsp_check _ _ _). unfold ocsp_outcome.
  destruct (valid r) eqn:Ev; [left; split; [|apply observe_good]; intros ? [= <-]; by left |].
  case_bool_decide as Hc.
  - right. split.
    + intros Hx. destruct (Hx url eq_refl) as [Hv|[_ Hn]]; [fold r in Hv; congruence | by apply Hn].
    + destruct (observe_revoked p Ocsp) as (r' & Er & Hv & _).
      destruct (observe p Ocsp Revoked) as [o' p']. cbn in Er. subst. by exists r', p'.
  - unfold observe. rewrite !bool_decide_eq_true_2 by done. rewrite Hp. cbn [andb].
    destruct (ocsp_fail_open o) eqn:Ef.
    + left. split; [|cbn; by rewrite Hp]. intros ? [= <-]. right. by split.
    + right. split; [|by eexists _, _]. intros Hx.
      destruct (Hx url eq_refl) as [Hv|[Hn _]]; [fold r in Hv; congruence | done].
Qed.

Lemma consulted_fail_open p b s : pol_ocsp_fail_open (consulted p b s) = pol_ocsp_fail_open p.
Proof. by destruct b. Qed.
Lemma consulted_mode p b s : mode (consulted p b s) = mode p.
Proof. by destruct b. Qed.
Lemma consulted_nil p b s : consulted_sources (consulted p b s) = [] <-> consulted_sources p = [] /\ b = false.
Proof.
  destruct b; cbn; [|tauto]. split; [|naive_solver]. intros E. by apply app_eq_nil in E as [_ ?].
Qed.

Lemma check_revocation_ok http_get o f :
  valid (check_revocation http_get o f) = true <-> not_revoked http_get o f.
Proof.
  unfold check_revocation, not_revoked. cbv zeta. set (serial := default "" (id_serial f)).
  set (p := policy_new _ _).
  destruct (consult_crl_spec o serial p) as [[Hc ->]|[Hc (r & p1 & -> & Hv & _)]].
  2:{ rewrite Hv. split; [done |]. intros [Hx _]. by destruct Hc. }
  set (p1 := consulted _ _ _).
  destruct (consult_callback_spec o f p1) as [[Hb ->]|[Hb (r & q & -> & Hv)]].
  2:{ rewrite Hv. split; [done |]. intros (_ & Hx & _). by destruct Hb. }
  set (p2 := consulted _ _ _).
  destruct (consult_store_spec o serial p2) as [[Hs ->]|[Hs (r & q & -> & Hv & _)]].
  2:{ rewrite Hv. split; [done |]. intros (_ & _ & Hx & _). by destruct Hs. }
  set (p3 := consulted _ _ _).
  destruct (consult_ocsp_spec http_get o f p3) as [[Ho ->]|[Ho (r & q & -> & Hv)]].
  { unfold p3, p2, p1. by rewrite !consulted_fail_open. }
  2:{ rewrite Hv. split; [done |]. intros (_ & _ & _ & Hx & _). by destruct Ho. }
  set (p4 := consulted _ _ _). unfold complete.
  assert (Hm : mode p4 = revocation_mode o) by (unfold p4, p3, p2, p1; by rewrite !consulted_mode).
  assert (Hn : consulted_sources p4 = [] <-> crl_configured o = false /\
    is_set (revocation_check o) = false /\ is_set (revocation_store o) = false /\ is_set (ocsp_url o) = false).
  { unfold p4, p3, p2, p1. rewrite !consulted_nil. cbn. tauto. }
  rewrite Hm. case_bool_decide as Hr; cbn [andb].
  2:{ split; [|done]. intros _. by repeat split. }
  case_bool_decide as Hz.
  - split; [done |]. intros (_ & _ & _ & _ & Hx). apply Hn in Hz as (Z1 & Z2 & Z3 & Z4).
    unfold crl_configured in Z1. apply orb_false_iff in Z1 as [Z0 Z1].
    destruct (Hx Hr) as [?|[Hl|[[? E]|[[? E]|[? E]]]]]; [congruence | | | |].
    + by destruct (local_revoked_serials o).
    + by rewrite E in Z2.
    + by rewrite E in Z3.
    + by rewrite E in Z4.
  - split; [|done]. intros _. repeat split; try done. intros _.
    destruct (local_crl_configured o) eqn:Z0; [by left |].
    destruct (local_revoked_serials o) eqn:Z1; [|by right; left].
    destruct (revocation_check o) eqn:Z2; [by right; right; left; eexists |].
    destruct (revocation_store o) eqn:Z3; [by right; right; right; left; eexists |].
    destruct (ocsp_url o) eqn:Z4; [by right; right; right; right; eexists |].
    destruct Hz. apply Hn. unfold crl_configured. by rewrite Z0, Z1.
Qed.

Lemma check_capabilities_None f c :
  check_capabilities f c = None <-> incl (required_capabilities c) (id_capabilities f).
Proof.
  unfold check_capabilities. rewrite <-missing_from_nil.
  destruct (missing_from _ _); [done |]. by split.
Qed.

Lemma check_scope_ok f target : valid (check_scope f target) = true <-> in_scope f target.
Proof.
  unfold check_scope, in_scope. destruct (id_scope f ≫= vget "nodes") as [v|]; cbn [mbind option_bind].
  2:{ split; [done | by intros (? & ? & ? & _)]. }
  destruct v; cbn [as_array]; try (split; [done | by intros (? & ? & [=] & _)]).
  destruct (existsb _ l) eqn:Ex.
  - split; [|done]. intros _. apply existsb_exists in Ex as (v & Hin & Hv).
    destruct v; try done. by exists l, s.
  - split; [done |]. intros (nodes & p & [= <-] & Hin & Hm).
    assert (existsb (fun pattern => match as_str pattern with
      | Some p => nwp_path_matches p target | None => false end) l = true); [|congruence].
    apply existsb_exists. by exists (VString p).
Qed.

Definition accepted_by (http_get : string -> HttpReply) (now_utc : Z) (o : NipVerifierOptions)
    (f : IdentFrame) (issuer : string) (c : NipVerifyContext) : Prop :=
  exists r, verify http_get now_utc o f issuer c = Some r /\ valid r = true.

(** Steps 1 to 3. *)
Definition authentic (o : NipVerifierOptions) (f : IdentFrame) (issuer : string) (now : Z) : Prop :=
  unexpired f now /\
  (exists key, issued_by o f issuer key /\ signed_under key (ident_unsigned_dict f) (id_signature f)) /\
  assured o f /\ chain_vouches o f now.

Definition entitled (f : IdentFrame) (c : NipVerifyContext) : Prop :=
  incl (required_capabilities c) (id_capabilities f) /\
  forall target, target_node_path c = Some target -> in_scope f target.

Lemma check_expiry_Some f now r : check_expiry f now = Some r ->
  valid r = false /\ step_failed r = 1 /\ vr_error_code r = Some CERT_EXPIRED.
Proof. unfold check_expiry. repeat case_match; by intros [= <-]. Qed.
Lemma check_issuer_Err o f issuer r : check_issuer o f issuer = Err r ->
  valid r = false /\ step_failed r = 2 /\ vr_error_code r = Some CERT_UNTRUSTED_ISSUER.
Proof.
  unfold check_issuer. repeat case_match; try (by intros [= <-]); unfold ok_or;
    destruct (_ !! issuer); by intros [= <-].
Qed.
Lemma verify_signature_invalid f key : valid (verify_signature f key) = false ->
  step_failed (verify_signature f key) = 3.
Proof. unfold verify_signature. repeat case_match; done. Qed.
Lemma check_min_assurance_Some o f r : check_min_assurance o f = Some r ->
  valid r = false /\ step_failed r = 3.
Proof.
  unfold check_min_assurance. destruct (min_assurance_level o); cbn [mbind option_bind]; [|done].
  case_match; [done | by intros [= <-]].
Qed.
Lemma check_x509_Some o f now r : check_x509 o f now = Some (Some r) ->
  valid r = false /\ step_failed r = 3.
Proof.
  unfold check_x509. destruct (trusted_x509_roots_der o); [done |].
  destruct (negb (bool_decide _)); [done |].
  destruct (negb (xr_valid _)); [by intros [= <-] |].
  destruct (negb (phase3_enforcement o)); [done |].
  destruct (default [] (id_cert_chain f)) as [|leaf rest]; [by intros [= <-] |].
  destruct (b64_url_no_pad leaf) as [der|]; [|by intros [= <-]].
  destruct (enforce f der now) as [r'|] eqn:E; cbn [mbind option_bind]; [|done].
  destruct (valid r') eqn:Ev; intros [= <-].
  destruct (enforce_invalid _ _ _ _ E) as [->|?]; [done | tauto].
Qed.
Lemma check_capabilities_Some f c r : check_capabilities f c = Some r ->
  valid r = false /\ step_failed r = 5.
Proof. unfold check_capabilities. case_match; [done | by intros [= <-]]. Qed.
Lemma check_scope_invalid f t : valid (check_scope f t) = false -> step_failed (check_scope f t) = 6.
Proof. unfold check_scope. repeat case_match; done. Qed.

(** Steps 4 to 6. *)
Definition late_steps (http_get : string -> HttpReply) (o : NipVerifierOptions) (f : IdentFrame) (c : NipVerifyContext)
    : NipIdentVerifyResult :=
  let revocation := check_revocation http_get o f in
  if negb (valid revocation) then revocation else
  match check_capabilities f c with
  | Some r => r
  | None => match target_node_path c with Some target => check_scope f target | None => ok end
  end.

Lemma late_steps_spec http_get o f c : let r := late_steps http_get o f c in
  (valid r = true <-> not_revoked http_get o f /\ entitled f c) /\
  (valid r = false ->
    r = check_revocation http_get o f /\ ~ not_revoked http_get o f \/
    step_failed r = 5 /\ not_revoked http_get o f /\ ~ incl (required_capabilities c) (id_capabilities f) \/
    step_failed r = 6 /\ not_revoked http_get o f /\ incl (required_capabilities c) (id_capabilities f) /\ ~ entitled f c).
Proof.
  cbv zeta. unfold late_steps. pose proof (check_revocation_ok http_get o f) as K6.
  destruct (valid (check_revocation http_get o f)) eqn:E6; cbn [negb].
  2:{ assert (Hn : ~ not_revoked http_get o f) by (intros Hr; by apply K6 in Hr). rewrite E6. split; [|by left].
      split; [done|by intros [? _]]. }
  assert (Hr : not_revoked http_get o f) by by apply K6. clear K6.
  pose proof (check_capabilities_None f c) as K7. destruct (check_capabilities f c) as [r7|] eqn:E7.
  { apply check_capabilities_Some in E7 as [Hv Hs].
    assert (Hn : ~ incl (required_capabilities c) (id_capabilities f)) by (intros Hq; by apply K7 in Hq).
    rewrite Hv. split; [split; [done|by intros [_ [? _]]]|]. intros _. right; left. done. }
  assert (Hcap : incl (required_capabilities c) (id_capabilities f)) by by apply K7. clear K7.
  unfold entitled. destruct (target_node_path c) as [t|] eqn:Et.
  - pose proof (check_scope_ok f t) as K8. split.
    + split; [intros Hv|intros (_ & _ & Ht); apply K8; by apply Ht].
      split; [done |]. split; [done |]. intros ? [= <-]. by apply K8.
    + intros Hv. right; right. split; [by apply check_scope_invalid |]. split; [done |]. split; [done |].
      intros [_ Ht]. specialize (Ht t eq_refl). apply K8 in Ht. congruence.
  - split; [|done]. split; [|done]. intros _. split; [done |]. by split.
Qed.

(** Steps 1 to 3, and the rest of the check where they hold. *)
Lemma early_steps http_get now_utc o f issuer c : let now := default now_utc (as_of c) in
  (authentic o f issuer now /\ verify http_get now_utc o f issuer c = Some (late_steps http_get o f c)) \/
  (~ authentic o f issuer now /\ forall r, verify http_get now_utc o f issuer c = Some r -> valid r = false /\
    (step_failed r = 1 /\ ~ unexpired f now \/
     step_failed r = 2 /\ unexpired f now /\ (forall key, ~ issued_by o f issuer key) \/
     step_failed r = 3 /\ unexpired f now /\ (exists key, issued_by o f issuer key) /\ ~ authentic o f issuer now)).
Proof.
  cbv zeta. set (now := default now_utc (as_of c)). unfold verify. fold now.
  pose proof (check_expiry_None f now) as K1. destruct (check_expiry f now) as [r1|] eqn:E1.
  { apply check_expiry_Some in E1 as (Hv & Hs & _). right.
    assert (Hn : ~ unexpired f now) by (intros Hu; by apply K1 in Hu).
    split; [by intros [? _]|]. intros r [= <-]. split; [done|]. by left. }
  assert (Hu : unexpired f now) by by apply K1. clear K1.
  pose proof (check_issuer_Ok o f issuer) as K2. destruct (check_issuer o f issuer) as [key|r2] eqn:E2.
  2:{ apply check_issuer_Err in E2 as (Hv & Hs & _). right.
      assert (Hn : forall key, ~ issued_by o f issuer key) by (intros k Hk; by apply K2 in Hk).
      split; [intros (_ & (k & Hk & _) & _); by apply Hn in Hk|]. intros r [= <-]. split; [done|]. right; left. by repeat split. }
  assert (Hi : issued_by o f issuer key) by by apply K2. clear K2.
  assert (Hkey : forall k, issued_by o f issuer k -> k = key)
    by (intros k [_ Hk]; destruct Hi as [_ Hi]; congruence).
  assert (Third : forall r, valid r = false -> step_failed r = 3 -> ~ authentic o f issuer now ->
    ~ authentic o f issuer now /\ forall r', Some r = Some r' -> valid r' = false /\
      (step_failed r' = 1 /\ ~ unexpired f now \/
       step_failed r' = 2 /\ unexpired f now /\ (forall key, ~ issued_by o f issuer key) \/
       step_failed r' = 3 /\ unexpired f now /\ (exists key, issued_by o f issuer key) /\ ~ authentic o f issuer now)).
  { intros r Hv Hs Hn. split; [done|]. intros r' [= <-]. split; [done|]. right; right. split_and!; [done|done|by exists key|done]. }
  pose proof (verify_signature_ok f key) as K3. destruct (valid (verify_signature f key)) eqn:E3; cbn [negb].
  2:{ right. apply Third; [done|by apply verify_signature_invalid|].
      intros (_ & (k & Hk & Hsig) & _). apply Hkey in Hk as ->. by apply K3 in Hsig. }
  assert (Hsig : signed_under key (ident_unsigned_dict f) (id_signature f)) by by apply K3. clear K3.
  pose proof (check_min_assurance_None o f) as K4. destruct (check_min_assurance o f) as [r4|] eqn:E4.
  { apply check_min_assurance_Some in E4 as [Hv Hs]. right. apply Third; [done|done|]. intros (_ & _ & Ha & _). by apply K4 in Ha. }
  pose proof (check_x509_pass o f now) as K5. destruct (check_x509 o f now) as [[r5|]|] eqn:E5; cbn [mbind option_bind].
  { apply check_x509_Some in E5 as [Hv Hs]. right. apply Third; [done|done|]. intros (_ & _ & _ & Hc). by apply K5 in Hc. }
  - left. split; [|unfold late_steps; by repeat case_match].
    split; [done |]. split; [by exists key |]. split; [by apply K4 | by apply K5].
  - right. split; [|done]. intros (_ & _ & _ & Hc). by apply K5 in Hc.
Qed.

(** C25: an identity is accepted exactly when all six steps hold: it has not
    expired; its issuer is the expected, trusted one and the issuer's key
    signed it; it meets the required assurance and, for a v2 frame with trust
    anchors set, its certificate chain vouches for it; no revocation source
    objects, and there is one where one is required; it holds the capabilities
    asked for; and its scope covers the target. An identity that is refused is
    refused for the first step it fails, and the result names that step. *)
Theorem verify_spec http_get now_utc o f issuer c :
  let now := default now_utc (as_of c) in
  (accepted_by http_get now_utc o f issuer c <->
     authentic o f issuer now /\ not_revoked http_get o f /\ entitled f c) /\
  forall r, verify http_get now_utc o f issuer c = Some r -> valid r = false ->
    step_failed r = 1 /\ ~ unexpired f now \/
    step_failed r = 2 /\ unexpired f now /\ (forall key, ~ issued_by o f issuer key) \/
    step_failed r = 3 /\ unexpired f now /\ (exists key, issued_by o f issuer key) /\
      ~ authentic o f issuer now \/
    r = check_revocation http_get o f /\ authentic o f issuer now /\ ~ not_revoked http_get o f \/
    step_failed r = 5 /\ authentic o f issuer now /\ not_revoked http_get o f /\
      ~ incl (required_capabilities c) (id_capabilities f) \/
    step_failed r = 6 /\ authentic o f issuer now /\ not_revoked http_get o f /\
      incl (required_capabilities c) (id_capabilities f) /\ ~ entitled f c.
Proof.
  cbv zeta. unfold accepted_by. destruct (early_steps http_get now_utc o f issuer c) as [[Ha ->]|[Hn Hr]].
  - destruct (late_steps_spec http_get o f c) as [Hok Hbad]. split.
    + split; [intros (r & [= <-] & Hv)|intros (_ & ? & ?)]; [|eexists; split; [done|by apply Hok]].
      apply Hok in Hv as [? ?]. done.
    + intros r [= <-] Hv. destruct (Hbad Hv) as [[? ?]|[(? & ? & ?)|(? & ? & ? & ?)]]; do 3 right; [left|right; left|right; right]; by split_and!.
  - split; [split; [intros (r & E & Hv)|by intros [? _]]|].
    + destruct (Hr r E) as [? _]. congruence.
    + intros r E _. destruct (Hr r E) as [_ [?|[?|?]]]; [by left|by right; left|by right; right; left].
Qed.

(** The signature covers the key, the metadata and the assurance level only:
    whoever holds one accepted frame of a NID can drop its expiry, serial and
    certificate format and claim any capability and any scope. *)
Definition forge (f : IdentFrame) (capabilities : list string) : IdentFrame :=
  mkIdent (id_nid f) (id_pub_key f) (id_meta f) (id_signature f) capabilities
    (Some (VObject [("nodes", VArray [VString "*"])])) None None None None (id_assurance_level f)
    None None None None None.

Lemma forged_claims_accepted http_get now o f issuer c c' :
  revocation_check o = None -> revocation_store o = None ->
  accepted_by http_get now o f issuer c ->
  accepted_by http_get now o (forge f (required_capabilities c')) issuer c'.
Proof.
  intros Hcb Hst Hf. apply (proj1 (verify_spec _ _ _ _ _ _)) in Hf as ((_ & (key & [_ Hk] & Hs) & Ha & _) & Hr & _).
  apply (proj1 (verify_spec _ _ _ _ _ _)). split; [|split].
  - split; [done |]. split; [by exists key |]. split; [done |]. done.
  - destruct Hr as (_ & _ & _ & Ho & Hm). repeat split; try done.
    + by intros ? ? E; rewrite Hcb in E.
    + by intros ? ? E; rewrite Hst in E.
  - split; [apply incl_refl |]. intros t _. exists [VString "*"], "*".
    split; [done |]. split; [by left | done].
Qed.

(** A source that answers that the certificate expired counts as unavailable,
    and so passes when OCSP may fail open. *)
Lemma ocsp_expired_fails_open http_get o f url :
  revocation_check o = None -> revocation_store o = None -> local_revoked_serials o = [] ->
  ocsp_url o = Some url -> ocsp_fail_open o = true ->
  http_get (trim_end_matches_slash url +:+ "/" +:+ escape (id_nid f))
    = Reply 200 (Ok (mkOcsp false (Some CERT_EXPIRED))) ->
  valid (check_revocation http_get o f) = true.
Proof.
  intros Hcb Hst Hcrl Hurl Hopen Hg. apply check_revocation_ok. repeat split.
  - intros _. rewrite Hcrl. by intros [].
  - by intros ? ? E; rewrite Hcb in E.
  - by intros ? ? E; rewrite Hst in E.
  - intros url' E. rewrite Hurl in E. injection E as <-. right. split; [done |].
    unfold ocsp_check. by rewrite Hg.
  - intros _. rewrite Hurl. by right; right; right; right.
Qed.

Lemma string_in g l : existsb (fun x => String.eqb x g) l = true <-> In g l.
Proof.
  rewrite existsb_exists. split; [by intros (x & Hx & ->%String.eqb_eq) |].
  intros Hg. exists g. split; [done | apply String.eqb_refl].
Qed.

(** A trust grant is accepted exactly when no field is blank, both its
    dates parse and it has not expired, its grantor is a pinned anchor, its
    grantee is the CA expected, and it grants the capabilities and covers the
    target asked for. *)
Theorem trust_validate_spec now_utc f c :
  valid (trust_validate now_utc f c) = true <->
  trust_incomplete f = false /\ is_Some (parse_ts (tr_issued_at f)) /\
  (exists t, parse_ts (tr_expires_at f) = Some t /\ default now_utc (tc_as_of c) < t) /\
  In (tr_grantor_nid f) (trusted_grantors c) /\ tr_grantee_ca f = expected_grantee_ca c /\
  incl (tc_required_capabilities c) (tr_trust_scope f) /\
  (forall target, tc_target_node_path c = Some target ->
     exists p, In p (tr_nodes f) /\ nwp_path_matches p target = true).
Proof.
  unfold trust_validate. rewrite <-string_in, <-missing_from_nil.
  destruct (trust_incomplete f); [by split; [|intros [? _]] |].
  destruct (parse_ts (tr_issued_at f)) as [ti|]; [|by split; [|intros (_ & [? ?] & _)]].
  destruct (parse_ts (tr_expires_at f)) as [te|]; [|by split; [|intros (_ & _ & (? & ? & _) & _)]].
  destruct (Z.leb_spec te (default now_utc (tc_as_of c))).
  { split; [done |]. intros (_ & _ & (t & [= <-] & ?) & _). lia. }
  destruct (existsb _ (trusted_grantors c)); cbn [negb]; [|by split; [|intros (_ & _ & _ & ? & _)]].
  destruct (String.eqb_spec (tr_grantee_ca f) (expected_grantee_ca c)); cbn [negb];
    [|by split; [|intros (_ & _ & _ & _ & ? & _)]].
  destruct (missing_from _ _); [|by split; [|intros (_ & _ & _ & _ & _ & ? & _)]].
  assert (Hbase : forall P : Prop, P -> false = false /\ is_Some (Some ti) /\
    (exists t, Some te = Some t /\ default now_utc (tc_as_of c) < t) /\ true = true /\
    tr_grantee_ca f = expected_grantee_ca c /\ @nil string = [] /\ P).
  { intros P HP. split; [done |]. split; [by eexists |]. split; [by eexists |]. done. }
  destruct (tc_target_node_path c) as [target|].
  - destruct (existsb _ (tr_nodes f)) eqn:Ex.
    + split; [|done]. intros _. apply Hbase. intros ? [= <-].
      by apply existsb_exists in Ex as (p & Hin & Hm); exists p.
    + split; [done |]. intros (_ & _ & _ & _ & _ & _ & Ht). destruct (Ht target eq_refl) as (p & Hin & Hm).
      assert (existsb (fun pattern => nwp_path_matches pattern target) (tr_nodes f) = true); [|congruence].
      apply existsb_exists. by exists p.
  - split; [|done]. intros _. by apply Hbase.
Qed.
End steps.

(** ** Witness *)

(** A toy signature scheme, digests and clocks for the witness. *)
#[local] Instance toy_base64 : Base64 := {|
  b64_standard s := Ok (bytes_of s); b64_url_no_pad s := Ok (bytes_of s); b64_url s := Ok (bytes_of s) |}.
#[local] Instance toy_calendar : Calendar := {|
  utc_datetime _ _ _ _ _ _ := None; show_datetime _ := "" |}.
#[local] Instance toy_ed25519 : Ed25519 := {|
  VerifyingKey := list Z; Signature := list Z; key_from_bytes l := Ok l; sig_from_slice l := Ok l;
  sig_from_bytes l := l;
  ed_verify k m s := if bool_decide (s = [80; 81]) then Ok tt else Err "no" |}.
#[local] Instance toy_parser : X509Parser := {| from_der _ := Err "no" |}.
#[local] Instance toy_hex : HexDecoder := {| hex_decode _ := Ok (repeat 7 32) |}.
#[local] Instance toy_time : Timestamps := {| parse_ts s := Some (Z.of_nat (String.length s)) |}.
#[local] Instance toy_digests : Digests := {|
  sha256 l := l; hex_encode _ := "h"; json_to_string _ := "j" |}.

Definition toy_frame : IdentFrame :=
  mkIdent "urn:nps:agent:x:a" "k" None (Some "ed25519:PQ") ["nwp:query"]
    (Some (VObject [("nodes", VArray [VString "nwp://h/data/*"])])) (Some "ca") None (Some "2026")
    (Some "0x1") None None None None None None.
Definition toy_options : NipVerifierOptions :=
  mkOptions {["ca" := "ed25519:00"]} [] ["0x2"] true None None None false Required None false.
Definition toy_context : NipVerifyContext := mkContext ["nwp:query"] (Some "nwp://H/data/1") None.

Lemma verify_spec_witness :
  accepted_by (fun _ => Transport "") 3 toy_options toy_frame "ca" toy_context.
Proof.
  apply (verify_spec (fun _ => Transport "") 3 toy_options toy_frame "ca" toy_context).
  split; [|split].
  - split; [|split; [|split]].
    + intros s [= <-]. exists 4. by split.
    + exists "ed25519:00". split; [split; [by intros ? [= <-] | reflexivity] |].
      exists "00", (repeat 7 32), (repeat 7 32), "PQ", [80; 81], [80; 81]. by repeat split.
    + by intros min.
    + done.
  - split; [|split; [done | split; [done | split; [done |]]]].
    + intros _. cbn. by intros [|[]].
    + intros _. by left.
  - split.
    + intros x [<-|[]]. by left.
    + intros t [= <-]. exists [VString "nwp://h/data/*"], "nwp://h/data/*".
      split; [reflexivity |]. split; [by left | reflexivity].
Defined.
