(* ===== verification/NipSigner.v ===== *)
(** * NipSigner: the CA's canonical signing form

    Models nps-nip/src/ca/signer.rs: the canonical JSON text a CA signs, its
    signatures and public keys as text.  Ed25519, base64 and the JSON text of
    scalars are parameters, with the laws the crates document. *)

From S2P Require Import Prelude RustStr Floats Json CoreFrames CoreCache NcpFrames NipFrames NipDer NipX509.
Local Open Scope Z_scope.

Definition EXCLUDED : list string :=
  ["signature"; "frame"; "metadata"; "cert_format"; "cert_chain"; "health"; "last_seen"].

Definition excluded (k : string) : bool := existsb (fun x => String.eqb x k) EXCLUDED.

(** Signing keys and the encoder of ed25519-dalek and base64. *)
Class Ed25519Signing `{Ed25519} : Type := {
  SigningKey : Type;
  verifying_key : SigningKey -> VerifyingKey;
  ed_sign : SigningKey -> list Z -> Signature;
  sig_to_bytes : Signature -> list Z;
  key_to_bytes : VerifyingKey -> list Z
}.
Class Base64Encoder : Type := { b64_url_no_pad_encode : list Z -> string }.

(** Their documented behaviour: signatures verify, and encodings decode. *)
Class SigningLaws `{Base64} `{Ed25519Signing} `{Base64Encoder} : Prop := {
  sign_verifies sk m : ed_verify (verifying_key sk) m (ed_sign sk m) = Ok tt;
  sig_bytes_u8 s : Forall u8_range (sig_to_bytes s);
  sig_bytes_len s : length (sig_to_bytes s) = 64%nat;
  sig_bytes_back s : sig_from_bytes (sig_to_bytes s) = s;
  key_bytes_u8 k : Forall u8_range (key_to_bytes k);
  key_bytes_len k : length (key_to_bytes k) = 32%nat;
  key_bytes_back k : key_from_bytes (key_to_bytes k) = Ok k;
  b64_back l : Forall u8_range l -> b64_url_no_pad (b64_url_no_pad_encode l) = Ok l
}.

Section signer.
Context {D : Digests}.

Definition key_order (a b : string * string) : Prop := (fst a ≤ fst b)%string.
#[local] Instance key_order_dec : RelDecision key_order.
Proof. intros a b. unfold key_order. tc_solve. Defined.

(** Keys that are not excluded, at every level, sorted, each with its text. *)
Fixpoint signer_write (el : Value) : string :=
  match el with
  | VObject m =>
    let written := map (fun kv => match kv with
      | (k, v) => (k, json_to_string (VString k) +:+ ":" +:+ signer_write v) end) m in
    let keys := List.filter (fun w => negb (excluded (fst w))) written in
    "{" +:+ join "," (map snd (merge_sort key_order keys)) +:+ "}"
  | VArray items => "[" +:+ join "," (map signer_write items) +:+ "]"
  | other => json_to_string other
  end.

Definition signer_canonical_json (value : Value) : string := signer_write value.

Context `{Base64} `{Ed25519Signing} `{Base64Encoder}.

Definition encode_public_key (pub_raw : list Z) : string := "ed25519:" +:+ b64_url_no_pad_encode pub_raw.
Definition encode_verifying_key (vk : VerifyingKey) : string := encode_public_key (key_to_bytes vk).

Definition decode_public_key (encoded : string) : option VerifyingKey :=
  b64 ← strip_prefix "ed25519:" encoded;
  match b64_url_no_pad b64 with
  | Err _ => None
  | Ok raw =>
    if negb (length raw =? 32)%nat then None
    else match key_from_bytes raw with Ok k => Some k | Err _ => None end
  end.

Definition signer_sign (sk : SigningKey) (payload : Value) : string :=
  "ed25519:" +:+ b64_url_no_pad_encode (sig_to_bytes (ed_sign sk (bytes_of (signer_canonical_json payload)))).

(** The check shared by the verifiers of base64url signatures. *)
Definition verify_text (vk : VerifyingKey) (canonical signature : string) : bool :=
  match strip_prefix "ed25519:" signature with
  | None => false
  | Some sig_b64 =>
    match b64_url_no_pad sig_b64 with
    | Err _ => false
    | Ok bytes =>
      if negb (length bytes =? 64)%nat then false
      else is_ok (ed_verify vk (bytes_of canonical) (sig_from_bytes bytes))
    end
  end.

Definition signer_verify (vk : VerifyingKey) (payload : Value) (signature : string) : bool :=
  verify_text vk (signer_canonical_json payload) signature.
End signer.

(** ** Theorems *)

Lemma strip_prefix_app p s : strip_prefix p (p +:+ s) = Some s.
Proof. by apply strip_prefix_spec. Qed.

Section signer_theorems.
Context {D : Digests} `{SigningLaws}.

Lemma decode_encode_key vk : decode_public_key (encode_verifying_key vk) = Some vk.
Proof.
  unfold decode_public_key, encode_verifying_key, encode_public_key.
  rewrite strip_prefix_app. cbn [mbind option_bind].
  by rewrite b64_back, key_bytes_len, key_bytes_back by apply key_bytes_u8.
Qed.

Lemma verify_sign_text sk text :
  verify_text (verifying_key sk) text
    ("ed25519:" +:+ b64_url_no_pad_encode (sig_to_bytes (ed_sign sk (bytes_of text)))) = true.
Proof.
  unfold verify_text. by rewrite strip_prefix_app, b64_back, sig_bytes_len, sig_bytes_back, sign_verifies by apply sig_bytes_u8.
Qed.

(** What the signature of an object covers: everything but the excluded keys. *)
Fixpoint covered_part (v : Value) : Value :=
  match v with
  | VObject m => VObject (List.filter (fun kv => negb (excluded (fst kv)))
      (map (fun kv => match kv with (k, w) => (k, covered_part w) end) m))
  | VArray l => VArray (map covered_part l)
  | other => other
  end.

Lemma filter_filter {A} (f : A -> bool) l : List.filter f (List.filter f l) = List.filter f l.
Proof. induction l as [|x l IH]; [done |]. cbn. destruct (f x) eqn:E; cbn; rewrite ?E, IH; done. Qed.

Lemma map_filter_fst {B} (f : string -> bool) (g : string * B -> string * string) l :
  (forall x, fst (g x) = fst x) ->
  List.filter (fun w => f (fst w)) (map g l) = map g (List.filter (fun x => f (fst x)) l).
Proof.
  intros Hg. induction l as [|x l IH]; [done |]. cbn. rewrite Hg. destruct (f (fst x)); cbn; by rewrite IH.
Qed.

Lemma signer_write_covered v : signer_write (covered_part v) = signer_write v.
Proof.
  induction v as [| | | |l IH|m IH] using Value_ind; try done.
  - cbn. rewrite map_map. do 3 f_equal. induction IH as [|x l Hx _ IHl]; [done |]. cbn. by rewrite Hx, IHl.
  - cbn [covered_part signer_write]. do 5 f_equal.
    set (g := fun kv : string * Value => match kv with
      | (k, v) => (k, json_to_string (VString k) +:+ ":" +:+ signer_write v) end).
    assert (Hg : forall x, fst (g x) = fst x) by by intros [k v].
    rewrite !(map_filter_fst (fun k => negb (excluded k)) g) by done. clear Hg.
    induction IH as [|[k v] m Hv _ IHm]; [done |].
    cbn [map List.filter fst]. destruct (excluded k) eqn:Ek; cbn [negb]; [exact IHm |].
    cbn [List.filter fst map]. rewrite Ek. cbn [negb map]. rewrite IHm. unfold g at 1. cbn in Hv. by rewrite Hv.
Qed.

(** A CA's signature verifies under the CA's own key, also when the key
    travels as text, and it covers exactly the part outside the excluded
    fields: a payload that agrees with the signed one on that part, at every
    level, is accepted with the same signature. *)
Theorem ca_signature_roundtrip sk payload :
  decode_public_key (encode_verifying_key (verifying_key sk)) = Some (verifying_key sk) /\
  forall payload', covered_part payload' = covered_part payload ->
    signer_verify (verifying_key sk) payload' (signer_sign sk payload) = true.
Proof.
  split; [apply decode_encode_key |]. intros payload' E. unfold signer_verify, signer_sign, signer_canonical_json.
  rewrite <-(signer_write_covered payload'), E, signer_write_covered. apply verify_sign_text.
Qed.
End signer_theorems.

(** ** Witness *)

(** A toy scheme that satisfies the laws: a signature is one constant. *)
#[local] Instance const_b64 : Base64 := {|
  b64_standard s := Ok (bytes_of s); b64_url_no_pad s := Ok (bytes_of s); b64_url s := Ok (bytes_of s) |}.
#[local] Instance const_ed25519 : Ed25519 := {|
  VerifyingKey := unit; Signature := unit; key_from_bytes _ := Ok tt; sig_from_slice _ := Ok tt;
  sig_from_bytes _ := tt; ed_verify _ _ _ := Ok tt |}.
#[local] Instance const_signing : Ed25519Signing := {|
  SigningKey := unit; verifying_key _ := tt; ed_sign _ _ := tt;
  sig_to_bytes _ := repeat 0 64; key_to_bytes _ := repeat 0 32 |}.
#[local] Instance const_encoder : Base64Encoder := {| b64_url_no_pad_encode := of_bytes |}.

Lemma zeros_u8 n : Forall u8_range (repeat 0 n).
Proof. induction n; cbn; constructor; [unfold u8_range; lia | done]. Qed.

#[local] Instance const_laws : SigningLaws.
Proof.
  split; try done; try (intros; apply zeros_u8).
  - intros []. done.
  - intros []. done.
  - intros l Hl. cbn. by rewrite bytes_of_of_bytes.
Qed.
#[local] Instance const_digests : Digests := {| sha256 l := l; hex_encode _ := ""; json_to_string _ := "j" |}.

Definition const_key : SigningKey := tt.

Lemma ca_signature_roundtrip_witness :
  signer_verify (verifying_key const_key) (VObject [("nid", VString "n"); ("signature", VString "s")])
    (signer_sign const_key (VObject [("nid", VString "n")])) = true.
Proof. by apply (ca_signature_roundtrip const_key (VObject [("nid", VString "n")])). Defined.
