(* ===== verification/NdpValidator.v ===== *)
(** * NdpValidator: validation of signed announcements

    Models nps-ndp/src/validator.rs and [verify_announce_signature] of
    registry_profile.rs: an Announce frame is checked against the key registered
    for its NID, in the CA's encoding or in the older hexadecimal one. *)

From S2P Require Import Prelude RustStr Floats Json CoreFrames CoreCache NcpFrames NipFrames NipDer NipX509 NipVerifier NipSigner NdpFrames NdpRegistry NdpProfile.
Local Open Scope Z_scope.

Definition ANNOUNCE_NID_MISMATCH : string := "NDP-ANNOUNCE-NID-MISMATCH".

Record NdpAnnounceResult : Type := mkAnnounceResult {
  is_valid : bool;
  nar_error_code : option string;
  nar_message : option string
}.

Definition announce_ok : NdpAnnounceResult := mkAnnounceResult true None None.
Definition announce_fail (code msg : string) : NdpAnnounceResult :=
  mkAnnounceResult false (Some code) (Some msg).

(** [NdpAnnounceValidator::keys]. *)
Abbreviation KeyRing := (gmap string string).

Definition register_public_key (keys : KeyRing) (nid pub_key : string) : KeyRing := <[nid := pub_key]> keys.
Definition remove_public_key (keys : KeyRing) (nid : string) : KeyRing := delete nid keys.

Section validator.
Context {D : Digests} `{Base64} `{Ed25519Signing} `{Base64Encoder} `{HexDecoder}.

Definition verify_announce_signature (frame : Value) (encoded_public_key encoded_signature : string) : bool :=
  match decode_public_key encoded_public_key with
  | None => false
  | Some key =>
    match strip_prefix "ed25519:" encoded_signature with
    | None => false
    | Some signature_body =>
      match b64_url_no_pad signature_body with
      | Err _ => false
      | Ok signature_bytes =>
        if negb (length signature_bytes =? 64)%nat then false
        else match canonical_announce_json frame with
        | Err _ => false
        | Ok canonical => is_ok (ed_verify key (bytes_of canonical) (sig_from_bytes signature_bytes))
        end
      end
    end
  end.

Definition announce_validate (keys : KeyRing) (frame : AnnounceFrame) : NdpAnnounceResult :=
  match keys !! an_nid frame with
  | None => announce_fail ANNOUNCE_NID_MISMATCH ("no public key registered for NID " +:+ an_nid frame)
  | Some pub_key =>
    if negb (starts_with "ed25519:" (an_signature frame))
    then announce_fail ANNOUNCE_SIGNATURE_INVALID "signature must have ed25519: prefix"
    else
      let unsigned := unsigned_dict frame in
      let wire := VObject (AnnounceFrame_to_dict frame) in
      if verify_announce_signature wire pub_key (an_signature frame)
         || verify_with_pub_key_str unsigned pub_key (an_signature frame)
      then announce_ok
      else announce_fail ANNOUNCE_SIGNATURE_INVALID "signature verification failed"
  end.
End validator.

(** ** The signed body does not depend on signature and liveness *)

Lemma keys_sorted_remove {V} k (m : list (string * V)) : keys_sorted m -> keys_sorted (map_remove k m).
Proof.
  unfold keys_sorted, map_remove. intros Hs. induction Hs as [|x m Hs IH Hall]; cbn; [constructor |].
  destruct (negb _); [|done]. constructor; [done |].
  rewrite List.Forall_forall in *. intros y [Hy _]%filter_In. by apply Hall.
Qed.

(** The wire form without the fields [canonical_announce_json] removes. *)
Definition stripped (m : Map) : Map :=
  fold_left (fun m field => map_remove field m) ["frame"; "signature"; "health"; "last_seen"] m.

Lemma last_of_app {V} k (a b : list (string * option V)) :
  last_of k (a ++ b) = match last_of k b with Some v => Some v | None => last_of k a end.
Proof.
  induction a as [|[k' o] a IH]; cbn; [by destruct (last_of k b) |].
  rewrite IH. destruct (String.eqb k k'); [|done]. by destruct (last_of k b).
Qed.

Lemma last_of_other {V} k k' (o : option V) l :
  String.eqb k k' = false -> last_of k ((k', o) :: l) = last_of k l.
Proof. intros E. cbn. by rewrite E. Qed.

(** The repeated entries between the signature and the liveness fields. *)
Definition repeated_entries (f : AnnounceFrame) : list (string * option Value) :=
  [("node_roles", vstrings <$> an_node_roles f); ("cluster_anchor", VString <$> an_cluster_anchor f);
   ("cluster_epoch", vnat <$> an_cluster_epoch f); ("spawn_spec_ref", VString <$> an_spawn_spec_ref f);
   ("bridge_protocols", vstrings <$> an_bridge_protocols f);
   ("bridge_inbound_protocols", vstrings <$> an_bridge_inbound_protocols f);
   ("activation_mode", VString <$> an_activation_mode f);
   ("activation_endpoint", VObject <$> an_activation_endpoint f);
   ("heartbeat_interval_ms", Some (vnat (an_heartbeat_interval_ms f)))].

Lemma last_of_wire k f :
  String.eqb k "signature" = false -> String.eqb k "health" = false -> String.eqb k "last_seen" = false ->
  last_of k (wire_entries f)
  = last_of k (signed_entries (signed_part f) ++ repeated_entries (signed_part f)).
Proof.
  intros E1 E2 E3.
  change (wire_entries f) with (signed_entries (signed_part f) ++
    (("signature", Some (VString (an_signature f))) :: repeated_entries (signed_part f) ++
     [("health", VString <$> an_health f); ("last_seen", VString <$> an_last_seen f)])).
  rewrite !last_of_app, (last_of_other k "signature"), last_of_app by done.
  by rewrite (last_of_other k "health"), (last_of_other k "last_seen") by done.
Qed.

Lemma stripped_signed f g : signed_part f = signed_part g ->
  stripped (AnnounceFrame_to_dict f) = stripped (AnnounceFrame_to_dict g).
Proof.
  intros E. rewrite !to_dict_entries.
  assert (Hs : forall l, keys_sorted (stripped (dict_of l)))
    by (intros l; unfold stripped; cbn [fold_left]; do 4 apply keys_sorted_remove; apply dict_of_keys_sorted).
  apply keys_sorted_ext; [apply Hs | apply Hs |]. intros k. unfold stripped. cbn [fold_left].
  rewrite !map_get_remove, !map_get_dict_of.
  destruct (String.eqb k "last_seen") eqn:E1; [done |].
  destruct (String.eqb k "health") eqn:E2; [done |].
  destruct (String.eqb k "signature") eqn:E3; [done |].
  destruct (String.eqb k "frame"); [done |].
  by rewrite !last_of_wire, E by done.
Qed.

Lemma canonical_signed {D : Digests} f g : signed_part f = signed_part g ->
  canonical_announce_json (VObject (AnnounceFrame_to_dict f))
  = canonical_announce_json (VObject (AnnounceFrame_to_dict g)).
Proof.
  intros E. unfold canonical_announce_json, canonical_root. cbn [as_object ok_or mbind result_bind].
  fold (stripped (AnnounceFrame_to_dict f)). fold (stripped (AnnounceFrame_to_dict g)).
  by rewrite (stripped_signed f g E).
Qed.

Section validator_theorems.
Context {D : Digests} `{SigningLaws} `{HexDecoder}.

(** The frame with the signature of [sk] over its canonical body. *)
Definition sign_announce (sk : SigningKey) (f : AnnounceFrame) : string :=
  match canonical_announce_json (VObject (AnnounceFrame_to_dict f)) with
  | Ok canonical => "ed25519:" +:+ b64_url_no_pad_encode (sig_to_bytes (ed_sign sk (bytes_of canonical)))
  | Err _ => ""
  end.

(** Validation decides by the key registered for the announced NID alone.
    It accepts exactly when a key is registered for that NID, the signature has
    the ed25519 form, and it verifies in one of the two encodings; a frame
    signed with a node's key is accepted under that key's text, and stays
    accepted when its liveness fields are refreshed without a new signature;
    and after the key is removed nothing under the NID is accepted. *)
Theorem announce_validate_spec keys :
  (forall f, is_valid (announce_validate keys f) = true <->
     exists key, keys !! an_nid f = Some key /\ (exists r, an_signature f = "ed25519:" +:+ r) /\
       (verify_announce_signature (VObject (AnnounceFrame_to_dict f)) key (an_signature f) = true \/
        verify_with_pub_key_str (unsigned_dict f) key (an_signature f) = true)) /\
  (forall sk f g, signed_part g = signed_part f -> an_signature g = sign_announce sk f ->
     announce_validate (register_public_key keys (an_nid f) (encode_verifying_key (verifying_key sk))) g
       = announce_ok) /\
  (forall f, is_valid (announce_validate (remove_public_key keys (an_nid f)) f) = false).
Proof.
  split; [|split].
  - intros f. unfold announce_validate. destruct (keys !! an_nid f) as [key|]; [|by split; [|intros (? & ? & _)]].
    setoid_rewrite <-starts_with_spec. destruct (starts_with "ed25519:" (an_signature f)); cbn [negb];
      [|by split; [|intros (? & _ & ? & _)]].
    setoid_rewrite <-orb_true_iff. destruct (_ || _) eqn:E; cbn.
    + split; [|done]. intros _. by exists key.
    + split; [done |]. intros (k & [= <-] & _ & Hx). congruence.
  - intros sk f g Hp Hs.
    assert (Hn : an_nid g = an_nid f) by (unfold signed_part in Hp; by injection Hp).
    unfold announce_validate, register_public_key. rewrite Hn, lookup_insert_eq, Hs.
    unfold sign_announce.
    assert (Hc : exists c, canonical_announce_json (VObject (AnnounceFrame_to_dict f)) = Ok c) by by eexists.
    destruct Hc as [c Hc]. rewrite Hc. unfold starts_with. rewrite strip_prefix_app. cbn [negb].
    unfold verify_announce_signature at 1.
    rewrite decode_encode_key, strip_prefix_app, b64_back by apply sig_bytes_u8.
    rewrite sig_bytes_len. cbn [Nat.eqb negb]. rewrite (canonical_signed g f Hp), Hc.
    by rewrite sig_bytes_back, sign_verifies.
  - intros f. unfold announce_validate, remove_public_key. by rewrite lookup_delete_eq.
Qed.
End validator_theorems.

(** ** Witness *)

#[local] Existing Instances const_b64 const_ed25519 const_signing const_encoder const_laws const_digests.
#[local] Instance no_hex : HexDecoder := {| hex_decode _ := Err "no" |}.

Definition refreshed (f : AnnounceFrame) (health : string) : AnnounceFrame :=
  mkAnnounce (an_nid f) (an_addresses f) (an_caps f) (an_ttl f) (an_timestamp f)
    (sign_announce const_key f) (an_node_type f) (an_node_roles f) (an_cluster_anchor f)
    (an_cluster_epoch f) (an_spawn_spec_ref f) (an_bridge_protocols f) (an_bridge_inbound_protocols f)
    (an_activation_mode f) (an_activation_endpoint f) (an_heartbeat_interval_ms f) (Some health) None
    (an_graph_seq f).

Lemma announce_validate_spec_witness :
  announce_validate (register_public_key ∅ (an_nid frame_a) (encode_verifying_key (verifying_key const_key)))
    (refreshed frame_a "draining") = announce_ok.
Proof. by apply (announce_validate_spec ∅). Defined.
