(* ===== verification/NipRa.v ===== *)
(** * NipRa: enrollment policies of the registration authority

    Models nps-nip/src/ca/ra.rs and ca/error.rs: the allowlist, the single-use
    bootstrap tokens and the pending queue.  Clock readings and random
    identifiers are arguments; SHA-256 is a parameter. *)

From S2P Require Import Prelude RustStr Floats Json CoreFrames CoreCache.
Local Open Scope Z_scope.

Definition RA_NID_NOT_ALLOWED : string := "NIP-RA-NID-NOT-ALLOWED".
Definition RA_TOKEN_INVALID : string := "NIP-RA-TOKEN-INVALID".
Definition RA_TOKEN_EXPIRED : string := "NIP-RA-TOKEN-EXPIRED".

Record NipCaError : Type := mkCaError { ca_message : string; ca_code : string }.

Inductive EnrollmentOutcome : Type :=
| Admit
| Deny (e : NipCaError)
| Pending (pending_id : string).

Record EnrollmentRequest : Type := mkRequest {
  rq_entity_type : string;
  rq_identifier : string;
  rq_pub_key : string;
  rq_capabilities : list string;
  rq_scope_json : string;
  rq_metadata_json : option string;
  rq_enrollment_token : option string
}.

(** ** Tier 1: the allowlist *)

(** The inner function [m] of [glob_match]; a star is tried on nothing first,
    then on one more byte. *)
Fixpoint glob_bytes (p : list Z) : list Z -> bool :=
  match p with
  | [] => fun s => match s with [] => true | _ => false end
  | c :: p' =>
    if c =? 42
    then fix star (s : list Z) : bool :=
           glob_bytes p' s || match s with [] => false | _ :: s' => star s' end
    else if c =? 63
    then fun s => match s with [] => false | _ :: s' => glob_bytes p' s' end
    else fun s => match s with [] => false | b :: s' => (b =? c) && glob_bytes p' s' end
  end.

Definition glob_match (pattern input : string) : bool :=
  if String.eqb pattern "*" then true else glob_bytes (bytes_of pattern) (bytes_of input).

Definition allowlist_check (patterns : list string) (req : EnrollmentRequest) : EnrollmentOutcome :=
  if existsb (fun p => glob_match p (rq_identifier req)) patterns then Admit
  else Deny (mkCaError ("Identifier '" +:+ rq_identifier req
               +:+ "' does not match any enrollment allowlist pattern.") RA_NID_NOT_ALLOWED).

(** ** Tier 2: bootstrap tokens *)

Record TokenEntry : Type := mkToken {
  tk_id : string;
  tk_hash : list Z;
  tk_label : option string;
  tk_created_at : Z;
  tk_expires_at : Z;
  tk_consumed : bool;
  tk_revoked : bool
}.

Record BootstrapTokenInfo : Type := mkTokenInfo {
  ti_id : string;
  ti_label : option string;
  ti_created_at : Z;
  ti_expires_at : Z;
  ti_consumed : bool;
  ti_revoked : bool
}.

Section tokens.
Context {D : Digests}.

(** [rand_bytes] and [id] are the two random draws. *)
Definition token_create (now : Z) (rand_bytes id : list Z) (tokens : list TokenEntry)
    (label : option string) (expires_at : Z) : string * list TokenEntry :=
  let raw := "nps-bootstrap-" +:+ hex_encode rand_bytes in
  (raw, tokens ++ [mkToken (hex_encode id) (sha256 (bytes_of raw)) label now expires_at false false]).

(** The loop of [validate_and_consume] over the entries. *)
Fixpoint consume_first (now : Z) (hash : list Z) (tokens : list TokenEntry) : bool * list TokenEntry :=
  match tokens with
  | [] => (false, [])
  | e :: rest =>
    let next := let '(b, rest') := consume_first now hash rest in (b, e :: rest') in
    if tk_consumed e || tk_revoked e then next
    else if tk_expires_at e <? now then next
    else if bool_decide (tk_hash e = hash)
    then (true, mkToken (tk_id e) (tk_hash e) (tk_label e) (tk_created_at e) (tk_expires_at e)
                  true (tk_revoked e) :: rest)
    else next
  end.

Definition validate_and_consume (now : Z) (tokens : list TokenEntry) (token : string)
    : bool * list TokenEntry := consume_first now (sha256 (bytes_of token)) tokens.

Definition token_list (tokens : list TokenEntry) : list BootstrapTokenInfo :=
  map (fun e => mkTokenInfo (tk_id e) (tk_label e) (tk_created_at e) (tk_expires_at e)
                  (tk_consumed e) (tk_revoked e)) tokens.

Fixpoint token_revoke (token_id : string) (tokens : list TokenEntry) : bool * list TokenEntry :=
  match tokens with
  | [] => (false, [])
  | e :: rest =>
    if negb (String.eqb (tk_id e) token_id)
    then let '(b, rest') := token_revoke token_id rest in (b, e :: rest')
    else if tk_consumed e || tk_revoked e then (false, tokens)
    else (true, mkToken (tk_id e) (tk_hash e) (tk_label e) (tk_created_at e) (tk_expires_at e)
                  (tk_consumed e) true :: rest)
  end.

Definition token_check (now : Z) (tokens : list TokenEntry) (req : EnrollmentRequest)
    : EnrollmentOutcome * list TokenEntry :=
  let token := default "" (rq_enrollment_token req) in
  if is_empty token || negb (starts_with "nps-bootstrap-" token)
  then (Deny (mkCaError "A bootstrap token (prefix 'nps-bootstrap-') is required for enrollment."
                RA_TOKEN_INVALID), tokens)
  else let '(b, tokens') := validate_and_consume now tokens token in
       (if b then Admit
        else Deny (mkCaError "Bootstrap token is invalid, expired, or already consumed." RA_TOKEN_EXPIRED),
        tokens').
End tokens.

(** ** Tier 3: the pending queue *)

Inductive PendingStatus : Type := PsPending | PsApproved | PsRejected.
#[export] Instance PendingStatus_eq_dec : EqDecision PendingStatus.
Proof. solve_decision. Defined.

Definition as_wire (s : PendingStatus) : string :=
  match s with PsPending => "pending" | PsApproved => "approved" | PsRejected => "rejected" end.

Record PendingRegistration : Type := mkPending {
  pn_id : string;
  pn_request : EnrollmentRequest;
  pn_requested_at : Z;
  pn_status : PendingStatus;
  pn_reject_reason : option string
}.

Definition enqueue (queue : list PendingRegistration) (r : PendingRegistration)
    : string * list PendingRegistration := (pn_id r, queue ++ [r]).

Definition pending_get (queue : list PendingRegistration) (id : string) : option PendingRegistration :=
  List.find (fun r => String.eqb (pn_id r) id) queue.

(** The first record of the id changes, if it is pending. *)
Fixpoint decide_pending (id : string) (status : PendingStatus) (reason : option string)
    (queue : list PendingRegistration) : bool * list PendingRegistration :=
  match queue with
  | [] => (false, [])
  | r :: rest =>
    if negb (String.eqb (pn_id r) id)
    then let '(b, rest') := decide_pending id status reason rest in (b, r :: rest')
    else if bool_decide (pn_status r = PsPending)
    then (true, mkPending (pn_id r) (pn_request r) (pn_requested_at r) status
                  (match reason with Some x => Some x | None => pn_reject_reason r end) :: rest)
    else (false, queue)
  end.

Definition pending_approve (queue : list PendingRegistration) (id : string) :=
  decide_pending id PsApproved None queue.
Definition pending_reject (queue : list PendingRegistration) (id reason : string) :=
  decide_pending id PsRejected (Some reason) queue.

Definition pending_count (queue : list PendingRegistration) : nat :=
  length (List.filter (fun r => bool_decide (pn_status r = PsPending)) queue).

Definition pending_check (now : Z) (uuid : string) (max_size : nat) (queue : list PendingRegistration)
    (req : EnrollmentRequest) : EnrollmentOutcome * list PendingRegistration :=
  if (max_size <=? pending_count queue)%nat
  then (Deny (mkCaError ("Pending enrollment queue is full (max " +:+ fmt_Z (Z.of_nat max_size)
                +:+ "). Retry later.") RA_TOKEN_INVALID), queue)
  else
    let '(id, queue') := enqueue queue (mkPending uuid req now PsPending None) in
    (Pending id, queue').

(** ** Choosing the policy *)

Inductive EnrollmentTier : Type := Allowlist | BootstrapToken | PendingQueue.

Inductive Policy : Type :=
| AllowlistPolicy (patterns : list string)
| BootstrapTokenPolicy
| PendingQueuePolicy (max_size : nat).

(** The two stores are only asked whether they were supplied. *)
Definition create_enrollment_policy (tier : EnrollmentTier) (patterns : list string) (max_size : nat)
    (bootstrap_token_store pending_store : bool) : result string Policy :=
  match tier with
  | Allowlist => Ok (AllowlistPolicy patterns)
  | BootstrapToken =>
    if bootstrap_token_store then Ok BootstrapTokenPolicy
    else Err "EnrollmentTier::BootstrapToken requires a BootstrapTokenStore."
  | PendingQueue =>
    if pending_store then Ok (PendingQueuePolicy max_size)
    else Err "EnrollmentTier::PendingQueue requires a PendingStore."
  end.

Definition clamp_bootstrap_ttl (max_ttl : Z) (requested : option Z) : Z :=
  let ttl := match requested with Some d => if 0 <? d then d else max_ttl | None => max_ttl end in
  if max_ttl <? ttl then max_ttl else ttl.

(** ** The allowlist: patterns *)

(** The language of a pattern: a star is any run of bytes, a question mark any
    one byte, every other byte itself. *)
Inductive globs : list Z -> list Z -> Prop :=
| globs_nil : globs [] []
| globs_star p s t : globs p t -> globs (42 :: p) (s ++ t)
| globs_any p b s : globs p s -> globs (63 :: p) (b :: s)
| globs_byte p c s : c <> 42 -> c <> 63 -> globs p s -> globs (c :: p) (c :: s).

Lemma star_spec p s :
  glob_bytes (42 :: p) s = true <-> exists u t, s = u ++ t /\ glob_bytes p t = true.
Proof.
  change (glob_bytes (42 :: p)) with (fix star (s : list Z) : bool :=
    glob_bytes p s || match s with [] => false | _ :: s' => star s' end).
  induction s as [|b s IH].
  - rewrite orb_false_r. split; [by exists [], [] |]. by intros ([] & [] & E & ?).
  - rewrite orb_true_iff, IH. split.
    + intros [H|(u & t & -> & H)]; [by exists [], (b :: s) | by exists (b :: u), t].
    + intros ([|x u] & t & E & H); cbn in E; [left; by subst | right].
      injection E as -> ->. by exists u, t.
Qed.

Lemma glob_bytes_spec p s : glob_bytes p s = true <-> globs p s.
Proof.
  revert s; induction p as [|c p IH]; intros s.
  - destruct s; cbn; split; try done; [constructor | by inversion 1].
  - destruct (decide (c = 42)) as [->|Hs].
    + rewrite star_spec. split.
      * intros (u & t & -> & H). constructor. by apply IH.
      * inversion 1; subst; [|done]. exists s0, t. split; [done | by apply IH].
    + destruct (decide (c = 63)) as [->|Hq]; cbn.
      * destruct s as [|b s]; [split; [done | by inversion 1] |]. rewrite IH. split; [by constructor |].
        inversion 1; by subst.
      * rewrite (proj2 (Z.eqb_neq c 42)), (proj2 (Z.eqb_neq c 63)) by done.
        destruct s as [|b s]; [split; [done | by inversion 1; subst] |].
        rewrite andb_true_iff, Z.eqb_eq, IH. split.
        -- intros [-> H]. by constructor.
        -- inversion 1; subst; done.
Qed.

(** The allowlist admits an identifier exactly when it is in the language
    of one of its patterns, and denies every other one with the RA code. *)
Theorem allowlist_spec patterns req :
  (allowlist_check patterns req = Admit <->
     exists p, In p patterns /\ globs (bytes_of p) (bytes_of (rq_identifier req))) /\
  (allowlist_check patterns req <> Admit ->
     exists msg, allowlist_check patterns req = Deny (mkCaError msg RA_NID_NOT_ALLOWED)).
Proof.
  unfold allowlist_check.
  assert (Hm : forall p s, glob_match p s = true <-> globs (bytes_of p) (bytes_of s)).
  { intros p s. unfold glob_match. destruct (String.eqb_spec p "*") as [->|_]; [|apply glob_bytes_spec].
    split; [|done]. intros _. rewrite <-(app_nil_r (bytes_of s)). constructor. constructor. }
  destruct (existsb _ patterns) eqn:E.
  - split; [|done]. split; [intros _ | done]. apply existsb_exists in E as (p & Hin & Hp).
    exists p. split; [done | by apply Hm].
  - split; [|by eexists]. split; [done |]. intros (p & Hin & Hp).
    assert (existsb (fun p => glob_match p (rq_identifier req)) patterns = true); [|congruence].
    apply existsb_exists. exists p. split; [done | by apply Hm].
Qed.

(** ** Bootstrap tokens: single use *)

Inductive TokenOp : Type :=
| TCreate (now : Z) (rand_bytes id : list Z) (label : option string) (expires_at : Z)
| TValidate (now : Z) (token : string)
| TRevoke (id : string).

Section token_theorems.
Context {D : Digests}.

(** The operations in order, with the answers of the validations. *)
Fixpoint token_run (ops : list TokenOp) (tokens : list TokenEntry)
    : list (string * bool) * list TokenEntry :=
  match ops with
  | [] => ([], tokens)
  | TCreate now r id label exp :: ops =>
    token_run ops (snd (token_create now r id tokens label exp))
  | TValidate now token :: ops =>
    let '(b, tokens') := validate_and_consume now tokens token in
    let '(answers, tokens'') := token_run ops tokens' in ((token, b) :: answers, tokens'')
  | TRevoke id :: ops => token_run ops (snd (token_revoke id tokens))
  end.

Definition usable (hash : list Z) (e : TokenEntry) : bool :=
  negb (tk_consumed e) && negb (tk_revoked e) && bool_decide (tk_hash e = hash).
Definition usable_count (hash : list Z) (tokens : list TokenEntry) : nat :=
  length (List.filter (usable hash) tokens).

(** Validations of a token with this hash that succeeded. *)
Definition uses (hash : list Z) (answers : list (string * bool)) : nat :=
  length (List.filter (fun a => snd a && bool_decide (sha256 (bytes_of (fst a)) = hash)) answers).
(** Tokens created with this hash. *)
Definition creations (hash : list Z) (ops : list TokenOp) : nat :=
  length (List.filter (fun o => match o with
    | TCreate _ r _ _ _ => bool_decide (sha256 (bytes_of ("nps-bootstrap-" +:+ hex_encode r)) = hash)
    | _ => false end) ops).

Lemma usable_count_cons hash e l :
  usable_count hash (e :: l) = ((if usable hash e then 1 else 0) + usable_count hash l)%nat.
Proof. unfold usable_count. cbn. by destruct (usable hash e). Qed.

Lemma usable_flags hash e : tk_consumed e || tk_revoked e = true -> usable hash e = false.
Proof. unfold usable. by destruct (tk_consumed e), (tk_revoked e). Qed.

Lemma consume_first_count now h hash tokens :
  let '(b, tokens') := consume_first now h tokens in
  usable_count hash tokens =
    (usable_count hash tokens' + (if b && bool_decide (h = hash) then 1 else 0))%nat.
Proof.
  induction tokens as [|e rest IH]; [done |]. cbn [consume_first].
  destruct (consume_first now h rest) as [b rest'].
  assert (Hnext : usable_count hash (e :: rest) =
    (usable_count hash (e :: rest') + (if b && bool_decide (h = hash) then 1 else 0))%nat)
    by (rewrite !usable_count_cons; lia).
  destruct (tk_consumed e || tk_revoked e) eqn:Ef; [done |].
  destruct (tk_expires_at e <? now); [done |].
  destruct (bool_decide (tk_hash e = h)) eqn:Eh; [apply bool_decide_eq_true in Eh | exact Hnext].
  rewrite !usable_count_cons. apply orb_false_iff in Ef as [Ec Er].
  unfold usable at 1 2. cbn [tk_consumed tk_revoked tk_hash negb andb]. rewrite Ec, Er, Eh. cbn [negb andb].
  case_bool_decide; lia.
Qed.

Lemma token_revoke_count id hash tokens :
  (usable_count hash (snd (token_revoke id tokens)) <= usable_count hash tokens)%nat.
Proof.
  induction tokens as [|e rest IH]; [done |]. cbn [token_revoke].
  destruct (negb (String.eqb (tk_id e) id)).
  - destruct (token_revoke id rest) as [b rest']. cbn [snd] in *. rewrite !usable_count_cons. lia.
  - destruct (tk_consumed e || tk_revoked e) eqn:Ef; [done |]. cbn [snd].
    rewrite !usable_count_cons. apply orb_false_iff in Ef as [Ec Er].
    unfold usable at 1 2. cbn. rewrite andb_false_r. cbn. lia.
Qed.

(** A token is accepted only when a usable, unexpired entry has its hash. *)
Lemma consume_first_true now h tokens tokens' : consume_first now h tokens = (true, tokens') ->
  exists e, In e tokens /\ tk_hash e = h /\ tk_consumed e = false /\ tk_revoked e = false /\
    now <= tk_expires_at e.
Proof.
  revert tokens'; induction tokens as [|e rest IH]; intros tokens'; [done |]. cbn [consume_first].
  destruct (consume_first now h rest) as [b rest'].
  assert (Hnext : (b, e :: rest') = (true, tokens') -> exists e0, In e0 (e :: rest) /\ tk_hash e0 = h /\
    tk_consumed e0 = false /\ tk_revoked e0 = false /\ now <= tk_expires_at e0).
  { intros [= -> _]. destruct (IH rest' eq_refl) as (e0 & Hin & He). exists e0. split; [by right | done]. }
  destruct (tk_consumed e || tk_revoked e) eqn:Ef; [done |].
  destruct (Z.ltb_spec (tk_expires_at e) now); [done |].
  case_bool_decide as Eh; [|done]. intros _. apply orb_false_iff in Ef as [Ec Er].
  exists e. split; [by left | done].
Qed.

Lemma token_run_uses ops tokens hash :
  (uses hash (fst (token_run ops tokens)) <= usable_count hash tokens + creations hash ops)%nat.
Proof.
  revert tokens; induction ops as [|o ops IH]; intros tokens; [cbn; lia |]. destruct o; cbn [token_run].
  - specialize (IH (snd (token_create now rand_bytes id tokens label expires_at))).
    unfold token_create in *. cbn [snd] in *. etrans; [exact IH |].
    unfold usable_count. rewrite List.filter_app, length_app. unfold creations. cbn [List.filter length].
    unfold usable at 2. cbn [tk_consumed tk_revoked tk_hash negb andb].
    case_bool_decide; cbn [List.filter length]; lia.
  - unfold validate_and_consume.
    pose proof (consume_first_count now (sha256 (bytes_of token)) hash tokens) as Hc.
    destruct (consume_first now _ tokens) as [b tokens']. specialize (IH tokens').
    destruct (token_run ops tokens') as [answers t']. cbn [fst] in *.
    unfold uses in *. cbn [List.filter fst snd]. unfold creations in *. cbn [List.filter].
    destruct (b && bool_decide (sha256 (bytes_of token) = hash)); cbn [length]; lia.
  - specialize (IH (snd (token_revoke id tokens))). pose proof (token_revoke_count id hash tokens).
    unfold creations in *. cbn [List.filter]. lia.
Qed.

(** Bootstrap tokens are single use. Whatever the order of creations,
    validations and revocations, a token is accepted at most as often as tokens
    of its hash were created (once, when hashes do not collide); it is accepted
    only while an entry of its hash is neither consumed nor revoked nor expired;
    and the policy admits only such a token. *)
Theorem bootstrap_single_use :
  (forall ops token,
     (uses (sha256 (bytes_of token)) (fst (token_run ops [])) <= creations (sha256 (bytes_of token)) ops)%nat) /\
  (forall now tokens req tokens', token_check now tokens req = (Admit, tokens') ->
     exists token e, rq_enrollment_token req = Some token /\ In e tokens /\
       tk_hash e = sha256 (bytes_of token) /\ tk_consumed e = false /\ tk_revoked e = false /\
       now <= tk_expires_at e /\
       usable_count (tk_hash e) tokens = S (usable_count (tk_hash e) tokens')).
Proof.
  split.
  - intros ops token. apply (token_run_uses ops []).
  - intros now tokens req tokens'. unfold token_check.
    destruct (is_empty _ || _) eqn:Ee; [done |].
    destruct (rq_enrollment_token req) as [token|]; [|done]. cbn [default id] in *.
    unfold validate_and_consume. pose proof (consume_first_count now (sha256 (bytes_of token))
      (sha256 (bytes_of token)) tokens) as Hc.
    destruct (consume_first now _ tokens) as [b t'] eqn:Ec. destruct b; [|done]. intros [= <-].
    destruct (consume_first_true _ _ _ _ Ec) as (e & Hin & Hh & H1 & H2 & H3).
    exists token, e. repeat split; try done. rewrite Hh, Hc, bool_decide_eq_true_2 by done. cbn. lia.
Qed.
End token_theorems.

(** ** The pending queue *)

Inductive PendingOp : Type :=
| PSubmit (now : Z) (uuid : string) (req : EnrollmentRequest)
| PApprove (id : string)
| PReject (id reason : string).

Definition pending_op (max_size : nat) (o : PendingOp) (q : list PendingRegistration) : list PendingRegistration :=
  match o with
  | PSubmit now uuid req => snd (pending_check now uuid max_size q req)
  | PApprove id => snd (pending_approve q id)
  | PReject id reason => snd (pending_reject q id reason)
  end.

(** A later state of a record: the same request; and unchanged once decided. *)
Definition progressed (r r' : PendingRegistration) : Prop :=
  pn_id r' = pn_id r /\ pn_request r' = pn_request r /\ pn_requested_at r' = pn_requested_at r /\
  (pn_status r <> PsPending -> r' = r).

Lemma progressed_refl r : progressed r r.
Proof. by repeat split. Qed.
Lemma progressed_trans r s t : progressed r s -> progressed s t -> progressed r t.
Proof.
  intros (A1 & A2 & A3 & A4) (B1 & B2 & B3 & B4). repeat split; try congruence.
  intros Hn. rewrite B4; [by apply A4 |]. by rewrite (A4 Hn).
Qed.

Lemma progressed_all_trans k l m : Forall2 progressed k l -> Forall2 progressed l m -> Forall2 progressed k m.
Proof.
  intros Hk; revert m; induction Hk as [|x y k l Hxy _ IH]; intros m Hm; inversion Hm; subst; constructor.
  - by eapply progressed_trans.
  - by apply IH.
Qed.

Lemma decide_pending_progress id st reason q :
  Forall2 progressed q (snd (decide_pending id st reason q)).
Proof.
  induction q as [|r q IH]; [constructor |]. cbn [decide_pending].
  destruct (negb (String.eqb (pn_id r) id)).
  - destruct (decide_pending id st reason q) as [b q']. constructor; [apply progressed_refl | done].
  - case_bool_decide as Hp; cbn [snd].
    + constructor; [|by apply Forall_Forall2_diag, List.Forall_forall; intros; apply progressed_refl].
      by repeat split.
    + constructor; [apply progressed_refl |].
      by apply Forall_Forall2_diag, List.Forall_forall; intros; apply progressed_refl.
Qed.

Lemma pending_count_app a b : pending_count (a ++ b) = (pending_count a + pending_count b)%nat.
Proof. unfold pending_count. by rewrite List.filter_app, length_app. Qed.

Lemma decide_pending_count id st reason q : st <> PsPending ->
  (pending_count (snd (decide_pending id st reason q)) <= pending_count q)%nat.
Proof.
  intros Hst. induction q as [|r q IH]; [done |]. cbn [decide_pending].
  assert (Hcons : forall r l, pending_count (r :: l)
    = ((if bool_decide (pn_status r = PsPending) then 1 else 0) + pending_count l)%nat)
    by (intros ? l; unfold pending_count; cbn; by case_bool_decide).
  destruct (negb (String.eqb (pn_id r) id)).
  - destruct (decide_pending id st reason q) as [b q']. cbn [snd] in *. rewrite !Hcons. lia.
  - case_bool_decide as Hp; cbn [snd]; rewrite !Hcons; [|lia]. cbn [pn_status].
    rewrite (bool_decide_eq_false_2 (st = PsPending)) by done. lia.
Qed.

(** The pending queue never loses or rewrites a decided request. Whatever
    the submissions and decisions, every record ever queued keeps its place,
    identity and request; once approved or rejected it never changes again; and
    no more than the configured number are pending at once. *)
Theorem pending_queue_safe max_size ops q :
  let q' := fold_left (fun q o => pending_op max_size o q) ops q in
  (exists tail, Forall2 progressed q (take (length q) q') /\ q' = take (length q) q' ++ tail) /\
  ((pending_count q <= max_size)%nat -> (pending_count q' <= max_size)%nat).
Proof.
  cbv zeta. revert q; induction ops as [|o ops IH]; intros q; cbn [fold_left].
  - split; [|done]. exists []. rewrite take_ge, app_nil_r by done. split; [|done].
    apply Forall_Forall2_diag, List.Forall_forall. intros; apply progressed_refl.
  - assert (Hstep : exists q1 tail, pending_op max_size o q = q1 ++ tail /\ Forall2 progressed q q1 /\
      ((pending_count q <= max_size)%nat -> (pending_count (q1 ++ tail) <= max_size)%nat)).
    { assert (Hr : Forall2 progressed q q)
        by (apply Forall_Forall2_diag, List.Forall_forall; intros; apply progressed_refl).
      destruct o; cbn [pending_op].
      - unfold pending_check. destruct (Nat.leb_spec max_size (pending_count q)); cbn [snd enqueue].
        + exists q, []. by rewrite app_nil_r.
        + eexists q, [_]. split; [done |]. split; [done |]. intros _. rewrite pending_count_app.
          assert (pending_count [mkPending uuid req now PsPending None] = 1%nat) as -> by done. lia.
      - exists (snd (pending_approve q id)), []. rewrite app_nil_r. split; [done |].
        split; [apply decide_pending_progress |]. intros Hq. etrans; [|exact Hq]. by apply decide_pending_count.
      - exists (snd (pending_reject q id reason)), []. rewrite app_nil_r. split; [done |].
        split; [apply decide_pending_progress |]. intros Hq. etrans; [|exact Hq]. by apply decide_pending_count. }
    destruct Hstep as (q1 & tail & -> & Hp & Hc). destruct (IH (q1 ++ tail)) as ((tail2 & Hf & Ht) & Hm).
    split; [|by intros Hq; apply Hm, Hc].
    set (q' := fold_left _ ops (q1 ++ tail)) in *.
    assert (Hl : length q = length q1) by by eapply Forall2_length.
    assert (Hsplit : exists a b, take (length (q1 ++ tail)) q' = a ++ b /\ Forall2 progressed q1 a).
    { apply Forall2_app_inv_l in Hf as (a & b & Ha & _ & E). by exists a, b. }
    destruct Hsplit as (a & b & Eab & Ha).
    assert (Hla : length a = length q1) by (symmetry; by eapply Forall2_length).
    exists (b ++ tail2). rewrite Ht, Eab. rewrite <-!app_assoc.
    rewrite Hl, <-Hla, take_app_length. split; [|done].
    by eapply progressed_all_trans.
Qed.
