(* ===== verification/NipCaStore.v ===== *)
(** * NipCaStore: the certificate store of a CA

    Models nps-nip/src/ca/store.rs: the record of an issued certificate, the
    [NipCaStore] trait, and its in-memory implementation as an audit trail in
    order of issue.  Dates are nanoseconds. *)

From S2P Require Import Prelude RustStr Floats Json CoreFrames.
From stdpp Require Import fin_maps.
Local Open Scope Z_scope.

Definition ROLE_GROUP : string := "group".
Definition ROLE_SESSION : string := "session".

Record NipCertRecord : Type := mkRecord {
  c_nid : string;
  c_entity_type : string;
  c_serial : string;
  c_pub_key : string;
  c_capabilities : list string;
  c_scope_json : string;
  c_issued_by : string;
  c_issued_at : Z;
  c_expires_at : Z;
  c_revoked_at : option Z;
  c_revoke_reason : option string;
  c_metadata_json : option string;
  c_nid_role : option string;
  c_parent_nid : option string;
  c_lineage_json : option string
}.

Definition is_revoked (r : NipCertRecord) : bool :=
  match c_revoked_at r with Some _ => true | None => false end.

Inductive StoreError : Type := NidExists (nid : string) | SerialExists (serial : string).

(** The trait.  [st_next_serial] is [None] when the counter overflows. *)
Class NipCaStore (S : Type) : Type := {
  st_save : NipCertRecord -> S -> result StoreError unit * S;
  st_get_by_nid : string -> S -> option NipCertRecord;
  st_get_by_serial : string -> S -> option NipCertRecord;
  st_revoke : string -> string -> Z -> S -> bool * S;
  st_next_serial : S -> option (string * S);
  st_list : S -> list NipCertRecord;
  st_get_revoked : S -> list NipCertRecord;
  st_get_by_parent_nid : string -> S -> list NipCertRecord
}.

(** ** The in-memory store *)

Record Inner : Type := mkInner { records : list NipCertRecord; serial : Z }.

Definition store_new : Inner := mkInner [] 0.

Definition mem_save (r : NipCertRecord) (g : Inner) : result StoreError unit * Inner :=
  if existsb (fun x => String.eqb (c_serial x) (c_serial r)) (records g)
  then (Err (SerialExists (c_serial r)), g)
  else (Ok tt, mkInner (records g ++ [r]) (serial g)).

Definition mem_get_by_nid (nid : string) (g : Inner) : option NipCertRecord :=
  List.find (fun r => String.eqb (c_nid r) nid) (rev (records g)).

Definition mem_get_by_serial (s : string) (g : Inner) : option NipCertRecord :=
  List.find (fun r => String.eqb (c_serial r) s) (records g).

Definition set_revoked (reason : string) (at_ : Z) (r : NipCertRecord) : NipCertRecord :=
  mkRecord (c_nid r) (c_entity_type r) (c_serial r) (c_pub_key r) (c_capabilities r) (c_scope_json r)
    (c_issued_by r) (c_issued_at r) (c_expires_at r) (Some at_) (Some reason) (c_metadata_json r)
    (c_nid_role r) (c_parent_nid r) (c_lineage_json r).

(** [rposition(|r| r.nid == nid && r.revoked_at.is_none())], then the update. *)
Fixpoint revoke_last (nid reason : string) (at_ : Z) (l : list NipCertRecord)
    : bool * list NipCertRecord :=
  match l with
  | [] => (false, [])
  | r :: rest =>
    let '(found, rest') := revoke_last nid reason at_ rest in
    if found then (true, r :: rest')
    else if String.eqb (c_nid r) nid && negb (is_revoked r) then (true, set_revoked reason at_ r :: rest)
    else (false, r :: rest)
  end.

Definition mem_revoke (nid reason : string) (revoked_at : Z) (g : Inner) : bool * Inner :=
  let '(b, l) := revoke_last nid reason revoked_at (records g) in (b, mkInner l (serial g)).

(** Digits of [format!("{:X}")], for a [u64]. *)
Fixpoint upper_hex (fuel : nat) (n : Z) : string :=
  match fuel with
  | O => ""
  | S k => (if n <? 16 then "" else upper_hex k (n / 16)) +:+ String.String (hex_digit_upper (n mod 16)) ""
  end.

Definition fmt_serial (n : Z) : string := "0x" +:+ upper_hex 16 n.

Definition mem_next_serial (g : Inner) : option (string * Inner) :=
  if serial g =? u64_max then None
  else let n := serial g + 1 in Some (fmt_serial n, mkInner (records g) n).

Definition mem_list (g : Inner) : list NipCertRecord := records g.
Definition mem_get_revoked (g : Inner) : list NipCertRecord := List.filter is_revoked (records g).
Definition mem_get_by_parent_nid (p : string) (g : Inner) : list NipCertRecord :=
  List.filter (fun r => bool_decide (c_parent_nid r = Some p)) (records g).

#[export] Instance in_memory : NipCaStore Inner := {|
  st_save := mem_save; st_get_by_nid := mem_get_by_nid; st_get_by_serial := mem_get_by_serial;
  st_revoke := mem_revoke; st_next_serial := mem_next_serial; st_list := mem_list;
  st_get_revoked := mem_get_revoked; st_get_by_parent_nid := mem_get_by_parent_nid |}.

(** ** Serial numbers are distinct *)

Lemma hex_digit_upper_inj a b : 0 <= a < 16 -> 0 <= b < 16 ->
  hex_digit_upper a = hex_digit_upper b -> a = b.
Proof.
  intros Ha Hb E.
  assert (Hall : forallb (fun x => forallb (fun y => negb (Ascii.eqb (hex_digit_upper x) (hex_digit_upper y))
    || (x =? y)) [0;1;2;3;4;5;6;7;8;9;10;11;12;13;14;15]) [0;1;2;3;4;5;6;7;8;9;10;11;12;13;14;15] = true)
    by (vm_compute; reflexivity).
  assert (Hin : forall z, 0 <= z < 16 -> In z [0;1;2;3;4;5;6;7;8;9;10;11;12;13;14;15])
    by (intros z Hz; assert (Hc : z = 0 \/ z = 1 \/ z = 2 \/ z = 3 \/ z = 4 \/ z = 5 \/ z = 6 \/ z = 7 \/
          z = 8 \/ z = 9 \/ z = 10 \/ z = 11 \/ z = 12 \/ z = 13 \/ z = 14 \/ z = 15) by lia; cbn; intuition lia).
  rewrite forallb_forall in Hall. specialize (Hall a (Hin a Ha)).
  rewrite forallb_forall in Hall. specialize (Hall b (Hin b Hb)).
  rewrite E, Ascii.eqb_refl in Hall. cbn in Hall. by apply Z.eqb_eq.
Qed.

Lemma snoc_inj s t a b : s +:+ String.String a "" = t +:+ String.String b "" -> s = t /\ a = b.
Proof.
  revert t; induction s as [|c s IH]; intros [|d t] E.
  - injection E as ->. done.
  - injection E as -> E. by destruct t.
  - injection E as -> E. by destruct s.
  - change (String.String c (s +:+ String.String a "") = String.String d (t +:+ String.String b "")) in E.
    injection E as -> E. by apply IH in E as [-> ->].
Qed.

Lemma upper_hex_not_empty k n : upper_hex (S k) n <> "".
Proof. cbn. destruct (if n <? 16 then _ else _); discriminate. Qed.

Lemma upper_hex_inj k m n : 0 <= m < 16 ^ Z.of_nat k -> 0 <= n < 16 ^ Z.of_nat k ->
  upper_hex k m = upper_hex k n -> m = n.
Proof.
  revert m n; induction k as [|k IH]; intros m n Hm Hn E; [cbn in Hm, Hn; lia |].
  rewrite Nat2Z.inj_succ, Z.pow_succ_r in Hm, Hn by lia.
  cbn [upper_hex] in E. apply snoc_inj in E as [E Ed].
  apply hex_digit_upper_inj in Ed; [|apply Z.mod_pos_bound; lia..].
  assert (Hk : forall z, 0 <= z < 16 * 16 ^ Z.of_nat k -> 0 <= z / 16 < 16 ^ Z.of_nat k).
  { intros z Hz. split; [apply Z.div_pos; lia | apply Z.div_lt_upper_bound; lia]. }
  assert (Hq : m / 16 = n / 16).
  { destruct (Z.ltb_spec m 16), (Z.ltb_spec n 16).
    - rewrite !Z.div_small by lia. done.
    - destruct k as [|k]; [cbn in Hn; lia |]. symmetry in E. by apply upper_hex_not_empty in E.
    - destruct k as [|k]; [cbn in Hm; lia |]. by apply upper_hex_not_empty in E.
    - apply IH; auto. }
  rewrite (Z.div_mod m 16), (Z.div_mod n 16) by lia. congruence.
Qed.

Lemma fmt_serial_inj m n : 0 <= m <= u64_max -> 0 <= n <= u64_max -> fmt_serial m = fmt_serial n -> m = n.
Proof.
  unfold fmt_serial, u64_max. intros Hm Hn E.
  assert (E' : upper_hex 16 m = upper_hex 16 n)
    by (by injection E).
  apply (upper_hex_inj 16); try done; change (16 ^ Z.of_nat 16) with 18446744073709551616; lia.
Qed.

(** ** Looking records up *)

Lemma find_rev_last {A} (f : A -> bool) l x : List.find f (rev l) = Some x ->
  exists a b, l = a ++ x :: b /\ f x = true /\ forallb (fun y => negb (f y)) b = true.
Proof.
  induction l as [|y l IH] using rev_ind; [done |].
  rewrite rev_app_distr. cbn. destruct (f y) eqn:Ey.
  - intros [= ->]. by exists l, [].
  - intros H. destruct (IH H) as (a & b & -> & Hx & Hb). exists a, (b ++ [y]).
    rewrite <-app_assoc. split; [done |]. split; [done |]. rewrite forallb_app, Hb. cbn. by rewrite Ey.
Qed.

Lemma find_rev_none {A} (f : A -> bool) l : List.find f (rev l) = None <-> forallb (fun y => negb (f y)) l = true.
Proof.
  rewrite forallb_forall. split.
  - intros H x Hx. apply negb_true_iff. eapply find_none; [exact H |]. by apply in_rev in Hx.
  - intros H. destruct (List.find f (rev l)) as [x|] eqn:E; [|done].
    apply find_some in E as [Hin Hf]. apply in_rev in Hin. specialize (H x Hin). by rewrite Hf in H.
Qed.

Lemma get_by_nid_app nid l r n : c_nid r = nid -> mem_get_by_nid nid (mkInner (l ++ [r]) n) = Some r.
Proof. intros <-. unfold mem_get_by_nid. cbn. rewrite rev_app_distr. cbn. by rewrite String.eqb_refl. Qed.

Lemma get_by_nid_other nid l r n m : c_nid r <> nid ->
  mem_get_by_nid nid (mkInner (l ++ [r]) n) = mem_get_by_nid nid (mkInner l m).
Proof.
  intros Hne. unfold mem_get_by_nid. cbn. rewrite rev_app_distr. cbn.
  by destruct (String.eqb_spec (c_nid r) nid).
Qed.

Lemma get_by_nid_nid nid g r : mem_get_by_nid nid g = Some r -> c_nid r = nid /\ In r (records g).
Proof.
  intros H. apply find_some in H as [Hin Hn%String.eqb_eq]. split; [done |]. by apply in_rev.
Qed.

(** ** Revocation *)

Definition live_of (nid : string) (r : NipCertRecord) : bool := String.eqb (c_nid r) nid && negb (is_revoked r).

(** The last live record of the NID is the one that changes. *)
Lemma revoke_last_spec nid reason t l :
  match revoke_last nid reason t l with
  | (true, l') => exists a r b, l = a ++ r :: b /\ l' = a ++ set_revoked reason t r :: b /\
      live_of nid r = true /\ forallb (fun y => negb (live_of nid y)) b = true
  | (false, l') => l' = l /\ forallb (fun y => negb (live_of nid y)) l = true
  end.
Proof.
  induction l as [|r l IH]; [done |]. cbn [revoke_last].
  destruct (revoke_last nid reason t l) as [[] l'].
  - destruct IH as (a & x & b & -> & -> & Hx & Hb). by exists (r :: a), x, b.
  - destruct IH as [-> Hl]. fold (live_of nid r). destruct (live_of nid r) eqn:Er.
    + by exists [], r, l.
    + split; [done |]. cbn. by rewrite Er.
Qed.

(** Revocation is never undone and the trail only grows. *)
Definition rec_extends (r r' : NipCertRecord) : Prop :=
  r' = r \/ (c_revoked_at r = None /\ exists reason t, r' = set_revoked reason t r).

Definition trail_extends (g g' : Inner) : Prop :=
  exists l tail, records g' = l ++ tail /\ Forall2 rec_extends (records g) l.

Lemma rec_extends_refl r : rec_extends r r.
Proof. by left. Qed.

Lemma rec_extends_trans r s t : rec_extends r s -> rec_extends s t -> rec_extends r t.
Proof.
  intros [->|[Hr (x & y & ->)]] [->|[Hs (x' & y' & ->)]].
  - apply rec_extends_refl.
  - right. split; [done | by eexists _, _].
  - right. split; [done | by eexists _, _].
  - done.
Qed.

Lemma Forall2_refl_ext l : Forall2 rec_extends l l.
Proof. induction l; constructor; [apply rec_extends_refl | done]. Qed.

Lemma trail_extends_refl g : trail_extends g g.
Proof. exists (records g), []. rewrite app_nil_r. split; [done | apply Forall2_refl_ext]. Qed.

Lemma trail_extends_trans g h k : trail_extends g h -> trail_extends h k -> trail_extends g k.
Proof.
  intros (l & t & E & H1) (l' & t' & E' & H2). rewrite E in H2.
  apply Forall2_app_inv_l in H2 as (a & b & Ha & _ & ->).
  exists a, (b ++ t'). rewrite E', app_assoc. split; [done |].
  eapply Forall2_trans; [|exact H1 | exact Ha]. intros x y z; apply rec_extends_trans.
Qed.

Lemma mem_revoke_extends nid reason t g : trail_extends g (snd (mem_revoke nid reason t g)).
Proof.
  unfold mem_revoke. pose proof (revoke_last_spec nid reason t (records g)) as H.
  destruct (revoke_last nid reason t (records g)) as [[] l'].
  - destruct H as (a & r & b & E & -> & Hr & _). eexists _, []. cbn. rewrite app_nil_r.
    split; [done |]. rewrite E. apply Forall2_app; [apply Forall2_refl_ext |].
    constructor; [|apply Forall2_refl_ext]. right. split; [|by eexists _, _].
    unfold live_of, is_revoked in Hr. apply andb_true_iff in Hr as [_ Hr]. by destruct (c_revoked_at r).
  - destruct H as [-> _]. exists (records g), []. rewrite app_nil_r. split; [done | apply Forall2_refl_ext].
Qed.

(** ** The store invariant *)

(** Serials are the texts of distinct positive counter values, and among the
    records of a NID the revoked ones are the latest. *)
Record store_inv (g : Inner) : Prop := {
  si_counter : 0 <= serial g <= u64_max;
  si_serials : exists ns, map c_serial (records g) = map fmt_serial ns /\ List.NoDup ns /\
                 Forall (fun n => 0 < n <= serial g) ns;
  si_revoked_last : forall a r b x, records g = a ++ r :: b -> is_revoked r = true ->
                      In x b -> c_nid x = c_nid r -> is_revoked x = true
}.

Lemma store_new_inv : store_inv store_new.
Proof.
  split; [cbn; unfold u64_max; lia | by exists []; repeat constructor |].
  intros [] r b x E; done.
Qed.

Lemma next_serial_inv g s g' : store_inv g -> mem_next_serial g = Some (s, g') ->
  store_inv g' /\ s = fmt_serial (serial g') /\ records g' = records g /\ serial g' = serial g + 1 /\
  ~ In s (map c_serial (records g)).
Proof.
  intros [Hc (ns & E & Hnd & Hall) Hr]. unfold mem_next_serial.
  destruct (Z.eqb_spec (serial g) u64_max) as [|Hmax]; [done |]. intros [= <- <-]. cbn.
  split; [split; cbn; [lia | | done] |].
  - exists ns. split; [done |]. split; [done |]. eapply Forall_impl; [exact Hall |]. cbn. lia.
  - repeat split. rewrite E, in_map_iff. intros (n & En & Hin).
    rewrite Forall_forall in Hall. specialize (Hall n (proj2 (list_elem_of_In _ _) Hin)). cbn in Hall.
    apply fmt_serial_inj in En; lia.
Qed.

(** Saving a live record under the serial just drawn always succeeds. *)
Lemma save_inv g r : store_inv g -> c_serial r = fmt_serial (serial g) -> 0 < serial g ->
  ~ In (c_serial r) (map c_serial (records g)) -> is_revoked r = false ->
  (forall x, In x (records g) -> c_nid x = c_nid r -> is_revoked x = false) ->
  mem_save r g = (Ok tt, mkInner (records g ++ [r]) (serial g)) /\
  store_inv (mkInner (records g ++ [r]) (serial g)).
Proof.
  intros [Hc (ns & E & Hnd & Hall) Hr] Es Hpos Hfresh Hlive Hnid. split.
  - unfold mem_save. destruct (existsb _ _) eqn:Ex; [|done].
    apply existsb_exists in Ex as (x & Hin & Hx%String.eqb_eq).
    destruct Hfresh. rewrite <-Hx. by apply in_map.
  - split; cbn; [done | |].
    + exists (ns ++ [serial g]). rewrite !map_app, E. cbn. rewrite Es. split; [done |].
      split; [|apply Forall_app; split; [done | constructor; [lia | constructor]]].
      apply NoDup_ListNoDup, NoDup_app. split; [by apply NoDup_ListNoDup |]. split.
      * intros n Hn ->%list_elem_of_singleton. apply Hfresh. rewrite E, Es.
        apply in_map, list_elem_of_In, Hn.
      * apply NoDup_singleton.
    + intros a x b y Ey Hx Hy Hn. destruct b as [|z b] using rev_ind; [done |]. clear IHb.
      rewrite app_comm_cons, app_assoc in Ey. apply app_inj_tail in Ey as [Ey <-].
      apply in_app_or in Hy as [Hy|[<-|[]]]; [by eapply Hr |].
      rewrite Hn in Hnid. rewrite (Hnid x) in Hx; [done | | done].
      rewrite Ey. apply in_or_app. right. by left.
Qed.

Lemma mem_revoke_inv nid reason t g : store_inv g -> store_inv (snd (mem_revoke nid reason t g)).
Proof.
  intros [Hc (ns & E & Hnd & Hall) Hr]. unfold mem_revoke.
  pose proof (revoke_last_spec nid reason t (records g)) as H.
  destruct (revoke_last nid reason t (records g)) as [[] l']; cbn.
  2:{ destruct H as [-> _]. split; [done | by exists ns | done]. }
  destruct H as (a & r & b & El & -> & Hlive & Hb). unfold live_of in Hlive.
  apply andb_true_iff in Hlive as [Hn%String.eqb_eq Hl%negb_true_iff].
  split; cbn; [done | |].
  - exists ns. split; [|done]. rewrite <-E, El, !map_app. done.
  - rewrite forallb_forall in Hb.
    assert (Hbr : forall x, In x b -> c_nid x = nid -> is_revoked x = true).
    { intros x Hx Ex. specialize (Hb x Hx). unfold live_of in Hb. rewrite Ex, String.eqb_refl in Hb.
      by destruct (is_revoked x). }
    intros a' x b' y Ey Hx Hy Hxy.
    (* where the two positions fall relative to the changed record *)
    destruct (app_eq_app a (set_revoked reason t r :: b) a' (x :: b')) as (m & Hm); [done |].
    destruct Hm as [[Ea Eb]|[Ea Eb]].
    + destruct m as [|z m]; cbn in Eb.
      * injection Eb as Ex' ->. subst x. cbn in Hxy. apply Hbr; [done | congruence].
      * injection Eb as <- ->. subst a.
        apply in_app_or in Hy as [Hy|[<-|Hy]]; [| done |].
        -- eapply Hr; [rewrite El, <-app_assoc; cbn; reflexivity | exact Hx | | exact Hxy].
           apply in_or_app. by left.
        -- eapply Hr; [rewrite El, <-app_assoc; cbn; reflexivity | exact Hx | | exact Hxy].
           apply in_or_app. right. by right.
    + destruct m as [|z m]; cbn in Eb.
      * injection Eb as <- <-. cbn in Hxy. apply Hbr; [done | congruence].
      * injection Eb as <- ->. subst a'.
        eapply Hr; [rewrite El, app_comm_cons, app_assoc; reflexivity | exact Hx | exact Hy | exact Hxy].
Qed.

(** With the invariant, the latest record of a NID decides: once it is live,
    every record of the NID is. *)
Lemma latest_live_all g r : store_inv g -> mem_get_by_nid (c_nid r) g = Some r -> is_revoked r = false ->
  forall x, In x (records g) -> c_nid x = c_nid r -> is_revoked x = false.
Proof.
  intros Hi Hg Hl x Hin Hx. destruct (is_revoked x) eqn:Er; [|done]. exfalso.
  unfold mem_get_by_nid in Hg. apply find_rev_last in Hg as (a & b & E & _ & Hb).
  assert (Hin' := Hin). rewrite E in Hin'. apply in_app_or in Hin' as [Ha|[<-|Hb']].
  - apply in_split in Ha as (a1 & a2 & ->). rewrite <-app_assoc in E. cbn in E.
    assert (is_revoked r = true); [|congruence].
    eapply (si_revoked_last g Hi); [exact E | exact Er | | done]. apply in_or_app. right. by left.
  - congruence.
  - rewrite forallb_forall in Hb. specialize (Hb x Hb'). by rewrite Hx, String.eqb_refl in Hb.
Qed.

(** After a revocation that found a live record the latest record is revoked. *)
Lemma revoke_latest nid reason t g g' : store_inv g -> mem_revoke nid reason t g = (true, g') ->
  exists r, mem_get_by_nid nid g' = Some r /\ is_revoked r = true.
Proof.
  intros Hi. unfold mem_revoke. pose proof (revoke_last_spec nid reason t (records g)) as H.
  destruct (revoke_last nid reason t (records g)) as [[] l'] eqn:Ev; [|done]. intros [= <-].
  pose proof (mem_revoke_inv nid reason t g Hi) as Hi'. unfold mem_revoke in Hi'. rewrite Ev in Hi'. cbn in Hi'.
  destruct H as (a & r & b & E & -> & Hr & _). unfold live_of in Hr.
  apply andb_true_iff in Hr as [Hn%String.eqb_eq _].
  set (g' := mkInner (a ++ set_revoked reason t r :: b) (serial g)) in *.
  assert (Hin : In (set_revoked reason t r) (records g')) by (cbn; apply in_or_app; right; by left).
  destruct (mem_get_by_nid nid g') as [x|] eqn:Ex.
  - exists x. split; [done |]. destruct (is_revoked x) eqn:Er; [done |].
    pose proof (get_by_nid_nid _ _ _ Ex) as [En _].
    assert (Hf : is_revoked (set_revoked reason t r) = false).
    { eapply latest_live_all; [exact Hi' | by rewrite En | done | done | cbn; congruence]. }
    done.
  - unfold mem_get_by_nid in Ex. apply find_rev_none in Ex. rewrite forallb_forall in Ex.
    specialize (Ex _ Hin). cbn in Ex. by rewrite Hn, String.eqb_refl in Ex.
Qed.
