(* ===== verification/NipCaService.v ===== *)
(** * NipCaService: issue, renew, revoke and verify

    Models nps-nip/src/ca/service.rs over the [NipCaStore] interface, except
    [register_x509].  A call reads the clock at fixed points, so each reading
    is an argument; random identifiers are arguments too.  serde_json's parser,
    the arithmetic and the texts of the time crate, and Ed25519 are parameters.
    A call threads the store: [None] is a panic, an error keeps the store as it
    was left. *)

From S2P Require Import Prelude Calls RustStr Floats Json CoreFrames CoreCache NcpFrames NipFrames NipDer NipX509 NipVerifier NipSigner NipRa NipCaStore.
Local Open Scope Z_scope.

(** Dates and durations in nanoseconds; [None] is the panic of the time crate
    outside its range. *)
Class DateTimes : Type := {
  date_add : Z -> Z -> option Z;
  fmt_ts : Z -> string;
  fmt_duration : Z -> string
}.

Definition days (d : Z) : Z := d * 86400 * nanos_per_sec.

Definition CA_NID_NOT_FOUND : string := "NIP-CA-NID-NOT-FOUND".
Definition CA_NID_ALREADY_EXISTS : string := "NIP-CA-NID-ALREADY-EXISTS".
Definition CA_SERIAL_DUPLICATE : string := "NIP-CA-SERIAL-DUPLICATE".
Definition CA_RENEWAL_TOO_EARLY : string := "NIP-CA-RENEWAL-TOO-EARLY".
Definition CA_SCOPE_EXPANSION_DENIED : string := "NIP-CA-SCOPE-EXPANSION-DENIED".
Definition CA_GROUP_REVOKED : string := "NIP-CA-GROUP-REVOKED".
Definition CA_PARENT_NOT_FOUND : string := "NIP-CA-PARENT-NOT-FOUND".
Definition CA_PARENT_NOT_GROUP : string := "NIP-CA-PARENT-NOT-GROUP".
Definition CA_SESSION_VALIDITY_INVALID : string := "NIP-CA-SESSION-VALIDITY-INVALID".
Definition CERT_PARENT_REVOKED : string := "NIP-CERT-PARENT-REVOKED".

(** The fields of the options the service reads. *)
Record NipCaOptions : Type := mkCaOptions {
  ca_nid : string;
  agent_cert_validity_days : Z;
  node_cert_validity_days : Z;
  renewal_window_days : Z;
  group_cert_validity_days : Z;
  session_default_validity : Z;
  session_max_validity : Z;
  session_min_validity : Z;
  allowed_capabilities : option (gset string)
}.

Definition ca_options_new (nid : string) : NipCaOptions :=
  mkCaOptions nid 30 90 7 365 (3600 * nanos_per_sec) (days 1) (60 * nanos_per_sec) None.

Record NipVerifyResult : Type := mkCaVerify {
  cv_valid : bool;
  cv_error_code : option string;
  cv_message : option string;
  cv_record : option NipCertRecord
}.
Definition cv_ok (r : NipCertRecord) : NipVerifyResult := mkCaVerify true None None (Some r).
Definition cv_fail (code msg : string) : NipVerifyResult := mkCaVerify false (Some code) (Some msg) None.

Record IssueSessionParams : Type := mkSessionParams {
  sp_validity : option Z;
  sp_purpose : option string;
  sp_capabilities : option (list string);
  sp_scope_json : option string;
  sp_metadata_json : option string
}.

Inductive RegisterWithRaError : Type := RaCa (e : NipCaError) | RaPending (id : string).

(** *** A call of the service fails with a message and a code *)
Definition call_err {S A} (message code : string) : Call (E := NipCaError) (S := S) A :=
  call_fail (mkCaError message code).

(** ** The service *)

Section service.
Context {D : Digests} `{Base64} `{Ed25519Signing} `{Base64Encoder} `{JsonParser} `{DateTimes}.
Context {S : Type} `{!NipCaStore S}.
Context (opts : NipCaOptions) (signing_key : SigningKey).
Local Open Scope call_scope.

Definition get_by_nid (nid : string) : Call (E := NipCaError) (S := S) (option NipCertRecord) := call_get (st_get_by_nid nid).
Definition next_serial : Call (E := NipCaError) (S := S) string := fun s =>
  match st_next_serial s with Some (n, s') => Some (Ok n, s') | None => None end.

Definition build_nid (entity_type identifier : string) : string :=
  let parts := split_on ":"%char (ca_nid opts) in
  let domain := match parts !! 3%nat with Some d => d | None => ca_nid opts end in
  "urn:nps:" +:+ entity_type +:+ ":" +:+ domain +:+ ":" +:+ identifier.

Definition ca_check_capabilities (capabilities : list string) : result NipCaError unit :=
  match allowed_capabilities opts with
  | None => Ok tt
  | Some allowed =>
    match List.filter (fun c => negb (bool_decide (c ∈ allowed))) capabilities with
    | [] => Ok tt
    | disallowed => Err (mkCaError ("Capabilities not permitted by this CA: " +:+ join ", " disallowed)
                          CERT_CAPABILITY_MISSING)
    end
  end.

Definition persist (r : NipCertRecord) : Call (E := NipCaError) (S := S) unit := fun s =>
  match st_save r s with
  | (Ok _, s') => Some (Ok tt, s')
  | (Err (NidExists n), s') => Some (Err (mkCaError ("NID already exists: " +:+ n) CA_NID_ALREADY_EXISTS), s')
  | (Err (SerialExists n), s') =>
    Some (Err (mkCaError ("Serial already exists: " +:+ n) CA_SERIAL_DUPLICATE), s')
  end.

(** The payload the CA signs. *)
Definition ident_payload (nid pub_key : string) (capabilities : list string) (scope : Value)
    (issued_at expires_at serial : string) (assurance_level : option AssuranceLevel)
    (lineage : option Value) : Map :=
  let p := map_insert "capabilities" (vstrings capabilities) [] in
  let p := map_insert "expires_at" (VString expires_at) p in
  let p := map_insert "frame" (VString "0x20") p in
  let p := map_insert "issued_at" (VString issued_at) p in
  let p := map_insert "issued_by" (VString (ca_nid opts)) p in
  let p := map_insert "nid" (VString nid) p in
  let p := map_insert "pub_key" (VString pub_key) p in
  let p := map_insert "scope" scope p in
  let p := map_insert "serial" (VString serial) p in
  let p := insert_opt "assurance_level" (VString <$> (wire <$> assurance_level)) p in
  insert_opt "lineage" lineage p.

Definition issue_frame (nid pub_key : string) (capabilities : list string) (scope_json : string)
    (issued_at expires_at : Z) (serial : string) (metadata_json : option string)
    (assurance_level : option AssuranceLevel) (lineage : option Value) : result NipCaError IdentFrame :=
  scope ← map_err (fun e => mkCaError ("invalid scope_json: " +:+ e) CA_NID_ALREADY_EXISTS)
            (parse_json scope_json);
  let payload := ident_payload nid pub_key capabilities scope (fmt_ts issued_at) (fmt_ts expires_at)
                   serial assurance_level lineage in
  let signature := signer_sign signing_key (VObject payload) in
  let meta := metadata_json ≫= (fun m => match parse_json m with Ok v => as_object v | Err _ => None end) in
  Ok (mkIdent nid pub_key meta (Some signature) capabilities (Some scope) (Some (ca_nid opts))
        (Some (fmt_ts issued_at)) (Some (fmt_ts expires_at)) (Some serial) assurance_level
        None None None None None).

(** ** Registration *)

Definition valid_days (entity_type : string) : Z :=
  if String.eqb entity_type "node" then node_cert_validity_days opts else agent_cert_validity_days opts.

(** The NID must be new. *)
Definition require_new (nid : string) : Call (E := NipCaError) (S := S) unit :=
  existing <- get_by_nid nid ;;
  match existing with
  | Some _ => call_err ("NID already exists: " +:+ nid) CA_NID_ALREADY_EXISTS
  | None => call_ret tt
  end.

Definition register (now : Z) (entity_type identifier pub_key : string) (capabilities : list string)
    (scope_json : string) (metadata_json : option string) : Call (E := NipCaError) (S := S) IdentFrame :=
  let nid := build_nid entity_type identifier in
  require_new nid ;;
  call_result (ca_check_capabilities capabilities) ;;
  expires_at <- call_panic (date_add now (days (valid_days entity_type))) ;;
  serial <- next_serial ;;
  frame <- call_result (issue_frame nid pub_key capabilities scope_json now expires_at serial
             metadata_json None None) ;;
  persist (mkRecord nid entity_type serial pub_key capabilities scope_json (ca_nid opts) now expires_at
             None None metadata_json None None None) ;;
  call_ret frame.

(** [register_with_ra]; the policy was consulted first. *)
Definition register_with_ra (outcome : EnrollmentOutcome) (now : Z) (req : EnrollmentRequest)
    : S -> option (result RegisterWithRaError IdentFrame * S) := fun s =>
  match outcome with
  | Deny e => Some (Err (RaCa e), s)
  | Pending p => Some (Err (RaPending p), s)
  | Admit =>
    match register now (rq_entity_type req) (rq_identifier req) (rq_pub_key req) (rq_capabilities req)
            (rq_scope_json req) (rq_metadata_json req) s with
    | None => None
    | Some (r, s') => Some (map_err RaCa r, s')
    end
  end.

(** ** Groups *)

Definition build_lineage_group (owner_user_id owner_key_id : option string) : Value :=
  let m := map_insert "role" (VString "group") [] in
  let m := insert_opt "owner_user_id" (VString <$> owner_user_id) m in
  VObject (insert_opt "owner_key_id" (VString <$> owner_key_id) m).

(** [uuid] is the random identifier drawn when none is given. *)
Definition group_identifier (uuid : string) (identifier : option string) : result NipCaError string :=
  match identifier with
  | None => Ok ("group-" +:+ uuid)
  | Some id =>
    if is_empty id then Ok ("group-" +:+ uuid)
    else if negb (starts_with "group-" id)
    then Err (mkCaError ("Group identifier MUST start with reserved prefix 'group-' (got '" +:+ id
                +:+ "'). NPS-3 §3.1.") CA_NID_ALREADY_EXISTS)
    else Ok id
  end.

Definition register_group (now : Z) (uuid : string) (identifier : option string) (pub_key : string)
    (capabilities : list string) (scope_json : string)
    (owner_user_id owner_key_id metadata_json : option string) : Call (E := NipCaError) (S := S) IdentFrame :=
  identifier <- call_result (group_identifier uuid identifier) ;;
  let nid := build_nid "agent" identifier in
  require_new nid ;;
  call_result (ca_check_capabilities capabilities) ;;
  expires_at <- call_panic (date_add now (days (group_cert_validity_days opts))) ;;
  serial <- next_serial ;;
  let lineage := build_lineage_group owner_user_id owner_key_id in
  let lineage_json := json_to_string lineage in
  frame <- call_result (issue_frame nid pub_key capabilities scope_json now expires_at serial
             metadata_json None (Some lineage)) ;;
  persist (mkRecord nid "agent" serial pub_key capabilities scope_json (ca_nid opts) now expires_at
             None None metadata_json (Some ROLE_GROUP) None (Some lineage_json)) ;;
  call_ret frame.

(** ** Sessions *)

Definition build_lineage_session (group_nid session_id : string)
    (purpose owner_user_id owner_key_id : option string) : Value :=
  let m := map_insert "role" (VString "session") [] in
  let m := map_insert "parent_nid" (VString group_nid) m in
  let m := map_insert "group_nid" (VString group_nid) m in
  let m := map_insert "session_id" (VString session_id) m in
  let m := insert_opt "purpose" (VString <$> purpose) m in
  let m := insert_opt "owner_user_id" (VString <$> owner_user_id) m in
  VObject (insert_opt "owner_key_id" (VString <$> owner_key_id) m).

Definition extract_lineage_str (lineage_json : option string) (field : string) : option string :=
  s ← lineage_json;
  v ← match parse_json s with Ok v => Some v | Err _ => None end;
  vget field v ≫= as_str.

(** The group may issue: it is a group, neither revoked nor expired at [now]. *)
Definition require_group (now : Z) (group_nid : string) (group : option NipCertRecord)
    : result NipCaError NipCertRecord :=
  match group with
  | None => Err (mkCaError ("Group NID not found: " +:+ group_nid +:+ ".") CA_PARENT_NOT_FOUND)
  | Some g =>
    if negb (bool_decide (c_nid_role g = Some ROLE_GROUP))
    then Err (mkCaError ("NID '" +:+ group_nid +:+ "' is not registered as a group (role='"
                +:+ default "<null>" (c_nid_role g) +:+ "').") CA_PARENT_NOT_GROUP)
    else match c_revoked_at g with
    | Some rev => Err (mkCaError ("Group " +:+ group_nid +:+ " was revoked at " +:+ fmt_ts rev
                    +:+ "; cannot issue new sessions.") CA_GROUP_REVOKED)
    | None =>
      if c_expires_at g <? now
      then Err (mkCaError ("Group " +:+ group_nid +:+ " expired at " +:+ fmt_ts (c_expires_at g)
                  +:+ "; cannot issue new sessions.") CERT_EXPIRED)
      else Ok g
    end
  end.

Definition require_validity (v : Z) : result NipCaError unit :=
  if (v <? session_min_validity opts) || (session_max_validity opts <? v)
  then Err (mkCaError ("Session validity must be in [" +:+ fmt_duration (session_min_validity opts) +:+ ", "
              +:+ fmt_duration (session_max_validity opts) +:+ "]; got " +:+ fmt_duration v +:+ ".")
              CA_SESSION_VALIDITY_INVALID)
  else Ok tt.

(** The capabilities of the session, which may not exceed the group's. *)
Definition session_capabilities (g : NipCertRecord) (requested : option (list string))
    : result NipCaError (list string) :=
  match requested with
  | None => Ok (c_capabilities g)
  | Some caps =>
    match missing_from caps (c_capabilities g) with
    | [] => Ok caps
    | expansion => Err (mkCaError ("Session capabilities not in parent group: " +:+ join ", " expansion
                          +:+ ".") CA_SCOPE_EXPANSION_DENIED)
    end
  end.

(** [now1], [now2] and [now] are the three readings, [rand_hex] the random part. *)
Definition issue_session (now1 now2 now : Z) (rand_hex : string) (group_nid session_pub_key : string)
    (params : IssueSessionParams) : Call (E := NipCaError) (S := S) IdentFrame :=
  found <- get_by_nid group_nid ;;
  group <- call_result (require_group now1 group_nid found) ;;
  let v := default (session_default_validity opts) (sp_validity params) in
  call_result (require_validity v) ;;
  session_caps <- call_result (session_capabilities group (sp_capabilities params)) ;;
  let session_scope := default (c_scope_json group) (sp_scope_json params) in
  let unix_seconds := now2 / nanos_per_sec in
  let session_id := "session-" +:+ fmt_Z unix_seconds +:+ "-" +:+ rand_hex in
  let session_nid := build_nid "agent" session_id in
  expires_at <- call_panic (date_add now v) ;;
  serial <- next_serial ;;
  let lineage := build_lineage_session group_nid session_id (sp_purpose params)
                   (extract_lineage_str (c_lineage_json group) "owner_user_id")
                   (extract_lineage_str (c_lineage_json group) "owner_key_id") in
  let lineage_json := json_to_string lineage in
  frame <- call_result (issue_frame session_nid session_pub_key session_caps session_scope now expires_at
             serial (sp_metadata_json params) None (Some lineage)) ;;
  persist (mkRecord session_nid "agent" serial session_pub_key session_caps session_scope (ca_nid opts) now
             expires_at None None (sp_metadata_json params) (Some ROLE_SESSION) (Some group_nid)
             (Some lineage_json)) ;;
  call_ret frame.

Definition list_sessions (group_nid : string) (s : S) : list NipCertRecord := st_get_by_parent_nid group_nid s.
Definition get_cert (nid : string) (s : S) : option NipCertRecord := st_get_by_nid nid s.

(** ** Renewal *)

Definition renew (now : Z) (nid : string) : Call (E := NipCaError) (S := S) IdentFrame :=
  found <- get_by_nid nid ;;
  match found with
  | None => call_err ("NID not found: " +:+ nid) CA_NID_NOT_FOUND
  | Some record =>
    match c_revoked_at record with
    | Some _ => call_err ("NID is revoked: " +:+ nid) CERT_REVOKED
    | None =>
      renew_window_start <- call_panic (date_add (c_expires_at record) (- days (renewal_window_days opts))) ;;
      if now <? renew_window_start
      then call_err ("Renewal window opens " +:+ fmt_ts renew_window_start +:+ ". Too early to renew.")
             CA_RENEWAL_TOO_EARLY
      else
        expires_at <- call_panic (date_add now (days (valid_days (c_entity_type record)))) ;;
        serial <- next_serial ;;
        frame <- call_result (issue_frame nid (c_pub_key record) (c_capabilities record)
                   (c_scope_json record) now expires_at serial (c_metadata_json record) None None) ;;
        persist (mkRecord nid (c_entity_type record) serial (c_pub_key record) (c_capabilities record)
                   (c_scope_json record) (ca_nid opts) now expires_at None None (c_metadata_json record)
                   None None None) ;;
        call_ret frame
    end
  end.

(** ** Revocation *)

(** The loop over the sessions of a revoked group. *)
Definition cascade (now : Z) (children : list NipCertRecord) (s : S) : S :=
  fold_left (fun s child => if is_revoked child then s
                            else snd (st_revoke (c_nid child) "parent_revoked" now s)) children s.

Definition revoke_payload (nid serial reason revoked_at : string) : Map :=
  let p := map_insert "frame" (VString "0x22") [] in
  let p := map_insert "target_nid" (VString nid) p in
  let p := map_insert "serial" (VString serial) p in
  let p := map_insert "reason" (VString reason) p in
  let p := map_insert "revoked_at" (VString revoked_at) p in
  map_insert "signer_nid" (VString (ca_nid opts)) p.

Definition ca_revoke (now : Z) (nid reason : string) : Call (E := NipCaError) (S := S) RevokeFrame := fun s =>
  match st_get_by_nid nid s with
  | None => Some (Err (mkCaError ("NID not found: " +:+ nid) CA_NID_NOT_FOUND), s)
  | Some record =>
    match st_revoke nid reason now s with
    | (false, s') => Some (Err (mkCaError ("Failed to revoke " +:+ nid +:+ ".") CA_NID_NOT_FOUND), s')
    | (true, s') =>
      let s'' := if bool_decide (c_nid_role record = Some ROLE_GROUP)
                 then cascade now (st_get_by_parent_nid nid s') s' else s' in
      let revoked_at := fmt_ts now in
      let signature := signer_sign signing_key
                         (VObject (revoke_payload nid (c_serial record) reason revoked_at)) in
      Some (Ok (mkRevoke nid (Some (c_serial record)) reason revoked_at None (ca_nid opts) signature), s'')
    end
  end.

(** ** Verification *)

(** The parent check of a session; [None] is a pass. *)
Definition check_parent (now2 : Z) (s : S) (record : NipCertRecord) : option NipVerifyResult :=
  match c_parent_nid record with
  | None => None
  | Some parent_nid =>
    if is_empty parent_nid then None
    else match st_get_by_nid parent_nid s with
    | None => Some (cv_fail CERT_PARENT_REVOKED ("Parent NID " +:+ parent_nid +:+ " not found."))
    | Some parent =>
      match c_revoked_at parent with
      | Some rev => Some (cv_fail CERT_PARENT_REVOKED ("Parent " +:+ parent_nid +:+ " revoked at "
                      +:+ fmt_ts rev +:+ ": " +:+ default "" (c_revoke_reason parent)))
      | None =>
        if c_expires_at parent <? now2
        then Some (cv_fail CERT_PARENT_REVOKED ("Parent " +:+ parent_nid +:+ " expired at "
               +:+ fmt_ts (c_expires_at parent) +:+ "."))
        else None
      end
    end
  end.

Definition ca_verify (now1 now2 : Z) (nid : string) (s : S) : NipVerifyResult :=
  match st_get_by_nid nid s with
  | None => cv_fail CA_NID_NOT_FOUND "NID not found."
  | Some record =>
    match c_revoked_at record with
    | Some rev => cv_fail CERT_REVOKED ("Revoked at " +:+ fmt_ts rev +:+ ": "
                    +:+ default "" (c_revoke_reason record))
    | None =>
      if c_expires_at record <? now1
      then cv_fail CERT_EXPIRED ("Expired at " +:+ fmt_ts (c_expires_at record) +:+ ".")
      else match check_parent now2 s record with Some r => r | None => cv_ok record end
    end
  end.

Definition get_crl (s : S) : list NipCertRecord := st_get_revoked s.
Definition list_certificates (s : S) : list NipCertRecord := st_list s.
Definition sign_artifact (artifact : Value) : string := signer_sign signing_key artifact.
Definition get_ca_public_key : string := encode_verifying_key (verifying_key signing_key).
End service.
