(* ===== verification/NipCaSpec.v ===== *)
(** * NipCaSpec: what the CA guarantees over its in-memory store

    Histories of calls on [InMemoryNipCaStore]: serial numbers are unique,
    revocation is permanent and reaches the sessions of a group, sessions never
    exceed their group; and where renewal and revocation leave gaps. *)

From S2P Require Import Prelude Calls RustStr Floats Json CoreFrames CoreCache NcpFrames NipFrames NipDer NipX509 NipVerifier NipSigner NipRa NipCaStore NipCaService.
Local Open Scope Z_scope.

Lemma call_err_inv {S A} m c (s : S) out s' :
  call_err (A := A) m c s = Some (out, s') -> out = Err (mkCaError m c) /\ s' = s.
Proof. apply call_fail_inv. Qed.

Section ca.
Context {D : Digests} `{Base64} `{Ed25519Signing} `{Base64Encoder} `{JsonParser} `{DateTimes}.
Context (opts : NipCaOptions) (sk : SigningKey).

(** The last steps every issuing call shares: draw a serial, sign, store. *)
Lemma issue_tail (F : string -> result NipCaError IdentFrame) (R : string -> NipCertRecord) g out g' :
  store_inv g -> (forall s, c_serial (R s) = s /\ is_revoked (R s) = false) ->
  (forall s x, In x (records g) -> c_nid x = c_nid (R s) -> is_revoked x = false) ->
  call_bind next_serial (fun s => call_bind (call_result (F s)) (fun frame =>
    call_bind (persist (R s)) (fun _ => call_ret frame))) g = Some (out, g') ->
  store_inv g' /\
  exists s, s = fmt_serial (serial g + 1) /\ F s = out /\
    records g' = match out with Ok _ => records g ++ [R s] | Err _ => records g end.
Proof.
  intros Hi HR Hn E. apply call_bind_inv in E as [(e & E & _)|(s & g1 & E1 & E)].
  { unfold next_serial in E. by destruct (st_next_serial g) as [[]|]. }
  unfold next_serial in E1. destruct (st_next_serial g) as [[s0 g0]|] eqn:Es; [|done].
  injection E1 as -> ->. apply next_serial_inv in Es as (Hi1 & Hs & Hr1 & Hc1 & Hfresh); [|done].
  rewrite Hc1 in Hs. apply call_bind_inv in E as [(e & E & ->)|(frame & g2 & E2 & E)].
  - apply call_result_inv in E as [Hf ->]. split; [done |]. exists s. by rewrite Hf.
  - apply call_result_inv in E2 as [Hf ->].
    assert (Hsave : mem_save (R s) g1 = (Ok tt, mkInner (records g1 ++ [R s]) (serial g1)) /\
      store_inv (mkInner (records g1 ++ [R s]) (serial g1))).
    { destruct (HR s) as [Hser Hlive]. apply save_inv; rewrite ?Hr1, ?Hser, ?Hc1; try done.
      - destruct (si_counter g Hi). lia.
      - intros x Hx Hxn. by apply (Hn s). }
    destruct Hsave as [Hsave Hi2]. apply call_bind_inv in E as [(e & E & _)|(u & g3 & E3 & E)].
    { unfold persist in E. cbn [st_save in_memory] in E. by rewrite Hsave in E. }
    unfold persist in E3. cbn [st_save in_memory] in E3. rewrite Hsave in E3. injection E3 as _ <-.
    apply call_ret_inv in E as [-> ->]. split; [done |]. exists s. cbn. by rewrite Hr1.
Qed.

(** *** One lemma per issuing call *)

Lemma require_new_inv nid g out g' : require_new nid g = Some (out, g') ->
  g' = g /\ ((out = Ok tt /\ mem_get_by_nid nid g = None) \/
             (exists m, out = Err (mkCaError m CA_NID_ALREADY_EXISTS) /\ is_Some (mem_get_by_nid nid g))).
Proof.
  unfold require_new, get_by_nid. intros E. apply call_bind_inv in E as [(e & E & _)|(o & g1 & E1 & E)].
  { by apply call_get_inv in E as [? _]. }
  apply call_get_inv in E1 as [[= ->] ->]. cbn [st_get_by_nid in_memory] in E.
  destruct (mem_get_by_nid nid g) as [r|] eqn:En.
  - apply call_err_inv in E as [-> ->]. split; [done |]. right. eexists. split; [done |]. by eexists.
  - apply call_ret_inv in E as [-> ->]. split; [done |]. by left.
Qed.

Lemma fresh_nid_live nid g : mem_get_by_nid nid g = None ->
  forall x, In x (records g) -> c_nid x = nid -> is_revoked x = false.
Proof.
  intros Hn x Hx Ex. apply find_rev_none in Hn. rewrite forallb_forall in Hn.
  specialize (Hn x Hx). by rewrite Ex, String.eqb_refl in Hn.
Qed.

(** The record an issuing call stores. *)
Definition cert (nid entity_type pub_key : string) (caps : list string) (scope_json : string)
    (issued expires : Z) (metadata role parent lineage : option string) (s : string) : NipCertRecord :=
  mkRecord nid entity_type s pub_key caps scope_json (ca_nid opts) issued expires None None metadata
    role parent lineage.

Lemma register_inv now et id pk caps sc md g out g' : store_inv g ->
  register opts sk now et id pk caps sc md g = Some (out, g') ->
  let nid := build_nid opts et id in
  store_inv g' /\
  match out with
  | Ok frame => mem_get_by_nid nid g = None /\ ca_check_capabilities opts caps = Ok tt /\
      exists expires s, date_add now (days (valid_days opts et)) = Some expires /\
        s = fmt_serial (serial g + 1) /\
        issue_frame opts sk nid pk caps sc now expires s md None None = Ok frame /\
        records g' = records g ++ [cert nid et pk caps sc now expires md None None None s]
  | Err e => records g' = records g /\
      (ca_code e = CA_NID_ALREADY_EXISTS \/ ca_check_capabilities opts caps = Err e)
  end.
Proof.
  intros Hi E. cbv zeta. unfold register in E.
  apply call_bind_inv in E as [(e & E & ->)|(u & g1 & E1 & E)].
  { apply require_new_inv in E as [-> [[? _]|(m & [= ->] & _)]]; [done |]. split; [done |]. split; [done | by left]. }
  apply require_new_inv in E1 as [-> [[_ Hnew]|(? & ? & _)]]; [|done].
  apply call_bind_inv in E as [(e & E & ->)|([] & g1 & E1 & E)].
  { apply call_result_inv in E as [Hc ->]. split; [done |]. split; [done | by right]. }
  apply call_result_inv in E1 as [Hcaps ->].
  apply call_bind_inv in E as [(e & E & _)|(expires & g1 & E1 & E)].
  { by apply call_panic_inv in E as (? & _ & ? & _). }
  apply call_panic_inv in E1 as (ex & Hex & [= ->] & ->).
  apply (issue_tail _ (cert (build_nid opts et id) et pk caps sc now ex md None None None)) in E
    as (Hi' & s & Hs & HF & Hr); [| done | done | by intros ? x; apply fresh_nid_live].
  split; [done |]. destruct out as [frame|e].
  - split; [done |]. split; [done |]. by exists ex, s.
  - split; [done |]. left. unfold issue_frame in HF. destruct (parse_json sc); cbn in HF; [done |].
    by injection HF as <-.
Qed.

Lemma register_group_inv now uuid idn pk caps sc ou ok_ md g out g' : store_inv g ->
  register_group opts sk now uuid idn pk caps sc ou ok_ md g = Some (out, g') ->
  store_inv g' /\
  match out with
  | Ok frame => exists id expires s, group_identifier uuid idn = Ok id /\
      let nid := build_nid opts "agent" id in
      mem_get_by_nid nid g = None /\ s = fmt_serial (serial g + 1) /\
      date_add now (days (group_cert_validity_days opts)) = Some expires /\
      records g' = records g ++ [cert nid "agent" pk caps sc now expires md (Some ROLE_GROUP) None
                                   (Some (json_to_string (build_lineage_group ou ok_))) s]
  | Err e => records g' = records g
  end.
Proof.
  intros Hi E. unfold register_group in E.
  apply call_bind_inv in E as [(e & E & ->)|(id & g1 & E1 & E)].
  { by apply call_result_inv in E as [_ ->]. }
  apply call_result_inv in E1 as [Hid ->]. cbv zeta in E.
  apply call_bind_inv in E as [(e & E & ->)|(u & g1 & E1 & E)].
  { by apply require_new_inv in E as [-> _]. }
  apply require_new_inv in E1 as [-> [[_ Hnew]|(? & ? & _)]]; [|done].
  apply call_bind_inv in E as [(e & E & ->)|([] & g1 & E1 & E)].
  { by apply call_result_inv in E as [_ ->]. }
  apply call_result_inv in E1 as [Hcaps ->].
  apply call_bind_inv in E as [(e & E & _)|(expires & g1 & E1 & E)].
  { by apply call_panic_inv in E as (? & _ & ? & _). }
  apply call_panic_inv in E1 as (ex & Hex & [= ->] & ->).
  apply (issue_tail _ (cert (build_nid opts "agent" id) "agent" pk caps sc now ex md (Some ROLE_GROUP) None
    (Some (json_to_string (build_lineage_group ou ok_))))) in E
    as (Hi' & s & Hs & HF & Hr); [| done | done | by intros ? x; apply fresh_nid_live].
  split; [done |]. destruct out as [frame|e]; [|done]. by exists id, ex, s.
Qed.

(** The NID an [issue_session] call will use. *)
Definition session_nid_of (now2 : Z) (rand_hex : string) : string :=
  build_nid opts "agent" ("session-" +:+ fmt_Z (now2 / nanos_per_sec) +:+ "-" +:+ rand_hex).

Lemma issue_session_inv now1 now2 now rand gnid pk params g out g' : store_inv g ->
  mem_get_by_nid (session_nid_of now2 rand) g = None ->
  issue_session opts sk now1 now2 now rand gnid pk params g = Some (out, g') ->
  store_inv g' /\
  match out with
  | Ok frame => exists group caps expires s lineage,
      mem_get_by_nid gnid g = Some group /\ require_group now1 gnid (Some group) = Ok group /\
      require_validity opts (default (session_default_validity opts) (sp_validity params)) = Ok tt /\
      session_capabilities group (sp_capabilities params) = Ok caps /\
      date_add now (default (session_default_validity opts) (sp_validity params)) = Some expires /\
      s = fmt_serial (serial g + 1) /\ id_capabilities frame = caps /\
      id_nid frame = session_nid_of now2 rand /\
      records g' = records g ++ [cert (session_nid_of now2 rand) "agent" pk caps
        (default (c_scope_json group) (sp_scope_json params)) now expires (sp_metadata_json params)
        (Some ROLE_SESSION) (Some gnid) (Some lineage) s]
  | Err e => records g' = records g
  end.
Proof.
  intros Hi Hfree E. unfold issue_session in E.
  apply call_bind_inv in E as [(e & E & _)|(found & g1 & E1 & E)]; [by apply call_get_inv in E as [? _] |].
  apply call_get_inv in E1 as [[= ->] ->].
  apply call_bind_inv in E as [(e & E & ->)|(group & g1 & E1 & E)]; [by apply call_result_inv in E as [_ ->] |].
  apply call_result_inv in E1 as [Hg ->]. cbv zeta in E.
  apply call_bind_inv in E as [(e & E & ->)|([] & g1 & E1 & E)]; [by apply call_result_inv in E as [_ ->] |].
  apply call_result_inv in E1 as [Hv ->].
  apply call_bind_inv in E as [(e & E & ->)|(caps & g1 & E1 & E)]; [by apply call_result_inv in E as [_ ->] |].
  apply call_result_inv in E1 as [Hcaps ->].
  apply call_bind_inv in E as [(e & E & _)|(expires & g1 & E1 & E)].
  { by apply call_panic_inv in E as (? & _ & ? & _). }
  apply call_panic_inv in E1 as (ex & Hex & [= ->] & ->).
  fold (session_nid_of now2 rand) in E.
  set (lin := json_to_string (build_lineage_session _ _ _ _ _)) in E.
  apply (issue_tail _ (cert (session_nid_of now2 rand) "agent" pk caps
      (default (c_scope_json group) (sp_scope_json params)) now ex (sp_metadata_json params)
      (Some ROLE_SESSION) (Some gnid) (Some lin))) in E
    as (Hi' & s & Hs & HF & Hr); [| done | done | by intros ? x; apply fresh_nid_live].
  split; [done |]. destruct out as [frame|e]; [|done]. cbn [st_get_by_nid in_memory] in Hg.
  destruct (mem_get_by_nid gnid g) as [gr|] eqn:Eg; [|done].
  assert (gr = group) as ->.
  { unfold require_group in Hg. repeat case_match; try done. by injection Hg. }
  exists group, caps, ex, s, lin. repeat split; try done;
    unfold issue_frame in HF; destruct (parse_json _); cbn in HF; try done; by injection HF as <-.
Qed.

Lemma renew_inv now nid g out g' : store_inv g ->
  renew opts sk now nid g = Some (out, g') ->
  store_inv g' /\
  match out with
  | Ok frame => exists r start expires s, mem_get_by_nid nid g = Some r /\ c_revoked_at r = None /\
      date_add (c_expires_at r) (- days (renewal_window_days opts)) = Some start /\ start <= now /\
      date_add now (days (valid_days opts (c_entity_type r))) = Some expires /\
      s = fmt_serial (serial g + 1) /\
      records g' = records g ++ [cert nid (c_entity_type r) (c_pub_key r) (c_capabilities r)
        (c_scope_json r) now expires (c_metadata_json r) None None None s]
  | Err e => records g' = records g
  end.
Proof.
  intros Hi E. unfold renew in E.
  apply call_bind_inv in E as [(e & E & _)|(found & g1 & E1 & E)]; [by apply call_get_inv in E as [? _] |].
  apply call_get_inv in E1 as [[= ->] ->]. cbn [st_get_by_nid in_memory] in E.
  destruct (mem_get_by_nid nid g) as [r|] eqn:Er; [|by apply call_err_inv in E as [-> ->]].
  destruct (c_revoked_at r) eqn:Erev; [by apply call_err_inv in E as [-> ->] |].
  apply call_bind_inv in E as [(e & E & _)|(start & g1 & E1 & E)].
  { by apply call_panic_inv in E as (? & _ & ? & _). }
  apply call_panic_inv in E1 as (st & Hst & [= ->] & ->).
  destruct (Z.ltb_spec now st); [by apply call_err_inv in E as [-> ->] |].
  apply call_bind_inv in E as [(e & E & _)|(expires & g1 & E1 & E)].
  { by apply call_panic_inv in E as (? & _ & ? & _). }
  apply call_panic_inv in E1 as (ex & Hex & [= ->] & ->).
  pose proof (get_by_nid_nid _ _ _ Er) as [En Hin].
  apply (issue_tail _ (cert nid (c_entity_type r) (c_pub_key r) (c_capabilities r) (c_scope_json r) now ex
    (c_metadata_json r) None None None)) in E as (Hi' & s & Hs & HF & Hr); [| done | done |].
  2:{ intros ? x Hx Exn. cbn in Exn. subst nid. eapply latest_live_all; [exact Hi | exact Er | | exact Hx | done].
      unfold is_revoked. by rewrite Erev. }
  split; [done |]. destruct out as [frame|e]; [|done]. by exists r, st, ex, s.
Qed.

Lemma cascade_inv now children g : store_inv g ->
  store_inv (cascade now children g) /\ trail_extends g (cascade now children g).
Proof.
  unfold cascade. revert g; induction children as [|c cs IH]; intros g Hi; cbn [fold_left].
  - split; [done | apply trail_extends_refl].
  - destruct (is_revoked c); [by apply IH |].
    destruct (IH (snd (mem_revoke (c_nid c) "parent_revoked" now g))) as [Hi' He]; [by apply mem_revoke_inv |].
    split; [done |]. eapply trail_extends_trans; [apply mem_revoke_extends | exact He].
Qed.

Lemma ca_revoke_inv now nid reason g out g' : store_inv g ->
  ca_revoke opts sk now nid reason g = Some (out, g') ->
  store_inv g' /\ trail_extends g g' /\
  match out with
  | Ok fr => exists r g1, mem_get_by_nid nid g = Some r /\ mem_revoke nid reason now g = (true, g1) /\
      g' = (if bool_decide (c_nid_role r = Some ROLE_GROUP)
            then cascade now (mem_get_by_parent_nid nid g1) g1 else g1) /\
      rv_target_nid fr = nid /\ rv_serial fr = Some (c_serial r)
  | Err _ => g' = g
  end.
Proof.
  intros Hi. unfold ca_revoke. cbn [st_get_by_nid st_revoke in_memory st_get_by_parent_nid].
  destruct (mem_get_by_nid nid g) as [r|] eqn:Er.
  2:{ intros [= <- <-]. split; [done |]. split; [apply trail_extends_refl | done]. }
  pose proof (mem_revoke_inv nid reason now g Hi) as Hi1. pose proof (mem_revoke_extends nid reason now g) as He1.
  destruct (mem_revoke nid reason now g) as [[] g1] eqn:Ev; cbn [snd] in Hi1, He1; intros [= <- <-].
  - destruct (cascade_inv now (mem_get_by_parent_nid nid g1) g1 Hi1) as [Hi2 He2].
    split; [by case_bool_decide |]. split; [case_bool_decide; [by eapply trail_extends_trans | done] |].
    by exists r, g1.
  - split; [done |]. split; [done |]. unfold mem_revoke in Ev.
    pose proof (revoke_last_spec nid reason now (records g)) as Hs.
    destruct (revoke_last nid reason now (records g)) as [[] l]; [done |]. destruct Hs as [-> _].
    injection Ev as <-. by destruct g.
Qed.

(** ** Histories *)

(** One finished call.  A session draws a NID no record has: its random part
    does not repeat. *)
Inductive ca_step (g g' : Inner) : Prop :=
| step_register now et id pk caps sc md out :
    register opts sk now et id pk caps sc md g = Some (out, g') -> ca_step g g'
| step_register_group now uuid idn pk caps sc ou ok_ md out :
    register_group opts sk now uuid idn pk caps sc ou ok_ md g = Some (out, g') -> ca_step g g'
| step_issue_session now1 now2 now rand gnid pk params out :
    mem_get_by_nid (session_nid_of now2 rand) g = None ->
    issue_session opts sk now1 now2 now rand gnid pk params g = Some (out, g') -> ca_step g g'
| step_renew now nid out : renew opts sk now nid g = Some (out, g') -> ca_step g g'
| step_revoke now nid reason out : ca_revoke opts sk now nid reason g = Some (out, g') -> ca_step g g'.

Definition ca_history : Inner -> Inner -> Prop := rtc ca_step.

Lemma trail_extends_snoc g g' r : records g' = records g ++ [r] -> trail_extends g g'.
Proof. intros E. exists (records g), [r]. split; [done | apply Forall2_refl_ext]. Qed.

Lemma trail_extends_same g g' : records g' = records g -> trail_extends g g'.
Proof. intros E. exists (records g), []. rewrite app_nil_r. split; [done | apply Forall2_refl_ext]. Qed.

Lemma ca_step_inv g g' : ca_step g g' -> store_inv g -> store_inv g' /\ trail_extends g g'.
Proof.
  intros [now et id pk caps sc md out E|now uuid idn pk caps sc ou ok_ md out E
    |now1 now2 now rand gnid pk params out Hf E|now nid out E|now nid reason out E] Hi.
  - apply register_inv in E as [Hi' E]; [|done]. split; [done |]. destruct out.
    + destruct E as (_ & _ & ? & ? & _ & _ & _ & E). by eapply trail_extends_snoc.
    + destruct E as [E _]. by apply trail_extends_same.
  - apply register_group_inv in E as [Hi' E]; [|done]. split; [done |]. destruct out.
    + destruct E as (? & ? & ? & _ & _ & _ & _ & E). by eapply trail_extends_snoc.
    + by apply trail_extends_same.
  - apply issue_session_inv in E as [Hi' E]; [|done..]. split; [done |]. destruct out.
    + destruct E as (? & ? & ? & ? & ? & _ & _ & _ & _ & _ & _ & _ & _ & E). by eapply trail_extends_snoc.
    + by apply trail_extends_same.
  - apply renew_inv in E as [Hi' E]; [|done]. split; [done |]. destruct out.
    + destruct E as (? & ? & ? & ? & _ & _ & _ & _ & _ & _ & E). by eapply trail_extends_snoc.
    + by apply trail_extends_same.
  - apply ca_revoke_inv in E as (Hi' & E & _); [|done]. done.
Qed.

Lemma ca_history_inv g g' : ca_history g g' -> store_inv g -> store_inv g' /\ trail_extends g g'.
Proof.
  induction 1 as [g|g h k Hs _ IH]; intros Hi; [split; [done | apply trail_extends_refl] |].
  apply ca_step_inv in Hs as [Hi1 E1]; [|done]. destruct (IH Hi1) as [Hi2 E2].
  split; [done |]. by eapply trail_extends_trans.
Qed.

(** *** A revoked NID *)

Definition has_revoked (nid : string) (g : Inner) : Prop :=
  exists x, In x (records g) /\ c_nid x = nid /\ is_revoked x = true.

Lemma extends_in g g' x : trail_extends g g' -> In x (records g) ->
  exists y, In y (records g') /\ rec_extends x y.
Proof.
  intros (l & tail & E & F) Hin. rewrite E. setoid_rewrite in_app_iff. clear E.
  induction F as [|a b l1 l2 Hab F IH]; [done |]. destruct Hin as [->|Hin].
  - exists b. split; [left; by left | done].
  - destruct (IH Hin) as (y & [Hy|Hy] & Hr); exists y; split; auto. left. by right.
Qed.

Lemma has_revoked_extends nid g g' : trail_extends g g' -> has_revoked nid g -> has_revoked nid g'.
Proof.
  intros He (x & Hin & Hn & Hr). destruct (extends_in _ _ _ He Hin) as (y & Hy & Hxy).
  exists y. split; [done |].
  destruct Hxy as [->|[_ (reason & t & ->)]]; [done | by split].
Qed.

Lemma has_revoked_latest nid g : store_inv g -> has_revoked nid g ->
  exists r t, mem_get_by_nid nid g = Some r /\ c_revoked_at r = Some t.
Proof.
  intros Hi (x & Hin & Hn & Hr). destruct (mem_get_by_nid nid g) as [r|] eqn:E.
  - pose proof (get_by_nid_nid _ _ _ E) as [Ern _]. destruct (c_revoked_at r) as [t|] eqn:Et; [by exists r, t |].
    assert (is_revoked x = false); [|congruence].
    apply (latest_live_all g r); try done; [by rewrite Ern | by unfold is_revoked; rewrite Et | congruence].
  - apply find_rev_none in E. rewrite forallb_forall in E. specialize (E x Hin).
    by rewrite Hn, String.eqb_refl in E.
Qed.

Lemma has_revoked_verify nid g n1 n2 : store_inv g -> has_revoked nid g ->
  cv_valid (ca_verify n1 n2 nid g) = false /\
  cv_error_code (ca_verify n1 n2 nid g) = Some CERT_REVOKED.
Proof.
  intros Hi Hd. destruct (has_revoked_latest nid g Hi Hd) as (r & t & E & Et).
  unfold ca_verify. cbn [st_get_by_nid in_memory]. by rewrite E, Et.
Qed.

Lemma mem_revoke_has nid reason t g g' : mem_revoke nid reason t g = (true, g') -> has_revoked nid g'.
Proof.
  unfold mem_revoke. pose proof (revoke_last_spec nid reason t (records g)) as Hs.
  destruct (revoke_last nid reason t (records g)) as [[] l]; [|done]. intros [= <-].
  destruct Hs as (a & r & b & _ & -> & Hr & _). exists (set_revoked reason t r).
  split; [cbn; apply in_or_app; right; by left |]. split; [|done].
  unfold live_of in Hr. by apply andb_true_iff in Hr as [?%String.eqb_eq _].
Qed.

(** [cascade] leaves a revoked record for every child it is given. *)
Lemma cascade_revokes now children g : store_inv g ->
  (forall c, In c children -> exists x, In x (records g) /\ c_nid x = c_nid c /\ (is_revoked c = true -> is_revoked x = true)) ->
  forall c, In c children -> has_revoked (c_nid c) (cascade now children g).
Proof.
  unfold cascade. revert g; induction children as [|c cs IH]; intros g Hi Hex d Hd; [done |].
  cbn [fold_left]. set (g1 := if is_revoked c then g else _).
  assert (Hg1 : store_inv g1 /\ trail_extends g g1).
  { subst g1. destruct (is_revoked c); [split; [done | apply trail_extends_refl] |].
    split; [by apply mem_revoke_inv | apply mem_revoke_extends]. }
  destruct Hg1 as [Hi1 He1]. destruct Hd as [->|Hd].
  - eapply has_revoked_extends; [apply (cascade_inv now cs g1 Hi1) |].
    destruct (Hex d) as (x & Hx & Hxn & Hxr); [by left |]. subst g1.
    destruct (is_revoked d); [exists x; auto |].
    cbn [st_revoke in_memory]. destruct (mem_revoke (c_nid d) "parent_revoked" now g) as [[] g2] eqn:Em.
    + by eapply mem_revoke_has.
    + (* nothing live: the record found is already revoked *)
      unfold mem_revoke in Em. pose proof (revoke_last_spec (c_nid d) "parent_revoked" now (records g)) as Hs.
      destruct (revoke_last _ _ _ _) as [[] l]; [done |]. injection Em as <-. destruct Hs as [-> Hall].
      rewrite forallb_forall in Hall. specialize (Hall x Hx). unfold live_of in Hall.
      rewrite Hxn, String.eqb_refl in Hall. exists x. cbn. repeat split; try done. by destruct (is_revoked x).
  - apply IH; [done | | done]. intros e He. destruct (Hex e) as (x & Hx & Hxn & Hxr); [by right |].
    destruct (extends_in _ _ _ He1 Hx) as (y & Hy & Hxy). exists y. split; [done |].
    destruct Hxy as [->|[Ht (reason & t & ->)]]; [auto |]. split; [done |]. by intros.
Qed.

(** *** The renewal gaps *)

(** A renewed record has no role, no parent and no lineage any more. *)
Lemma renewal_drops_parent now nid g frame g' : store_inv g ->
  renew opts sk now nid g = Some (Ok frame, g') ->
  exists r, mem_get_by_nid nid g' = Some r /\ c_nid_role r = None /\ c_parent_nid r = None /\
    forall n2, check_parent n2 g' r = None.
Proof.
  intros Hi E. apply renew_inv in E as (_ & r & st & ex & s & _ & _ & _ & _ & _ & _ & E); [|done].
  eexists. split; [destruct g' as [l n]; cbn in E; subst l; by apply get_by_nid_app |]. done.
Qed.

(** So a renewed group cannot issue sessions. *)
Lemma renewed_group_cannot_issue now nid g frame g' n1 : store_inv g ->
  renew opts sk now nid g = Some (Ok frame, g') ->
  exists m, require_group n1 nid (mem_get_by_nid nid g') = Err (mkCaError m CA_PARENT_NOT_GROUP).
Proof.
  intros Hi E. destruct (renewal_drops_parent _ _ _ _ _ Hi E) as (r & -> & Hr & _).
  unfold require_group. rewrite Hr. cbn. by eexists.
Qed.

(** Revoking a renewed NID leaves the certificate it replaced live. *)
Lemma revoke_leaves_replaced now1 now2 nid reason g r f1 g1 f2 g2 : store_inv g ->
  mem_get_by_nid nid g = Some r ->
  renew opts sk now1 nid g = Some (Ok f1, g1) -> ca_revoke opts sk now2 nid reason g1 = Some (Ok f2, g2) ->
  In r (records g2) /\ is_revoked r = false.
Proof.
  intros Hi Hr E1 E2. pose proof E1 as En.
  apply renew_inv in E1 as (Hi1 & r' & st & ex & s & Er & Hl & _ & _ & _ & _ & E1); [|done].
  rewrite Hr in Er. injection Er as <-.
  destruct (renewal_drops_parent _ _ _ _ _ Hi En) as (q & Hq & Hrole & _).
  apply ca_revoke_inv in E2 as (_ & _ & r2 & g3 & E2 & Em & -> & _); [|done].
  rewrite Hq in E2. injection E2 as <-. rewrite Hrole, bool_decide_false by done.
  split; [|unfold is_revoked; by rewrite Hl].
  unfold mem_revoke in Em. pose proof (revoke_last_spec nid reason now2 (records g1)) as Hs.
  destruct (revoke_last nid reason now2 (records g1)) as [[] l]; [|done]. injection Em as <-. cbn.
  destruct Hs as (a & x & b & E & -> & _ & Hb). destruct b as [|z b _] using rev_ind.
  - rewrite E1 in E. apply app_inj_tail in E as [E _]. rewrite in_app_iff, <-E. left.
    by apply get_by_nid_nid in Hr as [_ ?].
  - rewrite E1, app_comm_cons, app_assoc in E. apply app_inj_tail in E as [_ E]. subst z.
    rewrite forallb_app in Hb. apply andb_true_iff in Hb as [_ Hb]. unfold live_of in Hb. cbn in Hb.
    by rewrite String.eqb_refl in Hb.
Qed.

(** ** What the service guarantees *)

(** C34: whatever calls are made, serial numbers are the texts of distinct
    counter values, no certificate disappears or changes other than by being
    revoked, and a revocation is never undone; in particular the store never
    refuses a certificate for a serial in use. *)
Theorem ca_history_safe g : ca_history store_new g ->
  List.NoDup (map c_serial (records g)) /\
  (forall g', ca_history g g' -> forall r, In r (records g) ->
     exists r', In r' (records g') /\
       (r' = r \/ (c_revoked_at r = None /\ exists reason t, r' = set_revoked reason t r))) /\
  (forall s g1 r, mem_next_serial g = Some (s, g1) -> c_serial r = s -> fst (mem_save r g1) = Ok tt).
Proof.
  intros Hg. apply ca_history_inv in Hg as [Hi _]; [|apply store_new_inv]. repeat split.
  - destruct (si_serials g Hi) as (ns & -> & Hnd & Hall). apply NoDup_ListNoDup, NoDup_fmap_2_strong.
    + intros m n Hm Hn E. rewrite Forall_forall in Hall. pose proof (si_counter g Hi).
      apply fmt_serial_inj in E; [done | specialize (Hall m Hm) | specialize (Hall n Hn)]; cbn in *; lia.
    + by apply NoDup_ListNoDup.
  - intros g' Hg' r Hr. apply ca_history_inv in Hg' as [_ He]; [|done]. by apply (extends_in g).
  - intros s g1 r Es Er. apply next_serial_inv in Es as (_ & _ & Hrec & _ & Hfresh); [|done].
    unfold mem_save. rewrite Hrec, Er. destruct (existsb _ _) eqn:Ex; [|done].
    apply existsb_exists in Ex as (x & Hin & Hx%String.eqb_eq). destruct Hfresh. rewrite <-Hx. by apply in_map.
Qed.

(** C4: once [revoke] succeeds the NID fails verification as revoked after any
    further calls, and issues no session; when the record was a group, so does
    every session ever issued under it, renewed or not. *)
Theorem revocation_final now nid reason g fr g1 g2 : ca_history store_new g ->
  ca_revoke opts sk now nid reason g = Some (Ok fr, g1) -> ca_history g1 g2 ->
  (forall n1 n2, cv_error_code (ca_verify n1 n2 nid g2) = Some CERT_REVOKED) /\
  (forall n1 group, require_group n1 nid (mem_get_by_nid nid g2) <> Ok group) /\
  (forall r, mem_get_by_nid nid g = Some r -> c_nid_role r = Some ROLE_GROUP ->
     forall child, In child (list_sessions nid g) -> forall n1 n2,
       cv_error_code (ca_verify n1 n2 (c_nid child) g2) = Some CERT_REVOKED).
Proof.
  intros Hg Hr Hg2. apply ca_history_inv in Hg as [Hi _]; [|apply store_new_inv].
  destruct (ca_revoke_inv _ _ _ _ _ _ Hi Hr) as (Hi1 & He1 & r & g0 & Er & Em & Eg1 & _).
  destruct (ca_history_inv _ _ Hg2 Hi1) as [Hi2 He2].
  pose proof (mem_revoke_inv nid reason now g Hi) as Hi0. pose proof (mem_revoke_extends nid reason now g) as He0.
  rewrite Em in Hi0, He0. cbn [snd] in Hi0, He0.
  assert (Hrev : has_revoked nid g2).
  { eapply has_revoked_extends; [exact He2 |]. apply mem_revoke_has in Em. rewrite Eg1.
    case_bool_decide; [|done]. eapply has_revoked_extends; [by apply cascade_inv | done]. }
  split; [intros; by apply has_revoked_verify |]. split.
  - intros n1 group. destruct (has_revoked_latest nid g2 Hi2 Hrev) as (x & t & -> & Et).
    unfold require_group. rewrite Et. by destruct (negb _).
  - intros r' Er' Hrole child Hc n1 n2. rewrite Er in Er'. injection Er' as <-.
    apply has_revoked_verify; [done |]. eapply has_revoked_extends; [exact He2 |].
    rewrite Eg1, bool_decide_true by done. unfold list_sessions in Hc. cbn in Hc.
    apply filter_In in Hc as [Hin Hp]. destruct (extends_in _ _ _ He0 Hin) as (y & Hy & Hcy).
    assert (Ey : c_nid y = c_nid child /\ c_parent_nid y = c_parent_nid child)
      by (destruct Hcy as [->|[_ (? & ? & ->)]]; done).
    destruct Ey as [En Ep]. rewrite <-En. apply cascade_revokes; [done | |].
    + intros z Hz. apply filter_In in Hz as [Hz _]. by exists z.
    + apply filter_In. by rewrite Ep.
Qed.

Lemma require_group_ok n1 nid g r : require_group n1 nid (mem_get_by_nid nid g) = Ok r ->
  mem_get_by_nid nid g = Some r /\ c_nid_role r = Some ROLE_GROUP /\ c_revoked_at r = None /\ n1 <= c_expires_at r.
Proof.
  unfold require_group. destruct (mem_get_by_nid nid g) as [x|]; [|done].
  destruct (bool_decide_reflect (c_nid_role x = Some ROLE_GROUP)); cbn; [|done].
  destruct (c_revoked_at x) eqn:E; [done |]. destruct (Z.ltb_spec (c_expires_at x) n1); [done |].
  intros [= <-]. done.
Qed.

Lemma session_capabilities_ok group req caps : session_capabilities group req = Ok caps ->
  caps = default (c_capabilities group) req /\ incl caps (c_capabilities group).
Proof.
  unfold session_capabilities. destruct req as [l|].
  - destruct (missing_from l (c_capabilities group)) eqn:E; [|done]. intros [= <-].
    split; [done | by apply missing_from_nil].
  - intros [= <-]. split; [done | by apply incl_refl].
Qed.

Lemma require_validity_ok v : require_validity opts v = Ok tt ->
  session_min_validity opts <= v <= session_max_validity opts.
Proof.
  unfold require_validity. destruct (Z.ltb_spec v (session_min_validity opts)); [done |]. cbn.
  destruct (Z.ltb_spec (session_max_validity opts) v); [done | lia].
Qed.

(** A session is only issued under a registered group that is neither
    revoked nor expired, with capabilities among the group's and a validity
    within the CA's bounds; its record is the latest of its NID, names the
    group as parent and is listed under it, and verifies as long as neither
    certificate has expired.  A refused request stores nothing. *)
Theorem issue_session_spec now1 now2 now rand gnid pk params g out g' : ca_history store_new g ->
  mem_get_by_nid (session_nid_of now2 rand) g = None ->
  issue_session opts sk now1 now2 now rand gnid pk params g = Some (out, g') ->
  match out with
  | Err _ => records g' = records g
  | Ok frame => exists group r v,
      mem_get_by_nid gnid g = Some group /\ c_nid_role group = Some ROLE_GROUP /\
      c_revoked_at group = None /\ now1 <= c_expires_at group /\
      v = default (session_default_validity opts) (sp_validity params) /\
      session_min_validity opts <= v <= session_max_validity opts /\
      id_nid frame = session_nid_of now2 rand /\ incl (id_capabilities frame) (c_capabilities group) /\
      mem_get_by_nid (id_nid frame) g' = Some r /\ In r (list_sessions gnid g') /\
      c_capabilities r = id_capabilities frame /\ date_add now v = Some (c_expires_at r) /\
      (gnid <> id_nid frame -> forall n1 n2, n1 <= c_expires_at r -> n2 <= c_expires_at group ->
         ca_verify n1 n2 (id_nid frame) g' = cv_ok r)
  end.
Proof.
  intros Hg Hfree E. apply ca_history_inv in Hg as [Hi _]; [|apply store_new_inv].
  apply issue_session_inv in E as [Hi' E]; [|done..]. destruct out as [frame|e]; [|done].
  destruct E as (group & caps & ex & s & lin & Eg & Hgr & Hv & Hc & Hex & _ & Hfc & Hfn & Hr).
  rewrite <-Eg in Hgr. apply require_group_ok in Hgr as (_ & Hrole & Hrev & Hexp).
  apply session_capabilities_ok in Hc as [_ Hincl]. apply require_validity_ok in Hv.
  destruct g' as [l n]. cbn in Hr. subst l.
  exists group. eexists. eexists. do 4 (split; [done |]). split; [reflexivity |]. split; [done |].
  split; [done |]. split; [by rewrite Hfc |]. split; [by apply get_by_nid_app |].
  split; [|split; [done |]; split; [done |]].
  - unfold list_sessions. cbn. apply filter_In. split; [apply in_or_app; right; by left |].
    by apply bool_decide_true.
  - intros Hne n1 n2 H1' H2'. unfold ca_verify. cbn [st_get_by_nid in_memory].
    rewrite get_by_nid_app by (by cbn). cbn [c_revoked_at cert c_expires_at] in *.
    rewrite (proj2 (Z.ltb_ge _ _)) by done. unfold check_parent. cbn [c_parent_nid cert st_get_by_nid in_memory].
    destruct (is_empty gnid); [done |].
    rewrite (get_by_nid_other gnid _ _ _ (serial g)) by (cbn; congruence).
    assert (Hsame : mem_get_by_nid gnid (mkInner (records g) (serial g)) = Some group) by (by destruct g).
    by rewrite Hsame, Hrev, (proj2 (Z.ltb_ge _ _)) by done.
Qed.

Context `{!SigningLaws}.

(** [register] gives a certificate to a NID that had none, with allowed
    capabilities and the validity of its entity type; the certificate is
    stored, verifies until it expires, and its signature checks under the
    public key the CA publishes.  A refused request stores nothing and is
    refused for the NID or scope, or for the capabilities. *)
Theorem register_spec now et id pk caps sc md g out g' : ca_history store_new g ->
  register opts sk now et id pk caps sc md g = Some (out, g') ->
  let nid := build_nid opts et id in
  match out with
  | Err e => records g' = records g /\
      (ca_code e = CA_NID_ALREADY_EXISTS \/ ca_check_capabilities opts caps = Err e)
  | Ok frame => exists expires r scope sig,
      mem_get_by_nid nid g = None /\ ca_check_capabilities opts caps = Ok tt /\
      date_add now (days (valid_days opts et)) = Some expires /\ parse_json sc = Ok scope /\
      mem_get_by_nid nid g' = Some r /\ c_expires_at r = expires /\ c_pub_key r = pk /\
      id_nid frame = nid /\ id_pub_key frame = pk /\ id_serial frame = Some (c_serial r) /\
      (forall n1 n2, n1 <= expires -> ca_verify n1 n2 nid g' = cv_ok r) /\
      id_signature frame = Some sig /\
      decode_public_key (get_ca_public_key sk) = Some (verifying_key sk) /\
      signer_verify (verifying_key sk) (VObject (ident_payload opts nid pk caps scope (fmt_ts now)
        (fmt_ts expires) (c_serial r) None None)) sig = true
  end.
Proof.
  intros Hg E nid. apply ca_history_inv in Hg as [Hi _]; [|apply store_new_inv].
  apply register_inv in E as [_ E]; [|done]. fold nid in E. destruct out as [frame|e]; [|done].
  destruct E as (Hnew & Hc & ex & s & Hex & _ & HF & Hr).
  unfold issue_frame in HF. destruct (parse_json sc) as [scope|] eqn:Esc; cbn in HF; [|done].
  injection HF as <-. destruct g' as [l n]. cbn in Hr. subst l.
  eexists ex, _, scope, _. do 3 (split; [done |]). split; [reflexivity |].
  split; [by apply get_by_nid_app |]. do 5 (split; [reflexivity |]). split; [|split; [reflexivity |]].
  - intros n1 n2 Hn. unfold ca_verify. cbn [st_get_by_nid in_memory]. rewrite get_by_nid_app by done.
    cbn [c_revoked_at cert c_expires_at]. by rewrite (proj2 (Z.ltb_ge _ _)) by done.
  - split; [apply decode_encode_key |]. apply verify_sign_text.
Qed.
End ca.

(** ** Witnesses: a CA over a toy signature scheme *)

#[local] Existing Instances const_b64 const_ed25519 const_signing const_encoder const_laws const_digests.
#[local] Instance toy_json : JsonParser := {| parse_json _ := Ok (VObject []) |}.
#[local] Instance toy_dates : DateTimes := {|
  date_add a b := Some (a + b); fmt_ts _ := "t"; fmt_duration _ := "d" |}.

Definition toy_opts : NipCaOptions := ca_options_new "urn:nps:org:ca.example".
Definition toy_params : IssueSessionParams := mkSessionParams None None (Some ["read"]) None None.
Definition group_nid : string := "urn:nps:agent:ca.example:group-a".

(** The store after registering a group, after a session under it, and after
    the group's revocation. *)
Definition with_group : Inner :=
  match register_group toy_opts const_key 0 "u" (Some "group-a") "k" ["read"; "write"] "{}" None None None store_new with
  | Some (_, g) => g | None => store_new
  end.
Definition with_session : Inner :=
  match issue_session toy_opts const_key 1 1 1 "ff" group_nid "k" toy_params with_group with
  | f => match f with Some (_, g) => g | None => store_new end
  end.
Definition with_revoked : Inner :=
  match ca_revoke toy_opts const_key 2 group_nid "compromise" with_session with
  | Some (_, g) => g | None => store_new
  end.

Lemma with_group_history : ca_history toy_opts const_key store_new with_group.
Proof.
  run_call (register_group toy_opts const_key 0 "u" (Some "group-a") "k" ["read"; "write"] "{}" None None None store_new)
    frame g E.
  apply rtc_once. unfold with_group. rewrite E. by eapply step_register_group.
Qed.

Lemma with_session_history : ca_history toy_opts const_key store_new with_session.
Proof.
  run_call (issue_session toy_opts const_key 1 1 1 "ff" group_nid "k" toy_params with_group) frame g E.
  eapply rtc_r; [exact with_group_history |]. unfold with_session. rewrite E.
  eapply step_issue_session; [|exact E]. vm_compute. reflexivity.
Qed.

Lemma ca_history_safe_witness : List.NoDup (map c_serial (records with_session)) /\
  length (records with_session) = 2%nat.
Proof. split; [apply (ca_history_safe toy_opts const_key _ with_session_history) | vm_compute; reflexivity]. Defined.

Lemma revocation_final_witness :
  cv_error_code (ca_verify 3 3 (session_nid_of toy_opts 1 "ff") with_revoked) = Some CERT_REVOKED.
Proof.
  run_call (ca_revoke toy_opts const_key 2 group_nid "compromise" with_session) fr g1 E.
  assert (Eg : g1 = with_revoked) by (unfold with_revoked; by rewrite E). subst g1.
  destruct (revocation_final toy_opts const_key 2 group_nid "compromise" with_session fr with_revoked with_revoked
    with_session_history E (rtc_refl _ _)) as (_ & _ & Hc).
  destruct (mem_get_by_nid group_nid with_session) as [r|] eqn:Er; [|vm_compute in Er; discriminate].
  assert (Hx : (mem_get_by_nid group_nid with_session ≫= c_nid_role) = Some ROLE_GROUP)
    by (vm_compute; reflexivity).
  rewrite Er in Hx.
  assert (En : (c_nid <$> head (list_sessions group_nid with_session)) = Some (session_nid_of toy_opts 1 "ff"))
    by (vm_compute; reflexivity).
  destruct (list_sessions group_nid with_session) as [|c cs]; [done |].
  injection En as <-. apply (Hc r eq_refl Hx c (or_introl eq_refl)).
Defined.

Lemma issue_session_spec_witness : exists frame g',
  issue_session toy_opts const_key 1 1 1 "ff" group_nid "k" toy_params with_group = Some (Ok frame, g') /\
  incl (id_capabilities frame) ["read"; "write"].
Proof.
  run_call (issue_session toy_opts const_key 1 1 1 "ff" group_nid "k" toy_params with_group) frame g' E.
  exists frame, g'. split; [done |].
  assert (Hf : mem_get_by_nid (session_nid_of toy_opts 1 "ff") with_group = None) by (vm_compute; reflexivity).
  destruct (issue_session_spec toy_opts const_key 1 1 1 "ff" group_nid "k" toy_params with_group (Ok frame) g'
    with_group_history Hf E) as (group & r & v & Eg & _ & _ & _ & _ & _ & _ & Hi & _).
  assert (Hx : (c_capabilities <$> mem_get_by_nid group_nid with_group) = Some ["read"; "write"])
    by (vm_compute; reflexivity).
  rewrite Eg in Hx. by injection Hx as <-.
Defined.

Lemma register_spec_witness : exists frame g',
  register toy_opts const_key 0 "agent" "a" "k" ["read"] "{}" None store_new = Some (Ok frame, g') /\
  decode_public_key (get_ca_public_key const_key) = Some (verifying_key const_key).
Proof.
  run_call (register toy_opts const_key 0 "agent" "a" "k" ["read"] "{}" None store_new) frame g' E.
  exists frame, g'. split; [done |].
  by destruct (register_spec toy_opts const_key 0 "agent" "a" "k" ["read"] "{}" None store_new (Ok frame) g'
    (rtc_refl _ _) E) as (ex & r & sc & sg & _ & _ & _ & _ & _ & _ & _ & _ & _ & _ & _ & _ & Hk & _).
Defined.
