(* ===== verification/NwpContext.v ===== *)
(** * NwpContext: the store of stateful LLM contexts

    Models nps-nwp/src/context_store.rs, with the data types of llm.rs it
    keeps.  Every method takes the lock, so a method is one atomic step; a
    request is served by a [reserve] and a later [commit] or [abort].  The
    clock reading, the random identifiers and the JSON text of a binding are
    arguments or parameters.  Dates are nanoseconds. *)

From S2P Require Import Prelude Calls RustStr Json CoreCache.
From stdpp Require Import fin_maps.
Local Open Scope Z_scope.

(** ** Data *)

Inductive LlmContextOperation : Type := Create | Append | Fork | Reset | Release.
#[export] Instance LlmContextOperation_eq_dec : EqDecision LlmContextOperation.
Proof. solve_decision. Defined.

Inductive LlmContextState : Type := CtxBusy | CtxActive | CtxReleased | CtxExpired | CtxFailed.
#[export] Instance LlmContextState_eq_dec : EqDecision LlmContextState.
Proof. solve_decision. Defined.

Record LlmToolCallDto : Type := mkToolCall {
  call_id : string; tc_tool_name : string; arguments_json : string }.
Record ToolParameterDto : Type := mkToolParam {
  tp_name : string; tp_kind : string; tp_description : option string; tp_required : bool }.
Record LlmToolDefinitionDto : Type := mkToolDef {
  td_name : string; td_description : option string; td_parameters : option (list ToolParameterDto) }.
Record LlmMessageDto : Type := mkMessage {
  msg_role : string;
  msg_content : option string;
  msg_tool_call_id : option string;
  msg_tool_name : option string;
  msg_tool_calls : option (list LlmToolCallDto)
}.

Record LlmContextReceiptDto : Type := mkReceipt {
  rc_context_id : string;
  rc_version : Z;
  rc_operation : LlmContextOperation;
  rc_state : LlmContextState;
  rc_expires_at : option string;
  rc_parent_context_id : option string;
  rc_parent_version : option Z
}.
Record LlmContextStatusDto : Type := mkStatus {
  ls_state : LlmContextState;
  ls_context_id : option string;
  ls_version : option Z;
  ls_expires_at : option string;
  ls_request_id : option string;
  ls_error_code : option string
}.

Record LlmContextOwner : Type := mkOwner { own_nid : string; security_scope : string }.
#[export] Instance LlmContextOwner_eq_dec : EqDecision LlmContextOwner.
Proof. solve_decision. Defined.
#[export] Program Instance LlmContextOwner_countable : Countable LlmContextOwner :=
  inj_countable' (fun o => (own_nid o, security_scope o)) (fun p => mkOwner (fst p) (snd p)) _.
Next Obligation. by intros []. Qed.

Record LlmContextBinding : Type := mkBinding {
  b_model : string;
  b_system_messages : list LlmMessageDto;
  b_tools : list LlmToolDefinitionDto;
  b_runtime_revision : string
}.

Record LlmContextMutationRequest : Type := mkMutation {
  mr_operation : LlmContextOperation;
  mr_owner : LlmContextOwner;
  mr_context_id : option string;
  mr_base_version : option Z;
  mr_binding : LlmContextBinding;
  mr_messages : list LlmMessageDto;
  mr_ttl_seconds : option Z;
  mr_idempotency_key : string;
  mr_request_id : string
}.

Record LlmContextMutationReservation : Type := mkReservation {
  h_reservation_id : string; h_operation : LlmContextOperation; h_request_id : string }.

Record LlmContextSnapshot : Type := mkSnapshot {
  sn_context_id : string;
  sn_version : Z;
  sn_state : LlmContextState;
  sn_transcript : list LlmMessageDto;
  sn_binding : LlmContextBinding;
  sn_expires_at : option Z
}.

Record LlmContextStoreError : Type := mkStoreError {
  se_error_code : string; se_message : string; se_current_version : option Z }.

(** The clock and the identifier factory are arguments of the methods. *)
Record LlmContextStoreOptions : Type := mkStoreOptions {
  max_contexts_per_principal : Z;
  default_ttl_seconds : Z;
  max_ttl_seconds : Z;
  tombstone_seconds : Z;
  idempotency_ttl : Z;
  supported_operations : option (list LlmContextOperation)
}.

Record LlmContextStoreDescriptor : Type := mkDescriptor {
  ds_operations : list LlmContextOperation;
  ds_persistence : string;
  ds_max_contexts_per_principal : Z;
  ds_max_ttl_seconds : Z;
  ds_tombstone_seconds : Z
}.

Definition all_operations : list LlmContextOperation := [Create; Append; Fork; Reset; Release].

Definition options_default : LlmContextStoreOptions :=
  mkStoreOptions 32 3600 3600 86400 (86400 * nanos_per_sec) None.

Definition normalized (o : LlmContextStoreOptions) : LlmContextStoreOptions :=
  let or_default v d := if v =? 0 then d else v in
  mkStoreOptions (or_default (max_contexts_per_principal o) 32)
    (or_default (default_ttl_seconds o) 3600)
    (or_default (max_ttl_seconds o) 3600)
    (or_default (tombstone_seconds o) 86400)
    (if idempotency_ttl o <=? 0 then 86400 * nanos_per_sec else idempotency_ttl o)
    (Some (default all_operations (supported_operations o))).

Record ContextEntry : Type := mkEntry {
  e_context_id : string;
  e_owner : LlmContextOwner;
  e_version : Z;
  e_state : LlmContextState;
  e_binding : LlmContextBinding;
  e_binding_fingerprint : string;
  e_transcript : list LlmMessageDto;
  e_ttl_seconds : Z;
  e_expires_at : option Z;
  e_tombstone_until : option Z;
  e_reservation_id : option string
}.

Record ReservationData : Type := mkReservationData {
  rd_reservation_id : string;
  rd_request : LlmContextMutationRequest;
  rd_binding_fingerprint : string;
  rd_base_transcript : list LlmMessageDto;
  rd_effective_ttl_seconds : option Z;
  rd_parent_context_id : option string;
  rd_parent_version : option Z
}.

Inductive OutcomeState : Type := Busy | Completed | OFailed.
#[export] Instance OutcomeState_eq_dec : EqDecision OutcomeState.
Proof. solve_decision. Defined.

Record IdempotencyEntry : Type := mkOutcome {
  oc_state : OutcomeState;
  oc_retain_until : Z;
  oc_request_id : option string;
  oc_error_code : option string;
  oc_receipt : option LlmContextReceiptDto;
  oc_context_id : option string;
  oc_base_version : option Z
}.

Record IdempotencyKey : Type := mkKey { ik_owner : LlmContextOwner; ik_action : string; ik_key : string }.
#[export] Instance IdempotencyKey_eq_dec : EqDecision IdempotencyKey.
Proof. solve_decision. Defined.
#[export] Program Instance IdempotencyKey_countable : Countable IdempotencyKey :=
  inj_countable' (fun k => (ik_owner k, ik_action k, ik_key k))
    (fun p => mkKey (fst (fst p)) (snd (fst p)) (snd p)) _.
Next Obligation. by intros []. Qed.

Record StoreState : Type := mkStoreState {
  contexts : gmap string ContextEntry;
  idempotency : gmap IdempotencyKey IdempotencyEntry;
  reservations : gmap string ReservationData
}.
Definition store_state_default : StoreState := mkStoreState ∅ ∅ ∅.

(** The number of values with a property, [.values().filter(..).count()]. *)
Definition count_where {A} (p : A -> bool) (m : gmap string A) : nat :=
  size (filter (fun kv => p (snd kv) = true) m).

(** ** Errors *)

Definition ACTION_PARAMS_INVALID : string := "NWP-ACTION-PARAMS-INVALID".
Definition ACTION_IDEMPOTENCY_CONFLICT : string := "NWP-ACTION-IDEMPOTENCY-CONFLICT".
Definition LLM_CONTEXT_NOT_FOUND : string := "NWP-LLM-CONTEXT-NOT-FOUND".
Definition LLM_CONTEXT_EXPIRED : string := "NWP-LLM-CONTEXT-EXPIRED".
Definition LLM_CONTEXT_VERSION_CONFLICT : string := "NWP-LLM-CONTEXT-VERSION-CONFLICT".
Definition LLM_CONTEXT_BINDING_MISMATCH : string := "NWP-LLM-CONTEXT-BINDING-MISMATCH".
Definition LLM_CONTEXT_FORBIDDEN : string := "NWP-LLM-CONTEXT-FORBIDDEN".
Definition LLM_CONTEXT_LIMIT_EXCEEDED : string := "NWP-LLM-CONTEXT-LIMIT-EXCEEDED".
Definition LLM_CONTEXT_OPERATION_UNSUPPORTED : string := "NWP-LLM-CONTEXT-OPERATION-UNSUPPORTED".
Definition INTERNAL_ERROR : string := "NPS-SERVER-INTERNAL".
Definition LLM_COMPLETE : string := "llm.complete".
Definition LLM_CONTEXT_RELEASE : string := "llm.context.release".

Definition store_error (code message : string) (v : option Z) : LlmContextStoreError :=
  mkStoreError code message v.
Definition params_invalid (message : string) : LlmContextStoreError :=
  store_error ACTION_PARAMS_INVALID message None.
Definition not_found : LlmContextStoreError :=
  store_error LLM_CONTEXT_NOT_FOUND "context or retained outcome not found" None.
Definition internal_error (message : string) : LlmContextStoreError :=
  store_error INTERNAL_ERROR message None.

Definition nonempty (value : string) : option string := if is_empty value then None else Some value.

Definition idempotency_key (owner : LlmContextOwner) (action key : string) : IdempotencyKey :=
  mkKey owner action key.

(** [is_ascii_alphanumeric], an underscore or a hyphen. *)
Definition locator_byte (b : Z) : bool :=
  ((48 <=? b) && (b <=? 57)) || ((65 <=? b) && (b <=? 90)) || ((97 <=? b) && (b <=? 122))
  || (b =? 95) || (b =? 45).

Definition validate_context_id (value : string) : result LlmContextStoreError unit :=
  let bytes := bytes_of value in
  if (22 <=? length bytes)%nat && (length bytes <=? 128)%nat && forallb locator_byte bytes
  then Ok tt
  else Err (params_invalid "context_id must be a 22-128 character unpadded base64url locator").

(** ** The parameters: dates of the time crate, and the serializer of a binding *)

Class ContextTime : Type := {
  instant_add : Z -> Z -> option Z;
  rfc3339 : Z -> option string
}.
Class BindingSerde : Type := { binding_to_vec : LlmContextBinding -> result string (list Z) }.

Section store.
Context {D : Digests} `{ContextTime} `{BindingSerde}.
Context (opts : LlmContextStoreOptions).
Local Open Scope call_scope.

Definition seconds (s : Z) : Z := s * nanos_per_sec.

Definition binding_fingerprint (b : LlmContextBinding) : result LlmContextStoreError string :=
  match binding_to_vec b with
  | Ok encoded => Ok (hex_encode (sha256 encoded))
  | Err e => Err (internal_error ("serialize context binding: " +:+ e))
  end.

Definition supported (op : LlmContextOperation) : bool :=
  match supported_operations opts with Some l => bool_decide (op ∈ l) | None => false end.

Definition descriptor : LlmContextStoreDescriptor :=
  mkDescriptor (List.filter supported all_operations) "process" (max_contexts_per_principal opts)
    (max_ttl_seconds opts) (tombstone_seconds opts).

(** ** Expiry *)

Definition is_due (now : Z) (e : ContextEntry) : bool :=
  bool_decide (e_state e = CtxActive) && bool_decide (e_reservation_id e = None)
  && match e_expires_at e with Some t => t <=? now | None => false end.

Definition expire (until : Z) (e : ContextEntry) : ContextEntry :=
  mkEntry (e_context_id e) (e_owner e) (e_version e) CtxExpired (e_binding e) (e_binding_fingerprint e)
    (e_transcript e) (e_ttl_seconds e) None (Some until) (e_reservation_id e).

Definition retained (now : Z) (e : ContextEntry) : bool :=
  negb (bool_decide (e_state e = CtxExpired) || bool_decide (e_state e = CtxReleased))
  || match e_tombstone_until e with Some u => now <? u | None => true end.

Definition outcome_retained (now : Z) (o : IdempotencyEntry) : bool :=
  bool_decide (oc_state o = Busy) || (now <? oc_retain_until o).

(** The number of changes, with the state that is left. *)
Definition sweep_locked (now : Z) (st : StoreState) : option (nat * StoreState) :=
  let due := filter (fun kv => is_due now (snd kv) = true) (contexts st) in
  until ← (if bool_decide (due = ∅) then Some now else instant_add now (seconds (tombstone_seconds opts)));
  let swept := (fun e => if is_due now e then expire until e else e) <$> contexts st in
  let kept := filter (fun kv => retained now (snd kv) = true) swept in
  let outcomes := filter (fun kv => outcome_retained now (snd kv) = true) (idempotency st) in
  Some ((size due + (size swept - size kept) + (size (idempotency st) - size outcomes))%nat,
        mkStoreState kept outcomes (reservations st)).

Definition sweep (now : Z) : Call (E := LlmContextStoreError) (S := StoreState) nat := fun st =>
  match sweep_locked now st with Some (n, st') => Some (Ok n, st') | None => None end.

Definition sweep_expired (now : Z) : Call (E := LlmContextStoreError) nat := sweep now.

(** ** Checks *)

Definition is_system (m : LlmMessageDto) : bool := eq_ignore_ascii_case (msg_role m) "system".

Definition check_locator (rq : LlmContextMutationRequest) : result LlmContextStoreError unit :=
  let missing := Err (params_invalid "append/fork/reset require context_id and base_version") in
  if bool_decide (mr_operation rq = Create)
  then match mr_context_id rq, mr_base_version rq with
       | None, None => Ok tt
       | _, _ => Err (params_invalid "create forbids context_id and base_version")
       end
  else match mr_context_id rq, mr_base_version rq with
       | Some context_id, Some _ => validate_context_id context_id
       | _, _ => missing
       end.

Definition validate_request (rq : LlmContextMutationRequest) : result LlmContextStoreError unit :=
  let op := mr_operation rq in
  if bool_decide (op = Release) then Err (params_invalid "release uses the lifecycle action")
  else if is_empty (trim (mr_idempotency_key rq))
  then Err (params_invalid "a stateful request requires idempotency_key")
  else if bool_decide (mr_ttl_seconds rq = Some 0)
  then Err (params_invalid "ttl_seconds must be greater than zero")
  else
    _ ← check_locator rq;
    if negb (bool_decide (op = Fork)) && bool_decide (mr_messages rq = [])
    then Err (params_invalid "only fork may carry an empty message delta")
    else if (bool_decide (op = Append) || bool_decide (op = Fork)) && existsb is_system (mr_messages rq)
    then Err (store_error LLM_CONTEXT_BINDING_MISMATCH
                "append/fork deltas must not contain system messages" None)
    else Ok tt.

Definition ensure_supported (op : LlmContextOperation) : result LlmContextStoreError unit :=
  if supported op then Ok tt
  else Err (store_error LLM_CONTEXT_OPERATION_UNSUPPORTED "context operation is not advertised" None).

Definition is_allocation (op : LlmContextOperation) : bool :=
  match op with Create | Fork => true | _ => false end.

Definition is_live (owner : LlmContextOwner) (e : ContextEntry) : bool :=
  bool_decide (e_owner e = owner) && bool_decide (e_state e = CtxActive).

Definition allocates (owner : LlmContextOwner) (d : ReservationData) : bool :=
  bool_decide (mr_owner (rd_request d) = owner) && is_allocation (mr_operation (rd_request d)).

Definition live_contexts (st : StoreState) (owner : LlmContextOwner) : nat :=
  count_where (is_live owner) (contexts st).

Definition pending_allocations (st : StoreState) (owner : LlmContextOwner) : nat :=
  count_where (allocates owner) (reservations st).

Definition ensure_allocation_available (st : StoreState) (owner : LlmContextOwner)
    : result LlmContextStoreError unit :=
  if max_contexts_per_principal opts <=? Z.of_nat (live_contexts st owner + pending_allocations st owner)
  then Err (store_error LLM_CONTEXT_LIMIT_EXCEEDED
              "the principal's live context limit has been reached" None)
  else Ok tt.

Definition clamp_ttl (value : Z) : Z := Z.min value (max_ttl_seconds opts).

(** [i128] division truncates. *)
Definition effective_ttl (rq : LlmContextMutationRequest) (e : ContextEntry) (now : Z) : option Z :=
  match mr_ttl_seconds rq with
  | Some value => Some (clamp_ttl value)
  | None =>
    if bool_decide (mr_operation rq = Fork)
    then (fun expires_at => Z.min (Z.max (Z.quot (expires_at - now + 999999999) nanos_per_sec) 1) 4294967295)
         <$> e_expires_at e
    else if e_ttl_seconds e =? 0 then None else Some (e_ttl_seconds e)
  end.

Definition ensure_owner (e : ContextEntry) (owner : LlmContextOwner) : result LlmContextStoreError unit :=
  if bool_decide (e_owner e = owner) then Ok tt
  else Err (store_error LLM_CONTEXT_FORBIDDEN "the caller does not own this context" None).

Definition require_mutable (st : StoreState) (owner : LlmContextOwner) (context_id : string)
    : result LlmContextStoreError ContextEntry :=
  e ← ok_or (contexts st !! context_id) not_found;
  _ ← ensure_owner e owner;
  match e_state e with
  | CtxExpired => Err (store_error LLM_CONTEXT_EXPIRED "the context expired" (Some (e_version e)))
  | CtxReleased => Err not_found
  | _ => Ok e
  end.

Definition version_conflict (v : Z) : LlmContextStoreError :=
  store_error LLM_CONTEXT_VERSION_CONFLICT "the context version is stale or a mutation is running" (Some v).

(** Free and at the version the caller saw. *)
Definition require_version (e : ContextEntry) (base_version : Z) : result LlmContextStoreError unit :=
  if negb (bool_decide (e_reservation_id e = None)) || negb (e_version e =? base_version)
  then Err (version_conflict (e_version e))
  else Ok tt.

(** ** Reserving *)

Definition Plan : Type := list LlmMessageDto * option Z * option string * option Z.

Definition reserve_plan (now : Z) (rq : LlmContextMutationRequest) (st : StoreState)
    : result LlmContextStoreError Plan :=
  if bool_decide (mr_operation rq = Create)
  then
    _ ← ensure_allocation_available st (mr_owner rq);
    Ok ([], Some (clamp_ttl (default (default_ttl_seconds opts) (mr_ttl_seconds rq))), None, None)
  else
    e ← require_mutable st (mr_owner rq) (default "" (mr_context_id rq));
    _ ← require_version e (default 0 (mr_base_version rq));
    fingerprint ← binding_fingerprint (mr_binding rq);
    if (bool_decide (mr_operation rq = Append) || bool_decide (mr_operation rq = Fork))
       && negb (String.eqb (e_binding_fingerprint e) fingerprint)
    then Err (store_error LLM_CONTEXT_BINDING_MISMATCH
                "the request binding differs from the retained binding" None)
    else
      let fork := bool_decide (mr_operation rq = Fork) in
      _ ← (if fork then ensure_allocation_available st (mr_owner rq) else Ok tt);
      Ok (e_transcript e, effective_ttl rq e now,
          if fork then Some (e_context_id e) else None, if fork then Some (e_version e) else None).

Definition set_reservation (r : option string) (e : ContextEntry) : ContextEntry :=
  mkEntry (e_context_id e) (e_owner e) (e_version e) (e_state e) (e_binding e) (e_binding_fingerprint e)
    (e_transcript e) (e_ttl_seconds e) (e_expires_at e) (e_tombstone_until e) r.

Definition reserve_state (rq : LlmContextMutationRequest) (rid : string) (data : ReservationData)
    (outcome : IdempotencyEntry) (st : StoreState) : StoreState :=
  mkStoreState
    (if is_allocation (mr_operation rq) then contexts st
     else alter (set_reservation (Some rid)) (default "" (mr_context_id rq)) (contexts st))
    (<[idempotency_key (mr_owner rq) LLM_COMPLETE (mr_idempotency_key rq) := outcome]> (idempotency st))
    (<[rid := data]> (reservations st)).

(** [new_id] is the outcome of [new_reservation_id]. *)
Definition reserve (now : Z) (new_id : result LlmContextStoreError string) (rq : LlmContextMutationRequest)
    : Call (S := StoreState) LlmContextMutationReservation :=
  sweep now ;;
  call_result (validate_request rq) ;;
  call_result (ensure_supported (mr_operation rq)) ;;
  st <- call_get (fun st => st) ;;
  match idempotency st !! idempotency_key (mr_owner rq) LLM_COMPLETE (mr_idempotency_key rq) with
  | Some _ => call_fail (store_error ACTION_IDEMPOTENCY_CONFLICT
                           "an outcome already exists for this idempotency key" None)
  | None =>
    plan <- call_result (reserve_plan now rq st) ;;
    rid <- call_result new_id ;;
    fingerprint <- call_result (binding_fingerprint (mr_binding rq)) ;;
    retain_until <- call_panic (instant_add now (idempotency_ttl opts)) ;;
    let '(base_transcript, ttl, parent, parent_version) := plan in
    call_modify (reserve_state rq rid
      (mkReservationData rid rq fingerprint base_transcript ttl parent parent_version)
      (mkOutcome Busy retain_until (nonempty (mr_request_id rq)) None None None None)) ;;
    call_ret (mkReservation rid (mr_operation rq) (mr_request_id rq))
  end.

(** ** Committing *)

Definition require_reservation (h : LlmContextMutationReservation) (st : StoreState)
    : result LlmContextStoreError ReservationData :=
  match reservations st !! h_reservation_id h with
  | None => Err (internal_error "context reservation is not active")
  | Some current =>
    if String.eqb (rd_reservation_id current) (h_reservation_id h) then Ok current
    else Err (internal_error "context reservation identity mismatch")
  end.

(** [factory i] is the [i]-th identifier the factory yields; eight are tried. *)
Fixpoint next_context_id (tries i : nat) (factory : nat -> result LlmContextStoreError string) (st : StoreState)
    : result LlmContextStoreError string :=
  match tries with
  | O => Err (internal_error "context ID factory repeatedly produced collisions")
  | S k =>
    value ← factory i;
    _ ← validate_context_id value;
    match contexts st !! value with
    | None => Ok value
    | Some _ => next_context_id k (S i) factory st
    end
  end.

Definition new_entry (id : string) (current : ReservationData) (expiry : option Z) (assistant : LlmMessageDto)
    : ContextEntry :=
  let rq := rd_request current in
  mkEntry id (mr_owner rq) 1 CtxActive (mr_binding rq) (rd_binding_fingerprint current)
    ((if bool_decide (mr_operation rq = Fork) then rd_base_transcript current else [])
       ++ mr_messages rq ++ [assistant])
    (default 0 (rd_effective_ttl_seconds current)) expiry None None.

Definition bump (v : Z) : option Z := if v =? u64_max then None else Some (v + 1).

Definition updated_entry (e : ContextEntry) (v : Z) (current : ReservationData) (expiry : option Z)
    (assistant : LlmMessageDto) : ContextEntry :=
  let rq := rd_request current in
  let reset := bool_decide (mr_operation rq = Reset) in
  mkEntry (e_context_id e) (e_owner e) v CtxActive
    (if reset then mr_binding rq else e_binding e)
    (if reset then rd_binding_fingerprint current else e_binding_fingerprint e)
    ((if reset then mr_messages rq else e_transcript e ++ mr_messages rq) ++ [assistant])
    (default 0 (rd_effective_ttl_seconds current)) expiry (e_tombstone_until e) None.

Definition put_context (id : string) (e : ContextEntry) (st : StoreState) : StoreState :=
  mkStoreState (<[id := e]> (contexts st)) (idempotency st) (reservations st).

Definition outcome_key (current : ReservationData) : IdempotencyKey :=
  idempotency_key (mr_owner (rd_request current)) LLM_COMPLETE (mr_idempotency_key (rd_request current)).

(** Record the outcome and drop the reservation. *)
Definition conclude (current : ReservationData) (outcome : IdempotencyEntry) (st : StoreState) : StoreState :=
  mkStoreState (contexts st) (<[outcome_key current := outcome]> (idempotency st))
    (delete (rd_reservation_id current) (reservations st)).

Definition commit_context (factory : nat -> result LlmContextStoreError string) (current : ReservationData)
    (expiry : option Z) (assistant : LlmMessageDto) : Call (S := StoreState) (string * Z) :=
  let rq := rd_request current in
  match mr_operation rq with
  | Create | Fork =>
    st <- call_get (fun st => st) ;;
    context_id <- call_result (next_context_id 8 0 factory st) ;;
    call_modify (put_context context_id (new_entry context_id current expiry assistant)) ;;
    call_ret (context_id, 1)
  | Append | Reset =>
    context_id <- call_panic (mr_context_id rq) ;;
    st <- call_get (fun st => st) ;;
    e <- call_result (ok_or (contexts st !! context_id) not_found) ;;
    v <- call_panic (bump (e_version e)) ;;
    call_modify (put_context context_id (updated_entry e v current expiry assistant)) ;;
    call_ret (e_context_id e, v)
  | Release => call_panic None
  end.

Definition commit (now : Z) (factory : nat -> result LlmContextStoreError string)
    (h : LlmContextMutationReservation) (assistant_result : LlmMessageDto)
    : Call (S := StoreState) LlmContextReceiptDto :=
  st <- call_get (fun st => st) ;;
  current <- call_result (require_reservation h st) ;;
  expiry <- call_panic (match rd_effective_ttl_seconds current with
                        | Some s => Some <$> instant_add now (seconds s)
                        | None => Some None
                        end) ;;
  cv <- commit_context factory current expiry assistant_result ;;
  let receipt := mkReceipt (fst cv) (snd cv) (mr_operation (rd_request current)) CtxActive
                   (expiry ≫= rfc3339) (rd_parent_context_id current) (rd_parent_version current) in
  retain_until <- call_panic (instant_add now (idempotency_ttl opts)) ;;
  call_modify (conclude current (mkOutcome Completed retain_until
    (nonempty (mr_request_id (rd_request current))) None (Some receipt) None None)) ;;
  call_ret receipt.

(** ** Aborting *)

Definition clear_reservation (current : ReservationData) (st : StoreState) : StoreState :=
  match mr_context_id (rd_request current) with
  | None => st
  | Some context_id =>
    mkStoreState
      (alter (fun e => if bool_decide (e_reservation_id e = Some (rd_reservation_id current))
                       then set_reservation None e else e) context_id (contexts st))
      (idempotency st) (reservations st)
  end.

Definition abort (now : Z) (h : LlmContextMutationReservation) (error_code : option string)
    : Call (S := StoreState) unit :=
  st <- call_get (fun st => st) ;;
  current <- call_result (require_reservation h st) ;;
  call_modify (clear_reservation current) ;;
  retain_until <- call_panic (instant_add now (idempotency_ttl opts)) ;;
  call_modify (conclude current (mkOutcome OFailed retain_until
    (nonempty (mr_request_id (rd_request current))) error_code None None None)) ;;
  sweep now ;;
  call_ret tt.

(** ** Releasing *)

Definition released_entry (e : ContextEntry) (v until : Z) : ContextEntry :=
  mkEntry (e_context_id e) (e_owner e) v CtxReleased (e_binding e) (e_binding_fingerprint e)
    (e_transcript e) (e_ttl_seconds e) None (Some until) (e_reservation_id e).

Definition release_prior (prior : IdempotencyEntry) (context_id : string) (base_version : Z)
    : result LlmContextStoreError LlmContextReceiptDto :=
  if bool_decide (oc_state prior = Completed) && bool_decide (oc_context_id prior = Some context_id)
     && bool_decide (oc_base_version prior = Some base_version)
  then ok_or (oc_receipt prior) (internal_error "completed release outcome has no receipt")
  else Err (store_error ACTION_IDEMPOTENCY_CONFLICT
              "a release with this idempotency key already exists" None).

Definition put_outcome (k : IdempotencyKey) (o : IdempotencyEntry) (st : StoreState) : StoreState :=
  mkStoreState (contexts st) (<[k := o]> (idempotency st)) (reservations st).

Definition release (now : Z) (owner : LlmContextOwner) (context_id : string) (base_version : Z)
    (idem : string) : Call (S := StoreState) LlmContextReceiptDto :=
  sweep now ;;
  call_result (ensure_supported Release) ;;
  call_result (validate_context_id context_id) ;;
  call_result (if is_empty (trim idem) then Err (params_invalid "release requires idempotency_key") else Ok tt) ;;
  let key := idempotency_key owner LLM_CONTEXT_RELEASE idem in
  st <- call_get (fun st => st) ;;
  match idempotency st !! key with
  | Some prior => call_result (release_prior prior context_id base_version)
  | None =>
    e <- call_result (require_mutable st owner context_id) ;;
    call_result (require_version e base_version) ;;
    v <- call_panic (bump (e_version e)) ;;
    until <- call_panic (instant_add now (seconds (tombstone_seconds opts))) ;;
    call_modify (put_context context_id (released_entry e v until)) ;;
    let receipt := mkReceipt context_id v Release CtxReleased None None None in
    retain_until <- call_panic (instant_add now (idempotency_ttl opts)) ;;
    call_modify (put_outcome key (mkOutcome Completed retain_until None None (Some receipt)
                                    (Some context_id) (Some base_version))) ;;
    call_ret receipt
  end.

(** ** Reading *)

Definition status_by_context (st : StoreState) (owner : LlmContextOwner) (context_id : string)
    : result LlmContextStoreError LlmContextStatusDto :=
  _ ← validate_context_id context_id;
  e ← ok_or (contexts st !! context_id) not_found;
  _ ← ensure_owner e owner;
  let request_id : option string :=
    id ← e_reservation_id e;
    r ← reservations st !! id;
    nonempty (mr_request_id (rd_request r)) in
  Ok (mkStatus (match e_reservation_id e with Some _ => CtxBusy | None => e_state e end)
        (Some (e_context_id e)) (Some (e_version e)) (e_expires_at e ≫= rfc3339) request_id None).

Definition status_from_receipt (st : StoreState) (owner : LlmContextOwner) (r : LlmContextReceiptDto)
    : result LlmContextStoreError LlmContextStatusDto :=
  match contexts st !! rc_context_id r with
  | Some _ => status_by_context st owner (rc_context_id r)
  | None => Ok (mkStatus (rc_state r) (Some (rc_context_id r)) (Some (rc_version r)) (rc_expires_at r) None None)
  end.

Definition status_of_outcome (st : StoreState) (owner : LlmContextOwner) (o : IdempotencyEntry)
    : result LlmContextStoreError LlmContextStatusDto :=
  match oc_state o with
  | Busy => Ok (mkStatus CtxBusy None None None (oc_request_id o) None)
  | OFailed => Ok (mkStatus CtxFailed None None None (oc_request_id o) (oc_error_code o))
  | Completed =>
    r ← ok_or (oc_receipt o) (internal_error "completed context outcome has no receipt");
    status_from_receipt st owner r
  end.

Definition status (now : Z) (owner : LlmContextOwner) (context_id idem : option string)
    : Call (S := StoreState) LlmContextStatusDto :=
  sweep now ;;
  st <- call_get (fun st => st) ;;
  match context_id, idem with
  | None, Some k =>
    o <- call_result (ok_or (idempotency st !! idempotency_key owner LLM_COMPLETE k) not_found) ;;
    call_result (status_of_outcome st owner o)
  | Some id, None => call_result (status_by_context st owner id)
  | _, _ => call_fail (params_invalid "status requires exactly one locator")
  end.

Definition snapshot (now : Z) (owner : LlmContextOwner) (context_id : string)
    : Call (S := StoreState) LlmContextSnapshot :=
  sweep now ;;
  st <- call_get (fun st => st) ;;
  e <- call_result (require_mutable st owner context_id) ;;
  call_ret (mkSnapshot (e_context_id e) (e_version e) (e_state e) (e_transcript e) (e_binding e) (e_expires_at e)).
End store.
