(* ===== verification/NwpContextSpec.v ===== *)
(** * NwpContextSpec: no update of a context is lost

    Histories of calls on the store of [NwpContext]: a context has at most one
    mutation in flight, which finds the version and transcript it was reserved
    at; owners stay within their limit and are kept apart; outcomes are
    remembered under their idempotency key. *)

From S2P Require Import Prelude Calls RustStr Json CoreCache NwpContext.
From stdpp Require Import fin_maps.
Local Open Scope Z_scope.

(** ** Counting the values of a map *)

Section count.
Context {A : Type} (p : A -> bool).
Implicit Types m : gmap string A.

Lemma count_empty : count_where p ∅ = 0%nat.
Proof. unfold count_where. by rewrite map_filter_empty, map_size_empty. Qed.

Lemma count_insert_new m k x : m !! k = None ->
  count_where p (<[k := x]> m) = ((if p x then 1 else 0) + count_where p m)%nat.
Proof.
  intros Hk. unfold count_where. destruct (p x) eqn:E.
  - rewrite map_filter_insert_True by done. rewrite map_size_insert_None; [lia |].
    apply map_lookup_filter_None. by left.
  - rewrite map_filter_insert_False by (cbn; congruence).
    by rewrite delete_id.
Qed.

Lemma count_delete m k x : m !! k = Some x ->
  count_where p m = ((if p x then 1 else 0) + count_where p (delete k m))%nat.
Proof.
  intros Hk. rewrite <-(insert_delete_id m k x Hk) at 1.
  apply count_insert_new. apply lookup_delete_eq.
Qed.

(** A map whose counted keys are counted keys of another has a smaller count. *)
Lemma count_le m m' :
  (forall k x', m' !! k = Some x' -> p x' = true -> exists x, m !! k = Some x /\ p x = true) ->
  (count_where p m' <= count_where p m)%nat.
Proof.
  intros Hle. unfold count_where. rewrite <-!(size_dom (D := gset string)).
  apply subseteq_size. intros k Hk.
  apply elem_of_dom in Hk as [x' Hx']. apply map_lookup_filter_Some in Hx' as [Hx' Hp].
  destruct (Hle k x' Hx' Hp) as (x & Hx & Hpx). apply elem_of_dom. exists x.
  by apply map_lookup_filter_Some.
Qed.
End count.

Section spec.
Context {D : Digests} `{ContextTime} `{BindingSerde}.
Context (opts : LlmContextStoreOptions).

(** ** The invariant *)

(** The context a reservation of [append] or [reset] holds. *)
Definition holds (st : StoreState) (r : string) (d : ReservationData) (id : string) (e : ContextEntry) : Prop :=
  mr_context_id (rd_request d) = Some id /\ contexts st !! id = Some e /\
  e_reservation_id e = Some r /\ e_state e = CtxActive /\ e_owner e = mr_owner (rd_request d) /\
  mr_base_version (rd_request d) = Some (e_version e) /\ e_transcript e = rd_base_transcript d /\
  (mr_operation (rd_request d) = Append -> e_binding_fingerprint e = rd_binding_fingerprint d).

Definition busy_key (st : StoreState) (d : ReservationData) : Prop :=
  exists o, idempotency st !! outcome_key d = Some o /\ oc_state o = Busy.

Record ctx_inv (st : StoreState) : Prop := {
  ci_contexts : forall id e, contexts st !! id = Some e ->
    e_context_id e = id /\ (e_state e = CtxActive \/ e_state e = CtxExpired \/ e_state e = CtxReleased);
  ci_reserved : forall r d, reservations st !! r = Some d ->
    rd_reservation_id d = r /\ busy_key st d /\ mr_operation (rd_request d) <> Release;
  ci_keys : forall r1 r2 d1 d2, reservations st !! r1 = Some d1 -> reservations st !! r2 = Some d2 ->
    outcome_key d1 = outcome_key d2 -> r1 = r2;
  ci_holder : forall id e r, contexts st !! id = Some e -> e_reservation_id e = Some r ->
    exists d, reservations st !! r = Some d /\ is_allocation (mr_operation (rd_request d)) = false /\
      mr_context_id (rd_request d) = Some id;
  ci_held : forall r d, reservations st !! r = Some d ->
    is_allocation (mr_operation (rd_request d)) = false -> exists id e, holds st r d id e;
  ci_limit : forall owner, Z.of_nat (live_contexts st owner + pending_allocations st owner)
    <= Z.max 0 (max_contexts_per_principal opts)
}.

Lemma default_inv : ctx_inv store_state_default.
Proof.
  split; try done. intros owner. unfold live_contexts, pending_allocations. cbn.
  rewrite !count_empty. lia.
Qed.

(** *** Sweeping *)

Lemma due_not_reserved now e : is_due now e = true -> e_reservation_id e = None /\ e_state e = CtxActive.
Proof. unfold is_due. intros E. bool_hyps. done. Qed.

Lemma sweep_lookup now st n st' : sweep_locked opts now st = Some (n, st') ->
  reservations st' = reservations st /\
  (forall id e', contexts st' !! id = Some e' -> exists e, contexts st !! id = Some e /\
     (e' = e \/ is_due now e = true /\ exists u, e' = expire u e)) /\
  (forall id e, contexts st !! id = Some e -> e_state e = CtxActive -> is_due now e = false ->
     contexts st' !! id = Some e) /\
  (forall k o, idempotency st' !! k = Some o -> idempotency st !! k = Some o) /\
  (forall k o, idempotency st !! k = Some o -> oc_state o = Busy \/ now < oc_retain_until o ->
     idempotency st' !! k = Some o).
Proof.
  unfold sweep_locked. intros E. apply bind_Some in E as (u & _ & [= <- <-]). cbn. split; [done |].
  repeat split.
  - intros id e' [He _]%map_lookup_filter_Some. rewrite lookup_fmap in He.
    apply fmap_Some in He as (e & He & ->). exists e. split; [done |].
    destruct (is_due now e); [right; split; [done | by exists u] | by left].
  - intros id e He Ha Hd. apply map_lookup_filter_Some. rewrite lookup_fmap, He. cbn. rewrite Hd.
    split; [done |]. unfold retained. by rewrite Ha.
  - by intros k o [? _]%map_lookup_filter_Some.
  - intros k o Hk Ho. apply map_lookup_filter_Some. split; [done |]. cbn. unfold outcome_retained.
    apply orb_true_iff. destruct Ho; [left; by apply bool_decide_eq_true | right; by apply Z.ltb_lt].
Qed.

(** What changes nothing a reservation relies on keeps the invariant. *)
Lemma inv_monotone st st' : ctx_inv st -> reservations st' = reservations st ->
  (forall id e', contexts st' !! id = Some e' ->
     (e_context_id e' = id /\ (e_state e' = CtxActive \/ e_state e' = CtxExpired \/ e_state e' = CtxReleased)) /\
     (exists e, contexts st !! id = Some e /\ e_reservation_id e' = e_reservation_id e /\
        e_owner e' = e_owner e /\ (e_state e' = CtxActive -> e_state e = CtxActive))) ->
  (forall id e, contexts st !! id = Some e -> e_reservation_id e <> None -> contexts st' !! id = Some e) ->
  (forall k o, idempotency st !! k = Some o -> oc_state o = Busy -> idempotency st' !! k = Some o) ->
  ctx_inv st'.
Proof.
  intros [Hc Hr Hk Hh Hd Hl] Er Hfwd Hback Hout. split.
  - intros id e' He. by apply Hfwd.
  - intros r d. rewrite Er. intros Hrd. destruct (Hr r d Hrd) as (? & (o & Ho & Hb) & ?).
    split; [done |]. split; [|done]. exists o. auto.
  - rewrite Er. exact Hk.
  - intros id e' r He Hres. destruct (Hfwd id e' He) as (_ & e & He0 & Eres & _).
    rewrite Er. apply (Hh id e r He0). congruence.
  - intros r d. rewrite Er. intros Hrd Hop. destruct (Hd r d Hrd Hop) as (id & e & Hid & He & Hres & Hrest).
    exists id, e. split; [done |]. split; [apply Hback; [done | congruence] | done].
  - intros owner. etrans; [|exact (Hl owner)]. unfold live_contexts, pending_allocations. rewrite Er.
    assert (Hle : (count_where (is_live owner) (contexts st') <= count_where (is_live owner) (contexts st))%nat);
      [|lia].
    apply count_le. intros id e' He Hlive. destruct (Hfwd id e' He) as (_ & e & He0 & _ & Eo & Hs).
    exists e. split; [done |]. unfold is_live in *. bool_hyps. rewrite <-Eo. apply andb_true_iff.
    split; apply bool_decide_eq_true; auto.
Qed.

Lemma sweep_inv now st n st' : sweep_locked opts now st = Some (n, st') -> ctx_inv st -> ctx_inv st'.
Proof.
  intros E Hi. apply sweep_lookup in E as (Er & Hf & Hb & _ & Ho). apply (inv_monotone st); try done.
  - intros id e' He. destruct (Hf id e' He) as (e & He0 & [->|[Hdue (u & ->)]]).
    + split; [by apply (ci_contexts st Hi) |]. by exists e.
    + split; [split; [by apply (ci_contexts st Hi id e) | by right; left] |]. exists e. by cbn.
  - intros id e He Hres. destruct (e_reservation_id e) as [r|] eqn:Er'; [|done].
    destruct (ci_holder st Hi id e r He Er') as (d & Hd & Hop & Hid).
    destruct (ci_held st Hi r d Hd Hop) as (id' & e1 & Hid' & He1 & _ & Hs & _).
    assert (id' = id) as -> by congruence. assert (e1 = e) as -> by congruence.
    apply Hb; [done | done |]. destruct (is_due now e) eqn:Edue; [|done].
    apply due_not_reserved in Edue as [? _]. congruence.
  - intros k o Hk Hbusy. apply Ho; auto.
Qed.

(** *** What each call leaves *)

Lemma sweep_call_inv now st out st' : sweep opts now st = Some (out, st') ->
  exists n, out = Ok n /\ sweep_locked opts now st = Some (n, st').
Proof. unfold sweep. destruct (sweep_locked opts now st) as [[n s]|]; [|done]. intros [= <- <-]. by exists n. Qed.

Definition reserved (now : Z) (rq : LlmContextMutationRequest) (rid : string) (st1 st' : StoreState) : Prop :=
  exists bt ttl parent pv fp until,
    validate_request rq = Ok tt /\
    idempotency st1 !! idempotency_key (mr_owner rq) LLM_COMPLETE (mr_idempotency_key rq) = None /\
    reserve_plan opts now rq st1 = Ok (bt, ttl, parent, pv) /\ binding_fingerprint (mr_binding rq) = Ok fp /\
    instant_add now (idempotency_ttl opts) = Some until /\
    st' = reserve_state rq rid (mkReservationData rid rq fp bt ttl parent pv)
            (mkOutcome Busy until (nonempty (mr_request_id rq)) None None None None) st1.

Lemma reserve_cases now new_id rq st out st' : reserve opts now new_id rq st = Some (out, st') ->
  exists n st1, sweep_locked opts now st = Some (n, st1) /\
    ((exists e, out = Err e /\ st' = st1) \/
     (exists rid, new_id = Ok rid /\ out = Ok (mkReservation rid (mr_operation rq) (mr_request_id rq)) /\
        reserved now rq rid st1 st')).
Proof.
  intros E. unfold reserve in E.
  apply call_bind_inv in E as [(e & E & ->)|(n & st1 & E1 & E)].
  { apply sweep_call_inv in E as (n & [=] & _). }
  apply sweep_call_inv in E1 as (n' & _ & Esw). exists n', st1. split; [done |].
  apply call_bind_inv in E as [(e & E & ->)|([] & s2 & E1 & E)].
  { apply call_result_inv in E as [_ ->]. left. by exists e. }
  apply call_result_inv in E1 as [Hv ->].
  apply call_bind_inv in E as [(e & E & ->)|([] & s2 & E1 & E)].
  { apply call_result_inv in E as [_ ->]. left. by exists e. }
  apply call_result_inv in E1 as [_ ->].
  apply call_bind_inv in E as [(e & E & _)|(s & s2 & E1 & E)]; [by apply call_get_inv in E as [? _] |].
  apply call_get_inv in E1 as [[= ->] ->].
  destruct (idempotency st1 !! idempotency_key (mr_owner rq) LLM_COMPLETE (mr_idempotency_key rq)) eqn:Ek.
  { apply call_fail_inv in E as [-> ->]. left. by eexists. }
  apply call_bind_inv in E as [(e & E & ->)|([[[bt ttl] parent] pv] & s2 & E1 & E)].
  { apply call_result_inv in E as [_ ->]. left. by exists e. }
  apply call_result_inv in E1 as [Hp ->].
  apply call_bind_inv in E as [(e & E & ->)|(rid & s2 & E1 & E)].
  { apply call_result_inv in E as [_ ->]. left. by exists e. }
  apply call_result_inv in E1 as [Hid ->].
  apply call_bind_inv in E as [(e & E & ->)|(fp & s2 & E1 & E)].
  { apply call_result_inv in E as [_ ->]. left. by exists e. }
  apply call_result_inv in E1 as [Hfp ->].
  apply call_bind_inv in E as [(e & E & _)|(until & s2 & E1 & E)].
  { by apply call_panic_inv in E as (? & _ & ? & _). }
  apply call_panic_inv in E1 as (u & Hu & [= ->] & ->).
  injection E as <- <-. right. exists rid. split; [done |]. split; [done |].
  by exists bt, ttl, parent, pv, fp, u.
Qed.

(** The entry a reservation of an existing context finds. *)
Lemma reserve_plan_entry now rq st bt ttl parent pv : reserve_plan opts now rq st = Ok (bt, ttl, parent, pv) ->
  mr_operation rq <> Create ->
  exists e fp, contexts st !! default "" (mr_context_id rq) = Some e /\ e_owner e = mr_owner rq /\
    e_state e <> CtxExpired /\ e_state e <> CtxReleased /\ e_reservation_id e = None /\
    e_version e = default 0 (mr_base_version rq) /\ binding_fingerprint (mr_binding rq) = Ok fp /\
    (mr_operation rq = Append \/ mr_operation rq = Fork -> e_binding_fingerprint e = fp) /\ bt = e_transcript e.
Proof.
  unfold reserve_plan. intros E Hop. rewrite bool_decide_false in E by done.
  apply result_bind_Ok in E as (e & E1 & E). unfold require_mutable in E1.
  apply result_bind_Ok in E1 as (e0 & E0 & E1). apply ok_or_Ok in E0.
  apply result_bind_Ok in E1 as ([] & Eo & E1).
  assert (e0 = e /\ e_state e <> CtxExpired /\ e_state e <> CtxReleased) as (-> & Hs1 & Hs2).
  { destruct (e_state e0) eqn:Es; simplify_eq; rewrite Es; done. }
  apply result_bind_Ok in E as ([] & Ev & E). unfold require_version in Ev.
  destruct (negb (bool_decide (e_reservation_id e = None)) || _) eqn:Evc; [done |]. bool_hyps. cmp_hyps.
  apply result_bind_Ok in E as (fp & Efp & E).
  destruct ((bool_decide (mr_operation rq = Append) || _) && _) eqn:Eb; [done |].
  apply result_bind_Ok in E as ([] & _ & E). injection E as <- _ _ _.
  unfold ensure_owner in Eo. destruct (bool_decide_reflect (e_owner e = mr_owner rq)); [|done].
  exists e, fp. repeat split; try done. intros Hop'.
  apply andb_false_iff in Eb as [Eb|Eb].
  - apply orb_false_iff in Eb as [?%bool_decide_eq_false ?%bool_decide_eq_false]. by destruct Hop'.
  - apply negb_false_iff in Eb. by apply String.eqb_eq.
Qed.

Lemma reserve_plan_limit now rq st plan : reserve_plan opts now rq st = Ok plan ->
  is_allocation (mr_operation rq) = true ->
  Z.of_nat (live_contexts st (mr_owner rq) + pending_allocations st (mr_owner rq))
    < max_contexts_per_principal opts.
Proof.
  assert (Hen : forall o, ensure_allocation_available opts st o = Ok tt ->
    Z.of_nat (live_contexts st o + pending_allocations st o) < max_contexts_per_principal opts).
  { intros o. unfold ensure_allocation_available.
    destruct (Z.leb_spec (max_contexts_per_principal opts)
      (Z.of_nat (live_contexts st o + pending_allocations st o))); [done | lia]. }
  unfold reserve_plan. intros E Ha. destruct (mr_operation rq) eqn:Eop; try done; cbn in E.
  - apply result_bind_Ok in E as ([] & E & _). by apply Hen.
  - apply result_bind_Ok in E as (e & _ & E). apply result_bind_Ok in E as ([] & _ & E).
    apply result_bind_Ok in E as (fp & _ & E). case_match; [done |].
    apply result_bind_Ok in E as ([] & E & _). by apply Hen.
Qed.

Lemma validate_not_release rq : validate_request rq = Ok tt -> mr_operation rq <> Release.
Proof. unfold validate_request. intros E Hr. by rewrite Hr in E. Qed.

Lemma validate_locator rq : validate_request rq = Ok tt -> mr_operation rq <> Create ->
  is_Some (mr_context_id rq) /\ is_Some (mr_base_version rq).
Proof.
  unfold validate_request. intros E Hop. destruct (bool_decide (mr_operation rq = Release)); [done |].
  destruct (is_empty _); [done |]. destruct (bool_decide (mr_ttl_seconds rq = Some 0)); [done |].
  apply result_bind_Ok in E as ([] & E & _). unfold check_locator in E.
  rewrite bool_decide_false in E by done. destruct (mr_context_id rq), (mr_base_version rq); try done.
Qed.

Lemma live_set_reservation st st' owner id r :
  contexts st' = alter (set_reservation r) id (contexts st) ->
  (live_contexts st' owner <= live_contexts st owner)%nat.
Proof.
  intros E. unfold live_contexts. rewrite E. apply count_le. intros k e' He' Hl.
  destruct (decide (k = id)) as [->|].
  - rewrite lookup_alter_eq in He'. apply fmap_Some in He' as (e & He & ->). by exists e.
  - rewrite lookup_alter_ne in He' by done. by exists e'.
Qed.

Lemma reserved_busy rq rid d o st r d0 : outcome_key d = idempotency_key (mr_owner rq) LLM_COMPLETE (mr_idempotency_key rq) ->
  idempotency st !! outcome_key d = None -> ctx_inv st -> reservations st !! r = Some d0 ->
  outcome_key d0 <> outcome_key d /\ busy_key (reserve_state rq rid d o st) d0.
Proof.
  intros Ek Hnone Hi Hr. destruct (ci_reserved st Hi r d0 Hr) as (_ & (oc & Hoc & Hb) & _).
  assert (Hne : outcome_key d0 <> outcome_key d) by congruence. split; [done |].
  exists oc. cbn. rewrite <-Ek, lookup_insert_ne by congruence. done.
Qed.

Lemma reserved_limit now rq rid st st' : ctx_inv st -> reservations st !! rid = None ->
  reserved now rq rid st st' -> forall owner,
  Z.of_nat (live_contexts st' owner + pending_allocations st' owner) <= Z.max 0 (max_contexts_per_principal opts).
Proof.
  intros Hi Hfresh (bt & ttl & parent & pv & fp & u & Hv & Hk & Hp & Hfp & _ & ->) owner.
  pose proof (ci_limit st Hi owner) as Hl. unfold pending_allocations. cbn.
  rewrite count_insert_new by done. fold (pending_allocations st owner). unfold allocates at 1. cbn.
  destruct (is_allocation (mr_operation rq)) eqn:Eop.
  - assert (Eq : live_contexts (reserve_state rq rid (mkReservationData rid rq fp bt ttl parent pv)
      (mkOutcome Busy u (nonempty (mr_request_id rq)) None None None None) st) owner = live_contexts st owner)
      by (unfold live_contexts; cbn; by rewrite Eop).
    rewrite Eq. apply reserve_plan_limit in Hp; [|done].
    destruct (bool_decide_reflect (mr_owner rq = owner)) as [<-|]; cbn; lia.
  - rewrite andb_false_r. cbn.
    pose proof (live_set_reservation st (reserve_state rq rid (mkReservationData rid rq fp bt ttl parent pv)
      (mkOutcome Busy u (nonempty (mr_request_id rq)) None None None None) st) owner
      (default "" (mr_context_id rq)) (Some rid)) as Hle.
    cbn in Hle. rewrite Eop in Hle. specialize (Hle eq_refl). lia.
Qed.

Lemma reserved_inv now rq rid st st' : ctx_inv st -> reservations st !! rid = None ->
  reserved now rq rid st st' -> ctx_inv st'.
Proof.
  intros Hi Hfresh Hres. pose proof (reserved_limit _ _ _ _ _ Hi Hfresh Hres) as Hlimit.
  destruct Hres as (bt & ttl & parent & pv & fp & u & Hv & Hk & Hp & Hfp & _ & ->).
  set (d := mkReservationData rid rq fp bt ttl parent pv) in *.
  set (o := mkOutcome Busy _ _ _ _ _ _) in *.
  assert (Hold : forall r d0, reservations st !! r = Some d0 ->
    outcome_key d0 <> outcome_key d /\ busy_key (reserve_state rq rid d o st) d0)
    by (intros r d0; by apply reserved_busy).
  assert (Hentry : is_allocation (mr_operation rq) = false -> exists id e, mr_context_id rq = Some id /\
    contexts st !! id = Some e /\ e_owner e = mr_owner rq /\ e_state e = CtxActive /\
    e_reservation_id e = None /\ mr_base_version rq = Some (e_version e) /\ bt = e_transcript e /\
    (mr_operation rq = Append -> e_binding_fingerprint e = fp)).
  { intros Hop. destruct (validate_locator rq Hv) as [[id Hid] [v Hbv]]; [by destruct (mr_operation rq) |].
    destruct (reserve_plan_entry _ _ _ _ _ _ _ Hp) as (e & fp' & He & Ho & Hs1 & Hs2 & Hr & Hver & Hfp' & Hf & Hbt);
      [by destruct (mr_operation rq) |].
    rewrite Hid in He. rewrite Hbv in Hver. cbn in He, Hver. exists id, e.
    destruct (ci_contexts st Hi id e He) as [_ Hstate].
    repeat split; try done; [by destruct Hstate as [?|[?|?]] | congruence |].
    intros Ha. rewrite Hfp' in Hfp. injection Hfp as <-. apply Hf. by left. }
  split; [| | | | |exact Hlimit]; cbn [contexts reservations reserve_state].
  - intros id e He. destruct (is_allocation (mr_operation rq)); [by apply (ci_contexts st Hi) |].
    destruct (decide (id = default "" (mr_context_id rq))) as [->|].
    + rewrite lookup_alter_eq in He. apply fmap_Some in He as (e0 & He0 & ->). by apply (ci_contexts st Hi) in He0.
    + rewrite lookup_alter_ne in He by done. by apply (ci_contexts st Hi).
  - intros r d0 [[<- <-]|[Hne Hr]]%lookup_insert_Some.
    + split; [done |]. split; [|by apply validate_not_release]. exists o. split; [apply lookup_insert_eq | done].
    + destruct (ci_reserved st Hi r d0 Hr) as (? & _ & ?). split; [done |]. split; [by eapply Hold | done].
  - intros r1 r2 d1 d2 [[<- <-]|[Hn1 Hr1]]%lookup_insert_Some [[<- <-]|[Hn2 Hr2]]%lookup_insert_Some Ekey.
    + done.
    + exfalso. by apply (Hold r2 d2 Hr2).
    + exfalso. by apply (Hold r1 d1 Hr1).
    + by eapply (ci_keys st Hi).
  - intros id e r He Hr.
    assert (Hold' : forall e0, contexts st !! id = Some e0 -> e_reservation_id e0 = Some r ->
      exists d0, <[rid := d]> (reservations st) !! r = Some d0 /\
        is_allocation (mr_operation (rd_request d0)) = false /\ mr_context_id (rd_request d0) = Some id).
    { intros e0 He0 Hr0. destruct (ci_holder st Hi id e0 r He0 Hr0) as (d0 & Hd0 & ?).
      exists d0. rewrite lookup_insert_ne by congruence. done. }
    destruct (is_allocation (mr_operation rq)) eqn:Eop; [by apply (Hold' e) |].
    destruct (decide (id = default "" (mr_context_id rq))) as [->|].
    + rewrite lookup_alter_eq in He. apply fmap_Some in He as (e0 & He0 & ->). injection Hr as <-.
      exists d. rewrite lookup_insert_eq. split; [done |]. split; [done |].
      destruct (Hentry eq_refl) as (id' & _ & Hid' & _). cbn. by rewrite Hid'.
    + rewrite lookup_alter_ne in He by done. by apply (Hold' e).
  - intros r d0 [[<- <-]|[Hne Hr]]%lookup_insert_Some Hop.
    + cbn in Hop. destruct (Hentry Hop) as (id & e & Hid & He & Ho & Hs & _ & Hbv & Hbt & Hfp').
      exists id, (set_reservation (Some rid) e). unfold holds. cbn. rewrite Hop, Hid. cbn.
      rewrite lookup_alter_eq, He. done.
    + destruct (ci_held st Hi r d0 Hr Hop) as (id & e & Hid & He & Hrest).
      exists id, e. split; [done |]. split; [|done]. cbn.
      destruct (is_allocation (mr_operation rq)) eqn:Eop; [done |].
      destruct (Hentry eq_refl) as (id' & e' & Hid' & He' & _ & _ & Hnone & _). rewrite Hid'. cbn.
      rewrite lookup_alter_ne; [done |]. intros ->. destruct Hrest as [Hx _]. congruence.
Qed.

(** *** Ending a reservation *)

Lemma conclude_inv st r d ctx' o : ctx_inv st -> reservations st !! r = Some d ->
  (forall id e', ctx' !! id = Some e' ->
     (e_context_id e' = id /\ (e_state e' = CtxActive \/ e_state e' = CtxExpired \/ e_state e' = CtxReleased)) /\
     e_reservation_id e' <> Some r /\ (e_reservation_id e' <> None -> contexts st !! id = Some e')) ->
  (forall id e r2, contexts st !! id = Some e -> e_reservation_id e = Some r2 -> r2 <> r -> ctx' !! id = Some e) ->
  (forall owner, (count_where (is_live owner) ctx'
     <= (if allocates owner d then 1 else 0) + live_contexts st owner)%nat) ->
  ctx_inv (mkStoreState ctx' (<[outcome_key d := o]> (idempotency st)) (delete r (reservations st))).
Proof.
  intros Hi Hr Hwf Hkeep Hlive. split; cbn.
  - intros id e He. by apply Hwf.
  - intros r0 d0 [Hne Hd0]%lookup_delete_Some.
    destruct (ci_reserved st Hi r0 d0 Hd0) as (? & (o0 & Ho0 & Hb) & ?). split; [done |]. split; [|done].
    exists o0. cbn. rewrite lookup_insert_ne; [done |].
    intros Ek. apply Hne. eapply (ci_keys st Hi); [exact Hr | exact Hd0 | done].
  - intros r1 r2 d1 d2 [_ H1']%lookup_delete_Some [_ H2']%lookup_delete_Some. by apply (ci_keys st Hi).
  - intros id e r0 He Hr0. destruct (Hwf id e He) as (_ & Hne & Hold).
    destruct (ci_holder st Hi id e r0) as (d0 & Hd0 & ?); [apply Hold; congruence | done |].
    exists d0. rewrite lookup_delete_ne by congruence. done.
  - intros r0 d0 [Hne Hd0]%lookup_delete_Some Hop.
    destruct (ci_held st Hi r0 d0 Hd0 Hop) as (id & e & Hid & He & Hre & Hrest).
    exists id, e. split; [done |]. split; [cbn; by eapply Hkeep | done].
  - intros owner. etrans; [|exact (ci_limit st Hi owner)].
    unfold live_contexts at 1, pending_allocations. cbn. specialize (Hlive owner).
    pose proof (count_delete (allocates owner) (reservations st) r d Hr) as Hc. lia.
Qed.

(** The state and the entry a successful commit leaves. *)
Definition committed (now : Z) (msg : LlmMessageDto) (r : string) (d : ReservationData)
    (rc : LlmContextReceiptDto) (st st' : StoreState) : Prop :=
  exists e' until expiry,
    instant_add now (idempotency_ttl opts) = Some until /\
    st' = mkStoreState (<[rc_context_id rc := e']> (contexts st))
      (<[outcome_key d := mkOutcome Completed until (nonempty (mr_request_id (rd_request d))) None (Some rc)
                            None None]> (idempotency st))
      (delete r (reservations st)) /\
    rc_operation rc = mr_operation (rd_request d) /\ rc_version rc = e_version e' /\
    if is_allocation (mr_operation (rd_request d))
    then contexts st !! rc_context_id rc = None /\ e' = new_entry (rc_context_id rc) d expiry msg
    else exists e v, mr_context_id (rd_request d) = Some (rc_context_id rc) /\
           contexts st !! rc_context_id rc = Some e /\ bump (e_version e) = Some v /\
           e' = updated_entry e v d expiry msg.

Lemma require_reservation_inv h st d : require_reservation h st = Ok d ->
  reservations st !! h_reservation_id h = Some d /\ rd_reservation_id d = h_reservation_id h.
Proof.
  unfold require_reservation. destruct (reservations st !! h_reservation_id h) as [d0|]; [|done].
  destruct (String.eqb_spec (rd_reservation_id d0) (h_reservation_id h)); [|done]. by intros [= ->].
Qed.

Lemma next_context_id_fresh tries i factory st id :
  next_context_id tries i factory st = Ok id -> contexts st !! id = None.
Proof.
  revert i; induction tries as [|k IH]; intros i; [done |]. cbn. intros E.
  apply result_bind_Ok in E as (v & _ & E). apply result_bind_Ok in E as ([] & _ & E).
  destruct (contexts st !! v) eqn:Ev; [by apply IH in E |]. by injection E as <-.
Qed.

Lemma commit_context_cases factory d expiry msg st out st' : ctx_inv st ->
  commit_context factory d expiry msg st = Some (out, st') ->
  (exists e, out = Err e /\ st' = st) \/
  exists id e', out = Ok (id, e_version e') /\ st' = put_context id e' st /\
    if is_allocation (mr_operation (rd_request d))
    then contexts st !! id = None /\ e' = new_entry id d expiry msg
    else exists e v, mr_context_id (rd_request d) = Some id /\ contexts st !! id = Some e /\
           bump (e_version e) = Some v /\ e' = updated_entry e v d expiry msg.
Proof.
  intros Hi E. unfold commit_context in E.
  assert (Hnew : forall s, call_bind (call_get (fun st => st)) (fun st =>
      call_bind (call_result (next_context_id 8 0 factory st)) (fun context_id =>
      call_bind (call_modify (put_context context_id (new_entry context_id d expiry msg)))
        (fun _ => call_ret (context_id, 1)))) s = Some (out, st') ->
    (exists e, out = Err e /\ st' = s) \/ exists id, out = Ok (id, 1) /\
      st' = put_context id (new_entry id d expiry msg) s /\ contexts s !! id = None).
  { clear E. intros s E. unfold call_bind, call_get, call_result in E.
    destruct (next_context_id 8 0 factory s) as [id|e] eqn:En.
    - injection E as <- <-. right. exists id. apply next_context_id_fresh in En. done.
    - injection E as <- <-. left. by exists e. }
  assert (Hupd : forall s, s = st -> call_bind (call_panic (mr_context_id (rd_request d))) (fun context_id =>
      call_bind (call_get (fun st => st)) (fun st =>
      call_bind (call_result (ok_or (contexts st !! context_id) not_found)) (fun e =>
      call_bind (call_panic (bump (e_version e))) (fun v =>
      call_bind (call_modify (put_context context_id (updated_entry e v d expiry msg)))
        (fun _ => call_ret (e_context_id e, v)))))) s = Some (out, st') ->
    (exists e, out = Err e /\ st' = s) \/ exists id e v, mr_context_id (rd_request d) = Some id /\
      contexts s !! id = Some e /\ bump (e_version e) = Some v /\ out = Ok (id, v) /\
      st' = put_context id (updated_entry e v d expiry msg) s).
  { clear E. intros s -> E. unfold call_bind, call_get, call_result, call_panic in E.
    destruct (mr_context_id (rd_request d)) as [id|]; [|done].
    destruct (contexts st !! id) as [e|] eqn:Ee; cbn in E.
    - destruct (bump (e_version e)) as [v|] eqn:Ev; [|done].
      pose proof (ci_contexts st Hi id e Ee) as [Eid _]. rewrite Eid in E. injection E as <- <-. right.
      by exists id, e, v.
    - injection E as <- <-. left. by eexists. }
  destruct (mr_operation (rd_request d)) eqn:Eop; cbn [is_allocation];
    [apply Hnew in E | apply Hupd in E; [|done] | apply Hnew in E | apply Hupd in E; [|done] | done];
    destruct E as [?|E]; [by left | | by left | | by left | | by left |]; right;
    first [ destruct E as (id & -> & -> & Hid); exists id, (new_entry id d expiry msg); by split
          | destruct E as (id & e & v & Hid & He & Hv & -> & ->); exists id, (updated_entry e v d expiry msg);
            repeat split; by exists e, v ].
Qed.

Lemma commit_cases now factory h msg st out st' : ctx_inv st ->
  commit opts now factory h msg st = Some (out, st') ->
  (exists e, out = Err e /\ st' = st) \/
  exists d rc, out = Ok rc /\ reservations st !! h_reservation_id h = Some d /\
    committed now msg (h_reservation_id h) d rc st st'.
Proof.
  intros Hi E. unfold commit in E.
  apply call_bind_inv in E as [(e & E & _)|(s & s2 & E1 & E)]; [by apply call_get_inv in E as [? _] |].
  apply call_get_inv in E1 as [[= ->] ->].
  apply call_bind_inv in E as [(e & E & ->)|(d & s2 & E1 & E)].
  { apply call_result_inv in E as [_ ->]. left. by exists e. }
  apply call_result_inv in E1 as [Hd ->]. apply require_reservation_inv in Hd as [Hd Erid].
  apply call_bind_inv in E as [(e & E & _)|(expiry & s2 & E1 & E)].
  { by apply call_panic_inv in E as (? & _ & ? & _). }
  apply call_panic_inv in E1 as (ex & _ & [= ->] & ->).
  apply call_bind_inv in E as [(e & E & ->)|([id v] & s2 & E1 & E)].
  { apply commit_context_cases in E as [(? & [= <-] & ->)|(? & ? & ? & _)]; [left; by eexists | done | done]. }
  apply commit_context_cases in E1 as [(? & ? & _)|(id' & e' & [= <- ->] & -> & Hcase)]; [done | | done].
  cbv zeta in E. apply call_bind_inv in E as [(e & E & _)|(until & s2 & E1 & E)].
  { by apply call_panic_inv in E as (? & _ & ? & _). }
  apply call_panic_inv in E1 as (u & Hu & [= ->] & ->).
  injection E as <- <-. right. exists d. eexists. split; [reflexivity |]. split; [done |].
  exists e', u, ex. cbn. split; [done |]. split; [unfold conclude; cbn; by rewrite Erid |].
  split; [done |]. split; [done |]. exact Hcase.
Qed.

Lemma committed_inv now msg r d rc st st' : ctx_inv st -> reservations st !! r = Some d ->
  committed now msg r d rc st st' -> ctx_inv st'.
Proof.
  intros Hi Hr (e' & until & expiry & _ & -> & _ & _ & Hcase). apply conclude_inv; [done | done | | |].
  - intros id x [[<- <-]|[Hne Hx]]%lookup_insert_Some.
    + destruct (is_allocation _) eqn:Eop.
      * destruct Hcase as [_ ->]. cbn. repeat split; try done. by left.
      * destruct Hcase as (e & v & _ & He & _ & ->). cbn. apply (ci_contexts st Hi) in He as [He _].
        repeat split; try done. by left.
    + split; [by apply (ci_contexts st Hi) |]. split; [|by intros].
      intros Hrx. destruct (ci_holder st Hi id x r Hx Hrx) as (d0 & Hd0 & Hop & Hid).
      assert (d0 = d) as -> by congruence. rewrite Hop in Hcase.
      destruct Hcase as (e & v & Hid' & _). congruence.
  - intros id e r2 He Hre Hne. rewrite lookup_insert_ne; [done |]. intros <-.
    destruct (is_allocation _) eqn:Eop; [destruct Hcase; congruence |].
    destruct Hcase as (e0 & v & Hid' & He0 & _).
    destruct (ci_held st Hi r d Hr Eop) as (id1 & e1 & Hid1 & He1 & Hre1 & _). congruence.
  - intros owner. destruct (is_allocation _) eqn:Eop.
    + destruct Hcase as [Hnone ->]. rewrite count_insert_new by done.
      unfold live_contexts, allocates, is_live. cbn. rewrite Eop, andb_true_r.
      destruct (bool_decide_reflect (mr_owner (rd_request d) = owner)); cbn; lia.
    + destruct Hcase as (e & v & Hid & He & _ & ->).
      destruct (ci_held st Hi r d Hr Eop) as (id1 & e1 & Hid1 & He1 & _ & Hs & _).
      assert (e1 = e) as -> by congruence.
      assert ((count_where (is_live owner) (<[rc_context_id rc:=updated_entry e v d expiry msg]> (contexts st))
        <= live_contexts st owner)%nat); [|lia].
      apply count_le. intros k x [[<- <-]|[_ Hx]]%lookup_insert_Some Hl; [|by exists x].
      exists e. split; [done |]. unfold is_live in *. cbn in Hl. rewrite Hs. by rewrite andb_true_r in *.
Qed.

(** Aborting changes nothing but the reservation mark of the context it holds. *)
Lemma cleared_lookup (r : string) d st (id : string) (e' : ContextEntry) : ctx_inv st -> reservations st !! r = Some d ->
  contexts (clear_reservation d st) !! id = Some e' ->
  exists e, contexts st !! id = Some e /\
    ((e_reservation_id e <> Some r /\ e' = e) \/ (e_reservation_id e = Some r /\ e' = set_reservation None e)).
Proof.
  intros Hi Hr. destruct (ci_reserved st Hi r d Hr) as (Erid & _). unfold clear_reservation.
  assert (Hother : forall e, contexts st !! id = Some e -> mr_context_id (rd_request d) <> Some id ->
    e_reservation_id e <> Some r).
  { intros e He Hne Hre. destruct (ci_holder st Hi id e r He Hre) as (d0 & Hd0 & _ & Hid). congruence. }
  destruct (mr_context_id (rd_request d)) as [cid|]; cbn.
  - destruct (decide (id = cid)) as [->|].
    + rewrite lookup_alter_eq. intros (e & He & ->)%fmap_Some. exists e. split; [done |].
      rewrite Erid. destruct (bool_decide_reflect (e_reservation_id e = Some r)); [by right | by left].
    + rewrite lookup_alter_ne by done. intros He. exists e'. split; [done |]. left.
      split; [|done]. apply Hother; [done | congruence].
  - intros He. exists e'. split; [done |]. left. split; [|done]. by apply Hother.
Qed.

Lemma cleared_other r d st id e r2 : ctx_inv st -> reservations st !! r = Some d ->
  contexts st !! id = Some e -> e_reservation_id e = Some r2 -> r2 <> r ->
  contexts (clear_reservation d st) !! id = Some e.
Proof.
  intros Hi Hr He Hre Hne. destruct (ci_reserved st Hi r d Hr) as (Erid & _). unfold clear_reservation.
  destruct (mr_context_id (rd_request d)) as [cid|]; [cbn | done].
  destruct (decide (id = cid)) as [->|]; [|by rewrite lookup_alter_ne].
  rewrite lookup_alter_eq, He. cbn. rewrite bool_decide_false by congruence. done.
Qed.

Lemma abort_cases now h code st out st' : abort opts now h code st = Some (out, st') ->
  (exists e, out = Err e /\ st' = st) \/
  exists d n until, out = Ok tt /\ reservations st !! h_reservation_id h = Some d /\
    sweep_locked opts now (mkStoreState (contexts (clear_reservation d st))
      (<[outcome_key d := mkOutcome OFailed until (nonempty (mr_request_id (rd_request d))) code None None None]>
        (idempotency st))
      (delete (h_reservation_id h) (reservations st))) = Some (n, st').
Proof.
  intros E. unfold abort in E.
  apply call_bind_inv in E as [(e & E & _)|(s & s2 & E1 & E)]; [by apply call_get_inv in E as [? _] |].
  apply call_get_inv in E1 as [[= ->] ->].
  apply call_bind_inv in E as [(e & E & ->)|(d & s2 & E1 & E)].
  { apply call_result_inv in E as [_ ->]. left. by exists e. }
  apply call_result_inv in E1 as [Hd ->]. apply require_reservation_inv in Hd as [Hd Erid].
  apply call_bind_inv in E as [(e & E & _)|(u & s2 & E1 & E)]; [done |]. injection E1 as _ <-.
  apply call_bind_inv in E as [(e & E & _)|(until & s2 & E1 & E)].
  { by apply call_panic_inv in E as (? & _ & ? & _). }
  apply call_panic_inv in E1 as (un & _ & [= ->] & ->).
  apply call_bind_inv in E as [(e & E & _)|(u2 & s2 & E1 & E)]; [done |]. injection E1 as _ <-.
  apply call_bind_inv in E as [(e & E & _)|(n & s2 & E1 & E)].
  { by apply sweep_call_inv in E as (? & ? & _). }
  apply sweep_call_inv in E1 as (n' & _ & Esw). apply call_ret_inv in E as [-> ->].
  right. exists d, n', un. split; [done |]. split; [done |].
  rewrite <-Esw. unfold conclude. f_equal. rewrite Erid. unfold clear_reservation.
  by destruct (mr_context_id (rd_request d)).
Qed.

Lemma abort_inv now h code st out st' : ctx_inv st -> abort opts now h code st = Some (out, st') -> ctx_inv st'.
Proof.
  intros Hi E. apply abort_cases in E as [(e & _ & ->)|(d & n & until & _ & Hr & Esw)]; [done |].
  eapply sweep_inv; [exact Esw |]. apply conclude_inv; [done | done | | |].
  - intros id e' He'. destruct (cleared_lookup _ _ _ _ _ Hi Hr He') as (e & He & [[Hne ->]|[Hre ->]]).
    + split; [by apply (ci_contexts st Hi) |]. by split.
    + split; [by apply (ci_contexts st Hi id e) |]. by split.
  - intros id e r2 He Hre Hne. by eapply cleared_other.
  - intros owner. assert ((count_where (is_live owner) (contexts (clear_reservation d st))
      <= live_contexts st owner)%nat); [|lia].
    apply count_le. intros id e' He' Hl.
    destruct (cleared_lookup _ _ _ _ _ Hi Hr He') as (e & He & [[_ ->]|[_ ->]]); by exists e.
Qed.

(** *** Releasing *)

Definition released (now : Z) (owner : LlmContextOwner) (id : string) (base : Z) (idem : string)
    (rc : LlmContextReceiptDto) (st1 st' : StoreState) : Prop :=
  exists e v until retain,
    idempotency st1 !! idempotency_key owner LLM_CONTEXT_RELEASE idem = None /\
    contexts st1 !! id = Some e /\ e_owner e = owner /\ e_reservation_id e = None /\ e_version e = base /\
    e_state e <> CtxExpired /\ e_state e <> CtxReleased /\
    bump base = Some v /\ rc = mkReceipt id v Release CtxReleased None None None /\
    instant_add now (idempotency_ttl opts) = Some retain /\
    st' = mkStoreState (<[id := released_entry e v until]> (contexts st1))
      (<[idempotency_key owner LLM_CONTEXT_RELEASE idem :=
          mkOutcome Completed retain None None (Some rc) (Some id) (Some base)]> (idempotency st1))
      (reservations st1).

Lemma require_mutable_inv st owner id e : require_mutable st owner id = Ok e ->
  contexts st !! id = Some e /\ e_owner e = owner /\ e_state e <> CtxExpired /\ e_state e <> CtxReleased.
Proof.
  unfold require_mutable. intros E. apply result_bind_Ok in E as (e0 & E0 & E). apply ok_or_Ok in E0.
  apply result_bind_Ok in E as ([] & Eo & E). unfold ensure_owner in Eo.
  destruct (bool_decide_reflect (e_owner e0 = owner)); [|done].
  destruct (e_state e0) eqn:Es; simplify_eq; rewrite Es; done.
Qed.

Lemma require_version_inv e v : require_version e v = Ok tt -> e_reservation_id e = None /\ e_version e = v.
Proof. unfold require_version. case_match eqn:E; [done |]. intros _. bool_hyps. cmp_hyps. done. Qed.

Lemma release_cases now owner id base idem st out st' :
  release opts now owner id base idem st = Some (out, st') ->
  exists n st1, sweep_locked opts now st = Some (n, st1) /\
    (((exists e, out = Err e) /\ st' = st1) \/
     (exists prior, idempotency st1 !! idempotency_key owner LLM_CONTEXT_RELEASE idem = Some prior /\
        out = release_prior prior id base /\ st' = st1) \/
     (exists rc, out = Ok rc /\ released now owner id base idem rc st1 st')).
Proof.
  intros E. unfold release in E.
  apply call_bind_inv in E as [(e & E & ->)|(n & st1 & E1 & E)].
  { apply sweep_call_inv in E as (n & [=] & _). }
  apply sweep_call_inv in E1 as (n' & _ & Esw). exists n', st1. split; [done |].
  do 3 (apply call_bind_inv in E as [(e & E & ->)|([] & s2 & E1 & E)];
    [apply call_result_inv in E as [_ ->]; left; split; [by exists e | done] |];
    apply call_result_inv in E1 as [_ ->]).
  cbv zeta in E. apply call_bind_inv in E as [(e & E & _)|(s & s2 & E1 & E)]; [by apply call_get_inv in E as [? _] |].
  apply call_get_inv in E1 as [[= ->] ->].
  destruct (idempotency st1 !! idempotency_key owner LLM_CONTEXT_RELEASE idem) as [prior|] eqn:Ek.
  { apply call_result_inv in E as [<- ->]. right. left. by exists prior. }
  apply call_bind_inv in E as [(e & E & ->)|(e & s2 & E1 & E)].
  { apply call_result_inv in E as [_ ->]. left. split; [by exists e | done]. }
  apply call_result_inv in E1 as [Hm ->]. apply require_mutable_inv in Hm as (He & Ho & Hs1 & Hs2).
  apply call_bind_inv in E as [(e0 & E & ->)|([] & s2 & E1 & E)].
  { apply call_result_inv in E as [_ ->]. left. split; [by exists e0 | done]. }
  apply call_result_inv in E1 as [Hv ->]. apply require_version_inv in Hv as [Hre Hbase].
  apply call_bind_inv in E as [(e0 & E & _)|(v & s2 & E1 & E)].
  { by apply call_panic_inv in E as (? & _ & ? & _). }
  apply call_panic_inv in E1 as (v' & Hb & [= ->] & ->).
  apply call_bind_inv in E as [(e0 & E & _)|(until & s2 & E1 & E)].
  { by apply call_panic_inv in E as (? & _ & ? & _). }
  apply call_panic_inv in E1 as (un & _ & [= ->] & ->).
  apply call_bind_inv in E as [(e0 & E & _)|(u & s2 & E1 & E)]; [done |]. injection E1 as _ <-. cbv zeta in E.
  apply call_bind_inv in E as [(e0 & E & _)|(retain & s2 & E1 & E)].
  { by apply call_panic_inv in E as (? & _ & ? & _). }
  apply call_panic_inv in E1 as (re & Hret & [= ->] & ->). injection E as <- <-.
  right. right. eexists. split; [reflexivity |]. exists e, v', un, re. rewrite <-Hbase. done.
Qed.

Lemma released_inv now owner id base idem rc st st' : ctx_inv st ->
  released now owner id base idem rc st st' -> ctx_inv st'.
Proof.
  intros Hi (e & v & until & retain & Hk & He & Ho & Hre & _ & _ & _ & _ & _ & _ & ->).
  apply (inv_monotone st); try done; cbn.
  - intros k e' [[<- <-]|[_ He']]%lookup_insert_Some; cbn.
    + split; [split; [by apply (ci_contexts st Hi) in He as [He _] | by right; right] |].
      exists e. rewrite Hre. done.
    + split; [by apply (ci_contexts st Hi) |]. by exists e'.
  - intros k e' He' Hne. rewrite lookup_insert_ne; [done |]. intros <-. congruence.
  - intros k o Hk' _. rewrite lookup_insert_ne; [done |]. congruence.
Qed.

(** ** Histories *)

Inductive ctx_op : Type :=
| OReserve (now : Z) (new_id : result LlmContextStoreError string) (rq : LlmContextMutationRequest)
| OCommit (now : Z) (factory : nat -> result LlmContextStoreError string)
    (h : LlmContextMutationReservation) (msg : LlmMessageDto)
| OAbort (now : Z) (h : LlmContextMutationReservation) (code : option string)
| ORelease (now : Z) (owner : LlmContextOwner) (id : string) (base : Z) (idem : string)
| OStatus (now : Z) (owner : LlmContextOwner) (id idem : option string)
| OSnapshot (now : Z) (owner : LlmContextOwner) (id : string)
| OSweep (now : Z).

(** The state an operation leaves, whatever it answers. *)
Definition run_op (op : ctx_op) (st : StoreState) : option StoreState :=
  match op with
  | OReserve now new_id rq => snd <$> reserve opts now new_id rq st
  | OCommit now factory h msg => snd <$> commit opts now factory h msg st
  | OAbort now h code => snd <$> abort opts now h code st
  | ORelease now owner id base idem => snd <$> release opts now owner id base idem st
  | OStatus now owner id idem => snd <$> status opts now owner id idem st
  | OSnapshot now owner id => snd <$> snapshot opts now owner id st
  | OSweep now => snd <$> sweep_expired opts now st
  end.

(** A random reservation identifier does not repeat one in use. *)
Definition fresh_id (op : ctx_op) (st : StoreState) : Prop :=
  match op with OReserve _ (Ok rid) _ => reservations st !! rid = None | _ => True end.

(** The reservation an operation ends. *)
Definition ends (op : ctx_op) : option string :=
  match op with
  | OCommit _ _ h _ | OAbort _ h _ => Some (h_reservation_id h)
  | _ => None
  end.

(** A history whose operations satisfy [P]. *)
Definition history (P : ctx_op -> Prop) : StoreState -> StoreState -> Prop :=
  rtc (fun st st' => exists op, P op /\ fresh_id op st /\ run_op op st = Some st').

Definition ctx_reachable (st : StoreState) : Prop := history (fun _ => True) store_state_default st.

Lemma status_state now owner id idem st out st' : status opts now owner id idem st = Some (out, st') ->
  exists n, sweep_locked opts now st = Some (n, st').
Proof.
  unfold status, call_bind, sweep, call_get, call_result, call_fail.
  destruct (sweep_locked opts now st) as [[n st1]|]; [|done]. intros E. exists n. f_equal. f_equal.
  destruct id, idem; repeat case_match; by simplify_eq.
Qed.

Lemma snapshot_state now owner id st out st' : snapshot opts now owner id st = Some (out, st') ->
  exists n, sweep_locked opts now st = Some (n, st').
Proof.
  unfold snapshot, call_bind, sweep, call_get, call_result, call_ret.
  destruct (sweep_locked opts now st) as [[n st1]|]; [|done]. intros E. exists n. f_equal. f_equal.
  repeat case_match; by simplify_eq.
Qed.

Lemma run_op_inv op st st' : ctx_inv st -> fresh_id op st -> run_op op st = Some st' -> ctx_inv st'.
Proof.
  intros Hi Hf E. destruct op; cbn in E; apply fmap_Some in E as ([out s] & E & ->); cbn.
  - apply reserve_cases in E as (n & st1 & Esw & [(e & _ & ->)|(rid & -> & _ & Hres)]).
    + by eapply sweep_inv.
    + pose proof (sweep_inv _ _ _ _ Esw Hi) as Hi1. apply sweep_lookup in Esw as (Er & _).
      eapply reserved_inv; [exact Hi1 | | exact Hres]. rewrite Er. exact Hf.
  - apply commit_cases in E as [(e & _ & ->)|(d & rc & _ & Hr & Hc)]; [done | | done]. by eapply committed_inv.
  - eapply abort_inv; [exact Hi | exact E].
  - apply release_cases in E as (n & st1 & Esw & [[_ ->]|[(prior & _ & _ & ->)|(rc & _ & Hrel)]]);
      pose proof (sweep_inv _ _ _ _ Esw Hi) as Hi1; [done | done | by eapply released_inv].
  - apply status_state in E as (n & Esw). by eapply sweep_inv.
  - apply snapshot_state in E as (n & Esw). by eapply sweep_inv.
  - apply sweep_call_inv in E as (n & _ & Esw). by eapply sweep_inv.
Qed.

Lemma history_inv P st st' : history P st st' -> ctx_inv st -> ctx_inv st'.
Proof.
  induction 1 as [|x y z (op & _ & Hf & E) _ IH]; intros Hi; [done |]. apply IH. by eapply run_op_inv.
Qed.

Lemma reachable_inv st : ctx_reachable st -> ctx_inv st.
Proof. intros Hst. eapply history_inv; [exact Hst | apply default_inv]. Qed.

(** A reservation stays until its own commit or abort. *)
Lemma reservation_kept op st st' r d : ctx_inv st -> fresh_id op st -> run_op op st = Some st' ->
  ends op <> Some r -> reservations st !! r = Some d -> reservations st' !! r = Some d.
Proof.
  intros Hi Hf E Hne Hr.
  assert (Hsw : forall now n s, sweep_locked opts now st = Some (n, s) -> reservations s !! r = Some d)
    by (intros now n s Es; apply sweep_lookup in Es as (Er & _); by rewrite Er).
  destruct op; cbn in E; apply fmap_Some in E as ([out s] & E & ->); cbn in *.
  - apply reserve_cases in E as (n & st1 & Esw & [(e & _ & ->)|(rid & -> & _ & Hres)]); [by eapply Hsw |].
    destruct Hres as (bt & ttl & parent & pv & fp & u & _ & _ & _ & _ & _ & ->). cbn.
    rewrite lookup_insert_ne by congruence. by eapply Hsw.
  - apply commit_cases in E as [(e & _ & ->)|(d0 & rc & _ & Hr0 & Hc)]; [done | | done].
    destruct Hc as (e' & u & ex & _ & -> & _). cbn. rewrite lookup_delete_ne by congruence. done.
  - apply abort_cases in E as [(e & _ & ->)|(d0 & n & u & _ & Hr0 & Esw)]; [done |].
    apply sweep_lookup in Esw as (Er & _). rewrite Er. cbn. rewrite lookup_delete_ne by congruence. done.
  - apply release_cases in E as (n & st1 & Esw & [[_ ->]|[(prior & _ & _ & ->)|(rc & _ & Hrel)]]);
      [by eapply Hsw | by eapply Hsw |].
    destruct Hrel as (e & v & u & re & _ & _ & _ & _ & _ & _ & _ & _ & _ & _ & ->). cbn. by eapply Hsw.
  - apply status_state in E as (n & Esw). by eapply Hsw.
  - apply snapshot_state in E as (n & Esw). by eapply Hsw.
  - apply sweep_call_inv in E as (n & _ & Esw). by eapply Hsw.
Qed.

Lemma history_kept r d st st' : history (fun op => ends op <> Some r) st st' -> ctx_inv st ->
  reservations st !! r = Some d -> reservations st' !! r = Some d.
Proof.
  induction 1 as [|x y z (op & Hne & Hf & E) _ IH]; intros Hi Hr; [done |]. apply IH.
  - by eapply run_op_inv.
  - by eapply reservation_kept.
Qed.

(** ** What the store guarantees *)

(** C30: in every reachable state an owner has at most its limit of live
    contexts, those being created included; a context is marked by at most one
    pending reservation, made by its owner at its current version and
    transcript, and every pending [append] or [reset] marks one; and each
    pending request is remembered as busy under its own idempotency key. *)
Theorem contexts_exclusive st : ctx_reachable st ->
  (forall owner, Z.of_nat (live_contexts st owner + pending_allocations st owner)
     <= Z.max 0 (max_contexts_per_principal opts)) /\
  (forall id e r, contexts st !! id = Some e -> e_reservation_id e = Some r ->
     exists d, reservations st !! r = Some d /\ holds st r d id e) /\
  (forall r d, reservations st !! r = Some d -> is_allocation (mr_operation (rd_request d)) = false ->
     exists id e, holds st r d id e) /\
  (forall r d, reservations st !! r = Some d -> busy_key st d) /\
  (forall r1 r2 d1 d2, reservations st !! r1 = Some d1 -> reservations st !! r2 = Some d2 ->
     outcome_key d1 = outcome_key d2 -> r1 = r2).
Proof.
  intros Hst%reachable_inv. split; [apply (ci_limit st Hst) |]. split; [|split; [apply (ci_held st Hst) |]].
  - intros id e r He Hre. destruct (ci_holder st Hst id e r He Hre) as (d & Hd & Hop & Hid).
    exists d. split; [done |]. destruct (ci_held st Hst r d Hd Hop) as (id' & e' & Hh).
    pose proof Hh as (Hid' & He' & _). assert (id' = id) as -> by congruence.
    assert (e' = e) as -> by congruence. exact Hh.
  - split; [|apply (ci_keys st Hst)]. intros r d Hr. by apply (ci_reserved st Hst r d Hr).
Qed.

(** A reservation finds the entry as it was before the sweep. *)
Lemma reserve_entry now rid rq st h st1 : ctx_inv st ->
  reserve opts now (Ok rid) rq st = Some (Ok h, st1) -> mr_operation rq = Append \/ mr_operation rq = Reset ->
  h_reservation_id h = rid /\ exists id e d, mr_context_id rq = Some id /\ mr_base_version rq = Some (e_version e) /\
    contexts st !! id = Some e /\ e_owner e = mr_owner rq /\ e_reservation_id e = None /\
    reservations st1 !! rid = Some d /\ rd_request d = rq /\ rd_base_transcript d = e_transcript e.
Proof.
  intros Hi E Hop. apply reserve_cases in E as (n & s & Esw & [(e & ? & _)|(rid' & [= <-] & [= ->] & Hres)]); [done |].
  split; [done |]. destruct Hres as (bt & ttl & parent & pv & fp & u & Hv & _ & Hp & _ & _ & ->).
  assert (Hnc : mr_operation rq <> Create) by (destruct Hop; congruence).
  destruct (validate_locator rq Hv Hnc) as [[id Hid] [v Hbv]].
  destruct (reserve_plan_entry _ _ _ _ _ _ _ Hp Hnc) as (e & fp' & He & Ho & Hs1 & Hs2 & Hre & Hver & _ & _ & ->).
  rewrite Hid in He. rewrite Hbv in Hver. cbn in He, Hver.
  apply sweep_lookup in Esw as (_ & Hf & _). destruct (Hf id e He) as (e0 & He0 & [->|[_ (t & ->)]]); [|done].
  exists id, e0. eexists. rewrite Hid, Hbv, Hver. cbn. rewrite lookup_insert_eq. done.
Qed.

(** C3: no update is lost.  Between a successful [append] or [reset]
    reservation and its commit, whatever else is called, the context keeps the
    version and transcript that were reserved; the commit yields exactly the
    next version, with the request's messages and the answer appended to (or
    replacing) the transcript the client had seen, and the outcome is
    remembered under the request's idempotency key. *)
Theorem no_lost_update now rid rq st h st1 st2 now2 factory msg rc st3 : ctx_reachable st ->
  reservations st !! rid = None ->
  reserve opts now (Ok rid) rq st = Some (Ok h, st1) -> mr_operation rq = Append \/ mr_operation rq = Reset ->
  history (fun op => ends op <> Some rid) st1 st2 ->
  commit opts now2 factory h msg st2 = Some (Ok rc, st3) ->
  exists id e e2 e3 o, mr_context_id rq = Some id /\
    contexts st !! id = Some e /\ e_owner e = mr_owner rq /\ mr_base_version rq = Some (e_version e) /\
    contexts st2 !! id = Some e2 /\ e_version e2 = e_version e /\ e_transcript e2 = e_transcript e /\
    contexts st3 !! id = Some e3 /\ e_version e3 = e_version e + 1 /\ e_state e3 = CtxActive /\
    e_transcript e3 = (if bool_decide (mr_operation rq = Append) then e_transcript e else [])
                      ++ mr_messages rq ++ [msg] /\
    rc_context_id rc = id /\ rc_version rc = e_version e3 /\
    idempotency st3 !! idempotency_key (mr_owner rq) LLM_COMPLETE (mr_idempotency_key rq) = Some o /\
    oc_state o = Completed /\ oc_receipt o = Some rc.
Proof.
  intros Hst%reachable_inv Hfresh Er Hop Hh Ec.
  destruct (reserve_entry _ _ _ _ _ _ Hst Er Hop) as (Eh & id & e & d & Hid & Hbv & He & Ho & _ & Hd & Erq & Hbt).
  assert (Hi1 : ctx_inv st1) by (eapply (run_op_inv (OReserve now (Ok rid) rq)); [exact Hst | exact Hfresh | cbn; by rewrite Er]).
  pose proof (history_inv _ _ _ Hh Hi1) as Hi2. pose proof (history_kept _ _ _ _ Hh Hi1 Hd) as Hd2.
  assert (Hal : is_allocation (mr_operation (rd_request d)) = false) by (rewrite Erq; by destruct Hop as [-> | ->]).
  destruct (ci_held st2 Hi2 rid d Hd2 Hal) as (id2 & e2 & Hid2 & He2 & _ & _ & _ & Hv2 & Ht2 & _).
  rewrite Erq in Hid2, Hv2. assert (id2 = id) as -> by congruence.
  apply commit_cases in Ec as [(? & ? & _)|(d' & rc' & [= <-] & Hd' & Hc)]; [done | | done].
  rewrite Eh, Hd2 in Hd'. injection Hd' as <-.
  destruct Hc as (e3 & until & ex & _ & -> & _ & Hrv & Hcase). rewrite Hal in Hcase.
  destruct Hcase as (e2' & v & Hid3 & He2' & Hbump & ->). rewrite Erq in Hid3.
  assert (rc_context_id rc = id) as Erc by congruence. rewrite Erc in *.
  assert (e2' = e2) as -> by congruence.
  exists id, e, e2. eexists. eexists. split; [done |]. split; [done |]. split; [done |]. split; [done |].
  split; [done |]. split; [congruence |]. split; [congruence |]. split; [apply lookup_insert_eq |].
  assert (Hv : v = e_version e + 1) by (unfold bump in Hbump; case_match; [done |]; injection Hbump as <-; congruence).
  split; [done |]. split; [done |]. split.
  { cbn. rewrite Erq, Ht2, Hbt. destruct Hop as [-> | ->]; cbn; by rewrite ?app_assoc. }
  split; [done |]. split; [done |]. split.
  { cbn. unfold outcome_key. rewrite Erq. apply lookup_insert_eq. }
  done.
Qed.

(** The principal on whose behalf an operation changes contexts. *)
Definition caller (op : ctx_op) (st : StoreState) : option LlmContextOwner :=
  match op with
  | OReserve _ _ rq => Some (mr_owner rq)
  | OCommit _ _ h _ | OAbort _ h _ =>
    (fun d => mr_owner (rd_request d)) <$> (reservations st !! h_reservation_id h)
  | ORelease _ owner _ _ _ | OStatus _ owner _ _ | OSnapshot _ owner _ => Some owner
  | OSweep _ => None
  end.

(** Nothing but the clock touched the context. *)
Definition left_alone (id : string) (e : ContextEntry) (st' : StoreState) : Prop :=
  match contexts st' !! id with
  | Some e' => e' = e \/ exists u, e' = expire u e
  | None => e_state e <> CtxActive \/ e_reservation_id e = None /\ is_Some (e_expires_at e)
  end.

Lemma sweep_leaves now st n st' id e : sweep_locked opts now st = Some (n, st') ->
  contexts st !! id = Some e -> left_alone id e st'.
Proof.
  intros E He. apply sweep_lookup in E as (_ & Hf & Hb & _). unfold left_alone.
  destruct (contexts st' !! id) as [e'|] eqn:Ee.
  - destruct (Hf id e' Ee) as (e0 & He0 & Hcase). assert (e0 = e) as -> by congruence.
    destruct Hcase as [?|[_ ?]]; auto.
  - destruct (decide (e_state e = CtxActive)) as [Ha|]; [|by left]. right.
    destruct (is_due now e) eqn:Ed; [|by rewrite (Hb id e He Ha Ed) in Ee].
    unfold is_due in Ed. bool_hyps. split; [done |]. by destruct (e_expires_at e).
Qed.

(** After a sweep, what also leaves the swept entry alone leaves it alone. *)
Lemma left_alone_after now st n st1 st' id e : sweep_locked opts now st = Some (n, st1) ->
  contexts st !! id = Some e ->
  (forall e1, contexts st1 !! id = Some e1 -> contexts st' !! id = Some e1) ->
  (contexts st1 !! id = None -> contexts st' !! id = None) -> left_alone id e st'.
Proof.
  intros Esw He Hsome Hnone. pose proof (sweep_leaves _ _ _ _ _ _ Esw He) as Hl. unfold left_alone in *.
  destruct (contexts st1 !! id) as [e1|] eqn:E1.
  - by rewrite (Hsome e1 eq_refl).
  - by rewrite Hnone.
Qed.

Lemma reserve_isolated now new_id rq st out st' id e : ctx_inv st ->
  reserve opts now new_id rq st = Some (out, st') -> contexts st !! id = Some e -> mr_owner rq <> e_owner e ->
  left_alone id e st'.
Proof.
  intros Hi E He Hc.
  apply reserve_cases in E as (n & st1 & Esw & [(? & _ & ->)|(rid & -> & _ & Hres)]); [by eapply sweep_leaves |].
  destruct Hres as (bt & ttl & parent & pv & fp & u & Hv & _ & Hp & _ & _ & ->).
  assert (Hsame : forall e1, contexts st1 !! id = Some e1 -> is_allocation (mr_operation rq) = false ->
    id <> default "" (mr_context_id rq)).
  { intros e1 He1 Hal ->. destruct (reserve_plan_entry _ _ _ _ _ _ _ Hp) as (e2 & ? & He2 & Ho & Hs1 & _);
      [by destruct (mr_operation rq) |]. assert (e2 = e1) as -> by congruence.
    apply sweep_lookup in Esw as (_ & Hl & _). destruct (Hl _ e1 He1) as (e0 & He0 & [->|[_ (t & ->)]]);
      [congruence | done]. }
  apply (left_alone_after now st n st1); [done | done | |]; cbn.
  - intros e1 He1. destruct (is_allocation _) eqn:Hal; [done |].
    rewrite lookup_alter_ne; [done |]. intros Hx. by apply (Hsame e1 He1).
  - intros Hnone. destruct (is_allocation _) eqn:Hal; [done |].
    destruct (decide (id = default "" (mr_context_id rq))) as [->|Hne].
    + by rewrite lookup_alter_eq, Hnone.
    + by rewrite lookup_alter_ne by congruence.
Qed.

Lemma held_owner st r d id e : ctx_inv st -> reservations st !! r = Some d ->
  is_allocation (mr_operation (rd_request d)) = false -> mr_context_id (rd_request d) = Some id ->
  contexts st !! id = Some e -> mr_owner (rd_request d) = e_owner e.
Proof.
  intros Hi Hr Hal Hid He. destruct (ci_held st Hi r d Hr Hal) as (id' & e1 & Hid' & He1 & _ & _ & Ho & _). congruence.
Qed.

Lemma commit_isolated now factory h msg st out st' id e : ctx_inv st ->
  commit opts now factory h msg st = Some (out, st') -> contexts st !! id = Some e ->
  (mr_owner ∘ rd_request) <$> (reservations st !! h_reservation_id h) <> Some (e_owner e) ->
  left_alone id e st'.
Proof.
  intros Hi E He Hc. apply commit_cases in E as [(? & _ & ->)|(d & rc & _ & Hr & Hcm)]; [| | done].
  - unfold left_alone. rewrite He. by left.
  - destruct Hcm as (e' & u & ex & _ & -> & _ & _ & Hcase). unfold left_alone. cbn.
    rewrite lookup_insert_ne; [rewrite He; by left |]. intros Hx. rewrite Hx in *. rewrite Hr in Hc. cbn in Hc.
    destruct (is_allocation _) eqn:Hal; [destruct Hcase; congruence |].
    destruct Hcase as (e0 & v & Hid & He0 & _). apply Hc. f_equal. by eapply held_owner.
Qed.

Lemma abort_isolated now h code st out st' id e : ctx_inv st ->
  abort opts now h code st = Some (out, st') -> contexts st !! id = Some e ->
  (mr_owner ∘ rd_request) <$> (reservations st !! h_reservation_id h) <> Some (e_owner e) ->
  left_alone id e st'.
Proof.
  intros Hi E He Hc. apply abort_cases in E as [(? & _ & ->)|(d & n & u & _ & Hr & Esw)].
  { unfold left_alone. rewrite He. by left. }
  eapply sweep_leaves; [exact Esw |]. cbn. rewrite Hr in Hc. cbn in Hc.
  destruct (e_reservation_id e) as [r|] eqn:Ere.
  - apply (cleared_other (h_reservation_id h) d st id e r); try done. intros ->.
    destruct (ci_holder st Hi id e _ He Ere) as (d0 & Hd0 & Hal & Hid).
    assert (d0 = d) as -> by congruence. apply Hc. f_equal. by eapply held_owner.
  - unfold clear_reservation. destruct (mr_context_id (rd_request d)) as [cid|]; [cbn | done].
    destruct (decide (id = cid)) as [->|]; [|by rewrite lookup_alter_ne].
    rewrite lookup_alter_eq, He. cbn. rewrite Ere, bool_decide_false by done. done.
Qed.

Lemma release_isolated now owner cid base idem st out st' id e :
  release opts now owner cid base idem st = Some (out, st') -> contexts st !! id = Some e -> owner <> e_owner e ->
  left_alone id e st'.
Proof.
  intros E He Hc. apply release_cases in E as (n & st1 & Esw & [[_ ->]|[(prior & _ & _ & ->)|(rc & _ & Hrel)]]);
    [by eapply sweep_leaves | by eapply sweep_leaves |].
  destruct Hrel as (e0 & v & u & re & _ & He0 & Ho & _ & _ & Hs & _ & _ & _ & _ & ->).
  apply (left_alone_after now st n st1); [done | done | |]; cbn.
  - intros e1 He1. rewrite lookup_insert_ne; [done |]. intros ->.
    apply sweep_lookup in Esw as (_ & Hl & _). destruct (Hl _ e1 He1) as (e2 & He2 & Hx).
    assert (e2 = e) as -> by congruence. assert (e0 = e1) as -> by congruence.
    destruct Hx as [->|[_ (t & ->)]]; [congruence | done].
  - intros Hnone. rewrite lookup_insert_ne; [done |]. congruence.
Qed.

Lemma swept_owner now st n st1 id e e1 : sweep_locked opts now st = Some (n, st1) ->
  contexts st !! id = Some e -> contexts st1 !! id = Some e1 -> e_owner e1 = e_owner e.
Proof.
  intros Esw He He1. apply sweep_lookup in Esw as (_ & Hl & _).
  destruct (Hl id e1 He1) as (e0 & He0 & Hx). assert (e0 = e) as -> by congruence.
  by destruct Hx as [->|[_ (t & ->)]].
Qed.

Lemma snapshot_owner now owner id st sn st' e : snapshot opts now owner id st = Some (Ok sn, st') ->
  contexts st !! id = Some e -> owner = e_owner e.
Proof.
  intros Es He. unfold snapshot, call_bind, sweep, call_get, call_result, call_ret in Es.
  destruct (sweep_locked opts now st) as [[n st1]|] eqn:Esw; [|done].
  destruct (require_mutable st1 owner id) as [e1|] eqn:Em; [|done].
  apply require_mutable_inv in Em as (He1 & <- & _). by eapply swept_owner.
Qed.

Lemma status_owner now owner id st s st' e : status opts now owner (Some id) None st = Some (Ok s, st') ->
  contexts st !! id = Some e -> owner = e_owner e.
Proof.
  intros Es He. unfold status, call_bind, sweep, call_get, call_result in Es.
  destruct (sweep_locked opts now st) as [[n st1]|] eqn:Esw; [|done].
  injection Es as Es _. unfold status_by_context in Es.
  apply result_bind_Ok in Es as ([] & _ & Es). apply result_bind_Ok in Es as (e1 & He1%ok_or_Ok & Es).
  apply result_bind_Ok in Es as ([] & Eo & _). unfold ensure_owner in Eo.
  destruct (bool_decide_reflect (e_owner e1 = owner)) as [<-|]; [|done]. by eapply swept_owner.
Qed.

(** Owners are isolated.  An operation made on behalf of one principal
    neither changes nor removes a context of another, expiry aside; and reading
    a context, by its identifier, succeeds only for its owner. *)
Theorem contexts_isolated op st st' id e : ctx_reachable st -> fresh_id op st ->
  run_op op st = Some st' -> contexts st !! id = Some e ->
  (caller op st <> Some (e_owner e) -> left_alone id e st') /\
  (forall now owner sn st2, snapshot opts now owner id st = Some (Ok sn, st2) -> owner = e_owner e) /\
  (forall now owner s st2, status opts now owner (Some id) None st = Some (Ok s, st2) -> owner = e_owner e).
Proof.
  intros Hst%reachable_inv Hf E He. split; [|split].
  - intros Hc. destruct op; cbn in E, Hc; apply fmap_Some in E as ([out s] & E & ->); cbn.
    + eapply reserve_isolated; [done | exact E | done | congruence].
    + eapply commit_isolated; [exact Hst | exact E | exact He | exact Hc].
    + eapply abort_isolated; [exact Hst | exact E | exact He | exact Hc].
    + eapply release_isolated; [exact E | done | congruence].
    + apply status_state in E as (n & Esw). by eapply sweep_leaves.
    + apply snapshot_state in E as (n & Esw). by eapply sweep_leaves.
    + apply sweep_call_inv in E as (n & _ & Esw). by eapply sweep_leaves.
  - intros now owner sn st2 Es. by eapply snapshot_owner.
  - intros now owner s st2 Es. by eapply status_owner.
Qed.

Lemma release_checks now owner id base idem st rc st1 :
  release opts now owner id base idem st = Some (Ok rc, st1) ->
  ensure_supported opts Release = Ok tt /\ validate_context_id id = Ok tt /\ is_empty (trim idem) = false.
Proof.
  unfold release, call_bind, call_result. destruct (sweep opts now st) as [[[]]|]; [|done..].
  destruct (ensure_supported opts Release) as [[]|]; [|done]. destruct (validate_context_id id) as [[]|]; [|done].
  by destruct (is_empty (trim idem)).
Qed.

(** The outcome a successful release is remembered by. *)
Lemma release_outcome now owner id base idem st rc st1 :
  release opts now owner id base idem st = Some (Ok rc, st1) ->
  exists o, idempotency st1 !! idempotency_key owner LLM_CONTEXT_RELEASE idem = Some o /\
    oc_state o = Completed /\ oc_receipt o = Some rc /\ oc_context_id o = Some id /\ oc_base_version o = Some base.
Proof.
  intros E. apply release_cases in E as (n & s & _ & [[[? ?] _]|[(prior & Hp & E & ->)|(rc' & [= <-] & Hrel)]]); [done | |].
  - exists prior. split; [done |]. unfold release_prior in E.
    destruct (bool_decide (oc_state prior = Completed) && _ && _) eqn:Eb; [|done]. bool_hyps.
    symmetry in E. apply ok_or_Ok in E. done.
  - destruct Hrel as (e & v & u & re & _ & _ & _ & _ & _ & _ & _ & _ & _ & _ & ->).
    eexists. cbn. rewrite lookup_insert_eq. done.
Qed.

(** A release under a key with an outcome only consults the outcome. *)
Lemma release_replays now owner id base idem st n st1 o : ensure_supported opts Release = Ok tt ->
  validate_context_id id = Ok tt -> is_empty (trim idem) = false ->
  sweep_locked opts now st = Some (n, st1) ->
  idempotency st1 !! idempotency_key owner LLM_CONTEXT_RELEASE idem = Some o ->
  release opts now owner id base idem st = Some (release_prior o id base, st1).
Proof.
  intros Hs Hv Hk Esw Ho. unfold release, sweep, call_bind, call_result, call_get.
  by rewrite Esw, Hs, Hv, Hk, Ho.
Qed.

(** Releasing is idempotent.  The first release under a key moves the
    context to its final version and state, after which nobody can change it;
    repeating it while the outcome is retained gives the same receipt and
    changes nothing but what expired; and the key is refused for any other
    context or version. *)
Theorem release_idempotent now owner id base idem st rc st1 :
  release opts now owner id base idem st = Some (Ok rc, st1) ->
  (idempotency st !! idempotency_key owner LLM_CONTEXT_RELEASE idem = None ->
     exists e, contexts st1 !! id = Some e /\ e_state e = CtxReleased /\ e_version e = base + 1 /\
       rc_version rc = base + 1 /\ forall who x, require_mutable st1 who id <> Ok x) /\
  exists o, idempotency st1 !! idempotency_key owner LLM_CONTEXT_RELEASE idem = Some o /\
    forall now2 n st2, sweep_locked opts now2 st1 = Some (n, st2) -> now2 < oc_retain_until o ->
      release opts now2 owner id base idem st1 = Some (Ok rc, st2) /\
      forall id' base', (id', base') <> (id, base) -> validate_context_id id' = Ok tt ->
        exists m, release opts now2 owner id' base' idem st1
                  = Some (Err (store_error ACTION_IDEMPOTENCY_CONFLICT m None), st2).
Proof.
  intros E. destruct (release_checks _ _ _ _ _ _ _ _ E) as (Hs & Hv & Hk).
  destruct (release_outcome _ _ _ _ _ _ _ _ E) as (o & Ho & Hst & Hrc & Hcid & Hbv). split.
  - intros Hnone. apply release_cases in E as (n & s & Esw & [[[? ?] _]|[(prior & Hp & _ & _)|(rc' & [= <-] & Hrel)]]);
      [done | apply sweep_lookup in Esw as (_ & _ & _ & Hi & _); apply Hi in Hp; congruence |].
    destruct Hrel as (e & v & u & re & _ & _ & _ & _ & Hver & _ & _ & Hb & -> & _ & ->).
    exists (released_entry e v u). cbn. rewrite lookup_insert_eq. split; [done |]. split; [done |].
    assert (v = base + 1) by (unfold bump in Hb; case_match; [done | congruence]). split; [done |].
    split; [done |]. intros who x Hm. unfold require_mutable in Hm. cbn in Hm. rewrite lookup_insert_eq in Hm. cbn in Hm.
    destruct (ensure_owner _ _); done.
  - exists o. split; [done |]. intros now2 n st2 Esw Hlt.
    assert (Ho2 : idempotency st2 !! idempotency_key owner LLM_CONTEXT_RELEASE idem = Some o)
      by (apply sweep_lookup in Esw as (_ & _ & _ & _ & Hkeep); apply Hkeep; [done | by right]).
    split.
    + rewrite (release_replays _ _ _ _ _ _ _ _ _ Hs Hv Hk Esw Ho2). unfold release_prior.
      by rewrite !bool_decide_true, Hrc by done.
    + intros id' base' Hne Hv'. eexists. rewrite (release_replays _ _ _ _ _ _ _ _ _ Hs Hv' Hk Esw Ho2).
      unfold release_prior. rewrite Hcid, Hbv.
      destruct (bool_decide_reflect (Some id = Some id')) as [[= <-]|], (bool_decide_reflect (Some base = Some base'))
        as [[= <-]|]; rewrite ?andb_false_r; cbn; try reflexivity. done.
Qed.
End spec.

(** ** Witnesses *)

#[local] Instance plain_digests : Digests := {| sha256 l := l; hex_encode _ := "h"; json_to_string _ := "j" |}.
#[local] Instance plain_time : ContextTime := {| instant_add a b := Some (a + b); rfc3339 _ := Some "t" |}.
#[local] Instance plain_binding : BindingSerde := {| binding_to_vec _ := Ok [] |}.

Definition toy_opts : LlmContextStoreOptions :=
  normalized (mkStoreOptions 2 3600 3600 10 (86400 * nanos_per_sec) None).
Definition owner_a : LlmContextOwner := mkOwner "a" "s".
Definition owner_b : LlmContextOwner := mkOwner "b" "s".
Definition ctx_id : string := "aaaaaaaaaaaaaaaaaaaaaa".
Definition hello : LlmMessageDto := mkMessage "user" (Some "hello") None None None.
Definition answer : LlmMessageDto := mkMessage "assistant" (Some "hi") None None None.
Definition toy_binding : LlmContextBinding := mkBinding "m" [] [] "r".
Definition create_rq : LlmContextMutationRequest :=
  mkMutation Create owner_a None None toy_binding [hello] None "k1" "q1".
Definition append_rq : LlmContextMutationRequest :=
  mkMutation Append owner_a (Some ctx_id) (Some 1) toy_binding [hello] None "k2" "q2".
Definition handle (r : string) : LlmContextMutationReservation := mkReservation r Create "".

Definition run_all (ops : list ctx_op) (st : StoreState) : option StoreState :=
  fold_left (fun s op => s ≫= run_op toy_opts op) ops (Some st).

Definition created : StoreState :=
  default store_state_default
    (run_all [OReserve 0 (Ok "r1") create_rq; OCommit 1 (fun _ => Ok ctx_id) (handle "r1") answer] store_state_default).

Lemma created_reachable : ctx_reachable toy_opts created.
Proof.
  destruct (run_op toy_opts (OReserve 0 (Ok "r1") create_rq) store_state_default) as [s1|] eqn:E1;
    [|vm_compute in E1; discriminate].
  destruct (run_op toy_opts (OCommit 1 (fun _ => Ok ctx_id) (handle "r1") answer) s1) as [s2|] eqn:E2.
  - assert (Es : created = s2) by (unfold created, run_all; cbn [fold_left mbind option_bind]; rewrite E1; cbn [mbind option_bind]; by rewrite E2).
    rewrite Es. eapply rtc_l; [|eapply rtc_once].
    + exists (OReserve 0 (Ok "r1") create_rq). split; [done |]. split; [apply lookup_empty | exact E1].
    + exists (OCommit 1 (fun _ => Ok ctx_id) (handle "r1") answer). split; [done |]. split; [done | exact E2].
  - assert (Hx : is_Some (run_all [OReserve 0 (Ok "r1") create_rq;
      OCommit 1 (fun _ => Ok ctx_id) (handle "r1") answer] store_state_default))
      by (vm_compute; by eexists).
    destruct Hx as [x Hx]. unfold run_all in Hx. cbn [fold_left mbind option_bind] in Hx. rewrite E1 in Hx.
    cbn [mbind option_bind] in Hx. rewrite E2 in Hx. discriminate.
Qed.

Lemma contexts_exclusive_witness : Z.of_nat (live_contexts created owner_a) = 1 /\
  Z.of_nat (live_contexts created owner_a + pending_allocations created owner_a) <= 2.
Proof.
  split; [vm_compute; reflexivity |].
  apply (contexts_exclusive toy_opts created created_reachable).
Defined.

Lemma no_lost_update_witness : exists rc st3,
  commit toy_opts 3 (fun _ => Ok ctx_id) (handle "r2") answer
    (default store_state_default (run_op toy_opts (OReserve 2 (Ok "r2") append_rq) created)) = Some (Ok rc, st3) /\
  rc_version rc = 2.
Proof.
  run_call (reserve toy_opts 2 (Ok "r2") append_rq created) h s1 E1.
  assert (Es : run_op toy_opts (OReserve 2 (Ok "r2") append_rq) created = Some s1) by (cbn [run_op]; by rewrite E1).
  rewrite Es. cbn [default].
  assert (Hd : exists rc st3, commit toy_opts 3 (fun _ => Ok ctx_id) h answer s1 = Some (Ok rc, st3)).
  { assert (Hx : match reserve toy_opts 2 (Ok "r2") append_rq created with
      | Some (Ok h, s) => match commit toy_opts 3 (fun _ => Ok ctx_id) h answer s with
                          | Some (Ok _, _) => true | _ => false end
      | _ => false end = true) by (vm_compute; reflexivity).
    rewrite E1 in Hx. by apply call_done in Hx. }
  destruct Hd as (rc & st3 & E3).
  assert (Hf : reservations created !! "r2" = None) by (vm_compute; reflexivity).
  destruct (no_lost_update toy_opts 2 "r2" append_rq created h s1 s1 3 (fun _ => Ok ctx_id) answer rc st3
    created_reachable Hf E1 (or_introl eq_refl) (rtc_refl _ _) E3)
    as (id & e & e2 & e3 & o & Hid & He & _ & Hbv & _ & _ & _ & _ & Hv & _ & _ & _ & Hrv & _).
  exists rc, st3. split.
  - rewrite <-E3. unfold commit, handle. cbn [h_reservation_id].
    assert (Eh : h_reservation_id h = "r2").
    { assert (Hx : (match reserve toy_opts 2 (Ok "r2") append_rq created with
        | Some (Ok h, _) => h_reservation_id h | _ => "" end) = "r2") by (vm_compute; reflexivity).
      by rewrite E1 in Hx. }
    unfold require_reservation. cbn [h_reservation_id]. by rewrite Eh.
  - rewrite Hrv, Hv. cbn in Hbv. injection Hbv as <-. reflexivity.
Defined.

Lemma contexts_isolated_witness : exists e,
  contexts created !! ctx_id = Some e /\
  forall st', run_op toy_opts (ORelease 5 owner_b ctx_id 1 "x") created = Some st' -> left_alone ctx_id e st'.
Proof.
  destruct (contexts created !! ctx_id) as [e|] eqn:He; [|vm_compute in He; discriminate].
  exists e. split; [done |]. intros st' E.
  apply (contexts_isolated toy_opts (ORelease 5 owner_b ctx_id 1 "x") created st' ctx_id e
    created_reachable I E He).
  assert (Ho : (e_owner <$> contexts created !! ctx_id) = Some owner_a) by (vm_compute; reflexivity).
  rewrite He in Ho. injection Ho as ->. discriminate.
Defined.

Lemma release_idempotent_witness : exists rc st1,
  release toy_opts 5 owner_a ctx_id 1 "x" created = Some (Ok rc, st1) /\ rc_version rc = 2.
Proof.
  run_call (release toy_opts 5 owner_a ctx_id 1 "x" created) rc st1 E. exists rc, st1. split; [done |].
  destruct (release_idempotent toy_opts 5 owner_a ctx_id 1 "x" created rc st1 E) as [Hfirst _].
  destruct Hfirst as (e & _ & _ & _ & Hv & _); [vm_compute; reflexivity | exact Hv].
Defined.

(** The outcome of a commit outlives a context whose tombstone is shorter than
    the outcome's retention: its key then still reports the context active,
    while the context itself is not found. *)
Lemma removed_context_reported_active :
  match run_all [ORelease 5 owner_a ctx_id 1 "x"; OSweep (100 * nanos_per_sec)] created with
  | Some st =>
    (match status toy_opts (101 * nanos_per_sec) owner_a None (Some "k1") st with
     | Some (Ok s, _) => bool_decide (ls_state s = CtxActive) | _ => false end) &&
    (match status toy_opts (101 * nanos_per_sec) owner_a (Some ctx_id) None st with
     | Some (Err e, _) => String.eqb (se_error_code e) LLM_CONTEXT_NOT_FOUND | _ => false end)
  | None => false
  end = true.
Proof. vm_compute. reflexivity. Qed.
