(* ===== verification/NwpMemory.v ===== *)
(** * NwpMemory: the Memory Node

    Models nps-nwp/src/memory_server.rs and node_http.rs: the schema, the
    bundled in-memory provider with its filter language, and the request
    handler with its limit and token budget.  The handler is stated for any
    [provider]; serde_json's parser and printer and the digest are parameters. *)

From S2P Require Import Prelude RustStr Floats Json CoreCache.
Local Open Scope Z_scope.

(** ** Requests and responses (node_http.rs) *)

Record NodeRequest : Type := mkNodeRequest {
  nr_method : string; nr_path : string; nr_headers : gmap string string; nr_body : list Z }.

Definition rq_header (r : NodeRequest) (name : string) : option string :=
  nr_headers r !! to_ascii_lowercase name.

Record NodeResponse : Type := mkNodeResponse {
  ns_status : Z; ns_headers : list (string * string); ns_body : list Z }.

Definition empty_response (status : Z) : NodeResponse := mkNodeResponse status [] [].

(** ** Schema and options *)

Record MemoryNodeField : Type := mkField {
  mf_name : string;
  mf_type : string;
  mf_description : option string;
  mf_nullable : bool;
  mf_column_name : option string
}.

Definition field_new (name type_ : string) : MemoryNodeField := mkField name type_ None true None.

Definition resolved_column_name (f : MemoryNodeField) : string := default (mf_name f) (mf_column_name f).

Record MemoryNodeSchema : Type := mkSchema {
  table_name : string; primary_key : string; ms_fields : list MemoryNodeField }.

Definition get_field (s : MemoryNodeSchema) (name : string) : option MemoryNodeField :=
  List.find (fun f => eq_ignore_ascii_case (mf_name f) name) (ms_fields s).
Definition has_field (s : MemoryNodeSchema) (name : string) : bool :=
  match get_field s name with Some _ => true | None => false end.

Record MemoryNodeOptions : Type := mkMemoryOptions {
  mo_node_id : string;
  mo_display_name : option string;
  mo_schema : MemoryNodeSchema;
  mo_default_limit : Z;
  mo_max_limit : Z;
  mo_require_auth : bool;
  mo_default_token_budget : Z;
  mo_path_prefix : string
}.

Definition memory_options_new (node_id path_prefix : string) (schema : MemoryNodeSchema) : MemoryNodeOptions :=
  mkMemoryOptions node_id None schema 20 1000 false 0 path_prefix.

Record MemoryNodeQueryResult : Type := mkQueryResult { qr_rows : list Map; qr_next_cursor : option string }.

Record ParsedQueryFrame : Type := mkParsedFrame {
  pf_anchor_ref : option string;
  pf_filter : option Value;
  pf_fields : option (list string);
  pf_limit : Z;
  pf_cursor : option string;
  pf_order : option Value
}.

Definition not_null (o : option Value) : option Value :=
  v ← o; if is_null v then None else Some v.

(** [l as u32] keeps the low 32 bits. *)
Definition parsed_from_json (body : Value) (default_limit : Z) : result string ParsedQueryFrame :=
  obj ← ok_or (as_object body) "QueryFrame must be a JSON object.";
  Ok (mkParsedFrame (map_get "anchor_ref" obj ≫= as_str)
        (not_null (map_get "filter" obj))
        (strings_of <$> (map_get "fields" obj ≫= as_array))
        (default default_limit (wrap_u32 <$> (map_get "limit" obj ≫= as_u64)))
        (map_get "cursor" obj ≫= as_str)
        (not_null (map_get "order" obj))).

Definition QUERY_FILTER_INVALID : string := "NWP-QUERY-FILTER-INVALID".
Definition QUERY_FIELD_UNKNOWN : string := "NWP-QUERY-FIELD-UNKNOWN".
Definition AUTH_NID_SCOPE_VIOLATION : string := "NWP-AUTH-NID-SCOPE-VIOLATION".

Record MemoryNodeError : Type := mkMemoryError { me_error_code : string; me_message : string }.
Definition filter_invalid (message : string) : MemoryNodeError := mkMemoryError QUERY_FILTER_INVALID message.
Definition field_unknown (message : string) : MemoryNodeError := mkMemoryError QUERY_FIELD_UNKNOWN message.

(** A provider answers a parsed frame. *)
Definition Provider : Type :=
  ParsedQueryFrame -> MemoryNodeSchema -> MemoryNodeOptions -> result MemoryNodeError MemoryNodeQueryResult.

(** ** The filter language, evaluated on a row *)

(** [partial_cmp] is [None] only on a NaN, which JSON has not. *)
Definition cmp_num (test : comparison -> bool) (a b : Value) : bool :=
  match as_f64 a, as_f64 b with
  | Some x, Some y => match SFcompare x y with Some c => test c | None => false end
  | _, _ => false
  end.

Definition is_lt (c : comparison) : bool := match c with Lt => true | _ => false end.
Definition is_le (c : comparison) : bool := match c with Gt => false | _ => true end.
Definition is_gt (c : comparison) : bool := match c with Gt => true | _ => false end.
Definition is_ge (c : comparison) : bool := match c with Lt => false | _ => true end.

(** [str::contains]. *)
Fixpoint str_contains (h n : string) : bool :=
  starts_with n h || match h with String.String _ r => str_contains r n | EmptyString => false end.

(** One operator; [None] when it is not supported. *)
Definition match_op (op : string) (actual expected : Value) : option bool :=
  if String.eqb op "$eq" then Some (value_eqb actual expected)
  else if String.eqb op "$ne" then Some (negb (value_eqb actual expected))
  else if String.eqb op "$lt" then Some (cmp_num is_lt actual expected)
  else if String.eqb op "$lte" then Some (cmp_num is_le actual expected)
  else if String.eqb op "$gt" then Some (cmp_num is_gt actual expected)
  else if String.eqb op "$gte" then Some (cmp_num is_ge actual expected)
  else if String.eqb op "$in" then
    Some (match expected with VArray a => existsb (fun v => value_eqb v actual) a | _ => false end)
  else if String.eqb op "$nin" then
    Some (match expected with VArray a => negb (existsb (fun v => value_eqb v actual) a) | _ => false end)
  else if String.eqb op "$contains" then
    Some (match actual, expected with VString h, VString n => str_contains h n | _, _ => false end)
  else None.

Fixpoint match_ops (actual : Value) (ops : Map) : result MemoryNodeError bool :=
  match ops with
  | [] => Ok true
  | (op, expected) :: rest =>
    match match_op op actual expected with
    | None => Err (filter_invalid ("unsupported filter operator '" +:+ op +:+ "'."))
    | Some false => Ok false
    | Some true => match_ops actual rest
    end
  end.

(** A bare value is an equality. *)
Definition match_field_cond (actual cond : Value) : result MemoryNodeError bool :=
  match cond with
  | VObject ops => match_ops actual ops
  | _ => Ok (value_eqb actual cond)
  end.

Definition field_of (row : Map) (field : string) : Value := default VNull (map_get field row).

Fixpoint match_filter (row : Map) (filter : Value) : result MemoryNodeError bool :=
  match filter with
  | VObject obj =>
    (fix entries (m : Map) : result MemoryNodeError bool :=
       match m with
       | [] => Ok true
       | (key, cond) :: rest =>
         let here : result MemoryNodeError bool :=
           if String.eqb key "$and" then
             match cond with
             | VArray arr =>
               (fix every (l : list Value) : result MemoryNodeError bool :=
                  match l with
                  | [] => Ok true
                  | sub :: more =>
                    match match_filter row sub with Ok true => every more | r => r end
                  end) arr
             | _ => Err (filter_invalid "$and requires an array.")
             end
           else if String.eqb key "$or" then
             match cond with
             | VArray arr =>
               (fix any (l : list Value) : result MemoryNodeError bool :=
                  match l with
                  | [] => Ok false
                  | sub :: more =>
                    match match_filter row sub with Ok false => any more | r => r end
                  end) arr
             | _ => Err (filter_invalid "$or requires an array.")
             end
           else match_field_cond (field_of row key) cond in
         match here with Ok true => entries rest | r => r end
       end) obj
  | _ => Err (filter_invalid "filter must be an object.")
  end.

(** ** The in-memory provider *)

Definition project (row : Map) (fields : option (list string)) : Map :=
  match fields with
  | None => row
  | Some fs => fold_left (fun m f => match map_get f row with Some v => map_insert f v m | None => m end) fs []
  end.

Definition keep_row (filter : option Value) (row : Map) : result MemoryNodeError bool :=
  match filter with Some f => match_filter row f | None => Ok true end.

(** The loop over the rows; [out] is what was kept so far. *)
Fixpoint scan (frame : ParsedQueryFrame) (out rows : list Map) : result MemoryNodeError (list Map) :=
  match rows with
  | [] => Ok out
  | row :: rest =>
    match keep_row (pf_filter frame) row with
    | Err e => Err e
    | Ok keep =>
      let out := if keep then out ++ [project row (pf_fields frame)] else out in
      if pf_limit frame <=? wrap_u32 (Z.of_nat (length out)) then Ok out else scan frame out rest
    end
  end.

Definition unknown_field (schema : MemoryNodeSchema) (fields : list string) : option string :=
  List.find (fun f => negb (has_field schema f)) fields.

Definition in_memory_query (rows : list Map) : Provider := fun frame schema _ =>
  match pf_fields frame ≫= unknown_field schema with
  | Some f => Err (field_unknown ("unknown field '" +:+ f +:+ "'."))
  | None => out ← scan frame [] rows; Ok (mkQueryResult out None)
  end.

(** ** The node *)

Section app.
Context {D : Digests} `{JsonParser}.

Definition to_vec (v : Value) : list Z := bytes_of (json_to_string v).

Definition error_resp (status : Z) (nps_status error_code message : string) (details : option Value)
    (extra : list (string * string)) : NodeResponse :=
  let env := map_insert "status" (VString nps_status) [] in
  let env := map_insert "error" (VString error_code) env in
  let env := map_insert "message" (VString message) env in
  let env := insert_opt "details" details env in
  mkNodeResponse status (("content-type", "application/json") :: extra) (to_vec (VObject env)).

Definition bad_request (code message : string) : NodeResponse :=
  error_resp 400 "NPS-CLIENT-BAD-REQUEST" code message None [].

Definition vbool (b : bool) : Value := VBool b.

Definition build_frame_schema (schema : MemoryNodeSchema) : Value :=
  VObject [("fields", VArray (map (fun f =>
    VObject [("name", VString (mf_name f)); ("nullable", vbool (mf_nullable f)); ("type", VString (mf_type f))])
    (ms_fields schema)))].

Definition build_manifest (opt : MemoryNodeOptions) (prefix anchor_id : string) : Value :=
  let m := map_insert "nwp" (VString "0.4") [] in
  let m := map_insert "node_id" (VString (mo_node_id opt)) m in
  let m := map_insert "node_type" (VString "memory") m in
  let m := insert_opt "display_name" (VString <$> mo_display_name opt) m in
  let m := map_insert "wire_formats" (vstrings ["ncp-capsule"; "json"]) m in
  let m := map_insert "preferred_format" (VString "json") m in
  let m := map_insert "schema_anchors" (VObject [("default", VString anchor_id)]) m in
  let m := map_insert "capabilities"
             (VObject [("query", vbool true); ("stream", vbool true); ("token_budget_hint", vbool true)]) m in
  let m := map_insert "auth"
             (VObject [("identity_type", VString (if mo_require_auth opt then "nip-cert" else "none"));
                       ("required", vbool (mo_require_auth opt))]) m in
  let m := map_insert "endpoints"
             (VObject [("query", VString (prefix +:+ "/query")); ("schema", VString (prefix +:+ "/.schema"));
                       ("stream", VString (prefix +:+ "/stream"))]) m in
  VObject m.

(** [trim_end_matches('/')]. *)
Fixpoint trim_slashes (l : list Ascii.ascii) : list Ascii.ascii :=
  match l with
  | [] => []
  | c :: r => match trim_slashes r with [] => if Ascii.eqb c "/" then [] else [c] | t => c :: t end
  end.
Definition trim_prefix (s : string) : string :=
  String.string_of_list_ascii (trim_slashes (String.list_ascii_of_string s)).

Record MemoryNodeApp : Type := mkMemoryApp {
  ma_opt : MemoryNodeOptions;
  ma_prefix : string;
  ma_provider : Provider;
  ma_nwm_json : list Z;
  ma_schema_json : list Z;
  ma_anchor_id : string
}.

Definition memory_app_new (opt : MemoryNodeOptions) (provider : Provider) : MemoryNodeApp :=
  let prefix := trim_prefix (mo_path_prefix opt) in
  let schema_json := to_vec (build_frame_schema (mo_schema opt)) in
  let anchor_id := "sha256:" +:+ hex_encode (sha256 schema_json) in
  mkMemoryApp opt prefix provider (to_vec (build_manifest opt prefix anchor_id)) schema_json anchor_id.

(** *** Token budgets *)

Definition parse_u32 (s : string) : option Z :=
  v ← parse_u64 s; if v <=? 4294967295 then Some v else None.

Definition parse_budget (req : NodeRequest) : Z := default 0 (rq_header req "X-NWP-Budget" ≫= parse_u32).

Definition effective_budget (agent_budget cgn_limit : Z) : Z :=
  if cgn_limit =? 0 then agent_budget
  else if agent_budget =? 0 then cgn_limit
  else Z.min cgn_limit agent_budget.

(** [bytes.div_ceil(4) as u32]. *)
Definition tokens_of_bytes (n : nat) : Z := wrap_u32 ((Z.of_nat n + 3) / 4).
Definition measure_rows (rows : list Map) : Z := tokens_of_bytes (length (to_vec (VArray (map VObject rows)))).
Definition measure_row (row : Map) : Z := tokens_of_bytes (length (to_vec (VObject row))).

(** The loop; a sum past 32 bits is a panic ([None]). *)
Fixpoint trim_loop (budget : Z) (out : list Map) (acc : Z) (rows : list Map) : option (list Map * Z) :=
  match rows with
  | [] => Some (out, acc)
  | row :: rest =>
    let tok := measure_row row in
    if 4294967295 <? acc + tok then None
    else if budget <? acc + tok then Some (out, acc)
    else trim_loop budget (out ++ [row]) (acc + tok) rest
  end.
Definition trim_to_budget (rows : list Map) (budget : Z) : option (list Map * Z) := trim_loop budget [] 0 rows.

(** *** Handlers *)

Definition parse_frame (app : MemoryNodeApp) (req : NodeRequest) : result NodeResponse ParsedQueryFrame :=
  match parse_json (of_bytes (nr_body req)) with
  | Err e => Err (bad_request QUERY_FILTER_INVALID e)
  | Ok body => map_err (bad_request QUERY_FILTER_INVALID) (parsed_from_json body (mo_default_limit (ma_opt app)))
  end.

Definition run_provider (app : MemoryNodeApp) (frame : ParsedQueryFrame)
    : result NodeResponse MemoryNodeQueryResult :=
  map_err (fun e => bad_request (me_error_code e) (me_message e))
    (ma_provider app frame (mo_schema (ma_opt app)) (ma_opt app)).

Definition clamp_limit (app : MemoryNodeApp) (frame : ParsedQueryFrame) : ParsedQueryFrame :=
  if mo_max_limit (ma_opt app) <? pf_limit frame
  then mkParsedFrame (pf_anchor_ref frame) (pf_filter frame) (pf_fields frame) (mo_max_limit (ma_opt app))
         (pf_cursor frame) (pf_order frame)
  else frame.

(** The rows within the budget, with their estimate. *)
Definition budgeted (app : MemoryNodeApp) (req : NodeRequest) (rows : list Map) : option (list Map * Z) :=
  let token_est := measure_rows rows in
  let budget := effective_budget (parse_budget req) (mo_default_token_budget (ma_opt app)) in
  if (0 <? budget) && (budget <? token_est) then trim_to_budget rows budget else Some (rows, token_est).

Definition capsule (app : MemoryNodeApp) (rows : list Map) (token_est : Z) (next_cursor : option string) : Value :=
  let caps := map_insert "anchor_ref" (VString (ma_anchor_id app)) [] in
  let caps := map_insert "count" (vnat (Z.of_nat (length rows))) caps in
  let caps := map_insert "data" (VArray (map VObject rows)) caps in
  let caps := insert_opt "next_cursor" (VString <$> next_cursor) caps in
  VObject (map_insert "token_est" (vnat token_est) caps).

Definition MIME_CAPSULE : string := "application/nwp-capsule".
Definition MIME_MANIFEST : string := "application/nwp-manifest+json".

Definition handle_query (app : MemoryNodeApp) (req : NodeRequest) : option NodeResponse :=
  match parse_frame app req with
  | Err resp => Some resp
  | Ok frame =>
    match run_provider app (clamp_limit app frame) with
    | Err resp => Some resp
    | Ok r =>
      '(rows, token_est) ← budgeted app req (qr_rows r);
      Some (mkNodeResponse 200
        [("content-type", MIME_CAPSULE); ("x-nwp-schema", ma_anchor_id app);
         ("x-nwp-tokens", fmt_Z token_est); ("x-nwp-node-type", "memory")]
        (to_vec (capsule app rows token_est (qr_next_cursor r))))
    end
  end.

Definition newline : string := String.String (ascii_of 10) "".

(** [stream_id] is the identifier [gen_hex] makes of the clock and a counter. *)
Definition handle_stream (app : MemoryNodeApp) (stream_id : string) (req : NodeRequest) : NodeResponse :=
  match parse_frame app req with
  | Err resp => resp
  | Ok frame =>
    match run_provider app frame with
    | Err resp => resp
    | Ok r =>
      let chunk := VObject [("anchor_ref", VString (ma_anchor_id app)); ("data", VArray (map VObject (qr_rows r)));
                            ("is_last", vbool false); ("seq", vnat 0); ("stream_id", VString stream_id)] in
      let last := VObject [("data", VArray []); ("is_last", vbool true); ("seq", vnat 1);
                           ("stream_id", VString stream_id)] in
      mkNodeResponse 200
        [("content-type", MIME_CAPSULE); ("x-nwp-schema", ma_anchor_id app); ("x-nwp-node-type", "memory")]
        (bytes_of (json_to_string chunk +:+ newline +:+ json_to_string last +:+ newline))
    end
  end.

Definition one_of (s a b : string) : bool := String.eqb s a || String.eqb s b.

(** [None] is a panic of the budget arithmetic. *)
Definition memory_handle (app : MemoryNodeApp) (stream_id : string) (req : NodeRequest) : option NodeResponse :=
  match strip_prefix (ma_prefix app) (nr_path req) with
  | None => Some (empty_response 404)
  | Some sub =>
    if mo_require_auth (ma_opt app) && negb (match rq_header req "X-NWP-Agent" with Some _ => true | None => false end)
    then Some (error_resp 401 "NPS-CLIENT-UNAUTHORIZED" AUTH_NID_SCOPE_VIOLATION
                 "X-NWP-Agent header is required." None [])
    else if one_of sub "/.nwm" "/.nwm/"
    then Some (mkNodeResponse 200 [("content-type", MIME_MANIFEST); ("x-nwp-node-type", "memory")] (ma_nwm_json app))
    else if one_of sub "/.schema" "/.schema/"
    then Some (mkNodeResponse 200 [("content-type", "application/json"); ("x-nwp-schema", ma_anchor_id app)]
                 (ma_schema_json app))
    else if one_of sub "/query" "/query/"
    then (if negb (String.eqb (nr_method req) "POST") then Some (empty_response 405) else handle_query app req)
    else if one_of sub "/stream" "/stream/"
    then Some (if negb (String.eqb (nr_method req) "POST") then empty_response 405
               else handle_stream app stream_id req)
    else Some (empty_response 404)
  end.
End app.

(** ** Theorems *)

(** What a query means: the matching rows, projected, up to the limit. *)
Definition matches (frame : ParsedQueryFrame) (row : Map) : bool :=
  match keep_row (pf_filter frame) row with Ok b => b | Err _ => false end.

Definition reference_rows (frame : ParsedQueryFrame) (rows : list Map) : list Map :=
  map (fun r => project r (pf_fields frame)) (List.filter (matches frame) rows).

Lemma scan_reference frame out rows : 1 <= pf_limit frame <= 4294967295 ->
  Z.of_nat (length out) < pf_limit frame ->
  Forall (fun r => is_ok (keep_row (pf_filter frame) r) = true) rows ->
  scan frame out rows = Ok (take (Z.to_nat (pf_limit frame)) (out ++ reference_rows frame rows)).
Proof.
  intros Hl. revert out; induction rows as [|row rest IH]; intros out Hout Hok; cbn [scan].
  - unfold reference_rows. cbn. by rewrite app_nil_r, take_ge by lia.
  - inversion Hok as [|? ? Hrow Hrest]. subst.
    unfold reference_rows. cbn [List.filter]. unfold matches at 1.
    destruct (keep_row (pf_filter frame) row) as [[]|] eqn:Ek; [| |done].
    + cbn [map]. fold (reference_rows frame rest).
      rewrite length_app, Nat2Z.inj_add. cbn [length]. unfold wrap_u32. rewrite Z.mod_small by lia.
      destruct (Z.leb_spec (pf_limit frame) (Z.of_nat (length out) + Z.of_nat 1)).
      * set (p := project row (pf_fields frame)).
        replace (out ++ p :: reference_rows frame rest) with ((out ++ [p]) ++ reference_rows frame rest)
          by (by rewrite <-app_assoc).
        rewrite take_app_le by (rewrite length_app; cbn; lia).
        by rewrite take_ge by (rewrite length_app; cbn; lia).
      * rewrite IH; [by rewrite <-app_assoc | rewrite length_app; cbn; lia | done].
    + unfold wrap_u32. rewrite Z.mod_small by lia.
      destruct (Z.leb_spec (pf_limit frame) (Z.of_nat (length out))); [lia |]. by apply IH.
Qed.

Definition readable_rows (frame : ParsedQueryFrame) (rows : list Map) : Prop :=
  Forall (fun r => is_ok (keep_row (pf_filter frame) r) = true) rows.

(** What a frame of limit [limit] finds: the rows are looked at one by one,
    until the limit is reached; a limit of zero looks at the first. *)
Definition found (frame : ParsedQueryFrame) (limit : Z) (rows out : list Map) : Prop := exists looked rest,
  rows = looked ++ rest /\ readable_rows frame looked /\ out = reference_rows frame looked /\
  if limit =? 0 then looked = take 1 rows
  else Z.of_nat (length out) <= limit /\ (rest = [] \/ Z.of_nat (length out) = limit).

(** The first row the filter fails on, with its limit not reached yet. *)
Definition filter_fails (frame : ParsedQueryFrame) (limit : Z) (rows : list Map) (e : MemoryNodeError) : Prop := exists looked row rest,
  rows = looked ++ row :: rest /\ readable_rows frame looked /\ keep_row (pf_filter frame) row = Err e /\
  if limit =? 0 then looked = [] else Z.of_nat (length (reference_rows frame looked)) < limit.

Lemma reference_snoc frame looked row keep : keep_row (pf_filter frame) row = Ok keep ->
  reference_rows frame (looked ++ [row])
  = (if keep then reference_rows frame looked ++ [project row (pf_fields frame)] else reference_rows frame looked).
Proof.
  intros E. unfold reference_rows. rewrite List.filter_app, map_app. cbn. unfold matches at 2. rewrite E.
  destruct keep; cbn; [done|by rewrite app_nil_r].
Qed.

Lemma scan_found frame looked rows : 0 <= pf_limit frame <= 4294967295 -> readable_rows frame looked ->
  (if pf_limit frame =? 0 then looked = [] else Z.of_nat (length (reference_rows frame looked)) < pf_limit frame) ->
  match scan frame (reference_rows frame looked) rows with
  | Ok out => found frame (pf_limit frame) (looked ++ rows) out
  | Err e => filter_fails frame (pf_limit frame) (looked ++ rows) e
  end.
Proof.
  intros Hl. revert looked. induction rows as [|row rest IH]; intros looked Hok Hlen; cbn [scan].
  - exists looked, []. rewrite app_nil_r. split_and!; [done..|]. case_match; [by rewrite Hlen|]. split; [lia|by left].
  - destruct (keep_row (pf_filter frame) row) as [keep|e] eqn:Ek; [|by exists looked, row, rest].
    rewrite <- (reference_snoc frame looked row keep Ek). set (out := reference_rows frame (looked ++ [row])).
    assert (Hok' : readable_rows frame (looked ++ [row])) by (apply Forall_app; split; [done|]; constructor; [by rewrite Ek|done]).
    assert (Hn : Z.of_nat (length out) <= Z.of_nat (length (reference_rows frame looked)) + 1).
    { subst out. rewrite (reference_snoc _ _ _ keep) by done. destruct keep; rewrite ?length_app; cbn; lia. }
    destruct (Z.eqb_spec (pf_limit frame) 0) as [E0|E0].
    + subst looked. change (reference_rows frame []) with (@nil Map) in Hn. cbn [length] in Hn.
      unfold wrap_u32. rewrite Z.mod_small by lia. destruct (Z.leb_spec (pf_limit frame) (Z.of_nat (length out))); [|lia].
      exists [row], rest. rewrite E0. by split_and!.
    + unfold wrap_u32. rewrite Z.mod_small by lia.
      replace (looked ++ row :: rest) with ((looked ++ [row]) ++ rest) by (by rewrite <- app_assoc).
      destruct (Z.leb_spec (pf_limit frame) (Z.of_nat (length out))).
      * exists (looked ++ [row]), rest. apply Z.eqb_neq in E0. rewrite E0. split_and!; try done; [fold out; lia|right; fold out; lia].
      * apply IH; [done|]. fold out. lia.
Qed.

(** The in-memory provider answers with the rows that match the filter, in
    order and projected to the requested fields, up to the limit; a field the
    schema does not have is refused. *)
Theorem in_memory_query_spec rows frame schema opt : 1 <= pf_limit frame <= 4294967295 ->
  Forall (fun r => is_ok (keep_row (pf_filter frame) r) = true) rows ->
  in_memory_query rows frame schema opt =
  match pf_fields frame with
  | Some fs =>
    if forallb (has_field schema) fs
    then Ok (mkQueryResult (take (Z.to_nat (pf_limit frame)) (reference_rows frame rows)) None)
    else match unknown_field schema fs with
         | Some f => Err (field_unknown ("unknown field '" +:+ f +:+ "'."))
         | None => Ok (mkQueryResult [] None)
         end
  | None => Ok (mkQueryResult (take (Z.to_nat (pf_limit frame)) (reference_rows frame rows)) None)
  end.
Proof.
  intros Hl Hok. unfold in_memory_query.
  assert (Hscan : scan frame [] rows = Ok (take (Z.to_nat (pf_limit frame)) (reference_rows frame rows)))
    by (rewrite scan_reference; [done | done | cbn; lia | done]).
  destruct (pf_fields frame) as [fs|]; cbn; [|by rewrite Hscan].
  destruct (unknown_field schema fs) as [f|] eqn:Eu.
  - assert (Hf : forallb (has_field schema) fs = false).
    { apply find_some in Eu as [Hin Hneg]. apply not_true_is_false. rewrite forallb_forall.
      intros Hall. by rewrite (Hall f Hin) in Hneg. }
    by rewrite Hf.
  - assert (Hf : forallb (has_field schema) fs = true).
    { apply forallb_forall. intros f Hin. pose proof (find_none _ _ Eu f Hin) as Hn.
      by apply negb_false_iff in Hn. }
    by rewrite Hf, Hscan.
Qed.

Section app_theorems.
Context {D : Digests} `{JsonParser}.

Definition row_tokens (rows : list Map) : Z := fold_right (fun r acc => measure_row r + acc) 0 rows.

Lemma row_tokens_app a b : row_tokens (a ++ b) = row_tokens a + row_tokens b.
Proof. induction a as [|x a IH]; [done |]. cbn. unfold row_tokens in *. lia. Qed.

Lemma measure_row_nonneg r : 0 <= measure_row r.
Proof. unfold measure_row, tokens_of_bytes, wrap_u32. apply Z.mod_pos_bound. lia. Qed.

Lemma trim_loop_spec budget out acc rows out' acc' : acc = row_tokens out -> acc <= budget ->
  trim_loop budget out acc rows = Some (out', acc') ->
  exists kept dropped, rows = kept ++ dropped /\ out' = out ++ kept /\ acc' = row_tokens out' /\ acc' <= budget /\
    match dropped with [] => True | r :: _ => budget < acc' + measure_row r end.
Proof.
  revert out acc; induction rows as [|r rows IH]; intros out acc Ha Hb; cbn [trim_loop].
  - intros [= <- <-]. exists [], []. split; [done |]. split; [by rewrite app_nil_r | done].
  - destruct (Z.ltb_spec 4294967295 (acc + measure_row r)); [done |].
    destruct (Z.ltb_spec budget (acc + measure_row r)).
    + intros [= <- <-]. exists [], (r :: rows). split; [done |]. split; [by rewrite app_nil_r | done].
    + intros E. apply IH in E as (kept & dropped & -> & -> & ? & ? & ?);
        [|rewrite row_tokens_app, Ha; cbn; lia | done].
      exists (r :: kept), dropped. rewrite <-app_assoc in *. done.
Qed.

(** The rows of an answer are a prefix of what the provider gave: all of
    them when there is no budget or they fit it, and otherwise the longest
    prefix whose rows, measured one by one, fit; the reported estimate never
    exceeds a budget in force, which is the smaller of the agent's and the
    node's. *)
Theorem budgeted_spec app req rows kept est : budgeted app req rows = Some (kept, est) ->
  exists dropped budget, rows = kept ++ dropped /\
    budget = effective_budget (parse_budget req) (mo_default_token_budget (ma_opt app)) /\
    (budget <= 0 \/ measure_rows rows <= budget -> dropped = [] /\ est = measure_rows rows) /\
    (0 < budget -> est <= budget) /\
    (0 < budget < measure_rows rows -> est = row_tokens kept /\
       match dropped with [] => True | r :: _ => budget < row_tokens kept + measure_row r end).
Proof.
  unfold budgeted. set (budget := effective_budget _ _). intros E.
  destruct ((0 <? budget) && (budget <? measure_rows rows)) eqn:Eb.
  - bool_hyps. cmp_hyps. unfold trim_to_budget in E.
    apply trim_loop_spec in E as (k & d & -> & -> & Ha & Hle & Hd); [|done | lia].
    exists d, budget. cbn in Ha |- *. split; [done |]. split; [done |]. split; [lia |]. split; [lia |].
    intros _. split; [done |]. subst est. done.
  - injection E as <- <-. exists [], budget. rewrite app_nil_r. split; [done |]. split; [done |].
    split; [done |]. apply andb_false_iff in Eb. split.
    + intros Hb. destruct Eb as [Eb|Eb]; cmp_hyps; lia.
    + intros Hb. destruct Eb as [Eb|Eb]; cmp_hyps; lia.
Qed.

(** Every error of the filter language carries the same code. *)
Lemma match_field_code actual cond e : match_field_cond actual cond = Err e -> me_error_code e = QUERY_FILTER_INVALID.
Proof.
  destruct cond as [| | | | |ops]; try done. cbn. induction ops as [|[op ex] ops IH]; [done |]. cbn [match_ops].
  destruct (match_op op actual ex) as [[]|]; [exact IH | done |]. by intros [= <-].
Qed.

Definition invalid_errors (row : Map) (f : Value) : Prop :=
  forall e, match_filter row f = Err e -> me_error_code e = QUERY_FILTER_INVALID.

Lemma match_filter_code_gen row f : invalid_errors row f /\
  match f with VArray l => Forall (invalid_errors row) l | _ => True end.
Proof.
  induction f as [| | | |l IH|obj IH] using Value_ind;
    try (split; [intros e; cbn; by intros [= <-] | done]).
  { split; [intros e; cbn; by intros [= <-] |]. eapply Forall_impl; [exact IH |]. by intros v []. }
  split; [|done]. intros e. cbn [match_filter].
  induction obj as [|[key cond] rest IHr]; [done |]. inversion IH as [|? ? [_ Hc] Hrest]. subst. cbn in Hc.
  specialize (IHr Hrest). clear IH Hrest.
  destruct (String.eqb key "$and"); [|destruct (String.eqb key "$or")].
  - destruct cond as [| | | |arr|]; try (by intros [= <-]).
    induction arr as [|sub more IHa]; [exact IHr |]. inversion Hc as [|? ? Hsub Hmore]. subst.
    destruct (match_filter row sub) as [[]|e'] eqn:Es; [by apply IHa | done |].
    intros [= ->]. by apply Hsub.
  - destruct cond as [| | | |arr|]; try (by intros [= <-]).
    induction arr as [|sub more IHa]; [done |]. inversion Hc as [|? ? Hsub Hmore]. subst.
    destruct (match_filter row sub) as [[]|e'] eqn:Es; [exact IHr | by apply IHa |].
    intros [= ->]. by apply Hsub.
  - destruct (match_field_cond (field_of row key) cond) as [[]|e'] eqn:Em; [exact IHr | done |].
    intros [= ->]. by eapply match_field_code.
Qed.

Lemma scan_code frame out rows e : scan frame out rows = Err e -> me_error_code e = QUERY_FILTER_INVALID.
Proof.
  revert out; induction rows as [|row rest IH]; intros out; cbn [scan]; [done |].
  unfold keep_row. destruct (pf_filter frame) as [f|].
  - destruct (match_filter row f) as [keep|e'] eqn:Em; [case_match; [done | apply IH] |].
    intros [= ->]. by apply (match_filter_code_gen row f).
  - case_match; [done | apply IH].
Qed.

(** What a budget leaves of the rows, and the estimate of what it leaves. *)
Definition within_budget (budget : Z) (kept dropped : list Map) (est : Z) : Prop :=
  dropped = [] /\ est = measure_rows kept /\ (budget <= 0 \/ est <= budget) \/
  0 < budget < measure_rows (kept ++ dropped) /\ est = row_tokens kept /\ est <= budget /\
    match dropped with [] => True | r :: _ => budget < est + measure_row r end.

Lemma trim_overflows budget out acc rows : acc <= budget -> trim_loop budget out acc rows = None ->
  exists r, In r rows /\ 4294967295 < budget + measure_row r.
Proof.
  revert out acc. induction rows as [|r rows IH]; intros out acc Ha; cbn [trim_loop]; [done|].
  destruct (Z.ltb_spec 4294967295 (acc + measure_row r)); [intros _; exists r; split; [by left|lia]|].
  destruct (Z.ltb_spec budget (acc + measure_row r)); [done|]. intros E. apply IH in E as (x & Hx & Hb); [|lia].
  exists x. split; [by right|done].
Qed.

Lemma budgeted_within app req rows :
  let budget := effective_budget (parse_budget req) (mo_default_token_budget (ma_opt app)) in
  match budgeted app req rows with
  | Some (kept, est) => exists dropped, rows = kept ++ dropped /\ within_budget budget kept dropped est
  | None => 0 < budget /\ exists r, In r rows /\ 4294967295 < budget + measure_row r
  end.
Proof.
  intros budget. unfold budgeted. fold budget. destruct ((0 <? budget) && (budget <? measure_rows rows)) eqn:Eb.
  - bool_hyps. cmp_hyps. unfold trim_to_budget. destruct (trim_loop budget [] 0 rows) as [[kept est]|] eqn:E.
    + apply trim_loop_spec in E as (k & d & -> & -> & Ha & Hle & Hd); [|done|lia]. exists d. split; [done|]. by right.
    + split; [done|]. eapply trim_overflows; [|exact E]. lia.
  - exists []. rewrite app_nil_r. split; [done|]. left. split_and!; [done..|].
    apply andb_false_iff in Eb as [Eb|Eb]; cmp_hyps; [by left|by right].
Qed.

Lemma parsed_limit app req f : 0 <= mo_default_limit (ma_opt app) <= 4294967295 -> parse_frame app req = Ok f ->
  0 <= pf_limit f <= 4294967295.
Proof.
  intros Hd. unfold parse_frame, parsed_from_json. destruct (parse_json _) as [body|]; [|done].
  destruct (as_object body) as [obj|]; [|done]. cbn. intros [= <-]. cbn.
  destruct (_ ≫= as_u64) as [n|]; cbn; [|done]. unfold wrap_u32. pose proof (Z.mod_pos_bound n 4294967296). lia.
Qed.

Lemma clamped app f : clamp_limit app f
  = mkParsedFrame (pf_anchor_ref f) (pf_filter f) (pf_fields f) (Z.min (pf_limit f) (mo_max_limit (ma_opt app))) (pf_cursor f) (pf_order f).
Proof.
  unfold clamp_limit. destruct (Z.ltb_spec (mo_max_limit (ma_opt app)) (pf_limit f)).
  - by rewrite Z.min_r by lia.
  - rewrite Z.min_l by lia. by destruct f.
Qed.

(** C39: the answer of [/query] over the in-memory provider, for any request
    and options whose limits are 32-bit words.  A body that is no frame and a
    filter that fails on a row looked at are answered 400 with the filter's
    error code, a field the schema has not with the field's.  Otherwise the
    limit is the frame's or the node's maximum, whichever is less, and the rows
    found are those that match, in their order, projected to the fields asked
    for, up to that limit; a limit of zero (which one of [2^32] becomes) finds
    the first row when it matches.  The rows answered are all of these with
    their measured estimate when no budget is in force or they fit it; and
    otherwise the longest prefix whose rows, measured one by one, fit the
    budget, with the sum of just these as estimate.  Only a budget and a row
    whose measures add up past 32 bits make the handler panic ([None]). *)
Theorem query_answer rows opt req :
  0 <= mo_max_limit opt <= 4294967295 -> 0 <= mo_default_limit opt <= 4294967295 ->
  let app := memory_app_new opt (in_memory_query rows) in
  let budget := effective_budget (parse_budget req) (mo_default_token_budget opt) in
  match parse_frame app req with
  | Err r => handle_query app req = Some r /\ exists m, r = bad_request QUERY_FILTER_INVALID m
  | Ok f =>
    let limit := Z.min (pf_limit f) (mo_max_limit opt) in
    match pf_fields f ≫= unknown_field (mo_schema opt) with
    | Some u => handle_query app req = Some (bad_request QUERY_FIELD_UNKNOWN ("unknown field '" +:+ u +:+ "'."))
    | None =>
      (exists e, filter_fails f limit rows e /\ handle_query app req = Some (bad_request QUERY_FILTER_INVALID (me_message e))) \/
      (exists out, found f limit rows out /\
         ((exists kept dropped est, out = kept ++ dropped /\ within_budget budget kept dropped est /\
             handle_query app req = Some (mkNodeResponse 200
               [("content-type", MIME_CAPSULE); ("x-nwp-schema", ma_anchor_id app); ("x-nwp-tokens", fmt_Z est);
                ("x-nwp-node-type", "memory")] (to_vec (capsule app kept est None)))) \/
          (0 < budget /\ (exists r, In r out /\ 4294967295 < budget + measure_row r) /\ handle_query app req = None)))
    end
  end.
Proof.
  intros Hmax Hdef app budget. unfold handle_query. destruct (parse_frame app req) as [f|r] eqn:Ep.
  2:{ split; [done|]. unfold parse_frame in Ep. destruct (parse_json _); [|injection Ep as <-; by eexists].
      destruct (parsed_from_json _ _); [done|]. injection Ep as <-. by eexists. }
  apply parsed_limit in Ep; [|done]. set (limit := Z.min (pf_limit f) (mo_max_limit opt)).
  unfold run_provider. rewrite clamped. cbn [ma_provider app memory_app_new ma_opt]. unfold in_memory_query. cbn [pf_fields].
  destruct (pf_fields f ≫= unknown_field (mo_schema opt)) as [u|]; [done|]. fold limit. set (f' := mkParsedFrame _ _ _ _ _ _).
  pose proof (scan_found f' [] rows) as S. cbn [app] in S. specialize (S ltac:(cbn; lia) ltac:(constructor)).
  change (pf_limit f') with limit in S. specialize (S ltac:(cbn; destruct (Z.eqb_spec limit 0); [done|lia])).
  change (reference_rows f' []) with (@nil Map) in S. rewrite app_nil_l in S.
  destruct (scan f' [] rows) as [out|e] eqn:Es.
  - right. exists out. split; [exact S|]. cbn [mbind result_bind map_err qr_rows qr_next_cursor].
    pose proof (budgeted_within app req out) as B. change (ma_opt app) with opt in B. fold budget in B.
    fold app. destruct (budgeted app req out) as [[kept est]|].
    + left. destruct B as (dropped & -> & B). by exists kept, dropped, est.
    + right. by destruct B as [? ?].
  - left. exists e. split; [exact S|]. apply scan_code in Es. cbn. by rewrite Es.
Qed.
End app_theorems.

(** ** Witnesses, and three limits that are not kept *)

#[local] Instance toy_digests : Digests := {| sha256 l := l; hex_encode _ := "h"; json_to_string _ := "j" |}.
#[local] Instance toy_parser : JsonParser := {| parse_json _ := Ok (VObject [("limit", vnat 5)]) |}.

Definition toy_schema : MemoryNodeSchema := mkSchema "t" "a" [field_new "a" "number"].
Definition toy_rows : list Map := [[("a", vnat 1)]; [("a", vnat 2)]; [("a", vnat 3)]].
Definition above_one (limit : Z) : ParsedQueryFrame :=
  mkParsedFrame None (Some (VObject [("a", VObject [("$gt", vnat 1)])])) (Some ["a"]) limit None None.
Definition toy_memory : MemoryNodeOptions :=
  mkMemoryOptions "n" None toy_schema 20 2 false 0 "/m".
Definition toy_request : NodeRequest := mkNodeRequest "POST" "/m/query" ∅ [].

Lemma in_memory_query_spec_witness :
  in_memory_query toy_rows (above_one 1) toy_schema toy_memory = Ok (mkQueryResult [[("a", vnat 2)]] None).
Proof.
  rewrite (in_memory_query_spec toy_rows (above_one 1) toy_schema toy_memory).
  - vm_compute. reflexivity.
  - cbn. lia.
  - repeat constructor.
Defined.

Lemma budgeted_spec_witness :
  let app := memory_app_new toy_memory (in_memory_query toy_rows) in
  budgeted app (mkNodeRequest "POST" "/m/query" {["x-nwp-budget" := "2"]} []) toy_rows = Some (toy_rows, 1) /\
  1 <= 2.
Proof.
  intros app. assert (E : budgeted app (mkNodeRequest "POST" "/m/query" {["x-nwp-budget" := "2"]} []) toy_rows
    = Some (toy_rows, 1)) by (vm_compute; reflexivity).
  split; [exact E |].
  destruct (budgeted_spec app _ _ _ _ E) as (d & b & _ & Hb & _ & Hle & _).
  assert (b = 2) as -> by (rewrite Hb; vm_compute; reflexivity). apply Hle. lia.
Defined.

Lemma query_answer_witness :
  let app := memory_app_new toy_memory (in_memory_query toy_rows) in
  exists out kept dropped est, found (mkParsedFrame None None None 5 None None) 2 toy_rows out /\ out = kept ++ dropped /\
    within_budget 0 kept dropped est /\
    ns_body <$> handle_query app toy_request = Some (to_vec (capsule app kept est None)).
Proof.
  intros app. pose proof (query_answer toy_rows toy_memory toy_request ltac:(cbn; lia) ltac:(cbn; lia)) as Q.
  assert (Ep : parse_frame app toy_request = Ok (mkParsedFrame None None None 5 None None)) by reflexivity.
  cbv zeta in Q. fold app in Q. rewrite Ep in Q.
  destruct Q as [(e & _ & E)|(out & Hf & [(kept & dropped & est & Ho & Hw & E)|(Hb & _)])].
  - exfalso. vm_compute in E. discriminate.
  - exists out, kept, dropped, est. split; [exact Hf|]. split; [exact Ho|]. split; [exact Hw|]. by rewrite E.
  - exfalso. vm_compute in Hb. discriminate.
Defined.

(** A limit of zero, which a limit of [2^32] becomes, still answers a row. *)
Lemma zero_limit_answers_a_row :
  in_memory_query toy_rows (mkParsedFrame None None None 0 None None) toy_schema toy_memory
  = Ok (mkQueryResult [[("a", vnat 1)]] None) /\
  (pf_limit <$> parsed_from_json (VObject [("limit", vnat 4294967296)]) 20) = Ok 0.
Proof. split; vm_compute; reflexivity. Qed.

(** [/stream] hands the frame to the provider with the limit unclamped: more
    rows than the node's maximum are answered. *)
Lemma stream_ignores_max_limit :
  let app := memory_app_new toy_memory (in_memory_query toy_rows) in
  (exists f, parse_frame app toy_request = Ok f /\ run_provider app f = Ok (mkQueryResult toy_rows None) /\
     handle_stream app "s" toy_request = mkNodeResponse 200
       [("content-type", MIME_CAPSULE); ("x-nwp-schema", ma_anchor_id app); ("x-nwp-node-type", "memory")]
       (bytes_of ("j" +:+ newline +:+ "j" +:+ newline))) /\
  mo_max_limit toy_memory = 2 /\ length toy_rows = 3%nat.
Proof. split; [eexists; split; [reflexivity |]; split; reflexivity | by split]. Qed.
