(* ===== verification/NwpQuery.v ===== *)
(** * NwpQuery: translating filters and frames to SQL

    Models nps-nwp/src/query.rs and the [QueryFrame] of frames.rs.  A translation threads the next parameter index and the
    parameters bound so far.  The printing of a float, the JSON printer and
    parser are parameters. *)

From S2P Require Import Prelude Calls RustStr Floats Json CoreCache NipDer NwpMemory.
Local Open Scope Z_scope.

(** ** Data *)

Inductive DatabaseDialect : Type := SqlServer | PostgreSql.

Inductive SqlValue : Type :=
| SqlNull
| SqlBool (b : bool)
| SqlInt (i : Z)
| SqlFloat (f : spec_float)
| SqlText (s : string)
| SqlList (l : list SqlValue).

Record SqlParam : Type := mkParam { p_name : string; p_value : SqlValue }.
Abbreviation SqlParams := (list SqlParam).

Definition params_add (p : SqlParams) (name : string) (v : SqlValue) : SqlParams := p ++ [mkParam name v].
Definition params_get (p : SqlParams) (name : string) : option SqlValue :=
  p_value <$> List.find (fun x => String.eqb (p_name x) name) p.

Record NwpFilterError : Type := mkFilterError { fe_message : string; fe_code : string }.
Definition filter_error (message : string) : NwpFilterError := mkFilterError message QUERY_FILTER_INVALID.
Definition unknown_field_error (name : string) : NwpFilterError :=
  mkFilterError ("Unknown field '" +:+ name +:+ "'.") QUERY_FIELD_UNKNOWN.

Record QueryFrame : Type := mkQueryFrame {
  q_anchor_ref : string;
  q_filter : option Value;
  q_order : option Value;
  q_fields : option (list string);
  q_vector_search : option Value;
  q_cursor : option string;
  q_token_budget : option Z;
  q_tokenizer : option string;
  q_request_id : option string;
  q_auto_anchor : option bool;
  q_stream : option bool;
  q_aggregate : option Value;
  q_limit : option Z;
  q_offset : option Z;
  q_depth : option Z
}.

(** Rust's printing of an [f64]. *)
Class FloatText : Type := { fmt_f64 : spec_float -> string }.

Definition dquote : string := String.String (ascii_of 34) "".

Definition quote_column (d : DatabaseDialect) (col : string) : string :=
  match d with
  | SqlServer => "[" +:+ col +:+ "]"
  | PostgreSql => dquote +:+ col +:+ dquote
  end.

(** ** The cursor codec *)

Definition B64 : list Z :=
  bytes_of "ABCDEFGHIJKLMNOPQRSTUVWXYZabcdefghijklmnopqrstuvwxyz0123456789+/".

Definition b64_char (i : Z) : Z := nth (Z.to_nat (Z.land i 63)) B64 0.

(** [chunks(3)]. *)
Fixpoint b64_encode (l : list Z) : list Z :=
  match l with
  | [] => []
  | [b0] => let n := Z.shiftl b0 16 in [b64_char (Z.shiftr n 18); b64_char (Z.shiftr n 12)]
  | [b0; b1] =>
    let n := Z.lor (Z.shiftl b0 16) (Z.shiftl b1 8) in
    [b64_char (Z.shiftr n 18); b64_char (Z.shiftr n 12); b64_char (Z.shiftr n 6)]
  | b0 :: b1 :: b2 :: r =>
    let n := Z.lor (Z.lor (Z.shiftl b0 16) (Z.shiftl b1 8)) b2 in
    [b64_char (Z.shiftr n 18); b64_char (Z.shiftr n 12); b64_char (Z.shiftr n 6); b64_char n] ++ b64_encode r
  end.

(** [replace('+', "-").replace('/', "_")], and back. *)
Definition url_byte (b : Z) : Z := if b =? 43 then 45 else if b =? 47 then 95 else b.
Definition std_byte (b : Z) : Z := if b =? 45 then 43 else if b =? 95 then 47 else b.

Definition base64url_encode (input : list Z) : list Z := map url_byte (b64_encode input).

Fixpoint index_of (c : Z) (l : list Z) : option Z :=
  match l with
  | [] => None
  | x :: r => if x =? c then Some 0 else Z.succ <$> index_of c r
  end.

(** The loop: 32-bit buffer, bits pending, output so far. *)
Fixpoint b64_loop (buf bits : Z) (out l : list Z) : option (list Z) :=
  match l with
  | [] => Some out
  | c :: r =>
    if c =? 61 then Some out
    else
      val ← index_of c B64;
      let buf := Z.lor (wrap_u32 (Z.shiftl buf 6)) val in
      let bits := bits + 6 in
      if 8 <=? bits then b64_loop buf (bits - 8) (out ++ [wrap_u8 (Z.shiftr buf (bits - 8))]) r
      else b64_loop buf bits out r
  end.

Definition base64url_decode (input : list Z) : option (list Z) := b64_loop 0 0 [] (map std_byte input).

Definition cursor_json (next_offset : Z) : string :=
  "{" +:+ dquote +:+ "o" +:+ dquote +:+ ":" +:+ fmt_Z next_offset +:+ "}".

Definition encode_cursor (next_offset : Z) : option string :=
  if next_offset <=? 0 then None
  else Some (of_bytes (base64url_encode (bytes_of (cursor_json next_offset)))).

Section query.
Context {D : Digests} `{FloatText} `{JsonParser}.
Context (schema : MemoryNodeSchema) (dialect : DatabaseDialect).
Local Open Scope call_scope.

Definition decode_cursor (cursor : option string) : Z :=
  match cursor with
  | None => 0
  | Some c =>
    if is_empty c then 0
    else match base64url_decode (bytes_of c) with
    | None => 0
    | Some bytes =>
      if negb (utf8_valid bytes) then 0
      else match parse_json (of_bytes bytes) with
      | Ok v => default 0 (vget "o" v ≫= as_i64)
      | Err _ => 0
      end
    end
  end.

(** ** The filter translator *)

Definition extract_value (v : Value) : SqlValue :=
  match v with
  | VString s => SqlText s
  | VNumber n =>
    match number_as_i64 n with
    | Some i => SqlInt i
    | None => SqlFloat (default f_zero (number_as_f64 n))
    end
  | VBool b => SqlBool b
  | VNull => SqlNull
  | other => SqlText (json_to_string other)
  end.

Definition sql_value_to_string (v : SqlValue) : string :=
  match v with
  | SqlNull | SqlList _ => ""
  | SqlBool b => if b then "true" else "false"
  | SqlInt i => fmt_Z i
  | SqlFloat f => fmt_f64 f
  | SqlText s => s
  end.

(** The translator's state: the index of the next parameter, and the list. *)
Definition TrState : Type := Z * SqlParams.
Definition Tr (A : Type) : Type := Call (E := NwpFilterError) (S := TrState) A.

Definition param_name (i : Z) : string := "p" +:+ fmt_Z i.

(** Take the next name, bind it. *)
Definition bind_value (v : SqlValue) : Tr string := fun '(i, p) =>
  Some (Ok (param_name i), (i + 1, params_add p (param_name i) v)).

Definition validate_field (name : string) : result NwpFilterError MemoryNodeField :=
  ok_or (get_field schema name) (unknown_field_error name).

(** The SQL operator, and whether the value is wrapped in wildcards. *)
Definition simple_operator (op field_name : string) : result NwpFilterError (string * bool) :=
  if String.eqb op "$eq" then Ok ("=", false)
  else if String.eqb op "$ne" then Ok ("<>", false)
  else if String.eqb op "$lt" then Ok ("<", false)
  else if String.eqb op "$lte" then Ok ("<=", false)
  else if String.eqb op "$gt" then Ok (">", false)
  else if String.eqb op "$gte" then Ok (">=", false)
  else if String.eqb op "$contains" then Ok ("LIKE", true)
  else Err (filter_error ("Unknown filter operator '" +:+ op +:+ "' on field '" +:+ field_name +:+ "'.")).

Definition wildcard (v : Value) : SqlValue := SqlText ("%" +:+ sql_value_to_string (extract_value v) +:+ "%").

Definition build_simple (col op field_name : string) (value : Value) : Tr string :=
  o <- call_result (simple_operator op field_name) ;;
  name <- bind_value (if snd o : bool then wildcard value else extract_value value) ;;
  call_ret (col +:+ " " +:+ fst o +:+ " @" +:+ name).

Definition build_in (col : string) (arr : Value) (negate : bool) : Tr string :=
  match arr with
  | VArray [] => call_ret (if negate then "1=1" else "1=0")
  | VArray items =>
    name <- bind_value (SqlList (map extract_value items)) ;;
    call_ret (col +:+ (if negate then " NOT IN @" else " IN @") +:+ name)
  | _ => call_fail (filter_error "$in/$nin requires an array value.")
  end.

Definition build_between (col : string) (arr : Value) : Tr string :=
  match arr with
  | VArray [low; high] =>
    p_low <- bind_value (extract_value low) ;;
    p_high <- bind_value (extract_value high) ;;
    call_ret (col +:+ " BETWEEN @" +:+ p_low +:+ " AND @" +:+ p_high)
  | _ => call_fail (filter_error "$between requires an array of exactly two values [low, high].")
  end.

Definition build_operator (col field_name op : string) (value : Value) : Tr string :=
  if String.eqb op "$in" then build_in col value false
  else if String.eqb op "$nin" then build_in col value true
  else if String.eqb op "$between" then build_between col value
  else build_simple col op field_name value.

Fixpoint build_operators (col field_name : string) (ops : Map) : Tr (list string) :=
  match ops with
  | [] => call_ret []
  | (op, value) :: rest =>
    part <- build_operator col field_name op value ;;
    parts <- build_operators col field_name rest ;;
    call_ret (part :: parts)
  end.

Definition build_field_condition (f : MemoryNodeField) (condition : Value) : Tr string :=
  match condition with
  | VObject obj =>
    parts <- build_operators (quote_column dialect (resolved_column_name f)) (mf_name f) obj ;;
    call_ret (match parts with [part] => part | _ => "(" +:+ join " AND " parts +:+ ")" end)
  | _ => call_fail (filter_error ("Field '" +:+ mf_name f +:+ "' condition must be an object (e.g. {"
           +:+ dquote +:+ "$eq" +:+ dquote +:+ ": value})."))
  end.

Definition logical_separator (op : string) : result NwpFilterError string :=
  if String.eqb op "$and" then Ok " AND "
  else if String.eqb op "$or" then Ok " OR "
  else Err (filter_error ("Unknown logical operator '" +:+ op +:+ "'.")).

(** Empty clauses are dropped; a single one stands alone. *)
Definition combine (sep : string) (clauses : list string) : string :=
  match List.filter (fun c => negb (is_empty c)) clauses with
  | [] => ""
  | [c] => c
  | l => "(" +:+ join sep l +:+ ")"
  end.

Fixpoint build_object (obj : Value) : Tr string :=
  match obj with
  | VObject m =>
    clauses <- (fix entries (m : Map) : Tr (list string) :=
      match m with
      | [] => call_ret []
      | (name, value) :: rest =>
        clause <- (if starts_with "$" name then
                     match value with
                     | VArray arr =>
                       separator <- call_result (logical_separator name) ;;
                       parts <- (fix elements (l : list Value) : Tr (list string) :=
                          match l with
                          | [] => call_ret []
                          | el :: more =>
                            s <- build_object el ;;
                            ps <- elements more ;;
                            call_ret (s :: ps)
                          end) arr ;;
                       call_ret (combine separator parts)
                     | _ => call_fail (filter_error ("Logical operator '" +:+ name +:+ "' requires an array value."))
                     end
                   else
                     field <- call_result (validate_field name) ;;
                     build_field_condition field value) ;;
        clauses <- entries rest ;;
        call_ret (clause :: clauses)
      end) m ;;
    call_ret (combine " AND " clauses)
  | _ => call_fail (filter_error "Filter condition must be an object.")
  end.

(** The text, with the parameters after those of [p]. *)
Definition translate (filter : option Value) (p : SqlParams) : result NwpFilterError (string * SqlParams) :=
  match filter with
  | None | Some VNull => Ok ("", p)
  | Some v =>
    match build_object v (0, p) with
    | Some (Ok s, (_, p')) => Ok (s, p')
    | Some (Err e, _) => Err e
    | None => Ok ("", p)
    end
  end.

(** ** The query builder *)

Record OrderClause : Type := mkOrder { oc_field : string; oc_dir : string }.

Definition order_clause (el : Value) : option OrderClause :=
  match el with
  | VObject obj =>
    match map_get "field" obj ≫= as_str with
    | Some field => Some (mkOrder field (default "ASC" (map_get "dir" obj ≫= as_str)))
    | None =>
      match obj with
      | (field, dir) :: _ => Some (mkOrder field (default "ASC" (as_str dir)))
      | [] => None
      end
    end
  | VArray items =>
    field ← head items ≫= as_str;
    Some (mkOrder field (default "ASC" (items !! 1%nat ≫= as_str)))
  | VString field => Some (mkOrder field "ASC")
  | _ => None
  end.

Definition order_clauses (order : option Value) : option (list OrderClause) :=
  match order with
  | Some (VArray arr) => Some (omap order_clause arr)
  | _ => None
  end.

Definition all_columns : string :=
  join ", " (map (fun f => quote_column dialect (resolved_column_name f)) (ms_fields schema)).

(** One selected column, under its NWP name when that differs. *)
Definition select_column (name : string) : string :=
  match get_field schema name with
  | Some f =>
    let col := quote_column dialect (resolved_column_name f) in
    match mf_column_name f with
    | Some _ => col +:+ " AS " +:+ quote_column dialect (mf_name f)
    | None => col
    end
  | None => ""
  end.

Definition build_select_list (fields : option (list string)) : result NwpFilterError string :=
  match fields with
  | None | Some [] => Ok all_columns
  | Some f =>
    match unknown_field schema f with
    | Some name => Err (unknown_field_error name)
    | None => Ok (join ", " (map select_column f))
    end
  end.

Definition order_part (o : OrderClause) : result NwpFilterError string :=
  f ← ok_or (get_field schema (oc_field o))
        (mkFilterError ("Unknown order field '" +:+ oc_field o +:+ "'.") QUERY_FIELD_UNKNOWN);
  Ok (quote_column dialect (resolved_column_name f) +:+ " "
        +:+ (if eq_ignore_ascii_case (oc_dir o) "DESC" then "DESC" else "ASC")).

Fixpoint order_parts (l : list OrderClause) : result NwpFilterError (list string) :=
  match l with
  | [] => Ok []
  | o :: r => p ← order_part o; ps ← order_parts r; Ok (p :: ps)
  end.

Definition build_order_by (l : list OrderClause) : result NwpFilterError string :=
  ps ← order_parts l; Ok (join ", " ps).

Definition where_text (clause : string) : string := if is_empty clause then "" else " WHERE " +:+ clause.

Definition page_limit (frame : QueryFrame) (options : MemoryNodeOptions) : Z :=
  let frame_limit := default 0 (q_limit frame) in
  Z.min (if frame_limit =? 0 then mo_default_limit options else frame_limit) (mo_max_limit options).

Definition pagination : string :=
  match dialect with
  | SqlServer => " OFFSET @_offset ROWS FETCH NEXT @_limit ROWS ONLY"
  | PostgreSql => " LIMIT @_limit OFFSET @_offset"
  end.

Definition build (frame : QueryFrame) (options : MemoryNodeOptions)
    : result NwpFilterError (string * SqlParams) :=
  let limit := page_limit frame options in
  let offset := decode_cursor (q_cursor frame) in
  select ← build_select_list (q_fields frame);
  '(clause, p) ← translate (q_filter frame) [];
  order ← match order_clauses (q_order frame) with
          | Some ((_ :: _) as clauses) => build_order_by clauses
          | _ => Ok (quote_column dialect (primary_key schema))
          end;
  Ok ("SELECT " +:+ select +:+ " FROM " +:+ quote_column dialect (table_name schema) +:+ where_text clause
        +:+ " ORDER BY " +:+ order +:+ pagination,
      params_add (params_add p "_limit" (SqlInt limit)) "_offset" (SqlInt offset)).

Definition build_count (frame : QueryFrame) : result NwpFilterError (string * SqlParams) :=
  '(clause, p) ← translate (q_filter frame) [];
  Ok ("SELECT COUNT(*) FROM " +:+ quote_column dialect (table_name schema) +:+ where_text clause, p).
End query.
