(* ===== verification/NwpQuerySpec.v ===== *)
(** * NwpQuerySpec: what the SQL translator promises

    A filter denotes a condition tree, of which the translator's text is the
    rendering and its parameters the values, in order; the text never depends
    on the values and names only the schema's columns.  A cursor decodes to
    the offset it was made from. *)

From S2P Require Import Prelude Calls RustStr Floats Json CoreCache NipDer NwpMemory NwpQuery.
Local Open Scope Z_scope.

(** ** Conditions *)

Inductive comparison : Type := IsEqual | NotEqual | Less | AtMost | Greater | AtLeast | Like.

(** The operators of the filter language that compare with one value, and what
    SQL writes for them. *)
Definition comparisons : list (string * comparison) :=
  [("$eq", IsEqual); ("$ne", NotEqual); ("$lt", Less); ("$lte", AtMost); ("$gt", Greater); ("$gte", AtLeast);
   ("$contains", Like)].
Definition symbol (c : comparison) : string :=
  match c with
  | IsEqual => "=" | NotEqual => "<>" | Less => "<" | AtMost => "<=" | Greater => ">" | AtLeast => ">=" | Like => "LIKE"
  end.

Inductive cond : Type :=
| CCmp (col : string) (op : comparison) (v : SqlValue)
| CIn (col : string) (negate : bool) (l : list SqlValue)
| CBetween (col : string) (low high : SqlValue)
| CConst (b : bool)
| CField (parts : list cond)
| CGroup (disj : bool) (parts : list cond).

Section cond_ind.
Variable P : cond -> Prop.
Hypothesis Hcmp : forall col op v, P (CCmp col op v).
Hypothesis Hin : forall col negate l, P (CIn col negate l).
Hypothesis Hbetween : forall col low high, P (CBetween col low high).
Hypothesis Hconst : forall b, P (CConst b).
Hypothesis Hfield : forall l, Forall P l -> P (CField l).
Hypothesis Hgroup : forall d l, Forall P l -> P (CGroup d l).

Fixpoint cond_ind' (c : cond) : P c :=
  let all := fix all (l : list cond) : Forall P l :=
    match l with
    | [] => List.Forall_nil _
    | x :: r => List.Forall_cons _ _ _ (cond_ind' x) (all r)
    end in
  match c with
  | CCmp col op v => Hcmp col op v
  | CIn col negate l => Hin col negate l
  | CBetween col low high => Hbetween col low high
  | CConst b => Hconst b
  | CField l => Hfield l (all l)
  | CGroup d l => Hgroup d l (all l)
  end.
End cond_ind.

(** The values bound, from left to right. *)
Fixpoint values (c : cond) : list SqlValue :=
  match c with
  | CCmp _ _ v => [v]
  | CIn _ _ l => [SqlList l]
  | CBetween _ low high => [low; high]
  | CConst _ => []
  | CField l | CGroup _ l => concat (map values l)
  end.

(** The columns named. *)
Fixpoint columns (c : cond) : list string :=
  match c with
  | CCmp col _ _ | CIn col _ _ | CBetween col _ _ => [col]
  | CConst _ => []
  | CField l | CGroup _ l => concat (map columns l)
  end.

(** The condition with its values removed. *)
Fixpoint blank (c : cond) : cond :=
  match c with
  | CCmp col op _ => CCmp col op SqlNull
  | CIn col negate _ => CIn col negate []
  | CBetween col _ _ => CBetween col SqlNull SqlNull
  | CConst b => CConst b
  | CField l => CField (map blank l)
  | CGroup d l => CGroup d (map blank l)
  end.

(** The conditions on one field; and the members of a group, of which those
    without text say nothing. *)
Definition field_text (parts : list string) : string :=
  match parts with [part] => part | _ => "(" +:+ join " AND " parts +:+ ")" end.
Fixpoint said (parts : list string) : list string :=
  match parts with [] => [] | "" :: rest => said rest | part :: rest => part :: said rest end.
Definition group_text (disj : bool) (parts : list string) : string :=
  match said parts with
  | [] => ""
  | [part] => part
  | parts => "(" +:+ join (if disj then " OR " else " AND ") parts +:+ ")"
  end.

Definition next_index (i : Z) (c : cond) : Z := i + Z.of_nat (length (values c)).

(** The text, whose first parameter has index [i]. *)
Fixpoint render (i : Z) (c : cond) : string :=
  let all := fix all (i : Z) (l : list cond) : list string :=
    match l with [] => [] | x :: r => render i x :: all (next_index i x) r end in
  match c with
  | CCmp col op _ => col +:+ " " +:+ symbol op +:+ " @p" +:+ fmt_Z i
  | CIn col negate _ => col +:+ (if negate then " NOT IN @p" else " IN @p") +:+ fmt_Z i
  | CBetween col _ _ => col +:+ " BETWEEN @p" +:+ fmt_Z i +:+ " AND @p" +:+ fmt_Z (i + 1)
  | CConst b => if b then "1=1" else "1=0"
  | CField l => field_text (all i l)
  | CGroup d l => group_text d (all i l)
  end.

Fixpoint render_all (i : Z) (l : list cond) : list string :=
  match l with [] => [] | x :: r => render i x :: render_all (next_index i x) r end.

(** The parameters [p_i], [p_(i+1)], ... *)
Fixpoint named (i : Z) (l : list SqlValue) : SqlParams :=
  match l with [] => [] | v :: r => mkParam ("p" +:+ fmt_Z i) v :: named (i + 1) r end.

Section spec.
Context {D : Digests} `{FloatText} `{JsonParser}.
Context (schema : MemoryNodeSchema) (dialect : DatabaseDialect).

(** *** The condition a filter denotes *)

(** The SQL value of an operand: an integer that fits 64 bits with sign is one,
    any other number a float, arrays and objects their JSON text. *)
Definition operand (v : Value) : SqlValue :=
  match v with
  | VNull => SqlNull
  | VBool b => SqlBool b
  | VString s => SqlText s
  | VNumber (NegInt z) => SqlInt z
  | VNumber (PosInt z) => if decide (z <= 9223372036854775807) then SqlInt z else SqlFloat (f64_of_Z z)
  | VNumber (Float f) => SqlFloat f
  | VArray _ | VObject _ => SqlText (json_to_string v)
  end.

(** The pattern of [$contains]. *)
Definition plain_text (v : Value) : string :=
  match v with
  | VNull => ""
  | VBool b => if b then "true" else "false"
  | VString s => s
  | VNumber (NegInt z) => fmt_Z z
  | VNumber (PosInt z) => if decide (z <= 9223372036854775807) then fmt_Z z else fmt_f64 (f64_of_Z z)
  | VNumber (Float f) => fmt_f64 f
  | VArray _ | VObject _ => json_to_string v
  end.
Definition pattern (v : Value) : SqlValue := SqlText ("%" +:+ plain_text v +:+ "%").

Definition simple_cond (col field_name op : string) (value : Value) : result NwpFilterError cond :=
  match map_get op comparisons with
  | Some Like => Ok (CCmp col Like (pattern value))
  | Some c => Ok (CCmp col c (operand value))
  | None => Err (mkFilterError ("Unknown filter operator '" +:+ op +:+ "' on field '" +:+ field_name +:+ "'.")
                   "NWP-QUERY-FILTER-INVALID")
  end.

Definition in_cond (col : string) (arr : Value) (negate : bool) : result NwpFilterError cond :=
  match arr with
  | VArray [] => Ok (CConst negate)
  | VArray items => Ok (CIn col negate (map operand items))
  | _ => Err (filter_error "$in/$nin requires an array value.")
  end.

Definition between_cond (col : string) (arr : Value) : result NwpFilterError cond :=
  match arr with
  | VArray [low; high] => Ok (CBetween col (operand low) (operand high))
  | _ => Err (filter_error "$between requires an array of exactly two values [low, high].")
  end.

Definition operator_cond (col field_name op : string) (value : Value) : result NwpFilterError cond :=
  if String.eqb op "$in" then in_cond col value false
  else if String.eqb op "$nin" then in_cond col value true
  else if String.eqb op "$between" then between_cond col value
  else simple_cond col field_name op value.

Fixpoint operator_conds (col field_name : string) (ops : Map) : result NwpFilterError (list cond) :=
  match ops with
  | [] => Ok []
  | (op, value) :: rest =>
    c ← operator_cond col field_name op value; cs ← operator_conds col field_name rest; Ok (c :: cs)
  end.

(** The first field declared under a name, whatever its case, and its column as
    the database quotes it. *)
Fixpoint declared (fields : list MemoryNodeField) (name : string) : option MemoryNodeField :=
  match fields with
  | [] => None
  | f :: rest => if decide (to_ascii_lowercase (mf_name f) = to_ascii_lowercase name) then Some f else declared rest name
  end.
Definition column_of (f : MemoryNodeField) : string :=
  let col := default (mf_name f) (mf_column_name f) in
  match dialect with
  | SqlServer => "[" +:+ col +:+ "]"
  | PostgreSql => dquote +:+ col +:+ dquote
  end.

Definition field_cond (f : MemoryNodeField) (condition : Value) : result NwpFilterError cond :=
  match condition with
  | VObject obj => CField <$> operator_conds (column_of f) (mf_name f) obj
  | _ => Err (filter_error ("Field '" +:+ mf_name f +:+ "' condition must be an object (e.g. {"
           +:+ dquote +:+ "$eq" +:+ dquote +:+ ": value})."))
  end.

Definition connective (op : string) : result NwpFilterError bool :=
  if String.eqb op "$and" then Ok false
  else if String.eqb op "$or" then Ok true
  else Err (filter_error ("Unknown logical operator '" +:+ op +:+ "'.")).

Fixpoint cond_of (v : Value) : result NwpFilterError cond :=
  match v with
  | VObject m =>
    CGroup false <$> (fix entries (m : Map) : result NwpFilterError (list cond) :=
      match m with
      | [] => Ok []
      | (name, value) :: rest =>
        c ← (if starts_with "$" name then
               match value with
               | VArray arr =>
                 disj ← connective name;
                 CGroup disj <$> (fix elements (l : list Value) : result NwpFilterError (list cond) :=
                   match l with
                   | [] => Ok []
                   | el :: more => c ← cond_of el; cs ← elements more; Ok (c :: cs)
                   end) arr
               | _ => Err (filter_error ("Logical operator '" +:+ name +:+ "' requires an array value."))
               end
             else
               match declared (ms_fields schema) name with
               | Some field => field_cond field value
               | None => Err (mkFilterError ("Unknown field '" +:+ name +:+ "'.") "NWP-QUERY-FIELD-UNKNOWN")
               end);
        cs ← entries rest; Ok (c :: cs)
      end) m
  | _ => Err (filter_error "Filter condition must be an object.")
  end.

Definition condition (filter : option Value) : result NwpFilterError cond :=
  match filter with
  | None | Some VNull => Ok (CGroup false [])
  | Some v => cond_of v
  end.

(** *** The parts of the translator *)

Lemma extract_value_operand v : extract_value v = operand v.
Proof.
  destruct v as [| |[z|z|f]| | |]; try done. cbn. unfold i64_max.
  destruct (Z.leb_spec z 9223372036854775807); case_decide; (done || lia).
Qed.
Lemma wildcard_pattern v : wildcard v = pattern v.
Proof.
  unfold wildcard, pattern. do 3 f_equal. rewrite extract_value_operand. destruct v as [| |[z|z|f]| | |]; try done.
  cbn. by case_decide.
Qed.
Lemma combine_group d parts : combine (if d : bool then " OR " else " AND ") parts = group_text d parts.
Proof.
  assert (E : List.filter (fun c => negb (is_empty c)) parts = said parts)
    by (induction parts as [|[|a part] parts IH]; cbn; [done | done | by rewrite IH]).
  unfold combine, group_text. by rewrite E.
Qed.
Lemma get_field_declared name : get_field schema name = declared (ms_fields schema) name.
Proof.
  unfold get_field, eq_ignore_ascii_case. induction (ms_fields schema) as [|f fields IH]; [done |]. cbn.
  case_decide as E; [by rewrite E, String.eqb_refl |]. by rewrite (proj2 (String.eqb_neq _ _) E).
Qed.
Lemma quoted_column f : quote_column dialect (resolved_column_name f) = column_of f.
Proof. reflexivity. Qed.
(** An operator is a comparison of the table, or refused. *)
Lemma simple_operator_table op field_name :
  simple_operator op field_name = match map_get op comparisons with
    | Some c => Ok (symbol c, match c with Like => true | _ => false end)
    | None => Err (mkFilterError ("Unknown filter operator '" +:+ op +:+ "' on field '" +:+ field_name +:+ "'.")
                     "NWP-QUERY-FILTER-INVALID")
    end.
Proof.
  unfold simple_operator, comparisons. cbn [map_get].
  by repeat destruct (String.eqb op _).
Qed.

(** *** Rendering *)

Lemma named_app i a b : named i (a ++ b) = named i a ++ named (i + Z.of_nat (length a)) b.
Proof.
  revert i; induction a as [|v a IH]; intros i; cbn.
  - f_equal. lia.
  - f_equal. rewrite IH. do 2 f_equal. lia.
Qed.

(** [m] renders what [r] denotes: the same error, or the text of the condition
    with its values bound under the next names. *)
Definition renders (m : Tr string) (r : result NwpFilterError cond) : Prop := forall i p,
  match r with
  | Ok c => m (i, p) = Some (Ok (render i c), (next_index i c, p ++ named i (values c)))
  | Err e => exists s, m (i, p) = Some (Err e, s)
  end.

Definition renders_all (m : Tr (list string)) (r : result NwpFilterError (list cond)) : Prop := forall i p,
  match r with
  | Ok l => m (i, p) = Some (Ok (render_all i l), (next_index i (CField l), p ++ named i (concat (map values l))))
  | Err e => exists s, m (i, p) = Some (Err e, s)
  end.

Lemma renders_fail e : renders (call_fail e) (Err e).
Proof. intros i p. by eexists. Qed.

Lemma renders_const b : renders (call_ret (if b : bool then "1=1" else "1=0")) (Ok (CConst b)).
Proof.
  intros i p. cbn. unfold call_ret, next_index. cbn. rewrite app_nil_r. do 3 f_equal. lia.
Qed.

Lemma render_field i l : render i (CField l) = field_text (render_all i l).
Proof. reflexivity. Qed.
Lemma render_group i d l : render i (CGroup d l) = group_text d (render_all i l).
Proof. reflexivity. Qed.

(** A list of texts, assembled. *)
Lemma renders_field m r f : (forall l, f l = field_text l) -> renders_all m r ->
  renders (call_bind m (fun parts => call_ret (f parts))) (CField <$> r).
Proof.
  intros Hf Hm i p. specialize (Hm i p). destruct r as [l|e]; cbn [fmap result_fmap].
  - unfold call_bind. rewrite Hm. unfold call_ret. by rewrite Hf.
  - destruct Hm as [s Hs]. exists s. unfold call_bind. by rewrite Hs.
Qed.

Lemma renders_group m r d : renders_all m r ->
  renders (call_bind m (fun parts => call_ret (combine (if d : bool then " OR " else " AND ") parts)))
    (CGroup d <$> r).
Proof.
  intros Hm i p. specialize (Hm i p). destruct r as [l|e]; cbn [fmap result_fmap].
  - unfold call_bind. rewrite Hm, render_group, <-combine_group. reflexivity.
  - destruct Hm as [s Hs]. exists s. unfold call_bind. by rewrite Hs.
Qed.

Lemma renders_nil : renders_all (call_ret []) (Ok []).
Proof. intros i p. cbn. unfold call_ret, next_index. cbn. rewrite app_nil_r. do 3 f_equal. lia. Qed.

Lemma renders_cons m r ms rs : renders m r -> renders_all ms rs ->
  renders_all (call_bind m (fun x => call_bind ms (fun l => call_ret (x :: l))))
    (c ← r; cs ← rs; Ok (c :: cs)).
Proof.
  intros Hm Hms i p. specialize (Hm i p). destruct r as [c|e]; cbn [mbind result_bind].
  2:{ destruct Hm as [s Hs]. exists s. unfold call_bind. by rewrite Hs. }
  specialize (Hms (next_index i c) (p ++ named i (values c))).
  unfold call_bind. rewrite Hm. destruct rs as [l|e]; cbn [mbind result_bind].
  - rewrite Hms. cbn. unfold call_ret, next_index. cbn. rewrite named_app, app_assoc, length_app. do 3 f_equal. lia.
  - destruct Hms as [s Hs]. exists s. by rewrite Hs.
Qed.

(** A value computed first that may be an error. *)
Lemma renders_result {A} (r : result NwpFilterError A) m g : (forall a, r = Ok a -> renders (m a) (g a)) ->
  renders (call_bind (call_result r) m) (r ≫= g).
Proof.
  intros Hm i p. unfold call_bind, call_result. destruct r as [a|e]; cbn [mbind result_bind].
  - apply (Hm a eq_refl i p).
  - by eexists.
Qed.

Lemma build_simple_renders col op field_name value :
  renders (build_simple col op field_name value) (simple_cond col field_name op value).
Proof.
  intros i p. unfold build_simple, simple_cond. rewrite simple_operator_table.
  destruct (map_get op comparisons) as [c|]; [|by eexists].
  by destruct c; cbn; rewrite ?wildcard_pattern, ?extract_value_operand.
Qed.

Lemma build_in_renders col arr negate : renders (build_in col arr negate) (in_cond col arr negate).
Proof.
  destruct arr as [| | | |[|x l]|]; cbn; try apply renders_fail.
  - apply renders_const.
  - intros i p. cbn. unfold call_ret. rewrite extract_value_operand.
    rewrite (map_ext extract_value operand extract_value_operand). by destruct negate.
Qed.

Lemma build_between_renders col arr : renders (build_between col arr) (between_cond col arr).
Proof.
  destruct arr as [| | | |[|x [|y [|z l]]]|]; cbn; try apply renders_fail.
  intros i p. cbn. unfold call_ret, next_index, params_add. rewrite !extract_value_operand. cbn. rewrite <-app_assoc. cbn.
  do 3 f_equal. lia.
Qed.

Lemma build_operator_renders col field_name op value :
  renders (build_operator col field_name op value) (operator_cond col field_name op value).
Proof.
  unfold build_operator, operator_cond.
  repeat case_match; auto using build_in_renders, build_between_renders, build_simple_renders.
Qed.

Lemma build_operators_renders col field_name ops :
  renders_all (build_operators col field_name ops) (operator_conds col field_name ops).
Proof.
  induction ops as [|[op value] rest IH]; [apply renders_nil |].
  apply renders_cons; [apply build_operator_renders | exact IH].
Qed.

Lemma build_field_condition_renders f condition :
  renders (build_field_condition dialect f condition) (field_cond f condition).
Proof.
  destruct condition as [| | | | |obj]; cbn [build_field_condition field_cond]; try apply renders_fail.
  rewrite quoted_column. apply renders_field; [done | apply build_operators_renders].
Qed.

(** The separator of a connective. *)
Lemma renders_connective name m r : renders_all m r ->
  renders (call_bind (call_result (logical_separator name))
             (fun sep => call_bind m (fun parts => call_ret (combine sep parts))))
    (disj ← connective name; CGroup disj <$> r).
Proof.
  intros Hm. unfold logical_separator, connective.
  destruct (String.eqb name "$and"); [|destruct (String.eqb name "$or")].
  - intros i p. apply (renders_group m r false Hm i p).
  - intros i p. apply (renders_group m r true Hm i p).
  - intros i p. by eexists.
Qed.

Lemma build_object_renders_gen v : renders (build_object schema dialect v) (cond_of v) /\
  match v with VArray l => Forall (fun v => renders (build_object schema dialect v) (cond_of v)) l | _ => True end.
Proof.
  induction v as [| | | |l IH|m IH] using Value_ind; try (split; [apply renders_fail | done]).
  { split; [apply renders_fail |]. eapply Forall_impl; [exact IH |]. by intros v []. }
  split; [|done]. cbn [build_object cond_of]. apply (renders_group _ _ false).
  induction IH as [|[name value] rest [_ Hv] _ IHr]; [apply renders_nil |].
  apply (renders_cons _ _ _ _); [|exact IHr]. clear IHr. cbn in Hv.
  destruct (starts_with "$" name).
  - destruct value as [| | | |arr|]; try apply renders_fail.
    apply renders_connective. induction Hv as [|el more Hel _ IHm]; [apply renders_nil |].
    by apply (renders_cons _ _ _ _).
  - unfold validate_field. rewrite get_field_declared. destruct (declared (ms_fields schema) name) as [f|].
    + intros i p. apply (build_field_condition_renders f value i p).
    + intros i p. by eexists.
Qed.

(** *** Columns and values *)

Definition schema_column (col : string) : Prop := exists f, In f (ms_fields schema) /\ col = column_of f.

Lemma declared_In name f : declared (ms_fields schema) name = Some f -> In f (ms_fields schema).
Proof.
  induction (ms_fields schema) as [|g fields IH]; [done |]. cbn. case_decide; [intros [= ->]; by left | right; by apply IH].
Qed.

Definition cond_safe (r : result NwpFilterError cond) : Prop := forall c, r = Ok c -> Forall schema_column (columns c).
Definition conds_safe (r : result NwpFilterError (list cond)) : Prop :=
  forall l, r = Ok l -> Forall schema_column (concat (map columns l)).

Lemma conds_safe_cons r rs : cond_safe r -> conds_safe rs -> conds_safe (c ← r; cs ← rs; Ok (c :: cs)).
Proof.
  intros Hr Hrs l Hl. apply result_bind_Ok in Hl as (c & Hc & Hl). apply result_bind_Ok in Hl as (cs & Hcs & [= <-]).
  cbn. apply Forall_app. auto.
Qed.

Lemma cond_safe_wrap (k : list cond -> cond) r : (forall l, columns (k l) = concat (map columns l)) ->
  conds_safe r -> cond_safe (k <$> r).
Proof. intros Hk Hr c. destruct r as [l|]; cbn; [|done]. intros [= <-]. rewrite Hk. by apply Hr. Qed.

Lemma conds_safe_nil : conds_safe (Ok []).
Proof. intros l [= <-]. constructor. Qed.

Lemma operator_cond_safe f op value : In f (ms_fields schema) ->
  cond_safe (operator_cond (column_of f) (mf_name f) op value).
Proof.
  intros Hf c. assert (Hcol : Forall schema_column [column_of f]) by (repeat constructor; by exists f).
  unfold operator_cond, in_cond, between_cond, simple_cond.
  repeat (case_match; simplify_eq/=; try done); intros; simplify_eq/=; try done; constructor.
Qed.

Lemma field_cond_safe f condition : In f (ms_fields schema) -> cond_safe (field_cond f condition).
Proof.
  intros Hf. destruct condition as [| | | | |obj]; try done.
  apply (cond_safe_wrap CField); [done |].
  induction obj as [|[op value] rest IH]; [apply conds_safe_nil |].
  apply conds_safe_cons; [by apply operator_cond_safe | exact IH].
Qed.

Lemma cond_of_safe_gen v : cond_safe (cond_of v) /\
  match v with VArray l => Forall (fun v => cond_safe (cond_of v)) l | _ => True end.
Proof.
  induction v as [| | | |l IH|m IH] using Value_ind; try (split; done).
  { split; [done |]. eapply Forall_impl; [exact IH |]. by intros v []. }
  split; [|done]. cbn [cond_of]. apply (cond_safe_wrap (CGroup false)); [done |].
  induction IH as [|[name value] rest [_ Hv] _ IHr]; [apply conds_safe_nil |].
  apply conds_safe_cons; [|exact IHr]. clear IHr. cbn in Hv.
  destruct (starts_with "$" name).
  - destruct value as [| | | |arr|]; try done.
    intros c Hc. apply result_bind_Ok in Hc as (disj & _ & Hc). revert c Hc.
    apply (cond_safe_wrap (CGroup disj)); [done |].
    induction Hv as [|el more Hel _ IHm]; [apply conds_safe_nil |]. by apply conds_safe_cons.
  - destruct (declared (ms_fields schema) name) as [f|] eqn:Hf; [|done]. apply declared_In in Hf. by apply field_cond_safe.
Qed.
End spec.

Lemma values_blank c : length (values (blank c)) = length (values c).
Proof.
  induction c as [| | | |l IH|d l IH] using cond_ind'; try done; cbn;
    (induction IH as [|x r Hx _ IHr]; [done |]; cbn; rewrite !length_app; congruence).
Qed.

Lemma render_blank c i : render i (blank c) = render i c.
Proof.
  revert i. induction c as [| | | |l IH|d l IH] using cond_ind'; intros i; try done; cbn [blank].
  - rewrite !render_field. f_equal. revert i. induction IH as [|x r Hx _ IHr]; intros i; [done |].
    cbn [map render_all]. unfold next_index. by rewrite values_blank, Hx, IHr.
  - rewrite !render_group. f_equal. revert i. induction IH as [|x r Hx _ IHr]; intros i; [done |].
    cbn [map render_all]. unfold next_index. by rewrite values_blank, Hx, IHr.
Qed.

(** C35: a filter translates to the text of the condition it denotes (each
    operator of the language the SQL operator of [symbol], each field the quoted
    column of the first field declared under that name), with the condition's
    values bound to p0, p1, ... from left to right; an unknown operator,
    connective or field, or an operand of the wrong shape, is refused with its
    error.  The text names only columns of the schema and is the same whatever
    the values are, so no operand reaches the SQL text. *)
Theorem translate_spec {D : Digests} `{FloatText} schema dialect filter :
  match condition schema dialect filter with
  | Ok c =>
    translate schema dialect filter [] = Ok (render 0 c, named 0 (values c)) /\
    Forall (schema_column schema dialect) (columns c) /\ render 0 c = render 0 (blank c)
  | Err e => translate schema dialect filter [] = Err e
  end.
Proof.
  assert (Hempty : Ok ("", []) = Ok (render 0 (CGroup false []), named 0 (values (CGroup false []))) :> result NwpFilterError (string * SqlParams))
    by reflexivity.
  destruct filter as [v|]; [|split; [done | split; [constructor | done]]].
  destruct (decide (v = VNull)) as [->|Hv]; [split; [done | split; [constructor | done]] |].
  replace (condition schema dialect (Some v)) with (cond_of schema dialect v) by (by destruct v).
  pose proof (proj1 (build_object_renders_gen schema dialect v) 0 []) as Hr.
  pose proof (proj1 (cond_of_safe_gen schema dialect v)) as Hs.
  replace (translate schema dialect (Some v) []) with
    (match build_object schema dialect v (0, []) with
     | Some (Ok s, (_, p')) => Ok (s, p') | Some (Err e, _) => Err e | None => Ok ("", []) end)
    by (by destruct v).
  destruct (cond_of schema dialect v) as [c|e].
  - rewrite Hr. split; [done |]. split; [by apply Hs | by rewrite render_blank].
  - destruct Hr as [s ->]. done.
Qed.

(** ** Base64url *)

(** One more sextet in the 32-bit buffer. *)
Definition push (buf v : Z) : Z := 64 * (buf mod 67108864) + v.

Lemma low_bits_disjoint a v k : 0 <= k -> 0 <= v < 2 ^ k -> Z.land (Z.shiftl a k) v = 0.
Proof.
  intros Hk Hv. apply Z.bits_inj_iff'. intros n Hn. rewrite Z.bits_0, Z.land_spec, Z.shiftl_spec by lia.
  destruct (Z.ltb_spec n k); [by rewrite (Z.testbit_neg_r _ (n - k)) by lia |].
  rewrite andb_comm. destruct (decide (v = 0)) as [->|]; [by rewrite Z.bits_0 |].
  rewrite (Z.bits_above_log2 v n); [done | lia |].
  apply Z.log2_lt_pow2; [lia |]. pose proof (Z.pow_le_mono_r 2 k n). lia.
Qed.

(** [a << k | v] when [v] has only [k] bits. *)
Lemma lor_shift a v k : 0 <= k -> 0 <= v < 2 ^ k -> Z.lor (Z.shiftl a k) v = a * 2 ^ k + v.
Proof.
  intros Hk Hv. pose proof (Z.add_lor_land (Z.shiftl a k) v) as Ha.
  rewrite low_bits_disjoint, Z.add_0_r in Ha by done. by rewrite Ha, Z.shiftl_mul_pow2.
Qed.

Lemma push_lor buf v : 0 <= v < 64 -> Z.lor (wrap_u32 (Z.shiftl buf 6)) v = push buf v.
Proof.
  intros Hv. assert (E : wrap_u32 (Z.shiftl buf 6) = Z.shiftl (buf mod 67108864) 6).
  { unfold wrap_u32. rewrite !Z.shiftl_mul_pow2 by lia.
    change 4294967296 with (67108864 * 2 ^ 6). by rewrite Z.mul_mod_distr_r by lia. }
  rewrite E, lor_shift by lia. unfold push. lia.
Qed.

(** Every sextet's character is in the alphabet, at its own index. *)
Lemma index_of_char i : index_of (std_byte (url_byte (b64_char i))) B64 = Some (i mod 64) /\
  std_byte (url_byte (b64_char i)) <> 61.
Proof.
  unfold b64_char. change 63 with (Z.ones 6). rewrite Z.land_ones by lia. change (2 ^ 6) with 64.
  assert (Hall : Forall (fun k => index_of (std_byte (url_byte (nth (Z.to_nat k) B64 0))) B64 = Some k /\
    std_byte (url_byte (nth (Z.to_nat k) B64 0)) <> 61) (seqZ 0 64))
    by (repeat (apply List.Forall_cons; [split; [vm_compute; reflexivity | vm_compute; discriminate] |]); constructor).
  rewrite Forall_forall in Hall. apply Hall. apply elem_of_seqZ. pose proof (Z.mod_pos_bound i 64). lia.
Qed.

Lemma b64_keep buf out i r : b64_loop buf 0 out (std_byte (url_byte (b64_char i)) :: r) =
  b64_loop (push buf (i mod 64)) 6 out r.
Proof.
  cbn [b64_loop]. destruct (index_of_char i) as [-> Hne]. apply Z.eqb_neq in Hne. rewrite Hne. cbn -[B64].
  by rewrite push_lor by (apply Z.mod_pos_bound; lia).
Qed.

Lemma b64_emit buf bits out i r : 2 <= bits -> b64_loop buf bits out (std_byte (url_byte (b64_char i)) :: r) =
  b64_loop (push buf (i mod 64)) (bits - 2) (out ++ [(push buf (i mod 64) / 2 ^ (bits - 2)) mod 256]) r.
Proof.
  intros Hb. cbn [b64_loop]. destruct (index_of_char i) as [-> Hne]. apply Z.eqb_neq in Hne. rewrite Hne.
  cbn -[B64]. rewrite push_lor by (apply Z.mod_pos_bound; lia).
  destruct (Z.leb_spec 8 (bits + 6)); [|lia].
  replace (bits + 6 - 8) with (bits - 2) by lia. unfold wrap_u8. by rewrite Z.shiftr_div_pow2 by lia.
Qed.

Lemma push_bytes buf n v0 v1 v2 v3 : v0 = n / 262144 mod 64 -> v1 = n / 4096 mod 64 -> v2 = n / 64 mod 64 -> v3 = n mod 64 ->
  push (push buf v0) v1 / 16 mod 256 = n / 65536 mod 256 /\
  push (push (push buf v0) v1) v2 / 4 mod 256 = n / 256 mod 256 /\
  push (push (push (push buf v0) v1) v2) v3 mod 256 = n mod 256.
Proof.
  intros -> -> -> ->. unfold push. Z.to_euclidean_division_equations. repeat split; lia.
Qed.

(** The three bytes of a chunk in one word. *)
Lemma chunk_word b0 b1 b2 : u8_range b1 -> u8_range b2 ->
  Z.lor (Z.lor (Z.shiftl b0 16) (Z.shiftl b1 8)) b2 = b0 * 65536 + b1 * 256 + b2.
Proof.
  intros H1 H2. unfold u8_range in *.
  rewrite (lor_shift b0 (Z.shiftl b1 8) 16); [|lia | rewrite Z.shiftl_mul_pow2; lia].
  rewrite Z.shiftl_mul_pow2 by lia.
  replace (b0 * 2 ^ 16 + b1 * 2 ^ 8) with (Z.shiftl (b0 * 256 + b1) 8) by (rewrite Z.shiftl_mul_pow2; lia).
  rewrite lor_shift by lia. lia.
Qed.

Lemma chunk_bytes b0 b1 b2 n : u8_range b0 -> u8_range b1 -> u8_range b2 -> n = b0 * 65536 + b1 * 256 + b2 ->
  n / 65536 mod 256 = b0 /\ n / 256 mod 256 = b1 /\ n mod 256 = b2.
Proof. unfold u8_range. intros. subst n. Z.to_euclidean_division_equations. repeat split; lia. Qed.

Lemma sextet n k : 0 <= k -> Z.shiftr n k mod 64 = n / 2 ^ k mod 64.
Proof. intros. by rewrite Z.shiftr_div_pow2. Qed.

Lemma base64_roundtrip_gen m : forall l buf out, (length l <= m)%nat -> Forall u8_range l ->
  b64_loop buf 0 out (map std_byte (map url_byte (b64_encode l))) = Some (out ++ l).
Proof.
  induction m as [|m IH]; intros l buf out Hl Hu; (destruct l as [|b0 r]; [cbn; by rewrite app_nil_r |]);
    [cbn in Hl; lia |].
  inversion Hu as [|? ? H0 Hr]; subst. cbn [length] in Hl.
  destruct r as [|b1 r]; [|inversion Hr as [|? ? H1 Hr1]; subst; destruct r as [|b2 r]];
    [..|inversion Hr1 as [|? ? H2 Hr2]; subst]; cbn [b64_encode app map].
  - pose proof (chunk_bytes b0 0 0 (Z.shiftl b0 16) H0 ltac:(unfold u8_range; lia) ltac:(unfold u8_range; lia)
      ltac:(rewrite Z.shiftl_mul_pow2; lia)) as (E0 & _ & _).
    rewrite b64_keep, b64_emit, !sextet by lia. cbn [b64_loop].
    edestruct (push_bytes buf (Z.shiftl b0 16)) as (P0 & _ & _); [reflexivity..|].
    change (2 ^ 18) with 262144. change (2 ^ 12) with 4096. change (2 ^ (6 - 2)) with 16. by rewrite P0, E0.
  - pose proof (chunk_word b0 b1 0 H1 ltac:(unfold u8_range; lia)) as Ew. rewrite Z.lor_0_r, Z.add_0_r in Ew.
    rewrite Ew. set (n := b0 * 65536 + b1 * 256).
    pose proof (chunk_bytes b0 b1 0 n H0 H1 ltac:(unfold u8_range; lia) ltac:(lia)) as (E0 & E1 & _).
    rewrite b64_keep, !b64_emit, !sextet by lia. cbn [b64_loop].
    edestruct (push_bytes buf n) as (P0 & P1 & _); [reflexivity..|].
    change (2 ^ 18) with 262144. change (2 ^ 12) with 4096. change (2 ^ 6) with 64.
    change (2 ^ (6 - 2)) with 16. change (2 ^ (6 - 2 - 2)) with 4.
    by rewrite P0, P1, E0, E1, <-app_assoc.
  - rewrite chunk_word by done. set (n := b0 * 65536 + b1 * 256 + b2).
    pose proof (chunk_bytes b0 b1 b2 n H0 H1 H2 eq_refl) as (E0 & E1 & E2).
    rewrite b64_keep, !b64_emit, !sextet by lia.
    edestruct (push_bytes buf n) as (P0 & P1 & P2); [reflexivity..|].
    change (2 ^ 18) with 262144. change (2 ^ 12) with 4096. change (2 ^ 6) with 64.
    change (2 ^ (6 - 2)) with 16. change (2 ^ (6 - 2 - 2)) with 4. change (2 ^ (6 - 2 - 2 - 2)) with 1. change (6 - 2 - 2 - 2) with 0.
    rewrite P0, P1, Z.div_1_r, P2, E0, E1, E2, !IH, <-!app_assoc; [done | cbn in Hl; lia | done].
Qed.

Lemma base64url_roundtrip l : Forall u8_range l -> base64url_decode (base64url_encode l) = Some l.
Proof. intros Hl. by apply (base64_roundtrip_gen (length l)). Qed.

Lemma base64url_u8 l : Forall u8_range (base64url_encode l).
Proof.
  assert (H64 : Forall (fun k => u8_range (url_byte k)) B64)
    by (repeat (apply List.Forall_cons; [split; [vm_compute; discriminate | vm_compute; reflexivity] |]); constructor).
  assert (Hc : forall i, u8_range (url_byte (b64_char i))).
  { intros i. unfold b64_char. destruct (nth_in_or_default (Z.to_nat (Z.land i 63)) B64 0) as [Hin| ->].
    - rewrite List.Forall_forall in H64. by apply H64.
    - split; [vm_compute; discriminate | vm_compute; reflexivity]. }
  unfold base64url_encode. enough (forall m l, (length l <= m)%nat -> Forall u8_range (map url_byte (b64_encode l)))
    as Hall by (by apply (Hall (length l))).
  induction m as [|m IH]; intros [|b0 [|b1 [|b2 r]]] Hl; cbn in *; try lia; repeat (constructor; [apply Hc |]);
    try constructor. apply IH. lia.
Qed.

(** ** Cursors *)

Definition ascii_only (s : string) : Prop := Forall (fun b => b < 128) (bytes_of s).

Lemma ascii_only_app s t : ascii_only s -> ascii_only t -> ascii_only (s +:+ t).
Proof. unfold ascii_only. rewrite bytes_of_app. intros. by apply Forall_app. Qed.

Lemma utf8_valid_ascii l : Forall (fun b => b < 128) l -> utf8_valid l = true.
Proof. induction 1 as [|b l Hb _ IH]; [done |]. cbn [utf8_valid]. by destruct (Z.ltb_spec b 128); [|lia]. Qed.

Lemma pretty_N_go_ascii n acc : ascii_only acc -> ascii_only (pretty_N_go n acc).
Proof.
  revert acc. induction (N.lt_wf_0 n) as [n _ IH]. intros acc Hacc.
  destruct (decide (n = 0)%N) as [->|Hn]; [by rewrite pretty_N_go_0 |].
  rewrite pretty_N_go_step by lia. apply IH; [apply N.div_lt; lia |].
  constructor; [|exact Hacc]. unfold pretty_N_char. repeat case_match; reflexivity.
Qed.

Lemma fmt_Z_ascii n : 0 < n -> ascii_only (fmt_Z n).
Proof.
  intros Hn. destruct n as [|p|p]; try lia. change (ascii_only (pretty_N_go (N.pos p) "")).
  apply pretty_N_go_ascii. constructor.
Qed.

Lemma cursor_json_ascii n : 0 < n -> ascii_only (cursor_json n).
Proof.
  intros Hn. unfold cursor_json. repeat (apply ascii_only_app); try (repeat constructor); [].
  by apply fmt_Z_ascii.
Qed.

(** The cursor of a positive offset decodes to that offset, provided
    serde_json parses the one-field object the cursor holds; no cursor stands
    for an offset that is not positive, and text that is no cursor is
    offset 0. *)
Theorem cursor_roundtrip `{JsonParser} n : n <= i64_max ->
  (0 < n -> parse_json (cursor_json n) = Ok (VObject [("o", VNumber (PosInt n))])) ->
  decode_cursor (encode_cursor n) = Z.max 0 n /\
  (n <= 0 -> encode_cursor n = None) /\
  forall c, base64url_decode (bytes_of c) = None -> decode_cursor (Some c) = 0.
Proof.
  intros Hmax Hp. split; [|split].
  2:{ intros Hn. unfold encode_cursor. by destruct (Z.leb_spec n 0); [|lia]. }
  2:{ intros c Hc. unfold decode_cursor. rewrite Hc. by case_match. }
  unfold encode_cursor. destruct (Z.leb_spec n 0); [cbn; lia |]. cbn [decode_cursor].
  assert (Hu : Forall u8_range (base64url_encode (bytes_of (cursor_json n)))) by apply base64url_u8.
  rewrite bytes_of_of_bytes, base64url_roundtrip by (auto using bytes_of_u8).
  rewrite utf8_valid_ascii by (by apply cursor_json_ascii). cbn [negb].
  rewrite of_bytes_bytes_of, Hp by done. cbn [vget as_object mbind option_bind map_get as_i64 number_as_i64].
  replace (is_empty _) with false by reflexivity.
  cbn. destruct (Z.leb_spec n i64_max); cbn; lia.
Qed.

(** ** Witness, and where the two filter languages part *)

#[local] Instance cursor_parser : JsonParser := {| parse_json _ := Ok (VObject [("o", VNumber (PosInt 40))]) |}.

Lemma cursor_roundtrip_witness : 0 < 40 <= i64_max /\ decode_cursor (encode_cursor 40) = 40.
Proof.
  split; [split; vm_compute; congruence |].
  destruct (cursor_roundtrip 40) as (-> & _ & _); [vm_compute; discriminate | reflexivity | reflexivity].
Defined.

#[local] Instance plain_digests : Digests := {| sha256 l := l; hex_encode _ := "h"; json_to_string _ := "j" |}.
#[local] Instance plain_floats : FloatText := {| fmt_f64 _ := "f" |}.
Definition price_schema : MemoryNodeSchema := mkSchema "t" "id" [field_new "price" "number"].
Definition translated (filter : Value) : result NwpFilterError string :=
  fst <$> translate price_schema SqlServer (Some filter) [].

(** A field whose condition is an empty object becomes the clause [()], which
    is no SQL; in memory it is always true. *)
Lemma empty_condition_is_no_sql :
  translated (VObject [("price", VObject [])]) = Ok "()" /\
  match_filter [] (VObject [("price", VObject [])]) = Ok true.
Proof. split; vm_compute; reflexivity. Qed.

(** An empty disjunction puts no constraint on the SQL query; in memory it is
    never true. *)
Lemma empty_or_unconstrained :
  translated (VObject [("$or", VArray [])]) = Ok "" /\ match_filter [] (VObject [("$or", VArray [])]) = Ok false.
Proof. split; vm_compute; reflexivity. Qed.

(** A bare value is an equality in memory, and an error in SQL; [$between] is
    the other way round. *)
Lemma languages_differ :
  is_ok (translated (VObject [("price", vnat 1)])) = false /\
  is_ok (match_filter [] (VObject [("price", vnat 1)])) = true /\
  is_ok (translated (VObject [("price", VObject [("$between", VArray [vnat 1; vnat 2])])])) = true /\
  is_ok (match_filter [] (VObject [("price", VObject [("$between", VArray [vnat 1; vnat 2])])])) = false.
Proof. by repeat split. Qed.
