(* ===== verification/NwpAction.v ===== *)
(** * NwpAction: the Action Node

    Models nps-nwp/src/action_server.rs: the task table, the idempotency cache,
    cooperative cancellation, the callback guard, streams, the request handler
    and the thread of an asynchronous task.  A provider is its admission
    function and, per call, what its execution comes to; a stream is a program
    that emits frames and sees each answer.  The readings of the clock, the
    serializer of stream frames and the dates are parameters. *)

From S2P Require Import Prelude RustStr Floats Json CoreCache NopCallback NwpContext NwpMemory.
Local Open Scope Z_scope.

(** ** Data *)

Definition SYSTEM_TASK_STATUS : string := "system.task.status".
Definition SYSTEM_TASK_CANCEL : string := "system.task.cancel".

Definition NODE_UNAVAILABLE : string := "NWP-NODE-UNAVAILABLE".
Definition ACTION_NOT_FOUND : string := "NWP-ACTION-NOT-FOUND".
Definition TASK_NOT_FOUND : string := "NWP-TASK-NOT-FOUND".
Definition TASK_ALREADY_CANCELLED : string := "NWP-TASK-ALREADY-CANCELLED".

Record ActionSpec : Type := mkSpec {
  as_description : option string;
  as_params_anchor : option string;
  as_result_anchor : option string;
  as_async : bool;
  as_idempotent : option bool;
  as_timeout_ms_default : option Z;
  as_timeout_ms_max : option Z;
  as_required_capability : option string
}.

Definition spec_new (async : bool) : ActionSpec := mkSpec None None None async None None None None.

(** Durations are in nanoseconds; the maps are sorted by key. *)
Record ActionNodeOptions : Type := mkActionOptions {
  ao_node_id : string;
  ao_display_name : option string;
  ao_actions : list (string * ActionSpec);
  ao_profiles : Map;
  ao_path_prefix : string;
  ao_require_auth : bool;
  ao_default_timeout_ms : Z;
  ao_max_timeout_ms : Z;
  ao_idempotency_ttl : Z;
  ao_task_retention : Z;
  ao_reject_private_callback_urls : bool;
  ao_default_token_budget : Z
}.

Definition action_options_new (node_id path_prefix : string) : ActionNodeOptions :=
  mkActionOptions node_id None [] [] path_prefix false 5000 300000
    (24 * 3600 * nanos_per_sec) (3600 * nanos_per_sec) true 0.

Record ActionError : Type := mkActionError {
  xe_http_status : Z; xe_nps_status : string; xe_error_code : string; xe_message : string }.

Definition action_internal (message : string) : ActionError :=
  mkActionError 500 "NPS-SERVER-INTERNAL" NODE_UNAVAILABLE message.

Record ActionStreamFrame : Type := mkSFrame {
  sf_stream_id : string;
  sf_seq : Z;
  sf_is_last : bool;
  sf_anchor_ref : option string;
  sf_data : list Value;
  sf_window_size : option Z;
  sf_error_code : option string
}.

(** What a producer does with the [emit] it is given: it returns, or emits a
    frame and goes on with the answer. *)
Inductive ActionStream : Type :=
| Return (r : result ActionError unit)
| Emit (f : ActionStreamFrame) (k : result ActionError unit -> ActionStream).

Record ActionExecutionResult : Type := mkExecution {
  er_result : option Value;
  er_stream : option ActionStream;
  er_anchor_ref : option string;
  er_token_est : Z
}.

Record ParsedActionFrame : Type := mkActionFrame {
  af_action_id : string;
  af_params : option Value;
  af_idempotency_key : option string;
  af_timeout_ms : Z;
  af_async : bool;
  af_callback_url : option string;
  af_priority : option string;
  af_request_id : option string
}.

(** Without the cancellation handle, which the threads below share. *)
Record ActionContext : Type := mkActionContext {
  ac_agent_nid : option string;
  ac_request_id : option string;
  ac_task_id : option string;
  ac_spec : ActionSpec;
  ac_timeout_ms : Z;
  ac_priority : string;
  ac_wire_input_bytes : Z
}.

Definition action_from_json (body : Value) : result string ParsedActionFrame :=
  obj ← ok_or (as_object body) "ActionFrame must be a JSON object.";
  action_id ← ok_or (s ← map_get "action_id" obj ≫= as_str; if is_empty s then None else Some s)
                "invalid ActionFrame: missing action_id.";
  Ok (mkActionFrame action_id (not_null (map_get "params" obj)) (map_get "idempotency_key" obj ≫= as_str)
        (wrap_u32 (default 0 (map_get "timeout_ms" obj ≫= as_u64)))
        (default false (map_get "async" obj ≫= as_bool)) (map_get "callback_url" obj ≫= as_str)
        (map_get "priority" obj ≫= as_str) (map_get "request_id" obj ≫= as_str)).

(** ** Cancellation

    A listener is a number; each operation lists the listeners it runs. *)

Record ActionCancellation : Type := mkCancellation { cancelled : bool; listeners : list nat }.

Definition cancellation_new : ActionCancellation := mkCancellation false [].

(** Also the branch of the locked section: a flag seen set runs the listener. *)
Definition on_cancel (l : nat) (c : ActionCancellation) : list nat * ActionCancellation :=
  if cancelled c then ([l], c) else ([], mkCancellation (cancelled c) (listeners c ++ [l])).

(** [cancel] swaps the flag, then takes the listeners under the lock. *)
Definition cancel_swap (c : ActionCancellation) : bool * ActionCancellation :=
  (cancelled c, mkCancellation true (listeners c)).
Definition cancel_take (c : ActionCancellation) : list nat * ActionCancellation :=
  (listeners c, mkCancellation (cancelled c) []).
Definition cancel_handle (c : ActionCancellation) : list nat * ActionCancellation :=
  let '(was, c) := cancel_swap c in if was : bool then ([], c) else cancel_take c.

(** ** The task table *)

Record ActionTaskRecord : Type := mkTask {
  at_task_id : string;
  at_action_id : string;
  at_status : string;
  at_progress : option spec_float;
  at_created_at : Z;
  at_updated_at : Z;
  at_request_id : option string;
  at_agent_nid : option string;
  at_result : option Value;
  at_error : option Value
}.

Abbreviation TaskTable := (gmap string ActionTaskRecord).

Definition task_terminal (status : string) : bool :=
  String.eqb status "completed" || String.eqb status "failed" || String.eqb status "cancelled".

Definition task_create (now : Z) (task_id action_id : string) (request_id agent_nid : option string)
    (t : TaskTable) : TaskTable :=
  <[task_id := mkTask task_id action_id "pending" None now now request_id agent_nid None None]> t.

Definition with_status (now : Z) (status : string) (r : ActionTaskRecord) : ActionTaskRecord :=
  mkTask (at_task_id r) (at_action_id r) status (at_progress r) (at_created_at r) now
    (at_request_id r) (at_agent_nid r) (at_result r) (at_error r).

Definition try_transition (now : Z) (task_id expected new : string) (t : TaskTable) : bool * TaskTable :=
  match t !! task_id with
  | Some r => if String.eqb (at_status r) expected then (true, <[task_id := with_status now new r]> t) else (false, t)
  | None => (false, t)
  end.

(** The three ways to end share the guard. *)
Definition end_task (task_id : string) (f : ActionTaskRecord -> ActionTaskRecord) (t : TaskTable) : bool * TaskTable :=
  match t !! task_id with
  | Some r => if task_terminal (at_status r) then (false, t) else (true, <[task_id := f r]> t)
  | None => (false, t)
  end.

Definition f_one : spec_float := f64_of_Z 1.

Definition task_complete (now : Z) (task_id : string) (result : option Value) : TaskTable -> bool * TaskTable :=
  end_task task_id (fun r =>
    mkTask (at_task_id r) (at_action_id r) "completed" (Some f_one) (at_created_at r) now
      (at_request_id r) (at_agent_nid r) result (at_error r)).

Definition task_fail (now : Z) (task_id : string) (error : Value) : TaskTable -> bool * TaskTable :=
  end_task task_id (fun r =>
    mkTask (at_task_id r) (at_action_id r) "failed" (at_progress r) (at_created_at r) now
      (at_request_id r) (at_agent_nid r) (at_result r) (Some error)).

Definition task_cancel (now : Z) (task_id : string) : TaskTable -> bool * TaskTable :=
  end_task task_id (with_status now "cancelled").

(** [clamp(0.0, 1.0)]; a NaN stays. *)
Definition clamp_unit (f : spec_float) : spec_float :=
  if SFltb f f_zero then f_zero else if SFltb f_one f then f_one else f.

Definition update_progress (now : Z) (task_id : string) (progress : spec_float) (t : TaskTable) : bool * TaskTable :=
  match t !! task_id with
  | Some r =>
    (true, <[task_id := mkTask (at_task_id r) (at_action_id r) (at_status r) (Some (clamp_unit progress))
                          (at_created_at r) now (at_request_id r) (at_agent_nid r) (at_result r) (at_error r)]> t)
  | None => (false, t)
  end.

(** ** The idempotency cache *)

Record IdempotentEntry : Type := mkIdempotent {
  ie_action_id : string;
  ie_params_hash : string;
  ie_result : option Value;
  ie_stream_frames : option (list ActionStreamFrame);
  ie_anchor_ref : option string;
  ie_task_id : option string;
  ie_expires_at : Z
}.

Abbreviation IdempotencyMap := (gmap string IdempotentEntry).

Definition unit_separator : string := String.String (ascii_of 31) "".
Definition cache_key (action_id idempotency_key : string) : string :=
  action_id +:+ unit_separator +:+ idempotency_key.

Definition cache_lookup (now : Z) (action_id idempotency_key : string) (c : IdempotencyMap)
    : option IdempotentEntry * IdempotencyMap :=
  let key := cache_key action_id idempotency_key in
  match c !! key with
  | Some e => if ie_expires_at e <=? now then (None, delete key c) else (Some e, c)
  | None => (None, c)
  end.

Definition try_store (now : Z) (action_id idempotency_key : string) (entry : IdempotentEntry) (c : IdempotencyMap)
    : bool * IdempotencyMap :=
  let key := cache_key action_id idempotency_key in
  let put := (true, <[key := entry]> c) in
  match c !! key with
  | Some e => if now <? ie_expires_at e then (String.eqb (ie_params_hash e) (ie_params_hash entry), c) else put
  | None => put
  end.

(** ** The callback guard *)

Record ParsedUrl : Type := mkUrl { pu_scheme : string; pu_host : string }.

Definition scheme_byte (b : Z) : bool :=
  is_ascii_digit b || is_ascii_alphabetic b || (b =? 43) || (b =? 45) || (b =? 46).

Definition host_of (authority : list Z) : list Z :=
  let hostport := after_last_at authority in
  if existsb (fun x => x =? 93) hostport
  then take_while (fun x => negb (x =? 93)) hostport ++ [93]
  else take_while (fun x => negb (x =? 58)) hostport.

Definition parse_absolute_url (url : string) : option ParsedUrl :=
  '(scheme, rest) ← split_once_scheme url;
  if is_empty scheme || negb (forallb scheme_byte (bytes_of scheme)) || is_empty rest then None
  else
    let authority := take_while (fun x => negb ((x =? 47) || (x =? 63) || (x =? 35))) (bytes_of rest) in
    match authority with
    | [] => None
    | _ => match host_of authority with [] => None | h => Some (mkUrl scheme (of_bytes h)) end
    end.

Definition parse_u8 (s : string) : option Z := v ← parse_u64 s; if v <=? 255 then Some v else None.

Definition parse_ipv4 (s : string) : option (list Z) :=
  match split_on "." s with
  | [a; b; c; d] => a ← parse_u8 a; b ← parse_u8 b; c ← parse_u8 c; d ← parse_u8 d; Some [a; b; c; d]
  | _ => None
  end.

Definition private_octets (octets : list Z) : bool :=
  match octets with
  | a :: b :: _ =>
    (a =? 127) || (a =? 10) || (a =? 0) || ((a =? 172) && (16 <=? b) && (b <=? 31))
    || ((a =? 192) && (b =? 168)) || ((a =? 169) && (b =? 254))
  | _ => false
  end.

(** The text after the last colon. *)
Definition after_last_colon (s : string) : string := List.last (split_on ":" s) "".

(** The recursive call is on a dotted quad, whose first test is this one. *)
Definition node_is_private_host (host : string) : bool :=
  if is_empty host then true
  else if eq_ignore_ascii_case host "localhost" then true
  else
    let stripped := of_bytes (trim_end_matches 93 (trim_start_matches 91 (bytes_of host))) in
    match parse_ipv4 stripped with
    | Some octets => private_octets octets
    | None =>
      if existsb (fun x => x =? 58) (bytes_of stripped)
      then
        let lower := to_ascii_lowercase stripped in
        if String.eqb lower "::1" then true
        else if starts_with "fe80" lower || starts_with "fc" lower || starts_with "fd" lower then true
        else match parse_ipv4 (after_last_colon lower) with
             | Some octets => private_octets octets
             | None => false
             end
      else false
    end.

Definition node_validate_callback_url (callback_url : string) (reject_private : bool) : option string :=
  if is_empty (trim callback_url) then Some "callback_url must not be empty."
  else
    match parse_absolute_url callback_url with
    | None => Some ("callback_url '" +:+ callback_url +:+ "' is not a valid absolute URI.")
    | Some u =>
      if negb (eq_ignore_ascii_case (pu_scheme u) "https")
      then Some ("callback_url MUST use the https:// scheme (got '" +:+ pu_scheme u +:+ "://').")
      else if reject_private && node_is_private_host (pu_host u)
      then Some ("callback_url host '" +:+ pu_host u +:+ "' resolves to a private or loopback address (SSRF guard).")
      else None
    end.

(** ** Helpers *)

Definition clamp_timeout (requested : Z) (spec : ActionSpec) (opt : ActionNodeOptions) : Z :=
  let spec_max := default (ao_max_timeout_ms opt) (as_timeout_ms_max spec) in
  let hard_max := Z.min spec_max (ao_max_timeout_ms opt) in
  if requested =? 0 then default (ao_default_timeout_ms opt) (as_timeout_ms_default spec)
  else Z.min requested hard_max.

(** Hexadecimal, padded to [n] digits. *)
Fixpoint hex_pad (digit : Z -> Ascii.ascii) (n : nat) (z : Z) : string :=
  match n with
  | O => ""
  | S m => hex_pad digit m (z / 16) +:+ String.String (digit (z mod 16)) ""
  end.
Definition hex_digit_lower (d : Z) : Ascii.ascii := ascii_of (if d <? 10 then 48 + d else 87 + d).

Definition fnv1a_step (hash b : Z) : Z := wrap_u64 (Z.lxor hash b * 1099511628211).
Definition fnv1a_hex (bytes : list Z) : string :=
  hex_pad hex_digit_upper 16 (fold_left fnv1a_step bytes 14695981039346656037).

(** The nanoseconds since the epoch and the counter, 16 digits each. *)
Definition gen_hex (t c : Z) : string := hex_pad hex_digit_lower 16 t +:+ hex_pad hex_digit_lower 16 c.

Definition idempotency_cache_scope (action_id : string) (agent_nid : option string) : string :=
  action_id +:+ unit_separator +:+ default "" agent_nid.

Definition read_string_param (params : option Value) (name : string) : option string :=
  v ← params; obj ← as_object v; p ← map_get name obj; as_str p.

Definition spec_entry (spec : ActionSpec) : Value :=
  let e := map_insert "async" (VBool (as_async spec)) [] in
  let e := insert_opt "description" (VString <$> as_description spec) e in
  let e := insert_opt "params_anchor" (VString <$> as_params_anchor spec) e in
  let e := insert_opt "result_anchor" (VString <$> as_result_anchor spec) e in
  let e := insert_opt "idempotent" (VBool <$> as_idempotent spec) e in
  let e := insert_opt "timeout_ms_default" (vnat <$> as_timeout_ms_default spec) e in
  let e := insert_opt "timeout_ms_max" (vnat <$> as_timeout_ms_max spec) e in
  VObject (insert_opt "required_capability" (VString <$> as_required_capability spec) e).

Definition actions_map (opt : ActionNodeOptions) : Map :=
  fold_left (fun out kv => map_insert (fst kv) (spec_entry (snd kv)) out) (ao_actions opt) [].

Definition supports_stream (opt : ActionNodeOptions) : bool :=
  default false (v ← map_get "llm" (ao_profiles opt); profile ← as_object v;
                 b ← map_get "supports_stream" profile; as_bool b).

Definition action_manifest (opt : ActionNodeOptions) (prefix : string) : Value :=
  let m := map_insert "nwp" (VString "0.4") [] in
  let m := map_insert "node_id" (VString (ao_node_id opt)) m in
  let m := map_insert "node_type" (VString "action") m in
  let m := insert_opt "display_name" (VString <$> ao_display_name opt) m in
  let m := map_insert "wire_formats" (vstrings ["ncp-capsule"; "json"]) m in
  let m := map_insert "preferred_format" (VString "json") m in
  let m := map_insert "capabilities"
             (VObject [("query", vbool false); ("stream", vbool (supports_stream opt));
                       ("token_budget_hint", vbool true)]) m in
  let m := map_insert "auth"
             (VObject [("identity_type", VString (if ao_require_auth opt then "nip-cert" else "none"));
                       ("required", vbool (ao_require_auth opt))]) m in
  let m := map_insert "endpoints"
             (VObject [("invoke", VString (prefix +:+ "/invoke")); ("schema", VString (prefix +:+ "/.schema"))]) m in
  let m := map_insert "actions" (VObject (actions_map opt)) m in
  let m := match ao_profiles opt with [] => m | p => map_insert "profiles" (VObject p) m end in
  VObject m.

(** ** The node *)

Class StreamSerde : Type := { stream_frame_to_vec : ActionStreamFrame -> result string (list Z) }.

(** What the execution of a synchronous call comes to, as the handler sees it. *)
Inductive Outcome : Type :=
| Finished (r : result ActionError ActionExecutionResult)
| TimedOut
| Disconnected.

(** The readings of the clock a request makes, in nanoseconds. *)
Record Readings : Type := mkReadings {
  at_lookup : Z;   (* the idempotency cache is read *)
  at_hex : Z;      (* an identifier is made *)
  at_create : Z;   (* a task is created, or cancelled *)
  at_entry : Z;    (* the expiry of an entry is computed *)
  at_store : Z     (* the entry is stored *)
}.

(** Tasks, cache, the shared state of every cancellation handle, the keys of
    [task_cancellations], and the counter of identifiers. *)
Record ActionNode : Type := mkActionNode {
  nd_tasks : TaskTable;
  nd_cache : IdempotencyMap;
  nd_handles : gmap string ActionCancellation;
  nd_registered : gset string;
  nd_counter : Z
}.

Definition action_node_new : ActionNode := mkActionNode ∅ ∅ ∅ ∅ 1.

Definition set_tasks (t : TaskTable) (n : ActionNode) : ActionNode :=
  mkActionNode t (nd_cache n) (nd_handles n) (nd_registered n) (nd_counter n).
Definition set_cache (c : IdempotencyMap) (n : ActionNode) : ActionNode :=
  mkActionNode (nd_tasks n) c (nd_handles n) (nd_registered n) (nd_counter n).
Definition next_counter (n : ActionNode) : ActionNode :=
  mkActionNode (nd_tasks n) (nd_cache n) (nd_handles n) (nd_registered n) (wrap_u64 (nd_counter n + 1)).
Definition register_task (id : string) (n : ActionNode) : ActionNode :=
  mkActionNode (nd_tasks n) (nd_cache n) (<[id := cancellation_new]> (nd_handles n)) ({[id]} ∪ nd_registered n)
    (nd_counter n).
Definition unregister_task (id : string) (n : ActionNode) : ActionNode :=
  mkActionNode (nd_tasks n) (nd_cache n) (nd_handles n) (nd_registered n ∖ {[id]}) (nd_counter n).
Definition cancel_task_handle (id : string) (n : ActionNode) : ActionNode :=
  mkActionNode (nd_tasks n) (nd_cache n) (alter (fun c => snd (cancel_handle c)) id (nd_handles n))
    (nd_registered n) (nd_counter n).
Definition handle_cancelled (id : string) (n : ActionNode) : bool :=
  match nd_handles n !! id with Some c => cancelled c | None => false end.

Section app.
Context {D : Digests} `{JsonParser} `{ContextTime} `{StreamSerde}.

Definition hash_params (params : option Value) : string :=
  fnv1a_hex (bytes_of (match params with None => "null" | Some v => json_to_string v end)).

Record ActionNodeApp : Type := mkActionApp {
  aa_opt : ActionNodeOptions;
  aa_prefix : string;
  aa_authorize : ParsedActionFrame -> ActionContext -> result ActionError unit;
  aa_nwm_json : list Z;
  aa_actions_json : list Z
}.

(** [None]: a reserved action is registered, and [new] panics. *)
Definition action_app_new (opt : ActionNodeOptions)
    (authorize : ParsedActionFrame -> ActionContext -> result ActionError unit) : option ActionNodeApp :=
  if map_contains SYSTEM_TASK_STATUS (ao_actions opt) || map_contains SYSTEM_TASK_CANCEL (ao_actions opt)
  then None
  else
    let prefix := trim_prefix (ao_path_prefix opt) in
    Some (mkActionApp opt prefix authorize (to_vec (action_manifest opt prefix))
            (to_vec (VObject [("actions", VObject (actions_map opt))]))).

(** *** Responses *)

Definition params_error (message : string) : NodeResponse := bad_request ACTION_PARAMS_INVALID message.
Definition error_of (e : ActionError) : NodeResponse :=
  error_resp (xe_http_status e) (xe_nps_status e) (xe_error_code e) (xe_message e) None [].

Definition write_async_response (app : ActionNodeApp) (task_id status : string) (request_id : option string)
    (estimated_ms : option Z) : NodeResponse :=
  let b := map_insert "task_id" (VString task_id) [] in
  let b := map_insert "status" (VString status) b in
  let b := map_insert "poll_url" (VString (aa_prefix app +:+ "/invoke")) b in
  let b := insert_opt "estimated_ms" (vnat <$> estimated_ms) b in
  let b := insert_opt "request_id" (VString <$> request_id) b in
  mkNodeResponse 202 [("content-type", "application/json"); ("x-nwp-node-type", "action")] (to_vec (VObject b)).

Definition opt_header (name : string) (v : option string) : list (string * string) :=
  match v with Some s => [(name, s)] | None => [] end.

Definition write_caps (payload : option Value) (anchor_ref request_id : option string) (token_est : Z)
    : NodeResponse :=
  let data := match payload with Some v => [v] | None => [] end in
  let caps := map_insert "anchor_ref" (VString (default "" anchor_ref)) [] in
  let caps := map_insert "count" (vnat (Z.of_nat (length data))) caps in
  let caps := map_insert "data" (VArray data) caps in
  let caps := if 0 <? token_est then map_insert "token_est" (vnat token_est) caps else caps in
  mkNodeResponse 200
    ([("content-type", MIME_CAPSULE); ("x-nwp-node-type", "action")]
       ++ opt_header "x-nwp-schema" anchor_ref
       ++ opt_header "x-nwp-tokens" (if 0 <? token_est then Some (fmt_Z token_est) else None)
       ++ opt_header "x-nwp-request-id" request_id)
    (to_vec (VObject caps)).

(** *** Streams *)

(** What [emit] has done so far. *)
Record Emitter : Type := mkEmitter {
  em_next_seq : Z; em_terminal : bool; em_body : list Z; em_emitted : list ActionStreamFrame }.

Definition emitter_new : Emitter := mkEmitter 0 false [] [].

Definition with_stream_id (stream_id : string) (f : ActionStreamFrame) : ActionStreamFrame :=
  mkSFrame stream_id (sf_seq f) (sf_is_last f) (sf_anchor_ref f) (sf_data f) (sf_window_size f) (sf_error_code f).

Definition is_set {A} (o : option A) : bool := match o with Some _ => true | None => false end.

Definition emit (stream_id : string) (is_cancelled : bool) (f : ActionStreamFrame) (e : Emitter)
    : result ActionError unit * Emitter :=
  if is_cancelled then (Err (action_internal "action stream was cancelled"), e)
  else if em_terminal e
  then (Err (action_internal "action stream emitted frames after its terminal frame"), e)
  else if negb (sf_seq f =? em_next_seq e)
  then (Err (action_internal "action stream sequence is not contiguous from zero"), e)
  else if is_set (sf_error_code f) && negb (sf_is_last f)
  then (Err (action_internal "action stream error_code is terminal-only"), e)
  else
    let supplied := with_stream_id stream_id f in
    match stream_frame_to_vec supplied with
    | Err error => (Err (action_internal ("serialize stream frame: " +:+ error)), e)
    | Ok encoded =>
      (Ok tt, mkEmitter (em_next_seq e + 1) (sf_is_last f) (em_body e ++ encoded ++ [10]) (em_emitted e ++ [supplied]))
    end.

(** [flag n]: the cancellation flag after [n] calls of [emit]. *)
Fixpoint run_stream (stream_id : string) (flag : nat -> bool) (n : nat) (e : Emitter) (s : ActionStream)
    : option ActionError * nat * Emitter :=
  match s with
  | Return (Ok _) => (None, n, e)
  | Return (Err error) => (Some error, n, e)
  | Emit f k =>
    let '(r, e') := emit stream_id (flag n) f e in
    run_stream stream_id flag (S n) e' (k r)
  end.

(** A stream that failed before its terminal frame gets one, unless cancelled. *)
Definition close_stream (stream_id : string) (is_cancelled : bool) (failure : option ActionError) (e : Emitter)
    : Emitter :=
  match failure with
  | None => e
  | Some error =>
    if negb (em_terminal e) && negb is_cancelled
    then
      let terminal_frame := mkSFrame stream_id (em_next_seq e) true None [] None (Some (xe_error_code error)) in
      match stream_frame_to_vec terminal_frame with
      | Ok encoded => mkEmitter (em_next_seq e) (em_terminal e) (em_body e ++ encoded ++ [10])
                        (em_emitted e ++ [terminal_frame])
      | Err _ => e
      end
    else e
  end.

Definition completed_frames (failure : option ActionError) (emitted : list ActionStreamFrame)
    : option (list ActionStreamFrame) :=
  match failure, List.rev emitted with
  | None, last :: _ => if is_set (sf_error_code last) then None else Some emitted
  | _, _ => None
  end.

Definition write_stream (stream_id : string) (flag : nat -> bool) (s : ActionStream) (request_id : option string)
    : NodeResponse * option (list ActionStreamFrame) :=
  let '(failure, n, e) := run_stream stream_id flag 0 emitter_new s in
  let failure := match failure with
                 | None => if em_terminal e then None
                           else Some (action_internal "action stream ended without a terminal frame")
                 | some => some
                 end in
  let e := close_stream stream_id (flag n) failure e in
  (mkNodeResponse 200
     ([("content-type", "application/x-ndjson"); ("x-nwp-node-type", "action")]
        ++ opt_header "x-nwp-request-id" request_id) (em_body e),
   completed_frames failure (em_emitted e)).

(** [ReplayActionStream]. *)
Fixpoint replay_stream (frames : list ActionStreamFrame) : ActionStream :=
  match frames with
  | [] => Return (Ok tt)
  | f :: r => Emit f (fun a => match a with Ok _ => replay_stream r | Err e => Return (Err e) end)
  end.

(** *** Handlers *)

Definition idem_entry (frame : ParsedActionFrame) (hash : string) (result : option Value)
    (frames : option (list ActionStreamFrame)) (anchor task_id : option string) (expires : Z) : IdempotentEntry :=
  mkIdempotent (af_action_id frame) hash result frames anchor task_id expires.

(** Store the entry under the request's key, if it has one; the expiry may
    leave the calendar, which is a panic. *)
Definition remember (app : ActionNodeApp) (tm : Readings) (scope : string) (frame : ParsedActionFrame)
    (entry : Z -> IdempotentEntry) (n : ActionNode) : option ActionNode :=
  match af_idempotency_key frame with
  | None => Some n
  | Some key =>
    expires ← instant_add (at_entry tm) (ao_idempotency_ttl (aa_opt app));
    Some (set_cache (snd (try_store (at_store tm) scope key (entry expires) (nd_cache n))) n)
  end.

(** The task a status or cancel request names, if the caller owns it. *)
Definition owned_task (frame : ParsedActionFrame) (agent_nid : option string) (n : ActionNode)
    : result NodeResponse ActionTaskRecord :=
  task_id ← ok_or (t ← read_string_param (af_params frame) "task_id"; if is_empty t then None else Some t)
              (params_error "params.task_id is required.");
  r ← ok_or (nd_tasks n !! task_id)
        (error_resp 404 "NPS-CLIENT-NOT-FOUND" TASK_NOT_FOUND ("Unknown task_id '" +:+ task_id +:+ "'.") None []);
  if bool_decide (at_agent_nid r = agent_nid) then Ok r
  else Err (error_resp 403 "NPS-AUTH-FORBIDDEN" AUTH_NID_SCOPE_VIOLATION "the caller does not own this task." None []).

(** [json!(p)] of a float. *)
Definition json_f64 (f : spec_float) : Value :=
  match number_from_f64 f with Some x => VNumber x | None => VNull end.
Definition fmt_rfc3339 (t : Z) : string := default "" (rfc3339 t).

Definition task_status_value (r : ActionTaskRecord) : Value :=
  let s := map_insert "task_id" (VString (at_task_id r)) [] in
  let s := map_insert "status" (VString (at_status r)) s in
  let s := insert_opt "progress" (json_f64 <$> at_progress r) s in
  let s := map_insert "created_at" (VString (fmt_rfc3339 (at_created_at r))) s in
  let s := map_insert "updated_at" (VString (fmt_rfc3339 (at_updated_at r))) s in
  let s := insert_opt "request_id" (VString <$> at_request_id r) s in
  let s := insert_opt "result" (at_result r) s in
  VObject (insert_opt "error" (at_error r) s).

Definition handle_task_status (frame : ParsedActionFrame) (agent_nid : option string) (n : ActionNode) : NodeResponse :=
  match owned_task frame agent_nid n with
  | Err resp => resp
  | Ok r => write_caps (Some (task_status_value r)) None (af_request_id frame) 0
  end.

(** The second half of a cancel request, on the record the first half read:
    other threads may act on the table in between. *)
Definition apply_task_cancel (now : Z) (task_id : string) (frame : ParsedActionFrame) (n : ActionNode)
    : NodeResponse * ActionNode :=
  let n := set_tasks (snd (task_cancel now task_id (nd_tasks n))) n in
  let n := if bool_decide (task_id ∈ nd_registered n) then cancel_task_handle task_id n else n in
  (write_caps (Some (VObject [("status", VString "cancelled"); ("task_id", VString task_id)])) None
     (af_request_id frame) 0, n).

Definition handle_task_cancel (now : Z) (frame : ParsedActionFrame) (agent_nid : option string) (n : ActionNode)
    : NodeResponse * ActionNode :=
  match owned_task frame agent_nid n with
  | Err resp => (resp, n)
  | Ok r =>
    let task_id := default "" (read_string_param (af_params frame) "task_id") in
    if task_terminal (at_status r)
    then (error_resp 409 "NPS-CLIENT-CONFLICT" TASK_ALREADY_CANCELLED
            ("Task '" +:+ task_id +:+ "' is already in a terminal state ('" +:+ at_status r +:+ "').") None [], n)
    else apply_task_cancel now task_id frame n
  end.

(** The checks before admission: the action's entry. *)
Definition check_invoke (app : ActionNodeApp) (frame : ParsedActionFrame) : result NodeResponse ActionSpec :=
  spec ← ok_or (map_get (af_action_id frame) (ao_actions (aa_opt app)))
    (error_resp 404 "NPS-CLIENT-NOT-FOUND" ACTION_NOT_FOUND
       ("Unknown action_id '" +:+ af_action_id frame +:+ "'.") None []);
  _ ← match af_priority frame with
      | Some p => if String.eqb p "low" || String.eqb p "normal" || String.eqb p "high" then Ok tt
                  else Err (params_error ("priority '" +:+ p +:+ "' is invalid (allowed: low/normal/high)."))
      | None => Ok tt
      end;
  if af_async frame && negb (as_async spec)
  then Err (params_error ("action '" +:+ af_action_id frame +:+ "' does not support async execution."))
  else
    match af_callback_url frame ≫= fun cb =>
            node_validate_callback_url cb (ao_reject_private_callback_urls (aa_opt app)) with
    | Some err => Err (params_error err)
    | None => Ok spec
    end.

(** The answer from a cached entry. *)
Definition replay_cached (app : ActionNodeApp) (stream_id : string) (flag : nat -> bool)
    (frame : ParsedActionFrame) (cached : IdempotentEntry) (n : ActionNode) : NodeResponse :=
  match ie_task_id cached with
  | Some task_id =>
    write_async_response app task_id (default "pending" (at_status <$> nd_tasks n !! task_id))
      (af_request_id frame) None
  | None =>
    match ie_stream_frames cached with
    | Some frames => fst (write_stream stream_id flag (replay_stream frames) (af_request_id frame))
    | None => write_caps (ie_result cached) (ie_anchor_ref cached) (af_request_id frame) 0
    end
  end.

Definition start_async (app : ActionNodeApp) (tm : Readings) (frame : ParsedActionFrame) (agent_nid : option string)
    (spec : ActionSpec) (scope hash : string) (n : ActionNode) : option (NodeResponse * ActionNode) :=
  let task_id := gen_hex (at_hex tm) (nd_counter n) in
  let n := next_counter n in
  let n := set_tasks (task_create (at_create tm) task_id (af_action_id frame) (af_request_id frame) agent_nid
                        (nd_tasks n)) n in
  n ← remember app tm scope frame (idem_entry frame hash None None None (Some task_id)) n;
  Some (write_async_response app task_id "pending" (af_request_id frame) (as_timeout_ms_default spec),
        register_task task_id n).

Definition timed_out : NodeResponse :=
  error_resp 504 "NPS-SERVER-TIMEOUT" NODE_UNAVAILABLE "action execution timed out." None [].
Definition disconnected : NodeResponse :=
  error_resp 500 "NPS-SERVER-INTERNAL" NODE_UNAVAILABLE "action execution worker disconnected." None [].

Definition result_anchor (spec : ActionSpec) (result : ActionExecutionResult) : option string :=
  match er_anchor_ref result with Some a => Some a | None => as_result_anchor spec end.

Definition run_sync (app : ActionNodeApp) (tm : Readings) (flag : nat -> bool) (frame : ParsedActionFrame)
    (spec : ActionSpec) (scope hash : string) (outcome : Outcome) (n : ActionNode)
    : option (NodeResponse * ActionNode) :=
  match outcome with
  | Finished (Err e) => Some (error_of e, n)
  | TimedOut => Some (timed_out, n)
  | Disconnected => Some (disconnected, n)
  | Finished (Ok result) =>
    let anchor := result_anchor spec result in
    match er_stream result with
    | Some stream =>
      let '(response, completed) :=
        write_stream (gen_hex (at_hex tm) (nd_counter n)) flag stream (af_request_id frame) in
      let n := next_counter n in
      match completed with
      | Some frames =>
        n ← remember app tm scope frame (idem_entry frame hash None (Some frames) anchor None) n;
        Some (response, n)
      | None => Some (response, n)
      end
    | None =>
      n ← remember app tm scope frame (idem_entry frame hash (er_result result) None anchor None) n;
      Some (write_caps (er_result result) anchor (af_request_id frame) (er_token_est result), n)
    end
  end.

Definition admission_context (app : ActionNodeApp) (req : NodeRequest) (frame : ParsedActionFrame)
    (agent_nid : option string) (spec : ActionSpec) : ActionContext :=
  mkActionContext agent_nid (af_request_id frame) None spec (clamp_timeout (af_timeout_ms frame) spec (aa_opt app))
    (default "normal" (af_priority frame)) (Z.of_nat (length (nr_body req))).

(** The first half of an admitted request: the look into the cache, and the
    answer when it holds the key. *)
Definition invoke_lookup (app : ActionNodeApp) (tm : Readings) (flag : nat -> bool) (frame : ParsedActionFrame)
    (agent_nid : option string) (n : ActionNode) : option NodeResponse * ActionNode :=
  match af_idempotency_key frame with
  | None => (None, n)
  | Some key =>
    let '(cached, c) :=
      cache_lookup (at_lookup tm) (idempotency_cache_scope (af_action_id frame) agent_nid) key (nd_cache n) in
    let n := set_cache c n in
    match cached with
    | None => (None, n)
    | Some e =>
      if negb (String.eqb (ie_params_hash e) (hash_params (af_params frame)))
      then (Some (error_resp 409 "NPS-CLIENT-CONFLICT" ACTION_IDEMPOTENCY_CONFLICT
                    "idempotency_key reuse with different params." None []), n)
      else (Some (replay_cached app (gen_hex (at_hex tm) (nd_counter n)) flag frame e n),
            if is_set (ie_task_id e) then n else if is_set (ie_stream_frames e) then next_counter n else n)
    end
  end.

(** The second half, on the node as it is by then: no lock is held while the
    provider runs, so other requests act between the halves. *)
Definition invoke_finish (app : ActionNodeApp) (tm : Readings) (flag : nat -> bool) (frame : ParsedActionFrame)
    (agent_nid : option string) (spec : ActionSpec) (outcome : Outcome) (n : ActionNode)
    : option (NodeResponse * ActionNode) :=
  let hash := hash_params (af_params frame) in
  let scope := idempotency_cache_scope (af_action_id frame) agent_nid in
  if af_async frame then start_async app tm frame agent_nid spec scope hash n
  else run_sync app tm flag frame spec scope hash outcome n.

(** An admitted request whose halves nothing separates. *)
Definition invoke_admitted (app : ActionNodeApp) (tm : Readings) (flag : nat -> bool) (frame : ParsedActionFrame)
    (agent_nid : option string) (spec : ActionSpec) (outcome : Outcome) (n : ActionNode)
    : option (NodeResponse * ActionNode) :=
  match invoke_lookup app tm flag frame agent_nid n with
  | (Some resp, n) => Some (resp, n)
  | (None, n) => invoke_finish app tm flag frame agent_nid spec outcome n
  end.

(** [run] is what executing the admitted frame would come to. *)
Definition handle_invoke (app : ActionNodeApp) (tm : Readings) (flag : nat -> bool)
    (run : ParsedActionFrame -> ActionContext -> Outcome) (req : NodeRequest) (n : ActionNode)
    : option (NodeResponse * ActionNode) :=
  match parse_json (of_bytes (nr_body req)) with
  | Err e => Some (params_error e, n)
  | Ok body =>
    match action_from_json body with
    | Err e => Some (params_error e, n)
    | Ok frame =>
      let agent_nid := rq_header req "X-NWP-Agent" in
      if String.eqb (af_action_id frame) SYSTEM_TASK_STATUS
      then Some (handle_task_status frame agent_nid n, n)
      else if String.eqb (af_action_id frame) SYSTEM_TASK_CANCEL
      then Some (handle_task_cancel (at_create tm) frame agent_nid n)
      else
        match check_invoke app frame with
        | Err resp => Some (resp, n)
        | Ok spec =>
          let ctx := admission_context app req frame agent_nid spec in
          match aa_authorize app frame ctx with
          | Err e => Some (error_of e, n)
          | Ok _ => invoke_admitted app tm flag frame agent_nid spec (run frame ctx) n
          end
        end
    end
  end.

Definition action_handle (app : ActionNodeApp) (tm : Readings) (flag : nat -> bool)
    (run : ParsedActionFrame -> ActionContext -> Outcome) (req : NodeRequest) (n : ActionNode)
    : option (NodeResponse * ActionNode) :=
  match strip_prefix (aa_prefix app) (nr_path req) with
  | None => Some (empty_response 404, n)
  | Some sub =>
    if ao_require_auth (aa_opt app) && negb (is_set (rq_header req "X-NWP-Agent"))
    then Some (error_resp 401 "NPS-CLIENT-UNAUTHORIZED" AUTH_NID_SCOPE_VIOLATION
                 "X-NWP-Agent header is required." None [], n)
    else if one_of sub "/.nwm" "/.nwm/"
    then Some (mkNodeResponse 200 [("content-type", MIME_MANIFEST); ("x-nwp-node-type", "action")] (aa_nwm_json app), n)
    else if one_of sub "/.schema" "/.schema/" || one_of sub "/actions" "/actions/"
    then Some (mkNodeResponse 200 [("content-type", "application/json")] (aa_actions_json app), n)
    else if one_of sub "/invoke" "/invoke/"
    then (if negb (String.eqb (nr_method req) "POST") then Some (empty_response 405, n)
          else handle_invoke app tm flag run req n)
    else Some (empty_response 404, n)
  end.

(** ** The thread of an asynchronous task *)

(** Where the thread is: at the head of its loop, in [recv_timeout], about to
    cancel on the deadline, about to write the outcome it has decided on. *)
Inductive Phase : Type :=
| Spawned
| Polling
| Waiting
| Expiring
| Writing (w : option Value + Value)
| Closing
| Ended.

(** What a look at the clock or the channel meets. *)
Inductive Poll : Type :=
| Nothing
| Deadline
| Received (r : result ActionError ActionExecutionResult)
| WorkerGone.

Definition task_error_value (code message : string) : Value :=
  VObject [("code", VString code); ("message", VString message)].

(** One atomic step of the thread.  The handle it looks at is shared with the
    provider, which may cancel it itself ([provider_cancel]). *)
Definition thread_step (id : string) (now : Z) (poll : Poll) (ph : Phase) (n : ActionNode) : Phase * ActionNode :=
  match ph with
  | Spawned =>
    let '(started, t) := try_transition now id "pending" "running" (nd_tasks n) in
    (if started : bool then Polling else Closing, set_tasks t n)
  | Polling =>
    if handle_cancelled id n then (Closing, n)
    else (match poll with Deadline => Expiring | _ => Waiting end, n)
  | Waiting =>
    match poll with
    | Nothing | Deadline => (Polling, n)
    | Received r =>
      (if handle_cancelled id n then Closing
       else Writing (match r with
                     | Ok x => inl (er_result x)
                     | Err e => inr (task_error_value (xe_error_code e) (xe_message e))
                     end), n)
    | WorkerGone => (Writing (inr (task_error_value NODE_UNAVAILABLE "task worker disconnected")), n)
    end
  | Expiring => (Writing (inr (task_error_value NODE_UNAVAILABLE "task timed out")), cancel_task_handle id n)
  | Writing (inl v) => (Closing, set_tasks (snd (task_complete now id v (nd_tasks n))) n)
  | Writing (inr e) => (Closing, set_tasks (snd (task_fail now id e (nd_tasks n))) n)
  | Closing => (Ended, unregister_task id n)
  | Ended => (Ended, n)
  end.

(** [context.cancellation.cancel()] called by the provider of the task. *)
Definition provider_cancel (id : string) (n : ActionNode) : ActionNode := cancel_task_handle id n.
End app.
