(* ===== verification/NwpActionSpec.v ===== *)
(** * NwpActionSpec: what the Action Node guarantees

    Streams are well formed whatever the producer does and replay as they
    were; an idempotency key answers for its own caller and action alone, the
    same until it expires; a task only moves forward, and its thread leaves it
    concluded. *)

From S2P Require Import Prelude RustStr Floats Json CoreCache NopCallback NwpContext NwpMemory NwpAction.
Local Open Scope Z_scope.

Section streams.
Context `{StreamSerde}.

(** ** Streams *)

(** Frames numbered from [k], of which only the last may be terminal or carry
    an error. *)
Fixpoint contiguous (k : Z) (l : list ActionStreamFrame) : Prop :=
  match l with
  | [] => True
  | f :: r => sf_seq f = k /\ (r <> [] -> sf_is_last f = false /\ sf_error_code f = None) /\
              (sf_is_last f = false -> sf_error_code f = None) /\ contiguous (k + 1) r
  end.

Definition ends_terminal (l : list ActionStreamFrame) : bool :=
  match last l with Some f => sf_is_last f | None => false end.

(** The lines of a body. *)
Fixpoint lines (l : list ActionStreamFrame) (body : list Z) : Prop :=
  match l with
  | [] => body = []
  | f :: r => exists line rest, stream_frame_to_vec f = Ok line /\ body = line ++ 10 :: rest /\ lines r rest
  end.

Lemma lines_app l k a b : lines l a -> lines k b -> lines (l ++ k) (a ++ b).
Proof.
  revert a; induction l as [|f l IH]; cbn; intros a Ha Hb; [by subst |].
  destruct Ha as (line & rest & Hf & -> & Hr). exists line, (rest ++ b).
  split; [done |]. split; [by rewrite <-app_assoc |]. by apply IH.
Qed.

Lemma contiguous_snoc k l f : contiguous k l -> ends_terminal l = false ->
  sf_seq f = k + Z.of_nat (length l) -> (sf_is_last f = false -> sf_error_code f = None) -> contiguous k (l ++ [f]).
Proof.
  revert k; induction l as [|g l IH]; intros k Hc He Hs Hf; cbn [app contiguous length] in *.
  - split; [lia |]. split; [done |]. by split.
  - destruct Hc as (Hg & Hmid & Herr & Hr).
    assert (Hg' : sf_is_last g = false).
    { destruct l as [|x l]; [exact He |]. by apply Hmid. }
    split; [done |]. split; [by intros _; split; [|apply Herr] |]. split; [done |].
    apply IH; [done | | lia | done]. by destruct l.
Qed.

Lemma ends_terminal_snoc l f : ends_terminal (l ++ [f]) = sf_is_last f.
Proof. unfold ends_terminal. by rewrite last_snoc. Qed.

(** What the emitter keeps true. *)
Record emitter_ok (stream_id : string) (e : Emitter) : Prop := {
  eo_contiguous : contiguous 0 (em_emitted e);
  eo_seq : em_next_seq e = Z.of_nat (length (em_emitted e));
  eo_terminal : em_terminal e = ends_terminal (em_emitted e);
  eo_lines : lines (em_emitted e) (em_body e);
  eo_ids : Forall (fun f => sf_stream_id f = stream_id) (em_emitted e)
}.

Lemma emitter_new_ok stream_id : emitter_ok stream_id emitter_new.
Proof. split; [done | done | done | done | constructor]. Qed.

Lemma emit_ok stream_id c f e : emitter_ok stream_id e -> emitter_ok stream_id (snd (emit stream_id c f e)).
Proof.
  intros He. pose proof He as [Hc Hs Ht Hl Hi]. unfold emit.
  destruct c; [done |]. destruct (em_terminal e) eqn:Et; [done |].
  destruct (sf_seq f =? em_next_seq e) eqn:Eq; cbn [negb]; [|done]. apply Z.eqb_eq in Eq.
  destruct (is_set (sf_error_code f) && negb (sf_is_last f)) eqn:Ee; [done |].
  destruct (stream_frame_to_vec (with_stream_id stream_id f)) as [line|] eqn:Ev; [|done].
  split; cbn.
  - apply contiguous_snoc; [done | by rewrite <-Ht | cbn; lia |]. cbn. intros Hn. rewrite Hn in Ee.
    destruct (sf_error_code f); [done | done].
  - rewrite length_app. cbn. lia.
  - by rewrite ends_terminal_snoc.
  - apply lines_app; [done |]. cbn. exists line, []. done.
  - apply Forall_app. split; [done |]. repeat constructor.
Qed.

Lemma run_stream_ok stream_id flag s n e failure n' e' : emitter_ok stream_id e ->
  run_stream stream_id flag n e s = (failure, n', e') -> emitter_ok stream_id e'.
Proof.
  revert n e; induction s as [[[]|er]|f k IH]; intros n e He; cbn [run_stream].
  - by intros [= <- <- <-].
  - by intros [= <- <- <-].
  - pose proof (emit_ok stream_id (flag n) f e He) as He2.
    destruct (emit stream_id (flag n) f e) as [r e2]. apply IH. exact He2.
Qed.

(** The frames of an answer. *)
Record stream_ok (stream_id : string) (frames : list ActionStreamFrame) (body : list Z) : Prop := {
  so_contiguous : contiguous 0 frames;
  so_lines : lines frames body;
  so_ids : Forall (fun f => sf_stream_id f = stream_id) frames
}.

Lemma close_stream_ok stream_id c failure e : emitter_ok stream_id e ->
  stream_ok stream_id (em_emitted (close_stream stream_id c failure e)) (em_body (close_stream stream_id c failure e)).
Proof.
  intros [Hc Hs Ht Hl Hi]. assert (Hsame : stream_ok stream_id (em_emitted e) (em_body e)) by done.
  unfold close_stream. destruct failure as [er|]; [|done].
  destruct (em_terminal e) eqn:Et; [done |]. destruct c; [done |]. cbn [negb andb].
  destruct (stream_frame_to_vec _) as [line|] eqn:Ev; [|done]. split; cbn.
  - apply contiguous_snoc; [done | by rewrite <-Ht | cbn; lia | done].
  - apply lines_app; [done |]. by exists line, [].
  - apply Forall_app. split; [done |]. by repeat constructor.
Qed.

(** With a total serializer and no cancellation the answer is terminated. *)
Lemma close_stream_ends stream_id failure e : (forall f, is_ok (stream_frame_to_vec f) = true) ->
  emitter_ok stream_id e -> (failure = None -> em_terminal e = true) ->
  ends_terminal (em_emitted (close_stream stream_id false failure e)) = true.
Proof.
  intros Hser [Hc Hs Ht Hl Hi] Hf. unfold close_stream. destruct failure as [er|]; [|by rewrite <-Ht, Hf].
  destruct (em_terminal e) eqn:Et; [cbn; congruence |]. cbn [negb andb].
  match goal with |- context [stream_frame_to_vec ?x] => specialize (Hser x); destruct (stream_frame_to_vec x) end;
    [|done]. cbn. by rewrite ends_terminal_snoc.
Qed.

Lemma completed_frames_spec failure l fr : completed_frames failure l = Some fr <->
  failure = None /\ fr = l /\ exists f, last l = Some f /\ sf_error_code f = None.
Proof.
  unfold completed_frames. destruct failure as [er|]; [by split; [|intros (? & _)] |].
  destruct l as [|f m _] using rev_ind.
  - split; [done |]. intros (_ & _ & f & ? & _). done.
  - rewrite List.rev_app_distr, last_snoc. cbn. split.
    + destruct (sf_error_code f) eqn:E; [done |]. intros [= <-]. by repeat (split || eexists).
    + intros (_ & -> & g & [= <-] & ->). done.
Qed.

(** *** Replaying *)

Lemma with_stream_id_id sid f : sf_stream_id f = sid -> with_stream_id sid f = f.
Proof. destruct f. cbn. by intros ->. Qed.

Lemma replay_run sid flag fr : (forall f, is_ok (stream_frame_to_vec f) = true) -> (forall n, flag n = false) ->
  forall n e, emitter_ok sid e -> contiguous 0 (em_emitted e ++ map (with_stream_id sid) fr) ->
  (fr <> [] -> em_terminal e = false) ->
  exists n' e', run_stream sid flag n e (replay_stream fr) = (None, n', e') /\
    em_emitted e' = em_emitted e ++ map (with_stream_id sid) fr.
Proof.
  intros Hser Hflag. induction fr as [|f fr IH]; intros n e He Hc Ht; cbn [replay_stream run_stream map].
  - exists n, e. by rewrite app_nil_r.
  - assert (Hget : forall k l g r, contiguous k (l ++ g :: r) ->
      sf_seq g = k + Z.of_nat (length l) /\ (sf_is_last g = false -> sf_error_code g = None) /\
      (r <> [] -> sf_is_last g = false)).
    { clear. intros k l. revert k. induction l as [|x l IH]; intros k g r; cbn.
      - intros (? & Hm & ? & _). split; [lia |]. split; [done |]. intros Hr. by apply Hm.
      - intros (_ & _ & _ & Hr). apply IH in Hr as (? & ? & ?). split; [lia | done]. }
    destruct (Hget _ _ _ _ Hc) as (Hs & Herr & Hmid). cbn in Hs, Herr, Hmid.
    pose proof (emit_ok sid (flag n) f e He) as He'.
    assert (E : exists e', emit sid (flag n) f e = (Ok tt, e') /\ em_emitted e' = em_emitted e ++ [with_stream_id sid f] /\
      em_terminal e' = sf_is_last f).
    { unfold emit. rewrite Hflag, Ht by done. replace (sf_seq f =? em_next_seq e) with true
        by (symmetry; apply Z.eqb_eq; rewrite (eo_seq _ _ He); lia).
      replace (is_set (sf_error_code f) && negb (sf_is_last f)) with false
        by (destruct (sf_is_last f); [by rewrite andb_false_r | by rewrite Herr]). cbn [negb].
      specialize (Hser (with_stream_id sid f)). destruct (stream_frame_to_vec _); [|done]. by eexists. }
    destruct E as (e' & Ee & Hem & Ht'). rewrite Ee in He' |- *.
    destruct (IH (S n) e') as (n' & e2 & Er & Hem2).
    + exact He'.
    + by rewrite Hem, <-app_assoc.
    + intros Hne. rewrite Ht'. apply Hmid. by destruct fr.
    + exists n', e2. split; [exact Er |]. by rewrite Hem2, Hem, <-app_assoc.
Qed.

Lemma contiguous_with_stream_id sid k l : contiguous k l -> contiguous k (map (with_stream_id sid) l).
Proof.
  revert k; induction l as [|f l IH]; intros k; cbn; [done |]. intros (? & Hm & ? & ?).
  split; [done |]. split; [|auto]. intros Hne. apply Hm. by destruct l.
Qed.

(** Whatever a producer emits, and whenever it is cancelled, the body of a
    streamed answer is the serialization, line by line, of frames that carry
    the stream's identifier, are numbered from zero, and of which only the last
    may be terminal or report an error; unless cancelled, the last is terminal.
    The frames are kept for replay exactly when the producer succeeded and the
    last frame reports no error, and replaying them gives the same frames under
    the new stream's identifier. *)
Theorem stream_answer sid flag s rid resp done_ : (forall f, is_ok (stream_frame_to_vec f) = true) ->
  write_stream sid flag s rid = (resp, done_) ->
  exists frames, stream_ok sid frames (ns_body resp) /\ ns_status resp = 200 /\
    ((forall n, flag n = false) -> ends_terminal frames = true) /\
    (forall fr, done_ = Some fr -> fr = frames /\ ends_terminal fr = true /\
       exists f, last fr = Some f /\ sf_error_code f = None) /\
    (forall fr sid' never rid', done_ = Some fr -> (forall n, never n = false) ->
       exists resp', write_stream sid' never (replay_stream fr) rid' = (resp', Some (map (with_stream_id sid') fr)) /\
         stream_ok sid' (map (with_stream_id sid') fr) (ns_body resp')).
Proof.
  intros Hser. unfold write_stream.
  destruct (run_stream sid flag 0 emitter_new s) as [[failure n] e] eqn:Er.
  pose proof (run_stream_ok _ _ _ _ _ _ _ _ (emitter_new_ok sid) Er) as He.
  set (failure' := match failure with None => _ | some => some end).
  assert (Hf' : failure' = None -> em_terminal e = true) by (subst failure'; repeat case_match; done).
  intros [= <- <-]. cbn [ns_body ns_status].
  exists (em_emitted (close_stream sid (flag n) failure' e)).
  split; [by apply close_stream_ok |]. split; [done |].
  split; [intros Hnever; rewrite Hnever; by apply close_stream_ends |].
  assert (Hdone : forall fr, completed_frames failure' (em_emitted (close_stream sid (flag n) failure' e)) = Some fr ->
    failure' = None /\ fr = em_emitted e /\ ends_terminal fr = true /\ exists f, last fr = Some f /\ sf_error_code f = None).
  { intros fr Hfr. apply completed_frames_spec in Hfr as (Hn & -> & f & Hl & Hcode). rewrite Hn in *. cbn in *.
    split; [done |]. split; [done |]. split; [by rewrite <-(eo_terminal _ _ He), Hf' |]. by exists f. }
  split.
  { intros fr Hfr. destruct (Hdone fr Hfr) as (Hn & -> & Ht & Hl). rewrite Hn. by cbn. }
  intros fr sid' never rid' Hfr Hnever. destruct (Hdone fr Hfr) as (_ & -> & Ht & f & Hl & Hcode). clear Hdone Hfr.
  assert (Hc : contiguous 0 (map (with_stream_id sid') (em_emitted e)))
    by (apply contiguous_with_stream_id; apply He).
  destruct (replay_run sid' never (em_emitted e) Hser Hnever 0 emitter_new (emitter_new_ok sid') Hc (fun _ => eq_refl))
    as (n' & e' & Erun & Hem). rewrite Erun. cbn in Hem.
  pose proof (run_stream_ok _ _ _ _ _ _ _ _ (emitter_new_ok sid') Erun) as He'.
  assert (Hlast : last (em_emitted e') = Some (with_stream_id sid' f)) by (rewrite Hem; change (last (with_stream_id sid' <$> em_emitted e) = Some (with_stream_id sid' f)); by rewrite fmap_last, Hl).
  assert (Ht' : em_terminal e' = true).
  { rewrite (eo_terminal _ _ He'). unfold ends_terminal in *. rewrite Hlast. rewrite Hl in Ht. exact Ht. }
  rewrite Ht'. cbn [close_stream]. eexists. split.
  - f_equal. apply completed_frames_spec. split; [done |]. split; [done |]. rewrite Hlast. by eexists.
  - cbn [ns_body]. rewrite <-Hem. destruct He'. done.
Qed.
End streams.

Section node.
Context {D : Digests} `{JsonParser} `{ContextTime} `{StreamSerde}.

(** ** Idempotency *)

Definition no_separator (s : string) : Prop := lacks (ascii_of 31) s.

Lemma separated_inj a b x y : no_separator a -> no_separator b ->
  a +:+ unit_separator +:+ x = b +:+ unit_separator +:+ y -> a = b /\ x = y.
Proof.
  intros Ha Hb E. assert (Hs : forall s t, no_separator s ->
    split_once (ascii_of 31) (s +:+ unit_separator +:+ t) = Some (s, t))
    by (intros s t Hs; by apply split_once_spec).
  pose proof (Hs a x Ha) as E1. rewrite E, (Hs b y Hb) in E1. by simplify_eq.
Qed.

(** A caller's key: the action, the caller and the key of the request. *)
Definition caller_key (action_id : string) (agent_nid : option string) (key : string) : string :=
  cache_key (idempotency_cache_scope action_id agent_nid) key.

Lemma caller_key_inj a1 g1 k1 a2 g2 k2 :
  no_separator a1 -> no_separator a2 -> no_separator (default "" g1) -> no_separator (default "" g2) ->
  caller_key a1 g1 k1 = caller_key a2 g2 k2 -> a1 = a2 /\ default "" g1 = default "" g2 /\ k1 = k2.
Proof.
  intros Ha1 Ha2 Hg1 Hg2. unfold caller_key, cache_key, idempotency_cache_scope. rewrite !append_assoc.
  intros E. apply separated_inj in E as [-> E]; [|done..]. by apply separated_inj in E as [-> ->].
Qed.

Lemma cache_lookup_keeps now scope key c k e : c !! k = Some e -> now < ie_expires_at e ->
  snd (cache_lookup now scope key c) !! k = Some e.
Proof.
  intros Hk Hn. unfold cache_lookup. destruct (c !! cache_key scope key) as [e0|] eqn:E; [|done].
  destruct (ie_expires_at e0 <=? now) eqn:En; [|done]. cbn. apply Z.leb_le in En.
  rewrite lookup_delete_ne; [done |]. intros <-. simplify_eq. lia.
Qed.

Lemma try_store_keeps now scope key entry c k e : c !! k = Some e -> now < ie_expires_at e ->
  snd (try_store now scope key entry c) !! k = Some e.
Proof.
  intros Hk Hn. unfold try_store. destruct (decide (cache_key scope key = k)) as [->|Hne].
  - rewrite Hk. by destruct (Z.ltb_spec now (ie_expires_at e)); [|lia].
  - destruct (c !! cache_key scope key) as [e0|]; [destruct (now <? ie_expires_at e0) |]; cbn; [done | ..];
      by rewrite lookup_insert_ne.
Qed.

(** What a node does before its clock shows [t]: whole requests; the two halves
    of requests that overlap with others; the threads of the tasks; and
    providers that cancel the handle of their own task. *)
Inductive node_step (app : ActionNodeApp) (t : Z) (n : ActionNode) : ActionNode -> Prop :=
| node_invoke tm flag run req resp n' : at_lookup tm < t -> at_store tm < t ->
    handle_invoke app tm flag run req n = Some (resp, n') -> node_step app t n n'
| node_lookup tm flag frame agent : at_lookup tm < t ->
    node_step app t n (snd (invoke_lookup app tm flag frame agent n))
| node_finish tm flag frame agent spec outcome resp n' : at_store tm < t ->
    invoke_finish app tm flag frame agent spec outcome n = Some (resp, n') -> node_step app t n n'
| node_thread id now poll ph : node_step app t n (snd (thread_step id now poll ph n))
| node_provider id : node_step app t n (provider_cancel id n).

Definition node_history (app : ActionNodeApp) (t : Z) : ActionNode -> ActionNode -> Prop := rtc (node_step app t).

Lemma remember_keeps app tm scope frame entry n n' k e : nd_cache n !! k = Some e -> at_store tm < ie_expires_at e ->
  remember app tm scope frame entry n = Some n' -> nd_cache n' !! k = Some e.
Proof.
  intros Hk Ht. unfold remember. destruct (af_idempotency_key frame); [|by intros [= <-]].
  destruct (instant_add _ _) as [x|]; [|done]. cbn. intros [= <-]. cbn. by apply try_store_keeps.
Qed.

Lemma invoke_lookup_keeps app tm flag frame agent n k e :
  nd_cache n !! k = Some e -> at_lookup tm < ie_expires_at e ->
  nd_cache (snd (invoke_lookup app tm flag frame agent n)) !! k = Some e.
Proof.
  intros Hk Hl. unfold invoke_lookup. destruct (af_idempotency_key frame) as [key|]; [|done].
  pose proof (cache_lookup_keeps (at_lookup tm) (idempotency_cache_scope (af_action_id frame) agent) key _ _ _ Hk Hl).
  destruct (cache_lookup _ _ _ _) as [[c|] m]; [|done]. by repeat case_match.
Qed.

Lemma invoke_finish_keeps app tm flag frame agent spec outcome n resp n' k e :
  nd_cache n !! k = Some e -> at_store tm < ie_expires_at e ->
  invoke_finish app tm flag frame agent spec outcome n = Some (resp, n') -> nd_cache n' !! k = Some e.
Proof.
  intros Hk Hs. unfold invoke_finish. destruct (af_async frame).
  - unfold start_async. set (n2 := set_tasks _ _). destruct (remember _ _ _ _ _ n2) as [n3|] eqn:Er; [|done].
    cbn. intros [= <- <-]. cbn. eapply (remember_keeps _ _ _ _ _ n2); [exact Hk | done | exact Er].
  - unfold run_sync. destruct outcome as [[r|er]| |]; [|by intros [= <- <-]..].
    destruct (er_stream r) as [st|].
    + destruct (write_stream _ _ _ _) as [rs [frames|]]; [|by intros [= <- <-]].
      destruct (remember _ _ _ _ _ _) as [n3|] eqn:Er; [|done]. cbn. intros [= <- <-].
      eapply remember_keeps; [| |exact Er]; done.
    + destruct (remember _ _ _ _ _ _) as [n3|] eqn:Er; [|done]. cbn. intros [= <- <-].
      eapply remember_keeps; [| |exact Er]; done.
Qed.

Lemma invoke_admitted_keeps app tm flag frame agent spec outcome n resp n' k e :
  nd_cache n !! k = Some e -> at_lookup tm < ie_expires_at e -> at_store tm < ie_expires_at e ->
  invoke_admitted app tm flag frame agent spec outcome n = Some (resp, n') -> nd_cache n' !! k = Some e.
Proof.
  intros Hk Hl Hs. unfold invoke_admitted. pose proof (invoke_lookup_keeps app tm flag frame agent n k e Hk Hl) as Hn1.
  destruct (invoke_lookup _ _ _ _ _ _) as [[r|] n1]; cbn [snd] in Hn1; [by intros [= <- <-] |].
  by apply invoke_finish_keeps.
Qed.

Lemma task_cancel_half_cache now id frame n : nd_cache (snd (apply_task_cancel now id frame n)) = nd_cache n.
Proof. unfold apply_task_cancel. cbn. by case_match. Qed.

Lemma handle_invoke_cases app tm flag run req n resp n' : handle_invoke app tm flag run req n = Some (resp, n') ->
  n' = n \/
  (exists id frame, is_Some (nd_tasks n !! id) /\ n' = snd (apply_task_cancel (at_create tm) id frame n)) \/
  exists frame agent spec outcome, invoke_admitted app tm flag frame agent spec outcome n = Some (resp, n').
Proof.
  unfold handle_invoke. destruct (parse_json _) as [body|]; [|intros [= _ <-]; by left].
  destruct (action_from_json body) as [frame|]; [|intros [= _ <-]; by left].
  destruct (String.eqb _ SYSTEM_TASK_STATUS); [intros [= _ <-]; by left |].
  destruct (String.eqb _ SYSTEM_TASK_CANCEL).
  - unfold handle_task_cancel. destruct (owned_task _ _ _) as [r|] eqn:Eo; [|intros [= _ <-]; by left].
    destruct (task_terminal _); [intros [= _ <-]; by left |]. intros E. right. left.
    exists (default "" (read_string_param (af_params frame) "task_id")), frame.
    split; [clear E | by injection E as _ <-].
    unfold owned_task in Eo. apply result_bind_Ok in Eo as (id & Hid & Eo). apply result_bind_Ok in Eo as (r' & Hr & _).
    apply ok_or_Ok in Hid, Hr. destruct (read_string_param _ _) as [t|]; [|done]. cbn in Hid |- *.
    destruct (is_empty t); [done |]. simplify_eq. by exists r'.
  - destruct (check_invoke app frame); [|intros [= _ <-]; by left].
    destruct (aa_authorize _ _ _); [|intros [= _ <-]; by left]. intros E. right. right. by eexists _, _, _, _.
Qed.

Lemma node_history_keeps app t n n' k e : node_history app t n n' -> nd_cache n !! k = Some e ->
  t <= ie_expires_at e -> nd_cache n' !! k = Some e.
Proof.
  intros Hh Hk Ht. induction Hh as [|n m n' Hstep _ IH]; [done |]. apply IH.
  destruct Hstep as [tm flag run req resp m Hl Hs E|tm flag frame agent Hl|tm flag frame agent spec outcome resp m Hs E|
    id now poll ph|id].
  - apply handle_invoke_cases in E as [->|[(id & frame & _ & ->)|(frame & agent & spec & outcome & E)]]; [done | |].
    + by rewrite task_cancel_half_cache.
    + eapply invoke_admitted_keeps; [exact Hk | | |exact E]; lia.
  - apply invoke_lookup_keeps; [done | lia].
  - eapply invoke_finish_keeps; [exact Hk | |exact E]; lia.
  - unfold thread_step. repeat (case_match; try done).
  - done.
Qed.

Lemma cache_lookup_live now scope key c e : c !! cache_key scope key = Some e -> now < ie_expires_at e ->
  cache_lookup now scope key c = (Some e, c).
Proof. intros Hk Hn. unfold cache_lookup. rewrite Hk. by destruct (Z.leb_spec (ie_expires_at e) now); [lia |]. Qed.

(** A lookup of another key sees what it saw before. *)
Lemma cache_lookup_other now scope key c k e : cache_key scope key <> k ->
  fst (cache_lookup now scope key (<[k := e]> c)) = fst (cache_lookup now scope key c).
Proof. intros Hne. unfold cache_lookup. rewrite lookup_insert_ne by done. by repeat case_match. Qed.

Lemma set_cache_same n : set_cache (nd_cache n) n = n.
Proof. by destruct n. Qed.

(** A live entry under a key. *)
Definition held (now : Z) (k : string) (c : IdempotencyMap) : option IdempotentEntry :=
  e ← c !! k; if now <? ie_expires_at e then Some e else None.

(** What a successful call without a stream leaves in the cache when its
    provider is done: its own result, or the entry another call left there
    meanwhile.  Either way it answers with its own result. *)
Lemma sync_call_effect app tm flag frame agent spec r n resp n1 key :
  af_async frame = false -> er_stream r = None -> af_idempotency_key frame = Some key ->
  invoke_finish app tm flag frame agent spec (Finished (Ok r)) n = Some (resp, n1) ->
  exists expires,
    instant_add (at_entry tm) (ao_idempotency_ttl (aa_opt app)) = Some expires /\
    resp = write_caps (er_result r) (result_anchor spec r) (af_request_id frame) (er_token_est r) /\
    let k := caller_key (af_action_id frame) agent key in
    nd_cache n1 !! k = Some (default (idem_entry frame (hash_params (af_params frame)) (er_result r) None
                                        (result_anchor spec r) None expires) (held (at_store tm) k (nd_cache n))) /\
    forall k', k' <> k -> nd_cache n1 !! k' = nd_cache n !! k'.
Proof.
  intros Ha Hs Hk. unfold invoke_finish. rewrite Ha. cbn [run_sync]. rewrite Hs. unfold remember. rewrite Hk.
  destruct (instant_add _ _) as [expires|] eqn:Ei; [|done]. cbn. intros [= <- <-].
  exists expires. split; [done |]. split; [done |]. cbn. unfold try_store, held.
  fold (caller_key (af_action_id frame) agent key).
  destruct (nd_cache n !! caller_key (af_action_id frame) agent key) as [e0|] eqn:E0; cbn;
    [destruct (at_store tm <? ie_expires_at e0); cbn |]; rewrite ?E0, ?lookup_insert_eq;
    (split; [done |]); intros k' Hk'; by rewrite ?lookup_insert_ne.
Qed.

(** A call that fails, times out or loses its worker leaves no entry: the next
    call under the key runs again. *)
Lemma failed_call_keeps_nothing app tm flag frame agent spec outcome n resp n1 :
  af_async frame = false -> (forall r, outcome <> Finished (Ok r)) ->
  invoke_finish app tm flag frame agent spec outcome n = Some (resp, n1) -> n1 = n.
Proof.
  intros Ha Ho. unfold invoke_finish. rewrite Ha. unfold run_sync.
  destruct outcome as [[r|e]| |]; [by destruct (Ho r) | intros [= _ <-]..]; done.
Qed.

(** Where a key is held, a request of its caller is answered from the entry. *)
Lemma held_answers app tm flag frame agent spec outcome n key e :
  af_idempotency_key frame = Some key -> nd_cache n !! caller_key (af_action_id frame) agent key = Some e ->
  at_lookup tm < ie_expires_at e -> ie_task_id e = None -> ie_stream_frames e = None ->
  invoke_admitted app tm flag frame agent spec outcome n =
  if String.eqb (ie_params_hash e) (hash_params (af_params frame))
  then Some (write_caps (ie_result e) (ie_anchor_ref e) (af_request_id frame) 0, n)
  else Some (error_resp 409 "NPS-CLIENT-CONFLICT" ACTION_IDEMPOTENCY_CONFLICT
               "idempotency_key reuse with different params." None [], n).
Proof.
  intros Hk He Ht Htask Hst. unfold invoke_admitted, invoke_lookup. rewrite Hk.
  rewrite (cache_lookup_live _ _ _ _ _ He Ht), set_cache_same, Htask, Hst.
  destruct (String.eqb _ _); cbn [negb]; [|done]. unfold replay_cached. by rewrite Htask, Hst.
Qed.

(** C29: a completed call holds its key.  Take a synchronous call under a key
    whose provider succeeds without a stream, at the moment its provider is
    done, whatever calls overlapped with it.  It answers with its own result.
    If no other call of the same caller, action and key has completed and is
    still remembered, then from then until the entry expires, whatever requests
    (overlapping ones included), threads and providers do meanwhile, every
    request of that caller, action and key is answered with this result,
    without being executed, when its parameters hash as this call's did, and
    with a conflict otherwise; if another call has completed first, its entry
    stays, and this call has executed as well, though its key was taken.  No
    request of another caller, action or key finds anything it would not have
    found before.  (Calls that fail, time out or lose their worker hold
    nothing: [failed_call_keeps_nothing].) *)
Theorem idempotent_replay app tm flag frame agent spec r n resp n1 key :
  af_async frame = false -> er_stream r = None -> af_idempotency_key frame = Some key ->
  invoke_finish app tm flag frame agent spec (Finished (Ok r)) n = Some (resp, n1) ->
  resp = write_caps (er_result r) (result_anchor spec r) (af_request_id frame) (er_token_est r) /\
  match held (at_store tm) (caller_key (af_action_id frame) agent key) (nd_cache n) with
  | Some e => nd_cache n1 = nd_cache n
  | None =>
    exists expires, instant_add (at_entry tm) (ao_idempotency_ttl (aa_opt app)) = Some expires /\
    forall n2 tm2 flag2 frame2 spec2 outcome2, node_history app expires n1 n2 -> at_lookup tm2 < expires ->
       af_action_id frame2 = af_action_id frame -> af_idempotency_key frame2 = Some key ->
       invoke_admitted app tm2 flag2 frame2 agent spec2 outcome2 n2 =
       if String.eqb (hash_params (af_params frame)) (hash_params (af_params frame2))
       then Some (write_caps (er_result r) (result_anchor spec r) (af_request_id frame2) 0, n2)
       else Some (error_resp 409 "NPS-CLIENT-CONFLICT" ACTION_IDEMPOTENCY_CONFLICT
                    "idempotency_key reuse with different params." None [], n2)
  end /\
  (forall t action2 agent2 key2, no_separator (af_action_id frame) -> no_separator action2 ->
       no_separator (default "" agent) -> no_separator (default "" agent2) ->
       (action2, default "" agent2, key2) <> (af_action_id frame, default "" agent, key) ->
       fst (cache_lookup t (idempotency_cache_scope action2 agent2) key2 (nd_cache n1)) =
       fst (cache_lookup t (idempotency_cache_scope action2 agent2) key2 (nd_cache n))).
Proof.
  intros Ha Hs Hk E.
  destruct (sync_call_effect _ _ _ _ _ _ _ _ _ _ _ Ha Hs Hk E) as (expires & Ei & Hr & He & Ho).
  split; [done |]. split.
  - destruct (held _ _ _) as [e|] eqn:Eh; cbn [default] in He.
    + apply map_eq. intros k'. destruct (decide (k' = caller_key (af_action_id frame) agent key)) as [->|Hne]; [|by apply Ho].
      rewrite He. unfold held in Eh. destruct (nd_cache n !! _); [|done]. cbn in Eh. by case_match; simplify_eq.
    + exists expires. split; [done |]. intros n2 tm2 flag2 frame2 spec2 outcome2 Hh Ht2 Hact Hkey.
      pose proof (node_history_keeps _ _ _ _ _ _ Hh He ltac:(cbn; lia)) as He2. rewrite <-Hact in He2.
      by rewrite (held_answers _ _ _ _ _ _ _ _ _ _ Hkey He2).
  - intros t action2 agent2 key2 Hs1 Hs2 Hs3 Hs4 Hne.
    assert (Hk2 : caller_key action2 agent2 key2 <> caller_key (af_action_id frame) agent key).
    { intros Ek. apply caller_key_inj in Ek as (-> & Eg & ->); [|done..]. congruence. }
    unfold cache_lookup. fold (caller_key action2 agent2 key2). rewrite (Ho _ Hk2). by repeat case_match.
Qed.

(** ** Tasks *)

Definition rank (status : string) : nat :=
  if task_terminal status then 2 else if String.eqb status "running" then 1 else 0.

(** From [r] to [r']: the task is the same, its status only moves forward, and
    what it came to is final. *)
Record advances (r r' : ActionTaskRecord) : Prop := {
  adv_identity : (at_task_id r', at_action_id r', at_request_id r', at_agent_nid r', at_created_at r')
               = (at_task_id r, at_action_id r, at_request_id r, at_agent_nid r, at_created_at r);
  adv_rank : (rank (at_status r) <= rank (at_status r'))%nat;
  adv_final : task_terminal (at_status r) = true ->
    (at_status r', at_result r', at_error r') = (at_status r, at_result r, at_error r)
}.

#[local] Instance advances_preorder : PreOrder advances.
Proof.
  split.
  - intros r. by split.
  - intros a b c [Hi Hr Hf] [Hi' Hr' Hf']. split; [congruence | lia |].
    intros Ht. specialize (Hf Ht). rewrite Hf'; [done |]. congruence.
Qed.

Definition status_known (s : string) : Prop :=
  s = "pending" \/ s = "running" \/ s = "completed" \/ s = "failed" \/ s = "cancelled".

(** Every task of [t] is still in [t'], further on. *)
Definition table_advances (t t' : TaskTable) : Prop :=
  forall id r, t !! id = Some r -> exists r', t' !! id = Some r' /\ advances r r'.

#[local] Instance table_advances_preorder : PreOrder table_advances.
Proof.
  split; [intros t id r E; by exists r |]. intros a b c Hab Hbc id r E.
  destruct (Hab id r E) as (r1 & E1 & A1). destruct (Hbc id r1 E1) as (r2 & E2 & A2).
  exists r2. split; [done |]. by transitivity r1.
Qed.

Lemma table_advances_insert t id r r' : t !! id = Some r -> advances r r' -> table_advances t (<[id := r']> t).
Proof.
  intros E A id' r0 E0. destruct (decide (id = id')) as [->|Hne].
  - simplify_eq. exists r'. by rewrite lookup_insert_eq.
  - exists r0. by rewrite lookup_insert_ne.
Qed.

Lemma rank_terminal s : task_terminal s = true -> rank s = 2%nat.
Proof. unfold rank. by intros ->. Qed.

Lemma rank_le_2 s : (rank s <= 2)%nat.
Proof. unfold rank. repeat case_match; lia. Qed.

Lemma end_task_advances id f t : (forall r, task_terminal (at_status (f r)) = true) ->
  (forall r, (at_task_id (f r), at_action_id (f r), at_request_id (f r), at_agent_nid (f r), at_created_at (f r))
           = (at_task_id r, at_action_id r, at_request_id r, at_agent_nid r, at_created_at r)) ->
  table_advances t (snd (end_task id f t)).
Proof.
  intros Hf Hi. unfold end_task. destruct (t !! id) as [r|] eqn:E; [|done].
  destruct (task_terminal (at_status r)) eqn:Et; [done |]. cbn. eapply table_advances_insert; [exact E |].
  split; [apply Hi | rewrite (rank_terminal _ (Hf r)); apply rank_le_2 | congruence].
Qed.

Lemma end_task_lookup id f t : (forall r, task_terminal (at_status (f r)) = true) ->
  (forall id', id' <> id -> snd (end_task id f t) !! id' = t !! id') /\
  (forall r, snd (end_task id f t) !! id = Some r -> task_terminal (at_status r) = true).
Proof.
  intros Hf. unfold end_task. destruct (t !! id) as [r|] eqn:E.
  - destruct (task_terminal (at_status r)) eqn:Et; cbn.
    + split; [done |]. intros r' E'. congruence.
    + split; [intros; by rewrite lookup_insert_ne |]. intros r'. rewrite lookup_insert_eq. intros [= <-]. apply Hf.
  - split; [done |]. intros r' E'. cbn in E'. congruence.
Qed.

(** *** The node with the threads of its tasks *)

(** [sys_own]: the tasks whose provider has cancelled its own handle. *)
Record Sys : Type := mkSys { sys_node : ActionNode; sys_threads : gmap string Phase; sys_own : gset string }.

(** The task a request created gets a thread. *)
Definition start_thread (tm : Readings) (n n' : ActionNode) (threads : gmap string Phase) : gmap string Phase :=
  let id := gen_hex (at_hex tm) (nd_counter n) in
  match nd_tasks n !! id, nd_tasks n' !! id with
  | None, Some _ => <[id := Spawned]> threads
  | _, _ => threads
  end.

Variable app : ActionNodeApp.

(** Requests, with identifiers not yet in use, whole or by halves that others
    separate; the second half of a cancel request whose first half found the
    task; the steps of the threads; and what the provider of a task does besides
    executing it: progress reports, and cancelling the handle it was given. *)
Inductive sys_step : Sys -> Sys -> Prop :=
| sys_invoke tm flag run req n th own resp n' : nd_tasks n !! gen_hex (at_hex tm) (nd_counter n) = None ->
    handle_invoke app tm flag run req n = Some (resp, n') ->
    sys_step (mkSys n th own) (mkSys n' (start_thread tm n n' th) own)
| sys_lookup tm flag frame agent n th own :
    sys_step (mkSys n th own) (mkSys (snd (invoke_lookup app tm flag frame agent n)) th own)
| sys_finish tm flag frame agent spec outcome n th own resp n' :
    nd_tasks n !! gen_hex (at_hex tm) (nd_counter n) = None ->
    invoke_finish app tm flag frame agent spec outcome n = Some (resp, n') ->
    sys_step (mkSys n th own) (mkSys n' (start_thread tm n n' th) own)
| sys_cancel now id frame n th own : is_Some (nd_tasks n !! id) ->
    sys_step (mkSys n th own) (mkSys (snd (apply_task_cancel now id frame n)) th own)
| sys_thread id now poll ph ph' n n' th own : th !! id = Some ph -> thread_step id now poll ph n = (ph', n') ->
    sys_step (mkSys n th own) (mkSys n' (<[id := ph']> th) own)
| sys_progress now id p n th own :
    sys_step (mkSys n th own) (mkSys (set_tasks (snd (update_progress now id p (nd_tasks n))) n) th own)
| sys_provider id n th own : is_Some (th !! id) ->
    sys_step (mkSys n th own) (mkSys (provider_cancel id n) th ({[id]} ∪ own)).

Definition sys_run : Sys -> Sys -> Prop := rtc sys_step.
Definition sys_new : Sys := mkSys action_node_new ∅ ∅.

(** What is known of a task while its thread is in a phase; [own] when its
    provider cancelled the handle. *)
Definition phase_ok (ph : Phase) (status : string) (flag own : bool) : Prop :=
  match ph with
  | Spawned => (status = "pending" \/ task_terminal status = true) /\
               (flag = true -> own = true \/ task_terminal status = true)
  | Polling | Waiting => (status = "running" \/ task_terminal status = true) /\
                         (flag = true -> own = true \/ task_terminal status = true)
  | Expiring | Writing _ => status = "running" \/ task_terminal status = true
  | Closing | Ended => task_terminal status = true \/ own = true /\ status = "running"
  end.

Definition task_ok (s : Sys) (id : string) : Prop :=
  match nd_tasks (sys_node s) !! id, sys_threads s !! id with
  | Some r, Some ph => phase_ok ph (at_status r) (handle_cancelled id (sys_node s)) (bool_decide (id ∈ sys_own s))
  | None, None => id ∉ sys_own s
  | _, _ => False
  end.

Definition sys_ok (s : Sys) : Prop := forall id, task_ok s id.

Lemma phase_ok_terminal ph s flag own : task_terminal s = true -> phase_ok ph s flag own.
Proof. intros Hs. destruct ph; cbn; auto. Qed.

Lemma task_ok_terminal s id r : nd_tasks (sys_node s) !! id = Some r -> is_Some (sys_threads s !! id) ->
  task_terminal (at_status r) = true -> task_ok s id.
Proof. intros E [ph Eth] Hr. unfold task_ok. rewrite E, Eth. by apply phase_ok_terminal. Qed.

Lemma task_ok_same s s' id : nd_tasks (sys_node s') !! id = nd_tasks (sys_node s) !! id ->
  sys_threads s' !! id = sys_threads s !! id ->
  handle_cancelled id (sys_node s') = handle_cancelled id (sys_node s) ->
  (id ∈ sys_own s' <-> id ∈ sys_own s) -> task_ok s id -> task_ok s' id.
Proof.
  unfold task_ok. intros -> -> -> Ho. repeat case_match; rewrite ?Ho; [|done..].
  by rewrite (bool_decide_ext _ _ Ho).
Qed.

Lemma cancelled_other id id' n : id' <> id -> handle_cancelled id' (cancel_task_handle id n) = handle_cancelled id' n.
Proof. intros Hne. unfold handle_cancelled, cancel_task_handle. cbn. by rewrite lookup_alter_ne. Qed.

Lemma task_cancel_half now id frame n :
  table_advances (nd_tasks n) (nd_tasks (snd (apply_task_cancel now id frame n))) /\
  (forall id', id' <> id -> nd_tasks (snd (apply_task_cancel now id frame n)) !! id' = nd_tasks n !! id' /\
     handle_cancelled id' (snd (apply_task_cancel now id frame n)) = handle_cancelled id' n) /\
  (is_Some (nd_tasks n !! id) -> exists r, nd_tasks (snd (apply_task_cancel now id frame n)) !! id = Some r /\
     task_terminal (at_status r) = true).
Proof.
  assert (Ht : nd_tasks (snd (apply_task_cancel now id frame n)) = snd (task_cancel now id (nd_tasks n)))
    by (unfold apply_task_cancel; cbn; by case_match).
  assert (Hadv : table_advances (nd_tasks n) (snd (task_cancel now id (nd_tasks n)))) by by apply end_task_advances.
  destruct (end_task_lookup id (with_status now "cancelled") (nd_tasks n)) as [Ho Hi]; [done |].
  rewrite Ht. split; [done |]. split.
  - intros id' Hne. split; [by apply Ho |]. unfold apply_task_cancel. cbn. case_match; [|done].
    by rewrite cancelled_other.
  - intros [r Er]. destruct (Hadv id r Er) as (r' & Er' & _). exists r'. split; [done |]. by apply Hi.
Qed.

Lemma thread_end_task id f n ph th own : (forall r, task_terminal (at_status (f r)) = true) ->
  sys_ok (mkSys n th own) -> is_Some (th !! id) ->
  sys_ok (mkSys (set_tasks (snd (end_task id f (nd_tasks n))) n) (<[id := ph]> th) own).
Proof.
  intros Hf Hok [ph0 Eth] id'. destruct (end_task_lookup id f (nd_tasks n) Hf) as [Ho Hi].
  destruct (decide (id' = id)) as [->|Hne].
  - pose proof (Hok id) as Hid. unfold task_ok in Hid. cbn in Hid. rewrite Eth in Hid.
    destruct (nd_tasks n !! id) as [r|] eqn:Er; [|done].
    assert (Hr : exists r', snd (end_task id f (nd_tasks n)) !! id = Some r').
    { unfold end_task. rewrite Er. case_match; cbn; [by exists r | eexists; apply lookup_insert_eq]. }
    destruct Hr as [r' Er']. eapply task_ok_terminal; [exact Er' | cbn; rewrite lookup_insert_eq; by eexists | by apply Hi].
  - eapply task_ok_same; [| | | |apply Hok]; cbn; [by apply Ho | by rewrite lookup_insert_ne | done | done].
Qed.

(** A step that changes the thread of one task and leaves the others alone. *)
Lemma thread_moves id n n' th own ph r : sys_ok (mkSys n th own) -> nd_tasks n' = nd_tasks n ->
  nd_tasks n !! id = Some r -> (forall id', id' <> id -> handle_cancelled id' n' = handle_cancelled id' n) ->
  phase_ok ph (at_status r) (handle_cancelled id n') (bool_decide (id ∈ own)) ->
  sys_ok (mkSys n' (<[id := ph]> th) own) /\ table_advances (nd_tasks n) (nd_tasks n').
Proof.
  intros Hok Et Er Hc Hph. rewrite Et. split; [|done]. intros id'. destruct (decide (id' = id)) as [->|Hne].
  - unfold task_ok. cbn. by rewrite Et, Er, lookup_insert_eq.
  - eapply task_ok_same; [| | | |apply Hok]; cbn; [by rewrite Et | by rewrite lookup_insert_ne | by apply Hc | done].
Qed.

(** A step of a thread keeps the invariant, and moves its task forward. *)
Lemma thread_step_ok id now poll ph ph' n n' th own : sys_ok (mkSys n th own) -> th !! id = Some ph ->
  thread_step id now poll ph n = (ph', n') ->
  sys_ok (mkSys n' (<[id := ph']> th) own) /\ table_advances (nd_tasks n) (nd_tasks n').
Proof.
  intros Hok Eth E. pose proof (Hok id) as Hid. unfold task_ok in Hid. cbn in Hid. rewrite Eth in Hid.
  destruct (nd_tasks n !! id) as [r|] eqn:Er; [|done].
  assert (Hsome : is_Some (th !! id)) by by exists ph.
  assert (Hstay : forall ph2, phase_ok ph2 (at_status r) (handle_cancelled id n) (bool_decide (id ∈ own)) ->
    sys_ok (mkSys n (<[id := ph2]> th) own) /\ table_advances (nd_tasks n) (nd_tasks n))
    by (intros ph2 Hph; by eapply thread_moves).
  (** Where the handle is found cancelled the thread may close. *)
  assert (Hclose : (at_status r = "running" \/ task_terminal (at_status r) = true) ->
    (handle_cancelled id n = true -> bool_decide (id ∈ own) = true \/ task_terminal (at_status r) = true) ->
    handle_cancelled id n = true -> phase_ok Closing (at_status r) (handle_cancelled id n) (bool_decide (id ∈ own))).
  { intros Hs Hf Hc. cbn. destruct Hs as [Hs|Hs]; [|by left]. destruct (Hf Hc); [by right | by left]. }
  destruct ph as [| | | |[v|e]| |]; cbn in Hid; cbn [thread_step] in E.
  - (* Spawned *)
    unfold try_transition in E. rewrite Er in E. destruct Hid as [Hs Hfl].
    destruct (String.eqb_spec (at_status r) "pending") as [Ep|Ep]; injection E as <- <-.
    + split.
      * intros id'. destruct (decide (id' = id)) as [->|Hne].
        -- unfold task_ok. cbn. rewrite !lookup_insert_eq. cbn. split; [by left |].
           intros Hc. apply Hfl in Hc as [Hc|Hc]; [by left|]. rewrite Ep in Hc. done.
        -- eapply task_ok_same; [| | | |apply Hok]; cbn; by rewrite ?lookup_insert_ne.
      * cbn. eapply table_advances_insert; [exact Er |]. split; cbn; [done | rewrite Ep; cbn; lia |].
        by rewrite Ep.
    + destruct Hs as [?|Hs]; [done |]. replace (set_tasks (nd_tasks n) n) with n by by destruct n.
      apply Hstay. by left.
  - (* Polling *)
    destruct (handle_cancelled id n) eqn:Ec; injection E as <- <-; apply Hstay; destruct Hid as [Hs Hf].
    + by apply Hclose.
    + destruct poll; cbn; by rewrite ?Ec.
  - (* Waiting *)
    destruct poll as [| |rr|]; [injection E as <- <-; by apply Hstay..| |injection E as <- <-; apply Hstay; by destruct Hid].
    destruct (handle_cancelled id n) eqn:Ec; injection E as <- <-; apply Hstay; destruct Hid as [Hs Hf];
      [by apply Hclose | done].
  - (* Expiring *)
    injection E as <- <-. eapply thread_moves; [exact Hok | done | exact Er | intros; by apply cancelled_other | exact Hid].
  - injection E as <- <-. split; [by apply thread_end_task | by apply end_task_advances].
  - injection E as <- <-. split; [by apply thread_end_task | by apply end_task_advances].
  - (* Closing *)
    injection E as <- <-. by eapply thread_moves.
  - injection E as <- <-. by apply Hstay.
Qed.

Lemma remember_tasks app' tm scope frame entry n n' : remember app' tm scope frame entry n = Some n' ->
  nd_tasks n' = nd_tasks n /\ nd_handles n' = nd_handles n.
Proof.
  unfold remember. destruct (af_idempotency_key frame); [|by intros [= <-]].
  destruct (instant_add _ _); [|done]. by intros [= <-].
Qed.

(** A lookup leaves the tasks alone. *)
Lemma invoke_lookup_tasks tm flag frame agent n : let n' := snd (invoke_lookup app tm flag frame agent n) in
  nd_tasks n' = nd_tasks n /\ nd_handles n' = nd_handles n /\ (fst (invoke_lookup app tm flag frame agent n) = None -> nd_counter n' = nd_counter n).
Proof.
  unfold invoke_lookup. destruct (af_idempotency_key frame); [|done]. destruct (cache_lookup _ _ _ _) as [[e|] c]; [|done].
  destruct (negb _); [done |]. cbn [fst snd]. by repeat case_match.
Qed.

(** An admitted request creates at most its own task. *)
Lemma invoke_finish_tasks tm flag frame agent spec outcome n resp n' :
  invoke_finish app tm flag frame agent spec outcome n = Some (resp, n') ->
  (nd_tasks n' = nd_tasks n /\ nd_handles n' = nd_handles n) \/
  let id := gen_hex (at_hex tm) (nd_counter n) in
  nd_tasks n' = task_create (at_create tm) id (af_action_id frame) (af_request_id frame) agent (nd_tasks n) /\
  nd_handles n' = <[id := cancellation_new]> (nd_handles n).
Proof.
  unfold invoke_finish. destruct (af_async frame).
  - unfold start_async. set (n2 := set_tasks _ _). destruct (remember _ _ _ _ _ n2) as [n3|] eqn:Er; [|done].
    apply remember_tasks in Er as [Et Eh]. cbn. intros [= _ <-]. right. cbn. by rewrite Et, Eh.
  - unfold run_sync. destruct outcome as [[r|er]| |]; [|intros [= _ <-]; by left..].
    destruct (er_stream r) as [st|].
    + destruct (write_stream _ _ _ _) as [rs [frames|]]; [|intros [= _ <-]; by left].
      destruct (remember _ _ _ _ _ _) as [n3|] eqn:Er; [|done]. cbn. intros [= _ <-]. left.
      apply remember_tasks in Er as [-> ->]. done.
    + destruct (remember _ _ _ _ _ _) as [n3|] eqn:Er; [|done]. cbn. intros [= _ <-]. left.
      apply remember_tasks in Er as [-> ->]. done.
Qed.

(** A node that only differs elsewhere. *)
Lemma sys_ok_same n n' th own : nd_tasks n' = nd_tasks n -> nd_handles n' = nd_handles n ->
  sys_ok (mkSys n th own) -> sys_ok (mkSys n' th own).
Proof.
  intros Et Eh Hok id. eapply task_ok_same; [| | | |apply (Hok id)]; cbn; unfold handle_cancelled; by rewrite ?Et, ?Eh.
Qed.

Lemma cancel_half_ok now id frame n th own : sys_ok (mkSys n th own) -> is_Some (nd_tasks n !! id) ->
  sys_ok (mkSys (snd (apply_task_cancel now id frame n)) th own).
Proof.
  intros Hok Hid id'. destruct (task_cancel_half now id frame n) as (_ & Ho & Hi).
  destruct (decide (id' = id)) as [->|Hne].
  - destruct (Hi Hid) as (r & Er & Hr). eapply task_ok_terminal; [exact Er | | done]. cbn.
    destruct Hid as [r0 Er0]. specialize (Hok id). unfold task_ok in Hok. cbn in Hok. rewrite Er0 in Hok.
    destruct (th !! id); [by eexists | done].
  - destruct (Ho id' Hne) as [Et Ec]. by eapply task_ok_same; [| | | |apply Hok].
Qed.

(** A provider that cancels its own handle changes no task. *)
Lemma provider_cancel_ok id n th own : sys_ok (mkSys n th own) -> is_Some (th !! id) ->
  sys_ok (mkSys (provider_cancel id n) th ({[id]} ∪ own)).
Proof.
  intros Hok [ph Eth] id'. destruct (decide (id' = id)) as [->|Hne].
  - pose proof (Hok id) as Hid. unfold task_ok in *. cbn in *. rewrite Eth in *.
    destruct (nd_tasks n !! id) as [r|]; [|done]. rewrite bool_decide_true by set_solver.
    destruct ph; cbn in *; naive_solver.
  - eapply task_ok_same; [| | | |apply Hok]; cbn; [done | done | by apply cancelled_other | set_solver].
Qed.

(** Starting a thread changes nothing where no task is new. *)
Lemma start_thread_none tm n n' th :
  (nd_tasks n !! gen_hex (at_hex tm) (nd_counter n) = None -> nd_tasks n' !! gen_hex (at_hex tm) (nd_counter n) = None) ->
  start_thread tm n n' th = th.
Proof. intros Hn. unfold start_thread. destruct (nd_tasks n !! _) eqn:E; [done |]. by rewrite Hn. Qed.

Lemma finish_ok tm flag frame agent spec outcome n th own resp n' : sys_ok (mkSys n th own) ->
  nd_tasks n !! gen_hex (at_hex tm) (nd_counter n) = None ->
  invoke_finish app tm flag frame agent spec outcome n = Some (resp, n') ->
  sys_ok (mkSys n' (start_thread tm n n' th) own) /\ table_advances (nd_tasks n) (nd_tasks n').
Proof.
  intros Hok Hfresh E. apply invoke_finish_tasks in E as [[Et Eh]|[Et Eh]].
  - rewrite start_thread_none by (by rewrite Et). split; [by eapply sys_ok_same | by rewrite Et].
  - unfold start_thread. rewrite Hfresh, Et. unfold task_create at 1. rewrite lookup_insert_eq. split.
    + intros id'. destruct (decide (id' = gen_hex (at_hex tm) (nd_counter n))) as [->|Hne].
      * unfold task_ok, handle_cancelled. cbn [sys_node sys_threads]. rewrite Et, Eh. unfold task_create.
        rewrite !lookup_insert_eq. cbn. split; [by left | done].
      * eapply task_ok_same; [| | | |apply (Hok id')]; cbn [sys_node sys_threads sys_own]; unfold handle_cancelled;
          rewrite ?Et, ?Eh; unfold task_create; by rewrite ?lookup_insert_ne.
    + intros id r Er. unfold task_create. exists r. rewrite lookup_insert_ne; [done |]. congruence.
Qed.

Lemma invoke_ok tm flag run req n th own resp n' : sys_ok (mkSys n th own) ->
  nd_tasks n !! gen_hex (at_hex tm) (nd_counter n) = None -> handle_invoke app tm flag run req n = Some (resp, n') ->
  sys_ok (mkSys n' (start_thread tm n n' th) own) /\ table_advances (nd_tasks n) (nd_tasks n').
Proof.
  intros Hok Hfresh E.
  apply handle_invoke_cases in E as [->|[(id & frame & Hid & ->)|(frame & agent & spec & outcome & E)]].
  - rewrite start_thread_none by done. done.
  - destruct (task_cancel_half (at_create tm) id frame n) as (Ha & Ho & _).
    rewrite start_thread_none; [split; [by apply cancel_half_ok | exact Ha] |].
    intros Hn. destruct (Ho (gen_hex (at_hex tm) (nd_counter n))) as [-> _]; [|exact Hn].
    intros Heq. rewrite <-Heq, Hn in Hid. by destruct Hid.
  - unfold invoke_admitted in E. destruct (invoke_lookup_tasks tm flag frame agent n) as (Et & Eh & Ec).
    destruct (invoke_lookup app tm flag frame agent n) as [[r|] n1]; cbn [fst snd] in *.
    + injection E as _ <-. rewrite start_thread_none by (by rewrite Et). split; [by eapply sys_ok_same | by rewrite Et].
    + specialize (Ec eq_refl). assert (Hf1 : nd_tasks n1 !! gen_hex (at_hex tm) (nd_counter n1) = None) by by rewrite Et, Ec.
      assert (Est : start_thread tm n n' th = start_thread tm n1 n' th)
        by (unfold start_thread; by rewrite Et, Ec).
      rewrite Est, <-Et. eapply finish_ok; [by eapply sys_ok_same | done | exact E].
Qed.

Lemma progress_ok now id p n th own : sys_ok (mkSys n th own) ->
  sys_ok (mkSys (set_tasks (snd (update_progress now id p (nd_tasks n))) n) th own) /\
  table_advances (nd_tasks n) (snd (update_progress now id p (nd_tasks n))).
Proof.
  intros Hok. unfold update_progress. destruct (nd_tasks n !! id) as [r|] eqn:Er; cbn.
  - split.
    + intros id'. specialize (Hok id'). unfold task_ok in *. cbn in *. destruct (decide (id' = id)) as [->|Hne].
      * rewrite lookup_insert_eq. rewrite Er in Hok. exact Hok.
      * by rewrite lookup_insert_ne.
    + eapply table_advances_insert; [exact Er |]. by split.
  - split; [|done]. by eapply sys_ok_same; [| |exact Hok].
Qed.

Lemma sys_step_ok s s' : sys_ok s -> sys_step s s' ->
  sys_ok s' /\ table_advances (nd_tasks (sys_node s)) (nd_tasks (sys_node s')).
Proof.
  intros Hok Hstep. destruct Hstep as [tm flag run req n th own resp n' Hf E|tm flag frame agent n th own|
    tm flag frame agent spec outcome n th own resp n' Hf E|now id frame n th own Hid|
    id now poll ph ph' n n' th own Eth E|now id p n th own|id n th own Hid].
  - by eapply invoke_ok.
  - destruct (invoke_lookup_tasks tm flag frame agent n) as (Et & Eh & _). cbn [sys_node].
    split; [by eapply sys_ok_same | by rewrite Et].
  - by eapply finish_ok.
  - split; [by apply cancel_half_ok |]. by destruct (task_cancel_half now id frame n).
  - by eapply thread_step_ok.
  - by apply progress_ok.
  - split; [by apply provider_cancel_ok | done].
Qed.

Lemma sys_run_ok s s' : sys_run s s' -> sys_ok s ->
  sys_ok s' /\ table_advances (nd_tasks (sys_node s)) (nd_tasks (sys_node s')).
Proof.
  induction 1 as [s|s m s' Hstep _ IH]; [done |]. intros Hok. destruct (sys_step_ok _ _ Hok Hstep) as [Hm Ha].
  destruct (IH Hm) as [Hok' Ha']. split; [done |]. by transitivity (nd_tasks (sys_node m)).
Qed.

Lemma sys_new_ok : sys_ok sys_new.
Proof. intros id. unfold task_ok. cbn. rewrite !lookup_empty. set_solver. Qed.

(** The thread alone, its deadline passed. *)
Fixpoint thread_alone (k : nat) (id : string) (now : Z) (ph : Phase) (n : ActionNode) : Phase * ActionNode :=
  match k with
  | O => (ph, n)
  | S k => let '(ph, n) := thread_step id now Deadline ph n in thread_alone k id now ph n
  end.

Lemma thread_alone_S k id now ph n : thread_alone (S k) id now ph n =
  let '(ph, n) := thread_step id now Deadline ph n in thread_alone k id now ph n.
Proof. reflexivity. Qed.

Lemma thread_alone_closing k id now n : fst (thread_alone (S k) id now Closing n) = Ended.
Proof.
  rewrite thread_alone_S. cbn [thread_step]. generalize (unregister_task id n).
  induction k as [|k IH]; intros m; [done |]. rewrite thread_alone_S. apply IH.
Qed.

Lemma thread_alone_polling k id now n : fst (thread_alone (S (S (S (S k)))) id now Polling n) = Ended.
Proof.
  rewrite thread_alone_S. cbn [thread_step]. destruct (handle_cancelled id n); [apply thread_alone_closing |].
  rewrite thread_alone_S. cbn [thread_step]. rewrite thread_alone_S. cbn [thread_step]. apply thread_alone_closing.
Qed.

Lemma thread_alone_ends id now ph n : fst (thread_alone 5 id now ph n) = Ended.
Proof.
  destruct ph as [| | | |w| |]; [| apply thread_alone_polling | | | | apply thread_alone_closing | done];
    rewrite thread_alone_S; cbn [thread_step].
  - destruct (try_transition _ _ _ _ _) as [[] t]; [apply thread_alone_polling | apply thread_alone_closing].
  - apply thread_alone_polling.
  - rewrite thread_alone_S. cbn [thread_step]. apply thread_alone_closing.
  - destruct w; apply thread_alone_closing.
Qed.

(** C13: whatever requests, overlapping or not, cancellations, threads and
    progress reports interleave, a task keeps its identity, its status never
    moves back and its outcome, once there, is final; every task has one
    thread, and when the thread has ended the task is completed, failed or
    cancelled, unless its own provider cancelled the handle it was given, when
    it may be left running; left alone after its deadline, a thread ends within
    five steps. *)
Theorem task_lifecycle s s' : sys_run sys_new s -> sys_run s s' ->
  table_advances (nd_tasks (sys_node s)) (nd_tasks (sys_node s')) /\
  (forall id r, nd_tasks (sys_node s') !! id = Some r -> exists ph, sys_threads s' !! id = Some ph /\
     (ph = Ended -> task_terminal (at_status r) = true \/ id ∈ sys_own s' /\ at_status r = "running") /\
     forall now, fst (thread_alone 5 id now ph (sys_node s')) = Ended).
Proof.
  intros Hs Hs'. apply sys_run_ok in Hs as [Hok _]; [|apply sys_new_ok].
  apply sys_run_ok in Hs' as [Hok' Ha]; [|done]. split; [done |].
  intros id r Er. specialize (Hok' id). unfold task_ok in Hok'. rewrite Er in Hok'.
  destruct (sys_threads s' !! id) as [ph|]; [|done]. exists ph. split; [done |]. split.
  - intros ->. cbn in Hok'. destruct Hok' as [Hok'|[Ho Hr]]; [by left|]. right. by apply bool_decide_eq_true in Ho.
  - intros now. apply thread_alone_ends.
Qed.
End node.

(** ** Witnesses, and where the node does less than it says *)

#[local] Instance toy_digests : Digests := {| sha256 l := l; hex_encode _ := "h"; json_to_string _ := "j" |}.
#[local] Instance toy_parser : JsonParser :=
  {| parse_json _ := Ok (VObject [("action_id", VString "a"); ("async", VBool true); ("idempotency_key", VString "k")]) |}.
#[local] Instance toy_time : ContextTime := {| instant_add t d := Some (t + d); rfc3339 _ := Some "t" |}.
#[local] Instance toy_serde : StreamSerde := {| stream_frame_to_vec f := Ok [sf_seq f] |}.

Definition one_frame (is_last : bool) (seq : Z) : ActionStreamFrame := mkSFrame "" seq is_last None [VNull] None None.

(** Two good frames; a badly numbered one between them is refused. *)
Definition two_frames : ActionStream :=
  Emit (one_frame false 0) (fun _ => Emit (one_frame true 5) (fun _ => Emit (one_frame true 1) (fun _ => Return (Ok tt)))).
Definition kept_frames : list ActionStreamFrame := map (with_stream_id "s") [one_frame false 0; one_frame true 1].
Definition never (n : nat) : bool := false.

Lemma stream_answer_witness :
  (forall f, is_ok (stream_frame_to_vec f) = true) /\
  exists resp, write_stream "s" never two_frames None = (resp, Some kept_frames) /\
    exists resp', write_stream "t" never (replay_stream kept_frames) None
                  = (resp', Some (map (with_stream_id "t") kept_frames)).
Proof.
  assert (Hser : forall f, is_ok (stream_frame_to_vec f) = true) by done.
  split; [done |]. eexists. split; [reflexivity |].
  destruct (stream_answer "s" never two_frames None _ (Some kept_frames) Hser eq_refl)
    as (frames & _ & _ & _ & _ & Hreplay).
  destruct (Hreplay kept_frames "t" never None eq_refl (fun _ => eq_refl)) as (resp' & E & _).
  exists resp'. exact E.
Defined.

Definition toy_app : ActionNodeApp := mkActionApp
  (mkActionOptions "n" None [("a", spec_new true)] [] "/x" false 5000 300000 100 100 true 0) "/x" (fun _ _ => Ok tt) [] [].
Definition toy_times : Readings := mkReadings 1 1 1 1 1.
Definition toy_call (async : bool) (params : Value) : ParsedActionFrame :=
  mkActionFrame "a" (Some params) (Some "k") 0 async None None None.
Definition toy_execution : ActionExecutionResult := mkExecution (Some (VBool true)) None None 7.

Lemma idempotent_replay_witness :
  exists resp n1,
    invoke_finish toy_app toy_times never (toy_call false VNull) None (spec_new true)
      (Finished (Ok toy_execution)) action_node_new = Some (resp, n1) /\
    invoke_admitted toy_app (mkReadings 50 2 2 2 2) never (toy_call false VNull) None (spec_new true) TimedOut n1
    = Some (write_caps (Some (VBool true)) None None 0, n1).
Proof.
  destruct (invoke_finish toy_app toy_times never (toy_call false VNull) None (spec_new true)
    (Finished (Ok toy_execution)) action_node_new) as [[resp n1]|] eqn:E; [|vm_compute in E; discriminate].
  exists resp, n1. split; [done |].
  destruct (idempotent_replay toy_app toy_times never (toy_call false VNull) None (spec_new true) toy_execution
    action_node_new resp n1 "k" eq_refl eq_refl eq_refl E) as (_ & (expires & Ei & Hsame) & _).
  vm_compute in Ei. injection Ei as <-.
  apply (Hsame n1 (mkReadings 50 2 2 2 2) never (toy_call false VNull) (spec_new true) TimedOut);
    [constructor | vm_compute; reflexivity | reflexivity | reflexivity].
Defined.

(** Two calls under one key that overlap both miss in the cache, both execute,
    and each answers with its own result. *)
Lemma overlapping_calls_both_execute :
  let call := toy_call false VNull in
  let n0 := action_node_new in
  let second := mkExecution (Some (VBool false)) None None 7 in
  exists r1 n1 r2 n2,
    invoke_lookup toy_app toy_times never call None n0 = (None, n0) /\
    invoke_finish toy_app toy_times never call None (spec_new true) (Finished (Ok toy_execution)) n0 = Some (r1, n1) /\
    invoke_finish toy_app toy_times never call None (spec_new true) (Finished (Ok second)) n1 = Some (r2, n2) /\
    r1 = write_caps (Some (VBool true)) None None 7 /\ r2 = write_caps (Some (VBool false)) None None 7.
Proof. do 4 eexists. repeat split; vm_compute; reflexivity. Qed.

Definition toy_request : NodeRequest := mkNodeRequest "POST" "/x/invoke" ∅ [].
Definition toy_task : string := gen_hex 1 1.
Definition after_invoke : option (NodeResponse * ActionNode) :=
  handle_invoke toy_app toy_times never (fun _ _ => TimedOut) toy_request action_node_new.

Lemma task_lifecycle_witness :
  exists s r, sys_run toy_app sys_new s /\ nd_tasks (sys_node s) !! toy_task = Some r /\ at_status r = "running" /\
    exists ph, sys_threads s !! toy_task = Some ph /\ fst (thread_alone 5 toy_task 9 ph (sys_node s)) = Ended.
Proof.
  destruct after_invoke as [[resp n1]|] eqn:E; [|vm_compute in E; discriminate].
  set (n2 := snd (thread_step toy_task 2 Nothing Spawned n1)).
  set (s := mkSys n2 (<[toy_task := Polling]> (start_thread toy_times action_node_new n1 ∅)) ∅).
  assert (Er : exists r, nd_tasks n2 !! toy_task = Some r /\ at_status r = "running").
  { subst n2. vm_compute in E. injection E as _ <-. eexists. split; [vm_compute; reflexivity | reflexivity]. }
  destruct Er as (r & Er & Hr).
  assert (Hrun : sys_run toy_app sys_new s).
  { eapply rtc_l; [eapply (sys_invoke toy_app toy_times never (fun _ _ => TimedOut) toy_request); [reflexivity | exact E] |].
    eapply rtc_l; [eapply (sys_thread toy_app toy_task 2 Nothing Spawned Polling n1 n2) | apply rtc_refl].
    - vm_compute in E. injection E as _ <-. vm_compute. reflexivity.
    - subst n2. vm_compute in E. injection E as _ <-. vm_compute. reflexivity. }
  exists s, r. split; [exact Hrun |]. split; [exact Er |]. split; [exact Hr |].
  destruct (task_lifecycle toy_app s s Hrun (rtc_refl _ _)) as [_ Ht].
  destruct (Ht toy_task r Er) as (ph & Eph & _ & Hend). exists ph. split; [exact Eph | apply Hend].
Defined.

(** A provider that cancels the handle it was given ends the thread of its task
    and leaves the task running for good. *)
Definition self_cancelled : Sys :=
  let n1 := match after_invoke with Some (_, n) => n | None => action_node_new end in
  let n2 := provider_cancel toy_task (snd (thread_step toy_task 2 Nothing Spawned n1)) in
  mkSys (unregister_task toy_task n2)
    (<[toy_task := Ended]> (<[toy_task := Closing]> (<[toy_task := Polling]> (start_thread toy_times action_node_new n1 ∅))))
    ({[toy_task]} ∪ ∅).

Lemma self_cancelled_stays_running :
  sys_run toy_app sys_new self_cancelled /\ sys_threads self_cancelled !! toy_task = Some Ended /\
  (at_status <$> nd_tasks (sys_node self_cancelled) !! toy_task) = Some "running".
Proof.
  split; [|split; vm_compute; reflexivity].
  eapply rtc_l; [eapply (sys_invoke toy_app toy_times never (fun _ _ => TimedOut) toy_request);
                   vm_compute; reflexivity |].
  eapply rtc_l; [eapply (sys_thread toy_app toy_task 2 Nothing Spawned Polling); vm_compute; reflexivity |].
  eapply rtc_l; [eapply (sys_provider toy_app toy_task); eexists; vm_compute; reflexivity |].
  eapply rtc_l; [eapply (sys_thread toy_app toy_task 3 Nothing Polling Closing); vm_compute; reflexivity |].
  eapply rtc_l; [eapply (sys_thread toy_app toy_task 3 Nothing Closing Ended); vm_compute; reflexivity |].
  vm_compute. apply rtc_refl.
Qed.

(** A cancel request that finds the task running answers that it is cancelled
    also when the task completes before the cancellation is applied. *)
Lemma late_cancel_reported :
  let done_ := snd (task_complete 2 "t" None (task_create 1 "t" "a" None None ∅)) in
  let '(resp, n) := apply_task_cancel 3 "t" (toy_call false VNull) (set_tasks done_ action_node_new) in
  ns_status resp = 200 /\ (at_status <$> nd_tasks n !! "t") = Some "completed".
Proof. split; vm_compute; reflexivity. Qed.

(** The guard reads IPv6 texts by their prefix: the unspecified address and a
    loopback address mapped in hexadecimal pass, as does a decimal address. *)
Lemma private_hosts_accepted :
  node_validate_callback_url "https://[::]/x" true = None /\
  node_validate_callback_url "https://[::ffff:7f00:1]/x" true = None /\
  node_validate_callback_url "https://2130706433/x" true = None.
Proof. repeat split; vm_compute; reflexivity. Qed.

(** A request without a timeout gets the action's default, above the maximum
    of the node. *)
Lemma default_timeout_unclamped :
  clamp_timeout 0 (mkSpec None None None false None (Some 900000) (Some 1000) None) (aa_opt toy_app) = 900000 /\
  ao_max_timeout_ms (aa_opt toy_app) = 300000.
Proof. by split. Qed.
