(* ===== verification/NipReputation.v ===== *)
(** * NipReputation: the reputation log

    Models nps-nip/src/reputation.rs: incidents, severities, log entries, the
    signature of an entry and the verification of an inclusion proof.  HTTP is
    not modelled; Ed25519, SHA-256, base64 and the JSON printer are parameters. *)

From S2P Require Import Prelude RustStr Floats Json CoreFrames CoreCache NipDer NipX509 NipSigner.
Local Open Scope Z_scope.

(** ** Data *)

Inductive IncidentType : Type :=
| Other
| CertRevoked
| RateLimitViolation
| TosViolation
| ScrapingPattern
| PaymentDefault
| ContractDispute
| ImpersonationClaim
| PositiveAttestation.

Definition incident_to_wire (i : IncidentType) : string :=
  match i with
  | Other => "other"
  | CertRevoked => "cert-revoked"
  | RateLimitViolation => "rate-limit-violation"
  | TosViolation => "tos-violation"
  | ScrapingPattern => "scraping-pattern"
  | PaymentDefault => "payment-default"
  | ContractDispute => "contract-dispute"
  | ImpersonationClaim => "impersonation-claim"
  | PositiveAttestation => "positive-attestation"
  end.

Definition incident_from_wire (s : string) : IncidentType :=
  if String.eqb s "cert-revoked" then CertRevoked
  else if String.eqb s "rate-limit-violation" then RateLimitViolation
  else if String.eqb s "tos-violation" then TosViolation
  else if String.eqb s "scraping-pattern" then ScrapingPattern
  else if String.eqb s "payment-default" then PaymentDefault
  else if String.eqb s "contract-dispute" then ContractDispute
  else if String.eqb s "impersonation-claim" then ImpersonationClaim
  else if String.eqb s "positive-attestation" then PositiveAttestation
  else Other.

(** [Serialize] and [Deserialize for IncidentType]. *)
Definition incident_to_value (i : IncidentType) : Value := VString (incident_to_wire i).
Definition incident_from_value (v : Value) : option IncidentType := incident_from_wire <$> as_str v.

Inductive Severity : Type := Info | Minor | Moderate | Major | Critical.
#[export] Instance Severity_eq_dec : EqDecision Severity.
Proof. solve_decision. Defined.

(** The derived order compares the discriminants. *)
Definition severity_rank (s : Severity) : Z :=
  match s with Info => 0 | Minor => 1 | Moderate => 2 | Major => 3 | Critical => 4 end.

Definition severity_to_wire (s : Severity) : string :=
  match s with
  | Info => "info" | Minor => "minor" | Moderate => "moderate" | Major => "major" | Critical => "critical"
  end.
Definition severity_to_value (s : Severity) : Value := VString (severity_to_wire s).

(** [Deserialize for Severity]: another text is an error. *)
Definition severity_from_value (v : Value) : option Severity :=
  s ← as_str v;
  if String.eqb s "info" then Some Info
  else if String.eqb s "minor" then Some Minor
  else if String.eqb s "moderate" then Some Moderate
  else if String.eqb s "major" then Some Major
  else if String.eqb s "critical" then Some Critical
  else None.

Record ObservationWindow : Type := mkWindow { ow_start : string; ow_end : string }.

Record ReputationLogEntry : Type := mkLogEntry {
  le_v : Z;
  le_log_id : string;
  le_seq : Z;
  le_timestamp : string;
  le_subject_nid : string;
  le_incident : IncidentType;
  le_incident_raw : option string;
  le_severity : Severity;
  le_window : option ObservationWindow;
  le_observation : option Value;
  le_evidence_ref : option string;
  le_evidence_sha256 : option string;
  le_issuer_nid : string;
  le_signature : string
}.

Record SignedTreeHead : Type := mkTreeHead {
  sth_log_id : string;
  sth_tree_size : Z;
  sth_timestamp : string;
  sth_sha256_root_hash : string;
  sth_signature : string
}.

Record InclusionProof : Type := mkProof {
  ip_seq : Z;
  ip_leaf_index : Z;
  ip_tree_size : Z;
  ip_leaf_hash : string;
  ip_audit_path : list string
}.

(** ** Signing *)

(** The derived serializer of a struct of two strings. *)
Definition window_to_value (w : ObservationWindow) : Value :=
  VObject [("end", VString (ow_end w)); ("start", VString (ow_start w))].

Definition signed_incident (e : ReputationLogEntry) : string :=
  match le_incident e with
  | Other => default "other" (le_incident_raw e)
  | other => incident_to_wire other
  end.

Definition signing_entries (e : ReputationLogEntry) : list (string * option Value) :=
  [("v", Some (vnat (le_v e)));
   ("log_id", Some (VString (le_log_id e)));
   ("seq", Some (vnat (le_seq e)));
   ("timestamp", Some (VString (le_timestamp e)));
   ("subject_nid", Some (VString (le_subject_nid e)));
   ("incident", Some (VString (signed_incident e)));
   ("severity", Some (severity_to_value (le_severity e)));
   ("issuer_nid", Some (VString (le_issuer_nid e)));
   ("window", window_to_value <$> le_window e);
   ("observation", le_observation e);
   ("evidence_ref", VString <$> le_evidence_ref e);
   ("evidence_sha256", VString <$> le_evidence_sha256 e)].

Definition signing_map (e : ReputationLogEntry) : Map := dict_of (signing_entries e).

Definition with_signature (s : string) (e : ReputationLogEntry) : ReputationLogEntry :=
  mkLogEntry (le_v e) (le_log_id e) (le_seq e) (le_timestamp e) (le_subject_nid e) (le_incident e)
    (le_incident_raw e) (le_severity e) (le_window e) (le_observation e) (le_evidence_ref e)
    (le_evidence_sha256 e) (le_issuer_nid e) s.

(** The standard alphabet of base64, with padding. *)
Class Base64StdEncoder : Type := { b64_standard_encode : list Z -> string }.

Section log.
Context {D : Digests} `{Base64}.

Definition leaf_canonical_json (e : ReputationLogEntry) : string :=
  json_to_string (VObject (map_insert "signature" (VString (le_signature e)) (signing_map e))).

Section signing.
Context `{Ed25519Signing} `{Base64StdEncoder}.

Definition sign_entry (sk : SigningKey) (e : ReputationLogEntry) : ReputationLogEntry :=
  let canon := json_to_string (VObject (signing_map e)) in
  with_signature ("ed25519:" +:+ b64_standard_encode (sig_to_bytes (ed_sign sk (bytes_of canon)))) e.

Definition verify_entry (vk : VerifyingKey) (e : ReputationLogEntry) : bool :=
  match strip_prefix "ed25519:" (le_signature e) with
  | None => false
  | Some sig_b64 =>
    match b64_standard sig_b64 with
    | Err _ => false
    | Ok sig_bytes =>
      if negb (length sig_bytes =? 64)%nat then false
      else is_ok (ed_verify vk (bytes_of (json_to_string (VObject (signing_map e)))) (sig_from_bytes sig_bytes))
    end
  end.
End signing.

(** ** Inclusion proofs *)

(** The loop over the audit path.  The outer option is the panic of a shift of
    a 64-bit index by 64 or more, the inner one the early [return false]. *)
Fixpoint fold_audit_path (i : Z) (leaf_index : Z) (node_hash : list Z) (path : list string)
    : option (option (list Z)) :=
  match path with
  | [] => Some (Some node_hash)
  | step :: rest =>
    match b64_url_no_pad step with
    | Err _ => Some None
    | Ok sibling =>
      if negb (length sibling =? 32)%nat then Some None
      else if 64 <=? i then None
      else
        let buf := if Z.land (Z.shiftr leaf_index i) 1 =? 0
                   then 1 :: node_hash ++ sibling else 1 :: sibling ++ node_hash in
        fold_audit_path (i + 1) leaf_index (sha256 buf) rest
    end
  end.

Definition leaf_hash_of (e : ReputationLogEntry) : list Z := sha256 (0 :: bytes_of (leaf_canonical_json e)).

(** [None] is a panic. *)
Definition verify_inclusion (proof : InclusionProof) (sth : SignedTreeHead) (e : ReputationLogEntry) : option bool :=
  let node_hash := leaf_hash_of e in
  match b64_url_no_pad (ip_leaf_hash proof) with
  | Err _ => Some false
  | Ok expected_leaf =>
    if negb (bool_decide (node_hash = expected_leaf)) then Some false
    else match fold_audit_path 0 (ip_leaf_index proof) node_hash (ip_audit_path proof) with
         | None => None
         | Some None => Some false
         | Some (Some node_hash) =>
           match b64_url_no_pad (sth_sha256_root_hash sth) with
           | Err _ => Some false
           | Ok expected_root => Some (bool_decide (node_hash = expected_root))
           end
         end
  end.
End log.

(** ** The query of the client *)

(** [urlencoding_simple]; the characters it escapes are ASCII, so it works on bytes. *)
Fixpoint urlencoding_simple (s : string) : string :=
  match s with
  | EmptyString => ""
  | String.String c r =>
    (if Ascii.eqb c " " then "%20"
     else if Ascii.eqb c "&" then "%26"
     else if Ascii.eqb c "+" then "%2B"
     else if Ascii.eqb c "%" then "%25"
     else String.String c "") +:+ urlencoding_simple r
  end.

Definition query_url (base_url : string) (nid : option string) (since_seq : option Z) : string :=
  let params := match nid with Some n => ["nid=" +:+ urlencoding_simple n] | None => [] end
             ++ match since_seq with Some s => ["since=" +:+ fmt_Z s] | None => [] end in
  base_url +:+ "/v1/log/entries" +:+ match params with [] => "" | _ => "?" +:+ join "&" params end.

(** ** Theorems *)

Lemma incident_roundtrip i : incident_from_value (incident_to_value i) = Some i.
Proof. by destruct i. Qed.

Lemma severity_roundtrip s : severity_from_value (severity_to_value s) = Some s.
Proof. by destruct s. Qed.

Lemma severity_rank_inj s t : severity_rank s = severity_rank t -> s = t.
Proof. by destruct s, t. Qed.

(** A text that is no known incident reads as [Other]. *)
Lemma incident_from_wire_unknown s : incident_to_wire (incident_from_wire s) = s \/ incident_from_wire s = Other.
Proof.
  unfold incident_from_wire.
  repeat match goal with |- context [String.eqb s ?t] => destruct (String.eqb_spec s t) as [->|]; [by left |] end.
  by right.
Qed.

(** What a signature covers: every field but the signature, the incident by
    the text that is signed. *)
Definition covered_fields (e : ReputationLogEntry) :=
  (le_v e, le_log_id e, le_seq e, le_timestamp e, le_subject_nid e, signed_incident e, le_severity e,
   (le_window e, le_observation e, le_evidence_ref e, le_evidence_sha256 e), le_issuer_nid e).

Lemma signing_map_get e k : map_get k (signing_map e) = last_of k (signing_entries e).
Proof. apply map_get_dict_of. Qed.

Lemma severity_wire_inj s t : severity_to_wire s = severity_to_wire t -> s = t.
Proof. by destruct s, t. Qed.

Lemma signing_map_covers e e' : signing_map e = signing_map e' -> covered_fields e = covered_fields e'.
Proof.
  intros E.
  assert (H : forall k, last_of k (signing_entries e) = last_of k (signing_entries e'))
    by (intros k; by rewrite <- !signing_map_get, E).
  pose proof (H "v") as H1. pose proof (H "log_id") as H2. pose proof (H "seq") as H3.
  pose proof (H "timestamp") as H4. pose proof (H "subject_nid") as H5. pose proof (H "incident") as H6.
  pose proof (H "severity") as H7. pose proof (H "issuer_nid") as H8. pose proof (H "window") as H9.
  pose proof (H "observation") as H10. pose proof (H "evidence_ref") as H11. pose proof (H "evidence_sha256") as H12.
  clear H E. cbn in *. unfold covered_fields.
  destruct (le_window e) as [[]|], (le_window e') as [[]|], (le_observation e), (le_observation e'),
    (le_evidence_ref e), (le_evidence_ref e'), (le_evidence_sha256 e), (le_evidence_sha256 e'); cbn in *;
    try discriminate;
    injection H1 as ->; injection H2 as ->; injection H3 as ->; injection H4 as ->; injection H5 as ->;
    injection H6 as ->; injection H7 as ->%severity_wire_inj; injection H8 as ->; unfold window_to_value in *; cbn in *; congruence.
Qed.

(** ** Inclusion in a complete tree *)

Section merkle.
Context {D : Digests} `{Base64}.

(** The tree hash of RFC 9162 over [2 ^ k] leaves, and the audit path of a leaf. *)
Definition leaf_at (leaves : list (list Z)) (i : nat) : list Z := default [] (leaves !! i).

Fixpoint mth (k : nat) (leaves : list (list Z)) : list Z :=
  match k with
  | O => sha256 (0 :: leaf_at leaves 0)
  | S j => sha256 (1 :: mth j (take (2 ^ j) leaves) ++ mth j (drop (2 ^ j) leaves))
  end.

Fixpoint audit (k i : nat) (leaves : list (list Z)) : list (list Z) :=
  match k with
  | O => []
  | S j => if (i <? 2 ^ j)%nat then audit j i (take (2 ^ j) leaves) ++ [mth j (drop (2 ^ j) leaves)]
           else audit j (i - 2 ^ j) (drop (2 ^ j) leaves) ++ [mth j (take (2 ^ j) leaves)]
  end.

Definition collision : Prop := exists x y : list Z, x <> y /\ sha256 x = sha256 y.

(** The fold over decoded siblings. *)
Definition parent (right : bool) (node sibling : list Z) : list Z :=
  sha256 (if right then 1 :: sibling ++ node else 1 :: node ++ sibling).

Fixpoint climb (i index : Z) (node : list Z) (siblings : list (list Z)) : list Z :=
  match siblings with
  | [] => node
  | s :: rest => climb (i + 1) index (parent (Z.testbit index i) node s) rest
  end.

Lemma index_bit index i : 0 <= i -> (Z.land (Z.shiftr index i) 1 =? 0) = negb (Z.testbit index i).
Proof.
  intros Hi. rewrite (Z.land_ones _ 1) by lia. change (2 ^ 1) with 2.
  rewrite <- Z.bit0_mod, Z.shiftr_spec, Z.add_0_l by lia. by destruct (Z.testbit index i).
Qed.

Definition decodes (text : string) (bytes : list Z) : Prop :=
  b64_url_no_pad text = Ok bytes /\ length bytes = 32%nat.

Lemma fold_audit_path_spec index path : forall i node root, 0 <= i ->
  fold_audit_path i index node path = Some (Some root) ->
  exists siblings, Forall2 decodes path siblings /\ root = climb i index node siblings.
Proof.
  induction path as [|t path IH]; intros i node root Hi E; cbn in E.
  - injection E as ->. by exists [].
  - destruct (b64_url_no_pad t) as [s|] eqn:Et; [|done].
    destruct (length s =? 32)%nat eqn:El; [|done]. destruct (64 <=? i); [done |].
    apply Nat.eqb_eq in El. rewrite index_bit in E by done.
    apply IH in E as (siblings & Hs & ->); [|lia]. exists (s :: siblings).
    split; [by constructor |]. cbn. unfold parent. by destruct (Z.testbit index i).
Qed.

Lemma fold_audit_path_climb index path siblings : Forall2 decodes path siblings -> forall i node,
  0 <= i -> i + Z.of_nat (length path) <= 64 ->
  fold_audit_path i index node path = Some (Some (climb i index node siblings)).
Proof.
  induction 1 as [|t s path siblings [Et El] _ IH]; intros i node Hi Hl; [done |]. cbn in Hl |- *.
  rewrite Et, El. cbn. rewrite (proj2 (Z.leb_gt _ _)), index_bit by lia. rewrite IH by lia.
  unfold parent. by destruct (Z.testbit index i).
Qed.

Lemma climb_snoc index siblings s : forall i node,
  climb i index node (siblings ++ [s]) =
  parent (Z.testbit index (i + Z.of_nat (length siblings))) (climb i index node siblings) s.
Proof.
  induction siblings as [|x l IH]; intros i node; cbn; [by rewrite Z.add_0_r |].
  rewrite IH. do 2 f_equal. lia.
Qed.

Lemma climb_bits index index' siblings : forall i node,
  (forall j, i <= j < i + Z.of_nat (length siblings) -> Z.testbit index j = Z.testbit index' j) ->
  climb i index node siblings = climb i index' node siblings.
Proof.
  induction siblings as [|x l IH]; intros i node Hb; [done |]. cbn in *.
  rewrite Hb by lia. apply IH. intros j Hj. apply Hb. lia.
Qed.

(** [idx mod 2 ^ (k + 1)] from its top bit. *)
Lemma mod_top_bit index k : 0 <= k ->
  index mod 2 ^ (k + 1) = index mod 2 ^ k + (if Z.testbit index k then 2 ^ k else 0).
Proof.
  intros Hk. rewrite Z.pow_add_r by lia. change (2 ^ 1) with 2.
  rewrite Z.rem_mul_r by lia. rewrite <- Z.bit0_mod, Z.div_pow2_bits, Z.add_0_l by lia.
  destruct (Z.testbit index k); cbn [Z.b2z]; lia.
Qed.

Context (hash_length : forall x, length (sha256 x) = 32%nat).

Lemma mth_length k leaves : length (mth k leaves) = 32%nat.
Proof. destruct k; apply hash_length. Qed.

Lemma parent_inj right node sibling node' sibling' :
  length node = 32%nat -> length node' = 32%nat -> length sibling = 32%nat -> length sibling' = 32%nat ->
  parent right node sibling = sha256 (1 :: node' ++ sibling') ->
  collision \/ (if right then sibling = node' /\ node = sibling' else node = node' /\ sibling = sibling').
Proof.
  intros Hn Hn' Hs Hs' E. unfold parent in E.
  destruct (decide ((if right then 1 :: sibling ++ node else 1 :: node ++ sibling) = 1 :: node' ++ sibling')) as [Ei|Ei].
  - right. destruct right; injection Ei as Ei; apply app_inj_1 in Ei; [done | lia | done | lia].
  - left. eexists _, _. by split.
Qed.

Lemma leaf_at_take n i leaves : (i < n)%nat -> leaf_at (take n leaves) i = leaf_at leaves i.
Proof. intros Hi. unfold leaf_at. by rewrite lookup_take_lt. Qed.
Lemma leaf_at_drop n i leaves : leaf_at (drop n leaves) i = leaf_at leaves (n + i).
Proof. unfold leaf_at. by rewrite lookup_drop. Qed.

Lemma pow2_nat k : Z.of_nat (2 ^ k) = 2 ^ Z.of_nat k.
Proof. rewrite Nat2Z.inj_pow. done. Qed.

Lemma climb_length i index node siblings : length node = 32%nat -> length (climb i index node siblings) = 32%nat.
Proof. revert i node. induction siblings as [|s l IH]; intros i node Hn; [done |]. cbn. apply IH, hash_length. Qed.

Lemma climb_sound index k : forall siblings leaves node, length siblings = k ->
  Forall (fun s => length s = 32%nat) siblings -> length node = 32%nat ->
  climb 0 index node siblings = mth k leaves ->
  collision \/ node = sha256 (0 :: leaf_at leaves (Z.to_nat (index mod 2 ^ Z.of_nat k))).
Proof.
  induction k as [|k IH]; intros siblings leaves node Hl Hs Hn E.
  - apply nil_length_inv in Hl as ->. right. cbn in E |- *. by rewrite Z.mod_1_r.
  - destruct siblings as [|s l _] using rev_ind; [done |].
    rewrite length_app, Nat.add_1_r in Hl. injection Hl as Hl.
    apply Forall_app in Hs as [Hs [Hs1 _]%Forall_cons].
    rewrite climb_snoc, Hl, Z.add_0_l in E. cbn [mth] in E.
    apply parent_inj in E; [|by apply climb_length| apply mth_length | done | apply mth_length].
    destruct E as [Hc|E]; [by left |].
    rewrite Nat2Z.inj_succ, <- Z.add_1_r, mod_top_bit, <- pow2_nat by lia.
    pose proof (Z.mod_pos_bound index (Z.of_nat (2 ^ k)) ltac:(rewrite pow2_nat; lia)) as Hm.
    destruct (Z.testbit index (Z.of_nat k)).
    + destruct E as [_ E]. apply IH in E as [Hc|E]; [by left | right | done..].
      rewrite leaf_at_drop in E. rewrite E. do 3 f_equal. rewrite <- pow2_nat. lia.
    + destruct E as [E _]. apply IH in E as [Hc|E]; [by left | right | done..].
      rewrite leaf_at_take in E by (rewrite <- pow2_nat; lia). rewrite E, Z.add_0_r. by rewrite <- pow2_nat.
Qed.

Lemma audit_length k : forall i leaves, length (audit k i leaves) = k.
Proof. induction k as [|k IH]; intros i leaves; [done |]. cbn [audit]. destruct (i <? 2 ^ k)%nat; rewrite length_app, IH; cbn; lia. Qed.

Lemma audit_u32 k : forall i leaves, Forall (fun s => exists x, s = sha256 x) (audit k i leaves).
Proof.
  induction k as [|k IH]; intros i leaves; [constructor |]. cbn [audit].
  assert (Hm : forall j l, exists x, mth j l = sha256 x) by (intros [] l; by eexists).
  destruct (i <? 2 ^ k)%nat; apply Forall_app; (split; [apply IH | by constructor]).
Qed.

Lemma testbit_of_nat i k : (i < 2 ^ S k)%nat -> Z.testbit (Z.of_nat i) (Z.of_nat k) = negb (i <? 2 ^ k)%nat.
Proof.
  intros Hi. assert (Hz : Z.of_nat i < 2 * 2 ^ Z.of_nat k) by (rewrite <- pow2_nat; cbn in Hi; lia).
  rewrite Z.testbit_eqb by lia. destruct (Nat.ltb_spec i (2 ^ k)) as [Hk|Hk]; cbn.
  - rewrite Z.div_small; [done |]. rewrite <- pow2_nat. lia.
  - apply inj_le in Hk. rewrite pow2_nat in Hk.
    replace (Z.of_nat i) with (1 * 2 ^ Z.of_nat k + (Z.of_nat i - 2 ^ Z.of_nat k)) by lia.
    rewrite Z.div_add_l, (Z.div_small (_ - _)) by lia. done.
Qed.

Lemma climb_audit k : forall i leaves, (i < 2 ^ k)%nat ->
  climb 0 (Z.of_nat i) (sha256 (0 :: leaf_at leaves i)) (audit k i leaves) = mth k leaves.
Proof.
  induction k as [|k IH]; intros i leaves Hi; cbn [audit].
  - assert (i = 0)%nat as -> by (cbn in Hi; lia). done.
  - pose proof (testbit_of_nat i k Hi) as Hb. destruct (Nat.ltb_spec i (2 ^ k)) as [Hk|Hk];
      rewrite climb_snoc, audit_length, Z.add_0_l, Hb; cbn [negb parent mth].
    + rewrite <- (leaf_at_take (2 ^ k)), IH by done. done.
    + replace (leaf_at leaves i) with (leaf_at (drop (2 ^ k) leaves) (i - 2 ^ k))
        by (rewrite leaf_at_drop; f_equal; lia).
      erewrite climb_bits; [rewrite IH by (cbn in Hi; lia); done |].
      intros j. rewrite audit_length. intros Hj. cbn in Hi.
      rewrite <- (Z.mod_pow2_bits_low (Z.of_nat i) (Z.of_nat k)) by lia.
      rewrite <- (Z.mod_pow2_bits_low (Z.of_nat (i - 2 ^ k)) (Z.of_nat k)) by lia.
      f_equal. rewrite Nat2Z.inj_sub, pow2_nat by lia.
      rewrite <- (Z.mod_add (Z.of_nat i - _) 1) by lia. f_equal. lia.
Qed.

Lemma verify_inclusion_spec proof sth e :
  verify_inclusion proof sth e = Some true <->
  b64_url_no_pad (ip_leaf_hash proof) = Ok (leaf_hash_of e) /\
  exists root, fold_audit_path 0 (ip_leaf_index proof) (leaf_hash_of e) (ip_audit_path proof) = Some (Some root) /\
    b64_url_no_pad (sth_sha256_root_hash sth) = Ok root.
Proof.
  unfold verify_inclusion. split.
  - destruct (b64_url_no_pad (ip_leaf_hash proof)) as [leaf|]; [|done].
    destruct (bool_decide_reflect (leaf_hash_of e = leaf)) as [->|]; cbn [negb]; [|done].
    destruct (fold_audit_path _ _ _ _) as [[root|]|]; try done.
    destruct (b64_url_no_pad (sth_sha256_root_hash sth)) as [r|]; [|done].
    destruct (bool_decide_reflect (root = r)) as [->|]; [|done]. intros _. split; [done |]. by exists r.
  - intros (-> & root & -> & ->). by rewrite !bool_decide_true.
Qed.

(** C21: over a tree of [2 ^ k] entries an inclusion proof counts modulo [2 ^ k]:
    the honest audit path of an entry is accepted under its index, and under
    every other index that is the same modulo [2 ^ k], in range or not (only the
    low bits of the index are looked at); and an accepted proof of [k] steps
    shows that the entry is in the tree at its index modulo [2 ^ k], or else a
    collision of SHA-256.  So for an index within the tree it is the entry at
    that index. *)
Theorem merkle_inclusion k leaves sth e :
  length leaves = (2 ^ k)%nat -> b64_url_no_pad (sth_sha256_root_hash sth) = Ok (mth k leaves) ->
  let leaf := bytes_of (leaf_canonical_json e) in
  (forall i proof, (k <= 64)%nat -> leaves !! i = Some leaf -> ip_leaf_index proof mod 2 ^ Z.of_nat k = Z.of_nat i ->
     b64_url_no_pad (ip_leaf_hash proof) = Ok (leaf_hash_of e) ->
     Forall2 decodes (ip_audit_path proof) (audit k i leaves) -> verify_inclusion proof sth e = Some true) /\
  (forall proof, length (ip_audit_path proof) = k -> verify_inclusion proof sth e = Some true ->
     collision \/ leaves !! Z.to_nat (ip_leaf_index proof mod 2 ^ Z.of_nat k) = Some leaf) /\
  (forall proof, length (ip_audit_path proof) = k -> verify_inclusion proof sth e = Some true ->
     0 <= ip_leaf_index proof < Z.of_nat (length leaves) ->
     collision \/ leaves !! Z.to_nat (ip_leaf_index proof) = Some leaf).
Proof.
  intros Hl Hr leaf.
  assert (Hsound : forall proof, length (ip_audit_path proof) = k -> verify_inclusion proof sth e = Some true ->
    collision \/ leaves !! Z.to_nat (ip_leaf_index proof mod 2 ^ Z.of_nat k) = Some leaf).
  { intros proof Hk Hv. apply verify_inclusion_spec in Hv as (Eh & root & Hf & Er).
    rewrite Hr in Er. injection Er as <-. apply fold_audit_path_spec in Hf as (siblings & Hs & E); [|done].
    pose proof (Forall2_length _ _ _ Hs) as Hlen. symmetry in E. rewrite Hk in Hlen.
    apply climb_sound in E as [Hc|E]; [by left | | done | | apply hash_length].
    + set (i := Z.to_nat (ip_leaf_index proof mod 2 ^ Z.of_nat k)) in *.
      destruct (decide (0 :: leaf = 0 :: leaf_at leaves i)) as [Eq|Ne]; [right | left; by eexists _, _].
      injection Eq as ->. unfold leaf_at.
      pose proof (Z.mod_pos_bound (ip_leaf_index proof) (2 ^ Z.of_nat k) ltac:(lia)) as Hm.
      destruct (lookup_lt_is_Some_2 leaves i) as [x ->]; [|done].
      rewrite Hl. unfold i. apply Nat2Z.inj_lt. rewrite pow2_nat. lia.
    + clear -Hs. induction Hs as [|t s ? ? [_ Hd] _ IH]; by constructor. }
  split; [|split; [exact Hsound|]].
  - intros i proof Hk Hi Ei Eh Hp. apply verify_inclusion_spec. split; [done |]. exists (mth k leaves). split; [|done].
    pose proof (lookup_lt_Some _ _ _ Hi) as Hlt. rewrite Hl in Hlt.
    erewrite fold_audit_path_climb; [|exact Hp | done |].
    + do 2 f_equal. rewrite <- climb_audit with (i := i) by done. unfold leaf_hash_of, leaf_at. rewrite Hi.
      apply climb_bits. intros j. rewrite audit_length. intros Hj. rewrite <- Ei. symmetry. apply Z.mod_pow2_bits_low. lia.
    + apply Forall2_length in Hp. rewrite audit_length in Hp. lia.
  - intros proof Hk Hv Hrange. rewrite Hl, pow2_nat in Hrange. destruct (Hsound proof Hk Hv) as [Hc|E]; [by left|right].
    by rewrite Z.mod_small in E.
Qed.

(** The tree of RFC 9162 over three leaves: the honest proof of the last one
    is refused, unless SHA-256 collides. *)
Lemma last_of_three_refused a b proof sth e :
  let ab := sha256 (1 :: sha256 (0 :: a) ++ sha256 (0 :: b)) in
  let root := sha256 (1 :: ab ++ leaf_hash_of e) in
  b64_url_no_pad (sth_sha256_root_hash sth) = Ok root -> ip_leaf_index proof = 2 ->
  Forall2 decodes (ip_audit_path proof) [ab] -> verify_inclusion proof sth e = Some true -> collision.
Proof.
  intros ab root Hr Hi Hp Hv. apply verify_inclusion_spec in Hv as (_ & r & Hf & Er).
  rewrite Hr in Er. injection Er as <-.
  erewrite fold_audit_path_climb, Hi in Hf; [|exact Hp | done |].
  2: { apply Forall2_length in Hp. rewrite Hp. cbn. lia. }
  injection Hf as Hf. apply (parent_inj false) in Hf; [|apply hash_length..].
  destruct Hf as [Hc|[E _]]; [done |].
  unfold leaf_hash_of, ab in E. eexists _, _. split; [|exact E]. done.
Qed.

End merkle.

(** ** Signatures *)

Section signatures.
Context {D : Digests} `{SigningLaws} `{Base64StdEncoder}.
Context (std_back : forall l, Forall u8_range l -> b64_standard (b64_standard_encode l) = Ok l).

Lemma signing_map_signature s e : signing_map (with_signature s e) = signing_map e.
Proof. done. Qed.

(** A signed entry verifies, and so does every entry that agrees with it on
    the covered fields and carries its signature; those fields are all but the
    signature, the incident by its text. *)
Lemma entry_signature sk e e' : signing_map e' = signing_map e ->
  verify_entry (verifying_key sk) (with_signature (le_signature (sign_entry sk e)) e') = true.
Proof.
  intros E. unfold verify_entry. rewrite signing_map_signature, E. cbn [sign_entry with_signature le_signature].
  rewrite strip_prefix_app, std_back by apply sig_bytes_u8.
  by rewrite sig_bytes_len, sig_bytes_back, sign_verifies.
Qed.
End signatures.

(** ** Witness *)

Definition pad_digests : Digests :=
  {| sha256 l := take 32 (l ++ replicate 32 0); hex_encode _ := "h"; json_to_string _ := "j" |}.
Definition byte_base64 : Base64 :=
  {| b64_standard s := Ok (bytes_of s); b64_url_no_pad s := Ok (bytes_of s); b64_url s := Ok (bytes_of s) |}.

Definition toy_entry : ReputationLogEntry :=
  mkLogEntry 1 "log" 0 "t" "nid" Other None Minor None None None None "issuer" "sig".
Definition toy_leaves : list (list Z) := [[1]; [2]; bytes_of "j"; [3]].

Lemma merkle_inclusion_witness :
  @verify_inclusion pad_digests byte_base64
    (mkProof 2 2 4 (of_bytes (@leaf_hash_of pad_digests toy_entry))
       (map of_bytes (@audit pad_digests 2 2 toy_leaves)))
    (mkTreeHead "log" 4 "t" (of_bytes (@mth pad_digests 2 toy_leaves)) "") toy_entry = Some true.
Proof.
  refine (proj1 (@merkle_inclusion pad_digests byte_base64 _ 2 toy_leaves _ toy_entry _ _) 2%nat _ _ _ _ _ _).
  - intros x. cbn [sha256 pad_digests]. rewrite length_take, length_app, length_replicate. lia.
  - reflexivity.
  - vm_compute. reflexivity.
  - lia.
  - reflexivity.
  - reflexivity.
  - vm_compute. reflexivity.
  - repeat (constructor; [vm_compute; split; reflexivity |]). constructor.
Defined.
