(* ===== verification/NwpReputation.v ===== *)
(** * NwpReputation: the reputation gate

    Models nps-nwp/src/reputation.rs and reputation_policy.rs: rules, policies
    and the evaluator with its cache of log queries and its cache of bans.  The
    clients of the logs are a parameter: what each source answers about a NID. *)

From S2P Require Import Prelude RustStr Floats Json CoreFrames CoreCache NipFrames NipDer NipVerifier NipReputation.
Local Open Scope Z_scope.

(** ** Policies *)

Record ReputationRule : Type := mkRule {
  ru_incident : string;
  ru_severity : string;
  ru_within_days : option Z;
  ru_count : Z
}.

Record ReputationPolicy : Type := mkPolicy {
  po_enabled : bool;
  po_log_sources : list string;
  po_min_assurance_level : string;
  po_cache_ttl_seconds : Z;
  po_ban_ttl_seconds : Z;
  po_on_log_unavailable : string;
  po_throttle_on : list ReputationRule;
  po_reject_on : list ReputationRule;
  po_ban_on : list ReputationRule
}.

(** The defaults of a field that is absent. *)
Definition default_rule : ReputationRule := mkRule "*" ">=minor" None 1.
Definition default_policy : ReputationPolicy := mkPolicy true [] "anonymous" 300 3600 "allow" [] [] [].

Inductive RepOutcome : Type := RepAccept | RepThrottle | RepReject | RepBan.
#[export] Instance RepOutcome_eq_dec : EqDecision RepOutcome.
Proof. solve_decision. Defined.

Record ReputationDecision : Type := mkDecision {
  de_outcome : RepOutcome;
  de_matched_rule : option ReputationRule;
  de_error_code : option string
}.

Definition decision_accept : ReputationDecision := mkDecision RepAccept None None.
Definition is_accepted (d : ReputationDecision) : bool := bool_decide (de_outcome d = RepAccept).

Definition AUTH_ASSURANCE_TOO_LOW : string := "NWP-AUTH-ASSURANCE-TOO-LOW".
Definition REPUTATION_BANNED : string := "NWP-REPUTATION-BANNED".
Definition REPUTATION_REJECTED : string := "NWP-REPUTATION-REJECTED".
Definition REPUTATION_THROTTLED : string := "NWP-REPUTATION-THROTTLED".
Definition LOG_NODE_UNAVAILABLE : string := "NWP-NODE-UNAVAILABLE".

Definition decision (outcome : RepOutcome) (matched_rule : option ReputationRule) (code : string) : ReputationDecision :=
  mkDecision outcome matched_rule (Some code).
Definition rep_reject (code : string) : ReputationDecision := decision RepReject None code.

(** ** Rules *)

(** The text is lower case when it reaches the deserializer. *)
Definition severity_from_wire (s : string) : option Severity := severity_from_value (VString (to_ascii_lowercase s)).

Definition incident_wire (e : ReputationLogEntry) : string :=
  match le_incident e, le_incident_raw e with
  | Other, Some raw => raw
  | i, _ => incident_to_wire i
  end.

Section rules.
Context `{Timestamps}.

(** Instants are nanoseconds; [unix_timestamp] rounds down. *)
Definition rule_matches (rule : ReputationRule) (entry : ReputationLogEntry) (now_unix : Z) : bool :=
  if negb (String.eqb (ru_incident rule) "*") && negb (eq_ignore_ascii_case (incident_wire entry) (ru_incident rule))
  then false
  else
    let s := trim (ru_severity rule) in
    let '(at_least, level_str) :=
      match strip_prefix ">=" s with Some rest => (true, trim rest) | None => (false, s) end in
    match severity_from_wire level_str with
    | None => false
    | Some threshold =>
      if (if at_least : bool then severity_rank (le_severity entry) <? severity_rank threshold
          else negb (bool_decide (le_severity entry = threshold))) then false
      else match ru_within_days rule with
           | None => true
           | Some days =>
             match parse_ts (le_timestamp entry) with
             | None => false
             | Some t => negb (days * 86400 <? now_unix - t / nanos_per_sec)
             end
           end
    end.

(** The loop over the entries of one rule; [matched] counts to [needed]. *)
Fixpoint count_matches (rule : ReputationRule) (needed matched now : Z) (entries : list ReputationLogEntry) : bool :=
  match entries with
  | [] => false
  | e :: rest =>
    if negb (rule_matches rule e now) then count_matches rule needed matched now rest
    else if needed <=? matched + 1 then true
    else count_matches rule needed (matched + 1) now rest
  end.

Fixpoint first_matching_rule (rules : list ReputationRule) (entries : list ReputationLogEntry) (now : Z)
    : option ReputationRule :=
  match rules with
  | [] => None
  | rule :: rest =>
    let needed := if ru_count rule =? 0 then 1 else ru_count rule in
    if count_matches rule needed 0 now entries then Some rule else first_matching_rule rest entries now
  end.
End rules.

(** ** The evaluator *)

Record Evaluator : Type := mkEvaluator {
  query_cache : gmap string (list ReputationLogEntry * Z);
  ban_cache : gmap string Z
}.

Definition evaluator_new : Evaluator := mkEvaluator ∅ ∅.

Definition cache_query (nid : string) (entries : list ReputationLogEntry) (expiry : Z) (ev : Evaluator) : Evaluator :=
  mkEvaluator (<[nid := (entries, expiry)]> (query_cache ev)) (ban_cache ev).
Definition record_ban (nid : string) (exp : Z) (ev : Evaluator) : Evaluator :=
  mkEvaluator (query_cache ev) (<[nid := exp]> (ban_cache ev)).

Definition prime_cache (now : Z) (nid : string) (entries : list ReputationLogEntry) (ttl_seconds : Z)
    (ev : Evaluator) : Evaluator := cache_query nid entries (now + ttl_seconds) ev.

(** What the client of a source answers about a NID; [None] is its error. *)
Class ReputationLogs : Type := { log_query : string -> string -> option (list ReputationLogEntry) }.

Section evaluator.
Context `{Timestamps} `{ReputationLogs} `{DebugText}.

Fixpoint query_sources (nid : string) (sources : list string) : option (list ReputationLogEntry) :=
  match sources with
  | [] => None
  | source :: rest => match log_query source nid with Some r => Some r | None => query_sources nid rest end
  end.

Definition fetch_entries (nid : string) (policy : ReputationPolicy) (now : Z) (ev : Evaluator)
    : bool * list ReputationLogEntry * Evaluator :=
  let fresh := if 0 <? po_cache_ttl_seconds policy
               then '(entries, expiry) ← query_cache ev !! nid; if now <? expiry then Some entries else None
               else None in
  match fresh with
  | Some entries => (true, entries, ev)
  | None =>
    match query_sources nid (po_log_sources policy) with
    | Some results =>
      (true, results, if 0 <? po_cache_ttl_seconds policy
                      then cache_query nid results (now + po_cache_ttl_seconds policy) ev else ev)
    | None => (false, default [] (fst <$> query_cache ev !! nid), ev)
    end
  end.

(** Steps 4 to 7, on the entries. *)
Definition decide_entries (requester_nid : string) (policy : ReputationPolicy) (now : Z)
    (entries : list ReputationLogEntry) (ev : Evaluator) : ReputationDecision * Evaluator :=
  match first_matching_rule (po_ban_on policy) entries now with
  | Some rule => (decision RepBan (Some rule) REPUTATION_BANNED,
                  record_ban requester_nid (now + po_ban_ttl_seconds policy) ev)
  | None =>
    match first_matching_rule (po_reject_on policy) entries now with
    | Some rule => (decision RepReject (Some rule) REPUTATION_REJECTED, ev)
    | None =>
      match first_matching_rule (po_throttle_on policy) entries now with
      | Some rule => (decision RepThrottle (Some rule) REPUTATION_THROTTLED, ev)
      | None => (decision_accept, ev)
      end
    end
  end.

Definition min_level (policy : ReputationPolicy) : AssuranceLevel :=
  match from_wire (po_min_assurance_level policy) with Ok l => l | Err _ => ANONYMOUS end.

Definition banned (requester_nid : string) (now : Z) (ev : Evaluator) : bool :=
  match ban_cache ev !! requester_nid with Some exp => now <? exp | None => false end.

Definition rep_evaluate (requester_nid : string) (assurance : AssuranceLevel) (policy : ReputationPolicy) (now : Z)
    (ev : Evaluator) : ReputationDecision * Evaluator :=
  if negb (po_enabled policy) then (decision_accept, ev)
  else if negb (meets_or_exceeds assurance (min_level policy)) then (rep_reject AUTH_ASSURANCE_TOO_LOW, ev)
  else if banned requester_nid now ev then (decision RepBan None REPUTATION_BANNED, ev)
  else
    let '(available, entries, ev) := fetch_entries requester_nid policy now ev in
    if negb available && eq_ignore_ascii_case (po_on_log_unavailable policy) "deny"
    then (rep_reject LOG_NODE_UNAVAILABLE, ev)
    else decide_entries requester_nid policy now entries ev.
End evaluator.

(** ** Theorems *)

Section theorems.
Context `{Timestamps} `{ReputationLogs} `{DebugText}.

(** When a rule holds: enough entries match it; a count of 0 means 1. *)
Definition rule_holds (rule : ReputationRule) (entries : list ReputationLogEntry) (now : Z) : Prop :=
  Z.max 1 (ru_count rule) <= Z.of_nat (length (List.filter (fun e => rule_matches rule e now) entries)).

Lemma count_matches_spec rule needed now entries : forall matched, matched < needed ->
  count_matches rule needed matched now entries =
  (needed <=? matched + Z.of_nat (length (List.filter (fun e => rule_matches rule e now) entries))).
Proof.
  induction entries as [|e entries IH]; intros matched Hm; cbn [count_matches List.filter].
  - cbn. symmetry. apply Z.leb_gt. lia.
  - destruct (rule_matches rule e now); cbn [negb]; [|by apply IH]. cbn [length].
    destruct (Z.leb_spec needed (matched + 1)); [symmetry; apply Z.leb_le; lia |].
    rewrite IH by lia. f_equal. lia.
Qed.

Lemma needed_holds rule entries now : 0 <= ru_count rule ->
  count_matches rule (if ru_count rule =? 0 then 1 else ru_count rule) 0 now entries = true <->
  rule_holds rule entries now.
Proof.
  intros Hc. unfold rule_holds. destruct (Z.eqb_spec (ru_count rule) 0) as [E|E];
    (rewrite count_matches_spec by lia); rewrite Z.leb_le; lia.
Qed.

(** The first rule that holds, or none does. *)
Definition first_holding (rules : list ReputationRule) (entries : list ReputationLogEntry) (now : Z)
    (o : option ReputationRule) : Prop :=
  match o with
  | Some rule => exists before after, rules = before ++ rule :: after /\ rule_holds rule entries now /\
                   Forall (fun r => ~ rule_holds r entries now) before
  | None => Forall (fun r => ~ rule_holds r entries now) rules
  end.

Lemma first_matching_rule_spec rules entries now : Forall (fun r => 0 <= ru_count r) rules ->
  first_holding rules entries now (first_matching_rule rules entries now).
Proof.
  induction 1 as [|rule rules Hc _ IH]; [constructor |]. cbn [first_matching_rule].
  pose proof (needed_holds rule entries now Hc) as Hn.
  destruct (count_matches _ _ _ _ _).
  - exists [], rules. split; [done |]. split; [by apply Hn | constructor].
  - assert (~ rule_holds rule entries now) as Hr by (intros Hh; apply Hn in Hh; done).
    destruct (first_matching_rule rules entries now) as [r|]; cbn in *.
    + destruct IH as (b & a & -> & Hh & Hb). exists (rule :: b), a. split; [done |]. split; [done | by constructor].
    + by constructor.
Qed.

Definition counts_ok (policy : ReputationPolicy) : Prop :=
  Forall (fun r => 0 <= ru_count r) (po_ban_on policy ++ po_reject_on policy ++ po_throttle_on policy).

(** Past the gate of assurance, bans and the availability of the logs, the
    verdict is that of the gravest list with a rule that holds, and the rule
    reported is the first of that list. *)
Lemma decide_entries_spec nid policy now entries ev : counts_ok policy ->
  let d := fst (decide_entries nid policy now entries ev) in
  let none rules := first_holding rules entries now None in
  match de_outcome d with
  | RepBan => first_holding (po_ban_on policy) entries now (de_matched_rule d) /\ is_Some (de_matched_rule d)
  | RepReject => none (po_ban_on policy) /\
      first_holding (po_reject_on policy) entries now (de_matched_rule d) /\ is_Some (de_matched_rule d)
  | RepThrottle => none (po_ban_on policy) /\ none (po_reject_on policy) /\
      first_holding (po_throttle_on policy) entries now (de_matched_rule d) /\ is_Some (de_matched_rule d)
  | RepAccept => none (po_ban_on policy) /\ none (po_reject_on policy) /\ none (po_throttle_on policy) /\
      de_matched_rule d = None
  end.
Proof.
  intros Hc. apply Forall_app in Hc as [Hb Hc]. apply Forall_app in Hc as [Hr Ht].
  apply (first_matching_rule_spec _ entries now) in Hb, Hr, Ht. unfold decide_entries.
  destruct (first_matching_rule (po_ban_on policy) entries now); [by split |].
  destruct (first_matching_rule (po_reject_on policy) entries now); [by repeat split |].
  destruct (first_matching_rule (po_throttle_on policy) entries now); by repeat split.
Qed.

Lemma decide_entries_state nid policy now entries ev :
  snd (decide_entries nid policy now entries ev) =
  match first_matching_rule (po_ban_on policy) entries now with
  | Some _ => record_ban nid (now + po_ban_ttl_seconds policy) ev
  | None => ev
  end.
Proof.
  unfold decide_entries. destruct (first_matching_rule (po_ban_on policy) entries now); [done |].
  destruct (first_matching_rule (po_reject_on policy) entries now); [done |].
  by destruct (first_matching_rule (po_throttle_on policy) entries now).
Qed.

Lemma fetch_entries_bans nid policy now ev : ban_cache (snd (fetch_entries nid policy now ev)) = ban_cache ev.
Proof.
  unfold fetch_entries. destruct (if 0 <? po_cache_ttl_seconds policy then _ else None); [done |].
  destruct (query_sources nid (po_log_sources policy)); [|done]. by destruct (0 <? po_cache_ttl_seconds policy).
Qed.

(** ** Histories of evaluations *)

Record Call : Type := mkCall {
  cl_nid : string; cl_assurance : AssuranceLevel; cl_policy : ReputationPolicy; cl_now : Z }.

Definition evaluate_call (c : Call) (ev : Evaluator) : ReputationDecision * Evaluator :=
  rep_evaluate (cl_nid c) (cl_assurance c) (cl_policy c) (cl_now c) ev.

Fixpoint evaluate_calls (calls : list Call) (ev : Evaluator) : Evaluator :=
  match calls with
  | [] => ev
  | c :: rest => evaluate_calls rest (snd (evaluate_call c ev))
  end.

(** A call that records a ban for its NID until [exp]. *)
Definition bans_until (c : Call) (exp : Z) (ev : Evaluator) : Prop :=
  exists rule, fst (evaluate_call c ev) = decision RepBan (Some rule) REPUTATION_BANNED /\
    exp = cl_now c + po_ban_ttl_seconds (cl_policy c).

(** A call leaves the bans alone or adds its own, and that only when no ban of
    its NID is running. *)
Lemma evaluate_call_bans c ev :
  ban_cache (snd (evaluate_call c ev)) = ban_cache ev \/
  exists exp, bans_until c exp ev /\ ban_cache (snd (evaluate_call c ev)) = <[cl_nid c := exp]> (ban_cache ev) /\
    banned (cl_nid c) (cl_now c) ev = false.
Proof.
  destruct c as [nid assurance policy now]. unfold bans_until, evaluate_call, rep_evaluate. cbn [cl_nid cl_assurance cl_policy cl_now].
  destruct (po_enabled policy); cbn [negb]; [|by left].
  destruct (meets_or_exceeds assurance (min_level policy)); cbn [negb]; [|by left].
  destruct (banned nid now ev) eqn:Eb; [by left |].
  pose proof (fetch_entries_bans nid policy now ev) as Hf.
  destruct (fetch_entries nid policy now ev) as [[available entries] ev1]. cbn [snd] in Hf.
  destruct (negb available && _); [by left |].
  pose proof (decide_entries_state nid policy now entries ev1) as Hs.
  unfold decide_entries in Hs |- *.
  destruct (first_matching_rule (po_ban_on policy) entries now) as [rule|].
  - right. exists (now + po_ban_ttl_seconds policy). split; [by exists rule |]. cbn. by rewrite Hf.
  - left. rewrite Hs. exact Hf.
Qed.

Lemma evaluate_calls_app a b ev : evaluate_calls (a ++ b) ev = evaluate_calls b (evaluate_calls a ev).
Proof. revert ev. induction a as [|c a IH]; intros ev; [done |]. apply IH. Qed.

(** A running ban stays through any calls before its end. *)
Lemma running_ban_stays nid exp calls : forall ev, ban_cache ev !! nid = Some exp ->
  Forall (fun c => cl_now c < exp) calls -> ban_cache (evaluate_calls calls ev) !! nid = Some exp.
Proof.
  induction calls as [|c calls IH]; intros ev Hb Hn; [done |].
  apply Forall_cons in Hn as [Hc Hn]. apply IH; [|done].
  destruct (evaluate_call_bans c ev) as [->|(e & _ & -> & Hf)]; [done |].
  destruct (decide (cl_nid c = nid)) as [<-|Hne]; [|by rewrite lookup_insert_ne].
  unfold banned in Hf. rewrite Hb in Hf. apply Z.ltb_ge in Hf. lia.
Qed.

(** What a call meets while its NID is banned. *)
Lemma banned_call c ev exp : ban_cache ev !! cl_nid c = Some exp -> cl_now c < exp ->
  po_enabled (cl_policy c) = true ->
  evaluate_call c ev = (decision RepBan None REPUTATION_BANNED, ev) \/
  evaluate_call c ev = (rep_reject AUTH_ASSURANCE_TOO_LOW, ev).
Proof.
  intros Hr Hc He. unfold evaluate_call, rep_evaluate. rewrite He. cbn [negb].
  destruct (meets_or_exceeds _ _); cbn [negb]; [|by right].
  unfold banned. rewrite Hr, (proj2 (Z.ltb_lt _ _) Hc). by left.
Qed.

(** Every ban in the cache was recorded by a call in the history, for its own
    NID, on a rule that matched; once recorded it is in force until it
    expires: whatever calls follow before then, a call for that NID under an
    enabled policy is answered with the ban, or with the assurance error, and
    changes nothing. *)
Theorem bans_justified_and_kept calls nid exp :
  ban_cache (evaluate_calls calls evaluator_new) !! nid = Some exp ->
  (exists before c after, calls = before ++ c :: after /\ cl_nid c = nid /\
     bans_until c exp (evaluate_calls before evaluator_new)) /\
  (forall later c, Forall (fun c => cl_now c < exp) (c :: later) -> cl_nid c = nid ->
     po_enabled (cl_policy c) = true ->
     let ev := evaluate_calls (calls ++ later) evaluator_new in
     snd (evaluate_call c ev) = ev /\
     (fst (evaluate_call c ev) = decision RepBan None REPUTATION_BANNED \/
      fst (evaluate_call c ev) = rep_reject AUTH_ASSURANCE_TOO_LOW)).
Proof.
  intros Hb. split.
  - revert Hb. induction calls as [|c calls IH] using rev_ind; [done |].
    rewrite evaluate_calls_app. cbn [evaluate_calls].
    destruct (evaluate_call_bans c (evaluate_calls calls evaluator_new)) as [->|(e & Hu & -> & _)]; intros Hb.
    + destruct (IH Hb) as (before & x & after & -> & Hx). exists before, x, (after ++ [c]).
      by rewrite <- app_assoc.
    + destruct (decide (cl_nid c = nid)) as [<-|Hne].
      * rewrite lookup_insert_eq in Hb. injection Hb as <-. exists calls, c, []. by split.
      * rewrite lookup_insert_ne in Hb by done. destruct (IH Hb) as (before & x & after & -> & Hx).
        exists before, x, (after ++ [c]). by rewrite <- app_assoc.
  - intros later c Hn <- He ev. apply Forall_cons in Hn as [Hc Hn].
    assert (Hr : ban_cache ev !! cl_nid c = Some exp)
      by (unfold ev; rewrite evaluate_calls_app; by apply running_ban_stays).
    destruct (banned_call c ev exp Hr Hc He) as [->| ->]; split; auto.
Qed.

(** An unknown minimum level is read as no minimum. *)
Lemma unknown_minimum_admits policy level : is_ok (from_wire (po_min_assurance_level policy)) = false ->
  0 <= rank level -> meets_or_exceeds level (min_level policy) = true.
Proof.
  unfold min_level. destruct (from_wire _); [done |]. intros _ Hr. apply Z.leb_le. exact Hr.
Qed.
End theorems.

(** ** Witness *)

Definition toy_clock : Timestamps := {| parse_ts _ := None |}.
Definition toy_logs : ReputationLogs :=
  {| log_query _ nid := Some [mkLogEntry 1 "log" 0 "t" nid CertRevoked None Major None None None None "i" "s"] |}.
Definition toy_policy : ReputationPolicy :=
  mkPolicy true ["log"] "anonymous" 300 3600 "allow" [] [] [default_rule].
Definition toy_rep_call (now : Z) : Call := mkCall "nid" ANONYMOUS toy_policy now.

Lemma bans_justified_and_kept_witness :
  fst (@evaluate_call toy_clock toy_logs quoted (toy_rep_call 3599)
    (@evaluate_calls toy_clock toy_logs quoted ([toy_rep_call 0] ++ [toy_rep_call 10]) evaluator_new))
  = decision RepBan None REPUTATION_BANNED.
Proof.
  destruct (@bans_justified_and_kept toy_clock toy_logs quoted [toy_rep_call 0] "nid" 3600) as [_ Hk];
    [vm_compute; reflexivity |].
  destruct (Hk [toy_rep_call 10] (toy_rep_call 3599)) as [_ [E|E]].
  - repeat constructor; cbn; lia.
  - reflexivity.
  - reflexivity.
  - exact E.
  - vm_compute in E. discriminate E.
Defined.
