(* ===== verification/NwpAnchor.v ===== *)
(** * NwpAnchor: the Anchor Node server

    Models nps-nwp/src/anchor_server.rs: routing and authentication, the
    topology queries and subscriptions, and the invocation of actions behind
    the reputation gate, the budget and the rate limiter.  The handler of the
    actions and the limiter act on states of their own, which the node threads
    through; the derived serializers and the clock are parameters. *)

From S2P Require Import Prelude RustStr Floats Json CoreFrames CoreCache NipFrames NipDer NipVerifier NipReputation NwpTopology NwpContext NwpMemory NwpAction NwpReputation.
Local Open Scope Z_scope.

Definition SNAPSHOT_ANCHOR_REF : string := "nps:system:topology:snapshot".
Definition RESERVED_TYPE_UNSUPPORTED : string := "NWP-RESERVED-TYPE-UNSUPPORTED".
Definition TOPOLOGY_UNAUTHORIZED : string := "NWP-TOPOLOGY-UNAUTHORIZED".
Definition TOPOLOGY_UNSUPPORTED_SCOPE : string := "NWP-TOPOLOGY-UNSUPPORTED-SCOPE".
Definition TOPOLOGY_FILTER_UNSUPPORTED : string := "NWP-TOPOLOGY-FILTER-UNSUPPORTED".
Definition CGN_LIMIT_EXCEEDED : string := "NWP-CGN-LIMIT-EXCEEDED".
Definition RATE_LIMIT_EXCEEDED : string := "NWP-RATE-LIMIT-EXCEEDED".

(** ** Options *)

Record AnchorActionSpec : Type := mkAnchorSpec {
  ns_description : option string;
  ns_params_anchor : option string;
  ns_result_anchor : option string;
  ns_estimated_cgn : option Z;
  ns_timeout_ms_default : option Z;
  ns_timeout_ms_max : option Z;
  ns_required_capability : option string;
  ns_async : bool
}.

(** The actions are sorted by key. *)
Record AnchorNodeOptions : Type := mkAnchorOptions {
  no_node_id : string;
  no_path_prefix : string;
  no_actions : list (string * AnchorActionSpec);
  no_display_name : option string;
  no_require_auth : bool;
  no_required_capabilities : option (list string);
  no_require_topology_capability : bool;
  no_default_timeout_ms : Z;
  no_max_timeout_ms : Z;
  no_default_token_budget : Z;
  no_cgn_limit : Z;
  no_assurance_hint_url : option string;
  no_reputation_policy : option ReputationPolicy;
  no_trust_anchors : option (list string);
  no_rate_limits : option Value;
  no_auto_inject_trace_context : bool
}.

Definition anchor_options_new (node_id path_prefix : string) : AnchorNodeOptions :=
  mkAnchorOptions node_id path_prefix [] None true None false 30000 300000 0 0 None None None None true.

Record InvokeContext : Type := mkInvokeContext {
  ic_agent_nid : option string;
  ic_effective_timeout_ms : Z;
  ic_budget_cgn : Z;
  ic_trace_id : option string;
  ic_span_id : option string
}.

Record AnchorActionError : Type := mkAnchorError {
  ne_http_status : Z;
  ne_nps_status : string;
  ne_error_code : string;
  ne_message : string;
  ne_details : option Value
}.

(** A handler acts on a state [W] of the host. *)
Definition InvokeHandler (W : Type) : Type :=
  string -> option Value -> InvokeContext -> W -> result AnchorActionError Value * W.

Record RateDecision : Type := mkRate {
  rt_allowed : bool; rt_retry_after_seconds : option Z; rt_reason : option string }.
Definition rate_allow : RateDecision := mkRate true None None.

Record RateLimiter (L : Type) : Type := mkLimiter {
  try_acquire : string -> Z -> L -> RateDecision * L;
  limiter_release : string -> L -> L
}.
Arguments try_acquire {L}.
Arguments limiter_release {L}.

Definition AllowAllRateLimiter : RateLimiter unit := mkLimiter unit (fun _ _ l => (rate_allow, l)) (fun _ l => l).

(** ** Topology service *)

Record TopologyFilter : Type := mkFilter {
  tf_tags_any : option (list string); tf_tags_all : option (list string); tf_node_roles : option (list string) }.

Record AnchorSnapshotRequest : Type := mkSnapshotRequest {
  sr_scope : string; sr_include : list string; sr_depth : Z; sr_target_nid : option string }.

Record AnchorStreamRequest : Type := mkStreamRequest {
  tr_scope : string; tr_filter : option TopologyFilter; tr_since_version : option Z }.

Record AnchorTopologyService : Type := mkTopology {
  at_anchor_nid : string;
  get_snapshot : AnchorSnapshotRequest -> TopologySnapshot;
  subscribe : AnchorStreamRequest -> list TopologyEvent
}.

Record InMemoryAnchorTopologyService : Type := mkInMemoryTopology {
  im_nid : string;
  im_members : list MemberInfo;
  im_version : Z;
  im_events : list TopologyEvent;
  im_cluster_epoch : option Z
}.

(** [impl AnchorTopologyService for InMemoryAnchorTopologyService]. *)
Definition in_memory_snapshot (s : InMemoryAnchorTopologyService) (req : AnchorSnapshotRequest) : TopologySnapshot :=
  let members := if existsb (fun i => String.eqb i "members") (sr_include req) then im_members s else [] in
  NwpTopology.mkSnapshot (im_version s) (im_nid s) (wrap_u32 (Z.of_nat (length (im_members s)))) members None (im_cluster_epoch s).

Definition in_memory_topology (s : InMemoryAnchorTopologyService) : AnchorTopologyService :=
  mkTopology (im_nid s) (in_memory_snapshot s) (fun _ => im_events s).

(** The derived serializers. *)
Class TopologySerde : Type := {
  snapshot_to_value : TopologySnapshot -> Value;
  member_to_value : MemberInfo -> Value;
  member_from_value : Value -> result string MemberInfo;
  changes_to_value : MemberChanges -> Value;
  changes_from_value : Value -> result string MemberChanges;
  filter_from_value : Value -> option TopologyFilter;
  policy_to_value : ReputationPolicy -> Value
}.

(** ** Parsing topology requests *)

Record TopologyProtocolError : Type := mkTopologyError {
  te_nwp_error_code : string; te_nps_status : string; te_message : string }.

Definition scope_error (message : string) : TopologyProtocolError :=
  mkTopologyError TOPOLOGY_UNSUPPORTED_SCOPE "NPS-CLIENT-BAD-PARAM" message.
Definition filter_key_error (message : string) : TopologyProtocolError :=
  mkTopologyError TOPOLOGY_FILTER_UNSUPPORTED "NPS-CLIENT-BAD-PARAM" message.

Definition parse_scope (topo : Map) : result TopologyProtocolError string :=
  match map_get "scope" topo ≫= as_str with
  | None => Ok "cluster"
  | Some s =>
    if String.eqb s "" || String.eqb s "cluster" then Ok "cluster"
    else if String.eqb s "member" then Ok "member"
    else Err (scope_error ("unknown topology.scope '" +:+ s +:+ "'."))
  end.

Definition known_includes : list string := ["members"; "capabilities"; "tags"; "metrics"].

Definition parse_include (topo : Map) : list string :=
  let out := match map_get "include" topo ≫= as_array with
             | Some arr => List.filter (fun s => existsb (String.eqb s) known_includes) (strings_of arr)
             | None => []
             end in
  match out with [] => ["members"] | _ => out end.

(** [d as u8] keeps the low 8 bits. *)
Definition parse_depth (topo : Map) : Z :=
  default 1 (d ← map_get "depth" topo ≫= as_u64; if 0 <? d then Some (wrap_u8 d) else None).

Fixpoint validate_filter_keys (f : Map) : result TopologyProtocolError unit :=
  match f with
  | [] => Ok tt
  | (key, _) :: rest =>
    if String.eqb key "tags_any" || String.eqb key "tags_all" || String.eqb key "node_roles"
    then validate_filter_keys rest
    else if String.eqb key "node_kind"
    then Err (filter_key_error "topology.filter.node_kind expired after alpha.5; use node_roles.")
    else Err (filter_key_error ("topology.filter key '" +:+ key +:+ "' is not recognized."))
  end.

Definition in_quotes (s : string) : string :=
  String.String (ascii_of 34) (s +:+ String.String (ascii_of 34) "").

Definition parse_snapshot_request (body : Value) : result TopologyProtocolError AnchorSnapshotRequest :=
  topo ← ok_or (vget "topology" body ≫= as_object)
           (scope_error "topology.snapshot requires a 'topology' object per NPS-2 §12.1.");
  scope ← parse_scope topo;
  let include := parse_include topo in
  let depth := parse_depth topo in
  let target_nid := map_get "target_nid" topo ≫= as_str in
  if String.eqb scope "member" && is_empty (default "" target_nid)
  then Err (scope_error ("topology.target_nid is required when topology.scope = " +:+ in_quotes "member" +:+ "."))
  else Ok (mkSnapshotRequest scope include depth target_nid).

(** [stream_id] is the identifier [gen_hex] makes; [None] when the client sent one. *)
Definition parse_stream_request (body : Value) `{TopologySerde}
    : result TopologyProtocolError (AnchorStreamRequest * option string) :=
  topo ← ok_or (vget "topology" body ≫= as_object)
           (scope_error "topology.stream requires a 'topology' object per NPS-2 §12.2.");
  scope ← parse_scope topo;
  filter ← (match map_get "filter" topo ≫= as_object with
            | Some f => _ ← validate_filter_keys f; Ok (filter_from_value (VObject f))
            | None => Ok None
            end);
  let since := or_else (map_get "since_version" topo ≫= as_u64) (vget "resume_from_seq" body ≫= as_u64) in
  let stream_id := s ← vget "stream_id" body ≫= as_str; if is_empty s then None else Some s in
  Ok (mkStreamRequest scope filter since, stream_id).

(** ** The manifest *)

Definition anchor_entry (id : string) (spec : AnchorActionSpec) : Value :=
  let e := map_insert "action_id" (VString id) [] in
  let e := map_insert "async" (VBool (ns_async spec)) e in
  let e := insert_opt "description" (VString <$> ns_description spec) e in
  let e := insert_opt "params_anchor" (VString <$> ns_params_anchor spec) e in
  let e := insert_opt "result_anchor" (VString <$> ns_result_anchor spec) e in
  let e := insert_opt "cgn_est" (vnat <$> ns_estimated_cgn spec) e in
  let e := insert_opt "timeout_ms_default" (vnat <$> ns_timeout_ms_default spec) e in
  let e := insert_opt "timeout_ms_max" (vnat <$> ns_timeout_ms_max spec) e in
  VObject (insert_opt "required_capability" (VString <$> ns_required_capability spec) e).

Definition anchor_actions_map (opt : AnchorNodeOptions) : Map :=
  fold_left (fun out kv => map_insert (fst kv) (anchor_entry (fst kv) (snd kv)) out) (no_actions opt) [].

Definition anchor_manifest `{TopologySerde} (opt : AnchorNodeOptions) (prefix : string) : Value :=
  let m := map_insert "nwp" (VString "0.4") [] in
  let m := map_insert "node_id" (VString (no_node_id opt)) m in
  let m := map_insert "node_type" (VString "anchor") m in
  let m := insert_opt "display_name" (VString <$> no_display_name opt) m in
  let m := map_insert "wire_formats" (vstrings ["ncp-capsule"; "json"]) m in
  let m := map_insert "preferred_format" (VString "json") m in
  let m := map_insert "capabilities"
             (VObject [("ext_frame", vbool false); ("query", vbool false); ("stream", vbool false);
                       ("subscribe", vbool false); ("token_budget_hint", vbool true); ("vector_search", vbool false)]) m in
  let auth := map_insert "required" (vbool (no_require_auth opt)) [] in
  let auth := map_insert "identity_type" (VString (if no_require_auth opt then "nip-cert" else "none")) auth in
  let auth := insert_opt "required_capabilities" (vstrings <$> no_required_capabilities opt) auth in
  let m := map_insert "auth" (VObject auth) m in
  let m := map_insert "endpoints"
             (VObject [("invoke", VString (prefix +:+ "/invoke")); ("schema", VString (prefix +:+ "/.schema"))]) m in
  let m := if 0 <? no_cgn_limit opt
           then map_insert "token_budget"
                  (VObject [("cgn_limit", vnat (no_cgn_limit opt)); ("profile", VString "cgn.v1")]) m
           else m in
  let m := insert_opt "rate_limits" (no_rate_limits opt) m in
  let m := match no_reputation_policy opt with
           | Some rp => if po_enabled rp then map_insert "reputation_policy" (policy_to_value rp) m else m
           | None => m
           end in
  let m := match no_trust_anchors opt with
           | Some (a :: ta) => map_insert "trust_anchors" (vstrings (a :: ta)) m
           | _ => m
           end in
  let m := map_insert "actions" (VArray (map snd (anchor_actions_map opt))) m in
  VObject m.

(** ** Helpers *)

Definition anchor_error_resp {D : Digests} (status : Z) (nps_status error_code message : string)
    (details : option Value) (extra : list (string * string)) : NodeResponse :=
  let env := map_insert "status" (VString nps_status) [] in
  let env := map_insert "error" (VString error_code) env in
  let env := map_insert "message" (VString message) env in
  let env := insert_opt "details" details env in
  mkNodeResponse status (("content-type", "application/json") :: extra) (to_vec (VObject env)).

Definition anchor_clamp_timeout (requested : Z) (spec : AnchorActionSpec) (opt : AnchorNodeOptions) : Z :=
  let spec_max := default (no_max_timeout_ms opt) (ns_timeout_ms_max spec) in
  let hard_max := Z.min spec_max (no_max_timeout_ms opt) in
  if requested =? 0 then default (no_default_timeout_ms opt) (ns_timeout_ms_default spec)
  else Z.min requested hard_max.

Definition read_effective_budget (req : NodeRequest) (opt : AnchorNodeOptions) : Z :=
  let agent_budget := default (no_default_token_budget opt) (rq_header req "X-NWP-Budget" ≫= parse_u32) in
  let cgn_limit := no_cgn_limit opt in
  if cgn_limit =? 0 then agent_budget
  else if agent_budget =? 0 then cgn_limit
  else Z.min cgn_limit agent_budget.

Definition extract_ident_assurance `{JsonParser} `{DebugText} (req : NodeRequest) : AssuranceLevel :=
  match rq_header req "X-NWP-Ident" with
  | None => ANONYMOUS
  | Some raw =>
    if is_empty raw then ANONYMOUS
    else match parse_json raw with
         | Err _ => ANONYMOUS
         | Ok doc =>
           match vget "assurance_level" doc ≫= as_str with
           | None => ANONYMOUS
           | Some lvl => match from_wire lvl with Ok a => a | Err _ => ANONYMOUS end
           end
         end
  end.

(** The first [2 * n_bytes] of the 32 digits: 16 bytes keep them all. *)
Definition anchor_gen_hex (n_bytes : nat) (t c : Z) : string := String.substring 0 (n_bytes * 2) (gen_hex t c).

Definition opt_value (o : option string) : Value := match o with Some s => VString s | None => VNull end.

(** ** The node *)

Section anchor.
Context {D : Digests} {P : JsonParser} {T : TopologySerde} {C : ContextTime} {B : DebugText}.
Context `{Timestamps} `{ReputationLogs}.
Context {W L : Type}.

Record AnchorNodeApp : Type := mkAnchorApp {
  na_opt : AnchorNodeOptions;
  na_prefix : string;
  na_handler : option (InvokeHandler W);
  na_topology : option AnchorTopologyService;
  na_limiter : RateLimiter L;
  na_nwm_json : list Z;
  na_actions_json : list Z
}.

Definition anchor_app_new (opt : AnchorNodeOptions) (handler : option (InvokeHandler W))
    (topology : option AnchorTopologyService) (limiter : RateLimiter L) : AnchorNodeApp :=
  let prefix := trim_prefix (no_path_prefix opt) in
  mkAnchorApp opt prefix handler topology limiter (to_vec (anchor_manifest opt prefix))
    (to_vec (VObject [("actions", VObject (anchor_actions_map opt))])).

(** What the node keeps: the evaluator, the limiter, the state the handler
    acts on, and the counter of identifiers. *)
Record AnchorNodeState : Type := mkAnchorState {
  sn_evaluator : option Evaluator;
  sn_limiter : L;
  sn_world : W;
  sn_counter : Z
}.

Definition set_evaluator (ev : Evaluator) (s : AnchorNodeState) : AnchorNodeState :=
  mkAnchorState (Some ev) (sn_limiter s) (sn_world s) (sn_counter s).
Definition set_limiter (l : L) (s : AnchorNodeState) : AnchorNodeState :=
  mkAnchorState (sn_evaluator s) l (sn_world s) (sn_counter s).
Definition set_world (w : W) (s : AnchorNodeState) : AnchorNodeState :=
  mkAnchorState (sn_evaluator s) (sn_limiter s) w (sn_counter s).

(** An identifier: the counter is read and advanced. *)
Definition fresh_hex (n_bytes : nat) (t : Z) (s : AnchorNodeState) : string * AnchorNodeState :=
  (anchor_gen_hex n_bytes t (sn_counter s),
   mkAnchorState (sn_evaluator s) (sn_limiter s) (sn_world s) (wrap_u64 (sn_counter s + 1))).

(** The readings of the clock a request makes: seconds for the gate and for
    each event, nanoseconds for the identifiers. *)
Record AnchorReadings : Type := mkAnchorReadings {
  an_unix : Z; an_trace : Z; an_span : Z; an_task : Z; an_stream : Z; an_event : nat -> Z }.

(** *** Topology *)

Definition topology_error_resp (e : TopologyProtocolError) : NodeResponse :=
  anchor_error_resp (if String.eqb (te_nps_status e) "NPS-AUTH-FORBIDDEN" then 403 else 400)
    (te_nps_status e) (te_nwp_error_code e) (te_message e) None [].

Definition check_topology_capability (app : AnchorNodeApp) (req : NodeRequest) : option NodeResponse :=
  if negb (no_require_topology_capability (na_opt app)) then None
  else if existsb (fun c => eq_ignore_ascii_case (trim c) "topology:read")
            (split_on "," (default "" (rq_header req "X-NWP-Capabilities")))
  then None
  else Some (anchor_error_resp 403 "NPS-AUTH-FORBIDDEN" TOPOLOGY_UNAUTHORIZED
    "Caller must declare 'topology:read' in X-NWP-Capabilities to access topology endpoints." None []).

Definition anchor_headers : list (string * string) :=
  [("content-type", MIME_CAPSULE); ("x-nwp-node-type", "anchor")].

(** The two answers to a type that is not the one served. *)
Definition reserved_type_resp (body : Value) (missing unknown : string) : NodeResponse :=
  anchor_error_resp 501 "NPS-SERVER-UNSUPPORTED" RESERVED_TYPE_UNSUPPORTED
    (match vget "type" body ≫= as_str with
     | None => missing
     | Some t => "Reserved " +:+ unknown +:+ " type '" +:+ t +:+ "' is not implemented by this Anchor Node."
     end) None [].

Definition no_topology_resp (what : string) : NodeResponse :=
  anchor_error_resp 501 "NPS-SERVER-UNSUPPORTED" NODE_UNAVAILABLE
    (what +:+ " is not available — no topology service registered.") None [].

Definition anchor_bad_request (code message : string) : NodeResponse :=
  anchor_error_resp 400 "NPS-CLIENT-BAD-REQUEST" code message None [].

Definition snapshot_caps (snap : TopologySnapshot) : Value :=
  VObject [("anchor_ref", VString SNAPSHOT_ANCHOR_REF); ("count", vnat 1); ("data", VArray [snapshot_to_value snap])].

Definition anchor_handle_query (app : AnchorNodeApp) (req : NodeRequest) : NodeResponse :=
  match check_topology_capability app req with
  | Some resp => resp
  | None =>
    match parse_json (of_bytes (nr_body req)) with
    | Err e => anchor_bad_request QUERY_FILTER_INVALID e
    | Ok body =>
      if negb (bool_decide (vget "type" body ≫= as_str = Some "topology.snapshot"))
      then reserved_type_resp body "Anchor /query requires a reserved type per NPS-2 §12." "query"
      else
        match na_topology app with
        | None => no_topology_resp "topology.snapshot"
        | Some topology =>
          match parse_snapshot_request body with
          | Err e => topology_error_resp e
          | Ok request =>
            mkNodeResponse 200 (anchor_headers ++ [("x-nwp-schema", SNAPSHOT_ANCHOR_REF)])
              (to_vec (snapshot_caps (get_snapshot topology request)))
          end
        end
    end
  end.

(** The type, sequence number and payload of an event. *)
Definition event_parts (ev : TopologyEvent) : string * option Z * Value :=
  match ev with
  | MemberJoined version member => ("member_joined", Some version, member_to_value member)
  | MemberLeft version nid => ("member_left", Some version, VObject [("nid", VString nid)])
  | MemberUpdated version nid changes =>
    ("member_updated", Some version, VObject [("changes", changes_to_value changes); ("nid", VString nid)])
  | NwpTopology.AnchorState version field details =>
    ("anchor_state", Some version, VObject [("details", default VNull details); ("field", VString field)])
  | ResyncRequired reason => ("resync_required", None, VObject [("reason", VString reason)])
  end.

Definition now_rfc3339 (secs : Z) : string := default "" (rfc3339 (secs * nanos_per_sec)).

Definition event_to_envelope (stream_id : string) (secs : Z) (ev : TopologyEvent) : Value :=
  let '(event_type, seq, payload) := event_parts ev in
  let raw_len := Z.of_nat (length (to_vec payload)) in
  let cgn_est := Z.max (raw_len / 4) 1 in
  let env := map_insert "stream_id" (VString stream_id) [] in
  let env := map_insert "event_type" (VString event_type) env in
  let env := map_insert "timestamp" (VString (now_rfc3339 secs)) env in
  let env := map_insert "payload" payload env in
  let env := map_insert "cgn_est" (vnat cgn_est) env in
  VObject (insert_opt "seq" (vnat <$> seq) env).

Definition is_resync (ev : TopologyEvent) : bool := match ev with ResyncRequired _ => true | _ => false end.

(** One line; then the rest, unless the subscriber must resynchronise. *)
Fixpoint event_lines (stream_id : string) (at_event : nat -> Z) (evs : list TopologyEvent) : string :=
  match evs with
  | [] => ""
  | ev :: rest =>
    json_to_string (event_to_envelope stream_id (at_event O) ev) +:+ newline +:+
    (if is_resync ev then "" else event_lines stream_id (fun n => at_event (S n)) rest)
  end.

Definition ack_line (stream_id : string) (resumed : bool) : Value :=
  VObject [("kind", VString "ack"); ("last_seq", vnat 0); ("resumed", VBool resumed);
           ("status", VString "subscribed"); ("stream_id", VString stream_id)].

Definition anchor_handle_subscribe (app : AnchorNodeApp) (tm : AnchorReadings) (req : NodeRequest) (s : AnchorNodeState)
    : NodeResponse * AnchorNodeState :=
  match check_topology_capability app req with
  | Some resp => (resp, s)
  | None =>
    match parse_json (of_bytes (nr_body req)) with
    | Err e => (anchor_bad_request QUERY_FILTER_INVALID e, s)
    | Ok body =>
      if negb (bool_decide (vget "type" body ≫= as_str = Some "topology.stream"))
      then (reserved_type_resp body "Anchor /subscribe requires a reserved type per NPS-2 §12." "subscribe", s)
      else
        match na_topology app with
        | None => (no_topology_resp "topology.stream", s)
        | Some topology =>
          match parse_stream_request body with
          | Err e => (topology_error_resp e, s)
          | Ok (request, sent) =>
            let '(stream_id, s) := match sent with
                                   | Some id => (id, s)
                                   | None => fresh_hex 16 (an_stream tm) s
                                   end in
            let out := json_to_string (ack_line stream_id (is_set (tr_since_version request))) +:+ newline +:+
                       event_lines stream_id (an_event tm) (subscribe topology request) in
            (mkNodeResponse 200 anchor_headers (bytes_of out), s)
          end
        end
    end
  end.

(** *** The reputation gate *)

Definition matched_details (d : ReputationDecision) : Value :=
  VObject [("matched_incident", opt_value (ru_incident <$> de_matched_rule d));
           ("matched_severity", opt_value (ru_severity <$> de_matched_rule d))].

(** A message and its details with the matched rule, or without one. *)
Definition matched_message (d : ReputationDecision) (verb tail without : string) : string * option Value :=
  match de_matched_rule d with
  | Some r => ("Request " +:+ verb +:+ ": " +:+ ru_incident r +:+ " (" +:+ ru_severity r +:+ ")" +:+ tail,
               Some (matched_details d))
  | None => (without, None)
  end.

Definition apply_reputation (app : AnchorNodeApp) (d : ReputationDecision) (policy : ReputationPolicy)
    (assurance : AssuranceLevel) : option NodeResponse :=
  match de_outcome d with
  | RepAccept => None
  | RepBan =>
    let '(msg, details) := matched_message d "rejected" " — NID temporarily banned."
                             "Request rejected: NID temporarily banned." in
    Some (anchor_error_resp 403 "NPS-AUTH-FORBIDDEN" REPUTATION_BANNED msg details [])
  | RepReject =>
    if bool_decide (de_error_code d = Some AUTH_ASSURANCE_TOO_LOW)
    then Some (anchor_error_resp 403 "NPS-AUTH-FORBIDDEN" AUTH_ASSURANCE_TOO_LOW
           ("Assurance level too low: requires '" +:+ po_min_assurance_level policy +:+
            "', caller declared '" +:+ wire assurance +:+ "'.")
           (Some (VObject [("hint", opt_value (no_assurance_hint_url (na_opt app))); ("matched_incident", VNull)])) [])
    else
      let '(msg, details) := matched_message d "rejected" "." "Request rejected by reputation policy." in
      Some (anchor_error_resp 403 "NPS-AUTH-FORBIDDEN" REPUTATION_REJECTED msg details [])
  | RepThrottle =>
    let '(msg, details) := matched_message d "rate-limited" "." "Request rate-limited by reputation policy." in
    Some (anchor_error_resp 429 "NPS-CLIENT-RATE-LIMITED" REPUTATION_THROTTLED msg details [("retry-after", "60")])
  end.

(** The gate of an invocation: with a policy and an evaluator. *)
Definition reputation_gate (app : AnchorNodeApp) (now : Z) (agent_nid : option string) (assurance : AssuranceLevel)
    (s : AnchorNodeState) : option NodeResponse * AnchorNodeState :=
  match no_reputation_policy (na_opt app), sn_evaluator s with
  | Some policy, Some ev =>
    if po_enabled policy
    then let '(d, ev) := rep_evaluate (default "anonymous" agent_nid) assurance policy now ev in
         (apply_reputation app d policy assurance, set_evaluator ev s)
    else (None, s)
  | _, _ => (None, s)
  end.

(** *** Invocations *)

Definition handler_result_resp (spec : AnchorActionSpec) (r : result AnchorActionError Value) : NodeResponse :=
  match r with
  | Ok v =>
    let '(count, data) := if is_null v then (0, []) else (1, [v]) in
    let caps := VObject [("anchor_ref", VString (default "" (ns_result_anchor spec))); ("count", vnat count);
                         ("data", VArray data)] in
    let tokens := match ns_estimated_cgn spec with
                  | Some c => if 0 <? c then [("x-nwp-tokens", fmt_Z c)] else []
                  | None => []
                  end in
    mkNodeResponse 200 (anchor_headers ++ opt_header "x-nwp-schema" (ns_result_anchor spec) ++ tokens) (to_vec caps)
  | Err e => anchor_error_resp (ne_http_status e) (ne_nps_status e) (ne_error_code e) (ne_message e) (ne_details e) []
  end.

(** The trace and span identifiers of the context. *)
Definition trace_context (app : AnchorNodeApp) (tm : AnchorReadings) (s : AnchorNodeState)
    : option string * option string * AnchorNodeState :=
  if no_auto_inject_trace_context (na_opt app)
  then let '(trace_id, s) := fresh_hex 16 (an_trace tm) s in
       let '(span_id, s) := fresh_hex 8 (an_span tm) s in
       (Some trace_id, Some span_id, s)
  else (None, None, s).

(** After the limiter has admitted the call: the handler runs, the permit is
    released.  An asynchronous call runs the handler too, and drops its result. *)
Definition run_handler (app : AnchorNodeApp) (tm : AnchorReadings) (handler : InvokeHandler W) (body : Value)
    (action_id : string) (spec : AnchorActionSpec) (is_async : bool) (consumer_key : string)
    (agent_nid : option string) (effective_timeout budget_cgn : Z) (s : AnchorNodeState)
    : NodeResponse * AnchorNodeState :=
  let '(trace_id, span_id, s) := trace_context app tm s in
  let ctx := mkInvokeContext agent_nid effective_timeout budget_cgn trace_id span_id in
  let params := vget "params" body in
  if is_async
  then
    let '(task_id, s) := fresh_hex 16 (an_task tm) s in
    let s := set_world (snd (handler action_id params ctx (sn_world s))) s in
    let s := set_limiter (limiter_release (na_limiter app) consumer_key (sn_limiter s)) s in
    (mkNodeResponse 202 [("content-type", "application/json"); ("x-nwp-node-type", "anchor")]
       (to_vec (VObject [("poll_url", VString (na_prefix app +:+ "/invoke")); ("status", VString "pending");
                         ("task_id", VString task_id)])), s)
  else
    let '(r, w) := handler action_id params ctx (sn_world s) in
    let s := set_world w s in
    (handler_result_resp spec r,
     set_limiter (limiter_release (na_limiter app) consumer_key (sn_limiter s)) s).

(** The checks on the frame, before any state is touched. *)
Definition check_action (app : AnchorNodeApp) (body : Value) : result NodeResponse (string * AnchorActionSpec * bool) :=
  match a ← vget "action_id" body ≫= as_str; if is_empty a then None else Some a with
  | None => Err (anchor_bad_request ACTION_PARAMS_INVALID "invalid ActionFrame: missing action_id.")
  | Some action_id =>
    match map_get action_id (no_actions (na_opt app)) with
    | None => Err (anchor_error_resp 404 "NPS-CLIENT-NOT-FOUND" ACTION_NOT_FOUND
                     ("Unknown action_id '" +:+ action_id +:+ "'.") None [])
    | Some spec =>
      let is_async := default false (vget "async" body ≫= as_bool) in
      if is_async && negb (ns_async spec)
      then Err (anchor_bad_request ACTION_PARAMS_INVALID
                  ("action '" +:+ action_id +:+ "' does not support async execution."))
      else Ok (action_id, spec, is_async)
    end
  end.

Definition over_budget_resp (cgn_cost_hint budget_cgn : Z) : NodeResponse :=
  anchor_error_resp 400 "NPS-CLIENT-REQUEST-TOO-LARGE" CGN_LIMIT_EXCEEDED
    ("estimated CGN " +:+ fmt_Z cgn_cost_hint +:+ " exceeds effective budget " +:+ fmt_Z budget_cgn +:+ ".")
    (Some (VObject [("effective_budget", vnat budget_cgn); ("estimated_cgn", vnat cgn_cost_hint)])) [].

Definition rate_limited_resp (rate : RateDecision) : NodeResponse :=
  anchor_error_resp 429 "NPS-CLIENT-RATE-LIMITED" RATE_LIMIT_EXCEEDED
    (default "rate limit exceeded." (rt_reason rate)) None
    (opt_header "retry-after" (fmt_Z <$> rt_retry_after_seconds rate)).

Definition anchor_handle_invoke (app : AnchorNodeApp) (tm : AnchorReadings) (req : NodeRequest) (s : AnchorNodeState)
    : NodeResponse * AnchorNodeState :=
  match parse_json (of_bytes (nr_body req)) with
  | Err e => (anchor_bad_request ACTION_PARAMS_INVALID e, s)
  | Ok body =>
    match check_action app body with
    | Err resp => (resp, s)
    | Ok (action_id, spec, is_async) =>
      let agent_nid := rq_header req "X-NWP-Agent" in
      let timeout_ms := wrap_u32 (default 0 (vget "timeout_ms" body ≫= as_u64)) in
      let effective_timeout := anchor_clamp_timeout timeout_ms spec (na_opt app) in
      let budget_cgn := read_effective_budget req (na_opt app) in
      let cgn_cost_hint := default 0 (ns_estimated_cgn spec) in
      match reputation_gate app (an_unix tm) agent_nid (extract_ident_assurance req) s with
      | (Some resp, s) => (resp, s)
      | (None, s) =>
        if (0 <? budget_cgn) && (0 <? cgn_cost_hint) && (budget_cgn <? cgn_cost_hint)
        then (over_budget_resp cgn_cost_hint budget_cgn, s)
        else
          match na_handler app with
          | None => (anchor_error_resp 501 "NPS-SERVER-UNSUPPORTED" NODE_UNAVAILABLE
                       "no invoke handler registered on this Anchor Node." None [], s)
          | Some handler =>
            let consumer_key := default "anonymous" agent_nid in
            let '(rate, l) := try_acquire (na_limiter app) consumer_key cgn_cost_hint (sn_limiter s) in
            let s := set_limiter l s in
            if negb (rt_allowed rate) then (rate_limited_resp rate, s)
            else run_handler app tm handler body action_id spec is_async consumer_key agent_nid
                   effective_timeout budget_cgn s
          end
      end
    end
  end.

Definition anchor_not_found (message : string) : NodeResponse :=
  anchor_error_resp 404 "NPS-CLIENT-NOT-FOUND" ACTION_NOT_FOUND message None [].

Definition known_route (sub : string) : bool :=
  existsb (String.eqb sub) ["/.nwm"; "/.nwm/"; "/.schema"; "/.schema/"; "/actions"; "/actions/";
                            "/invoke"; "/invoke/"; "/query"; "/query/"; "/subscribe"; "/subscribe/"].

(** The method check of a route that takes POST. *)
Definition post_only (req : NodeRequest) (s : AnchorNodeState) (k : NodeResponse * AnchorNodeState)
    : NodeResponse * AnchorNodeState :=
  if negb (String.eqb (nr_method req) "POST") then (empty_response 405, s) else k.

Definition anchor_handle (app : AnchorNodeApp) (tm : AnchorReadings) (req : NodeRequest) (s : AnchorNodeState)
    : NodeResponse * AnchorNodeState :=
  match strip_prefix (na_prefix app) (nr_path req) with
  | None => (anchor_not_found "no NWP node at this path.", s)
  | Some sub =>
    if negb (known_route sub) then (anchor_not_found "unknown anchor sub-path.", s)
    else if no_require_auth (na_opt app) && negb (is_set (rq_header req "X-NWP-Agent"))
    then (anchor_error_resp 401 "NPS-AUTH-UNAUTHENTICATED" AUTH_NID_SCOPE_VIOLATION
            "X-NWP-Agent header is required." None [], s)
    else if one_of sub "/.nwm" "/.nwm/"
    then (mkNodeResponse 200 [("content-type", MIME_MANIFEST); ("x-nwp-node-type", "anchor")] (na_nwm_json app), s)
    else if one_of sub "/.schema" "/.schema/" || one_of sub "/actions" "/actions/"
    then (mkNodeResponse 200 [("content-type", "application/json")] (na_actions_json app), s)
    else if one_of sub "/invoke" "/invoke/" then post_only req s (anchor_handle_invoke app tm req s)
    else if one_of sub "/query" "/query/" then post_only req s (anchor_handle_query app req, s)
    else if one_of sub "/subscribe" "/subscribe/" then post_only req s (anchor_handle_subscribe app tm req s)
    else (anchor_not_found "unknown anchor sub-path.", s)
  end.
End anchor.
