(* ===== verification/NwpAnchorSpec.v ===== *)
(** * NwpAnchorSpec: admission of calls by an Anchor Node

    When the handler of an Anchor runs and what it is given, what becomes of
    the rate limiter, and how long a banned caller stays locked out. *)

From S2P Require Import Prelude RustStr Floats Json CoreFrames CoreCache NipFrames NipDer NipVerifier NipReputation NwpTopology NwpContext NwpMemory NwpAction NwpReputation NwpAnchor.
Local Open Scope Z_scope.

Section anchor.
Context {D : Digests} {P : JsonParser} {T : TopologySerde} {C : ContextTime} {B : DebugText}.
Context `{Timestamps} `{ReputationLogs}.
Context {W L : Type}.
Implicit Types (app : @AnchorNodeApp W L) (s : @AnchorNodeState W L).

(** ** Limits of an invocation *)

Lemma timeout_bounds requested spec opt :
  0 < requested -> anchor_clamp_timeout requested spec opt <= Z.min requested (no_max_timeout_ms opt) /\
  (forall m, ns_timeout_ms_max spec = Some m -> anchor_clamp_timeout requested spec opt <= m).
Proof.
  intros Hr. unfold anchor_clamp_timeout. rewrite (proj2 (Z.eqb_neq _ _)) by lia. split; [lia |].
  intros m ->. cbn. lia.
Qed.

(** A budget is 0, which means none, or within the limit of the node. *)
Lemma budget_bounds req opt : 0 < no_cgn_limit opt -> 0 <= no_default_token_budget opt ->
  0 < read_effective_budget req opt <= no_cgn_limit opt.
Proof.
  intros Hl Hd. unfold read_effective_budget.
  assert (Ha : 0 <= default (no_default_token_budget opt) (rq_header req "X-NWP-Budget" ≫= parse_u32)).
  { destruct (rq_header req "X-NWP-Budget") as [h|]; cbn; [|done].
    unfold parse_u32. destruct (parse_u64 h) as [v|] eqn:Ev; cbn; [|done].
    apply parse_u64_range in Ev. destruct (v <=? 4294967295); cbn; [apply Ev | done]. }
  set (a := default _ _) in *.
  rewrite (proj2 (Z.eqb_neq _ _)) by lia. destruct (Z.eqb_spec a 0); lia.
Qed.

(** ** What one request does *)

(** The conditions under which the handler runs, after the route. *)
Definition admitted app (tm : AnchorReadings) (req : NodeRequest) s (body : Value) (action_id : string)
    (spec : AnchorActionSpec) (is_async : bool) : Prop :=
  parse_json (of_bytes (nr_body req)) = Ok body /\
  map_get action_id (no_actions (na_opt app)) = Some spec /\ action_id <> "" /\
  (is_async = true -> ns_async spec = true) /\
  fst (reputation_gate app (an_unix tm) (rq_header req "X-NWP-Agent") (extract_ident_assurance req) s) = None /\
  (let budget := read_effective_budget req (na_opt app) in
   let cost := default 0 (ns_estimated_cgn spec) in 0 < budget -> cost <= budget \/ cost <= 0) /\
  rt_allowed (fst (try_acquire (na_limiter app) (default "anonymous" (rq_header req "X-NWP-Agent"))
                     (default 0 (ns_estimated_cgn spec)) (sn_limiter s))) = true.

(** The effect of a call that was admitted. *)
Definition handled app (tm : AnchorReadings) (req : NodeRequest) s s' : Prop :=
  exists handler body action_id spec is_async ctx,
    na_handler app = Some handler /\ nr_method req = "POST" /\
    admitted app tm req s body action_id spec is_async /\
    ic_agent_nid ctx = rq_header req "X-NWP-Agent" /\
    ic_budget_cgn ctx = read_effective_budget req (na_opt app) /\
    ic_effective_timeout_ms ctx =
      anchor_clamp_timeout (wrap_u32 (default 0 (vget "timeout_ms" body ≫= as_u64))) spec (na_opt app) /\
    sn_world s' = snd (handler action_id (vget "params" body) ctx (sn_world s)) /\
    let key := default "anonymous" (rq_header req "X-NWP-Agent") in
    sn_limiter s' = limiter_release (na_limiter app) key
      (snd (try_acquire (na_limiter app) key (default 0 (ns_estimated_cgn spec)) (sn_limiter s))).

(** Or the handler did not run; the limiter was not asked, or refused. *)
Definition not_handled app (req : NodeRequest) s s' : Prop :=
  sn_world s' = sn_world s /\
  (sn_limiter s' = sn_limiter s \/
   exists cost, let r := try_acquire (na_limiter app) (default "anonymous" (rq_header req "X-NWP-Agent")) cost (sn_limiter s) in
     rt_allowed (fst r) = false /\ sn_limiter s' = snd r).

Lemma gate_state app now agent level s :
  let s' := snd (reputation_gate app now agent level s) in
  sn_world s' = sn_world s /\ sn_limiter s' = sn_limiter s /\ sn_counter s' = sn_counter s.
Proof.
  unfold reputation_gate. destruct (no_reputation_policy (na_opt app)) as [policy|]; [|done].
  destruct (sn_evaluator s) as [ev|]; [|done]. destruct (po_enabled policy); [|done].
  by destruct (rep_evaluate _ _ _ _ _).
Qed.

Lemma trace_context_state app tm s :
  let s' := snd (trace_context app tm s) in sn_world s' = sn_world s /\ sn_limiter s' = sn_limiter s /\
    sn_evaluator s' = sn_evaluator s.
Proof. unfold trace_context. by destruct (no_auto_inject_trace_context (na_opt app)). Qed.

Lemma run_handler_effect app tm handler body action_id spec is_async key agent timeout budget s :
  let s' := snd (run_handler app tm handler body action_id spec is_async key agent timeout budget s) in
  (exists ctx, ic_agent_nid ctx = agent /\ ic_budget_cgn ctx = budget /\ ic_effective_timeout_ms ctx = timeout /\
     sn_world s' = snd (handler action_id (vget "params" body) ctx (sn_world s))) /\
  sn_limiter s' = limiter_release (na_limiter app) key (sn_limiter s) /\ sn_evaluator s' = sn_evaluator s.
Proof.
  unfold run_handler. pose proof (trace_context_state app tm s) as (Hw & Hl & He).
  destruct (trace_context app tm s) as [[t sp] s1]. cbn [snd] in Hw, Hl, He. rewrite <- Hw, <- Hl, <- He.
  destruct is_async; cbn [fresh_hex].
  - split; [|by split]. by exists (mkInvokeContext agent timeout budget t sp).
  - destruct (handler _ _ _ _) as [r w] eqn:Eh. split; [|by split].
    exists (mkInvokeContext agent timeout budget t sp). cbn. by rewrite Eh.
Qed.

Lemma check_action_Ok app body action_id spec is_async :
  check_action app body = Ok (action_id, spec, is_async) ->
  map_get action_id (no_actions (na_opt app)) = Some spec /\ action_id <> "" /\ (is_async = true -> ns_async spec = true).
Proof.
  unfold check_action. destruct (vget "action_id" body ≫= as_str) as [a|]; cbn; [|done].
  destruct a as [|c a]; cbn; [done |]. destruct (map_get _ _) as [sp|] eqn:Em; [|done].
  destruct (default false _ && negb (ns_async sp)) eqn:Ea; [done |]. intros E. injection E as <- <- <-.
  split; [done |]. split; [done |]. intros Hd. rewrite Hd in Ea. by destruct (ns_async sp).
Qed.

Lemma anchor_invoke_cases app tm req s : nr_method req = "POST" ->
  let s' := snd (anchor_handle_invoke app tm req s) in
  (handled app tm req s s' \/ not_handled app req s s') /\
  (sn_evaluator s' = sn_evaluator s \/
   sn_evaluator s' = sn_evaluator
     (snd (reputation_gate app (an_unix tm) (rq_header req "X-NWP-Agent") (extract_ident_assurance req) s))).
Proof.
  intros Hp. unfold anchor_handle_invoke.
  assert (Hsame : not_handled app req s s) by (split; [done | by left]).
  destruct (parse_json (of_bytes (nr_body req))) as [body|] eqn:Eb; [|by split; [right | left]].
  destruct (check_action app body) as [[[action_id spec] is_async]|] eqn:Ec; [|by split; [right | left]].
  pose proof (gate_state app (an_unix tm) (rq_header req "X-NWP-Agent") (extract_ident_assurance req) s) as Hg.
  destruct (reputation_gate app (an_unix tm) (rq_header req "X-NWP-Agent") (extract_ident_assurance req) s)
    as [[resp|] s1] eqn:Eg; cbn [snd] in Hg; destruct Hg as (Hw & Hl & _).
  { split; [|by right]. right. split; [done |]. by left. }
  destruct ((0 <? _) && _ && _) eqn:Eover.
  { split; [|by right]. right. split; [done |]. by left. }
  destruct (na_handler app) as [handler|] eqn:Eh.
  2: { split; [|by right]. right. split; [done |]. by left. }
  destruct (try_acquire _ _ _ _) as [rate l] eqn:Ea. destruct (rt_allowed rate) eqn:Er; cbn [negb].
  2: { split; [|by right]. right. split; [done |]. right. eexists. rewrite <- Hl, Ea. by split. }
  match goal with |- context [run_handler app tm handler body action_id spec is_async ?k ?a ?t ?b ?st] =>
    pose proof (run_handler_effect app tm handler body action_id spec is_async k a t b st) as (Hc & Hr & He) end.
  split; [left | right; by rewrite He].
  destruct Hc as (ctx & H1 & H2 & H3 & H4). exists handler, body, action_id, spec, is_async, ctx.
  apply check_action_Ok in Ec as (Hs & Hne & Has). cbn [set_limiter sn_world] in H4. rewrite Hw in H4.
  repeat (split; [done |]). split; [|].
  { unfold admitted. rewrite Eg, <- Hl, Ea. repeat (split; [done |]). split; [|done].
    intros Hb. rewrite (proj2 (Z.ltb_lt _ _) Hb) in Eover. cbn in Eover.
    apply andb_false_iff in Eover as [E|E]; apply Z.ltb_ge in E; lia. }
  repeat (split; [done |]). rewrite Hr. cbn [set_limiter sn_limiter]. by rewrite <- Hl, Ea.
Qed.

(** Only the invoke route touches the host, the limiter or the evaluator. *)
Definition calm s s' : Prop :=
  sn_world s' = sn_world s /\ sn_limiter s' = sn_limiter s /\ sn_evaluator s' = sn_evaluator s.

Lemma subscribe_calm app tm req s : calm s (snd (anchor_handle_subscribe app tm req s)).
Proof.
  unfold anchor_handle_subscribe. destruct (check_topology_capability app req); [done |].
  destruct (parse_json (of_bytes (nr_body req))) as [body|]; [|done].
  destruct (bool_decide _); cbn [negb]; [|done]. destruct (na_topology app); [|done].
  by destruct (parse_stream_request body) as [[request [id|]]|].
Qed.

Lemma handle_cases app tm req s :
  calm s (snd (anchor_handle app tm req s)) \/
  anchor_handle app tm req s = anchor_handle_invoke app tm req s /\ nr_method req = "POST" /\
  (nr_path req = na_prefix app +:+ "/invoke" \/ nr_path req = na_prefix app +:+ "/invoke/") /\
  (no_require_auth (na_opt app) = true -> is_Some (rq_header req "X-NWP-Agent")).
Proof.
  unfold anchor_handle. destruct (strip_prefix (na_prefix app) (nr_path req)) as [sub|] eqn:Ep; [|by left].
  apply strip_prefix_spec in Ep. destruct (known_route sub); cbn [negb]; [|by left].
  destruct (no_require_auth (na_opt app) && negb (is_set (rq_header req "X-NWP-Agent"))) eqn:Eauth; [by left |].
  destruct (one_of sub "/.nwm" "/.nwm/"); [by left |].
  destruct (one_of sub "/.schema" "/.schema/" || one_of sub "/actions" "/actions/"); [by left |].
  unfold post_only.
  destruct (one_of sub "/invoke" "/invoke/") eqn:Ei; destruct (String.eqb_spec (nr_method req) "POST") as [Hp|];
    cbn [negb].
  - right. split; [done |]. split; [done |]. split.
    + apply orb_true_iff in Ei as [E|E]; apply String.eqb_eq in E; subst sub; auto.
    + intros Hr. rewrite Hr in Eauth. by destruct (rq_header req "X-NWP-Agent").
  - by left.
  - left. destruct (one_of sub "/query" "/query/"); [done |].
    destruct (one_of sub "/subscribe" "/subscribe/"); [apply subscribe_calm | done].
  - left. destruct (one_of sub "/query" "/query/"); [done |]. by destruct (one_of sub "/subscribe" "/subscribe/").
Qed.


(** ** Banned callers *)

Definition agent_of (req : NodeRequest) : string := default "anonymous" (rq_header req "X-NWP-Agent").

(** What the gate asks of the evaluator. *)
Definition gate_call (policy : ReputationPolicy) (now : Z) (req : NodeRequest) : Call :=
  mkCall (agent_of req) (extract_ident_assurance req) policy now.

Lemma handle_evaluator app tm req s :
  sn_evaluator (snd (anchor_handle app tm req s)) = sn_evaluator s \/
  sn_evaluator (snd (anchor_handle app tm req s)) = sn_evaluator
    (snd (reputation_gate app (an_unix tm) (rq_header req "X-NWP-Agent") (extract_ident_assurance req) s)).
Proof.
  destruct (handle_cases app tm req s) as [(_ & _ & ->)|(-> & Hp & _)]; [by left |].
  apply (anchor_invoke_cases app tm req s Hp).
Qed.

Lemma gate_evaluator app policy now req s ev :
  no_reputation_policy (na_opt app) = Some policy -> po_enabled policy = true -> sn_evaluator s = Some ev ->
  let g := reputation_gate app now (rq_header req "X-NWP-Agent") (extract_ident_assurance req) s in
  fst g = apply_reputation app (fst (evaluate_call (gate_call policy now req) ev)) policy (extract_ident_assurance req) /\
  sn_evaluator (snd g) = Some (snd (evaluate_call (gate_call policy now req) ev)).
Proof.
  intros Hp He Hs. unfold reputation_gate. rewrite Hp, Hs, He.
  unfold evaluate_call. cbn. by destruct (rep_evaluate _ _ _ _ _).
Qed.

Section banned.
Context (app : @AnchorNodeApp W L) (policy : ReputationPolicy) (nid : string) (exp : Z).
Context (Hpolicy : no_reputation_policy (na_opt app) = Some policy) (Henabled : po_enabled policy = true).

Definition ban_running s : Prop := exists ev, sn_evaluator s = Some ev /\ ban_cache ev !! nid = Some exp.

Lemma ban_running_step tm req s : ban_running s -> an_unix tm < exp -> ban_running (snd (anchor_handle app tm req s)).
Proof.
  intros (ev & Hs & Hb) Hn.
  destruct (handle_evaluator app tm req s) as [E|E]; [exists ev; by rewrite E |].
  destruct (gate_evaluator app policy (an_unix tm) req s ev Hpolicy Henabled Hs) as [_ Eg].
  rewrite Eg in E. exists (snd (evaluate_call (gate_call policy (an_unix tm) req) ev)). split; [done |].
  apply (running_ban_stays nid exp [gate_call policy (an_unix tm) req] ev Hb). by constructor.
Qed.

(** A banned agent_of: the gate answers, with the ban or the assurance error. *)
Lemma banned_gate now req s : ban_running s -> now < exp -> agent_of req = nid ->
  is_Some (fst (reputation_gate app now (rq_header req "X-NWP-Agent") (extract_ident_assurance req) s)).
Proof.
  intros (ev & Hs & Hb) Hn Hc.
  destruct (gate_evaluator app policy now req s ev Hpolicy Henabled Hs) as [-> _].
  rewrite <- Hc in Hb.
  destruct (banned_call (gate_call policy now req) ev exp Hb Hn Henabled) as [-> | ->]; cbn; by eexists.
Qed.

Fixpoint serve (reqs : list (AnchorReadings * NodeRequest)) s : AnchorNodeState :=
  match reqs with
  | [] => s
  | (tm, req) :: rest => serve rest (snd (anchor_handle app tm req s))
  end.

Lemma ban_running_serve reqs : forall s, ban_running s ->
  Forall (fun r => an_unix (fst r) < exp) reqs -> ban_running (serve reqs s).
Proof.
  induction reqs as [|[tm req] reqs IH]; intros s Hb Hf; [done |].
  apply Forall_cons in Hf as [Hn Hf]. apply IH; [|done]. by apply ban_running_step.
Qed.
End banned.

(** Once the evaluator of a node has banned a caller, no request of theirs
    reaches the handler or the rate limiter before the ban ends, whatever
    requests of whomever come in between. *)
Theorem banned_caller_locked_out app policy nid exp reqs s tm req :
  no_reputation_policy (na_opt app) = Some policy -> po_enabled policy = true ->
  ban_running nid exp s -> Forall (fun r => an_unix (fst r) < exp) reqs -> an_unix tm < exp -> agent_of req = nid ->
  let s1 := serve app reqs s in let s2 := snd (anchor_handle app tm req s1) in
  sn_world s2 = sn_world s1 /\ sn_limiter s2 = sn_limiter s1.
Proof.
  intros Hp He Hb Hf Hn Hc s1 s2.
  assert (Hb1 : ban_running nid exp s1) by (apply (ban_running_serve app policy); done).
  pose proof (banned_gate app policy nid exp Hp He (an_unix tm) req s1 Hb1 Hn Hc) as [resp Hg].
  unfold s2. destruct (handle_cases app tm req s1) as [(Hw & Hl & _)|(-> & _)]; [done |].
  unfold anchor_handle_invoke. destruct (parse_json (of_bytes (nr_body req))) as [body|]; [|done].
  destruct (check_action app body) as [[[action_id spec] is_async]|]; [|done].
  pose proof (gate_state app (an_unix tm) (rq_header req "X-NWP-Agent") (extract_ident_assurance req) s1) as Hs.
  destruct (reputation_gate _ _ _ _ _) as [o s3]. cbn [fst snd] in Hg, Hs. rewrite Hg. cbn. by destruct Hs as (? & ? & _).
Qed.
End anchor.

(** ** Identifiers *)

Lemma hex_pad_length digit n : forall z, String.length (hex_pad digit n z) = n.
Proof.
  induction n as [|n IH]; intros z; [done |]. cbn [hex_pad].
  rewrite length_append, IH. cbn. lia.
Qed.

(** 16 bytes keep the counter; the 8 bytes of a span keep the clock only, so
    two spans of one instant have one identifier. *)
Lemma span_ids_repeat t c c' : anchor_gen_hex 8 t c = anchor_gen_hex 8 t c'.
Proof.
  assert (E : forall c, anchor_gen_hex 8 t c = hex_pad hex_digit_lower 16 t).
  { intros c0. unfold anchor_gen_hex, gen_hex.
    generalize (hex_pad hex_digit_lower 16 c0). intros r.
    change (8 * 2)%nat with 16%nat. rewrite <- (substring_app (hex_pad hex_digit_lower 16 t) r) at 2.
    by rewrite hex_pad_length. }
  by rewrite !E.
Qed.

(** ** Witnesses, and where the node does less than it says *)

Definition toy_json : JsonParser := {| parse_json _ := Ok (VObject [("action_id", VString "a")]) |}.
Definition toy_serde : TopologySerde := {|
  snapshot_to_value _ := VNull; member_to_value _ := VNull; member_from_value _ := Err "";
  changes_to_value _ := VNull; changes_from_value _ := Err ""; filter_from_value _ := None; policy_to_value _ := VNull |}.
Definition toy_rfc : ContextTime := {| instant_add t d := Some (t + d); rfc3339 _ := Some "t" |}.

(** An action that asks for a capability, on a node that counts its calls. *)
Definition guarded_spec : AnchorActionSpec := mkAnchorSpec None None None None None None (Some "admin") false.
Definition toy_anchor_options (policy : option ReputationPolicy) : AnchorNodeOptions :=
  mkAnchorOptions "n" "/x" [("a", guarded_spec)] None true None false 30000 300000 0 0 None policy None None true.
Definition counting_handler : InvokeHandler nat := fun _ _ _ n => (Ok VNull, S n).
Definition toy_anchor (policy : option ReputationPolicy) : @AnchorNodeApp nat unit :=
  @anchor_app_new pad_digests toy_serde nat unit (toy_anchor_options policy) (Some counting_handler) None AllowAllRateLimiter.
Definition toy_at (now : Z) : AnchorReadings := mkAnchorReadings now 1 1 1 1 (fun _ => 0).
Definition toy_invoke : NodeRequest := mkNodeRequest "POST" "/x/invoke" {["x-nwp-agent" := "nid"]} [].
Definition serve_toy policy tm req s :=
  @anchor_handle pad_digests toy_json toy_serde toy_rfc quoted toy_clock toy_logs nat unit (toy_anchor policy) tm req s.

(** A caller that declares no capability runs the action. *)
Lemma required_capability_unchecked :
  sn_world (snd (serve_toy None (toy_at 0) toy_invoke (mkAnchorState None tt 0%nat 1))) = 1%nat.
Proof. vm_compute. reflexivity. Qed.

(** A depth is cut to 8 bits after it was found positive. *)
Lemma depth_wraps : parse_depth [("depth", vnat 256)] = 0.
Proof. reflexivity. Qed.


Lemma banned_caller_locked_out_witness :
  let s := mkAnchorState (Some (record_ban "nid" 3600 evaluator_new)) tt 0%nat 1 in
  let s1 := @serve pad_digests toy_json toy_serde toy_rfc quoted toy_clock toy_logs nat unit (toy_anchor (Some toy_policy))
              [(toy_at 10, toy_invoke)] s in
  sn_world (snd (serve_toy (Some toy_policy) (toy_at 3599) toy_invoke s1)) = sn_world s1.
Proof.
  refine (proj1 (@banned_caller_locked_out pad_digests toy_json toy_serde toy_rfc quoted toy_clock toy_logs nat unit
    (toy_anchor (Some toy_policy)) toy_policy "nid" 3600 [(toy_at 10, toy_invoke)] _ (toy_at 3599) toy_invoke _ _ _ _ _ _)).
  - reflexivity.
  - reflexivity.
  - exists (record_ban "nid" 3600 evaluator_new). split; [reflexivity | vm_compute; reflexivity].
  - repeat constructor; cbn; lia.
  - cbn; lia.
  - vm_compute. reflexivity.
Defined.
