(* ===== verification/NwpAnchorClient.v ===== *)
(** * NwpAnchorClient: the client of an Anchor Node

    Models nps-nwp/src/anchor_client.rs: the requests for snapshots and
    streams, the incremental parser of the event stream, and the error bodies;
    and proves the client against the server of NwpAnchor.  A stream is the
    list of the chunks the HTTP library hands over. *)

From S2P Require Import Prelude RustStr Floats Json CoreFrames CoreCache NipFrames NipDer NipVerifier NipSigner NipReputation NwpTopology NwpContext NwpMemory NwpAction NwpReputation NwpAnchor.
Local Open Scope Z_scope.

(** ** Errors *)

Inductive AnchorTopologyError : Type :=
| ProtocolError (nwp_error_code nps_status message : string)
| HttpError (status : Z) (body : string)
| ReqwestError (e : string)
| JsonError (e : string)
| StreamEnded.

(** ** Requests *)

Definition SCOPE_CLUSTER : string := "cluster".
Definition SCOPE_MEMBER : string := "member".
Definition TYPE_SNAPSHOT : string := "topology.snapshot".
Definition TYPE_STREAM : string := "topology.stream".

(** The derived serializer of the filter skips what is absent. *)
Definition filter_to_value (f : TopologyFilter) : Value :=
  let m := insert_opt "tags_any" (vstrings <$> tf_tags_any f) [] in
  let m := insert_opt "tags_all" (vstrings <$> tf_tags_all f) m in
  VObject (insert_opt "node_roles" (vstrings <$> tf_node_roles f) m).

(** The body of [get_snapshot_with]. *)
Definition snapshot_body (scope : string) (include : list string) (depth : Z) (target_nid : option string) : Value :=
  let topology := map_insert "scope" (VString scope) [] in
  let topology := match include with [] => topology | _ => map_insert "include" (vstrings include) topology end in
  let topology := if negb (depth =? 1) then map_insert "depth" (vnat depth) topology else topology in
  let topology := insert_opt "target_nid" (VString <$> target_nid) topology in
  VObject [("topology", VObject topology); ("type", VString TYPE_SNAPSHOT)].

(** The body of [subscribe_with]. *)
Definition subscribe_body (stream_id scope : string) (filter : option TopologyFilter) (since_version : option Z) : Value :=
  let topology := map_insert "scope" (VString scope) [] in
  let topology := insert_opt "filter" (filter_to_value <$> filter) topology in
  let topology := insert_opt "since_version" (vnat <$> since_version) topology in
  VObject [("action", VString "subscribe"); ("stream_id", VString stream_id); ("topology", VObject topology);
           ("type", VString TYPE_STREAM)].

(** [trim_end_matches('\r')]. *)
Fixpoint trim_cr (s : string) : string :=
  match s with
  | EmptyString => ""
  | String.String c r =>
    match trim_cr r with
    | EmptyString => if Ascii.eqb c (ascii_of 13) then "" else String.String c ""
    | t => String.String c t
    end
  end.

(** What the subscriber is handed. *)
Abbreviation Item := (result AnchorTopologyError TopologyEvent).

Section client.
Context {P : JsonParser} {T : TopologySerde}.

(** An error body: its three texts, when the first two are there. *)
Definition error_parts (v : Value) (otherwise : string) : option AnchorTopologyError :=
  e ← vget "error" v ≫= as_str; st ← vget "status" v ≫= as_str;
  Some (ProtocolError e st (default otherwise (vget "message" v ≫= as_str))).

Definition parse_error_body (status : Z) (body : string) : AnchorTopologyError :=
  match parse_json body with
  | Ok v => default (HttpError status body) (error_parts v body)
  | Err _ => HttpError status body
  end.

(** ** Snapshots *)

(** The answer of [get_snapshot_with].  [caps["data"]] inserts a null into an
    object without the key and into a null, and panics on any other value:
    [None]. *)
Definition read_snapshot (snapshot_from_value : Value -> result string TopologySnapshot) (status : Z) (body : string)
    : option (result AnchorTopologyError TopologySnapshot) :=
  if negb ((200 <=? status) && (status <? 300)) then Some (Err (parse_error_body status body))
  else match parse_json body with
  | Err e => Some (Err (ReqwestError e))
  | Ok caps =>
    let missing := Err (HttpError 200 "topology.snapshot: data array missing or empty") in
    match caps with
    | VObject _ | VNull =>
      Some (match vget "data" caps ≫= as_array with
            | Some (first :: _) => map_err JsonError (snapshot_from_value first)
            | _ => missing
            end)
    | _ => None
    end
  end.

(** ** The event stream *)

(** [Ok None] is a line the caller skips. *)
Definition parse_event_line (line : string) : result AnchorTopologyError (option TopologyEvent) :=
  match parse_json line with
  | Err e => Err (JsonError e)
  | Ok root =>
    match vget "event_type" root with
    | None => match error_parts root "" with Some e => Err e | None => Ok None end
    | Some t =>
      match as_str t with
      | None => Ok None
      | Some event_type =>
        let seq := default 0 (vget "seq" root ≫= as_u64) in
        let payload := default VNull (vget "payload" root) in
        let text key otherwise := default otherwise (vget key payload ≫= as_str) in
        if String.eqb event_type "member_joined" then
          match member_from_value payload with
          | Ok member => Ok (Some (MemberJoined seq member))
          | Err e => Err (JsonError e)
          end
        else if String.eqb event_type "member_left" then Ok (Some (MemberLeft seq (text "nid" "")))
        else if String.eqb event_type "member_updated" then
          match changes_from_value (default (VObject []) (vget "changes" payload)) with
          | Ok changes => Ok (Some (MemberUpdated seq (text "nid" "") changes))
          | Err e => Err (JsonError e)
          end
        else if String.eqb event_type "anchor_state" then
          Ok (Some (NwpTopology.AnchorState seq (text "field" "") (vget "details" payload)))
        else if String.eqb event_type "resync_required" then Ok (Some (ResyncRequired (text "reason" "unknown")))
        else Ok None
      end
    end
  end.

(** One complete line; the flag says whether the ack has been seen, [None]
    that the stream has ended. *)
Definition stream_line (ack_skipped : bool) (line : string) : list Item * option bool :=
  let line := trim_cr line in
  if is_empty line then ([], Some ack_skipped)
  else if negb ack_skipped then ([], Some true)
  else match parse_event_line line with
       | Ok (Some ev) => ([Ok ev], if is_resync ev then None else Some true)
       | Ok None => ([], Some true)
       | Err e => ([Err e], None)
       end.

Fixpoint stream_lines (ack_skipped : bool) (lines : list string) : list Item * option bool :=
  match lines with
  | [] => ([], Some ack_skipped)
  | line :: rest =>
    let '(items, next) := stream_line ack_skipped line in
    match next with
    | None => (items, None)
    | Some ack => let '(more, last) := stream_lines ack rest in (items ++ more, last)
    end
  end.

(** What the HTTP library hands over. *)
Inductive Chunk : Type :=
| Bytes (bytes : list Z)
| Broken (e : string).

(** The loop over the chunks: the text is cut at its newlines, what follows
    the last one stays in the buffer; at the end the buffer is one more line,
    unless the ack is still due. *)
Fixpoint parse_event_stream (ack_skipped : bool) (buf : string) (chunks : list Chunk) : list Item :=
  match chunks with
  | [] => if ack_skipped then fst (stream_line true buf) else []
  | Broken e :: _ => [Err (ReqwestError e)]
  | Bytes b :: rest =>
    match from_utf8 b with
    | None => [Err (HttpError 0 "stream contained invalid UTF-8")]
    | Some text =>
      let lines := split_on (ascii_of 10) (buf +:+ text) in
      let '(items, next) := stream_lines ack_skipped (removelast lines) in
      items ++ match next with
               | None => []
               | Some ack => parse_event_stream ack (List.last lines "") rest
               end
    end
  end.
End client.

(** ** Lists *)

Lemma removelast_app_cons {A} (l : list A) x r : removelast (l ++ x :: r) = l ++ removelast (x :: r).
Proof. by rewrite removelast_app. Qed.

Lemma last_app_cons {A} (l : list A) x r d : List.last (l ++ x :: r) d = List.last (x :: r) d.
Proof.
  induction l as [|y l IH]; [done |]. rewrite <- IH. cbn. by destruct (l ++ x :: r) eqn:E; [destruct l |].
Qed.

(** ** Any chunking of a text is read like its lines *)

Section parser.
Context {P : JsonParser} {T : TopologySerde}.

Lemma stream_lines_app a b : forall ack,
  stream_lines ack (a ++ b) =
  let '(items, next) := stream_lines ack a in
  match next with
  | None => (items, None)
  | Some ack => let '(more, last) := stream_lines ack b in (items ++ more, last)
  end.
Proof.
  induction a as [|line a IH]; intros ack; cbn [app stream_lines].
  - by destruct (stream_lines ack b).
  - destruct (stream_line ack line) as [items [ack'|]]; [|done]. rewrite IH.
    destruct (stream_lines ack' a) as [more [ack2|]]; [|done].
    destruct (stream_lines ack2 b) as [rest last]. by rewrite app_assoc.
Qed.

(** The lines of a whole text, and the flush of what follows the last newline. *)
Definition read_text (ack : bool) (text : string) : list Item :=
  let lines := split_on (ascii_of 10) text in
  let '(items, next) := stream_lines ack (removelast lines) in
  items ++ match next with
           | None => []
           | Some ack => if ack : bool then fst (stream_line true (List.last lines "")) else []
           end.

Lemma chunks_read_text chunks : forall ack buf, lacks (ascii_of 10) buf ->
  Forall (fun b => utf8_valid b = true) chunks ->
  parse_event_stream ack buf (map Bytes chunks) = read_text ack (buf +:+ of_bytes (concat chunks)).
Proof.
  induction chunks as [|b chunks IH]; intros ack buf Hb Hv.
  - cbn [map parse_event_stream concat]. unfold read_text. change (of_bytes []) with "".
    assert (E : buf +:+ "" = buf) by (clear; induction buf as [|a r IHr]; [done |];
      change (String.String a (r +:+ "") = String.String a r); by rewrite IHr).
    unfold lacks in Hb. rewrite E, Hb. by destruct ack.
  - apply Forall_cons in Hv as [Hv1 Hv]. cbn [map parse_event_stream concat].
    unfold from_utf8. rewrite Hv1, of_bytes_app, <- append_assoc. unfold read_text.
    rewrite (split_on_more _ (buf +:+ of_bytes b)). set (lines := split_on (ascii_of 10) (buf +:+ of_bytes b)).
    set (rest := List.last lines "" +:+ of_bytes (concat chunks)).
    destruct (split_on_cons (ascii_of 10) rest) as (x & r & Er).
    rewrite Er, removelast_app_cons, last_app_cons, stream_lines_app.
    destruct (stream_lines ack (removelast lines)) as [items [ack'|]]; [|by rewrite !app_nil_r].
    rewrite IH; [|  | done].
    + unfold read_text. fold rest. rewrite Er. destruct (stream_lines ack' (removelast (x :: r))) as [more next].
      by rewrite app_assoc.
    + pose proof (split_on_lacks (ascii_of 10) (buf +:+ of_bytes b)) as Hl. fold lines in Hl.
      destruct (split_on_cons (ascii_of 10) (buf +:+ of_bytes b)) as (y & l & Ey). fold lines in Ey.
      rewrite Forall_forall in Hl. apply Hl. rewrite Ey. apply list_elem_of_In.
      destruct (exists_last (l := y :: l) ltac:(done)) as (l0 & z & ->). rewrite last_last. apply in_elt.
Qed.

(** A text of whole lines. *)
Fixpoint lines_text (lines : list string) : string :=
  match lines with [] => "" | l :: r => l +:+ newline +:+ lines_text r end.

Lemma split_lines_text lines : Forall (lacks (ascii_of 10)) lines ->
  split_on (ascii_of 10) (lines_text lines) = lines ++ [""].
Proof.
  induction 1 as [|l lines Hl _ IH]; [done |]. cbn [lines_text].
  change (newline +:+ lines_text lines) with (String.String (ascii_of 10) (lines_text lines)).
  by rewrite split_on_app, IH.
Qed.

Lemma read_whole_lines ack lines : Forall (lacks (ascii_of 10)) lines ->
  read_text ack (lines_text lines) = fst (stream_lines ack lines).
Proof.
  intros Hl. unfold read_text. rewrite split_lines_text, removelast_last, last_last by done.
  destruct (stream_lines ack lines) as [items [[]|]]; cbn; by rewrite app_nil_r.
Qed.
End parser.

(** ** From the server to the client *)

Section endtoend.
Context {D : Digests} {P : JsonParser} {T : TopologySerde} {C : ContextTime} {B : DebugText}.
Context `{Timestamps} `{ReputationLogs}.
Context {W L : Type}.
Implicit Types (app : @AnchorNodeApp W L) (s : @AnchorNodeState W L).

(** The events a subscriber should see: all, or up to the resynchronisation. *)
Fixpoint until_resync (evs : list TopologyEvent) : list TopologyEvent :=
  match evs with
  | [] => []
  | ev :: rest => ev :: (if is_resync ev then [] else until_resync rest)
  end.

(** An absent detail is written as a null and read as one. *)
Definition received (ev : TopologyEvent) : TopologyEvent :=
  match ev with
  | NwpTopology.AnchorState version field None => NwpTopology.AnchorState version field (Some VNull)
  | ev => ev
  end.

(** A value the JSON library reads back from one line of text. *)
Definition one_line (v : Value) : Prop :=
  parse_json (json_to_string v) = Ok v /\ lacks (ascii_of 10) (json_to_string v) /\
  trim_cr (json_to_string v) = json_to_string v /\ json_to_string v <> "".

(** The derived serializers of an event's parts are inverse to the readers. *)
Definition serde_back (ev : TopologyEvent) : Prop :=
  match ev with
  | MemberJoined _ member => member_from_value (member_to_value member) = Ok member
  | MemberUpdated _ _ changes => changes_from_value (changes_to_value changes) = Ok changes
  | _ => True
  end.

Lemma envelope_gets stream_id secs ev :
  let '(event_type, seq, payload) := event_parts ev in
  let env := event_to_envelope stream_id secs ev in
  vget "event_type" env = Some (VString event_type) /\ vget "seq" env = vnat <$> seq /\
  vget "payload" env = Some payload.
Proof.
  unfold event_to_envelope. destruct (event_parts ev) as [[event_type seq] payload].
  cbn [vget]. rewrite !map_get_insert_opt, !map_get_insert. by destruct seq.
Qed.

Lemma envelope_line stream_id secs ev : one_line (event_to_envelope stream_id secs ev) -> serde_back ev ->
  stream_line true (json_to_string (event_to_envelope stream_id secs ev)) =
  ([Ok (received ev)], if is_resync ev then None else Some true).
Proof.
  intros (Hp & _ & Ht & Hne) Hs. unfold stream_line. rewrite Ht.
  destruct (json_to_string (event_to_envelope stream_id secs ev)) as [|c t] eqn:Et; [done |]. rewrite <- Et in *.
  unfold is_empty. rewrite Et. rewrite <- Et. cbn [negb].
  unfold parse_event_line. rewrite Hp. clear Hp Ht Hne Et.
  pose proof (envelope_gets stream_id secs ev) as Hg.
  destruct ev as [v m|v nid|v nid ch|v f [d|]|reason]; cbn [event_parts serde_back] in Hg, Hs;
    destruct Hg as (-> & -> & ->); cbn; [by rewrite Hs | done | by rewrite Hs | done..].
Qed.

Lemma resync_received ev : is_resync (received ev) = is_resync ev.
Proof. by destruct ev as [| | |? ? []|]. Qed.

(** The lines of the server, and what they are read as. *)
Fixpoint envelope_lines (stream_id : string) (at_event : nat -> Z) (evs : list TopologyEvent) : list string :=
  match evs with
  | [] => []
  | ev :: rest => json_to_string (event_to_envelope stream_id (at_event O) ev) ::
      (if is_resync ev then [] else envelope_lines stream_id (fun n => at_event (S n)) rest)
  end.

Lemma event_lines_text stream_id at_event evs :
  event_lines stream_id at_event evs = lines_text (envelope_lines stream_id at_event evs).
Proof.
  revert at_event. induction evs as [|ev evs IH]; intros at_event; [done |]. cbn.
  destruct (is_resync ev); cbn; by rewrite ?IH.
Qed.

(** Every event the server writes can be written in one line and read back. *)
Definition writable (stream_id : string) (at_event : nat -> Z) (evs : list TopologyEvent) : Prop :=
  forall n ev, evs !! n = Some ev -> one_line (event_to_envelope stream_id (at_event n) ev) /\ serde_back ev.

Lemma envelope_lines_lack stream_id evs : forall at_event, writable stream_id at_event evs ->
  Forall (lacks (ascii_of 10)) (envelope_lines stream_id at_event evs).
Proof.
  induction evs as [|ev evs IH]; intros at_event Hw; [constructor |]. cbn. constructor.
  - apply (Hw O ev eq_refl).
  - destruct (is_resync ev); [constructor |]. apply IH. intros n e He. by apply (Hw (S n)).
Qed.

Lemma envelope_lines_read stream_id evs : forall at_event, writable stream_id at_event evs ->
  fst (stream_lines true (envelope_lines stream_id at_event evs)) = map (fun ev => Ok (received ev)) (until_resync evs).
Proof.
  induction evs as [|ev evs IH]; intros at_event Hw; [done |]. cbn [envelope_lines stream_lines until_resync map].
  destruct (Hw O ev eq_refl) as [Hl Hs]. rewrite envelope_line by done.
  destruct (is_resync ev); [done |].
  specialize (IH (fun n => at_event (S n)) ltac:(intros n e He; by apply (Hw (S n)))).
  destruct (stream_lines _ _) as [more last]. cbn in *. by rewrite IH.
Qed.

(** The stream of the server, in any chunks of valid UTF-8. *)
Lemma stream_received stream_id at_event evs resumed chunks :
  one_line (ack_line stream_id resumed) -> writable stream_id at_event evs ->
  concat chunks = bytes_of (json_to_string (ack_line stream_id resumed) +:+ newline +:+
                            event_lines stream_id at_event evs) ->
  Forall (fun b => utf8_valid b = true) chunks ->
  parse_event_stream false "" (map Bytes chunks) = map (fun ev => Ok (received ev)) (until_resync evs).
Proof.
  intros (Hp & Hl & Ht & Hne) Hw Hc Hv. rewrite chunks_read_text by done.
  rewrite Hc, of_bytes_bytes_of, event_lines_text.
  change ("" +:+ ?x) with x.
  change (json_to_string (ack_line stream_id resumed) +:+ newline +:+ lines_text (envelope_lines stream_id at_event evs))
    with (lines_text (json_to_string (ack_line stream_id resumed) :: envelope_lines stream_id at_event evs)).
  rewrite read_whole_lines by (constructor; [done | by apply envelope_lines_lack]).
  cbn [stream_lines]. unfold stream_line at 1. rewrite Ht.
  destruct (json_to_string (ack_line stream_id resumed)); [done |]. cbn [is_empty negb].
  rewrite <- (envelope_lines_read stream_id evs at_event Hw). by destruct (stream_lines true _).
Qed.

(** *** The request *)

Definition filter_back (filter : option TopologyFilter) : Prop :=
  match filter with Some f => filter_from_value (filter_to_value f) = Some f | None => True end.

Definition is_scope (scope : string) : Prop := scope = SCOPE_CLUSTER \/ scope = SCOPE_MEMBER.

Lemma filter_keys_ok f m : filter_to_value f = VObject m -> validate_filter_keys m = Ok tt.
Proof. destruct f as [[] [] []]; cbn; intros E; by injection E as <-. Qed.

Lemma filter_object f : exists m, filter_to_value f = VObject m.
Proof. by eexists. Qed.

Lemma stream_request_back stream_id scope filter since : is_scope scope -> stream_id <> "" -> filter_back filter ->
  (forall v, since = Some v -> 0 <= v <= u64_max) ->
  parse_stream_request (subscribe_body stream_id scope filter since) =
  Ok (mkStreamRequest scope filter since, Some stream_id).
Proof.
  intros Hs Hid Hf Hv. unfold parse_stream_request, subscribe_body.
  set (topo := insert_opt "since_version" _ _).
  assert (Hscope : map_get "scope" topo = Some (VString scope))
    by (unfold topo; by rewrite !map_get_insert_opt, map_get_insert; destruct since, filter).
  assert (Hfilter : map_get "filter" topo = filter_to_value <$> filter)
    by (unfold topo; rewrite !map_get_insert_opt, map_get_insert; by destruct since, filter).
  assert (Hsince : map_get "since_version" topo = vnat <$> since)
    by (unfold topo; rewrite !map_get_insert_opt, map_get_insert; by destruct since, filter).
  cbn [vget map_get String.eqb Ascii.eqb Bool.eqb mbind option_bind as_object ok_or result_bind].
  unfold parse_scope. rewrite Hscope. cbn [mbind option_bind as_str].
  assert (Es : (if String.eqb scope "" || String.eqb scope "cluster" then Ok "cluster"
                else if String.eqb scope "member" then Ok "member"
                else Err (scope_error ("unknown topology.scope '" +:+ scope +:+ "'."))) = Ok scope)
    by (destruct Hs as [-> | ->]; done).
  rewrite Es. cbn [result_bind]. rewrite Hfilter, Hsince.
  destruct filter as [f|]; cbn [fmap option_fmap option_map mbind option_bind as_object result_bind].
  - destruct (filter_object f) as [m Em]. rewrite Em. cbn [as_object]. rewrite (filter_keys_ok f m Em).
    cbn [result_bind]. rewrite <- Em, Hf. cbn.
    destruct stream_id; [done |]. destruct since; done.
  - cbn. destruct stream_id; [done |]. destruct since; done.
Qed.

(** The two topology routes, for a caller the node requires no more of. *)
Lemma topology_routes app tm req s : nr_method req = "POST" ->
  (no_require_auth (na_opt app) = true -> is_Some (rq_header req "X-NWP-Agent")) ->
  (nr_path req = na_prefix app +:+ "/query" -> anchor_handle app tm req s = (anchor_handle_query app req, s)) /\
  (nr_path req = na_prefix app +:+ "/subscribe" -> anchor_handle app tm req s = anchor_handle_subscribe app tm req s).
Proof.
  intros Hm Hauth.
  assert (Ha : no_require_auth (na_opt app) && negb (is_set (rq_header req "X-NWP-Agent")) = false)
    by (destruct (no_require_auth (na_opt app)); [destruct (Hauth eq_refl) as [a ->] |]; done).
  unfold anchor_handle. split; intros ->; rewrite strip_prefix_app, Ha; cbn; unfold post_only; by rewrite Hm.
Qed.

(** C23: a subscription from end to end: the client's request, on a node that has a
    topology service and lets the caller read it, is answered with a body
    which, in whatever chunks of whole characters it arrives, the client reads
    as the events of the service for the scope, filter and version it asked
    for, in order, up to the first that tells it to resynchronise. *)
Theorem subscription_delivered app topology tm req s stream_id scope filter since chunks :
  na_topology app = Some topology -> check_topology_capability app req = None ->
  (no_require_auth (na_opt app) = true -> is_Some (rq_header req "X-NWP-Agent")) ->
  nr_method req = "POST" -> nr_path req = na_prefix app +:+ "/subscribe" ->
  let body := subscribe_body stream_id scope filter since in
  nr_body req = bytes_of (json_to_string body) -> parse_json (json_to_string body) = Ok body ->
  is_scope scope -> stream_id <> "" -> filter_back filter -> (forall v, since = Some v -> 0 <= v <= u64_max) ->
  let evs := subscribe topology (mkStreamRequest scope filter since) in
  one_line (ack_line stream_id (is_set since)) -> writable stream_id (an_event tm) evs ->
  let resp := fst (anchor_handle app tm req s) in
  concat chunks = ns_body resp -> Forall (fun b => utf8_valid b = true) chunks ->
  ns_status resp = 200 /\
  parse_event_stream false "" (map Bytes chunks) = map (fun ev => Ok (received ev)) (until_resync evs).
Proof.
  intros Ht Hcap Hauth Hm Hpath body Hbody Hparse Hs Hid Hf Hv evs Hack Hw resp Hc Hutf.
  assert (Er : resp = mkNodeResponse 200 anchor_headers
    (bytes_of (json_to_string (ack_line stream_id (is_set since)) +:+ newline +:+ event_lines stream_id (an_event tm) evs))).
  { unfold resp. destruct (topology_routes app tm req s Hm Hauth) as [_ ->]; [|done]. unfold anchor_handle_subscribe.
    rewrite Hcap, Hbody, of_bytes_bytes_of, Hparse.
    rewrite bool_decide_true by done. cbn [negb]. rewrite Ht. unfold body. rewrite (stream_request_back stream_id scope filter since) by done. done. }
  rewrite Er in Hc |- *. split; [done |]. cbn [ns_body] in Hc. by eapply stream_received.
Qed.

(** *** Snapshots and errors *)

Lemma strings_known l : Forall (fun i => In i known_includes) l ->
  List.filter (fun i => existsb (String.eqb i) known_includes) (strings_of (map VString l)) = l.
Proof.
  rewrite strings_of_map. induction 1 as [|i l Hi _ IH]; [done |]. cbn [List.filter].
  rewrite (proj2 (existsb_exists _ _)), IH; [done |]. exists i. split; [done | apply String.eqb_refl].
Qed.

(** What the node understands of a snapshot request: an empty list asks for
    the members, a depth of 0 for 1. *)
Lemma snapshot_request_back scope include depth target : is_scope scope ->
  Forall (fun i => In i known_includes) include -> 0 <= depth < 256 ->
  (scope = SCOPE_MEMBER -> exists t, target = Some t /\ t <> "") ->
  parse_snapshot_request (snapshot_body scope include depth target) =
  Ok (mkSnapshotRequest scope (match include with [] => ["members"] | _ => include end) (Z.max depth 1) target).
Proof.
  intros Hs Hi Hd Ht. unfold parse_snapshot_request, snapshot_body.
  set (topo := insert_opt "target_nid" _ _).
  assert (Hg : map_get "scope" topo = Some (VString scope) /\
    map_get "include" topo = (match include with [] => None | _ => Some (vstrings include) end) /\
    map_get "depth" topo = (if depth =? 1 then None else Some (vnat depth)) /\
    map_get "target_nid" topo = VString <$> target).
  { unfold topo. rewrite !map_get_insert_opt.
    destruct (depth =? 1), include, target; cbn [negb]; rewrite ?map_get_insert; done. }
  destruct Hg as (H1 & H2 & H3 & H4).
  cbn [vget map_get String.eqb Ascii.eqb Bool.eqb mbind option_bind as_object ok_or result_bind].
  unfold parse_scope. rewrite H1. cbn [mbind option_bind as_str].
  assert (Es : (if String.eqb scope "" || String.eqb scope "cluster" then Ok "cluster"
                else if String.eqb scope "member" then Ok "member"
                else Err (scope_error ("unknown topology.scope '" +:+ scope +:+ "'."))) = Ok scope)
    by (destruct Hs as [-> | ->]; done).
  rewrite Es. cbn [mbind result_bind]. rewrite H4.
  assert (Etarget : (VString <$> target) ≫= as_str = target) by by destruct target.
  rewrite Etarget.
  replace (String.eqb scope "member" && is_empty (default "" target)) with false.
  2: { destruct Hs as [-> | ->]; [done |]. destruct (Ht eq_refl) as (t & -> & Hne). by destruct t. }
  assert (Ei : parse_include topo = match include with [] => ["members"] | _ => include end).
  { unfold parse_include. rewrite H2. destruct include as [|i l]; [done |].
    cbn [mbind option_bind as_array vstrings]. by rewrite strings_known. }
  assert (Ed : parse_depth topo = Z.max depth 1).
  { unfold parse_depth. rewrite H3. destruct (Z.eqb_spec depth 1) as [-> | Hne]; [done |]. cbn.
    destruct (Z.ltb_spec 0 depth); cbn; [|lia]. unfold wrap_u8. rewrite Z.mod_small; lia. }
  by rewrite Ei, Ed.
Qed.

(** Every error of the node reaches the client as its code, status and text. *)
Lemma error_delivered status nps_status error_code message details extra :
  let v := dict_of [("status", Some (VString nps_status)); ("error", Some (VString error_code));
                    ("message", Some (VString message)); ("details", details)] in
  parse_json (json_to_string (VObject v)) = Ok (VObject v) ->
  let resp := anchor_error_resp status nps_status error_code message details extra in
  ns_status resp = status /\
  parse_error_body status (of_bytes (ns_body resp)) = ProtocolError error_code nps_status message.
Proof.
  intros v Hp resp. split; [done |]. unfold parse_error_body, resp, anchor_error_resp, to_vec.
  cbn [ns_body]. rewrite of_bytes_bytes_of. unfold v in Hp. cbn [dict_of fold_left fst snd insert_opt] in Hp.
  rewrite Hp. unfold error_parts. cbn [vget]. rewrite !map_get_insert_opt, !map_get_insert. by destruct details.
Qed.

(** A snapshot from end to end: the client is handed what the service gave. *)
Lemma snapshot_delivered snapshot_from_value app topology tm req s scope include depth target :
  na_topology app = Some topology -> check_topology_capability app req = None ->
  (no_require_auth (na_opt app) = true -> is_Some (rq_header req "X-NWP-Agent")) ->
  nr_method req = "POST" -> nr_path req = na_prefix app +:+ "/query" ->
  let body := snapshot_body scope include depth target in
  nr_body req = bytes_of (json_to_string body) -> parse_json (json_to_string body) = Ok body ->
  is_scope scope -> Forall (fun i => In i known_includes) include -> 0 <= depth < 256 ->
  (scope = SCOPE_MEMBER -> exists t, target = Some t /\ t <> "") ->
  let snap := get_snapshot topology (mkSnapshotRequest scope
    (match include with [] => ["members"] | _ => include end) (Z.max depth 1) target) in
  parse_json (json_to_string (snapshot_caps snap)) = Ok (snapshot_caps snap) ->
  snapshot_from_value (snapshot_to_value snap) = Ok snap ->
  let resp := fst (anchor_handle app tm req s) in
  read_snapshot snapshot_from_value (ns_status resp) (of_bytes (ns_body resp)) = Some (Ok snap).
Proof.
  intros Ht Hcap Hauth Hm Hpath body Hbody Hparse Hs Hi Hd Htg snap Hcaps Hback resp.
  assert (Er : resp = mkNodeResponse 200 (anchor_headers ++ [("x-nwp-schema", SNAPSHOT_ANCHOR_REF)])
                        (to_vec (snapshot_caps snap))).
  { unfold resp. destruct (topology_routes app tm req s Hm Hauth) as [-> _]; [|done]. cbn [fst]. unfold anchor_handle_query.
    rewrite Hcap, Hbody, of_bytes_bytes_of, Hparse.
    rewrite bool_decide_true by done. cbn [negb]. rewrite Ht. unfold body. by rewrite snapshot_request_back. }
  rewrite Er. unfold read_snapshot, to_vec. cbn [ns_status ns_body]. rewrite of_bytes_bytes_of, Hcaps. cbn.
  by rewrite Hback.
Qed.
End endtoend.

(** ** Witness, and where the client does less than it says *)

(** A printer and a reader of finitely many values. *)
Definition table_digests (t : list (string * Value)) : Digests := {|
  sha256 l := l; hex_encode _ := "";
  json_to_string v := match List.find (fun kv => value_eqb (snd kv) v) t with Some (k, _) => k | None => "" end |}.
Definition table_parser (t : list (string * Value)) : JsonParser := {|
  parse_json s := match map_get s t with Some v => Ok v | None => Err "" end |}.

Definition toy_events : list TopologyEvent := [MemberLeft 5 "m"; ResyncRequired "r"; MemberLeft 6 "x"].
Definition toy_table : list (string * Value) :=
  let env ty payload seq := VObject (insert_opt "seq" seq
    [("cgn_est", vnat 1); ("event_type", VString ty); ("payload", VObject [payload]);
     ("stream_id", VString "s"); ("timestamp", VString "t")]) in
  [("b", subscribe_body "s" SCOPE_CLUSTER None (Some 4)); ("a", ack_line "s" true);
   ("1", env "member_left" ("nid", VString "m") (Some (vnat 5)));
   ("2", env "resync_required" ("reason", VString "r") None);
   ("3", env "member_left" ("nid", VString "x") (Some (vnat 6)))].
Definition toy_topology : AnchorTopologyService :=
  in_memory_topology (mkInMemoryTopology "nid" [] 6 toy_events None).
Definition topology_options : AnchorNodeOptions := anchor_options_new "n" "/x".
Definition topology_app : @AnchorNodeApp unit unit :=
  mkAnchorApp topology_options "/x" None (Some toy_topology) AllowAllRateLimiter [] [].
Definition toy_readings : AnchorReadings := mkAnchorReadings 0 1 1 1 1 (fun _ => 0).
Definition toy_subscribe : NodeRequest :=
  mkNodeRequest "POST" "/x/subscribe" {["x-nwp-agent" := "nid"]} (bytes_of "b").
Definition toy_topology_serde : TopologySerde := {|
  snapshot_to_value _ := VNull; member_to_value _ := VNull; member_from_value _ := Err "";
  changes_to_value _ := VNull; changes_from_value _ := Err ""; filter_from_value _ := None; policy_to_value _ := VNull |}.
Definition toy_dates : ContextTime := {| instant_add t d := Some (t + d); rfc3339 _ := Some "t" |}.
Definition no_clock : Timestamps := {| parse_ts _ := None |}.
Definition no_logs : ReputationLogs := {| log_query _ _ := None |}.
Definition toy_chunks : list (list Z) := [bytes_of "a"; [10; 49; 10; 50]; [10]].

Lemma subscription_delivered_witness :
  @parse_event_stream (table_parser toy_table) toy_topology_serde false "" (map Bytes toy_chunks) =
  [Ok (MemberLeft 5 "m"); Ok (ResyncRequired "r")].
Proof.
  refine (proj2 (@subscription_delivered (table_digests toy_table) (table_parser toy_table) toy_topology_serde toy_dates
    quoted no_clock no_logs unit unit topology_app toy_topology toy_readings toy_subscribe
    (mkAnchorState None tt tt 1) "s" SCOPE_CLUSTER None (Some 4) toy_chunks _ _ _ _ _ _ _ _ _ _ _ _ _ _ _)).
  - reflexivity.
  - reflexivity.
  - intros _. vm_compute. by eexists.
  - reflexivity.
  - reflexivity.
  - vm_compute. reflexivity.
  - vm_compute. reflexivity.
  - by left.
  - done.
  - exact I.
  - intros v [= <-]. vm_compute. split; discriminate.
  - repeat split; vm_compute; try reflexivity; discriminate.
  - intros [|[|[|n]]] ev He; vm_compute in He; try discriminate; injection He as <-;
      repeat split; vm_compute; try reflexivity; discriminate.
  - vm_compute. reflexivity.
  - repeat constructor.
Defined.

(** A chunk that ends inside a character ends the stream with an error. *)
Lemma split_character_refused P T :
  @parse_event_stream P T false "" [Bytes [226]; Bytes [130; 172; 10]] =
  [Err (HttpError 0 "stream contained invalid UTF-8")].
Proof. reflexivity. Qed.

(** A reply that is a JSON array panics the client. *)
Lemma array_reply_panics from_value :
  @read_snapshot (table_parser [("x", VArray [])]) from_value 200 "x" = None.
Proof. reflexivity. Qed.
