(* ===== verification/NopProfile.v ===== *)
(** * NopProfile: the portable orchestration profile

    Models nps-nop/src/portable_profile.rs: the deterministic orchestration of
    a scripted task, and the vectors of the runtime: callbacks, callback
    signatures, leases, delegation, spawn specifications and lifecycles.  The
    URL parser, HMAC and the digests are parameters; a panic is [None]. *)

From S2P Require Import Prelude RustStr Floats Json CoreFrames CoreCache NopModels NopDag NopCallback NipDer.
Local Open Scope Z_scope.

Definition DELEGATE_REJECTED : string := "NOP-DELEGATE-REJECTED".
Definition DELEGATE_SCOPE_VIOLATION : string := "NOP-DELEGATE-SCOPE-VIOLATION".
Definition CALLBACK_INVALID : string := "NOP-CALLBACK-INVALID".
Definition CALLBACK_HMAC_MISSING : string := "NOP-CALLBACK-HMAC-MISSING".
Definition CALLBACK_HMAC_INVALID : string := "NOP-CALLBACK-HMAC-INVALID".
Definition SPAWN_SPEC_INVALID : string := "NOP-SPAWN-SPEC-INVALID".
Definition RUNTIME_MAX_RUNTIME : string := "NOP-RUNTIME-MAX-RUNTIME".
Definition RUNTIME_IDLE_TIMEOUT : string := "NOP-RUNTIME-IDLE-TIMEOUT".
Definition PROFILE_CLUSTER_SPLIT : string := "NDP-CLUSTER-SPLIT".

(** ** Reading the input *)

Definition bool_value (v : Value) (key : string) (fallback : bool) : bool :=
  default fallback (vget key v ≫= as_bool).
Definition usize_value (v : Value) (key : string) (fallback : Z) : Z :=
  default fallback (vget key v ≫= as_u64).
Definition i64_value (v : Value) (key : string) (fallback : Z) : Z :=
  default fallback (vget key v ≫= as_i64).
Definition str_value (v : Value) (key : string) : option string := vget key v ≫= as_str.
Definition string_is (v : Value) (key text : string) : bool := bool_decide (str_value v key = Some text).
Definition array_value (v : Value) (key : string) : list Value := default [] (vget key v ≫= as_array).

(** [node["depends_on"]], the strings of it. *)
Definition dependencies (node : Value) : list string := strings_of (array_value node "depends_on").

(** ** The topology *)

(** [BTreeSet::insert] and [Vec::sort] on strings. *)
Fixpoint set_insert (s : string) (l : list string) : list string :=
  match l with
  | [] => [s]
  | x :: r => match String.compare s x with Eq => l | Lt => s :: l | Gt => x :: set_insert s r end
  end.

Definition str_le (a b : string) : Prop := String.leb a b = true.
#[export] Instance str_le_dec : RelDecision str_le.
Proof. intros a b. unfold str_le. tc_solve. Defined.

(** A [BTreeMap] of the nodes is a sorted association list. *)
Definition node_of (nodes : list (string * Value)) (id : string) : Value := default VNull (map_get id nodes).

(** The edges the nodes ask for; [None] at an unknown dependency. *)
Fixpoint add_dependencies (known : list (string * Value)) (id : string) (deps : list string)
    (indegree : gmap string Z) (outgoing : gmap string (list string))
    : option (gmap string Z * gmap string (list string)) :=
  match deps with
  | [] => Some (indegree, outgoing)
  | dependency :: rest =>
    if negb (map_contains dependency known) then None
    else add_dependencies known id rest (alter (Z.add 1) id indegree)
           (alter (fun l => l ++ [id]) dependency outgoing)
  end.

Fixpoint add_nodes (known nodes : list (string * Value)) (indegree : gmap string Z)
    (outgoing : gmap string (list string)) : option (gmap string Z * gmap string (list string)) :=
  match nodes with
  | [] => Some (indegree, outgoing)
  | (id, node) :: rest =>
    '(indegree, outgoing) ← add_dependencies known id (dependencies node) indegree outgoing;
    add_nodes known rest indegree outgoing
  end.

(** The inner loop over the dependents of a node. *)
Fixpoint release_dependents (nexts : list string) (indegree : gmap string Z) (ready : list string)
    : option (gmap string Z * list string) :=
  match nexts with
  | [] => Some (indegree, ready)
  | next :: rest =>
    value ← indegree !! next;
    let value := value - 1 in
    release_dependents rest (<[next := value]> indegree) (if value =? 0 then set_insert next ready else ready)
  end.

(** [while let Some(id) = ready.pop_first()]; [fuel] bounds the pops. *)
Fixpoint topology_loop (fuel : nat) (outgoing : gmap string (list string)) (indegree : gmap string Z)
    (ready order : list string) : option (list string) :=
  match fuel with
  | O => None
  | S fuel =>
    match ready with
    | [] => Some order
    | id :: ready =>
      next_values ← outgoing !! id;
      '(indegree, ready) ← release_dependents (merge_sort str_le next_values) indegree ready;
      topology_loop fuel outgoing indegree ready (order ++ [id])
    end
  end.

Definition keys_of (nodes : list (string * Value)) : list string := map fst nodes.

Definition stable_topology (nodes : list (string * Value)) : option (list string) :=
  let ids := keys_of nodes in
  '(indegree, outgoing) ← add_nodes nodes nodes (gset_to_gmap 0 (list_to_set ids)) (gset_to_gmap [] (list_to_set ids));
  let ready := fold_left (fun r id => set_insert id r)
                 (List.filter (fun id => bool_decide (indegree !! id = Some 0)) ids) [] in
  order ← topology_loop (S (length nodes)) outgoing indegree ready [];
  if (length order =? length nodes)%nat then Some order else None.

(** ** Conditions and mappings *)

(** [root.get(a).get(b)...] along a path that starts with [$.]. *)
Definition profile_path (root : Value) (path : string) : option Value :=
  path ← strip_prefix "$." path;
  fold_left (fun (current : option Value) segment => v ← current; vget segment v) (split_on "." path) (Some root).

(** [str::find]. *)
Fixpoint str_find (needle h : string) : option nat :=
  if starts_with needle h then Some O
  else match h with EmptyString => None | String.String _ r => S <$> str_find needle r end.

(** The operator found first; of two at one place the earlier in the list. *)
Definition first_operator (expression : string) : option (string * nat) :=
  fold_left (fun (best : option (string * nat)) op =>
      match str_find op expression, best with
      | Some offset, Some (_, b) => if (offset <? b)%nat then Some (op, offset) else best
      | Some offset, None => Some (op, offset)
      | None, _ => best
      end)
    ["=="; "!="; ">="; "<="; ">"; "<"] None.

Definition compare_numbers (operator : string) (c : option comparison) : option bool :=
  let hit x := match c, x with
              | Some Lt, Lt | Some Eq, Eq | Some Gt, Gt => true
              | _, _ => false
              end in
  if String.eqb operator "==" then Some (hit Eq)
  else if String.eqb operator "!=" then Some (negb (hit Eq))
  else if String.eqb operator ">" then Some (hit Gt)
  else if String.eqb operator ">=" then Some (hit Gt || hit Eq)
  else if String.eqb operator "<" then Some (hit Lt)
  else if String.eqb operator "<=" then Some (hit Lt || hit Eq)
  else None.

Definition drop_str (n : nat) (s : string) : string := String.substring n (String.length s - n) s.

Definition profile_condition `{JsonParser} (expression : string) (results : Map) : option bool :=
  '(operator, offset) ← first_operator expression;
  let path := trim (String.substring 0 offset expression) in
  let literal := trim (drop_str (offset + String.length operator) expression) in
  left ← profile_path (VObject results) path;
  right ← (match parse_json literal with Ok v => Some v | Err _ => None end);
  match as_f64 left, as_f64 right with
  | Some l, Some r => compare_numbers operator (SFcompare l r)
  | _, _ =>
    if String.eqb operator "==" then Some (value_eqb left right)
    else if String.eqb operator "!=" then Some (negb (value_eqb left right))
    else None
  end.

Fixpoint map_paths (root : Value) (mapping : Map) : option Map :=
  match mapping with
  | [] => Some []
  | (name, path) :: rest =>
    p ← as_str path; v ← profile_path root p; m ← map_paths root rest; Some (map_insert name v m)
  end.
Definition resolve_mapping (mapping results : Map) : option Map := map_paths (VObject results) mapping.

(** ** One orchestration *)

(** What a run records; the maps are sorted by key. *)
Record Transcript : Type := mkTranscript {
  tx_events : list string;
  tx_states : list (string * string);
  tx_attempts : list (string * Z);
  tx_results : Map;
  tx_mapped : Map
}.

Definition add_event (e : string) (t : Transcript) : Transcript :=
  mkTranscript (tx_events t ++ [e]) (tx_states t) (tx_attempts t) (tx_results t) (tx_mapped t).
Definition set_node_state (id state : string) (t : Transcript) : Transcript :=
  mkTranscript (tx_events t) (map_insert id state (tx_states t)) (tx_attempts t) (tx_results t) (tx_mapped t).
Definition set_attempts (id : string) (count : Z) (t : Transcript) : Transcript :=
  mkTranscript (tx_events t) (tx_states t) (map_insert id count (tx_attempts t)) (tx_results t) (tx_mapped t).
Definition set_result (id : string) (v : Value) (t : Transcript) : Transcript :=
  mkTranscript (tx_events t) (tx_states t) (tx_attempts t) (map_insert id v (tx_results t)) (tx_mapped t).
Definition set_mapped (id : string) (v : Value) (t : Transcript) : Transcript :=
  mkTranscript (tx_events t) (tx_states t) (tx_attempts t) (tx_results t) (map_insert id v (tx_mapped t)).

(** The answer, before it is written as JSON. *)
Record ProfileResult : Type := mkProfileResult {
  pr_events : list string;
  pr_state : string;
  pr_error : option string;
  pr_aggregate : Value;
  pr_states : list (string * string);
  pr_attempts : list (string * Z);
  pr_mapped : Map;
  pr_compensation : list string
}.

Definition build_result (r : ProfileResult) : Value :=
  VObject [("aggregate", pr_aggregate r);
    ("attempt_counts", VObject (map (fun kv => (fst kv, vnat (snd kv))) (pr_attempts r)));
    ("compensation_order", vstrings (pr_compensation r));
    ("error_code", match pr_error r with Some e => VString e | None => VNull end);
    ("events", vstrings (pr_events r));
    ("mapped_params", VObject (pr_mapped r));
    ("node_states", VObject (map (fun kv => (fst kv, VString (snd kv))) (pr_states r)));
    ("terminal_state", VString (pr_state r))].

Definition result_of (t : Transcript) (state : string) (error : option string) (aggregate : Value)
    (compensation : list string) : ProfileResult :=
  mkProfileResult (tx_events t) state error aggregate (tx_states t) (tx_attempts t) (tx_mapped t) compensation.

Definition empty_failure (error : string) : ProfileResult :=
  mkProfileResult ["task:failed"] "failed" (Some error) VNull [] [] [] [].

(** The loop over the scripted outcomes of a node: the number of attempts, the
    last error, and whether one succeeded. *)
Fixpoint attempt_loop (node : Value) (id : string) (max_retries : Z) (scripted index : Z) (count : Z)
    (final_error : option string) (outcomes : list Value) (t : Transcript) : Z * option string * bool * Transcript :=
  match outcomes with
  | [] => (count, final_error, false, t)
  | outcome :: rest =>
    let count := count + 1 in
    let t := add_event (id +:+ ":attempt:" +:+ fmt_Z count) t in
    let kind := default "" (str_value outcome "kind") in
    if String.eqb kind "success"
    then (count, final_error, true,
          add_event (id +:+ ":completed") (set_node_state id "completed"
            (set_result id (default (VObject []) (vget "result" outcome)) t)))
    else
      let error := if String.eqb kind "timeout" then DELEGATE_TIMEOUT
                   else default DELEGATE_REJECTED (str_value outcome "error_code") in
      let retryable := String.eqb kind "timeout" || bool_value outcome "retryable" false in
      let selected := match vget "retry_on" node ≫= as_array with
                      | None => true
                      | Some values => existsb (fun v => bool_decide (as_str v = Some error)) values
                      end in
      if retryable && selected && (count <=? max_retries) && (index + 1 <? scripted)
      then attempt_loop node id max_retries scripted (index + 1) count (Some error) rest
             (add_event (id +:+ ":retrying") t)
      else (count, Some error, false, add_event (id +:+ ":failed") (set_node_state id "failed" t))
  end.

(** *** Compensation *)

(** The ancestors of the failed node: a queue, each node entered once. *)
Fixpoint add_pending (deps : list string) (ancestors : gset string) (pending : list string)
    : gset string * list string :=
  match deps with
  | [] => (ancestors, pending)
  | d :: rest => if decide (d ∈ ancestors) then add_pending rest ancestors pending
                 else add_pending rest ({[d]} ∪ ancestors) (pending ++ [d])
  end.

Fixpoint ancestor_loop (fuel : nat) (nodes : list (string * Value)) (ancestors : gset string) (pending : list string)
    : option (gset string) :=
  match fuel with
  | O => None
  | S fuel =>
    match pending with
    | [] => Some ancestors
    | id :: pending =>
      let '(ancestors, pending) := add_pending (dependencies (node_of nodes id)) ancestors pending in
      ancestor_loop fuel nodes ancestors pending
    end
  end.

Definition has_action (nodes : list (string * Value)) (id : string) : bool := match vget "compensate_action" (node_of nodes id) with Some _ => true | None => false end.

Fixpoint compensate_candidates (strict : bool) (nodes : list (string * Value)) (candidates order : list string)
    (t : Transcript) : list string * option string * Transcript :=
  match candidates with
  | [] => (order, None, t)
  | id :: rest =>
    if negb (has_action nodes id) then compensate_candidates strict nodes rest order t
    else
      let order := order ++ [id] in
      let t := add_event (id +:+ ":compensating") t in
      if string_is (node_of nodes id) "compensation_outcome" "failure"
      then
        let t := add_event (id +:+ ":compensation_failed") (set_node_state id "compensation_failed" t) in
        if strict then (order, Some COMPENSATION_FAILED, t)
        else compensate_candidates strict nodes rest order t
      else compensate_candidates strict nodes rest order
             (add_event (id +:+ ":compensated") (set_node_state id "compensated" t))
  end.

Definition is_completed (t : Transcript) (id : string) : bool := bool_decide (map_get id (tx_states t) = Some "completed").

(** The order, the error and the transcript of the compensation of a failure. *)
Definition profile_compensate (task : Value) (failed_id : string) (topo : list string) (nodes : list (string * Value))
    (t : Transcript) : option (list string * option string * Transcript) :=
  let best_effort := string_is task "compensation_policy" "best_effort" in
  let strict := string_is task "compensation_policy" "strict" in
  if negb (best_effort || strict) then Some ([], None, t)
  else
    ancestors ← ancestor_loop (S (S (length nodes))) nodes ∅ [failed_id];
    let candidates := List.filter (fun id => bool_decide (id ∈ ancestors) && is_completed t id) (rev topo) in
    if strict && existsb (fun id => negb (has_action nodes id)) candidates
    then Some ([], Some COMPENSATION_NOT_SUPPORTED, t)
    else Some (compensate_candidates strict nodes candidates [] t).

(** *** The nodes in order *)

Section orchestration.
Context `{JsonParser}.
Context (task : Value) (topo : list string) (nodes : list (string * Value)).

(** How a node ends: the run goes on, or the task has its answer. *)
Inductive Step : Type :=
| Next (t : Transcript)
| Stop (r : ProfileResult).

Definition stop_failed (error : string) (id : string) (t : Transcript) : Step :=
  Stop (result_of (add_event "task:failed" (add_event (id +:+ ":failed") (set_attempts id 0 (set_node_state id "failed" t))))
          "failed" (Some error) VNull []).

(** The attempts of a node and, if none succeeds, the compensation. *)
Definition execute_scripted (id : string) (node : Value) (t : Transcript) : option Step :=
  let max_retries := usize_value node "max_retries" (usize_value task "max_retries" 0) in
  let scripted := array_value node "attempts" in
  if u64_max <? max_retries + 1 then None
  else
    let '(count, final_error, completed, t) :=
      attempt_loop node id max_retries (Z.of_nat (length scripted)) 0 0 None
        (take (Z.to_nat (Z.min (max_retries + 1) (Z.of_nat (length scripted)))) scripted) t in
    let t := set_attempts id count t in
    if completed : bool then Some (Next t)
    else
      '(order, error, t) ← profile_compensate task id topo nodes t;
      Some (Stop (result_of (add_event "task:failed" t) "failed"
                    (Some (default (default DELEGATE_REJECTED final_error) error)) VNull order)).

Definition run_node (id : string) (t : Transcript) : option Step :=
  let node := node_of nodes id in
  if string_is task "cancel_before" id
  then Some (Stop (result_of (add_event "task:cancelled" t) "cancelled" (Some TASK_CANCELLED) VNull []))
  else
    match (match str_value node "condition" with
           | Some condition => profile_condition condition (tx_results t)
           | None => Some true
           end) with
    | Some false => Some (Next (add_event (id +:+ ":skipped") (set_attempts id 0 (set_node_state id "skipped" t))))
    | None => Some (stop_failed CONDITION_EVAL_ERROR id t)
    | Some true =>
      match vget "input_mapping" node ≫= as_object with
      | None => execute_scripted id node t
      | Some mapping =>
        match resolve_mapping mapping (tx_results t) with
        | None => Some (stop_failed INPUT_MAPPING_ERROR id t)
        | Some parameters => execute_scripted id node (set_mapped id (VObject parameters) t)
        end
      end
    end.

Fixpoint run_topology (ids : list string) (t : Transcript) : option Step :=
  match ids with
  | [] => Some (Next t)
  | id :: rest =>
    s ← run_node id t;
    match s with Next t => run_topology rest t | Stop r => Some (Stop r) end
  end.
End orchestration.

(** *** Aggregation *)

Definition merge_entry (merge_all : bool) (output : Map) (kv : string * Value) : Map :=
  match map_get (fst kv) output, snd kv with
  | Some (VArray existing), VArray incoming =>
    if merge_all then map_insert (fst kv) (VArray (existing ++ incoming)) output
    else map_insert (fst kv) (snd kv) output
  | _, v => map_insert (fst kv) v output
  end.

Definition aggregate_results (task : Value) (topo : list string) (nodes : list (string * Value)) (t : Transcript) : Value :=
  let has_outgoing := concat (map (fun kv => dependencies (snd kv)) nodes) in
  let values := omap (fun id => if existsb (String.eqb id) has_outgoing || negb (is_completed t id) then None
                                else map_get id (tx_results t)) topo in
  match values with
  | [] => VNull
  | _ =>
    if string_is task "aggregate" "all" then VArray values
    else VObject (fold_left (fun output v => match v with
                               | VObject object => fold_left (merge_entry (string_is task "aggregate" "merge_all")) object output
                               | _ => output
                               end) values [])
  end.

(** The nodes by their identifiers; [None] for a node without one, or two of one. *)
Fixpoint collect_nodes (raw : list Value) (nodes : list (string * Value)) : option (list (string * Value)) :=
  match raw with
  | [] => Some nodes
  | node :: rest =>
    id ← str_value node "id";
    if map_contains id nodes then None else collect_nodes rest (map_insert id node nodes)
  end.

Definition start_transcript : Transcript := mkTranscript [] [] [] [] [].

(** [None] is the overflow of a retry count. *)
Definition orchestrate `{JsonParser} (task : Value) : option ProfileResult :=
  match (o ← as_object task; raw ← map_get "nodes" o ≫= as_array; collect_nodes raw []) with
  | None => Some (empty_failure TASK_DAG_INVALID)
  | Some nodes =>
    match stable_topology nodes with
    | None => Some (empty_failure TASK_DAG_CYCLE)
    | Some topo =>
      let preflight := bool_value task "preflight" false in
      let t := if preflight then add_event "task:preflight" start_transcript else start_transcript in
      if preflight && existsb (fun id => negb (bool_value (node_of nodes id) "preflight_available" true)) topo
      then Some (result_of (add_event "task:failed" t) "failed" (Some RESOURCE_INSUFFICIENT) VNull [])
      else
        s ← run_topology task topo nodes topo (add_event "task:running" t);
        match s with
        | Stop r => Some r
        | Next t => Some (result_of (add_event "task:completed" t) "completed" None
                            (aggregate_results task topo nodes t) [])
        end
    end
  end.

Definition evaluate_orchestration `{JsonParser} (task : Value) : option Value := build_result <$> orchestrate task.

(** ** The vectors of the runtime *)

Definition null_or (b : bool) (error : string) : Value := if b then VNull else VString error.

(** *** Callbacks *)

(** What [reqwest::Url] says of a text it accepts. *)
Record UrlParts : Type := mkUrlParts {
  url_scheme : string; url_username : string; url_password : option string; url_host : option string }.
Class UrlParser : Type := { url_parse : string -> option UrlParts }.

Definition is_public_ip (address : IpAddr) : bool :=
  match address with
  | V4 [a; b; c; d] =>
    negb ((a =? 10) || ((a =? 172) && (16 <=? b) && (b <=? 31)) || ((a =? 192) && (b =? 168)))
    && negb (a =? 127)
    && negb ((a =? 169) && (b =? 254))
    && negb ((224 <=? a) && (a <=? 239))
    && negb ((a =? 0) && (b =? 0) && (c =? 0) && (d =? 0))
    && negb ((a =? 255) && (b =? 255) && (c =? 255) && (d =? 255))
  | V4 _ => false
  | V6 seg =>
    let s0 := nth 0 seg 0 in
    negb (bool_decide (seg = [0; 0; 0; 0; 0; 0; 0; 1]))
    && negb (Z.land s0 0xffc0 =? 0xfe80)
    && negb (Z.land s0 0xfe00 =? 0xfc00)
    && negb (Z.land s0 0xff00 =? 0xff00)
    && negb (bool_decide (seg = [0; 0; 0; 0; 0; 0; 0; 0]))
  end.

Definition public_address (v : Value) : bool :=
  match as_str v ≫= parse_ip with Some ip => is_public_ip ip | None => false end.

Section runtime.
Context {D : Digests} {B64 : Base64} {U : UrlParser}.

Definition callback_allowed (value : string) (addresses : option (list Value)) : bool :=
  match url_parse value with
  | None => false
  | Some url =>
    if negb (String.eqb (url_scheme url) "https") || negb (is_empty (url_username url))
       || bool_decide (url_password url <> None) || bool_decide (url_host url = None)
    then false
    else match addresses with
         | None | Some [] => false
         | Some addresses => forallb public_address addresses
         end
  end.

Definition callback_decision (input : Value) : bool :=
  let allowed := callback_allowed (default "" (str_value input "url")) (vget "resolved_ips" input ≫= as_array) in
  if allowed
  then match str_value input "redirect_url" with
       | Some redirect => callback_allowed redirect (vget "redirect_resolved_ips" input ≫= as_array)
       | None => true
       end
  else false.

Definition evaluate_callback (input : Value) : Value :=
  let allowed := callback_decision input in
  VObject [("allowed", VBool allowed); ("error", null_or allowed CALLBACK_INVALID)].

(** *** Callback signatures *)

(** HMAC-SHA256 of a 32-byte key. *)
Context (hmac_sha256 : list Z -> list Z -> list Z).

Definition xor_fold (a b : list Z) : Z := fold_left (fun acc xy => Z.lor acc (Z.lxor (fst xy) (snd xy))) (combine a b) 0.

Definition hmac_valid (secret_base64url raw_body signature : string) : bool :=
  match b64_url_no_pad secret_base64url with
  | Err _ => false
  | Ok key =>
    if negb (length key =? 32)%nat then false
    else
      let expected := "sha256=" +:+ hex_encode (hmac_sha256 key (bytes_of raw_body)) in
      (length (bytes_of expected) =? length (bytes_of signature))%nat
      && (xor_fold (bytes_of expected) (bytes_of signature) =? 0)
  end.

Definition evaluate_hmac (input : Value) : Value :=
  match str_value input "signature" with
  | None => VObject [("error", VString CALLBACK_HMAC_MISSING); ("valid", VBool false)]
  | Some signature =>
    let valid := hmac_valid (default "" (str_value input "secret_base64url"))
                   (default "" (str_value input "raw_body")) signature in
    VObject [("error", null_or valid CALLBACK_HMAC_INVALID); ("valid", VBool valid)]
  end.

(** *** Leases *)

Record Lease : Type := mkLease { runner_nid : string; expires_at : Z }.

Definition nul : string := String.String (ascii_of 0) "".
Definition terminal_key (event : Value) : string :=
  default "" (str_value event "dedup_key") +:+ nul +:+ default "" (str_value event "node_id").

Record LeaseState : Type := mkLeases { leases : gmap string Lease; terminal : gset string }.
Definition leases_new : LeaseState := mkLeases ∅ ∅.

Definition lease_seconds (event : Value) : Z := Z.min 600 (Z.max 10 (i64_value event "lease_seconds" 10)).

Definition live_lease (task_id : string) (at_ : Z) (s : LeaseState) : option Lease :=
  l ← leases s !! task_id; if at_ <? expires_at l then Some l else None.

Definition grant (task_id runner : string) (expiry : Z) (s : LeaseState) : LeaseState :=
  mkLeases (<[task_id := mkLease runner expiry]> (leases s)) (terminal s).

(** [at + seconds]; an overflow is a panic. *)
Definition expiry (at_ seconds : Z) : option Z := if i64_max <? at_ + seconds then None else Some (at_ + seconds).

Definition lease_claim (task_id runner : string) (at_ seconds : Z) (s : LeaseState) : option (string * LeaseState) :=
  match live_lease task_id at_ s with
  | Some l =>
    if String.eqb (runner_nid l) runner
    then e ← expiry at_ seconds; Some ("granted", grant task_id runner e s)
    else Some ("conflict", s)
  | None =>
    e ← expiry at_ seconds;
    Some (match leases s !! task_id with Some _ => "reclaimed" | None => "granted" end, grant task_id runner e s)
  end.

Definition lease_renew (task_id runner : string) (at_ seconds : Z) (s : LeaseState) : option (string * LeaseState) :=
  match live_lease task_id at_ s with
  | Some l =>
    if String.eqb (runner_nid l) runner
    then e ← expiry at_ seconds; Some ("granted", grant task_id runner e s)
    else Some ("conflict", s)
  | None => Some ("conflict", s)
  end.

(** One event: what it adds to the outcomes. *)
Definition lease_event (event : Value) (s : LeaseState) : option (option string * LeaseState) :=
  let at_ := i64_value event "at" 0 in
  let op := default "" (str_value event "op") in
  let task_id := default "" (str_value event "task_id") in
  let runner := default "" (str_value event "runner_nid") in
  if String.eqb op "claim" then '(o, s) ← lease_claim task_id runner at_ (lease_seconds event) s; Some (Some o, s)
  else if String.eqb op "renew" then '(o, s) ← lease_renew task_id runner at_ (lease_seconds event) s; Some (Some o, s)
  else if String.eqb op "mark_terminal"
  then Some (Some "recorded", mkLeases (leases s) ({[terminal_key event]} ∪ terminal s))
  else if String.eqb op "is_terminal"
  then Some (Some (if decide (terminal_key event ∈ terminal s) then "terminal" else "pending"), s)
  else Some (None, s).

Fixpoint lease_events (events : list Value) (s : LeaseState) : option (list string * LeaseState) :=
  match events with
  | [] => Some ([], s)
  | e :: rest =>
    '(o, s) ← lease_event e s;
    '(os, s) ← lease_events rest s;
    Some (option_list o ++ os, s)
  end.

Definition evaluate_lease (input : Value) : option Value :=
  '(outcomes, _) ← lease_events (array_value input "events") leases_new;
  Some (VObject [("outcomes", vstrings outcomes)]).

(** *** Delegation *)

Definition string_set (v : Value) (key : string) : gset string := list_to_set (strings_of (array_value v key)).

Definition scope_subset (parent delegated : Value) : bool :=
  bool_decide (string_set delegated "nodes" ⊆ string_set parent "nodes")
  && bool_decide (string_set delegated "actions" ⊆ string_set parent "actions")
  && (default u64_max (vget "max_token_budget" delegated ≫= as_u64)
        <=? default 0 (vget "max_token_budget" parent ≫= as_u64)).

Definition epoch_of (candidate : Value) : option Z := vget "cluster_epoch" candidate ≫= as_u64.

Definition max_epoch (l : list Z) : option Z :=
  fold_right (fun x m => Some (match m with Some y => Z.max x y | None => x end)) None l.

(** The target of one attempt, or the error. *)
Definition pick_target (attempt : Value) : result string string :=
  let live := List.filter (fun c => bool_value c "live" false) (array_value attempt "candidates") in
  match max_epoch (omap epoch_of live) with
  | None => Err DELEGATE_REJECTED
  | Some highest =>
    match List.filter (fun c => bool_decide (epoch_of c = Some highest)) live with
    | [leader] => Ok (default "" (str_value leader "nid"))
    | _ => Err PROFILE_CLUSTER_SPLIT
    end
  end.

Fixpoint pick_targets (attempts : list Value) (targets : list string) : list string * option string :=
  match attempts with
  | [] => (targets, None)
  | a :: rest =>
    match pick_target a with
    | Ok t => pick_targets rest (targets ++ [t])
    | Err e => (targets, Some e)
    end
  end.

Definition delegate (input : Value) : list string * option string :=
  let parent := default VNull (vget "parent_scope" input) in
  let delegated := default VNull (vget "delegated_scope" input) in
  if negb (scope_subset parent delegated) then ([], Some DELEGATE_SCOPE_VIOLATION)
  else pick_targets (array_value input "attempts") [].

Definition evaluate_delegation (input : Value) : Value :=
  let '(targets, error) := delegate input in
  VObject [("error", match error with Some e => VString e | None => VNull end); ("targets", vstrings targets)].

(** *** Spawn specifications and lifecycles *)

Definition evaluate_spawn_spec (input : Value) : Value :=
  let spec := default VNull (vget "spawn_spec" input) in
  let valid := match str_value spec "image" with Some image => negb (is_empty (trim image)) | None => false end in
  let valid := if valid
               then match vget "idle_timeout_seconds" spec ≫= as_u64, vget "max_runtime_seconds" spec ≫= as_u64 with
                    | Some idle, Some maximum => idle <=? maximum
                    | _, _ => true
                    end
               else false in
  VObject [("error", null_or valid SPAWN_SPEC_INVALID)].

Definition lifecycle (state : string) (error : Value) : Value := VObject [("error", error); ("state", VString state)].

Definition evaluate_lifecycle (input : Value) : Value :=
  if i64_value input "max_runtime_seconds" 0 <=? i64_value input "elapsed_seconds" 0
  then lifecycle "failed" (VString RUNTIME_MAX_RUNTIME)
  else if i64_value input "idle_timeout_seconds" 0 <=? i64_value input "idle_seconds" 0
  then lifecycle "failed" (VString RUNTIME_IDLE_TIMEOUT)
  else if string_is input "worker_terminal" "done" then lifecycle "completed" VNull
  else lifecycle "failed" (VString DELEGATE_REJECTED).

Definition compute_dedup_key (task_id dag_hash : string) : string :=
  hex_encode (sha256 (bytes_of task_id ++ [0] ++ bytes_of dag_hash)).

(** [None] is a panic: an unknown category, or one of a lease. *)
Definition evaluate_runtime (category : string) (input : Value) : option Value :=
  if String.eqb category "callback" then Some (evaluate_callback input)
  else if String.eqb category "hmac" then Some (evaluate_hmac input)
  else if String.eqb category "lease" then evaluate_lease input
  else if String.eqb category "delegation" then Some (evaluate_delegation input)
  else if String.eqb category "spawn_spec" then Some (evaluate_spawn_spec input)
  else if String.eqb category "lifecycle" then Some (evaluate_lifecycle input)
  else if String.eqb category "dedup_key"
  then Some (VObject [("value", VString (compute_dedup_key (default "" (str_value input "task_id"))
                                           (default "" (str_value input "dag_hash"))))])
  else None.
End runtime.
