(* ===== verification/NopProfileSpec.v ===== *)
(** * NopProfileSpec: the portable profile is deterministic and well ordered

    The topology is the least topological order; a run executes it in order,
    stops at the first failure and compensates in reverse; leases exclude each
    other; a delegation stays within its scope. *)

From S2P Require Import Prelude RustStr Floats Json CoreFrames CoreCache NopModels NopDag NopCallback NipDer NopProfile.
Local Open Scope Z_scope.

(** ** The topology *)

Definition node_edges (kv : string * Value) : list DagEdge :=
  map (fun d => mkDagEdge d (fst kv)) (dependencies (snd kv)).
Definition profile_edges (nodes : list (string * Value)) : list DagEdge := concat (map node_edges nodes).

Lemma add_edges_app ids a b adj deg :
  add_edges ids (a ++ b) adj deg =
  match add_edges ids a adj deg with inl e => inl e | inr (adj, deg) => add_edges ids b adj deg end.
Proof.
  revert adj deg. induction a as [|e a IH]; intros adj deg; [done |]. cbn [app add_edges].
  destruct (negb _); [done |]. by destruct (negb _).
Qed.

Lemma map_contains_In {V} k (m : list (string * V)) : map_contains k m = true <-> k ∈ map fst m.
Proof.
  unfold map_contains. rewrite list_elem_of_In. induction m as [|[k' v] m IH]; [split; [done | by intros []] |].
  cbn. destruct (String.eqb_spec k k') as [->|Hne]; [split; auto |]. rewrite IH. naive_solver.
Qed.

Section topology.
Context (known : list (string * Value)).
Notation ids := (list_to_set (keys_of known) : gset string).

Lemma add_dependencies_edges id deps deg adj : id ∈ ids ->
  add_dependencies known id deps deg adj =
  match add_edges ids (map (fun d => mkDagEdge d id) deps) adj deg with
  | inl _ => None
  | inr (adj, deg) => Some (deg, adj)
  end.
Proof.
  intros Hid. revert deg adj. induction deps as [|d deps IH]; intros deg adj; [done |].
  cbn [add_dependencies map add_edges e_from e_to].
  assert (Hd : map_contains d known = bool_decide (d ∈ ids)).
  { apply eq_bool_prop_intro. rewrite !Is_true_true, map_contains_In, bool_decide_eq_true.
    unfold keys_of. by rewrite elem_of_list_to_set. }
  rewrite Hd. destruct (bool_decide (d ∈ ids)); cbn [negb]; [|done].
  rewrite bool_decide_true by done. apply IH.
Qed.

Lemma add_nodes_edges nodes deg adj : (forall id, id ∈ keys_of nodes -> id ∈ ids) ->
  add_nodes known nodes deg adj =
  match add_edges ids (profile_edges nodes) adj deg with inl _ => None | inr (adj, deg) => Some (deg, adj) end.
Proof.
  revert deg adj. induction nodes as [|[id node] nodes IH]; intros deg adj Hin; [done |].
  unfold profile_edges. cbn [add_nodes map concat]. fold (profile_edges nodes).
  rewrite add_edges_app, add_dependencies_edges by (apply Hin; left).
  unfold node_edges at 1. cbn [fst snd].
  destruct (add_edges ids (map _ (dependencies node)) adj deg) as [|[adj1 deg1]]; [done |]. cbn.
  apply IH. intros x Hx. apply Hin. by right.
Qed.
End topology.

(** *** Sorted sets *)

Lemma set_insert_elem s l x : x ∈ set_insert s l <-> x = s \/ x ∈ l.
Proof.
  induction l as [|y l IH]; cbn [set_insert]; [set_solver |].
  destruct (String.compare s y) eqn:E.
  - apply String.compare_eq_iff in E as ->. set_solver.
  - set_solver.
  - rewrite !elem_of_cons, IH. naive_solver.
Qed.

(** Strictly increasing. *)
Definition str_lt (a b : string) : Prop := String.compare a b = Lt.
Definition increasing (l : list string) : Prop := StronglySorted str_lt l.

Lemma str_lt_trans a b c : str_lt a b -> str_lt b c -> str_lt a c.
Proof. unfold str_lt. intros H1 H2. by eapply compare_trans. Qed.

Lemma str_lt_flip a b : String.compare a b = Gt -> str_lt b a.
Proof. unfold str_lt. rewrite String.compare_antisym. by destruct (String.compare b a). Qed.

Lemma str_lt_irrefl a : ~ str_lt a a.
Proof. unfold str_lt. by rewrite compare_refl. Qed.

Lemma set_insert_increasing s l : increasing l -> increasing (set_insert s l).
Proof.
  unfold increasing. induction 1 as [|y l Hl IH Hf]; cbn [set_insert]; [by repeat constructor |].
  destruct (String.compare s y) eqn:E.
  - by constructor.
  - constructor; [by constructor |]. constructor; [done |].
    eapply Forall_impl; [exact Hf |]. intros z Hz. by eapply str_lt_trans.
  - constructor; [done |]. apply Forall_forall. intros z Hz.
    apply set_insert_elem in Hz as [->|Hz]; [by apply str_lt_flip |]. rewrite Forall_forall in Hf. by apply Hf.
Qed.

Lemma set_insert_perm s l : s ∉ l -> set_insert s l ≡ₚ s :: l.
Proof.
  induction l as [|y l IH]; intros Hs; [done |]. cbn [set_insert].
  destruct (String.compare s y) eqn:E.
  - apply String.compare_eq_iff in E as ->. destruct Hs. left.
  - done.
  - rewrite IH by set_solver. apply Permutation_swap.
Qed.

Definition insert_all (q ready : list string) : list string := fold_left (fun r x => set_insert x r) q ready.

Lemma insert_all_perm q : forall ready, NoDup (ready ++ q) -> insert_all q ready ≡ₚ ready ++ q.
Proof.
  induction q as [|x q IH]; intros ready Hnd; cbn; [by rewrite app_nil_r |].
  assert (Hp : set_insert x ready ++ q ≡ₚ ready ++ x :: q).
  { rewrite set_insert_perm; [|apply NoDup_app in Hnd as (_ & Hd & _); intros Hx; apply (Hd x Hx); left].
    by rewrite <- Permutation_middle. }
  rewrite IH; [done |]. by rewrite Hp.
Qed.

Lemma insert_all_increasing q : forall ready, increasing ready -> increasing (insert_all q ready).
Proof. induction q as [|x q IH]; intros ready H; [done |]. apply IH. by apply set_insert_increasing. Qed.

(** *** The loop *)

Lemma release_visit ns : forall rem queue ready,
  release_dependents ns rem (insert_all queue ready) =
  '(rem', q) ← visit_neighbors ns rem queue; Some (rem', insert_all q ready).
Proof.
  induction ns as [|n ns IH]; intros rem queue ready; [done |].
  cbn [release_dependents visit_neighbors]. destruct (rem !! n) as [d|]; [|done]. cbn [mbind option_bind].
  rewrite <- IH. f_equal. destruct (d - 1 =? 0); [|done].
  unfold insert_all. by rewrite fold_left_app.
Qed.

Lemma occ_perm v a b : a ≡ₚ b -> occ v a = occ v b.
Proof. induction 1; cbn; lia. Qed.

Lemma kahn_inv_perm ids edges rem q q' sorted : q ≡ₚ q' ->
  kahn_inv ids edges rem q sorted -> kahn_inv ids edges rem q' sorted.
Proof.
  intros Hp [H1 H2 H3 H4 H5]. constructor; [done | done | | | done].
  - by rewrite <- Hp.
  - intros v. by rewrite <- Hp.
Qed.

(** Every element is the least of those that could have come in its place. *)
Definition least_first (ids : gset string) (edges : list DagEdge) (order : list string) : Prop :=
  forall l1 v l2, order = l1 ++ v :: l2 ->
  forall w, w ∈ ids -> w ∉ l1 -> (forall u, edge edges u w -> u ∈ l1) -> w = v \/ str_lt v w.

Lemma least_first_snoc ids edges rem c ready sorted : increasing (c :: ready) ->
  kahn_inv ids edges rem (c :: ready) sorted -> least_first ids edges sorted -> least_first ids edges (sorted ++ [c]).
Proof.
  intros Hinc [_ _ _ Hready _] Hl l1 v l2 E w Hw Hn Hu.
  destruct l2 as [|x l2 _] using rev_ind.
  - apply app_inj_tail in E as [<- <-].
    assert (Hin : w ∈ sorted ++ c :: ready) by (apply Hready; split; [done |]; by apply pend_zero).
    apply elem_of_app in Hin as [Hin|Hin]; [done |]. apply elem_of_cons in Hin as [->|Hin]; [by left | right].
    apply StronglySorted_inv in Hinc as [_ Hf]. rewrite Forall_forall in Hf. by apply Hf.
  - change (v :: l2 ++ [x]) with ((v :: l2) ++ [x]) in E. rewrite app_assoc in E.
    apply app_inj_tail in E as [E _]. by eapply Hl.
Qed.

Lemma topology_loop_spec ids edges adj fuel : forall rem ready sorted,
  (forall e, e ∈ edges -> e_from e ∈ ids /\ e_to e ∈ ids) ->
  (forall u, u ∈ ids -> adj !! u = Some (outs edges u)) ->
  kahn_inv ids edges rem ready sorted -> increasing ready -> least_first ids edges sorted ->
  (size ids < fuel + length sorted)%nat ->
  exists order, topology_loop fuel adj rem ready sorted = Some order /\
    NoDup order /\ topological edges order /\ least_first ids edges order /\
    forall v, v ∈ order <-> v ∈ ids /\ pend edges order v = 0.
Proof.
  induction fuel as [|fuel IH]; intros rem ready sorted Hedges Hadj Hinv Hinc Hleast Hfuel;
    pose proof Hinv as [Hrem Hdom Hnd Hready Htop].
  - exfalso. apply NoDup_app in Hnd as (Hnd & _ & _).
    assert (Hs : sorted ⊆+ elements ids).
    { apply NoDup_submseteq; [done |]. intros v Hv. apply elem_of_elements, Hready. set_solver. }
    apply submseteq_length in Hs. unfold size, set_size in Hfuel. cbn in Hfuel. lia.
  - cbn [topology_loop]. destruct ready as [|c ready].
    { exists sorted. rewrite app_nil_r in Hnd, Hready. done. }
    assert (Hc : c ∈ ids) by (apply Hready; set_solver).
    rewrite (Hadj c Hc). cbn [mbind option_bind].
    assert (Hcs : c ∉ sorted) by (apply NoDup_app in Hnd as (_ & Hd & _); intros Hin; apply (Hd c Hin); left).
    pose proof (merge_sort_Permutation str_le (outs edges c)) as Hp.
    destruct (visit_neighbors_spec (merge_sort str_le (outs edges c)) rem []) as (rem' & q & Hv & Hr & Hndq & Hq).
    + intros v Hv. rewrite Hp in Hv. apply outs_elem in Hv. apply Hedges in Hv as [_ Hv]. rewrite (Hrem v Hv). by eexists.
    + intros v d Hd. rewrite (Hrem v) in Hd by by eapply Hdom. injection Hd as <-.
      rewrite (occ_perm v _ _ Hp). pose proof (pend_step edges sorted c v Hcs).
      pose proof (pend_nonneg edges (sorted ++ [c]) v). lia.
    + pose proof (release_visit (merge_sort str_le (outs edges c)) rem [] ready) as Hrel.
      change (insert_all [] ready) with ready in Hrel. rewrite Hv in Hrel. cbn [mbind option_bind app] in Hrel.
      rewrite Hrel. cbn [mbind option_bind].
      assert (Hinv' : kahn_inv ids edges rem' (ready ++ q) (sorted ++ [c])).
      { eapply kahn_step; [done | exact Hinv | | done |].
        - intros v. by rewrite Hr, (occ_perm v _ _ Hp).
        - intros v. rewrite Hq, (occ_perm v _ _ Hp). by rewrite Hp. }
      assert (Hndr : NoDup (ready ++ q)) by (destruct Hinv' as [_ _ H _ _]; by apply NoDup_app in H as (_ & _ & ?)).
      apply IH; [done | done | | | |].
      * eapply kahn_inv_perm; [|exact Hinv']. symmetry. by apply insert_all_perm.
      * apply insert_all_increasing. by apply StronglySorted_inv in Hinc as [? _].
      * by eapply least_first_snoc.
      * rewrite length_app. cbn [length]. lia.
Qed.

(** *** The whole sort *)

(** A least topological order is the only one. *)
Lemma least_first_unique ids edges r1 : forall p r2,
  NoDup (p ++ r1) -> p ++ r1 ≡ₚ p ++ r2 -> (forall v, v ∈ p ++ r1 -> v ∈ ids) ->
  topological edges (p ++ r1) -> topological edges (p ++ r2) ->
  least_first ids edges (p ++ r1) -> least_first ids edges (p ++ r2) -> r1 = r2.
Proof.
  induction r1 as [|v r1 IH]; intros p r2 Hnd Hp Hin Ht1 Ht2 Hl1 Hl2.
  - apply Permutation_app_inv_l, Permutation_nil_l in Hp. by symmetry.
  - destruct r2 as [|w r2]; [by apply Permutation_app_inv_l, Permutation_nil_r in Hp |].
    assert (Hnd2 : NoDup (p ++ w :: r2)) by by rewrite <- Hp.
    assert (Hw : w ∈ p ++ v :: r1) by (rewrite Hp; set_solver).
    assert (E : v = w).
    { apply NoDup_app in Hnd as (_ & Hd1 & _), Hnd2 as (_ & Hd2 & _).
      destruct (Hl1 p v r1 eq_refl w) as [->|H1]; [by apply Hin | intros H; apply (Hd2 w H); left | by apply (Ht2 p w r2) | done |].
      destruct (Hl2 p w r2 eq_refl v) as [->|H2]; [apply Hin; set_solver | intros H; apply (Hd1 v H); left | by apply (Ht1 p v r1) | done |].
      destruct (str_lt_irrefl v). by eapply str_lt_trans. }
    subst w. f_equal. apply (IH (p ++ [v])); by rewrite <- ?app_assoc.
Qed.

Lemma size_keys nodes : NoDup (keys_of nodes) -> size (list_to_set (keys_of nodes) : gset string) = length nodes.
Proof. intros H. rewrite size_list_to_set by done. apply length_map. Qed.

(** The order of the loop, complete exactly when there is no cycle. *)
Lemma stable_topology_cases nodes : NoDup (keys_of nodes) ->
  let ids := list_to_set (keys_of nodes) : gset string in
  (stable_topology nodes = None /\ ~ (forall e, e ∈ profile_edges nodes -> e_from e ∈ ids /\ e_to e ∈ ids)) \/
  ((forall e, e ∈ profile_edges nodes -> e_from e ∈ ids /\ e_to e ∈ ids) /\
   exists order, NoDup order /\ topological (profile_edges nodes) order /\ least_first ids (profile_edges nodes) order /\
     (forall v, v ∈ order <-> v ∈ ids /\ pend (profile_edges nodes) order v = 0) /\
     stable_topology nodes = if (length order =? length nodes)%nat then Some order else None).
Proof.
  intros Hnd ids. unfold stable_topology. cbv zeta. fold ids.
  rewrite add_nodes_edges by (intros id Hid; by apply elem_of_list_to_set). fold ids.
  pose proof (add_edges_spec ids (profile_edges nodes) (gset_to_gmap [] ids) (gset_to_gmap 0 ids)) as He.
  destruct (add_edges _ _ _ _) as [msg|[adj deg]].
  { left. split; [done |]. destruct He as (e & He & Hno). naive_solver. }
  right. destruct He as (Hed & Hadj & Hdeg). split; [done |]. cbn [mbind option_bind].
  assert (Hd0 : forall v, v ∈ ids -> deg !! v = Some (pend (profile_edges nodes) [] v)).
  { intros v Hv. rewrite Hdeg, lookup_all by done. cbn. by rewrite pend_nil. }
  set (start := List.filter (fun id => bool_decide (deg !! id = Some 0)) (keys_of nodes)).
  assert (Hstart : forall v, v ∈ start <-> v ∈ ids /\ pend (profile_edges nodes) [] v = 0).
  { intros v. unfold start. rewrite list_elem_of_In, filter_In, <- list_elem_of_In, bool_decide_eq_true.
    unfold ids at 1. rewrite elem_of_list_to_set.
    split; intros [Hv Hz]; (split; [done |]); rewrite Hd0 in * by (by apply elem_of_list_to_set); congruence. }
  assert (Hnds : NoDup start) by (apply NoDup_ListNoDup, List.NoDup_filter, NoDup_ListNoDup; done).
  assert (Hsp : insert_all start [] ≡ₚ start) by (by apply insert_all_perm).
  destruct (topology_loop_spec ids (profile_edges nodes) adj (S (length nodes)) deg (insert_all start []) [])
    as (order & Hrun & Ho); [done | | | | | |].
  - intros u Hu. by rewrite Hadj, lookup_all.
  - eapply kahn_inv_perm; [symmetry; exact Hsp |]. constructor; [done | | done | done |].
    + intros v d Hv. rewrite Hdeg in Hv. destruct (gset_to_gmap 0 ids !! v) eqn:E; [|done].
      by apply lookup_gset_to_gmap_Some in E as [? _].
    + by intros [|? ?] ? ? ?.
  - apply insert_all_increasing. constructor.
  - by intros [|? ?] ? ? ?.
  - cbn [length]. unfold ids. rewrite size_keys by done. lia.
  - exists order. unfold insert_all in Hrun. rewrite Hrun. cbn [mbind option_bind]. tauto.
Qed.

(** A full topological order is exactly an order without a cycle. *)
Lemma full_order_acyclic (ids : gset string) edges order :
  (forall e, e ∈ edges -> e_from e ∈ ids /\ e_to e ∈ ids) -> topological edges order -> NoDup order ->
  (forall v, v ∈ order <-> v ∈ ids /\ pend edges order v = 0) ->
  acyclic edges <-> forall v, v ∈ ids -> v ∈ order.
Proof.
  intros Hed Ht Hnd Hin. split.
  - intros Ha v Hv. destruct (decide (v ∈ order)) as [|Hno]; [done |]. exfalso.
    destruct (cycle_exists (edge edges) (filter (fun v => v ∉ order) (elements ids))) as [c Hc]; [| |by apply (Ha c)].
    + intros Hnil. apply (not_elem_of_nil v). rewrite <- Hnil. apply list_elem_of_filter. split; [done |]. by apply elem_of_elements.
    + intros u [Huo Hu%elem_of_elements]%list_elem_of_filter.
      destruct (decide (Exists (fun e => e_to e = u /\ e_from e ∉ order) edges)) as [Hex|Hall].
      * apply Exists_exists in Hex as ([a b] & He & Hb & Hx). cbn in Hb, Hx. subst b. exists a. split; [|done].
        apply list_elem_of_filter. split; [done |]. apply elem_of_elements. by apply Hed in He as [? _].
      * destruct Huo. apply Hin. split; [done |]. apply pend_zero. intros a Ha'.
        destruct (decide (a ∈ order)); [done |]. destruct Hall. apply Exists_exists. by exists (mkDagEdge a u).
  - intros Hall. apply (topological_acyclic _ order); [done | done |]. intros e He. apply Hall. by apply Hed.
Qed.

Lemma profile_edges_to nodes e : e ∈ profile_edges nodes -> e_to e ∈ keys_of nodes.
Proof.
  unfold profile_edges, node_edges, keys_of. rewrite !list_elem_of_In, in_concat.
  intros (l & ([id node] & <- & Hin)%in_map_iff & (d & <- & _)%in_map_iff). cbn. by apply (in_map fst _ (id, node)).
Qed.

Lemma known_edges nodes :
  (forall e, e ∈ profile_edges nodes -> e_from e ∈ (list_to_set (keys_of nodes) : gset string) /\
     e_to e ∈ (list_to_set (keys_of nodes) : gset string)) <->
  (forall e, e ∈ profile_edges nodes -> e_from e ∈ keys_of nodes).
Proof.
  split; intros H e He; specialize (H e He).
  - rewrite !elem_of_list_to_set in H. by destruct H.
  - rewrite !elem_of_list_to_set. split; [done |]. by apply profile_edges_to.
Qed.

(** An order of the loop of full length is a permutation of the nodes. *)
Lemma full_order_perm nodes order : NoDup (keys_of nodes) -> NoDup order ->
  (forall v, v ∈ order -> v ∈ keys_of nodes) ->
  (length order = length nodes <-> order ≡ₚ keys_of nodes) /\
  ((forall v, v ∈ keys_of nodes -> v ∈ order) <-> order ≡ₚ keys_of nodes).
Proof.
  intros Hk Ho Hin. assert (Hs : order ⊆+ keys_of nodes) by by apply NoDup_submseteq.
  assert (Hl : length (keys_of nodes) = length nodes) by apply length_map.
  repeat split.
  - intros H. apply submseteq_length_Permutation; [done | lia].
  - intros H. apply Permutation_length in H. lia.
  - intros H. apply NoDup_Permutation; naive_solver.
  - intros H v. by rewrite H.
Qed.

(** C24: the deterministic order.  An order comes out exactly when it is a
    permutation of the nodes in which every node follows its dependencies and
    is the least, as text, of the nodes that could have stood in its place:
    there is one such order at most, and there is one when every dependency
    names a node and none depends on itself. *)
Theorem stable_topology_least nodes : NoDup (keys_of nodes) ->
  (forall order, stable_topology nodes = Some order <->
     order ≡ₚ keys_of nodes /\ topological (profile_edges nodes) order /\
     (forall e, e ∈ profile_edges nodes -> e_from e ∈ keys_of nodes) /\
     least_first (list_to_set (keys_of nodes)) (profile_edges nodes) order) /\
  (stable_topology nodes = None <->
     ~ ((forall e, e ∈ profile_edges nodes -> e_from e ∈ keys_of nodes) /\ acyclic (profile_edges nodes))).
Proof.
  intros Hnd. pose proof (stable_topology_cases nodes Hnd) as Hcase. cbv zeta in Hcase. rewrite known_edges in Hcase.
  destruct Hcase as [[E Hno]|[Hed (o & Hndo & Ht & Hl & Hin & E)]]; rewrite E.
  - split; [split; [done | tauto] | tauto].
  - pose proof (proj2 (known_edges nodes) Hed) as Hed'.
    assert (Hino : forall v, v ∈ o -> v ∈ keys_of nodes)
      by (intros v Hv; apply Hin in Hv as [Hv _]; by apply elem_of_list_to_set in Hv).
    destruct (full_order_perm nodes o Hnd Hndo Hino) as [Hlen Hall].
    pose proof (full_order_acyclic _ _ _ Hed' Ht Hndo Hin) as Hac. setoid_rewrite elem_of_list_to_set in Hac.
    destruct (length o =? length nodes)%nat eqn:El; cmp_hyps.
    + assert (Hp : o ≡ₚ keys_of nodes) by (by apply Hlen). split.
      * intros order. split; [intros [= <-]; tauto |]. intros (Hp' & Ht' & _ & Hl'). f_equal.
        apply (least_first_unique (list_to_set (keys_of nodes)) (profile_edges nodes) o [] order);
          [done | by rewrite Hp, Hp' | | done | done | done | done].
        intros v Hv. apply elem_of_list_to_set. by apply Hino.
      * split; [done |]. intros H. destruct H. split; [done |]. apply Hac. by apply Hall.
    + split.
      * intros order. split; [done |]. intros (Hp' & Ht' & _ & _). destruct El. apply Hlen, Hall, Hac.
        apply (topological_acyclic _ order); [by rewrite Hp' | done |]. intros e He. rewrite Hp'. by apply profile_edges_to.
      * split; [|done]. intros _ [_ Ha]. apply El. by apply Hlen, Hall, Hac.
Qed.

(** ** Compensation *)

(** [depends nodes a b]: [b] names [a] among its dependencies. *)
Definition depends (nodes : list (string * Value)) (a b : string) : Prop := a ∈ dependencies (node_of nodes b).

Lemma map_get_known {V} (m : list (string * V)) k v : NoDup (map fst m) -> (k, v) ∈ m -> map_get k m = Some v.
Proof.
  induction m as [|[k' v'] m IH]; cbn; intros Hnd Hin; [by apply elem_of_nil in Hin |].
  apply NoDup_cons in Hnd as [Hno Hnd]. apply elem_of_cons in Hin as [[= -> ->]|Hin]; [by rewrite String.eqb_refl |].
  destruct (String.eqb_spec k k') as [->|]; [|by apply IH].
  destruct Hno. apply list_elem_of_In, (in_map fst _ (k', v)). by apply list_elem_of_In.
Qed.

Lemma depends_edge nodes a b : NoDup (keys_of nodes) -> depends nodes a b <-> edge (profile_edges nodes) a b.
Proof.
  intros Hnd. unfold depends, edge, profile_edges, node_of. rewrite list_elem_of_In, list_elem_of_In, in_concat. split.
  - intros Ha. destruct (map_get b nodes) as [node|] eqn:E; [|done]. apply map_get_In in E.
    exists (node_edges (b, node)). split; [by apply in_map |]. by apply (in_map (fun d => mkDagEdge d b)).
  - intros (l & ([id node] & <- & Hin)%in_map_iff & (d & [= -> <-] & Hd)%in_map_iff).
    by rewrite (map_get_known nodes id node) by (first [done | by apply list_elem_of_In]).
Qed.

Lemma add_pending_spec deps : forall ancestors pending,
  exists new, add_pending deps ancestors pending = (ancestors ∪ list_to_set deps, pending ++ new) /\
    size (ancestors ∪ list_to_set deps : gset string) = (size ancestors + length new)%nat /\
    (forall d, d ∈ new -> d ∈ deps) /\ (forall d, d ∈ deps -> d ∈ ancestors \/ d ∈ new).
Proof.
  induction deps as [|d deps IH]; intros ancestors pending; cbn [add_pending list_to_set].
  - exists []. rewrite app_nil_r, union_empty_r_L. set_solver by lia.
  - case_decide as Hd.
    + destruct (IH ancestors pending) as (new & E & Hs & Hn & Hi). exists new.
      replace (ancestors ∪ ({[d]} ∪ list_to_set deps)) with (ancestors ∪ list_to_set deps) by set_solver.
      split; [done |]. set_solver.
    + destruct (IH ({[d]} ∪ ancestors) (pending ++ [d])) as (new & E & Hs & Hn & Hi). exists (d :: new).
      replace (ancestors ∪ ({[d]} ∪ list_to_set deps)) with ({[d]} ∪ ancestors ∪ list_to_set deps) by set_solver.
      split; [by rewrite E, <- app_assoc |]. split; [|set_solver].
      rewrite Hs, size_union by set_solver. rewrite size_singleton. cbn [length]. lia.
Qed.

(** The nodes reached so far, those still to look at, and what is left to find. *)
Record ancestors_inv (nodes : list (string * Value)) (failed : string) (ancestors : gset string) (pending : list string) : Prop := {
  ai_sound : forall a, a ∈ ancestors -> tc (depends nodes) a failed;
  ai_pending : forall p, p ∈ pending -> p = failed \/ p ∈ ancestors;
  ai_closed : forall b, b = failed \/ b ∈ ancestors -> b ∉ pending -> forall a, depends nodes a b -> a ∈ ancestors;
  ai_known : ancestors ⊆ list_to_set (keys_of nodes)
}.

Lemma ancestors_inv_step nodes failed ancestors id pending new :
  (forall a b, depends nodes a b -> a ∈ keys_of nodes) ->
  ancestors_inv nodes failed ancestors (id :: pending) ->
  (forall d, d ∈ new -> d ∈ dependencies (node_of nodes id)) ->
  (forall d, d ∈ dependencies (node_of nodes id) -> d ∈ ancestors \/ d ∈ new) ->
  ancestors_inv nodes failed (ancestors ∪ list_to_set (dependencies (node_of nodes id))) (pending ++ new).
Proof.
  intros Hknown [Hs Hp Hc Hk] Hn Hi. constructor.
  - intros a [Ha|Ha%elem_of_list_to_set]%elem_of_union; [by apply Hs |].
    destruct (Hp id) as [->|Hid]; [left | by apply tc_once | by eapply tc_l, Hs].
  - intros p Hpp. apply elem_of_app in Hpp as [Hpp|Hpp]; [|by right; apply elem_of_union_r, elem_of_list_to_set, Hn].
    destruct (Hp p) as [->|]; [by right | by left | right; set_solver].
  - intros b Hb Hnp a Ha. destruct (decide (b = id)) as [->|Hne]; [by apply elem_of_union_r, elem_of_list_to_set |].
    apply elem_of_union_l. apply (Hc b); [|set_solver | done].
    destruct Hb as [|[|Hb%elem_of_list_to_set]%elem_of_union]; [by left | by right |].
    destruct (Hi b Hb); [by right | set_solver].
  - apply union_subseteq. split; [done |]. intros d Hd%elem_of_list_to_set.
    apply elem_of_list_to_set. by eapply Hknown.
Qed.

(** Enough fuel: every node is entered once, the failed one perhaps twice. *)
Lemma ancestor_loop_spec nodes failed fuel : forall ancestors pending,
  NoDup (keys_of nodes) -> (forall a b, depends nodes a b -> a ∈ keys_of nodes) ->
  ancestors_inv nodes failed ancestors pending ->
  (length pending + length nodes < fuel + size ancestors)%nat ->
  exists found, ancestor_loop fuel nodes ancestors pending = Some found /\
    forall a, a ∈ found <-> tc (depends nodes) a failed.
Proof.
  induction fuel as [|fuel IH]; intros ancestors pending Hnd Hknown Hinv Hfuel;
    pose proof Hinv as [Hs Hp Hc Hk].
  - exfalso. apply subseteq_size in Hk. rewrite size_keys in Hk by done. lia.
  - cbn [ancestor_loop]. destruct pending as [|id pending].
    + exists ancestors. split; [done |]. intros a. split; [apply Hs |]. induction 1 as [a b Hab|a b c Hab _ IHt].
      * apply (Hc b); [by left | set_solver | done].
      * apply (Hc b); [right; by apply IHt | set_solver | done].
    + destruct (add_pending_spec (dependencies (node_of nodes id)) ancestors pending) as (new & -> & Hsz & Hn & Hi).
      apply IH; [done | done | by apply ancestors_inv_step |].
      rewrite length_app. cbn [length] in Hfuel. lia.
Qed.

Lemma ancestors_found nodes failed : NoDup (keys_of nodes) ->
  (forall a b, depends nodes a b -> a ∈ keys_of nodes) ->
  exists found, ancestor_loop (S (S (length nodes))) nodes ∅ [failed] = Some found /\
    forall a, a ∈ found <-> tc (depends nodes) a failed.
Proof.
  intros Hnd Hknown. apply ancestor_loop_spec; [done | done | | rewrite size_empty; cbn; lia].
  constructor; [set_solver | set_solver | | set_solver]. intros b [->|Hb]; [|set_solver]. intros Hn. destruct Hn. left.
Qed.

Definition fails (nodes : list (string * Value)) (id : string) : bool :=
  string_is (node_of nodes id) "compensation_outcome" "failure".

(** Up to and with the first failure. *)
Fixpoint until_failure (nodes : list (string * Value)) (l : list string) : list string :=
  match l with
  | [] => []
  | id :: rest => id :: if fails nodes id then [] else until_failure nodes rest
  end.

Definition undone (strict : bool) (nodes : list (string * Value)) (candidates : list string) : list string :=
  let l := List.filter (has_action nodes) candidates in if strict then until_failure nodes l else l.

Definition undo_state (nodes : list (string * Value)) (id : string) : string :=
  if fails nodes id then "compensation_failed" else "compensated".

(** A transcript that only says what was undone. *)
Record compensated_as (nodes : list (string * Value)) (done : list string) (t t' : Transcript) : Prop := {
  co_attempts : tx_attempts t' = tx_attempts t;
  co_results : tx_results t' = tx_results t;
  co_mapped : tx_mapped t' = tx_mapped t;
  co_states : forall v, map_get v (tx_states t') =
    if decide (v ∈ done) then Some (undo_state nodes v) else map_get v (tx_states t)
}.

Lemma compensated_none nodes t : compensated_as nodes [] t t.
Proof. constructor; [done | done | done |]. intros v. by rewrite decide_False by set_solver. Qed.

Lemma compensated_cons nodes id done t t' (events : list string) :
  compensated_as nodes done
    (mkTranscript events (map_insert id (undo_state nodes id) (tx_states t)) (tx_attempts t) (tx_results t) (tx_mapped t)) t' ->
  compensated_as nodes (id :: done) t t'.
Proof.
  intros [H1 H2 H3 H4]. constructor; [done | done | done |]. intros v. rewrite H4. cbn. rewrite map_get_insert.
  destruct (String.eqb_spec v id) as [->|Hne]; repeat case_decide; try done; set_solver.
Qed.

Lemma compensate_candidates_spec strict nodes candidates : forall order t,
  exists t', compensate_candidates strict nodes candidates order t =
      (order ++ undone strict nodes candidates,
       if strict && existsb (fails nodes) (List.filter (has_action nodes) candidates) then Some COMPENSATION_FAILED else None, t') /\
    compensated_as nodes (undone strict nodes candidates) t t'.
Proof.
  induction candidates as [|id rest IH]; intros order t.
  - exists t. unfold undone. cbn. rewrite andb_false_r. destruct strict; rewrite app_nil_r; split; try done; apply compensated_none.
  - cbn [compensate_candidates]. unfold undone. cbn [List.filter].
    destruct (has_action nodes id); cbn [negb]; [|apply IH].
    cbn [existsb until_failure]. fold (fails nodes id). destruct (fails nodes id) eqn:Ef.
    + destruct strict; cbn [andb orb].
      * eexists. split; [done |]. eapply compensated_cons. unfold undo_state. rewrite Ef. apply compensated_none.
      * edestruct IH as (t' & E & Hc). exists t'. rewrite E, <- app_assoc. split; [done |].
        eapply compensated_cons. unfold undo_state. rewrite Ef. exact Hc.
    + edestruct IH as (t' & E & Hc). exists t'. rewrite E, <- app_assoc. unfold undone in *. cbn [orb].
      split; [by destruct strict |].
      assert (H : compensated_as nodes (id :: (if strict then until_failure nodes (List.filter (has_action nodes) rest)
                                              else List.filter (has_action nodes) rest)) t t'); [|by destruct strict].
      eapply compensated_cons. unfold undo_state. rewrite Ef. exact Hc.
Qed.

Lemma list_filter_sublist {A} (f : A -> bool) l : List.filter f l `sublist_of` l.
Proof. induction l as [|x l IH]; cbn; [constructor |]. by destruct (f x); constructor. Qed.

Lemma undone_filter strict nodes candidates : undone strict nodes candidates `sublist_of` List.filter (has_action nodes) candidates.
Proof.
  unfold undone. destruct strict; [|done].
  induction (List.filter _ _) as [|x l IH]; cbn; [constructor |]. constructor. destruct (fails nodes x); [apply sublist_nil_l | done].
Qed.

Lemma undone_sublist strict nodes candidates :
  undone strict nodes candidates `sublist_of` candidates /\
  forall v, v ∈ undone strict nodes candidates -> has_action nodes v = true.
Proof.
  split; [etransitivity; [apply undone_filter | apply list_filter_sublist] |].
  intros v Hv. apply (sublist_subseteq _ _ (undone_filter strict nodes candidates)) in Hv.
  apply list_elem_of_In, filter_In in Hv. apply Hv.
Qed.

Lemma compensate_spec task failed topo nodes t : NoDup (keys_of nodes) ->
  (forall a b, depends nodes a b -> a ∈ keys_of nodes) ->
  exists candidates order error t',
    profile_compensate task failed topo nodes t = Some (order, error, t') /\
    candidates `sublist_of` rev topo /\
    (forall v, v ∈ candidates <-> v ∈ topo /\ tc (depends nodes) v failed /\ map_get v (tx_states t) = Some "completed") /\
    compensated_as nodes order t t' /\
    (if negb (string_is task "compensation_policy" "best_effort" || string_is task "compensation_policy" "strict")
     then order = [] /\ error = None
     else if string_is task "compensation_policy" "strict" && existsb (fun id => negb (has_action nodes id)) candidates
     then order = [] /\ error = Some COMPENSATION_NOT_SUPPORTED
     else order = undone (string_is task "compensation_policy" "strict") nodes candidates /\
          error = if string_is task "compensation_policy" "strict" && existsb (fails nodes) (List.filter (has_action nodes) candidates)
                  then Some COMPENSATION_FAILED else None).
Proof.
  intros Hnd Hknown. destruct (ancestors_found nodes failed Hnd Hknown) as (found & Ef & Hf).
  set (candidates := List.filter (fun id => bool_decide (id ∈ found) && is_completed t id) (rev topo)).
  assert (Hin : forall v, v ∈ candidates <-> v ∈ topo /\ tc (depends nodes) v failed /\ map_get v (tx_states t) = Some "completed").
  { intros v. unfold candidates, is_completed.
    rewrite list_elem_of_In, filter_In, <- in_rev, <- list_elem_of_In, andb_true_iff, !bool_decide_eq_true, Hf. done. }
  exists candidates. unfold profile_compensate.
  destruct (negb (_ || _)).
  - exists [], None, t. split; [done |]. split; [apply list_filter_sublist |]. split; [done |]. split; [apply compensated_none | done].
  - rewrite Ef. cbn [mbind option_bind]. fold candidates. destruct (_ && existsb (fun id => negb _) candidates) eqn:Es.
    + exists [], (Some COMPENSATION_NOT_SUPPORTED), t.
      split; [done |]. split; [apply list_filter_sublist |]. split; [done |]. split; [apply compensated_none | done].
    + destruct (compensate_candidates_spec (string_is task "compensation_policy" "strict") nodes candidates [] t) as (t' & -> & Hc).
      do 3 eexists. split; [done |]. split; [apply list_filter_sublist |]. done.
Qed.

(** What is undone later is never needed by what is undone earlier. *)
Lemma reverse_topological edges topo l l1 x l2 y : NoDup topo -> topological edges topo ->
  l `sublist_of` rev topo -> l = l1 ++ x :: l2 -> edge edges x y -> y ∉ l2.
Proof.
  intros Hnd Ht Hs -> Hxy Hy. apply list_elem_of_split in Hy as (a & b & ->).
  assert (E : exists p q s, rev topo = p ++ x :: q ++ y :: s).
  { apply sublist_app_l in Hs as (k1 & k2 & E & _ & Hs). apply sublist_cons_l in Hs as (p & q & -> & Hs).
    apply sublist_app_l in Hs as (q1 & q2 & -> & _ & Hs). apply sublist_cons_l in Hs as (u & s & -> & _).
    exists (k1 ++ p), (q1 ++ u), s. rewrite E, <- !app_assoc. done. }
  destruct E as (p & q & s & E).
  assert (E' : topo = (rev s ++ y :: rev q) ++ x :: rev p).
  { rewrite <- (rev_involutive topo), E, rev_app_distr. cbn [rev]. rewrite rev_app_distr. cbn [rev].
    by rewrite <- !app_assoc. }
  assert (Hx : x ∈ rev s) by (apply (Ht (rev s) y (rev q ++ x :: rev p)); [by rewrite E', <- app_assoc | done]).
  rewrite E', NoDup_app in Hnd. destruct Hnd as (_ & Hd & _). apply (Hd x); [set_solver | left].
Qed.

(** ** The run *)

Definition outcome_success (outcome : Value) : bool := String.eqb (default "" (str_value outcome "kind")) "success".
Definition outcome_error (outcome : Value) : string :=
  if String.eqb (default "" (str_value outcome "kind")) "timeout" then DELEGATE_TIMEOUT
  else default DELEGATE_REJECTED (str_value outcome "error_code").

(** The failure may be tried again. *)
Definition may_retry (node outcome : Value) : bool :=
  (String.eqb (default "" (str_value outcome "kind")) "timeout" || bool_value outcome "retryable" false)
  && match vget "retry_on" node ≫= as_array with
     | None => true
     | Some values => existsb (fun v => bool_decide (as_str v = Some (outcome_error outcome))) values
     end.

(** A success after failures that may all be tried again. *)
Definition succeeds (node : Value) (outcomes : list Value) : Prop :=
  exists l1 o l2, outcomes = l1 ++ o :: l2 /\ outcome_success o = true /\
    Forall (fun o => outcome_success o = false /\ may_retry node o = true) l1.

Lemma succeeds_cons node o rest :
  succeeds node (o :: rest) <-> outcome_success o = true \/ (outcome_success o = false /\ may_retry node o = true /\ succeeds node rest).
Proof.
  split.
  - intros ([|o' l1] & x & l2 & [= -> ->] & Hx & Hf); [by left | right].
    apply Forall_cons in Hf as [[H1 H2] Hf]. split; [done |]. split; [done |]. by exists l1, x, l2.
  - intros [H|(H1 & H2 & l1 & x & l2 & -> & Hx & Hf)]; [by exists [], o, rest |].
    exists (o :: l1), x, l2. split; [done |]. split; [done |]. by constructor.
Qed.

(** What the attempts of a node leave in the transcript. *)
Record attempted (id : string) (t : Transcript) (completed : bool) (outcomes : list Value) (t' : Transcript) : Prop := {
  at_attempts : tx_attempts t' = tx_attempts t;
  at_mapped : tx_mapped t' = tx_mapped t;
  at_others : forall v, v <> id -> map_get v (tx_states t') = map_get v (tx_states t) /\
                                  map_get v (tx_results t') = map_get v (tx_results t);
  at_state : map_get id (tx_states t') =
    if completed then Some "completed" else match outcomes with [] => map_get id (tx_states t) | _ => Some "failed" end;
  at_result : if completed then exists r, map_get id (tx_results t') = Some r
              else map_get id (tx_results t') = map_get id (tx_results t)
}.

Lemma attempted_events id t c o t' e : attempted id (add_event e t) c o t' -> attempted id t c o t'.
Proof. intros [H1 H2 H3 H4 H5]. by constructor. Qed.

Lemma attempted_last id t e1 e2 o rest :
  attempted id t false (o :: rest) (add_event e2 (set_node_state id "failed" (add_event e1 t))).
Proof.
  constructor; try done; cbn.
  - intros v Hv. rewrite map_get_insert. by destruct (String.eqb_spec v id).
  - by rewrite map_get_insert, String.eqb_refl.
Qed.

Lemma attempt_loop_spec node id max_retries scripted outcomes : forall count fe t,
  (outcomes <> [] -> count + Z.of_nat (length outcomes) = Z.min (max_retries + 1) scripted) ->
  exists n error completed t',
    attempt_loop node id max_retries scripted count count fe outcomes t = (n, error, completed, t') /\
    count <= n <= count + Z.of_nat (length outcomes) /\ (outcomes <> [] -> count < n) /\
    (completed = true <-> succeeds node outcomes) /\
    attempted id t completed outcomes t'.
Proof.
  induction outcomes as [|o rest IH]; intros count fe t Hlen.
  - exists count, fe, false, t. cbn. split; [done |]. split; [lia |]. split; [done |]. split; [|by constructor].
    split; [done |]. by intros ([|? ?] & ? & ? & ? & _).
  - specialize (Hlen ltac:(done)). cbn [attempt_loop]. cbv zeta. setoid_rewrite succeeds_cons. unfold outcome_success at 1 2. fold (outcome_error o).
    cbn [length] in *. destruct (String.eqb (default "" (str_value o "kind")) "success").
    + do 4 eexists. split; [done |]. split; [lia |]. split; [intros _; lia |]. split; [by split; [left|] |].
      constructor; try done; cbn.
      * intros v Hv. rewrite !map_get_insert. by destruct (String.eqb_spec v id).
      * by rewrite map_get_insert, String.eqb_refl.
      * eexists. by rewrite map_get_insert, String.eqb_refl.
    + fold (may_retry node o). rewrite <- andb_assoc.
      destruct (may_retry node o); cbn [andb].
      2: { do 4 eexists. split; [done |]. split; [lia |]. split; [intros _; lia |]. split; [naive_solver | apply attempted_last]. }
      destruct rest as [|o' rest].
      { assert (E : (count + 1 <=? max_retries) && (count + 1 <? scripted) = false).
        { apply andb_false_iff. rewrite Z.leb_gt, Z.ltb_ge. cbn [length] in *. lia. }
        rewrite E. do 4 eexists. split; [done |]. split; [lia |]. split; [intros _; lia |]. split; [|apply attempted_last].
        split; [done |]. intros [|(_ & _ & [|? ?] & ? & ? & ? & _)]; done. }
      rewrite (proj2 (Z.leb_le _ _)), (proj2 (Z.ltb_lt _ _)) by (cbn [length] in *; lia). cbn [andb].
      destruct (IH (count + 1) (Some (outcome_error o)) (add_event (id +:+ ":retrying") (add_event (id +:+ ":attempt:" +:+ fmt_Z (count + 1)) t)))
        as (n & error & completed & t' & E & Hn & Hn' & Hc & Ha); [cbn [length] in *; lia |].
      exists n, error, completed, t'. split; [exact E |]. split; [lia |]. split; [intros _; lia |].
      split; [rewrite Hc; naive_solver |]. apply attempted_events, attempted_events in Ha.
      destruct Ha as [H1 H2 H3 H4 H5]. by constructor.
Qed.

(** *** The nodes in order *)

Section run.
Context `{JsonParser}.
Context (task : Value) (nodes : list (string * Value)) (topo : list string).

(** The retries of a node, and the outcomes its script allows it. *)
Definition retries (id : string) : Z := usize_value (node_of nodes id) "max_retries" (usize_value task "max_retries" 0).
Definition allowed (id : string) : list Value :=
  let scripted := array_value (node_of nodes id) "attempts" in
  take (Z.to_nat (Z.min (retries id + 1) (Z.of_nat (length scripted)))) scripted.

Definition done_state (s : option string) : Prop := s = Some "completed" \/ s = Some "skipped".

(** Between two nodes: [done] are behind, nothing is known of the others. *)
Record progress (done : list string) (t : Transcript) : Prop := {
  pg_done : forall v, v ∈ done -> done_state (map_get v (tx_states t));
  pg_rest : forall v, v ∉ done -> map_get v (tx_states t) = None /\ map_get v (tx_attempts t) = None;
  pg_attempts : forall v n, map_get v (tx_attempts t) = Some n -> 0 <= n <= Z.of_nat (length (allowed v));
  pg_completed : forall v, map_get v (tx_states t) = Some "completed" -> succeeds (node_of nodes v) (allowed v)
}.

(** Why a run stops at a node, and what it leaves behind. *)
Definition untouched (l : list string) (r : ProfileResult) : Prop :=
  forall v, v ∈ l -> map_get v (pr_states r) = None /\ map_get v (pr_attempts r) = None.

Record stopped (done : list string) (id : string) (rest : list string) (r : ProfileResult) : Prop := {
  st_rest : untouched rest r;
  st_attempts : forall v n, map_get v (pr_attempts r) = Some n -> 0 <= n <= Z.of_nat (length (allowed v));
  st_state : (pr_state r = "cancelled" /\ pr_error r = Some TASK_CANCELLED /\ untouched [id] r) \/
             (pr_state r = "failed" /\ (exists e, pr_error r = Some e) /\
              (map_get id (pr_states r) = Some "failed" \/ (map_get id (pr_states r) = None /\ allowed id = [])));
  st_done : forall v, v ∈ done -> v ∉ pr_compensation r -> done_state (map_get v (pr_states r));
  st_undone : forall v, v ∈ pr_compensation r ->
    v ∈ done /\ tc (depends nodes) v id /\ has_action nodes v = true /\ map_get v (pr_states r) = Some (undo_state nodes v);
  st_order : pr_compensation r `sublist_of` rev topo;
  st_aggregate : pr_aggregate r = VNull
}.

Lemma progress_next done id t t' : progress done t -> id ∉ done ->
  (forall v, v <> id -> map_get v (tx_states t') = map_get v (tx_states t) /\
                        map_get v (tx_attempts t') = map_get v (tx_attempts t)) ->
  done_state (map_get id (tx_states t')) ->
  (exists n, map_get id (tx_attempts t') = Some n /\ 0 <= n <= Z.of_nat (length (allowed id))) ->
  (map_get id (tx_states t') = Some "completed" -> succeeds (node_of nodes id) (allowed id)) ->
  progress (done ++ [id]) t'.
Proof.
  intros [H1 H2 H3 H4] Hn Ho Hs (n & Hat & Hle) Hc. constructor.
  - intros v [Hv|Hv%list_elem_of_singleton]%elem_of_app; [|by subst].
    rewrite (proj1 (Ho v ltac:(set_solver))). by apply H1.
  - intros v Hv. destruct (Ho v ltac:(set_solver)) as [-> ->]. apply H2. set_solver.
  - intros v m Hm. destruct (decide (v = id)) as [->|Hne]; [congruence |]. rewrite (proj2 (Ho v Hne)) in Hm. by apply H3.
  - intros v Hv. destruct (decide (v = id)) as [->|Hne]; [by apply Hc |]. rewrite (proj1 (Ho v Hne)) in Hv. by apply H4.
Qed.

(** A stop that undoes nothing. *)
Lemma stopped_plain done id rest t r : progress done t -> id ∉ done -> (forall v, v ∈ rest -> v ∉ done /\ v <> id) ->
  (forall v, v <> id -> map_get v (pr_states r) = map_get v (tx_states t) /\
                        map_get v (pr_attempts r) = map_get v (tx_attempts t)) ->
  (forall n, map_get id (pr_attempts r) = Some n -> n = 0) ->
  ((pr_state r = "cancelled" /\ pr_error r = Some TASK_CANCELLED /\ untouched [id] r) \/
   (pr_state r = "failed" /\ (exists e, pr_error r = Some e) /\ map_get id (pr_states r) = Some "failed")) ->
  pr_compensation r = [] -> pr_aggregate r = VNull -> stopped done id rest r.
Proof.
  intros [H1 H2 H3 H4] Hid Hrest Ho Hn Hst Hc Ha. constructor.
  - intros v Hv. destruct (Hrest v Hv) as [Hd Hne]. destruct (Ho v Hne) as [-> ->]. by apply H2.
  - intros v n Hv. destruct (decide (v = id)) as [->|Hne]; [rewrite (Hn n Hv); lia |].
    rewrite (proj2 (Ho v Hne)) in Hv. by apply H3.
  - destruct Hst as [|(? & ? & ?)]; [by left | right; auto].
  - intros v Hv _. rewrite (proj1 (Ho v ltac:(by intros ->))). by apply H1.
  - rewrite Hc. set_solver.
  - rewrite Hc. apply sublist_nil_l.
  - done.
Qed.
(** The attempts of the node, and the end of it. *)
Lemma execute_scripted_spec done id rest t : NoDup (keys_of nodes) ->
  (forall a b, depends nodes a b -> a ∈ keys_of nodes) ->
  topo = done ++ id :: rest -> NoDup topo -> progress done t ->
  match execute_scripted task topo nodes id (node_of nodes id) t with
  | Some (Next t') => progress (done ++ [id]) t'
  | Some (Stop r) => stopped done id rest r
  | None => u64_max < retries id + 1
  end.
Proof.
  intros Hk Hknown Etopo Hnd Hp. pose proof Hp as [H1 H2 H3 H4].
  assert (Hid : id ∉ done /\ forall v, v ∈ rest -> v ∉ done /\ v <> id).
  { rewrite Etopo in Hnd. apply NoDup_app in Hnd as (_ & Hd & Hnd). apply NoDup_cons in Hnd as [Hno _].
    split; [intros Hx; apply (Hd id Hx); left |]. intros v Hv. split; [intros Hx; apply (Hd v Hx); by right | by intros ->]. }
  destruct Hid as [Hid Hrest]. unfold execute_scripted. fold (retries id). fold (allowed id).
  destruct (u64_max <? retries id + 1) eqn:Eov; cmp_hyps; [done |].
  destruct (attempt_loop_spec (node_of nodes id) id (retries id) (Z.of_nat (length (array_value (node_of nodes id) "attempts")))
              (allowed id) 0 None t) as (n & error & completed & t1 & -> & Hn & _ & Hc & Ha).
  { unfold allowed. intros Hne. rewrite length_take. destruct (decide (retries id + 1 <= 0)); [|lia].
    destruct Hne. by rewrite Z2Nat.nonpos by lia. }
  destruct Ha as [A1 A2 A3 A4 A5].
  assert (Hn' : exists m, map_get id (map_insert id n (tx_attempts t1)) = Some m /\ 0 <= m <= Z.of_nat (length (allowed id))).
  { exists n. rewrite map_get_insert, String.eqb_refl. split; [done | lia]. }
  assert (Ho : forall v, v <> id -> map_get v (tx_states t1) = map_get v (tx_states t) /\
                              map_get v (map_insert id n (tx_attempts t1)) = map_get v (tx_attempts t)).
  { intros v Hv. rewrite map_get_insert, A1. destruct (String.eqb_spec v id); [done |]. by split; [apply A3 |]. }
  destruct completed.
  - eapply progress_next; [done | done | done | by left | done |]. intros _. by apply Hc.
  - destruct (compensate_spec task id topo nodes (set_attempts id n t1) Hk Hknown)
      as (cands & order & err & t2 & -> & Hs & Hin & [C1 C2 C3 C4] & Hcase).
    cbn [mbind option_bind].
    assert (Hsub : order `sublist_of` cands /\ forall v, v ∈ order -> has_action nodes v = true).
    { destruct (negb _); [destruct Hcase as [-> _]; split; [apply sublist_nil_l | set_solver] |].
      destruct (_ && existsb _ cands) in Hcase; [destruct Hcase as [-> _]; split; [apply sublist_nil_l | set_solver] |].
      destruct Hcase as [-> _]. apply undone_sublist. }
    destruct Hsub as [Hsub Hact].
    assert (Hcd : forall v, v ∈ order -> v ∈ done /\ tc (depends nodes) v id).
    { intros v Hv. pose proof (proj1 (Hin v) ltac:(by eapply sublist_subseteq)) as (_ & Htc & Hst). split; [|done].
      cbn in Hst. destruct (decide (v = id)) as [->|Hne]; [rewrite A4 in Hst; destruct (allowed id); [|done]; by rewrite (proj1 (H2 id Hid)) in Hst |].
      rewrite (proj1 (A3 v Hne)) in Hst. destruct (decide (v ∈ done)) as [|Hno]; [done |]. by rewrite (proj1 (H2 v Hno)) in Hst. }
    constructor; cbn.
    + intros v Hv. destruct (Hrest v Hv) as [Hd Hne]. cbn. rewrite C1, C4. rewrite decide_False by (intros Hx; apply Hd; by apply Hcd).
      cbn. rewrite !(proj1 (Ho v Hne)), (proj2 (Ho v Hne)). by apply H2.
    + intros v m Hm. rewrite C1 in Hm. cbn in Hm. destruct (decide (v = id)) as [->|Hne].
      * destruct Hn' as (m' & E & Hm'). congruence.
      * rewrite (proj2 (Ho v Hne)) in Hm. by apply H3.
    + right. split; [done |]. split; [by eexists |]. rewrite C4, decide_False by (intros Hx; apply Hid; by apply Hcd).
      cbn. rewrite A4. destruct (allowed id); [right; split; [by apply H2 | done] | by left].
    + intros v Hv Hno. rewrite C4, decide_False by done. cbn. rewrite (proj1 (Ho v ltac:(by intros ->))). by apply H1.
    + intros v Hv. destruct (Hcd v Hv). split; [done |]. split; [done |]. split; [by apply Hact |].
      rewrite C4. by rewrite decide_True.
    + by transitivity cands.
    + done.
Qed.

Lemma run_node_spec done id rest t : NoDup (keys_of nodes) ->
  (forall a b, depends nodes a b -> a ∈ keys_of nodes) ->
  topo = done ++ id :: rest -> NoDup topo -> progress done t ->
  match run_node task topo nodes id t with
  | Some (Next t') => progress (done ++ [id]) t'
  | Some (Stop r) => stopped done id rest r
  | None => u64_max < retries id + 1
  end.
Proof.
  intros Hk Hknown Etopo Hnd Hp.
  assert (Hid : id ∉ done /\ forall v, v ∈ rest -> v ∉ done /\ v <> id).
  { rewrite Etopo in Hnd. apply NoDup_app in Hnd as (_ & Hd & Hnd). apply NoDup_cons in Hnd as [Hno _].
    split; [intros Hx; apply (Hd id Hx); left |]. intros v Hv. split; [intros Hx; apply (Hd v Hx); by right | by intros ->]. }
  destruct Hid as [Hid Hrest]. pose proof (pg_rest _ _ Hp id Hid) as [Hs0 Ha0].
  assert (Hfail : forall error t', progress done t' ->
    match stop_failed error id t' with Next _ => False | Stop r => stopped done id rest r end).
  { intros error t' Hp'. eapply stopped_plain; [exact Hp' | done | done | | | | done | done]; cbn.
    - intros v Hv. rewrite !map_get_insert. by destruct (String.eqb_spec v id).
    - intros n. rewrite map_get_insert, String.eqb_refl. by intros [= <-].
    - right. split; [done |]. split; [by eexists |]. by rewrite map_get_insert, String.eqb_refl. }
  unfold run_node. destruct (string_is task "cancel_before" id).
  { eapply stopped_plain; [exact Hp | done | done | done | | | done | done]; cbn; [congruence |].
    left. split; [done |]. split; [done |]. by intros v ->%list_elem_of_singleton. }
  destruct (match str_value (node_of nodes id) "condition" with Some c => _ | None => Some true end) as [[]|]; [| |by apply Hfail].
  - destruct (vget "input_mapping" (node_of nodes id) ≫= as_object) as [mapping|]; [|by apply execute_scripted_spec].
    destruct (resolve_mapping mapping (tx_results t)) as [parameters|]; [|by apply Hfail].
    apply execute_scripted_spec; try done. by destruct Hp; constructor.
  - eapply progress_next; [exact Hp | done | | | |]; cbn.
    + intros v Hv. rewrite !map_get_insert. by destruct (String.eqb_spec v id).
    + right. by rewrite map_get_insert, String.eqb_refl.
    + exists 0. rewrite map_get_insert, String.eqb_refl. split; [done | lia].
    + by rewrite map_get_insert, String.eqb_refl.
Qed.

Lemma run_topology_spec ids : forall done t, NoDup (keys_of nodes) ->
  (forall a b, depends nodes a b -> a ∈ keys_of nodes) ->
  topo = done ++ ids -> NoDup topo -> progress done t ->
  match run_topology task topo nodes ids t with
  | Some (Next t') => progress topo t'
  | Some (Stop r) => exists done id rest, topo = done ++ id :: rest /\ stopped done id rest r
  | None => exists id, id ∈ topo /\ u64_max < retries id + 1
  end.
Proof.
  induction ids as [|id ids IH]; intros done t Hk Hknown Etopo Hnd Hp; cbn [run_topology].
  - by rewrite Etopo, app_nil_r.
  - pose proof (run_node_spec done id ids t Hk Hknown Etopo Hnd Hp) as Hr.
    destruct (run_node task topo nodes id t) as [[t'|r]|]; cbn [mbind option_bind].
    + apply (IH (done ++ [id])); try done. by rewrite <- app_assoc.
    + by exists done, id, ids.
    + exists id. split; [|done]. rewrite Etopo. set_solver.
Qed.
End run.

(** *** A task *)

Lemma collect_nodes_keys raw : forall nodes nodes', NoDup (keys_of nodes) -> collect_nodes raw nodes = Some nodes' ->
  NoDup (keys_of nodes').
Proof.
  induction raw as [|node raw IH]; intros nodes nodes' Hnd; cbn [collect_nodes]; [by intros [= <-] |].
  destruct (str_value node "id") as [id|]; [|done]. cbn [mbind option_bind].
  destruct (map_contains id nodes) eqn:Ec; [done |]. apply IH.
  assert (Hp : keys_of (map_insert id node nodes) ≡ₚ id :: keys_of nodes).
  { unfold keys_of. unfold map_contains in Ec. revert Ec. clear. induction nodes as [|[k v] m IH]; cbn; [done |].
    destruct (String.eqb_spec id k) as [->|Hne]; [done |]. intros Hc.
    destruct (String.compare id k) eqn:E; [by apply String.compare_eq_iff in E | done |]. cbn.
    rewrite IH by done. apply Permutation_swap. }
  rewrite Hp. apply NoDup_cons. split; [|done]. intros Hin. apply map_contains_In in Hin. congruence.
Qed.

Definition task_nodes (task : Value) : option (list (string * Value)) :=
  o ← as_object task; raw ← map_get "nodes" o ≫= as_array; collect_nodes raw [].

Lemma stable_topology_some nodes topo : NoDup (keys_of nodes) -> stable_topology nodes = Some topo ->
  NoDup topo /\ topological (profile_edges nodes) topo /\ (forall a b, depends nodes a b -> a ∈ keys_of nodes) /\
  topo ≡ₚ keys_of nodes.
Proof.
  intros Hnd E. pose proof (stable_topology_cases nodes Hnd) as Hcase. cbv zeta in Hcase. rewrite known_edges in Hcase.
  destruct Hcase as [[E' _]|[Hed (o & Hndo & Ht & Hl & Hin & E')]]; rewrite E' in E; [done |].
  destruct (length o =? length nodes)%nat eqn:El; [|done]. injection E as ->. cmp_hyps.
  split; [done |]. split; [done |]. split.
  - intros a b Hab. apply depends_edge in Hab; [|done]. by apply (Hed _ Hab).
  - destruct (full_order_perm nodes topo Hnd Hndo) as [Hp _]; [|by apply Hp].
    intros v Hv. apply Hin in Hv as [Hv _]. by apply elem_of_list_to_set in Hv.
Qed.

(** C14: a task of a known order always has an answer, unless a retry count
    overflows.  It is complete with every node completed or skipped and
    nothing undone; or refused before it starts; or it stops at one node: all
    before it are completed or skipped, but for those undone, nothing after it
    was touched, no node had more attempts than its script and its retries
    allow, and only completed nodes the stopped one rests on are undone, those
    that rest on others first. *)
Theorem orchestration_in_order `{JsonParser} task nodes topo :
  task_nodes task = Some nodes -> stable_topology nodes = Some topo ->
  match orchestrate task with
  | None => exists id, id ∈ topo /\ u64_max < retries task nodes id + 1
  | Some r =>
    (pr_state r = "completed" /\ pr_error r = None /\ pr_compensation r = [] /\
     forall v, v ∈ topo -> done_state (map_get v (pr_states r)) /\
       (map_get v (pr_states r) = Some "completed" -> succeeds (node_of nodes v) (allowed task nodes v))) \/
    (bool_value task "preflight" false = true /\ pr_error r = Some RESOURCE_INSUFFICIENT /\ untouched topo r) \/
    exists done id rest, topo = done ++ id :: rest /\ stopped task nodes topo done id rest r /\
      forall l1 x l2 y, pr_compensation r = l1 ++ x :: l2 -> depends nodes x y -> y ∉ l2
  end.
Proof.
  intros En Et. assert (Hk : NoDup (keys_of nodes)).
  { unfold task_nodes in En. destruct (as_object task) as [o|]; [|done]. cbn [mbind option_bind] in En.
    destruct (map_get "nodes" o ≫= as_array) as [raw|]; [|done]. eapply collect_nodes_keys; [|exact En]. constructor. }
  destruct (stable_topology_some nodes topo Hk Et) as (Hnd & Htop & Hknown & _).
  unfold orchestrate. fold (task_nodes task). rewrite En, Et. cbv zeta.
  destruct (bool_value task "preflight" false && existsb _ topo) eqn:Epre.
  { right. left. apply andb_true_iff in Epre as [-> _]. done. }
  set (t0 := add_event _ _).
  assert (Hp : progress task nodes [] t0).
  { unfold t0. constructor; destruct (bool_value task "preflight" false); cbn; set_solver. }
  pose proof (run_topology_spec task nodes topo topo [] t0 Hk Hknown eq_refl Hnd Hp) as Hrun.
  destruct (run_topology task topo nodes topo t0) as [[t|r]|]; cbn [mbind option_bind]; [| |done].
  - left. destruct Hrun as [H1 _ _ H4]. split; [done |]. split; [done |]. split; [done |]. intros v Hv. split; [by apply H1 | apply H4].
  - right. right. destruct Hrun as (done & id & rest & Eo & Hst). exists done, id, rest. split; [done |]. split; [done |].
    intros l1 x l2 y E Hxy. eapply reverse_topological; [exact Hnd | exact Htop | apply Hst | exact E |]. by apply depends_edge.
Qed.

(** ** Leases *)

Definition event_task (e : Value) : string := default "" (str_value e "task_id").
Definition event_runner (e : Value) : string := default "" (str_value e "runner_nid").
Definition asks_lease (e : Value) : Prop :=
  default "" (str_value e "op") = "claim" \/ default "" (str_value e "op") = "renew".

Lemma grant_other t runner e s task : task <> t -> leases (grant t runner e s) !! task = leases s !! task.
Proof. intros Hne. cbn. by rewrite lookup_insert_ne. Qed.

Lemma lease_claim_other t runner at_ seconds s o s' task : lease_claim t runner at_ seconds s = Some (o, s') -> task <> t ->
  leases s' !! task = leases s !! task.
Proof.
  unfold lease_claim. intros E Hne. destruct (live_lease t at_ s) as [l|]; [destruct (String.eqb _ _); [|by simplify_eq] |];
    destruct (expiry at_ seconds); cbn [mbind option_bind] in E; simplify_eq; by apply grant_other.
Qed.

Lemma lease_renew_other t runner at_ seconds s o s' task : lease_renew t runner at_ seconds s = Some (o, s') -> task <> t ->
  leases s' !! task = leases s !! task.
Proof.
  unfold lease_renew. intros E Hne. destruct (live_lease t at_ s) as [l|]; [destruct (String.eqb _ _); [|by simplify_eq] | by simplify_eq].
  destruct (expiry at_ seconds); cbn [mbind option_bind] in E; simplify_eq. by apply grant_other.
Qed.

(** A live lease of another runner answers both with a conflict. *)
Lemma live_lease_conflict t runner at_ seconds s l : leases s !! t = Some l -> at_ < expires_at l -> runner <> runner_nid l ->
  lease_claim t runner at_ seconds s = Some ("conflict", s) /\ lease_renew t runner at_ seconds s = Some ("conflict", s).
Proof.
  intros El Hat Hr. unfold lease_claim, lease_renew, live_lease. rewrite El. cbn [mbind option_bind].
  rewrite (proj2 (Z.ltb_lt _ _) Hat). by destruct (String.eqb_spec (runner_nid l) runner) as [<-|].
Qed.

Lemma lease_event_other e s o s' task l : lease_event e s = Some (o, s') -> leases s !! task = Some l ->
  i64_value e "at" 0 < expires_at l -> (event_task e = task -> asks_lease e -> event_runner e <> runner_nid l) ->
  leases s' !! task = Some l /\ (event_task e = task -> asks_lease e -> o = Some "conflict" /\ s' = s).
Proof.
  unfold lease_event, asks_lease. fold (event_task e) (event_runner e). intros E Hl Hat Hr.
  pose proof (fun sec n => live_lease_conflict (event_task e) (event_runner e) _ sec s l n Hat) as Hconf.
  destruct (String.eqb_spec (default "" (str_value e "op")) "claim") as [Eo|Hc].
  { destruct (lease_claim _ _ _ _ _) as [[o1 s1]|] eqn:Ec; [|done]. cbn [mbind option_bind] in E. injection E as <- <-.
    destruct (decide (event_task e = task)) as [<-|Hne].
    - destruct (Hconf (lease_seconds e) Hl (Hr eq_refl (or_introl Eo))) as [E _]. rewrite E in Ec. by injection Ec as <- <-.
    - split; [|done]. by rewrite (lease_claim_other _ _ _ _ _ _ _ _ Ec) by done. }
  destruct (String.eqb_spec (default "" (str_value e "op")) "renew") as [Eo|Hn].
  { destruct (lease_renew _ _ _ _ _) as [[o1 s1]|] eqn:Ec; [|done]. cbn [mbind option_bind] in E. injection E as <- <-.
    destruct (decide (event_task e = task)) as [<-|Hne].
    - destruct (Hconf (lease_seconds e) Hl (Hr eq_refl (or_intror Eo))) as [_ E]. rewrite E in Ec. by injection Ec as <- <-.
    - split; [|done]. by rewrite (lease_renew_other _ _ _ _ _ _ _ _ Ec) by done. }
  split; [|intros _ [?|?]; done]. by repeat case_match; simplify_eq.
Qed.

(** A lease excludes.  While a runner's lease on a task runs and the runner
    itself does not ask again, every claim and every renewal of that task by
    another, wherever it comes among the events, is a conflict, and the
    lease stays as it was granted. *)
Theorem lease_exclusive events s task l outcomes s' :
  leases s !! task = Some l -> lease_events events s = Some (outcomes, s') ->
  (forall e, e ∈ events -> i64_value e "at" 0 < expires_at l /\
     (event_task e = task -> asks_lease e -> event_runner e <> runner_nid l)) ->
  leases s' !! task = Some l /\
  forall l1 e l2, events = l1 ++ e :: l2 -> event_task e = task -> asks_lease e ->
    exists before s1, lease_events l1 s = Some (before, s1) /\ lease_event e s1 = Some (Some "conflict", s1).
Proof.
  revert s outcomes. induction events as [|e events IH]; intros s outcomes Hl E Hev.
  - injection E as <- <-. split; [done |]. by intros [|? ?].
  - cbn [lease_events] in E. destruct (lease_event e s) as [[o s1]|] eqn:Ee; [|done]. cbn [mbind option_bind] in E.
    destruct (lease_events events s1) as [[os s2]|] eqn:Er; [|done]. injection E as <- <-.
    destruct (Hev e ltac:(left)) as [Hat Hrun].
    destruct (lease_event_other e s o s1 task l Ee Hl Hat Hrun) as [Hl1 Hc].
    destruct (IH s1 os Hl1 Er) as [Hl2 Hin]; [intros e' He'; apply Hev; by right |]. split; [done |].
    intros [|e0 l1] e' l2 [= -> ->] Ht Ha.
    + destruct (Hc Ht Ha) as [-> ->]. by exists [], s.
    + destruct (Hin l1 e' l2 eq_refl Ht Ha) as (before & s3 & Hb & Hx). exists (option_list o ++ before), s3.
      split; [|done]. cbn [lease_events]. rewrite Ee. cbn [mbind option_bind]. by rewrite Hb.
Qed.

(** A claim is granted for ten to six hundred seconds, and only when no other
    runner's lease runs. *)
Lemma lease_claim_grants task runner at_ seconds s o s' : lease_claim task runner at_ seconds s = Some (o, s') ->
  (o <> "conflict" <-> match leases s !! task with
                      | Some l => expires_at l <= at_ \/ runner_nid l = runner
                      | None => True
                      end) /\
  (o <> "conflict" -> leases s' !! task = Some (mkLease runner (at_ + seconds)) /\ at_ + seconds <= i64_max) /\
  (o = "conflict" -> s' = s).
Proof.
  unfold lease_claim, live_lease, expiry, grant. destruct (leases s !! task) as [l|] eqn:El; cbn [mbind option_bind].
  - destruct (at_ <? expires_at l) eqn:Ea; cmp_hyps.
    + destruct (String.eqb_spec (runner_nid l) runner) as [->|Hne].
      * destruct (i64_max <? at_ + seconds) eqn:Eo; [done |]. cmp_hyps. intros [= <- <-]. cbn. rewrite lookup_insert_eq.
        split; [|done]. split; [by right | done].
      * intros [= <- <-]. split; [split; [done | intros [?|?]; [lia | done]] | done].
    + destruct (i64_max <? at_ + seconds) eqn:Eo; [done |]. cmp_hyps. intros [= <- <-]. cbn. rewrite lookup_insert_eq.
      split; [|done]. split; [by left | done].
  - destruct (i64_max <? at_ + seconds) eqn:Eo; [done |]. cmp_hyps. intros [= <- <-]. cbn. by rewrite lookup_insert_eq.
Qed.

(** ** Callback signatures *)

Lemma xor_fold_zero a : forall b acc, length a = length b ->
  fold_left (fun acc xy => Z.lor acc (Z.lxor (fst xy) (snd xy))) (combine a b) acc = 0 <-> acc = 0 /\ a = b.
Proof.
  induction a as [|x a IH]; intros [|y b] acc Hl; try done; cbn; [naive_solver |].
  rewrite IH by (by injection Hl). rewrite Z.lor_eq_0_iff, Z.lxor_eq_0_iff. naive_solver.
Qed.

(** A callback signature is accepted exactly when the secret is the base64
    of thirty-two bytes and the signature is the lower-case hexadecimal of the
    HMAC of the body under it: the comparison without early exit is equality. *)
Theorem hmac_valid_exact {D : Digests} {B64 : Base64} (hmac_sha256 : list Z -> list Z -> list Z) secret body signature :
  hmac_valid hmac_sha256 secret body signature = true <->
  exists key, b64_url_no_pad secret = Ok key /\ length key = 32%nat /\
    signature = "sha256=" +:+ hex_encode (hmac_sha256 key (bytes_of body)).
Proof.
  unfold hmac_valid. destruct (b64_url_no_pad secret) as [key|e]; [|split; [done | by intros (? & ? & _)]].
  destruct (length key =? 32)%nat eqn:Ek; cbn [negb]; cmp_hyps; [|split; [done | intros (? & [= <-] & ? & _); done]].
  set (expected := "sha256=" +:+ _). rewrite andb_true_iff, Nat.eqb_eq, Z.eqb_eq. unfold xor_fold. split.
  - intros [Hl Hx]. apply xor_fold_zero in Hx as [_ Hx]; [|done]. exists key. split; [done |]. split; [done |].
    by rewrite <- (of_bytes_bytes_of signature), <- Hx, of_bytes_bytes_of.
  - intros (k & [= <-] & _ & ->). split; [done |]. by apply xor_fold_zero.
Qed.

(** ** Delegation *)

Lemma max_epoch_spec l : match max_epoch l with
  | Some m => m ∈ l /\ forall x, x ∈ l -> x <= m
  | None => l = []
  end.
Proof.
  induction l as [|x l IH]; cbn; [done |]. fold (max_epoch l). destruct (max_epoch l) as [m|].
  - destruct IH as [Hm Hle]. split; [destruct (Z.max_spec x m) as [[_ ->]|[_ ->]]; set_solver |].
    intros y [->|Hy]%elem_of_cons; [lia |]. specialize (Hle y Hy). lia.
  - subst l. split; [left |]. intros y Hy%list_elem_of_singleton. lia.
Qed.

(** The leader of an attempt: live, and alone at the highest epoch. *)
Lemma pick_target_leader attempt t : pick_target attempt = Ok t ->
  exists leader epoch, leader ∈ array_value attempt "candidates" /\ bool_value leader "live" false = true /\
    epoch_of leader = Some epoch /\ t = default "" (str_value leader "nid") /\
    forall c e, c ∈ array_value attempt "candidates" -> bool_value c "live" false = true -> epoch_of c = Some e ->
      e <= epoch /\ (e = epoch -> c = leader).
Proof.
  unfold pick_target. set (live := List.filter _ (array_value attempt "candidates")).
  assert (Hlive : forall c, c ∈ live <-> c ∈ array_value attempt "candidates" /\ bool_value c "live" false = true).
  { intros c. unfold live. by rewrite !list_elem_of_In, filter_In. }
  pose proof (max_epoch_spec (omap epoch_of live)) as Hm. destruct (max_epoch _) as [m|]; [|done].
  destruct (List.filter _ live) as [|leader [|? ?]] eqn:El; [done | | done]. intros [= <-].
  assert (Hin : forall c, c = leader <-> c ∈ live /\ epoch_of c = Some m).
  { intros c. pose proof (filter_In (fun c => bool_decide (epoch_of c = Some m)) c live) as F.
    rewrite El, bool_decide_eq_true in F. rewrite (list_elem_of_In live c), <- F.
    split; [intros ->; by left | by intros [->|[]]]. }
  destruct (proj1 (Hin leader) eq_refl) as [Hl Hep]. exists leader, m.
  apply Hlive in Hl as [Hc Hb]. repeat (split; [done |]). intros c e Hcc Hcb Hce.
  assert (Hcl : c ∈ live) by (by apply Hlive). split.
  - apply Hm. apply list_elem_of_omap. by exists c.
  - intros ->. by apply Hin.
Qed.

(** ** Edges of the profile *)

(** An IPv4 loopback written as an IPv6 address counts as public, and so does
    the shared space of carriers. *)
Lemma mapped_loopback_public :
  is_public_ip (V6 [0; 0; 0; 0; 0; 0xffff; 0x7f00; 1]) = true /\ is_public_ip (V4 [100; 64; 0; 1]) = true /\
  is_public_ip (V4 [127; 0; 0; 1]) = false.
Proof. done. Qed.

(** A node without a script fails the task and leaves no state of its own. *)
Lemma unscripted_node_silent `{JsonParser} :
  orchestrate (VObject [("nodes", VArray [VObject [("id", VString "a")]])]) =
  Some (mkProfileResult ["task:running"; "task:failed"] "failed" (Some DELEGATE_REJECTED) VNull [] [("a", 0)] [] []).
Proof. done. Qed.

(** ** Witnesses *)

Definition script (kind : string) : Value := VArray [VObject [("kind", VString kind)]].
Definition needs (l : list string) : string * Value := ("depends_on", vstrings l).

Definition demo_task : Value :=
  VObject [("compensation_policy", VString "best_effort"); ("max_retries", VNumber (PosInt 1));
    ("nodes", VArray [
      VObject [("attempts", VArray [VObject [("kind", VString "timeout")]; VObject [("kind", VString "success")]]);
               ("compensate_action", VString "undo"); ("id", VString "c")];
      VObject [("attempts", script "success"); ("compensate_action", VString "undo"); needs ["c"]; ("id", VString "b")];
      VObject [("attempts", script "refused"); needs ["b"]; ("id", VString "a")];
      VObject [("attempts", script "success"); needs ["a"]; ("id", VString "d")]])].
Definition demo_nodes : list (string * Value) := default [] (task_nodes demo_task).

Lemma stable_topology_least_witness :
  NoDup (keys_of demo_nodes) /\ stable_topology demo_nodes = Some ["c"; "b"; "a"; "d"] /\
  least_first (list_to_set (keys_of demo_nodes)) (profile_edges demo_nodes) ["c"; "b"; "a"; "d"].
Proof.
  assert (Hnd : NoDup (keys_of demo_nodes)) by (apply (bool_decide_unpack _); vm_compute; exact I).
  split; [exact Hnd |]. split; [vm_compute; reflexivity |].
  destruct (stable_topology_least demo_nodes Hnd) as [H _].
  apply (H ["c"; "b"; "a"; "d"]). vm_compute. reflexivity.
Defined.

Definition no_parser : JsonParser := {| parse_json _ := Err "" |}.

(** The node [a] fails: [b] is undone, then [c]; [d] is untouched. *)
Lemma orchestration_in_order_witness :
  match @orchestrate no_parser demo_task with
  | None => False
  | Some r => pr_compensation r = ["b"; "c"] /\
      exists done id rest, ["c"; "b"; "a"; "d"] = done ++ id :: rest /\
        stopped demo_task demo_nodes ["c"; "b"; "a"; "d"] done id rest r
  end.
Proof.
  pose proof (@orchestration_in_order no_parser demo_task demo_nodes ["c"; "b"; "a"; "d"]
                ltac:(vm_compute; reflexivity) ltac:(vm_compute; reflexivity)) as H.
  destruct (@orchestrate no_parser demo_task) as [r|] eqn:E; [|vm_compute in E; discriminate].
  assert (Hr : pr_state r = "failed" /\ pr_error r = Some DELEGATE_REJECTED /\ pr_compensation r = ["b"; "c"])
    by (vm_compute in E; injection E as <-; vm_compute; auto).
  destruct Hr as (Hs & He & Hc). split; [exact Hc |].
  destruct H as [(Hx & _)|[(_ & Hx & _)|(done & id & rest & H1 & H2 & _)]]; [congruence | rewrite He in Hx; discriminate |].
  exists done, id, rest. auto.
Defined.

Definition lease_ask (op runner : string) (at_ : Z) : Value :=
  VObject [("at", VNumber (PosInt at_)); ("op", VString op); ("runner_nid", VString runner); ("task_id", VString "t")].
Definition held : LeaseState := grant "t" "r1" 20 leases_new.

Lemma lease_exclusive_witness :
  leases held !! "t" = Some (mkLease "r1" 20) /\
  exists s1, lease_event (lease_ask "renew" "r3" 19) s1 = Some (Some "conflict", s1).
Proof.
  assert (Hl : leases held !! "t" = Some (mkLease "r1" 20)) by (vm_compute; reflexivity).
  split; [exact Hl |].
  destruct (lease_exclusive [lease_ask "claim" "r2" 11; lease_ask "renew" "r3" 19] held "t" (mkLease "r1" 20)
              ["conflict"; "conflict"] held Hl) as [_ H]; [vm_compute; reflexivity | |].
  - intros e [->|[->|He%elem_of_nil]%elem_of_cons]%elem_of_cons; [| |destruct He]; (split; [vm_compute; reflexivity |]);
      intros _ _; discriminate.
  - destruct (H [lease_ask "claim" "r2" 11] (lease_ask "renew" "r3" 19) []) as (b & s1 & _ & H1);
      [reflexivity | reflexivity | right; reflexivity |]. exists s1. exact H1.
Defined.
