(* ===== verification/NwpComplex.v ===== *)
(** * NwpComplex: the complex node

    Models nps-nwp/src/complex_server.rs: a node that answers queries from its
    own rows and from those of the child nodes it references, and executes
    actions inline.  The provider and the child fetcher are the host's: they
    are functions over a state of the host, which the handlers thread. *)

From S2P Require Import Prelude RustStr Json CoreCache NwpMemory NwpAction.
Local Open Scope Z_scope.

(** ** Options *)

Definition TRACE_HEADER : string := "X-NWP-Trace".
Definition ABSOLUTE_MAX_DEPTH : Z := 5.
Definition DEPTH_EXCEEDED : string := "NWP-DEPTH-EXCEEDED".
Definition GRAPH_CYCLE : string := "NWP-GRAPH-CYCLE".

Record ComplexGraphRef : Type := mkGraphRef { gr_rel : string; gr_node_url : string }.

(** The map of the actions is sorted by key. *)
Record ComplexNodeOptions : Type := mkComplexOptions {
  co_node_id : string;
  co_display_name : option string;
  co_path_prefix : string;
  co_schema : option MemoryNodeSchema;
  co_actions : list (string * ActionSpec);
  co_graph : list ComplexGraphRef;
  co_graph_max_depth : Z;
  co_allowed_child_url_prefixes : list string;
  co_reject_private_child_urls : bool;
  co_allow_http_child_urls : bool;
  co_require_auth : bool;
  co_default_limit : Z;
  co_max_limit : Z;
  co_default_timeout_ms : Z;
  co_max_timeout_ms : Z
}.

Definition complex_options_new (node_id path_prefix : string) : ComplexNodeOptions :=
  mkComplexOptions node_id None path_prefix None [] [] 2 [] true false false 20 1000 5000 300000.

(** ** Child URLs *)

(** [str::starts_with], both sides in lower case. *)
Definition prefix_allowed (child_url p : string) : bool :=
  starts_with (to_ascii_lowercase p) (to_ascii_lowercase child_url).

Definition validate_child_url (child_url : string) (allowed_prefixes : list string) (reject_private allow_http : bool)
    : option string :=
  if is_empty (trim child_url) then Some "child node URL must not be empty."
  else
    match parse_absolute_url child_url with
    | None => Some ("child node URL '" +:+ child_url +:+ "' is not a valid absolute URI.")
    | Some u =>
      let is_https := eq_ignore_ascii_case (pu_scheme u) "https" in
      let is_http := eq_ignore_ascii_case (pu_scheme u) "http" in
      if negb (is_https || (allow_http && is_http))
      then Some ("child node URL MUST use the https:// scheme (got '" +:+ pu_scheme u +:+ "://').")
      else if negb (length allowed_prefixes =? 0)%nat && negb (existsb (prefix_allowed child_url) allowed_prefixes)
      then Some ("child node URL '" +:+ child_url +:+ "' is not in the allowed prefix list.")
      else if reject_private && node_is_private_host (pu_host u)
      then Some ("child node host '" +:+ pu_host u +:+ "' resolves to a private or loopback address (SSRF guard).")
      else None
    end.

(** ** The host *)

Inductive ChildOutcome : Type :=
| ChildOk (capsule : Value)
| ChildErr (code message : string).

(** What a fetch is given. *)
Record FetchCall : Type := mkFetch {
  fc_node_url : string;
  fc_body : list Z;
  fc_child_depth : Z;
  fc_trace : list string;
  fc_agent : option string;
  fc_budget : option string
}.

Definition ChildFetcher (W : Type) : Type := FetchCall -> W -> ChildOutcome * W.

Record ComplexNodeProvider (W : Type) : Type := mkComplexProvider {
  cp_query : ParsedQueryFrame -> ComplexNodeOptions -> W -> result MemoryNodeError MemoryNodeQueryResult * W;
  cp_execute : ParsedActionFrame -> ActionContext -> W -> result ActionError ActionExecutionResult * W
}.
Arguments mkComplexProvider {W}.
Arguments cp_query {W}.
Arguments cp_execute {W}.

Definition NullComplexNodeProvider {W} : ComplexNodeProvider W :=
  mkComplexProvider (fun _ _ s => (Ok (mkQueryResult [] None), s))
    (fun _ _ s => (Err (action_internal "NullComplexNodeProvider does not handle actions."), s)).

(** ** Helpers *)

Definition child_result (rel node : string) (data : option Value) (error : option (string * string)) : Value :=
  let m := map_insert "rel" (VString rel) [] in
  let m := map_insert "node" (VString node) m in
  let m := insert_opt "data" data m in
  VObject (insert_opt "error"
    ((fun e => VObject [("code", VString (fst e)); ("message", VString (snd e))]) <$> error) m).

Definition parse_trace (req : NodeRequest) : list string :=
  match rq_header req TRACE_HEADER with
  | Some raw => List.filter (fun s => negb (is_empty s)) (map trim (split_on "," raw))
  | None => []
  end.

Definition complex_clamp_timeout (requested : Z) (spec : ActionSpec) (opt : ComplexNodeOptions) : Z :=
  let spec_max := default (co_max_timeout_ms opt) (as_timeout_ms_max spec) in
  let hard_max := Z.min spec_max (co_max_timeout_ms opt) in
  if requested =? 0 then default (co_default_timeout_ms opt) (as_timeout_ms_default spec)
  else Z.min requested hard_max.

Definition complex_entry (spec : ActionSpec) : Value :=
  let e := map_insert "async" (VBool (as_async spec)) [] in
  let e := insert_opt "description" (VString <$> as_description spec) e in
  let e := insert_opt "params_anchor" (VString <$> as_params_anchor spec) e in
  let e := insert_opt "result_anchor" (VString <$> as_result_anchor spec) e in
  let e := insert_opt "timeout_ms_default" (vnat <$> as_timeout_ms_default spec) e in
  let e := insert_opt "timeout_ms_max" (vnat <$> as_timeout_ms_max spec) e in
  VObject (insert_opt "required_capability" (VString <$> as_required_capability spec) e).

Definition complex_actions_map (opt : ComplexNodeOptions) : Map :=
  fold_left (fun out kv => map_insert (fst kv) (complex_entry (snd kv)) out) (co_actions opt) [].

Definition complex_manifest (opt : ComplexNodeOptions) (prefix anchor_id : string) : Value :=
  let m := map_insert "nwp" (VString "0.4") [] in
  let m := map_insert "node_id" (VString (co_node_id opt)) m in
  let m := map_insert "node_type" (VString "complex") m in
  let m := insert_opt "display_name" (VString <$> co_display_name opt) m in
  let m := map_insert "wire_formats" (vstrings ["ncp-capsule"; "json"]) m in
  let m := map_insert "preferred_format" (VString "json") m in
  let m := if is_empty anchor_id then m else map_insert "schema_anchors" (VObject [("default", VString anchor_id)]) m in
  let query_cap := is_set (co_schema opt) || negb (length (co_graph opt) =? 0)%nat in
  let m := map_insert "capabilities"
             (VObject [("query", VBool query_cap); ("stream", VBool false); ("token_budget_hint", VBool true)]) m in
  let m := map_insert "auth"
             (VObject [("identity_type", VString (if co_require_auth opt then "nip-cert" else "none"));
                       ("required", VBool (co_require_auth opt))]) m in
  let endpoints := map_insert "query" (VString (prefix +:+ "/query")) [] in
  let endpoints := match co_actions opt with
                   | [] => endpoints
                   | _ => map_insert "invoke" (VString (prefix +:+ "/invoke")) endpoints
                   end in
  let endpoints := map_insert "schema" (VString (prefix +:+ "/.schema")) endpoints in
  let m := map_insert "endpoints" (VObject endpoints) m in
  let m := match co_graph opt with
           | [] => m
           | graph =>
             map_insert "graph"
               (VObject [("max_depth", vnat (co_graph_max_depth opt));
                         ("refs", VArray (map (fun r => VObject [("node_url", VString (gr_node_url r)); ("rel", VString (gr_rel r))])
                                            graph))]) m
           end in
  VObject m.

(** ** The app *)

Section app.
Context {D : Digests} `{JsonParser} {W : Type}.

Record ComplexNodeApp : Type := mkComplexApp {
  ca_opt : ComplexNodeOptions;
  ca_prefix : string;
  ca_provider : ComplexNodeProvider W;
  ca_fetcher : option (ChildFetcher W);
  ca_nwm_json : list Z;
  ca_schema_json : list Z;
  ca_actions_json : list Z;
  ca_anchor_id : string
}.

(** [None]: a reserved action is registered or the depth is past the cap, and
    [new] panics. *)
Definition complex_app_new (opt : ComplexNodeOptions) (provider : ComplexNodeProvider W)
    (fetcher : option (ChildFetcher W)) : option ComplexNodeApp :=
  if map_contains SYSTEM_TASK_STATUS (co_actions opt) || map_contains SYSTEM_TASK_CANCEL (co_actions opt) then None
  else if ABSOLUTE_MAX_DEPTH <? co_graph_max_depth opt then None
  else
    let prefix := trim_prefix (co_path_prefix opt) in
    let '(schema_json, anchor_id) :=
      match co_schema opt with
      | Some s => let sj := to_vec (build_frame_schema s) in (sj, "sha256:" +:+ hex_encode (sha256 sj))
      | None => (bytes_of "{}", "")
      end in
    Some (mkComplexApp opt prefix provider fetcher (to_vec (complex_manifest opt prefix anchor_id)) schema_json
            (to_vec (VObject [("actions", VObject (complex_actions_map opt))])) anchor_id).

Definition parse_depth (app : ComplexNodeApp) (req : NodeRequest) : result string Z :=
  match rq_header req "X-NWP-Depth" with
  | None => Ok 0
  | Some raw =>
    match parse_u32 raw with
    | None => Err ("X-NWP-Depth '" +:+ raw +:+ "' is not a non-negative integer.")
    | Some depth =>
      if co_graph_max_depth (ca_opt app) <? depth
      then Err ("X-NWP-Depth " +:+ fmt_Z depth +:+ " exceeds node max_depth " +:+ fmt_Z (co_graph_max_depth (ca_opt app)) +:+ ".")
      else if ABSOLUTE_MAX_DEPTH <? depth
      then Err ("X-NWP-Depth " +:+ fmt_Z depth +:+ " exceeds NPS-2 §11 absolute cap " +:+ fmt_Z ABSOLUTE_MAX_DEPTH +:+ ".")
      else Ok depth
    end
  end.

(** *** Queries *)

Definition fetch_child (app : ComplexNodeApp) (gref : ComplexGraphRef) (body : list Z) (child_depth : Z)
    (next_trace : list string) (agent budget : option string) (s : W) : Value * W :=
  match validate_child_url (gr_node_url gref) (co_allowed_child_url_prefixes (ca_opt app))
          (co_reject_private_child_urls (ca_opt app)) (co_allow_http_child_urls (ca_opt app)) with
  | Some err => (child_result (gr_rel gref) (gr_node_url gref) None (Some (AUTH_NID_SCOPE_VIOLATION, err)), s)
  | None =>
    match ca_fetcher app with
    | None => (child_result (gr_rel gref) (gr_node_url gref) None
                 (Some (NODE_UNAVAILABLE, "no child fetcher configured on this Complex Node.")), s)
    | Some fetch =>
      let '(outcome, s) := fetch (mkFetch (gr_node_url gref) body child_depth next_trace agent budget) s in
      (match outcome with
       | ChildOk capsule => child_result (gr_rel gref) (gr_node_url gref) (Some capsule) None
       | ChildErr code message => child_result (gr_rel gref) (gr_node_url gref) None (Some (code, message))
       end, s)
    end
  end.

Fixpoint fetch_children (app : ComplexNodeApp) (graph : list ComplexGraphRef) (body : list Z) (child_depth : Z)
    (next_trace : list string) (agent budget : option string) (s : W) : list Value * W :=
  match graph with
  | [] => ([], s)
  | gref :: rest =>
    let '(v, s) := fetch_child app gref body child_depth next_trace agent budget s in
    let '(vs, s) := fetch_children app rest body child_depth next_trace agent budget s in
    (v :: vs, s)
  end.

(** The [graph] of the answer, when the request goes deeper. *)
Definition expand_graph (app : ComplexNodeApp) (req : NodeRequest) (body : Value) (requested_depth : Z)
    (trace : list string) (s : W) : option Value * W :=
  if (0 <? requested_depth) && negb (length (co_graph (ca_opt app)) =? 0)%nat
  then
    let '(arr, s) := fetch_children app (co_graph (ca_opt app)) (to_vec body) (requested_depth - 1)
                       (trace ++ [co_node_id (ca_opt app)]) (rq_header req "X-NWP-Agent") (rq_header req "X-NWP-Budget") s in
    (Some (VArray arr), s)
  else (None, s).

Definition query_capsule (app : ComplexNodeApp) (local : MemoryNodeQueryResult) (graph_element : option Value) : NodeResponse :=
  let anchor := ca_anchor_id app in
  let caps := map_insert "anchor_ref" (if is_empty anchor then VNull else VString anchor) [] in
  let caps := map_insert "count" (vnat (Z.of_nat (length (qr_rows local)))) caps in
  let caps := map_insert "data" (VArray (map VObject (qr_rows local))) caps in
  let caps := insert_opt "next_cursor" (VString <$> qr_next_cursor local) caps in
  let caps := insert_opt "graph" graph_element caps in
  mkNodeResponse 200
    ([("content-type", MIME_CAPSULE); ("x-nwp-node-type", "complex")]
       ++ opt_header "x-nwp-schema" (if is_empty anchor then None else Some anchor))
    (to_vec (VObject caps)).

Definition graph_cycle_resp (app : ComplexNodeApp) : NodeResponse :=
  error_resp 422 "NPS-CLIENT-UNPROCESSABLE" GRAPH_CYCLE ("graph cycle detected at '" +:+ co_node_id (ca_opt app) +:+ "'.") None [].

Definition complex_handle_query (app : ComplexNodeApp) (req : NodeRequest) (s : W) : NodeResponse * W :=
  match parse_json (of_bytes (nr_body req)) with
  | Err e => (bad_request QUERY_FILTER_INVALID e, s)
  | Ok body =>
    match parsed_from_json body (co_default_limit (ca_opt app)) with
    | Err e => (bad_request QUERY_FILTER_INVALID e, s)
    | Ok frame =>
      match parse_depth app req with
      | Err e => (bad_request DEPTH_EXCEEDED e, s)
      | Ok requested_depth =>
        let trace := parse_trace req in
        if existsb (String.eqb (co_node_id (ca_opt app))) trace then (graph_cycle_resp app, s)
        else
          let '(r, s) := cp_query (ca_provider app) frame (ca_opt app) s in
          match r with
          | Err e => (bad_request (me_error_code e) (me_message e), s)
          | Ok local =>
            let '(graph_element, s) := expand_graph app req body requested_depth trace s in
            (query_capsule app local graph_element, s)
          end
      end
    end
  end.

(** *** Actions *)

Definition invoke_capsule (spec : ActionSpec) (frame : ParsedActionFrame) (result : ActionExecutionResult) : NodeResponse :=
  let anchor := default "" (match er_anchor_ref result with Some a => Some a | None => as_result_anchor spec end) in
  let data := match er_result result with Some v => [v] | None => [] end in
  let token_est := er_token_est result in
  let caps := map_insert "anchor_ref" (VString anchor) [] in
  let caps := map_insert "count" (vnat (Z.of_nat (length data))) caps in
  let caps := map_insert "data" (VArray data) caps in
  let caps := if 0 <? token_est then map_insert "token_est" (vnat token_est) caps else caps in
  mkNodeResponse 200
    ([("content-type", MIME_CAPSULE); ("x-nwp-node-type", "complex")]
       ++ opt_header "x-nwp-schema" (if is_empty anchor then None else Some anchor)
       ++ opt_header "x-nwp-tokens" (if 0 <? token_est then Some (fmt_Z token_est) else None)
       ++ opt_header "x-nwp-request-id" (af_request_id frame))
    (to_vec (VObject caps)).

Definition check_complex_action (app : ComplexNodeApp) (frame : ParsedActionFrame) : result NodeResponse ActionSpec :=
  spec ← ok_or (map_get (af_action_id frame) (co_actions (ca_opt app)))
    (error_resp 404 "NPS-CLIENT-NOT-FOUND" ACTION_NOT_FOUND
       ("Unknown action_id '" +:+ af_action_id frame +:+ "'.") None []);
  if af_async frame
  then Err (params_error "Complex Node does not support async actions; invoke a downstream Action Node instead.")
  else
    match af_priority frame with
    | Some p => if String.eqb p "low" || String.eqb p "normal" || String.eqb p "high" then Ok spec
                else Err (params_error ("priority '" +:+ p +:+ "' is invalid (allowed: low/normal/high)."))
    | None => Ok spec
    end.

Definition complex_handle_invoke (app : ComplexNodeApp) (req : NodeRequest) (s : W) : NodeResponse * W :=
  match parse_json (of_bytes (nr_body req)) with
  | Err e => (params_error e, s)
  | Ok body =>
    match action_from_json body with
    | Err e => (params_error e, s)
    | Ok frame =>
      match check_complex_action app frame with
      | Err resp => (resp, s)
      | Ok spec =>
        let ctx := mkActionContext (rq_header req "X-NWP-Agent") (af_request_id frame) None spec
                     (complex_clamp_timeout (af_timeout_ms frame) spec (ca_opt app))
                     (default "normal" (af_priority frame)) (Z.of_nat (length (nr_body req))) in
        let '(r, s) := cp_execute (ca_provider app) frame ctx s in
        match r with
        | Err e => (error_of e, s)
        | Ok result => (invoke_capsule spec frame result, s)
        end
      end
    end
  end.

(** *** Routes *)

Definition complex_handle (app : ComplexNodeApp) (req : NodeRequest) (s : W) : NodeResponse * W :=
  match strip_prefix (ca_prefix app) (nr_path req) with
  | None => (empty_response 404, s)
  | Some sub =>
    if co_require_auth (ca_opt app) && negb (is_set (rq_header req "X-NWP-Agent"))
    then (error_resp 401 "NPS-CLIENT-UNAUTHORIZED" AUTH_NID_SCOPE_VIOLATION "X-NWP-Agent header is required." None [], s)
    else if one_of sub "/.nwm" "/.nwm/"
    then (mkNodeResponse 200 [("content-type", MIME_MANIFEST); ("x-nwp-node-type", "complex")] (ca_nwm_json app), s)
    else if one_of sub "/.schema" "/.schema/"
    then (mkNodeResponse 200 (("content-type", "application/json")
                                :: opt_header "x-nwp-schema" (if is_empty (ca_anchor_id app) then None else Some (ca_anchor_id app)))
            (ca_schema_json app), s)
    else if one_of sub "/actions" "/actions/"
    then (mkNodeResponse 200 [("content-type", "application/json")] (ca_actions_json app), s)
    else if one_of sub "/query" "/query/"
    then if negb (String.eqb (nr_method req) "POST") then (empty_response 405, s) else complex_handle_query app req s
    else if one_of sub "/invoke" "/invoke/"
    then if negb (String.eqb (nr_method req) "POST") then (empty_response 405, s) else complex_handle_invoke app req s
    else (empty_response 404, s)
  end.
End app.
Arguments ComplexNodeApp : clear implicits.
