(* ===== verification/NwpComplexSpec.v ===== *)
(** * NwpComplexSpec: what a complex node asks of its children

    Every fetch of a complex node is one its guard admits, deeper nodes are
    asked for less depth, and a network of nodes that reference each other
    answers after finitely many fetches, none of which comes back to a node on
    its own path. *)

From S2P Require Import Prelude RustStr Json CoreCache NwpMemory NwpAction NwpComplex.
Local Open Scope Z_scope.

(** ** One node *)

(** The guard of a child URL, with the options of the node. *)
Definition child_ok (opt : ComplexNodeOptions) (url : string) : Prop :=
  validate_child_url url (co_allowed_child_url_prefixes opt) (co_reject_private_child_urls opt)
    (co_allow_http_child_urls opt) = None.

Section node.
Context {D : Digests} `{JsonParser} {W : Type}.

(** A node that also lists the fetches it makes. *)
Definition recorded_fetch (f : ChildFetcher W) : ChildFetcher (W * list FetchCall) :=
  fun c s => let '(o, w) := f c (fst s) in (o, (w, snd s ++ [c])).
Definition recorded_provider (p : ComplexNodeProvider W) : ComplexNodeProvider (W * list FetchCall) :=
  mkComplexProvider
    (fun frame opt s => let '(r, w) := cp_query p frame opt (fst s) in (r, (w, snd s)))
    (fun frame ctx s => let '(r, w) := cp_execute p frame ctx (fst s) in (r, (w, snd s))).
Definition recorded (app : ComplexNodeApp W) : ComplexNodeApp (W * list FetchCall) :=
  mkComplexApp (ca_opt app) (ca_prefix app) (recorded_provider (ca_provider app)) (recorded_fetch <$> ca_fetcher app)
    (ca_nwm_json app) (ca_schema_json app) (ca_actions_json app) (ca_anchor_id app).

(** A fetch the node may make for a request. *)
Record admissible (app : ComplexNodeApp W) (req : NodeRequest) (c : FetchCall) : Prop := {
  ad_url : child_ok (ca_opt app) (fc_node_url c);
  ad_listed : fc_node_url c ∈ map gr_node_url (co_graph (ca_opt app));
  ad_depth : parse_depth app req = Ok (fc_child_depth c + 1);
  ad_bound : 0 <= fc_child_depth c < Z.min ABSOLUTE_MAX_DEPTH (co_graph_max_depth (ca_opt app));
  ad_fresh : co_node_id (ca_opt app) ∉ parse_trace req;
  ad_trace : fc_trace c = parse_trace req ++ [co_node_id (ca_opt app)];
  ad_agent : fc_agent c = rq_header req "X-NWP-Agent";
  ad_budget : fc_budget c = rq_header req "X-NWP-Budget"
}.

Lemma parse_depth_bounds (app : ComplexNodeApp W) req d : parse_depth app req = Ok d ->
  d <= ABSOLUTE_MAX_DEPTH /\ (d = 0 \/ d <= co_graph_max_depth (ca_opt app)) /\ 0 <= d.
Proof.
  unfold parse_depth. destruct (rq_header req "X-NWP-Depth") as [raw|]; [|intros [= <-]; split; [done |]; split; [by left | done]].
  destruct (parse_u32 raw) as [n|] eqn:E; [|done].
  destruct (_ <? n) eqn:E1; [done |]. destruct (ABSOLUTE_MAX_DEPTH <? n) eqn:E2; [done |]. intros [= <-]. cmp_hyps.
  assert (0 <= n); [|lia]. unfold parse_u32 in E. destruct (parse_u64 raw) as [v|] eqn:Ev; [|done]. cbn in E.
  apply parse_u64_range in Ev. unfold u64_range in Ev. destruct (v <=? 4294967295); [|done]. injection E as <-. lia.
Qed.

Lemma fetch_children_recorded app graph body d tr agent budget : forall w calls,
  exists vs w' new,
    fetch_children app graph body d tr agent budget w = (vs, w') /\
    fetch_children (recorded app) graph body d tr agent budget (w, calls) = (vs, (w', calls ++ new)) /\
    map fc_node_url new `sublist_of` map gr_node_url graph /\
    Forall (fun c => child_ok (ca_opt app) (fc_node_url c) /\ c = mkFetch (fc_node_url c) body d tr agent budget) new.
Proof.
  induction graph as [|gref graph IH]; intros w calls; cbn [fetch_children map].
  - exists [], w, []. rewrite app_nil_r. repeat split; constructor.
  - unfold fetch_child. cbn [ca_opt ca_fetcher recorded].
    destruct (validate_child_url _ _ _ _) as [err|] eqn:Ev.
    { destruct (IH w calls) as (vs & w' & new & -> & -> & Hs & Hf). do 3 eexists. split; [done |]. split; [done |].
      split; [by constructor | done]. }
    destruct (ca_fetcher app) as [f|]; cbn [fmap option_fmap option_map].
    2: { destruct (IH w calls) as (vs & w' & new & -> & -> & Hs & Hf). do 3 eexists. split; [done |]. split; [done |].
         split; [by constructor | done]. }
    unfold recorded_fetch. cbn [fst snd]. set (c := mkFetch _ _ _ _ _ _).
    destruct (f c w) as [o w1]. destruct (IH w1 (calls ++ [c])) as (vs & w' & new & -> & -> & Hs & Hf).
    do 2 eexists. exists (c :: new). split; [done |]. split; [by rewrite <- app_assoc |].
    split; [cbn; by constructor |]. constructor; [|done]. split; [exact Ev | done].
Qed.

Lemma handle_query_recorded app req w : exists resp w' new,
  complex_handle_query app req w = (resp, w') /\
  complex_handle_query (recorded app) req (w, []) = (resp, (w', new)) /\
  map fc_node_url new `sublist_of` map gr_node_url (co_graph (ca_opt app)) /\ Forall (admissible app req) new.
Proof.
  assert (Hnil : forall resp : NodeResponse, exists r w' new, (resp, w) = (r, w') /\ (resp, (w, [])) = (r, (w', new)) /\
    map fc_node_url new `sublist_of` map gr_node_url (co_graph (ca_opt app)) /\ Forall (admissible app req) new).
  { intros resp. exists resp, w, []. repeat split; [apply sublist_nil_l | constructor]. }
  unfold complex_handle_query. change (ca_opt (recorded app)) with (ca_opt app).
  destruct (parse_json (of_bytes (nr_body req))) as [body|]; [|apply Hnil].
  destruct (parsed_from_json body _) as [frame|]; [|apply Hnil].
  change (parse_depth (recorded app) req) with (parse_depth app req).
  destruct (parse_depth app req) as [d|] eqn:Ed; [|apply Hnil].
  destruct (existsb _ (parse_trace req)) eqn:Ec; [apply Hnil |].
  cbn [recorded ca_provider recorded_provider cp_query fst snd].
  destruct (cp_query (ca_provider app) frame (ca_opt app) w) as [[local|e] w1].
  2: { do 2 eexists. exists []. repeat split; [apply sublist_nil_l | constructor]. }
  unfold expand_graph. change (ca_opt (recorded app)) with (ca_opt app).
  destruct ((0 <? d) && _) eqn:Ex.
  2: { do 2 eexists. exists []. repeat split; [apply sublist_nil_l | constructor]. }
  destruct (fetch_children_recorded app (co_graph (ca_opt app)) (to_vec body) (d - 1)
              (parse_trace req ++ [co_node_id (ca_opt app)]) (rq_header req "X-NWP-Agent") (rq_header req "X-NWP-Budget") w1 [])
    as (vs & w' & new & -> & -> & Hs & Hf).
  do 2 eexists. exists new. split; [done |]. split; [done |]. split; [done |].
  apply andb_true_iff in Ex as [Ex _]. cmp_hyps. pose proof (parse_depth_bounds app req d Ed).
  assert (Hfresh : co_node_id (ca_opt app) ∉ parse_trace req).
  { intros Hin. apply not_true_iff_false in Ec. apply Ec, existsb_exists. eexists. split; [by apply list_elem_of_In | apply String.eqb_refl]. }
  apply Forall_forall. intros c Hc. rewrite Forall_forall in Hf. destruct (Hf c Hc) as [Hok E]. rewrite E in *.
  cbn in *. constructor; cbn; try done.
  - apply (sublist_subseteq _ _ Hs). by apply (list_elem_of_fmap_2 fc_node_url _ _ Hc).
  - rewrite Ed. f_equal. lia.
  - lia.
Qed.
(** The guard of a complex node.  Whatever the request, the node makes at
    most one fetch for each of its references, and only to a URL its options
    admit (https unless plain http is allowed, within the prefixes, no private
    host), with one less depth than the request has, which is within the cap
    and the maximum of the node, with its own identifier added to a trace it
    was not on, and with the caller's identity and budget. *)
Theorem complex_fetch_guard app req w : exists resp w' calls,
  complex_handle app req w = (resp, w') /\
  complex_handle (recorded app) req (w, []) = (resp, (w', calls)) /\
  map fc_node_url calls `sublist_of` map gr_node_url (co_graph (ca_opt app)) /\
  Forall (admissible app req) calls.
Proof.
  assert (Hnil : forall resp : NodeResponse, exists r w' new, (resp, w) = (r, w') /\ (resp, (w, [])) = (r, (w', new)) /\
    map fc_node_url new `sublist_of` map gr_node_url (co_graph (ca_opt app)) /\ Forall (admissible app req) new).
  { intros resp. exists resp, w, []. repeat split; [apply sublist_nil_l | constructor]. }
  unfold complex_handle. change (ca_opt (recorded app)) with (ca_opt app). change (ca_prefix (recorded app)) with (ca_prefix app).
  destruct (strip_prefix (ca_prefix app) (nr_path req)) as [sub|]; [|apply Hnil].
  destruct (_ && _); [apply Hnil |]. do 3 (destruct (one_of sub _ _); [apply Hnil |]).
  destruct (one_of sub "/query" "/query/"); [destruct (negb _); [apply Hnil | apply handle_query_recorded] |].
  destruct (one_of sub _ _); [|apply Hnil]. destruct (negb _); [apply Hnil |].
  unfold complex_handle_invoke. destruct (parse_json (of_bytes (nr_body req))) as [body|]; [|apply Hnil].
  destruct (action_from_json body) as [frame|]; [|apply Hnil].
  change (check_complex_action (recorded app) frame) with (check_complex_action app frame).
  destruct (check_complex_action app frame) as [spec|]; [|apply Hnil].
  cbn [recorded ca_provider recorded_provider cp_execute fst snd ca_opt].
  destruct (cp_execute (ca_provider app) frame _ w) as [[result|e] w1]; do 2 eexists; exists [];
    (split; [done |]; split; [done |]; split; [apply sublist_nil_l | constructor]).
Qed.

(** *** The fetcher counts only on admissible calls *)

Definition with_fetcher (f : ChildFetcher W) (app : ComplexNodeApp W) : ComplexNodeApp W :=
  mkComplexApp (ca_opt app) (ca_prefix app) (ca_provider app) (Some f) (ca_nwm_json app) (ca_schema_json app)
    (ca_actions_json app) (ca_anchor_id app).

Lemma fetch_children_agree app f g graph body d tr agent budget :
  (forall url w, child_ok (ca_opt app) url -> url ∈ map gr_node_url graph ->
     f (mkFetch url body d tr agent budget) w = g (mkFetch url body d tr agent budget) w) ->
  forall w, fetch_children (with_fetcher f app) graph body d tr agent budget w =
            fetch_children (with_fetcher g app) graph body d tr agent budget w.
Proof.
  induction graph as [|gref graph IH]; intros Hfg w; [done |]. cbn [fetch_children].
  assert (E : fetch_child (with_fetcher f app) gref body d tr agent budget w =
              fetch_child (with_fetcher g app) gref body d tr agent budget w).
  { unfold fetch_child. cbn [with_fetcher ca_opt ca_fetcher]. destruct (validate_child_url _ _ _ _) eqn:Ev; [done |].
    rewrite Hfg; [done | exact Ev | left]. }
  rewrite E. destruct (fetch_child (with_fetcher g app) gref body d tr agent budget w) as [v w1].
  rewrite IH; [done |]. intros url w2 Hok Hin. apply Hfg; [done | by right].
Qed.

Lemma handle_agree app f g req : (forall c w, admissible app req c -> f c w = g c w) ->
  forall w, complex_handle (with_fetcher f app) req w = complex_handle (with_fetcher g app) req w.
Proof.
  intros Hfg w. unfold complex_handle. cbn [with_fetcher ca_opt ca_prefix].
  destruct (strip_prefix (ca_prefix app) (nr_path req)) as [sub|]; [|done].
  destruct (_ && _); [done |]. do 3 (destruct (one_of sub _ _); [done |]).
  destruct (one_of sub "/query" "/query/"); [|done]. destruct (negb _); [done |].
  unfold complex_handle_query. cbn [with_fetcher ca_opt ca_provider].
  destruct (parse_json (of_bytes (nr_body req))) as [body|]; [|done].
  destruct (parsed_from_json body _) as [frame|]; [|done].
  change (parse_depth (with_fetcher f app) req) with (parse_depth app req).
  change (parse_depth (with_fetcher g app) req) with (parse_depth app req).
  destruct (parse_depth app req) as [d|] eqn:Ed; [|done].
  destruct (existsb _ (parse_trace req)) eqn:Ec; [done |].
  destruct (cp_query (ca_provider app) frame (ca_opt app) w) as [[local|e] w1]; [|done].
  unfold expand_graph. cbn [with_fetcher ca_opt].
  destruct ((0 <? d) && _) eqn:Ex; [|done]. rewrite (fetch_children_agree app f g); [done |].
  intros url w2 Hok Hin. apply Hfg. apply andb_true_iff in Ex as [Ex _]. cmp_hyps.
  pose proof (parse_depth_bounds app req d Ed). constructor; cbn; try done.
  - rewrite Ed. f_equal. lia.
  - lia.
  - intros Hn. apply not_true_iff_false in Ec. apply Ec, existsb_exists. eexists.
    split; [by apply list_elem_of_In | apply String.eqb_refl].
Qed.
End node.

(** ** A network of nodes *)

Section network.
Context {D : Digests} `{JsonParser} {W : Type}.

(** The node at a URL, and what comes back of an answer. *)
Context (nodes : string -> option (ComplexNodeApp W)) (outcome_of : NodeResponse -> ChildOutcome) (unreachable : ChildOutcome).

(** The request of a fetch: the depth, the trace, the agent and the budget in
    the headers the node reads them from. *)
Definition child_headers (c : FetchCall) : gmap string string :=
  list_to_map
    ([("x-nwp-depth", fmt_Z (fc_child_depth c)); ("x-nwp-trace", join "," (fc_trace c))]
       ++ opt_header "x-nwp-agent" (fc_agent c) ++ opt_header "x-nwp-budget" (fc_budget c)).
Definition child_request (app : ComplexNodeApp W) (c : FetchCall) : NodeRequest :=
  mkNodeRequest "POST" (ca_prefix app +:+ "/query") (child_headers c) (fc_body c).

(** Nodes that fetch from one another: [fuel] bounds the levels, past which
    [last] answers. *)
Fixpoint network_fetch (last : ChildFetcher W) (fuel : nat) : ChildFetcher W :=
  match fuel with
  | O => last
  | S fuel => fun c w =>
    match nodes (fc_node_url c) with
    | None => (unreachable, w)
    | Some app =>
      let '(resp, w) := complex_handle (with_fetcher (network_fetch last fuel) app) (child_request app c) w in
      (outcome_of resp, w)
    end
  end.

Lemma child_headers_get c :
  child_headers c !! "x-nwp-depth" = Some (fmt_Z (fc_child_depth c)) /\
  child_headers c !! "x-nwp-trace" = Some (join "," (fc_trace c)).
Proof.
  unfold child_headers. cbn [app list_to_map foldr fst snd].
  split; [apply lookup_insert_eq |]. rewrite lookup_insert_ne by done. apply lookup_insert_eq.
Qed.

Lemma child_request_depth app c : 0 <= fc_child_depth c <= ABSOLUTE_MAX_DEPTH ->
  parse_u32 (fmt_Z (fc_child_depth c)) = Some (fc_child_depth c) /\
  rq_header (child_request app c) "X-NWP-Depth" = Some (fmt_Z (fc_child_depth c)).
Proof.
  intros Hd. split; [|apply child_headers_get].
  assert (E : fc_child_depth c = 0 \/ fc_child_depth c = 1 \/ fc_child_depth c = 2 \/ fc_child_depth c = 3 \/
              fc_child_depth c = 4 \/ fc_child_depth c = 5) by (unfold ABSOLUTE_MAX_DEPTH in Hd; lia).
  by destruct E as [->|[->|[->|[->|[->| ->]]]]].
Qed.

(** A fetch leads to another: a node at its URL may make it. *)
Definition leads (c c' : FetchCall) : Prop :=
  exists app, nodes (fc_node_url c) = Some app /\ admissible app (child_request app c) c'.

Lemma leads_depth c c' : 0 <= fc_child_depth c <= ABSOLUTE_MAX_DEPTH -> leads c c' ->
  fc_child_depth c = fc_child_depth c' + 1 /\ 0 <= fc_child_depth c'.
Proof.
  intros Hd (app & _ & Ha). pose proof (ad_depth _ _ _ Ha) as E. pose proof (ad_bound _ _ _ Ha).
  destruct (child_request_depth app c Hd) as [Ep Eh]. unfold parse_depth in E. rewrite Eh, Ep in E.
  destruct (_ <? _); [done |]. destruct (_ <? _); [done |]. injection E as E. lia.
Qed.

(** The identifiers of the nodes can be told apart in a trace. *)
Definition clean_id (s : string) : Prop := is_empty s = false /\ trim s = s /\ lacks "," s.

Lemma child_request_trace app c : fc_trace c <> [] -> Forall clean_id (fc_trace c) ->
  parse_trace (child_request app c) = fc_trace c.
Proof.
  intros Hne Hc. unfold parse_trace, rq_header.
  change (nr_headers (child_request app c) !! to_ascii_lowercase TRACE_HEADER) with (child_headers c !! "x-nwp-trace").
  rewrite (proj2 (child_headers_get c)), split_on_join; [|by eapply Forall_impl; [exact Hc |]; intros ? [_ [_ ?]] | done].
  clear Hne. induction Hc as [|s l (H1 & H2 & _) Hl IH]; [done |]. cbn [map List.filter]. rewrite H2, H1. cbn [negb]. by rewrite IH.
Qed.

Lemma leads_trace c c' : fc_trace c <> [] -> Forall clean_id (fc_trace c) -> leads c c' ->
  exists app, nodes (fc_node_url c) = Some app /\ fc_trace c' = fc_trace c ++ [co_node_id (ca_opt app)] /\
    co_node_id (ca_opt app) ∉ fc_trace c.
Proof.
  intros Hne Hc (app & Ea & Ha). exists app. split; [done |]. pose proof (ad_trace _ _ _ Ha) as Et. pose proof (ad_fresh _ _ _ Ha) as Hf.
  by rewrite (child_request_trace app c Hne Hc) in Et, Hf.
Qed.
Lemma network_fuel last last' d : forall fuel fuel' c w, fc_child_depth c = Z.of_nat d -> (d <= 5)%nat ->
  (d < fuel)%nat -> (d < fuel')%nat -> network_fetch last fuel c w = network_fetch last' fuel' c w.
Proof.
  induction d as [|d IH]; intros [|fuel] [|fuel'] c w Ed Hle Hf Hf'; try lia; cbn [network_fetch];
    destruct (nodes (fc_node_url c)) as [app|] eqn:Ea; try done;
    (rewrite (handle_agree app (network_fetch last fuel) (network_fetch last' fuel')); [done |]);
    intros c' w' Hc'; (destruct (leads_depth c c') as [E H0]; [unfold ABSOLUTE_MAX_DEPTH; lia | by exists app |]).
  - lia.
  - apply IH; lia.
Qed.

(** C17: nodes that fetch from one another, whatever they reference, come to an
    end: the answer of a fetch of depth d is settled by d further levels, five
    at most, and does not depend on what would answer beyond; each level takes
    one of the depth.  Where the identifiers of the nodes and of the trace can
    be told apart in a trace (they are not empty, have no space at their ends
    and no comma), no node is visited twice on the way to any fetch, and the
    trace of a fetch is the nodes visited; a node with a comma in its identifier
    does not find itself in a trace ([comma_id_unnoticed]) and may be visited
    again, as often as the depth allows. *)
Theorem network_expansion c : 0 <= fc_child_depth c <= ABSOLUTE_MAX_DEPTH ->
  (forall last last' fuel fuel' w, (Z.to_nat (fc_child_depth c) < fuel)%nat -> (Z.to_nat (fc_child_depth c) < fuel')%nat ->
     network_fetch last fuel c w = network_fetch last' fuel' c w) /\
  (forall k c', nsteps leads k c c' -> 0 <= fc_child_depth c' /\ Z.of_nat k = fc_child_depth c - fc_child_depth c') /\
  ((forall url app, nodes url = Some app -> clean_id (co_node_id (ca_opt app))) ->
   fc_trace c <> [] -> Forall clean_id (fc_trace c) -> NoDup (fc_trace c) ->
   forall k c', nsteps leads k c c' -> NoDup (fc_trace c') /\
     exists visited, fc_trace c' = fc_trace c ++ visited /\ length visited = k).
Proof.
  intros Hd. split; [|split].
  - intros last last' fuel fuel' w Hf Hf'. apply (network_fuel last last' (Z.to_nat (fc_child_depth c)));
      unfold ABSOLUTE_MAX_DEPTH in *; lia.
  - intros k c' Hr. revert Hd. induction Hr as [c|k c c1 c' Hl Hr IH]; intros Hd; [lia |].
    destruct (leads_depth c c1 Hd Hl) as [Ed H0]. destruct IH as [H1' H2']; lia.
  - intros Hids Hne Hclean Hnd k c' Hr. revert Hd Hne Hclean Hnd. induction Hr as [c|k c c1 c' Hl Hr IH]; intros Hd Hne Hclean Hnd.
    { split; [done |]. exists []. by rewrite app_nil_r. }
    destruct (leads_depth c c1 Hd Hl) as [Ed H0]. destruct (leads_trace c c1 Hne Hclean Hl) as (app & Ea & Et & Hn).
    destruct IH as (Hnd' & visited & Ev & Hlen).
    + lia.
    + rewrite Et. destruct (fc_trace c); discriminate.
    + rewrite Et. apply Forall_app. split; [done |]. constructor; [by eapply Hids | constructor].
    + rewrite Et. apply NoDup_app. split; [done |]. split; [|apply NoDup_singleton]. by intros x Hx ->%list_elem_of_singleton.
    + split; [done |]. exists (co_node_id (ca_opt app) :: visited). split; [by rewrite Ev, Et, <- app_assoc |].
      cbn [length]. lia.
Qed.
End network.

(** ** Edges of the node *)

(** A prefix is compared as text: it need not end at a label of the host. *)
Lemma prefix_without_boundary :
  validate_child_url "https://a.example.evil.org/q" ["https://a.example"] true false = None.
Proof. vm_compute. reflexivity. Qed.

(** A node whose identifier has a comma does not find itself in a trace. *)
Lemma comma_id_unnoticed {D : Digests} `{JsonParser} (app : ComplexNodeApp unit) :
  parse_trace (child_request app (mkFetch "https://a.example" [] 1 ["a,b"] None None)) = ["a"; "b"].
Proof. vm_compute. reflexivity. Qed.

(** Without a timeout of the request the default of the action is taken as it
    is, past the maximum of the node. *)
Lemma complex_default_timeout_unclamped :
  complex_clamp_timeout 0 (mkSpec None None None false None (Some 900000) (Some 1000) None) (complex_options_new "n" "/n") = 900000.
Proof. reflexivity. Qed.

(** ** Witnesses *)

Definition empty_parser : JsonParser := {| parse_json _ := Ok (VObject []) |}.

Definition toy_complex (id : string) (child : string) : ComplexNodeApp unit :=
  mkComplexApp
    (mkComplexOptions id None "/n" None [] [mkGraphRef "next" child] 5 [] true false false 20 1000 5000 300000)
    "/n" NullComplexNodeProvider None [] [] [] "".
Definition toy_network (url : string) : option (ComplexNodeApp unit) :=
  if String.eqb url "https://a.example" then Some (toy_complex "a" "https://b.example")
  else if String.eqb url "https://b.example" then Some (toy_complex "b" "https://a.example") else None.
Definition toy_fetch : FetchCall := mkFetch "https://a.example" [] 1 ["root"] None None.

(** Two nodes that reference each other. *)
Lemma network_expansion_witness :
  Forall clean_id ["root"; "a"; "b"] /\
  exists c', leads toy_network toy_fetch c' /\ fc_trace c' = ["root"; "a"] /\ NoDup (fc_trace c').
Proof.
  assert (Hids : Forall clean_id ["root"; "a"; "b"]) by (repeat constructor).
  split; [exact Hids |].
  set (c' := mkFetch "https://b.example" [] 0 ["root"; "a"] None None).
  assert (Hl : leads toy_network toy_fetch c').
  { exists (toy_complex "a" "https://b.example"). split; [reflexivity |]. constructor; try (vm_compute; reflexivity).
    - left.
    - split; [discriminate | vm_compute; reflexivity].
    - apply (bool_decide_unpack _). vm_compute. exact I. }
  exists c'. split; [exact Hl |]. split; [reflexivity |].
  destruct (@network_expansion toy_digests empty_parser unit toy_network (fun _ => ChildOk VNull) (ChildErr "" "") toy_fetch)
    as (_ & _ & H).
  - split; [discriminate | vm_compute; discriminate].
  - apply (H ltac:(intros url app; unfold toy_network; repeat destruct (String.eqb _ _); intros [= <-]; repeat split)
      ltac:(discriminate) ltac:(repeat constructor) (NoDup_singleton _) 1%nat c').
    by apply nsteps_once.
Defined.
