(* ===== verification/NwpLlm.v ===== *)
(** * NwpLlm: the stateful LLM actions over the context store

    Models nps-nwp/src/llm_action_server.rs, with the requests, responses and
    stream chunks of llm.rs: the provider that wraps another one, reserves a
    context before the completion and commits or aborts it after.  The wrapped
    provider and the authorizer are arguments.  Other threads run between the
    steps of a request: [le_others] is what they make of the store, [le_flag]
    what the reads of the cancellation flag see, and [le_listener] says before
    which steps the listener of the cancellation has run. *)

From S2P Require Import Prelude Calls RustStr Json CoreCache ErrorCodes NwpContext NwpMemory NwpAction.
Local Open Scope Z_scope.

(** ** Data (llm.rs) *)

Definition LLM_CONTEXT_STATUS : string := "llm.context.status".
Definition LLM_COMPLETE_RESPONSE_ANCHOR : string := "nps:system:llm.complete:response".
Definition LLM_COMPLETE_STREAM_ANCHOR : string := "nps:system:llm.complete:stream".
Definition LLM_CONTEXT_STATUS_RESPONSE_ANCHOR : string := "nps:system:llm.context.status:response".
Definition LLM_CONTEXT_RELEASE_RESPONSE_ANCHOR : string := "nps:system:llm.context.release:response".
Definition CAPABILITY_LLM_COMPLETE : string := "llm:complete".
Definition CAPABILITY_LLM_CONTEXT : string := "llm:context".
Definition CAPABILITY_LLM_STREAM : string := "llm:stream".
Definition CAPABILITY_LLM_TOOL_CALL : string := "llm:tool_call".

Inductive LlmStopReason : Type := EndTurn | ToolUse | ToolCalls | MaxTokens | StopLength | StopError.
#[export] Instance LlmStopReason_eq_dec : EqDecision LlmStopReason.
Proof. solve_decision. Defined.

Record LlmContextRequestDto : Type := mkContextRequest {
  cr_operation : LlmContextOperation;
  cr_context_id : option string;
  cr_base_version : option Z;
  cr_ttl_seconds : option Z
}.
Record LlmContextStatusRequestDto : Type := mkStatusRequest {
  sr_context_id : option string; sr_idempotency_key : option string }.
Record LlmContextReleaseRequestDto : Type := mkReleaseRequest {
  rr_context_id : string; rr_base_version : Z }.
Record LlmUsageDto : Type := mkUsage {
  us_input_tokens : option Z;
  us_output_tokens : option Z;
  us_cache_hit : option bool;
  us_reused_tokens : option Z;
  us_evaluated_tokens : option Z;
  us_wire_input_bytes : option Z
}.
Record LlmCompleteActionRequest : Type := mkCompleteRequest {
  cq_kind : string;
  cq_model : string;
  cq_max_tokens : option Z;
  cq_stream : bool;
  cq_messages : list LlmMessageDto;
  cq_tools : option (list LlmToolDefinitionDto);
  cq_context : option LlmContextRequestDto
}.
Record LlmCompleteActionResponse : Type := mkCompleteResponse {
  cs_stop_reason : LlmStopReason;
  cs_content : option string;
  cs_tool_calls : option (list LlmToolCallDto);
  cs_error : option string;
  cs_usage : option LlmUsageDto;
  cs_context : option LlmContextReceiptDto
}.
Record LlmCompleteStreamChunkDto : Type := mkChunk {
  ch_content_delta : option string;
  ch_tool_calls : option (list LlmToolCallDto);
  ch_stop_reason : option LlmStopReason;
  ch_error : option string;
  ch_usage : option LlmUsageDto;
  ch_context : option LlmContextReceiptDto
}.

(** What serde derives for these types. *)
Class LlmSerde : Type := {
  complete_request_of : Value -> result string LlmCompleteActionRequest;
  status_request_of : Value -> result string LlmContextStatusRequestDto;
  release_request_of : Value -> result string LlmContextReleaseRequestDto;
  response_of : Value -> result string LlmCompleteActionResponse;
  chunk_of : Value -> result string LlmCompleteStreamChunkDto;
  response_to : LlmCompleteActionResponse -> result string Value;
  chunk_to : LlmCompleteStreamChunkDto -> result string Value;
  status_to : LlmContextStatusDto -> result string Value;
  receipt_to : LlmContextReceiptDto -> result string Value
}.

Definition with_receipt (r : option LlmContextReceiptDto) (p : LlmCompleteActionResponse) : LlmCompleteActionResponse :=
  mkCompleteResponse (cs_stop_reason p) (cs_content p) (cs_tool_calls p) (cs_error p) (cs_usage p) r.
Definition chunk_receipt (r : option LlmContextReceiptDto) (c : LlmCompleteStreamChunkDto) : LlmCompleteStreamChunkDto :=
  mkChunk (ch_content_delta c) (ch_tool_calls c) (ch_stop_reason c) (ch_error c) (ch_usage c) r.

(** ** Options and errors *)

Inductive LlmAuthorizationStage : Type := Admission | Commit.

Definition LlmContextAuthorizer : Type :=
  LlmContextOwner -> string -> LlmAuthorizationStage -> list string -> ActionContext -> result ActionError unit.

Record StatefulLlmActionOptions : Type := mkLlmOptions {
  lo_security_scope : string;
  lo_runtime_revision : string;
  lo_provider_name : option string;
  lo_default_model : option string;
  lo_supports_tools : bool;
  lo_supports_stream : bool;
  lo_supports_json_mode : bool;
  lo_reasoning_visibility : option string;
  lo_authorizer : option LlmContextAuthorizer
}.

Definition llm_options_new (security_scope runtime_revision : string) : StatefulLlmActionOptions :=
  mkLlmOptions security_scope runtime_revision None None false false false None None.

Definition llm_params_error (message : string) : ActionError :=
  mkActionError 422 "NPS-CLIENT-UNPROCESSABLE" ACTION_PARAMS_INVALID message.

Definition llm_store_error (e : LlmContextStoreError) : ActionError :=
  let nps_status := nwp_to_nps_status (se_error_code e) in
  mkActionError (default 500 (to_http_status nps_status)) nps_status (se_error_code e) (se_message e).

Definition no_owner_error : ActionError :=
  mkActionError 401 "NPS-AUTH-UNAUTHENTICATED" AUTH_NID_SCOPE_VIOLATION
    "stateful LLM context actions require an authenticated agent NID".
Definition no_authorizer_error : ActionError :=
  mkActionError 403 "NPS-AUTH-FORBIDDEN" LLM_CONTEXT_FORBIDDEN "stateful LLM context authorization is not configured".

Definition required_capabilities (frame : ParsedActionFrame) : list string :=
  if String.eqb (af_action_id frame) LLM_CONTEXT_STATUS || String.eqb (af_action_id frame) LLM_CONTEXT_RELEASE
  then [CAPABILITY_LLM_CONTEXT]
  else
    let param (k : string) : option Value := v ← af_params frame; o ← as_object v; map_get k o in
    [CAPABILITY_LLM_COMPLETE; CAPABILITY_LLM_CONTEXT]
      ++ (if bool_decide ((param "stream" ≫= as_bool) = Some true) then [CAPABILITY_LLM_STREAM] else [])
      ++ (match param "tools" ≫= as_array with Some (_ :: _) => [CAPABILITY_LLM_TOOL_CALL] | _ => [] end).

(** ** The guard of a reservation *)

Inductive GuardState : Type := ReservationActive | ReservationCommitting | ReservationAborted | ReservationCommitted.
#[export] Instance GuardState_eq_dec : EqDecision GuardState.
Proof. solve_decision. Defined.

(** The state the clones of a guard share, and the store. *)
Record LlmWorld : Type := mkLlmWorld { lw_guard : GuardState; lw_store : StoreState }.
Definition set_guard (g : GuardState) (w : LlmWorld) : LlmWorld := mkLlmWorld g (lw_store w).

(** The clock readings, the identifiers and the cancellation of one request. *)
Record LlmEnv : Type := mkLlmEnv {
  le_read : Z;
  le_reserve : Z;
  le_abort : Z;
  le_commit : Z;
  le_new_id : result LlmContextStoreError string;
  le_factory : nat -> result LlmContextStoreError string;
  le_flag : nat -> bool;
  le_listener : nat -> bool;
  le_others : nat -> StoreState -> StoreState
}.

Section provider.
Context {D : Digests} `{ContextTime} `{BindingSerde} `{LlmSerde}.
Context (sopts : LlmContextStoreOptions) (options : StatefulLlmActionOptions).
Context (inner_authorize : ParsedActionFrame -> ActionContext -> result ActionError unit).
Context (inner_execute : ParsedActionFrame -> ActionContext -> result ActionError ActionExecutionResult).

Local Open Scope call_scope.

Definition world_op {E A} (f : E -> ActionError) (m : Call (E := E) (S := StoreState) A) : Call (E := ActionError) (S := LlmWorld) A := fun w =>
  match m (lw_store w) with
  | None => None
  | Some (r, st) => Some (map_err f r, mkLlmWorld (lw_guard w) st)
  end.
Definition store_op {A} (m : Call (E := LlmContextStoreError) (S := StoreState) A) : Call (E := ActionError) (S := StoreState) A :=
  fun st => match m st with None => None | Some (r, st) => Some (map_err llm_store_error r, st) end.

(** An operation of the store whose outcome is dropped. *)
Definition ignore {A} (m : Call (E := LlmContextStoreError) (S := StoreState) A) : Call (E := ActionError) (S := LlmWorld) unit := fun w =>
  match m (lw_store w) with
  | None => None
  | Some (_, st) => Some (Ok tt, mkLlmWorld (lw_guard w) st)
  end.

Definition guard_abort (env : LlmEnv) (h : LlmContextMutationReservation) (error_code : string)
    : Call (E := ActionError) (S := LlmWorld) unit :=
  g <- call_get lw_guard ;;
  match g with
  | ReservationActive =>
    call_modify (set_guard ReservationAborted) ;; ignore (abort sopts (le_abort env) h (Some error_code))
  | _ => call_ret tt
  end.

Definition guard_commit (env : LlmEnv) (h : LlmContextMutationReservation) (assistant : LlmMessageDto)
    : Call (E := ActionError) (S := LlmWorld) LlmContextReceiptDto :=
  g <- call_get lw_guard ;;
  match g with
  | ReservationActive =>
    call_modify (set_guard ReservationCommitting) ;;
    (fun w =>
       match commit sopts (le_commit env) (le_factory env) h assistant (lw_store w) with
       | None => None
       | Some (Ok receipt, st) => Some (Ok receipt, mkLlmWorld ReservationCommitted st)
       | Some (Err error, st) =>
         (ignore (abort sopts (le_abort env) h (Some (se_error_code error))) ;;
          call_modify (set_guard ReservationAborted) ;;
          call_fail (llm_store_error error)) (mkLlmWorld (lw_guard w) st)
       end)
  | _ => call_fail (action_internal "LLM context reservation is no longer active")
  end.

(** Before step [i]: other requests, and the listener if it runs. *)
Definition interlude (env : LlmEnv) (h : LlmContextMutationReservation) (i : nat) : Call (E := ActionError) (S := LlmWorld) unit :=
  call_modify (fun w => mkLlmWorld (lw_guard w) (le_others env (S i) (lw_store w))) ;;
  if le_listener env i then guard_abort env h NODE_UNAVAILABLE else call_ret tt.

(** Abort and fail. *)
Definition stop_with {A} (env : LlmEnv) (h : LlmContextMutationReservation) (code : string) (e : ActionError)
    : Call (E := ActionError) (S := LlmWorld) A :=
  guard_abort env h code ;; call_fail e.

(** ** Authorization *)

Definition owner_of (context : ActionContext) : result ActionError LlmContextOwner :=
  match ac_agent_nid context with
  | Some nid => if is_empty (trim nid) then Err no_owner_error else Ok (mkOwner nid (lo_security_scope options))
  | None => Err no_owner_error
  end.

Definition check_authorization (owner : LlmContextOwner) (action : string) (stage : LlmAuthorizationStage)
    (required : list string) (context : ActionContext) : result ActionError unit :=
  match lo_authorizer options with
  | None => Err no_authorizer_error
  | Some authorizer => authorizer owner action stage required context
  end.

Definition needs_context_auth (frame : ParsedActionFrame) : bool :=
  if String.eqb (af_action_id frame) LLM_CONTEXT_STATUS || String.eqb (af_action_id frame) LLM_CONTEXT_RELEASE then true
  else if String.eqb (af_action_id frame) LLM_COMPLETE
  then match (v ← af_params frame; o ← as_object v; map_get "context" o) with Some v => negb (is_null v) | None => false end
  else false.

Definition llm_authorize (frame : ParsedActionFrame) (context : ActionContext) : result ActionError unit :=
  (_ ← inner_authorize frame context;
   if negb (needs_context_auth frame) then Ok tt
   else
     owner ← owner_of context;
     check_authorization owner (af_action_id frame) Admission (required_capabilities frame) context)%stdpp.

(** ** Completion *)

Definition decode_params {T} (decode : Value -> result string T) (frame : ParsedActionFrame) (action : string)
    : result ActionError T :=
  match af_params frame with
  | None => Err (llm_params_error (action +:+ " requires params"))
  | Some v => map_err (fun e => llm_params_error ("invalid " +:+ action +:+ " params: " +:+ e)) (decode v)
  end.

Definition is_some_list {A} (l : option (list A)) : bool := match l with Some (_ :: _) => true | _ => false end.

Definition check_complete (frame : ParsedActionFrame) (request : LlmCompleteActionRequest) : result ActionError unit :=
  if negb (String.eqb (cq_kind request) LLM_COMPLETE) then Err (llm_params_error "params.kind must be 'llm.complete'")
  else if is_empty (trim (cq_model request)) then Err (llm_params_error "llm.complete requires a non-empty model")
  else if negb (lo_supports_tools options) && is_some_list (cq_tools request)
  then Err (llm_params_error "this node does not advertise LLM tool-definition support")
  else if cq_stream request && negb (lo_supports_stream options)
  then Err (llm_params_error "this node does not advertise LLM streaming support")
  else if cq_stream request && af_async frame
  then Err (llm_params_error "stream=true cannot be combined with async=true")
  else Ok tt.

Definition is_base_operation (op : LlmContextOperation) : bool :=
  match op with Append | Fork | Reset => true | _ => false end.

Definition resolve_binding (env : LlmEnv) (owner : LlmContextOwner) (request : LlmCompleteActionRequest)
    (context : LlmContextRequestDto) : Call (E := ActionError) (S := StoreState) LlmContextBinding :=
  match cr_operation context with
  | Append | Fork =>
    context_id <- call_result (ok_or (cr_context_id context)
                                 (llm_params_error "append/fork require context_id and base_version")) ;;
    sn <- store_op (snapshot sopts (le_read env) owner context_id) ;;
    call_ret (mkBinding (cq_model request) (b_system_messages (sn_binding sn))
                (default (b_tools (sn_binding sn)) (cq_tools request)) (lo_runtime_revision options))
  | _ =>
    call_ret (mkBinding (cq_model request) (List.filter is_system (cq_messages request)) (default [] (cq_tools request))
                (lo_runtime_revision options))
  end.

(** What a completion comes to: an answer, or a stream still to be written. *)
Inductive Completion : Type :=
| Unary (r : ActionExecutionResult)
| Streaming (source : ActionStream) (anchor_ref : option string) (token_est : Z).

Definition some_or {A} (o : option A) (d : A) : option A := match o with Some x => Some x | None => Some d end.

Definition unary_answer (done : ActionExecutionResult) (response : LlmCompleteActionResponse) (wrong : string)
    : result ActionError Completion :=
  match response_to response with
  | Ok v => Ok (Unary (mkExecution (Some v) None (some_or (er_anchor_ref done) LLM_COMPLETE_RESPONSE_ANCHOR)
                         (er_token_est done)))
  | Err error => Err (action_internal (wrong +:+ error))
  end.

Definition assistant_message (content : option string) (tool_calls : option (list LlmToolCallDto)) : LlmMessageDto :=
  mkMessage "assistant" content None None tool_calls.

Definition execute_reserved (env : LlmEnv) (frame : ParsedActionFrame) (context : ActionContext) (owner : LlmContextOwner)
    (h : LlmContextMutationReservation) (streaming : bool) : Call (E := ActionError) (S := LlmWorld) Completion :=
  interlude env h 0 ;;
  match inner_execute frame context with
  | Err error => stop_with env h (xe_error_code error) error
  | Ok result =>
    if le_flag env 0 then stop_with env h NODE_UNAVAILABLE (action_internal "stateful llm.complete was cancelled")
    else if streaming
    then match er_stream result with
         | None => stop_with env h NODE_UNAVAILABLE
                     (action_internal "stateful streaming llm.complete returned no StreamFrame sequence")
         | Some source =>
           call_ret (Streaming source (some_or (er_anchor_ref result) LLM_COMPLETE_STREAM_ANCHOR) (er_token_est result))
         end
    else if is_set (er_stream result)
    then stop_with env h NODE_UNAVAILABLE (action_internal "stateful unary llm.complete returned a StreamFrame sequence")
    else
      match er_result result with
      | None => stop_with env h NODE_UNAVAILABLE (action_internal "stateful llm.complete returned no result payload")
      | Some payload =>
        match response_of payload with
        | Err error => stop_with env h NODE_UNAVAILABLE
            (action_internal ("stateful llm.complete returned an invalid official response: " +:+ error))
        | Ok response =>
          if decide (cs_stop_reason response = StopError)
          then guard_abort env h NODE_UNAVAILABLE ;;
               call_result (unary_answer result (with_receipt None response) "serialize failed stateful completion response: ")
          else
            match check_authorization owner LLM_COMPLETE Commit (required_capabilities frame) context with
            | Err error => stop_with env h (xe_error_code error) error
            | Ok _ =>
              if le_flag env 1 then stop_with env h NODE_UNAVAILABLE (action_internal "stateful llm.complete was cancelled")
              else
                interlude env h 1 ;;
                receipt <- guard_commit env h (assistant_message (cs_content response) (cs_tool_calls response)) ;;
                call_result (unary_answer result (with_receipt (Some receipt) response) "serialize stateful completion response: ")
            end
        end
      end
  end.

(** The reservation of a request that names a context. *)
Definition reserve_context (env : LlmEnv) (frame : ParsedActionFrame) (request : LlmCompleteActionRequest)
    (context_request : LlmContextRequestDto) (owner : LlmContextOwner)
    : Call (E := ActionError) (S := StoreState) LlmContextMutationReservation :=
  binding <- resolve_binding env owner request context_request ;;
  call_modify (le_others env 0) ;;
  store_op (reserve sopts (le_reserve env) (le_new_id env)
    (mkMutation (cr_operation context_request) owner (cr_context_id context_request) (cr_base_version context_request)
       binding (cq_messages request) (cr_ttl_seconds context_request) (default "" (af_idempotency_key frame))
       (default "" (af_request_id frame)))).

(** The outcome, the reservation if one was made, and the world. *)
Definition complete (env : LlmEnv) (frame : ParsedActionFrame) (context : ActionContext) (st : StoreState)
    : option (result ActionError Completion * option LlmContextMutationReservation * LlmWorld) :=
  let stop e st := Some (Err e, None, mkLlmWorld ReservationActive st) in
  match decode_params complete_request_of frame LLM_COMPLETE with
  | Err e => stop e st
  | Ok request =>
    match check_complete frame request with
    | Err e => stop e st
    | Ok _ =>
      match cq_context request with
      | None => Some (Unary <$> inner_execute frame context, None, mkLlmWorld ReservationActive st)
      | Some context_request =>
        if is_base_operation (cr_operation context_request)
           && (negb (is_set (cr_context_id context_request)) || negb (is_set (cr_base_version context_request)))
        then stop (llm_params_error "append/fork/reset require context_id and base_version") st
        else
          match owner_of context with
          | Err e => stop e st
          | Ok owner =>
            match reserve_context env frame request context_request owner st with
            | None => None
            | Some (Err e, st) => stop e st
            | Some (Ok h, st) =>
              match execute_reserved env frame context owner h (cq_stream request) (mkLlmWorld ReservationActive st) with
              | None => None
              | Some (r, w) => Some (r, Some h, w)
              end
            end
          end
      end
    end
  end.
(** ** Streams *)

(** What the coordinator of a stream keeps: the text so far, the tool calls,
    whether the reservation is resolved, whether the terminal frame was seen;
    and the frames it handed on. *)
Record StreamState : Type := mkStreamState {
  ss_content : string;
  ss_tool_calls : list LlmToolCallDto;
  ss_resolved : bool;
  ss_terminal_seen : bool;
  ss_world : LlmWorld;
  ss_emitted : list ActionStreamFrame
}.
Definition stream_start (w : LlmWorld) : StreamState := mkStreamState "" [] false false w [].

Definition add_chunks (chunks : list LlmCompleteStreamChunkDto) (s : StreamState) : StreamState :=
  mkStreamState
    (fold_left (fun text c => match ch_content_delta c with Some d => text +:+ d | None => text end) chunks (ss_content s))
    (fold_left (fun calls c => match ch_tool_calls c with Some l => calls ++ l | None => calls end) chunks (ss_tool_calls s))
    (ss_resolved s) (ss_terminal_seen s) (ss_world s) (ss_emitted s).
Definition see_terminal (s : StreamState) : StreamState :=
  mkStreamState (ss_content s) (ss_tool_calls s) (ss_resolved s) true (ss_world s) (ss_emitted s).
Definition resolve_stream (s : StreamState) : StreamState :=
  mkStreamState (ss_content s) (ss_tool_calls s) true (ss_terminal_seen s) (ss_world s) (ss_emitted s).
Definition in_world (w : LlmWorld) (s : StreamState) : StreamState :=
  mkStreamState (ss_content s) (ss_tool_calls s) (ss_resolved s) (ss_terminal_seen s) w (ss_emitted s).
Definition hand_on (f : ActionStreamFrame) (s : StreamState) : StreamState :=
  mkStreamState (ss_content s) (ss_tool_calls s) (ss_resolved s) (ss_terminal_seen s) (ss_world s) (ss_emitted s ++ [f]).

Fixpoint collect {A B} (f : A -> result string B) (l : list A) : result string (list B) :=
  match l with
  | [] => Ok []
  | x :: rest => match f x with Err e => Err e | Ok y => cons y <$> collect f rest end
  end.

Definition with_data (data : list Value) (f : ActionStreamFrame) : ActionStreamFrame :=
  mkSFrame (sf_stream_id f) (sf_seq f) (sf_is_last f) (sf_anchor_ref f) data (sf_window_size f) (sf_error_code f).
Definition with_error_code (code : string) (f : ActionStreamFrame) : ActionStreamFrame :=
  mkSFrame (sf_stream_id f) (sf_seq f) (sf_is_last f) (sf_anchor_ref f) (sf_data f) (sf_window_size f) (Some code).

Definition terminal_only (c : LlmCompleteStreamChunkDto) : bool :=
  is_set (ch_stop_reason c) || is_set (ch_error c) || is_set (ch_usage c) || is_set (ch_context c).
Definition chunk_failed (c : LlmCompleteStreamChunkDto) : bool :=
  is_set (ch_error c) || bool_decide (ch_stop_reason c = Some StopError).

(** [rposition] of a stop reason. *)
Fixpoint terminal_index (chunks : list LlmCompleteStreamChunkDto) : option nat :=
  match chunks with
  | [] => None
  | c :: rest =>
    match terminal_index rest with
    | Some i => Some (S i)
    | None => if is_set (ch_stop_reason c) then Some O else None
    end
  end.

Definition nonempty_text (s : string) : option string := if is_empty s then None else Some s.
Definition nonempty_calls (l : list LlmToolCallDto) : option (list LlmToolCallDto) :=
  match l with [] => None | _ => Some l end.

(** A step that may panic. *)
Abbreviation Step := (option (result ActionError unit * StreamState)).

(** The frame goes to the consumer, which answers. *)
Definition pass_on (sink : nat -> ActionStreamFrame -> result ActionError unit) (n : nat) (f : ActionStreamFrame)
    (s : StreamState) : Step := Some (sink n f, hand_on f s).

(** The terminal frame of a stream that did not fail. *)
Definition commit_frame (env : LlmEnv) (sink : nat -> ActionStreamFrame -> result ActionError unit) (n : nat)
    (frame : ParsedActionFrame) (context : ActionContext) (owner : LlmContextOwner) (h : LlmContextMutationReservation)
    (f : ActionStreamFrame) (chunks : list LlmCompleteStreamChunkDto) (s : StreamState) : Step :=
  match terminal_index chunks with
  | None => Some (Err (action_internal "successful LLM stream terminal frame requires stop_reason"), s)
  | Some index =>
    match check_authorization owner (af_action_id frame) Commit (required_capabilities frame) context with
    | Err e => Some (Err e, s)
    | Ok _ =>
      if le_flag env (3 + 2 * n)%nat then Some (Err (action_internal "action stream was cancelled"), s)
      else
        match (interlude env h (3 + 2 * n)%nat ;;
               guard_commit env h (assistant_message (nonempty_text (ss_content s)) (nonempty_calls (ss_tool_calls s))))
                (ss_world s) with
        | None => None
        | Some (Err e, w) => Some (Err e, in_world w s)
        | Some (Ok receipt, w) =>
          let s := in_world w s in
          match collect chunk_to (alter (chunk_receipt (Some receipt)) index chunks) with
          | Err e => Some (Err (action_internal ("serialize terminal stateful LLM stream chunk: " +:+ e)), s)
          | Ok data => pass_on sink n (with_data data f) (resolve_stream s)
          end
        end
    end
  end.

(** The coordinator between a producer and the consumer, at frame [n]. *)
Definition on_frame (env : LlmEnv) (sink : nat -> ActionStreamFrame -> result ActionError unit) (n : nat)
    (frame : ParsedActionFrame) (context : ActionContext) (owner : LlmContextOwner) (h : LlmContextMutationReservation)
    (f : ActionStreamFrame) (s : StreamState) : Step :=
  match interlude env h (2 + 2 * n)%nat (ss_world s) with
  | None => None
  | Some (_, w) =>
    let s := in_world w s in
    if le_flag env (2 + 2 * n)%nat then Some (Err (action_internal "action stream was cancelled"), s)
    else if ss_terminal_seen s then Some (Err (action_internal "LLM stream emitted frames after terminal"), s)
    else
      match collect chunk_of (sf_data f) with
      | Err e => Some (Err (action_internal ("stateful llm.complete returned an invalid stream payload: " +:+ e)), s)
      | Ok chunks =>
        if negb (sf_is_last f) && existsb terminal_only chunks
        then Some (Err (action_internal "LLM stream stop_reason, error, usage, and context are terminal-only fields"), s)
        else
          let s := add_chunks chunks s in
          let chunks := map (chunk_receipt None) chunks in
          match collect chunk_to chunks with
          | Err e => Some (Err (action_internal ("serialize stateful LLM stream chunk: " +:+ e)), s)
          | Ok data =>
            let f := with_data data f in
            if negb (sf_is_last f) then pass_on sink n f s
            else
              let s := see_terminal s in
              if is_set (sf_error_code f) || existsb chunk_failed chunks
              then
                let code := default NODE_UNAVAILABLE (sf_error_code f) in
                match guard_abort env h code (ss_world s) with
                | None => None
                | Some (_, w) => pass_on sink n (with_error_code code f) (resolve_stream (in_world w s))
                end
              else commit_frame env sink n frame context owner h f chunks s
          end
      end
  end.

Fixpoint run_source (env : LlmEnv) (sink : nat -> ActionStreamFrame -> result ActionError unit) (n : nat)
    (frame : ParsedActionFrame) (context : ActionContext) (owner : LlmContextOwner) (h : LlmContextMutationReservation)
    (source : ActionStream) (s : StreamState) : Step :=
  match source with
  | Return r => Some (r, s)
  | Emit f k =>
    match on_frame env sink n frame context owner h f s with
    | None => None
    | Some (r, s) => run_source env sink (S n) frame context owner h (k r) s
    end
  end.

(** [coordinate_stream]: a source that is done without a terminal frame failed,
    and a failure aborts what was not resolved. *)
Definition coordinate_stream (env : LlmEnv) (sink : nat -> ActionStreamFrame -> result ActionError unit)
    (frame : ParsedActionFrame) (context : ActionContext) (owner : LlmContextOwner) (h : LlmContextMutationReservation)
    (source : ActionStream) (w : LlmWorld) : Step :=
  match run_source env sink 0 frame context owner h source (stream_start w) with
  | None => None
  | Some (r, s) =>
    let outcome := match r with
                   | Ok _ => if ss_terminal_seen s then Ok tt
                             else Err (action_internal "stateful llm.complete stream ended without a terminal frame")
                   | Err e => Err e
                   end in
    match outcome with
    | Ok _ => Some (Ok tt, s)
    | Err e =>
      if ss_resolved s then Some (Err e, s)
      else match guard_abort env h NODE_UNAVAILABLE (ss_world s) with
           | None => None
           | Some (_, w) => Some (Err e, in_world w s)
           end
    end
  end.

(** ** The other actions *)

Definition llm_status (env : LlmEnv) (frame : ParsedActionFrame) (context : ActionContext)
    : Call (E := ActionError) (S := StoreState) ActionExecutionResult :=
  request <- call_result (decode_params status_request_of frame LLM_CONTEXT_STATUS) ;;
  owner <- call_result (owner_of context) ;;
  found <- store_op (status sopts (le_read env) owner (sr_context_id request) (sr_idempotency_key request)) ;;
  v <- call_result (map_err (fun e => action_internal ("serialize context status: " +:+ e)) (status_to found)) ;;
  call_ret (mkExecution (Some v) None (Some LLM_CONTEXT_STATUS_RESPONSE_ANCHOR) 0).

Definition llm_release (env : LlmEnv) (frame : ParsedActionFrame) (context : ActionContext)
    : Call (E := ActionError) (S := StoreState) ActionExecutionResult :=
  request <- call_result (decode_params release_request_of frame LLM_CONTEXT_RELEASE) ;;
  owner <- call_result (owner_of context) ;;
  receipt <- store_op (release sopts (le_read env) owner (rr_context_id request) (rr_base_version request)
                         (default "" (af_idempotency_key frame))) ;;
  v <- call_result (map_err (fun e => action_internal ("serialize context release: " +:+ e)) (receipt_to receipt)) ;;
  call_ret (mkExecution (Some v) None (Some LLM_CONTEXT_RELEASE_RESPONSE_ANCHOR) 0).

Definition llm_execute (env : LlmEnv) (frame : ParsedActionFrame) (context : ActionContext) (st : StoreState)
    : option (result ActionError Completion * option LlmContextMutationReservation * LlmWorld) :=
  let unary r := match r with
                 | None => None
                 | Some (r, st) => Some (Unary <$> r, None, mkLlmWorld ReservationActive st)
                 end in
  if String.eqb (af_action_id frame) LLM_COMPLETE then complete env frame context st
  else if String.eqb (af_action_id frame) LLM_CONTEXT_STATUS then unary (llm_status env frame context st)
  else if String.eqb (af_action_id frame) LLM_CONTEXT_RELEASE then unary (llm_release env frame context st)
  else unary (Some (inner_execute frame context, st)).

(** ** The profile of the node *)

Definition operation_name (op : LlmContextOperation) : string :=
  match op with Create => "create" | Append => "append" | Fork => "fork" | Reset => "reset" | Release => "release" end.

Definition llm_profile : Map :=
  let d := descriptor sopts in
  let p := [("actions", vstrings [LLM_COMPLETE; LLM_CONTEXT_STATUS; LLM_CONTEXT_RELEASE]);
            ("context", VObject
               [("max_contexts_per_principal", vnat (ds_max_contexts_per_principal d));
                ("max_ttl_seconds", vnat (ds_max_ttl_seconds d));
                ("operations", VArray (map (fun op => VString (operation_name op)) (ds_operations d)));
                ("persistence", VString (ds_persistence d)); ("supported", VBool true);
                ("tombstone_seconds", vnat (ds_tombstone_seconds d))]);
            ("profile_version", VString "0.2"); ("supports_json_mode", VBool (lo_supports_json_mode options));
            ("supports_stream", VBool (lo_supports_stream options)); ("supports_tools", VBool (lo_supports_tools options))] in
  let p := insert_opt "provider" (VString <$> lo_provider_name options) p in
  let p := insert_opt "default_model" (VString <$> lo_default_model options) p in
  insert_opt "reasoning_visibility" (VString <$> lo_reasoning_visibility options) p.

Definition configure_node (node : ActionNodeOptions) : ActionNodeOptions :=
  let spec := default (spec_new true) (map_get LLM_COMPLETE (ao_actions node)) in
  let actions := map_insert LLM_COMPLETE
    (mkSpec (as_description spec) (Some "nps:system:llm.complete:request") (Some LLM_COMPLETE_RESPONSE_ANCHOR)
       (as_async spec) (Some true) (as_timeout_ms_default spec) (as_timeout_ms_max spec) (Some CAPABILITY_LLM_COMPLETE))
    (ao_actions node) in
  let actions := map_insert LLM_CONTEXT_STATUS
    (mkSpec (Some "Inspect an LLM context or retained create outcome") (Some "nps:system:llm.context.status:request")
       (Some LLM_CONTEXT_STATUS_RESPONSE_ANCHOR) false None None None (Some CAPABILITY_LLM_CONTEXT)) actions in
  let actions := map_insert LLM_CONTEXT_RELEASE
    (mkSpec (Some "Release an LLM context") (Some "nps:system:llm.context.release:request")
       (Some LLM_CONTEXT_RELEASE_RESPONSE_ANCHOR) false (Some true) None None (Some CAPABILITY_LLM_CONTEXT)) actions in
  mkActionOptions (ao_node_id node) (ao_display_name node) actions (map_insert "llm" (VObject llm_profile) (ao_profiles node))
    (ao_path_prefix node) (ao_require_auth node) (ao_default_timeout_ms node) (ao_max_timeout_ms node)
    (ao_idempotency_ttl node) (ao_task_retention node) (ao_reject_private_callback_urls node) (ao_default_token_budget node).
End provider.

(** ** The guard under interleaving

    The atomic steps of the threads that share a guard: a compare and
    exchange, then the operation of the store, then the last store of the
    state. *)

Inductive GuardThread : Type :=
| WantsAbort (code : string)
| Aborting (code : string)
| WantsCommit (assistant : LlmMessageDto)
| Committing (assistant : LlmMessageDto)
| Failing (code : string)
| FailedCommit
| GuardDone (receipt : option LlmContextReceiptDto).

Section guard.
Context `{ContextTime} (sopts : LlmContextStoreOptions) (h : LlmContextMutationReservation).

Definition store_abort (now : Z) (code : string) (st : StoreState) : option StoreState :=
  match abort sopts now h (Some code) st with None => None | Some (_, st) => Some st end.

(** One step of one thread; [None] is a panic of the store. *)
Definition guard_step (now : Z) (factory : nat -> result LlmContextStoreError string) (t : GuardThread) (w : LlmWorld)
    : option (GuardThread * LlmWorld) :=
  match t with
  | WantsAbort code =>
    Some (if decide (lw_guard w = ReservationActive) then (Aborting code, set_guard ReservationAborted w) else (GuardDone None, w))
  | Aborting code =>
    match store_abort now code (lw_store w) with
    | None => None
    | Some st => Some (GuardDone None, mkLlmWorld (lw_guard w) st)
    end
  | WantsCommit m =>
    Some (if decide (lw_guard w = ReservationActive) then (Committing m, set_guard ReservationCommitting w) else (GuardDone None, w))
  | Committing m =>
    match commit sopts now factory h m (lw_store w) with
    | None => None
    | Some (Ok receipt, st) => Some (GuardDone (Some receipt), mkLlmWorld ReservationCommitted st)
    | Some (Err error, st) => Some (Failing (se_error_code error), mkLlmWorld (lw_guard w) st)
    end
  | Failing code =>
    match store_abort now code (lw_store w) with
    | None => None
    | Some st => Some (FailedCommit, mkLlmWorld (lw_guard w) st)
    end
  | FailedCommit => Some (GuardDone None, set_guard ReservationAborted w)
  | GuardDone _ => Some (t, w)
  end.
End guard.
