(* ===== verification/NwpLlmSpec.v ===== *)
(** * NwpLlmSpec: a reservation is resolved once, and only by an authorized commit

    The guard of a reservation under any interleaving of its threads; what a
    completion and the coordinator of a stream leave in the store, whatever
    other requests do meanwhile. *)

From S2P Require Import Prelude Calls RustStr Json CoreCache NwpContext NwpContextSpec NwpMemory NwpAction NwpLlm.
Local Open Scope Z_scope.

Section guard.
Context {D : Digests} `{ContextTime} `{BindingSerde}.
Context (sopts : LlmContextStoreOptions).

(** The reservation is no longer in the store. *)
Definition freed (h : LlmContextMutationReservation) (st : StoreState) : Prop :=
  reservations st !! h_reservation_id h = None.

Lemma abort_frees now h code st out st' : ctx_inv sopts st -> abort sopts now h code st = Some (out, st') ->
  ctx_inv sopts st' /\ freed h st'.
Proof.
  intros Hi E. split; [by eapply abort_inv |]. unfold freed.
  pose proof E as E0. apply abort_cases in E as [(e & -> & ->)|(d & n & until & _ & Hr & Esw)].
  - unfold abort, call_bind, call_get, call_result, require_reservation in E0.
    destruct (reservations st !! h_reservation_id h) as [d|] eqn:Er; [|done].
    apply (ci_reserved _ _ Hi) in Er as (Erid & _). rewrite Erid, String.eqb_refl in E0.
    unfold call_modify, call_panic in E0. destruct (instant_add _ _); [|done]. unfold sweep in E0.
    destruct (sweep_locked _ _ _) as [[? ?]|]; [|done]. by injection E0.
  - apply sweep_lookup in Esw as (-> & _). cbn. apply lookup_delete_eq.
Qed.

Lemma commit_frees now factory h m st out st' : ctx_inv sopts st -> commit sopts now factory h m st = Some (out, st') ->
  ctx_inv sopts st' /\ match out with Ok _ => freed h st' | Err _ => st' = st end.
Proof.
  intros Hi E. apply commit_cases in E as [(e & -> & ->)|(d & rc & -> & Hr & Hc)]; [done | | done].
  split; [by eapply committed_inv |]. destruct Hc as (e' & u & ex & _ & -> & _). cbn. apply lookup_delete_eq.
Qed.

(** *** What other requests do *)

(** Operations of other requests: they neither end nor make this reservation. *)
Definition elsewhere (rid : string) (op : ctx_op) : Prop :=
  ends op <> Some rid /\ match op with OReserve _ (Ok r) _ => r <> rid | _ => True end.

Lemma run_op_free op st st' r : ctx_inv sopts st -> run_op sopts op st = Some st' -> elsewhere r op ->
  reservations st !! r = None -> reservations st' !! r = None.
Proof.
  intros Hi E [Hne Hnr] Hr.
  assert (Hsw : forall now n s, sweep_locked sopts now st = Some (n, s) -> reservations s !! r = None)
    by (intros now n s Es; apply sweep_lookup in Es as (Er & _); by rewrite Er).
  destruct op; cbn in E; apply fmap_Some in E as ([out s] & E & ->); cbn in *.
  - apply reserve_cases in E as (n & st1 & Esw & [(e & _ & ->)|(rid & -> & _ & Hres)]); [by eapply Hsw |].
    destruct Hres as (bt & ttl & parent & pv & fp & u & _ & _ & _ & _ & _ & ->). cbn.
    rewrite lookup_insert_ne by congruence. by eapply Hsw.
  - apply commit_cases in E as [(e & _ & ->)|(d0 & rc & _ & Hr0 & Hc)]; [done | | done].
    destruct Hc as (e' & u & ex & _ & -> & _). cbn. apply lookup_delete_None. by right.
  - apply abort_cases in E as [(e & _ & ->)|(d0 & n & u & _ & Hr0 & Esw)]; [done |].
    apply sweep_lookup in Esw as (Er & _). rewrite Er. cbn. apply lookup_delete_None. by right.
  - apply release_cases in E as (n & st1 & Esw & [[_ ->]|[(prior & _ & _ & ->)|(rc & _ & Hrel)]]);
      [by eapply Hsw | by eapply Hsw |].
    destruct Hrel as (e & v & u & re & _ & _ & _ & _ & _ & _ & _ & _ & _ & _ & ->). cbn. by eapply Hsw.
  - apply status_state in E as (n & Esw). by eapply Hsw.
  - apply snapshot_state in E as (n & Esw). by eapply Hsw.
  - apply sweep_call_inv in E as (n & _ & Esw). by eapply Hsw.
Qed.

Lemma history_elsewhere r st st' : history sopts (elsewhere r) st st' -> ctx_inv sopts st ->
  ctx_inv sopts st' /\ (reservations st !! r = None -> reservations st' !! r = None).
Proof.
  induction 1 as [|x y z (op & Hop & Hf & E) _ IH]; intros Hi; [done |].
  assert (Hy : ctx_inv sopts y) by (eapply run_op_inv; [exact Hi | exact Hf | exact E]).
  destruct (IH Hy) as [Hz Hfree]. split; [done |]. intros Hx. apply Hfree. eapply run_op_free; [exact Hi | exact E | exact Hop | exact Hx].
Qed.

(** *** The threads of one guard *)

Definition idle (t : GuardThread) : Prop :=
  match t with WantsAbort _ | WantsCommit _ | GuardDone None => True | _ => False end.
Definition waiting (t : GuardThread) : Prop := match t with WantsAbort _ | WantsCommit _ => True | _ => False end.

(** Thread [i] is [t], and all the others are idle. *)
Definition alone (ts : list GuardThread) (i : nat) (t : GuardThread) : Prop :=
  ts !! i = Some t /\ forall j u, ts !! j = Some u -> j <> i -> idle u.

(** One step of the system: a thread, or another request. *)
Inductive guard_system (h : LlmContextMutationReservation) : list GuardThread * LlmWorld -> list GuardThread * LlmWorld -> Prop :=
| thread_moves ts i t now factory t' w w' : ts !! i = Some t -> guard_step sopts h now factory t w = Some (t', w') ->
    guard_system h (ts, w) (<[i := t']> ts, w')
| others_move ts w st' : history sopts (elsewhere (h_reservation_id h)) (lw_store w) st' ->
    guard_system h (ts, w) (ts, mkLlmWorld (lw_guard w) st').

Record guard_inv (h : LlmContextMutationReservation) (ts : list GuardThread) (w : LlmWorld) : Prop := {
  gi_store : ctx_inv sopts (lw_store w);
  gi_guard : match lw_guard w with
    | ReservationActive => Forall waiting ts
    | ReservationAborted => (exists i code, alone ts i (Aborting code)) \/ (Forall idle ts /\ freed h (lw_store w))
    | ReservationCommitting => exists i t, alone ts i t /\
        match t with Committing _ | Failing _ => True | FailedCommit => freed h (lw_store w) | _ => False end
    | ReservationCommitted => exists i rc, alone ts i (GuardDone (Some rc)) /\ freed h (lw_store w)
    end
}.

Lemma alone_insert ts i t t' : alone ts i t -> alone (<[i := t']> ts) i t'.
Proof.
  intros [Ht Ho]. split; [apply list_lookup_insert_eq; by eapply lookup_lt_Some |].
  intros j u Hj Hne. rewrite list_lookup_insert_ne in Hj by done. by eapply Ho.
Qed.

Lemma idle_alone ts i t t' : ts !! i = Some t -> Forall idle ts -> alone (<[i := t']> ts) i t'.
Proof.
  intros Ht Ho. split; [apply list_lookup_insert_eq; by eapply lookup_lt_Some |].
  intros j u Hj Hne. rewrite list_lookup_insert_ne in Hj by done. rewrite Forall_lookup in Ho. by eapply Ho.
Qed.

Lemma alone_idle ts i t t' : alone ts i t -> idle t' -> Forall idle (<[i := t']> ts).
Proof.
  intros [Ht Ho] Hi. apply Forall_lookup. intros j u Hj.
  destruct (decide (j = i)) as [->|Hne].
  - rewrite list_lookup_insert_eq in Hj by by eapply lookup_lt_Some. by injection Hj as <-.
  - rewrite list_lookup_insert_ne in Hj by done. by eapply Ho.
Qed.

(** An idle step of another thread leaves who is at work. *)
Lemma alone_other ts i t j u : alone ts i t -> ~ idle t -> ts !! j = Some u -> idle u -> alone (<[j := GuardDone None]> ts) i t.
Proof.
  intros [Ht Ho] Hni Hj Hu. assert (Hne : j <> i) by (intros ->; congruence). split; [by rewrite list_lookup_insert_ne |].
  intros k v Hk Hki. destruct (decide (k = j)) as [->|Hkj].
  - rewrite list_lookup_insert_eq in Hk by by eapply lookup_lt_Some. by injection Hk as <-.
  - rewrite list_lookup_insert_ne in Hk by done. by eapply Ho.
Qed.

Lemma alone_same ts i t u : alone ts i t -> ts !! i = Some u -> u = t.
Proof. intros [Ht _] Hu. congruence. Qed.

Lemma waiting_idle t : waiting t -> idle t.
Proof. by destruct t as [| | | | | |[]]. Qed.

(** A thread that is not idle is the only one, and the state says which. *)
Lemma guard_inv_work h ts w i t : guard_inv h ts w -> ts !! i = Some t -> ~ idle t ->
  alone ts i t /\
  match t with
  | Aborting _ => lw_guard w = ReservationAborted
  | Committing _ | Failing _ => lw_guard w = ReservationCommitting
  | FailedCommit => lw_guard w = ReservationCommitting /\ freed h (lw_store w)
  | _ => lw_guard w = ReservationCommitted /\ freed h (lw_store w)
  end.
Proof.
  intros [_ Hg] Ht Hni.
  assert (Hone : forall j u, alone ts j u -> j = i /\ u = t).
  { intros j u Ha. destruct (decide (j = i)) as [->|Hne]; [split; [done |]; symmetry; by eapply alone_same |].
    destruct Ha as [_ Ho]. destruct Hni. apply (Ho i t Ht). congruence. }
  assert (Hall : Forall idle ts -> False) by (rewrite Forall_lookup; intros Hf; by apply Hni, (Hf i)).
  destruct (lw_guard w) eqn:Eg.
  - destruct Hall. eapply Forall_impl; [exact Hg | apply waiting_idle].
  - destruct Hg as (j & u & Ha & Hx). destruct (Hone j u Ha) as [-> ->]. split; [done |]. by destruct t.
  - destruct Hg as [(j & c & Ha)|[Hf _]]; [|by destruct Hall]. destruct (Hone j _ Ha) as [-> <-]. done.
  - destruct Hg as (j & rc & Ha & Hf). destruct (Hone j _ Ha) as [-> <-]. done.
Qed.

(** Losing the exchange changes nothing. *)
Lemma guard_inv_lost h ts w i t : guard_inv h ts w -> lw_guard w <> ReservationActive -> ts !! i = Some t -> idle t ->
  guard_inv h (<[i := GuardDone None]> ts) w.
Proof.
  intros [Hi Hg] Hna Ht Hidle. constructor; [done |]. destruct (lw_guard w); [done | | |].
  - destruct Hg as (j & u & Ha & Hx). exists j, u. split; [|done].
    eapply alone_other; [exact Ha | by intros Hu; destruct u | exact Ht | done].
  - destruct Hg as [(j & c & Ha)|[Hg Hf]]; [left; exists j, c; eapply alone_other; [exact Ha | by intros [] | exact Ht | done] | right].
    split; [|done]. apply Forall_insert; [done | done].
  - destruct Hg as (j & rc & Ha & Hf). exists j, rc. split; [|done]. eapply alone_other; [exact Ha | by intros [] | exact Ht | done].
Qed.

Lemma guard_inv_won h ts w i t t' : guard_inv h ts w -> lw_guard w = ReservationActive -> ts !! i = Some t ->
  alone (<[i := t']> ts) i t'.
Proof.
  intros [_ Hg] Ha Ht. rewrite Ha in Hg. eapply idle_alone; [exact Ht |]. eapply Forall_impl; [exact Hg | apply waiting_idle].
Qed.

Lemma guard_inv_thread h ts i t now factory t' w w' : ts !! i = Some t -> guard_step sopts h now factory t w = Some (t', w') ->
  guard_inv h ts w -> guard_inv h (<[i := t']> ts) w'.
Proof.
  intros Ht Hstep Hinv. pose proof (gi_store _ _ _ Hinv) as Hi. pose proof (guard_inv_work h ts w i t Hinv Ht) as Hwork.
  assert (Habort : forall code st, store_abort sopts h now code (lw_store w) = Some st -> ctx_inv sopts st /\ freed h st).
  { unfold store_abort. intros code st Ea. destruct (abort _ _ _ _ _) as [[out st0]|] eqn:E; [|done].
    injection Ea as ->. by eapply abort_frees. }
  destruct t as [code|code|m|m|code| |receipt]; cbn [guard_step] in Hstep.
  - case_decide as Hact; injection Hstep as <- <-; [|by eapply guard_inv_lost].
    constructor; cbn; [done |]. left. exists i, code. by eapply guard_inv_won.
  - destruct (Hwork ltac:(by intros [])) as [Ha Hg].
    destruct (store_abort sopts h now code (lw_store w)) as [st|] eqn:Ea; [|done]. injection Hstep as <- <-.
    destruct (Habort _ _ Ea). constructor; cbn; [done |]. rewrite Hg. right. split; [by eapply alone_idle | done].
  - case_decide as Hact; injection Hstep as <- <-; [|by eapply guard_inv_lost].
    constructor; cbn; [done |]. exists i, (Committing m). split; [by eapply guard_inv_won | done].
  - destruct (Hwork ltac:(by intros [])) as [Ha Hg].
    destruct (commit sopts now factory h m (lw_store w)) as [[[receipt|error] st]|] eqn:Ec; [| |done];
      injection Hstep as <- <-; destruct (commit_frees _ _ _ _ _ _ _ Hi Ec) as [Hi' Hout].
    + constructor; cbn; [done |]. exists i, receipt. split; [by eapply alone_insert | done].
    + subst st. constructor; cbn; [done |]. rewrite Hg. exists i, (Failing (se_error_code error)).
      split; [by eapply alone_insert | done].
  - destruct (Hwork ltac:(by intros [])) as [Ha Hg].
    destruct (store_abort sopts h now code (lw_store w)) as [st|] eqn:Ea; [|done]. injection Hstep as <- <-.
    destruct (Habort _ _ Ea). constructor; cbn; [done |]. rewrite Hg. exists i, FailedCommit.
    split; [by eapply alone_insert | done].
  - destruct (Hwork ltac:(by intros [])) as [Ha [Hg Hf]]. injection Hstep as <- <-. constructor; cbn; [done |].
    right. split; [by eapply alone_idle | done].
  - injection Hstep as <- <-. by rewrite list_insert_id.
Qed.

Lemma guard_inv_step h s s' : guard_system h s s' -> guard_inv h (fst s) (snd s) -> guard_inv h (fst s') (snd s').
Proof.
  destruct 1 as [ts i t now factory t' w w' Ht Hstep|ts w st' Hh]; cbn [fst snd]; [by eapply guard_inv_thread |].
  intros [Hi Hg]. destruct (history_elsewhere _ _ _ Hh Hi) as [Hi' Hfree]. constructor; cbn; [done |].
  destruct (lw_guard w).
  - done.
  - destruct Hg as (i & t & Ha & Hx). exists i, t. split; [done |]. destruct t; try done. by apply Hfree.
  - destruct Hg as [Hg|[Hg Hf]]; [by left | right]. split; [done |]. by apply Hfree.
  - destruct Hg as (i & rc & Ha & Hf). exists i, rc. split; [done |]. by apply Hfree.
Qed.

(** The guard of a reservation, under any interleaving of the threads that
    want to abort or commit it with one another and with the operations of
    other requests: at every moment at most one thread is past the exchange;
    and once all have ended, the reservation is gone from the store, and the
    state says committed exactly when one thread, and one only, has a
    receipt. *)
Theorem guard_exclusive h ts w ts' w' : ctx_inv sopts (lw_store w) -> lw_guard w = ReservationActive ->
  ts <> [] -> Forall waiting ts -> rtc (guard_system h) (ts, w) (ts', w') ->
  (forall i j t u, ts' !! i = Some t -> ts' !! j = Some u -> ~ idle t -> ~ idle u -> i = j) /\
  (Forall (fun t => exists r, t = GuardDone r) ts' ->
     freed h (lw_store w') /\
     ((lw_guard w' = ReservationCommitted /\ exists i rc, alone ts' i (GuardDone (Some rc))) \/
      (lw_guard w' = ReservationAborted /\ Forall (fun t => t = GuardDone None) ts'))).
Proof.
  intros Hi Ha Hne Hw Hrun.
  assert (Hinv : guard_inv h ts' w' /\ ts' <> []).
  { assert (Hinv : guard_inv h ts w) by (constructor; [done | by rewrite Ha]). clear Hi Ha Hw.
    change ts' with (fst (ts', w')). change w' with (snd (ts', w')) at 2. change ts with (fst (ts, w)) in Hne, Hinv.
    change w with (snd (ts, w)) in Hinv at 2. induction Hrun as [s|s s1 s2 Hs _ IH]; [done |].
    apply IH; [|by eapply guard_inv_step]. destruct Hs as [ts0 ? ? ? ? ? ? ? Hl _|]; cbn in *; [|done].
    intros E. apply (f_equal length) in E. rewrite length_insert in E. by destruct ts0. }
  clear Hi Ha Hne Hw Hrun. destruct Hinv as [Hinv Hne]. split.
  - intros i j t u Ht Hu Hnt Hnu. destruct (guard_inv_work h ts' w' i t Hinv Ht Hnt) as [[_ Ho] _].
    destruct (decide (j = i)) as [->|Hji]; [done |]. destruct Hnu. by apply (Ho j u Hu).
  - intros Hdone. destruct Hinv as [_ Hg]. rewrite Forall_lookup in Hdone. destruct (lw_guard w').
    + destruct ts' as [|t ts']; [done |]. apply Forall_cons in Hg as [Hg _]. by destruct (Hdone 0%nat t eq_refl) as [r ->].
    + destruct Hg as (i & t & [Ht _] & Hx). by destruct (Hdone i t Ht) as [r ->].
    + destruct Hg as [(i & code & [Ht _])|[Hidle Hf]]; [by destruct (Hdone i _ Ht) as [r [=]] |]. split; [done |]. right.
      split; [done |]. apply Forall_lookup. intros i t Ht. rewrite Forall_lookup in Hidle.
      destruct (Hdone i t Ht) as [r ->]. apply Hidle in Ht. by destruct r.
    + destruct Hg as (i & rc & Hal & Hf). split; [done |]. left. split; [done |]. by exists i, rc.
Qed.
End guard.

(** ** A request *)

Section request.
Context {D : Digests} `{ContextTime} `{BindingSerde} `{LlmSerde}.
Context (sopts : LlmContextStoreOptions) (options : StatefulLlmActionOptions).
Context (inner_execute : ParsedActionFrame -> ActionContext -> result ActionError ActionExecutionResult).

(** Between two steps: nothing is decided, or the reservation is gone. *)
Definition sane (h : LlmContextMutationReservation) (w : LlmWorld) : Prop :=
  ctx_inv sopts (lw_store w) /\
  (lw_guard w = ReservationActive \/
   ((lw_guard w = ReservationAborted \/ lw_guard w = ReservationCommitted) /\ freed h (lw_store w))).

(** The operations of other requests leave the reservation alone. *)
Definition others_ok (env : LlmEnv) (rid : string) : Prop :=
  forall i st, ctx_inv sopts st -> history sopts (elsewhere rid) st (le_others env i st).

Lemma guard_abort_spec env h code w r w' : sane h w -> guard_abort sopts env h code w = Some (r, w') ->
  r = Ok tt /\ sane h w' /\ freed h (lw_store w') /\
  (lw_guard w = ReservationActive /\ lw_guard w' = ReservationAborted \/ lw_guard w <> ReservationActive /\ w' = w).
Proof.
  intros [Hi Hg] E. unfold guard_abort, call_bind, call_get in E.
  destruct (lw_guard w) eqn:Eg.
  - unfold call_modify, ignore in E. cbn [set_guard lw_store lw_guard] in E.
    destruct (abort sopts (le_abort env) h (Some code) (lw_store w)) as [[out st]|] eqn:Ea; [|done].
    injection E as <- <-. destruct (abort_frees _ _ _ _ _ _ _ Hi Ea) as [Hi' Hf].
    split; [done |]. split; [split; [done |]; right; auto |]. split; [done |]. by left.
  - destruct Hg as [Hx|[[Hx|Hx] _]]; congruence.
  - injection E as <- <-. destruct Hg as [Hx|[Hx Hf]]; [congruence |]. split; [done |].
    split; [split; [done | right; by rewrite Eg] |]. split; [done |]. by right.
  - injection E as <- <-. destruct Hg as [Hx|[Hx Hf]]; [congruence |]. split; [done |].
    split; [split; [done | right; by rewrite Eg] |]. split; [done |]. by right.
Qed.

Lemma guard_commit_spec env h m w r w' : sane h w -> guard_commit sopts env h m w = Some (r, w') ->
  sane h w' /\ freed h (lw_store w') /\
  match r with
  | Ok _ => lw_guard w = ReservationActive /\ lw_guard w' = ReservationCommitted
  | Err _ => lw_guard w' = ReservationAborted \/ lw_guard w <> ReservationActive /\ w' = w
  end.
Proof.
  intros [Hi Hg] E. unfold guard_commit in E. unfold call_bind at 1, call_get at 1 in E.
  destruct (lw_guard w) eqn:Eg.
  - unfold call_bind at 1, call_modify at 1 in E. cbn [set_guard lw_store lw_guard] in E.
    destruct (commit sopts (le_commit env) (le_factory env) h m (lw_store w)) as [[[receipt|error] st]|] eqn:Ec; [| |done];
      destruct (commit_frees _ _ _ _ _ _ _ _ Hi Ec) as [Hi' Hout].
    + injection E as <- <-. split; [split; [done |]; right; auto | done].
    + unfold call_bind, ignore, call_modify, call_fail in E. cbn [lw_store lw_guard] in E.
      destruct (abort sopts _ _ _ st) as [[out st']|] eqn:Ea; [|done]. injection E as <- <-.
      destruct (abort_frees _ _ _ _ _ _ _ Hi' Ea). split; [split; [done |]; right; auto |]. split; [done |]. by left.
  - destruct Hg as [Hx|[[Hx|Hx] _]]; congruence.
  - injection E as <- <-. destruct Hg as [Hx|[Hx Hf]]; [congruence |].
    split; [split; [done | right; by rewrite Eg] |]. split; [done |]. by left.
  - injection E as <- <-. destruct Hg as [Hx|[Hx Hf]]; [congruence |].
    split; [split; [done | right; by rewrite Eg] |]. split; [done |]. by right.
Qed.

Lemma interlude_spec env h i w r w' : others_ok env (h_reservation_id h) -> sane h w ->
  interlude sopts env h i w = Some (r, w') ->
  r = Ok tt /\ sane h w' /\ (lw_guard w' = lw_guard w \/ lw_guard w = ReservationActive /\ lw_guard w' = ReservationAborted).
Proof.
  intros Ho [Hi Hg] E. unfold interlude in E. unfold call_bind at 1, call_modify at 1 in E.
  set (w1 := mkLlmWorld _ _) in E.
  assert (Hs : sane h w1).
  { destruct (history_elsewhere _ _ _ _ (Ho (S i) _ Hi) Hi) as [Hi' Hf']. split; [done |].
    destruct Hg as [|[Hg Hf]]; [by left | right]. split; [done |]. by apply Hf'. }
  destruct (le_listener env i).
  - destruct (guard_abort_spec _ _ _ _ _ _ Hs E) as (-> & Hs' & _ & [[Hx Hy]|[_ ->]]); (split; [done |]; split; [done |]).
    + by right.
    + by left.
  - injection E as <- <-. split; [done |]. split; [done |]. by left.
Qed.

Lemma stop_with_spec {A} env h code e w (r : result ActionError A) w' : sane h w -> stop_with sopts env h code e w = Some (r, w') ->
  r = Err e /\ sane h w' /\ freed h (lw_store w') /\ lw_guard w' <> ReservationActive.
Proof.
  intros Hs E. unfold stop_with in E. apply call_bind_inv in E as [(e' & E & _)|([] & w1 & E1 & E)].
  - by destruct (guard_abort_spec _ _ _ _ _ _ Hs E) as [? _].
  - destruct (guard_abort_spec _ _ _ _ _ _ Hs E1) as (_ & Hs' & Hf & Hg). injection E as <- <-.
    split; [done |]. split; [done |]. split; [done |]. destruct Hg as [[_ ->]|[Hn ->]]; done.
Qed.

(** What a unary completion may answer once it has a reservation. *)
Definition unary_outcome (frame : ParsedActionFrame) (context : ActionContext) (owner : LlmContextOwner)
    (er : ActionExecutionResult) (w : LlmWorld) : Prop :=
  exists done payload p v, inner_execute frame context = Ok done /\ er_result done = Some payload /\ response_of payload = Ok p /\
    er_result er = Some v /\
    ((cs_stop_reason p = StopError /\ response_to (with_receipt None p) = Ok v) \/
     (exists receipt, response_to (with_receipt (Some receipt) p) = Ok v /\ lw_guard w = ReservationCommitted /\
        check_authorization options owner LLM_COMPLETE Commit (required_capabilities frame) context = Ok tt)).

Lemma execute_reserved_spec env frame context owner h streaming w r w' :
  others_ok env (h_reservation_id h) -> sane h w ->
  execute_reserved sopts options inner_execute env frame context owner h streaming w = Some (r, w') ->
  sane h w' /\
  match r with
  | Ok (Streaming _ _ _) => streaming = true
  | Ok (Unary er) => freed h (lw_store w') /\ lw_guard w' <> ReservationActive /\ unary_outcome frame context owner er w'
  | Err _ => freed h (lw_store w') /\ lw_guard w' <> ReservationActive
  end.
Proof.
  intros Ho Hs E. unfold execute_reserved in E.
  apply call_bind_inv in E as [(e & E & _)|([] & w0 & E0 & E)]; [by destruct (interlude_spec _ _ _ _ _ _ Ho Hs E) as [? _] |].
  destruct (interlude_spec _ _ _ _ _ _ Ho Hs E0) as (_ & Hs0 & _). clear E0 Hs w.
  assert (Hgive : forall code e, stop_with (A := Completion) sopts env h code e w0 = Some (r, w') -> sane h w' /\
    match r with Ok (Streaming _ _ _) => streaming = true
    | Ok (Unary er) => freed h (lw_store w') /\ lw_guard w' <> ReservationActive /\ unary_outcome frame context owner er w'
    | Err _ => freed h (lw_store w') /\ lw_guard w' <> ReservationActive end).
  { intros code e Eg. by destruct (stop_with_spec _ _ _ _ _ _ _ Hs0 Eg) as (-> & ? & ? & ?). }
  destruct (inner_execute frame context) as [res|error] eqn:Ei; [|by eapply Hgive].
  destruct (le_flag env 0); [by eapply Hgive |].
  destruct streaming.
  { destruct (er_stream res); [|by eapply Hgive]. by injection E as <- <-. }
  destruct (is_set (er_stream res)); [by eapply Hgive |].
  destruct (er_result res) as [payload|] eqn:Ep; [|by eapply Hgive].
  destruct (response_of payload) as [p|error] eqn:Er; [|by eapply Hgive].
  case_decide as Hstop.
  { apply call_bind_inv in E as [(e & E & _)|([] & w1 & E1 & E)]; [by destruct (guard_abort_spec _ _ _ _ _ _ Hs0 E) as [? _] |].
    destruct (guard_abort_spec _ _ _ _ _ _ Hs0 E1) as (_ & Hs1 & Hf & Hg). apply call_result_inv in E as [<- ->].
    assert (Hna : lw_guard w1 <> ReservationActive) by (destruct Hg as [[_ ->]|[Hn ->]]; done).
    split; [done |]. unfold unary_answer. destruct (response_to (with_receipt None p)) as [v|] eqn:Et; [|done].
    split; [done |]. split; [done |]. exists res, payload, p, v. split; [done |]. split; [done |]. split; [done |]. split; [done |]. by left. }
  destruct (check_authorization _ _ _ _ _ _) as [[]|error] eqn:Eauth; [|by eapply Hgive].
  destruct (le_flag env 1); [by eapply Hgive |].
  apply call_bind_inv in E as [(e & E & _)|([] & w1 & E1 & E)]; [by destruct (interlude_spec _ _ _ _ _ _ Ho Hs0 E) as [? _] |].
  destruct (interlude_spec _ _ _ _ _ _ Ho Hs0 E1) as (_ & Hs1 & _).
  apply call_bind_inv in E as [(e & E & ->)|(receipt & w2 & E2 & E)].
  - destruct (guard_commit_spec _ _ _ _ _ _ Hs1 E) as (Hs2 & Hf & Hg). split; [done |]. split; [done |].
    destruct Hg as [->|[Hn ->]]; done.
  - destruct (guard_commit_spec _ _ _ _ _ _ Hs1 E2) as (Hs2 & Hf & _ & Hg). apply call_result_inv in E as [<- ->].
    split; [done |]. unfold unary_answer. destruct (response_to (with_receipt (Some receipt) p)) as [v|] eqn:Et.
    + split; [done |]. split; [by rewrite Hg |]. exists res, payload, p, v. repeat (split; [done |]). right. by exists receipt.
    + split; [done |]. by rewrite Hg.
Qed.
(** *** From the request on *)

Lemma store_op_inv {A} (m : Call (E := LlmContextStoreError) (S := StoreState) A) st r st' : store_op m st = Some (r, st') ->
  exists out, m st = Some (out, st') /\ r = map_err llm_store_error out.
Proof. unfold store_op. destruct (m st) as [[out s]|]; [|done]. intros [= <- <-]. by exists out. Qed.

Lemma resolve_binding_spec env owner request cr st r st' : ctx_inv sopts st ->
  resolve_binding sopts options env owner request cr st = Some (r, st') ->
  ctx_inv sopts st' /\ reservations st' = reservations st.
Proof.
  intros Hi E.
  assert (Hsn : forall id, (sn <- store_op (snapshot sopts (le_read env) owner id) ;;
      call_ret (mkBinding (cq_model request) (b_system_messages (sn_binding sn))
                (default (b_tools (sn_binding sn)) (cq_tools request)) (lo_runtime_revision options)))%call st = Some (r, st') ->
      ctx_inv sopts st' /\ reservations st' = reservations st).
  { intros id E'. assert (exists out, snapshot sopts (le_read env) owner id st = Some (out, st')) as [out Eo].
    { apply call_bind_inv in E' as [(e & E' & _)|(sn & s1 & E1 & E')].
      - apply store_op_inv in E' as (out & E' & _). by exists out.
      - apply store_op_inv in E1 as (out & E1 & _). injection E' as _ <-. by exists out. }
    apply snapshot_state in Eo as (n & Esw). split; [by eapply sweep_inv |]. apply sweep_lookup in Esw. apply Esw. }
  unfold resolve_binding in E. destruct (cr_operation cr); try (by injection E as _ <-).
  - apply call_bind_inv in E as [(e & E & _)|(id & s1 & E1 & E)]; [by apply call_result_inv in E as [_ ->] |].
    apply call_result_inv in E1 as [_ ->]. by eapply Hsn.
  - apply call_bind_inv in E as [(e & E & _)|(id & s1 & E1 & E)]; [by apply call_result_inv in E as [_ ->] |].
    apply call_result_inv in E1 as [_ ->]. by eapply Hsn.
Qed.

(** A random identifier is not in use, and the others leave it alone. *)
Definition fresh_env (env : LlmEnv) (st : StoreState) : Prop :=
  forall rid, le_new_id env = Ok rid -> reservations st !! rid = None /\ others_ok env rid.

Lemma reserve_context_spec env frame request cr owner st h st' : ctx_inv sopts st -> fresh_env env st ->
  reserve_context sopts options env frame request cr owner st = Some (Ok h, st') ->
  ctx_inv sopts st' /\ others_ok env (h_reservation_id h).
Proof.
  intros Hi Hfresh E. unfold reserve_context in E.
  apply call_bind_inv in E as [(e & E & [=])|(binding & s1 & E1 & E)].
  destruct (resolve_binding_spec _ _ _ _ _ _ _ Hi E1) as [Hi1 Er1]. unfold call_bind at 1, call_modify at 1 in E.
  apply store_op_inv in E as (out & E & Eo). destruct out as [h'|]; [|done]. injection Eo as <-.
  apply reserve_cases in E as (n & s2 & Esw & [(e & [=] & _)|(rid & Eid & [= ->] & Hres)]).
  destruct (Hfresh rid Eid) as [Hnone Hok]. split; [|done].
  destruct (history_elsewhere _ _ _ _ (Hok 0%nat s1 Hi1) Hi1) as [Hi2 Hkeep].
  eapply reserved_inv; [by eapply sweep_inv | | exact Hres].
  apply sweep_lookup in Esw as (-> & _). apply Hkeep. by rewrite Er1.
Qed.

(** A completion that reserved a context never leaves the reservation
    behind.  Whatever the wrapped provider answers, the cancellation does and
    other requests do meanwhile, a unary answer or an error comes with the
    reservation gone from the store, committed or aborted; the receipt in an
    answer is that of a commit the authorizer allowed at the commit stage; and
    an answer without one repeats a completion that failed.  Only a stream is
    still open when the call returns. *)
Theorem complete_resolves env frame context st r oh w : ctx_inv sopts st -> fresh_env env st ->
  complete sopts options inner_execute env frame context st = Some (r, oh, w) ->
  match oh with
  | None => lw_guard w = ReservationActive /\ match r with Ok (Unary er) => inner_execute frame context = Ok er | Ok _ => False | Err _ => True end
  | Some h =>
    sane h w /\ others_ok env (h_reservation_id h) /\
    exists owner, owner_of options context = Ok owner /\
    match r with
    | Ok (Streaming _ _ _) => True
    | Ok (Unary er) => freed h (lw_store w) /\ lw_guard w <> ReservationActive /\ unary_outcome frame context owner er w
    | Err _ => freed h (lw_store w) /\ lw_guard w <> ReservationActive
    end
  end.
Proof.
  intros Hi Hfresh E. unfold complete in E.
  destruct (decode_params complete_request_of frame LLM_COMPLETE) as [request|]; [|by injection E as <- <- <-].
  destruct (check_complete options frame request); [|by injection E as <- <- <-].
  destruct (cq_context request) as [cr|]; [|injection E as <- <- <-; split; [done |]; by destruct (inner_execute frame context)].
  destruct (_ && _); [by injection E as <- <- <- |].
  destruct (owner_of options context) as [owner|] eqn:Eo; [|by injection E as <- <- <-].
  destruct (reserve_context _ _ _ _ _ _ _ st) as [[[h|e] st1]|] eqn:Er; [| |done]; [|by injection E as <- <- <-].
  destruct (reserve_context_spec _ _ _ _ _ _ _ _ Hi Hfresh Er) as [Hi1 Hok].
  destruct (execute_reserved _ _ _ _ _ _ _ _ _ _) as [[r0 w0]|] eqn:Ee; [|done]. injection E as <- <- <-.
  assert (Hs : sane h (mkLlmWorld ReservationActive st1)) by (split; [done | by left]).
  destruct (execute_reserved_spec _ _ _ _ _ _ _ _ _ Hok Hs Ee) as [Hs' Hr]. split; [done |]. split; [done |].
  exists owner. split; [done |]. by destruct r0 as [[]|].
Qed.

(** *** Streams *)

(** A frame whose chunks carry no receipt. *)
Definition bare_frame (f : ActionStreamFrame) : Prop :=
  exists chunks, collect chunk_to (map (chunk_receipt None) chunks) = Ok (sf_data f).

(** What has been handed on: bare frames, and at most a last one with the
    receipt of an authorized commit. *)
Definition emitted_ok (frame : ParsedActionFrame) (context : ActionContext) (owner : LlmContextOwner) (s : StreamState) : Prop :=
  Forall bare_frame (ss_emitted s) \/
  exists bare f, ss_emitted s = bare ++ [f] /\ Forall bare_frame bare /\ sf_is_last f = true /\
    ss_terminal_seen s = true /\ lw_guard (ss_world s) = ReservationCommitted /\
    check_authorization options owner (af_action_id frame) Commit (required_capabilities frame) context = Ok tt.

Record stream_ok (frame : ParsedActionFrame) (context : ActionContext) (owner : LlmContextOwner)
    (h : LlmContextMutationReservation) (s : StreamState) : Prop := {
  so_sane : sane h (ss_world s);
  so_resolved : ss_resolved s = true -> lw_guard (ss_world s) <> ReservationActive;
  so_emitted : emitted_ok frame context owner s
}.

(** The producer stops when the consumer does. *)
Inductive heeds : ActionStream -> Prop :=
| heeds_return r : heeds (Return r)
| heeds_emit f k : (forall e, exists e', k (Err e) = Return (Err e')) -> heeds (k (Ok tt)) -> heeds (Emit f k).

Section stream.
Context (env : LlmEnv) (sink : nat -> ActionStreamFrame -> result ActionError unit).
Context (frame : ParsedActionFrame) (context : ActionContext) (owner : LlmContextOwner) (h : LlmContextMutationReservation).
Context (Hothers : others_ok env (h_reservation_id h)).

Lemma collect_chunk_receipts l out : collect chunk_to (map (chunk_receipt None) l) = Ok out ->
  forall f, bare_frame (with_data out f).
Proof. intros E f. by exists l. Qed.

(** A world that moved on without going back to undecided. *)
Lemma in_world_ok s w : stream_ok frame context owner h s -> sane h w ->
  (lw_guard w = lw_guard (ss_world s) \/ lw_guard (ss_world s) = ReservationActive) ->
  stream_ok frame context owner h (in_world w s).
Proof.
  intros [P1 P2 P3] Hs Hg. constructor; cbn; [done | |].
  - intros Hr. destruct Hg as [-> |Hg]; [by apply P2 |]. by apply P2 in Hr.
  - destruct P3 as [P3|(bare & f & E1 & E2 & E3 & E4 & E5 & E6)]; [by left | right].
    exists bare, f. repeat (split; [done |]). split; [|done]. cbn. destruct Hg as [-> |Hg]; [done | congruence].
Qed.

Lemma stream_ok_set c calls term s : stream_ok frame context owner h s -> (ss_terminal_seen s = true -> term = true) ->
  stream_ok frame context owner h (mkStreamState c calls (ss_resolved s) term (ss_world s) (ss_emitted s)).
Proof.
  intros [P1 P2 P3] Ht. constructor; cbn; [done | done |].
  destruct P3 as [P3|(bare & f & E1 & E2 & E3 & E4 & E5 & E6)]; [by left | right]. exists bare, f. repeat (split; [done |]).
  split; [by apply Ht | done].
Qed.

Lemma bare_so_far s : stream_ok frame context owner h s -> ss_terminal_seen s = false -> Forall bare_frame (ss_emitted s).
Proof. intros [_ _ [P3|(bare & f & _ & _ & _ & E4 & _)]] Ht; [done | congruence]. Qed.

Lemma commit_frame_spec n f chunks s r s' : stream_ok frame context owner h s -> Forall bare_frame (ss_emitted s) ->
  sf_is_last f = true -> ss_terminal_seen s = true ->
  commit_frame sopts options env sink n frame context owner h f chunks s = Some (r, s') ->
  stream_ok frame context owner h s' /\ ss_terminal_seen s' = true /\ (r = Ok tt -> ss_resolved s' = true).
Proof.
  intros Hok Hbare Hlast Hterm E. unfold commit_frame in E.
  destruct (terminal_index chunks) as [index|]; [|by injection E as <- <-].
  destruct (check_authorization _ _ _ _ _ _) as [[]|] eqn:Eauth; [|by injection E as <- <-].
  destruct (le_flag env _); [by injection E as <- <- |].
  destruct (call_bind _ _ (ss_world s)) as [[out w]|] eqn:Ec; [|done].
  assert (Hw : sane h w /\ (lw_guard w = lw_guard (ss_world s) \/ lw_guard (ss_world s) = ReservationActive) /\
    match out with Ok _ => lw_guard w = ReservationCommitted | Err _ => True end).
  { apply call_bind_inv in Ec as [(e & Ec & _)|([] & w1 & E1 & Ec)];
      [by destruct (interlude_spec _ _ _ _ _ _ Hothers (so_sane _ _ _ _ _ Hok) Ec) as [? _] |].
    destruct (interlude_spec _ _ _ _ _ _ Hothers (so_sane _ _ _ _ _ Hok) E1) as (_ & Hs1 & Hg1).
    destruct (guard_commit_spec _ _ _ _ _ _ Hs1 Ec) as (Hs & _ & Hg). split; [done |]. split.
    - destruct Hg1 as [Hg1|[Hg1 _]]; [|by right]. destruct out; [right; rewrite <- Hg1; apply Hg |].
      destruct (decide (lw_guard (ss_world s) = ReservationActive)); [by right | left].
      unfold guard_commit, call_bind, call_get in Ec. rewrite Hg1 in Ec.
      destruct (lw_guard (ss_world s)) eqn:Eg; [done | | |]; injection Ec as _ <-; congruence.
    - destruct out; [apply Hg | done]. }
  destruct Hw as (Hs & Hg & Hcommitted). pose proof (in_world_ok s w Hok Hs Hg) as Hok'.
  destruct out as [receipt|e]; [|by injection E as <- <-].
  destruct (collect chunk_to _) as [data|e] eqn:Ed; [|by injection E as <- <-].
  injection E as <- <-. split; [|done]. destruct Hok' as [P1 P2 P3]. constructor; cbn; [done | by rewrite Hcommitted |].
  right. exists (ss_emitted s), (with_data data f). cbn. done.
Qed.

Lemma on_frame_spec n f s r s' : stream_ok frame context owner h s ->
  on_frame sopts options env sink n frame context owner h f s = Some (r, s') ->
  stream_ok frame context owner h s' /\ (r = Ok tt -> ss_terminal_seen s' = true -> ss_resolved s' = true).
Proof.
  intros Hok E. unfold on_frame in E.
  destruct (interlude sopts env h _ (ss_world s)) as [[out w]|] eqn:Ei; [|done].
  destruct (interlude_spec _ _ _ _ _ _ Hothers (so_sane _ _ _ _ _ Hok) Ei) as (_ & Hs & Hg). clear Ei out.
  assert (Hok1 : stream_ok frame context owner h (in_world w s)) by (apply in_world_ok; [done | done |]; destruct Hg as [|[]]; auto).
  clear Hok Hs Hg. set (s1 := in_world w s) in *.
  clearbody s1. clear s w.
  destruct (le_flag env _); [by injection E as <- <- |].
  destruct (ss_terminal_seen s1) eqn:Et; [by injection E as <- <- |].
  destruct (collect chunk_of (sf_data f)) as [chunks|]; [|by injection E as <- <-].
  destruct (negb (sf_is_last f) && _); [by injection E as <- <- |].
  assert (Hok2 : stream_ok frame context owner h (add_chunks chunks s1)) by (by apply stream_ok_set).
  destruct (collect chunk_to _) as [data|] eqn:Ed; [|injection E as <- <-; split; [done |]; cbn; by rewrite Et].
  pose proof (collect_chunk_receipts _ _ Ed f) as Hbare.
  pose proof (bare_so_far _ Hok1 Et) as Hso.
  change (sf_is_last (with_data data f)) with (sf_is_last f) in E. unfold pass_on in E.
  destruct (sf_is_last f) eqn:Elast; cbn [negb] in E.
  2: { injection E as <- <-. split; [|cbn; by rewrite Et]. destruct Hok2 as [P1 P2 P3]. constructor; cbn; [done | done |].
       left. apply Forall_app. split; [done |]. by constructor. }
  assert (Hok3 : stream_ok frame context owner h (see_terminal (add_chunks chunks s1))) by (by apply stream_ok_set).
  destruct (_ || _).
  - destruct (guard_abort _ _ _ _ _) as [[out w]|] eqn:Ea; [|done].
    destruct (guard_abort_spec _ _ _ _ _ _ (so_sane _ _ _ _ _ Hok3) Ea) as (_ & Hs & _ & Hg). injection E as <- <-. split; [|done].
    constructor; cbn; [done | |].
    + intros _. destruct Hg as [[_ ->]|[Hn ->]]; [done |]. exact Hn.
    + left. apply Forall_app. split; [done |]. constructor; [|constructor]. destruct Hbare as [l Hl]. by exists l.
  - destruct (commit_frame_spec _ _ _ _ _ _ Hok3 Hso Elast eq_refl E) as (Hok' & _ & Hr). split; [done |]. intros Hr' _. by apply Hr.
Qed.

(** A source, with or without manners. *)
Lemma run_source_spec source : forall n s r s', stream_ok frame context owner h s ->
  run_source sopts options env sink n frame context owner h source s = Some (r, s') ->
  stream_ok frame context owner h s' /\
  (heeds source -> (ss_terminal_seen s = true -> ss_resolved s = true) ->
   r = Ok tt -> ss_terminal_seen s' = true -> ss_resolved s' = true).
Proof.
  induction source as [r0|f k IH]; intros n s r s' Hok E; cbn [run_source] in E.
  - injection E as <- <-. split; [done |]. by intros _ Hres _.
  - destruct (on_frame _ _ _ _ _ _ _ _ _ f s) as [[r1 s1]|] eqn:Ef; [|done].
    destruct (on_frame_spec _ _ _ _ _ Hok Ef) as [Hok1 Hr1]. destruct (IH _ _ _ _ _ Hok1 E) as [Hok2 Hr2]. split; [done |].
    intros Hh _ Hr. inversion Hh as [|f' k' Herr Hk]; subst. destruct r1 as [[]|e].
    + apply Hr2; [done | by apply Hr1 | done].
    + destruct (Herr e) as [e' Ee]. rewrite Ee in E. cbn in E. by injection E.
Qed.
Lemma stream_start_ok w : sane h w -> stream_ok frame context owner h (stream_start w).
Proof. intros Hs. constructor; [done | done |]. left. constructor. Qed.

Lemma sane_freed w : sane h w -> lw_guard w <> ReservationActive -> freed h (lw_store w).
Proof. intros [_ [Hg|[_ Hf]]] Hn; [done | done]. Qed.

(** C16: the coordinator of a streamed completion.  Whatever the producer emits,
    the consumer answers, the cancellation does and other requests do
    meanwhile: what is handed on carries no receipt of the producer's, and a
    receipt of the store's only in the one terminal frame, after a commit that
    the authorizer allowed; a stream that ends in an error has given its
    reservation back; and so has one that ends well, provided its producer
    stops when the coordinator tells it to. *)
Theorem stream_resolves source w r s : sane h w ->
  coordinate_stream sopts options env sink frame context owner h source w = Some (r, s) ->
  sane h (ss_world s) /\ emitted_ok frame context owner s /\
  (forall e, r = Err e -> freed h (lw_store (ss_world s)) /\ lw_guard (ss_world s) <> ReservationActive) /\
  (heeds source -> freed h (lw_store (ss_world s)) /\ lw_guard (ss_world s) <> ReservationActive).
Proof.
  intros Hs E. unfold coordinate_stream in E.
  destruct (run_source _ _ _ _ _ _ _ _ _ _ _) as [[r0 s0]|] eqn:Er; [|done].
  destruct (run_source_spec _ _ _ _ _ (stream_start_ok w Hs) Er) as [Hok Hheeds].
  assert (Hgone : lw_guard (ss_world s0) <> ReservationActive ->
    freed h (lw_store (ss_world s0)) /\ lw_guard (ss_world s0) <> ReservationActive)
    by (intros Hn; split; [apply sane_freed; [apply Hok | done] | done]).
  assert (Herr : forall e, (if ss_resolved s0 then Some (Err e, s0)
      else match guard_abort sopts env h NODE_UNAVAILABLE (ss_world s0) with
           | None => None | Some (_, w) => Some (Err e, in_world w s0) end) = Some (r, s) ->
      sane h (ss_world s) /\ emitted_ok frame context owner s /\
      (freed h (lw_store (ss_world s)) /\ lw_guard (ss_world s) <> ReservationActive)).
  { intros e Ee. destruct (ss_resolved s0) eqn:Eres.
    - injection Ee as <- <-. split; [apply Hok |]. split; [apply Hok |]. by apply Hgone, (so_resolved _ _ _ _ _ Hok).
    - destruct (guard_abort _ _ _ _ _) as [[out w1]|] eqn:Ea; [|done]. injection Ee as <- <-.
      destruct (guard_abort_spec _ _ _ _ _ _ (so_sane _ _ _ _ _ Hok) Ea) as (_ & Hs1 & Hf & Hg).
      assert (Hok1 : stream_ok frame context owner h (in_world w1 s0))
        by (apply in_world_ok; [done | done |]; destruct Hg as [[Hx _]|[_ ->]]; auto).
      split; [done |]. split; [apply Hok1 |]. split; [done |]. cbn. destruct Hg as [[_ ->]|[Hn ->]]; done. }
  destruct r0 as [[]|e]; [|destruct (Herr _ E) as (H1' & H2' & H3'); by split; [|split; [|split]]].
  destruct (ss_terminal_seen s0) eqn:Et; [|destruct (Herr _ E) as (H1' & H2' & H3'); by split; [|split; [|split]]].
  injection E as <- <-. split; [apply Hok |]. split; [apply Hok |]. split; [done |].
  intros Hh. by apply Hgone, (so_resolved _ _ _ _ _ Hok), Hheeds.
Qed.
End stream.
End request.

(** ** Witnesses *)

#[local] Instance plain_digests : Digests := {| sha256 l := l; hex_encode _ := "h"; json_to_string _ := "j" |}.
#[local] Instance plain_time : ContextTime := {| instant_add a b := Some (a + b); rfc3339 _ := Some "t" |}.
#[local] Instance plain_binding : BindingSerde := {| binding_to_vec _ := Ok [] |}.

Definition toy_message (text : string) : LlmMessageDto := mkMessage "user" (Some text) None None None.
Definition toy_request : LlmCompleteActionRequest :=
  mkCompleteRequest LLM_COMPLETE "m" None false [toy_message "hello"] None
    (Some (mkContextRequest Create None None None)).
Definition toy_response : LlmCompleteActionResponse := mkCompleteResponse EndTurn (Some "hi") None None None None.
Definition toy_chunk : LlmCompleteStreamChunkDto := mkChunk (Some "hi") None (Some EndTurn) None None None.
#[local] Instance plain_llm : LlmSerde := {|
  complete_request_of _ := Ok toy_request;
  status_request_of _ := Err "x";
  release_request_of _ := Err "x";
  response_of _ := Ok toy_response;
  chunk_of _ := Ok toy_chunk;
  response_to p := Ok (VBool (is_set (cs_context p)));
  chunk_to c := Ok (VBool (is_set (ch_context c)));
  status_to _ := Err "x";
  receipt_to _ := Err "x"
|}.

Definition toy_opts : LlmContextStoreOptions :=
  normalized (mkStoreOptions 2 3600 3600 10 (86400 * nanos_per_sec) None).
Definition toy_llm (allow : bool) : StatefulLlmActionOptions :=
  mkLlmOptions "s" "r" None None true true false None (if allow then Some (fun _ _ _ _ _ => Ok tt) else None).
Definition toy_env : LlmEnv :=
  mkLlmEnv 1 1 2 2 (Ok "r1") (fun _ => Ok "aaaaaaaaaaaaaaaaaaaaaa") (fun _ => false) (fun _ => false) (fun _ st => st).
Definition toy_owner : LlmContextOwner := mkOwner "urn:nps:agent:a" "s".
Definition toy_frame : ParsedActionFrame :=
  mkActionFrame LLM_COMPLETE (Some (VObject [])) (Some "k") 0 false None None (Some "q").
Definition toy_context : ActionContext :=
  mkActionContext (Some "urn:nps:agent:a") (Some "q") None (spec_new true) 1000 "normal" 10.
Definition toy_inner (_ : ParsedActionFrame) (_ : ActionContext) : result ActionError ActionExecutionResult :=
  Ok (mkExecution (Some VNull) None None 0).
Definition toy_handle : LlmContextMutationReservation := mkReservation "r1" Create "".

Definition toy_reserve : ctx_op :=
  OReserve 1 (Ok "r1")
    (mkMutation Create toy_owner None None (mkBinding "m" [] [] "r") [toy_message "hello"] None "k" "q").
Definition toy_reserved : StoreState := default store_state_default (run_op toy_opts toy_reserve store_state_default).

Lemma toy_reserved_inv : ctx_inv toy_opts toy_reserved.
Proof.
  unfold toy_reserved. destruct (run_op toy_opts toy_reserve store_state_default) as [st|] eqn:E; [|apply default_inv].
  eapply run_op_inv; [apply default_inv | | exact E]. apply lookup_empty.
Qed.

Lemma toy_reserved_holds : is_Some (reservations toy_reserved !! "r1").
Proof. vm_compute. by eexists. Qed.

Lemma toy_sane : sane toy_opts toy_handle (mkLlmWorld ReservationActive toy_reserved).
Proof. split; [apply toy_reserved_inv | by left]. Qed.

Lemma toy_others rid : others_ok toy_opts toy_env rid.
Proof. intros i st _. apply rtc_refl. Qed.

Definition toy_threads : list GuardThread := [WantsAbort "x"; WantsCommit (toy_message "hi")].

Lemma guard_exclusive_witness : exists ts w,
  rtc (guard_system toy_opts toy_handle) (toy_threads, mkLlmWorld ReservationActive toy_reserved) (ts, w) /\
  freed toy_handle (lw_store w).
Proof.
  set (g := mkLlmWorld ReservationActive toy_reserved).
  destruct (store_abort toy_opts toy_handle 2 "x" toy_reserved) as [st|] eqn:Ea; [|vm_compute in Ea; discriminate].
  assert (Hrun : rtc (guard_system toy_opts toy_handle) (toy_threads, g)
    ([GuardDone None; GuardDone None], mkLlmWorld ReservationAborted st)).
  { eapply rtc_l; [apply (thread_moves toy_opts toy_handle toy_threads 0 (WantsAbort "x") 2 (le_factory toy_env) (Aborting "x") g
      (set_guard ReservationAborted g)); reflexivity |].
    eapply rtc_l; [apply (thread_moves toy_opts toy_handle _ 1 (WantsCommit (toy_message "hi")) 2 (le_factory toy_env) (GuardDone None)
      (set_guard ReservationAborted g) (set_guard ReservationAborted g)); reflexivity |].
    apply rtc_once. apply (thread_moves toy_opts toy_handle [Aborting "x"; GuardDone None] 0 (Aborting "x") 2 (le_factory toy_env)
      (GuardDone None)); [reflexivity |].
    cbn [guard_step lw_store set_guard g]. by rewrite Ea. }
  exists [GuardDone None; GuardDone None], (mkLlmWorld ReservationAborted st). split; [exact Hrun |].
  destruct (guard_exclusive toy_opts toy_handle toy_threads g _ _ toy_reserved_inv eq_refl ltac:(done)
    ltac:(repeat constructor) Hrun) as [_ Hdone].
  apply Hdone. repeat constructor; by exists None.
Defined.

Lemma complete_resolves_witness : exists h er w,
  complete toy_opts (toy_llm true) toy_inner toy_env toy_frame toy_context store_state_default
    = Some (Ok (Unary er), Some h, w) /\
  er_result er = Some (VBool true) /\ freed h (lw_store w).
Proof.
  assert (A : match complete toy_opts (toy_llm true) toy_inner toy_env toy_frame toy_context store_state_default with
              | Some (Ok (Unary _), Some _, _) => true | _ => false end = true) by (vm_compute; reflexivity).
  destruct (complete toy_opts (toy_llm true) toy_inner toy_env toy_frame toy_context store_state_default)
    as [[[[[er|]|] [h|]] w]|] eqn:E; try discriminate A.
  exists h, er, w. split; [done |].
  assert (Hf : fresh_env toy_opts toy_env store_state_default).
  { intros rid [= <-]. split; [apply lookup_empty | apply toy_others]. }
  pose proof (complete_resolves toy_opts (toy_llm true) toy_inner toy_env toy_frame toy_context store_state_default _ _ _
    (default_inv toy_opts) Hf E) as (_ & _ & owner & _ & Hfreed & _ & (res & payload & p & v & _ & _ & Hp & Hv & Hout)).
  split; [|done]. rewrite Hv. f_equal. injection Hp as <-. destruct Hout as [[[=] _]|(rc & Hr & _)]. by injection Hr as <-.
Defined.

(** One terminal frame, from a producer that passes the consumer's answer on. *)
Definition toy_stream_frame : ActionStreamFrame := mkSFrame "s" 0 true None [VNull] None None.
Definition toy_source (swallow : bool) : ActionStream :=
  Emit toy_stream_frame (fun r => Return (if swallow then Ok tt else r)).
Definition toy_sink (_ : nat) (_ : ActionStreamFrame) : result ActionError unit := Ok tt.

Lemma stream_resolves_witness : exists s,
  coordinate_stream toy_opts (toy_llm true) toy_env toy_sink toy_frame toy_context toy_owner toy_handle (toy_source false)
    (mkLlmWorld ReservationActive toy_reserved) = Some (Ok tt, s) /\
  map sf_data (ss_emitted s) = [[VBool true]] /\ freed toy_handle (lw_store (ss_world s)).
Proof.
  assert (Hs : match coordinate_stream toy_opts (toy_llm true) toy_env toy_sink toy_frame toy_context toy_owner toy_handle
      (toy_source false) (mkLlmWorld ReservationActive toy_reserved) with
    | Some (Ok _, s) => map sf_data (ss_emitted s) = [[VBool true]] | _ => False end) by (vm_compute; reflexivity).
  destruct (coordinate_stream toy_opts (toy_llm true) toy_env toy_sink toy_frame toy_context toy_owner toy_handle (toy_source false)
    (mkLlmWorld ReservationActive toy_reserved)) as [[[[]|] s]|] eqn:E; try done.
  exists s. split; [done |].
  destruct (stream_resolves toy_opts (toy_llm true) toy_env toy_sink toy_frame toy_context toy_owner toy_handle (toy_others _)
    (toy_source false) _ _ _ toy_sane E) as (_ & _ & _ & Hheeds).
  split; [exact Hs|apply Hheeds; constructor; [intros e; by exists e | constructor]].
Defined.

(** A producer that swallows the coordinator's refusal (here no authorizer is
    configured) ends its stream well, and the reservation stays. *)
Lemma swallowed_denial_leaks : exists s,
  coordinate_stream toy_opts (toy_llm false) toy_env toy_sink toy_frame toy_context toy_owner toy_handle (toy_source true)
    (mkLlmWorld ReservationActive toy_reserved) = Some (Ok tt, s) /\
  ss_emitted s = [] /\ lw_guard (ss_world s) = ReservationActive /\ is_Some (reservations (lw_store (ss_world s)) !! "r1").
Proof.
  eexists. split; [vm_compute; reflexivity |]. split; [reflexivity |]. split; [reflexivity |]. vm_compute. by eexists.
Qed.
