(* ===== verification/NipX509Builder.v ===== *)
(** * NipX509Builder: issuing X.509 NID certificates

    Models nps-nip/src/x509/builder.rs, the issuance of a chain by
    [NipCaService::register_x509] of ca/service.rs with its helpers, and shows
    that the verifier of NipX509 accepts what the builder issues.  The rcgen
    crate and the range of the time crate are the parameter [Rcgen]. *)

From S2P Require Import Prelude Calls RustStr Floats Json CoreFrames CoreCache NcpFrames NipFrames NipDer NipX509 NipVerifier NipSigner NipRa NipCaStore NipCaService.
Local Open Scope Z_scope.

(** ** What rcgen is given *)

Inductive SanType : Type := SanURI (uri : string) | SanOther (name : string).
Inductive IsCa : Type := NoCa | ExplicitNoCa | CaUnconstrained | CaConstrained (path_len : Z).
Inductive KeyUsagePurpose : Type := DigitalSignature | KeyCertSign | CrlSign | OtherUsage (bit : Z).

Record CustomExtension : Type := mkCustom { ce_oid : list Z; ce_critical : bool; ce_content : list Z }.
Definition from_oid_content (oid content : list Z) : CustomExtension := mkCustom oid false content.
Definition set_criticality (b : bool) (e : CustomExtension) : CustomExtension := mkCustom (ce_oid e) b (ce_content e).

(** The parameters of a certificate the source sets; times in seconds. *)
Record CertificateParams : Type := mkCertParams {
  cp_common_names : list string;
  cp_subject_alt_names : list SanType;
  cp_serial_number : option (list Z);
  cp_not_before : Z;
  cp_not_after : Z;
  cp_is_ca : IsCa;
  cp_key_usages : list KeyUsagePurpose;
  cp_custom_extensions : list CustomExtension
}.

#[export] Instance SanType_eq_dec : EqDecision SanType.
Proof. solve_decision. Defined.
#[export] Instance IsCa_eq_dec : EqDecision IsCa.
Proof. solve_decision. Defined.
#[export] Instance KeyUsagePurpose_eq_dec : EqDecision KeyUsagePurpose.
Proof. solve_decision. Defined.
#[export] Instance CustomExtension_eq_dec : EqDecision CustomExtension.
Proof. solve_decision. Defined.
#[export] Instance CertificateParams_eq_dec : EqDecision CertificateParams.
Proof. solve_decision. Defined.

(** rcgen: key pairs, public keys, [CertificateParams::new], IA5 strings, the
    two ways to sign, and the texts of a certificate; [as_bytes] of a signing
    key and [OffsetDateTime::from_unix_timestamp]. *)
Class Rcgen `{Ed25519Signing} : Type := {
  KeyPair : Type;
  SubjectPublicKeyInfo : Type;
  Certificate : Type;
  key_seed : SigningKey -> list Z;
  keypair_from_pkcs8 : list Z -> result string KeyPair;
  spki_from_der : list Z -> result string SubjectPublicKeyInfo;
  cert_params_new : list string -> result string CertificateParams;
  ia5_string : string -> result string string;
  self_signed : CertificateParams -> KeyPair -> result string Certificate;
  signed_by : CertificateParams -> SubjectPublicKeyInfo -> Certificate -> KeyPair -> result string Certificate;
  serialize_request : CertificateParams -> KeyPair -> result string (list Z);
  cert_der : Certificate -> list Z;
  cert_pem : Certificate -> string;
  from_unix_timestamp : Z -> option Z
}.

Definition with_names (cns : list string) (p : CertificateParams) : CertificateParams :=
  mkCertParams cns (cp_subject_alt_names p) (cp_serial_number p) (cp_not_before p) (cp_not_after p) (cp_is_ca p)
    (cp_key_usages p) (cp_custom_extensions p).
Definition with_sans (sans : list SanType) (p : CertificateParams) : CertificateParams :=
  mkCertParams (cp_common_names p) sans (cp_serial_number p) (cp_not_before p) (cp_not_after p) (cp_is_ca p)
    (cp_key_usages p) (cp_custom_extensions p).
Definition with_issue (serial : list Z) (not_before not_after : Z) (is_ca : IsCa) (usages : list KeyUsagePurpose)
    (p : CertificateParams) : CertificateParams :=
  mkCertParams (cp_common_names p) (cp_subject_alt_names p) (Some serial) not_before not_after is_ca usages
    (cp_custom_extensions p).
Definition push_extension (e : CustomExtension) (p : CertificateParams) : CertificateParams :=
  mkCertParams (cp_common_names p) (cp_subject_alt_names p) (cp_serial_number p) (cp_not_before p) (cp_not_after p)
    (cp_is_ca p) (cp_key_usages p) (cp_custom_extensions p ++ [e]).

Inductive LeafRole : Type := RoleAgent | RoleNode.
#[export] Instance LeafRole_eq_dec : EqDecision LeafRole.
Proof. solve_decision. Defined.

Section builder.
Context `{Rcgen}.

(** Times are nanoseconds from the epoch. *)
Record IssueLeafOptions : Type := mkLeafOptions {
  il_subject_nid : string;
  il_subject_pub_raw : list Z;
  il_ca_signing_key : SigningKey;
  il_ca_root_cert : Certificate;
  il_role : LeafRole;
  il_assurance_level : AssuranceLevel;
  il_not_before : Z;
  il_not_after : Z;
  il_serial_number : list Z;
  il_attested_node_roles : option (list string);
  il_attested_capabilities : option (list string)
}.
Record IssueRootOptions : Type := mkRootOptions {
  ir_ca_nid : string;
  ir_ca_signing_key : SigningKey;
  ir_not_before : Z;
  ir_not_after : Z;
  ir_serial_number : list Z
}.

Definition pkcs8_prefix : list Z := [48; 46; 2; 1; 0; 48; 5; 6; 3; 43; 101; 112; 4; 34; 4; 32].
Definition spki_prefix : list Z := [48; 42; 48; 5; 6; 3; 43; 101; 112; 3; 33; 0].

Definition dalek_to_rcgen_keypair (sk : SigningKey) : result string KeyPair :=
  keypair_from_pkcs8 (pkcs8_prefix ++ key_seed sk).
Definition raw_pub_to_spki (pub_raw : list Z) : result string SubjectPublicKeyInfo :=
  spki_from_der (spki_prefix ++ pub_raw).

(** [as i64] of a u64. *)
Definition wrap_i64 (x : Z) : Z := (x + 2 ^ 63) mod 2 ^ 64 - 2 ^ 63.

(** A time before the epoch is the epoch; seconds are a u64 cast to i64. *)
Definition system_to_offset (t : Z) : Z :=
  default 0 (from_unix_timestamp (wrap_i64 (Z.max 0 t / nanos_per_sec))).

Definition issue_root (opts : IssueRootOptions) : result string Certificate :=
  ca_keypair ← map_err (fun e => "dalek→rcgen keypair: " +:+ e) (dalek_to_rcgen_keypair (ir_ca_signing_key opts));
  params ← map_err (fun e => "rcgen params: " +:+ e) (cert_params_new []);
  let params := with_names [ir_ca_nid opts] params in
  let params := with_issue (ir_serial_number opts) (system_to_offset (ir_not_before opts))
                  (system_to_offset (ir_not_after opts)) CaUnconstrained [KeyCertSign; CrlSign] params in
  map_err (fun e => "rcgen self_signed: " +:+ e) (self_signed params ca_keypair).

Definition eku_extension (role : LeafRole) : CustomExtension :=
  let eku_oid := match role with RoleNode => EKU_NODE_IDENTITY_OID | RoleAgent => EKU_AGENT_IDENTITY_OID end in
  set_criticality true
    (from_oid_content EXTENSION_EXTENDED_KEY_USAGE_OID (build_eku_extension_value eku_oid)).
Definition assurance_extension (level : AssuranceLevel) : CustomExtension :=
  from_oid_content NID_ASSURANCE_LEVEL_OID [10; 1; rank level].
Definition push_attested (oid : list Z) (l : option (list string)) (p : CertificateParams) : CertificateParams :=
  match l with
  | Some l => push_extension (from_oid_content oid (build_utf8_sequence_extension_value l)) p
  | None => p
  end.

(** The parameters of a leaf, once its names are checked. *)
Definition leaf_params (opts : IssueLeafOptions) (uri : string) (params : CertificateParams) : CertificateParams :=
  let params := with_names [il_subject_nid opts] params in
  let params := with_sans [SanURI uri] params in
  let params := with_issue (il_serial_number opts) (system_to_offset (il_not_before opts))
                  (system_to_offset (il_not_after opts)) NoCa [DigitalSignature] params in
  let params := push_extension (eku_extension (il_role opts)) params in
  let params := push_extension (assurance_extension (il_assurance_level opts)) params in
  let params := push_attested ID_NPS_NODE_ROLES_OID (il_attested_node_roles opts) params in
  push_attested ID_NPS_CAPABILITIES_OID (il_attested_capabilities opts) params.

Definition issue_leaf (opts : IssueLeafOptions) : result string Certificate :=
  ca_keypair ← map_err (fun e => "dalek→rcgen keypair: " +:+ e) (dalek_to_rcgen_keypair (il_ca_signing_key opts));
  subject_spki ← map_err (fun e => "subject SPKI build: " +:+ e) (raw_pub_to_spki (il_subject_pub_raw opts));
  params ← map_err (fun e => "rcgen params: " +:+ e) (cert_params_new [il_subject_nid opts]);
  uri ← map_err (fun e => "SAN URI: " +:+ e) (ia5_string (il_subject_nid opts));
  map_err (fun e => "rcgen signed_by: " +:+ e)
    (signed_by (leaf_params opts uri params) subject_spki (il_ca_root_cert opts) ca_keypair).
End builder.

(** ** [NipCaService::register_x509] *)

Section register.
Context `{Rcgen} `{Base64} `{Base64Encoder} `{HexDecoder}.

Definition extract_ed25519_raw (encoded : string) : result NipCaError (list Z) :=
  b64 ← ok_or (strip_prefix "ed25519:" encoded)
    (mkCaError ("X.509 issuance requires an ed25519:* pubkey; got '" +:+ encoded +:+ "'.") CERT_FORMAT_INVALID);
  raw ← map_err (fun _ => mkCaError "ed25519 pubkey is not valid base64url." CERT_FORMAT_INVALID) (b64_url_no_pad b64);
  if (length raw =? 32)%nat then Ok raw
  else Err (mkCaError ("Ed25519 pubkey must be 32 bytes; got " +:+ fmt_Z (Z.of_nat (length raw)) +:+ ".") CERT_FORMAT_INVALID).

Definition parse_serial_bytes (serial : string) : list Z :=
  let hex_str := match strip_prefix "0x" serial with
                 | Some s => s
                 | None => default serial (strip_prefix "0X" serial)
                 end in
  let hex_str := if Nat.odd (String.length hex_str) then "0" +:+ hex_str else hex_str in
  let bytes := match hex_decode hex_str with Ok b => b | Err _ => [1] end in
  let bytes := match bytes with [] => [1] | _ => bytes end in
  match bytes with
  | b :: _ => if negb (Z.land b 128 =? 0) then 0 :: bytes else bytes
  | [] => bytes
  end.

Context {D : Digests} `{JsonParser} `{DateTimes}.
Context {S : Type} `{!NipCaStore S}.
Context (opts : NipCaOptions) (signing_key : SigningKey).

Definition ca_root_options (now not_after : Z) : IssueRootOptions :=
  mkRootOptions (ca_nid opts) signing_key now not_after [1].

Definition ca_leaf_options (now expires_at : Z) (entity_type nid serial : string) (subject_raw : list Z)
    (capabilities : list string) (level : AssuranceLevel) (root : Certificate) : IssueLeafOptions :=
  mkLeafOptions nid subject_raw signing_key root (if String.eqb entity_type "node" then RoleNode else RoleAgent) level
    now expires_at (parse_serial_bytes serial) None (Some capabilities).

Definition with_chain (chain : list string) (f : IdentFrame) : IdentFrame :=
  mkIdent (id_nid f) (id_pub_key f) (id_meta f) (id_signature f) (id_capabilities f) (id_scope f) (id_issued_by f)
    (id_issued_at f) (id_expires_at f) (id_serial f) (id_assurance_level f) (Some V2_X509) (Some chain)
    (id_ocsp_staple f) (id_reputation_policy f) (id_node_roles f).

Local Open Scope call_scope.

Definition register_x509 (now : Z) (entity_type identifier pub_key : string) (capabilities : list string)
    (scope_json : string) (assurance_level : option AssuranceLevel) (metadata_json : option string)
    : Call (E := NipCaError) (S := S) IdentFrame :=
  let nid := build_nid opts entity_type identifier in
  require_new nid ;;
  call_result (ca_check_capabilities opts capabilities) ;;
  expires_at <- call_panic (date_add now (days (valid_days opts entity_type))) ;;
  serial <- next_serial ;;
  let level := default ANONYMOUS assurance_level in
  v1 <- call_result (issue_frame opts signing_key nid pub_key capabilities scope_json now expires_at serial
          metadata_json (Some level) None) ;;
  subject_raw <- call_result (extract_ed25519_raw pub_key) ;;
  root_end <- call_panic (date_add now (days 3650)) ;;
  root <- call_result (map_err (fun e => mkCaError e CERT_FORMAT_INVALID) (issue_root (ca_root_options now root_end))) ;;
  leaf <- call_result (map_err (fun e => mkCaError e CERT_FORMAT_INVALID)
            (issue_leaf (ca_leaf_options now expires_at entity_type nid serial subject_raw capabilities level root))) ;;
  let chain := [b64_url_no_pad_encode (cert_der leaf); b64_url_no_pad_encode (cert_der root)] in
  persist (mkRecord nid entity_type serial pub_key capabilities scope_json (ca_nid opts) now expires_at
             None None metadata_json None None None) ;;
  call_ret (with_chain chain v1).
End register.

(** ** What the verifier reads of an issued certificate *)

(** The extensions rcgen writes by itself. *)
Definition rcgen_oids : list (list Z) := [[2; 5; 29; 14]; [2; 5; 29; 15]; [2; 5; 29; 17]; [2; 5; 29; 19]; [2; 5; 29; 35]].

Definition san_text (n : SanType) : option string := match n with SanURI u => Some u | SanOther _ => None end.

Section reads.
Context `{Rcgen} `{X509Parser}.

(** [x] is what x509-parser makes of a certificate with the parameters [p]. *)
Record reads_as (p : CertificateParams) (c : Certificate) (x : X509Certificate) : Prop := {
  ra_parsed : from_der (cert_der c) = Ok x;
  ra_der : x_der x = cert_der c;
  ra_names : x_common_names x = map Some (cp_common_names p);
  ra_san : cp_subject_alt_names p <> [] -> x_san x = Some (map san_text (cp_subject_alt_names p));
  ra_ext oid : oid ∉ rcgen_oids ->
    match List.find (fun e => bool_decide (ce_oid e = oid)) (cp_custom_extensions p),
          List.find (fun e => oid_equals (ext_oid e) oid) (x_extensions x) with
    | Some ce, Some e => ext_critical e = ce_critical ce /\ ext_value e = ce_content ce
    | None, None => True
    | _, _ => False
    end;
  ra_eku e oid l : In e (x_extensions x) -> In oid [EKU_AGENT_IDENTITY_OID; EKU_NODE_IDENTITY_OID] ->
    ext_value e = build_eku_extension_value oid -> ext_eku e = Some l -> In (Some oid) l
}.

Definition signed_with (sk : SigningKey) (x : X509Certificate) : Prop :=
  exists sig, sig_from_slice (x_signature x) = Ok sig /\ ed_verify (verifying_key sk) (x_tbs x) sig = Ok tt.
End reads.

(** The documented behaviour of rcgen, read with x509-parser. *)
Class RcgenLaws `{Rcgen} `{X509Parser} : Prop := {
  leaf_reads p s i k c : signed_by p s i k = Ok c -> exists x, reads_as p c x /\
    (forall raw, spki_from_der (spki_prefix ++ raw) = Ok s -> x_spki x = raw) /\
    (forall sk, dalek_to_rcgen_keypair sk = Ok k -> signed_with sk x);
  root_reads p k c : self_signed p k = Ok c -> exists x, reads_as p c x /\
    (forall sk, dalek_to_rcgen_keypair sk = Ok k -> x_spki x = key_to_bytes (verifying_key sk) /\ signed_with sk x);
  params_default names p : cert_params_new names = Ok p -> cp_custom_extensions p = [];
  der_bytes c : Forall u8_range (cert_der c);
  ia5_same s t : ia5_string s = Ok t -> t = s
}.

Section issued.
Context {D : Digests} `{SigningLaws}.
Context `{!Rcgen} `{!X509Parser} `{!RcgenLaws}.

Definition ca_issued (sk : SigningKey) (root : Certificate) : Prop :=
  exists o, issue_root o = Ok root /\ ir_ca_signing_key o = sk.

Lemma map_err_Ok {E F A} (f : E -> F) (r : result E A) a : map_err f r = Ok a -> r = Ok a.
Proof. destruct r; [|done]. by intros [= ->]. Qed.

Lemma root_read sk root : ca_issued sk root ->
  exists x, from_der (cert_der root) = Ok x /\ x_der x = cert_der root /\
    x_spki x = key_to_bytes (verifying_key sk) /\ signed_with sk x.
Proof.
  intros (o & E & <-). unfold issue_root in E.
  apply result_bind_Ok in E as (k & Ek%map_err_Ok & E). apply result_bind_Ok in E as (p & _ & E%map_err_Ok).
  apply root_reads in E as (x & Hx & Hk). destruct (Hk _ Ek). exists x. split; [apply Hx | split; [apply Hx | done]].
Qed.

Lemma signed_by_root sk x r : signed_with sk x -> x_spki r = key_to_bytes (verifying_key sk) -> verify_signed_by x r = Ok tt.
Proof.
  intros (sig & Es & Ev) Er. unfold verify_signed_by. rewrite Er, key_bytes_len, key_bytes_back. cbn [map_err].
  cbn. rewrite Es. cbn. by rewrite Ev.
Qed.

(** The leaf as the verifier reads it. *)
Lemma leaf_read o leaf : issue_leaf o = Ok leaf ->
  exists x, from_der (cert_der leaf) = Ok x /\ x_spki x = il_subject_pub_raw o /\ signed_with (il_ca_signing_key o) x /\
    x_common_names x = [Some (il_subject_nid o)] /\ x_san x = Some [Some (il_subject_nid o)] /\
    check_leaf_eku x = None /\
    exists e, List.find (fun e => oid_equals (ext_oid e) NID_ASSURANCE_LEVEL_OID) (x_extensions x) = Some e /\
      ext_value e = [10; 1; rank (il_assurance_level o)].
Proof.
  intros E. unfold issue_leaf in E.
  apply result_bind_Ok in E as (k & Ek%map_err_Ok & E). apply result_bind_Ok in E as (s & Es%map_err_Ok & E).
  apply result_bind_Ok in E as (p & Ep%map_err_Ok%params_default & E). apply result_bind_Ok in E as (uri & Eu%map_err_Ok & E%map_err_Ok).
  apply ia5_same in Eu as ->. apply leaf_reads in E as (x & Hx & Hspki & Hsig). exists x.
  split; [apply Hx |]. split; [by apply Hspki |]. split; [by apply Hsig |].
  assert (Hn : cp_common_names (leaf_params o (il_subject_nid o) p) = [il_subject_nid o] /\
    cp_subject_alt_names (leaf_params o (il_subject_nid o) p) = [SanURI (il_subject_nid o)])
    by (unfold leaf_params, push_attested; by destruct (il_attested_node_roles o), (il_attested_capabilities o)).
  destruct Hn as [Hn Hsan]. split; [by rewrite (ra_names _ _ _ Hx), Hn |].
  split; [by rewrite (ra_san _ _ _ Hx), Hsan by by rewrite Hsan |].
  assert (Hext : exists rest, cp_custom_extensions (leaf_params o (il_subject_nid o) p)
      = eku_extension (il_role o) :: assurance_extension (il_assurance_level o) :: rest).
  { unfold leaf_params, push_attested.
    destruct (il_attested_node_roles o), (il_attested_capabilities o); cbn; rewrite Ep; by eexists. }
  destruct Hext as [rest Hext].
  split.
  - pose proof (ra_ext _ _ _ Hx EXTENSION_EXTENDED_KEY_USAGE_OID ltac:(apply (bool_decide_unpack _); vm_compute; exact I)) as He. rewrite Hext in He. cbn in He.
    unfold check_leaf_eku. destruct (List.find _ (x_extensions x)) as [e|] eqn:Ef; [|done].
    destruct He as [-> Hv]. cbn [negb]. apply find_some in Ef as [Hin _].
    assert (Hrole : exists oid, In oid [EKU_AGENT_IDENTITY_OID; EKU_NODE_IDENTITY_OID] /\ ext_value e = build_eku_extension_value oid)
      by (rewrite Hv; destruct (il_role o); eexists; (split; [|reflexivity]); cbn; auto).
    clear Hv. destruct Hrole as (oid & Hoid & Hv).
    assert (Hallow : eku_allows e = true); [|by rewrite Hallow].
    unfold eku_allows. destruct (ext_eku e) as [l|] eqn:El.
    + apply existsb_exists. exists (Some oid). split; [by eapply (ra_eku _ _ _ Hx) |].
      apply orb_true_iff. rewrite !existsb_oid_equals. destruct Hoid as [<-|[<-|[]]]; auto.
    + rewrite Hv. apply orb_true_iff. pose proof issued_eku_recognised as (H1' & H2' & _).
      destruct Hoid as [<-|[<-|[]]]; auto.
  - pose proof (ra_ext _ _ _ Hx NID_ASSURANCE_LEVEL_OID ltac:(apply (bool_decide_unpack _); vm_compute; exact I)) as He. rewrite Hext in He. cbn in He.
    destruct (List.find _ (x_extensions x)) as [e|]; [|done]. exists e. split; [done | apply He].
Qed.

(** A chain of an issued leaf and a root of the same key, against a root of
    that key. *)
Lemma issued_chain_valid o leaf root trusted nid lv : issue_leaf o = Ok leaf -> ca_issued (il_ca_signing_key o) root ->
  ca_issued (il_ca_signing_key o) trusted -> In (il_assurance_level o) [ANONYMOUS; ATTESTED; VERIFIED] ->
  xr_valid (x509_verify [b64_url_no_pad_encode (cert_der leaf); b64_url_no_pad_encode (cert_der root)] nid (Some lv)
    [cert_der trusted]) = true <-> nid = il_subject_nid o /\ lv = il_assurance_level o.
Proof.
  intros Hl Hr Ht Hlv. destruct (leaf_read o leaf Hl) as (x & Px & _ & Sx & Cx & Ax & Kx & e & Ee & Ve).
  destruct (root_read _ _ Hr) as (r & Pr & _ & Spkir & Sr). destruct (root_read _ _ Ht) as (t & Pt & _ & Spkit & _).
  rewrite (x509_verify_parsed _ nid (Some lv) [cert_der trusted] [cert_der leaf; cert_der root] x [r]).
  - unfold identity_leaf. rewrite Cx, Ax. cbn [In default List.last linked].
    assert (Hanch : anchored r [cert_der trusted]).
    { exists (cert_der trusted). split; [by left | right]. exists t. split; [done |]. by apply signed_by_root with (il_ca_signing_key o). }
    assert (Hlink : signed x r /\ True) by (split; [by apply signed_by_root with (il_ca_signing_key o) | done]).
    assert (Hlevel : level_agrees x (Some lv) <-> lv = il_assurance_level o).
    { unfold level_agrees. rewrite Ee. split.
      - intros Hx. destruct (Hx lv e eq_refl eq_refl) as [Hv Hin]. rewrite Ve in Hv. injection Hv as Hv.
        destruct Hin as [<-|[<-|[<-|[]]]], Hlv as [Hl'|[Hl'|[Hl'|[]]]]; rewrite <-Hl' in *; try done; by vm_compute in Hv.
      - intros -> l e' [= <-] [= <-]. done. }
    rewrite Hlevel. split.
    + intros ((_ & [[= ->]|[]] & _) & -> & _). done.
    + intros [-> ->]. split; [|done]. split; [done |]. split; by left.
  - cbn. unfold base64_url_decode. rewrite !b64_back by apply der_bytes. done.
  - cbn. rewrite Px. cbn. rewrite Pr. done.
Qed.
End issued.

(** ** What the CA registers, the verifier accepts *)

Section registered.
Context {D : Digests} `{SigningLaws} `{HexDecoder} `{JsonParser} `{DateTimes}.
Context `{!Rcgen} `{!X509Parser} `{!RcgenLaws}.
Context {S : Type} `{!NipCaStore S}.
Context (opts : NipCaOptions) (sk : SigningKey).

Lemma extract_ed25519_raw_Ok k raw : extract_ed25519_raw k = Ok raw ->
  length raw = 32%nat /\ exists b64, k = "ed25519:" +:+ b64 /\ b64_url_no_pad b64 = Ok raw.
Proof.
  unfold extract_ed25519_raw. intros E. apply result_bind_Ok in E as (b64 & Eb & E).
  apply result_bind_Ok in E as (raw' & Er%map_err_Ok & E).
  destruct (Nat.eqb_spec (length raw') 32) as [El|]; [|done]. injection E as <-. split; [done |]. exists b64. split; [|done].
  unfold ok_or in Eb. destruct (strip_prefix _ k) as [b|] eqn:Es; [|done]. injection Eb as <-. by apply strip_prefix_spec.
Qed.

(** C8: a frame registered with an X.509 chain.  The NID was new; the frame
    says so and is of the X.509 format; and whoever trusts a root certificate
    of this CA's key accepts the chain for exactly the NID and the assurance
    level of the frame, and finds in its leaf the public key of the frame. *)
Theorem registered_chain_valid now entity_type identifier pub_key capabilities scope_json level metadata_json (s s' : S) f :
  In (default ANONYMOUS level) [ANONYMOUS; ATTESTED; VERIFIED] ->
  register_x509 opts sk now entity_type identifier pub_key capabilities scope_json level metadata_json s = Some (Ok f, s') ->
  st_get_by_nid (id_nid f) s = None /\ id_nid f = build_nid opts entity_type identifier /\ id_pub_key f = pub_key /\
  id_assurance_level f = Some (default ANONYMOUS level) /\ id_cert_format f = Some V2_X509 /\
  exists chain, id_cert_chain f = Some chain /\
    (forall trusted nid lv, ca_issued sk trusted ->
       xr_valid (x509_verify chain nid (Some lv) [cert_der trusted]) = true <->
       nid = id_nid f /\ Some lv = id_assurance_level f) /\
    exists der x b64, base64_url_decode <$> head chain = Some (Ok der) /\ from_der der = Ok x /\
      pub_key = "ed25519:" +:+ b64 /\ b64_url_no_pad b64 = Ok (x_spki x).
Proof.
  intros Hlv E. unfold register_x509 in E. set (nid := build_nid opts entity_type identifier) in *.
  apply call_bind_inv in E as [(e & _ & [=])|([] & s1 & E1 & E)].
  assert (Hnew : st_get_by_nid nid s = None /\ s1 = s).
  { unfold require_new, get_by_nid, call_bind, call_get in E1. destruct (st_get_by_nid nid s); [done |]. by injection E1 as <-. }
  destruct Hnew as [Hnew ->]. clear E1.
  apply call_bind_inv in E as [(e & _ & [=])|([] & s1 & [_ ->]%call_result_inv & E)].
  apply call_bind_inv in E as [(e & _ & [=])|(expires_at & s1 & (x1 & _ & _ & ->)%call_panic_inv & E)].
  apply call_bind_inv in E as [(e & _ & [=])|(serial & s1 & _ & E)].
  apply call_bind_inv in E as [(e & _ & [=])|(v1 & s2 & [Ev1 ->]%call_result_inv & E)].
  apply call_bind_inv in E as [(e & _ & [=])|(raw & s2 & [Eraw ->]%call_result_inv & E)].
  apply call_bind_inv in E as [(e & _ & [=])|(root_end & s2 & (x2 & _ & _ & ->)%call_panic_inv & E)].
  apply call_bind_inv in E as [(e & _ & [=])|(root & s2 & [Eroot%map_err_Ok ->]%call_result_inv & E)].
  apply call_bind_inv in E as [(e & _ & [=])|(leaf & s2 & [Eleaf%map_err_Ok ->]%call_result_inv & E)].
  apply call_bind_inv in E as [(e & _ & [=])|([] & s2 & _ & E)]. apply call_ret_inv in E as [[= ->] _].
  unfold issue_frame in Ev1. apply result_bind_Ok in Ev1 as (scope & _ & [= <-]). cbn [id_nid id_pub_key id_assurance_level id_cert_format id_cert_chain with_chain].
  split; [done |]. split; [done |]. split; [done |]. split; [done |]. split; [done |].
  eexists. split; [reflexivity |]. split.
  - intros trusted n lv Ht. rewrite (issued_chain_valid _ leaf root trusted n lv Eleaf); [| |exact Ht | exact Hlv].
    + cbn [il_subject_nid il_assurance_level ca_leaf_options]. split; intros [-> Hl]; (split; [done |]); congruence.
    + by exists (ca_root_options opts sk now root_end).
  - destruct (leaf_read _ _ Eleaf) as (x & Px & Spki & _). destruct (extract_ed25519_raw_Ok _ _ Eraw) as (_ & b64 & -> & Eb).
    exists (cert_der leaf), x, b64. split; [|split; [done |]; split; [done |]; by rewrite Spki].
    cbn. unfold base64_url_decode. by rewrite b64_back by apply der_bytes.
Qed.
End registered.

(** ** Witness: a toy rcgen that knows one leaf and one root *)

#[local] Existing Instances const_b64 const_ed25519 const_signing const_encoder const_laws const_digests.
#[local] Instance toy_json : JsonParser := {| parse_json _ := Ok (VObject []) |}.
#[local] Instance toy_dates : DateTimes := {|
  date_add a b := Some (a + b); fmt_ts _ := "t"; fmt_duration _ := "d" |}.
#[local] Instance toy_hex : HexDecoder := {| hex_decode _ := Ok [1] |}.

Definition toy_nid : string := "urn:nps:agent:ca.example:a".
Definition toy_raw : list Z := repeat 97 32.
Definition toy_caps_extension : CustomExtension :=
  from_oid_content ID_NPS_CAPABILITIES_OID (build_utf8_sequence_extension_value ["read"]).
Definition toy_leaf_params : CertificateParams :=
  mkCertParams [toy_nid] [SanURI toy_nid] (Some [1]) 0 (30 * 86400) NoCa [DigitalSignature]
    [eku_extension RoleAgent; assurance_extension ANONYMOUS; toy_caps_extension].
Definition toy_root_params (cn : string) : CertificateParams :=
  mkCertParams [cn] [] (Some [1]) 0 (3650 * 86400) CaUnconstrained [KeyCertSign; CrlSign] [].
Definition toy_default : CertificateParams := mkCertParams [] [] None 0 0 NoCa [] [].
Definition toy_ext (e : CustomExtension) : X509Extension := mkExt (Some (ce_oid e)) (ce_critical e) (ce_content e) None.
Definition toy_leaf : X509Certificate :=
  mkCert [1] [] [] toy_raw (map toy_ext (cp_custom_extensions toy_leaf_params)) [Some toy_nid] (Some [Some toy_nid]).
Definition toy_root : X509Certificate := mkCert [2] [] [] (repeat 0 32) [] [Some "urn:nps:org:ca.example"] None.

#[local] Instance toy_rcgen : Rcgen := {|
  KeyPair := unit;
  SubjectPublicKeyInfo := unit;
  Certificate := bool;
  key_seed _ := repeat 0 32;
  keypair_from_pkcs8 _ := Ok tt;
  spki_from_der der := if decide (der = spki_prefix ++ toy_raw) then Ok tt else Err "x";
  cert_params_new _ := Ok toy_default;
  ia5_string s := Ok s;
  self_signed p _ := if decide (p = toy_root_params "urn:nps:org:ca.example") then Ok false else Err "x";
  signed_by p _ _ _ := if decide (p = toy_leaf_params) then Ok true else Err "x";
  serialize_request _ _ := Err "x";
  cert_der b := if b : bool then [1] else [2];
  cert_pem _ := "";
  from_unix_timestamp t := Some t
|}.
#[local] Instance toy_parser : X509Parser := {|
  from_der der := match der with [1] => Ok toy_leaf | [2] => Ok toy_root | _ => Err "x" end |}.

#[local] Instance toy_laws : RcgenLaws.
Proof.
  split.
  - intros p s i k c E. cbn in E. destruct (decide (p = toy_leaf_params)) as [->|]; [|done]. injection E as <-.
    exists toy_leaf. split; [split; try done | split].
    + intros oid _. cbn. repeat case_bool_decide; done.
    + intros e oid l Hin _ _. by destruct Hin as [<-|[<-|[<-|[]]]].
    + intros raw E. cbn in E. destruct (decide _) as [E'|]; [|done]. by apply (inj (app spki_prefix)) in E'.
    + intros ? _. by exists tt.
  - intros p k c E. cbn in E. destruct (decide _) as [->|]; [|done]. injection E as <-.
    exists toy_root. split; [split; done |]. intros ? _. split; [done | by exists tt].
  - by intros names p [= <-].
  - intros [|]; cbn; repeat constructor; unfold u8_range; lia.
  - by intros s t [= ->].
Qed.

Definition toy_x509_opts : NipCaOptions := ca_options_new "urn:nps:org:ca.example".

Lemma registered_chain_valid_witness : exists f s' chain,
  register_x509 toy_x509_opts const_key 0 "agent" "a" ("ed25519:" +:+ of_bytes toy_raw) ["read"] "{}" None None store_new = Some (Ok f, s') /\
  id_cert_chain f = Some chain /\ xr_valid (x509_verify chain toy_nid (Some ANONYMOUS) [[2]]) = true.
Proof.
  run_call (register_x509 toy_x509_opts const_key 0 "agent" "a" ("ed25519:" +:+ of_bytes toy_raw) ["read"] "{}" None None store_new) f s' E.
  destruct (registered_chain_valid toy_x509_opts const_key 0 "agent" "a" ("ed25519:" +:+ of_bytes toy_raw) ["read"] "{}" None None
    store_new s' f ltac:(by left) E) as (_ & En & _ & Hl & _ & chain & Ec & Hv & _).
  exists f, s', chain. split; [exact E |]. split; [exact Ec |].
  assert (Ht : ca_issued const_key false).
  { exists (ca_root_options toy_x509_opts const_key 0 (days 3650)). split; [vm_compute; reflexivity | done]. }
  apply (Hv false toy_nid ANONYMOUS Ht). split; [by rewrite En | by rewrite Hl].
Defined.
