(* ===== verification/NipAcme.v ===== *)
(** * NipAcme: certificates by the agent-01 challenge

    Models nps-nip/src/acme: the signed envelopes of jws.rs, the messages of
    messages.rs and wire.rs, and the server of server.rs, whose requests run
    one after the other on one thread.  Random bytes are drawn from a stream,
    so a state counts its draws; what serde derives for the messages, the
    parser of signing requests and the clock are parameters. *)

From S2P Require Import Prelude Calls RustStr Json CoreCache NipFrames NipDer NipX509 NipSigner NipX509Builder.
Local Open Scope Z_scope.

(** ** Wire constants *)

Definition CONTENT_TYPE_JOSE_JSON : string := "application/jose+json".
Definition CONTENT_TYPE_PROBLEM : string := "application/problem+json".
Definition CONTENT_TYPE_PEM_CERT : string := "application/pem-certificate-chain".
Definition CHALLENGE_AGENT_01 : string := "agent-01".
Definition IDENTIFIER_TYPE_NID : string := "nid".
Definition STATUS_PENDING : string := "pending".
Definition STATUS_READY : string := "ready".
Definition STATUS_VALID : string := "valid".
Definition STATUS_INVALID : string := "invalid".
Definition ACME_CHALLENGE_FAILED : string := "NIP-ACME-CHALLENGE-FAILED".

(** ** Messages *)

Record DirectoryMeta : Type := mkDirectoryMeta {
  dm_terms_of_service : option string;
  dm_website : option string;
  dm_caa_identities : option (list string);
  dm_external_account_required : option bool
}.
Record Directory : Type := mkDirectory {
  dir_new_nonce : string;
  dir_new_account : string;
  dir_new_order : string;
  dir_revoke_cert : option string;
  dir_key_change : option string;
  dir_meta : option DirectoryMeta
}.
Record NewAccountPayload : Type := mkNewAccount {
  na_terms_of_service_agreed : option bool;
  na_contact : option (list string);
  na_only_return_existing : option bool
}.
Record Identifier : Type := mkIdentifier { ident_type : string; ident_value : string }.
Record NewOrderPayload : Type := mkNewOrder {
  no_identifiers : list Identifier;
  no_not_before : option string;
  no_not_after : option string
}.
Record ProblemDetail : Type := mkProblem {
  pd_type : string; pd_detail : option string; pd_status : option Z }.
Record Order : Type := mkOrder {
  or_status : string;
  or_expires : option string;
  or_identifiers : list Identifier;
  or_authorizations : list string;
  or_finalize : string;
  or_certificate : option string;
  or_error : option ProblemDetail
}.
Record Challenge : Type := mkChallenge {
  chl_type : string;
  chl_url : string;
  chl_status : string;
  chl_token : string;
  chl_validated : option string;
  chl_error : option ProblemDetail
}.
Record Authorization : Type := mkAuthorization {
  au_status : string;
  au_expires : option string;
  au_identifier : Identifier;
  au_challenges : list Challenge
}.
Record ChallengeRespondPayload : Type := mkRespond { cr_agent_signature : string }.
Record FinalizePayload : Type := mkFinalize { fp_csr : string }.

(** What serde writes: the members in declaration order, [None] left out. *)
Definition member_opt {A} (k : string) (f : A -> Value) (o : option A) : Map :=
  match o with Some a => [(k, f a)] | None => [] end.

Definition meta_to_value (m : DirectoryMeta) : Value :=
  VObject (member_opt "terms_of_service" VString (dm_terms_of_service m) ++ member_opt "website" VString (dm_website m)
             ++ member_opt "caa_identities" vstrings (dm_caa_identities m)
             ++ member_opt "external_account_required" VBool (dm_external_account_required m)).
Definition directory_to_value (d : Directory) : Value :=
  VObject ([("newNonce", VString (dir_new_nonce d)); ("newAccount", VString (dir_new_account d));
            ("newOrder", VString (dir_new_order d))] ++ member_opt "revokeCert" VString (dir_revoke_cert d)
             ++ member_opt "keyChange" VString (dir_key_change d) ++ member_opt "meta" meta_to_value (dir_meta d)).
Definition identifier_to_value (i : Identifier) : Value :=
  VObject [("type", VString (ident_type i)); ("value", VString (ident_value i))].
Definition problem_to_value (p : ProblemDetail) : Value :=
  VObject ([("type", VString (pd_type p))] ++ member_opt "detail" VString (pd_detail p)
             ++ member_opt "status" vnat (pd_status p)).
Definition order_to_value (o : Order) : Value :=
  VObject ([("status", VString (or_status o))] ++ member_opt "expires" VString (or_expires o)
             ++ [("identifiers", VArray (map identifier_to_value (or_identifiers o)));
                 ("authorizations", vstrings (or_authorizations o)); ("finalize", VString (or_finalize o))]
             ++ member_opt "certificate" VString (or_certificate o) ++ member_opt "error" problem_to_value (or_error o)).
Definition challenge_to_value (c : Challenge) : Value :=
  VObject ([("type", VString (chl_type c)); ("url", VString (chl_url c)); ("status", VString (chl_status c));
            ("token", VString (chl_token c))] ++ member_opt "validated" VString (chl_validated c)
             ++ member_opt "error" problem_to_value (chl_error c)).
Definition authorization_to_value (a : Authorization) : Value :=
  VObject ([("status", VString (au_status a))] ++ member_opt "expires" VString (au_expires a)
             ++ [("identifier", identifier_to_value (au_identifier a));
                 ("challenges", VArray (map challenge_to_value (au_challenges a)))]).

(** ** Signed envelopes (jws.rs) *)

Definition ALG_EDDSA : string := "EdDSA".
Definition KTY_OKP : string := "OKP".
Definition CRV_ED25519 : string := "Ed25519".

Record Jwk : Type := mkJwk { jwk_kty : string; jwk_crv : string; jwk_x : string }.
Record ProtectedHeader : Type := mkHeader {
  ph_alg : string; ph_nonce : string; ph_url : string; ph_jwk : option Jwk; ph_kid : option string }.
Record Envelope : Type := mkEnvelope { env_protected : string; env_payload : string; env_signature : string }.

(** What serde derives for the messages, both ways. *)
Class AcmeSerde : Type := {
  header_to_vec : ProtectedHeader -> result string (list Z);
  header_from_slice : list Z -> result string ProtectedHeader;
  envelope_to_vec : Envelope -> result string (list Z);
  envelope_from_str : string -> result string Envelope;
  new_account_to_vec : NewAccountPayload -> result string (list Z);
  new_order_to_vec : NewOrderPayload -> result string (list Z);
  new_order_from_slice : list Z -> result string NewOrderPayload;
  respond_to_vec : ChallengeRespondPayload -> result string (list Z);
  respond_from_slice : list Z -> result string ChallengeRespondPayload;
  finalize_to_vec : FinalizePayload -> result string (list Z);
  finalize_from_slice : list Z -> result string FinalizePayload;
  directory_from_str : string -> result string Directory;
  order_from_str : string -> result string Order;
  authorization_from_str : string -> result string Authorization
}.

Section jws.
Context {D : Digests} `{Base64} `{Ed25519Signing} `{Base64Encoder} `{AcmeSerde}.

Definition b64u_decode (s : string) : result string (list Z) :=
  match b64_url_no_pad s with Ok b => Ok b | Err _ => b64_url s end.

Definition jwk_from_public_key (raw : list Z) : Jwk := mkJwk KTY_OKP CRV_ED25519 (b64_url_no_pad_encode raw).

Definition public_key_from_jwk (jwk : Jwk) : result string VerifyingKey :=
  if negb (String.eqb (jwk_kty jwk) KTY_OKP) || negb (String.eqb (jwk_crv jwk) CRV_ED25519)
  then Err ("JWK is not OKP/Ed25519: kty=" +:+ jwk_kty jwk +:+ " crv=" +:+ jwk_crv jwk)
  else
    raw ← map_err (fun e => "jwk x: " +:+ e) (b64u_decode (jwk_x jwk));
    if negb (length raw =? 32)%nat
    then Err ("JWK x decodes to " +:+ fmt_Z (Z.of_nat (length raw)) +:+ " bytes, want 32")
    else map_err (fun e => "Ed25519 pubkey: " +:+ e) (key_from_bytes raw).

Definition quoted (s : string) : string := String (ascii_of 34) (s +:+ String (ascii_of 34) "").

Definition thumbprint (jwk : Jwk) : string :=
  let canonical := "{" +:+ quoted "crv" +:+ ":" +:+ quoted (jwk_crv jwk) +:+ "," +:+ quoted "kty" +:+ ":"
                     +:+ quoted (jwk_kty jwk) +:+ "," +:+ quoted "x" +:+ ":" +:+ quoted (jwk_x jwk) +:+ "}" in
  b64_url_no_pad_encode (sha256 (bytes_of canonical)).

(** The payload is the serializer's answer, or [None] for POST-as-GET. *)
Definition jws_sign (header : ProtectedHeader) (payload : option (result string (list Z))) (sk : SigningKey)
    : result string Envelope :=
  header_bytes ← map_err (fun e => "marshal header: " +:+ e) (header_to_vec header);
  let header_b64u := b64_url_no_pad_encode header_bytes in
  payload_b64u ← match payload with
                 | Some r => bytes ← map_err (fun e => "marshal payload: " +:+ e) r; Ok (b64_url_no_pad_encode bytes)
                 | None => Ok ""
                 end;
  let signing_input := header_b64u +:+ "." +:+ payload_b64u in
  Ok (mkEnvelope header_b64u payload_b64u (b64_url_no_pad_encode (sig_to_bytes (ed_sign sk (bytes_of signing_input))))).

Definition jws_verify (env : Envelope) (pk : VerifyingKey) : result string ProtectedHeader :=
  let signing_input := env_protected env +:+ "." +:+ env_payload env in
  sig_bytes ← map_err (fun e => "sig b64u: " +:+ e) (b64u_decode (env_signature env));
  sig ← map_err (fun e => "sig parse: " +:+ e) (sig_from_slice sig_bytes);
  _ ← map_err (fun e => "JWS sig verify: " +:+ e) (ed_verify pk (bytes_of signing_input) sig);
  header_bytes ← map_err (fun e => "header b64u: " +:+ e) (b64u_decode (env_protected env));
  map_err (fun e => "header parse: " +:+ e) (header_from_slice header_bytes).

Definition decode_payload {T} (from_slice : list Z -> result string T) (env : Envelope) : result string (option T) :=
  if is_empty (env_payload env) then Ok None
  else
    bytes ← map_err (fun e => "payload b64u: " +:+ e) (b64u_decode (env_payload env));
    v ← map_err (fun e => "payload parse: " +:+ e) (from_slice bytes);
    Ok (Some v).
End jws.

(** ** The server (server.rs) *)

Record OrderState : Type := mkOrderState {
  os_identifier : Identifier;
  os_status : string;
  os_authz_id : string;
  os_finalize_url : string;
  os_account_url : string;
  os_certificate_url : option string
}.
Record AuthzState : Type := mkAuthzState {
  az_identifier : Identifier;
  az_status : string;
  az_challenge_ids : list string;
  az_account_url : string
}.
Record ChallengeState : Type := mkChallengeState {
  chs_id : string;
  chs_type : string;
  chs_status : string;
  chs_token : string;
  chs_authz_id : string;
  chs_account_url : string
}.

(** [State], and the number of draws from the random source so far. *)
Record AcmeState : Type := mkAcmeState {
  ac_nonces : gset string;
  ac_account_jwks : gmap string Jwk;
  ac_orders : gmap string OrderState;
  ac_authzs : gmap string AuthzState;
  ac_challenges : gmap string ChallengeState;
  ac_certs : gmap string string;
  ac_drawn : nat
}.
Definition acme_start : AcmeState := mkAcmeState ∅ ∅ ∅ ∅ ∅ ∅ 0.

Definition set_nonces (f : gset string -> gset string) (s : AcmeState) : AcmeState :=
  mkAcmeState (f (ac_nonces s)) (ac_account_jwks s) (ac_orders s) (ac_authzs s) (ac_challenges s) (ac_certs s) (ac_drawn s).
Definition set_jwks (f : gmap string Jwk -> gmap string Jwk) (s : AcmeState) : AcmeState :=
  mkAcmeState (ac_nonces s) (f (ac_account_jwks s)) (ac_orders s) (ac_authzs s) (ac_challenges s) (ac_certs s) (ac_drawn s).
Definition set_orders (f : gmap string OrderState -> gmap string OrderState) (s : AcmeState) : AcmeState :=
  mkAcmeState (ac_nonces s) (ac_account_jwks s) (f (ac_orders s)) (ac_authzs s) (ac_challenges s) (ac_certs s) (ac_drawn s).
Definition set_authzs (f : gmap string AuthzState -> gmap string AuthzState) (s : AcmeState) : AcmeState :=
  mkAcmeState (ac_nonces s) (ac_account_jwks s) (ac_orders s) (f (ac_authzs s)) (ac_challenges s) (ac_certs s) (ac_drawn s).
Definition set_challenges (f : gmap string ChallengeState -> gmap string ChallengeState) (s : AcmeState) : AcmeState :=
  mkAcmeState (ac_nonces s) (ac_account_jwks s) (ac_orders s) (ac_authzs s) (f (ac_challenges s)) (ac_certs s) (ac_drawn s).
Definition set_certs (f : gmap string string -> gmap string string) (s : AcmeState) : AcmeState :=
  mkAcmeState (ac_nonces s) (ac_account_jwks s) (ac_orders s) (ac_authzs s) (ac_challenges s) (f (ac_certs s)) (ac_drawn s).

Definition order_status (status : string) (o : OrderState) : OrderState :=
  mkOrderState (os_identifier o) status (os_authz_id o) (os_finalize_url o) (os_account_url o) (os_certificate_url o).
Definition order_certified (cert_url : string) (o : OrderState) : OrderState :=
  mkOrderState (os_identifier o) STATUS_VALID (os_authz_id o) (os_finalize_url o) (os_account_url o) (Some cert_url).
Definition authz_status (status : string) (a : AuthzState) : AuthzState :=
  mkAuthzState (az_identifier a) status (az_challenge_ids a) (az_account_url a).
Definition challenge_status (status : string) (c : ChallengeState) : ChallengeState :=
  mkChallengeState (chs_id c) (chs_type c) status (chs_token c) (chs_authz_id c) (chs_account_url c).

(** Requests as tiny_http hands them over, and the answers. *)
Inductive Method : Type := Get | Head | Post | OtherMethod.
#[export] Instance Method_eq_dec : EqDecision Method.
Proof. solve_decision. Defined.
Record AcmeRequest : Type := mkAcmeRequest {
  aq_method : Method; aq_path : string; aq_body : result string string }.
Abbreviation AcmeHeaders := (list (string * string)).
Record AcmeResponse : Type := mkAcmeResponse { ap_status : Z; ap_body : string; ap_headers : AcmeHeaders }.

(** What x509-parser makes of a signing request. *)
Record Csr : Type := mkCsr { csr_common_names : list (option string); csr_public_key : list Z }.
Class CsrParser : Type := { csr_from_der : list Z -> result string Csr }.
(** [SystemTime]: a sum out of range panics. *)
Class SystemTimes : Type := { system_time_add : Z -> Z -> option Z }.

(** [trim_start_matches]; the length bounds the repetitions. *)
Fixpoint trim_start_matches_n (fuel : nat) (p s : string) : string :=
  match fuel with
  | O => s
  | S k => match strip_prefix p s with Some rest => trim_start_matches_n k p rest | None => s end
  end.
Definition trim_start_matches (p s : string) : string := trim_start_matches_n (String.length s) p s.

Section server.
Context {D : Digests} `{Base64} `{Base64Encoder} `{AcmeSerde} `{Rcgen} `{CsrParser} `{SystemTimes}.
(** Draw [i] of [n] random bytes. *)
Context (random : nat -> nat -> list Z).

Record AcmeServerOptions : Type := mkAcmeOptions {
  ao_ca_nid : string;
  ao_ca_signing_key : SigningKey;
  ao_ca_root_cert : Certificate;
  ao_cert_validity : Z
}.
Context (opts : AcmeServerOptions) (base_url : string).
Local Open Scope call_scope.

Abbreviation AcmeCall := (Call (E := Z * string) (S := AcmeState)).

Definition problem_body (type_ detail : string) (status : Z) : string :=
  json_to_string (problem_to_value (mkProblem type_ (Some detail) (Some status))).
Definition problem (status : Z) (type_ detail : string) : Z * string := (status, problem_body type_ detail status).
Definition acme_error (kind : string) : string := "urn:ietf:params:acme:error:" +:+ kind.

Definition json_response (status : Z) (body : Value) (extra_headers : AcmeHeaders) : AcmeResponse :=
  mkAcmeResponse status (json_to_string body) (("Content-Type", "application/json") :: extra_headers).

(** ** Helpers *)

Definition random_bytes (n : nat) : AcmeCall (list Z) := fun s =>
  Some (Ok (random (ac_drawn s) n),
        mkAcmeState (ac_nonces s) (ac_account_jwks s) (ac_orders s) (ac_authzs s) (ac_challenges s) (ac_certs s) (S (ac_drawn s))).
Definition short_id : AcmeCall string := bytes <- random_bytes 8 ;; call_ret (b64_url_no_pad_encode bytes).

Definition mint_nonce : AcmeCall string :=
  bytes <- random_bytes 16 ;;
  let nonce := b64_url_no_pad_encode bytes in
  call_modify (set_nonces (union {[nonce]})) ;;
  call_ret nonce.

(** [HashSet::remove] answers whether it was there. *)
Definition consume_nonce (nonce : string) : AcmeCall bool := fun s =>
  Some (Ok (bool_decide (nonce ∈ ac_nonces s)), set_nonces (fun n => n ∖ {[nonce]}) s).

Definition require_nonce (header : ProtectedHeader) : AcmeCall unit :=
  known <- consume_nonce (ph_nonce header) ;;
  if known : bool then call_ret tt else call_fail (problem 400 (acme_error "badNonce") "invalid nonce").

Definition mark_challenge_invalid (id : string) : AcmeCall unit :=
  call_modify (set_challenges (alter (challenge_status STATUS_INVALID) id)).

Definition read_envelope (req : AcmeRequest) : result (Z * string) Envelope :=
  (body ← map_err (fun e => problem 400 (acme_error "malformed") ("body read: " +:+ e)) (aq_body req);
   map_err (fun e => problem 400 (acme_error "malformed") ("body parse: " +:+ e)) (envelope_from_str body))%stdpp.

Definition parse_header (env : Envelope) : result (Z * string) ProtectedHeader :=
  (bytes ← map_err (fun e => problem 400 (acme_error "malformed") ("malformed protected header: " +:+ e))
            (b64u_decode (env_protected env));
   map_err (fun e => problem 400 (acme_error "malformed") ("protected header parse: " +:+ e))
     (header_from_slice bytes))%stdpp.

Definition verify_account (env : Envelope) (header : ProtectedHeader) (s : AcmeState) : bool :=
  match ph_kid header with
  | None => false
  | Some kid =>
    match ac_account_jwks s !! kid with
    | None => false
    | Some jwk =>
      match public_key_from_jwk jwk with
      | Err _ => false
      | Ok pk => is_ok (jws_verify env pk)
      end
    end
  end.

(** The start of every handler of a known account. *)
Definition open_request (req : AcmeRequest) (kind : string) (detail : ProtectedHeader -> string) : AcmeCall (Envelope * ProtectedHeader) :=
  env <- call_result (read_envelope req) ;;
  header <- call_result (parse_header env) ;;
  require_nonce header ;;
  known <- call_get (verify_account env header) ;;
  if known : bool then call_ret (env, header) else call_fail (problem 401 (acme_error kind) (detail header)).

Definition require_found {A} (o : option A) (detail : string) : AcmeCall A :=
  call_result (ok_or o (problem 404 (acme_error "malformed") detail)).
Definition require_owner (account_url kid what : string) : AcmeCall unit :=
  if String.eqb account_url kid then call_ret tt
  else call_fail (problem 401 (acme_error "unauthorized") (what +:+ " does not belong to this account")).

Definition malformed {A} (r : result string A) : AcmeCall A :=
  call_result (map_err (problem 400 (acme_error "malformed")) r).

(** ** Handlers *)

Definition handle_new_account (req : AcmeRequest) : AcmeCall AcmeResponse :=
  env <- call_result (read_envelope req) ;;
  header <- call_result (parse_header env) ;;
  match ph_jwk header with
  | None => call_fail (problem 400 (acme_error "malformed") "newAccount must include a 'jwk' member")
  | Some jwk =>
    require_nonce header ;;
    pub_key <- malformed (map_err (fun e => "jwk parse: " +:+ e) (public_key_from_jwk jwk)) ;;
    if negb (is_ok (jws_verify env pub_key))
    then call_fail (problem 400 (acme_error "malformed") "JWS signature verify failed")
    else
      account_id <- short_id ;;
      let account_url := base_url +:+ "/account/" +:+ account_id in
      call_modify (set_jwks (insert account_url jwk)) ;;
      new_nonce <- mint_nonce ;;
      call_ret (json_response 201 (VObject [("status", VString STATUS_VALID)])
                  [("Location", account_url); ("Replay-Nonce", new_nonce)])
  end.

Definition bad_sig (header : ProtectedHeader) : string := "bad sig".
Definition unknown_kid (header : ProtectedHeader) : string := "unknown kid: " +:+ default "<missing>" (ph_kid header).
Definition kid_of (header : ProtectedHeader) : string := default "" (ph_kid header).

Definition pending_challenge (chall_id token authz_id account_url : string) : ChallengeState :=
  mkChallengeState chall_id CHALLENGE_AGENT_01 STATUS_PENDING token authz_id account_url.
Definition pending_authz (ident : Identifier) (chall_id account_url : string) : AuthzState :=
  mkAuthzState ident STATUS_PENDING [chall_id] account_url.
Definition pending_order (ident : Identifier) (authz_id finalize_url account_url : string) : OrderState :=
  mkOrderState ident STATUS_PENDING authz_id finalize_url account_url None.

(** The first identifier of a payload that has one. *)
Definition first_identifier (payload : option NewOrderPayload) : result (Z * string) Identifier :=
  match payload with
  | None => Err (problem 400 (acme_error "malformed") "missing payload")
  | Some p =>
    match no_identifiers p with
    | [] => Err (problem 400 (acme_error "malformed") "missing identifiers")
    | ident :: _ => Ok ident
    end
  end.

Definition handle_new_order (req : AcmeRequest) : AcmeCall AcmeResponse :=
  opened <- open_request req "accountDoesNotExist" unknown_kid ;;
  let '(env, header) := opened in
  payload <- malformed (decode_payload new_order_from_slice env) ;;
  ident <- call_result (first_identifier payload) ;;
  order_id <- short_id ;;
  authz_id <- short_id ;;
  chall_id <- short_id ;;
  token_bytes <- random_bytes 32 ;;
  let token := b64_url_no_pad_encode token_bytes in
  let order_url := base_url +:+ "/order/" +:+ order_id in
  let authz_url := base_url +:+ "/authz/" +:+ authz_id in
  let finalize_url := base_url +:+ "/finalize/" +:+ order_id in
  let account_url := kid_of header in
  call_modify (set_challenges (insert chall_id (pending_challenge chall_id token authz_id account_url))) ;;
  call_modify (set_authzs (insert authz_id (pending_authz ident chall_id account_url))) ;;
  call_modify (set_orders (insert order_id (pending_order ident authz_id finalize_url account_url))) ;;
  new_nonce <- mint_nonce ;;
  call_ret (json_response 201
    (order_to_value (mkOrder STATUS_PENDING None [ident] [authz_url] finalize_url None None))
    [("Location", order_url); ("Replay-Nonce", new_nonce)]).

(** A challenge as the client sees it. *)
Definition show_challenge (cs : ChallengeState) : Challenge :=
  mkChallenge (chs_type cs) (base_url +:+ "/chall/" +:+ chs_id cs) (chs_status cs) (chs_token cs) None None.

Definition handle_authz (req : AcmeRequest) : AcmeCall AcmeResponse :=
  opened <- open_request req "unauthorized" bad_sig ;;
  let '(env, header) := opened in
  let id := trim_start_matches "/authz/" (aq_path req) in
  found <- call_get (fun s => ac_authzs s !! id) ;;
  az <- require_found found "no authz" ;;
  require_owner (az_account_url az) (kid_of header) "authorization" ;;
  challenges <- call_get (fun s => omap (fun cid => ac_challenges s !! cid) (az_challenge_ids az)) ;;
  new_nonce <- mint_nonce ;;
  call_ret (json_response 200
    (authorization_to_value (mkAuthorization (az_status az) None (az_identifier az) (map show_challenge challenges)))
    [("Replay-Nonce", new_nonce)]).

(** The challenge fails, and is marked so. *)
Definition fail_challenge {A} (id detail : string) : AcmeCall A :=
  mark_challenge_invalid id ;;
  call_fail (problem 400 ACME_CHALLENGE_FAILED detail).

(** The challenge, its authorization and the orders that wait for it. *)
Definition accept_challenge (ch : ChallengeState) (s : AcmeState) : AcmeState :=
  let s := set_challenges (alter (challenge_status STATUS_VALID) (chs_id ch)) s in
  let s := set_authzs (alter (authz_status STATUS_VALID) (chs_authz_id ch)) s in
  set_orders (fmap (fun o => if String.eqb (os_authz_id o) (chs_authz_id ch) then order_status STATUS_READY o else o)) s.

Definition handle_challenge (req : AcmeRequest) : AcmeCall AcmeResponse :=
  env <- call_result (read_envelope req) ;;
  header <- call_result (parse_header env) ;;
  require_nonce header ;;
  let kid := kid_of header in
  account <- call_get (fun s => ac_account_jwks s !! kid) ;;
  account_jwk <- call_result (ok_or account (problem 401 (acme_error "accountDoesNotExist") "unknown kid")) ;;
  account_pub <- malformed (public_key_from_jwk account_jwk) ;;
  if negb (is_ok (jws_verify env account_pub))
  then call_fail (problem 400 (acme_error "malformed") "JWS sig fail")
  else
    let id := trim_start_matches "/chall/" (aq_path req) in
    found <- call_get (fun s => ac_challenges s !! id) ;;
    ch <- require_found found "no chall" ;;
    require_owner (chs_account_url ch) kid "challenge" ;;
    payload <- malformed (decode_payload respond_from_slice env) ;;
    let agent_sig_b64 := default "" (cr_agent_signature <$> payload) in
    if is_empty agent_sig_b64
    then fail_challenge (chs_id ch) "missing agent_signature in challenge response"
    else
      match b64u_decode agent_sig_b64 with
      | Err e => fail_challenge (chs_id ch) ("agent-01 verification error: " +:+ e)
      | Ok sig_bytes =>
        match sig_from_slice sig_bytes with
        | Err e => fail_challenge (chs_id ch) ("agent-01 verification error: " +:+ e)
        | Ok agent_sig =>
          if negb (is_ok (ed_verify account_pub (bytes_of (chs_token ch)) agent_sig))
          then fail_challenge (chs_id ch) "agent-01 signature did not verify"
          else
            known <- call_get (fun s => ac_challenges s !! chs_id ch) ;;
            let status := match known with Some _ => STATUS_VALID | None => chs_status ch end in
            call_modify (accept_challenge ch) ;;
            new_nonce <- mint_nonce ;;
            call_ret (json_response 200 (challenge_to_value (show_challenge (challenge_status status ch)))
                        [("Replay-Nonce", new_nonce)])
        end
      end.

(** The order as the client sees it. *)
Definition show_order (os : OrderState) : Order :=
  mkOrder (os_status os) None [os_identifier os] [base_url +:+ "/authz/" +:+ os_authz_id os] (os_finalize_url os)
    (os_certificate_url os) None.

(** The public key of the signing request, which must name the identifier. *)
Definition check_csr (identifier : string) (csr_b64 : string) : result (Z * string) (list Z) :=
  (csr_der ← map_err (fun e => problem 400 (acme_error "badCSR") ("CSR base64url: " +:+ e)) (b64u_decode csr_b64);
   csr ← map_err (fun e => problem 400 (acme_error "badCSR") ("CSR parse: " +:+ e)) (csr_from_der csr_der);
   let subject_cn := mjoin (head (csr_common_names csr)) in
   if negb (bool_decide (subject_cn = Some identifier))
   then Err (problem 400 CERT_SUBJECT_NID_MISMATCH
          ("CSR subject CN '" +:+ default "" subject_cn +:+ "' does not match order identifier '" +:+ identifier +:+ "'"))
   else if negb (length (csr_public_key csr) =? 32)%nat
   then Err (problem 400 (acme_error "badCSR") "CSR public key is not 32 bytes (Ed25519)")
   else
     _ ← map_err (fun e => problem 400 (acme_error "badCSR") ("CSR pubkey: " +:+ e)) (key_from_bytes (csr_public_key csr));
     Ok (csr_public_key csr))%stdpp.

Definition seconds_60 : Z := 60 * nanos_per_sec.

Definition acme_leaf_options (identifier : string) (subject_pub : list Z) (not_before not_after : Z) (serial : list Z)
    : IssueLeafOptions :=
  mkLeafOptions identifier subject_pub (ao_ca_signing_key opts) (ao_ca_root_cert opts) RoleAgent ANONYMOUS
    not_before not_after serial None None.

Definition handle_finalize (now : Z) (req : AcmeRequest) : AcmeCall AcmeResponse :=
  opened <- open_request req "unauthorized" bad_sig ;;
  let '(env, header) := opened in
  let order_id := trim_start_matches "/finalize/" (aq_path req) in
  found <- call_get (fun s => ac_orders s !! order_id) ;;
  os <- require_found found "no order" ;;
  require_owner (os_account_url os) (kid_of header) "order" ;;
  if negb (String.eqb (os_status os) STATUS_READY)
  then call_fail (problem 403 (acme_error "orderNotReady") ("order is in state '" +:+ os_status os +:+ "', not 'ready'"))
  else
    fp <- malformed (decode_payload finalize_from_slice env) ;;
    let csr_b64 := default "" (fp_csr <$> fp) in
    if is_empty csr_b64 then call_fail (problem 400 (acme_error "malformed") "missing csr")
    else
      subject_pub <- call_result (check_csr (ident_value (os_identifier os)) csr_b64) ;;
      not_before <- call_panic (system_time_add now (- seconds_60)) ;;
      not_after <- call_panic (system_time_add now (ao_cert_validity opts)) ;;
      serial <- random_bytes 20 ;;
      leaf <- call_result (map_err (fun e => problem 400 (acme_error "badCSR") ("issue leaf: " +:+ e))
                (issue_leaf (acme_leaf_options (ident_value (os_identifier os)) subject_pub not_before not_after serial))) ;;
      let pem := cert_pem leaf +:+ cert_pem (ao_ca_root_cert opts) in
      cert_id <- short_id ;;
      let cert_url := base_url +:+ "/cert/" +:+ cert_id in
      call_modify (set_certs (insert cert_id pem)) ;;
      call_modify (set_orders (alter (order_certified cert_url) order_id)) ;;
      new_nonce <- mint_nonce ;;
      call_ret (json_response 200 (order_to_value (show_order (order_certified cert_url os))) [("Replay-Nonce", new_nonce)]).

Definition handle_cert (req : AcmeRequest) : AcmeCall AcmeResponse :=
  opened <- open_request req "unauthorized" bad_sig ;;
  let '(env, header) := opened in
  let cert_id := trim_start_matches "/cert/" (aq_path req) in
  found <- call_get (fun s => ac_certs s !! cert_id) ;;
  pem <- require_found found "no cert" ;;
  new_nonce <- mint_nonce ;;
  call_ret (mkAcmeResponse 200 pem [("Content-Type", CONTENT_TYPE_PEM_CERT); ("Replay-Nonce", new_nonce)]).

Definition handle_order (req : AcmeRequest) : AcmeCall AcmeResponse :=
  opened <- open_request req "unauthorized" bad_sig ;;
  let '(env, header) := opened in
  let order_id := trim_start_matches "/order/" (aq_path req) in
  found <- call_get (fun s => ac_orders s !! order_id) ;;
  os <- require_found found "no order" ;;
  require_owner (os_account_url os) (kid_of header) "order" ;;
  new_nonce <- mint_nonce ;;
  call_ret (json_response 200 (order_to_value (show_order os)) [("Replay-Nonce", new_nonce)]).

Definition directory : Directory :=
  mkDirectory (base_url +:+ "/new-nonce") (base_url +:+ "/new-account") (base_url +:+ "/new-order") None None None.
Definition directory_url : string := base_url +:+ "/directory".

(** The routes of [handle_request]. *)
Definition acme_route (now : Z) (req : AcmeRequest) : AcmeCall AcmeResponse :=
  let method_is m := bool_decide (aq_method req = m) in
  let path := aq_path req in
  if method_is Get && String.eqb path "/directory"
  then call_ret (json_response 200 (directory_to_value directory) [])
  else if String.eqb path "/new-nonce"
  then
    nonce <- mint_nonce ;;
    call_ret (mkAcmeResponse (if method_is Head then 200 else 204) ""
                [("Replay-Nonce", nonce); ("Cache-Control", "no-store")])
  else if method_is Post && String.eqb path "/new-account" then handle_new_account req
  else if method_is Post && String.eqb path "/new-order" then handle_new_order req
  else if method_is Post && starts_with "/authz/" path then handle_authz req
  else if method_is Post && starts_with "/chall/" path then handle_challenge req
  else if method_is Post && starts_with "/finalize/" path then handle_finalize now req
  else if method_is Post && starts_with "/cert/" path then handle_cert req
  else if method_is Post && starts_with "/order/" path then handle_order req
  else call_fail (problem 404 (acme_error "malformed") "no such resource").

(** [None] is a panic of the server's thread. *)
Definition acme_handle (now : Z) (req : AcmeRequest) (s : AcmeState) : option (AcmeResponse * AcmeState) :=
  match acme_route now req s with
  | None => None
  | Some (Ok r, s) => Some (r, s)
  | Some (Err (status, body), s) => Some (mkAcmeResponse status body [("Content-Type", CONTENT_TYPE_PROBLEM)], s)
  end.
End server.
