(* ===== verification/NipAcmeClient.v ===== *)
(** * NipAcmeClient: the agent-01 flow of a client

    Models nps-nip/src/acme/client.rs.  The HTTP client and what it talks to
    are an argument: a function from a request and a world to an answer and
    the world after it.  NipAcmeSpec runs the client against the server. *)

From S2P Require Import Prelude Calls RustStr Json CoreCache NipFrames NipDer NipX509 NipSigner NipX509Builder NipAcme.
Local Open Scope Z_scope.

Record HttpRequest : Type := mkHttpRequest { hq_method : Method; hq_url : string; hq_body : list Z }.
(** The body, when it can be read. *)
Record HttpResponse : Type := mkHttpResponse {
  hp_status : Z; hp_headers : list (string * string); hp_body : result string string }.

(** [Display] of a status code. *)
Class StatusText : Type := { show_status : Z -> string }.

Definition is_success (status : Z) : bool := (200 <=? status) && (status <=? 299).

(** [HeaderMap::get]; [to_str] refuses what is not visible ASCII. *)
Definition visible_ascii (b : Z) : bool := ((32 <=? b) && (b <? 127)) || (b =? 9).
Definition response_header (name : string) (r : HttpResponse) : option string :=
  v ← snd <$> List.find (fun h => eq_ignore_ascii_case (fst h) name) (hp_headers r);
  if forallb visible_ascii (bytes_of v) then Some v else None.

Section client.
Context {D : Digests} `{Base64} `{Base64Encoder} `{AcmeSerde} `{Rcgen} `{StatusText}.
Context {W : Type} (http : HttpRequest -> W -> result string HttpResponse * W).

Record AcmeClient : Type := mkAcmeClient {
  cl_directory_url : string;
  cl_signing_key : SigningKey;
  cl_verifying_key : VerifyingKey;
  cl_directory : option Directory;
  cl_account_url : option string;
  cl_last_nonce : option string
}.
Definition acme_client_new (directory_url : string) (sk : SigningKey) : AcmeClient :=
  mkAcmeClient directory_url sk (verifying_key sk) None None None.

Definition set_directory (d : Directory) (c : AcmeClient) : AcmeClient :=
  mkAcmeClient (cl_directory_url c) (cl_signing_key c) (cl_verifying_key c) (Some d) (cl_account_url c) (cl_last_nonce c).
Definition set_account_url (u : string) (c : AcmeClient) : AcmeClient :=
  mkAcmeClient (cl_directory_url c) (cl_signing_key c) (cl_verifying_key c) (cl_directory c) (Some u) (cl_last_nonce c).
Definition set_last_nonce (n : string) (c : AcmeClient) : AcmeClient :=
  mkAcmeClient (cl_directory_url c) (cl_signing_key c) (cl_verifying_key c) (cl_directory c) (cl_account_url c) (Some n).

Abbreviation ClientCall := (Call (E := string) (S := AcmeClient * W)).
Local Open Scope call_scope.

Definition client_get {A} (f : AcmeClient -> A) : ClientCall A := call_get (fun s => f (fst s)).
Definition client_set (f : AcmeClient -> AcmeClient) : ClientCall unit := call_modify (fun s => (f (fst s), snd s)).
Definition send (what : string) (req : HttpRequest) : ClientCall HttpResponse := fun s =>
  let '(r, w) := http req (snd s) in
  Some (map_err (fun e => what +:+ e) r, (fst s, w)).

Definition consume_last_nonce : ClientCall string :=
  n <- client_get cl_last_nonce ;;
  call_result (ok_or n "no nonce available").

Definition capture_nonce (r : HttpResponse) : ClientCall unit :=
  match response_header "Replay-Nonce" r with
  | Some n => client_set (set_last_nonce n)
  | None => call_ret tt
  end.

(** [self.directory.as_ref().unwrap()]. *)
Definition the_directory : ClientCall Directory := d <- client_get cl_directory ;; call_panic d.

Definition post_jose (url : string) (env : Envelope) : ClientCall HttpResponse :=
  body <- call_result (map_err (fun e => "marshal envelope: " +:+ e) (envelope_to_vec env)) ;;
  send ("POST " +:+ url +:+ ": ") (mkHttpRequest Post url body).

Definition require_success (what : string) (r : HttpResponse) : ClientCall unit :=
  if is_success (hp_status r) then call_ret tt else call_fail (what +:+ ": HTTP " +:+ show_status (hp_status r)).

(** [resp.json()] and [resp.text()]. *)
Definition read_json {A} (parse : string -> result string A) (what : string) (r : HttpResponse) : ClientCall A :=
  call_result (map_err (fun e => what +:+ e) (body ← hp_body r; parse body)%stdpp).
Definition read_body (what : string) (r : HttpResponse) : ClientCall string :=
  call_result (map_err (fun e => what +:+ e) (hp_body r)).

(** ** Stages *)

Definition refresh_nonce : ClientCall unit :=
  d <- the_directory ;;
  r <- send "HEAD newNonce: " (mkHttpRequest Head (dir_new_nonce d) []) ;;
  nonce <- call_result (ok_or (response_header "Replay-Nonce" r) "server omitted Replay-Nonce") ;;
  client_set (set_last_nonce nonce).

Definition ensure_directory : ClientCall unit :=
  known <- client_get cl_directory ;;
  match known with
  | Some _ => call_ret tt
  | None =>
    url <- client_get cl_directory_url ;;
    r <- send "get directory: " (mkHttpRequest Get url []) ;;
    require_success "get directory" r ;;
    d <- read_json directory_from_str "decode directory: " r ;;
    client_set (set_directory d) ;;
    refresh_nonce
  end.

(** An envelope for [url], signed by the client's key. *)
Definition client_envelope (url : string) (jwk : option Jwk) (kid : option string)
    (payload : option (result string (list Z))) : ClientCall Envelope :=
  nonce <- consume_last_nonce ;;
  sk <- client_get cl_signing_key ;;
  call_result (jws_sign (mkHeader ALG_EDDSA nonce url jwk kid) payload sk).

Definition new_account : ClientCall unit :=
  vk <- client_get cl_verifying_key ;;
  let jwk := jwk_from_public_key (key_to_bytes vk) in
  consume_last_nonce ;;
  d <- the_directory ;;
  let url := dir_new_account d in
  env <- client_envelope url (Some jwk) None (Some (new_account_to_vec (mkNewAccount (Some true) None None))) ;;
  r <- post_jose url env ;;
  require_success "newAccount" r ;;
  account_url <- call_result (ok_or (response_header "Location" r) "server omitted account Location header") ;;
  capture_nonce r ;;
  client_set (set_account_url account_url).

Definition new_order (nid : string) : ClientCall Order :=
  consume_last_nonce ;;
  d <- the_directory ;;
  let url := dir_new_order d in
  kid <- client_get cl_account_url ;;
  env <- client_envelope url None kid
           (Some (new_order_to_vec (mkNewOrder [mkIdentifier IDENTIFIER_TYPE_NID nid] None None))) ;;
  r <- post_jose url env ;;
  require_success "newOrder" r ;;
  capture_nonce r ;;
  read_json order_from_str "decode order: " r.

Definition fetch_authz (url : string) : ClientCall Authorization :=
  kid <- client_get cl_account_url ;;
  env <- client_envelope url None kid None ;;
  r <- post_jose url env ;;
  require_success "fetch authz" r ;;
  capture_nonce r ;;
  read_json authorization_from_str "decode authz: " r.

Definition respond_agent_01 (authz : Authorization) : ClientCall unit :=
  challenge <- call_result (ok_or (List.find (fun c => String.eqb (chl_type c) CHALLENGE_AGENT_01) (au_challenges authz))
                              "authz has no agent-01 challenge") ;;
  sk <- client_get cl_signing_key ;;
  let agent_sig := ed_sign sk (bytes_of (chl_token challenge)) in
  kid <- client_get cl_account_url ;;
  env <- client_envelope (chl_url challenge) None kid
           (Some (respond_to_vec (mkRespond (b64_url_no_pad_encode (sig_to_bytes agent_sig))))) ;;
  r <- post_jose (chl_url challenge) env ;;
  require_success "challenge" r ;;
  capture_nonce r.

Definition build_csr (sk : SigningKey) (nid : string) : result string (list Z) :=
  (key_pair ← map_err (fun e => "dalek→rcgen: " +:+ e) (dalek_to_rcgen_keypair sk);
   params ← map_err (fun e => "CSR params: " +:+ e) (cert_params_new [nid]);
   uri ← map_err (fun e => "SAN URI: " +:+ e) (ia5_string nid);
   map_err (fun e => "serialize_request: " +:+ e)
     (serialize_request (with_sans [SanURI uri] (with_names [nid] params)) key_pair))%stdpp.

Definition finalize_order (order : Order) (nid : string) : ClientCall Order :=
  sk <- client_get cl_signing_key ;;
  csr_der <- call_result (build_csr sk nid) ;;
  kid <- client_get cl_account_url ;;
  env <- client_envelope (or_finalize order) None kid
           (Some (finalize_to_vec (mkFinalize (b64_url_no_pad_encode csr_der)))) ;;
  r <- post_jose (or_finalize order) env ;;
  require_success "finalize" r ;;
  capture_nonce r ;;
  read_json order_from_str "decode finalized order: " r.

Definition download_pem (cert_url : string) : ClientCall string :=
  kid <- client_get cl_account_url ;;
  env <- client_envelope cert_url None kid None ;;
  r <- post_jose cert_url env ;;
  require_success "download cert" r ;;
  capture_nonce r ;;
  read_body "read PEM: " r.

(** [order.authorizations[0]] panics on an empty list. *)
Definition issue_agent_cert (nid : string) : ClientCall string :=
  ensure_directory ;;
  account <- client_get cl_account_url ;;
  (match account with None => new_account | Some _ => call_ret tt end) ;;
  order <- new_order nid ;;
  authz_url <- call_panic (head (or_authorizations order)) ;;
  authz <- fetch_authz authz_url ;;
  respond_agent_01 authz ;;
  finalized <- finalize_order order nid ;;
  cert_url <- call_result (ok_or (or_certificate finalized) "finalized order has no certificate URL") ;;
  download_pem cert_url.
End client.
