(* ===== verification/NipAcmeSpec.v ===== *)
(** * NipAcmeSpec: certificates are earned, and nonces are used once

    What one request does to the server, as a step relation; over every run of
    the server, that each certificate was earned by signed requests of the
    account that ordered it; that a nonce opens one request only; and that the
    client of NipAcmeClient, run against the server, gets its certificate. *)

From S2P Require Import Prelude Calls RustStr Json CoreCache NipFrames NipDer NipX509 NipSigner NipX509Builder NipAcme NipAcmeClient.
Local Open Scope Z_scope.

Section server.
Context {D : Digests} `{Base64} `{Base64Encoder} `{AcmeSerde} `{Rcgen} `{CsrParser} `{SystemTimes}.
Context (random : nat -> nat -> list Z) (opts : AcmeServerOptions) (base_url : string).

(** ** One request *)

Definition encoded (i n : nat) : string := b64_url_no_pad_encode (random i n).

Definition draw (s : AcmeState) : AcmeState :=
  mkAcmeState (ac_nonces s) (ac_account_jwks s) (ac_orders s) (ac_authzs s) (ac_challenges s) (ac_certs s) (S (ac_drawn s)).
Definition minted (s : AcmeState) : AcmeState := set_nonces (union {[encoded (ac_drawn s) 16]}) (draw s).
Definition consumed (header : ProtectedHeader) (s : AcmeState) : AcmeState :=
  set_nonces (fun n => n ∖ {[ph_nonce header]}) s.

(** The envelope of a request reads, and its nonce is known. *)
Definition opened (req : AcmeRequest) (env : Envelope) (header : ProtectedHeader) (s : AcmeState) : Prop :=
  read_envelope req = Ok env /\ parse_header env = Ok header /\ ph_nonce header ∈ ac_nonces s.

(** The key of an account, and the envelopes signed with it. *)
Definition account_key (s : AcmeState) (url : string) (pk : VerifyingKey) : Prop :=
  exists jwk, ac_account_jwks s !! url = Some jwk /\ public_key_from_jwk jwk = Ok pk.
Definition signed_by_account (s : AcmeState) (env : Envelope) (header : ProtectedHeader) (url : string) (pk : VerifyingKey) : Prop :=
  kid_of header = url /\ account_key s url pk /\ is_ok (jws_verify env pk) = true.

(** An answer to a challenge: a signature over its token. *)
Definition answers (env : Envelope) (pk : VerifyingKey) (token : string) : Prop :=
  exists p sig_bytes sig, decode_payload respond_from_slice env = Ok (Some p) /\
    b64u_decode (cr_agent_signature p) = Ok sig_bytes /\ sig_from_slice sig_bytes = Ok sig /\
    ed_verify pk (bytes_of token) sig = Ok tt.

(** A new order, with its authorization and its challenge. *)
Definition ordered (ident : Identifier) (account_url : string) (s : AcmeState) : AcmeState :=
  let n := ac_drawn s in
  let order_id := encoded n 8 in
  let authz_id := encoded (S n) 8 in
  let chall_id := encoded (S (S n)) 8 in
  set_orders (insert order_id (pending_order ident authz_id (base_url +:+ "/finalize/" +:+ order_id) account_url))
    (set_authzs (insert authz_id (pending_authz ident chall_id account_url))
      (set_challenges (insert chall_id (pending_challenge chall_id (encoded (S (S (S n))) 32) authz_id account_url))
        (draw (draw (draw (draw s)))))).

(** A certificate for the identifier of an order. *)
Definition certified (order_id pem : string) (s : AcmeState) : AcmeState :=
  let cert_id := encoded (S (ac_drawn s)) 8 in
  set_orders (alter (order_certified (base_url +:+ "/cert/" +:+ cert_id)) order_id)
    (set_certs (insert cert_id pem) (draw (draw s))).

(** A certificate signed over a request for it. *)
Definition leaf_for (env : Envelope) (ident : Identifier) (pem : string) (serial : list Z) : Prop :=
  exists fp subject_pub nb na leaf, decode_payload finalize_from_slice env = Ok (Some fp) /\
    check_csr (ident_value ident) (fp_csr fp) = Ok subject_pub /\
    issue_leaf (acme_leaf_options opts (ident_value ident) subject_pub nb na serial) = Ok leaf /\
    pem = cert_pem leaf +:+ cert_pem (ao_ca_root_cert opts).

(** The challenge a request answers and the order it finalizes: the handlers
    take them from the path. *)
Definition named_challenge (req : AcmeRequest) : string := trim_start_matches "/chall/" (aq_path req).
Definition named_order (req : AcmeRequest) : string := trim_start_matches "/finalize/" (aq_path req).

Inductive acme_change (req : AcmeRequest) : AcmeState -> AcmeState -> Prop :=
| change_none s : acme_change req s s
| change_nonce s : acme_change req s (minted s)
| change_refused env header s : opened req env header s -> acme_change req s (consumed header s)
| change_shown env header s : opened req env header s -> acme_change req s (minted (consumed header s))
| change_account env header jwk pk s : opened req env header s -> ph_jwk header = Some jwk ->
    public_key_from_jwk jwk = Ok pk -> is_ok (jws_verify env pk) = true ->
    acme_change req s
      (minted (set_jwks (insert (base_url +:+ "/account/" +:+ encoded (ac_drawn s) 8) jwk) (draw (consumed header s))))
| change_order env header pk payload ident s : opened req env header s -> signed_by_account s env header (kid_of header) pk ->
    decode_payload new_order_from_slice env = Ok (Some payload) -> head (no_identifiers payload) = Some ident ->
    acme_change req s (minted (ordered ident (kid_of header) (consumed header s)))
| change_failed env header id ch s : opened req env header s -> ac_challenges s !! id = Some ch ->
    acme_change req s (set_challenges (alter (challenge_status STATUS_INVALID) (chs_id ch)) (consumed header s))
| change_accepted env header pk ch s : opened req env header s -> ac_challenges s !! named_challenge req = Some ch ->
    signed_by_account s env header (chs_account_url ch) pk -> answers env pk (chs_token ch) ->
    acme_change req s (minted (accept_challenge ch (consumed header s)))
| change_drawn env header s : opened req env header s -> acme_change req s (draw (consumed header s))
| change_certified env header pk os pem s : opened req env header s ->
    signed_by_account s env header (os_account_url os) pk -> ac_orders s !! named_order req = Some os -> os_status os = STATUS_READY ->
    leaf_for env (os_identifier os) pem (random (ac_drawn s) 20) ->
    acme_change req s (minted (certified (named_order req) pem (consumed header s))).

Lemma removed_absent header s : ph_nonce header ∉ ac_nonces s -> consumed header s = s.
Proof.
  intros Hn. unfold consumed, set_nonces. destruct s; cbn in *. f_equal. set_solver.
Qed.

Lemma require_nonce_inv header s out s' : require_nonce header s = Some (out, s') ->
  s' = consumed header s /\ (out = Ok tt /\ ph_nonce header ∈ ac_nonces s \/ (exists e, out = Err e) /\ ph_nonce header ∉ ac_nonces s).
Proof.
  unfold require_nonce, consume_nonce, call_bind. cbn. case_bool_decide; intros [= <- <-]; (split; [done |]); [by left | right].
  split; [by eexists | done].
Qed.

Lemma verify_account_inv env header s : verify_account env header s = true -> exists pk, signed_by_account s env header (kid_of header) pk.
Proof.
  unfold verify_account. destruct (ph_kid header) as [kid|] eqn:Ek; [|done].
  destruct (ac_account_jwks s !! kid) as [jwk|] eqn:Ej; [|done].
  destruct (public_key_from_jwk jwk) as [pk|] eqn:Ep; [|done]. intros Hv. exists pk. split; [done |]. split; [|done].
  exists jwk. unfold kid_of. by rewrite Ek.
Qed.

Lemma open_request_inv req kind detail s out s' : open_request req kind detail s = Some (out, s') ->
  (exists e, out = Err e) /\ (s' = s \/ exists env header, opened req env header s /\ s' = consumed header s) \/
  exists env header pk, out = Ok (env, header) /\ opened req env header s /\ s' = consumed header s /\
    signed_by_account s env header (kid_of header) pk.
Proof.
  unfold open_request. intros E.
  apply call_bind_inv in E as [(e & [_ ->]%call_result_inv & ->)|(env & s1 & [Er ->]%call_result_inv & E)]; [left; split; [by eexists | by left] |].
  apply call_bind_inv in E as [(e & [_ ->]%call_result_inv & ->)|(header & s1 & [Eh ->]%call_result_inv & E)]; [left; split; [by eexists | by left] |].
  apply call_bind_inv in E as [(e & E & ->)|([] & s1 & E1 & E)].
  - apply require_nonce_inv in E as (-> & [[[=] _]|[_ Hn]]). left. split; [by eexists |]. left. by apply removed_absent.
  - apply require_nonce_inv in E1 as (-> & [[_ Hn]|[[e [=]] _]]).
    apply call_bind_inv in E as [(e & [[=] _]%call_get_inv & _)|(known & s1 & [[= ->] ->]%call_get_inv & E)].
    destruct (verify_account env header (consumed header s)) eqn:Ev.
    + apply call_ret_inv in E as [-> ->]. right. apply verify_account_inv in Ev as (pk & Hpk). by exists env, header, pk.
    + apply call_fail_inv in E as [-> ->]. left. split; [by eexists |]. right. by exists env, header.
Qed.

(** Run the rest of a handler, once its request is open. *)
Ltac run_rest E :=
  cbv beta iota zeta delta [call_bind call_get call_ret call_fail call_result call_modify call_panic require_found
    require_owner malformed fail_challenge mark_challenge_invalid mint_nonce short_id random_bytes ok_or map_err] in E;
  repeat case_match; simplify_eq.

(** A handler that only shows something. *)
Lemma shown_change req kind detail (rest : Envelope * ProtectedHeader -> Call AcmeResponse) s out s' :
  (forall p s1 out1 s2, rest p s1 = Some (out1, s2) -> s2 = s1 \/ s2 = minted s1) ->
  (p <- open_request req kind detail ;; rest p)%call s = Some (out, s') -> acme_change req s s'.
Proof.
  intros Hrest E. apply call_bind_inv in E as [(e & E & _)|(p & s1 & E1 & E)].
  - apply open_request_inv in E as [[_ [->|(env & header & Ho & ->)]]|(env & header & pk & [=] & _)];
      [apply change_none | by eapply change_refused].
  - apply open_request_inv in E1 as [[[e [=]] _]|(env & header & pk & [= ->] & Ho & -> & _)].
    apply Hrest in E as [->| ->]; [by eapply change_refused | by eapply change_shown].
Qed.

Lemma handle_authz_change req s out s' : handle_authz random base_url req s = Some (out, s') -> acme_change req s s'.
Proof.
  apply shown_change. intros [env header] s1 out1 s2 E. run_rest E; auto.
Qed.
Lemma handle_order_change req s out s' : handle_order random base_url req s = Some (out, s') -> acme_change req s s'.
Proof.
  apply shown_change. intros [env header] s1 out1 s2 E. run_rest E; auto.
Qed.
Lemma handle_cert_change req s out s' : handle_cert random req s = Some (out, s') -> acme_change req s s'.
Proof.
  apply shown_change. intros [env header] s1 out1 s2 E. run_rest E; auto.
Qed.

(** The start of the two handlers that look the key up themselves. *)
Lemma parsed_nonce_change req s (rest : Envelope -> ProtectedHeader -> Call AcmeResponse) out s' :
  (forall env header s1, opened req env header s -> rest env header (consumed header s) = Some (out, s1) -> acme_change req s s1) ->
  (env <- call_result (read_envelope req) ;; header <- call_result (parse_header env) ;;
   require_nonce header ;; rest env header)%call s = Some (out, s') -> acme_change req s s'.
Proof.
  intros Hrest E.
  apply call_bind_inv in E as [(e & [_ ->]%call_result_inv & _)|(env & s1 & [Er ->]%call_result_inv & E)]; [apply change_none |].
  apply call_bind_inv in E as [(e & [_ ->]%call_result_inv & _)|(header & s1 & [Eh ->]%call_result_inv & E)]; [apply change_none |].
  apply call_bind_inv in E as [(e & E & _)|([] & s1 & E1 & E)].
  - apply require_nonce_inv in E as (-> & [[[=] _]|[_ Hn]]). rewrite removed_absent by done. apply change_none.
  - apply require_nonce_inv in E1 as (-> & [[_ Hn]|[[e [=]] _]]). by eapply Hrest.
Qed.

Lemma handle_new_account_change req s out s' : handle_new_account random base_url req s = Some (out, s') -> acme_change req s s'.
Proof.
  unfold handle_new_account. intros E.
  apply call_bind_inv in E as [(e & [_ ->]%call_result_inv & _)|(env & s1 & [Er ->]%call_result_inv & E)]; [apply change_none |].
  apply call_bind_inv in E as [(e & [_ ->]%call_result_inv & _)|(header & s1 & [Eh ->]%call_result_inv & E)]; [apply change_none |].
  destruct (ph_jwk header) as [jwk|] eqn:Ej; [|apply call_fail_inv in E as [_ ->]; apply change_none].
  apply call_bind_inv in E as [(e & E & _)|([] & s1 & E1 & E)].
  - apply require_nonce_inv in E as (-> & [[[=] _]|[_ Hn]]). rewrite removed_absent by done. apply change_none.
  - apply require_nonce_inv in E1 as (-> & [[_ Hn]|[[e [=]] _]]).
    assert (Ho : opened req env header s) by done. run_rest E; try by eapply change_refused.
    eapply change_account; [exact Ho | exact Ej | eassumption |]. by destruct (is_ok _).
Qed.

Lemma handle_new_order_change req s out s' : handle_new_order random base_url req s = Some (out, s') -> acme_change req s s'.
Proof.
  unfold handle_new_order. intros E. apply call_bind_inv in E as [(e & E & _)|(p & s1 & E1 & E)].
  - apply open_request_inv in E as [[_ [->|(env & header & Ho & ->)]]|(env & header & pk & [=] & _)];
      [apply change_none | by eapply change_refused].
  - apply open_request_inv in E1 as [[[e [=]] _]|(env & header & pk & [= ->] & Ho & -> & Hpk)].
    destruct (decode_payload new_order_from_slice env) as [[payload|]|e] eqn:Ep.
    + destruct (no_identifiers payload) as [|ident rest] eqn:Ei;
        cbn [first_identifier] in E; run_rest E; try (by eapply change_refused); try congruence.
      all: unfold first_identifier in *; simplify_eq; rewrite Ei in *; simplify_eq.
      eapply change_order; [exact Ho | exact Hpk | exact Ep | by rewrite Ei].
    + run_rest E; by eapply change_refused.
    + run_rest E; by eapply change_refused.
Qed.

Lemma require_owner_inv account_url kid what (s : AcmeState) out s' : require_owner account_url kid what s = Some (out, s') ->
  s' = s /\ (out = Ok tt /\ account_url = kid \/ exists e, out = Err e).
Proof.
  unfold require_owner. destruct (String.eqb_spec account_url kid) as [->|Hn]; intros [= <- <-]; (split; [done |]); [by left | right; by eexists].
Qed.

Lemma handle_challenge_change req s out s' : handle_challenge random base_url req s = Some (out, s') -> acme_change req s s'.
Proof.
  unfold handle_challenge. apply parsed_nonce_change. clear s'. intros env header s' Ho E.
  apply call_bind_inv in E as [(e & [[=] _]%call_get_inv & _)|(account & s1 & [[= ->] ->]%call_get_inv & E)].
  apply call_bind_inv in E as [(e & [_ ->]%call_result_inv & _)|(jwk & s1 & [Ej ->]%call_result_inv & E)]; [by eapply change_refused |].
  apply call_bind_inv in E as [(e & [_ ->]%call_result_inv & _)|(pk & s1 & [Ep ->]%call_result_inv & E)]; [by eapply change_refused |].
  destruct (is_ok (jws_verify env pk)) eqn:Ev; cbn [negb] in E; [|apply call_fail_inv in E as [_ ->]; by eapply change_refused].
  assert (Hpk : account_key s (kid_of header) pk).
  { exists jwk. split; [|by apply map_err_Ok in Ep]. unfold ok_or in Ej. by destruct (ac_account_jwks _ !! _); [injection Ej as -> |]. }
  apply call_bind_inv in E as [(e & [[=] _]%call_get_inv & _)|(found & s1 & [[= ->] ->]%call_get_inv & E)].
  apply call_bind_inv in E as [(e & [_ ->]%call_result_inv & _)|(ch & s1 & [Ec ->]%call_result_inv & E)]; [by eapply change_refused |].
  assert (Hch : ac_challenges s !! trim_start_matches "/chall/" (aq_path req) = Some ch)
    by (unfold ok_or in Ec; by destruct (ac_challenges _ !! _); [injection Ec as -> |]).
  apply call_bind_inv in E as [(e & E & _)|([] & s1 & E1 & E)].
  { apply require_owner_inv in E as [-> _]. by eapply change_refused. }
  apply require_owner_inv in E1 as [-> [[_ Hkid]|[e [=]]]].
  apply call_bind_inv in E as [(e & [_ ->]%call_result_inv & _)|(payload & s1 & [Epl%map_err_Ok ->]%call_result_inv & E)]; [by eapply change_refused |].
  assert (Hfail : forall detail, fail_challenge (A := AcmeResponse) (chs_id ch) detail (consumed header s) = Some (out, s') -> acme_change req s s').
  { intros detail [= _ <-]. by eapply change_failed. }
  destruct (is_empty _) eqn:Ee; [by eapply Hfail |].
  destruct payload as [p|]; [|done]. change (default "" (cr_agent_signature <$> Some p)) with (cr_agent_signature p) in E.
  destruct (b64u_decode (cr_agent_signature p)) as [sig_bytes|] eqn:Eb; [|by eapply Hfail].
  destruct (sig_from_slice sig_bytes) as [sig|] eqn:Es; [|by eapply Hfail].
  destruct (ed_verify pk (bytes_of (chs_token ch)) sig) as [[]|] eqn:Evt; cbn [is_ok negb] in E; [|by eapply Hfail].
  run_rest E; (eapply change_accepted; [exact Ho | exact Hch | by rewrite Hkid | by exists p, sig_bytes, sig]).
Qed.

Lemma handle_finalize_change now req s out s' : handle_finalize random opts base_url now req s = Some (out, s') -> acme_change req s s'.
Proof.
  unfold handle_finalize. intros E. apply call_bind_inv in E as [(e & E & _)|(p & s1 & E1 & E)].
  { apply open_request_inv in E as [[_ [->|(env & header & Ho & ->)]]|(env & header & pk & [=] & _)];
      [apply change_none | by eapply change_refused]. }
  apply open_request_inv in E1 as [[[e [=]] _]|(env & header & pk & [= ->] & Ho & -> & Hkid & Hpk & Hv)].
  apply call_bind_inv in E as [(e & [[=] _]%call_get_inv & _)|(found & s1 & [[= ->] ->]%call_get_inv & E)].
  apply call_bind_inv in E as [(e & [_ ->]%call_result_inv & _)|(os & s1 & [Eo ->]%call_result_inv & E)]; [by eapply change_refused |].
  assert (Hos : ac_orders s !! trim_start_matches "/finalize/" (aq_path req) = Some os)
    by (unfold ok_or in Eo; by destruct (ac_orders _ !! _); [injection Eo as -> |]).
  apply call_bind_inv in E as [(e & E & _)|([] & s1 & E1 & E)].
  { apply require_owner_inv in E as [-> _]. by eapply change_refused. }
  apply require_owner_inv in E1 as [-> [[_ Hown]|[e [=]]]].
  destruct (String.eqb_spec (os_status os) STATUS_READY) as [Hready|]; cbn [negb] in E; [|apply call_fail_inv in E as [_ ->]; by eapply change_refused].
  apply call_bind_inv in E as [(e & [_ ->]%call_result_inv & _)|(payload & s1 & [Epl%map_err_Ok ->]%call_result_inv & E)]; [by eapply change_refused |].
  destruct (is_empty _) eqn:Ee; [apply call_fail_inv in E as [_ ->]; by eapply change_refused |].
  destruct payload as [fp|]; [|done]. change (default "" (fp_csr <$> Some fp)) with (fp_csr fp) in E.
  apply call_bind_inv in E as [(e & [_ ->]%call_result_inv & _)|(subject_pub & s1 & [Ecsr ->]%call_result_inv & E)]; [by eapply change_refused |].
  apply call_bind_inv in E as [(e & (x & _ & _ & ->)%call_panic_inv & _)|(nb & s1 & (x & Enb & [= ->] & ->)%call_panic_inv & E)]; [by eapply change_refused |].
  apply call_bind_inv in E as [(e & (y & _ & _ & ->)%call_panic_inv & _)|(na & s1 & (y & Ena & [= ->] & ->)%call_panic_inv & E)]; [by eapply change_refused |].
  apply call_bind_inv in E as [(e & [=] & _)|(serial & s1 & [= <- <-] & E)].
  apply call_bind_inv in E as [(e & [_ ->]%call_result_inv & _)|(leaf & s1 & [Eleaf%map_err_Ok ->]%call_result_inv & E)]; [by eapply change_drawn |].
  run_rest E. eapply change_certified; [exact Ho | by rewrite Hown | exact Hos | done |].
  by exists fp, subject_pub, x, y, leaf.
Qed.

(** What one request does to the state. *)
Lemma acme_handle_change now req s resp s' : acme_handle random opts base_url now req s = Some (resp, s') -> acme_change req s s'.
Proof.
  intros E. unfold acme_handle in E.
  assert (Hr : exists out, acme_route random opts base_url now req s = Some (out, s'))
    by (destruct (acme_route _ _ _ _ _ _) as [[[r|[st b]] s1]|]; [| |done]; injection E as _ <-; by eexists).
  clear E. destruct Hr as [out E]. unfold acme_route in E.
  destruct (_ && _); [apply call_ret_inv in E as [_ ->]; apply change_none |].
  destruct (String.eqb _ _); [run_rest E; apply change_nonce |].
  destruct (_ && _); [by eapply handle_new_account_change |].
  destruct (_ && _); [by eapply handle_new_order_change |].
  destruct (_ && _); [by eapply handle_authz_change |].
  destruct (_ && _); [by eapply handle_challenge_change |].
  destruct (_ && _); [by eapply handle_finalize_change |].
  destruct (_ && _); [by eapply handle_cert_change |].
  destruct (_ && _); [by eapply handle_order_change |].
  apply call_fail_inv in E as [_ ->]. apply change_none.
Qed.

(** ** Runs of the server *)

Inductive acme_run : list AcmeRequest -> AcmeState -> Prop :=
| run_start : acme_run [] acme_start
| run_step tr now req s resp s' : acme_run tr s -> acme_handle random opts base_url now req s = Some (resp, s') ->
    acme_run (tr ++ [req]) s'.

(** The random draws of a run never meet. *)
Definition no_repeats (n : nat) : Prop :=
  forall i j k l, (i < n)%nat -> (j < n)%nat -> encoded i k = encoded j l -> i = j.

Lemma no_repeats_le n m : (n <= m)%nat -> no_repeats m -> no_repeats n.
Proof. intros Hle Hn i j k l Hi Hj. apply Hn; lia. Qed.

(** The state after more requests. *)
Inductive acme_steps : AcmeState -> list AcmeRequest -> AcmeState -> Prop :=
| steps_none s : acme_steps s [] s
| steps_more s tr now req s' resp s2 : acme_steps s tr s' -> acme_handle random opts base_url now req s' = Some (resp, s2) ->
    acme_steps s (tr ++ [req]) s2.

(** The [i]th request of the trace made the order [oid], and the [k]th random
    draw fell in it. *)
Definition created (tr : list AcmeRequest) (s : AcmeState) (i : nat) (oid : string) (k : nat) : Prop :=
  exists s0 now req resp s1, tr !! i = Some req /\ acme_run (take i tr) s0 /\
    acme_handle random opts base_url now req s0 = Some (resp, s1) /\ acme_steps s1 (drop (S i) tr) s /\
    ac_orders s0 !! oid = None /\ is_Some (ac_orders s1 !! oid) /\ (ac_drawn s0 <= k < ac_drawn s1)%nat.

(** The [i]th request of the trace is signed with the key [pk] of the account
    [url]. *)
Definition sent_at (tr : list AcmeRequest) (i : nat) (url : string) (pk : VerifyingKey) (req : AcmeRequest) (env : Envelope) : Prop :=
  tr !! i = Some req /\ exists header, read_envelope req = Ok env /\ parse_header env = Ok header /\
    kid_of header = url /\ is_ok (jws_verify env pk) = true.

(** The three steps to a certificate: the order for an identifier; the answer
    to a challenge, which signs its token; the request for the certificate of
    an order. *)
Definition ordered_at (tr : list AcmeRequest) (i : nat) (url : string) (pk : VerifyingKey) (ident : Identifier) : Prop :=
  exists req env payload, sent_at tr i url pk req env /\ decode_payload new_order_from_slice env = Ok (Some payload) /\
    head (no_identifiers payload) = Some ident.
Definition answered_at (tr : list AcmeRequest) (j : nat) (url : string) (pk : VerifyingKey) (chid token : string) : Prop :=
  exists req env, sent_at tr j url pk req env /\ named_challenge req = chid /\ answers env pk token.
Definition finalized_at (tr : list AcmeRequest) (l : nat) (url : string) (pk : VerifyingKey) (oid : string) (ident : Identifier)
    (pem : string) : Prop :=
  exists req env serial, sent_at tr l url pk req env /\ named_order req = oid /\ leaf_for env ident pem serial.

(** An order of an account for an identifier, its authorization for the same
    identifier and account, and the one challenge of that. *)
Definition order_chain (s : AcmeState) (oid url : string) (ident : Identifier) (chid token : string) : Prop :=
  exists o az ch, ac_orders s !! oid = Some o /\ os_account_url o = url /\ os_identifier o = ident /\
    ac_authzs s !! os_authz_id o = Some az /\ az_identifier az = ident /\ az_account_url az = url /\
    az_challenge_ids az = [chid] /\ ac_challenges s !! chid = Some ch /\ chs_token ch = token.

Lemma sent_at_mono tr tr' i url pk req env : tr `prefix_of` tr' -> sent_at tr i url pk req env -> sent_at tr' i url pk req env.
Proof. intros Hp [Hl Hr]. split; [by eapply prefix_lookup_Some | done]. Qed.
Lemma ordered_at_mono tr tr' i url pk ident : tr `prefix_of` tr' -> ordered_at tr i url pk ident -> ordered_at tr' i url pk ident.
Proof. intros Hp (req & env & payload & Hs & Hr). exists req, env, payload. split; [by eapply sent_at_mono | done]. Qed.
Lemma answered_at_mono tr tr' j url pk chid token : tr `prefix_of` tr' -> answered_at tr j url pk chid token ->
  answered_at tr' j url pk chid token.
Proof. intros Hp (req & env & Hs & Hr). exists req, env. split; [by eapply sent_at_mono | done]. Qed.
Lemma finalized_at_mono tr tr' l url pk oid ident pem : tr `prefix_of` tr' -> finalized_at tr l url pk oid ident pem ->
  finalized_at tr' l url pk oid ident pem.
Proof. intros Hp (req & env & serial & Hs & Hr). exists req, env, serial. split; [by eapply sent_at_mono | done]. Qed.

Lemma created_snoc tr s i oid k now req resp s' : created tr s i oid k -> acme_handle random opts base_url now req s = Some (resp, s') ->
  created (tr ++ [req]) s' i oid k.
Proof.
  intros (s0 & now0 & req0 & resp0 & s1 & Hi & Hrun & Hh & Hsteps & Hr) E.
  assert (Hlt : (i < length tr)%nat) by by eapply lookup_lt_Some.
  exists s0, now0, req0, resp0, s1. rewrite lookup_app_l, take_app_le, drop_app_le by lia.
  split_and!; [done | done | exact Hh | by eapply steps_more | apply Hr..].
Qed.

(** A key of a map is a random identifier drawn before. *)
Definition drawn_id (n : nat) (id : string) : Prop := exists i, (i < n)%nat /\ id = encoded i 8.

Lemma drawn_id_le n m id : (n <= m)%nat -> drawn_id n id -> drawn_id m id.
Proof. intros Hle (i & Hi & ->). exists i. split; [lia | done]. Qed.

Lemma drawn_id_fresh n i : no_repeats (S i) -> (n <= i)%nat -> ~ drawn_id n (encoded i 8).
Proof. intros Hn Hle (j & Hj & E). apply Hn in E; lia. Qed.

Definition challenge_of (s : AcmeState) (aid : string) (az : AuthzState) (cid : string) (ch : ChallengeState) : Prop :=
  az_challenge_ids az = [cid] /\ ac_challenges s !! cid = Some ch /\ chs_id ch = cid /\ chs_authz_id ch = aid /\
  chs_account_url ch = az_account_url az.

(** An order that was made by the [i]th request: [mk i oid k] says which order
    that was and that the token is the [k]th draw. *)
Definition order_made (mk : nat -> string -> nat -> Prop) (tr : list AcmeRequest) (s : AcmeState)
    (url : string) (pk : VerifyingKey) (oid : string) (ident : Identifier) (chid : string) (i k : nat) : Prop :=
  account_key s url pk /\ order_chain s oid url ident chid (encoded k 32) /\ mk i oid k /\ ordered_at tr i url pk ident.

Record acme_inv (mk : nat -> string -> nat -> Prop) (tr : list AcmeRequest) (t : nat) (s : AcmeState) : Prop := {
  ai_account url jwk : ac_account_jwks s !! url = Some jwk ->
    exists id, drawn_id (ac_drawn s) id /\ url = base_url +:+ "/account/" +:+ id;
  ai_challenge cid ch : ac_challenges s !! cid = Some ch -> drawn_id (ac_drawn s) cid /\
    exists az, ac_authzs s !! chs_authz_id ch = Some az /\ challenge_of s (chs_authz_id ch) az cid ch;
  ai_authz aid az : ac_authzs s !! aid = Some az -> drawn_id (ac_drawn s) aid;
  ai_order oid o : ac_orders s !! oid = Some o -> drawn_id (ac_drawn s) oid /\
    exists pk chid i k, order_made mk tr s (os_account_url o) pk oid (os_identifier o) chid i k /\ (i < t)%nat /\
      (os_status o = STATUS_PENDING \/
       exists j, (i < j < t)%nat /\ answered_at tr j (os_account_url o) pk chid (encoded k 32));
  ai_cert cid pem : ac_certs s !! cid = Some pem ->
    exists url pk oid ident chid i k j l, order_made mk tr s url pk oid ident chid i k /\ (i < j < l)%nat /\
      answered_at tr j url pk chid (encoded k 32) /\ finalized_at tr l url pk oid ident pem
}.

Lemma account_key_mono s s' url pk : ac_account_jwks s ⊆ ac_account_jwks s' -> account_key s url pk -> account_key s' url pk.
Proof. intros Hs (jwk & Hl & Hp). exists jwk. split; [by eapply lookup_weaken | done]. Qed.

Lemma account_key_det s url pk pk' : account_key s url pk -> account_key s url pk' -> pk = pk'.
Proof. intros (jwk & Hl & Hp) (jwk' & Hl' & Hp'). congruence. Qed.

Definition keeps_chains (s s' : AcmeState) : Prop :=
  forall oid url ident chid token, order_chain s oid url ident chid token -> order_chain s' oid url ident chid token.

Lemma order_made_mono (mk mk' : nat -> string -> nat -> Prop) tr tr' s s' url pk oid ident chid i k :
  (forall i oid k, mk i oid k -> mk' i oid k) -> tr `prefix_of` tr' ->
  ac_account_jwks s ⊆ ac_account_jwks s' -> keeps_chains s s' ->
  order_made mk tr s url pk oid ident chid i k -> order_made mk' tr' s' url pk oid ident chid i k.
Proof.
  intros Hm Hp Hj Hk (H1' & H2' & H3' & H4'). split; [by eapply account_key_mono |]. split; [by apply Hk |].
  split; [by apply Hm | by eapply ordered_at_mono].
Qed.

(** A step that leaves the maps alone, but for new accounts. *)
Lemma acme_inv_mono (mk mk' : nat -> string -> nat -> Prop) tr tr' t t' s s' :
  (forall i oid k, mk i oid k -> mk' i oid k) -> tr `prefix_of` tr' -> (t <= t')%nat ->
  acme_inv mk tr t s -> ac_account_jwks s ⊆ ac_account_jwks s' ->
  (forall url jwk, ac_account_jwks s' !! url = Some jwk ->
    exists id, drawn_id (ac_drawn s') id /\ url = base_url +:+ "/account/" +:+ id) ->
  ac_orders s' = ac_orders s -> ac_authzs s' = ac_authzs s -> ac_challenges s' = ac_challenges s -> ac_certs s' = ac_certs s ->
  (ac_drawn s <= ac_drawn s')%nat -> acme_inv mk' tr' t' s'.
Proof.
  intros Hm Hi Ht [P1 P2 P3 P4 P5] Hj Hacc Eo Ea Ec Ece Hd.
  assert (Hkc : keeps_chains s s') by (intros oid url ident chid token; unfold order_chain; by rewrite Eo, Ea, Ec).
  constructor; rewrite ?Eo, ?Ea, ?Ec, ?Ece.
  - done.
  - intros cid ch Hl. apply P2 in Hl as (Hid & az & Haz & Hch). split; [by eapply drawn_id_le |].
    exists az. split; [done |]. unfold challenge_of in *. by rewrite Ec.
  - intros aid az Hl. apply P3 in Hl. by eapply drawn_id_le.
  - intros oid o Hl. apply P4 in Hl as (Hid & pk & chid & i & k & Hmade & Hit & Hst). split; [by eapply drawn_id_le |].
    exists pk, chid, i, k. split; [by eapply order_made_mono |]. split; [lia |].
    destruct Hst as [Hst|(j & Hjt & Ha)]; [by left | right]. exists j. split; [lia | by eapply answered_at_mono].
  - intros cid pem Hl. apply P5 in Hl as (url & pk & oid & ident & chid & i & k & j & l & Hmade & Hij & Ha & Hf).
    exists url, pk, oid, ident, chid, i, k, j, l. split; [by eapply order_made_mono |]. split; [done |].
    split; [by eapply answered_at_mono | by eapply finalized_at_mono].
Qed.

(** ... in particular one that only draws and counts nonces. *)
Lemma acme_inv_same mk tr t s s' : acme_inv mk tr t s -> ac_account_jwks s' = ac_account_jwks s ->
  ac_orders s' = ac_orders s -> ac_authzs s' = ac_authzs s -> ac_challenges s' = ac_challenges s -> ac_certs s' = ac_certs s ->
  (ac_drawn s <= ac_drawn s')%nat -> acme_inv mk tr t s'.
Proof.
  intros Hinv Ej Eo Ea Ec Ece Hd. eapply acme_inv_mono; try done; [by rewrite Ej |].
  intros url jwk. rewrite Ej. intros Hl. apply (ai_account _ _ _ _ Hinv) in Hl as (id & Hid & ->).
  exists id. split; [by eapply drawn_id_le | done].
Qed.

Lemma acme_inv_account mk tr t s jwk : acme_inv mk tr t s -> no_repeats (S (ac_drawn s)) ->
  acme_inv mk tr t (set_jwks (insert (base_url +:+ "/account/" +:+ encoded (ac_drawn s) 8) jwk) (draw s)).
Proof.
  intros Hinv Hn. apply (acme_inv_mono mk mk tr tr t t s); try done; cbn; [| |lia].
  - apply insert_subseteq. destruct (ac_account_jwks s !! _) as [j|] eqn:El; [|done].
    apply (ai_account _ _ _ _ Hinv) in El as (id & Hid & E). apply (inj (String.append base_url)), (inj (String.append "/account/")) in E as <-.
    by apply drawn_id_fresh in Hid.
  - intros url j. rewrite lookup_insert. case_decide as Hu.
    + intros _. exists (encoded (ac_drawn s) 8). split; [|done]. exists (ac_drawn s). split; [lia | done].
    + intros Hl. apply (ai_account _ _ _ _ Hinv) in Hl as (id & Hid & ->). exists id. split; [|done]. eapply drawn_id_le; [|done]. lia.
Qed.

(** A new order, made by the request at [i]. *)
Lemma acme_inv_ordered (mk : nat -> string -> nat -> Prop) tr t s ident url pk i : acme_inv mk tr t s ->
  no_repeats (4 + ac_drawn s) -> account_key s url pk -> ordered_at tr i url pk ident -> (i < t)%nat ->
  (ac_orders s !! encoded (ac_drawn s) 8 = None -> mk i (encoded (ac_drawn s) 8) (3 + ac_drawn s)%nat) ->
  acme_inv mk tr t (ordered ident url s).
Proof.
  intros [P1 P2 P3 P4 P5] Hn Hk Hor Hit Hmk.
  assert (Hfresh : forall i, (ac_drawn s <= i < 4 + ac_drawn s)%nat -> ~ drawn_id (ac_drawn s) (encoded i 8))
    by (intros i' Hi; apply drawn_id_fresh; [eapply no_repeats_le; [|exact Hn] |]; lia).
  assert (Hup : forall id, drawn_id (ac_drawn s) id -> drawn_id (4 + ac_drawn s) id) by (intros id; apply drawn_id_le; lia).
  assert (Hnew : forall i, (i < 4 + ac_drawn s)%nat -> drawn_id (4 + ac_drawn s) (encoded i 8)) by (intros i' Hi; by exists i').
  set (n := ac_drawn s) in *.
  assert (Hno : ac_orders s !! encoded n 8 = None).
  { destruct (ac_orders s !! encoded n 8) as [o|] eqn:El; [|done]. apply P4 in El as [Hid _].
    exfalso. apply (Hfresh n); [lia | exact Hid]. }
  assert (Hc : forall cid ch, ac_challenges s !! cid = Some ch -> ac_challenges (ordered ident url s) !! cid = Some ch).
  { intros cid ch Hl. cbn. rewrite lookup_insert_ne; [done |]. intros <-. apply P2 in Hl as [Hid _]. eapply Hfresh, Hid. lia. }
  assert (Ha : forall aid az, ac_authzs s !! aid = Some az -> ac_authzs (ordered ident url s) !! aid = Some az).
  { intros aid az Hl. cbn. rewrite lookup_insert_ne; [done |]. intros <-. apply P3 in Hl. eapply Hfresh, Hl. lia. }
  assert (Hkc : keeps_chains s (ordered ident url s)).
  { intros oid u idn chid token (o & az & ch & C1 & C2 & C3 & C4 & C5 & C6 & C7 & C8 & C9). exists o, az, ch.
    split; [cbn; rewrite lookup_insert_ne; [done | intros E; rewrite <-E in C1; unfold n in Hno; congruence] |]. split_and!; auto. }
  set (ch0 := pending_challenge (encoded (S (S n)) 8) (encoded (S (S (S n))) 32) (encoded (S n) 8) url).
  set (az0 := pending_authz ident (encoded (S (S n)) 8) url).
  assert (Hca : ac_authzs (ordered ident url s) !! encoded (S n) 8 = Some az0) by (cbn; by rewrite lookup_insert_eq).
  assert (Hcc : ac_challenges (ordered ident url s) !! encoded (S (S n)) 8 = Some ch0) by (cbn; by rewrite lookup_insert_eq).
  constructor.
  - intros u jwk Hl. apply P1 in Hl as (id & Hid & ->). exists id. split; [by apply Hup | done].
  - intros cid ch Hl. cbn in Hl. rewrite lookup_insert in Hl. case_decide as Hcid.
    + injection Hl as <-. subst cid. split; [apply Hnew; lia |]. by exists az0.
    + apply P2 in Hl as (Hid & az & Haz & Hch). split; [by apply Hup |]. exists az. split; [by apply Ha |].
      destruct Hch as (C1 & C2 & C3). split; [done |]. split; [by apply Hc | done].
  - intros aid az Hl. cbn in Hl. rewrite lookup_insert in Hl. case_decide as Haid.
    + injection Hl as <-. subst aid. apply Hnew. lia.
    + apply P3 in Hl. by apply Hup.
  - intros oid o Hl. cbn in Hl. rewrite lookup_insert in Hl. case_decide as Hoid.
    + injection Hl as <-. subst oid. split; [apply Hnew; lia |]. exists pk, (encoded (S (S n)) 8), i, (3 + n)%nat.
      split; [|split; [done | by left]]. split; [exact Hk |]. split; [|split; [by apply Hmk | done]].
      eexists _, az0, ch0. split; [cbn; by rewrite lookup_insert_eq |]. done.
    + apply P4 in Hl as (Hid & pk' & chid & i' & k & Hmade & Hr). split; [by apply Hup |]. exists pk', chid, i', k.
      split; [|done]. by eapply (order_made_mono mk mk tr tr s).
  - intros cid pem Hl. apply P5 in Hl as (u & pk' & oid & idn & chid & i' & k & j & l & Hmade & Hr).
    exists u, pk', oid, idn, chid, i', k, j, l. split; [|done]. by eapply (order_made_mono mk mk tr tr s).
Qed.

Lemma acme_inv_chains mk tr t s s' : acme_inv mk tr t s -> keeps_chains s s' ->
  ac_account_jwks s' = ac_account_jwks s -> ac_orders s' = ac_orders s -> ac_certs s' = ac_certs s -> ac_drawn s' = ac_drawn s ->
  (forall cid ch, ac_challenges s' !! cid = Some ch -> drawn_id (ac_drawn s) cid /\
    exists az, ac_authzs s' !! chs_authz_id ch = Some az /\ challenge_of s' (chs_authz_id ch) az cid ch) ->
  (forall aid az, ac_authzs s' !! aid = Some az -> drawn_id (ac_drawn s) aid) ->
  acme_inv mk tr t s'.
Proof.
  intros [P1 P2 P3 P4 P5] Hkc Ej Eo Ece Ed Hch Haz. constructor; rewrite ?Ej, ?Eo, ?Ece, ?Ed; [done..| |].
  - intros oid o Hl. apply P4 in Hl as (Hid & pk & chid & i & k & Hmade & Hr). split; [done |]. exists pk, chid, i, k.
    split; [|done]. eapply (order_made_mono mk mk tr tr s); [done | done | by rewrite Ej | done | done].
  - intros cid pem Hl. apply P5 in Hl as (u & pk & oid & idn & chid & i & k & j & l & Hmade & Hr).
    exists u, pk, oid, idn, chid, i, k, j, l. split; [|done].
    eapply (order_made_mono mk mk tr tr s); [done | done | by rewrite Ej | done | done].
Qed.

(** The status of a challenge, or of an authorization. *)
Lemma acme_inv_status mk tr t s st id : acme_inv mk tr t s ->
  acme_inv mk tr t (set_challenges (alter (challenge_status st) id) s).
Proof.
  intros Hinv. pose proof Hinv as [P1 P2 P3 P4 P5]. apply (acme_inv_chains mk tr t s); try done.
  - intros oid url ident chid token (o & az & ch & C1 & C2 & C3 & C4 & C5 & C6 & C7 & C8 & C9).
    exists o, az. cbn. rewrite lookup_alter.
    case_decide as Hid; [exists (challenge_status st ch); rewrite Hid, C8 | exists ch]; split_and!; done.
  - intros cid ch Hl. cbn in Hl.
    assert (Hx : exists c, ac_challenges s !! cid = Some c /\ (ch = c \/ ch = challenge_status st c)).
    { rewrite lookup_alter in Hl. case_decide as Hid; [subst id | by exists ch; auto]. apply fmap_Some in Hl as (c & Hc & ->). exists c. auto. }
    destruct Hx as (c & Hc & Hch). apply P2 in Hc as (Hid & az & Haz & C1 & C2 & C3 & C4 & C5). split; [done |]. exists az.
    split; [by destruct Hch as [-> | ->] |]. split; [done |]. split; [exact Hl |]. by destruct Hch as [-> | ->].
Qed.

Lemma acme_inv_authz_status mk tr t s st aid : acme_inv mk tr t s ->
  acme_inv mk tr t (set_authzs (alter (authz_status st) aid) s).
Proof.
  intros Hinv. pose proof Hinv as [P1 P2 P3 P4 P5].
  assert (Ha : forall a z, ac_authzs s !! a = Some z -> exists z', alter (authz_status st) aid (ac_authzs s) !! a = Some z' /\
    az_challenge_ids z' = az_challenge_ids z /\ az_account_url z' = az_account_url z /\ az_identifier z' = az_identifier z).
  { intros a z Hz. rewrite lookup_alter. case_decide as Hd; [subst a; rewrite Hz; exists (authz_status st z); auto |].
    exists z. auto. }
  apply (acme_inv_chains mk tr t s); try done.
  - intros oid url ident chid token (o & az & ch & C1 & C2 & C3 & C4 & C5 & C6 & C7 & C8 & C9).
    destruct (Ha _ _ C4) as (z' & Hz' & E1 & E2 & E3). exists o, z', ch. cbn. split_and!; try done; congruence.
  - intros cid ch Hl. apply P2 in Hl as (Hid & z & Hz & C1 & C2 & C3 & C4 & C5). split; [done |].
    destruct (Ha _ _ Hz) as (z' & Hz' & E1 & E2 & _). exists z'. split; [done |]. split_and!; try done; congruence.
  - intros a z Hl. cbn in Hl. rewrite lookup_alter in Hl. case_decide as Hd; [|by eapply P3]. subst a.
    apply fmap_Some in Hl as (z0 & Hz & _). by eapply P3.
Qed.

Lemma order_ready_fields (b : bool) o : let o' := if b then order_status STATUS_READY o else o in
  os_account_url o' = os_account_url o /\ os_identifier o' = os_identifier o /\ os_authz_id o' = os_authz_id o.
Proof. by destruct b. Qed.

(** The orders of an authorization whose challenge was answered by the request
    at [j]. *)
Lemma acme_inv_ready mk tr t j s aid az cid ch pk : acme_inv mk tr j s -> (j < t)%nat ->
  challenge_of s aid az cid ch -> ac_authzs s !! aid = Some az -> account_key s (az_account_url az) pk ->
  answered_at tr j (az_account_url az) pk cid (chs_token ch) ->
  acme_inv mk tr t (set_orders (fmap (fun o => if String.eqb (os_authz_id o) aid then order_status STATUS_READY o else o)) s).
Proof.
  intros [P1 P2 P3 P4 P5] Hjt Hco Haz Hkey Ha.
  assert (Hkc : keeps_chains s (set_orders (fmap (fun o => if String.eqb (os_authz_id o) aid then order_status STATUS_READY o else o)) s)).
  { intros oid url ident chid token (o & z & c & C1 & C2 & C3 & C4 & C).
    destruct (order_ready_fields (String.eqb (os_authz_id o) aid) o) as (E1 & E2 & E3).
    eexists _, z, c. split; [cbn; rewrite lookup_fmap, C1; reflexivity |]. rewrite E1, E2, E3. split_and!; try done; by apply C. }
  constructor; cbn [ac_challenges ac_authzs ac_orders ac_certs ac_account_jwks ac_drawn set_orders]; [done..| |].
  - intros oid o Hl. rewrite lookup_fmap in Hl. apply fmap_Some in Hl as (o0 & Hl & ->). pose proof Hl as Hl0.
    apply P4 in Hl as (Hid & pk' & chid & i & k & Hmade & Hit & Hst). split; [done |].
    destruct (order_ready_fields (String.eqb (os_authz_id o0) aid) o0) as (-> & -> & _).
    exists pk', chid, i, k. split; [by eapply (order_made_mono mk mk tr tr s) |]. split; [lia |].
    destruct (String.eqb_spec (os_authz_id o0) aid) as [Ea|Ea].
    + right. exists j. split; [lia |]. destruct Hmade as (Hk & (o1 & z & c & C1 & C2 & C3 & C4 & C5 & C6 & C7 & C8 & C9) & _).
      rewrite Hl0 in C1. injection C1 as <-. rewrite Ea, Haz in C4. injection C4 as <-.
      destruct Hco as (D1 & D2 & _). rewrite D1 in C7. injection C7 as <-. rewrite D2 in C8. injection C8 as <-.
      rewrite <-C9. rewrite C6 in Hkey, Ha. by rewrite (account_key_det _ _ _ _ Hk Hkey).
    + destruct Hst as [Hst|(j' & Hj' & Hst)]; [by left | right]. exists j'. split; [lia | done].
  - intros c pem Hl. apply P5 in Hl as (u & pk' & oid & idn & chid & i & k & j' & l & Hmade & Hr).
    exists u, pk', oid, idn, chid, i, k, j', l. split; [|done]. by eapply (order_made_mono mk mk tr tr s).
Qed.

Lemma acme_inv_accepted mk tr t j s cid ch pk : acme_inv mk tr j s -> (j < t)%nat -> ac_challenges s !! cid = Some ch ->
  account_key s (chs_account_url ch) pk -> answered_at tr j (chs_account_url ch) pk cid (chs_token ch) ->
  acme_inv mk tr t (accept_challenge ch s).
Proof.
  intros Hinv Hjt Hl Hk Ha. pose proof (ai_challenge _ _ _ _ Hinv _ _ Hl) as (_ & az & Haz & C1 & C2 & C3 & C4 & C5).
  rewrite C5 in Hk, Ha.
  apply (acme_inv_ready mk tr t j _ (chs_authz_id ch) (authz_status STATUS_VALID az) cid (challenge_status STATUS_VALID ch) pk);
    [by apply acme_inv_authz_status, acme_inv_status | done | | | exact Hk | exact Ha].
  - unfold challenge_of. cbn. rewrite C3, lookup_alter_eq, Hl. by split_and!.
  - cbn. by rewrite lookup_alter_eq, Haz.
Qed.

Lemma acme_inv_certified mk tr t l s oid os pem pk : acme_inv mk tr l s -> (l < t)%nat ->
  ac_orders s !! oid = Some os -> os_status os = STATUS_READY ->
  account_key s (os_account_url os) pk -> finalized_at tr l (os_account_url os) pk oid (os_identifier os) pem ->
  acme_inv mk tr t (certified oid pem s).
Proof.
  intros Hinv Hlt Ho Hst Hk Hf. pose proof Hinv as [P1 P2 P3 P4 P5].
  assert (Hup : forall id, drawn_id (ac_drawn s) id -> drawn_id (S (S (ac_drawn s))) id) by (intros id; apply drawn_id_le; lia).
  assert (Hkc : keeps_chains s (certified oid pem s)).
  { intros oid' url ident chid token (o & z & c & C1 & C2 & C3 & C). cbn. unfold order_chain. cbn. rewrite lookup_alter.
    case_decide as Hd; [subst oid'; rewrite C1; eexists (order_certified _ o), z, c | exists o, z, c]; split_and!; try done; by apply C. }
  constructor; cbn [ac_challenges ac_authzs ac_orders ac_certs ac_account_jwks ac_drawn set_orders set_certs certified draw].
  - intros u jwk Hl. apply P1 in Hl as (id & Hid & ->). exists id. split; [by apply Hup | done].
  - intros cid ch Hl. apply P2 in Hl as (Hid & Hch). split; [by apply Hup | done].
  - intros aid az Hl. apply P3 in Hl. by apply Hup.
  - intros oid' o Hl.
    assert (Hx : exists o0, ac_orders s !! oid' = Some o0 /\ os_account_url o = os_account_url o0 /\ os_identifier o = os_identifier o0 /\
      (o = o0 \/ o0 = os)).
    { rewrite lookup_alter in Hl. case_decide as Hd; [|by exists o; auto]. subst oid'. rewrite Ho in Hl. injection Hl as <-.
      exists os. auto. }
    destruct Hx as (o0 & Hl0 & E1 & E2 & Hor). rewrite E1, E2. apply P4 in Hl0 as (Hid & pk' & chid & i & k & Hmade & Hit & Hs).
    split; [by apply Hup |]. exists pk', chid, i, k. split; [by eapply (order_made_mono mk mk tr tr s) |]. split; [lia |].
    destruct Hs as [Hs|(j & Hj & Ha)]; [|right; exists j; split; [lia | done]].
    destruct Hor as [-> | ->]; [by left |]. rewrite Hst in Hs. done.
  - intros cid pem' Hl. rewrite lookup_insert in Hl. case_decide.
    + injection Hl as <-. apply P4 in Ho as (_ & pk' & chid & i & k & Hmade & Hit & Hs).
      destruct Hs as [Hs|(j & Hj & Ha)]; [rewrite Hst in Hs; done |].
      assert (pk' = pk) as -> by (eapply account_key_det; [apply Hmade | exact Hk]).
      exists (os_account_url os), pk, oid, (os_identifier os), chid, i, k, j, l.
      split; [by eapply (order_made_mono mk mk tr tr s) |]. split; [lia | done].
    + apply P5 in Hl as (u & pk' & oid' & idn & chid & i & k & j & l' & Hmade & Hr).
      exists u, pk', oid', idn, chid, i, k, j, l'. split; [|done]. by eapply (order_made_mono mk mk tr tr s).
Qed.

Lemma minted_same mk tr t s : acme_inv mk tr t s -> acme_inv mk tr t (minted s).
Proof. intros Hi. apply (acme_inv_same mk tr t s); try done. cbn. lia. Qed.
Lemma draw_same mk tr t s : acme_inv mk tr t s -> acme_inv mk tr t (draw s).
Proof. intros Hi. apply (acme_inv_same mk tr t s); try done. cbn. lia. Qed.
Lemma acme_inv_later mk tr t t' s : (t <= t')%nat -> acme_inv mk tr t s -> acme_inv mk tr t' s.
Proof. intros Ht Hi. by apply (acme_inv_mono mk mk tr tr t t' s s); try done; apply Hi. Qed.

Lemma acme_change_drawn req s s' : acme_change req s s' -> (ac_drawn s <= ac_drawn s')%nat.
Proof. destruct 1; cbn; lia. Qed.

(** A request keeps the invariant, when what it creates is known to be. *)
Lemma acme_inv_change (mk mk' : nat -> string -> nat -> Prop) tr req s s' : acme_change req s s' -> no_repeats (ac_drawn s') ->
  (forall i oid k, mk i oid k -> mk' i oid k) ->
  (forall oid k, ac_orders s !! oid = None -> is_Some (ac_orders s' !! oid) -> (ac_drawn s <= k < ac_drawn s')%nat ->
     mk' (length tr) oid k) ->
  acme_inv mk tr (length tr) s -> acme_inv mk' (tr ++ [req]) (S (length tr)) s'.
Proof.
  intros Hc Hn Hmk Hnew Hi.
  assert (Hi0 : acme_inv mk' (tr ++ [req]) (length tr) s)
    by (apply (acme_inv_mono mk mk' tr _ (length tr) (length tr) s s); try done; [by exists [req] | apply Hi]).
  assert (Hcon : forall header, acme_inv mk' (tr ++ [req]) (length tr) (consumed header s))
    by (intros header; by apply (acme_inv_same mk' (tr ++ [req]) _ s)).
  assert (Hlast : (tr ++ [req]) !! length tr = Some req) by (by rewrite lookup_app_r, Nat.sub_diag by lia).
  assert (Hsent : forall env header url pk, opened req env header s -> signed_by_account s env header url pk ->
    sent_at (tr ++ [req]) (length tr) url pk req env).
  { intros env header url pk (Hr & Hh & _) (Hk & _ & Hv). split; [done |]. by exists header. }
  assert (Hle : (length tr <= S (length tr))%nat) by lia.
  destruct Hc as [s|s|env header s Ho|env header s Ho|env header jwk pk s Ho Hj Hp Hv|env header pk payload ident s Ho Hs Hp Hid
    |env header id ch s Ho Hch|env header pk ch s Ho Hch Hs Ha|env header s Ho|env header pk os pem s Ho Hs Hos Hst Hl].
  - by eapply acme_inv_later.
  - by eapply minted_same, acme_inv_later.
  - by eapply acme_inv_later.
  - by eapply minted_same, acme_inv_later.
  - eapply minted_same, (acme_inv_account _ _ _ (consumed header s)); [by eapply acme_inv_later |].
    eapply no_repeats_le; [|exact Hn]. cbn. lia.
  - eapply minted_same, (acme_inv_ordered _ _ _ (consumed header s) _ _ pk (length tr)).
    + by eapply acme_inv_later.
    + eapply no_repeats_le; [|exact Hn]. cbn. lia.
    + apply Hs.
    + exists req, env, payload. split; [by eapply Hsent | done].
    + lia.
    + intros Hno. cbn in Hno |- *. apply Hnew; [done | cbn; rewrite lookup_insert_eq; by eexists | cbn; lia].
  - by eapply acme_inv_status, acme_inv_later.
  - eapply minted_same, (acme_inv_accepted _ _ _ (length tr) (consumed header s) (named_challenge req) _ pk);
      [apply Hcon | lia | done | apply Hs |].
    exists req, env. split; [by eapply Hsent | done].
  - by eapply draw_same, acme_inv_later.
  - eapply minted_same, (acme_inv_certified _ _ _ (length tr) (consumed header s) _ os _ pk); [apply Hcon | lia | done | done | apply Hs |].
    exists req, env, (random (ac_drawn s) 20). split; [by eapply Hsent | done].
Qed.

Lemma acme_run_inv tr s : acme_run tr s -> no_repeats (ac_drawn s) -> acme_inv (created tr s) tr (length tr) s.
Proof.
  induction 1 as [|tr now req s resp s' Hrun IH Hh]; intros Hn; [by constructor |].
  pose proof Hh as Hc. apply acme_handle_change in Hc. rewrite length_app, Nat.add_comm.
  eapply (acme_inv_change (created tr s)); [exact Hc | done | | |].
  - intros i oid k Hcr. by eapply created_snoc.
  - intros oid k Hno Hsome Hk. exists s, now, req, resp, s'. rewrite lookup_app_r, Nat.sub_diag by lia.
    rewrite take_app_length, drop_ge by (rewrite length_app; cbn; lia). split_and!; try done; [apply steps_none | lia..].
  - apply IH. eapply no_repeats_le; [|exact Hn]. by eapply acme_change_drawn.
Qed.

(** C5: over every run of the server whose random draws never meet, whatever
    is sent to it, a certificate is in the store only if it was earned by one
    order of one account, in this order: a request signed with the account's
    key ordered an identifier and made that order, and the server drew a token
    for it while it handled that request; a later request, sent to the one
    challenge of the order's own authorization and signed with that key, signed
    that token; a later request, sent to that order and signed with that key,
    asked for a certificate with a signing request that names the identifier;
    and the certificate is the leaf issued for that identifier and the key of
    that signing request, followed by the root. *)
Theorem certificates_earned tr s cid pem : acme_run tr s -> no_repeats (ac_drawn s) -> ac_certs s !! cid = Some pem ->
  exists url pk oid ident chid i k j l,
    account_key s url pk /\ order_chain s oid url ident chid (encoded k 32) /\ (i < j < l)%nat /\
    created tr s i oid k /\ ordered_at tr i url pk ident /\
    answered_at tr j url pk chid (encoded k 32) /\ finalized_at tr l url pk oid ident pem.
Proof.
  intros Hr Hn Hc. apply (ai_cert _ _ _ _ (acme_run_inv tr s Hr Hn)) in Hc
    as (url & pk & oid & ident & chid & i & k & j & l & (H1' & H2' & H3' & H4') & Hij & Ha & Hf).
  exists url, pk, oid, ident, chid, i, k, j, l. done.
Qed.

(** ** Nonces *)

(** A call that adds no nonce but new draws. *)
Definition only_mints {A} (m : Call (E := Z * string) (S := AcmeState) A) : Prop :=
  forall s out s', m s = Some (out, s') -> (ac_drawn s <= ac_drawn s')%nat /\
    forall x, x ∈ ac_nonces s' -> x ∈ ac_nonces s \/ exists j, (ac_drawn s <= j < ac_drawn s')%nat /\ x = encoded j 16.

Lemma only_mints_bind {A B} (m : Call A) (f : A -> Call B) : only_mints m -> (forall a, only_mints (f a)) -> only_mints (call_bind m f).
Proof.
  intros Hm Hf s out s' E. apply call_bind_inv in E as [(e & E & _)|(a & s1 & E1 & E)]; [by eapply Hm |].
  apply Hm in E1 as [Hd1 H1']. apply Hf in E as [Hd2 H2']. split; [lia |]. intros x Hx.
  apply H2' in Hx as [Hx|(j & Hj & ->)]; [apply H1' in Hx as [Hx|(j & Hj & ->)]; [by left |]|]; right; exists j; (split; [lia | done]).
Qed.
Lemma only_mints_same {A} (m : Call A) : (forall s out s', m s = Some (out, s') -> ac_drawn s' = ac_drawn s /\ ac_nonces s' = ac_nonces s) ->
  only_mints m.
Proof. intros Hm s out s' E. apply Hm in E as [-> ->]. split; [lia | by left]. Qed.
Lemma only_mints_ret {A} (a : A) : only_mints (call_ret a).
Proof. apply only_mints_same. by intros s out s' [= _ <-]. Qed.
Lemma only_mints_fail {A} e : only_mints (call_fail (A := A) e).
Proof. apply only_mints_same. by intros s out s' [= _ <-]. Qed.
Lemma only_mints_result {A} (r : result _ A) : only_mints (call_result r).
Proof. apply only_mints_same. by intros s out s' [= _ <-]. Qed.
Lemma only_mints_panic {A} (o : option A) : only_mints (call_panic o).
Proof. apply only_mints_same. intros s out s' E. unfold call_panic in E. destruct o; [|done]. by injection E as _ <-. Qed.
Lemma only_mints_get {A} (f : AcmeState -> A) : only_mints (call_get f).
Proof. apply only_mints_same. by intros s out s' [= _ <-]. Qed.
Lemma only_mints_modify f : (forall s, ac_drawn (f s) = ac_drawn s /\ ac_nonces (f s) = ac_nonces s) -> only_mints (call_modify f).
Proof. intros Hf. apply only_mints_same. intros s out s' [= _ <-]. apply Hf. Qed.
Lemma only_mints_draw n : only_mints (random_bytes random n).
Proof. intros s out s' [= _ <-]. cbn. split; [lia | by left]. Qed.
Lemma only_mints_mint : only_mints (mint_nonce random).
Proof.
  intros s out s' [= _ <-]. cbn. split; [lia |]. intros x [->%elem_of_singleton|Hx]%elem_of_union; [right | by left].
  exists (ac_drawn s). split; [lia | done].
Qed.
End server.

Create HintDb mints.
#[export] Hint Resolve only_mints_bind only_mints_ret only_mints_fail only_mints_result only_mints_panic only_mints_get
  only_mints_draw only_mints_mint : mints.

(** Calls that only mint, by their shape. *)
Ltac only_mints :=
  repeat match goal with
  | |- only_mints _ (call_bind _ _) => apply only_mints_bind
  | |- only_mints _ (call_modify _) => apply only_mints_modify; intros; split; reflexivity
  | |- only_mints _ (mint_nonce _) => apply only_mints_mint
  | |- only_mints _ (short_id _) => unfold short_id
  | |- only_mints _ (require_found _ _) => unfold require_found
  | |- only_mints _ (require_owner _ _ _) => unfold require_owner
  | |- only_mints _ (malformed _) => unfold malformed
  | |- only_mints _ (fail_challenge _ _) => unfold fail_challenge, mark_challenge_invalid
  | |- only_mints _ (let '(_, _) := ?p in _) => destruct p
  | |- only_mints _ (match ?x with _ => _ end) => destruct x
  | |- only_mints _ (if ?x then _ else _) => destruct x
  | |- only_mints _ (let x := _ in _) => cbv zeta
  | |- forall _, _ => intros
  | |- _ => solve [eauto with mints]
  end.

Section nonces.
Context {D : Digests} `{Base64} `{Base64Encoder} `{AcmeSerde} `{Rcgen} `{CsrParser} `{SystemTimes}.
Context (random : nat -> nat -> list Z) (opts : AcmeServerOptions) (base_url : string).

Lemma call_bind_assoc {E S A B C} (m : Call (E := E) (S := S) A) (f : A -> Call B) (g : B -> Call C) s :
  call_bind (call_bind m f) g s = call_bind m (fun a => call_bind (f a) g) s.
Proof. unfold call_bind. by destruct (m s) as [[[]]|]. Qed.

Lemma call_bind_ok {E S A B} (r : result E A) a (f : A -> Call (E := E) (S := S) B) s : r = Ok a ->
  call_bind (call_result r) f s = f a s.
Proof. by intros ->. Qed.

(** The handler of a request, once its envelope reads: the nonce, then the rest. *)
Definition after_nonce (header : ProtectedHeader) (m : Call (E := Z * string) (S := AcmeState) AcmeResponse) : Prop :=
  exists rest, only_mints random rest /\ forall s, m s = (require_nonce header ;; rest)%call s.

Lemma opened_after_nonce req env header kind detail (rest : Envelope * ProtectedHeader -> Call AcmeResponse) :
  read_envelope req = Ok env -> parse_header env = Ok header -> (forall p, only_mints random (rest p)) ->
  after_nonce header (p <- open_request req kind detail ;; rest p)%call.
Proof.
  intros Hr Hh Hrest. unfold open_request.
  exists (call_bind (known <- call_get (verify_account env header) ;;
    if known : bool then call_ret (env, header) else call_fail (problem 401 (acme_error kind) (detail header)))%call rest).
  split.
  - only_mints.
  - intros s. by rewrite call_bind_assoc, (call_bind_ok _ _ _ _ Hr), call_bind_assoc, (call_bind_ok _ _ _ _ Hh), call_bind_assoc.
Qed.

(** The requests that need a nonce. *)
Definition guarded (req : AcmeRequest) : bool :=
  let path := aq_path req in
  bool_decide (aq_method req = Post) &&
  (String.eqb path "/new-account" || String.eqb path "/new-order" || starts_with "/authz/" path || starts_with "/chall/" path
   || starts_with "/finalize/" path || starts_with "/cert/" path || starts_with "/order/" path).

Lemma parsed_after_nonce req env header (rest : Envelope -> ProtectedHeader -> Call AcmeResponse) :
  read_envelope req = Ok env -> parse_header env = Ok header -> only_mints random (rest env header) ->
  after_nonce header (env <- call_result (read_envelope req) ;; header <- call_result (parse_header env) ;;
    require_nonce header ;; rest env header)%call.
Proof.
  intros Hr Hh Hrest. exists (rest env header). split; [done |].
  intros s. by rewrite (call_bind_ok _ _ _ _ Hr), (call_bind_ok _ _ _ _ Hh).
Qed.

Lemma route_after_nonce req env header : guarded req = true -> read_envelope req = Ok env -> parse_header env = Ok header ->
  (forall now s, exists e, acme_route random opts base_url now req s = Some (Err (problem 400 (acme_error "malformed") e), s)) \/
  (forall now, after_nonce header (acme_route random opts base_url now req)).
Proof.
  unfold guarded. intros [Hp Hpath]%andb_prop Hr Hh. unfold acme_route. rewrite Hp.
  assert (Hg : bool_decide (aq_method req = Get) = false) by (apply bool_decide_eq_true in Hp as ->; done). rewrite Hg. cbn [andb].
  destruct (String.eqb_spec (aq_path req) "/new-nonce") as [E|_]; [by rewrite E in Hpath |].
  destruct (String.eqb (aq_path req) "/new-account").
  { unfold handle_new_account. destruct (ph_jwk header) as [jwk|] eqn:Ej.
    - right. intros now. eexists. split; [|intros s; rewrite (call_bind_ok _ _ _ _ Hr), (call_bind_ok _ _ _ _ Hh), Ej; reflexivity]. only_mints.
    - left. intros now s. eexists. by rewrite (call_bind_ok _ _ _ _ Hr), (call_bind_ok _ _ _ _ Hh), Ej. }
  right. intros now.
  destruct (String.eqb _ "/new-order"); [apply (opened_after_nonce req env header); [done | done |]; intros [? ?]; only_mints |].
  destruct (starts_with "/authz/" _); [apply (opened_after_nonce req env header); [done | done |]; intros [? ?]; only_mints |].
  destruct (starts_with "/chall/" _); [apply (parsed_after_nonce req env header); [done | done |]; only_mints |].
  destruct (starts_with "/finalize/" _); [apply (opened_after_nonce req env header); [done | done |]; intros [? ?]; only_mints |].
  destruct (starts_with "/cert/" _); [apply (opened_after_nonce req env header); [done | done |]; intros [? ?]; only_mints |].
  destruct (starts_with "/order/" _); [apply (opened_after_nonce req env header); [done | done |]; intros [? ?]; only_mints |].
  done.
Qed.

Lemma handle_route now req s resp s' : acme_handle random opts base_url now req s = Some (resp, s') ->
  exists out, acme_route random opts base_url now req s = Some (out, s') /\
    forall st b, out = Err (st, b) -> ap_status resp = st.
Proof.
  unfold acme_handle. destruct (acme_route _ _ _ _ _ _) as [[[r|[st b]] s1]|]; [| |done]; intros [= <- <-]; eexists; (split; [done |]).
  - done.
  - by intros ? ? [= <- <-].
Qed.

(** With an unknown nonce nothing happens. *)
Lemma unknown_nonce now req env header s resp s' : guarded req = true -> read_envelope req = Ok env -> parse_header env = Ok header ->
  ph_nonce header ∉ ac_nonces s -> acme_handle random opts base_url now req s = Some (resp, s') -> s' = s /\ ap_status resp = 400.
Proof.
  intros Hg Hr Hh Hn E. apply handle_route in E as (out & E & Hst).
  destruct (route_after_nonce req env header Hg Hr Hh) as [Hm|Hafter].
  - destruct (Hm now s) as [e Em]. rewrite Em in E. injection E as <- <-. split; [done |]. by eapply Hst.
  - destruct (Hafter now) as (rest & _ & Ha). rewrite Ha in E. apply call_bind_inv in E as [(e & E & ->)|([] & s1 & E & _)].
    + unfold require_nonce, consume_nonce, call_bind in E. rewrite bool_decide_eq_false_2 in E by done.
      injection E as <- <-. split; [by apply removed_absent | by eapply Hst].
    + apply require_nonce_inv in E as (_ & [[_ ?]|[[e [=]] _]]). done.
Qed.

(** What a request leaves of its nonce. *)
Lemma nonce_spent now req env header s resp s' : guarded req = true -> read_envelope req = Ok env -> parse_header env = Ok header ->
  acme_handle random opts base_url now req s = Some (resp, s') ->
  (s' = s /\ forall now' s0 resp' s0', acme_handle random opts base_url now' req s0 = Some (resp', s0') -> s0' = s0 /\ ap_status resp' = 400) \/
  forall x, x ∈ ac_nonces s' -> x ∈ ac_nonces s /\ x <> ph_nonce header \/
    exists j, (ac_drawn s <= j < ac_drawn s')%nat /\ x = encoded random j 16.
Proof.
  intros Hg Hr Hh E. apply handle_route in E as (out & E & _).
  destruct (route_after_nonce req env header Hg Hr Hh) as [Hm|Hafter].
  - left. destruct (Hm now s) as [e Em]. rewrite Em in E. injection E as _ <-. split; [done |].
    intros now' s0 resp' s0' E0. apply handle_route in E0 as (out0 & E0 & Hst).
    destruct (Hm now' s0) as [e' Em']. rewrite Em' in E0. injection E0 as <- <-. split; [done |]. by eapply Hst.
  - right. destruct (Hafter now) as (rest & Hrest & Ha). rewrite Ha in E. apply call_bind_inv in E as [(e & E & _)|([] & s1 & E1 & E)].
    + apply require_nonce_inv in E as (-> & _). intros x Hx. left. cbn in Hx. set_solver.
    + apply require_nonce_inv in E1 as (-> & _). apply Hrest in E as [_ E]. intros x Hx. apply E in Hx as [Hx|Hx].
      * left. cbn in Hx. set_solver.
      * right. exact Hx.
Qed.

(** A request handled; and requests handled after. *)
Definition acme_step (s s' : AcmeState) : Prop :=
  exists now req resp, acme_handle random opts base_url now req s = Some (resp, s').

Definition drawn_nonces (s : AcmeState) : Prop :=
  forall x, x ∈ ac_nonces s -> exists i, (i < ac_drawn s)%nat /\ x = encoded random i 16.

Lemma change_nonces req s s' : acme_change random opts base_url req s s' ->
  forall x, x ∈ ac_nonces s' -> x ∈ ac_nonces s \/ exists j, (ac_drawn s <= j < ac_drawn s')%nat /\ x = encoded random j 16.
Proof.
  destruct 1; intros x Hx; cbn in Hx |- *; try (left; set_solver).
  all: apply elem_of_union in Hx as [->%elem_of_singleton|Hx]; [right; eexists; split; [|reflexivity]; lia | left; set_solver].
Qed.

Lemma run_nonces tr s : acme_run random opts base_url tr s -> drawn_nonces s.
Proof.
  induction 1 as [|tr now req s resp s' _ IH Hh]; [by intros x Hx%not_elem_of_empty |].
  apply acme_handle_change in Hh. pose proof (acme_change_drawn _ _ _ _ _ _ Hh) as Hd. intros x Hx.
  apply (change_nonces _ _ _ Hh) in Hx as [Hx|(j & Hj & ->)]; [|exists j; split; [lia | done]].
  apply IH in Hx as (i & Hi & ->). exists i. split; [lia | done].
Qed.

Lemma steps_drawn s s' : rtc acme_step s s' -> (ac_drawn s <= ac_drawn s')%nat.
Proof.
  induction 1 as [|a b c (n & q & r & Hab) _ IH]; [done |]. apply acme_handle_change, acme_change_drawn in Hab. lia.
Qed.

(** A nonce drawn before that is gone stays gone. *)
Lemma spent_stays i s s' : rtc acme_step s s' -> no_repeats random (ac_drawn s') -> (i < ac_drawn s)%nat ->
  encoded random i 16 ∉ ac_nonces s -> (i < ac_drawn s')%nat /\ encoded random i 16 ∉ ac_nonces s'.
Proof.
  induction 1 as [s|s s1 s2 (now & req & resp & Hh) Hrun IH]; intros Hn Hi Hgone; [done |].
  apply acme_handle_change in Hh. pose proof (acme_change_drawn _ _ _ _ _ _ Hh) as Hd.
  pose proof (steps_drawn _ _ Hrun) as Hd2.
  apply IH; [done | lia |]. intros Hx. apply (change_nonces _ _ _ Hh) in Hx as [Hx|(j & Hj & E)]; [done |].
  apply Hn in E; lia.
Qed.

(** C7: a nonce opens one request.  Once a request that needs a nonce was
    handled with a nonce the server knew, the same request answers 400 and
    changes nothing, whatever was handled in between, for as long as the
    random draws of the server do not repeat. *)
Theorem nonce_single_use tr now req env header s resp s1 s2 now' resp' s' : acme_run random opts base_url tr s ->
  guarded req = true -> opened req env header s -> acme_handle random opts base_url now req s = Some (resp, s1) ->
  rtc acme_step s1 s2 -> no_repeats random (ac_drawn s2) ->
  acme_handle random opts base_url now' req s2 = Some (resp', s') -> s' = s2 /\ ap_status resp' = 400.
Proof.
  intros Hrun Hg (Hr & Hh & Hknown) E Hmore Hn E'.
  destruct (nonce_spent _ _ _ _ _ _ _ Hg Hr Hh E) as [[_ Hm]|Hgone]; [by eapply Hm |].
  apply run_nonces in Hrun. destruct (Hrun _ Hknown) as (i & Hi & Ei).
  pose proof (acme_change_drawn _ _ _ _ _ _ (acme_handle_change _ _ _ _ _ _ _ _ E)) as Hd.
  eapply unknown_nonce; [done | exact Hr | exact Hh | | exact E']. rewrite Ei.
  pose proof (steps_drawn _ _ Hmore) as Hn1.
  apply (spent_stays i s1 s2 Hmore Hn); [lia |]. intros Hx. apply Hgone in Hx as [[_ Hx]|(j & Hj & Ej)]; [by rewrite Ei in Hx |].
  apply Hn in Ej; lia.
Qed.
End nonces.
