(* ===== verification/NipAcmeFlow.v ===== *)
(** * NipAcmeFlow: the client gets its certificate

    The client of NipAcmeClient run against the server of NipAcme: a run of
    the agent-01 flow ends with the certificate, from whatever state the
    server is in.  What the crates do is stated as laws. *)

From S2P Require Import Prelude Calls RustStr Json CoreCache NipFrames NipDer NipX509 NipSigner NipX509Builder NipAcme NipAcmeClient NipAcmeSpec.
Local Open Scope Z_scope.

(** The documented behaviour of serde on the messages, of the parsers and of
    the encodings. *)
Class AcmeLaws `{AcmeSerde} `{SigningLaws} `{!Rcgen} `{CsrParser} : Prop := {
  header_back h : exists b, header_to_vec h = Ok b /\ Forall u8_range b /\ header_from_slice b = Ok h;
  envelope_back e : exists b, envelope_to_vec e = Ok b /\ envelope_from_str (of_bytes b) = Ok e;
  new_account_written p : exists b, new_account_to_vec p = Ok b;
  new_order_back p : exists b, new_order_to_vec p = Ok b /\ b <> [] /\ Forall u8_range b /\ new_order_from_slice b = Ok p;
  respond_back p : exists b, respond_to_vec p = Ok b /\ b <> [] /\ Forall u8_range b /\ respond_from_slice b = Ok p;
  finalize_back p : exists b, finalize_to_vec p = Ok b /\ b <> [] /\ Forall u8_range b /\ finalize_from_slice b = Ok p;
  b64_nothing : b64_url_no_pad "" = Ok [];
  sig_slice_back s : sig_from_slice (sig_to_bytes s) = Ok s;
  csr_back p sk k der : dalek_to_rcgen_keypair sk = Ok k -> serialize_request p k = Ok der ->
    der <> [] /\ Forall u8_range der /\
    csr_from_der der = Ok (mkCsr (map Some (cp_common_names p)) (key_to_bytes (verifying_key sk)))
}.

(** The responses of this server read back. *)
Class ResponseLaws {D : Digests} `{AcmeSerde} : Prop := {
  directory_back a b c : directory_from_str (json_to_string (directory_to_value (mkDirectory a b c None None None)))
    = Ok (mkDirectory a b c None None None);
  order_back st i a f c : order_from_str (json_to_string (order_to_value (mkOrder st None [i] [a] f c None)))
    = Ok (mkOrder st None [i] [a] f c None);
  authorization_back st i t u cst tok :
    authorization_from_str (json_to_string (authorization_to_value
      (mkAuthorization st None i [mkChallenge t u cst tok None None])))
    = Ok (mkAuthorization st None i [mkChallenge t u cst tok None None])
}.

Section flow.
Context {D : Digests} `{AcmeLaws} `{!ResponseLaws} `{SystemTimes} `{StatusText}.
Context (random : nat -> nat -> list Z) (opts : AcmeServerOptions) (base_url : string).
Context (clock : AcmeState -> Z).

(** The network: a request reaches the server under its path. *)
Definition deliver (req : HttpRequest) (s : AcmeState) : result string HttpResponse * AcmeState :=
  match strip_prefix base_url (hq_url req) with
  | None => (Err "no such host", s)
  | Some path =>
    match acme_handle random opts base_url (clock s) (mkAcmeRequest (hq_method req) path (Ok (of_bytes (hq_body req)))) s with
    | None => (Err "connection closed", s)
    | Some (resp, s') => (Ok (mkHttpResponse (ap_status resp) (ap_headers resp) (Ok (ap_body resp))), s')
    end
  end.

(** ** Envelopes *)

Lemma encode_nonempty b : b <> [] -> Forall u8_range b -> is_empty (b64_url_no_pad_encode b) = false.
Proof.
  intros Hb Hu. destruct (b64_url_no_pad_encode b) eqn:E; [|done]. exfalso. apply Hb.
  pose proof (b64_back b Hu) as Hbk. rewrite E, b64_nothing in Hbk. by injection Hbk as <-.
Qed.

Lemma b64u_back b : Forall u8_range b -> b64u_decode (b64_url_no_pad_encode b) = Ok b.
Proof. intros Hu. unfold b64u_decode. by rewrite b64_back. Qed.

(** What the client signs, the server opens. *)
Lemma signed_envelope h payload sk : (forall r, payload = Some r -> exists b, r = Ok b) ->
  exists env, jws_sign h payload sk = Ok env /\ parse_header env = Ok h /\ is_ok (jws_verify env (verifying_key sk)) = true /\
    env_payload env = match payload with Some (Ok b) => b64_url_no_pad_encode b | _ => "" end.
Proof.
  intros Hp. destruct (header_back h) as (hb & Eh & Hu & Bh).
  assert (Hpay : exists p, match payload with
      | Some r => bytes ← map_err (fun e => "marshal payload: " +:+ e) r; Ok (b64_url_no_pad_encode bytes)
      | None => Ok "" end = Ok (E := string) p /\ p = match payload with Some (Ok b) => b64_url_no_pad_encode b | _ => "" end).
  { destruct payload as [r|]; [|by exists ""]. destruct (Hp r eq_refl) as [b ->]. by eexists. }
  destruct Hpay as (p & Ep & ->). unfold jws_sign. rewrite Eh. cbn [map_err mbind result_bind]. rewrite Ep. cbn [mbind result_bind].
  eexists. split; [reflexivity |]. unfold parse_header, jws_verify. cbn [env_protected env_payload env_signature].
  rewrite !b64u_back by (done || apply sig_bytes_u8). cbn. rewrite sig_slice_back. cbn. rewrite sign_verifies. cbn.
  by rewrite Bh.
Qed.

Lemma jwk_back (vk : VerifyingKey) : public_key_from_jwk (jwk_from_public_key (key_to_bytes vk)) = Ok vk.
Proof.
  unfold public_key_from_jwk, jwk_from_public_key. cbn [jwk_kty jwk_crv jwk_x]. rewrite !String.eqb_refl. cbn [negb orb].
  rewrite b64u_back by apply key_bytes_u8. cbn. by rewrite key_bytes_len, key_bytes_back.
Qed.

(** ** One exchange *)

Context (sk : SigningKey).

(** The server answers [resp] to a POST of an envelope with this header and
    payload, signed by the client. *)
Definition serves (path : string) (h : ProtectedHeader) (payload : string) (s : AcmeState) (resp : AcmeResponse) (s' : AcmeState) : Prop :=
  forall req env, aq_method req = Post -> aq_path req = path -> read_envelope req = Ok env -> parse_header env = Ok h ->
    is_ok (jws_verify env (verifying_key sk)) = true -> env_payload env = payload ->
    acme_handle random opts base_url (clock s) req s = Some (resp, s').

Definition http_of (r : AcmeResponse) : HttpResponse := mkHttpResponse (ap_status r) (ap_headers r) (Ok (ap_body r)).
Definition payload_text (payload : option (list Z)) : string :=
  match payload with Some b => b64_url_no_pad_encode b | None => "" end.

Lemma call_bind_some {E S A B} (m : Call (E := E) (S := S) A) (f : A -> Call B) s a s1 : m s = Some (Ok a, s1) ->
  call_bind m f s = f a s1.
Proof. unfold call_bind. by intros ->. Qed.

Lemma exchange {A} what path jwk kid (payload : option (list Z)) c s n resp s' (k : HttpResponse -> Call (S := AcmeClient * AcmeState) A) :
  cl_signing_key c = sk -> cl_last_nonce c = Some n ->
  serves path (mkHeader ALG_EDDSA n (base_url +:+ path) jwk kid) (payload_text payload) s resp s' ->
  is_success (ap_status resp) = true ->
  (env <- client_envelope (base_url +:+ path) jwk kid (Ok <$> payload) ;;
   r <- post_jose deliver (base_url +:+ path) env ;;
   require_success what r ;; k r)%call (c, s) = k (http_of resp) (c, s').
Proof.
  intros Hsk Hn Hserve Hok. set (h := mkHeader _ _ _ _ _) in Hserve.
  destruct (signed_envelope h (Ok <$> payload) sk) as (env & Ee & Eh & Ev & Ep).
  { intros r Hr. destruct payload as [b|]; [|done]. injection Hr as <-. by exists b. }
  destruct (envelope_back env) as (b & Eb & Er).
  assert (Hclient : client_envelope (base_url +:+ path) jwk kid (Ok <$> payload) (c, s) = Some (Ok env, (c, s))).
  { unfold client_envelope, consume_last_nonce, client_get, call_bind, call_get, call_result. cbn [fst]. rewrite Hn, Hsk.
    cbn [ok_or]. fold h. by rewrite Ee. }
  rewrite (call_bind_some _ _ _ _ _ Hclient).
  assert (Hpost : post_jose deliver (base_url +:+ path) env (c, s) = Some (Ok (http_of resp), (c, s'))).
  { unfold post_jose. rewrite (call_bind_ok _ b) by by rewrite Eb. unfold send, deliver. cbn [hq_url hq_method hq_body fst snd].
    rewrite strip_prefix_app. rewrite (Hserve (mkAcmeRequest Post path (Ok (of_bytes b))) env); try done.
    - unfold read_envelope. cbn. by rewrite Er.
    - rewrite Ep. by destruct payload. }
  rewrite (call_bind_some _ _ _ _ _ Hpost). unfold require_success. cbn [hp_status http_of]. by rewrite Hok.
Qed.

Lemma open_ok req env header pk kind detail s : read_envelope req = Ok env -> parse_header env = Ok header ->
  ph_nonce header ∈ ac_nonces s -> (exists kid, ph_kid header = Some kid /\ account_key s kid pk) ->
  is_ok (jws_verify env pk) = true ->
  open_request req kind detail s = Some (Ok (env, header), consumed header s).
Proof.
  intros Hr Hh Hn (kid & Hk & jwk & Hj & Hp) Hv. unfold open_request.
  rewrite (call_bind_ok _ _ _ _ Hr), (call_bind_ok _ _ _ _ Hh).
  unfold require_nonce, consume_nonce, call_bind, call_get, call_ret. rewrite bool_decide_eq_true_2 by done.
  assert (Ev : verify_account env header (consumed header s) = true).
  { unfold verify_account. rewrite Hk. cbn. by rewrite Hj, Hp. }
  unfold consumed in Ev. by rewrite Ev.
Qed.

(** ** The server, stage by stage *)

Definition b64_char (c : Z) : bool :=
  ((48 <=? c) && (c <=? 57)) || ((65 <=? c) && (c <=? 90)) || ((97 <=? c) && (c <=? 122)) || (c =? 45) || (c =? 95).
Context (Hplain : forall i n, forallb b64_char (bytes_of (encoded random i n)) = true).
Context (Hbase : forallb visible_ascii (bytes_of base_url) = true).

Lemma trim_plain p i n : trim_start_matches (String "/" p) (String "/" p +:+ encoded random i n) = encoded random i n.
Proof.
  unfold trim_start_matches. set (id := encoded random i n).
  assert (Hno : forall k, trim_start_matches_n k (String "/" p) id = id).
  { intros [|k]; [done |]. cbn [trim_start_matches_n]. destruct (strip_prefix (String "/" p) id) as [r|] eqn:E; [|done].
    apply strip_prefix_spec in E. pose proof (Hplain i n) as Hp. fold id in Hp. by rewrite E in Hp. }
  assert (Hs : forall k, trim_start_matches_n (S k) (String "/" p) (String "/" p +:+ id)
    = match strip_prefix (String "/" p) (String "/" p +:+ id) with
      | Some rest => trim_start_matches_n k (String "/" p) rest | None => String "/" p +:+ id end) by done.
  destruct (String.length (String "/" p +:+ id)) as [|k] eqn:El; [done |]. by rewrite Hs, strip_prefix_app, Hno.
Qed.

Lemma encoded_visible i n : forallb visible_ascii (bytes_of (encoded random i n)) = true.
Proof.
  pose proof (Hplain i n) as Hp. rewrite forallb_forall in Hp |- *. intros c Hc. apply Hp in Hc.
  unfold b64_char, visible_ascii in *. lia.
Qed.

Lemma handled now req s r s' : acme_route random opts base_url now req s = Some (Ok r, s') ->
  acme_handle random opts base_url now req s = Some (r, s').
Proof. unfold acme_handle. by intros ->. Qed.

Lemma nonce_ok header s : ph_nonce header ∈ ac_nonces s -> require_nonce header s = Some (Ok tt, consumed header s).
Proof.
  intros Hn. unfold require_nonce, consume_nonce, call_bind. by rewrite bool_decide_eq_true_2.
Qed.

Lemma minted_nonce s : encoded random (ac_drawn s) 16 ∈ ac_nonces (minted random s).
Proof. cbn. set_solver. Qed.

Lemma serve_account n s u b : n ∈ ac_nonces s ->
  let url := base_url +:+ "/account/" +:+ encoded random (ac_drawn s) 8 in
  let jwk := jwk_from_public_key (key_to_bytes (verifying_key sk)) in
  exists s' n', serves "/new-account" (mkHeader ALG_EDDSA n u (Some jwk) None) b s
    (json_response 201 (VObject [("status", VString STATUS_VALID)]) [("Location", url); ("Replay-Nonce", encoded random n' 16)]) s' /\
    encoded random n' 16 ∈ ac_nonces s' /\ account_key s' url (verifying_key sk).
Proof.
  intros Hn url jwk.
  exists (minted random (set_jwks (insert url jwk) (draw (consumed (mkHeader ALG_EDDSA n u (Some jwk) None) s)))), (S (ac_drawn s)).
  split; [|split].
  - intros [m p body] env Hm Hp Hr Hh Hv _. cbn in Hm, Hp. subst m p. apply handled.
    change (acme_route _ _ _ _ _) with (handle_new_account random base_url (mkAcmeRequest Post "/new-account" body)).
    unfold handle_new_account. rewrite (call_bind_ok _ _ _ _ Hr), (call_bind_ok _ _ _ _ Hh). cbn [ph_jwk].
    rewrite (call_bind_some _ _ _ _ _ (nonce_ok (mkHeader ALG_EDDSA n u (Some jwk) None) s Hn)). unfold malformed.
    rewrite (call_bind_ok _ (verifying_key sk)) by (subst jwk; by rewrite jwk_back). by rewrite Hv.
  - apply minted_nonce.
  - exists jwk. split; [cbn; by rewrite lookup_insert_eq | apply jwk_back].
Qed.

(** A known account: the header of its requests. *)
Definition account_header (n url kid : string) : ProtectedHeader := mkHeader ALG_EDDSA n url None (Some kid).

Lemma serve_known {A} (g : Envelope * ProtectedHeader -> Call A) req env n u kid kind detail s :
  read_envelope req = Ok env -> parse_header env = Ok (account_header n u kid) ->
  is_ok (jws_verify env (verifying_key sk)) = true -> n ∈ ac_nonces s -> account_key s kid (verifying_key sk) ->
  (opened <- open_request req kind detail ;; g opened)%call s
  = g (env, account_header n u kid) (consumed (account_header n u kid) s).
Proof.
  intros Hr Hh Hv Hn Hk. apply call_bind_some.
  apply (open_ok req env (account_header n u kid) (verifying_key sk)); try done. by exists kid.
Qed.

Definition nid_identifier (nid : string) : Identifier := mkIdentifier IDENTIFIER_TYPE_NID nid.

Lemma serve_order n s u kid nid b : n ∈ ac_nonces s -> account_key s kid (verifying_key sk) -> b <> [] -> Forall u8_range b ->
  new_order_from_slice b = Ok (mkNewOrder [nid_identifier nid] None None) ->
  let d := ac_drawn s in
  serves "/new-order" (account_header n u kid) (b64_url_no_pad_encode b) s
    (json_response 201 (order_to_value (mkOrder STATUS_PENDING None [nid_identifier nid] [base_url +:+ "/authz/" +:+ encoded random (S d) 8]
        (base_url +:+ "/finalize/" +:+ encoded random d 8) None None))
       [("Location", base_url +:+ "/order/" +:+ encoded random d 8); ("Replay-Nonce", encoded random (4 + d)%nat 16)])
    (minted random (ordered random base_url (nid_identifier nid) kid (consumed (account_header n u kid) s))).
Proof.
  intros Hn Hk Hb Hu Hback d [m p body] env Hm Hp Hr Hh Hv Hpay. cbn in Hm, Hp. subst m p. apply handled.
  change (acme_route _ _ _ _ _) with (handle_new_order random base_url (mkAcmeRequest Post "/new-order" body)).
  unfold handle_new_order. rewrite (serve_known _ _ env n u kid) by done.
  unfold malformed. rewrite (call_bind_ok _ (Some (mkNewOrder [nid_identifier nid] None None))).
  2:{ unfold decode_payload. rewrite Hpay, encode_nonempty, b64u_back by done. cbn. by rewrite Hback. }
  reflexivity.
Qed.

Definition answered (status : Z) (v : Value) (i : nat) : AcmeResponse :=
  json_response status v [("Replay-Nonce", encoded random i 16)].

Lemma owner_ok url what s : require_owner url url what s = Some (Ok tt, s).
Proof. unfold require_owner. by rewrite String.eqb_refl. Qed.

Lemma serve_authz n i u kid ident ch s : n ∈ ac_nonces s -> account_key s kid (verifying_key sk) ->
  ac_authzs s !! encoded random i 8 = Some (pending_authz ident (chs_id ch) kid) ->
  ac_challenges s !! chs_id ch = Some ch ->
  let h := account_header n u kid in
  serves ("/authz/" +:+ encoded random i 8) h "" s
    (answered 200 (authorization_to_value (mkAuthorization STATUS_PENDING None ident [show_challenge base_url ch])) (ac_drawn s))
    (minted random (consumed h s)).
Proof.
  intros Hn Hk Ha Hc h [m p body] env Hm Hp Hr Hh Hv Hpay. cbn in Hm, Hp. subst m p. apply handled.
  change (acme_route _ _ _ _ _) with (handle_authz random base_url (mkAcmeRequest Post ("/authz/" +:+ encoded random i 8) body)).
  unfold handle_authz. rewrite (serve_known _ _ env n u kid) by done. cbn [aq_path].
  rewrite (trim_plain "authz/"). unfold require_found.
  unfold call_bind at 1. cbn [call_get]. cbn [ac_authzs consumed set_nonces]. rewrite Ha.
  rewrite (call_bind_ok _ (pending_authz ident (chs_id ch) kid)) by done.
  rewrite (call_bind_some _ _ _ _ _ (owner_ok kid "authorization" _)).
  unfold call_bind at 1. cbn [call_get az_challenge_ids pending_authz omap list_omap ac_challenges consumed set_nonces]. by rewrite Hc.
Qed.

Definition agent_answer (token : string) : ChallengeRespondPayload :=
  mkRespond (b64_url_no_pad_encode (sig_to_bytes (ed_sign sk (bytes_of token)))).

Lemma serve_challenge n i u kid token authz_id b s : n ∈ ac_nonces s -> account_key s kid (verifying_key sk) ->
  let ch := pending_challenge (encoded random i 8) token authz_id kid in
  ac_challenges s !! encoded random i 8 = Some ch -> b <> [] -> Forall u8_range b ->
  respond_from_slice b = Ok (agent_answer token) ->
  let h := account_header n u kid in
  serves ("/chall/" +:+ encoded random i 8) h (b64_url_no_pad_encode b) s
    (answered 200 (challenge_to_value (show_challenge base_url (challenge_status STATUS_VALID ch))) (ac_drawn s))
    (minted random (accept_challenge ch (consumed h s))).
Proof.
  intros Hn Hk ch Hc Hb Hu Hback h [m p body] env Hm Hp Hr Hh Hv Hpay. cbn in Hm, Hp. subst m p. apply handled.
  change (acme_route _ _ _ _ _) with (handle_challenge random base_url (mkAcmeRequest Post ("/chall/" +:+ encoded random i 8) body)).
  unfold handle_challenge. rewrite (call_bind_ok _ _ _ _ Hr), (call_bind_ok _ _ _ _ Hh).
  rewrite (call_bind_some _ _ _ _ _ (nonce_ok h s Hn)). cbn [aq_path].
  destruct Hk as (jwk & Hj & Hpk). unfold call_bind at 1. cbn [call_get].
  change (kid_of h) with kid. cbn [ac_account_jwks consumed set_nonces]. rewrite Hj.
  rewrite (call_bind_ok _ jwk) by done. unfold malformed. rewrite (call_bind_ok _ (verifying_key sk)) by by rewrite Hpk.
  rewrite Hv. cbn [negb]. rewrite (trim_plain "chall/"). unfold require_found.
  unfold call_bind at 1. cbn [call_get ac_challenges consumed set_nonces]. rewrite Hc. rewrite (call_bind_ok _ ch) by done.
  rewrite (call_bind_some _ _ _ _ _ (owner_ok kid "challenge" _)).
  rewrite (call_bind_ok _ (Some (agent_answer token))).
  2:{ unfold decode_payload. rewrite Hpay, encode_nonempty, b64u_back by done. cbn. by rewrite Hback. }
  cbn [default fmap option_fmap option_map cr_agent_signature agent_answer id].
  assert (Hs : sig_to_bytes (ed_sign sk (bytes_of token)) <> []).
  { intros E. pose proof (sig_bytes_len (ed_sign sk (bytes_of token))) as Hl. by rewrite E in Hl. }
  rewrite encode_nonempty, b64u_back by (done || apply sig_bytes_u8). cbn [mbind].
  rewrite sig_slice_back, sign_verifies by done. cbn [is_ok negb].
  unfold call_bind at 1. cbn [call_get chs_id ch pending_challenge ac_challenges consumed set_nonces]. by rewrite Hc.
Qed.

Lemma check_own_csr nid der : build_csr sk nid = Ok der ->
  der <> [] /\ Forall u8_range der /\
  check_csr nid (b64_url_no_pad_encode der) = Ok (key_to_bytes (verifying_key sk)).
Proof.
  unfold build_csr. intros E.
  apply result_bind_Ok in E as (k & Ek%map_err_Ok & E). apply result_bind_Ok in E as (params & Ep%map_err_Ok & E).
  apply result_bind_Ok in E as (uri & Eu & E%map_err_Ok).
  destruct (csr_back _ _ _ _ Ek E) as (Hd & Hu & Hb). split; [done |]. split; [done |].
  unfold check_csr. rewrite b64u_back by done. cbn [map_err mbind result_bind]. rewrite Hb. cbn [map_err mbind result_bind csr_common_names csr_public_key].
  rewrite bool_decide_eq_true_2 by done. rewrite key_bytes_len. cbn [negb Nat.eqb]. by rewrite key_bytes_back.
Qed.

Definition issued_pem (nid : string) (now : Z) (i : nat) (pem : string) : Prop :=
  exists nb na leaf, system_time_add now (- seconds_60) = Some nb /\ system_time_add now (ao_cert_validity opts) = Some na /\
    issue_leaf (acme_leaf_options opts nid (key_to_bytes (verifying_key sk)) nb na (random i 20)) = Ok leaf /\
    pem = cert_pem leaf +:+ cert_pem (ao_ca_root_cert opts).

Lemma serve_finalize n i u kid nid os der b pem s : n ∈ ac_nonces s -> account_key s kid (verifying_key sk) ->
  ac_orders s !! encoded random i 8 = Some os -> os_identifier os = nid_identifier nid -> os_status os = STATUS_READY ->
  os_account_url os = kid -> b <> [] -> Forall u8_range b ->
  build_csr sk nid = Ok der -> finalize_from_slice b = Ok (mkFinalize (b64_url_no_pad_encode der)) ->
  issued_pem nid (clock s) (ac_drawn s) pem ->
  let h := account_header n u kid in
  let cert_url := base_url +:+ "/cert/" +:+ encoded random (S (ac_drawn s)) 8 in
  serves ("/finalize/" +:+ encoded random i 8) h (b64_url_no_pad_encode b) s
    (answered 200 (order_to_value (show_order base_url (order_certified cert_url os))) (S (S (ac_drawn s))))
    (minted random (certified random base_url (encoded random i 8) pem (consumed h s))).
Proof.
  intros Hn Hk Ho Hi Hst Hacc Hb Hu Hder Hback (nb & na & leaf & Enb & Ena & El & ->) h cert_url [m p body] env Hm Hp Hr Hh Hv Hpay.
  cbn in Hm, Hp. subst m p. apply handled.
  change (acme_route _ _ _ _ _) with (handle_finalize random opts base_url (clock s) (mkAcmeRequest Post ("/finalize/" +:+ encoded random i 8) body)).
  destruct (check_own_csr nid der Hder) as (Hd & Hdu & Hcsr).
  unfold handle_finalize. rewrite (serve_known _ _ env n u kid) by done. cbn [aq_path].
  rewrite (trim_plain "finalize/"). unfold require_found, malformed.
  unfold call_bind at 1. cbn [call_get ac_orders consumed set_nonces]. rewrite Ho. rewrite (call_bind_ok _ os) by done.
  change (kid_of (account_header n u kid)) with kid. rewrite Hacc.
  rewrite (call_bind_some _ _ _ _ _ (owner_ok kid "order" _)). rewrite Hst, String.eqb_refl. cbn [negb].
  rewrite (call_bind_ok _ (Some (mkFinalize (b64_url_no_pad_encode der)))).
  2:{ unfold decode_payload. rewrite Hpay, encode_nonempty, b64u_back by done. cbn. by rewrite Hback. }
  cbn [default fmap option_fmap option_map fp_csr id]. rewrite encode_nonempty by done. rewrite Hi. cbn [nid_identifier ident_value].
  rewrite (call_bind_ok _ _ _ _ Hcsr). unfold call_panic. rewrite Enb, Ena. unfold call_bind, call_ret, random_bytes.
  cbn [ac_drawn consumed set_nonces]. rewrite El. done.
Qed.

Lemma serve_cert n i u kid pem s : n ∈ ac_nonces s -> account_key s kid (verifying_key sk) ->
  ac_certs s !! encoded random i 8 = Some pem ->
  let h := account_header n u kid in
  serves ("/cert/" +:+ encoded random i 8) h "" s
    (mkAcmeResponse 200 pem [("Content-Type", CONTENT_TYPE_PEM_CERT); ("Replay-Nonce", encoded random (ac_drawn s) 16)])
    (minted random (consumed h s)).
Proof.
  intros Hn Hk Hc h [m p body] env Hm Hp Hr Hh Hv _. cbn in Hm, Hp. subst m p. apply handled.
  change (acme_route _ _ _ _ _) with (handle_cert random (mkAcmeRequest Post ("/cert/" +:+ encoded random i 8) body)).
  unfold handle_cert. rewrite (serve_known _ _ env n u kid) by done. cbn [aq_path].
  rewrite (trim_plain "cert/"). unfold require_found. unfold call_bind at 1. cbn [call_get ac_certs consumed set_nonces]. by rewrite Hc.
Qed.

(** ** The client, stage by stage *)

Lemma visible_header name (r : HttpResponse) v : snd <$> List.find (fun h => eq_ignore_ascii_case (fst h) name) (hp_headers r) = Some v ->
  forallb visible_ascii (bytes_of v) = true -> response_header name r = Some v.
Proof. unfold response_header. intros -> Hv. cbn [mbind option_bind]. by rewrite Hv. Qed.

Lemma nonce_header i st v : response_header "Replay-Nonce" (http_of (answered st v i)) = Some (encoded random i 16).
Proof. apply (visible_header "Replay-Nonce"); [done | apply encoded_visible]. Qed.

Lemma located_nonce i st v u :
  response_header "Replay-Nonce" (http_of (json_response st v [("Location", u); ("Replay-Nonce", encoded random i 16)]))
  = Some (encoded random i 16).
Proof. apply (visible_header "Replay-Nonce"); [done | apply encoded_visible]. Qed.

Lemma pem_nonce i pem :
  response_header "Replay-Nonce" (http_of (mkAcmeResponse 200 pem
    [("Content-Type", CONTENT_TYPE_PEM_CERT); ("Replay-Nonce", encoded random i 16)])) = Some (encoded random i 16).
Proof. apply (visible_header "Replay-Nonce"); [done | apply encoded_visible]. Qed.

Lemma capture_some r n (c : AcmeClient) (s : AcmeState) : response_header "Replay-Nonce" r = Some n ->
  capture_nonce r (c, s) = Some (Ok tt, (set_last_nonce n c, s)).
Proof. unfold capture_nonce. by intros ->. Qed.

(** The client has the directory, the account [kid], and the fresh nonce [n]. *)
Definition client_ready (kid n : string) (c : AcmeClient) (s : AcmeState) : Prop :=
  cl_signing_key c = sk /\ cl_directory c = Some (directory base_url) /\ cl_account_url c = Some kid /\
  cl_last_nonce c = Some n /\ n ∈ ac_nonces s /\ account_key s kid (verifying_key sk).

Lemma ready_next kid n c s n' s' : client_ready kid n c s -> n' ∈ ac_nonces s' ->
  ac_account_jwks s' = ac_account_jwks s -> client_ready kid n' (set_last_nonce n' c) s'.
Proof.
  intros (Hs & Hd & Ha & _ & _ & Hk) Hn Hj. repeat split; try done. unfold account_key. by rewrite Hj.
Qed.

(** A stage of a known account: the exchange, and the nonce of the answer. *)
Lemma known_exchange {A} what path kid n (payload : option (list Z)) c s resp s' n' (k : HttpResponse -> Call (S := AcmeClient * AcmeState) A) :
  client_ready kid n c s ->
  serves path (account_header n (base_url +:+ path) kid) (payload_text payload) s resp s' ->
  is_success (ap_status resp) = true -> response_header "Replay-Nonce" (http_of resp) = Some n' ->
  (kid <- client_get cl_account_url ;;
   env <- client_envelope (base_url +:+ path) None kid (Ok <$> payload) ;;
   r <- post_jose deliver (base_url +:+ path) env ;;
   require_success what r ;; capture_nonce r ;; k r)%call (c, s) = k (http_of resp) (set_last_nonce n' c, s').
Proof.
  intros (Hs & _ & Ha & Hn & _ & _) Hserve Hok Hresp. unfold call_bind at 1. unfold client_get at 1, call_get. cbn [fst]. rewrite Ha.
  rewrite (exchange what path None (Some kid) payload c s n resp s') by done.
  by rewrite (call_bind_some _ _ _ _ _ (capture_some _ _ _ _ Hresp)).
Qed.

Lemma send_delivers what m path body c s resp s' :
  acme_handle random opts base_url (clock s) (mkAcmeRequest m path (Ok (of_bytes body))) s = Some (resp, s') ->
  send deliver what (mkHttpRequest m (base_url +:+ path) body) (c, s) = Some (Ok (http_of resp), (c, s')).
Proof. intros Hh. unfold send, deliver. cbn [hq_url hq_method hq_body fst snd]. by rewrite strip_prefix_app, Hh. Qed.

Lemma success_ok what r (s : AcmeClient * AcmeState) : is_success (hp_status r) = true ->
  require_success what r s = Some (Ok tt, s).
Proof. unfold require_success. by intros ->. Qed.

Lemma directory_stage s : exists c,
  ensure_directory deliver (acme_client_new (directory_url base_url) sk, s) = Some (Ok tt, (c, minted random s)) /\
  cl_signing_key c = sk /\ cl_verifying_key c = verifying_key sk /\ cl_directory c = Some (directory base_url) /\
  cl_account_url c = None /\ cl_last_nonce c = Some (encoded random (ac_drawn s) 16).
Proof.
  eexists. split.
  - unfold ensure_directory. unfold call_bind at 1. cbn [client_get call_get fst acme_client_new cl_directory].
    unfold call_bind at 1. cbn [client_get call_get fst acme_client_new cl_directory_url]. unfold directory_url.
    erewrite call_bind_some; [|by apply send_delivers].
    erewrite call_bind_some; [|by apply success_ok].
    unfold read_json. rewrite (call_bind_ok _ (directory base_url)).
    2:{ cbn [hp_body http_of ap_body json_response mbind result_bind]. unfold directory. by rewrite directory_back. }
    unfold call_bind at 1. cbn [client_set call_modify fst snd].
    unfold refresh_nonce, the_directory. unfold call_bind at 1. unfold call_bind at 1.
    cbn [client_get call_get fst cl_directory set_directory call_panic dir_new_nonce directory].
    erewrite call_bind_some; [|by apply send_delivers].
    rewrite (call_bind_ok _ (encoded random (ac_drawn s) 16)).
    2:{ rewrite (visible_header _ _ (encoded random (ac_drawn s) 16)); [done | done | apply encoded_visible]. }
    reflexivity.
  - done.
Qed.

Lemma get_client {A B} (f : AcmeClient -> A) (k : A -> Call (E := string) B) c (s : AcmeState) :
  (a <- client_get f ;; k a)%call (c, s) = k (f c) (c, s).
Proof. done. Qed.

Lemma nonce_there {B} (k : string -> Call B) c (s : AcmeState) n : cl_last_nonce c = Some n ->
  (n <- consume_last_nonce ;; k n)%call (c, s) = k n (c, s).
Proof. intros Hn. apply call_bind_some. unfold consume_last_nonce. by rewrite get_client, Hn. Qed.

Lemma directory_there {B} (k : Directory -> Call B) c (s : AcmeState) d : cl_directory c = Some d ->
  (d <- the_directory ;; k d)%call (c, s) = k d (c, s).
Proof. intros Hd. apply call_bind_some. unfold the_directory. by rewrite get_client, Hd. Qed.

Lemma account_stage s c n : cl_signing_key c = sk -> cl_verifying_key c = verifying_key sk ->
  cl_directory c = Some (directory base_url) -> cl_last_nonce c = Some n -> n ∈ ac_nonces s ->
  exists kid n' c' s', new_account deliver (c, s) = Some (Ok tt, (c', s')) /\ client_ready kid n' c' s'.
Proof.
  intros Hs Hv Hd Hn Hin.
  destruct (new_account_written (mkNewAccount (Some true) None None)) as [b Eb].
  destruct (serve_account n s (base_url +:+ "/new-account") (b64_url_no_pad_encode b) Hin) as (s' & n' & Hserve & Hn' & Hk).
  set (url := base_url +:+ "/account/" +:+ encoded random (ac_drawn s) 8) in *.
  exists url, (encoded random n' 16), (set_account_url url (set_last_nonce (encoded random n' 16) c)), s'. split.
  2:{ repeat split; cbn; done. }
  unfold new_account. rewrite get_client, (nonce_there _ _ _ _ Hn), (directory_there _ _ _ _ Hd), Hv, Eb.
  cbn [dir_new_account directory].
  rewrite (exchange "newAccount" "/new-account" _ None (Some b) c s n _ s' _ Hs Hn Hserve eq_refl).
  rewrite (call_bind_ok _ url).
  2:{ rewrite (visible_header _ _ url); [done | done |]. unfold url. rewrite !bytes_of_app, !forallb_app, Hbase, encoded_visible. done. }
  rewrite (call_bind_some _ _ _ _ _ (capture_some _ (encoded random n' 16) c s' (located_nonce _ _ _ _))).
  done.
Qed.

(** The order the server answers with. *)
Definition fresh_order (nid : string) (d : nat) : Order :=
  mkOrder STATUS_PENDING None [nid_identifier nid] [base_url +:+ "/authz/" +:+ encoded random (S d) 8]
    (base_url +:+ "/finalize/" +:+ encoded random d 8) None None.

Lemma order_stage nid s c kid n : client_ready kid n c s ->
  exists h c' n', new_order deliver nid (c, s)
      = Some (Ok (fresh_order nid (ac_drawn s)), (c', minted random (ordered random base_url (nid_identifier nid) kid (consumed h s)))) /\
    client_ready kid n' c' (minted random (ordered random base_url (nid_identifier nid) kid (consumed h s))).
Proof.
  intros Hready. pose proof Hready as (Hs & Hd & Ha & Hn & Hin & Hk).
  destruct (new_order_back (mkNewOrder [nid_identifier nid] None None)) as (b & Eb & Hb & Hu & Hback).
  set (path := "/new-order"). set (h := account_header n (base_url +:+ path) kid).
  set (s' := minted random (ordered random base_url (nid_identifier nid) kid (consumed h s))).
  assert (Hn' : encoded random (4 + ac_drawn s)%nat 16 ∈ ac_nonces s') by apply minted_nonce.
  exists h, (set_last_nonce (encoded random (4 + ac_drawn s)%nat 16) c), (encoded random (4 + ac_drawn s)%nat 16).
  split; [|by apply (ready_next kid n c s)].
  unfold new_order. rewrite (nonce_there _ _ _ _ Hn), (directory_there _ _ _ _ Hd). unfold nid_identifier in Eb. rewrite Eb.
  cbn [dir_new_order directory].
  rewrite (known_exchange "newOrder" "/new-order" kid n (Some b) c s _ s' (encoded random (4 + ac_drawn s)%nat 16) _ Hready
    (serve_order n s _ kid nid b Hin Hk Hb Hu Hback) eq_refl (located_nonce _ _ _ _)).
  unfold read_json, call_result. cbn [http_of hp_body ap_body json_response mbind result_bind]. by rewrite order_back.
Qed.

Lemma authz_stage s c kid n i ident ch : client_ready kid n c s ->
  ac_authzs s !! encoded random i 8 = Some (pending_authz ident (chs_id ch) kid) -> ac_challenges s !! chs_id ch = Some ch ->
  exists h c' n', fetch_authz deliver (base_url +:+ "/authz/" +:+ encoded random i 8) (c, s)
      = Some (Ok (mkAuthorization STATUS_PENDING None ident [show_challenge base_url ch]), (c', minted random (consumed h s))) /\
    client_ready kid n' c' (minted random (consumed h s)).
Proof.
  intros Hready Haz Hch. pose proof Hready as (_ & _ & _ & _ & Hin & Hk).
  set (h := account_header n (base_url +:+ "/authz/" +:+ encoded random i 8) kid).
  set (n' := encoded random (ac_drawn s) 16). exists h, (set_last_nonce n' c), n'.
  split; [|apply (ready_next kid n c s); [done | exact (minted_nonce (consumed h s)) | done]].
  unfold fetch_authz.
  rewrite (known_exchange "fetch authz" ("/authz/" +:+ encoded random i 8) kid n None c s _ _ n' _ Hready
    (serve_authz n i _ kid ident ch s Hin Hk Haz Hch) eq_refl (nonce_header _ _ _)).
  unfold read_json, call_result, answered. cbn [http_of hp_body ap_body json_response mbind result_bind].
  unfold show_challenge. by rewrite authorization_back.
Qed.

Lemma respond_stage s c kid n i token authz_id ident : client_ready kid n c s ->
  let ch := pending_challenge (encoded random i 8) token authz_id kid in
  ac_challenges s !! encoded random i 8 = Some ch ->
  exists h c' n', respond_agent_01 deliver (mkAuthorization STATUS_PENDING None ident [show_challenge base_url ch]) (c, s)
      = Some (Ok tt, (c', minted random (accept_challenge ch (consumed h s)))) /\
    client_ready kid n' c' (minted random (accept_challenge ch (consumed h s))).
Proof.
  intros Hready ch Hch. pose proof Hready as (Hs & _ & _ & _ & Hin & Hk).
  destruct (respond_back (agent_answer token)) as (b & Eb & Hb & Hu & Hback).
  set (h := account_header n (base_url +:+ "/chall/" +:+ encoded random i 8) kid).
  set (n' := encoded random (ac_drawn s) 16). exists h, (set_last_nonce n' c), n'.
  split; [|apply (ready_next kid n c s); [done | exact (minted_nonce (accept_challenge ch (consumed h s))) | done]].
  unfold respond_agent_01. cbn [au_challenges]. rewrite (call_bind_ok _ (show_challenge base_url ch)) by done.
  rewrite get_client, Hs. cbn [chl_token show_challenge chs_token ch pending_challenge].
  change (mkRespond _) with (agent_answer token). rewrite Eb.
  pose proof Hready as (_ & _ & Ha & Hn & _ & _). rewrite get_client, Ha. change (chl_url _) with (base_url +:+ "/chall/" +:+ encoded random i 8).
  rewrite (exchange "challenge" ("/chall/" +:+ encoded random i 8) None (Some kid) (Some b) c s n _ _ _ Hs Hn
    (serve_challenge n i _ kid token authz_id b s Hin Hk Hch Hb Hu Hback) eq_refl).
  apply capture_some, nonce_header.
Qed.

Lemma finalize_stage s c kid n i nid order os der pem : client_ready kid n c s ->
  or_finalize order = base_url +:+ "/finalize/" +:+ encoded random i 8 ->
  ac_orders s !! encoded random i 8 = Some os -> os_identifier os = nid_identifier nid -> os_status os = STATUS_READY ->
  os_account_url os = kid -> build_csr sk nid = Ok der -> issued_pem nid (clock s) (ac_drawn s) pem ->
  exists h c' n' finalized, finalize_order deliver order nid (c, s)
      = Some (Ok finalized, (c', minted random (certified random base_url (encoded random i 8) pem (consumed h s)))) /\
    or_certificate finalized = Some (base_url +:+ "/cert/" +:+ encoded random (S (ac_drawn s)) 8) /\
    client_ready kid n' c' (minted random (certified random base_url (encoded random i 8) pem (consumed h s))).
Proof.
  intros Hready Hfin Ho Hi Hst Hacc Hder Hpem. pose proof Hready as (Hs & _ & _ & _ & Hin & Hk).
  destruct (finalize_back (mkFinalize (b64_url_no_pad_encode der))) as (b & Eb & Hb & Hu & Hback).
  set (h := account_header n (base_url +:+ "/finalize/" +:+ encoded random i 8) kid).
  set (s' := minted random (certified random base_url (encoded random i 8) pem (consumed h s))).
  set (cert_url := base_url +:+ "/cert/" +:+ encoded random (S (ac_drawn s)) 8).
  set (n' := encoded random (S (S (ac_drawn s))) 16).
  exists h, (set_last_nonce n' c), n', (show_order base_url (order_certified cert_url os)).
  split; [|split; [done |]; apply (ready_next kid n c s); [done | | done]].
  2:{ exact (minted_nonce (certified random base_url (encoded random i 8) pem (consumed h s))). }
  unfold finalize_order. rewrite get_client, Hs, (call_bind_ok _ _ _ _ Hder), Eb, Hfin.
  rewrite (known_exchange "finalize" ("/finalize/" +:+ encoded random i 8) kid n (Some b) c s _ s' n' _ Hready
    (serve_finalize n i _ kid nid os der b pem s Hin Hk Ho Hi Hst Hacc Hb Hu Hder Hback Hpem) eq_refl (nonce_header _ _ _)).
  unfold read_json, call_result, answered. cbn [http_of hp_body ap_body json_response mbind result_bind].
  unfold show_order. by rewrite order_back.
Qed.

Lemma download_stage s c kid n i pem : client_ready kid n c s -> ac_certs s !! encoded random i 8 = Some pem ->
  exists h c', download_pem deliver (base_url +:+ "/cert/" +:+ encoded random i 8) (c, s)
      = Some (Ok pem, (c', minted random (consumed h s))).
Proof.
  intros Hready Hc. pose proof Hready as (_ & _ & _ & _ & Hin & Hk).
  set (h := account_header n (base_url +:+ "/cert/" +:+ encoded random i 8) kid).
  set (n' := encoded random (ac_drawn s) 16). exists h, (set_last_nonce n' c).
  unfold download_pem.
  rewrite (known_exchange "download cert" ("/cert/" +:+ encoded random i 8) kid n None c s _ _ n' _ Hready
    (serve_cert n i _ kid pem s Hin Hk Hc) eq_refl (pem_nonce _ _)).
  done.
Qed.

Lemma certified_there h oid pem s :
  ac_certs (minted random (certified random base_url oid pem (consumed h s))) !! encoded random (S (ac_drawn s)) 8 = Some pem.
Proof. cbn. apply lookup_insert_eq. Qed.

Lemma accepted_ready ch h oid ident fin acc s : 
  ac_orders s !! oid = Some (pending_order ident (chs_authz_id ch) fin acc) ->
  ac_orders (minted random (accept_challenge ch (consumed h s))) !! oid
  = Some (order_status STATUS_READY (pending_order ident (chs_authz_id ch) fin acc)).
Proof. intros Ho. cbn. rewrite lookup_fmap, Ho. cbn. by rewrite String.eqb_refl. Qed.

Lemma ordered_there h ident kid s : let d := ac_drawn s in
  let s' := minted random (ordered random base_url ident kid (consumed h s)) in
  ac_orders s' !! encoded random d 8
    = Some (pending_order ident (encoded random (S d) 8) (base_url +:+ "/finalize/" +:+ encoded random d 8) kid) /\
  ac_authzs s' !! encoded random (S d) 8 = Some (pending_authz ident (encoded random (S (S d)) 8) kid) /\
  ac_challenges s' !! encoded random (S (S d)) 8
    = Some (pending_challenge (encoded random (S (S d)) 8) (encoded random (S (S (S d))) 32) (encoded random (S d) 8) kid).
Proof. cbn. by rewrite !lookup_insert_eq. Qed.

(** The stages, one after the other. *)
Lemma flow_runs nid (w0 : AcmeClient * AcmeState) c1 s1 c2 s2 order c3 s3 authz_url rest authz c4 s4 c5 s5 finalized c6 s6 cert_url pem w7 :
  ensure_directory deliver w0 = Some (Ok tt, (c1, s1)) -> cl_account_url c1 = None ->
  new_account deliver (c1, s1) = Some (Ok tt, (c2, s2)) ->
  new_order deliver nid (c2, s2) = Some (Ok order, (c3, s3)) -> or_authorizations order = authz_url :: rest ->
  fetch_authz deliver authz_url (c3, s3) = Some (Ok authz, (c4, s4)) ->
  respond_agent_01 deliver authz (c4, s4) = Some (Ok tt, (c5, s5)) ->
  finalize_order deliver order nid (c5, s5) = Some (Ok finalized, (c6, s6)) ->
  or_certificate finalized = Some cert_url ->
  download_pem deliver cert_url (c6, s6) = Some (Ok pem, w7) ->
  issue_agent_cert deliver nid w0 = Some (Ok pem, w7).
Proof.
  intros E1 Ha1 E2 E3 Hauth E4 E5 E6 Hfin E7.
  unfold issue_agent_cert. rewrite (call_bind_some _ _ _ _ _ E1), get_client, Ha1, (call_bind_some _ _ _ _ _ E2),
    (call_bind_some _ _ _ _ _ E3), Hauth.
  rewrite (call_bind_some _ _ _ authz_url (c3, s3)) by done.
  rewrite (call_bind_some _ _ _ _ _ E4), (call_bind_some _ _ _ _ _ E5), (call_bind_some _ _ _ _ _ E6), Hfin.
  by rewrite (call_bind_ok _ cert_url).
Qed.

(** A request that only shows something keeps the orders and challenges. *)
Lemma shown_challenges h s : ac_challenges (minted random (consumed h s)) = ac_challenges s.
Proof. done. Qed.
Lemma shown_orders h s : ac_orders (minted random (consumed h s)) = ac_orders s.
Proof. done. Qed.
Lemma shown_certs h s : ac_certs (minted random (consumed h s)) = ac_certs s.
Proof. done. Qed.

Lemma flow_ends nid der s : build_csr sk nid = Ok der ->
  (forall st, exists pem, issued_pem nid (clock st) (ac_drawn st) pem) ->
  exists st pem c' s' cid, issued_pem nid (clock st) (ac_drawn st) pem /\ ac_certs s' !! cid = Some pem /\
    issue_agent_cert deliver nid (acme_client_new (directory_url base_url) sk, s) = Some (Ok pem, (c', s')).
Proof.
  intros Hder Hissue.
  destruct (directory_stage s) as (c1 & E1 & Hs1 & Hv1 & Hd1 & Ha1 & Hn1).
  destruct (account_stage _ c1 _ Hs1 Hv1 Hd1 Hn1 (minted_nonce s)) as (kid & n2 & c2 & s2 & E2 & Hr2).
  destruct (order_stage nid _ _ _ _ Hr2) as (h3 & c3 & n3 & E3 & Hr3).
  destruct (ordered_there h3 (nid_identifier nid) kid s2) as (Ho3 & Haz & Hch). cbv zeta in Ho3, Haz, Hch.
  set (d := ac_drawn s2) in *. set (s3 := minted random (ordered _ _ _ _ _)) in *. clearbody s3.
  set (ch := pending_challenge _ _ _ _) in Hch.
  destruct (authz_stage s3 c3 kid n3 (S d) (nid_identifier nid) ch Hr3 Haz Hch) as (h4 & c4 & n4 & E4 & Hr4).
  rewrite <- (shown_challenges h4 s3) in Hch. rewrite <- (shown_orders h4 s3) in Ho3.
  set (s4 := minted random (consumed h4 s3)) in *. clearbody s4.
  destruct (respond_stage s4 c4 kid n4 (S (S d)) _ _ (nid_identifier nid) Hr4 Hch) as (h5 & c5 & n5 & E5 & Hr5).
  pose proof (accepted_ready ch h5 _ _ _ _ s4 Ho3) as Ho.
  set (s5 := minted random (accept_challenge _ _)) in *. destruct (Hissue s5) as [pem Hpem]. clearbody s5.
  destruct (finalize_stage s5 c5 kid n5 d nid (fresh_order nid d) _ der pem Hr5 eq_refl Ho eq_refl eq_refl eq_refl Hder Hpem)
    as (h6 & c6 & n6 & fin & E6 & Hfin & Hr6).
  pose proof (certified_there h6 (encoded random d 8) pem s5) as Hcert.
  set (s6 := minted random (certified _ _ _ _ _)) in *. clearbody s6.
  destruct (download_stage s6 c6 kid n6 (S (ac_drawn s5)) pem Hr6 Hcert) as (h7 & c7 & E7).
  exists s5, pem, c7, (minted random (consumed h7 s6)), (encoded random (S (ac_drawn s5)) 8).
  split; [done |]. split; [by rewrite shown_certs |].
  eapply flow_runs; [exact E1 | exact Ha1 | exact E2 | exact E3 | reflexivity | exact E4 | exact E5 | exact E6 | exact Hfin | exact E7].
Qed.

(** ** The runs of the server the client makes *)

(** Whatever the client calls, what it did to the server is a run of it. *)
Definition runs_server {A} (m : Call (E := string) (S := AcmeClient * AcmeState) A) : Prop :=
  forall c s out c' s', m (c, s) = Some (out, (c', s')) -> forall tr, acme_run random opts base_url tr s ->
  exists tr', acme_run random opts base_url (tr ++ tr') s'.

Lemma server_runs_bind {A B} (m : Call A) (f : A -> Call B) : runs_server m -> (forall a, runs_server (f a)) -> runs_server (call_bind m f).
Proof.
  intros Hm Hf c s out c' s' E tr Hr. apply call_bind_inv in E as [(e & E & _)|(a & [c1 s1] & E1 & E)]; [by eapply Hm |].
  destruct (Hm _ _ _ _ _ E1 tr Hr) as [tr1 Hr1]. destruct (Hf _ _ _ _ _ _ E _ Hr1) as [tr2 Hr2].
  exists (tr1 ++ tr2). by rewrite app_assoc.
Qed.
Lemma runs_same {A} (m : Call A) : (forall c s out c' s', m (c, s) = Some (out, (c', s')) -> s' = s) -> runs_server m.
Proof. intros Hm c s out c' s' E tr Hr. apply Hm in E as ->. exists []. by rewrite app_nil_r. Qed.
Lemma runs_ret {A} (a : A) : runs_server (call_ret a).
Proof. apply runs_same. by intros ? ? ? ? ? [= _ _ <-]. Qed.
Lemma runs_fail {A} e : runs_server (call_fail (A := A) e).
Proof. apply runs_same. by intros ? ? ? ? ? [= _ _ <-]. Qed.
Lemma runs_result {A} (r : result _ A) : runs_server (call_result r).
Proof. apply runs_same. by intros ? ? ? ? ? [= _ _ <-]. Qed.
Lemma runs_panic {A} (o : option A) : runs_server (call_panic o).
Proof. apply runs_same. intros ? ? ? ? ? E. unfold call_panic in E. destruct o; [|done]. by injection E as _ _ <-. Qed.
Lemma runs_get {A} (f : AcmeClient -> A) : runs_server (client_get f).
Proof. apply runs_same. by intros ? ? ? ? ? [= _ _ <-]. Qed.
Lemma runs_set f : runs_server (client_set f).
Proof. apply runs_same. by intros ? ? ? ? ? [= _ _ <-]. Qed.
Lemma runs_send what req : runs_server (send deliver what req).
Proof.
  intros c s out c' s' E tr Hr. unfold send, deliver in E. cbn [fst snd] in E.
  destruct (strip_prefix base_url (hq_url req)) as [path|]; [|injection E as _ _ <-; exists []; by rewrite app_nil_r].
  destruct (acme_handle _ _ _ _ _ _) as [[resp s1]|] eqn:Eh; injection E as _ _ <-.
  - eexists [_]. by eapply run_step.
  - exists []. by rewrite app_nil_r.
Qed.
End flow.

Create HintDb acme_runs.
#[export] Hint Resolve runs_ret runs_fail runs_result runs_panic runs_get runs_set runs_send : acme_runs.

(** Client calls run the server, by their shape. *)
Ltac runs_server :=
  repeat match goal with
  | |- runs_server _ _ _ (call_bind _ _) => apply server_runs_bind
  | |- runs_server _ _ _ (match ?x with _ => _ end) => destruct x
  | |- runs_server _ _ _ (if ?x then _ else _) => destruct x
  | |- forall _, _ => intros
  | |- _ => solve [eauto with acme_runs]
  end.

Section flow_theorem.
Context {D : Digests} `{AcmeLaws} `{!ResponseLaws} `{SystemTimes} `{StatusText}.
Context (random : nat -> nat -> list Z) (opts : AcmeServerOptions) (base_url : string).
Context (clock : AcmeState -> Z) (sk : SigningKey).

Lemma issue_runs nid : runs_server random opts base_url (issue_agent_cert (deliver random opts base_url clock) nid).
Proof.
  unfold issue_agent_cert, ensure_directory, refresh_nonce, new_account, new_order, fetch_authz, respond_agent_01, finalize_order,
    download_pem, client_envelope, consume_last_nonce, the_directory, post_jose, require_success, capture_nonce, read_json, read_body.
  runs_server.
Qed.

(** C6: the flow ends with the certificate.  From any state of the server, a
    new client that asks for an identity runs through the directory, an
    account, an order, its challenge and the finalization, and gets the leaf
    issued for that identity and the client's own key, followed by the root;
    the server keeps what it sent,
    and is in a state that its handlers reach. *)
Theorem client_gets_certificate nid der tr s :
  (forall i n, forallb b64_char (bytes_of (encoded random i n)) = true) -> forallb visible_ascii (bytes_of base_url) = true ->
  acme_run random opts base_url tr s -> build_csr sk nid = Ok der ->
  (forall st, exists pem, issued_pem random opts sk nid (clock st) (ac_drawn st) pem) ->
  exists st pem c' s' cid tr',
    issue_agent_cert (deliver random opts base_url clock) nid (acme_client_new (directory_url base_url) sk, s) = Some (Ok pem, (c', s')) /\
    issued_pem random opts sk nid (clock st) (ac_drawn st) pem /\ ac_certs s' !! cid = Some pem /\
    acme_run random opts base_url (tr ++ tr') s'.
Proof.
  intros Hplain Hbase Hrun Hder Hissue.
  destruct (flow_ends random opts base_url clock sk Hplain Hbase nid der s Hder Hissue) as (st & pem & c' & s' & cid & Hpem & Hcert & E).
  destruct (issue_runs nid _ _ _ _ _ E tr Hrun) as [tr' Hrun']. by exists st, pem, c', s', cid, tr'.
Qed.
End flow_theorem.

(** ** Witnesses: a toy network *)

#[local] Existing Instances const_b64 const_ed25519 const_signing const_encoder const_laws.

(** Anything countable as bytes. *)
Fixpoint pos_bits (p : positive) : list Z :=
  match p with xH => [1] | xO q => 0 :: pos_bits q | xI q => 1 :: pos_bits q end.
Fixpoint bits_pos (l : list Z) : positive :=
  match l with [] | [_] => xH | b :: l => if b =? 0 then xO (bits_pos l) else xI (bits_pos l) end.
Definition pack `{Countable A} (a : A) : list Z := pos_bits (encode a).
Definition unpack `{Countable A} (l : list Z) : result string A := ok_or (decode (bits_pos l)) "bad".

Lemma bits_back p : bits_pos (pos_bits p) = p.
Proof. induction p as [q IH|q IH|]; [| |done]; cbn; (destruct (pos_bits q) eqn:E; [by destruct q | by rewrite IH]). Qed.
Lemma pack_back `{Countable A} (a : A) : unpack (pack a) = Ok a.
Proof. unfold unpack, pack. by rewrite bits_back, decode_encode. Qed.
Lemma pack_u8 `{Countable A} (a : A) : Forall u8_range (pack a).
Proof. unfold pack. induction (encode a) as [q IH|q IH|]; cbn; constructor; try done; unfold u8_range; lia. Qed.
Lemma pack_full `{Countable A} (a : A) : pack a <> [].
Proof. unfold pack. by destruct (encode a). Qed.

(** The strings of a value, in order. *)
Fixpoint value_strings (v : Value) : list string :=
  match v with
  | VString s => [s]
  | VArray l => flat_map value_strings l
  | VObject m => flat_map (fun kv => match kv with (_, v) => value_strings v end) m
  | _ => []
  end.
#[local] Instance wire_digests : Digests := {|
  sha256 l := l; hex_encode _ := ""; json_to_string v := of_bytes (pack (value_strings v)) |}.

Definition read_strings {A} (f : list string -> option A) (s : string) : result string A :=
  (l ← unpack (bytes_of s); ok_or (f l) "bad").
Lemma read_back {A} (f : list string -> option A) v a : f (value_strings v) = Some a ->
  read_strings f (json_to_string v) = Ok a.
Proof. intros Hf. unfold read_strings. cbn. rewrite bytes_of_of_bytes, pack_back by apply pack_u8. cbn. by rewrite Hf. Qed.

Definition wire_directory (l : list string) : option Directory :=
  match l with [a; b; c] => Some (mkDirectory a b c None None None) | _ => None end.
Definition wire_order (l : list string) : option Order :=
  match l with
  | [st; t; v; a; f] => Some (mkOrder st None [mkIdentifier t v] [a] f None None)
  | [st; t; v; a; f; c] => Some (mkOrder st None [mkIdentifier t v] [a] f (Some c) None)
  | _ => None
  end.
Definition wire_authorization (l : list string) : option Authorization :=
  match l with
  | [st; it; iv; t; u; cst; tok] => Some (mkAuthorization st None (mkIdentifier it iv) [mkChallenge t u cst tok None None])
  | _ => None
  end.
Definition header_row (h : ProtectedHeader) : (string * string * string) * (option (string * string * string) * option string) :=
  ((ph_alg h, ph_nonce h, ph_url h), ((fun j => (jwk_kty j, jwk_crv j, jwk_x j)) <$> ph_jwk h, ph_kid h)).
Definition row_header (r : (string * string * string) * (option (string * string * string) * option string)) : ProtectedHeader :=
  match r with (a, n, u, (j, k)) => mkHeader a n u ((fun t => match t with (x, y, z) => mkJwk x y z end) <$> j) k end.
Lemma row_back h : row_header (header_row h) = h.
Proof. by destruct h as [a n u [[x y z]|] k]. Qed.
Definition order_row (p : NewOrderPayload) : list (string * string) * (option string * option string) :=
  (map (fun i => (ident_type i, ident_value i)) (no_identifiers p), (no_not_before p, no_not_after p)).
Definition row_order (r : list (string * string) * (option string * option string)) : NewOrderPayload :=
  match r with (l, (nb, na)) => mkNewOrder (map (fun q => mkIdentifier (fst q) (snd q)) l) nb na end.
Lemma row_order_back p : row_order (order_row p) = p.
Proof.
  destruct p as [l nb na]. unfold order_row, row_order. cbn [no_identifiers no_not_before no_not_after]. f_equal.
  rewrite map_map. induction l as [|[t v] l IH]; [done |]. cbn [map]. by rewrite IH.
Qed.

#[local] Instance wire_serde : AcmeSerde := {|
  header_to_vec h := Ok (pack (header_row h));
  header_from_slice b := row_header <$> unpack b;
  envelope_to_vec e := Ok (pack (env_protected e, env_payload e, env_signature e));
  envelope_from_str s := (fun t => match t with (a, b, c) => mkEnvelope a b c end) <$> unpack (bytes_of s);
  new_account_to_vec p := Ok [1];
  new_order_to_vec p := Ok (pack (order_row p));
  new_order_from_slice b := row_order <$> unpack b;
  respond_to_vec p := Ok (pack (cr_agent_signature p));
  respond_from_slice b := mkRespond <$> unpack b;
  finalize_to_vec p := Ok (pack (fp_csr p));
  finalize_from_slice b := mkFinalize <$> unpack b;
  directory_from_str := read_strings wire_directory;
  order_from_str := read_strings wire_order;
  authorization_from_str := read_strings wire_authorization
|}.
#[local] Instance wire_rcgen : Rcgen := {|
  KeyPair := unit;
  SubjectPublicKeyInfo := unit;
  Certificate := bool;
  key_seed _ := repeat 0 32;
  keypair_from_pkcs8 _ := Ok tt;
  spki_from_der der := Ok tt;
  cert_params_new _ := Ok (mkCertParams [] [] None 0 0 NoCa [] []);
  ia5_string s := Ok s;
  self_signed p _ := Ok false;
  signed_by p _ _ _ := Ok true;
  serialize_request p _ := Ok (pack (cp_common_names p));
  cert_der b := [1];
  cert_pem b := if b : bool then "leaf;" else "root;";
  from_unix_timestamp t := Some t
|}.
#[local] Instance wire_csr : CsrParser := {|
  csr_from_der der := (fun names : list string => mkCsr (map Some names) (repeat 0 32)) <$> unpack der |}.
#[local] Instance wire_times : SystemTimes := {| system_time_add t d := Some (t + d) |}.
#[local] Instance wire_status : StatusText := {| show_status _ := "status" |}.

#[local] Instance wire_laws : AcmeLaws.
Proof.
  split; try done.
  - intros h. eexists. split; [reflexivity |]. split; [apply pack_u8 |]. cbn. rewrite pack_back. exact (f_equal Ok (row_back h)).
  - intros [a b c]. eexists. split; [reflexivity |]. cbn. by rewrite bytes_of_of_bytes, pack_back by apply pack_u8.
  - intros p. by eexists.
  - intros p. eexists. split; [reflexivity |]. split; [apply pack_full |]. split; [apply pack_u8 |].
    cbn. rewrite pack_back. exact (f_equal Ok (row_order_back p)).
  - intros [p]. eexists. split; [reflexivity |]. split; [apply pack_full |]. split; [apply pack_u8 |]. cbn. by rewrite pack_back.
  - intros [p]. eexists. split; [reflexivity |]. split; [apply pack_full |]. split; [apply pack_u8 |]. cbn. by rewrite pack_back.
  - by intros [].
  - intros p [] [] der _ [= <-]. split; [apply pack_full |]. split; [apply pack_u8 |]. cbn. by rewrite pack_back.
Qed.
#[local] Instance wire_responses : ResponseLaws.
Proof.
  split.
  - intros a b c. by apply read_back.
  - intros st [t v] a f [c|]; by apply read_back.
  - intros st [it iv] t u cst tok. by apply read_back.
Qed.

(** Draw [i] is [i + 1] letters. *)
Definition wire_random (i n : nat) : list Z := repeat 97 (S i).
Definition wire_opts : AcmeServerOptions := mkAcmeOptions "urn:nps:org:ca" const_key false (30 * 86400 * nanos_per_sec).
Definition wire_clock (s : AcmeState) : Z := 0.

Lemma wire_draw_u8 i n : Forall u8_range (wire_random i n).
Proof. unfold wire_random. induction (S i) as [|k IH]; cbn; constructor; [unfold u8_range; lia | done]. Qed.
Lemma wire_encoded i n : bytes_of (encoded wire_random i n) = wire_random i n.
Proof. apply bytes_of_of_bytes, wire_draw_u8. Qed.
Lemma wire_plain i n : forallb b64_char (bytes_of (encoded wire_random i n)) = true.
Proof. rewrite wire_encoded. unfold wire_random. induction (S i) as [|k IH]; [done | exact IH]. Qed.
Lemma wire_no_repeats n : no_repeats wire_random n.
Proof.
  intros i j k l _ _ E. apply (f_equal bytes_of) in E. rewrite !wire_encoded in E.
  apply (f_equal length) in E. unfold wire_random in E. rewrite !repeat_length in E. by injection E.
Qed.
Lemma wire_issued st : issued_pem wire_random wire_opts const_key "nid" (wire_clock st) (ac_drawn st) "leaf;root;".
Proof. exists (- seconds_60), (30 * 86400 * nanos_per_sec), true. split; [reflexivity |]. by repeat split. Qed.

Lemma client_gets_certificate_witness : exists tr cid s' c',
  issue_agent_cert (deliver wire_random wire_opts "http://ca" wire_clock) "nid"
    (acme_client_new (directory_url "http://ca") const_key, acme_start) = Some (Ok "leaf;root;", (c', s')) /\
  ac_certs s' !! cid = Some "leaf;root;" /\ acme_run wire_random wire_opts "http://ca" tr s'.
Proof.
  destruct (client_gets_certificate wire_random wire_opts "http://ca" wire_clock const_key "nid" (pack ["nid"]) [] acme_start
    wire_plain eq_refl (run_start _ _ _) eq_refl (fun st => ex_intro _ _ (wire_issued st)))
    as (st & pem & c' & s' & cid & tr' & E & (nb & na & leaf & _ & _ & [= <-] & ->) & Hcert & Hrun).
  exists tr', cid, s', c'. split; [exact E |]. split; [exact Hcert | exact Hrun].
Defined.

Lemma certificates_earned_witness : exists tr s cid url pk oid ident chid i k j l,
  ac_certs s !! cid = Some "leaf;root;" /\ account_key s url pk /\
  order_chain s oid url ident chid (encoded wire_random k 32) /\ (i < j < l)%nat /\
  created wire_random wire_opts "http://ca" tr s i oid k /\ ordered_at tr i url pk ident /\
  answered_at tr j url pk chid (encoded wire_random k 32) /\ finalized_at wire_opts tr l url pk oid ident "leaf;root;".
Proof.
  destruct (flow_ends wire_random wire_opts "http://ca" wire_clock const_key wire_plain eq_refl "nid" (pack ["nid"]) acme_start
    eq_refl (fun st => ex_intro _ _ (wire_issued st)))
    as (st & pem & c' & s' & cid & (nb & na & leaf & _ & _ & [= <-] & ->) & Hcert & E).
  destruct (issue_runs _ _ _ _ "nid" _ _ _ _ _ E [] (run_start _ _ _)) as [tr Hrun].
  destruct (certificates_earned wire_random wire_opts "http://ca" tr s' cid "leaf;root;" Hrun (wire_no_repeats _) Hcert)
    as (url & pk & oid & ident & chid & i & k & j & l & Hearned).
  exists tr, s', cid, url, pk, oid, ident, chid, i, k, j, l. exact (conj Hcert Hearned).
Defined.

(** One nonce, and a request for an account that carries it. *)
Definition wire_header : ProtectedHeader :=
  mkHeader ALG_EDDSA "a" "u" (Some (jwk_from_public_key (key_to_bytes (verifying_key const_key)))) None.
Definition wire_envelope : Envelope :=
  mkEnvelope (b64_url_no_pad_encode (pack (header_row wire_header))) "" (b64_url_no_pad_encode (sig_to_bytes tt)).
Definition wire_request : AcmeRequest :=
  mkAcmeRequest Post "/new-account" (Ok (of_bytes (pack (env_protected wire_envelope, env_payload wire_envelope, env_signature wire_envelope)))).
Definition wire_nonce_request : AcmeRequest := mkAcmeRequest Head "/new-nonce" (Ok "").
Definition wire_after : AcmeState := minted wire_random acme_start.

Lemma nonce_single_use_witness : exists resp s1 resp' s',
  acme_handle wire_random wire_opts "http://ca" 0 wire_request wire_after = Some (resp, s1) /\ ap_status resp = 201 /\
  acme_handle wire_random wire_opts "http://ca" 0 wire_request s1 = Some (resp', s') /\ s' = s1 /\ ap_status resp' = 400.
Proof.
  assert (Ho : opened wire_request wire_envelope wire_header wire_after).
  { split; [vm_compute; reflexivity |]. split; [vm_compute; reflexivity |]. by apply elem_of_union_l, elem_of_singleton. }
  destruct (acme_handle wire_random wire_opts "http://ca" 0 wire_request wire_after) as [[resp s1]|] eqn:E.
  2:{ exfalso. revert E. vm_compute. done. }
  destruct (acme_handle wire_random wire_opts "http://ca" 0 wire_request s1) as [[resp' s']|] eqn:E'.
  2:{ exfalso. revert E'. vm_compute in E. injection E as _ <-. vm_compute. done. }
  exists resp, s1, resp', s'. split; [reflexivity |]. split; [vm_compute in E; by injection E as <- _ |]. split; [exact E' |].
  assert (Hrun : acme_run wire_random wire_opts "http://ca" [wire_nonce_request] wire_after).
  { apply (run_step _ _ _ [] 0 wire_nonce_request acme_start
      (mkAcmeResponse 200 "" [("Replay-Nonce", "a"); ("Cache-Control", "no-store")])); [apply run_start | vm_compute; reflexivity]. }
  exact (nonce_single_use wire_random wire_opts "http://ca" [wire_nonce_request] 0 wire_request wire_envelope wire_header wire_after
    resp s1 s1 0 resp' s' Hrun eq_refl Ho E (rtc_refl _ _) (wire_no_repeats _) E').
Defined.
