(* ===== verification/NipCaRouter.v ===== *)
(** * NipCaRouter: the CA over HTTP

    Models nps-nip/src/ca/router.rs and group_jws.rs: a request is routed to
    one handler over the service of NipCaService, the chains of
    NipX509Builder and the enrollment stores of NipRa.  The policy is an
    argument; each reading of the clock and each random draw of a request is
    an argument of it.  [None] is a panic. *)

From S2P Require Import Prelude Calls RustStr Floats Json CoreFrames CoreCache NcpFrames NipFrames NipDer NipX509 NipVerifier NipSigner NipRa NipCaStore NipCaService NipX509Builder.
Local Open Scope Z_scope.

Definition CA_JWS_INVALID : string := "NIP-CA-JWS-INVALID".
Definition CA_JWS_EXPIRED : string := "NIP-CA-JWS-EXPIRED".
Definition RA_PENDING_REJECTED : string := "NIP-RA-PENDING-REJECTED".

(** ** Group signatures (group_jws.rs) *)

Definition EXPECTED_ALG : string := "EdDSA".
Definition EXPECTED_PURPOSE : string := "session-issue".

Record FlattenedJws : Type := mkFlattened {
  fj_protected : option string; fj_payload : option string; fj_signature : option string }.
Record JwsHeader : Type := mkJwsHeader {
  jh_alg : option string; jh_kid : option string; jh_nps_purpose : option string }.
Record JwsVerified : Type := mkVerified { jv_payload_json : string; jv_kid : string }.

(** What serde derives for the two structs. *)
Class GroupJwsSerde : Type := {
  jws_header_from_slice : list Z -> result string JwsHeader;
  flattened_from_value : Value -> result string FlattenedJws
}.

Section group_jws.
Context {D : Digests} `{Base64} `{Ed25519Signing} `{Base64Encoder} `{GroupJwsSerde}.

Definition some_is (o : option string) (s : string) : bool := bool_decide (o = Some s).

Definition try_verify (jws : FlattenedJws) (group_pub_key : VerifyingKey) : result string JwsVerified :=
  let protected := default "" (fj_protected jws) in
  let payload := default "" (fj_payload jws) in
  let signature := default "" (fj_signature jws) in
  if is_empty protected || is_empty payload || is_empty signature then Err CA_JWS_INVALID
  else
    let invalid {A} (r : result string A) := map_err (fun _ => CA_JWS_INVALID) r in
    header_bytes ← invalid (b64_url_no_pad protected);
    payload_bytes ← invalid (b64_url_no_pad payload);
    sig_bytes ← invalid (b64_url_no_pad signature);
    header ← invalid (jws_header_from_slice header_bytes);
    if negb (some_is (jh_alg header) EXPECTED_ALG) || negb (some_is (jh_nps_purpose header) EXPECTED_PURPOSE)
       || match jh_kid header with Some k => is_empty k | None => true end
    then Err CA_JWS_INVALID
    else if negb (length sig_bytes =? 64)%nat then Err CA_JWS_INVALID
    else
      let signing_input := protected +:+ "." +:+ payload in
      _ ← invalid (ed_verify group_pub_key (bytes_of signing_input) (sig_from_bytes sig_bytes));
      payload_json ← ok_or (from_utf8 payload_bytes) CA_JWS_INVALID;
      Ok (mkVerified payload_json (default "" (jh_kid header))).

Definition jws_header_value (kid : string) : Value :=
  VObject [("alg", VString EXPECTED_ALG); ("kid", VString kid); ("nps-purpose", VString EXPECTED_PURPOSE)].

Definition build_flattened_jws (sk : SigningKey) (kid payload_json : string) : FlattenedJws :=
  let protected := b64_url_no_pad_encode (bytes_of (json_to_string (jws_header_value kid))) in
  let payload := b64_url_no_pad_encode (bytes_of payload_json) in
  let signing_input := protected +:+ "." +:+ payload in
  mkFlattened (Some protected) (Some payload)
    (Some (b64_url_no_pad_encode (sig_to_bytes (ed_sign sk (bytes_of signing_input))))).
End group_jws.

(** ** Requests and responses *)

(** The keys of the headers are in lower case. *)
Record CaRequest : Type := mkCaRequest {
  cq_method : string; cq_path : string; cq_headers : gmap string string; cq_body : list Z }.
Record CaResponse : Type := mkCaResponse {
  cs_status : Z; cs_headers : list (string * string); cs_body : list Z }.

Definition ca_header (req : CaRequest) (name : string) : option string := cq_headers req !! to_ascii_lowercase name.

(** The options the router reads besides those of the service. *)
Record RouterOptions : Type := mkRouterOptions {
  ro_ca : NipCaOptions;
  ro_display_name : option string;
  ro_session_jws_clock_skew : Z;
  ro_base_url : string;
  ro_route_prefix : string;
  ro_algorithms : list string;
  ro_operator_api_key : option string;
  ro_enrollment_tier : EnrollmentTier;
  ro_bootstrap_token_max_ttl : Z
}.

(** The stores of the registration authority. *)
Record RaStores : Type := mkRaStores { ra_tokens : list TokenEntry; ra_pending : list PendingRegistration }.
Definition set_tokens (t : list TokenEntry) (ra : RaStores) : RaStores := mkRaStores t (ra_pending ra).
Definition set_pending (p : list PendingRegistration) (ra : RaStores) : RaStores := mkRaStores (ra_tokens ra) p.

(** What one request reads of the world: the clock, by the order of the
    readings, and random draws. *)
Record CaReadings : Type := mkCaReadings {
  cr_now : nat -> Z;
  cr_hex : string;
  cr_uuid : string;
  cr_token_bytes : list Z;
  cr_token_id : list Z
}.

(** ** Free helpers *)

(** [str::strip_suffix]. *)
Definition rev_str (s : string) : string := of_bytes (rev (bytes_of s)).
Definition strip_suffix (suffix s : string) : option string := rev_str <$> strip_prefix (rev_str suffix) (rev_str s).

Definition seg_between (rel prefix suffix : string) : option string :=
  rest ← strip_prefix prefix rel;
  seg ← strip_suffix suffix rest;
  if is_empty seg then None else Some seg.

Definition hex_val (b : Z) : option Z :=
  if (48 <=? b) && (b <=? 57) then Some (b - 48)
  else if (97 <=? b) && (b <=? 102) then Some (b - 97 + 10)
  else if (65 <=? b) && (b <=? 70) then Some (b - 65 + 10)
  else None.

(** The loop over the bytes; [skip] bytes were consumed by an escape. *)
Fixpoint unescape_bytes (skip : nat) (l : list Z) : list Z :=
  match l with
  | [] => []
  | b :: rest =>
    match skip with
    | S k => unescape_bytes k rest
    | O =>
      match (if b =? 37 then match rest with
                             | h :: l :: _ => match hex_val h, hex_val l with
                                              | Some h, Some l => Some (h * 16 + l)
                                              | _, _ => None
                                              end
                             | _ => None
                             end else None) with
      | Some c => c :: unescape_bytes 2 rest
      | None => b :: unescape_bytes 0 rest
      end
    end
  end.
Definition unescape (s : string) : string := default s (from_utf8 (unescape_bytes 0 (bytes_of s))).

(** The differences of all positions are gathered. *)
Definition constant_time_eq (a b : list Z) : bool :=
  if negb (length a =? length b)%nat then false
  else fold_left (fun diff xy => Z.lor diff (Z.lxor (fst xy) (snd xy))) (zip a b) 0 =? 0.

Definition identifier_char (c : Z) : bool :=
  is_ascii_alphabetic c || is_ascii_digit c
  || (c =? 46) || (c =? 95) || (c =? 58) || (c =? 64) || (c =? 47) || (c =? 45).
Definition valid_identifier (id : string) : bool :=
  negb (is_empty id) && (String.length id <=? 256)%nat && forallb identifier_char (chars id).

Definition valid_pub_key (pk : string) : bool := starts_with "ed25519:" pk && (8 <? String.length pk)%nat.

Definition opt_string_field (body : Value) (key : string) : option string := vget key body ≫= as_str.
Definition string_list (body : Value) (key : string) : option (list string) := strings_of <$> (vget key body ≫= as_array).

Definition bad_identifier : string := "identifier contains invalid characters. Allowed: a-z A-Z 0-9 . _ : @ / -".

Definition validate_register (body : Value) : result string (string * string) :=
  let identifier := default "" (opt_string_field body "identifier") in
  let pub_key := default "" (opt_string_field body "pub_key") in
  if is_empty identifier || is_empty pub_key then Err "identifier and pub_key are required."
  else if negb (valid_identifier identifier) then Err bad_identifier
  else if negb (valid_pub_key pub_key) then Err "pub_key must be 'ed25519:<base64url>'."
  else Ok (identifier, pub_key).

Definition parse_assurance (raw : option string) : AssuranceLevel :=
  match to_ascii_lowercase <$> raw with
  | Some s => if String.eqb s "attested" then ATTESTED else if String.eqb s "verified" then VERIFIED else ANONYMOUS
  | None => ANONYMOUS
  end.

Definition VALID_REVOCATION_REASONS : list string :=
  ["key_compromise"; "ca_compromise"; "affiliation_changed"; "superseded"; "cessation_of_operation"; "parent_revoked"].

Definition error_status (code : string) : Z :=
  let code_is c := String.eqb code c in
  if code_is CA_NID_NOT_FOUND || code_is CA_PARENT_NOT_FOUND then 404
  else if code_is CA_NID_ALREADY_EXISTS || code_is CA_SERIAL_DUPLICATE then 409
  else if code_is CA_RENEWAL_TOO_EARLY || code_is CA_SESSION_VALIDITY_INVALID || code_is CA_PARENT_NOT_GROUP then 400
  else if code_is CA_SCOPE_EXPANSION_DENIED || code_is CERT_CAPABILITY_MISSING || code_is CA_GROUP_REVOKED then 403
  else if code_is CA_JWS_INVALID || code_is CA_JWS_EXPIRED || code_is CERT_EXPIRED || code_is CERT_REVOKED || code_is CERT_PARENT_REVOKED
          || code_is RA_TOKEN_INVALID || code_is RA_TOKEN_EXPIRED then 401
  else if code_is RA_NID_NOT_ALLOWED || code_is RA_PENDING_REJECTED then 403
  else 400.

(** The orders of the lists. *)
Definition opt_Z_compare (a b : option Z) : comparison :=
  match a, b with
  | None, None => Eq
  | None, Some _ => Lt
  | Some _, None => Gt
  | Some x, Some y => (x ?= y)
  end.
Definition then_with (c d : comparison) : comparison := match c with Eq => d | _ => c end.
Definition crl_le (l r : NipCertRecord) : Prop :=
  then_with (opt_Z_compare (c_revoked_at l) (c_revoked_at r))
    (then_with (String.compare (c_serial l) (c_serial r)) (String.compare (c_nid l) (c_nid r))) <> Gt.
#[export] Instance crl_le_dec : RelDecision crl_le.
Proof. intros l r. unfold crl_le. destruct (then_with _ _); [left | left | right]; congruence. Defined.
Definition issued_le (l r : NipCertRecord) : Prop :=
  then_with (c_issued_at l ?= c_issued_at r) (String.compare (c_serial l) (c_serial r)) <> Gt.
#[export] Instance issued_le_dec : RelDecision issued_le.
Proof. intros l r. unfold issued_le. destruct (then_with _ _); [left | left | right]; congruence. Defined.

(** ** The router *)

Section router.
Context {D : Digests} `{Base64} `{Ed25519Signing} `{Base64Encoder} `{JsonParser} `{DateTimes} `{GroupJwsSerde} `{!Rcgen} `{HexDecoder} `{HintSerde}.
Context {S : Type} `{!NipCaStore S}.

(** A policy may change the stores of the registration authority. *)
Definition CaPolicy : Type := CaReadings -> EnrollmentRequest -> RaStores -> EnrollmentOutcome * RaStores.

(** The policies of NipRa over the stores of the router. *)
Definition policy_of (p : Policy) : CaPolicy := fun rd req ra =>
  match p with
  | AllowlistPolicy patterns => (allowlist_check patterns req, ra)
  | BootstrapTokenPolicy => let '(o, t) := token_check (cr_now rd 0) (ra_tokens ra) req in (o, set_tokens t ra)
  | PendingQueuePolicy max_size =>
    let '(o, q) := pending_check (cr_now rd 0) (cr_uuid rd) max_size (ra_pending ra) req in (o, set_pending q ra)
  end.

Record NipCaRouter : Type := mkCaRouter {
  rt_opts : RouterOptions;
  rt_signing_key : SigningKey;
  rt_policy : CaPolicy;
  rt_bootstrap_store : bool;
  rt_pending_store : bool
}.
Context (r : NipCaRouter) (rd : CaReadings) (req : CaRequest).

Abbreviation World := (S * RaStores)%type.
(** A handler returns early with a response as well. *)
Abbreviation RouterCall := (Call (E := CaResponse) (S := World)).
Abbreviation opts := (rt_opts r).
Abbreviation ca_opts := (ro_ca (rt_opts r)).
Local Open Scope call_scope.

Definition json_value : option Value :=
  match cq_body req with
  | [] => None
  | body => match parse_json (of_bytes body) with Ok v => Some v | Err _ => None end
  end.

Definition ca_json (status : Z) (value : Value) : CaResponse :=
  mkCaResponse status [("content-type", "application/json")] (bytes_of (json_to_string value)).
Definition coded (code message : string) : Value :=
  VObject [("error_code", VString code); ("message", VString message)].
Definition error_result (e : NipCaError) : CaResponse := ca_json (error_status (ca_code e)) (coded (ca_code e) (ca_message e)).
Definition ca_bad_request (msg : string) : CaResponse := ca_json 400 (coded "NIP-CA-BAD-REQUEST" msg).
Definition unauthorized : CaResponse := ca_json 401 (coded "NIP-CA-UNAUTHORIZED" "Valid operator Bearer token required.").
Definition pending_disabled : CaResponse := ca_bad_request "Pending-queue enrollment is not enabled on this CA.".
Definition frame_to_json (f : IdentFrame) : Value := VObject (IdentFrame_to_dict f).
Definition revoke_frame_to_json (f : RevokeFrame) : Value := VObject (RevokeFrame_to_dict f).

(** The key presented is compared with the operator's. *)
Definition authorized : bool :=
  match ro_operator_api_key opts with
  | None => true
  | Some key =>
    let header := default "" (ca_header req "authorization") in
    match (match strip_prefix "Bearer " header with Some p => Some p | None => strip_prefix "bearer " header end) with
    | None => false
    | Some p => constant_time_eq (bytes_of (trim p)) (bytes_of key)
    end
  end.

Definition pfx : string := trim_end_matches_slash (ro_route_prefix opts).
Definition rel : string := default (cq_path req) (strip_prefix pfx (cq_path req)).

Definition require_authorized : RouterCall unit := if authorized then call_ret tt else call_fail unauthorized.
Definition require_body : RouterCall Value := call_result (ok_or json_value (ca_bad_request "Invalid JSON body.")).
Definition checked {A} (x : result string A) : RouterCall A := call_result (map_err ca_bad_request x).

(** A call of the service, and of the enrollment stores. *)
Definition on_service {A} (m : Call (E := NipCaError) (S := S) A) : RouterCall (result NipCaError A) := fun w =>
  match m (fst w) with None => None | Some (x, s) => Some (Ok x, (s, snd w)) end.
Definition from_store {A} (f : S -> A) : RouterCall A := call_get (fun w => f (fst w)).
Definition from_ra {A} (f : RaStores -> A) : RouterCall A := call_get (fun w => f (snd w)).
Definition on_ra {A} (f : RaStores -> A * RaStores) : RouterCall A := fun w =>
  let '(a, ra) := f (snd w) in Some (Ok a, (fst w, ra)).

Definition answer_frame (status : Z) (out : result NipCaError IdentFrame) : CaResponse :=
  match out with Ok frame => ca_json status (frame_to_json frame) | Err e => error_result e end.

Definition i64_value (n : Z) : Value := VNumber (if n <? 0 then NegInt n else PosInt n).
Definition opt_string (o : option string) : Value := match o with Some s => VString s | None => VNull end.
Definition opt_ts (o : option Z) : Value := opt_string (fmt_ts <$> o).

(** ** Handlers *)

Definition discovery : CaResponse :=
  let at_ path := VString (ro_base_url opts +:+ pfx +:+ path) in
  ca_json 200 (VObject
    [("algorithms", vstrings (ro_algorithms opts));
     ("capabilities", vstrings ["agent"; "node"; "orchestrator-group";
        "ra-tier-" +:+ match ro_enrollment_tier opts with Allowlist => "1" | BootstrapToken => "2" | PendingQueue => "3" end]);
     ("display_name", opt_string (ro_display_name opts));
     ("endpoints", VObject
       [("crl", at_ "/v1/crl"); ("node_ocsp", at_ "/v1/nodes/{nid}/verify"); ("ocsp", at_ "/v1/agents/{nid}/verify");
        ("register", at_ "/v1/agents/register"); ("verify", at_ "/v1/agents/{nid}/verify")]);
     ("issuer", VString (ca_nid ca_opts));
     ("max_cert_validity_days", i64_value (agent_cert_validity_days ca_opts));
     ("nps_ca", VString "0.1");
     ("public_key", VString (get_ca_public_key (rt_signing_key r)))]).

(** The body is signed before the signature joins it. *)
Definition crl_entry (x : NipCertRecord) : Value :=
  VObject [("nid", VString (c_nid x)); ("reason", opt_string (c_revoke_reason x));
           ("revoked_at", opt_ts (c_revoked_at x)); ("serial", VString (c_serial x))].
Definition route_crl : RouterCall CaResponse :=
  revoked <- from_store (fun s => merge_sort crl_le (get_crl s)) ;;
  let body := map_insert "issued_by" (VString (ca_nid ca_opts)) [] in
  let body := map_insert "issued_at" (VString (fmt_ts (cr_now rd 0))) body in
  let body := map_insert "entries" (VArray (map crl_entry revoked)) body in
  let signature := sign_artifact (rt_signing_key r) (VObject body) in
  call_ret (ca_json 200 (VObject (map_insert "signature" (VString signature) body))).

Definition certificate_entry (x : NipCertRecord) : Value :=
  VObject [("capabilities", vstrings (c_capabilities x)); ("entity_type", VString (c_entity_type x));
           ("expires_at", VString (fmt_ts (c_expires_at x))); ("issued_at", VString (fmt_ts (c_issued_at x)));
           ("issued_by", VString (c_issued_by x)); ("nid", VString (c_nid x)); ("nid_role", opt_string (c_nid_role x));
           ("parent_nid", opt_string (c_parent_nid x)); ("pub_key", VString (c_pub_key x));
           ("revoke_reason", opt_string (c_revoke_reason x)); ("revoked_at", opt_ts (c_revoked_at x));
           ("scope", match parse_json (c_scope_json x) with Ok v => v | Err _ => VNull end); ("serial", VString (c_serial x))].
Definition route_certificates : RouterCall CaResponse :=
  require_authorized ;;
  records <- from_store (fun s => merge_sort issued_le (list_certificates s)) ;;
  call_ret (ca_json 200 (VObject [("entries", VArray (map certificate_entry records))])).

Definition scope_of (body : Value) : string :=
  match vget "scope_json" body with
  | Some (VString s) => s
  | Some v => json_to_string v
  | None => "{}"
  end.

Definition node_caps : list string := ["nwp:query"; "nwp:stream"].

Definition route_register (entity_type : string) (node_default_caps : list string) : RouterCall CaResponse :=
  require_authorized ;;
  body <- require_body ;;
  fields <- checked (validate_register body) ;;
  let '(identifier, pub_key) := fields in
  let capabilities := default node_default_caps (string_list body "capabilities") in
  let token := ca_header req "x-nps-enrollment-token" in
  let request := mkRequest entity_type identifier pub_key capabilities (scope_of body)
                   (opt_string_field body "metadata_json") token in
  outcome <- on_ra (rt_policy r rd request) ;;
  match outcome with
  | Deny e => call_ret (error_result e)
  | Pending id => call_ret (ca_json 202 (VObject [("pending_id", VString id); ("status", VString "queued")]))
  | Admit =>
    out <- on_service (register ca_opts (rt_signing_key r) (cr_now rd 1) entity_type identifier pub_key capabilities
             (scope_of body) (opt_string_field body "metadata_json")) ;;
    call_ret (answer_frame 201 out)
  end.

Definition route_register_x509 (entity_type : string) (node_default_caps : list string) : RouterCall CaResponse :=
  require_authorized ;;
  body <- require_body ;;
  fields <- checked (validate_register body) ;;
  let '(identifier, pub_key) := fields in
  let capabilities := default node_default_caps (string_list body "capabilities") in
  let assurance := parse_assurance (opt_string_field body "assurance_level") in
  out <- on_service (register_x509 ca_opts (rt_signing_key r) (cr_now rd 1) entity_type identifier pub_key capabilities
           (scope_of body) (Some assurance) (opt_string_field body "metadata_json")) ;;
  call_ret (answer_frame 201 out).

Definition check_opt_identifier (identifier : option string) : result string unit :=
  match identifier with
  | Some id => if valid_identifier id then Ok tt else Err bad_identifier
  | None => Ok tt
  end.
Definition check_pub_key (name pub_key : string) : result string unit :=
  if valid_pub_key pub_key then Ok tt else Err (name +:+ " must be 'ed25519:<base64url>'.").

Definition route_register_group : RouterCall CaResponse :=
  require_authorized ;;
  body <- require_body ;;
  let identifier := opt_string_field body "identifier" in
  checked (check_opt_identifier identifier) ;;
  let pub_key := default "" (opt_string_field body "pub_key") in
  checked (check_pub_key "pub_key" pub_key) ;;
  let capabilities := default [] (string_list body "capabilities") in
  out <- on_service (register_group ca_opts (rt_signing_key r) (cr_now rd 1) (cr_uuid rd) identifier pub_key capabilities
           (scope_of body) (opt_string_field body "owner_user_id") (opt_string_field body "owner_key_id")
           (opt_string_field body "metadata_json")) ;;
  call_ret (answer_frame 201 out).

Definition route_renew (nid : string) : RouterCall CaResponse :=
  require_authorized ;;
  out <- on_service (renew ca_opts (rt_signing_key r) (cr_now rd 1) (unescape nid)) ;;
  call_ret (answer_frame 200 out).

Definition body_string (key : string) : option string := v ← json_value; vget key v ≫= as_str.

Definition route_revoke (nid : string) : RouterCall CaResponse :=
  require_authorized ;;
  let reason := default "cessation_of_operation" (body_string "reason") in
  checked (if existsb (String.eqb reason) VALID_REVOCATION_REASONS then Ok tt
           else Err ("Invalid revocation reason '" +:+ reason +:+ "'. Allowed: " +:+ join ", " VALID_REVOCATION_REASONS +:+ ".")) ;;
  out <- on_service (ca_revoke ca_opts (rt_signing_key r) (cr_now rd 1) (unescape nid) reason) ;;
  call_ret (match out with Ok frame => ca_json 200 (revoke_frame_to_json frame) | Err e => error_result e end).

Definition ocsp_result (v : NipVerifyResult) : RouterCall CaResponse :=
  if cv_valid v then
    rec <- call_panic (cv_record v) ;;
    call_ret (ca_json 200 (VObject [("expires_at", VString (fmt_ts (c_expires_at rec))); ("nid", VString (c_nid rec));
                                    ("serial", VString (c_serial rec)); ("valid", VBool true)]))
  else
    let code := default CA_NID_NOT_FOUND (cv_error_code v) in
    call_ret (ca_json (if String.eqb code CA_NID_NOT_FOUND then 404 else 200)
      (VObject [("error_code", VString code); ("message", opt_string (cv_message v)); ("valid", VBool false)])).

Definition route_verify (nid : string) : RouterCall CaResponse :=
  v <- from_store (ca_verify (cr_now rd 0) (cr_now rd 1) (unescape nid)) ;;
  ocsp_result v.

(** What a session is issued for. *)
Record SessionRequest : Type := mkSessionRequest {
  sr_pub_key : string;
  sr_purpose : option string;
  sr_validity_seconds : option Z;
  sr_capabilities : option (list string);
  sr_scope_json : option string;
  sr_metadata_json : option string
}.
Definition session_request (v : Value) : SessionRequest :=
  mkSessionRequest (default "" (opt_string_field v "session_pub_key")) (opt_string_field v "purpose")
    (vget "validity_seconds" v ≫= as_i64) (string_list v "capabilities") (opt_string_field v "scope_json")
    (opt_string_field v "metadata_json").

Definition jws_fail {A} (code message : string) : RouterCall A := call_fail (ca_json 401 (coded code message)).
Definition ca_fail {A} (message code : string) : RouterCall A := call_fail (error_result (mkCaError message code)).

(** The group whose key must have signed. *)
Definition live_group (group_nid : string) : RouterCall NipCertRecord :=
  found <- from_store (get_cert group_nid) ;;
  match found with
  | None => ca_fail ("Group " +:+ group_nid +:+ " not found.") CA_PARENT_NOT_FOUND
  | Some g =>
    if negb (some_is (c_nid_role g) ROLE_GROUP) then ca_fail ("NID " +:+ group_nid +:+ " is not a group.") CA_PARENT_NOT_GROUP
    else match c_revoked_at g with
    | Some _ => ca_fail ("Group " +:+ group_nid +:+ " revoked.") CA_GROUP_REVOKED
    | None => call_ret g
    end
  end.

(** The difference of the clocks is a signed 64-bit integer. *)
Definition i64_abs_diff (a b : Z) : option Z :=
  let d := a - b in if (i64_min <? d) && (d <=? i64_max) then Some (Z.abs d) else None.

Definition require_fresh (payload : Value) : RouterCall unit :=
  let iat := default 0 (vget "iat" payload ≫= as_i64) in
  let skew := Z.quot (ro_session_jws_clock_skew opts) nanos_per_sec in
  let expired := jws_fail CA_JWS_EXPIRED ("JWS iat outside ±" +:+ fmt_Z skew +:+ "s window.") in
  if iat =? 0 then expired
  else
    age <- call_panic (i64_abs_diff (cr_now rd 0 / nanos_per_sec) iat) ;;
    if skew <? age then expired else call_ret tt.

Definition read_jws : option FlattenedJws :=
  v ← json_value; match flattened_from_value v with Ok j => Some j | Err _ => None end.

(** A request the group itself signed. *)
Definition signed_session (group_nid : string) : RouterCall SessionRequest :=
  jws <- call_result (ok_or read_jws (ca_bad_request "Invalid JWS body.")) ;;
  group <- live_group group_nid ;;
  match decode_public_key (c_pub_key group) with
  | None => jws_fail CA_JWS_INVALID "Group public key could not be decoded."
  | Some vk =>
    match try_verify jws vk with
    | Err code => jws_fail code "Group-JWS verification failed."
    | Ok verified =>
      if negb (String.eqb (jv_kid verified) group_nid)
      then jws_fail CA_JWS_INVALID
             ("JWS kid '" +:+ jv_kid verified +:+ "' does not match URL group_nid '" +:+ group_nid +:+ "'.")
      else match parse_json (jv_payload_json verified) with
      | Err _ => jws_fail CA_JWS_INVALID "JWS payload is not valid JSON."
      | Ok payload => require_fresh payload ;; call_ret (session_request payload)
      end
    end
  end.

(** A request of the operator. *)
Definition operator_session : RouterCall SessionRequest :=
  require_authorized ;;
  body <- require_body ;;
  call_ret (session_request body).

(** [str::contains]. *)
Fixpoint has_substring (h n : string) : bool :=
  starts_with n h || match h with String.String _ t => has_substring t n | EmptyString => false end.

Definition is_jws : bool :=
  has_substring (to_ascii_lowercase (default "" (ca_header req "content-type"))) "jose+json".

Definition session_params (sr : SessionRequest) : IssueSessionParams :=
  let positive := v ← sr_validity_seconds sr; if 0 <? v then Some v else None in
  mkSessionParams ((fun v => v * nanos_per_sec) <$> positive) (sr_purpose sr) (sr_capabilities sr) (sr_scope_json sr)
    (sr_metadata_json sr).

Definition route_issue_session (group_nid : string) : RouterCall CaResponse :=
  let group_nid := unescape group_nid in
  sr <- (if is_jws then signed_session group_nid else operator_session) ;;
  checked (check_pub_key "session_pub_key" (sr_pub_key sr)) ;;
  out <- on_service (issue_session ca_opts (rt_signing_key r) (cr_now rd 1) (cr_now rd 2) (cr_now rd 3) (cr_hex rd) group_nid
           (sr_pub_key sr) (session_params sr)) ;;
  call_ret (answer_frame 201 out).

Definition session_entry (x : NipCertRecord) : Value :=
  VObject [("expires_at", VString (fmt_ts (c_expires_at x))); ("issued_at", VString (fmt_ts (c_issued_at x)));
           ("nid", VString (c_nid x)); ("revoke_reason", opt_string (c_revoke_reason x));
           ("revoked_at", opt_ts (c_revoked_at x)); ("serial", VString (c_serial x))].
Definition route_list_group_sessions (group_nid : string) : RouterCall CaResponse :=
  let group_nid := unescape group_nid in
  sessions <- from_store (list_sessions group_nid) ;;
  call_ret (ca_json 200 (VObject [("count", vnat (Z.of_nat (length sessions))); ("group_nid", VString group_nid);
                                  ("sessions", VArray (map session_entry sessions))])).

(** ** Enrollment *)

Definition route_create_token : RouterCall CaResponse :=
  require_authorized ;;
  if negb (rt_bootstrap_store r)
  then call_fail (ca_bad_request "Bootstrap token enrollment is not enabled on this CA.")
  else
    let body := default VNull json_value in
    let requested := v ← vget "ttl_seconds" body ≫= as_i64; if 0 <? v then Some (v * nanos_per_sec) else None in
    let ttl := clamp_bootstrap_ttl (ro_bootstrap_token_max_ttl opts) requested in
    let label := vget "label" body ≫= as_str in
    expires_at <- call_panic (date_add (cr_now rd 0) ttl) ;;
    raw <- on_ra (fun ra => let '(raw, t) := token_create (cr_now rd 1) (cr_token_bytes rd) (cr_token_id rd) (ra_tokens ra) label expires_at in
                            (raw, set_tokens t ra)) ;;
    call_ret (ca_json 201 (VObject [("expires_at", VString (fmt_ts expires_at)); ("label", opt_string label); ("token", VString raw)])).

Definition require_pending_store : RouterCall unit :=
  if rt_pending_store r then call_ret tt else call_fail pending_disabled.

Definition pending_entry (p : PendingRegistration) : Value :=
  VObject [("capabilities", vstrings (rq_capabilities (pn_request p))); ("entity_type", VString (rq_entity_type (pn_request p)));
           ("id", VString (pn_id p)); ("identifier", VString (rq_identifier (pn_request p)));
           ("pub_key", VString (rq_pub_key (pn_request p))); ("reject_reason", opt_string (pn_reject_reason p));
           ("requested_at", VString (fmt_ts (pn_requested_at p))); ("scope_json", VString (rq_scope_json (pn_request p)));
           ("status", VString (as_wire (pn_status p)))].
Definition route_list_pending : RouterCall CaResponse :=
  require_authorized ;;
  require_pending_store ;;
  records <- from_ra ra_pending ;;
  call_ret (ca_json 200 (VObject [("count", vnat (Z.of_nat (length records))); ("items", VArray (map pending_entry records))])).

Definition already (id : string) (p : PendingRegistration) : CaResponse :=
  ca_json 409 (coded "NIP-CA-BAD-REQUEST" ("Record '" +:+ id +:+ "' is already " +:+ as_wire (pn_status p) +:+ ".")).

Definition route_approve_pending (id : string) : RouterCall CaResponse :=
  require_pending_store ;;
  found <- from_ra (fun ra => pending_get (ra_pending ra) id) ;;
  record <- call_result (ok_or found (ca_json 404 (coded CA_NID_NOT_FOUND ("Pending registration '" +:+ id +:+ "' not found.")))) ;;
  if negb (bool_decide (pn_status record = PsPending)) then call_fail (already id record)
  else
    let q := pn_request record in
    out <- on_service (register ca_opts (rt_signing_key r) (cr_now rd 1) (rq_entity_type q) (rq_identifier q) (rq_pub_key q)
             (rq_capabilities q) (rq_scope_json q) (rq_metadata_json q)) ;;
    match out with
    | Err e => call_ret (error_result e)
    | Ok frame =>
      on_ra (fun ra => let '(b, p) := pending_approve (ra_pending ra) id in (b, set_pending p ra)) ;;
      call_ret (ca_json 201 (frame_to_json frame))
    end.

Definition route_reject_pending (id : string) : RouterCall CaResponse :=
  require_pending_store ;;
  let reason := default "rejected_by_operator" (body_string "reason") in
  done_ <- on_ra (fun ra => let '(b, p) := pending_reject (ra_pending ra) id reason in (b, set_pending p ra)) ;;
  if done_ : bool
  then call_ret (ca_json 200 (VObject [("id", VString id); ("reason", VString reason); ("status", VString "rejected")]))
  else
    found <- from_ra (fun ra => pending_get (ra_pending ra) id) ;;
    match found with
    | None => call_ret (ca_json 404 (coded "NIP-CA-BAD-REQUEST" ("Pending registration '" +:+ id +:+ "' not found.")))
    | Some p => call_ret (already id p)
    end.

(** ** Routing *)

(** A route with a segment: taken when the segment is there and the method fits. *)
Definition on_segment (method : string) (seg : option string) (handler : string -> RouterCall CaResponse)
    (next : RouterCall CaResponse) : RouterCall CaResponse :=
  match seg with
  | Some x => if String.eqb (cq_method req) method then handler x else next
  | None => next
  end.
Definition or_else {A} (a b : option A) : option A := match a with Some x => Some x | None => b end.
Definition agent_or_node (suffix : string) : option string :=
  or_else (seg_between rel "/v1/agents/" suffix) (seg_between rel "/v1/nodes/" suffix).

Definition ca_route : RouterCall CaResponse :=
  let method_is m := String.eqb (cq_method req) m in
  let at_ m p := method_is m && String.eqb rel p in
  if method_is "GET" && String.eqb (cq_path req) "/.well-known/nps-ca" then call_ret discovery
  else if at_ "GET" "/v1/ca/cert"
  then call_ret (ca_json 200 (VObject [("algorithm", VString "ed25519"); ("public_key", VString (get_ca_public_key (rt_signing_key r)))]))
  else if at_ "GET" "/v1/crl" then route_crl
  else if at_ "GET" "/v1/certificates" then route_certificates
  else if at_ "POST" "/v1/agents/register" then route_register "agent" []
  else if at_ "POST" "/v1/nodes/register" then route_register "node" node_caps
  else if at_ "POST" "/v1/agents/register-x509" then route_register_x509 "agent" []
  else if at_ "POST" "/v1/nodes/register-x509" then route_register_x509 "node" node_caps
  else if at_ "POST" "/v1/orchestrators/groups/register" then route_register_group
  else if at_ "POST" "/v1/enrollment/tokens" then route_create_token
  else if at_ "GET" "/v1/enrollment/pending" then route_list_pending
  else
    on_segment "POST" (agent_or_node "/renew") route_renew
    (on_segment "POST" (agent_or_node "/revoke") route_revoke
    (on_segment "GET" (agent_or_node "/verify") route_verify
    (on_segment "POST" (seg_between rel "/v1/orchestrators/groups/" "/sessions/issue") route_issue_session
    (on_segment "GET" (seg_between rel "/v1/orchestrators/groups/" "/sessions") route_list_group_sessions
    (on_segment "POST" (seg_between rel "/v1/orchestrators/groups/" "/revoke") route_revoke
    (on_segment "POST" (seg_between rel "/v1/enrollment/pending/" "/approve") route_approve_pending
    (on_segment "POST" (seg_between rel "/v1/enrollment/pending/" "/reject") route_reject_pending
    (call_ret (ca_json 404 (coded "NIP-CA-NOT-FOUND" "No route matches.")))))))))).

Definition ca_handle (w : World) : option (CaResponse * World) :=
  match ca_route w with
  | None => None
  | Some (Ok x, w) | Some (Err x, w) => Some (x, w)
  end.
End router.
