(* ===== verification/NipCaSqlStore.v ===== *)
(** * NipCaSqlStore: the certificate store over SQL

    Models nps-nip/src/ca/sql_store.rs: the statements of the store, the
    mapping between rows and records, and the executor that interprets the
    statements over a table in memory.  An executor acts on a state of its
    own; dates and JSON texts are written and read by parameters.

    The store over its in-memory executor is held against the in-memory store
    of NipCaStore, the specification the CA service is verified with: a row
    represents a record, every operation keeps the representation and answers
    alike. *)

From S2P Require Import Prelude RustStr Floats Json CoreFrames CoreCache NipCaStore NipCaRouter.
Local Open Scope Z_scope.

Inductive CaSqlDialect : Type := Sqlite | Postgres.
Inductive CaSqlValue : Type := CaNull | CaText (s : string) | CaInt (n : Z).
Abbreviation CaSqlRow := (gmap string CaSqlValue).
Abbreviation CaSqlParams := (list (string * CaSqlValue)).

Record CaSqlExecutor {W : Type} : Type := mkCaExecutor {
  cx_execute : string -> CaSqlParams -> W -> result string Z * W;
  cx_query : string -> CaSqlParams -> W -> result string (list CaSqlRow) * W;
  cx_next_serial_seq : W -> option (result string Z * W)
}.
Arguments CaSqlExecutor : clear implicits.

(** ** The statements *)

Definition nl : string := String.String (ascii_of 10) "".

Definition SQLITE_SCHEMA : list string := [
  join nl ["CREATE TABLE IF NOT EXISTS nip_certs (";
    "nid               TEXT NOT NULL,"; "entity_type       TEXT NOT NULL,"; "serial            TEXT NOT NULL UNIQUE,";
    "pub_key           TEXT NOT NULL,"; "capabilities_json TEXT NOT NULL DEFAULT '[]',";
    "scope_json        TEXT NOT NULL DEFAULT '{}',"; "issued_by         TEXT NOT NULL,";
    "issued_at         TEXT NOT NULL,"; "expires_at        TEXT NOT NULL,"; "revoked_at        TEXT,";
    "revoke_reason     TEXT,"; "metadata_json     TEXT,"; "nid_role          TEXT,"; "parent_nid        TEXT,";
    "lineage_json      TEXT"; ")"];
  "CREATE INDEX IF NOT EXISTS idx_nip_certs_nid        ON nip_certs (nid)";
  "CREATE INDEX IF NOT EXISTS idx_nip_certs_serial     ON nip_certs (serial)";
  "CREATE INDEX IF NOT EXISTS idx_nip_certs_parent_nid ON nip_certs (parent_nid)";
  join nl ["CREATE TABLE IF NOT EXISTS nip_serial ("; "id   INTEGER PRIMARY KEY,"; "seq  INTEGER NOT NULL DEFAULT 0"; ")"];
  "INSERT OR IGNORE INTO nip_serial (id, seq) VALUES (1, 0)"].

Definition INSERT_SQL : string :=
  "INSERT INTO nip_certs (nid, entity_type, serial, pub_key, capabilities_json, scope_json, " +:+
  "issued_by, issued_at, expires_at, metadata_json, nid_role, parent_nid, lineage_json) VALUES " +:+
  "(@Nid, @EntityType, @Serial, @PubKey, @CapJson, @ScopeJson, @IssuedBy, @IssuedAt, @ExpiresAt, @MetaJson, " +:+
  "@NidRole, @ParentNid, @LineageJson)".
Definition GET_BY_NID_SQL : string := "SELECT * FROM nip_certs WHERE nid = @Nid ORDER BY issued_at DESC LIMIT 1".
Definition GET_BY_SERIAL_SQL : string := "SELECT * FROM nip_certs WHERE serial = @Serial LIMIT 1".
Definition REVOKE_SQL : string :=
  "UPDATE nip_certs SET revoked_at = @RevokedAt, revoke_reason = @Reason WHERE nid = @Nid AND revoked_at IS NULL".
Definition LIST_SQL : string := "SELECT * FROM nip_certs ORDER BY issued_at DESC".
Definition GET_REVOKED_SQL : string := "SELECT * FROM nip_certs WHERE revoked_at IS NOT NULL ORDER BY revoked_at DESC".
Definition GET_BY_PARENT_SQL : string := "SELECT * FROM nip_certs WHERE parent_nid = @ParentNid ORDER BY issued_at DESC".

(** Dates as RFC 3339 texts. *)
Class CaDates : Type := { format_rfc3339 : Z -> option string; parse_rfc3339_dt : string -> option Z }.

Section store.
Context {D : Digests} {J : JsonParser} {DT : CaDates}.

(** ** Rows and records *)

Definition fmt_dt (dt : Z) : string := default "" (format_rfc3339 dt).
Definition parse_dt (s : string) : Z := default 0 (parse_rfc3339_dt s).
Definition opt_text (v : option string) : CaSqlValue := match v with Some s => CaText s | None => CaNull end.
Definition cell_text (row : CaSqlRow) (col : string) : option string :=
  match row !! col with Some (CaText s) => Some s | _ => None end.

(** [serde_json::from_str] into a vector of strings. *)
Definition strings_from_str (s : string) : option (list string) :=
  match parse_json s with
  | Ok (VArray l) => mapM as_str l
  | _ => None
  end.

Definition read_record (row : CaSqlRow) : NipCertRecord :=
  let text col := default "" (cell_text row col) in
  let date col := default 0 (parse_dt <$> cell_text row col) in
  mkRecord (text "nid") (text "entity_type") (text "serial") (text "pub_key")
    (default [] (cell_text row "capabilities_json" ≫= strings_from_str)) (default "{}" (cell_text row "scope_json"))
    (text "issued_by") (date "issued_at") (date "expires_at") (parse_dt <$> cell_text row "revoked_at")
    (cell_text row "revoke_reason") (cell_text row "metadata_json") (cell_text row "nid_role")
    (cell_text row "parent_nid") (cell_text row "lineage_json").

Definition insert_params (r : NipCertRecord) : CaSqlParams :=
  [("@Nid", CaText (c_nid r)); ("@EntityType", CaText (c_entity_type r)); ("@Serial", CaText (c_serial r));
   ("@PubKey", CaText (c_pub_key r)); ("@CapJson", CaText (json_to_string (vstrings (c_capabilities r))));
   ("@ScopeJson", CaText (c_scope_json r)); ("@IssuedBy", CaText (c_issued_by r));
   ("@IssuedAt", CaText (fmt_dt (c_issued_at r))); ("@ExpiresAt", CaText (fmt_dt (c_expires_at r)));
   ("@MetaJson", opt_text (c_metadata_json r)); ("@NidRole", opt_text (c_nid_role r));
   ("@ParentNid", opt_text (c_parent_nid r)); ("@LineageJson", opt_text (c_lineage_json r))].

(** ** The store *)

Section operations.
Context {W : Type}.

Record SqlNipCaStore : Type := mkSqlCaStore { sq_executor : CaSqlExecutor W; sq_dialect : CaSqlDialect }.
Definition ca_sqlite (e : CaSqlExecutor W) : SqlNipCaStore := mkSqlCaStore e Sqlite.
Definition ca_postgres (e : CaSqlExecutor W) : SqlNipCaStore := mkSqlCaStore e Postgres.

Context (self : SqlNipCaStore).

Fixpoint run_schema (stmts : list string) (w : W) : result string unit * W :=
  match stmts with
  | [] => (Ok tt, w)
  | stmt :: stmts =>
    match cx_execute (sq_executor self) stmt [] w with
    | (Ok _, w) => run_schema stmts w
    | (Err e, w) => (Err e, w)
    end
  end.
Definition migrate : W -> result string unit * W := run_schema SQLITE_SCHEMA.

Definition sql_save (r : NipCertRecord) (w : W) : result StoreError unit * W :=
  let '(out, w) := cx_execute (sq_executor self) INSERT_SQL (insert_params r) w in
  (match out with Ok _ => Ok tt | Err _ => Err (SerialExists (c_serial r)) end, w).

Definition first_record (out : result string (list CaSqlRow)) : option NipCertRecord :=
  match out with Ok rows => read_record <$> head rows | Err _ => None end.
Definition all_records (out : result string (list CaSqlRow)) : list NipCertRecord :=
  match out with Ok rows => map read_record rows | Err _ => [] end.

Definition sql_get_by_nid (nid : string) (w : W) : option NipCertRecord * W :=
  let '(out, w) := cx_query (sq_executor self) GET_BY_NID_SQL [("@Nid", CaText nid)] w in (first_record out, w).
Definition sql_get_by_serial (serial : string) (w : W) : option NipCertRecord * W :=
  let '(out, w) := cx_query (sq_executor self) GET_BY_SERIAL_SQL [("@Serial", CaText serial)] w in (first_record out, w).
Definition sql_revoke (nid reason : string) (revoked_at : Z) (w : W) : bool * W :=
  let '(out, w) := cx_execute (sq_executor self) REVOKE_SQL
                     [("@Nid", CaText nid); ("@Reason", CaText reason); ("@RevokedAt", CaText (fmt_dt revoked_at))] w in
  (match out with Ok n => 0 <? n | Err _ => false end, w).
(** [{:X}] of an [i64] prints its 64 bits. *)
Definition sql_next_serial (w : W) : option (string * W) :=
  '(out, w) ← cx_next_serial_seq (sq_executor self) w;
  Some (fmt_serial (match out with Ok n => n | Err _ => 0 end mod 2 ^ 64), w).
Definition sql_list (w : W) : list NipCertRecord * W :=
  let '(out, w) := cx_query (sq_executor self) LIST_SQL [] w in (all_records out, w).
Definition sql_get_revoked (w : W) : list NipCertRecord * W :=
  let '(out, w) := cx_query (sq_executor self) GET_REVOKED_SQL [] w in (all_records out, w).
Definition sql_get_by_parent_nid (parent_nid : string) (w : W) : list NipCertRecord * W :=
  let '(out, w) := cx_query (sq_executor self) GET_BY_PARENT_SQL [("@ParentNid", CaText parent_nid)] w in
  (all_records out, w).
End operations.
End store.
Arguments SqlNipCaStore : clear implicits.

(** ** The executor over a table in memory *)

Record ExecInner : Type := mkExecInner { xi_rows : list CaSqlRow; xi_seq : Z; xi_sql_log : list string }.
Definition exec_new : ExecInner := mkExecInner [] 0 [].
Definition log_sql (sql : string) (g : ExecInner) : ExecInner := mkExecInner (xi_rows g) (xi_seq g) (xi_sql_log g ++ [sql]).
Definition set_rows (rows : list CaSqlRow) (g : ExecInner) : ExecInner := mkExecInner rows (xi_seq g) (xi_sql_log g).

Definition param (params : CaSqlParams) (name : string) : option CaSqlValue :=
  snd <$> List.find (fun nv => String.eqb (fst nv) name) params.
Definition param_text (params : CaSqlParams) (name : string) : option string :=
  match param params name with Some (CaText s) => Some s | _ => None end.

Definition column_for_param (p : string) : string :=
  if String.eqb p "@Nid" then "nid" else if String.eqb p "@EntityType" then "entity_type"
  else if String.eqb p "@Serial" then "serial" else if String.eqb p "@PubKey" then "pub_key"
  else if String.eqb p "@CapJson" then "capabilities_json" else if String.eqb p "@ScopeJson" then "scope_json"
  else if String.eqb p "@IssuedBy" then "issued_by" else if String.eqb p "@IssuedAt" then "issued_at"
  else if String.eqb p "@ExpiresAt" then "expires_at" else if String.eqb p "@MetaJson" then "metadata_json"
  else if String.eqb p "@NidRole" then "nid_role" else if String.eqb p "@ParentNid" then "parent_nid"
  else if String.eqb p "@LineageJson" then "lineage_json" else "unknown".

Definition has_text (col text : string) (row : CaSqlRow) : bool := bool_decide (cell_text row col = Some text).
Definition has_revoked (row : CaSqlRow) : bool :=
  match row !! "revoked_at" with Some (CaText _) => true | _ => false end.

Definition inserted_row (params : CaSqlParams) : CaSqlRow :=
  fold_left (fun row nv => <[column_for_param (fst nv) := snd nv]> row) params ∅.

(** [rposition], then the update of that row. *)
Fixpoint update_last (p : CaSqlRow -> bool) (f : CaSqlRow -> CaSqlRow) (rows : list CaSqlRow) : bool * list CaSqlRow :=
  match rows with
  | [] => (false, [])
  | row :: rest =>
    let '(found, rest') := update_last p f rest in
    if found then (true, row :: rest')
    else if p row then (true, f row :: rest) else (false, row :: rest)
  end.

Definition mem_execute (sql : string) (params : CaSqlParams) (g : ExecInner) : result string Z * ExecInner :=
  let g := log_sql sql g in
  let text name := default "" (param_text params name) in
  if starts_with "CREATE" sql || starts_with "INSERT OR IGNORE" sql then (Ok 0, g)
  else if starts_with "INSERT INTO nip_certs" sql then
    let serial := text "@Serial" in
    if existsb (has_text "serial" serial) (xi_rows g) then (Err ("serial exists: " +:+ serial), g)
    else (Ok 1, set_rows (xi_rows g ++ [inserted_row params]) g)
  else if starts_with "UPDATE nip_certs" sql then
    let nid := text "@Nid" in
    let value name := default CaNull (param params name) in
    let '(found, rows) := update_last (fun row => has_text "nid" nid row && negb (has_revoked row))
      (fun row => <["revoke_reason" := value "@Reason"]> (<["revoked_at" := value "@RevokedAt"]> row)) (xi_rows g) in
    if found then (Ok 1, set_rows rows g) else (Ok 0, g)
  else (Ok 0, g).

(** The stable sort by descending key. *)
Fixpoint insert_desc {A} (key : A -> string) (x : A) (l : list A) : list A :=
  match l with
  | [] => [x]
  | y :: l' => if String.leb (key y) (key x) then x :: l else y :: insert_desc key x l'
  end.
Definition sort_desc {A} (key : A -> string) (l : list A) : list A := fold_right (insert_desc key) [] l.

Definition selected (sql : string) (params : CaSqlParams) (rows : list CaSqlRow) : list CaSqlRow :=
  let text name := default "" (param_text params name) in
  if has_substring sql "WHERE nid = @Nid" then List.filter (has_text "nid" (text "@Nid")) rows
  else if has_substring sql "WHERE serial = @Serial" then List.filter (has_text "serial" (text "@Serial")) rows
  else if has_substring sql "WHERE parent_nid = @ParentNid" then List.filter (has_text "parent_nid" (text "@ParentNid")) rows
  else if has_substring sql "WHERE revoked_at IS NOT NULL" then List.filter has_revoked rows
  else rows.

Definition issued_key (row : CaSqlRow) : string := default "" (cell_text row "issued_at").

Definition mem_query (sql : string) (params : CaSqlParams) (g : ExecInner) : result string (list CaSqlRow) * ExecInner :=
  let rows := selected sql params (xi_rows g) in
  let rows := if has_substring sql "ORDER BY issued_at DESC" then sort_desc issued_key rows else rows in
  (Ok (if has_substring sql "LIMIT 1" then take 1 rows else rows), log_sql sql g).

(** [None] is the overflow of the counter. *)
Definition mem_next_serial_seq (g : ExecInner) : option (result string Z * ExecInner) :=
  if xi_seq g =? i64_max then None
  else Some (Ok (xi_seq g + 1), mkExecInner (xi_rows g) (xi_seq g + 1) (xi_sql_log g)).

Definition InMemoryCaSqlExecutor : CaSqlExecutor ExecInner := {|
  cx_execute := mem_execute; cx_query := mem_query; cx_next_serial_seq := mem_next_serial_seq |}.

(** ** The store implements the store of the CA *)

Local Open Scope Z_scope.

(** ** Sorting *)

Lemma insert_desc_perm {A} (key : A -> string) x l : insert_desc key x l ≡ₚ x :: l.
Proof. induction l as [|y l IH]; [done|]. cbn. case_match; [done|]. rewrite IH. apply Permutation_swap. Qed.

Lemma sort_desc_perm {A} (key : A -> string) l : sort_desc key l ≡ₚ l.
Proof. induction l as [|x l IH]; [done|]. cbn. by rewrite insert_desc_perm, IH. Qed.

Lemma leb_trans a b c : String.leb a b = true -> String.leb b c = true -> String.leb a c = true.
Proof. intros Hab Hbc. apply Is_true_true. change (String.le a c). transitivity b; by apply Is_true_true. Qed.

Lemma leb_flip a b : String.leb a b = false -> String.leb b a = true.
Proof. intros H. destruct (String.leb_total a b) as [E|E]; [by rewrite E in H|done]. Qed.

(** The first, in the order of a list, of the elements with the greatest key. *)
Definition first_greatest {A} (key : A -> string) (l : list A) (r : A) : Prop := exists a b, l = a ++ r :: b /\
  Forall (fun y => String.leb (key r) (key y) = false) a /\ Forall (fun y => String.leb (key y) (key r) = true) b.

Lemma sort_desc_first {A} (key : A -> string) l r : head (sort_desc key l) = Some r -> first_greatest key l r.
Proof.
  revert r. induction l as [|x l IH]; [done|]. intros r. cbn [sort_desc fold_right].
  change (fold_right (insert_desc key) [] l) with (sort_desc key l).
  destruct (sort_desc key l) as [|z zs] eqn:E.
  - intros [= <-]. exists [], l. split; [done|]. split; [constructor|].
    pose proof (sort_desc_perm key l) as P. rewrite E in P. apply Permutation_nil in P. subst l. constructor.
  - specialize (IH z eq_refl) as (a & b & -> & Ha & Hb). cbn [insert_desc].
    destruct (String.leb (key z) (key x)) eqn:Ez; cbn [head]; intros [= <-].
    + exists [], (a ++ z :: b). split; [done|]. split; [constructor|]. apply Forall_app. split; [|constructor; [done|]].
      * eapply Forall_impl; [exact Ha|]. intros y Hy. cbn in Hy. by rewrite (leb_trans _ _ _ (leb_flip _ _ Hy) Ez).
      * eapply Forall_impl; [exact Hb|]. intros y Hy. cbn in Hy. by rewrite (leb_trans _ _ _ Hy Ez).
    + exists (x :: a), b. split; [done|]. split; [by constructor|done].
Qed.

(** Where every key is below those of the elements after it, the last one. *)
Lemma first_greatest_last {A} (key : A -> string) a r b : first_greatest key (a ++ [r]) b ->
  Forall (fun y => String.leb (key r) (key y) = false) a -> b = r.
Proof.
  intros (c & d & E & _ & Hd) Ha. destruct d as [|x d' _] using rev_ind.
  - by apply app_inj_tail in E as [_ ->].
  - rewrite app_comm_cons, app_assoc in E. apply app_inj_tail in E as [-> ->].
    apply Forall_app in Ha as [_ [Hb _]%Forall_cons]. apply Forall_app in Hd as [_ [Hx _]%Forall_cons]. congruence.
Qed.

Section refinement.
Context {D : Digests} {J : JsonParser} {DT : CaDates}.

(** ** Rows represent records *)

Definition row_of (r : NipCertRecord) : CaSqlRow :=
  let row := inserted_row (insert_params r) in
  match c_revoked_at r with
  | Some t => <["revoke_reason" := CaText (default "" (c_revoke_reason r))]> (<["revoked_at" := CaText (fmt_dt t)]> row)
  | None => row
  end.

(** A date that is written and read back, and a record the table can hold. *)
Definition readable (t : Z) : Prop := exists s, format_rfc3339 t = Some s /\ parse_rfc3339_dt s = Some t.
Record kept (r : NipCertRecord) : Prop := {
  kp_issued : readable (c_issued_at r);
  kp_expires : readable (c_expires_at r);
  kp_capabilities : parse_json (json_to_string (vstrings (c_capabilities r))) = Ok (vstrings (c_capabilities r));
  kp_revoked : match c_revoked_at r with
               | Some t => readable t /\ exists reason, c_revoke_reason r = Some reason
               | None => c_revoke_reason r = None
               end
}.

(** The cells of a row, by their column. *)
Lemma row_cells r :
  cell_text (row_of r) "nid" = Some (c_nid r) /\ cell_text (row_of r) "serial" = Some (c_serial r) /\
  cell_text (row_of r) "parent_nid" = c_parent_nid r /\ cell_text (row_of r) "issued_at" = Some (fmt_dt (c_issued_at r)) /\
  has_revoked (row_of r) = is_revoked r.
Proof.
  unfold row_of, is_revoked, cell_text, has_revoked. destruct (c_revoked_at r); cbn; destruct (c_parent_nid r); vm_compute; done.
Qed.

Lemma parse_fmt t : readable t -> parse_dt (fmt_dt t) = t.
Proof. intros (s & E1 & E2). unfold parse_dt, fmt_dt. by rewrite E1; cbn; rewrite E2. Qed.

Lemma mapM_as_str l : mapM as_str (map VString l) = Some l.
Proof. induction l as [|x l IH]; [done|]. cbn. by rewrite IH. Qed.

(** A record is read back from its row. *)
Lemma read_row r : kept r -> read_record (row_of r) = r.
Proof.
  intros [Hi He Hc Hr].
  assert (Ei := parse_fmt _ Hi). assert (Ee := parse_fmt _ He).
  assert (Ec : strings_from_str (json_to_string (vstrings (c_capabilities r))) = Some (c_capabilities r))
    by (unfold strings_from_str; rewrite Hc; apply mapM_as_str).
  assert (Cells : read_record (row_of r)
    = mkRecord (c_nid r) (c_entity_type r) (c_serial r) (c_pub_key r)
        (default [] (strings_from_str (json_to_string (vstrings (c_capabilities r))))) (c_scope_json r) (c_issued_by r)
        (parse_dt (fmt_dt (c_issued_at r))) (parse_dt (fmt_dt (c_expires_at r)))
        (parse_dt <$> (fmt_dt <$> c_revoked_at r)) (match c_revoked_at r with Some _ => Some (default "" (c_revoke_reason r)) | None => None end)
        (c_metadata_json r) (c_nid_role r) (c_parent_nid r) (c_lineage_json r)).
  { clear. destruct r as [? ? ? ? ? ? ? ? ? [t|] ? [m|] [n|] [p|] [l|]]; vm_compute; reflexivity. }
  rewrite Cells, Ei, Ee, Ec. destruct r as [? ? ? ? ? ? ? ? ? [t|] reason ? ? ? ?]; cbn in *.
  - destruct Hr as [Ht (x & ->)]. by rewrite (parse_fmt _ Ht).
  - by rewrite Hr.
Qed.

Lemma cell_nid r nid : has_text "nid" nid (row_of r) = String.eqb (c_nid r) nid.
Proof. unfold has_text. destruct (row_cells r) as (-> & _). destruct (String.eqb_spec (c_nid r) nid); case_bool_decide; congruence. Qed.
Lemma cell_serial r x : has_text "serial" x (row_of r) = String.eqb (c_serial r) x.
Proof. unfold has_text. destruct (row_cells r) as (_ & -> & _). destruct (String.eqb_spec (c_serial r) x); case_bool_decide; congruence. Qed.
Lemma cell_parent r p : has_text "parent_nid" p (row_of r) = bool_decide (c_parent_nid r = Some p).
Proof. unfold has_text. by destruct (row_cells r) as (_ & _ & -> & _). Qed.
Lemma cell_issued r : issued_key (row_of r) = fmt_dt (c_issued_at r).
Proof. unfold issued_key. by destruct (row_cells r) as (_ & _ & _ & -> & _). Qed.
Lemma cell_revoked r : has_revoked (row_of r) = is_revoked r.
Proof. by destruct (row_cells r) as (_ & _ & _ & _ & ->). Qed.

(** Revoking a live row is revoking its record. *)
Lemma revoked_row r reason t : is_revoked r = false ->
  <["revoke_reason" := CaText reason]> (<["revoked_at" := CaText (fmt_dt t)]> (row_of r)) = row_of (set_revoked reason t r).
Proof. unfold is_revoked. destruct r as [? ? ? ? ? ? ? ? ? [?|] ? ? ? ? ?]; [done|]. by intros _. Qed.

Lemma kept_revoked r reason t : kept r -> readable t -> kept (set_revoked reason t r).
Proof. intros [Hi He Hc _] Ht. split; cbn; eauto. Qed.

(** ** States *)

Record represents (g : Inner) (x : ExecInner) : Prop := {
  rp_rows : xi_rows x = map row_of (records g);
  rp_seq : xi_seq x = serial g;
  rp_kept : Forall kept (records g)
}.

Lemma represents_new : represents store_new exec_new.
Proof. by split. Qed.

Lemma filter_rows (p : CaSqlRow -> bool) (q : NipCertRecord -> bool) l : (forall r, p (row_of r) = q r) ->
  List.filter p (map row_of l) = map row_of (List.filter q l).
Proof. intros Hp. induction l as [|r l IH]; [done|]. cbn. rewrite Hp. destruct (q r); cbn; by rewrite IH. Qed.

Lemma read_rows l : Forall kept l -> map read_record (map row_of l) = l.
Proof. intros H. induction H as [|r l Hr H IH]; [done|]. cbn. by rewrite read_row, IH. Qed.

Lemma kept_filter q l : Forall kept l -> Forall kept (List.filter q l).
Proof. rewrite !Forall_forall. intros H x Hx. apply H. apply list_elem_of_In, filter_In in Hx as [Hx _]. by apply list_elem_of_In. Qed.

Lemma head_filter {A} (q : A -> bool) l : head (List.filter q l) = List.find q l.
Proof. induction l as [|x l IH]; [done|]. cbn. by destruct (q x). Qed.

Lemma sort_rows l : sort_desc issued_key (map row_of l) = map row_of (sort_desc (fun r => fmt_dt (c_issued_at r)) l).
Proof.
  set (key r := fmt_dt (c_issued_at r)). induction l as [|r l IH]; [done|].
  change (insert_desc issued_key (row_of r) (sort_desc issued_key (map row_of l)) = map row_of (insert_desc key r (sort_desc key l))).
  rewrite IH. generalize (sort_desc key l) as m.
  induction m as [|y m IHm]; [done|]. cbn. rewrite !cell_issued. fold (key y) (key r). case_match; [done|]. cbn. by rewrite IHm.
Qed.

(** ** Operations *)

Abbreviation sql := (ca_sqlite InMemoryCaSqlExecutor).

Lemma exists_rows x l : existsb (has_text "serial" x) (map row_of l) = existsb (fun r => String.eqb (c_serial r) x) l.
Proof. induction l as [|r l IH]; [done|]. cbn. by rewrite cell_serial, IH. Qed.

Lemma sql_save_sim r g x : represents g x -> kept r -> c_revoked_at r = None ->
  fst (sql_save sql r x) = fst (mem_save r g) /\ represents (snd (mem_save r g)) (snd (sql_save sql r x)).
Proof.
  intros [Hrows Hseq Hk] Hr Hn. unfold sql_save. cbn [sq_executor ca_sqlite cx_execute InMemoryCaSqlExecutor].
  assert (E : mem_execute INSERT_SQL (insert_params r) x
    = if existsb (has_text "serial" (c_serial r)) (xi_rows x)
      then (Err ("serial exists: " +:+ c_serial r), log_sql INSERT_SQL x)
      else (Ok 1, set_rows (xi_rows x ++ [inserted_row (insert_params r)]) (log_sql INSERT_SQL x))) by reflexivity.
  rewrite E. clear E. unfold mem_save. rewrite Hrows, exists_rows. destruct (existsb _ (records g)); cbn; (split; [done|]).
  - split; [done..|]. done.
  - assert (Er : row_of r = inserted_row (insert_params r)) by (unfold row_of; by rewrite Hn).
    split; cbn -[inserted_row insert_params]; [by rewrite map_app; cbn [map]; rewrite Er|done|].
    apply Forall_app. split; [done|]. by apply Forall_singleton.
Qed.

(** The rows change as the records do. *)
Lemma update_rows nid reason t l :
  update_last (fun row => has_text "nid" nid row && negb (has_revoked row))
    (fun row => <["revoke_reason" := CaText reason]> (<["revoked_at" := CaText (fmt_dt t)]> row)) (map row_of l)
  = (fst (revoke_last nid reason t l), map row_of (snd (revoke_last nid reason t l))).
Proof.
  induction l as [|r l IH]; [done|]. cbn [map update_last revoke_last]. rewrite IH.
  destruct (revoke_last nid reason t l) as [[] l']; [done|]. cbn [fst snd].
  rewrite cell_nid, cell_revoked. destruct (String.eqb (c_nid r) nid); cbn [andb]; [|done].
  destruct (is_revoked r) eqn:Er; cbn [negb]; [done|]. cbn. by rewrite revoked_row.
Qed.

Lemma sql_revoke_sim nid reason t g x : represents g x -> readable t ->
  fst (sql_revoke sql nid reason t x) = fst (mem_revoke nid reason t g) /\
  represents (snd (mem_revoke nid reason t g)) (snd (sql_revoke sql nid reason t x)).
Proof.
  intros [Hrows Hseq Hk] Ht. unfold sql_revoke. cbn [sq_executor ca_sqlite cx_execute InMemoryCaSqlExecutor].
  assert (E : mem_execute REVOKE_SQL [("@Nid", CaText nid); ("@Reason", CaText reason); ("@RevokedAt", CaText (fmt_dt t))] x
    = let '(found, rows) := update_last (fun row => has_text "nid" nid row && negb (has_revoked row))
        (fun row => <["revoke_reason" := CaText reason]> (<["revoked_at" := CaText (fmt_dt t)]> row)) (xi_rows x) in
      if found then (Ok 1, set_rows rows (log_sql REVOKE_SQL x)) else (Ok 0, log_sql REVOKE_SQL x)) by reflexivity.
  rewrite E, Hrows, update_rows. clear E. unfold mem_revoke.
  pose proof (revoke_last_spec nid reason t (records g)) as Hs.
  destruct (revoke_last nid reason t (records g)) as [[] l']; cbn [fst snd]; (split; [done|]).
  - split; cbn; [done..|]. destruct Hs as (a & r & b & El & -> & _). rewrite El in Hk.
    apply Forall_app in Hk as [Ha [Hr Hb]%Forall_cons]. apply Forall_app. split; [done|]. constructor; [by apply kept_revoked|done].
  - destruct Hs as [-> _]. by split.
Qed.

Lemma sql_next_sim g x : represents g x -> 0 <= serial g < i64_max ->
  exists n g' x', mem_next_serial g = Some (n, g') /\ sql_next_serial sql x = Some (n, x') /\ represents g' x'.
Proof.
  intros [Hrows Hseq Hk] Hs. unfold mem_next_serial, sql_next_serial. cbn. unfold mem_next_serial_seq. rewrite Hseq.
  unfold u64_max, i64_max in *. repeat split_if. cbn. rewrite Z.mod_small by lia. by eexists _, _, _.
Qed.

(** ** Queries *)

Lemma represents_log g x text : represents g x -> represents g (log_sql text x).
Proof. by intros [Hr Hs Hk]. Qed.

Lemma sql_by_serial_sim serial g x : represents g x -> exists x', sql_get_by_serial sql serial x = (mem_get_by_serial serial g, x') /\ represents g x'.
Proof.
  intros R. exists (log_sql GET_BY_SERIAL_SQL x). split; [|by apply represents_log]. destruct R as [Hrows Hseq Hk].
  assert (E : sql_get_by_serial sql serial x
    = (first_record (Ok (take 1 (List.filter (has_text "serial" serial) (xi_rows x)))), log_sql GET_BY_SERIAL_SQL x)) by reflexivity.
  rewrite E, Hrows, (filter_rows _ (fun r => String.eqb (c_serial r) serial)) by (intros r; apply cell_serial). clear E. f_equal.
  unfold mem_get_by_serial. rewrite <- head_filter. pose proof (kept_filter (fun r => String.eqb (c_serial r) serial) _ Hk) as Hf.
  destruct (List.filter _ _) as [|r l]; [done|]. cbn. apply Forall_cons in Hf as [Hr _]. by rewrite read_row.
Qed.

Lemma sql_revoked_sim g x : represents g x -> exists x', sql_get_revoked sql x = (mem_get_revoked g, x') /\ represents g x'.
Proof.
  intros R. exists (log_sql GET_REVOKED_SQL x). split; [|by apply represents_log]. destruct R as [Hrows Hseq Hk].
  assert (E : sql_get_revoked sql x = (all_records (Ok (List.filter has_revoked (xi_rows x))), log_sql GET_REVOKED_SQL x)) by reflexivity.
  rewrite E, Hrows, (filter_rows _ is_revoked) by apply cell_revoked. cbn. by rewrite read_rows by (by apply kept_filter).
Qed.

Lemma sorted_records l : Forall kept l -> map read_record (sort_desc issued_key (map row_of l)) ≡ₚ l.
Proof. intros Hk. rewrite sort_desc_perm. by rewrite read_rows. Qed.

Lemma sql_list_sim g x : represents g x -> exists out x', sql_list sql x = (out, x') /\ out ≡ₚ mem_list g /\ represents g x'.
Proof.
  intros R. eexists _, (log_sql LIST_SQL x). split; [|split; [|by apply represents_log]].
  - assert (E : sql_list sql x = (all_records (Ok (sort_desc issued_key (xi_rows x))), log_sql LIST_SQL x)) by reflexivity. exact E.
  - destruct R as [-> _ Hk]. by apply sorted_records.
Qed.

Lemma sql_by_parent_sim p g x : represents g x ->
  exists out x', sql_get_by_parent_nid sql p x = (out, x') /\ out ≡ₚ mem_get_by_parent_nid p g /\ represents g x'.
Proof.
  intros R. eexists _, (log_sql GET_BY_PARENT_SQL x). split; [|split; [|by apply represents_log]].
  - assert (E : sql_get_by_parent_nid sql p x
      = (all_records (Ok (sort_desc issued_key (List.filter (has_text "parent_nid" p) (xi_rows x)))), log_sql GET_BY_PARENT_SQL x)) by reflexivity.
    exact E.
  - destruct R as [-> _ Hk]. cbn. rewrite (filter_rows _ (fun r => bool_decide (c_parent_nid r = Some p))) by (intros r; apply cell_parent).
    by apply sorted_records, kept_filter.
Qed.

Definition records_of (nid : string) (l : list NipCertRecord) : list NipCertRecord :=
  List.filter (fun r => String.eqb (c_nid r) nid) l.
Definition issue_text (r : NipCertRecord) : string := fmt_dt (c_issued_at r).

Lemma sql_by_nid_text nid x : sql_get_by_nid sql nid x
  = (first_record (Ok (take 1 (sort_desc issued_key (List.filter (has_text "nid" nid) (xi_rows x))))), log_sql GET_BY_NID_SQL x).
Proof. reflexivity. Qed.

Lemma sql_by_nid_sim nid g x : represents g x -> exists x',
  sql_get_by_nid sql nid x = (head (sort_desc issue_text (records_of nid (records g))), x') /\ represents g x'.
Proof.
  intros R. exists (log_sql GET_BY_NID_SQL x). split; [|by apply represents_log]. destruct R as [Hrows Hseq Hk].
  rewrite sql_by_nid_text, Hrows, (filter_rows _ (fun r => String.eqb (c_nid r) nid)), sort_rows by (intros r; apply cell_nid).
  f_equal. fold issue_text. fold (records_of nid (records g)).
  pose proof (kept_filter (fun r => String.eqb (c_nid r) nid) _ Hk) as Hf. fold (records_of nid (records g)) in Hf.
  rewrite <- (sort_desc_perm issue_text) in Hf. destruct (sort_desc issue_text _) as [|r l]; [done|].
  apply Forall_cons in Hf as [Hr _]. cbn. by rewrite read_row.
Qed.

Lemma mem_by_nid_last nid g : mem_get_by_nid nid g = last (records_of nid (records g)).
Proof.
  unfold mem_get_by_nid, records_of. generalize (records g) as l. intros l. induction l as [|r l IH] using rev_ind; [done|].
  rewrite rev_unit, List.filter_app. cbn. destruct (String.eqb (c_nid r) nid); [by rewrite last_snoc|by rewrite app_nil_r].
Qed.

(** The last record kept of a NID was issued after its others, and the texts of
    the dates say so. *)
Definition issued_in_order (nid : string) (l : list NipCertRecord) : Prop := forall a r,
  records_of nid l = a ++ [r] -> Forall (fun y => String.leb (issue_text r) (issue_text y) = false) a.

(** The latest record of a NID, as the two stores choose it: of the greatest
    text, the one kept first; and the one kept last. *)
Definition latest_records (nid : string) (l : list NipCertRecord) (by_text by_age : option NipCertRecord) : Prop :=
  match by_text, by_age with
  | None, None => records_of nid l = []
  | Some r, Some r' => first_greatest issue_text (records_of nid l) r /\ last (records_of nid l) = Some r'
  | _, _ => False
  end.

Lemma latest_chosen nid l : latest_records nid l (head (sort_desc issue_text (records_of nid l))) (last (records_of nid l)).
Proof.
  unfold latest_records. destruct (head _) as [r|] eqn:E.
  - pose proof (sort_desc_first _ _ _ E) as F. destruct (last _) as [r'|] eqn:El; [done|].
    apply last_None in El. by rewrite El in E.
  - assert (En : records_of nid l = []).
    { pose proof (sort_desc_perm issue_text (records_of nid l)) as P. destruct (sort_desc _ _); [|done]. by apply Permutation_nil in P. }
    by rewrite En.
Qed.

Lemma latest_agree nid l a b : latest_records nid l a b -> issued_in_order nid l -> a = b.
Proof.
  intros H Ho. destruct a as [r|], b as [r'|]; try done. destruct H as [F (k & E)%last_Some].
  rewrite E in F. f_equal. by eapply first_greatest_last, Ho.
Qed.

(** ** Runs *)

Inductive CaOp : Type :=
| OpSave (r : NipCertRecord) | OpRevoke (nid reason : string) (t : Z) | OpNextSerial
| OpByNid (nid : string) | OpBySerial (serial : string) | OpList | OpRevoked | OpByParent (nid : string).

Inductive CaOut : Type :=
| OutSaved (r : result StoreError unit) | OutRevoked (b : bool) | OutSerial (s : string)
| OutRecord (r : option NipCertRecord) | OutRecords (l : list NipCertRecord).

Definition mem_step (op : CaOp) (g : Inner) : option (CaOut * Inner) :=
  match op with
  | OpSave r => let '(o, g') := mem_save r g in Some (OutSaved o, g')
  | OpRevoke nid reason t => let '(b, g') := mem_revoke nid reason t g in Some (OutRevoked b, g')
  | OpNextSerial => '(n, g') ← mem_next_serial g; Some (OutSerial n, g')
  | OpByNid nid => Some (OutRecord (mem_get_by_nid nid g), g)
  | OpBySerial s => Some (OutRecord (mem_get_by_serial s g), g)
  | OpList => Some (OutRecords (mem_list g), g)
  | OpRevoked => Some (OutRecords (mem_get_revoked g), g)
  | OpByParent p => Some (OutRecords (mem_get_by_parent_nid p g), g)
  end.

Definition sql_step (op : CaOp) (x : ExecInner) : option (CaOut * ExecInner) :=
  match op with
  | OpSave r => let '(o, x') := sql_save sql r x in Some (OutSaved o, x')
  | OpRevoke nid reason t => let '(b, x') := sql_revoke sql nid reason t x in Some (OutRevoked b, x')
  | OpNextSerial => '(n, x') ← sql_next_serial sql x; Some (OutSerial n, x')
  | OpByNid nid => let '(o, x') := sql_get_by_nid sql nid x in Some (OutRecord o, x')
  | OpBySerial s => let '(o, x') := sql_get_by_serial sql s x in Some (OutRecord o, x')
  | OpList => let '(o, x') := sql_list sql x in Some (OutRecords o, x')
  | OpRevoked => let '(o, x') := sql_get_revoked sql x in Some (OutRecords o, x')
  | OpByParent p => let '(o, x') := sql_get_by_parent_nid sql p x in Some (OutRecords o, x')
  end.

Fixpoint run_ops {S} (step : CaOp -> S -> option (CaOut * S)) (ops : list CaOp) (s : S) : option (list CaOut * S) :=
  match ops with
  | [] => Some ([], s)
  | op :: ops => '(o, s) ← step op s; '(os, s) ← run_ops step ops s; Some (o :: os, s)
  end.

(** The SQL store's answer [o'] and the in-memory store's answer [o] to an
    operation on the records [l].  Lists are promised in no order. *)
Definition agree (op : CaOp) (l : list NipCertRecord) (o' o : CaOut) : Prop :=
  match op, o', o with
  | OpByNid nid, OutRecord a, OutRecord b => latest_records nid l a b /\ (issued_in_order nid l -> a = b)
  | _, OutRecords m', OutRecords m => m' ≡ₚ m
  | _, _, _ => o' = o
  end.

(** Each answer agrees, on the records that were kept when it was given. *)
Fixpoint answers_agree (ops : list CaOp) (g : Inner) (outs' outs : list CaOut) : Prop :=
  match ops, outs', outs with
  | [], [], [] => True
  | op :: ops, o' :: outs', o :: outs => agree op (records g) o' o /\
      match mem_step op g with Some (_, g') => answers_agree ops g' outs' outs | None => False end
  | _, _, _ => False
  end.

(** What is saved was just issued, and dates can be written and read back. *)
Definition op_ok (op : CaOp) : Prop :=
  match op with
  | OpSave r => kept r /\ c_revoked_at r = None
  | OpRevoke _ _ t => readable t
  | _ => True
  end.

Lemma step_serial op g o g' : mem_step op g = Some (o, g') -> 0 <= serial g -> 0 <= serial g' <= serial g + 1.
Proof.
  destruct op as [r|nid reason t| |nid|s| | |p]; cbn [mem_step].
  - unfold mem_save. destruct (existsb _ _); intros [= _ <-] ?; cbn; lia.
  - unfold mem_revoke. destruct (revoke_last _ _ _ _) as [[] ?]; intros [= _ <-] ?; cbn; lia.
  - unfold mem_next_serial. destruct (_ =? _); cbn; [done|]. intros [= _ <-] ?. cbn. lia.
  - intros [= _ <-] ?; lia.
  - intros [= _ <-] ?; lia.
  - intros [= _ <-] ?; lia.
  - intros [= _ <-] ?; lia.
  - intros [= _ <-] ?; lia.
Qed.

Lemma sql_step_sim op g x : represents g x -> op_ok op -> 0 <= serial g < i64_max ->
  exists o g' o' x', mem_step op g = Some (o, g') /\ sql_step op x = Some (o', x') /\ agree op (records g) o' o /\ represents g' x'.
Proof.
  intros R Ho Hs. destruct op as [r|nid reason t| |nid|s| | |p]; cbn [op_ok mem_step sql_step] in *.
  - destruct Ho as [Hr Hn]. destruct (sql_save_sim r g x R Hr Hn) as [E R'].
    destruct (mem_save r g) as [o g'], (sql_save sql r x) as [o' x']. cbn in *. subst. by eexists _, _, _, _.
  - destruct (sql_revoke_sim nid reason t g x R Ho) as [E R'].
    destruct (mem_revoke nid reason t g) as [o g'], (sql_revoke sql nid reason t x) as [o' x']. cbn in *. subst. by eexists _, _, _, _.
  - destruct (sql_next_sim g x R Hs) as (n & g' & x' & -> & -> & R'). by eexists _, _, _, _.
  - destruct (sql_by_nid_sim nid g x R) as (x' & -> & R'). eexists _, _, _, _. do 2 (split; [done|]). split; [|done].
    cbn. rewrite mem_by_nid_last. pose proof (latest_chosen nid (records g)) as L. split; [done|]. by apply latest_agree.
  - destruct (sql_by_serial_sim s g x R) as (x' & -> & R'). by eexists _, _, _, _.
  - destruct (sql_list_sim g x R) as (out & x' & -> & Hp & R'). eexists _, _, _, _. split; [done|]. split; [done|]. by split; [exact Hp|].
  - destruct (sql_revoked_sim g x R) as (x' & -> & R'). eexists _, _, _, _. split; [done|]. split; [done|]. by split; [cbn; reflexivity|].
  - destruct (sql_by_parent_sim p g x R) as (out & x' & -> & Hp & R'). eexists _, _, _, _. split; [done|]. split; [done|]. by split; [exact Hp|].
Qed.

(** C38: the SQL store over its table implements the in-memory store.  From
    the empty stores, whatever sequence of fewer than [i64::MAX] operations is
    asked in whatever order, both answer every one of them, the rows of the
    table go on representing the records, and the answers are the same, lists
    up to their order, but for one operation: the latest record of a NID.  There
    the in-memory store answers the record that was saved last and the SQL
    store the first saved of those whose date of issue has the greatest text;
    the two are the same record where the last one saved was issued after the
    others and the RFC 3339 texts sort as the dates do (not so for two records
    of one instant, [same_instant_oldest_wins], or for fractions of a second,
    [fraction_sorts_first]).  The operations are those of records that are not
    yet revoked when they are saved (the INSERT has no column for it,
    [saved_revocation_lost]), whose dates and capabilities are read back from
    their texts, and of revocations at such dates. *)
Theorem sql_store_refines ops : Forall op_ok ops -> Z.of_nat (length ops) <= i64_max ->
  exists outs g' outs' x', run_ops mem_step ops store_new = Some (outs, g') /\
    run_ops sql_step ops exec_new = Some (outs', x') /\ answers_agree ops store_new outs' outs /\ represents g' x'.
Proof.
  intros Ho Hn. assert (Hs : 0 <= serial store_new /\ serial store_new + Z.of_nat (length ops) <= i64_max) by (cbn; lia). revert Hs.
  clear Hn. generalize represents_new. generalize store_new exec_new. induction Ho as [|op ops Ho Hos IH]; intros g x R Hs.
  { by exists [], g, [], x. }
  cbn [length] in Hs. destruct (sql_step_sim op g x R Ho ltac:(lia)) as (o & g1 & o' & x1 & E & E' & Ha & R1).
  pose proof (step_serial op g o g1 E ltac:(lia)) as Hs1.
  destruct (IH g1 x1 R1 ltac:(lia)) as (outs & g2 & outs' & x2 & E2 & E2' & Ha2 & R2).
  exists (o :: outs), g2, (o' :: outs'), x2. cbn. rewrite E, E'. cbn. rewrite E2, E2'. by split_and!.
Qed.
End refinement.

(** ** A small run, and where the stores part *)

#[local] Existing Instance toy_digests.
#[local] Instance empty_lists : JsonParser := {| parse_json _ := Ok (VArray []) |}.
(** Dates as one byte. *)
#[local] Instance byte_dates : CaDates := {|
  format_rfc3339 t := if (0 <=? t) && (t <? 256) then Some (String.String (ascii_of t) "") else None;
  parse_rfc3339_dt s := match s with String.String a _ => Some (byte_of a) | EmptyString => None end |}.

Definition plain_record (nid serial : string) (issued : Z) : NipCertRecord :=
  mkRecord nid "agent" serial "k" [] "{}" "ca" issued 200 None None None None None None.

Lemma plain_kept nid serial issued : In issued [10; 20] -> kept (plain_record nid serial issued).
Proof. intros Hi. destruct Hi as [<-|[<-|[]]]; (split; [by eexists|by eexists|done|done]). Qed.

Definition small_run : list CaOp :=
  [OpNextSerial; OpSave (plain_record "a" "0x1" 10); OpSave (plain_record "b" "0x1" 10); OpSave (plain_record "a" "0x2" 20);
   OpByNid "a"; OpRevoke "a" "superseded" 30; OpRevoked; OpList].

Lemma sql_store_refines_witness : exists outs outs' g' x',
  run_ops mem_step small_run store_new = Some (outs, g') /\ run_ops sql_step small_run exec_new = Some (outs', x') /\
  answers_agree small_run store_new outs' outs.
Proof.
  destruct (sql_store_refines small_run) as (outs & g' & outs' & x' & E & E' & H & _).
  - repeat constructor; try done; try apply plain_kept; try (cbn; auto; done); cbn; by eexists.
  - done.
  - by exists outs, outs', g', x'.
Defined.

(** Of two records of a NID issued at one instant the SQL store answers the
    older, whatever the comment on its order says, and the in-memory store the
    newer. *)
Example same_instant_oldest_wins :
  let ops := [OpSave (plain_record "a" "0x1" 10); OpSave (plain_record "a" "0x2" 10); OpByNid "a"] in
  (fst <$> run_ops mem_step ops store_new) ≫= last = Some (OutRecord (Some (plain_record "a" "0x2" 10))) /\
  (fst <$> run_ops sql_step ops exec_new) ≫= last = Some (OutRecord (Some (plain_record "a" "0x1" 10))).
Proof. split; vm_compute; reflexivity. Qed.

(** Texts of dates do not sort as dates do: with a fraction of a second the
    later instant is the smaller text. *)
Example fraction_sorts_first : String.leb "2026-01-01T00:00:00.5Z" "2026-01-01T00:00:00Z" = true.
Proof. reflexivity. Qed.

(** Any failure of the database is reported as a duplicate serial, and a
    failure of the sequence as the serial 0x0. *)
Lemma database_failures {D : Digests} `{JsonParser} `{CaDates} {W} (self : SqlNipCaStore W) r w w1 w2 e e' :
  cx_execute (sq_executor self) INSERT_SQL (insert_params r) w = (Err e, w1) ->
  cx_next_serial_seq (sq_executor self) w = Some (Err e', w2) ->
  sql_save self r w = (Err (SerialExists (c_serial r)), w1) /\ sql_next_serial self w = Some ("0x0", w2).
Proof. intros E E'. unfold sql_save, sql_next_serial. by rewrite E, E'. Qed.

(** A record saved when it is already revoked loses its revocation, which is
    no column of the insertion. *)
Example saved_revocation_lost :
  let r := set_revoked "superseded" 30 (plain_record "a" "0x1" 10) in
  (fst <$> run_ops sql_step [OpSave r; OpRevoked] exec_new) = Some [OutSaved (Ok tt); OutRecords []].
Proof. vm_compute. reflexivity. Qed.
