(* ===== verification/NpsConformance.v ===== *)
(** * NpsConformance: conformance manifests and decisions

    Models nps-conformance/src/lib.rs: the catalogs of cases, the manifest of
    a run, and the check that a manifest is complete and consistent.  [None]
    is the panic of a map index without entry.

    Models nps-conformance/src/alpha19.rs: pure decisions from one JSON object
    to another.  [None] is a panic: an input no case of the function knows, a
    member that is missing or of another type, a date that does not parse or a
    sum out of range. *)

From S2P Require Import Prelude RustStr Floats Json CoreFrames CoreCache NipCaStore NipCaService NipCaRouter NipCaSqlStore.
From Stdlib Require Import Floats.SpecFloat.
Definition NODE_L1 : string := "NPS-Node-L1".
Definition NODE_L2 : string := "NPS-Node-L2".

Record NpsConformanceCase : Type := c_case {
  cc_id : string; cc_profile : string; cc_requirement : string; cc_title : string; cc_optional : bool
}.
Record NpsConformanceCaseResult : Type := mkCaseResult { cr_case : string; cr_result : string; cr_message : option string }.
Record NpsConformanceActor : Type := mkActor { ac_name : string; ac_version : string; ac_nid : option string }.
Record NpsConformanceRun : Type := mkRun { rn_date : string; rn_environment : string }.
Record NpsConformanceSummary : Type := mkSummary { sm_pass : nat; sm_fail : nat; sm_skip : nat; sm_na : nat }.
Record NpsConformanceManifest : Type := mkManifest {
  mf_profile : string; mf_profile_version : string; mf_iut : NpsConformanceActor; mf_peer : NpsConformanceActor;
  mf_run : NpsConformanceRun; mf_cases : list NpsConformanceCaseResult; mf_summary : NpsConformanceSummary
}.
Record NpsConformanceValidation : Type := mkValidation { vd_valid : bool; vd_message : string }.
#[export] Instance summary_eq_dec : EqDecision NpsConformanceSummary.
Proof. solve_decision. Defined.

(** ** The catalogs *)

Definition NODE_L1_CASES : list NpsConformanceCase := [
  c_case "TC-N1-NCP-01" NODE_L1 "N1-NCP-01" "Tier-1 JSON frame round-trip" false;
  c_case "TC-N1-NCP-02" NODE_L1 "N1-NCP-02" "Hello + Anchor handshake" false;
  c_case "TC-N1-NCP-03" NODE_L1 "N1-NCP-03" "Loopback listener default" false;
  c_case "TC-N1-NCP-04" NODE_L1 "N1-NCP-04" "Tier-2 negotiation hygiene" false;
  c_case "TC-N1-NIP-01" NODE_L1 "N1-NIP-01" "Root keypair generation and permission" false;
  c_case "TC-N1-NIP-02" NODE_L1 "N1-NIP-02" "IdentFrame sign and verify" false;
  c_case "TC-N1-NIP-03" NODE_L1 "N1-NIP-03" "NID format" false;
  c_case "TC-N1-NIP-04" NODE_L1 "N1-NIP-04" "Sub-NID issuance" true;
  c_case "TC-N1-NDP-01" NODE_L1 "N1-NDP-01" "AnnounceFrame carries activation_mode" false;
  c_case "TC-N1-NDP-02" NODE_L1 "N1-NDP-02" "AnnounceFrame signature" false;
  c_case "TC-N1-NDP-03" NODE_L1 "N1-NDP-03" "ResolveFrame response" false;
  c_case "TC-N1-NDP-04" NODE_L1 "N1-NDP-04" "GraphFrame topology snapshot" true;
  c_case "TC-N1-NWP-01" NODE_L1 "N1-NWP-01" "Inbox accepts ActionFrame" false;
  c_case "TC-N1-NWP-02" NODE_L1 "N1-NWP-02" "Inbox persists across restart" false;
  c_case "TC-N1-NWP-03" NODE_L1 "N1-NWP-03" "NWP pull serves inbox" false;
  c_case "TC-N1-NWP-04" NODE_L1 "N1-NWP-04" "100 QPS baseline" false;
  c_case "TC-N1-NWP-05" NODE_L1 "N1-NWP-05" "Push path" true;
  c_case "TC-N1-OBS-01" NODE_L1 "N1-OBS-01" "Frame log entry per direction" false;
  c_case "TC-N1-OBS-02" NODE_L1 "N1-OBS-02" "Log entry fields" false;
  c_case "TC-N1-OBS-03" NODE_L1 "N1-OBS-03" "Log destination flexibility" false].

Definition NODE_L2_CASES : list NpsConformanceCase := [
  c_case "TC-N2-AaaS-01" NODE_L2 "L2-01" "Internal work uses NOP TaskFrame" false;
  c_case "TC-N2-AaaS-02" NODE_L2 "L2-02" "OpenTelemetry TaskFrame context injection" false;
  c_case "TC-N2-AaaS-03" NODE_L2 "L2-03" "CGN-Estimate budget and token_est response" false;
  c_case "TC-N2-AaaS-04" NODE_L2 "L2-04" "NOP preflight gates worker dispatch" false;
  c_case "TC-N2-AaaS-05" NODE_L2 "L2-05" "NOP retry and timeout semantics" false;
  c_case "TC-N2-AaaS-06" NODE_L2 "L2-06" "Asynchronous Action lifecycle" true;
  c_case "TC-N2-AaaS-07" NODE_L2 "L2-07" "AlignStream CGN back-pressure" true;
  c_case "TC-N2-AnchorTopo-01" NODE_L2 "L2-08" "Snapshot of a 3-member cluster" false;
  c_case "TC-N2-AnchorTopo-02" NODE_L2 "L2-08" "Version monotonicity across joins" false;
  c_case "TC-N2-AnchorTopo-03" NODE_L2 "L2-08" "Sub-Anchor member surfaces" false;
  c_case "TC-N2-AnchorStream-01" NODE_L2 "L2-08" "member_joined on NDP Announce" false;
  c_case "TC-N2-AnchorStream-02" NODE_L2 "L2-08" "member_left on NDP TTL expiry" false;
  c_case "TC-N2-AnchorStream-03" NODE_L2 "L2-08" "Resume from topology.since_version" false;
  c_case "TC-N2-AnchorTopo-04" NODE_L2 "L2-08" "Unauthorized topology access" false;
  c_case "TC-N2-AnchorTopo-05" NODE_L2 "L2-08" "Depth cap exceeded" false;
  c_case "TC-N2-AnchorTopo-06" NODE_L2 "L2-08" "Unsupported topology scope" false;
  c_case "TC-N2-AnchorTopo-07" NODE_L2 "L2-08" "Unsupported topology filter" false;
  c_case "TC-N2-AnchorTopo-08" NODE_L2 "L2-08" "Unsupported reserved topology type" false;
  c_case "TC-N2-AnchorStream-04" NODE_L2 "L2-08" "resync_required when version is too old" false;
  c_case "TC-N2-Tls-01" NODE_L2 "NPS-RFC-0006" "ALPN nps/1.0 negotiated over TLS 1.3" true;
  c_case "TC-N2-Tls-02" NODE_L2 "NPS-RFC-0006" "Mutual TLS required" true;
  c_case "TC-N2-Tls-03" NODE_L2 "NPS-RFC-0006" "Client cert trust anchor and NID binding" true;
  c_case "TC-N2-Tls-04" NODE_L2 "NPS-RFC-0006" "IdentFrame/certificate NID mismatch" true;
  c_case "TC-N2-BridgeIn-01" NODE_L2 "NPS-CR-0010" "MCP inbound required method set" true;
  c_case "TC-N2-BridgeIn-02" NODE_L2 "NPS-CR-0010" "gRPC inbound round-trip" true;
  c_case "TC-N2-BridgeIn-03" NODE_L2 "NPS-CR-0010" "A2A inbound round-trip" true;
  c_case "TC-N2-BridgeIn-04" NODE_L2 "NPS-CR-0010" "Bare action resolution and ambiguity rejection" true;
  c_case "TC-N2-BridgeIn-05" NODE_L2 "NPS-CR-0010" "Foreign-protocol error mapping" true;
  c_case "TC-N2-BridgeIn-06" NODE_L2 "NPS-CR-0010" "Undeclared protocol or direction refusal" true;
  c_case "TC-N2-HA-01" NODE_L2 "NPS-CR-0009" "cluster_epoch on topology read surfaces" true;
  c_case "TC-N2-HA-02" NODE_L2 "NPS-CR-0009" "Planned anchor_failover wire shape" true;
  c_case "TC-N2-HA-03" NODE_L2 "NPS-CR-0009" "Active-loss failover is terminal" true;
  c_case "TC-N2-HA-04" NODE_L2 "NPS-CR-0009" "Quorum-loss wire shape and read-only mode" true;
  c_case "TC-N2-HA-05" NODE_L2 "NPS-CR-0009" "Standby rejects topology writes" true;
  c_case "TC-N2-HA-06" NODE_L2 "NPS-CR-0009" "Superseded leader is epoch fenced" true;
  c_case "TC-N2-HA-07" NODE_L2 "NPS-CR-0009" "Registry resolves highest cluster_epoch" true;
  c_case "TC-N2-HA-08" NODE_L2 "NPS-CR-0009" "Equal-epoch split-brain rejection" true;
  c_case "TC-N2-HA-09" NODE_L2 "NPS-CR-0009" "Single-Anchor epoch-one compatibility" true].

Definition catalog_for_profile (profile : string) : result string (list NpsConformanceCase) :=
  if String.eqb profile NODE_L1 then Ok NODE_L1_CASES
  else if String.eqb profile NODE_L2 then Ok NODE_L2_CASES
  else Err ("Unknown NPS conformance profile: " +:+ profile).

(** ** Manifests *)

Definition has_result (s : string) (r : NpsConformanceCaseResult) : bool := String.eqb (cr_result r) s.
Definition summary_of (cases : list NpsConformanceCaseResult) : NpsConformanceSummary :=
  let count s := length (List.filter (has_result s) cases) in
  mkSummary (count "pass") (count "fail") (count "skip") (count "na").
Definition expected_version (profile : string) : string := if String.eqb profile NODE_L2 then "0.7" else "0.1".

(** [now] is the current date as RFC 3339 text. *)
Definition manifest_create (profile iut_name iut_version iut_nid peer_name peer_version : string)
    (results : list NpsConformanceCaseResult) (environment : string) (now : option string) : NpsConformanceManifest :=
  mkManifest profile (expected_version profile) (mkActor iut_name iut_version (Some iut_nid)) (mkActor peer_name peer_version None)
    (mkRun (default "1970-01-01T00:00:00Z" now) (if is_empty environment then "unspecified" else environment))
    results (summary_of results).

(** ** The check *)

Definition known_case (catalog : list NpsConformanceCase) (id : string) : option NpsConformanceCase :=
  List.find (fun c => String.eqb (cc_id c) id) (rev catalog).

Definition reason_needed (id : string) : bool := String.eqb id "TC-N2-AaaS-06" || String.eqb id "TC-N2-AaaS-07".
Definition blank_message (r : NpsConformanceCaseResult) : bool :=
  match cr_message r with None => true | Some message => is_empty (trim message) end.

(** The loop over the results, with the ids seen so far. *)
Fixpoint check_cases (catalog : list NpsConformanceCase) (seen : list string) (cases : list NpsConformanceCaseResult)
    : result string (list string) :=
  match cases with
  | [] => Ok seen
  | r :: rest =>
    match known_case catalog (cr_case r) with
    | None => Err ("Unknown conformance case id '" +:+ cr_case r +:+ "'.")
    | Some case =>
      if bool_decide (cr_case r ∈ seen) then Err ("Duplicate conformance case id '" +:+ cr_case r +:+ "'.")
      else if negb (has_result "pass" r || has_result "fail" r || has_result "skip" r || has_result "na" r)
      then Err ("Case '" +:+ cr_case r +:+ "' has invalid result '" +:+ cr_result r +:+ "'.")
      else if has_result "na" r && negb (cc_optional case)
      then Err ("Case '" +:+ cr_case r +:+ "' is required and cannot be marked na.")
      else if has_result "na" r && reason_needed (cr_case r) && blank_message r
      then Err ("Case '" +:+ cr_case r +:+ "' requires a non-empty message for a SHOULD exception.")
      else check_cases catalog (cr_case r :: seen) rest
    end
  end.

Definition families : list (list string) := [
  ["TC-N2-Tls-01"; "TC-N2-Tls-02"; "TC-N2-Tls-03"; "TC-N2-Tls-04"];
  ["TC-N2-BridgeIn-01"; "TC-N2-BridgeIn-02"; "TC-N2-BridgeIn-03"; "TC-N2-BridgeIn-04"; "TC-N2-BridgeIn-05"; "TC-N2-BridgeIn-06"];
  ["TC-N2-HA-01"; "TC-N2-HA-02"; "TC-N2-HA-03"; "TC-N2-HA-04"; "TC-N2-HA-05"; "TC-N2-HA-06"];
  ["TC-N2-HA-07"; "TC-N2-HA-08"]].

(** [results\[id\]], of the last result with that id. *)
Definition result_at (cases : list NpsConformanceCaseResult) (id : string) : option string :=
  cr_result <$> List.find (fun r => String.eqb (cr_case r) id) (rev cases).

(** Whether some member differs from the result expected. *)
Fixpoint any_differs (cases : list NpsConformanceCaseResult) (expected : string) (family : list string) : option bool :=
  match family with
  | [] => Some false
  | id :: rest =>
    res ← result_at cases id;
    if String.eqb res expected then any_differs cases expected rest else Some true
  end.

Fixpoint check_families (cases : list NpsConformanceCaseResult) (fs : list (list string)) : option (option string) :=
  match fs with
  | [] => Some None
  | family :: rest =>
    first ← head family;
    expected ← result_at cases first;
    differs ← (if String.eqb expected "pass" || String.eqb expected "na" then any_differs cases expected family else Some true);
    if (differs : bool) then Some (Some ("L2 case family '" +:+ first +:+ "' must be all pass or all na."))
    else check_families cases rest
  end.

Definition check_level_2 (cases : list NpsConformanceCaseResult) : option (option string) :=
  wrong ← check_families cases families;
  match wrong with
  | Some message => Some (Some message)
  | None =>
    ha1 ← result_at cases "TC-N2-HA-01";
    ha9 ← result_at cases "TC-N2-HA-09";
    Some (if Bool.eqb (String.eqb ha1 "na") (String.eqb ha9 "na")
          then Some "L2 multi-Anchor HA and single-Anchor compatibility cases must have opposite applicability."
          else None)
  end.

Definition invalid (message : string) : NpsConformanceValidation := mkValidation false message.

Definition validate_manifest (manifest : NpsConformanceManifest) : option NpsConformanceValidation :=
  match catalog_for_profile (mf_profile manifest) with
  | Err e => Some (invalid e)
  | Ok catalog =>
    match check_cases catalog [] (mf_cases manifest) with
    | Err e => Some (invalid e)
    | Ok seen =>
      let missing := map cc_id (List.filter (fun c => negb (bool_decide (cc_id c ∈ seen))) catalog) in
      if negb (bool_decide (missing = []))
      then Some (invalid ("Missing conformance case results: " +:+ join ", " missing +:+ "."))
      else if existsb (fun r => has_result "fail" r || has_result "skip" r) (mf_cases manifest)
      then Some (invalid "Conformance manifest contains fail or skip results.")
      else if negb (String.eqb (mf_profile_version manifest) (expected_version (mf_profile manifest)))
      then Some (invalid ("Profile '" +:+ mf_profile manifest +:+ "' requires manifest version '" +:+
                          expected_version (mf_profile manifest) +:+ "'."))
      else if negb (bool_decide (mf_summary manifest = summary_of (mf_cases manifest)))
      then Some (invalid "Conformance manifest summary does not match case results.")
      else
        wrong ← (if String.eqb (mf_profile manifest) NODE_L2 then check_level_2 (mf_cases manifest) else Some None);
        Some (match wrong with
              | Some message => invalid message
              | None => mkValidation true "Conformance manifest is valid."
              end)
    end
  end.

(** ** What a valid manifest is *)

(** A result that the check lets stand: a pass; or the absence of an optional
    case, which needs a reason for two cases only. *)
Definition case_stands (catalog : list NpsConformanceCase) (r : NpsConformanceCaseResult) : Prop :=
  exists case, known_case catalog (cr_case r) = Some case /\
    (cr_result r = "pass" \/
     (cr_result r = "na" /\ cc_optional case = true /\
      (In (cr_case r) ["TC-N2-AaaS-06"; "TC-N2-AaaS-07"] -> exists message, cr_message r = Some message /\ is_empty (trim message) = false))).

(** Each family is passed as a whole or left out as a whole, and exactly one
    of the clustered and the single Anchor applies. *)
Definition level_2_stands (cases : list NpsConformanceCaseResult) : Prop :=
  (forall family, In family families -> (forall id, In id family -> result_at cases id = Some "pass") \/
                                        (forall id, In id family -> result_at cases id = Some "na")) /\
  (result_at cases "TC-N2-HA-01" = Some "na" <-> result_at cases "TC-N2-HA-09" <> Some "na").

Definition conforms (m : NpsConformanceManifest) : Prop := exists catalog,
  catalog_for_profile (mf_profile m) = Ok catalog /\
  map cr_case (mf_cases m) ≡ₚ map cc_id catalog /\
  Forall (case_stands catalog) (mf_cases m) /\
  mf_profile_version m = expected_version (mf_profile m) /\
  mf_summary m = summary_of (mf_cases m) /\
  (mf_profile m = NODE_L2 -> level_2_stands (mf_cases m)).

(** What the loop lets pass. *)
Definition case_passes (catalog : list NpsConformanceCase) (r : NpsConformanceCaseResult) : Prop :=
  exists case, known_case catalog (cr_case r) = Some case /\
    (has_result "pass" r || has_result "fail" r || has_result "skip" r || has_result "na" r) = true /\
    (has_result "na" r = true -> cc_optional case = true /\ (reason_needed (cr_case r) = true -> blank_message r = false)).

Lemma check_cases_spec catalog cases seen seen' : NoDup seen ->
  check_cases catalog seen cases = Ok seen' <->
  Forall (case_passes catalog) cases /\ NoDup (rev (map cr_case cases) ++ seen) /\ seen' = rev (map cr_case cases) ++ seen.
Proof.
  revert seen. induction cases as [|r cases IH]; intros seen Hnd; cbn [check_cases map rev].
  { split; [intros [= <-]; done|by intros (_ & _ & ->)]. }
  rewrite <- app_assoc. cbn [app]. unfold case_passes.
  split.
  - destruct (known_case catalog (cr_case r)) as [case|] eqn:Ek; [|done].
    destruct (bool_decide_reflect (cr_case r ∈ seen)); [done|].
    destruct (_ || _ || _ || _) eqn:Ev; [|done]. cbn [negb].
    destruct (has_result "na" r) eqn:En; cbn [andb].
    + destruct (cc_optional case) eqn:Eo; [|done]. cbn [negb].
      destruct (reason_needed (cr_case r)) eqn:Er; cbn [andb];
        [destruct (blank_message r) eqn:Eb; [done|]|]; intros [HF [HN ->]]%IH; try by constructor.
      all: split_and!; [constructor; [exists case; rewrite ?En, ?Eo, ?Er; intuition congruence|done]|done|done].
    + intros [HF [HN ->]]%IH; [|by constructor]. split_and!; [constructor; [exists case; rewrite ?En, ?Eo, ?Er; intuition congruence|done]|done|done].
  - intros ([(case & Ek & Ev & Ena) HF]%Forall_cons & HN & ->). rewrite Ek, Ev. cbn [negb].
    assert (Hr : cr_case r ∉ seen).
    { apply NoDup_app in HN as (_ & _ & HN). by apply NoDup_cons in HN as [? _]. }
    rewrite bool_decide_false by done.
    destruct (has_result "na" r) eqn:En; cbn [andb].
    + destruct (Ena eq_refl) as [-> Hb]. cbn [negb].
      destruct (reason_needed (cr_case r)); cbn [andb]; [rewrite Hb by done|]; apply IH; try done; by constructor.
    + apply IH; try done; by constructor.
Qed.

Lemma any_differs_spec cases expected family : (forall id, In id family -> is_Some (result_at cases id)) ->
  exists b, any_differs cases expected family = Some b /\ (b = false <-> forall id, In id family -> result_at cases id = Some expected).
Proof.
  induction family as [|id family IH]; intros H; [by exists false|]. cbn [any_differs].
  destruct (H id) as [res Hres]; [by left|]. rewrite Hres. cbn [mbind option_bind].
  destruct (String.eqb_spec res expected) as [->|Hne].
  - destruct IH as (b & -> & Hb); [intros x Hx; apply H; by right|]. exists b. split; [done|]. rewrite Hb.
    split; [intros Hall x [<-|Hx]; auto|intros Hall x Hx; apply Hall; by right].
  - exists true. split; [done|]. split; [done|]. intros Hall. specialize (Hall id (or_introl eq_refl)). congruence.
Qed.

Lemma check_families_spec cases fs :
  Forall (fun family => family <> [] /\ forall id, In id family -> is_Some (result_at cases id)) fs ->
  exists o, check_families cases fs = Some o /\
    (o = None <-> forall family, In family fs -> (forall id, In id family -> result_at cases id = Some "pass") \/
                                                 (forall id, In id family -> result_at cases id = Some "na")).
Proof.
  induction 1 as [|family fs [Hne H] _ IH]; [by exists None|]. cbn [check_families].
  destruct family as [|first family]; [done|]. cbn [head mbind option_bind].
  destruct (H first) as [expected He]; [by left|]. rewrite He. cbn [mbind option_bind].
  destruct (any_differs_spec cases expected (first :: family) H) as (b & Hb & Hspec). rewrite Hb.
  assert (Hfam : (forall id, In id (first :: family) -> result_at cases id = Some "pass") \/
                 (forall id, In id (first :: family) -> result_at cases id = Some "na") <->
                 (if String.eqb expected "pass" || String.eqb expected "na" then b else true) = false).
  { destruct (String.eqb_spec expected "pass") as [->|Hp]; cbn [orb].
    - rewrite Hspec. split; [intros [?|Hn]; [done|]|by left]. specialize (Hn first (or_introl eq_refl)). congruence.
    - destruct (String.eqb_spec expected "na") as [->|Hn].
      + rewrite Hspec. split; [intros [Hx|?]; [|done]|by right]. specialize (Hx first (or_introl eq_refl)). congruence.
      + split; [|done]. intros [Hx|Hx]; specialize (Hx first (or_introl eq_refl)); congruence. }
  replace (if String.eqb expected "pass" || String.eqb expected "na" then Some b else Some true)
    with (Some (if String.eqb expected "pass" || String.eqb expected "na" then b else true)) by (by destruct (_ || _)).
  cbn [mbind option_bind]. destruct (if String.eqb expected "pass" || String.eqb expected "na" then b else true).
  - eexists. split; [done|]. split; [done|]. intros Hall. exfalso.
    enough (true = false) by done. apply Hfam, (Hall (first :: family)). by left.
  - destruct IH as (o & -> & Ho). exists o. split; [done|]. rewrite Ho. split.
    + intros Hall x [<-|Hx]; [by apply Hfam|by apply Hall].
    + intros Hall x Hx. apply Hall. by right.
Qed.

Lemma check_level_2_spec cases : (forall c, In c NODE_L2_CASES -> is_Some (result_at cases (cc_id c))) ->
  exists o, check_level_2 cases = Some o /\ (o = None <-> level_2_stands cases).
Proof.
  intros H. assert (Hin : forall id, In id (map cc_id NODE_L2_CASES) -> is_Some (result_at cases id)).
  { intros id (c & <- & Hc)%in_map_iff. by apply H. }
  assert (Hfam : Forall (fun family => family <> [] /\ forall id, In id family -> is_Some (result_at cases id)) families).
  { assert (Hsub : forallb (fun family => negb (bool_decide (family = [])) &&
      forallb (fun id => existsb (String.eqb id) (map cc_id NODE_L2_CASES)) family) families = true) by (vm_compute; reflexivity).
    apply Forall_forall. intros family Hf%list_elem_of_In. rewrite forallb_forall in Hsub.
    apply Hsub in Hf. apply andb_true_iff in Hf as [Hne Hf]. apply negb_true_iff, bool_decide_eq_false in Hne. split; [done|].
    intros id Hid. rewrite forallb_forall in Hf. apply Hf, existsb_exists in Hid as (x & Hx & ->%String.eqb_eq). by apply Hin. }
  unfold check_level_2. destruct (check_families_spec cases families Hfam) as (o & -> & Ho). cbn [mbind option_bind].
  unfold level_2_stands.
  destruct (Hin "TC-N2-HA-01") as [ha1 E1]; [vm_compute; tauto|]. destruct (Hin "TC-N2-HA-09") as [ha9 E9]; [vm_compute; tauto|].
  destruct o as [message|]; [eexists; split; [done|]; split; [done|by intros [Hx%Ho _]]|]. pose proof (proj1 Ho eq_refl) as HP.
  rewrite E1, E9. cbn [mbind option_bind]. eexists. split; [done|].
  destruct (String.eqb_spec ha1 "na") as [->|H1], (String.eqb_spec ha9 "na") as [->|H9]; cbn [Bool.eqb]; split; try done.
  - intros [_ [Hx _]]. by destruct (Hx eq_refl).
  - intros _. split; [exact HP|]. split; congruence.
  - intros _. split; [exact HP|]. split; [congruence|]. intros Hx. by destruct Hx.
  - intros [_ [_ Hx]]. exfalso. apply H1. enough (Some ha1 = Some "na") by congruence. apply Hx. congruence.
Qed.

Lemma known_case_in catalog id case : known_case catalog id = Some case -> In id (map cc_id catalog).
Proof.
  unfold known_case. intros [Hin <-%String.eqb_eq]%find_some. apply in_map. by apply in_rev.
Qed.

Lemma result_at_some cases id : In id (map cr_case cases) -> is_Some (result_at cases id).
Proof.
  intros (r & <- & Hr)%in_map_iff. unfold result_at. destruct (List.find _ _) eqn:E; [by eexists|].
  apply in_rev in Hr. apply (find_none _ _ E r) in Hr. by rewrite String.eqb_refl in Hr.
Qed.

Lemma count_zero s cases : Forall (fun r => has_result s r = false) cases -> length (List.filter (has_result s) cases) = 0%nat.
Proof. induction 1 as [|r cases Hr _ IH]; [done|]. cbn. by rewrite Hr. Qed.

Lemma reason_needed_spec id : reason_needed id = true <-> In id ["TC-N2-AaaS-06"; "TC-N2-AaaS-07"].
Proof. unfold reason_needed. rewrite orb_true_iff, !String.eqb_eq. cbn. intuition congruence. Qed.

(** What the loop lets pass, without failures and skips, is what stands. *)
Lemma case_stands_passes catalog r :
  case_stands catalog r <-> case_passes catalog r /\ (has_result "fail" r || has_result "skip" r) = false.
Proof.
  unfold case_stands, case_passes, has_result, blank_message. split.
  - intros (case & Ek & [-> | (-> & Eo & Hm)]); (split; [exists case|done]); split_and!; try done.
    intros _. split; [done|]. intros Hr%reason_needed_spec. by destruct (Hm Hr) as (message & -> & ->).
  - intros [(case & Ek & Ev & Ena) [Ef Es]%orb_false_iff]. exists case. split; [done|]. rewrite Ef, Es in Ev. cbn [orb] in Ev.
    destruct (String.eqb_spec (cr_result r) "pass") as [->|Hp]; [by left|]. cbn [orb] in Ev.
    rewrite Ev in Ena. destruct (Ena eq_refl) as [Eo Hb]. apply String.eqb_eq in Ev. right. split_and!; [done|done|].
    intros Hr%reason_needed_spec. specialize (Hb Hr). destruct (cr_message r) as [message|]; [by exists message|done].
Qed.

(** C15: the check of a manifest always answers, and finds it valid exactly
    when its profile is known, each case of the catalog has one result, every
    result is a pass or, for an optional case, an absence (which must have a
    message that is not blank for TC-N2-AaaS-06 and TC-N2-AaaS-07, and needs none
    for the other optional cases), its version and summary are those of its profile and its results, and at level 2 each
    family of cases stands or falls together and exactly one of the clustered
    and the single Anchor applies. *)
Theorem validate_manifest_spec m : exists v, validate_manifest m = Some v /\ (vd_valid v = true <-> conforms m).
Proof.
  unfold validate_manifest, conforms.
  destruct (catalog_for_profile (mf_profile m)) as [catalog|e] eqn:Ec; [|eexists; split; [done|]; split; [done|by intros (c & [=] & _)]].
  pose proof (fun seen => check_cases_spec catalog (mf_cases m) [] seen (NoDup_nil_2)) as L. rewrite app_nil_r in L.
  assert (Hdist : NoDup (map cc_id catalog)).
  { unfold catalog_for_profile in Ec. repeat case_match; simplify_eq; apply (bool_decide_unpack _); vm_compute; reflexivity. }
  assert (Hmono : forall c, Ok catalog = Ok (E := string) c -> c = catalog) by (by intros c [= ->]).
  destruct (check_cases catalog [] (mf_cases m)) as [seen|e].
  2:{ eexists. split; [done|]. split; [done|]. intros (c & ->%Hmono & P & F & _). exfalso.
      enough (Err e = Ok (rev (map cr_case (mf_cases m)))) by done. apply L. split_and!; [| |done].
      - eapply List.Forall_impl; [|exact F]. intros r Hr. by apply case_stands_passes.
      - rewrite <- Permutation_rev, P. done. }
  destruct (proj1 (L seen) eq_refl) as (HF & HN & ->). rewrite <- Permutation_rev in HN.
  set (ids := map cr_case (mf_cases m)) in *.
  assert (Hmiss : map cc_id (List.filter (fun c => negb (bool_decide (cc_id c ∈ rev ids))) catalog) = [] <-> ids ≡ₚ map cc_id catalog).
  { split.
    - intros E%map_eq_nil. apply NoDup_Permutation; [done|done|]. intros id. rewrite !list_elem_of_In. split.
      + intros (r & <- & Hr)%in_map_iff. rewrite Forall_forall in HF. destruct (HF r) as (case & Ek & _); [by apply list_elem_of_In|].
        by apply known_case_in in Ek.
      + intros (c & <- & Hc)%in_map_iff. apply in_rev. destruct (bool_decide_reflect (cc_id c ∈ rev ids)) as [Hin|Hin]; [by apply list_elem_of_In|].
        assert (Hx : In c []) by (rewrite <- E; apply filter_In; split; [done|by rewrite bool_decide_false]). done.
    - intros P. destruct (List.filter _ catalog) as [|c l] eqn:E; [done|exfalso].
      assert (Hc : In c (c :: l)) by by left. rewrite <- E in Hc. apply filter_In in Hc as [Hc Hn%negb_true_iff%bool_decide_eq_false].
      apply Hn, list_elem_of_In. apply -> in_rev. rewrite P. by apply in_map. }
  destruct (bool_decide_reflect (map cc_id (List.filter (fun c => negb (bool_decide (cc_id c ∈ rev ids))) catalog) = [])) as [Hm|Hm]; cbn [negb].
  2:{ eexists. split; [done|]. split; [done|]. intros (c & ->%Hmono & P & _). by apply Hmiss in P. }
  apply Hmiss in Hm as P. clear Hm Hmiss.
  destruct (existsb (fun r => has_result "fail" r || has_result "skip" r) (mf_cases m)) eqn:Ef.
  { eexists. split; [done|]. split; [done|]. intros (c & ->%Hmono & _ & F & _). exfalso.
    apply existsb_exists in Ef as (r & Hr & Ef). rewrite Forall_forall in F.
    destruct (proj1 (case_stands_passes catalog r)) as [_ Hx]; [by apply F, list_elem_of_In|]. by rewrite Hx in Ef. }
  assert (F : Forall (case_stands catalog) (mf_cases m)).
  { apply Forall_forall. intros r Hr. apply case_stands_passes. rewrite Forall_forall in HF. split; [by apply HF|].
    apply list_elem_of_In in Hr. destruct (_ || _) eqn:Hx; [|done]. rewrite <- Ef. symmetry. apply existsb_exists. by exists r. }
  destruct (String.eqb_spec (mf_profile_version m) (expected_version (mf_profile m))) as [Ev|Ev]; cbn [negb].
  2:{ eexists. split; [done|]. split; [done|]. by intros (c & _ & _ & _ & Hx & _). }
  destruct (bool_decide_reflect (mf_summary m = summary_of (mf_cases m))) as [Es|Es]; cbn [negb].
  2:{ eexists. split; [done|]. split; [done|]. by intros (c & _ & _ & _ & _ & Hx & _). }
  destruct (String.eqb_spec (mf_profile m) NODE_L2) as [E2|E2].
  - rewrite E2 in Ec. injection Ec as <-.
    destruct (check_level_2_spec (mf_cases m)) as (o & -> & Ho).
    { intros c Hc. apply result_at_some. fold ids. rewrite P. by apply in_map. }
    cbn [mbind option_bind]. eexists. split; [done|]. destruct o as [message|]; cbn.
    + split; [done|]. intros (c & _ & _ & _ & _ & _ & Hx). by apply Ho in Hx.
    + split; [|done]. intros _. exists NODE_L2_CASES. split_and!; try done. intros _. by apply Ho.
  - cbn [mbind option_bind]. eexists. split; [done|]. split; [|done]. intros _. exists catalog. by split_and!.
Qed.

(** ** The decisions of alpha.19 *)

Local Open Scope Z_scope.

Abbreviation Output := Map (only parsing).

(** ** Reading members *)

(** [json!] of an object. *)
Definition output (l : list (string * Value)) : Output := map_collect l.
Definition jint (n : Z) : Value := VNumber (if 0 <=? n then PosInt n else NegInt n).

Definition obj (i : Output) (key : string) : option Output := map_get key i ≫= as_object.
Definition arr (i : Output) (key : string) : option (list Value) := map_get key i ≫= as_array.
Definition int (i : Output) (key : string) : Z := default 0 (map_get key i ≫= as_i64).
Definition float (i : Output) (key : string) : spec_float := default f_zero (map_get key i ≫= as_f64).
Definition text (i : Output) (key : string) : string := default "" (map_get key i ≫= as_str).
Definition boolean (i : Output) (key : string) : bool := default false (map_get key i ≫= as_bool).
Definition subset (want have : list Value) : bool := forallb (fun v => existsb (value_eqb v) have) want.
Definition objects (l : list Value) : list Output := omap as_object l.
Definition has (i : Output) (key : string) : bool := map_contains key i.

(** A result of [i64] arithmetic. *)
Definition i64_of (z : Z) : option Z := if (- i64_max - 1 <=? z) && (z <=? i64_max) then Some z else None.

(** The stable sort by a comparison. *)
Fixpoint insert_by {A} (cmp : A -> A -> comparison) (x : A) (l : list A) : list A :=
  match l with
  | [] => [x]
  | y :: l' => match cmp x y with Gt => y :: insert_by cmp x l' | _ => x :: l end
  end.
Definition sort_by {A} (cmp : A -> A -> comparison) (l : list A) : list A := fold_right (insert_by cmp) [] l.

(** [str::parse::<f64>]. *)
Definition f64_scaled (neg : bool) (m x : Z) : spec_float :=
  match m with
  | Zpos p =>
    if 0 <=? x then binary_normalize prec64 emax64 ((if neg then Zneg p else Zpos p) * 10 ^ x) 0 neg
    else f64_of_decimal neg m (Z.to_nat (- x))
  | _ => S754_zero neg
  end.
Definition parse_f64_text (s : string) : option spec_float :=
  let '(neg, body) := match strip_prefix "-" s with
                      | Some r => (true, r)
                      | None => (false, match strip_prefix "+" s with Some r => r | None => s end) end in
  let b := bytes_of body in
  let ip := take_while is_ascii_digit b in
  let '(fp, rest) := match drop_while is_ascii_digit b with
                     | 46 :: r => (take_while is_ascii_digit r, drop_while is_ascii_digit r)
                     | r => ([], r)
                     end in
  match ip ++ fp with
  | [] => if eq_ignore_ascii_case body "nan" then Some S754_nan
          else if eq_ignore_ascii_case body "inf" || eq_ignore_ascii_case body "infinity" then Some (S754_infinity neg) else None
  | digits =>
    m ← digits_val 0 digits;
    let value e := f64_scaled neg m (e - Z.of_nat (length fp)) in
    match rest with
    | [] => Some (value 0)
    | c :: r =>
      if (c =? 101) || (c =? 69) then
        let '(eneg, ds) := match r with 45 :: t => (true, t) | 43 :: t => (false, t) | _ => (false, r) end in
        match ds with
        | [] => None
        | _ => e ← digits_val 0 ds; Some (value (if eneg then - e else e))
        end
      else None
    end
  end.

Section dates.
Context {DT : CaDates} `{DateTimes}.

Definition instant (value : string) : option Z := parse_rfc3339_dt value.
Definition plus_seconds (at_ : string) (seconds : Z) : option string :=
  t ← instant at_; u ← date_add t (seconds * nanos_per_sec); format_rfc3339 u.

(** ** NCP *)

Definition ncp (i : Output) : option Output :=
  if has i "client_ping_ms" then
    let offers := List.filter (fun x => 0 <? x) [int i "client_ping_ms"; int i "server_ping_ms"] in
    Some (match offers with
          | [] => output [("keepalive_enabled", VBool false); ("effective_interval_ms", VNull)]
          | x :: l => output [("keepalive_enabled", VBool true); ("effective_interval_ms", jint (Z.max (fold_left Z.min l x) 1000))]
          end)
  else if has i "events" then
    events ← arr i "events";
    let clock := fold_left (fun clock event => if String.eqb (text event "event") "valid_inbound_frame" then int event "at_ms" else clock)
                   (objects events) (int i "last_valid_inbound_ms") in
    Some (output [("last_valid_inbound_ms", jint clock)])
  else if has i "queued_probe_count" then
    since ← i64_of (int i "evaluate_at_ms" - int i "last_application_send_ms");
    Some (if (int i "effective_interval_ms" <=? since) && (int i "queued_probe_count" =? 0)
          then output [("enqueue", VObject (output [("frame", VString "0x07"); ("payload_length", jint 0)])); ("queued_probe_count", jint 1)]
          else output [("queued_probe_count", jint (int i "queued_probe_count"))])
  else if has i "active_streams" then
    span ← i64_of (3 * int i "effective_interval_ms");
    deadline ← i64_of (int i "last_valid_inbound_ms" + span);
    if deadline <=? int i "evaluate_at_ms" then
      close_by ← i64_of (int i "evaluate_at_ms" + 500);
      Some (output [("state", VString "closing"); ("error", VString "NCP-KEEPALIVE-TIMEOUT"); ("error_count", jint 1);
                    ("cancelled_streams", jint (int i "active_streams")); ("close_by_ms", jint close_by);
                    ("allow_later_application_frames", VBool false)])
    else Some (output [("state", VString "open")])
  else if has i "payload_length" then
    Some (if int i "payload_length" =? 0
          then output [("accepted", VBool true); ("last_valid_inbound_ms", jint (int i "received_at_ms"))]
          else output [("accepted", VBool false); ("error", VString "NCP-FRAME-PAYLOAD-TOO-LARGE");
                       ("last_valid_inbound_ms", jint (int i "last_valid_inbound_ms"))])
  else if has i "early_data" then
    Some (if String.eqb (text i "carrier") "quic" && negb (boolean i "handshake_confirmed")
          then output [("accepted", VBool false); ("error", VString "NCP-EARLY-DATA-REJECTED"); ("retry_after_confirmation", VBool true)]
          else output [("accepted", VBool true)])
  else if has i "bound_nid" then
    Some (if negb (boolean i "handshake_confirmed") || negb (String.eqb (text i "bound_nid") (text i "migrated_nid"))
          then output [("migration_allowed", VBool false); ("session_preserved", VBool false); ("error", VString "NCP-NID-MISMATCH")]
          else if (0 <? int i "carrier_credit_bytes") && (0 <? int i "ncp_window_cgn")
          then output [("migration_allowed", VBool true); ("session_preserved", VBool true); ("send_allowed", VBool true)]
          else output [("migration_allowed", VBool true); ("session_preserved", VBool true); ("send_allowed", VBool false);
                       ("reason", VString (if int i "ncp_window_cgn" <=? 0 then "ncp_window_exhausted" else "carrier_credit_exhausted"))])
  else None.

(** ** NWP metadata *)

(** The normalized members, and the names of the members left out. *)
Definition sla (s : Output) (prefix : string) : Output * list Value :=
  let '(o, d) :=
    if has s "p95_latency_ms" then
      if 0 <? int s "p95_latency_ms" then (map_insert "p95_latency_ms" (jint (int s "p95_latency_ms")) [], [])
      else ([], [VString (prefix +:+ "p95_latency_ms")])
    else ([], []) in
  let '(o, d) :=
    if has s "availability" then
      let raw := text s "availability" in
      let n := default f_zero (parse_f64_text raw) in
      if SFltb f_zero n && SFleb n (f64_of_Z 1) then (map_insert "availability" (VString raw) o, d)
      else (o, d ++ [VString (prefix +:+ "availability")])
    else (o, d) in
  if has s "sla_tier" then
    let tier := text s "sla_tier" in
    let rank := if String.eqb tier "basic" then Some 0 else if String.eqb tier "standard" then Some 1
                else if String.eqb tier "premium" then Some 2 else None in
    (match rank with
     | Some r => map_insert "sla_tier_rank" (jint r) (map_insert "sla_tier" (VString tier) o)
     | None => map_insert "sla_tier_rank" VNull (map_insert "sla_tier_raw" (VString tier) o)
     end, d)
  else (o, d).

(** [CUR 1.5]: three upper-case letters, a space and a number. *)
Definition price_parts (price : string) : option string :=
  match bytes_of price with
  | a :: b :: c :: 32 :: r =>
    if forallb (fun x => (65 <=? x) && (x <=? 90)) [a; b; c] && negb (bool_decide (r = [])) && match parse_f64_text (of_bytes r) with Some _ => true | None => false end
    then Some (of_bytes [a; b; c]) else None
  | _ => None
  end.

Definition billing (b : Output) : Output * list Value :=
  let profile := let p := text b "metering_profile" in if String.eqb p "free" || String.eqb p "metered" then p else "metered" in
  let n := output [("metering_profile", VString profile)] in
  if String.eqb profile "free" then (n, map VString (List.filter (has b) ["billing_unit"; "price_hint"; "currency"]))
  else
    let unit := text b "billing_unit" in
    let '(n, d) := if is_empty unit then (n, [VString "billing_unit"]) else (map_insert "billing_unit" (VString unit) n, []) in
    if has b "price_hint" then
      let price := text b "price_hint" in
      match price_parts price with
      | None => (n, d ++ [VString "price_hint"])
      | Some currency =>
        if has b "currency" && negb (String.eqb (text b "currency") currency) then (n, d ++ [VString "currency"])
        else let n := map_insert "price_hint" (VString price) n in
             (if has b "currency" then map_insert "currency" (VString (text b "currency")) n else n, d)
      end
    else (n, d).

(** [Map::extend]. *)
Definition extend (base over : Output) : Output := fold_left (fun m kv => map_insert (fst kv) (snd kv) m) over base.

Definition nwp_metadata (i : Output) : option Output :=
  if has i "stability" then
    Some (match map_get "stability" i with
          | Some VNull => output [("normalized", VString "stable"); ("diagnostics", VArray [])]
          | _ =>
            let v := text i "stability" in
            if String.eqb v "experimental" || String.eqb v "stable" || String.eqb v "deprecated"
            then output [("raw", VString v); ("normalized", VString v); ("rank_as_stable", VBool (String.eqb v "stable"))]
            else output [("raw", VString v); ("normalized", VString "experimental"); ("rank_as_stable", VBool false)]
          end)
  else if has i "sla" then
    s ← obj i "sla";
    let '(n, d) := sla s "" in
    Some (output [("manifest_valid", VBool true); ("normalized_sla", VObject n); ("diagnostics", VArray d)])
  else if has i "billing" then
    b ← obj i "billing";
    let '(n, d) := billing b in
    Some (output [("normalized_billing", VObject n); ("diagnostics", VArray d)])
  else if has i "top_level" then
    top ← obj i "top_level"; top_sla ← obj top "sla";
    action ← obj i "action"; action_sla ← obj action "sla";
    let base := fst (sla top_sla "") in
    let '(over, d) := sla action_sla "action.sla." in
    Some (output [("effective_sla", VObject (extend base over)); ("diagnostics", VArray d)])
  else None.

(** ** NWP subscriptions *)

Definition lease_invalid : Output :=
  output [("accepted", VBool false); ("error", VString "NWP-SUBSCRIBE-LEASE-INVALID"); ("state_mutated", VBool false)].

Definition nwp_subscription (i : Output) : option Output :=
  if has i "policy" then
    p ← obj i "policy";
    r ← obj i "request";
    let def := int p "default_lease_seconds" in
    let max := int p "max_lease_seconds" in
    let renew := int p "renew_before_seconds" in
    if (def <=? 0) || (max <=? 0) || (max <? def) || (max <=? renew) then Some lease_invalid
    else
      let lease := if has r "lease_seconds" then int r "lease_seconds" else def in
      if lease <=? 0 then Some lease_invalid
      else
        let lease := Z.min lease max in
        expires ← plus_seconds (text i "accepted_at") lease;
        Some (if has r "lease_seconds" then output [("lease_seconds", jint lease); ("expires_at", VString expires)]
              else output [("lease_seconds", jint lease); ("expires_at", VString expires); ("status", VString "open")])
  else if has i "owner_nid" then
    Some (if String.eqb (text i "owner_nid") (text i "caller_nid") then output [("accepted", VBool true)]
          else output [("accepted", VBool false); ("error", VString "NWP-AUTH-NID-SCOPE-VIOLATION"); ("state_disclosed", VBool false)])
  else if has i "prior_seq" then
    expires ← plus_seconds (text i "accepted_at") (int i "lease_seconds");
    Some (output [("expires_at", VString expires); ("seq", jint (int i "prior_seq")); ("cursor", VString (text i "prior_cursor"))])
  else if has i "expires_at" then
    now ← instant (text i "now"); expires ← instant (text i "expires_at");
    Some (if expires <=? now
          then output [("accepted", VBool false); ("status", VString "closed"); ("error", VString "NWP-SUBSCRIBE-LEASE-EXPIRED");
                       ("terminal_event_count", jint 1)]
          else output [("accepted", VBool true)])
  else if (String.eqb (text i "operation") "renew" || String.eqb (text i "operation") "close") &&
          existsb (has i) ["anchor_ref"; "filter"; "type"]
  then Some lease_invalid
  else None.

(** ** NIP *)

Definition nip_renewal (i : Output) : option Output :=
  if String.eqb (text i "profile") "standard" then
    not_after ← instant (text i "not_after"); now ← instant (text i "now");
    let open := not_after - now <=? days 7 in
    Some (output [("renewal_open", VBool open); ("error", if open then VNull else VString "NIP-CA-RENEWAL-TOO-EARLY")])
  else if String.eqb (text i "profile") "short-lived-edge" then
    let w := Z.quot (int i "original_validity_seconds") 4 in
    Some (output [("renewal_open", VBool (int i "remaining_seconds" <=? w)); ("window_seconds", jint w)])
  else if has i "current" then
    c ← obj i "current"; r ← obj i "requested";
    rc ← arr r "capabilities"; cc ← arr c "capabilities";
    allowed ← (if subset rc cc then rs ← arr r "scope"; cs ← arr c "scope"; Some (subset rs cs) else Some false);
    Some (if (allowed : bool) then output [("issued", VBool true)]
          else output [("issued", VBool false); ("error", VString "NIP-CA-SCOPE-EXPANSION-DENIED")])
  else if has i "recorded" then
    r ← obj i "recorded";
    Some (if boolean r "committed" && String.eqb (text r "canonical_digest") (text i "canonical_digest")
          then output [("serial", VString (text r "serial")); ("new_issue_count", jint 0)]
          else output [("error", VString "NIP-CA-SERIAL-DUPLICATE"); ("new_issue_count", jint 0)])
  else if has i "old_ticket_not_after" then
    Some (output [("old_ticket_not_after", VString (text i "old_ticket_not_after"))])
  else None.

(** The loop over the sources of revocation state. *)
Fixpoint consult (i : Output) (consulted diagnostics : list Value) (sources : list Value) : option Output :=
  match sources with
  | [] => Some (if String.eqb (text i "revocation_mode") "required"
                then output [("valid", VBool false); ("error", VString "NIP-REVOCATION-STATE-STALE")]
                else output [("valid", VBool true); ("consulted_sources", VArray consulted)])
  | raw :: rest =>
    s ← as_object raw;
    let name := text s "source" in
    let outcome := text s "outcome" in
    let consulted := consulted ++ [VString name] in
    if String.eqb outcome "unknown" then Some (output [("valid", VBool false); ("error", VString "NIP-OCSP-UNKNOWN")])
    else
      stale ← (if has i "now" && has s "next_update"
               then now ← instant (text i "now"); next ← instant (text s "next_update"); Some (next <=? now) else Some false);
      if (stale : bool) then consult i consulted (diagnostics ++ [VString (name +:+ "_stale")]) rest
      else if String.eqb outcome "revoked" then Some (output [("valid", VBool false); ("error", VString "NIP-CERT-REVOKED")])
      else if String.eqb outcome "good" then
        Some (match diagnostics with
              | [] => output [("valid", VBool true); ("consulted_sources", VArray consulted)]
              | _ => output [("valid", VBool true); ("consulted_sources", VArray consulted); ("diagnostics", VArray diagnostics)]
              end)
      else consult i consulted diagnostics rest
  end.

Definition nip_revocation (i : Output) : option Output :=
  if has i "cached" then
    c ← obj i "cached"; n ← obj i "incoming";
    replace ← (if boolean n "signature_valid"
               then tn ← instant (text n "this_update"); tc ← instant (text c "this_update"); Some (tc <? tn) else Some false);
    Some (output [("cache_replaced", VBool replace); ("effective_outcome", VString (text (if (replace : bool) then n else c) "outcome"))])
  else consult i [] [] (default [] (arr i "sources")).

Definition finding (field error : string) : Value := VObject (output [("field", VString field); ("error", VString error)]).
Definition finding_field (v : Value) : string := default "" (vget "field" v ≫= as_str).
Definition nip_advisory (i : Output) : option Output :=
  ident ← obj i "ident";
  ext ← obj i "certificate_extensions";
  caps ← arr ident "capabilities";
  roles ← arr ident "node_roles";
  let f := (if String.eqb (text ident "assurance_level") (text ext "assurance_level") then []
            else [finding "assurance_level" "NIP-ASSURANCE-MISMATCH"]) ++
           (if subset caps (default [] (arr ext "capabilities")) then [] else [finding "capabilities" "NIP-CERT-CAPABILITIES-EXCEEDED"]) ++
           (if subset roles (default [] (arr ext "node_roles")) then [] else [finding "node_roles" "NIP-CERT-NODE-ROLES-MISMATCH"]) ++
           (match map_get "ocsp_staple" ident with None | Some VNull => [finding "ocsp_staple" "NIP-OCSP-STAPLE-EXPIRED"] | _ => [] end) in
  let f := sort_by (fun a b => String.compare (finding_field a) (finding_field b)) f in
  Some (output [("accepted_current_request", VBool (negb (boolean i "phase3_enforcement"))); ("findings", VArray f);
                ("state_mutated", VBool false)]).

(** ** NDP *)

Definition ndp (i : Output) : option Output :=
  if has i "commit" then
    Some (if String.eqb (text i "commit") "success"
          then output [("acknowledged", VBool true); ("served_seq", jint (int i "incoming_seq")); ("persisted_seq", jint (int i "incoming_seq"))]
          else output [("acknowledged", VBool false); ("served_seq", jint (int i "persisted_seq"));
                       ("persisted_seq", jint (int i "persisted_seq")); ("error", VString "NDP-STATE-UNAVAILABLE")])
  else if has i "now" then
    r ← obj i "record"; fresh ← instant (text r "fresh_until"); now ← instant (text i "now");
    Some (output [("live_entry", VBool (now <? fresh)); ("highest_seq", jint (int r "highest_seq")); ("ready", VBool true)])
  else if has i "restored_highest_seq" then
    Some (if int i "incoming_seq" <? int i "restored_highest_seq"
          then output [("accepted", VBool false); ("highest_seq", jint (int i "restored_highest_seq")); ("error", VString "NDP-GRAPH-SEQ-ROLLBACK")]
          else output [("accepted", VBool true); ("highest_seq", jint (int i "incoming_seq"))])
  else if has i "owners" then
    owners ← arr i "owners";
    match List.filter (fun x => boolean x "live") (objects owners) with
    | [] => None
    | x :: l =>
      let top := fold_left Z.max (map (fun y => int y "epoch") l) (int x "epoch") in
      let leaders := sort_by String.compare (map (fun y => text y "nid") (List.filter (fun y => int y "epoch" =? top) (x :: l))) in
      Some (match leaders with
            | [leader] => output [("resolved_nid", VString leader)]
            | _ => output [("resolved_nid", VNull); ("error", VString "NDP-CLUSTER-SPLIT")]
            end)
    end
  else if has i "snapshot_validation" then
    Some (if String.eqb (text i "snapshot_validation") "valid"
          then output [("ready", VBool true); ("started_empty", VBool false)]
          else output [("ready", VBool false); ("started_empty", VBool false); ("error", VString "NDP-STATE-CORRUPT")])
  else if has i "profiles" then
    profiles ← arr i "profiles";
    Some (output [("recovery", VArray (map (fun x => VString (if bool_decide (as_str x = Some "local-dev") then "volatile" else "durable")) profiles))])
  else if has i "revoked_origin" then
    r ← obj i "record";
    Some (output [("live", VBool (boolean r "live" && negb (String.eqb (text r "origin") (text i "revoked_origin"))));
                  ("highest_seq", jint (int r "highest_seq"))])
  else None.

(** ** NOP *)

(** By descending score, then by node id; scores that do not compare are
    equal. *)
Definition by_score (a b : Output) : comparison :=
  match default Eq (SFcompare (float b "score") (float a "score")) with
  | Eq => String.compare (text a "node_id") (text b "node_id")
  | c => c
  end.
Definition select_nodes (results : list Output) (min_required : Z) : Output :=
  if existsb (fun r => negb (has r "score") || negb (f_is_finite (float r "score"))) results
  then output [("error", VString "NOP-AGGREGATION-INVALID")]
  else
    let sorted := sort_by by_score results in
    let taken := if min_required <? 0 then sorted else take (Z.to_nat min_required) sorted in
    output [("selected_node_ids", VArray (map (fun r => VString (text r "node_id")) taken))].

(** Members of a value into the aggregate: arrays are joined. *)
Definition merge_member (agg : Output) (kv : string * Value) : Output :=
  match map_get (fst kv) agg, snd kv with
  | Some (VArray have), VArray more => map_insert (fst kv) (VArray (have ++ more)) agg
  | _, v => map_insert (fst kv) v agg
  end.
Definition result_of_node (results : list Output) (id : string) : option Output :=
  List.find (fun r => String.eqb (text r "node_id") id) (rev results).
Fixpoint aggregate_results (results : list Output) (order : list string) (agg : Output) : option Output :=
  match order with
  | [] => Some agg
  | id :: rest =>
    match result_of_node results id with
    | Some r =>
      if String.eqb (text r "state") "completed"
      then v ← obj r "value"; aggregate_results results rest (fold_left merge_member v agg)
      else aggregate_results results rest agg
    | None => aggregate_results results rest agg
    end
  end.

Definition nop (i : Output) : option Output :=
  recorded ← (if has i "recorded" then r ← obj i "recorded"; Some (if String.eqb (text r "digest") (text i "digest") then Some r else None)
              else Some None);
  match recorded with
  | Some r => Some (output [("state", VString (text r "state")); ("dispatch_count", jint (int r "dispatch_count")); ("replayed", VBool true)])
  | None =>
    if has i "recorded_digest" then
      Some (if String.eqb (text i "digest") (text i "recorded_digest") then output [("accepted", VBool true)]
            else output [("accepted", VBool false); ("error", VString "NOP-REPLAY-CONFLICT"); ("record_mutated", VBool false)])
    else if has i "incoming" then
      n ← obj i "incoming"; records ← arr i "records";
      let found := existsb (fun r => String.eqb (text r "caller_nid") (text n "caller_nid") && String.eqb (text r "task_id") (text n "task_id"))
                     (objects records) in
      Some (output [("new_key", VBool (negb found)); ("accepted", VBool (negb found))])
    else if has i "terminal_commit_ms" then
      ttl ← i64_of (1000 * int i "result_ttl_seconds");
      until ← i64_of (int i "terminal_commit_ms" + ttl);
      Some (if until <=? int i "query_at_ms" then output [("result", VNull); ("error", VString "NOP-TASK-RESULT-EXPIRED")]
            else output [("result", VString "retained")])
    else if has i "result_expired_at_ms" then
      keep ← i64_of (1000 * int i "replay_tombstone_seconds");
      until ← i64_of (int i "result_expired_at_ms" + keep);
      Some (if int i "duplicate_at_ms" <? until
            then output [("dispatch", VBool false); ("error", VString "NOP-TASK-RESULT-EXPIRED"); ("tombstone_retained", VBool true)]
            else output [("dispatch", VBool true); ("tombstone_retained", VBool false)])
    else if has i "capacity" then
      records ← arr i "records";
      let safe := List.filter (fun r => negb (String.eqb (text r "state") "running")) (objects records) in
      Some (match safe with
            | [] => if int i "capacity" <=? Z.of_nat (length records)
                    then output [("accepted", VBool false); ("evicted", VArray []); ("error", VString "NOP-REPLAY-LIMIT")]
                    else output [("accepted", VBool true); ("evicted", VArray [])]
            | r :: _ => output [("accepted", VBool true); ("evicted", VArray [VString (text r "key")])]
            end)
    else if has i "committed" then
      c ← obj i "committed";
      Some (output [("state", VString (text c "state")); ("late_event", VString "audit_only"); ("ttl_extended", VBool false)])
    else if has i "min_required" then
      results ← arr i "results";
      Some (select_nodes (objects results) (int i "min_required"))
    else if has i "topology_order" then
      results ← arr i "results"; order ← arr i "topology_order";
      agg ← aggregate_results (objects results) (omap as_str order) [];
      Some (output [("aggregated", VObject agg); ("inputs_mutated", VBool false)])
    else None
  end.

(** ** Properties *)

Lemma insert_by_perm {A} (cmp : A -> A -> comparison) x l : insert_by cmp x l ≡ₚ x :: l.
Proof. induction l as [|y l IH]; [done|]. cbn. destruct (cmp x y); [done|done|]. rewrite IH. apply Permutation_swap. Qed.
Lemma sort_by_perm {A} (cmp : A -> A -> comparison) l : sort_by cmp l ≡ₚ l.
Proof. induction l as [|x l IH]; [done|]. cbn. by rewrite insert_by_perm, IH. Qed.

(** The interval of two peers is the shorter of those they offer, and a
    second at least. *)
Lemma keepalive_interval i c s : map_get "client_ping_ms" i = Some (jint c) -> map_get "server_ping_ms" i = Some (jint s) ->
  0 < c <= i64_max -> 0 < s <= i64_max ->
  ncp i = Some (output [("keepalive_enabled", VBool true); ("effective_interval_ms", jint (Z.max (Z.min c s) 1000))]).
Proof.
  intros Ec Es Hc Hs. assert (Hi : forall z, 0 < z <= i64_max -> as_i64 (jint z) = Some z).
  { intros z Hz. unfold jint, as_i64, number_as_i64. replace (0 <=? z) with true by lia. by replace (z <=? i64_max) with true by lia. }
  unfold ncp, has, map_contains, int. rewrite Ec, Es. cbn [mbind option_bind]. rewrite !Hi by done. cbn [default List.filter].
  unfold id. rewrite (proj2 (Z.ltb_lt 0 c)), (proj2 (Z.ltb_lt 0 s)) by lia. reflexivity.
Qed.

(** A certificate is issued again exactly with capabilities and a scope that
    the current one has. *)
Lemma renewal_subset i c r rc cc rs cs : text i "profile" = "" -> obj i "current" = Some c -> obj i "requested" = Some r ->
  arr r "capabilities" = Some rc -> arr c "capabilities" = Some cc -> arr r "scope" = Some rs -> arr c "scope" = Some cs ->
  nip_renewal i = Some (if subset rc cc && subset rs cs then output [("issued", VBool true)]
                        else output [("issued", VBool false); ("error", VString "NIP-CA-SCOPE-EXPANSION-DENIED")]).
Proof.
  intros Ep Ec Er E1 E2 E3 E4. unfold nip_renewal. rewrite Ep. cbn [String.eqb].
  assert (Hc : has i "current" = true) by (unfold has, map_contains; unfold obj in Ec; by destruct (map_get "current" i)). rewrite Hc.
  rewrite Ec, Er. cbn [mbind option_bind]. rewrite E1, E2. cbn [mbind option_bind].
  destruct (subset rc cc); [|done]. rewrite E3, E4. done.
Qed.

(** As many nodes are selected as are asked for, or all of them, each one as
    often as it has a result. *)
Lemma selected_nodes results k : 0 <= k -> Forall (fun r => has r "score" = true /\ f_is_finite (float r "score") = true) results ->
  exists ids rest, select_nodes results k = output [("selected_node_ids", VArray (map VString ids))] /\
    length ids = Nat.min (Z.to_nat k) (length results) /\ ids ++ rest ≡ₚ map (fun r => text r "node_id") results.
Proof.
  intros Hk HF. unfold select_nodes. replace (existsb _ results) with false.
  2:{ symmetry. induction HF as [|r l [H1 H2] _ IH]; [done|]. cbn. by rewrite H1, H2. }
  replace (k <? 0) with false by lia. set (l := sort_by by_score results).
  exists (map (fun r => text r "node_id") (take (Z.to_nat k) l)), (map (fun r => text r "node_id") (drop (Z.to_nat k) l)).
  rewrite map_map. split_and!; [done| |].
  - rewrite length_map, length_take. f_equal. apply Permutation_length, sort_by_perm.
  - rewrite <- map_app, take_drop. apply Permutation_map, sort_by_perm.
Qed.

(** A record that has ended is evicted whether or not there is room. *)
Lemma eviction_with_room i r records : map_get "records" i = Some (VArray (VObject r :: records)) -> has i "capacity" = true ->
  has i "recorded" = false -> has i "recorded_digest" = false -> has i "incoming" = false -> has i "terminal_commit_ms" = false ->
  has i "result_expired_at_ms" = false -> text r "state" <> "running" ->
  nop i = Some (output [("accepted", VBool true); ("evicted", VArray [VString (text r "key")])]).
Proof.
  intros Er E1 E2 E3 E4 E5 E6 Hr. unfold nop. rewrite E2. cbn [mbind option_bind]. rewrite E3, E4, E5, E6, E1.
  unfold arr. rewrite Er. cbn [mbind option_bind as_array objects omap list_omap as_object List.filter].
  apply String.eqb_neq in Hr. by rewrite Hr.
Qed.

(** A source that is out of date is passed over, even when it says that the
    certificate is revoked; without another source the certificate is then
    accepted, unless the mode is [required]. *)
Lemma stale_revocation_passed i s now next : map_get "sources" i = Some (VArray [VObject s]) -> has i "cached" = false ->
  has i "now" = true -> has s "next_update" = true -> text s "outcome" = "revoked" ->
  instant (text i "now") = Some now -> instant (text s "next_update") = Some next -> next <= now ->
  text i "revocation_mode" <> "required" ->
  nip_revocation i = Some (output [("valid", VBool true); ("consulted_sources", VArray [VString (text s "source")])]).
Proof.
  intros Es Ec En Ex Eo E1 E2 Hle Hm. unfold nip_revocation, arr. rewrite Ec, Es. cbn [mbind option_bind as_array default]. unfold id.
  cbn [consult mbind option_bind as_object]. rewrite Eo, En, Ex, E1, E2. cbn [String.eqb Ascii.eqb Bool.eqb andb mbind option_bind]. replace (next <=? now) with true by lia.
  cbn [app]. apply String.eqb_neq in Hm. by rewrite Hm.
Qed.
End dates.
