(* ===== verification/NipCaRouterSpec.v ===== *)
(** * NipCaRouterSpec: who can make the CA act, and what it answers

    Group signatures verify; every request acts on the store as one call of
    the service; without the operator's key only a group's signature and the
    decisions on pending registrations change anything; and a revocation over
    HTTP is seen by every later status request. *)

From S2P Require Import Prelude Calls RustStr Floats Json CoreFrames CoreCache NcpFrames NipFrames NipDer NipX509 NipVerifier NipSigner NipRa NipCaStore NipCaService NipCaSpec NipX509Builder NipCaRouter.
Local Open Scope Z_scope.

(** ** Comparing keys *)

Lemma lor_zero a b : 0 <= a -> 0 <= b -> Z.lor a b = 0 <-> a = 0 /\ b = 0.
Proof. intros. rewrite Z.lor_eq_0_iff. done. Qed.

Lemma diff_zero l d : 0 <= d -> Forall (fun xy => 0 <= fst xy /\ 0 <= snd xy) l ->
  fold_left (fun diff (xy : Z * Z) => Z.lor diff (Z.lxor (fst xy) (snd xy))) l d = 0 <->
  d = 0 /\ Forall (fun xy => fst xy = snd xy) l.
Proof.
  revert d; induction l as [|[x y] l IH]; intros d Hd Hl; cbn; [naive_solver |].
  inversion Hl as [|? ? [Hx Hy] Hl']; subst; cbn in *.
  assert (0 <= Z.lxor x y) by (rewrite Z.lxor_nonneg; split; done).
  rewrite IH, lor_zero, Z.lxor_eq_0_iff, Forall_cons by (done || rewrite Z.lor_nonneg; done). cbn. naive_solver.
Qed.

Lemma constant_time_eq_spec a b : Forall u8_range a -> Forall u8_range b ->
  constant_time_eq a b = true <-> a = b.
Proof.
  intros Ha Hb. unfold constant_time_eq. destruct (Nat.eqb_spec (length a) (length b)) as [Hl|Hl]; cbn [negb].
  2:{ split; [done |]. by intros ->. }
  rewrite Z.eqb_eq, diff_zero; [|lia|].
  - split.
    + intros [_ Hf]. clear Ha Hb. revert b Hl Hf. induction a as [|x a IH]; intros [|y b] Hl Hf; try done.
      cbn in Hf. inversion Hf; subst; cbn in *. f_equal; [done | apply IH; [lia | done]].
    + intros ->. split; [done |]. clear Ha Hb Hl. induction b; constructor; done.
  - clear Hl. revert b Hb. induction Ha as [|x a Hx Ha IH]; intros [|y b] Hb; cbn; try constructor.
    + inversion Hb; subst. unfold u8_range in *. cbn. lia.
    + apply IH. by inversion Hb.
Qed.

(** ** Group signatures *)

Section jws.
Context {D : Digests} `{SigningLaws} `{GroupJwsSerde}.

(** What serde reads of the header the builder writes. *)
Hypothesis header_back : forall kid, jws_header_from_slice (bytes_of (json_to_string (jws_header_value kid)))
  = Ok (mkJwsHeader (Some EXPECTED_ALG) (Some kid) (Some EXPECTED_PURPOSE)).
Hypothesis b64_nothing : b64_url_no_pad "" = Ok [].

Lemma encoded_full l : l <> [] -> Forall u8_range l -> is_empty (b64_url_no_pad_encode l) = false.
Proof.
  intros Hl Hu. destruct (b64_url_no_pad_encode l) eqn:E; [|done]. exfalso. apply Hl.
  pose proof (b64_back l Hu) as Hb. rewrite E, b64_nothing in Hb. by injection Hb as <-.
Qed.

Lemma jws_verifies sk kid payload : kid <> "" -> payload <> "" -> utf8_string payload ->
  json_to_string (jws_header_value kid) <> "" ->
  try_verify (build_flattened_jws sk kid payload) (verifying_key sk) = Ok (mkVerified payload kid).
Proof.
  intros Hk Hp Hu Hj.
  assert (Hfull : forall s, s <> "" -> is_empty (b64_url_no_pad_encode (bytes_of s)) = false).
  { intros s Hs. apply encoded_full; [|apply bytes_of_u8]. by destruct s. }
  assert (Hsig : is_empty (b64_url_no_pad_encode (sig_to_bytes (ed_sign sk
      (bytes_of (b64_url_no_pad_encode (bytes_of (json_to_string (jws_header_value kid))) +:+ "." +:+ b64_url_no_pad_encode (bytes_of payload)))))) = false).
  { apply encoded_full; [|apply sig_bytes_u8]. intros E. pose proof (sig_bytes_len (ed_sign sk
      (bytes_of (b64_url_no_pad_encode (bytes_of (json_to_string (jws_header_value kid))) +:+ "." +:+ b64_url_no_pad_encode (bytes_of payload))))) as Hl.
    by rewrite E in Hl. }
  unfold try_verify, build_flattened_jws. cbn [fj_protected fj_payload fj_signature default id]. rewrite (Hfull _ Hj), (Hfull _ Hp), Hsig. cbn [orb].
  rewrite !b64_back by (apply bytes_of_u8 || apply sig_bytes_u8). cbn [map_err mbind result_bind].
  rewrite header_back. cbn [map_err mbind result_bind jh_alg jh_kid jh_nps_purpose some_is].
  unfold some_is. rewrite !bool_decide_eq_true_2 by done. cbn [negb orb].
  replace (is_empty kid) with false by by destruct kid. rewrite sig_bytes_len. cbn [negb Nat.eqb].
  rewrite sig_bytes_back, sign_verifies. cbn [map_err mbind result_bind].
  unfold from_utf8. rewrite Hu. cbn. by rewrite of_bytes_bytes_of.
Qed.

(** What a signature that verifies shows. *)
Lemma try_verify_inv jws vk v : try_verify jws vk = Ok v ->
  exists header_bytes payload_bytes sig_bytes header, b64_url_no_pad (default "" (fj_protected jws)) = Ok header_bytes /\
    b64_url_no_pad (default "" (fj_payload jws)) = Ok payload_bytes /\
    b64_url_no_pad (default "" (fj_signature jws)) = Ok sig_bytes /\
    jws_header_from_slice header_bytes = Ok header /\ jh_alg header = Some EXPECTED_ALG /\
    jh_nps_purpose header = Some EXPECTED_PURPOSE /\ jh_kid header = Some (jv_kid v) /\
    ed_verify vk (bytes_of (default "" (fj_protected jws) +:+ "." +:+ default "" (fj_payload jws))) (sig_from_bytes sig_bytes) = Ok tt /\
    from_utf8 payload_bytes = Some (jv_payload_json v).
Proof.
  unfold try_verify. destruct (_ || _ || is_empty (default "" (fj_signature jws))); [done |].
  intros E. apply result_bind_Ok in E as (hb & E1%map_err_Ok & E). apply result_bind_Ok in E as (pb & E2%map_err_Ok & E).
  apply result_bind_Ok in E as (sb & E3%map_err_Ok & E). apply result_bind_Ok in E as (h & E4%map_err_Ok & E).
  unfold some_is in E. repeat case_bool_decide; cbn [negb orb] in E; try done.
  destruct (jh_kid h) as [kid|] eqn:Ek; [|done]. destruct (is_empty kid) eqn:Ee; [done |].
  destruct (negb _); [done |]. apply result_bind_Ok in E as ([] & E5%map_err_Ok & E).
  apply result_bind_Ok in E as (pj & E6 & [= <-]). exists hb, pb, sb, h. cbn. rewrite Ek.
  repeat split; try done. unfold ok_or in E6. by destruct (from_utf8 pb); [injection E6 as -> |].
Qed.
End jws.

(** ** Calls that leave the world *)

Section quiet.
Context {S : Type}.
Abbreviation RouterCall := (Call (E := CaResponse) (S := (S * RaStores)%type)).
Abbreviation World := (S * RaStores)%type.

(** A call that leaves the world, and one that leaves the store. *)
Definition quiet {A} (m : RouterCall A) : Prop := forall w out w', m w = Some (out, w') -> w' = w.
Definition store_quiet {A} (m : RouterCall A) : Prop := forall w out w', m w = Some (out, w') -> fst w' = fst w.
Lemma quiet_store {A} (m : RouterCall A) : quiet m -> store_quiet m.
Proof. intros Hm w out w' E. by rewrite (Hm _ _ _ E). Qed.
Lemma quiet_bind {A B} (m : RouterCall A) (f : A -> RouterCall B) : quiet m -> (forall a, quiet (f a)) -> quiet (call_bind m f).
Proof.
  intros Hm Hf w out w' E. apply call_bind_inv in E as [(e & E & _)|(a & w1 & E1 & E)]; [by eapply Hm |].
  rewrite (Hf _ _ _ _ E). by eapply Hm.
Qed.
Lemma store_quiet_bind {A B} (m : RouterCall A) (f : A -> RouterCall B) : store_quiet m -> (forall a, store_quiet (f a)) ->
  store_quiet (call_bind m f).
Proof.
  intros Hm Hf w out w' E. apply call_bind_inv in E as [(e & E & _)|(a & w1 & E1 & E)]; [by eapply Hm |].
  rewrite (Hf _ _ _ _ E). by eapply Hm.
Qed.
Lemma quiet_ret {A} (a : A) : quiet (call_ret a).
Proof. by intros w out w' [_ ->]%call_ret_inv. Qed.
Lemma quiet_fail {A} x : quiet (call_fail (A := A) x).
Proof. by intros w out w' [_ ->]%call_fail_inv. Qed.
Lemma quiet_result {A} (x : result _ A) : quiet (call_result x).
Proof. by intros w out w' [_ ->]%call_result_inv. Qed.
Lemma quiet_panic {A} (o : option A) : quiet (call_panic o).
Proof. intros w out w' (x & _ & _ & ->)%call_panic_inv. done. Qed.
Lemma quiet_get {A} (f : World -> A) : quiet (call_get f).
Proof. by intros w out w' [_ ->]%call_get_inv. Qed.
Lemma store_quiet_ra {A} (f : RaStores -> A * RaStores) : store_quiet (on_ra f).
Proof. intros w out w' E. unfold on_ra in E. destruct (f (snd w)). by injection E as _ <-. Qed.

End quiet.

(** ** What a request does to the store *)

Section acts.
Context {D : Digests} `{Base64} `{Ed25519Signing} `{Base64Encoder} `{JsonParser} `{DateTimes} `{GroupJwsSerde} `{!Rcgen} `{HexDecoder} `{HintSerde}.

(** One call of the service, with those of [NipX509Builder]. *)
Inductive store_step (opts : NipCaOptions) (sk : SigningKey) (g g' : Inner) : Prop :=
| store_same : g' = g -> store_step opts sk g g'
| store_call : ca_step opts sk g g' -> store_step opts sk g g'
| store_x509 now et id pk caps sc level md out :
    register_x509 opts sk now et id pk caps sc level md g = Some (out, g') -> store_step opts sk g g'.

Lemma register_x509_inv opts sk now et id pk caps sc level md g out g' : store_inv g ->
  register_x509 opts sk now et id pk caps sc level md g = Some (out, g') -> store_inv g' /\ trail_extends g g'.
Proof.
  intros Hi E. unfold register_x509 in E.
  apply call_bind_inv in E as [(e & E & _)|([] & g1 & E1 & E)].
  { apply require_new_inv in E as [-> _]. split; [done | apply trail_extends_refl]. }
  apply require_new_inv in E1 as [-> [[_ Hnew]|(? & ? & _)]]; [|done].
  apply call_bind_inv in E as [(e & [_ ->]%call_result_inv & _)|([] & g1 & [_ ->]%call_result_inv & E)];
    [split; [done | apply trail_extends_refl] |].
  apply call_bind_inv in E as [(e & (x & _ & [=] & _)%call_panic_inv & _)|(ex & g1 & (x & _ & _ & ->)%call_panic_inv & E)].
  apply call_bind_inv in E as [(e & E & _)|(s & g1 & E1 & E)].
  { unfold next_serial in E. by destruct (st_next_serial g) as [[]|]. }
  unfold next_serial in E1. destruct (st_next_serial g) as [[s0 g0]|] eqn:Es; [|done].
  injection E1 as -> ->. apply next_serial_inv in Es as (Hi1 & Hs & Hr1 & Hc1 & Hfresh); [|done].
  assert (Hsame : store_inv g1 /\ trail_extends g g1) by (split; [done | by apply trail_extends_same]).
  apply call_bind_inv in E as [(e & [_ ->]%call_result_inv & _)|(v1 & g2 & [_ ->]%call_result_inv & E)]; [done |].
  apply call_bind_inv in E as [(e & [_ ->]%call_result_inv & _)|(raw & g2 & [_ ->]%call_result_inv & E)]; [done |].
  apply call_bind_inv in E as [(e & (y & _ & [=] & _)%call_panic_inv & _)|(re & g2 & (y & _ & _ & ->)%call_panic_inv & E)].
  apply call_bind_inv in E as [(e & [_ ->]%call_result_inv & _)|(root & g2 & [_ ->]%call_result_inv & E)]; [done |].
  apply call_bind_inv in E as [(e & [_ ->]%call_result_inv & _)|(leaf & g2 & [_ ->]%call_result_inv & E)]; [done |].
  match type of E with call_bind (persist ?r) _ _ = _ => set (rec := r) in E end.
  destruct (save_inv g1 rec Hi1 Hs) as [Hsave Hi2].
  - destruct (si_counter g Hi). lia.
  - by rewrite Hr1.
  - done.
  - rewrite Hr1. intros z Hz Hn. by apply (fresh_nid_live _ _ Hnew).
  - apply call_bind_inv in E as [(e & E & _)|(u & g3 & E3 & E)].
    { unfold persist in E. cbn [st_save in_memory] in E. by rewrite Hsave in E. }
    unfold persist in E3. cbn [st_save in_memory] in E3. rewrite Hsave in E3. injection E3 as _ <-.
    apply call_ret_inv in E as [_ ->]. split; [done |]. eapply trail_extends_snoc. cbn. by rewrite Hr1.
Qed.

Lemma store_step_inv opts sk g g' : store_step opts sk g g' -> store_inv g -> store_inv g' /\ trail_extends g g'.
Proof.
  intros [->|Hs|now et id pk caps sc level md out E] Hi; [split; [done | apply trail_extends_refl] | by eapply ca_step_inv | by eapply register_x509_inv].
Qed.

Context (r : NipCaRouter) (rd : CaReadings) (req : CaRequest).
Abbreviation World := (Inner * RaStores)%type.
Abbreviation RouterCall := (Call (E := CaResponse) (S := World)).
Abbreviation ca_opts := (ro_ca (rt_opts r)).

(** A call that makes at most one step of the store. *)
Definition steps {A} (m : RouterCall A) : Prop := forall w out w', m w = Some (out, w') ->
  mem_get_by_nid (session_nid_of ca_opts (cr_now rd 2) (cr_hex rd)) (fst w) = None ->
  store_step ca_opts (rt_signing_key r) (fst w) (fst w').

Lemma store_quiet_steps {A} (m : RouterCall A) : store_quiet m -> steps m.
Proof. intros Hm w out w' E _. apply store_same, (Hm _ _ _ E). Qed.

Lemma steps_after {A B} (m : RouterCall A) (f : A -> RouterCall B) : store_quiet m -> (forall a, steps (f a)) -> steps (call_bind m f).
Proof.
  intros Hm Hf w out w' E Hn. apply call_bind_inv in E as [(e & E & _)|(a & w1 & E1 & E)].
  - apply store_same. by eapply Hm.
  - rewrite <- (Hm _ _ _ E1). eapply Hf; [exact E |]. by rewrite (Hm _ _ _ E1).
Qed.
Lemma steps_then {A B} (m : RouterCall A) (f : A -> RouterCall B) : steps m -> (forall a, store_quiet (f a)) -> steps (call_bind m f).
Proof.
  intros Hm Hf w out w' E Hn. apply call_bind_inv in E as [(e & E & _)|(a & w1 & E1 & E)]; [by eapply Hm |].
  rewrite (Hf _ _ _ _ E). by eapply Hm.
Qed.

Lemma service_steps {A} (m : Call (E := NipCaError) (S := Inner) A) :
  (forall g out g', m g = Some (out, g') -> mem_get_by_nid (session_nid_of ca_opts (cr_now rd 2) (cr_hex rd)) g = None ->
     store_step ca_opts (rt_signing_key r) g g') -> steps (on_service m).
Proof.
  intros Hm w out w' E Hn. unfold on_service in E. destruct (m (fst w)) as [[x g]|] eqn:Em; [|done].
  injection E as _ <-. by eapply Hm.
Qed.
End acts.

Create HintDb router.
#[export] Hint Resolve quiet_ret quiet_fail quiet_result quiet_panic quiet_get : router.

(** Calls by their shape. *)
Ltac router_calls :=
  repeat match goal with
  | |- quiet (call_bind _ _) => apply quiet_bind
  | |- store_quiet (on_ra _) => apply store_quiet_ra
  | |- store_quiet (call_bind _ _) => apply store_quiet_bind
  | |- steps _ _ (call_bind (on_service _) _) => apply steps_then
  | |- steps _ _ (call_bind _ _) => apply steps_after
  | |- context [let '(_, _) := ?p in _] => destruct p
  | |- quiet (match ?x with _ => _ end) => destruct x
  | |- store_quiet (match ?x with _ => _ end) => destruct x
  | |- steps _ _ (match ?x with _ => _ end) => destruct x
  | |- forall _, _ => intros
  | |- quiet _ => solve [auto with router]
  | |- store_quiet _ => apply quiet_store
  | |- steps _ _ (on_service _) => apply service_steps; intros
  | |- steps _ _ _ => apply store_quiet_steps
  end.

Section routes.
Context {D : Digests} `{Base64} `{Ed25519Signing} `{Base64Encoder} `{JsonParser} `{DateTimes} `{GroupJwsSerde} `{!Rcgen} `{HexDecoder} `{HintSerde}.
Context {S : Type} `{!NipCaStore S}.
Context (r : NipCaRouter) (rd : CaReadings) (req : CaRequest).

Lemma require_authorized_quiet : quiet (S := S) (require_authorized r req).
Proof. unfold require_authorized. router_calls. Qed.
Lemma require_body_quiet : quiet (S := S) (require_body req).
Proof. apply quiet_result. Qed.
Lemma checked_quiet {A} (x : result string A) : quiet (S := S) (checked x).
Proof. apply quiet_result. Qed.
Lemma require_pending_store_quiet : quiet (S := S) (require_pending_store r).
Proof. unfold require_pending_store. router_calls. Qed.
Lemma signed_session_quiet gnid : quiet (S := S) (signed_session r rd req gnid).
Proof. unfold signed_session, require_fresh, live_group, jws_fail, ca_fail, from_store. router_calls. Qed.
Lemma operator_session_quiet : quiet (S := S) (operator_session r req).
Proof.
  unfold operator_session. apply quiet_bind; [apply require_authorized_quiet |]. intros _.
  apply quiet_bind; [apply require_body_quiet |]. intros. apply quiet_ret.
Qed.
Lemma ocsp_result_quiet v : quiet (S := S) (ocsp_result v).
Proof. unfold ocsp_result. router_calls. Qed.

End routes.
#[export] Hint Resolve require_authorized_quiet require_body_quiet checked_quiet require_pending_store_quiet signed_session_quiet
  operator_session_quiet ocsp_result_quiet : router.

Section quiet_routes.
Context {D : Digests} `{Base64} `{Ed25519Signing} `{Base64Encoder} `{JsonParser} `{DateTimes} `{GroupJwsSerde} `{!Rcgen} `{HexDecoder} `{HintSerde}.
Context {S : Type} `{!NipCaStore S}.
Context (r : NipCaRouter) (rd : CaReadings) (req : CaRequest).

(** *** The routes that leave it *)

Lemma crl_quiet : quiet (S := S) (route_crl r rd).
Proof. unfold route_crl, from_store. router_calls. Qed.
Lemma certificates_quiet : quiet (S := S) (route_certificates r req).
Proof. unfold route_certificates, from_store. router_calls. Qed.
Lemma verify_quiet nid : quiet (S := S) (route_verify rd nid).
Proof. unfold route_verify, from_store. router_calls. Qed.
Lemma list_group_sessions_quiet nid : quiet (S := S) (route_list_group_sessions nid).
Proof. unfold route_list_group_sessions, from_store. router_calls. Qed.
Lemma list_pending_quiet : quiet (S := S) (route_list_pending r req).
Proof. unfold route_list_pending, from_ra. router_calls. Qed.
Lemma create_token_store_quiet : store_quiet (S := S) (route_create_token r rd req).
Proof. unfold route_create_token. router_calls. Qed.
Lemma reject_pending_store_quiet id : store_quiet (S := S) (route_reject_pending r req id).
Proof. unfold route_reject_pending, from_ra. router_calls. Qed.
End quiet_routes.

Section refinement.
Context {D : Digests} `{Base64} `{Ed25519Signing} `{Base64Encoder} `{JsonParser} `{DateTimes} `{GroupJwsSerde} `{!Rcgen} `{HexDecoder} `{HintSerde}.
Context (r : NipCaRouter) (rd : CaReadings) (req : CaRequest).
Abbreviation World := (Inner * RaStores)%type.
Abbreviation RouterCall := (Call (E := CaResponse) (S := World)).

(** *** The routes that change the store *)

Lemma register_steps et caps : steps r rd (route_register r rd req et caps).
Proof. unfold route_register. router_calls. apply store_call. by eapply step_register. Qed.
Lemma register_x509_steps et caps : steps r rd (route_register_x509 r rd req et caps).
Proof. unfold route_register_x509. router_calls. by eapply store_x509. Qed.
Lemma register_group_steps : steps r rd (route_register_group r rd req).
Proof. unfold route_register_group. router_calls. apply store_call. by eapply step_register_group. Qed.
Lemma renew_steps nid : steps r rd (route_renew r rd req nid).
Proof. unfold route_renew. router_calls. apply store_call. by eapply step_renew. Qed.
Lemma revoke_steps nid : steps r rd (route_revoke r rd req nid).
Proof. unfold route_revoke. router_calls. apply store_call. by eapply step_revoke. Qed.
Lemma issue_session_steps nid : steps r rd (route_issue_session r rd req nid).
Proof. unfold route_issue_session. router_calls; apply store_call; by eapply step_issue_session. Qed.
Lemma approve_pending_steps id : steps r rd (route_approve_pending r rd id).
Proof. unfold route_approve_pending, from_ra. router_calls. apply store_call. by eapply step_register. Qed.

Lemma on_segment_ind (P : RouterCall CaResponse -> Prop) method seg h next :
  (forall x, seg = Some x -> P (h x)) -> P next -> P (on_segment req method seg h next).
Proof. intros Hh Hn. unfold on_segment. destruct seg as [x|]; [|done]. destruct (String.eqb _ _); [by apply Hh | done]. Qed.

(** Every request acts on the store as one call of the service, at most. *)
Lemma route_steps : steps r rd (ca_route r rd req).
Proof.
  unfold ca_route. cbv zeta.
  repeat match goal with |- steps _ _ (if ?b then _ else _) => destruct b end;
    auto using register_steps, register_x509_steps, register_group_steps, store_quiet_steps, quiet_store, create_token_store_quiet,
      crl_quiet, certificates_quiet, list_pending_quiet, quiet_ret.
  repeat apply on_segment_ind;
    auto using renew_steps, revoke_steps, issue_session_steps, approve_pending_steps, store_quiet_steps, quiet_store,
      verify_quiet, list_group_sessions_quiet, reject_pending_store_quiet, quiet_ret.
Qed.
End refinement.

(** ** Paths *)

Lemma concat_bytes l : bytes_of (String.concat "" l) = concat (map bytes_of l).
Proof.
  induction l as [|x [|y l] IH]; [done | cbn; by rewrite app_nil_r |].
  change (String.concat "" (x :: y :: l)) with (x +:+ ("" +:+ String.concat "" (y :: l))).
  rewrite bytes_of_app. change ("" +:+ String.concat "" (y :: l)) with (String.concat "" (y :: l)). by rewrite IH.
Qed.

Lemma hex_val_digit d : 0 <= d < 16 -> hex_val (byte_of (hex_digit_upper d)) = Some d.
Proof.
  intros Hd. assert (d = 0 \/ d = 1 \/ d = 2 \/ d = 3 \/ d = 4 \/ d = 5 \/ d = 6 \/ d = 7 \/ d = 8 \/ d = 9 \/ d = 10 \/ d = 11
    \/ d = 12 \/ d = 13 \/ d = 14 \/ d = 15) as Hc by lia.
  by repeat destruct Hc as [->|Hc]; [..|subst].
Qed.

Definition escape_byte (b : Z) : string := if unreserved b then of_bytes [b] else "%" +:+ fmt_02X b.

Lemma unescape_byte b rest : u8_range b ->
  unescape_bytes 0 (bytes_of (escape_byte b) ++ rest) = b :: unescape_bytes 0 rest.
Proof.
  intros Hb. unfold escape_byte. destruct (unreserved b) eqn:Eu.
  - rewrite bytes_of_of_bytes by by constructor. cbn [app unescape_bytes].
    replace (b =? 37) with false; [done |]. symmetry. apply Z.eqb_neq. intros ->. done.
  - unfold fmt_02X. change (bytes_of ("%" +:+ _)) with [37; byte_of (hex_digit_upper (b / 16)); byte_of (hex_digit_upper (b mod 16))].
    cbn [app unescape_bytes]. unfold u8_range in Hb.
    rewrite !hex_val_digit by (pose proof (Z.div_lt_upper_bound b 16 16); pose proof (Z.div_pos b 16); pose proof (Z.mod_pos_bound b 16); lia).
    cbn. f_equal. pose proof (Z.div_mod b 16). lia.
Qed.

(** What the identity verifier escapes, the router reads back. *)
Lemma unescape_escape s : utf8_string s -> unescape (escape s) = s.
Proof.
  intros Hs. assert (Hb : unescape_bytes 0 (bytes_of (escape s)) = bytes_of s).
  { unfold escape. rewrite concat_bytes, map_map. fold escape_byte. pose proof (bytes_of_u8 s) as Hu.
    induction Hu as [|b l Hb Hu IH]; [done |]. cbn [map concat]. change (if unreserved b then _ else _) with (escape_byte b).
    rewrite unescape_byte by done. f_equal. exact IH. }
  unfold unescape. rewrite Hb. unfold from_utf8. rewrite Hs. by rewrite of_bytes_bytes_of.
Qed.

Lemma escape_full s : s <> "" -> escape s <> "".
Proof.
  intros Hs E. apply (f_equal bytes_of) in E. unfold escape in E. rewrite concat_bytes in E.
  destruct (bytes_of s) as [|b l] eqn:Eb; [by destruct s |]. cbn in E.
  destruct (unreserved b); [|done]. done.
Qed.

Lemma rev_str_app s t : rev_str (s +:+ t) = rev_str t +:+ rev_str s.
Proof. unfold rev_str. by rewrite bytes_of_app, rev_app_distr, of_bytes_app. Qed.
Lemma rev_str_rev s : rev_str (rev_str s) = s.
Proof. unfold rev_str. rewrite bytes_of_of_bytes by apply Forall_rev, bytes_of_u8. by rewrite rev_involutive, of_bytes_bytes_of. Qed.

Lemma strip_suffix_app s suffix : strip_suffix suffix (s +:+ suffix) = Some s.
Proof. unfold strip_suffix. rewrite rev_str_app, strip_prefix_app. cbn. by rewrite rev_str_rev. Qed.

(** Another suffix, told apart by the end of the string. *)
Lemma strip_suffix_other s suffix t : (forall x, strip_prefix (rev_str t) (rev_str suffix +:+ x) = None) ->
  strip_suffix t (s +:+ suffix) = None.
Proof. intros Ht. unfold strip_suffix. by rewrite rev_str_app, Ht. Qed.

Lemma seg_between_app prefix seg suffix : seg <> "" -> seg_between (prefix +:+ seg +:+ suffix) prefix suffix = Some seg.
Proof.
  intros Hs. unfold seg_between. rewrite strip_prefix_app. cbn [mbind option_bind]. rewrite strip_suffix_app. cbn.
  by destruct seg.
Qed.

Lemma ends_differ s suffix t : strip_suffix suffix t = None -> String.eqb (s +:+ suffix) t = false.
Proof. intros Ht. apply String.eqb_neq. intros <-. by rewrite strip_suffix_app in Ht. Qed.

(** ** Revocation over HTTP *)

Section http.
Context {D : Digests} `{Base64} `{Ed25519Signing} `{Base64Encoder} `{JsonParser} `{DateTimes} `{GroupJwsSerde} `{!Rcgen} `{HexDecoder} `{HintSerde}.
Context (r : NipCaRouter).
Abbreviation World := (Inner * RaStores)%type.
Abbreviation ca_opts := (ro_ca (rt_opts r)).

(** One request; the random part of a session is new. *)
Inductive http_step (w w' : World) : Prop :=
| http_request rd req resp : mem_get_by_nid (session_nid_of ca_opts (cr_now rd 2) (cr_hex rd)) (fst w) = None ->
    ca_handle r rd req w = Some (resp, w') -> http_step w w'.

Lemma ca_handle_route rd req (w : World) resp w' : ca_handle r rd req w = Some (resp, w') ->
  exists out, ca_route r rd req w = Some (out, w') /\ match out with Ok x | Err x => x = resp end.
Proof. unfold ca_handle. destruct (ca_route r rd req w) as [[[x|x] w1]|]; [| |done]; intros [= <- <-]; by eexists. Qed.

Lemma http_steps_inv w w' : rtc http_step w w' -> store_inv (fst w) -> store_inv (fst w') /\ trail_extends (fst w) (fst w').
Proof.
  induction 1 as [w|w w1 w2 [rd req resp Hn E] _ IH]; intros Hi; [split; [done | apply trail_extends_refl] |].
  apply ca_handle_route in E as (out & E & _). pose proof (route_steps r rd req _ _ _ E Hn) as Es.
  destruct (store_step_inv _ _ _ _ Es Hi) as [Hi1 He1]. destruct (IH Hi1) as [Hi2 He2].
  split; [done |]. by eapply trail_extends_trans.
Qed.

(** The path of an operation on a NID. *)
Definition agent_path (nid suffix : string) : string := pfx r +:+ "/v1/agents/" +:+ escape nid +:+ suffix.

Lemma rel_agent nid suffix req : cq_path req = agent_path nid suffix -> rel r req = "/v1/agents/" +:+ escape nid +:+ suffix.
Proof. intros E. unfold rel, agent_path in *. by rewrite E, strip_prefix_app. Qed.

Lemma seg_other prefix prefix' rest suffix : strip_prefix prefix (prefix' +:+ rest) = None -> seg_between (prefix' +:+ rest) prefix suffix = None.
Proof. intros E. unfold seg_between. by rewrite E. Qed.

Lemma agent_seg nid suffix : nid <> "" ->
  seg_between ("/v1/agents/" +:+ escape nid +:+ suffix) "/v1/agents/" suffix = Some (escape nid).
Proof. intros Hn. by apply seg_between_app, escape_full. Qed.

Lemma agent_seg_other nid suffix t : (forall x, strip_prefix (rev_str t) (rev_str suffix +:+ x) = None) ->
  seg_between ("/v1/agents/" +:+ escape nid +:+ suffix) "/v1/agents/" t = None.
Proof. intros Ht. unfold seg_between. rewrite strip_prefix_app. cbn [mbind option_bind]. by rewrite strip_suffix_other. Qed.

(** A path that ends in [suffix] is none of the fixed ones. *)
Lemma fixed_path a b suffix t : strip_suffix suffix t = None -> String.eqb (a +:+ b +:+ suffix) t = false.
Proof. intros Ht. rewrite <- append_assoc. by apply ends_differ. Qed.

Lemma revoke_routed nid rd req : nid <> "" -> cq_method req = "POST" -> cq_path req = agent_path nid "/revoke" ->
  ca_route r rd req = route_revoke r rd req (escape nid) :> Call (S := World) CaResponse.
Proof.
  intros Hn Hm Hp. unfold ca_route, agent_or_node. rewrite (rel_agent _ _ _ Hp), Hm. cbv zeta.
  rewrite !fixed_path by done. cbn [String.eqb Ascii.eqb Bool.eqb andb].
  rewrite agent_seg_other by done.
  rewrite (seg_other "/v1/nodes/" "/v1/agents/") by done. rewrite agent_seg by done.
  unfold on_segment. by rewrite Hm.
Qed.

Lemma verify_routed nid rd req : nid <> "" -> cq_method req = "GET" -> cq_path req = agent_path nid "/verify" ->
  ca_route r rd req = route_verify rd (escape nid) :> Call (S := World) CaResponse.
Proof.
  intros Hn Hm Hp. unfold ca_route, agent_or_node. rewrite (rel_agent _ _ _ Hp), Hm. cbv zeta. rewrite Hp. unfold agent_path at 1.
  rewrite <- (append_assoc (pfx r)), fixed_path by done.
  rewrite !fixed_path by done. cbn [String.eqb Ascii.eqb Bool.eqb andb].
  rewrite !agent_seg_other by done.
  rewrite !(seg_other "/v1/nodes/" "/v1/agents/") by done. rewrite agent_seg by done.
  unfold on_segment. by rewrite Hm.
Qed.

Lemma error_not_success e : ~ 200 <= cs_status (error_result e) <= 299.
Proof. unfold error_result, error_status. cbn. repeat case_match; lia. Qed.
Lemma error_not_200 e : cs_status (error_result e) <> 200.
Proof. pose proof (error_not_success e). lia. Qed.

(** A revocation whose answer is a success revoked. *)
Lemma revoke_route_inv rd req seg (w : World) out w' : route_revoke r rd req seg w = Some (out, w') ->
  200 <= match out with Ok x | Err x => cs_status x end <= 299 ->
  exists reason fr, ca_revoke ca_opts (rt_signing_key r) (cr_now rd 1) (unescape seg) reason (fst w) = Some (Ok fr, fst w') /\ snd w' = snd w.
Proof.
  unfold route_revoke. intros E Hst. apply call_bind_inv in E as [(e & E & ->)|([] & w1 & E1 & E)].
  { unfold require_authorized in E. destruct (authorized r req); [by apply call_ret_inv in E as [[=] _] |].
    apply call_fail_inv in E as [[= ->] _]. cbn in Hst. lia. }
  apply require_authorized_quiet in E1 as ->. cbv zeta in E.
  apply call_bind_inv in E as [(e & E & ->)|([] & w1 & E1 & E)].
  { unfold checked in E. apply call_result_inv in E as [E _]. destruct (existsb _ _); [done |]. injection E as <-. cbn in Hst. lia. }
  apply checked_quiet in E1 as ->.
  apply call_bind_inv in E as [(e & E & _)|(x & w1 & E1 & E)].
  { unfold on_service in E. by destruct (ca_revoke _ _ _ _ _ _) as [[]|]. }
  apply call_ret_inv in E as [-> ->]. unfold on_service in E1.
  destruct (ca_revoke _ _ _ _ _ _) as [[y g]|] eqn:Er; [|done]. injection E1 as <- <-.
  destruct y as [fr|e]; [|by apply error_not_success in Hst]. by eexists _, fr.
Qed.

(** No session is issued under a revoked group. *)
Lemma issue_route_inv rd req seg (w : World) out w' : route_issue_session r rd req seg w = Some (out, w') ->
  match out with Ok x | Err x => cs_status x end = 201 ->
  exists group, require_group (cr_now rd 1) (unescape seg) (mem_get_by_nid (unescape seg) (fst w)) = Ok group.
Proof.
  unfold route_issue_session. intros E Hst. apply call_bind_inv in E as [(e & E & ->)|(sr & w1 & E1 & E)].
  { exfalso. destruct (is_jws req).
    - clear -E Hst. revert E Hst. unfold signed_session, live_group, require_fresh, jws_fail, ca_fail. unfold call_bind, call_result, call_get, call_fail, call_panic, call_ret.
      unfold from_store, call_get, read_jws, ok_or. repeat case_match; intros; simplify_eq/=; try done; by apply error_not_200 in Hst.
    - unfold operator_session, require_authorized, require_body, call_bind, call_result, call_fail, call_ret in E.
      destruct (authorized r req); [|by simplify_eq/=]. destruct (json_value req); by simplify_eq/=. }
  assert (w1 = w) as -> by (destruct (is_jws req); [by eapply signed_session_quiet | by eapply operator_session_quiet]).
  apply call_bind_inv in E as [(e & E & ->)|([] & w1 & E2 & E)].
  { unfold checked, check_pub_key in E. apply call_result_inv in E as [E _]. destruct (valid_pub_key _); by simplify_eq/=. }
  apply checked_quiet in E2 as ->.
  apply call_bind_inv in E as [(e & E & _)|(x & w1 & E2 & E)].
  { unfold on_service in E. by destruct (issue_session _ _ _ _ _ _ _ _ _ _) as [[]|]. }
  apply call_ret_inv in E as [-> ->]. unfold on_service in E2.
  destruct (issue_session _ _ _ _ _ _ _ _ _ _) as [[y g]|] eqn:Er; [|done]. injection E2 as <- <-.
  destruct y as [fr|e].
  - unfold issue_session in Er. apply call_bind_inv in Er as [(? & Er & [=])|(found & g1 & [[= ->] ->]%call_get_inv & Er)].
    apply call_bind_inv in Er as [(? & _ & [=])|(group & g1 & [Eg ->]%call_result_inv & _)]. by exists group.
  - cbn in Hst. revert Hst. unfold error_status. repeat case_match; done.
Qed.

(** Once a revocation has succeeded, the NID has a revoked record. *)
Lemma revoke_handled w rd req resp w1 nid : utf8_string nid -> nid <> "" -> store_inv (fst w) ->
  cq_method req = "POST" -> cq_path req = agent_path nid "/revoke" ->
  ca_handle r rd req w = Some (resp, w1) -> 200 <= cs_status resp <= 299 ->
  store_inv (fst w1) /\ has_revoked nid (fst w1).
Proof.
  intros Hu Hn Hi Hm Hp E Hst. apply ca_handle_route in E as (out & E & Hout). rewrite (revoke_routed nid) in E by done.
  apply revoke_route_inv in E as (reason & fr & E & _); [|by destruct out; subst].
  rewrite unescape_escape in E by done.
  destruct (ca_revoke_inv _ _ _ _ _ _ _ _ Hi E) as (Hi1 & _ & x & g0 & Ex & Em & Eg & _). split; [done |].
  rewrite Eg. pose proof (mem_revoke_inv nid reason (cr_now rd 1) (fst w) Hi) as Hi0.
  rewrite Em in Hi0. pose proof (mem_revoke_has _ _ _ _ _ Em) as Hh.
  case_bool_decide; [|done]. eapply has_revoked_extends; [|exact Hh]. by apply cascade_inv.
Qed.

Lemma revoked_later w1 w2 nid : rtc http_step w1 w2 -> store_inv (fst w1) -> has_revoked nid (fst w1) ->
  exists y t, mem_get_by_nid nid (fst w2) = Some y /\ c_revoked_at y = Some t.
Proof.
  intros Hmore Hi Hr. destruct (http_steps_inv _ _ Hmore Hi) as [Hi2 He2]. apply has_revoked_latest; [done |].
  by eapply has_revoked_extends.
Qed.

(** The status of a revoked NID. *)
Definition revoked_answer (nid : string) (g : Inner) : Value :=
  VObject [("error_code", VString CERT_REVOKED); ("message", opt_string (cv_message (ca_verify 0 0 nid g))); ("valid", VBool false)].

Lemma verify_handled w rd req nid y t : utf8_string nid -> nid <> "" ->
  cq_method req = "GET" -> cq_path req = agent_path nid "/verify" ->
  mem_get_by_nid nid (fst w) = Some y -> c_revoked_at y = Some t ->
  ca_handle r rd req w = Some (ca_json 200 (revoked_answer nid (fst w)), w).
Proof.
  intros Hu Hn Hm Hp Ey Et.
  unfold ca_handle. rewrite (verify_routed nid) by done. unfold route_verify, call_bind, from_store, call_get.
  rewrite unescape_escape by done. unfold revoked_answer, ca_verify. cbn [st_get_by_nid in_memory]. by rewrite Ey, Et.
Qed.

(** A revocation over HTTP is final and public.  Once POST .../revoke on
    an identity, escaped the way the identity verifier escapes it, answers 200,
    then after any further requests GET .../verify on it answers that it is
    revoked, and no session is issued under it. *)
Theorem revocation_over_http ra w rd req resp w1 w2 nid : utf8_string nid -> nid <> "" ->
  rtc http_step (store_new, ra) w ->
  cq_method req = "POST" -> cq_path req = agent_path nid "/revoke" ->
  ca_handle r rd req w = Some (resp, w1) -> cs_status resp = 200 -> rtc http_step w1 w2 ->
  (forall rd' req', cq_method req' = "GET" -> cq_path req' = agent_path nid "/verify" ->
     exists msg, ca_handle r rd' req' w2 = Some (ca_json 200
       (VObject [("error_code", VString CERT_REVOKED); ("message", VString msg); ("valid", VBool false)]), w2)) /\
  (forall rd' req' w3 out, route_issue_session r rd' req' (escape nid) w2 = Some (out, w3) ->
     match out with Ok x | Err x => cs_status x end <> 201).
Proof.
  intros Hu Hn Hrun Hm Hp E Hst Hmore. apply http_steps_inv in Hrun as [Hi _]; [|apply store_new_inv].
  destruct (revoke_handled _ _ _ _ _ _ Hu Hn Hi Hm Hp E ltac:(lia)) as [Hi1 Hr1].
  destruct (revoked_later _ _ _ Hmore Hi1 Hr1) as (y & t & Ey & Et). split.
  - intros rd' req' Hm' Hp'. rewrite (verify_handled _ rd' req' nid y t) by done.
    unfold revoked_answer, ca_verify. cbn [st_get_by_nid in_memory]. rewrite Ey, Et. by eexists.
  - intros rd' req' w3 out' E' Hst'. apply issue_route_inv in E' as [group Hg]; [|done]. rewrite unescape_escape in Hg by done.
    unfold require_group in Hg. rewrite Ey, Et in Hg. by destruct (negb _).
Qed.
End http.

(** ** Who can change anything *)

Lemma decide_pending_cases id st reason q b q' : decide_pending id st reason q = (b, q') ->
  (b = false /\ q' = q) \/
  (b = true /\ exists p, pending_get q id = Some p /\ pn_status p = PsPending).
Proof.
  revert b q'; induction q as [|p q IH]; cbn; intros b q' E; [left; by injection E as <- <- |].
  unfold pending_get. cbn [List.find]. destruct (String.eqb (pn_id p) id) eqn:Ei; cbn [negb] in E.
  - case_bool_decide; injection E as <- <-; [right; split; [done | by exists p] | by left].
  - destruct (decide_pending id st reason q) as [b1 q1]. injection E as <- <-.
    destruct (IH _ _ eq_refl) as [[-> ->]|[-> Hp]]; [by left | by right].
Qed.

Section authority.
Context {D : Digests} `{Base64} `{Ed25519Signing} `{Base64Encoder} `{JsonParser} `{DateTimes} `{GroupJwsSerde} `{!Rcgen} `{HexDecoder} `{HintSerde}.
Context {S : Type} `{!NipCaStore S}.
Context (r : NipCaRouter) (rd : CaReadings) (req : CaRequest).
Abbreviation World := (S * RaStores)%type.
Abbreviation RouterCall := (Call (E := CaResponse) (S := World)).

(** The body is a statement of a live group: its key signed it for this
    purpose and this group, and the time in it is close to the clock. *)
Definition group_signed (group_nid : string) (w : World) : Prop :=
  is_jws req = true /\ exists jws g vk v payload iat age, read_jws req = Some jws /\ get_cert group_nid (fst w) = Some g /\
    c_nid_role g = Some ROLE_GROUP /\ c_revoked_at g = None /\ decode_public_key (c_pub_key g) = Some vk /\
    try_verify jws vk = Ok v /\ jv_kid v = group_nid /\ parse_json (jv_payload_json v) = Ok payload /\
    vget "iat" payload ≫= as_i64 = Some iat /\ i64_abs_diff (cr_now rd 0 / nanos_per_sec) iat = Some age /\
    age <= Z.quot (ro_session_jws_clock_skew (rt_opts r)) nanos_per_sec.

Inductive justified (w w' : World) : Prop :=
| by_operator : authorized r req = true -> justified w w'
| by_group seg : cq_method req = "POST" -> seg_between (rel r req) "/v1/orchestrators/groups/" "/sessions/issue" = Some seg ->
    group_signed (unescape seg) w -> snd w' = snd w -> justified w w'
| by_decision id suffix p : cq_method req = "POST" -> suffix = "/approve" \/ suffix = "/reject" ->
    seg_between (rel r req) "/v1/enrollment/pending/" suffix = Some id -> rt_pending_store r = true ->
    pending_get (ra_pending (snd w)) id = Some p -> pn_status p = PsPending -> justified w w'.

Definition changes_justified_by (m : RouterCall CaResponse) : Prop :=
  forall w out w', m w = Some (out, w') -> w' = w \/ justified w w'.

Lemma quiet_changes m : quiet m -> changes_justified_by m.
Proof. intros Hm w out w' E. left. by eapply Hm. Qed.
Lemma operator_changes rest : changes_justified_by (require_authorized r req ;; rest)%call.
Proof.
  intros w out w' E. destruct (authorized r req) eqn:Ea; [right; by apply by_operator |].
  unfold require_authorized, call_bind in E. rewrite Ea in E. injection E as _ <-. by left.
Qed.

Lemma signed_session_inv group_nid (w : World) sr w1 : is_jws req = true ->
  signed_session r rd req group_nid w = Some (Ok sr, w1) -> group_signed group_nid w.
Proof.
  intros Hj. unfold signed_session. intros E.
  apply call_bind_inv in E as [(? & _ & [=])|(jws & w2 & [Ejws ->]%call_result_inv & E)].
  apply call_bind_inv in E as [(? & _ & [=])|(g & w2 & Eg & E)].
  unfold live_group in Eg. apply call_bind_inv in Eg as [(? & _ & [=])|(found & w3 & [[= ->] ->]%call_get_inv & Eg)].
  destruct (get_cert group_nid (fst w)) as [g'|] eqn:Ef; [|done].
  unfold some_is in Eg. case_bool_decide as Hrole; [|done]. cbn [negb] in Eg.
  destruct (c_revoked_at g') eqn:Erev; [done |]. apply call_ret_inv in Eg as [[= ->] ->].
  destruct (decode_public_key (c_pub_key g')) as [vk|] eqn:Ek; [|done].
  destruct (try_verify jws vk) as [v|] eqn:Ev; [|done].
  destruct (String.eqb_spec (jv_kid v) group_nid) as [Hkid|]; [|done]. cbn [negb] in E.
  destruct (parse_json (jv_payload_json v)) as [payload|] eqn:Ep; [|done].
  apply call_bind_inv in E as [(? & _ & [=])|([] & w2 & Ef2 & E)].
  unfold require_fresh in Ef2. destruct (vget "iat" payload ≫= as_i64) as [iat|] eqn:Ei; [|done]. cbn [default id] in Ef2.
  destruct (iat =? 0); [done |].
  apply call_bind_inv in Ef2 as [(? & _ & [=])|(age & w3 & (x & Eage & [= ->] & ->)%call_panic_inv & Ef2)].
  split; [done |]. exists jws, g', vk, v, payload, iat, x. unfold ok_or in Ejws.
  split; [by destruct (read_jws req); [injection Ejws as -> |] |]. repeat split; try done.
  destruct (Z.ltb_spec (Z.quot (ro_session_jws_clock_skew (rt_opts r)) nanos_per_sec) x); [done | done].
Qed.

Lemma issue_changes seg : cq_method req = "POST" -> seg_between (rel r req) "/v1/orchestrators/groups/" "/sessions/issue" = Some seg ->
  changes_justified_by (route_issue_session r rd req seg).
Proof.
  intros Hm Hseg w out w' E. unfold route_issue_session in E. destruct (is_jws req) eqn:Hj.
  - apply call_bind_inv in E as [(e & E & _)|(sr & w1 & E1 & E)]; [left; by apply signed_session_quiet in E |].
    pose proof (signed_session_quiet _ _ _ _ _ _ _ E1) as ->. right. eapply by_group; [done | done | by eapply signed_session_inv |].
    apply call_bind_inv in E as [(e & E & _)|([] & w2 & E2 & E)]; [by apply checked_quiet in E as -> |].
    apply checked_quiet in E2 as ->.
    apply call_bind_inv in E as [(e & E & _)|(x & w2 & E2 & E)].
    + unfold on_service in E. destruct (issue_session _ _ _ _ _ _ _ _ _ _) as [[]|]; [by injection E as _ <- | done].
    + apply call_ret_inv in E as [_ ->]. unfold on_service in E2.
      destruct (issue_session _ _ _ _ _ _ _ _ _ _) as [[]|]; [by injection E2 as _ <- | done].
  - destruct (authorized r req) eqn:Ea; [right; by apply by_operator |].
    unfold operator_session, require_authorized, call_bind in E. rewrite Ea in E. injection E as _ <-. by left.
Qed.

Lemma approve_changes id : cq_method req = "POST" -> seg_between (rel r req) "/v1/enrollment/pending/" "/approve" = Some id ->
  changes_justified_by (route_approve_pending r rd id).
Proof.
  intros Hm Hseg w out w' E. unfold route_approve_pending in E.
  apply call_bind_inv in E as [(e & E & _)|([] & w1 & E1 & E)]; [left; by apply require_pending_store_quiet in E |].
  assert (Hp : rt_pending_store r = true) by (unfold require_pending_store in E1; by destruct (rt_pending_store r)).
  apply require_pending_store_quiet in E1 as ->.
  apply call_bind_inv in E as [(e & [_ ->]%call_get_inv & _)|(found & w1 & [[= ->] ->]%call_get_inv & E)]; [by left |].
  apply call_bind_inv in E as [(e & [_ ->]%call_result_inv & _)|(p & w1 & [Ep ->]%call_result_inv & E)]; [by left |].
  case_bool_decide as Hst; cbn [negb] in E; [|apply call_fail_inv in E as [_ ->]; by left].
  right. eapply (by_decision _ _ id "/approve" p); auto. unfold ok_or in Ep. by destruct (pending_get _ _); [injection Ep as -> |].
Qed.

Lemma reject_changes id : cq_method req = "POST" -> seg_between (rel r req) "/v1/enrollment/pending/" "/reject" = Some id ->
  changes_justified_by (route_reject_pending r req id).
Proof.
  intros Hm Hseg w out w' E. unfold route_reject_pending in E.
  apply call_bind_inv in E as [(e & E & _)|([] & w1 & E1 & E)]; [left; by apply require_pending_store_quiet in E |].
  assert (Hp : rt_pending_store r = true) by (unfold require_pending_store in E1; by destruct (rt_pending_store r)).
  apply require_pending_store_quiet in E1 as ->. cbv zeta in E.
  apply call_bind_inv in E as [(e & E & _)|(b & w1 & E1 & E)].
  { unfold on_ra in E. by destruct (pending_reject _ _ _). }
  unfold on_ra in E1. destruct (pending_reject _ _ _) as [b' q] eqn:Eq. injection E1 as <- <-.
  apply decide_pending_cases in Eq as [[-> ->]|[-> (p & Hget & Hst)]].
  - left. destruct w as [g [t q]]. cbn in E. unfold from_ra in E.
    destruct (find _ _); by apply call_ret_inv in E as [_ ->].
  - right. by eapply (by_decision _ _ id "/reject" p); auto.
Qed.

Lemma on_segment_changes method seg h next : (forall x, cq_method req = method -> seg = Some x -> changes_justified_by (h x)) ->
  changes_justified_by next -> changes_justified_by (on_segment req method seg h next).
Proof. intros Hh Hn. unfold on_segment. destruct seg as [x|]; [|done]. destruct (String.eqb_spec (cq_method req) method); [by apply Hh | done]. Qed.

(** C9: who can change the CA over HTTP, whatever the store and the policy.
    A request changes the certificates or the enrollment stores only if it
    carries the operator's key, or asks for a session under a live group whose
    key signed it for that group with a time close to the clock, or decides a
    pending registration. *)
Theorem changes_justified (w w' : World) resp : ca_handle r rd req w = Some (resp, w') -> w' <> w -> justified w w'.
Proof.
  intros E Hne. assert (Hc : changes_justified_by (ca_route r rd req)).
  { unfold ca_route. cbv zeta.
    repeat match goal with |- changes_justified_by (if ?b then _ else _) => destruct b end;
      try apply operator_changes; auto using quiet_changes, crl_quiet, quiet_ret.
    repeat apply on_segment_changes; intros;
      try apply operator_changes; auto using quiet_changes, verify_quiet, list_group_sessions_quiet, quiet_ret, issue_changes, approve_changes, reject_changes. }
  unfold ca_handle in E. destruct (ca_route r rd req w) as [[[x|x] w1]|] eqn:Er; [| |done]; injection E as _ <-; by destruct (Hc _ _ _ Er).
Qed.
End authority.

(** ** The status request of the identity verifier *)

Definition has_slash (s : string) : bool := existsb (fun b => b =? 47) (bytes_of s).

Lemma escape_no_slash s : has_slash (escape s) = false.
Proof.
  unfold has_slash, escape. rewrite concat_bytes, map_map. pose proof (bytes_of_u8 s) as Hu.
  induction Hu as [|b l Hb Hu IH]; [done |]. cbn [map concat]. rewrite existsb_app, IH, orb_false_r.
  change (if unreserved b then _ else _) with (escape_byte b). unfold escape_byte. destruct (unreserved b) eqn:Eu.
  - rewrite bytes_of_of_bytes by by constructor. cbn. rewrite orb_false_r. apply Z.eqb_neq. intros ->. done.
  - unfold fmt_02X. change (bytes_of ("%" +:+ _)) with [37; byte_of (hex_digit_upper (b / 16)); byte_of (hex_digit_upper (b mod 16))].
    assert (Hd : forall d, 0 <= d < 16 -> (byte_of (hex_digit_upper d) =? 47) = false).
    { intros d Hd. apply Z.eqb_neq. intros E. pose proof (hex_val_digit d Hd) as Hv. by rewrite E in Hv. }
    unfold u8_range in Hb. cbn. rewrite !Hd by (pose proof (Z.div_lt_upper_bound b 16 16); pose proof (Z.div_pos b 16); pose proof (Z.mod_pos_bound b 16); lia). done.
Qed.

Lemma no_suffix t s : (exists u, t = String "/" u) -> has_slash s = false -> strip_suffix t s = None.
Proof.
  intros [u ->] Hs. destruct (strip_suffix (String "/" u) s) as [x|] eqn:E; [|done]. exfalso.
  unfold strip_suffix in E. destruct (strip_prefix _ (rev_str s)) as [y|] eqn:Ey; [|done].
  apply strip_prefix_spec in Ey. apply (f_equal bytes_of) in Ey. rewrite bytes_of_app in Ey.
  unfold rev_str in Ey. rewrite !bytes_of_of_bytes in Ey by apply Forall_rev, bytes_of_u8.
  assert (Hin : In 47 (rev (bytes_of s))) by (rewrite Ey; apply in_or_app; left; apply in_rev; rewrite rev_involutive; by left).
  apply in_rev in Hin. unfold has_slash in Hs. assert (existsb (fun b => b =? 47) (bytes_of s) = true); [|congruence].
  apply existsb_exists. by exists 47.
Qed.

Section ocsp.
Context {D : Digests} `{Base64} `{Ed25519Signing} `{Base64Encoder} `{JsonParser} `{DateTimes} `{GroupJwsSerde} `{!Rcgen} `{HexDecoder} `{HintSerde}.
Context {S : Type} `{!NipCaStore S}.

(** The identity verifier asks for the status of a NID at its URL followed by
    the NID: the router has no such route. *)
Lemma ocsp_request_unrouted (r : NipCaRouter) rd req nid (w : S * RaStores) : pfx r = "" -> cq_method req = "GET" ->
  cq_path req = "/v1/agents" +:+ "/" +:+ escape nid ->
  ca_handle r rd req w = Some (ca_json 404 (coded "NIP-CA-NOT-FOUND" "No route matches."), w).
Proof.
  intros Hp Hm Hpath. unfold ca_handle, ca_route, agent_or_node, rel. rewrite Hp, Hm, Hpath. cbv zeta.
  assert (Hseg : forall t, (exists u, t = String "/" u) -> seg_between ("/v1/agents/" +:+ escape nid) "/v1/agents/" t = None).
  { intros t Ht. unfold seg_between. rewrite strip_prefix_app. cbn [mbind option_bind]. by rewrite no_suffix by (done || apply escape_no_slash). }
  change ("/v1/agents" +:+ "/" +:+ escape nid) with ("/v1/agents/" +:+ escape nid).
  change (strip_prefix "" ?s) with (Some s). cbn [default from_option id].
  rewrite !Hseg by by eexists. unfold on_segment. rewrite Hm.
  unfold seg_between. cbn. done.
Qed.
End ocsp.

(** ** Witnesses *)

#[local] Existing Instances const_b64 const_ed25519 const_signing const_encoder const_digests object_hint.
#[local] Instance form_json : JsonParser := {| parse_json _ :=
  Ok (VObject [("identifier", VString "a"); ("pub_key", VString "ed25519:k")]) |}.
#[local] Instance plain_dates : DateTimes := {| date_add a b := Some (a + b); fmt_ts _ := "t"; fmt_duration _ := "d" |}.
#[local] Instance plain_hex : HexDecoder := {| hex_decode _ := Ok [1] |}.
#[local] Instance plain_jws : GroupJwsSerde := {|
  jws_header_from_slice _ := Ok (mkJwsHeader None None None); flattened_from_value _ := Ok (mkFlattened None None None) |}.
#[local] Instance no_rcgen : Rcgen := {|
  KeyPair := unit; SubjectPublicKeyInfo := unit; Certificate := unit;
  key_seed _ := []; keypair_from_pkcs8 _ := Err "x"; spki_from_der _ := Err "x"; cert_params_new _ := Err "x";
  ia5_string s := Ok s; self_signed _ _ := Err "x"; signed_by _ _ _ _ := Err "x"; serialize_request _ _ := Err "x";
  cert_der _ := []; cert_pem _ := ""; from_unix_timestamp t := Some t |}.

Definition keyed_opts (key : option string) : RouterOptions :=
  mkRouterOptions (ca_options_new "urn:nps:org:ca.example") None (300 * nanos_per_sec) "" "" ["ed25519"] key Allowlist (days 1).
Definition keyed_router (key : option string) : NipCaRouter :=
  mkCaRouter (keyed_opts key) const_key (policy_of (AllowlistPolicy ["*"])) false true.
Definition plain_readings : CaReadings := mkCaReadings (fun _ => 0) "00" "u" [1] [2].
Definition post (path : string) : CaRequest := mkCaRequest "POST" path ∅ [123; 125].
Definition get_request (path : string) : CaRequest := mkCaRequest "GET" path ∅ [].
Definition queued : RaStores :=
  mkRaStores [] [mkPending "p" (mkRequest "agent" "a" "ed25519:k" [] "{}" None None) 0 PsPending None].

(** A call computes. *)
Lemma computed {A} (o : option A) : match o with Some _ => true | None => false end = true -> exists a, o = Some a.
Proof. destruct o as [a|]; [by exists a | done]. Qed.

(** A pending registration is approved without the operator's key. *)
Lemma approval_needs_no_key : exists resp w',
  ca_handle (keyed_router (Some "secret")) plain_readings (post "/v1/enrollment/pending/p/approve") (store_new, queued) = Some (resp, w') /\
  authorized (keyed_router (Some "secret")) (post "/v1/enrollment/pending/p/approve") = false /\
  cs_status resp = 201 /\ map c_nid (records (fst w')) = ["urn:nps:agent:ca.example:a"].
Proof. eexists _, _. split; [vm_compute; reflexivity |]. by vm_compute. Qed.

Lemma changes_justified_witness : exists resp w',
  ca_handle (keyed_router (Some "secret")) plain_readings (post "/v1/enrollment/pending/p/approve") (store_new, queued) = Some (resp, w') /\
  justified (keyed_router (Some "secret")) plain_readings (post "/v1/enrollment/pending/p/approve") (store_new, queued) w'.
Proof.
  destruct (computed (ca_handle (keyed_router (Some "secret")) plain_readings (post "/v1/enrollment/pending/p/approve") (store_new, queued)))
    as [[resp w'] E]; [vm_compute; reflexivity |].
  exists resp, w'. split; [exact E |].
  apply (changes_justified (keyed_router (Some "secret")) plain_readings (post "/v1/enrollment/pending/p/approve") (store_new, queued) w' resp E).
  intros ->. vm_compute in E. discriminate E.
Defined.

Definition agent_nid : string := "urn:nps:agent:ca.example:a".
Definition open_router : NipCaRouter := keyed_router None.

Lemma revocation_over_http_witness : exists w w1 msg,
  rtc (http_step open_router) (store_new, mkRaStores [] []) w /\
  ca_handle open_router plain_readings (get_request (agent_path open_router agent_nid "/verify")) w1 = Some (ca_json 200
    (VObject [("error_code", VString CERT_REVOKED); ("message", VString msg); ("valid", VBool false)]), w1).
Proof.
  destruct (computed (ca_handle open_router plain_readings (post "/v1/agents/register") (store_new, mkRaStores [] [])))
    as [[resp0 w] E0]; [vm_compute; reflexivity |].
  destruct (computed (ca_handle open_router plain_readings (mkCaRequest "POST" (agent_path open_router agent_nid "/revoke") ∅ []) w))
    as [[resp w1] E]; [vm_compute in E0; injection E0 as _ <-; vm_compute; reflexivity |].
  assert (Hw : rtc (http_step open_router) (store_new, mkRaStores [] []) w).
  { apply rtc_once. eapply (http_request _ _ _ plain_readings (post "/v1/agents/register")); [vm_compute; reflexivity | exact E0]. }
  assert (Hst : cs_status resp = 200).
  { vm_compute in E0. injection E0 as _ <-. vm_compute in E. by injection E as <- _. }
  destruct (revocation_over_http open_router (mkRaStores [] []) w plain_readings
    (mkCaRequest "POST" (agent_path open_router agent_nid "/revoke") ∅ []) resp w1 w1 agent_nid
    eq_refl ltac:(done) Hw eq_refl eq_refl E Hst (rtc_refl _ _)) as [Hv _].
  destruct (Hv plain_readings (get_request (agent_path open_router agent_nid "/verify")) eq_refl eq_refl) as [msg Hm].
  exists w, w1, msg. split; [exact Hw | exact Hm].
Defined.
