(* ===== verification/NipCaClient.v ===== *)
(** * NipCaClient: a client of the CA

    Models nps-nip/src/ca_client.rs.  The HTTP client and what it talks to are
    an argument: a function from a request and a world to an answer and the
    world after it.  The structs are read from a JSON value; of a key a text
    repeats, an error for serde, the parser keeps one.

    At the end the client's requests are given to the router.  A revocation the
    client sees succeed is final: after whatever else the CA is asked, the
    status of the identity is that it is revoked, and the revocation list,
    whose signature the client verifies, holds it. *)

From S2P Require Import Prelude Calls RustStr Floats Json CoreFrames CoreCache NcpFrames NipFrames NipDer NipX509 NipVerifier NipSigner NipRa NipCaStore NipCaService NipCaSpec NipX509Builder NipAcmeClient NipCaRouter NipCaRouterSpec.
Local Open Scope Z_scope.

(** ** What is sent and received *)

Record NipCaRegisterRequest : Type := mkRegisterRequest {
  rr_identifier : string; rr_pub_key : string; rr_capabilities : list string;
  rr_scope_json : option string; rr_metadata_json : option string }.
Record NipCaRegisterX509Request : Type := mkRegisterX509 {
  rx_identifier : string; rx_pub_key : string; rx_capabilities : list string;
  rx_scope_json : option string; rx_metadata_json : option string; rx_assurance_level : option string }.

(** The members in the order of the fields. *)
Definition skip_none (k : string) (o : option string) : list (string * Value) :=
  match o with Some s => [(k, VString s)] | None => [] end.
Definition skip_empty (k : string) (l : list string) : list (string * Value) :=
  match l with [] => [] | _ => [(k, vstrings l)] end.
Definition register_value (r : NipCaRegisterRequest) : Value :=
  VObject ([("identifier", VString (rr_identifier r)); ("pub_key", VString (rr_pub_key r))]
           ++ skip_empty "capabilities" (rr_capabilities r) ++ skip_none "scope_json" (rr_scope_json r)
           ++ skip_none "metadata_json" (rr_metadata_json r)).
Definition register_x509_value (r : NipCaRegisterX509Request) : Value :=
  VObject ([("identifier", VString (rx_identifier r)); ("pub_key", VString (rx_pub_key r))]
           ++ skip_empty "capabilities" (rx_capabilities r) ++ skip_none "scope_json" (rx_scope_json r)
           ++ skip_none "metadata_json" (rx_metadata_json r) ++ skip_none "assurance_level" (rx_assurance_level r)).

Record NipCaIdentFrame : Type := mkCaIdent {
  ci_frame : option string; ci_nid : string; ci_pub_key : string; ci_capabilities : list string; ci_scope : option Value;
  ci_issued_by : option string; ci_issued_at : option string; ci_expires_at : option string; ci_serial : option string;
  ci_signature : option string; ci_cert_format : option string; ci_cert_chain : list string; ci_ocsp_staple : option string }.
Record NipCaCrlEntry : Type := mkCaCrlEntry {
  ce_nid : string; ce_serial : string; ce_revoked_at : option string; ce_reason : option string }.
Record NipCaCrl : Type := mkCaCrl {
  crl_issued_by : string; crl_issued_at : string; crl_entries : list NipCaCrlEntry; crl_signature : string }.
Record NipCaCertificateRecord : Type := mkCaRecord {
  cc_nid : string; cc_entity_type : string; cc_serial : string; cc_pub_key : string; cc_capabilities : list string;
  cc_scope : Value; cc_issued_by : string; cc_issued_at : string; cc_expires_at : string; cc_revoked_at : option string;
  cc_revoke_reason : option string; cc_nid_role : option string; cc_parent_nid : option string }.
Record NipCaRevokeFrame : Type := mkCaRevoke {
  cv_frame : option string; cv_target_nid : option string; cv_nid : option string; cv_serial : option string;
  cv_reason : option string; cv_revoked_at : option string; cv_signature : option string }.
Record NipCaDiscoveryDocument : Type := mkCaDiscovery {
  cd_nps_ca : string; cd_issuer : string; cd_public_key : string; cd_display_name : option string;
  cd_algorithms : list string; cd_endpoints : Map; cd_capabilities : list string; cd_max_cert_validity_days : option Z }.
Record NipCaVerifyResponse : Type := mkCaVerify {
  vr_valid : bool; vr_nid : option string; vr_expires_at : option string; vr_serial : option string;
  vr_error_code : option string; vr_message : option string }.

(** *** Reading a struct: an object, or its fields in turn *)

Definition struct_of (names : list string) (v : Value) : option Map :=
  match v with
  | VObject m => Some m
  | VArray l => if (length l <=? length names)%nat then Some (zip names l) else None
  | _ => None
  end.

Definition string_field (m : Map) (k : string) : option string := map_get k m ≫= as_str.
Definition option_field {A} (read : Value -> option A) (m : Map) (k : string) : option (option A) :=
  match map_get k m with
  | None | Some VNull => Some None
  | Some v => Some <$> read v
  end.
Definition opt_string_of : Map -> string -> option (option string) := option_field as_str.
Definition default_field {A} (read : Value -> option A) (d : A) (m : Map) (k : string) : option A :=
  match map_get k m with None => Some d | Some v => read v end.
Definition read_list {A} (read : Value -> option A) (v : Value) : option (list A) := l ← as_array v; mapM read l.
Definition read_strings : Value -> option (list string) := read_list as_str.
Definition strings_field : Map -> string -> option (list string) := default_field read_strings [].
Definition read_u32 (v : Value) : option Z := n ← as_u64 v; if n <=? 4294967295 then Some n else None.

Definition ident_of_value (v : Value) : option NipCaIdentFrame :=
  m ← struct_of ["frame"; "nid"; "pub_key"; "capabilities"; "scope"; "issued_by"; "issued_at"; "expires_at"; "serial";
                 "signature"; "cert_format"; "cert_chain"; "ocsp_staple"] v;
  frame ← opt_string_of m "frame"; nid ← string_field m "nid"; pub_key ← string_field m "pub_key";
  capabilities ← strings_field m "capabilities"; scope ← option_field Some m "scope";
  issued_by ← opt_string_of m "issued_by"; issued_at ← opt_string_of m "issued_at"; expires_at ← opt_string_of m "expires_at";
  serial ← opt_string_of m "serial"; signature ← opt_string_of m "signature"; cert_format ← opt_string_of m "cert_format";
  cert_chain ← strings_field m "cert_chain"; ocsp_staple ← opt_string_of m "ocsp_staple";
  Some (mkCaIdent frame nid pub_key capabilities scope issued_by issued_at expires_at serial signature cert_format cert_chain
          ocsp_staple).

Definition crl_entry_of_value (v : Value) : option NipCaCrlEntry :=
  m ← struct_of ["nid"; "serial"; "revoked_at"; "reason"] v;
  nid ← string_field m "nid"; serial ← string_field m "serial";
  revoked_at ← opt_string_of m "revoked_at"; reason ← opt_string_of m "reason";
  Some (mkCaCrlEntry nid serial revoked_at reason).
Definition crl_of_value (v : Value) : option NipCaCrl :=
  m ← struct_of ["issued_by"; "issued_at"; "entries"; "signature"] v;
  issued_by ← string_field m "issued_by"; issued_at ← string_field m "issued_at";
  entries ← (map_get "entries" m ≫= read_list crl_entry_of_value);
  signature ← string_field m "signature";
  Some (mkCaCrl issued_by issued_at entries signature).

Definition record_of_value (v : Value) : option NipCaCertificateRecord :=
  m ← struct_of ["nid"; "entity_type"; "serial"; "pub_key"; "capabilities"; "scope"; "issued_by"; "issued_at"; "expires_at";
                 "revoked_at"; "revoke_reason"; "nid_role"; "parent_nid"] v;
  nid ← string_field m "nid"; entity_type ← string_field m "entity_type"; serial ← string_field m "serial";
  pub_key ← string_field m "pub_key"; capabilities ← strings_field m "capabilities"; scope ← default_field Some VNull m "scope";
  issued_by ← string_field m "issued_by"; issued_at ← string_field m "issued_at"; expires_at ← string_field m "expires_at";
  revoked_at ← opt_string_of m "revoked_at"; revoke_reason ← opt_string_of m "revoke_reason";
  nid_role ← opt_string_of m "nid_role"; parent_nid ← opt_string_of m "parent_nid";
  Some (mkCaRecord nid entity_type serial pub_key capabilities scope issued_by issued_at expires_at revoked_at revoke_reason
          nid_role parent_nid).
Definition certificate_list_of_value (v : Value) : option (list NipCaCertificateRecord) :=
  m ← struct_of ["entries"] v;
  default_field (read_list record_of_value) [] m "entries".

Definition revoke_of_value (v : Value) : option NipCaRevokeFrame :=
  m ← struct_of ["frame"; "target_nid"; "nid"; "serial"; "reason"; "revoked_at"; "signature"] v;
  frame ← opt_string_of m "frame"; target_nid ← opt_string_of m "target_nid"; nid ← opt_string_of m "nid";
  serial ← opt_string_of m "serial"; reason ← opt_string_of m "reason"; revoked_at ← opt_string_of m "revoked_at";
  signature ← opt_string_of m "signature";
  Some (mkCaRevoke frame target_nid nid serial reason revoked_at signature).

Definition discovery_of_value (v : Value) : option NipCaDiscoveryDocument :=
  m ← struct_of ["nps_ca"; "issuer"; "public_key"; "display_name"; "algorithms"; "endpoints"; "capabilities";
                 "max_cert_validity_days"] v;
  nps_ca ← string_field m "nps_ca"; issuer ← string_field m "issuer"; public_key ← string_field m "public_key";
  display_name ← opt_string_of m "display_name"; algorithms ← strings_field m "algorithms";
  endpoints ← default_field as_object [] m "endpoints"; capabilities ← strings_field m "capabilities";
  days ← option_field read_u32 m "max_cert_validity_days";
  Some (mkCaDiscovery nps_ca issuer public_key display_name algorithms endpoints capabilities days).

Definition verify_of_value (v : Value) : option NipCaVerifyResponse :=
  m ← struct_of ["valid"; "nid"; "expires_at"; "serial"; "error_code"; "message"] v;
  valid ← (map_get "valid" m ≫= as_bool); nid ← opt_string_of m "nid"; expires_at ← opt_string_of m "expires_at";
  serial ← opt_string_of m "serial"; error_code ← opt_string_of m "error_code"; message ← opt_string_of m "message";
  Some (mkCaVerify valid nid expires_at serial error_code message).

(** ** The client *)

Record NipCaClientError : Type := mkClientError { ke_error_code : string; ke_message : string; ke_status_code : option Z }.

(** A request, and an answer whose text may fail to arrive.  An error of the
    HTTP client has a text and may have a status. *)
Record CaHttpRequest : Type := mkCaHttp {
  hr_method : string; hr_url : string; hr_bearer : option string; hr_body : option Value }.
Abbreviation IoError := (string * option Z)%type.
Record CaHttpResponse : Type := mkCaHttpResponse { ha_status : Z; ha_text : result IoError string }.

Definition io_error (e : IoError) : NipCaClientError := mkClientError "NIP-CA-HTTP-ERROR" (fst e) (snd e).

Section client.
Context {D : Digests} `{Base64} `{Ed25519Signing} `{JsonParser}.
(** What serde says of a text it cannot read. *)
Context (serde_error : string -> string).
Context {W : Type} (http : CaHttpRequest -> W -> result IoError CaHttpResponse * W).

Definition read_response {T} (of_value : Value -> option T) (r : CaHttpResponse) : result NipCaClientError T :=
  match ha_text r with
  | Err e => Err (io_error e)
  | Ok text =>
    if is_success (ha_status r) then
      ok_or (match parse_json text with Ok v => of_value v | Err _ => None end)
        (mkClientError "NIP-CA-DECODE-ERROR" (serde_error text) (Some (ha_status r)))
    else
      let body := match parse_json text with Ok v => v | Err _ => VNull end in
      let code := match vget "error_code" body with Some v => Some v | None => vget "error" body end in
      Err (mkClientError (default "NIP-CA-HTTP-ERROR" (code ≫= as_str))
        (default ("NIP CA returned HTTP " +:+ fmt_Z (ha_status r) +:+ ".") (vget "message" body ≫= as_str))
        (Some (ha_status r)))
  end.

Record NipCaClient : Type := mkCaClient { kl_base_url : string; kl_prefix : string }.
Definition with_client (base_url route_prefix : string) : NipCaClient :=
  mkCaClient (trim_end_matches_slash base_url) (trim_end_matches_slash route_prefix).
Definition ca_client_new (base_url : string) : NipCaClient := with_client base_url "".

Abbreviation Answer T := (result NipCaClientError T * W)%type.
Context (self : NipCaClient).

(** The methods the callers name are all valid. *)
Definition send_json {T} (of_value : Value -> option T) (method path : string) (body : option Value)
    (bearer_token : option string) (w : W) : Answer T :=
  let '(r, w) := http (mkCaHttp method (kl_base_url self +:+ path) bearer_token body) w in
  (match r with Err e => Err (io_error e) | Ok response => read_response of_value response end, w).
Definition get_json {T} (of_value : Value -> option T) (path : string) : W -> Answer T :=
  send_json of_value "GET" path None None.

Definition client_discovery : W -> Answer NipCaDiscoveryDocument := get_json discovery_of_value "/.well-known/nps-ca".
Definition client_crl : W -> Answer NipCaCrl := get_json crl_of_value (kl_prefix self +:+ "/v1/crl").
Definition client_certificates (bearer_token : option string) : W -> Answer (list NipCaCertificateRecord) :=
  send_json certificate_list_of_value "GET" (kl_prefix self +:+ "/v1/certificates") None bearer_token.

Definition crl_entry_value (e : NipCaCrlEntry) : Value :=
  let o x := match x with Some s => VString s | None => VNull end in
  VObject [("nid", VString (ce_nid e)); ("reason", o (ce_reason e)); ("revoked_at", o (ce_revoked_at e));
           ("serial", VString (ce_serial e))].
Definition verify_crl_signature (crl : NipCaCrl) (ca_public_key : string) : bool :=
  match decode_public_key ca_public_key with
  | None => false
  | Some key =>
    signer_verify key (VObject [("entries", VArray (map crl_entry_value (crl_entries crl)));
                                ("issued_at", VString (crl_issued_at crl)); ("issued_by", VString (crl_issued_by crl))])
      (crl_signature crl)
  end.

Definition post_register {T} (of_value : Value -> option T) (kind : string) (body : Value) (bearer_token : option string) : W -> Answer T :=
  send_json of_value "POST" (kl_prefix self +:+ "/v1/" +:+ kind) (Some body) bearer_token.
Definition register_agent (request : NipCaRegisterRequest) : option string -> W -> Answer NipCaIdentFrame :=
  post_register ident_of_value "agents/register" (register_value request).
Definition register_node (request : NipCaRegisterRequest) : option string -> W -> Answer NipCaIdentFrame :=
  post_register ident_of_value "nodes/register" (register_value request).
Definition register_agent_x509 (request : NipCaRegisterX509Request) : option string -> W -> Answer NipCaIdentFrame :=
  post_register ident_of_value "agents/register-x509" (register_x509_value request).
Definition register_node_x509 (request : NipCaRegisterX509Request) : option string -> W -> Answer NipCaIdentFrame :=
  post_register ident_of_value "nodes/register-x509" (register_x509_value request).

(** The path of an operation on a NID. *)
Definition nid_path (kind nid suffix : string) : string := kl_prefix self +:+ "/v1/" +:+ kind +:+ "/" +:+ escape nid +:+ suffix.
Definition renew_agent (nid : string) : option string -> W -> Answer NipCaIdentFrame :=
  send_json ident_of_value "POST" (nid_path "agents" nid "/renew") None.
Definition renew_node (nid : string) : option string -> W -> Answer NipCaIdentFrame :=
  send_json ident_of_value "POST" (nid_path "nodes" nid "/renew") None.

Definition revoke_body (reason : option string) : Value :=
  VObject [("reason", VString (default "cessation_of_operation" reason))].
Definition revoke_agent (nid : string) (reason : option string) : option string -> W -> Answer NipCaRevokeFrame :=
  send_json revoke_of_value "POST" (nid_path "agents" nid "/revoke") (Some (revoke_body reason)).
Definition revoke_node (nid : string) (reason : option string) : option string -> W -> Answer NipCaRevokeFrame :=
  send_json revoke_of_value "POST" (nid_path "nodes" nid "/revoke") (Some (revoke_body reason)).

Definition verify_agent (nid : string) : W -> Answer NipCaVerifyResponse :=
  get_json verify_of_value (nid_path "agents" nid "/verify").
Definition verify_node (nid : string) : W -> Answer NipCaVerifyResponse :=
  get_json verify_of_value (nid_path "nodes" nid "/verify").
End client.

(** ** What the CA writes, the client reads *)

Lemma crl_entry_read e : crl_entry_of_value (crl_entry_value e) = Some e.
Proof. by destruct e as [nid serial [t|] [reason|]]. Qed.

Lemma mapM_back {A B} (f : A -> option B) (g : B -> A) l : (forall x, f (g x) = Some x) -> mapM f (map g l) = Some l.
Proof. intros Hf. induction l as [|x l IH]; [done|]. cbn. by rewrite Hf, IH. Qed.

(** A failed answer is an error with its status, its code and its message. *)
Lemma failure_reported {D : Digests} `{JsonParser} (serde_error : string -> string) {T} (of_value : Value -> option T) status code message text :
  is_success status = false -> parse_json text = Ok (VObject [("error_code", VString code); ("message", VString message)]) ->
  read_response serde_error of_value (mkCaHttpResponse status (Ok text)) = Err (mkClientError code message (Some status)).
Proof. intros Hs Hp. unfold read_response. cbn. by rewrite Hs, Hp. Qed.

(** The code of an answer is read from [error_code] even when that is no
    string: [error] is looked at only when the former is absent. *)
Lemma odd_error_code `{JsonParser} (serde_error : string -> string) {T} (of_value : Value -> option T) status text n e :
  is_success status = false -> parse_json text = Ok (VObject [("error", VString e); ("error_code", VNumber n)]) ->
  exists m, read_response serde_error of_value (mkCaHttpResponse status (Ok text)) = Err (mkClientError "NIP-CA-HTTP-ERROR" m (Some status)).
Proof. intros Hs Hp. unfold read_response. cbn. rewrite Hs, Hp. by eexists. Qed.

(** ** The client against the CA *)

Local Open Scope Z_scope.

Section deliver.
Context {D : Digests} `{Base64} `{Ed25519Signing} `{Base64Encoder} `{JsonParser} `{DateTimes} `{GroupJwsSerde} `{!Rcgen} `{HexDecoder} `{HintSerde}.
Context (serde_error : string -> string) (r : NipCaRouter) (base_url : string).
Abbreviation World := (Inner * RaStores)%type.

(** What the HTTP library makes of a request of the client. *)
Definition ca_request_of (path : string) (req : CaHttpRequest) : CaRequest :=
  mkCaRequest (hr_method req) path
    (match hr_bearer req with Some t => {["authorization" := "Bearer " +:+ t]} | None => ∅ end)
    (match hr_body req with Some v => bytes_of (json_to_string v) | None => [] end).

(** The router at the base URL answers with readings [rd].  A request to
    another host, and one on which the router panics, gets no answer. *)
Definition serve (rd : CaReadings) (req : CaHttpRequest) (w : World) : result IoError CaHttpResponse * World :=
  match strip_prefix (trim_end_matches_slash base_url) (hr_url req) with
  | None => (Err ("dns error", None), w)
  | Some path =>
    match ca_handle r rd (ca_request_of path req) w with
    | None => (Err ("connection closed", None), w)
    | Some (resp, w') => (Ok (mkCaHttpResponse (cs_status resp) (Ok (of_bytes (cs_body resp)))), w')
    end
  end.

Definition the_client : NipCaClient := with_client base_url (ro_route_prefix (rt_opts r)).

(** The client's paths are the router's. *)
Lemma client_path nid suffix : nid_path the_client "agents" nid suffix = agent_path r nid suffix.
Proof. reflexivity. Qed.

Lemma sent {T} (of_value : Value -> option T) method path body token rd w resp w' :
  ca_handle r rd (ca_request_of path (mkCaHttp method (kl_base_url the_client +:+ path) token body)) w = Some (resp, w') ->
  send_json serde_error (serve rd) the_client of_value method path body token w =
    (read_response serde_error of_value (mkCaHttpResponse (cs_status resp) (Ok (of_bytes (cs_body resp)))), w').
Proof.
  intros E. unfold send_json, serve. cbn [hr_url kl_base_url the_client with_client] in *.
  rewrite strip_prefix_app. by rewrite E.
Qed.

(** An answer read as a value came with a success from the router. *)
Lemma success_inv {T} (of_value : Value -> option T) method path body token rd w x w' :
  send_json serde_error (serve rd) the_client of_value method path body token w = (Ok x, w') ->
  exists resp, ca_handle r rd (ca_request_of path (mkCaHttp method (kl_base_url the_client +:+ path) token body)) w = Some (resp, w') /\
    200 <= cs_status resp <= 299.
Proof.
  intros E. destruct (ca_handle _ _ _ _) as [[resp w1]|] eqn:Eh.
  - rewrite (sent _ _ _ _ _ _ _ _ _ Eh) in E. unfold read_response in E. cbn in E.
    destruct (is_success (cs_status resp)) eqn:Es; [|by destruct (parse_json _)].
    exists resp. unfold is_success in Es. injection E as _ <-. split; [done|lia].
  - unfold send_json, serve in E. cbn [hr_url kl_base_url the_client with_client] in E.
    rewrite strip_prefix_app in E. cbn [kl_base_url the_client with_client] in Eh. by rewrite Eh in E.
Qed.

(** The JSON library reads a value back from its text. *)
Definition reads (v : Value) : Prop := parse_json (json_to_string v) = Ok v.

Lemma read_ok {T} (of_value : Value -> option T) v x : reads v -> of_value v = Some x ->
  read_response serde_error of_value (mkCaHttpResponse 200 (Ok (of_bytes (cs_body (ca_json 200 v))))) = Ok x.
Proof. intros Hr Hv. unfold read_response. cbn. by rewrite of_bytes_bytes_of, Hr, Hv. Qed.

(** *** The revocation list *)

Definition listed (x : NipCertRecord) : NipCaCrlEntry :=
  mkCaCrlEntry (c_nid x) (c_serial x) (fmt_ts <$> c_revoked_at x) (c_revoke_reason x).
Definition crl_records (g : Inner) : list NipCertRecord := merge_sort crl_le (get_crl g).
Definition crl_body (rd : CaReadings) (g : Inner) : Map :=
  [("entries", VArray (map crl_entry (crl_records g))); ("issued_at", VString (fmt_ts (cr_now rd 0)));
   ("issued_by", VString (ca_nid (ro_ca (rt_opts r))))].
Definition crl_of (rd : CaReadings) (g : Inner) : NipCaCrl :=
  mkCaCrl (ca_nid (ro_ca (rt_opts r))) (fmt_ts (cr_now rd 0)) (map listed (crl_records g))
    (sign_artifact (rt_signing_key r) (VObject (crl_body rd g))).
Definition crl_answer (rd : CaReadings) (g : Inner) : Value :=
  VObject (crl_body rd g ++ [("signature", VString (crl_signature (crl_of rd g)))]).

Lemma listed_value x : crl_entry_value (listed x) = crl_entry x.
Proof. unfold crl_entry_value, crl_entry, listed, opt_ts, opt_string. cbn. by destruct (c_revoke_reason x), (c_revoked_at x). Qed.

Lemma crl_handled rd req (w : World) : cq_method req = "GET" -> cq_path req = pfx r +:+ "/v1/crl" ->
  ca_handle r rd req w = Some (ca_json 200 (crl_answer rd (fst w)), w).
Proof.
  intros Hm Hp. unfold ca_handle, ca_route, rel. rewrite Hm, Hp, strip_prefix_app. cbv zeta.
  rewrite ends_differ by done. reflexivity.
Qed.

Lemma crl_read rd g : crl_of_value (crl_answer rd g) = Some (crl_of rd g).
Proof.
  unfold crl_of_value, crl_answer, crl_body. cbn -[crl_entry_of_value crl_of crl_records].
  assert (Hl : mapM crl_entry_of_value (map crl_entry (crl_records g)) = Some (map listed (crl_records g))).
  { induction (crl_records g) as [|x l IH]; [done|]. cbn [map mapM]. rewrite <- listed_value, crl_entry_read. cbn. by rewrite IH. }
  rewrite Hl. done.
Qed.

Lemma crl_verifies `{!SigningLaws} rd g : verify_crl_signature (crl_of rd g) (get_ca_public_key (rt_signing_key r)) = true.
Proof.
  unfold verify_crl_signature, get_ca_public_key. rewrite decode_encode_key. cbn [crl_entries crl_of crl_issued_at crl_issued_by crl_signature].
  rewrite map_map. rewrite (map_ext _ crl_entry listed_value). apply verify_sign_text.
Qed.

(** The list holds each revoked record, and nothing else. *)
Lemma crl_lists g x : In x (records g) /\ is_revoked x = true <-> In x (crl_records g).
Proof.
  unfold crl_records, get_crl. cbn [st_get_revoked in_memory]. rewrite <- !list_elem_of_In.
  rewrite (merge_sort_Permutation crl_le). rewrite !list_elem_of_In. unfold mem_get_revoked. by rewrite filter_In.
Qed.

(** C10: a revocation the client sees succeed is final and public, through the
    client itself.  Whatever the CA was asked before and is asked between, the
    client then reads, for the identity, that it is revoked; and the revocation
    list it fetches verifies under the CA's public key and holds the identity.
    The JSON library must read these two answers back from their text. *)
Theorem revocation_through_client `{!SigningLaws} ra w rd nid reason token frame w1 w2 rdv rdc :
  utf8_string nid -> nid <> "" -> rtc (http_step r) (store_new, ra) w ->
  revoke_agent serde_error (serve rd) the_client nid reason token w = (Ok frame, w1) ->
  rtc (http_step r) w1 w2 ->
  reads (revoked_answer nid (fst w2)) -> reads (crl_answer rdc (fst w2)) ->
  (exists message, verify_agent serde_error (serve rdv) the_client nid w2 =
     (Ok (mkCaVerify false None None None (Some CERT_REVOKED) (Some message)), w2)) /\
  (exists crl entry, client_crl serde_error (serve rdc) the_client w2 = (Ok crl, w2) /\
     verify_crl_signature crl (get_ca_public_key (rt_signing_key r)) = true /\
     In entry (crl_entries crl) /\ ce_nid entry = nid).
Proof.
  intros Hu Hn Hrun E Hmore Hv Hc. apply http_steps_inv in Hrun as [Hi _]; [|apply store_new_inv].
  apply success_inv in E as (resp & E & Hst). rewrite client_path in E.
  assert (Hh : store_inv (fst w1) /\ has_revoked nid (fst w1)) by (eapply (revoke_handled r w rd); try exact E; done).
  destruct Hh as [Hi1 Hr1].
  destruct (revoked_later r _ _ _ Hmore Hi1 Hr1) as (y & t & Ey & Et). split.
  - unfold verify_agent, get_json. erewrite sent by (rewrite client_path; by apply (verify_handled r) with y t).
    erewrite read_ok; [by eexists | done |].
    unfold revoked_answer, ca_verify. cbn [st_get_by_nid in_memory]. by rewrite Ey, Et.
  - exists (crl_of rdc (fst w2)), (listed y). unfold client_crl, get_json.
    erewrite sent by by apply crl_handled. erewrite read_ok; [|done|apply crl_read].
    split; [done|]. split; [apply crl_verifies|]. apply get_by_nid_nid in Ey as [Enid Hin]. split; [|done].
    cbn. apply in_map, crl_lists. split; [done|]. unfold is_revoked. by rewrite Et.
Qed.
End deliver.

(** ** Witness *)

(** Texts that tell objects apart by their first key. *)
#[local] Instance first_key : Digests := {|
  sha256 l := l; hex_encode := of_bytes;
  json_to_string v := match v with VObject ((k, _) :: _) => k | _ => "" end |}.

#[local] Existing Instances const_b64 const_ed25519 const_signing const_encoder const_laws object_hint
  plain_dates plain_hex plain_jws no_rcgen.

Definition crl_text_value : Value :=
  VObject [("entries", VArray [VObject [("nid", VString agent_nid); ("reason", VString "cessation_of_operation");
                                        ("revoked_at", VString "t"); ("serial", VString "0x1")]]);
           ("issued_at", VString "t"); ("issued_by", VString "urn:nps:org:ca.example");
           ("signature", VString ("ed25519:" +:+ of_bytes (repeat 0 64)))].
Definition status_value : Value :=
  VObject [("error_code", VString CERT_REVOKED); ("message", VString "Revoked at t: cessation_of_operation"); ("valid", VBool false)].

(** A parser of the two answers; another text is a registration. *)
#[local] Instance answers_json : JsonParser := {| parse_json s :=
  Ok (if String.eqb s (json_to_string crl_text_value) then crl_text_value
      else if String.eqb s (json_to_string status_value) then status_value
      else VObject [("identifier", VString "a"); ("pub_key", VString "ed25519:k")]) |}.

Definition witness_url : string := "https://ca.example/".
Definition witness_client : NipCaClient := the_client open_router witness_url.
Definition witness_serve : CaHttpRequest -> Inner * RaStores -> result IoError CaHttpResponse * (Inner * RaStores) :=
  serve open_router witness_url plain_readings.

Lemma revocation_through_client_witness : exists w frame w1 crl entry message,
  rtc (http_step open_router) (store_new, mkRaStores [] []) w /\
  revoke_agent (fun _ => "e") witness_serve witness_client agent_nid None None w = (Ok frame, w1) /\
  verify_agent (fun _ => "e") witness_serve witness_client agent_nid w1 =
    (Ok (mkCaVerify false None None None (Some CERT_REVOKED) (Some message)), w1) /\
  verify_crl_signature crl (get_ca_public_key const_key) = true /\ In entry (crl_entries crl) /\ ce_nid entry = agent_nid.
Proof.
  destruct (computed (ca_handle open_router plain_readings (post "/v1/agents/register") (store_new, mkRaStores [] [])))
    as [[resp0 w] E0]; [vm_compute; reflexivity|].
  destruct (revoke_agent (fun _ => "e") witness_serve witness_client agent_nid None None w) as [[frame|e] w1] eqn:E.
  2:{ vm_compute in E0. injection E0 as _ <-. vm_compute in E. discriminate E. }
  assert (Hw : rtc (http_step open_router) (store_new, mkRaStores [] []) w).
  { apply rtc_once. eapply (http_request _ _ _ plain_readings (post "/v1/agents/register")); [vm_compute; reflexivity|exact E0]. }
  assert (Hr : reads (revoked_answer agent_nid (fst w1)) /\ reads (crl_answer open_router plain_readings (fst w1))).
  { vm_compute in E0. injection E0 as _ <-. vm_compute in E. injection E as _ <-. split; vm_compute; reflexivity. }
  destruct (revocation_through_client (fun _ => "e") open_router witness_url (mkRaStores [] []) w plain_readings agent_nid None None
    frame w1 w1 plain_readings plain_readings eq_refl ltac:(done) Hw E (rtc_refl _ _) (proj1 Hr) (proj2 Hr))
    as [[message Hm] (crl & entry & _ & Hc & Hin & Hne)].
  exists w, frame, w1, crl, entry, message. repeat split; assumption.
Defined.
