(* ===== verification/NwpFrames.v ===== *)
(** * NwpFrames: the frames of NWP and the estimate of their cost

    Models nps-nwp/src/frames.rs and cgn.rs: the Query and Action frames with
    their dictionaries, the answer to an asynchronous action, the topology
    requests, and the Cognon estimate of a text, of bytes and of rows.  The
    record of the Query frame is that of NwpQuery. *)

From S2P Require Import Prelude RustStr Floats Json CoreFrames CoreCache NcpFrames NwpQuery.
Local Open Scope Z_scope.

(** ** QueryFrame *)

Definition QueryFrame_new (anchor_ref : string) : QueryFrame :=
  mkQueryFrame anchor_ref None None None None None None None None None None None None None None.

Definition QueryFrame_to_dict (f : QueryFrame) : FrameDict :=
  let m := map_insert "anchor_ref" (VString (q_anchor_ref f)) [] in
  let m := insert_opt "filter" (q_filter f) m in
  let m := insert_opt "order" (q_order f) m in
  let m := insert_opt "fields" (vstrings <$> q_fields f) m in
  let m := insert_opt "vector_search" (q_vector_search f) m in
  let m := insert_opt "cursor" (VString <$> q_cursor f) m in
  let m := insert_opt "token_budget" (vnat <$> q_token_budget f) m in
  let m := insert_opt "tokenizer" (VString <$> q_tokenizer f) m in
  let m := insert_opt "request_id" (VString <$> q_request_id f) m in
  let m := insert_opt "auto_anchor" (VBool <$> q_auto_anchor f) m in
  let m := insert_opt "stream" (VBool <$> q_stream f) m in
  let m := insert_opt "aggregate" (q_aggregate f) m in
  let m := insert_opt "limit" (vnat <$> q_limit f) m in
  let m := insert_opt "offset" (vnat <$> q_offset f) m in
  insert_opt "depth" (vnat <$> q_depth f) m.

(** [d.get(k).or_else(|| d.get(k'))]. *)
Definition get_either (d : FrameDict) (k k' : string) : option Value :=
  match map_get k d with Some v => Some v | None => map_get k' d end.

Definition QueryFrame_from_dict (d : FrameDict) : NpsResult QueryFrame :=
  anchor_ref ← get_str d "anchor_ref";
  Ok (mkQueryFrame anchor_ref (map_get "filter" d) (get_either d "order" "order_by") (opt_strings d "fields")
        (map_get "vector_search" d) (opt_str d "cursor") (opt_u64 d "token_budget") (opt_str d "tokenizer")
        (opt_str d "request_id") (opt_bool d "auto_anchor") (opt_bool d "stream") (map_get "aggregate" d)
        (opt_u64 d "limit") (opt_u64 d "offset") (opt_u64 d "depth")).

(** ** ActionFrame *)

Record ActionFrame : Type := mkActionFrame {
  act_action : string;
  act_params : option Value;
  act_anchor_ref : option string;
  act_async : bool;
  act_idempotency_key : option string;
  act_timeout_ms : option Z;
  act_request_id : option string
}.

(** The identifier is written under both of its names. *)
Definition ActionFrame_to_dict (f : ActionFrame) : FrameDict :=
  let m := map_insert "action_id" (VString (act_action f)) [] in
  let m := map_insert "action" (VString (act_action f)) m in
  let m := map_insert "async" (VBool (act_async f)) m in
  let m := insert_opt "params" (act_params f) m in
  let m := insert_opt "anchor_ref" (VString <$> act_anchor_ref f) m in
  let m := insert_opt "request_id" (VString <$> act_request_id f) m in
  let m := insert_opt "idempotency_key" (VString <$> act_idempotency_key f) m in
  insert_opt "timeout_ms" (vnat <$> act_timeout_ms f) m.

Definition ActionFrame_from_dict (d : FrameDict) : NpsResult ActionFrame :=
  action ← ok_or (get_either d "action_id" "action" ≫= as_str) (Frame "missing field: action_id");
  Ok (mkActionFrame action (map_get "params" d) (opt_str d "anchor_ref") (default false (opt_bool d "async"))
        (opt_str d "idempotency_key") (wrap_u32 <$> opt_u64 d "timeout_ms") (opt_str d "request_id")).

(** ** AsyncActionResponse *)

Record AsyncActionResponse : Type := mkAsyncResponse {
  aar_task_id : string; aar_status_url : option string; aar_callback_url : option string }.

Definition AsyncActionResponse_from_dict (d : FrameDict) : NpsResult AsyncActionResponse :=
  task_id ← get_str d "task_id";
  Ok (mkAsyncResponse task_id (opt_str d "status_url") (opt_str d "callback_url")).

(** ** The topology requests of a client *)

Definition TOPOLOGY_SNAPSHOT_KIND : string := "topology.snapshot".
Definition TOPOLOGY_STREAM_KIND : string := "topology.stream".

Record TopologySnapshotRequest : Type := mkTopologySnapshotRequest {
  tsr_kind : string; tsr_anchor_ref : option string; tsr_include_bridges : bool; tsr_include_capabilities : bool;
  tsr_max_depth : option Z; tsr_since : option string }.
Definition snapshot_request_default : TopologySnapshotRequest :=
  mkTopologySnapshotRequest TOPOLOGY_SNAPSHOT_KIND None false false None None.

Record TopologyStreamRequest : Type := mkTopologyStreamRequest {
  tst_kind : string; tst_anchor_ref : option string; tst_include_initial_snapshot : bool;
  tst_event_types : option (list string); tst_since : option string }.
Definition stream_request_default : TopologyStreamRequest :=
  mkTopologyStreamRequest TOPOLOGY_STREAM_KIND None true None None.

(** ** Cognons (cgn.rs) *)

Definition BYTES_PER_CGN : nat := 4.

(** [usize::div_ceil]. *)
Definition div_ceil (n d : nat) : nat := if (n mod d =? 0)%nat then (n / d)%nat else S (n / d)%nat.

Definition estimate_cgn_bytes (b : list Z) : nat :=
  match length b with O => 0%nat | n => div_ceil n BYTES_PER_CGN end.
Definition estimate_cgn (s : string) : nat := estimate_cgn_bytes (bytes_of s).

Section rows.
Context {D : Digests}.
Definition estimate_cgn_json (v : Value) : nat := estimate_cgn_bytes (bytes_of (json_to_string v)).
Definition estimate_cgn_rows (rows : list Value) : nat := sum_list (map estimate_cgn_json rows).
End rows.

Record TokenBudgetMeta : Type := mkTokenBudget {
  tb_cgn_limit : Z; tb_tokenizer : option string; tb_supported_tokenizers : option (list string);
  tb_token_budget_hint : option bool; tb_profile : option string }.
Definition token_budget_new (cgn_limit : Z) : TokenBudgetMeta :=
  mkTokenBudget cgn_limit None None (Some true) (Some "cgn.v1").
Definition effective_profile (t : TokenBudgetMeta) : string := default "cgn.v1" (tb_profile t).

(** The text of a [BudgetExceededError]. *)
Definition budget_exceeded (requested limit : nat) : string :=
  "CGN budget exceeded: " +:+ pretty requested +:+ " > " +:+ pretty limit.

(** ** Properties *)

Lemma QueryFrame_roundtrip f : QueryFrame_from_dict (QueryFrame_to_dict f) = Ok f.
Proof.
  assert (E : QueryFrame_to_dict f = dict_of
    [("anchor_ref", Some (VString (q_anchor_ref f))); ("filter", q_filter f); ("order", q_order f);
     ("fields", vstrings <$> q_fields f); ("vector_search", q_vector_search f); ("cursor", VString <$> q_cursor f);
     ("token_budget", vnat <$> q_token_budget f); ("tokenizer", VString <$> q_tokenizer f);
     ("request_id", VString <$> q_request_id f); ("auto_anchor", VBool <$> q_auto_anchor f);
     ("stream", VBool <$> q_stream f); ("aggregate", q_aggregate f); ("limit", vnat <$> q_limit f);
     ("offset", vnat <$> q_offset f); ("depth", vnat <$> q_depth f)]) by done.
  unfold QueryFrame_from_dict, get_either. frame_roundtrip E. destruct f as [? ? [] [] ? ? ? ? ? ? ? ? ? ? ?]; cbn;
    by rewrite ?strings_of_map.
Qed.

Lemma ActionFrame_roundtrip f : (forall t, act_timeout_ms f = Some t -> 0 <= t < 2 ^ 32) ->
  ActionFrame_from_dict (ActionFrame_to_dict f) = Ok f.
Proof.
  intros Ht.
  assert (E : ActionFrame_to_dict f = dict_of
    [("action_id", Some (VString (act_action f))); ("action", Some (VString (act_action f)));
     ("async", Some (VBool (act_async f))); ("params", act_params f); ("anchor_ref", VString <$> act_anchor_ref f);
     ("request_id", VString <$> act_request_id f); ("idempotency_key", VString <$> act_idempotency_key f);
     ("timeout_ms", vnat <$> act_timeout_ms f)]) by done.
  unfold ActionFrame_from_dict, get_either. frame_roundtrip E. destruct f as [? ? ? ? ? [t|] ?]; cbn in *; [|done].
  unfold wrap_u32. rewrite Z.mod_small by (by apply Ht). done.
Qed.

(** A frame written by a peer may say either name of the action, and the
    newer one wins. *)
Lemma action_id_wins d a : map_get "action_id" d = Some (VString a) ->
  exists f, ActionFrame_from_dict d = Ok f /\ act_action f = a.
Proof. intros E. unfold ActionFrame_from_dict, get_either. rewrite E. cbn. eauto. Qed.

(** A timeout beyond 32 bits is truncated when it is read. *)
Lemma action_timeout_truncated :
  act_timeout_ms <$> (match ActionFrame_from_dict [("action_id", VString "a"); ("timeout_ms", vnat (2 ^ 32 + 5))] with
                      | Ok f => Some f | Err _ => None end) = Some (Some 5).
Proof. reflexivity. Qed.

(** The estimate is the least number of Cognons that holds the bytes. *)
Lemma estimate_cgn_bytes_least b n :
  (estimate_cgn_bytes b <= n)%nat <-> (length b <= BYTES_PER_CGN * n)%nat.
Proof.
  unfold estimate_cgn_bytes, div_ceil, BYTES_PER_CGN.
  pose proof (Nat.div_mod (length b) 4 ltac:(done)) as E. pose proof (Nat.mod_upper_bound (length b) 4 ltac:(done)) as U.
  destruct (length b) as [|k] eqn:L; [lia|]. rewrite <- L in *. case_match eqn:M.
  - apply Nat.eqb_eq in M. lia.
  - apply Nat.eqb_neq in M. lia.
Qed.

(** Counting rows one by one costs at most one Cognon per row more than
    counting all their bytes at once. *)
Lemma estimate_rows_bounds {D : Digests} rows :
  let bytes := concat (map (fun v => bytes_of (json_to_string v)) rows) in
  (estimate_cgn_bytes bytes <= estimate_cgn_rows rows <= estimate_cgn_bytes bytes + length rows)%nat.
Proof.
  assert (Hup : forall b, (4 * estimate_cgn_bytes b <= length b + 3)%nat).
  { intros b. destruct (estimate_cgn_bytes b) as [|k] eqn:E; [lia|].
    pose proof (estimate_cgn_bytes_least b k) as H. unfold BYTES_PER_CGN in H. lia. }
  assert (Hlo : forall b, (length b <= 4 * estimate_cgn_bytes b)%nat).
  { intros b. by apply estimate_cgn_bytes_least. }
  assert (G : forall l, (length (concat (map (fun v => bytes_of (json_to_string v)) l)) <= 4 * estimate_cgn_rows l
     /\ 4 * estimate_cgn_rows l <= length (concat (map (fun v => bytes_of (json_to_string v)) l)) + 3 * length l)%nat).
  { unfold estimate_cgn_rows. induction l as [|v l [IH1 IH2]]; cbn; [lia|]. rewrite length_app.
    pose proof (Hup (bytes_of (json_to_string v))). pose proof (Hlo (bytes_of (json_to_string v))).
    unfold estimate_cgn_json in *. lia. }
  cbn. destruct (G rows) as [G1 G2]. split; [apply estimate_cgn_bytes_least; unfold BYTES_PER_CGN; lia|].
  pose proof (Hlo (concat (map (fun v => bytes_of (json_to_string v)) rows))). lia.
Qed.
