(* ===== verification/NwpProfile.v ===== *)
(** * NwpProfile: the portable decisions of nodes and bridges

    Models nps-nwp/src/portable_profile.rs: whether a node serves, dispatches
    or rejects a request, over HTTP and over the native transport, and whether
    an outbound bridge dispatches a call, which shares the URL guard of the
    complex node.  An assertion that fails is [None]. *)

From S2P Require Import Prelude RustStr ErrorCodes NwpAction NwpComplex.
Local Open Scope Z_scope.

(** ** Requests and decisions *)

Inductive NwpServerTransport : Type := Http | Native.
Inductive NwpPortableNodeRole : Type := RoleMemory | RoleAction | RoleComplex.

Record NwpPortableNodeRequest : Type := mkPortableRequest {
  pn_transport : NwpServerTransport;
  pn_node_role : NwpPortableNodeRole;
  pn_method : option string;
  pn_path : option string;
  pn_content_type : option string;
  pn_accept : option string;
  pn_body_bytes : Z;
  pn_max_body_bytes : Z;
  pn_frame_kind : option string;
  pn_body_valid : bool;
  pn_cancelled : bool;
  pn_correlation_id : option string
}.

Record NwpPortableNodeDecision : Type := mkNodeDecision {
  nd_decision : string;
  nd_http_status : option Z;
  nd_content_type : option string;
  nd_status : option string;
  nd_error : option string;
  nd_allow : option string;
  nd_response_frame : option string;
  nd_correlation_id : option string;
  nd_telemetry_outcome : string;
  nd_legacy_media_type_accepted : bool
}.

Definition default_max_body_bytes : Z := 1024 * 1024.

Definition MIME_FRAME : string := "application/nwp-frame".
Definition MIME_LEGACY_FRAME : string := "application/x-nps-frame".
Definition MIME_ERROR : string := "application/nwp-error+json".
Definition NWP_MIME_CAPSULE : string := "application/nwp-capsule".
Definition NWP_MIME_MANIFEST : string := "application/nwp-manifest+json".
Definition HTTP_CONTENT_TYPE_UNSUPPORTED : string := "NWP-HTTP-CONTENT-TYPE-UNSUPPORTED".
Definition HTTP_ACCEPT_UNSATISFIABLE : string := "NWP-HTTP-ACCEPT-UNSATISFIABLE".
Definition HTTP_BODY_TOO_LARGE : string := "NWP-HTTP-BODY-TOO-LARGE".
Definition HTTP_FRAME_BODY_MALFORMED : string := "NWP-HTTP-FRAME-BODY-MALFORMED".

(** [str::to_ascii_uppercase]. *)
Definition ascii_upper (a : Ascii.ascii) : Ascii.ascii :=
  let b := byte_of a in if (97 <=? b) && (b <=? 122) then ascii_of (b - 32) else a.
Fixpoint to_ascii_uppercase (s : string) : string :=
  match s with
  | EmptyString => EmptyString
  | String.String a r => String.String (ascii_upper a) (to_ascii_uppercase r)
  end.

Definition lower (value : option string) : string := to_ascii_lowercase (default "" value).

Definition base_media_type (value : option string) : string :=
  to_ascii_lowercase (trim (hd "" (split_on ";" (default "" value)))).

Definition accepts_item (response_type item : string) : bool :=
  let t := base_media_type (Some item) in
  bool_decide (t = "*/*") || bool_decide (t = "application/*") || String.eqb t response_type.

Definition accepts (value : option string) (response_type : string) : bool :=
  match value with
  | None => true
  | Some v => if is_empty (trim v) then true else existsb (accepts_item response_type) (split_on "," v)
  end.

(** ** The decision of a node *)

Definition node_result (request : NwpPortableNodeRequest) (decision telemetry_outcome : string)
    : NwpPortableNodeDecision :=
  mkNodeDecision decision None None None None None None (pn_correlation_id request) telemetry_outcome false.

Definition node_reject (request : NwpPortableNodeRequest) (http_status : Z) (status error : string)
    : NwpPortableNodeDecision :=
  mkNodeDecision "reject" (Some http_status) (Some MIME_ERROR) (Some status) (Some error) None None
    (pn_correlation_id request) "rejected" false.

Definition method_not_allowed (request : NwpPortableNodeRequest) (allowed_method : string)
    : NwpPortableNodeDecision :=
  mkNodeDecision "reject" (Some 405) None None None (Some allowed_method) None (pn_correlation_id request) "rejected" false.

Definition answers_queries (r : NwpPortableNodeRole) : bool :=
  match r with RoleMemory | RoleComplex => true | RoleAction => false end.
Definition runs_actions (r : NwpPortableNodeRole) : bool :=
  match r with RoleAction | RoleComplex => true | RoleMemory => false end.

Definition evaluate_native_node (request : NwpPortableNodeRequest) : NwpPortableNodeDecision :=
  let frame_kind := lower (pn_frame_kind request) in
  let query := String.eqb frame_kind "query" && answers_queries (pn_node_role request) in
  let action := String.eqb frame_kind "action" && runs_actions (pn_node_role request) in
  if pn_body_valid request && (query || action)
  then mkNodeDecision (if query then "dispatch_query" else "dispatch_action") None None None None None (Some "caps")
         (pn_correlation_id request) "success" false
  else mkNodeDecision "error_frame" None None (Some "NPS-CLIENT-BAD-FRAME") (Some "NWP-NATIVE-FRAME-UNSUPPORTED") None
         (Some "error") (pn_correlation_id request) "rejected" false.

(** The frame of the request, once its size is accepted. *)
Definition http_dispatch (request : NwpPortableNodeRequest) (path : string) (legacy : bool) : NwpPortableNodeDecision :=
  if negb (pn_body_valid request) then node_reject request 400 "NPS-CLIENT-BAD-FRAME" HTTP_FRAME_BODY_MALFORMED
  else
    let frame_kind := lower (pn_frame_kind request) in
    let query := String.eqb path "/query" && answers_queries (pn_node_role request) && String.eqb frame_kind "query" in
    let action := String.eqb path "/invoke" && runs_actions (pn_node_role request) && String.eqb frame_kind "action" in
    if negb query && negb action then node_reject request 400 "NPS-CLIENT-BAD-FRAME" HTTP_FRAME_BODY_MALFORMED
    else mkNodeDecision (if query then "dispatch_query" else "dispatch_action") (Some 200) (Some NWP_MIME_CAPSULE)
           None None None None (pn_correlation_id request) "success" legacy.

Definition evaluate_http_node (request : NwpPortableNodeRequest) : option NwpPortableNodeDecision :=
  let path := lower (pn_path request) in
  let method := to_ascii_uppercase (default "" (pn_method request)) in
  if String.eqb path "/.nwm" then
    if negb (String.eqb method "GET") then Some (method_not_allowed request "GET")
    else Some (mkNodeDecision "serve_manifest" (Some 200) (Some NWP_MIME_MANIFEST) None None None None
                 (pn_correlation_id request) "success" false)
  else if negb (String.eqb path "/query") && negb (String.eqb path "/invoke")
  then Some (node_reject request 404 "NPS-CLIENT-NOT-FOUND" HTTP_FRAME_BODY_MALFORMED)
  else if negb (String.eqb method "POST") then Some (method_not_allowed request "POST")
  else
    let media_type := base_media_type (pn_content_type request) in
    let legacy := String.eqb media_type MIME_LEGACY_FRAME in
    if negb legacy && negb (String.eqb media_type MIME_FRAME)
    then Some (node_reject request 400 "NPS-CLIENT-BAD-FRAME" HTTP_CONTENT_TYPE_UNSUPPORTED)
    else if negb (accepts (pn_accept request) NWP_MIME_CAPSULE)
    then Some (node_reject request 400 "NPS-CLIENT-BAD-PARAM" HTTP_ACCEPT_UNSATISFIABLE)
    else if negb (0 <? pn_max_body_bytes request) then None
    else if pn_max_body_bytes request <? pn_body_bytes request
    then Some (node_reject request 413 "NPS-LIMIT-PAYLOAD" HTTP_BODY_TOO_LARGE)
    else Some (http_dispatch request path legacy).

Definition evaluate_portable_node (request : NwpPortableNodeRequest) : option NwpPortableNodeDecision :=
  if pn_cancelled request then Some (node_result request "abort" "cancelled")
  else match pn_transport request with
       | Native => Some (evaluate_native_node request)
       | Http => evaluate_http_node request
       end.

(** ** The decision of an outbound bridge *)

Record BridgeLifecycleRequest : Type := mkLifecycleRequest {
  bl_protocol : string;
  bl_endpoint : string;
  bl_registered_protocols : list string;
  bl_allow_http : bool;
  bl_reject_private : bool;
  bl_allowed_prefixes : list string;
  bl_timeout_ms : Z;
  bl_elapsed_ms : Z;
  bl_cancelled : bool;
  bl_correlation_id : option string;
  bl_task_mode : string
}.

Record BridgeLifecycleDecision : Type := mkLifecycleDecision {
  bd_decision : string;
  bd_http_status : option Z;
  bd_status : option string;
  bd_error : option string;
  bd_correlation_id : option string;
  bd_task_mode : option string;
  bd_telemetry_outcome : string
}.

Definition BRIDGE_TARGET_INVALID : string := "NWP-BRIDGE-TARGET-INVALID".
Definition BRIDGE_PROTOCOL_UNSUPPORTED : string := "NWP-BRIDGE-PROTOCOL-UNSUPPORTED".
Definition BRIDGE_ENDPOINT_INVALID : string := "NWP-BRIDGE-ENDPOINT-INVALID".
Definition BRIDGE_UPSTREAM_FAILED : string := "NWP-BRIDGE-UPSTREAM-FAILED".

Definition bridge_result (request : BridgeLifecycleRequest) (decision telemetry_outcome : string)
    : BridgeLifecycleDecision :=
  mkLifecycleDecision decision None None None (bl_correlation_id request) None telemetry_outcome.

Definition bridge_reject (request : BridgeLifecycleRequest) (http_status : Z) (status error telemetry_outcome : string)
    : BridgeLifecycleDecision :=
  mkLifecycleDecision "reject" (Some http_status) (Some status) (Some error) (bl_correlation_id request) None
    telemetry_outcome.

Definition evaluate_bridge_lifecycle (request : BridgeLifecycleRequest) : option BridgeLifecycleDecision :=
  if bl_cancelled request then Some (bridge_result request "abort" "cancelled")
  else if is_empty (trim (bl_protocol request)) || is_empty (trim (bl_endpoint request))
  then Some (bridge_reject request 422 "NPS-CLIENT-UNPROCESSABLE" BRIDGE_TARGET_INVALID "rejected")
  else if negb (existsb (fun p => eq_ignore_ascii_case p (bl_protocol request)) (bl_registered_protocols request))
  then Some (bridge_reject request 501 "NPS-SERVER-UNSUPPORTED" BRIDGE_PROTOCOL_UNSUPPORTED "rejected")
  else
    match validate_child_url (bl_endpoint request) (bl_allowed_prefixes request) (bl_reject_private request)
            (bl_allow_http request) with
    | Some _ => Some (bridge_reject request 422 "NPS-CLIENT-UNPROCESSABLE" BRIDGE_ENDPOINT_INVALID "rejected")
    | None =>
      if negb (0 <? bl_timeout_ms request) then None
      else if bl_timeout_ms request <=? bl_elapsed_ms request
      then Some (bridge_reject request 504 "NPS-SERVER-TIMEOUT" BRIDGE_UPSTREAM_FAILED "timeout")
      else
        let async := eq_ignore_ascii_case (bl_task_mode request) "async" in
        Some (mkLifecycleDecision "dispatch" None (Some (if async then "NPS-OK-ACCEPTED" else "NPS-OK")) None
                (bl_correlation_id request) (Some (if async then "async" else "sync")) "success")
    end.

(** ** When a node dispatches *)

(** The role of the node answers the kind of frame. *)
Definition serves_kind (role : NwpPortableNodeRole) (kind : string) : bool :=
  (String.eqb kind "query" && answers_queries role) || (String.eqb kind "action" && runs_actions role).

(** The endpoint and the decision of a kind of frame. *)
Definition endpoint_of (kind : string) : string := if String.eqb kind "query" then "/query" else "/invoke".
Definition dispatch_of (kind : string) : string := if String.eqb kind "query" then "dispatch_query" else "dispatch_action".

(** What HTTP asks of a request besides the frame. *)
Definition http_admits (r : NwpPortableNodeRequest) (kind : string) : Prop :=
  lower (pn_path r) = endpoint_of kind /\
  to_ascii_uppercase (default "" (pn_method r)) = "POST" /\
  base_media_type (pn_content_type r) ∈ [MIME_FRAME; MIME_LEGACY_FRAME] /\
  accepts (pn_accept r) NWP_MIME_CAPSULE = true /\
  pn_body_bytes r <= pn_max_body_bytes r.

Lemma serves_kind_cases role kind : serves_kind role kind = true -> kind = "query" \/ kind = "action".
Proof.
  unfold serves_kind. destruct (String.eqb_spec kind "query"); [by left|].
  destruct (String.eqb_spec kind "action"); [by right|]. done.
Qed.

Lemma native_dispatch r kind : kind = "query" \/ kind = "action" ->
  nd_decision (evaluate_native_node r) = dispatch_of kind <->
  lower (pn_frame_kind r) = kind /\ serves_kind (pn_node_role r) kind = true /\ pn_body_valid r = true.
Proof.
  intros Hk. unfold evaluate_native_node, serves_kind, dispatch_of.
  generalize (lower (pn_frame_kind r)) as k. intros k.
  destruct (String.eqb_spec k "query") as [->|Nq]; [|destruct (String.eqb_spec k "action") as [->|Na]];
    destruct (pn_body_valid r), (pn_node_role r), Hk as [->| ->]; cbn; split; try done; naive_solver.
Qed.

(** The tests before the frame, as one. *)
Lemma http_dispatch_inv r d : evaluate_http_node r = Some d ->
  nd_decision d = "dispatch_query" \/ nd_decision d = "dispatch_action" ->
  (lower (pn_path r) = "/query" \/ lower (pn_path r) = "/invoke") /\
  to_ascii_uppercase (default "" (pn_method r)) = "POST" /\
  base_media_type (pn_content_type r) ∈ [MIME_FRAME; MIME_LEGACY_FRAME] /\
  accepts (pn_accept r) NWP_MIME_CAPSULE = true /\
  pn_body_bytes r <= pn_max_body_bytes r /\
  d = http_dispatch r (lower (pn_path r)) (String.eqb (base_media_type (pn_content_type r)) MIME_LEGACY_FRAME).
Proof.
  unfold evaluate_http_node. intros E Hd.
  destruct (String.eqb_spec (lower (pn_path r)) "/.nwm").
  { destruct (String.eqb _ "GET"); injection E as <-; destruct Hd; done. }
  destruct (String.eqb_spec (lower (pn_path r)) "/query") as [Pq|Pq],
           (String.eqb_spec (lower (pn_path r)) "/invoke") as [Pi|Pi]; cbn in E;
    try (injection E as <-; destruct Hd; done);
  (destruct (String.eqb_spec (to_ascii_uppercase (default "" (pn_method r))) "POST"); cbn in E;
     [|injection E as <-; destruct Hd; done];
   destruct (String.eqb_spec (base_media_type (pn_content_type r)) MIME_LEGACY_FRAME) as [Ml|Ml],
            (String.eqb_spec (base_media_type (pn_content_type r)) MIME_FRAME) as [Mf|Mf]; cbn in E;
     try (injection E as <-; destruct Hd; done);
   (destruct (accepts (pn_accept r) NWP_MIME_CAPSULE); cbn in E; [|injection E as <-; destruct Hd; done];
    destruct (0 <? pn_max_body_bytes r); cbn in E; [|done];
    destruct (Z.ltb_spec (pn_max_body_bytes r) (pn_body_bytes r)); [injection E as <-; destruct Hd; done|];
    injection E as <-; rewrite ?Ml, ?Mf; repeat split; auto; set_solver)).
Qed.

Lemma http_dispatch_kind r path legacy kind : kind = "query" \/ kind = "action" ->
  nd_decision (http_dispatch r path legacy) = dispatch_of kind <->
  pn_body_valid r = true /\ path = endpoint_of kind /\ lower (pn_frame_kind r) = kind /\
  serves_kind (pn_node_role r) kind = true.
Proof.
  intros Hk. unfold http_dispatch, serves_kind, dispatch_of, endpoint_of.
  destruct (pn_body_valid r); cbn; [|split; [destruct Hk as [->| ->]; done|by intros []]].
  generalize (lower (pn_frame_kind r)) as k. intros k.
  destruct (String.eqb_spec path "/query") as [->|Pq]; [|destruct (String.eqb_spec path "/invoke") as [->|Pi]];
    (destruct (String.eqb_spec k "query") as [->|Nq]; [|destruct (String.eqb_spec k "action") as [->|Na]]);
    destruct (pn_node_role r), Hk as [->| ->]; cbn; split; try done; naive_solver.
Qed.

Lemma http_dispatches r kind d : kind = "query" \/ kind = "action" -> evaluate_http_node r = Some d ->
  nd_decision d = dispatch_of kind <->
  lower (pn_frame_kind r) = kind /\ serves_kind (pn_node_role r) kind = true /\ pn_body_valid r = true /\ http_admits r kind.
Proof.
  intros Hk E. split.
  - intros Hd. destruct (http_dispatch_inv r d E) as (_ & Hm & Ht & Ha & Hb & ->).
    { rewrite Hd. destruct Hk as [->| ->]; [by left|by right]. }
    apply http_dispatch_kind in Hd as (Hv & Hp & Hf & Hs); [|done]. unfold http_admits. eauto 10.
  - intros (Hf & Hs & Hv & Hp & Hm & Ht & Ha & Hb). revert E. unfold evaluate_http_node.
    assert (H0 : String.eqb (lower (pn_path r)) "/.nwm" = false) by (rewrite Hp; by destruct Hk as [->| ->]).
    assert (H1 : negb (String.eqb (lower (pn_path r)) "/query") && negb (String.eqb (lower (pn_path r)) "/invoke") = false)
      by (rewrite Hp; by destruct Hk as [->| ->]).
    assert (H2 : negb (String.eqb (base_media_type (pn_content_type r)) MIME_LEGACY_FRAME) &&
                 negb (String.eqb (base_media_type (pn_content_type r)) MIME_FRAME) = false).
    { apply elem_of_cons in Ht as [Ht|Ht%list_elem_of_singleton]; by rewrite Ht. }
    rewrite H0, H1, H2, Hm, Ha. cbn. destruct (0 <? pn_max_body_bytes r); cbn; [|done].
    rewrite (proj2 (Z.ltb_ge _ _) Hb). intros [= <-]. apply http_dispatch_kind; eauto.
Qed.

(** A node dispatches a query or an action exactly when the request was
    not cancelled, its body is valid, its frame is of that kind and the role
    of the node serves it; over HTTP also only for a POST to the endpoint of
    that kind, with a frame media type, an acceptable answer and a body within
    the limit. *)
Theorem portable_dispatch r kind d : kind = "query" \/ kind = "action" -> evaluate_portable_node r = Some d ->
  nd_decision d = dispatch_of kind <->
  pn_cancelled r = false /\ lower (pn_frame_kind r) = kind /\ serves_kind (pn_node_role r) kind = true /\
  pn_body_valid r = true /\ (pn_transport r = Http -> http_admits r kind).
Proof.
  intros Hk. unfold evaluate_portable_node. destruct (pn_cancelled r).
  { intros [= <-]. split; [destruct Hk as [->| ->]; done|by intros []]. }
  destruct (pn_transport r); intros E.
  - rewrite (http_dispatches r kind d Hk E). naive_solver.
  - injection E as <-. rewrite (native_dispatch r kind Hk). naive_solver.
Qed.

Definition a_query : NwpPortableNodeRequest :=
  mkPortableRequest Http RoleComplex (Some "post") (Some "/Query") (Some "application/NWP-frame; charset=utf-8")
    (Some "text/html, application/*;q=0.5") 1024 default_max_body_bytes (Some "QUERY") true false (Some "c-1").
Lemma portable_dispatch_witness :
  exists d, evaluate_portable_node a_query = Some d /\ nd_decision d = "dispatch_query" /\ http_admits a_query "query".
Proof.
  eexists. split; [vm_compute; reflexivity|].
  match goal with |- nd_decision ?d = _ /\ _ => pose proof (portable_dispatch a_query "query" d) as H end.
  split; [reflexivity|]. destruct H as [H _]; [by left|vm_compute; reflexivity|]. by apply H.
Defined.

(** ** Rejections *)

(** What a rejection says about its error agrees with the status tables. *)
Definition consistent (error status : option string) (http : option Z) : Prop :=
  match error, status with
  | Some e, Some s => nwp_to_nps_status e = s /\ (forall h, http = Some h -> to_http_status s = Some h)
  | _, _ => True
  end.

(** Every rejection of a node that names a registered error names the status
    the tables give it, and the HTTP status they give that one, except that an
    unknown path is reported under the error of a malformed body. *)
Lemma node_rejection_consistent r d : evaluate_portable_node r = Some d ->
  consistent (nd_error d) (nd_status d) (nd_http_status d) \/
  nd_http_status d = Some 404 \/ nd_error d = Some "NWP-NATIVE-FRAME-UNSUPPORTED".
Proof.
  unfold evaluate_portable_node, evaluate_http_node, http_dispatch, evaluate_native_node. intros E.
  repeat case_match; simplify_eq; cbn; try by auto; left; vm_compute; (split; [done|by intros ? [= <-]]).
Qed.

(** The error a node answers a bad native frame with is no registered code. *)
Lemma native_error_unregistered : "NWP-NATIVE-FRAME-UNSUPPORTED" ∉ nwp_codes.
Proof. apply (bool_decide_unpack _). vm_compute. exact I. Qed.

(** An unknown path answers 404 under an error that the tables map to 400. *)
Lemma unknown_path_error :
  exists d, evaluate_portable_node (mkPortableRequest Http RoleMemory (Some "GET") (Some "/nothing") None None 0 1 None
                                      true false None) = Some d /\
    nd_http_status d = Some 404 /\ nd_error d = Some HTTP_FRAME_BODY_MALFORMED /\
    to_http_status (nwp_to_nps_status HTTP_FRAME_BODY_MALFORMED) = Some 400.
Proof. eexists. by vm_compute. Qed.

(** ** When a bridge dispatches *)

(** A bridge dispatches a call exactly when it was not cancelled, names a
    registered protocol and an endpoint the guard admits, and its deadline has
    not passed. *)
Lemma bridge_dispatch r d : evaluate_bridge_lifecycle r = Some d ->
  bd_decision d = "dispatch" <->
  bl_cancelled r = false /\ is_empty (trim (bl_protocol r)) = false /\ is_empty (trim (bl_endpoint r)) = false /\
  existsb (fun p => eq_ignore_ascii_case p (bl_protocol r)) (bl_registered_protocols r) = true /\
  validate_child_url (bl_endpoint r) (bl_allowed_prefixes r) (bl_reject_private r) (bl_allow_http r) = None /\
  bl_elapsed_ms r < bl_timeout_ms r.
Proof.
  unfold evaluate_bridge_lifecycle. intros E.
  destruct (bl_cancelled r); [injection E as <-; split; [done|by intros []]|].
  destruct (is_empty (trim (bl_protocol r))); [injection E as <-; split; [done|by intros (_ & ? & _)]|].
  destruct (is_empty (trim (bl_endpoint r))); cbn in E; [injection E as <-; split; [done|by intros (_ & _ & ? & _)]|].
  destruct (existsb _ _); cbn in E; [|injection E as <-; split; [done|by intros (_ & _ & _ & ? & _)]].
  destruct (validate_child_url _ _ _ _); [injection E as <-; split; [done|by intros (_ & _ & _ & _ & ? & _)]|].
  destruct (0 <? bl_timeout_ms r); cbn in E; [|done].
  destruct (Z.leb_spec (bl_timeout_ms r) (bl_elapsed_ms r)); injection E as <-; cbn; (split; [try done; by auto 10|]).
  - intros. lia.
  - done.
Qed.

(** No answer of a bridge that refuses private hosts dispatches to one. *)
Lemma bridge_no_private r d u : evaluate_bridge_lifecycle r = Some d -> bd_decision d = "dispatch" ->
  bl_reject_private r = true -> parse_absolute_url (bl_endpoint r) = Some u -> node_is_private_host (pu_host u) = false.
Proof.
  intros E Hd Hp Hu. apply (bridge_dispatch r d E) in Hd as (_ & _ & _ & _ & Hv & _).
  unfold validate_child_url in Hv. rewrite Hu, Hp in Hv. repeat case_match; try done.
Qed.
