(* ===== verification/NwpBridge.v ===== *)
(** * NwpBridge: what the inbound bridges share

    Models nps-nwp/src/bridge_inbound: tool_name.rs, error_map.rs, jsonrpc.rs,
    options.rs and backend.rs.  A backend is a trait object: a record of
    operations over a world [W], which holds whatever the fronted nodes and the
    connections to them are.  What reqwest does with a request is a function of
    the request and that world. *)

From S2P Require Import Prelude RustStr Json CoreCache NcpFrames NipVerifier NwpQuery NwpFrames NwpAnchor NwpProfile Calls.
Local Open Scope Z_scope.

(** ** Tool names (tool_name.rs) *)

Section tool_name.
Context `{UnicodeTables}.

Definition tool_char (c : Z) : Z :=
  if is_alphanumeric c || (c =? 95) || (c =? 45) || (c =? 46) then c else 95.

(** [trim_matches('_')] on characters. *)
Definition trim_underscores (l : list Z) : list Z :=
  rev (drop_while (Z.eqb 95) (rev (drop_while (Z.eqb 95) l))).

Definition sanitize (s : string) : string :=
  let trimmed := of_chars (trim_underscores (map tool_char (chars (trim s)))) in
  if is_empty trimmed then "node" else trimmed.

(** [str::replace('.', "_")]. *)
Fixpoint dots_to_underscores (s : string) : string :=
  match s with
  | EmptyString => EmptyString
  | String.String a r => String.String (if Ascii.eqb a "." then "_"%char else a) (dots_to_underscores r)
  end.

Definition encode_action_segment (action : string) : string := dots_to_underscores (sanitize action).
Definition tool_encode (node action : string) : string := sanitize node +:+ "__" +:+ encode_action_segment action.
End tool_name.

(** ** Errors of the foreign protocols (error_map.rs) *)

Definition JSONRPC_PARSE_ERROR : Z := -32700.
Definition JSONRPC_INVALID_REQUEST : Z := -32600.
Definition JSONRPC_METHOD_NOT_FOUND : Z := -32601.
Definition JSONRPC_INVALID_PARAMS : Z := -32602.
Definition JSONRPC_INTERNAL_ERROR : Z := -32603.
Definition JSONRPC_UPSTREAM_ERROR : Z := -32000.
Definition JSONRPC_UNAUTHENTICATED : Z := -32001.
Definition JSONRPC_FORBIDDEN : Z := -32003.
Definition JSONRPC_CONFLICT : Z := -32004.
Definition JSONRPC_LIMIT : Z := -32005.
Definition JSONRPC_RESERVED_NEVER_EMIT : Z := -32002.

Inductive GrpcStatusCode : Type :=
| GOk | InvalidArgument | DeadlineExceeded | GNotFound | AlreadyExists | PermissionDenied | ResourceExhausted
| FailedPrecondition | Aborted | Unimplemented | Internal | Unavailable | DataLoss | Unauthenticated | Unknown.
#[export] Instance GrpcStatusCode_eq_dec : EqDecision GrpcStatusCode.
Proof. solve_decision. Defined.

Definition str_in (l : list string) (s : string) : bool := existsb (String.eqb s) l.

Definition to_json_rpc (nps_status : string) (resource_read : bool) : Z :=
  if str_in ["NPS-CLIENT-BAD-FRAME"] nps_status then JSONRPC_INVALID_REQUEST
  else if str_in ["NPS-CLIENT-BAD-PARAM"; "NPS-CLIENT-UNPROCESSABLE"] nps_status then JSONRPC_INVALID_PARAMS
  else if str_in ["NPS-CLIENT-NOT-FOUND"] nps_status
  then if resource_read then JSONRPC_INVALID_PARAMS else JSONRPC_METHOD_NOT_FOUND
  else if str_in ["NPS-CLIENT-GONE"] nps_status then JSONRPC_INVALID_PARAMS
  else if str_in ["NPS-CLIENT-CONFLICT"] nps_status then JSONRPC_CONFLICT
  else if str_in ["NPS-AUTH-UNAUTHENTICATED"] nps_status then JSONRPC_UNAUTHENTICATED
  else if str_in ["NPS-AUTH-FORBIDDEN"] nps_status then JSONRPC_FORBIDDEN
  else if str_in ["NPS-LIMIT-RATE"; "NPS-LIMIT-BUDGET"; "NPS-LIMIT-PAYLOAD"] nps_status then JSONRPC_LIMIT
  else if str_in ["NPS-SERVER-UNSUPPORTED"] nps_status then JSONRPC_METHOD_NOT_FOUND
  else JSONRPC_INTERNAL_ERROR.

Definition to_grpc_status (nps_status : string) : GrpcStatusCode :=
  if str_in ["NPS-CLIENT-BAD-FRAME"; "NPS-CLIENT-BAD-PARAM"; "NPS-CLIENT-UNPROCESSABLE"] nps_status then InvalidArgument
  else if str_in ["NPS-CLIENT-NOT-FOUND"; "NPS-CLIENT-GONE"] nps_status then GNotFound
  else if str_in ["NPS-CLIENT-CONFLICT"] nps_status then Aborted
  else if str_in ["NPS-AUTH-UNAUTHENTICATED"] nps_status then Unauthenticated
  else if str_in ["NPS-AUTH-FORBIDDEN"] nps_status then PermissionDenied
  else if str_in ["NPS-LIMIT-RATE"; "NPS-LIMIT-BUDGET"; "NPS-LIMIT-PAYLOAD"] nps_status then ResourceExhausted
  else if str_in ["NPS-SERVER-UNSUPPORTED"] nps_status then Unimplemented
  else if str_in ["NPS-SERVER-INTERNAL"] nps_status then Internal
  else if str_in ["NPS-SERVER-UNAVAILABLE"; "NPS-DOWNSTREAM-UNAVAILABLE"] nps_status then Unavailable
  else if str_in ["NPS-SERVER-TIMEOUT"] nps_status then DeadlineExceeded
  else Internal.

(** The statuses of a failure before the tool ran. *)
Definition infrastructure : list string :=
  ["NPS-AUTH-UNAUTHENTICATED"; "NPS-AUTH-FORBIDDEN"; "NPS-LIMIT-RATE"; "NPS-LIMIT-BUDGET"; "NPS-LIMIT-PAYLOAD";
   "NPS-SERVER-UNSUPPORTED"; "NPS-SERVER-INTERNAL"; "NPS-SERVER-UNAVAILABLE"; "NPS-SERVER-TIMEOUT";
   "NPS-DOWNSTREAM-UNAVAILABLE"].
Definition must_be_protocol_error (nps_status : string) : bool := str_in infrastructure nps_status.

Definition from_http_status (status : Z) : string :=
  if status =? 400 then "NPS-CLIENT-BAD-PARAM"
  else if status =? 401 then "NPS-AUTH-UNAUTHENTICATED"
  else if status =? 403 then "NPS-AUTH-FORBIDDEN"
  else if status =? 404 then "NPS-CLIENT-NOT-FOUND"
  else if status =? 408 then "NPS-SERVER-TIMEOUT"
  else if status =? 409 then "NPS-CLIENT-CONFLICT"
  else if status =? 410 then "NPS-CLIENT-GONE"
  else if status =? 413 then "NPS-LIMIT-PAYLOAD"
  else if status =? 415 then "NPS-SERVER-ENCODING-UNSUPPORTED"
  else if status =? 422 then "NPS-CLIENT-UNPROCESSABLE"
  else if status =? 429 then "NPS-LIMIT-RATE"
  else if status =? 501 then "NPS-SERVER-UNSUPPORTED"
  else if (status =? 502) || (status =? 504) then "NPS-DOWNSTREAM-UNAVAILABLE"
  else if status =? 503 then "NPS-SERVER-UNAVAILABLE"
  else if 500 <=? status then "NPS-SERVER-INTERNAL"
  else if 400 <=? status then "NPS-CLIENT-BAD-PARAM"
  else "NPS-OK".

Definition from_json_rpc (code : Z) : string :=
  if (code =? JSONRPC_PARSE_ERROR) || (code =? JSONRPC_INVALID_REQUEST) then "NPS-CLIENT-BAD-FRAME"
  else if code =? JSONRPC_METHOD_NOT_FOUND then "NPS-CLIENT-NOT-FOUND"
  else if code =? JSONRPC_INVALID_PARAMS then "NPS-CLIENT-BAD-PARAM"
  else if code =? JSONRPC_INTERNAL_ERROR then "NPS-SERVER-INTERNAL"
  else if code =? JSONRPC_UNAUTHENTICATED then "NPS-AUTH-UNAUTHENTICATED"
  else if code =? JSONRPC_FORBIDDEN then "NPS-AUTH-FORBIDDEN"
  else if code =? JSONRPC_CONFLICT then "NPS-CLIENT-CONFLICT"
  else if code =? JSONRPC_LIMIT then "NPS-LIMIT-RATE"
  else if code =? JSONRPC_UPSTREAM_ERROR then "NPS-DOWNSTREAM-UNAVAILABLE"
  else "NPS-SERVER-INTERNAL".

Definition from_grpc_status (code : GrpcStatusCode) : string :=
  match code with
  | GOk => "NPS-OK"
  | InvalidArgument => "NPS-CLIENT-BAD-PARAM"
  | FailedPrecondition => "NPS-CLIENT-UNPROCESSABLE"
  | GNotFound => "NPS-CLIENT-NOT-FOUND"
  | AlreadyExists | Aborted => "NPS-CLIENT-CONFLICT"
  | Unauthenticated => "NPS-AUTH-UNAUTHENTICATED"
  | PermissionDenied => "NPS-AUTH-FORBIDDEN"
  | ResourceExhausted => "NPS-LIMIT-RATE"
  | Unimplemented => "NPS-SERVER-UNSUPPORTED"
  | Unavailable => "NPS-SERVER-UNAVAILABLE"
  | DeadlineExceeded => "NPS-SERVER-TIMEOUT"
  | Internal | Unknown | DataLoss => "NPS-SERVER-INTERNAL"
  end.

(** ** JSON-RPC envelopes (jsonrpc.rs) *)

Record BridgeJsonRpcRequest : Type := mkRpcRequest {
  rpc_jsonrpc : string; rpc_id : Value; rpc_method : string; rpc_params : option Value }.

Record BridgeJsonRpcError : Type := mkRpcError { je_code : Z; je_message : string; je_data : option Value }.
Record BridgeJsonRpcResponse : Type := mkRpcResponse {
  rr_jsonrpc : string; rr_id : Value; rr_result : option Value; rr_error : option BridgeJsonRpcError }.

Definition two_zero : string := "2.0".
Definition rpc_request_new (id : Value) (method : string) (params : option Value) : BridgeJsonRpcRequest :=
  mkRpcRequest two_zero id method params.
Definition rpc_ok (id result : Value) : BridgeJsonRpcResponse := mkRpcResponse two_zero id (Some result) None.
Definition rpc_err (id : Value) (code : Z) (message : string) (data : option Value) : BridgeJsonRpcResponse :=
  mkRpcResponse two_zero id None (Some (mkRpcError code message data)).
Definition is_error (r : BridgeJsonRpcResponse) : bool := is_some (rr_error r).
Definition rpc_error_code (r : BridgeJsonRpcResponse) : option Z := je_code <$> rr_error r.

(** The derived serializers skip what is absent; the derived deserializer of a
    request is a parameter, from text and from bytes. *)
Definition int_value (n : Z) : Value := VNumber (if n <? 0 then NegInt n else PosInt n).
Definition rpc_error_to_value (e : BridgeJsonRpcError) : Value :=
  VObject (insert_opt "data" (je_data e) [("code", int_value (je_code e)); ("message", VString (je_message e))]).
Definition rpc_response_to_value (r : BridgeJsonRpcResponse) : Value :=
  let m := map_insert "jsonrpc" (VString (rr_jsonrpc r)) [] in
  let m := map_insert "id" (rr_id r) m in
  let m := insert_opt "result" (rr_result r) m in
  VObject (insert_opt "error" (rpc_error_to_value <$> rr_error r) m).

Class BridgeSerde : Type := {
  rpc_from_str : string -> result string BridgeJsonRpcRequest;
  rpc_from_slice : list Z -> result string BridgeJsonRpcRequest
}.

(** ** Nodes behind the bridge (backend.rs) *)

Inductive NwpNodeRole : Type := UnknownRole | Memory | Action | Complex | Anchor | Bridge.
#[export] Instance NwpNodeRole_eq_dec : EqDecision NwpNodeRole.
Proof. solve_decision. Defined.

Definition role_parse (node_type : string) : NwpNodeRole :=
  let t := to_ascii_lowercase (trim node_type) in
  if String.eqb t "memory" then Memory
  else if String.eqb t "action" then Action
  else if String.eqb t "complex" then Complex
  else if String.eqb t "anchor" then Anchor
  else if String.eqb t "bridge" then Bridge
  else UnknownRole.

Definition role_wire (r : NwpNodeRole) : string :=
  match r with
  | UnknownRole => "" | Memory => "memory" | Action => "action" | Complex => "complex" | Anchor => "anchor"
  | Bridge => "bridge"
  end.

Record NwpNodeDescriptor : Type := mkDescriptor {
  nd_name : string; nd_role : NwpNodeRole; nd_display_name : option string; nd_description : option string }.
Definition descriptor_new (name : string) (role : NwpNodeRole) : NwpNodeDescriptor := mkDescriptor name role None None.

Definition is_queryable (d : NwpNodeDescriptor) : bool :=
  match nd_role d with Memory | Complex => true | _ => false end.
Definition is_invokable (d : NwpNodeDescriptor) : bool :=
  match nd_role d with Action | Complex => true | _ => false end.

Record NwpActionDescriptor : Type := mkActionDescriptor {
  nad_action_id : string; nad_description : option string; nad_input_schema : option Value; nad_is_async : bool;
  nad_tags : option (list string) }.
Definition action_descriptor_new (action_id : string) : NwpActionDescriptor :=
  mkActionDescriptor action_id None None false None.

Definition open_object_schema : Value := VObject [("additionalProperties", VBool true); ("type", VString "object")].
Definition effective_input_schema (a : NwpActionDescriptor) : Value := default open_object_schema (nad_input_schema a).

Record NwpResult : Type := mkNwpResult {
  nr_ok : bool; nr_payload : option Value; nr_nps_status : option string; nr_nwp_error : option string;
  nr_message : option string }.

Definition nwp_success (payload : Value) : NwpResult := mkNwpResult true (Some payload) None None None.
Definition nwp_failure (nps_status : string) (nwp_error message : option string) : NwpResult :=
  mkNwpResult false None (Some nps_status) nwp_error message.

Definition BRIDGE_DIRECTION_UNSUPPORTED : string := "NWP-BRIDGE-DIRECTION-UNSUPPORTED".
Definition BRIDGE_SERVER_TOOL_NOT_FOUND : string := "NWP-BRIDGE-SERVER-TOOL-NOT-FOUND".
Definition BRIDGE_SERVER_DISPATCHER_MISSING : string := "NWP-BRIDGE-SERVER-DISPATCHER-MISSING".
Definition BRIDGE_SERVER_DISPATCH_FAILED : string := "NWP-BRIDGE-SERVER-DISPATCH-FAILED".

Definition dispatch_failed (message : string) : NwpResult :=
  nwp_failure "NPS-SERVER-INTERNAL" (Some BRIDGE_SERVER_DISPATCH_FAILED) (Some message).

Definition failure_payload (r : NwpResult) : Value :=
  VObject [("error", opt_value (nr_nwp_error r)); ("message", opt_value (nr_message r));
           ("status", opt_value (nr_nps_status r))].

Definition first_of {A} (a b : option A) : option A := match a with Some x => Some x | None => b end.
Definition detail (r : NwpResult) : string :=
  default "" (first_of (first_of (nr_message r) (nr_nwp_error r)) (nr_nps_status r)).

(** The trait. *)
Record NwpBackend (W : Type) : Type := mkBackend {
  nb_descriptor : W -> NwpNodeDescriptor * W;
  nb_manifest : W -> NwpResult * W;
  nb_actions : W -> list NwpActionDescriptor * W;
  nb_query : Value -> W -> NwpResult * W;
  nb_invoke : string -> option Value -> bool -> W -> NwpResult * W
}.
Arguments mkBackend {W}.
Arguments nb_descriptor {W}.
Arguments nb_manifest {W}.
Arguments nb_actions {W}.
Arguments nb_query {W}.
Arguments nb_invoke {W}.

Definition not_queryable (d : NwpNodeDescriptor) : NwpResult :=
  nwp_failure "NPS-SERVER-UNSUPPORTED" (Some BRIDGE_SERVER_TOOL_NOT_FOUND)
    (Some ("Node '" +:+ nd_name d +:+ "' is not queryable (role: " +:+ role_wire (nd_role d) +:+ ").")).

(** ** A node of this process *)

Record BridgeDispatchError : Type := mkDispatchError {
  de_nps_status : option string; de_nwp_error : option string; de_message : option string }.
Definition error_frame (nps_status nwp_error message : string) : BridgeDispatchError :=
  mkDispatchError (Some nps_status) (Some nwp_error) (Some message).
Definition failed (message : string) : BridgeDispatchError := mkDispatchError None None (Some message).

Definition into_result (e : BridgeDispatchError) : NwpResult :=
  match de_nps_status e with
  | Some status => mkNwpResult false None (Some status) (de_nwp_error e) (de_message e)
  | None => dispatch_failed (default "" (de_message e))
  end.

Section in_process.
Context {W : Type}.

(** The dispatchers are the host's. *)
Definition ActionDispatcher : Type := ActionFrame -> W -> result BridgeDispatchError Value * W.
Definition QueryDispatcher : Type := QueryFrame -> W -> result BridgeDispatchError Value * W.

Record InProcessNwpBackend : Type := mkInProcess {
  ip_descriptor : NwpNodeDescriptor;
  ip_actions : list NwpActionDescriptor;
  ip_invoke_dispatcher : option ActionDispatcher;
  ip_query_dispatcher : option QueryDispatcher
}.

Definition of_dispatch (out : result BridgeDispatchError Value * W) : NwpResult * W :=
  (match fst out with Ok v => nwp_success v | Err e => into_result e end, snd out).

Definition in_process_manifest (d : NwpNodeDescriptor) : Value :=
  VObject [("description", opt_value (nd_description d)); ("display_name", opt_value (nd_display_name d));
           ("node_type", VString (role_wire (nd_role d)))].

(** The whole query becomes the filter of the frame. *)
Definition query_frame (query : Value) : QueryFrame :=
  let f := QueryFrame_new "" in
  mkQueryFrame (q_anchor_ref f) (Some query) (q_order f) (q_fields f) (q_vector_search f) (q_cursor f)
    (q_token_budget f) (q_tokenizer f) (q_request_id f) (q_auto_anchor f) (q_stream f) (q_aggregate f) (q_limit f)
    (q_offset f) (q_depth f).

Definition in_process_query (b : InProcessNwpBackend) (query : Value) (w : W) : NwpResult * W :=
  if negb (is_queryable (ip_descriptor b)) then (not_queryable (ip_descriptor b), w)
  else match ip_query_dispatcher b with
       | None => (nwp_failure "NPS-SERVER-INTERNAL" (Some BRIDGE_SERVER_DISPATCHER_MISSING)
                    (Some ("Node '" +:+ nd_name (ip_descriptor b) +:+ "' has no query dispatcher configured.")), w)
       | Some d => of_dispatch (d (query_frame query) w)
       end.

Definition in_process_invoke (b : InProcessNwpBackend) (action_id : string) (arguments : option Value)
    (is_async : bool) (w : W) : NwpResult * W :=
  match ip_invoke_dispatcher b with
  | None => (nwp_failure "NPS-SERVER-INTERNAL" (Some BRIDGE_SERVER_DISPATCHER_MISSING)
               (Some ("Node '" +:+ nd_name (ip_descriptor b) +:+ "' has no action dispatcher configured.")), w)
  | Some d => of_dispatch (d (mkActionFrame action_id arguments None is_async None None None) w)
  end.

Definition in_process (b : InProcessNwpBackend) : NwpBackend W :=
  mkBackend (fun w => (ip_descriptor b, w)) (fun w => (nwp_success (in_process_manifest (ip_descriptor b)), w))
    (fun w => (if is_invokable (ip_descriptor b) then ip_actions b else [], w))
    (in_process_query b) (in_process_invoke b).
End in_process.
Arguments InProcessNwpBackend : clear implicits.

(** ** A node over HTTP *)

Record NwpUpstream : Type := mkUpstream {
  up_name : string; up_base_url : string; up_agent_nid : option string; up_auth_header : option string;
  up_read_limit : Z }.
Definition upstream_new (name base_url : string) : NwpUpstream :=
  mkUpstream name (trim_end_matches_slash base_url) None None 100.

Record UpstreamRequest : Type := mkUpstreamRequest {
  ur_method : string; ur_url : string; ur_headers : list (string * string); ur_body : option Value }.
Inductive UpstreamReply : Type :=
| TransportError (is_timeout : bool) (text : string)
| Reply (status : Z) (body : string).

Section http.
Context {P : JsonParser} {W : Type}.
(** The HTTP client, and the field of the backend that caches the descriptor. *)
Context (http : UpstreamRequest -> W -> UpstreamReply * W).
Context (cached : W -> option NwpNodeDescriptor) (cache : NwpNodeDescriptor -> W -> W).
Context (up : NwpUpstream).

Definition decorate : list (string * string) :=
  match up_agent_nid up with Some nid => [("X-NWP-Agent", nid)] | None => [] end ++
  match up_auth_header up with Some auth => [("Authorization", auth)] | None => [] end.

Definition transport_failure (is_timeout : bool) (text : string) : NwpResult :=
  nwp_failure (if is_timeout then "NPS-SERVER-TIMEOUT" else "NPS-DOWNSTREAM-UNAVAILABLE")
    (Some BRIDGE_UPSTREAM_FAILED) (Some text).

(** [serde_json::from_str(..).ok()]. *)
Definition parsed (body : string) : option Value :=
  match parse_json body with Ok v => Some v | Err _ => None end.

Definition bridge_read_json (status : Z) (body : string) : NwpResult :=
  if (200 <=? status) && (status <? 300)
  then match parsed body with
       | Some v => nwp_success v
       | None => nwp_failure "NPS-DOWNSTREAM-UNAVAILABLE" (Some BRIDGE_UPSTREAM_FAILED)
                   (Some "upstream returned a non-JSON 2xx body.")
       end
  else nwp_failure (from_http_status status) (v ← parsed body; vget "error" v ≫= as_str) (Some body).

Definition read_reply (r : UpstreamReply) : NwpResult :=
  match r with TransportError t text => transport_failure t text | Reply status body => bridge_read_json status body end.

Definition http_get (path : string) : UpstreamRequest := mkUpstreamRequest "GET" (up_base_url up +:+ path) decorate None.
Definition http_post (path : string) (body : Value) : UpstreamRequest :=
  mkUpstreamRequest "POST" (up_base_url up +:+ path) (decorate ++ [("Content-Type", MIME_FRAME)]) (Some body).

Definition http_descriptor (w : W) : NwpNodeDescriptor * W :=
  match cached w with
  | Some d => (d, w)
  | None =>
    let '(r, w) := http (http_get "/.nwm") w in
    let role :=
      match r with
      | Reply _ body => default UnknownRole (role_parse <$> (vget "node_type" (default VNull (parsed body)) ≫= as_str))
      | TransportError _ _ => UnknownRole
      end in
    let d := descriptor_new (up_name up) role in
    (d, cache d w)
  end.

Definition http_manifest (w : W) : NwpResult * W :=
  let '(r, w) := http (http_get "/.nwm") w in (read_reply r, w).

Definition action_of_spec (kv : string * Value) : NwpActionDescriptor :=
  mkActionDescriptor (fst kv) (vget "description" (snd kv) ≫= as_str) (vget "params_schema" (snd kv))
    (default false (vget "async" (snd kv) ≫= as_bool)) None.

Definition http_actions (w : W) : list NwpActionDescriptor * W :=
  let '(d, w) := http_descriptor w in
  if negb (is_invokable d) then ([], w)
  else
    let '(r, w) := http (http_get "/actions") w in
    match r with
    | TransportError _ _ => ([], w)
    | Reply _ body => (map action_of_spec (default [] (vget "actions" (default VNull (parsed body)) ≫= as_object)), w)
    end.

Definition http_query (query : Value) (w : W) : NwpResult * W :=
  let '(d, w) := http_descriptor w in
  if negb (is_queryable d) then (not_queryable d, w)
  else let '(r, w) := http (http_post "/query" query) w in (read_reply r, w).

Definition http_invoke (action_id : string) (arguments : option Value) (is_async : bool) (w : W) : NwpResult * W :=
  let body := VObject [("action_id", VString action_id); ("async", VBool is_async); ("params", default VNull arguments)] in
  let '(r, w) := http (http_post "/invoke" body) w in (read_reply r, w).

Definition HttpNwpBackend : NwpBackend W := mkBackend http_descriptor http_manifest http_actions http_query http_invoke.
End http.

(** ** Options (options.rs) *)

Definition default_inbound_protocols : list string := ["mcp"; "a2a"].

Record BridgeInboundOptions (W : Type) : Type := mkInboundOptions {
  bo_backends : list (NwpBackend W);
  bo_inbound_protocols : list string;
  bo_outbound_protocols : list string;
  bo_server_name : string;
  bo_server_version : string;
  bo_resource_read_limit : Z;
  bo_require_auth : bool
}.
Arguments mkInboundOptions {W}.
Arguments bo_backends {W}.
Arguments bo_inbound_protocols {W}.
Arguments bo_outbound_protocols {W}.
Arguments bo_server_name {W}.
Arguments bo_server_version {W}.
Arguments bo_resource_read_limit {W}.
Arguments bo_require_auth {W}.

(** The version is that of the package. *)
Definition inbound_options_default (W : Type) (version : string) : BridgeInboundOptions W :=
  mkInboundOptions [] default_inbound_protocols [] "nps-bridge-server" version 100 true.

Definition serves_inbound {W} (o : BridgeInboundOptions W) (protocol : string) : bool :=
  existsb (fun p => eq_ignore_ascii_case p protocol) (bo_inbound_protocols o).

Definition direction_hint {W} (o : BridgeInboundOptions W) : Value :=
  VObject [("bridge_inbound_protocols", vstrings (bo_inbound_protocols o));
           ("bridge_protocols", vstrings (bo_outbound_protocols o))].

(** ** Dispatching under a deadline *)

(** The body of a handler awaits its backends one after the other.  [Some (n,
    done_)] says that the deadline fires during the call after [n] more, whose
    reply is lost and whose effect takes place or not; [None] is a run in
    which it does not fire.  The error is the elapsed deadline. *)
Section deadline.
Context {W : Type}.
Abbreviation Clocked := (option (nat * bool) * W)%type.
Abbreviation Dispatch := (Call (E := unit) (S := Clocked)).

Definition await {A} (f : W -> A * W) : Dispatch A := fun cw =>
  match fst cw with
  | None => let '(a, w) := f (snd cw) in Some (Ok a, (None, w))
  | Some (S n, e) => let '(a, w) := f (snd cw) in Some (Ok a, (Some (n, e), w))
  | Some (O, e) => Some (Err tt, (Some (O, e), if e then snd (f (snd cw)) else snd cw))
  end.
End deadline.
