(* ===== verification/NwpBridgeMcp.v ===== *)
(** * NwpBridgeMcp: the MCP bridge

    Models nps-nwp/src/bridge_inbound/mcp.rs: the six required methods over
    the backends of NwpBridge, the resolution of tool names, the split between
    protocol errors and failed tools, and the line-based transport. *)

From S2P Require Import Prelude RustStr Json CoreCache NcpFrames Calls NwpAnchor NwpBridge.
Local Open Scope Z_scope.

Definition REQUIRED_METHODS : list string :=
  ["initialize"; "ping"; "tools/list"; "tools/call"; "resources/list"; "resources/read"].

Section mcp.
Context {D : Digests} `{UnicodeTables} {W : Type}.
Context (options : BridgeInboundOptions W).
Abbreviation Dispatch := (Call (E := unit) (S := option (nat * bool) * W)).
Local Open Scope call_scope.

(** ** Tools *)

Definition tool_entry (d : NwpNodeDescriptor) (a : NwpActionDescriptor) : Value :=
  VObject [("description", opt_value (nad_description a)); ("inputSchema", effective_input_schema a);
           ("name", VString (tool_encode (nd_name d) (nad_action_id a)))].

Fixpoint list_tools_of (bs : list (NwpBackend W)) : Dispatch (list Value) :=
  match bs with
  | [] => call_ret []
  | b :: bs =>
    d <- await (nb_descriptor b) ;;
    here <- (if negb (is_invokable d) then call_ret []
             else actions <- await (nb_actions b) ;; call_ret (map (tool_entry d) actions)) ;;
    rest <- list_tools_of bs ;;
    call_ret (here ++ rest)
  end.
Definition list_tools : Dispatch (list Value) := list_tools_of (bo_backends options).

Record ResolvedTool : Type := mkResolved { rt_backend : NwpBackend W; rt_action_id : string }.

(** The candidates that match without the name of their node, with their
    qualified names. *)
Abbreviation Candidates := (list (NwpBackend W * string * string)).

Definition bare_match (tool action_id : string) : bool :=
  eq_ignore_ascii_case action_id tool || eq_ignore_ascii_case (encode_action_segment action_id) tool.

(** The actions of one node: a qualified match ends the search. *)
Fixpoint scan_actions (tool : string) (b : NwpBackend W) (d : NwpNodeDescriptor) (actions : list NwpActionDescriptor)
    (unqualified : Candidates) : ResolvedTool + Candidates :=
  match actions with
  | [] => inr unqualified
  | a :: rest =>
    let qualified := tool_encode (nd_name d) (nad_action_id a) in
    if eq_ignore_ascii_case qualified tool then inl (mkResolved b (nad_action_id a))
    else scan_actions tool b d rest
           (if bare_match tool (nad_action_id a) then unqualified ++ [(b, nad_action_id a, qualified)] else unqualified)
  end.

Fixpoint scan_backends (tool : string) (bs : list (NwpBackend W)) (unqualified : Candidates)
    : Dispatch (ResolvedTool + Candidates) :=
  match bs with
  | [] => call_ret (inr unqualified)
  | b :: bs =>
    d <- await (nb_descriptor b) ;;
    if negb (is_invokable d) then scan_backends tool bs unqualified
    else
      actions <- await (nb_actions b) ;;
      match scan_actions tool b d actions unqualified with
      | inl r => call_ret (inl r)
      | inr unqualified => scan_backends tool bs unqualified
      end
  end.

(** [Err] names the candidates of an ambiguous bare name. *)
Definition settle (out : ResolvedTool + Candidates) : result (list string) (option ResolvedTool) :=
  match out with
  | inl r => Ok (Some r)
  | inr [] => Ok None
  | inr [(b, action_id, _)] => Ok (Some (mkResolved b action_id))
  | inr unqualified => Err (map snd unqualified)
  end.

Definition resolve_tool (tool : string) : Dispatch (result (list string) (option ResolvedTool)) :=
  out <- scan_backends tool (bo_backends options) [] ;; call_ret (settle out).

(** A parameter that is a string, trimmed; [""] when it is missing. *)
Definition param_str (params : option Value) (key : string) : string :=
  trim (default "" (p ← params; vget key p ≫= as_str)).

Definition payload_text (r : NwpResult) : string := default "" (json_to_string <$> nr_payload r).
Definition text_content (text : string) : Value := VArray [VObject [("text", VString text); ("type", VString "text")]].
Definition tool_content (is_error_ : bool) (text : string) : Value :=
  VObject [("content", text_content text); ("isError", VBool is_error_)].

Definition status_of (r : NwpResult) : string := default "" (nr_nps_status r).

Definition project_tool_result (id : Value) (r : NwpResult) : BridgeJsonRpcResponse :=
  if nr_ok r then rpc_ok id (tool_content false (payload_text r))
  else
    let status := status_of r in
    if must_be_protocol_error status
    then rpc_err id (to_json_rpc status false) (detail r)
           (Some (VObject [("error", opt_value (nr_nwp_error r)); ("status", VString status)]))
    else rpc_ok id (tool_content true (json_to_string (failure_payload r))).

Definition tools_call (id : Value) (params : option Value) : Dispatch BridgeJsonRpcResponse :=
  let name := param_str params "name" in
  if is_empty name then call_ret (rpc_err id JSONRPC_INVALID_PARAMS "MCP tools/call requires params.name." None)
  else
    let arguments := p ← params; vget "arguments" p in
    resolved <- resolve_tool name ;;
    match resolved with
    | Ok None =>
      call_ret (rpc_err id JSONRPC_METHOD_NOT_FOUND ("MCP tool '" +:+ name +:+ "' is not exposed by this Bridge Node.")
        (Some (VObject [("error", VString BRIDGE_SERVER_TOOL_NOT_FOUND); ("tool", VString name)])))
    | Err candidates =>
      call_ret (rpc_err id JSONRPC_METHOD_NOT_FOUND
        ("MCP tool '" +:+ name +:+ "' is ambiguous across this Bridge Node's fronted nodes; use one of the qualified names: "
         +:+ join ", " candidates +:+ ".")
        (Some (VObject [("candidates", vstrings candidates); ("error", VString BRIDGE_SERVER_TOOL_NOT_FOUND);
                        ("tool", VString name)])))
    | Ok (Some t) =>
      r <- await (nb_invoke (rt_backend t) (rt_action_id t) arguments false) ;;
      call_ret (project_tool_result id r)
    end.

(** ** Resources *)

Definition resource_entry (d : NwpNodeDescriptor) : Value :=
  VObject [("description", VString (default ("NWP " +:+ role_wire (nd_role d) +:+ " Node '" +:+ nd_name d
                                              +:+ "' — read to query.") (nd_description d)));
           ("mimeType", VString "application/json");
           ("name", VString (default (nd_name d) (nd_display_name d)));
           ("uri", VString ("nwp://" +:+ nd_name d +:+ "/"))].

Fixpoint list_resources_of (bs : list (NwpBackend W)) : Dispatch (list Value) :=
  match bs with
  | [] => call_ret []
  | b :: bs =>
    d <- await (nb_descriptor b) ;;
    rest <- list_resources_of bs ;;
    call_ret (if negb (is_queryable d) then rest else resource_entry d :: rest)
  end.
Definition list_resources : Dispatch (list Value) := list_resources_of (bo_backends options).

Definition parse_resource_host (uri : string) : option string :=
  rest ← strip_prefix "nwp://" uri;
  let host := hd "" (split_on "/" rest) in
  if is_empty host then None else Some host.

Fixpoint find_queryable_of (host : string) (bs : list (NwpBackend W)) : Dispatch (option (NwpBackend W)) :=
  match bs with
  | [] => call_ret None
  | b :: bs =>
    d <- await (nb_descriptor b) ;;
    if is_queryable d && eq_ignore_ascii_case (nd_name d) host then call_ret (Some b) else find_queryable_of host bs
  end.
Definition find_queryable (host : string) : Dispatch (option (NwpBackend W)) :=
  find_queryable_of host (bo_backends options).

Definition project_read (id : Value) (uri : string) (r : NwpResult) : BridgeJsonRpcResponse :=
  if nr_ok r
  then rpc_ok id (VObject [("contents", VArray [VObject [("mimeType", VString "application/json");
                                                         ("text", VString (payload_text r)); ("uri", VString uri)]])])
  else
    let status := status_of r in
    rpc_err id (to_json_rpc status true) (detail r)
      (Some (VObject [("error", opt_value (nr_nwp_error r)); ("status", VString status); ("uri", VString uri)])).

Definition resources_read (id : Value) (params : option Value) : Dispatch BridgeJsonRpcResponse :=
  let uri := param_str params "uri" in
  let invalid message data := call_ret (rpc_err id JSONRPC_INVALID_PARAMS message data) in
  if is_empty uri then invalid "MCP resources/read requires params.uri." None
  else
    match parse_resource_host uri with
    | None => invalid ("Resource URI '" +:+ uri +:+ "' must be of the form nwp://<node>/.") None
    | Some host =>
      found <- find_queryable host ;;
      match found with
      | None => invalid ("Resource URI '" +:+ uri +:+ "' does not name a queryable node fronted by this Bridge Node.")
                  (Some (VObject [("error", VString BRIDGE_SERVER_TOOL_NOT_FOUND); ("uri", VString uri)]))
      | Some b =>
        r <- await (nb_query b (VObject [("limit", vnat (bo_resource_read_limit options))])) ;;
        call_ret (project_read id uri r)
      end
    end.

(** ** Dispatch *)

Definition dq (s : string) : string := String.String (ascii_of 34) (s +:+ String.String (ascii_of 34) "").

(** The refusal of a protocol the bridge does not declare. *)
Definition not_declared (id : Value) (protocol : string) : BridgeJsonRpcResponse :=
  rpc_err id JSONRPC_METHOD_NOT_FOUND
    ("This Bridge Node does not declare " +:+ dq protocol +:+ " in bridge_inbound_protocols.")
    (Some (VObject [("error", VString BRIDGE_DIRECTION_UNSUPPORTED); ("hint", direction_hint options)])).

Definition initialize_result : Value :=
  VObject [("capabilities", VObject [("resources", VObject []); ("tools", VObject [])]);
           ("serverInfo", VObject [("name", VString (bo_server_name options));
                                   ("version", VString (bo_server_version options))])].

Definition mcp_dispatch (req : BridgeJsonRpcRequest) : Dispatch BridgeJsonRpcResponse :=
  let id := rpc_id req in
  let method := rpc_method req in
  if negb (serves_inbound options "mcp") then call_ret (not_declared id "mcp")
  else if String.eqb method "initialize" then call_ret (rpc_ok id initialize_result)
  else if String.eqb method "ping" then call_ret (rpc_ok id (VObject []))
  else if String.eqb method "tools/list"
  then tools <- list_tools ;; call_ret (rpc_ok id (VObject [("tools", VArray tools)]))
  else if String.eqb method "tools/call" then tools_call id (rpc_params req)
  else if String.eqb method "resources/list"
  then resources <- list_resources ;; call_ret (rpc_ok id (VObject [("resources", VArray resources)]))
  else if String.eqb method "resources/read" then resources_read id (rpc_params req)
  else call_ret (rpc_err id JSONRPC_METHOD_NOT_FOUND
         ("MCP method '" +:+ method +:+ "' is not supported by this Bridge Node.")
         (Some (VObject [("error", VString BRIDGE_DIRECTION_UNSUPPORTED)]))).

(** ** Lines of standard input *)

(** The response to a line, [None] for a blank one. *)
Definition stdio_line `{BridgeSerde} (line : string) : Dispatch (option BridgeJsonRpcResponse) :=
  if is_empty (trim line) then call_ret None
  else match rpc_from_str line with
       | Ok req => resp <- mcp_dispatch req ;; call_ret (Some resp)
       | Err e => call_ret (Some (rpc_err VNull JSONRPC_PARSE_ERROR e None))
       end.

Definition line_end : string := String.String (ascii_of 10) "".

(** The lines of the input, an unreadable one being the error of the reader,
    and what is written; writing succeeds. *)
Fixpoint run_stdio `{BridgeSerde} (lines : list (result string string)) (output : string)
    : Dispatch (result string unit * string) :=
  match lines with
  | [] => call_ret (Ok tt, output)
  | Err e :: _ => call_ret (Err e, output)
  | Ok line :: rest =>
    resp <- stdio_line line ;;
    run_stdio rest
      (match resp with
       | Some r => output +:+ json_to_string (rpc_response_to_value r) +:+ line_end
       | None => output
       end)
  end.
End mcp.
Arguments mkResolved {W}.
Arguments rt_backend {W}.
Arguments rt_action_id {W}.
