(* ===== verification/NwpBridgeServer.v ===== *)
(** * NwpBridgeServer: the A2A and gRPC bridges, and the host of the bridges

    Models nps-nwp/src/bridge_inbound/a2a.rs: the agent card, the one method
    [tasks/send] with the search for the skill and the arguments in a task, and
    the task it answers; grpc.rs: the four calls of the service over the
    backends of NwpBridge, which fail with a gRPC status; and server.rs, the
    HTTP application in front of them.  The time of an answer is an argument;
    the gRPC service has no transport of its own, so no deadline cuts a call
    short.

    Models nps-nwp/src/bridge_inbound/server.rs: the routes, the gate on the
    agent, the bound on the body and the deadline around the MCP and A2A
    bridges.  The verifier of agents is the host's; when the deadline fires is
    an argument of a request, as [NwpBridge.await] explains. *)

From S2P Require Import Prelude Calls RustStr Json CoreCache NipVerifier NwpMemory NwpAnchor NwpBridge NwpBridgeMcp.
(** ** The A2A bridge *)

Local Open Scope Z_scope.

Definition PROVIDER_ORGANIZATION : string := "LabAcacia / INNO LOTUS PTY LTD".
Definition PROVIDER_URL : string := "https://github.com/labacacia/nps".
Definition SKILL_KEYS : list string := ["action_id"; "actionId"; "skill_id"; "skillId"; "skill"].

Section a2a.
Context `{UnicodeTables} {W : Type}.
Context (options : BridgeInboundOptions W) (now_iso : string).
Abbreviation Dispatch := (Call (E := unit) (S := option (nat * bool) * W)).
Local Open Scope call_scope.

(** ** The agent card *)

Definition skill_entry (d : NwpNodeDescriptor) (a : NwpActionDescriptor) : Value :=
  VObject [("description", opt_value (nad_description a));
           ("id", VString (tool_encode (nd_name d) (nad_action_id a)));
           ("inputModes", vstrings ["text"; "data"]);
           ("name", VString (default (nad_action_id a) (nad_description a)));
           ("outputModes", vstrings ["data"]);
           ("tags", match nad_tags a with Some tags => vstrings tags | None => VNull end)].

Fixpoint list_skills (bs : list (NwpBackend W)) : Dispatch (list Value) :=
  match bs with
  | [] => call_ret []
  | b :: bs =>
    d <- await (nb_descriptor b) ;;
    here <- (if negb (is_invokable d) then call_ret []
             else actions <- await (nb_actions b) ;; call_ret (map (skill_entry d) actions)) ;;
    rest <- list_skills bs ;;
    call_ret (here ++ rest)
  end.

Definition build_agent_card (endpoint_url : string) : Dispatch Value :=
  skills <- list_skills (bo_backends options) ;;
  call_ret (VObject
    [("authentication", if bo_require_auth options
                        then VObject [("credentials", VString "X-NWP-Agent"); ("schemes", vstrings ["apikey"])]
                        else VNull);
     ("capabilities", VObject [("pushNotifications", VBool false); ("stateTransitionHistory", VBool false);
                               ("streaming", VBool false)]);
     ("description", VString ("NPS Bridge Node '" +:+ bo_server_name options +:+ "' — inbound A2A surface."));
     ("name", VString (bo_server_name options));
     ("provider", VObject [("organization", VString PROVIDER_ORGANIZATION); ("url", VString PROVIDER_URL)]);
     ("skills", VArray skills);
     ("url", VString endpoint_url);
     ("version", VString (bo_server_version options))]).

(** ** The skill of a task *)

Definition opt_list {A} (o : option A) : list A := match o with Some x => [x] | None => [] end.

Definition parts_of (msg : Value) : option (list Value) := vget "parts" msg ≫= as_array.

Definition hint_sources (params : Map) : list Value :=
  opt_list (map_get "metadata" params) ++
  match map_get "message" params with
  | None => []
  | Some msg =>
    opt_list (vget "metadata" msg) ++
    concat (map (fun p => opt_list (vget "metadata" p) ++ opt_list (vget "data" p)) (default [] (parts_of msg)))
  end.

Definition hint_of_key (src : Value) (k : string) : option string :=
  s ← vget k src ≫= as_str; if is_empty (trim s) then None else Some (trim s).

(** The first hit of a search. *)
Fixpoint first_some {A B} (f : A -> option B) (l : list A) : option B :=
  match l with [] => None | x :: r => match f x with Some y => Some y | None => first_some f r end end.

Definition find_skill_hint (params : Map) : option string :=
  first_some (fun src => first_some (hint_of_key src) SKILL_KEYS) (hint_sources params).

(** The actions of one node: a match ends the search; without a hint every
    action is kept. *)
Fixpoint skill_scan (hint : option string) (b : NwpBackend W) (d : NwpNodeDescriptor)
    (actions : list NwpActionDescriptor) (all : list (ResolvedTool (W := W)))
    : ResolvedTool (W := W) + list (ResolvedTool (W := W)) :=
  match actions with
  | [] => inr all
  | a :: rest =>
    match hint with
    | Some h =>
      if eq_ignore_ascii_case (tool_encode (nd_name d) (nad_action_id a)) h || eq_ignore_ascii_case (nad_action_id a) h
      then inl (mkResolved b (nad_action_id a))
      else skill_scan hint b d rest all
    | None => skill_scan hint b d rest (all ++ [mkResolved b (nad_action_id a)])
    end
  end.

Fixpoint skill_backends (hint : option string) (bs : list (NwpBackend W)) (all : list (ResolvedTool (W := W)))
    : Dispatch (option (ResolvedTool (W := W))) :=
  match bs with
  | [] => call_ret (match hint, all with None, [r] => Some r | _, _ => None end)
  | b :: bs =>
    d <- await (nb_descriptor b) ;;
    if negb (is_invokable d) then skill_backends hint bs all
    else
      actions <- await (nb_actions b) ;;
      match skill_scan hint b d actions all with
      | inl r => call_ret (Some r)
      | inr all => skill_backends hint bs all
      end
  end.

Definition resolve_skill (params : Map) : Dispatch (option (ResolvedTool (W := W))) :=
  skill_backends (find_skill_hint params) (bo_backends options) [].

(** ** The arguments of a task *)

Definition params_or_arguments (v : Value) : option Value :=
  x ← first_of (vget "params" v) (vget "arguments" v); if is_null x then None else Some x.

Definition typed_data (p : Value) : option Value :=
  if bool_decide (vget "type" p ≫= as_str = Some "data")
  then d ← vget "data" p; if is_null d then None else Some d
  else None.
Definition typed_text (p : Value) : option Value :=
  if bool_decide (vget "type" p ≫= as_str = Some "text")
  then t ← vget "text" p ≫= as_str; Some (VObject [("text", VString t)])
  else None.

Definition extract_arguments (params : Map) : option Value :=
  first_of (map_get "metadata" params ≫= params_or_arguments)
    (msg ← map_get "message" params;
     first_of (vget "metadata" msg ≫= params_or_arguments)
       (parts ← parts_of msg;
        first_of (first_some (fun p => vget "data" p ≫= params_or_arguments) parts)
          (first_of (first_some typed_data parts) (first_some typed_text parts)))).

(** ** The answer *)

Definition to_task (task_id : string) (session_id message : Value) (r : NwpResult) : Value :=
  let ok := nr_ok r in
  let payload := if ok then default VNull (nr_payload r) else failure_payload r in
  VObject
    [("artifacts", VArray [VObject [("index", vnat 0); ("name", VString (if ok then "nps-result" else "nps-error"));
                                    ("parts", VArray [VObject [("data", payload); ("type", VString "data")]])]]);
     ("history", VArray [message]);
     ("id", VString task_id);
     ("sessionId", session_id);
     ("status", VObject
       [("message", if ok then VNull
                    else VObject [("parts", text_content (detail r)); ("role", VString "agent")]);
        ("state", VString (if ok then "completed" else "failed"));
        ("timestamp", VString now_iso)])].

Definition project_task (id : Value) (task_id : string) (session_id message : Value) (r : NwpResult)
    : BridgeJsonRpcResponse :=
  let status := status_of r in
  if negb (nr_ok r) && must_be_protocol_error status
  then rpc_err id (to_json_rpc status false) (detail r)
         (Some (VObject [("error", opt_value (nr_nwp_error r)); ("status", VString status)]))
  else rpc_ok id (to_task task_id session_id message r).

Definition tasks_send (id : Value) (params : Map) : Dispatch BridgeJsonRpcResponse :=
  let task_id := trim (default "" (map_get "id" params ≫= as_str)) in
  if is_empty task_id
  then call_ret (rpc_err id JSONRPC_INVALID_PARAMS "A2A tasks/send params.id is required." None)
  else
    let session_id := default VNull (map_get "sessionId" params) in
    let message := default VNull (map_get "message" params) in
    resolved <- resolve_skill params ;;
    match resolved with
    | None =>
      call_ret (rpc_err id JSONRPC_INVALID_PARAMS
        "A2A task metadata must identify an exposed NPS action when more than one is available."
        (Some (VObject [("error", VString BRIDGE_SERVER_TOOL_NOT_FOUND)])))
    | Some t =>
      r <- await (nb_invoke (rt_backend t) (rt_action_id t) (extract_arguments params) false) ;;
      call_ret (project_task id task_id session_id message r)
    end.

Definition a2a_dispatch (req : BridgeJsonRpcRequest) : Dispatch BridgeJsonRpcResponse :=
  let id := rpc_id req in
  if negb (serves_inbound options "a2a") then call_ret (not_declared options id "a2a")
  else if negb (String.eqb (rpc_method req) "tasks/send")
  then call_ret (rpc_err id JSONRPC_METHOD_NOT_FOUND
         ("A2A method '" +:+ rpc_method req +:+ "' is not supported by this Bridge Node.")
         (Some (VObject [("error", VString BRIDGE_DIRECTION_UNSUPPORTED)])))
  else match rpc_params req ≫= as_object with
       | None => call_ret (rpc_err id JSONRPC_INVALID_PARAMS "A2A tasks/send requires a params object." None)
       | Some params => tasks_send id params
       end.
End a2a.

(** ** The gRPC bridge *)

Local Open Scope Z_scope.

Record UpstreamContext : Type := mkUpstreamContext {
  uc_upstream : string; uc_agent_nid : string; uc_idempotency_key : string; uc_traceparent : string }.
Definition for_upstream (name : string) : UpstreamContext := mkUpstreamContext name "" "" "".

Record ManifestResponse : Type := mkManifestResponse { mr_nwm_json : list Z; mr_node_type : string }.
Record InvokeResponse : Type := mkInvokeResponse { ir_http_status : Z; ir_body_json : list Z; ir_task_id : string }.
Record QueryResponse : Type := mkQueryResponse { qy_http_status : Z; qy_body_json : list Z }.

Record GrpcStatusError : Type := mkGrpcError { ge_code : GrpcStatusCode; ge_message : string }.

Definition error_from_result (r : NwpResult) : GrpcStatusError :=
  let status := status_of r in
  mkGrpcError (to_grpc_status status)
    (status +:+ " " +:+ default "" (nr_nwp_error r) +:+ ": " +:+ default "" (nr_message r)).

Section grpc.
Context {D : Digests} {P : JsonParser} {W : Type}.
Context (options : BridgeInboundOptions W).
Abbreviation Rpc := (Call (E := GrpcStatusError) (S := W)).
Local Open Scope call_scope.

Definition ask {A} (f : W -> A * W) : Rpc A := fun w => let '(a, w) := f w in Some (Ok a, w).

Definition direction_gate : Rpc unit :=
  if serves_inbound options "grpc" then call_ret tt
  else call_fail (mkGrpcError Unimplemented
         ("NPS-SERVER-UNSUPPORTED " +:+ BRIDGE_DIRECTION_UNSUPPORTED +:+ ": this Bridge Node does not declare "
          +:+ dq "grpc" +:+ " in bridge_inbound_protocols.")).

Fixpoint find_upstream (ctx : UpstreamContext) (bs : list (NwpBackend W)) : Rpc (NwpBackend W) :=
  match bs with
  | [] => call_fail (mkGrpcError GNotFound
            ("NPS-CLIENT-NOT-FOUND " +:+ BRIDGE_SERVER_TOOL_NOT_FOUND +:+ ": no NWP node named '" +:+ uc_upstream ctx
             +:+ "' is fronted by this Bridge Node."))
  | b :: bs =>
    d <- ask (nb_descriptor b) ;;
    if eq_ignore_ascii_case (nd_name d) (trim (uc_upstream ctx)) then call_ret b else find_upstream ctx bs
  end.

Definition resolve_backend (ctx : UpstreamContext) : Rpc (NwpBackend W) :=
  match is_empty (trim (uc_upstream ctx)), bo_backends options with
  | true, [b] => call_ret b
  | _, bs => find_upstream ctx bs
  end.

Definition require_ok (r : NwpResult) : Rpc Value :=
  if nr_ok r then call_ret (default VNull (nr_payload r)) else call_fail (error_from_result r).

Definition get_manifest (ctx : UpstreamContext) : Rpc ManifestResponse :=
  direction_gate ;;
  b <- resolve_backend ctx ;;
  d <- ask (nb_descriptor b) ;;
  r <- ask (nb_manifest b) ;;
  payload <- require_ok r ;;
  call_ret (mkManifestResponse (to_vec payload) (role_wire (nd_role d))).

(** [serde_json::from_slice(..).ok()]: bytes that are no UTF-8 are no JSON. *)
Definition from_slice (bytes : list Z) : option Value := parsed (of_bytes bytes).

Definition grpc_invoke (ctx : UpstreamContext) (action_id : string) (params_json : list Z) : Rpc InvokeResponse :=
  direction_gate ;;
  (if is_empty (trim action_id) then call_fail (mkGrpcError InvalidArgument "action_id is required") else call_ret tt) ;;
  b <- resolve_backend ctx ;;
  let params := match params_json with [] => None | _ => from_slice params_json end in
  r <- ask (nb_invoke b action_id params false) ;;
  payload <- require_ok r ;;
  call_ret (mkInvokeResponse 200 (to_vec payload) (default "" (vget "task_id" payload ≫= as_str))).

Definition grpc_query (ctx : UpstreamContext) (query_json : list Z) : Rpc QueryResponse :=
  direction_gate ;;
  b <- resolve_backend ctx ;;
  let query := match query_json with [] => VObject [] | _ => default (VObject []) (from_slice query_json) end in
  r <- ask (nb_query b query) ;;
  payload <- require_ok r ;;
  call_ret (mkQueryResponse 200 (to_vec payload)).

Definition list_actions (ctx : UpstreamContext) : Rpc (list Z) :=
  direction_gate ;;
  b <- resolve_backend ctx ;;
  actions <- ask (nb_actions b) ;;
  let entries := map (fun a => (nad_action_id a, VObject [("description", opt_value (nad_description a))])) actions in
  call_ret (to_vec (VObject [("actions", VObject (map_collect entries))])).
End grpc.

(** ** The HTTP host *)

Local Open Scope Z_scope.

(** A request may be bound to its connection by the verifier. *)
Definition BridgeVerifier : Type := string -> NodeRequest -> bool.

Record BridgeServerOptions : Type := mkServerOptions {
  bs_path_prefix : string;
  bs_mcp_path : string;
  bs_a2a_path : string;
  bs_a2a_agent_card_path : string;
  bs_require_auth : bool;
  bs_verifier : option BridgeVerifier;
  bs_max_request_body_bytes : Z;
  bs_dispatch_timeout_ms : Z
}.

Definition server_options_default : BridgeServerOptions :=
  mkServerOptions "" "/mcp" "/a2a" "/.well-known/agent.json" true None (1024 * 1024) 30000.

(** ** Agent identifiers *)

Definition domain_char (c : Z) : bool := is_ascii_digit c || is_ascii_alphabetic c || (c =? 46) || (c =? 45).
Definition agent_identifier_char (c : Z) : bool :=
  is_ascii_digit c || is_ascii_alphabetic c || existsb (Z.eqb c) (bytes_of "._~:@/-").

Definition is_valid_agent_nid (nid : string) : bool :=
  if (512 <? String.length nid)%nat then false
  else match strip_prefix "urn:nps:agent:" nid with
       | None => false
       | Some rest =>
         match split_once ":" rest with
         | None => false
         | Some (domain, identifier) =>
           if is_empty domain || is_empty identifier then false
           else forallb domain_char (chars domain) && forallb agent_identifier_char (chars identifier)
         end
       end.

(** ** Responses *)

Section server.
Context {D : Digests} `{UnicodeTables} `{BridgeSerde} {W : Type}.

Definition json_response (status : Z) (body : Value) : NodeResponse :=
  mkNodeResponse status [("content-type", "application/json")] (to_vec body).
Definition rpc_http (status : Z) (r : BridgeJsonRpcResponse) : NodeResponse :=
  json_response status (rpc_response_to_value r).

Definition bridge_unauthorized : NodeResponse :=
  rpc_http 401 (rpc_err VNull JSONRPC_INVALID_REQUEST "A valid X-NWP-Agent NID is required." None).
Definition sanitized_server_error : NodeResponse :=
  rpc_http 500 (rpc_err VNull JSONRPC_INTERNAL_ERROR "Bridge server request failed." None).

(** ** The application *)

Record BridgeInboundApp : Type := mkBridgeApp {
  bp_mcp : BridgeInboundOptions W;
  bp_a2a : BridgeInboundOptions W;
  bp_host : BridgeServerOptions;
  bp_prefix : string
}.

Definition bridge_app_new (inbound : BridgeInboundOptions W) (host : BridgeServerOptions) : BridgeInboundApp :=
  mkBridgeApp inbound inbound host (trim_end_matches_slash (bs_path_prefix host)).

Definition auth_gate (app : BridgeInboundApp) (req : NodeRequest) : option NodeResponse :=
  if negb (bs_require_auth (bp_host app)) then None
  else
    let nid := trim (default "" (rq_header req "X-NWP-Agent")) in
    if is_empty nid || negb (is_valid_agent_nid nid) then Some bridge_unauthorized
    else match bs_verifier (bp_host app) with
         | Some v => if v nid req then None else Some bridge_unauthorized
         | None => Some bridge_unauthorized
         end.

Definition body_limit (app : BridgeInboundApp) (req : NodeRequest) : option NodeResponse :=
  let cap := bs_max_request_body_bytes (bp_host app) in
  if cap =? 0 then None
  else
    let declared := default 0 (rq_header req "content-length" ≫= parse_u64) in
    if (cap <? declared) || (cap <? Z.of_nat (length (nr_body req)))
    then Some (rpc_http 413 (rpc_err VNull JSONRPC_INVALID_REQUEST "Request body exceeds the configured limit." None))
    else None.

(** What the host's environment decides: the clock and the deadline. *)
Record BridgeReadings : Type := mkBridgeReadings { br_now_iso : string; br_deadline : option (nat * bool) }.

(** A handler that runs to its end, or is dropped at the deadline; [None] is
    a panic. *)
Definition run_dispatch {A} (deadline : option (nat * bool)) (m : Call (E := unit) (S := option (nat * bool) * W) A)
    (w : W) : option (option A * W) :=
  match m (deadline, w) with
  | Some (Ok a, (_, w)) => Some (Some a, w)
  | Some (Err _, (_, w)) => Some (None, w)
  | None => None
  end.

Definition timed_out (id : Value) : NodeResponse :=
  rpc_http 504 (rpc_err id JSONRPC_UPSTREAM_ERROR "Bridge dispatch timed out." None).

(** The requests of the two protocols, under the deadline when there is one. *)
Definition dispatch_rpc (app : BridgeInboundApp) (rd : BridgeReadings) (is_mcp : bool) (rpc : BridgeJsonRpcRequest) (w : W)
    : option (NodeResponse * W) :=
  let deadline := if 0 <? bs_dispatch_timeout_ms (bp_host app) then br_deadline rd else None in
  let m := if is_mcp then mcp_dispatch (bp_mcp app) rpc else a2a_dispatch (bp_a2a app) (br_now_iso rd) rpc in
  '(resp, w) ← run_dispatch deadline m w;
  Some (match resp with Some resp => rpc_http 200 resp | None => timed_out (rpc_id rpc) end, w).

Definition handle_rpc (app : BridgeInboundApp) (rd : BridgeReadings) (is_mcp : bool) (req : NodeRequest) (w : W)
    : option (NodeResponse * W) :=
  if negb (String.eqb (nr_method req) "POST") then Some (empty_response 405, w)
  else match auth_gate app req with
  | Some denied => Some (denied, w)
  | None =>
    match body_limit app req with
    | Some denied => Some (denied, w)
    | None =>
      match rpc_from_slice (nr_body req) with
      | Err e => Some (rpc_http 200 (rpc_err VNull JSONRPC_INVALID_PARAMS e None), w)
      | Ok rpc => dispatch_rpc app rd is_mcp rpc w
      end
    end
  end.

(** The card is built without a deadline. *)
Definition handle_card (app : BridgeInboundApp) (rd : BridgeReadings) (req : NodeRequest) (w : W)
    : option (NodeResponse * W) :=
  if negb (String.eqb (nr_method req) "GET") then Some (empty_response 405, w)
  else match auth_gate app req with
       | Some denied => Some (denied, w)
       | None =>
         '(card, w) ← run_dispatch None (build_agent_card (bp_a2a app) (bp_prefix app)) w;
         card ← card; Some (json_response 200 card, w)
       end.

Definition bridge_handle (app : BridgeInboundApp) (rd : BridgeReadings) (req : NodeRequest) (w : W)
    : option (NodeResponse * W) :=
  match strip_prefix (bp_prefix app) (nr_path req) with
  | None => Some (empty_response 404, w)
  | Some sub =>
    let host := bp_host app in
    if String.eqb sub (bs_a2a_agent_card_path host) then handle_card app rd req w
    else
      let is_mcp := String.eqb sub (bs_mcp_path host) || String.eqb sub (bs_mcp_path host +:+ "/sse") in
      let is_a2a := String.eqb sub (bs_a2a_path host) in
      if negb is_mcp && negb is_a2a then Some (empty_response 404, w)
      else handle_rpc app rd is_mcp req w
  end.
End server.
Arguments BridgeInboundApp : clear implicits.
