(* ===== verification/NwpBridgeSpec.v ===== *)
(** * NwpBridgeSpec: what the inbound bridges guarantee

    A tool that is advertised can be called under its name, and the call
    reaches the action it names; resolution agrees with a search over the
    actions of all nodes; nothing reaches a node but a request of an admitted
    agent; every answer is a well-formed JSON-RPC response; the tables of error
    codes are stable.  And where names collide, and what an in-process node is
    asked. *)

From S2P Require Import Prelude RustStr Floats Json CoreCache NcpFrames NipVerifier Calls NwpMemory NwpQuery NwpFrames NwpAnchor NwpBridge NwpBridgeMcp NwpBridgeServer.
Local Open Scope Z_scope.

(** ** Tool names are their own trim *)

(** What [String] guarantees. *)
Definition rust_str (s : string) : Prop := Forall is_char (chars s).

Lemma rust_str_checked s : forallb (fun c => (0 <=? c) && (c <? 1114112)) (chars s) = true -> rust_str s.
Proof.
  intros E. unfold rust_str. apply Forall_forall. intros c Hc. rewrite forallb_forall in E.
  apply list_elem_of_In, E in Hc. unfold is_char. lia.
Qed.

(** White space is neither alphabetic nor numeric. *)
Class UnicodeLaws `{UnicodeTables} : Prop := {
  space_not_alphanumeric c : is_whitespace c = true -> is_alphanumeric c = false
}.

Lemma of_chars_app a b : of_chars (a ++ b) = of_chars a +:+ of_chars b.
Proof. unfold of_chars. by rewrite map_app, concat_app, of_bytes_app. Qed.

Lemma drop_while_Forall {A} (P : A -> Prop) (p : A -> bool) l : Forall P l -> Forall P (drop_while p l).
Proof. induction 1 as [|x l Hx Hl IH]; cbn; [constructor|]. destruct (p x); [done|by constructor]. Qed.

Lemma rust_str_trim s : rust_str s -> rust_str (trim s).
Proof.
  intros Hs. unfold rust_str, trim. rewrite chars_of_chars; apply Forall_rev, drop_while_Forall, Forall_rev, drop_while_Forall, Hs.
Qed.

Section names.
Context `{UnicodeLaws}.

(** The characters of a name. *)
Definition name_char (c : Z) : Prop := is_char c /\ is_whitespace c = false.

Lemma tool_char_name c : is_char c -> name_char (tool_char c).
Proof.
  intros Hc. unfold tool_char, name_char. case_match eqn:E; [|by split].
  split; [done|]. destruct (is_whitespace c) eqn:W; [|done].
  rewrite (space_not_alphanumeric c W) in E. cbn in E.
  repeat (apply orb_true_iff in E as [E|E]); try done; apply Z.eqb_eq in E; by subst c.
Qed.

Lemma sanitize_chars s : rust_str s ->
  exists l, sanitize s = of_chars l /\ l <> [] /\ Forall name_char l.
Proof.
  intros Hs. unfold sanitize.
  set (l := trim_underscores (map tool_char (chars (trim s)))).
  assert (Hl : Forall name_char l).
  { unfold l, trim_underscores. apply Forall_rev, drop_while_Forall, Forall_rev, drop_while_Forall, Forall_map.
    eapply Forall_impl; [exact (rust_str_trim s Hs)|]. intros c Hc. by apply tool_char_name. }
  destruct (is_empty (of_chars l)) eqn:E.
  - exists [110; 111; 100; 101]. repeat split; [done|]. by repeat constructor.
  - exists l. split; [done|]. split; [|done]. by intros ->.
Qed.

Definition dot_char (c : Z) : Z := if c =? 46 then 95 else c.

Lemma dots_app a b : dots_to_underscores (a +:+ b) = dots_to_underscores a +:+ dots_to_underscores b.
Proof.
  induction a as [|x a IH]; [done|].
  change (String.String x a +:+ b) with (String.String x (a +:+ b)). cbn [dots_to_underscores]. by rewrite IH.
Qed.

Lemma dots_high l : Forall (fun b => 128 <= b < 256) l -> dots_to_underscores (of_bytes l) = of_bytes l.
Proof.
  induction 1 as [|b l Hb _ IH]; [done|]. cbn. rewrite IH. destruct (Ascii.eqb_spec (ascii_of b) "."); [|done].
  assert (Eb : byte_of (ascii_of b) = b)
    by (unfold byte_of, ascii_of; rewrite N_ascii_embedding by lia; lia).
  rewrite e in Eb. vm_compute in Eb. lia.
Qed.

Lemma dots_char c : is_char c -> dots_to_underscores (of_bytes (encode_char c)) = of_bytes (encode_char (dot_char c)).
Proof.
  intros Hc. unfold is_char in Hc. unfold dot_char. destruct (Z.eqb_spec c 46) as [->|Hd]; [done|].
  unfold encode_char at 1 2. destruct (c <? 128) eqn:E.
  - cbn. destruct (Ascii.eqb_spec (ascii_of c) "."); [|done].
    assert (Eb : byte_of (ascii_of c) = c)
      by (unfold byte_of, ascii_of; rewrite N_ascii_embedding by lia; lia).
    rewrite e in Eb. vm_compute in Eb. lia.
  - apply dots_high. repeat case_match; repeat constructor; Z.div_mod_to_equations; lia.
Qed.

Lemma dots_of_chars l : Forall is_char l -> dots_to_underscores (of_chars l) = of_chars (map dot_char l).
Proof.
  induction 1 as [|c l Hc _ IH]; [done|]. change (c :: l) with ([c] ++ l). rewrite map_app, !of_chars_app, dots_app, IH.
  f_equal. unfold of_chars. cbn. rewrite !app_nil_r. by apply dots_char.
Qed.

Lemma dot_char_name c : name_char c -> name_char (dot_char c).
Proof. unfold dot_char. by destruct (Z.eqb_spec c 46) as [->|]. Qed.

Lemma segment_chars s : rust_str s ->
  exists l, encode_action_segment s = of_chars l /\ l <> [] /\ Forall name_char l.
Proof.
  intros Hs. destruct (sanitize_chars s Hs) as (l & E & Hn & Hl). exists (map dot_char l).
  unfold encode_action_segment. rewrite E. split; [|split].
  - apply dots_of_chars. eapply Forall_impl; [exact Hl|]. by intros c [].
  - by destruct l.
  - apply Forall_map. eapply Forall_impl; [exact Hl|]. apply dot_char_name.
Qed.

Lemma name_chars_trim l : l <> [] -> Forall name_char l -> trim (of_chars l) = of_chars l.
Proof.
  intros Hn Hl. destruct l as [|c m]; [done|]. destruct (last (c :: m)) as [d|] eqn:Ed; [|by apply last_None in Ed].
  apply (trim_id _ c d m); [|done|..]; try done.
  - eapply Forall_impl; [exact Hl|]. by intros x [].
  - by apply Forall_inv in Hl as [].
  - apply last_Some in Ed as (l' & Ed). rewrite Ed in Hl. apply Forall_app in Hl as [_ Hl]. by apply Forall_inv in Hl as [].
Qed.

Lemma tool_encode_chars node action : rust_str node -> rust_str action ->
  exists l, tool_encode node action = of_chars l /\ l <> [] /\ Forall name_char l.
Proof.
  intros Hn Ha. destruct (sanitize_chars node Hn) as (l & El & Nl & Fl). destruct (segment_chars action Ha) as (k & Ek & Nk & Fk).
  exists (l ++ [95; 95] ++ k). unfold tool_encode. rewrite El, Ek, !of_chars_app. split; [done|]. split; [by destruct l|].
  apply Forall_app. split; [done|]. by repeat constructor.
Qed.

(** A qualified name passes unchanged through the trimming of a parameter. *)
Lemma tool_encode_trim node action : rust_str node -> rust_str action ->
  trim (tool_encode node action) = tool_encode node action /\ is_empty (tool_encode node action) = false.
Proof.
  intros Hn Ha. destruct (tool_encode_chars node action Hn Ha) as (l & -> & Nl & Fl).
  split; [by apply name_chars_trim|]. destruct l as [|c l]; [done|]. apply (of_chars_nonempty _ c). by left.
Qed.
End names.

(** ** Nodes that present themselves the same at every call *)

Section resolution.
Context {D : Digests} `{UnicodeLaws} {W : Type}.

Record Node : Type := mkNode {
  n_backend : NwpBackend W; n_descriptor : NwpNodeDescriptor; n_actions : list NwpActionDescriptor }.

Definition presents (n : Node) : Prop :=
  (forall w, fst (nb_descriptor (n_backend n) w) = n_descriptor n) /\
  (forall w, fst (nb_actions (n_backend n) w) = n_actions n).

(** An action with the node that exposes it. *)
Record Exposed : Type := mkExposed { x_node : Node; x_action : NwpActionDescriptor }.
Definition x_name (x : Exposed) : string := tool_encode (nd_name (n_descriptor (x_node x))) (nad_action_id (x_action x)).
Definition x_resolved (x : Exposed) : ResolvedTool := mkResolved (n_backend (x_node x)) (nad_action_id (x_action x)).

Definition exposed_by (n : Node) : list Exposed :=
  if is_invokable (n_descriptor n) then map (mkExposed n) (n_actions n) else [].
Definition exposed (nodes : list Node) : list Exposed := concat (map exposed_by nodes).

(** The reference: a qualified name wins, then a single bare name. *)
Definition resolve_ref (tool : string) (l : list Exposed) : result (list string) (option ResolvedTool) :=
  match find (fun x => eq_ignore_ascii_case (x_name x) tool) l with
  | Some x => Ok (Some (x_resolved x))
  | None =>
    match List.filter (fun x => bare_match tool (nad_action_id (x_action x))) l with
    | [] => Ok None
    | [x] => Ok (Some (x_resolved x))
    | several => Err (map x_name several)
    end
  end.

Definition candidate (x : Exposed) : NwpBackend W * string * string :=
  (n_backend (x_node x), nad_action_id (x_action x), x_name x).

Lemma scan_actions_spec tool n acts unq :
  scan_actions tool (n_backend n) (n_descriptor n) acts unq =
  match find (fun x => eq_ignore_ascii_case (x_name x) tool) (map (mkExposed n) acts) with
  | Some x => inl (x_resolved x)
  | None => inr (unq ++ map candidate
                   (List.filter (fun x => bare_match tool (nad_action_id (x_action x))) (map (mkExposed n) acts)))
  end.
Proof.
  revert unq. induction acts as [|a acts IH]; intros unq; cbn; [by rewrite app_nil_r|].
  unfold x_name at 1. cbn. destruct (eq_ignore_ascii_case _ tool); [done|]. rewrite IH. destruct (find _ _); [done|].
  destruct (bare_match tool (nad_action_id a)); [|done]. cbn. by rewrite <- app_assoc.
Qed.

Lemma await_free {A} (f : W -> A * W) w : await f (None, w) = Some (Ok (fst (f w)), (None, snd (f w))).
Proof. unfold await. cbn. by destruct (f w). Qed.

Lemma find_app {A} (p : A -> bool) l k : find p (l ++ k) = match find p l with Some x => Some x | None => find p k end.
Proof. induction l as [|x l IH]; cbn; [done|]. by destruct (p x). Qed.

Lemma scan_backends_spec tool nodes unq w : Forall presents nodes ->
  exists w', scan_backends tool (map n_backend nodes) unq (None, w) =
    Some (Ok (match find (fun x => eq_ignore_ascii_case (x_name x) tool) (exposed nodes) with
              | Some x => inl (x_resolved x)
              | None => inr (unq ++ map candidate
                               (List.filter (fun x => bare_match tool (nad_action_id (x_action x))) (exposed nodes)))
              end), (None, w')).
Proof.
  intros Hp. revert unq w. induction Hp as [|n nodes [Hd Ha] _ IH]; intros unq w.
  { exists w. cbn. by rewrite app_nil_r. }
  unfold exposed. cbn -[await call_bind]. fold (exposed nodes). unfold call_bind. rewrite await_free, Hd. unfold exposed_by at 1 2.
  destruct (is_invokable (n_descriptor n)); cbn -[await]; [|apply IH].
  rewrite await_free, Ha, scan_actions_spec, find_app, List.filter_app.
  destruct (find _ (map (mkExposed n) (n_actions n))) as [x|]; cbn; [eauto|].
  destruct (IH (unq ++ map candidate (List.filter (fun x => bare_match tool (nad_action_id (x_action x)))
                                        (map (mkExposed n) (n_actions n)))) (snd (nb_actions (n_backend n) (snd (nb_descriptor (n_backend n) w)))))
    as (w' & E).
  exists w'. rewrite E. by rewrite map_app, app_assoc.
Qed.

(** A bridge over nodes. *)
Definition bridges (options : BridgeInboundOptions W) (nodes : list Node) : Prop :=
  bo_backends options = map n_backend nodes /\ Forall presents nodes /\ serves_inbound options "mcp" = true.

(** The resolution of a name is the reference on the actions of all nodes. *)
Lemma resolve_tool_spec options nodes tool w : bridges options nodes ->
  exists w', resolve_tool options tool (None, w) = Some (Ok (resolve_ref tool (exposed nodes)), (None, w')).
Proof.
  intros (Eb & Hp & _). unfold resolve_tool. rewrite Eb.
  destruct (scan_backends_spec tool nodes [] w Hp) as (w' & E). exists w'. unfold call_bind. rewrite E. cbn.
  do 3 f_equal. unfold resolve_ref. destruct (find _ _); [done|]. cbn.
  destruct (List.filter _ _) as [|x [|y l]]; [done..|]. cbn. by rewrite map_map.
Qed.

Lemma list_tools_spec options nodes w : bridges options nodes ->
  exists w', list_tools options (None, w) =
    Some (Ok (map (fun x => tool_entry (n_descriptor (x_node x)) (x_action x)) (exposed nodes)), (None, w')).
Proof.
  intros (Eb & Hp & _). unfold list_tools. rewrite Eb. clear Eb. revert w.
  induction Hp as [|n nodes [Hd Ha] _ IH]; intros w; [by exists w|].
  unfold exposed. cbn -[await call_bind]. fold (exposed nodes). unfold call_bind. rewrite await_free, Hd. unfold exposed_by.
  destruct (is_invokable (n_descriptor n)); cbn -[await].
  - rewrite await_free, Ha. cbn.
    destruct (IH (snd (nb_actions (n_backend n) (snd (nb_descriptor (n_backend n) w))))) as (w' & E).
    exists w'. rewrite E. cbn. by rewrite map_app, map_map.
  - destruct (IH (snd (nb_descriptor (n_backend n) w))) as (w' & E). exists w'. by rewrite E.
Qed.

Lemma lowercase_refl s : eq_ignore_ascii_case s s = true.
Proof. apply String.eqb_refl. Qed.

(** Distinct names, whatever their case, are found. *)
Lemma find_named (l : list Exposed) x : NoDup (map (fun y => to_ascii_lowercase (x_name y)) l) -> In x l ->
  find (fun y => eq_ignore_ascii_case (x_name y) (x_name x)) l = Some x.
Proof.
  induction l as [|y l IH]; [done|]. cbn. intros [Hy Hl]%NoDup_cons [->|Hx]; [by rewrite lowercase_refl|].
  destruct (eq_ignore_ascii_case (x_name y) (x_name x)) eqn:E; [|auto].
  apply String.eqb_eq in E. destruct Hy. rewrite E. apply list_elem_of_In, in_map_iff. by exists x.
Qed.

Definition call_request (id args : Value) (name : string) : BridgeJsonRpcRequest :=
  rpc_request_new id "tools/call" (Some (VObject [("arguments", args); ("name", VString name)])).

Lemma tools_call_resolved options nodes id args name x w :
  bridges options nodes -> trim name = name -> is_empty name = false ->
  resolve_ref name (exposed nodes) = Ok (Some x) ->
  exists w1, mcp_dispatch options (call_request id args name) (None, w) =
    Some (Ok (project_tool_result id (fst (nb_invoke (rt_backend x) (rt_action_id x) (Some args) false w1))),
          (None, snd (nb_invoke (rt_backend x) (rt_action_id x) (Some args) false w1))).
Proof.
  intros Hb Ht Hn Hr. destruct (resolve_tool_spec options nodes name w Hb) as (w1 & E). exists w1.
  destruct Hb as (_ & _ & Hs). unfold mcp_dispatch. rewrite Hs. cbn -[tools_call].
  unfold tools_call, param_str. cbn -[trim resolve_tool await call_bind]. rewrite Ht, Hn. unfold call_bind.
  rewrite E, Hr. cbn -[await]. rewrite await_free. done.
Qed.

(** C11: Every tool a bridge lists can be called under the name it is listed
    with: the call invokes, with the arguments given, an action some node
    exposes under that name, and the answer is the projection of its result;
    when no two exposed actions share a name it is the very action listed. *)
Theorem advertised_tool_called options nodes id w :
  bridges options nodes ->
  (forall x, In x (exposed nodes) ->
     rust_str (nd_name (n_descriptor (x_node x))) /\ rust_str (nad_action_id (x_action x))) ->
  (exists w1, mcp_dispatch options (rpc_request_new id "tools/list" None) (None, w) =
     Some (Ok (rpc_ok id (VObject [("tools", VArray (map (fun x => tool_entry (n_descriptor (x_node x)) (x_action x))
                                                       (exposed nodes)))])), (None, w1))) /\
  forall x args, In x (exposed nodes) ->
    exists y w1, In y (exposed nodes) /\ eq_ignore_ascii_case (x_name y) (x_name x) = true /\
      mcp_dispatch options (call_request id args (x_name x)) (None, w) =
        (let out := nb_invoke (n_backend (x_node y)) (nad_action_id (x_action y)) (Some args) false w1 in
         Some (Ok (project_tool_result id (fst out)), (None, snd out))) /\
      (NoDup (map (fun y => to_ascii_lowercase (x_name y)) (exposed nodes)) -> y = x).
Proof.
  intros Hb Hs. split.
  - destruct (list_tools_spec options nodes w Hb) as (w1 & E). exists w1. destruct Hb as (_ & _ & Hi).
    unfold mcp_dispatch. rewrite Hi. cbn. unfold call_bind. by rewrite E.
  - intros x args Hx. destruct (Hs x Hx) as [Sn Sa]. destruct (tool_encode_trim _ _ Sn Sa) as [Ht Hn].
    destruct (find (fun y => eq_ignore_ascii_case (x_name y) (x_name x)) (exposed nodes)) as [y|] eqn:Ef.
    + destruct (tools_call_resolved options nodes id args (x_name x) (x_resolved y) w Hb Ht Hn) as (w1 & E).
      { unfold resolve_ref. by rewrite Ef. }
      exists y, w1. apply find_some in Ef as Ey. destruct Ey as [Hy Ey]. repeat split; [done|done|exact E|].
      intros Hd. rewrite (find_named _ x Hd Hx) in Ef. congruence.
    + pose proof (find_none _ _ Ef x Hx) as C. cbn in C. by rewrite lowercase_refl in C.
Qed.
End resolution.

(** An action of a node that answers with its parameters. *)
Definition echo_node : Node (W := nat) :=
  let d := descriptor_new "Echo Node" Action in
  let acts := [action_descriptor_new "say.it"; action_descriptor_new "shout"] in
  mkNode (in_process (mkInProcess d acts (Some (fun f w => (Ok (default VNull (act_params f)), S w))) None)) d acts.
Definition echo_bridge : BridgeInboundOptions nat :=
  mkInboundOptions [n_backend echo_node] ["MCP"] [] "test" "1" 100 true.
Definition ascii_tables : UnicodeTables := {| uni_alphabetic := fun _ => false; uni_numeric := fun _ => false |}.
Lemma ascii_laws : @UnicodeLaws ascii_tables.
Proof.
  constructor. intros c Hw. unfold is_alphanumeric, is_ascii_alphabetic, is_ascii_digit. cbn.
  unfold is_whitespace in Hw. destruct (c <? 128) eqn:E; [|done]. lia.
Qed.
Lemma echo_bridges : bridges echo_bridge [echo_node].
Proof. split; [done|]. split; [|done]. by repeat constructor. Qed.

#[local] Existing Instance toy_digests.

Lemma advertised_tool_called_witness : exists y w1,
  mcp_dispatch (H := ascii_tables) echo_bridge (call_request (VString "7") (VString "hi") "Echo_Node__say_it") (None, O) =
    (let out := nb_invoke (n_backend (x_node y)) (nad_action_id (x_action y)) (Some (VString "hi")) false w1 in
     Some (Ok (project_tool_result (VString "7") (fst out)), (None, snd out))).
Proof.
  destruct (advertised_tool_called (H := ascii_tables) (H0 := ascii_laws) echo_bridge [echo_node] (VString "7") O echo_bridges)
    as [_ Hc].
  - intros x Hx. destruct Hx as [<-|[<-|[]]]; split; by apply rust_str_checked.
  - destruct (Hc (mkExposed echo_node (action_descriptor_new "say.it")) (VString "hi")) as (y & w1 & _ & _ & E & _); [by left|].
    exists y, w1. exact E.
Defined.

(** ** Every answer is a well-formed response *)

(** The codes a bridge may answer with: those of the error map and of the
    protocol.  -32002 is reserved and is not among them. *)
Definition bridge_codes : list Z := [-32600; -32601; -32602; -32603; -32000; -32001; -32003; -32004; -32005].

(** JSON-RPC 2.0: the identifier of the request and exactly one of a result and
    an error. *)
Definition answers (id : Value) (r : BridgeJsonRpcResponse) : Prop :=
  rr_jsonrpc r = "2.0" /\ rr_id r = id /\
  match rr_result r, rr_error r with
  | Some _, None => True
  | None, Some e => In (je_code e) bridge_codes
  | _, _ => False
  end.

(** The same, on the JSON that is sent. *)
Definition rpc_body (id v : Value) : Prop :=
  vget "jsonrpc" v = Some (VString "2.0") /\ vget "id" v = Some id /\
  ((exists res, vget "result" v = Some res) /\ vget "error" v = None \/
   vget "result" v = None /\ exists err code, vget "error" v = Some err /\ vget "code" err = Some (int_value code) /\ In code bridge_codes).

(** An error with this code. *)
Definition rpc_failed (code : Z) (v : Value) : Prop :=
  exists err, vget "error" v = Some err /\ vget "code" err = Some (int_value code).

Lemma answers_body id r : answers id r -> rpc_body id (rpc_response_to_value r).
Proof.
  destruct r as [v rid [res|] [[code message data]|]]; intros (Hv & Hid & Hr); cbn in Hv, Hid; try done; subst.
  - split; [done|]. split; [done|]. left. cbn. eauto.
  - split; [done|]. split; [done|]. right. split; [done|]. eexists _, code. split; [reflexivity|]. split; [by destruct data|done].
Qed.

Lemma answers_ok id v : answers id (rpc_ok id v).
Proof. done. Qed.
Lemma answers_refusal id code message data : In code bridge_codes -> answers id (rpc_err id code message data).
Proof. done. Qed.

Lemma to_json_rpc_bridge s b : In (to_json_rpc s b) bridge_codes.
Proof. unfold to_json_rpc. repeat case_match; cbn; tauto. Qed.

(** A handler that does not panic, whose results satisfy [P], and which ends
    where no deadline is set. *)
Definition yields {W A} (P : A -> Prop) (m : Call (E := unit) (S := option (nat * bool) * W) A) : Prop :=
  forall k w, exists out k' w', m (k, w) = Some (out, (k', w')) /\ (forall a, out = Ok a -> P a) /\
    (k = None -> k' = None /\ is_ok out = true).

Lemma yields_ret {W A} (P : A -> Prop) (a : A) : P a -> yields (W := W) P (call_ret a).
Proof. intros Ha k w. eexists _, _, _. split; [done|]. split; [by intros ? [= <-]|done]. Qed.

Lemma yields_bind {W A B} (Q : A -> Prop) (P : B -> Prop) (m : Call (S := option (nat * bool) * W) A) f :
  yields Q m -> (forall a, Q a -> yields P (f a)) -> yields P (call_bind m f).
Proof.
  intros Hm Hf k w. unfold call_bind. destruct (Hm k w) as (out & k' & w' & -> & Ho & Hk). destruct out as [a|e].
  - destruct (Hf a (Ho a eq_refl) k' w') as (out & k2 & w2 & -> & Ho2 & Hk2). eexists _, _, _. split; [done|]. split; [done|].
    intros Hn. apply Hk2, Hk, Hn.
  - eexists _, _, _. split; [done|]. split; [by intros ? [=]|]. intros Hn. by apply Hk in Hn as [_ ?].
Qed.

Lemma yields_await {W A} (f : W -> A * W) : yields (fun _ => True) (await f).
Proof.
  intros [[[|n] e]|] w; unfold await; cbn; [|destruct (f w)..]; eexists _, _, _; (split; [done|]; split; [done|]); done.
Qed.

Create HintDb answers.
#[export] Hint Resolve answers_ok to_json_rpc_bridge yields_await : answers.
#[export] Hint Extern 1 (answers _ (rpc_err _ _ _ _)) => (apply answers_refusal; first [apply to_json_rpc_bridge | cbn; tauto]) : answers.

(** Follow a handler through its binds. *)
Ltac follow :=
  repeat first
    [ apply yields_ret; by auto with answers
    | apply (yields_bind (fun _ => True)); [by auto with answers|intros ? _]
    | case_match ].

Section well_formed.
Context {D : Digests} `{UnicodeTables} {W : Type}.
Context (options : BridgeInboundOptions W).

Lemma scan_backends_yields tool (bs : list (NwpBackend W)) unq : yields (fun _ => True) (scan_backends tool bs unq).
Proof. revert unq. induction bs as [|b bs IH]; intros unq; cbn -[call_bind]; follow; auto with answers. Qed.
Lemma list_tools_yields (bs : list (NwpBackend W)) : yields (fun _ => True) (list_tools_of bs).
Proof.
  induction bs as [|b bs IH]; cbn -[call_bind]; [by apply yields_ret|].
  apply (yields_bind (fun _ => True)); [by auto with answers|intros d _].
  apply (yields_bind (fun _ => True)); [by follow|intros here _]. apply (yields_bind (fun _ => True)); [done|intros rest _].
  by follow.
Qed.
Lemma list_resources_yields (bs : list (NwpBackend W)) : yields (fun _ => True) (list_resources_of bs).
Proof.
  induction bs as [|b bs IH]; cbn -[call_bind]; [by apply yields_ret|].
  apply (yields_bind (fun _ => True)); [by auto with answers|intros d _]. apply (yields_bind (fun _ => True)); [done|intros rest _].
  by follow.
Qed.
Lemma find_queryable_yields host (bs : list (NwpBackend W)) : yields (fun _ => True) (find_queryable_of host bs).
Proof. induction bs as [|b bs IH]; cbn -[call_bind]; follow; auto with answers. Qed.
Lemma skill_backends_yields hint (bs : list (NwpBackend W)) all : yields (fun _ => True) (skill_backends hint bs all).
Proof. revert all. induction bs as [|b bs IH]; intros all; cbn -[call_bind]; follow; auto with answers. Qed.
#[local] Hint Resolve scan_backends_yields list_tools_yields list_resources_yields find_queryable_yields
  skill_backends_yields : answers.

Lemma project_tool_result_answers id r : answers id (project_tool_result id r).
Proof. unfold project_tool_result. repeat case_match; auto with answers. Qed.
Lemma project_read_answers id uri r : answers id (project_read id uri r).
Proof. unfold project_read. repeat case_match; auto with answers. Qed.
Lemma project_task_answers iso id task_id session message r : answers id (project_task iso id task_id session message r).
Proof. unfold project_task. repeat case_match; auto with answers. Qed.
#[local] Hint Resolve project_tool_result_answers project_read_answers project_task_answers : answers.

Lemma mcp_answers req : yields (answers (rpc_id req)) (mcp_dispatch options req).
Proof.
  unfold mcp_dispatch, list_tools, list_resources, tools_call, resources_read, find_queryable, resolve_tool, not_declared.
  destruct (serves_inbound options "mcp"); cbn [negb]; [|by follow].
  do 2 (case_match; [by follow|]). case_match; [by follow|]. case_match.
  { case_match; [by follow|].
    apply (yields_bind (fun _ => True)); [apply (yields_bind (fun _ => True)); [by auto with answers|intros out _; by apply yields_ret]|].
    intros out _. by follow. }
  case_match; [by follow|]. case_match; by follow.
Qed.

Lemma a2a_answers iso req : yields (answers (rpc_id req)) (a2a_dispatch options iso req).
Proof. unfold a2a_dispatch, tasks_send, resolve_skill, not_declared. by follow. Qed.

End well_formed.

(** *** The agent of a request *)

(** What a valid agent identifier is made of. *)
Lemma agent_nid_spec nid : is_valid_agent_nid nid = true <->
  exists domain identifier, nid = "urn:nps:agent:" +:+ domain +:+ ":" +:+ identifier /\ lacks ":" domain /\
    (String.length nid <= 512)%nat /\ is_empty domain = false /\ is_empty identifier = false /\
    forallb domain_char (chars domain) = true /\ forallb agent_identifier_char (chars identifier) = true.
Proof.
  unfold is_valid_agent_nid. split.
  - destruct (Nat.ltb_spec 512 (String.length nid)); [done|].
    destruct (strip_prefix "urn:nps:agent:" nid) as [rest|] eqn:Ep; [|done].
    destruct (split_once ":" rest) as [[domain identifier]|] eqn:Es; [|done].
    destruct (is_empty domain) eqn:Ed; [done|]. destruct (is_empty identifier) eqn:Ei; [done|]. cbn.
    intros [Hd Hi]%andb_true_iff. apply strip_prefix_spec in Ep. apply split_once_spec in Es as [Er Hl].
    exists domain, identifier. rewrite Ep, Er. repeat split; auto. by rewrite <- Er, <- Ep.
  - intros (domain & identifier & -> & Hl & Hlen & Ed & Ei & Hd & Hi). rewrite (proj2 (Nat.ltb_ge _ _) Hlen).
    rewrite (proj2 (strip_prefix_spec _ _ (domain +:+ ":" +:+ identifier)) eq_refl).
    change (":" +:+ identifier) with (String.String ":" identifier).
    rewrite (proj2 (split_once_spec _ _ domain identifier) (conj eq_refl Hl)), Ed, Ei, Hd, Hi. done.
Qed.

Section handled.
Context {D : Digests} `{UnicodeTables} `{BridgeSerde} {W : Type}.

(** The agent a request names, when the gate admits it. *)
Definition admitted (app : BridgeInboundApp W) (req : NodeRequest) : Prop :=
  exists v, bs_verifier (bp_host app) = Some v /\
    is_valid_agent_nid (trim (default "" (rq_header req "X-NWP-Agent"))) = true /\
    v (trim (default "" (rq_header req "X-NWP-Agent"))) req = true.

(** The gate refuses, always alike, exactly the requests that are not admitted
    where agents are authenticated. *)
Lemma auth_gate_spec (app : BridgeInboundApp W) req :
  match auth_gate app req with
  | None => bs_require_auth (bp_host app) = false \/ admitted app req
  | Some denied => bs_require_auth (bp_host app) = true /\ ~ admitted app req /\ denied = bridge_unauthorized
  end.
Proof.
  unfold auth_gate, admitted. generalize (trim (default "" (rq_header req "X-NWP-Agent"))). intros nid.
  destruct (bs_require_auth (bp_host app)); cbn; [|by left]. destruct (is_empty nid) eqn:En; cbn.
  { split; [done|]. split; [|done]. destruct nid; [|done]. intros (v & _ & Hv & _). done. }
  destruct (is_valid_agent_nid nid); cbn; [|split; [done|]; split; [by intros (v & _ & ? & _)|done]].
  destruct (bs_verifier (bp_host app)) as [v|]; [|split; [done|]; split; [by intros (v & ? & _)|done]].
  destruct (v nid req) eqn:Ev; [right; by exists v|]. split; [done|]. split; [|done].
  intros (v' & [= <-] & _ & Hv). congruence.
Qed.

Lemma auth_gate_admits (app : BridgeInboundApp W) req :
  bs_require_auth (bp_host app) = true -> auth_gate app req = None -> admitted app req.
Proof. intros Ha E. pose proof (auth_gate_spec app req) as Hs. rewrite E in Hs. by destruct Hs; [congruence|]. Qed.

(** What a request is for: the part of its path after the prefix. *)
Definition target (app : BridgeInboundApp W) (req : NodeRequest) : option string := strip_prefix (bp_prefix app) (nr_path req).
Definition for_card (app : BridgeInboundApp W) (req : NodeRequest) : Prop :=
  target app req = Some (bs_a2a_agent_card_path (bp_host app)).
Definition for_mcp (app : BridgeInboundApp W) (req : NodeRequest) : Prop :=
  exists sub, target app req = Some sub /\ sub <> bs_a2a_agent_card_path (bp_host app) /\
    (sub = bs_mcp_path (bp_host app) \/ sub = bs_mcp_path (bp_host app) +:+ "/sse").
Definition for_a2a (app : BridgeInboundApp W) (req : NodeRequest) : Prop :=
  target app req = Some (bs_a2a_path (bp_host app)) /\ bs_a2a_path (bp_host app) <> bs_a2a_agent_card_path (bp_host app) /\
  bs_a2a_path (bp_host app) <> bs_mcp_path (bp_host app) /\ bs_a2a_path (bp_host app) <> bs_mcp_path (bp_host app) +:+ "/sse".

(** Nothing is there; the method is wrong. *)
Definition unknown_path (app : BridgeInboundApp W) (req : NodeRequest) : Prop :=
  ~ for_card app req /\ ~ for_mcp app req /\ ~ for_a2a app req.
Definition wrong_method (app : BridgeInboundApp W) (req : NodeRequest) : Prop :=
  for_card app req /\ nr_method req <> "GET" \/ (for_mcp app req \/ for_a2a app req) /\ nr_method req <> "POST".

(** The body is longer than allowed, or declared to be. *)
Definition too_large (app : BridgeInboundApp W) (req : NodeRequest) : Prop :=
  let cap := bs_max_request_body_bytes (bp_host app) in
  cap <> 0 /\ (cap < Z.of_nat (length (nr_body req)) \/
              exists n, (rq_header req "content-length" ≫= parse_u64) = Some n /\ cap < n).

(** A skill of the card: an action of a node. *)
Definition skill_of (d : NwpNodeDescriptor) (a : NwpActionDescriptor) (v : Value) : Prop :=
  vget "id" v = Some (VString (tool_encode (nd_name d) (nad_action_id a))) /\
  vget "name" v = Some (VString (default (nad_action_id a) (nad_description a))) /\
  vget "description" v = Some (opt_value (nad_description a)) /\
  vget "tags" v = Some (match nad_tags a with Some tags => vstrings tags | None => VNull end).

(** The skills the nodes tell, asked in order: those of the actions of every
    node that can be invoked. *)
Inductive told : list (NwpBackend W) -> W -> list Value -> W -> Prop :=
| told_none w : told [] w [] w
| told_silent b bs w skills w' : is_invokable (fst (nb_descriptor b w)) = false ->
    told bs (snd (nb_descriptor b w)) skills w' -> told (b :: bs) w skills w'
| told_skills b bs w here skills w' : let w1 := snd (nb_descriptor b w) in
    is_invokable (fst (nb_descriptor b w)) = true ->
    Forall2 (skill_of (fst (nb_descriptor b w))) (fst (nb_actions b w1)) here ->
    told bs (snd (nb_actions b w1)) skills w' -> told (b :: bs) w (here ++ skills) w'.

(** The card of the bridge over them. *)
Definition card_of (app : BridgeInboundApp W) (skills : list Value) (card : Value) : Prop :=
  let o := bp_a2a app in
  vget "name" card = Some (VString (bo_server_name o)) /\ vget "version" card = Some (VString (bo_server_version o)) /\
  vget "url" card = Some (VString (bp_prefix app)) /\ vget "skills" card = Some (VArray skills) /\
  (vget "authentication" card = Some VNull <-> bo_require_auth o = false).

Lemma list_skills_told bs w : exists skills w', list_skills bs (None, w) = Some (Ok skills, (None, w')) /\ told bs w skills w'.
Proof.
  revert w. induction bs as [|b bs IH]; intros w; [exists [], w; split; [done|constructor]|].
  cbn -[await call_bind]. unfold call_bind. rewrite await_free.
  destruct (is_invokable (fst (nb_descriptor b w))) eqn:Ei; cbn -[await].
  - rewrite await_free. cbn. destruct (IH (snd (nb_actions b (snd (nb_descriptor b w))))) as (skills & w' & -> & Ht).
    eexists _, _. split; [done|]. apply told_skills; [done| |done]. apply Forall2_fmap_r, Forall_Forall2_diag, Forall_true.
    intros a. by repeat split.
  - destruct (IH (snd (nb_descriptor b w))) as (skills & w' & -> & Ht). eexists _, _. split; [done|]. by apply told_silent.
Qed.

Lemma agent_card_built (app : BridgeInboundApp W) w : exists card skills w',
  run_dispatch None (build_agent_card (bp_a2a app) (bp_prefix app)) w = Some (Some card, w') /\
  told (bo_backends (bp_a2a app)) w skills w' /\ card_of app skills card.
Proof.
  unfold run_dispatch, build_agent_card, call_bind. destruct (list_skills_told (bo_backends (bp_a2a app)) w) as (skills & w' & -> & Ht).
  cbn. eexists _, skills, w'. split; [done|]. split; [done|]. repeat split; cbn; by destruct (bo_require_auth (bp_a2a app)).
Qed.

Lemma yields_run {A} (P : A -> Prop) k (m : Call (S := option (nat * bool) * W) A) w : yields P m ->
  exists out w', run_dispatch k m w = Some (out, w') /\ (forall a, out = Some a -> P a) /\ (out = None -> k <> None).
Proof.
  intros Hm. unfold run_dispatch. destruct (Hm k w) as (out & k' & w' & -> & Ho & Hk).
  destruct out as [a|e]; eexists _, _; (split; [done|]); (split; [|]); try done; [intros ? [= <-]; auto|].
  intros _ Hn. by apply Hk in Hn as [_ ?].
Qed.

(** A request that may be served; one that is a call and whose body is read. *)
Definition allowed (app : BridgeInboundApp W) (req : NodeRequest) : Prop :=
  bs_require_auth (bp_host app) = false \/ admitted app req.
Definition call_allowed (app : BridgeInboundApp W) (req : NodeRequest) : Prop :=
  (for_mcp app req \/ for_a2a app req) /\ nr_method req = "POST" /\ allowed app req.
Definition call_read (app : BridgeInboundApp W) (req : NodeRequest) : Prop := call_allowed app req /\ ~ too_large app req.

(** What a bridge answers, by what is asked of it. *)
Inductive bridge_response (app : BridgeInboundApp W) (rd : BridgeReadings) (req : NodeRequest) (w w' : W) : NodeResponse -> Prop :=
| AnswerNotFound : unknown_path app req -> bridge_response app rd req w w' (empty_response 404)
| AnswerMethod : wrong_method app req -> bridge_response app rd req w w' (empty_response 405)
| AnswerDenied v : ~ unknown_path app req -> ~ wrong_method app req ->
    ~ allowed app req ->
    rpc_body VNull v -> rpc_failed JSONRPC_INVALID_REQUEST v -> bridge_response app rd req w w' (json_response 401 v)
| AnswerCard skills card : for_card app req -> nr_method req = "GET" -> allowed app req ->
    told (bo_backends (bp_a2a app)) w skills w' -> card_of app skills card ->
    bridge_response app rd req w w' (json_response 200 card)
| AnswerTooLarge v : call_allowed app req -> too_large app req ->
    rpc_body VNull v -> rpc_failed JSONRPC_INVALID_REQUEST v -> bridge_response app rd req w w' (json_response 413 v)
| AnswerUnreadable e v : call_read app req -> rpc_from_slice (nr_body req) = Err e ->
    rpc_body VNull v -> rpc_failed JSONRPC_INVALID_PARAMS v -> bridge_response app rd req w w' (json_response 200 v)
| AnswerRpc rpc v : call_read app req -> rpc_from_slice (nr_body req) = Ok rpc ->
    rpc_body (rpc_id rpc) v -> bridge_response app rd req w w' (json_response 200 v)
| AnswerTimeout rpc v : call_read app req -> rpc_from_slice (nr_body req) = Ok rpc ->
    0 < bs_dispatch_timeout_ms (bp_host app) -> br_deadline rd <> None ->
    rpc_body (rpc_id rpc) v -> rpc_failed JSONRPC_UPSTREAM_ERROR v -> bridge_response app rd req w w' (json_response 504 v).

Lemma dispatch_rpc_response (app : BridgeInboundApp W) rd is_mcp rpc req w :
  call_read app req -> rpc_from_slice (nr_body req) = Ok rpc ->
  exists resp w', dispatch_rpc app rd is_mcp rpc w = Some (resp, w') /\ bridge_response app rd req w w' resp.
Proof.
  intros Hread Hrpc. unfold dispatch_rpc.
  match goal with |- context [run_dispatch ?k ?m w] =>
    destruct (yields_run (answers (rpc_id rpc)) k m w) as (out & w' & E & Ho & Hn);
      [destruct is_mcp; [apply mcp_answers|apply a2a_answers]|]
  end.
  rewrite E. cbn. eexists _, _. split; [done|]. destruct out as [r|].
  - eapply AnswerRpc; eauto using answers_body.
  - specialize (Hn eq_refl). destruct (Z.ltb_spec 0 (bs_dispatch_timeout_ms (bp_host app))); [|done].
    eapply AnswerTimeout; eauto; [apply answers_body, answers_refusal; cbn; tauto|]. by eexists.
Qed.

Lemma body_limit_spec (app : BridgeInboundApp W) req :
  match body_limit app req with
  | None => ~ too_large app req
  | Some denied => too_large app req /\
      exists v, denied = json_response 413 v /\ rpc_body VNull v /\ rpc_failed JSONRPC_INVALID_REQUEST v
  end.
Proof.
  unfold body_limit, too_large. destruct (Z.eqb_spec (bs_max_request_body_bytes (bp_host app)) 0); [by intros [? _]|].
  destruct (_ || _) eqn:E.
  - split.
    + split; [done|]. apply orb_true_iff in E as [E|E]; [|left; lia].
      destruct (rq_header req "content-length" ≫= parse_u64) as [n'|]; cbn in E; [right; exists n'; split; [done|lia]|left; lia].
    + eexists. split; [reflexivity|]. split; [apply answers_body, answers_refusal; cbn; tauto|]. by eexists.
  - apply orb_false_iff in E as [E1 E2]. intros [_ [Hl|(n' & En & Hl)]]; [lia|]. rewrite En in E1. cbn in E1. lia.
Qed.

(** C19: whatever is sent, a bridge answers, and the answer is the one that is
    due: nothing (404) off its paths and (405) for another method than GET of
    the card and POST of a call; -32600 under 401 where agents are
    authenticated and the request is not from an admitted one, and under 413
    to a body over the limit; the agent card, with the skills the nodes tell;
    -32602 to a body that is not a JSON-RPC request; and to one that is, a
    JSON-RPC response that bears its identifier and exactly one of a result and
    an error of the error map, never the reserved code -32002, or, when the
    deadline of the bridge passes, -32000 under 504 with its identifier. *)
Theorem bridge_always_answers (app : BridgeInboundApp W) rd req w :
  exists resp w', bridge_handle app rd req w = Some (resp, w') /\ bridge_response app rd req w w' resp.
Proof.
  pose proof (auth_gate_spec app req) as Hgate.
  unfold bridge_handle. destruct (strip_prefix _ _) as [sub|] eqn:Esub.
  2:{ eexists _, _. split; [done|]. apply AnswerNotFound. unfold unknown_path, for_card, for_mcp, for_a2a, target. rewrite Esub.
      split_and!; naive_solver. }
  fold (target app req) in Esub.
  destruct (String.eqb_spec sub (bs_a2a_agent_card_path (bp_host app))) as [->|Hcard].
  - unfold handle_card. destruct (String.eqb_spec (nr_method req) "GET") as [Hget|Hget]; cbn.
    2:{ eexists _, _. split; [done|]. apply AnswerMethod. left. done. }
    destruct (auth_gate app req) as [denied|].
    + destruct Hgate as (Ha & Hn & ->). eexists _, _. split; [done|].
      apply AnswerDenied; [| |intros [?|?]; [congruence|done]|apply answers_body, answers_refusal; cbn; tauto|by eexists].
      * intros (Hx & _). by apply Hx.
      * intros [[_ Hx]|[[(sub & Hs & Hne & _)|(Hs & Hne & _)] _]]; unfold target in *; congruence.
    + destruct (agent_card_built app w) as (card & skills & w' & -> & Ht & Hc). cbn. eexists _, _. split; [done|].
      by eapply AnswerCard.
  - set (is_mcp := _ || _). destruct (negb is_mcp && negb _) eqn:Eno.
    + eexists _, _. split; [done|]. apply AnswerNotFound. apply andb_true_iff in Eno as [Hm Ha2]. subst is_mcp.
      rewrite negb_orb, andb_true_iff, !negb_true_iff, !String.eqb_neq in Hm. rewrite negb_true_iff, String.eqb_neq in Ha2.
      unfold unknown_path, for_card, for_mcp, for_a2a. rewrite Esub. split_and!; naive_solver.
    + assert (Hfor : for_mcp app req \/ for_a2a app req).
      { destruct is_mcp eqn:Em; subst is_mcp.
        - left. exists sub. split; [done|]. split; [done|]. apply orb_true_iff in Em as [Em|Em]; apply String.eqb_eq in Em; auto.
        - right. cbn in Eno. apply negb_false_iff, String.eqb_eq in Eno. apply orb_false_iff in Em as [Em1 Em2].
          apply String.eqb_neq in Em1, Em2. subst sub. done. }
      clear Eno. unfold handle_rpc. destruct (String.eqb_spec (nr_method req) "POST") as [Hpost|Hpost]; cbn.
      2:{ eexists _, _. split; [done|]. apply AnswerMethod. by right. }
      destruct (auth_gate app req) as [denied|].
      { destruct Hgate as (Ha & Hn & ->). eexists _, _. split; [done|].
        apply AnswerDenied; [| |intros [?|?]; [congruence|done]|apply answers_body, answers_refusal; cbn; tauto|by eexists].
        - intros (_ & Hx & Hy). tauto.
        - intros [[Hx _]|[_ Hx]]; [|done]. unfold for_card in Hx. congruence. }
      assert (Hcall : call_allowed app req) by done. pose proof (body_limit_spec app req) as Hlimit.
      destruct (body_limit app req) as [denied|].
      { destruct Hlimit as (Hl & v & -> & Hv & Hf). eexists _, _. split; [done|]. by eapply AnswerTooLarge. }
      assert (Hread : call_read app req) by done.
      destruct (rpc_from_slice (nr_body req)) as [rpc|e] eqn:Er; [by apply dispatch_rpc_response|].
      eexists _, _. split; [done|]. eapply AnswerUnreadable; eauto; [apply answers_body, answers_refusal; cbn; tauto|]. by eexists.
Qed.
End handled.

(** ** Who reaches a node *)

Section access.
Context {D : Digests} `{UnicodeTables} `{BridgeSerde} {W : Type}.

(** The methods that ask a node anything. *)
Definition asking_methods : list string := ["tools/list"; "tools/call"; "resources/list"; "resources/read"].

Lemma mcp_reaches (options : BridgeInboundOptions W) req k w out k' w' :
  mcp_dispatch options req (k, w) = Some (out, (k', w')) -> w' <> w ->
  serves_inbound options "mcp" = true /\ In (rpc_method req) asking_methods.
Proof.
  unfold mcp_dispatch. destruct (serves_inbound options "mcp"); cbn [negb]; [|by intros [= <- <- <-]].
  intros E Hw. split; [done|]. revert E.
  destruct (String.eqb_spec (rpc_method req) "initialize"); [by intros [= <- <- <-]|].
  destruct (String.eqb_spec (rpc_method req) "ping"); [by intros [= <- <- <-]|].
  destruct (String.eqb_spec (rpc_method req) "tools/list") as [->|]; [cbn; tauto|].
  destruct (String.eqb_spec (rpc_method req) "tools/call") as [->|]; [cbn; tauto|].
  destruct (String.eqb_spec (rpc_method req) "resources/list") as [->|]; [cbn; tauto|].
  destruct (String.eqb_spec (rpc_method req) "resources/read") as [->|]; [cbn; tauto|].
  by intros [= <- <- <-].
Qed.

Lemma a2a_reaches (options : BridgeInboundOptions W) iso req k w out k' w' :
  a2a_dispatch options iso req (k, w) = Some (out, (k', w')) -> w' <> w ->
  serves_inbound options "a2a" = true /\ rpc_method req = "tasks/send".
Proof.
  unfold a2a_dispatch. destruct (serves_inbound options "a2a"); cbn [negb]; [|by intros [= <- <- <-]].
  destruct (String.eqb_spec (rpc_method req) "tasks/send"); cbn [negb]; [done|by intros [= <- <- <-]].
Qed.

Lemma body_limit_within (app : BridgeInboundApp W) req : body_limit app req = None ->
  bs_max_request_body_bytes (bp_host app) = 0 \/
  Z.of_nat (length (nr_body req)) <= bs_max_request_body_bytes (bp_host app).
Proof.
  unfold body_limit. destruct (Z.eqb_spec (bs_max_request_body_bytes (bp_host app)) 0); [by left|].
  destruct (_ || _) eqn:E; [done|]. intros _. right. apply orb_false_iff in E as [_ E]. lia.
Qed.

Lemma run_dispatch_inv {A} k (m : Call (E := unit) (S := option (nat * bool) * W) A) w out w' :
  run_dispatch k m w = Some (out, w') -> exists o k', m (k, w) = Some (o, (k', w')).
Proof. unfold run_dispatch. destruct (m (k, w)) as [[[a|e] [k' w1]]|]; [intros [= <- <-]; eauto..|done]. Qed.

(** What a request that reaches a node is: a GET of the card, or a POST, within
    the limit, of a call that asks nodes under a declared protocol, to the path
    of that protocol. *)
Definition asks_nodes (app : BridgeInboundApp W) (req : NodeRequest) : Prop :=
  for_card app req /\ nr_method req = "GET" \/
  nr_method req = "POST" /\
  (bs_max_request_body_bytes (bp_host app) = 0 \/
   Z.of_nat (length (nr_body req)) <= bs_max_request_body_bytes (bp_host app)) /\
  exists rpc, rpc_from_slice (nr_body req) = Ok rpc /\
    (for_mcp app req /\ serves_inbound (bp_mcp app) "mcp" = true /\ In (rpc_method rpc) asking_methods \/
     for_a2a app req /\ serves_inbound (bp_a2a app) "a2a" = true /\ rpc_method rpc = "tasks/send").

Lemma handle_rpc_reaches (app : BridgeInboundApp W) rd (is_mcp : bool) req w resp w' :
  (if is_mcp then for_mcp app req else for_a2a app req) -> handle_rpc app rd is_mcp req w = Some (resp, w') -> w' <> w -> auth_gate app req = None /\ asks_nodes app req.
Proof.
  intros Hfor. unfold handle_rpc. destruct (String.eqb_spec (nr_method req) "POST"); cbn [negb]; [|by intros [= <- <-]].
  destruct (auth_gate app req); [by intros [= <- <-]|]. destruct (body_limit app req) eqn:Eb; [by intros [= <- <-]|].
  destruct (rpc_from_slice (nr_body req)) as [rpc|err] eqn:Er; [|by intros [= <- <-]].
  unfold dispatch_rpc. intros E Hw. split; [done|]. right. split; [done|]. split; [by apply body_limit_within|].
  exists rpc. split; [done|]. destruct (run_dispatch _ _ w) as [[out w1]|] eqn:Ed; [|done]. injection E as <- <-.
  apply run_dispatch_inv in Ed as (o & k' & Ed). destruct is_mcp.
  - left. split; [done|]. by eapply mcp_reaches.
  - right. split; [done|]. by eapply a2a_reaches.
Qed.

(** C12: where agents are authenticated, a request changes nothing behind a
    bridge unless it names a well-formed agent that the host's verifier
    admits, and is either a GET of the card's path or a POST, within the
    limit on bodies, of a method that asks the nodes, to the path of a protocol
    the bridge declares. *)
Theorem bridge_access (app : BridgeInboundApp W) rd req w resp w' :
  bs_require_auth (bp_host app) = true -> bridge_handle app rd req w = Some (resp, w') -> w' <> w ->
  admitted app req /\ asks_nodes app req.
Proof.
  intros Ha E Hw. assert (Hg : auth_gate app req = None /\ asks_nodes app req).
  { revert E. unfold bridge_handle. destruct (strip_prefix _ _) as [sub|] eqn:Esub; [|by intros [= <- <-]].
    fold (target app req) in Esub.
    destruct (String.eqb_spec sub (bs_a2a_agent_card_path (bp_host app))) as [->|Hcard].
    - unfold handle_card. destruct (String.eqb_spec (nr_method req) "GET"); cbn [negb]; [|by intros [= <- <-]].
      destruct (auth_gate app req); [by intros [= <- <-]|]. intros _. split; [done|]. by left.
    - destruct (_ || _) eqn:Em.
      + cbn. intros E. eapply (handle_rpc_reaches app rd true); [|exact E|done]. exists sub. split; [done|]. split; [done|].
        apply orb_true_iff in Em as [Em|Em]; apply String.eqb_eq in Em; auto.
      + destruct (String.eqb_spec sub (bs_a2a_path (bp_host app))) as [->|]; cbn; [|by intros [= <- <-]].
        apply orb_false_iff in Em as [Em1 Em2]. apply String.eqb_neq in Em1, Em2.
        intros E. by eapply (handle_rpc_reaches app rd false); [|exact E|]. }
  destruct Hg as [Hg Hn]. split; [by apply auth_gate_admits|done].
Qed.
End access.

(** A host that admits one agent, and its call of the echo node. *)
Definition echo_server : BridgeInboundApp nat :=
  bridge_app_new echo_bridge
    (mkServerOptions "/bridge/" "/mcp" "/a2a" "/.well-known/agent.json" true
       (Some (fun nid _ => String.eqb nid "urn:nps:agent:example.com:one")) 1024 30000).
Definition echo_serde : BridgeSerde :=
  {| rpc_from_str _ := Ok (call_request (VString "7") (VString "hi") "Echo_Node__shout");
     rpc_from_slice _ := Ok (call_request (VString "7") (VString "hi") "Echo_Node__shout") |}.
Definition echo_request : NodeRequest :=
  mkNodeRequest "POST" "/bridge/mcp" {["x-nwp-agent" := "urn:nps:agent:example.com:one"]} [123; 125].

Lemma bridge_access_witness :
  exists resp, bridge_handle (H := ascii_tables) (H0 := echo_serde) echo_server (mkBridgeReadings "" None) echo_request O
    = Some (resp, 1%nat) /\ admitted echo_server echo_request.
Proof.
  eexists. split; [vm_compute; reflexivity|].
  eapply (bridge_access (H := ascii_tables) (H0 := echo_serde) echo_server (mkBridgeReadings "" None) echo_request O _ 1%nat);
    [reflexivity|vm_compute; reflexivity|discriminate].
Defined.

(** ** The tables of error codes *)

(** Carrying a status over a protocol and back loses nothing the protocol can
    tell: what comes out is mapped as what went in. *)
Lemma error_maps_stable s b :
  to_json_rpc (from_json_rpc (to_json_rpc s b)) false = to_json_rpc s b /\
  to_grpc_status (from_grpc_status (to_grpc_status s)) = to_grpc_status s.
Proof. unfold to_json_rpc at 2 3, to_grpc_status at 2 3. split; repeat case_match; reflexivity. Qed.

(** Over gRPC a failure of the infrastructure stays one. *)
Lemma grpc_keeps_infrastructure s : must_be_protocol_error s = true ->
  must_be_protocol_error (from_grpc_status (to_grpc_status s)) = true.
Proof.
  unfold must_be_protocol_error, str_in. rewrite existsb_exists. intros (x & Hx & Ex%String.eqb_eq). subst x.
  repeat (destruct Hx as [<-|Hx]; [reflexivity|]). destruct Hx.
Qed.

(** Over JSON-RPC it does not: a node that does not support a call is taken
    for one that does not know the tool. *)
Lemma json_rpc_loses_unsupported :
  must_be_protocol_error "NPS-SERVER-UNSUPPORTED" = true /\
  from_json_rpc (to_json_rpc "NPS-SERVER-UNSUPPORTED" false) = "NPS-CLIENT-NOT-FOUND".
Proof. done. Qed.

(** A failure of the server to read the encoding is handed on as the answer of
    a tool. *)
Lemma encoding_failure_as_content {D : Digests} `{JsonParser} id body :
  exists v, project_tool_result id (bridge_read_json 415 body) = rpc_ok id (tool_content true v).
Proof. by eexists. Qed.

(** ** Where names collide *)

(** Of two actions of a node that differ in a dot and an underscore, the second
    cannot be called under any name. *)
Lemma colliding_action_uncallable `{UnicodeTables} {W} (b : NwpBackend W) (d : NwpNodeDescriptor) tool :
  let a1 := action_descriptor_new "a.b" in
  let a2 := action_descriptor_new "a_b" in
  is_invokable d = true ->
  forall x, resolve_ref tool (exposed [mkNode b d [a1; a2]]) = Ok (Some x) -> rt_action_id x = "a.b".
Proof.
  intros a1 a2 Hd x. unfold exposed, exposed_by, resolve_ref. cbn [map concat n_descriptor n_actions]. rewrite Hd. cbn [map app].
  assert (E : x_name (mkExposed (mkNode b d [a1; a2]) a1) = x_name (mkExposed (mkNode b d [a1; a2]) a2)) by reflexivity.
  cbn [find]. rewrite E. destruct (eq_ignore_ascii_case _ tool); [by intros [= <-]|]. cbn [List.filter].
  assert (B1 : bare_match tool "a_b" = true -> bare_match tool "a.b" = true).
  { unfold bare_match. change (encode_action_segment "a_b") with "a_b". change (encode_action_segment "a.b") with "a_b".
    destruct (eq_ignore_ascii_case "a_b" tool); [|done]. intros _. apply orb_true_r. }
  cbn [x_action nad_action_id a1 a2 action_descriptor_new].
  destruct (bare_match tool "a_b"); [rewrite B1 by done; done|]. destruct (bare_match tool "a.b"); [by intros [= <-]|done].
Qed.

(** ** What an in-process node is asked *)

(** The limit of a resource read arrives as the filter of the query, which the
    SQL translator refuses whatever the schema. *)
Lemma read_limit_becomes_filter {D : Digests} `{FloatText} schema dialect n p :
  let f := query_frame (VObject [("limit", vnat n)]) in
  q_limit f = None /\ exists e, translate schema dialect (q_filter f) p = Err e.
Proof.
  cbn. split; [done|]. unfold validate_field. destruct (get_field schema "limit"); cbn; eauto.
Qed.

(** ** Requests that do not parse *)

(** Malformed parameters of a gRPC call are dropped, and the action runs
    without any. *)
Lemma grpc_malformed_params_dropped {D : Digests} `{JsonParser} {W} (options : BridgeInboundOptions W) ctx action bytes e :
  parse_json (of_bytes bytes) = Err e -> grpc_invoke options ctx action bytes = grpc_invoke options ctx action [].
Proof. intros E. unfold grpc_invoke, from_slice, parsed. rewrite E. by destruct bytes. Qed.

(** A body that is no request is answered with the code of bad parameters over
    HTTP, with that of a parse error over standard input. *)
Lemma parse_error_codes {D : Digests} `{UnicodeTables} `{BridgeSerde} {W} (app : BridgeInboundApp W) rd req w e line :
  nr_method req = "POST" -> auth_gate app req = None -> body_limit app req = None ->
  rpc_from_slice (nr_body req) = Err e -> rpc_from_str line = Err e -> is_empty (trim line) = false ->
  handle_rpc app rd true req w = Some (rpc_http 200 (rpc_err VNull (-32602) e None), w) /\
  stdio_line (bp_mcp app) line (None, w) = Some (Ok (Some (rpc_err VNull (-32700) e None)), (None, w)).
Proof. intros Em Ea Eb Es El Et. unfold handle_rpc, stdio_line. by rewrite Em, Ea, Eb, Es, El, Et. Qed.
