(* ===== verification/NwpSqlProvider.v ===== *)
(** * NwpSqlProvider: a Memory Node over a relational database

    Models nps-nwp/src/sql_provider.rs over the query builder of NwpQuery: one
    page, the stream of all pages, the count, and the executor that records
    what it was asked.  The database is an executor over a state of its own;
    [None] is a panic, here an offset that leaves 64 bits. *)

From S2P Require Import Prelude Calls RustStr Floats Json CoreCache NwpMemory NwpQuery NwpQuerySpec.
Local Open Scope Z_scope.

(** A sum of [i64]s, which panics when it overflows. *)
Definition add_i64 (a b : Z) : option Z :=
  if (i64_min <=? a + b) && (a + b <=? i64_max) then Some (a + b) else None.

Record SqlExecutor {W : Type} : Type := mkExecutor {
  ex_query : string -> SqlParams -> W -> result string (list Map) * W;
  ex_count : string -> SqlParams -> W -> result string Z * W
}.
Arguments SqlExecutor : clear implicits.

Record SqlMemoryNodeProvider {W : Type} : Type := mkSqlProvider {
  sp_executor : SqlExecutor W; sp_dialect : DatabaseDialect }.
Arguments SqlMemoryNodeProvider : clear implicits.

Definition postgres {W} (executor : SqlExecutor W) : SqlMemoryNodeProvider W := mkSqlProvider W executor PostgreSql.
Definition sql_server {W} (executor : SqlExecutor W) : SqlMemoryNodeProvider W := mkSqlProvider W executor SqlServer.

Definition builder_error (e : NwpFilterError) : MemoryNodeError := mkMemoryError (fe_code e) (fe_message e).
Definition executor_error (e : string) : MemoryNodeError := mkMemoryError "NWP-NODE-UNAVAILABLE" e.

(** The frame of one page. *)
Definition page_frame (f : QueryFrame) (limit : Z) (cursor : option string) : QueryFrame :=
  mkQueryFrame (q_anchor_ref f) (q_filter f) (q_order f) (q_fields f) (q_vector_search f) cursor (q_token_budget f)
    (q_tokenizer f) (q_request_id f) (q_auto_anchor f) (q_stream f) (q_aggregate f) (Some limit) (q_offset f) (q_depth f).

Section provider.
Context {D : Digests} `{FloatText} `{JsonParser} {W : Type}.
Context (self : SqlMemoryNodeProvider W) (schema : MemoryNodeSchema).
Local Open Scope call_scope.

Definition Provided (A : Type) : Type := Call (E := MemoryNodeError) (S := W) A.

Definition asked {A} (f : W -> result string A * W) : Provided A := fun w =>
  let '(r, w) := f w in Some (map_err executor_error r, w).

Definition select_rows (options : MemoryNodeOptions) (frame : QueryFrame) : Provided (list Map) :=
  q <- call_result (map_err builder_error (build schema (sp_dialect self) frame options)) ;;
  asked (ex_query (sp_executor self) (fst q) (snd q)).

Definition sql_query (frame : QueryFrame) (options : MemoryNodeOptions) : Provided MemoryNodeQueryResult :=
  rows <- select_rows options frame ;;
  let limit := page_limit frame options in
  next_cursor <- (if Z.of_nat (length rows) =? limit
                  then o <- call_panic (add_i64 (decode_cursor (q_cursor frame)) limit) ;; call_ret (encode_cursor o)
                  else call_ret None) ;;
  call_ret (mkQueryResult rows next_cursor).

(** The loop of [stream], [Ok None] when the fuel ran out before it ended. *)
Fixpoint stream_pages (fuel : nat) (options : MemoryNodeOptions) (frame : QueryFrame) (limit : Z) (cursor : option string)
    : Provided (option (list (list Map))) :=
  match fuel with
  | O => call_ret None
  | S fuel =>
    rows <- select_rows options (page_frame frame limit cursor) ;;
    match rows with
    | [] => call_ret (Some [])
    | _ =>
      o <- call_panic (add_i64 (decode_cursor cursor) (Z.of_nat (length rows))) ;;
      if Z.of_nat (length rows) =? limit
      then rest <- stream_pages fuel options frame limit (encode_cursor o) ;; call_ret (option_map (cons rows) rest)
      else call_ret (Some [rows])
    end
  end.

Definition sql_stream (fuel : nat) (frame : QueryFrame) (options : MemoryNodeOptions) : Provided (option (list (list Map))) :=
  stream_pages fuel options frame (page_limit frame options) (q_cursor frame).

Definition sql_count (frame : QueryFrame) : Provided Z :=
  q <- call_result (map_err builder_error (build_count schema (sp_dialect self) frame)) ;;
  asked (ex_count (sp_executor self) (fst q) (snd q)).
End provider.

(** ** The recording executor *)

Record Recording : Type := mkRecording { re_pages : list (list Map); re_last_sql : list string }.

Definition recording_new (pages : list (list Map)) : Recording := mkRecording pages [].
Definition sql_log (r : Recording) : list string := re_last_sql r.

Definition RecordingExecutor (count_value : Z) : SqlExecutor Recording := {|
  ex_query sql _ r := (Ok (hd [] (re_pages r)), mkRecording (tl (re_pages r)) (re_last_sql r ++ [sql]));
  ex_count sql _ r := (Ok count_value, mkRecording (re_pages r) (re_last_sql r ++ [sql]))
|}.

Definition row (pairs : list (string * Value)) : Map :=
  fold_left (fun m kv => map_insert (fst kv) (snd kv) m) pairs [].

(** ** The pages of a table *)

Section pages.
Context {D : Digests} `{FloatText} {J : JsonParser} {W : Type}.
Context (self : SqlMemoryNodeProvider W) (schema : MemoryNodeSchema) (options : MemoryNodeOptions).

(** serde_json reads the object of a cursor into a table of [m] rows. *)
Definition reads_cursors (m : nat) : Prop := forall n, 0 < n <= Z.of_nat m ->
  parse_json (cursor_json n) = Ok (VObject [("o", VNumber (PosInt n))]).

(** A database whose answer to one statement is the part of [rows] that its
    last two parameters name. *)
Definition pages_of (sql : string) (p : SqlParams) (rows : list Map) : Prop := forall lim off w, 0 <= lim -> 0 <= off ->
  exists w', ex_query (sp_executor self) sql (params_add (params_add p "_limit" (SqlInt lim)) "_offset" (SqlInt off)) w
             = (Ok (take (Z.to_nat lim) (drop (Z.to_nat off) rows)), w').

Definition paged (p : SqlParams) (lim off : Z) : SqlParams :=
  params_add (params_add p "_limit" (SqlInt lim)) "_offset" (SqlInt off).

Lemma page_limit_page frame cursor : 0 < page_limit frame options ->
  page_limit (page_frame frame (page_limit frame options) cursor) options = page_limit frame options.
Proof. unfold page_limit. cbn. repeat case_match; bool_hyps; lia. Qed.

(** What a statement is made of. *)
Lemma build_inv frame sql q : build schema (sp_dialect self) frame options = Ok (sql, q) ->
  exists select clause p order, translate schema (sp_dialect self) (q_filter frame) [] = Ok (clause, p) /\
    q = paged p (page_limit frame options) (decode_cursor (q_cursor frame)) /\
    sql = "SELECT " +:+ select +:+ " FROM " +:+ quote_column (sp_dialect self) (table_name schema) +:+ where_text clause
            +:+ " ORDER BY " +:+ order +:+ pagination (sp_dialect self).
Proof.
  unfold build. destruct (build_select_list _ _ _) as [select|]; [|done].
  destruct (translate _ _ _ _) as [[clause p]|]; [|done]. cbn [mbind result_bind].
  match goal with |- mbind _ ?m = _ -> _ => destruct m as [order|]; [|done] end. cbn [mbind result_bind].
  intros [= <- <-]. by exists select, clause, p, order.
Qed.

(** All pages are asked with one statement; only the last two parameters
    differ. *)
Lemma build_page frame sql p cursor : 0 < page_limit frame options ->
  build schema (sp_dialect self) frame options = Ok (sql, paged p (page_limit frame options) (decode_cursor (q_cursor frame))) ->
  build schema (sp_dialect self) (page_frame frame (page_limit frame options) cursor) options
  = Ok (sql, paged p (page_limit frame options) (decode_cursor cursor)).
Proof.
  intros Hl. unfold build. rewrite page_limit_page by done. cbn [page_frame q_fields q_filter q_order q_cursor].
  repeat (match goal with |- mbind _ ?m = _ -> _ => destruct m as [?|]; [|done]; cbn [mbind result_bind] end || case_match).
  intros [= <- E]. unfold paged, params_add in *. by apply app_inj_tail in E as [[-> _]%app_inj_tail _].
Qed.

Lemma select_page frame sql p rows cursor w :
  build schema (sp_dialect self) frame options = Ok (sql, paged p (page_limit frame options) (decode_cursor (q_cursor frame))) ->
  pages_of sql p rows -> 0 < page_limit frame options -> 0 <= decode_cursor cursor ->
  exists w', select_rows self schema options (page_frame frame (page_limit frame options) cursor) w
    = Some (Ok (take (Z.to_nat (page_limit frame options)) (drop (Z.to_nat (decode_cursor cursor)) rows)), w').
Proof.
  intros Eb Hp Hl Ho. unfold select_rows. rewrite (build_page frame sql p cursor Hl Eb).
  destruct (Hp (page_limit frame options) (decode_cursor cursor) w ltac:(lia) Ho) as (w' & E).
  cbn. unfold asked, paged in *. rewrite E. by exists w'.
Qed.

Lemma decode_encode m n : reads_cursors m -> Z.of_nat m <= i64_max -> 0 <= n <= Z.of_nat m -> decode_cursor (encode_cursor n) = n.
Proof. intros Hr Hm Hn. destruct (cursor_roundtrip n) as (-> & _); [lia|intros ?; apply Hr; lia|lia]. Qed.

(** Enough fuel for the rows that are left brings them all, page by page. *)
Lemma stream_pages_spec fuel frame sql p rows cursor w :
  reads_cursors (length rows) -> Z.of_nat (length rows) <= i64_max ->
  build schema (sp_dialect self) frame options = Ok (sql, paged p (page_limit frame options) (decode_cursor (q_cursor frame))) ->
  pages_of sql p rows -> 0 < page_limit frame options -> 0 <= decode_cursor cursor ->
  (length rows - Z.to_nat (decode_cursor cursor) < fuel)%nat ->
  exists pages w', stream_pages self schema fuel options frame (page_limit frame options) cursor w = Some (Ok (Some pages), w') /\
    concat pages = drop (Z.to_nat (decode_cursor cursor)) rows /\
    Forall (fun page => page <> [] /\ Z.of_nat (length page) <= page_limit frame options) pages.
Proof.
  intros Hr Hmax Eb Hp Hl. revert cursor w. induction fuel as [|fuel IH]; intros cursor w Ho Hf; [lia|].
  cbn [stream_pages]. destruct (select_page frame sql p rows cursor w Eb Hp Hl Ho) as (w1 & E).
  unfold call_bind at 1. rewrite E. clear E.
  remember (drop (Z.to_nat (decode_cursor cursor)) rows) as left_ eqn:El.
  assert (Hlen : length left_ = (length rows - Z.to_nat (decode_cursor cursor))%nat) by (subst; apply length_drop).
  set (page := take (Z.to_nat (page_limit frame options)) left_).
  assert (Hpl : length page = Nat.min (Z.to_nat (page_limit frame options)) (length left_)) by apply length_take.
  destruct left_ as [|r left_'] eqn:Ep.
  { unfold page. rewrite take_nil. by exists [], w1. }
  assert (Hne : page <> []) by (intros Hn; rewrite Hn in Hpl; cbn in Hpl; lia).
  assert (Hsum : add_i64 (decode_cursor cursor) (Z.of_nat (length page)) = Some (decode_cursor cursor + Z.of_nat (length page))).
  { unfold add_i64. cbn [length] in *. unfold i64_min, i64_max in *. split_if. done. }
  destruct page as [|x page'] eqn:Epg; [done|]. rewrite <- Epg in *.
  unfold call_bind at 1, call_panic. rewrite Hsum. clear Hsum.
  case_match eqn:Eq; bool_hyps.
  - assert (Hd : decode_cursor (encode_cursor (decode_cursor cursor + Z.of_nat (length page)))
                = decode_cursor cursor + Z.of_nat (length page)).
    { apply (decode_encode (length rows)); [done..|]. cbn [length] in *. lia. }
    destruct (IH (encode_cursor (decode_cursor cursor + Z.of_nat (length page))) w1) as (pages & w2 & E2 & Hc & Hall);
      [rewrite Hd; lia|rewrite Hd; cbn [length] in *; lia|].
    unfold call_bind at 1. rewrite E2. cbn. exists (page :: pages), w2. split; [done|]. split.
    + cbn. rewrite Hc, Hd, Z2Nat.inj_add, Nat2Z.id, <- drop_drop, <- El by lia.
      rewrite <- (take_drop (Z.to_nat (page_limit frame options)) (r :: left_')) at 2. fold page. f_equal. f_equal. lia.
    + constructor; [|done]. split; [done|lia].
  - cbn. exists [page], w1. split; [done|]. split.
    + cbn. rewrite app_nil_r. apply firstn_all2. cbn [length] in *. lia.
    + repeat constructor; [done|]. cbn [length] in *. lia.
Qed.

(** ** Queries *)

(** One query answers its part of the table, and a cursor for the next part
    exactly when the page is full. *)
Lemma query_page frame sql p rows cursor w :
  reads_cursors (length rows) -> Z.of_nat (length rows) <= i64_max ->
  build schema (sp_dialect self) frame options = Ok (sql, paged p (page_limit frame options) (decode_cursor (q_cursor frame))) ->
  pages_of sql p rows -> 0 < page_limit frame options -> 0 <= decode_cursor cursor ->
  let l := page_limit frame options in
  let o := decode_cursor cursor in
  exists next w', sql_query self schema (page_frame frame l cursor) options w
    = Some (Ok (mkQueryResult (take (Z.to_nat l) (drop (Z.to_nat o) rows)) next), w') /\
    (if o + l <=? Z.of_nat (length rows) then decode_cursor next = o + l /\ next <> None else next = None).
Proof.
  intros Hr Hmax Eb Hp Hl Ho l o. unfold sql_query.
  destruct (select_page frame sql p rows cursor w Eb Hp Hl Ho) as (w1 & E).
  unfold call_bind at 1. fold l in E |- *. rewrite E. clear E. unfold l. rewrite page_limit_page by done. fold l.
  cbn [page_frame q_cursor]. fold o. rewrite length_take, length_drop.
  assert (Hl' : 0 < l) by done. assert (Ho' : 0 <= o) by done. clearbody l o.
  destruct (Z.eqb_spec (Z.of_nat (Z.to_nat l `min` (length rows - Z.to_nat o))) l) as [Eq|Eq].
  - unfold call_bind, call_panic, add_i64, i64_max, i64_min in *. split_if. cbn. split_if. eexists _, w1. split; [done|].
    split; [apply (decode_encode (length rows)); unfold i64_max; [done|lia..]|]. unfold encode_cursor. by split_if.
  - cbn. split_if. by exists None, w1.
Qed.

(** The rows a client collects by following the cursors of its queries. *)
Fixpoint follow (fuel : nat) (frame : QueryFrame) (cursor : option string) : Provided (option (list Map)) :=
  match fuel with
  | O => call_ret None
  | S fuel =>
    call_bind (sql_query self schema (page_frame frame (page_limit frame options) cursor) options) (fun r =>
    match qr_next_cursor r with
    | None => call_ret (Some (qr_rows r))
    | Some c => call_bind (follow fuel frame (Some c)) (fun rest => call_ret (option_map (app (qr_rows r)) rest))
    end)
  end.

Lemma follow_spec fuel frame sql p rows cursor w :
  reads_cursors (length rows) -> Z.of_nat (length rows) <= i64_max ->
  build schema (sp_dialect self) frame options = Ok (sql, paged p (page_limit frame options) (decode_cursor (q_cursor frame))) ->
  pages_of sql p rows -> 0 < page_limit frame options -> 0 <= decode_cursor cursor ->
  (length rows - Z.to_nat (decode_cursor cursor) < fuel)%nat ->
  exists w', follow fuel frame cursor w = Some (Ok (Some (drop (Z.to_nat (decode_cursor cursor)) rows)), w').
Proof.
  intros Hr Hmax Eb Hp Hl. revert cursor w. induction fuel as [|fuel IH]; intros cursor w Ho Hf; [lia|].
  cbn [follow]. destruct (query_page frame sql p rows cursor w Hr Hmax Eb Hp Hl Ho) as (next & w1 & E & Hn).
  unfold call_bind at 1. rewrite E. cbn [qr_next_cursor qr_rows]. clear E.
  case_match eqn:Eq; bool_hyps.
  - destruct Hn as [Hd Hne]. destruct next as [c|]; [|done]. destruct (IH (Some c) w1) as (w2 & E2); [lia|lia|].
    unfold call_bind. rewrite E2, Hd. cbn. exists w2. do 3 f_equal.
    rewrite Z2Nat.inj_add, <- drop_drop by lia. by rewrite take_drop.
  - subst. rewrite firstn_all2 by (rewrite length_drop; lia). by exists w1.
Qed.

(** C18: a stream of a Memory Node over a database that answers pages of a
    table ends after at most one page per row, with the rows of the table from
    the cursor on, each once and in order, in non-empty pages within the
    limit; a client that asks for pages itself, following the cursors it is
    given, collects the same rows. *)
Theorem stream_all_rows frame sql p rows w :
  reads_cursors (length rows) -> Z.of_nat (length rows) <= i64_max ->
  build schema (sp_dialect self) frame options = Ok (sql, paged p (page_limit frame options) (decode_cursor (q_cursor frame))) ->
  pages_of sql p rows -> 0 < page_limit frame options -> 0 <= decode_cursor (q_cursor frame) ->
  exists pages w1 w2,
    sql_stream self schema (S (length rows)) frame options w = Some (Ok (Some pages), w1) /\
    concat pages = drop (Z.to_nat (decode_cursor (q_cursor frame))) rows /\
    Forall (fun page => page <> [] /\ Z.of_nat (length page) <= page_limit frame options) pages /\
    follow (S (length rows)) frame (q_cursor frame) w = Some (Ok (Some (concat pages)), w2).
Proof.
  intros Hr Hmax Eb Hp Hl Ho.
  destruct (stream_pages_spec (S (length rows)) frame sql p rows (q_cursor frame) w) as (pages & w1 & E & Hc & Hall); try done; [lia|].
  destruct (follow_spec (S (length rows)) frame sql p rows (q_cursor frame) w) as (w2 & E2); try done; [lia|].
  exists pages, w1, w2. by rewrite Hc.
Qed.

(** The count is asked of the same table under the same condition. *)
Lemma count_same_condition frame sql q : build_count schema (sp_dialect self) frame = Ok (sql, q) ->
  exists clause, sql = "SELECT COUNT(*) FROM " +:+ quote_column (sp_dialect self) (table_name schema) +:+ where_text clause /\
  forall sql' q', build schema (sp_dialect self) frame options = Ok (sql', q') ->
    q' = paged q (page_limit frame options) (decode_cursor (q_cursor frame)) /\
    exists before after, sql' = before +:+ " FROM " +:+ quote_column (sp_dialect self) (table_name schema) +:+ where_text clause +:+ after.
Proof.
  unfold build_count. destruct (translate _ _ _ _) as [[c t]|] eqn:Et; [|done]. cbn [mbind result_bind]. intros [= <- <-].
  exists c. split; [done|]. intros sql' q' Eb. apply build_inv in Eb as (select & c' & t' & order & Et' & -> & ->).
  rewrite Et in Et'. injection Et' as <- <-. split; [done|]. exists ("SELECT " +:+ select), (" ORDER BY " +:+ order +:+ pagination (sp_dialect self)).
  by rewrite append_assoc.
Qed.

(** ** Where a cursor is not one of the node's *)

(** A negative offset of a cursor is handed to the database. *)
Lemma negative_cursor_offset frame sql p :
  build schema (sp_dialect self) frame options = Ok (sql, p) -> decode_cursor (q_cursor frame) < 0 ->
  exists off, params_get (rev p) "_offset" = Some (SqlInt off) /\ off < 0.
Proof.
  intros (_ & _ & q & _ & _ & -> & _)%build_inv Hneg. exists (decode_cursor (q_cursor frame)). split; [|done].
  unfold paged, params_add. by rewrite rev_app_distr.
Qed.

(** A full page at an offset near the end of the integers panics. *)
Lemma cursor_overflow_panics frame sql p rows w w' :
  build schema (sp_dialect self) frame options = Ok (sql, p) -> ex_query (sp_executor self) sql p w = (Ok rows, w') ->
  Z.of_nat (length rows) = page_limit frame options -> i64_max < decode_cursor (q_cursor frame) + page_limit frame options ->
  sql_query self schema frame options w = None.
Proof.
  intros Eb Eq El Hov. unfold sql_query, select_rows. cbn -[Z.eqb Z.leb]. rewrite Eb. cbn -[Z.eqb Z.leb]. unfold call_bind, asked.
  cbn -[Z.eqb Z.leb]. rewrite Eq. cbn -[Z.eqb Z.leb]. rewrite El, Z.eqb_refl. unfold call_panic, add_i64.
  replace (_ <=? i64_max) with false by lia. by rewrite andb_false_r.
Qed.
End pages.

(** ** A small table *)

(** The database that keeps one table and reads the page from the last two
    parameters. *)
Definition table_executor (rows : list Map) : SqlExecutor nat :=
  let nat_of p name := match params_get (rev p) name with Some (SqlInt n) => Z.to_nat n | _ => 0%nat end in
  {| ex_query _ p asked := (Ok (take (nat_of p "_limit") (drop (nat_of p "_offset") rows)), S asked);
     ex_count _ _ asked := (Ok (Z.of_nat (length rows)), S asked) |}.

Lemma table_executor_pages d rows sql p : pages_of (mkSqlProvider _ (table_executor rows) d) sql p rows.
Proof.
  intros lim off w _ _. exists (S w). unfold params_add. cbn. by rewrite !rev_app_distr.
Qed.

#[local] Instance few_cursors : JsonParser := {| parse_json s :=
  match List.find (fun n => String.eqb s (cursor_json n)) [1; 2; 3; 4; 5] with
  | Some n => Ok (VObject [("o", VNumber (PosInt n))])
  | None => Err "expected value"
  end |}.
#[local] Existing Instance toy_digests.
#[local] Instance no_floats : FloatText := {| fmt_f64 _ := "" |}.

Definition five_rows : list Map := map (fun n => row [("id", vnat n)]) [1; 2; 3; 4; 5].
Definition ids : MemoryNodeSchema := mkSchema "t" "id" [field_new "id" "number"].
Definition by_two : QueryFrame :=
  mkQueryFrame "a" None None None None None None None None None None None (Some 2) None None.

Lemma stream_all_rows_witness : exists pages w1,
  sql_stream (postgres (table_executor five_rows)) ids 6 by_two (memory_options_new "n" "/t" ids) 0%nat
  = Some (Ok (Some pages), w1) /\ concat pages = five_rows.
Proof.
  destruct (stream_all_rows (postgres (table_executor five_rows)) ids (memory_options_new "n" "/t" ids) by_two
              ("SELECT " +:+ all_columns ids PostgreSql +:+ " FROM " +:+ quote_column PostgreSql "t" +:+ " ORDER BY "
                 +:+ quote_column PostgreSql "id" +:+ pagination PostgreSql) [] five_rows 0%nat)
    as (pages & w1 & _ & E & Ec & _).
  - intros n [H1 H2]. cbn in H2. assert (E : n = 1 \/ n = 2 \/ n = 3 \/ n = 4 \/ n = 5) by lia.
    destruct E as [->|[->|[->|[->| ->]]]]; vm_compute; reflexivity.
  - vm_compute. discriminate.
  - vm_compute. reflexivity.
  - apply table_executor_pages.
  - reflexivity.
  - vm_compute. discriminate.
  - exists pages, w1. split; [exact E|exact Ec].
Defined.

(** With the recording executor: full pages are asked after, an incomplete one
    ends the stream. *)
Example recorded_stream :
  let pages := [take 2 five_rows; take 2 (drop 2 five_rows); drop 4 five_rows] in
  match sql_stream (sql_server (RecordingExecutor 0)) ids 9 by_two (memory_options_new "n" "/t" ids) (recording_new pages) with
  | Some (Ok (Some got), r) => got = pages /\ length (sql_log r) = 3%nat
  | _ => False
  end.
Proof. vm_compute. done. Qed.
