(* ===== verification/NwpNative.v ===== *)
(** * NwpNative: nodes and clients that exchange frames

    Models nps-nwp/src/native_server.rs, the serving loop of a node over a
    native stream, and client.rs, the client that posts frames, with the text
    of an error of nps-core/src/error.rs.  A stream is the bytes that are still
    to be read and the bytes written; [eof] is the text of the error of a
    short read.  The handlers act on a state of their own. *)

From S2P Require Import Prelude RustStr Floats Json CoreFrames CoreCodec CoreCache NcpFrames NcpSession NipVerifier NwpMemory NwpQuery NwpFrames.
Local Open Scope Z_scope.

(** [NpsError]'s [Display]. *)
Definition error_text (e : NpsError) : string :=
  match e with
  | Frame m => "NPS frame error: " +:+ m
  | Codec m => "NPS codec error: " +:+ m
  | AnchorNotFound m => "NPS anchor not found: " +:+ m
  | AnchorPoison m => "NPS anchor poison: " +:+ m
  | Identity m => "NPS identity error: " +:+ m
  | Io m => "NPS IO error: " +:+ m
  end.

(** [FrameType]'s [Debug]. *)
Definition frame_debug (ft : FrameType) : string :=
  match ft with
  | Anchor => "Anchor" | Diff => "Diff" | Stream => "Stream" | Caps => "Caps" | Hello => "Hello" | Nop => "Nop"
  | Query => "Query" | Action => "Action" | Ident => "Ident" | Trust => "Trust" | Revoke => "Revoke"
  | Announce => "Announce" | Resolve => "Resolve" | Graph => "Graph" | Task => "Task" | Delegate => "Delegate"
  | Sync => "Sync" | AlignStream => "AlignStream" | Error => "Error"
  end.

Fixpoint str_contains (h n : string) : bool :=
  starts_with n h || match h with String.String _ t => str_contains t n | EmptyString => false end.

(** ** The node *)

Definition native_encoding_token (tier : EncodingTier) : string :=
  match tier with TJson => "json" | TMsgPack => "msgpack" | TBinaryVector => "binary_vector.v1" | TReserved => "reserved" end.

Definition encoding_allowed (header : FrameHeader) (default_tier : EncodingTier) (enabled : list string) : bool :=
  bool_decide (encoding_tier header = default_tier)
  || (bool_decide (encoding_tier header = TBinaryVector) && bool_decide (frame_type header = Query)
      && existsb (fun enc => String.eqb enc "binary_vector.v1") enabled).

Definition error_dict (status error message : string) : FrameDict :=
  let out := map_insert "status" (VString status) [] in
  let out := map_insert "error" (VString error) out in
  let out := map_insert "error_code" (VString error) out in
  map_insert "message" (VString message) out.

Definition stamp (c : CapsFrame) (tokenizer_used request_id : option string) : CapsFrame :=
  mkCapsFrame (cf_node_id c) (cf_caps c) (cf_anchor_ref c) (cf_count c) (cf_data c) (cf_next_cursor c) (cf_token_est c)
    (cf_cached c) tokenizer_used request_id (cf_payload c) (cf_negotiated_encoding c) (cf_enabled_encodings c)
    (cf_session_version c) (cf_supported_protocols c) (cf_max_frame_payload c) (cf_ext_support c)
    (cf_max_concurrent_streams c).

Section native.
Context {SC : SerdeCodec} {W : Type} (eof : string).

Abbreviation NativeQueryHandler := (QueryFrame -> W -> NpsResult CapsFrame * W).
Abbreviation NativeActionHandler := (ActionFrame -> W -> NpsResult Value * W).

Record NwpNativeNodeServer : Type := mkNativeServer {
  nt_codec : NpsFrameCodec;
  nt_tier : EncodingTier;
  nt_enabled_encodings : list string;
  nt_anchor_ref : string;
  nt_query_handler : option NativeQueryHandler;
  nt_action_handler : option NativeActionHandler
}.

Definition native_new : NwpNativeNodeServer :=
  mkNativeServer (codec_new create_full) TMsgPack ["msgpack"] "native:nwp" None None.
Definition native_with_tier (s : NwpNativeNodeServer) (tier : EncodingTier) : NwpNativeNodeServer :=
  mkNativeServer (nt_codec s) tier [native_encoding_token tier] (nt_anchor_ref s) (nt_query_handler s) (nt_action_handler s).
Definition with_enabled_encodings (s : NwpNativeNodeServer) (enabled : list string) : NwpNativeNodeServer :=
  mkNativeServer (nt_codec s) (nt_tier s) enabled (nt_anchor_ref s) (nt_query_handler s) (nt_action_handler s).
Definition with_anchor_ref (s : NwpNativeNodeServer) (anchor_ref : string) : NwpNativeNodeServer :=
  mkNativeServer (nt_codec s) (nt_tier s) (nt_enabled_encodings s) anchor_ref (nt_query_handler s) (nt_action_handler s).
Definition with_query_handler (s : NwpNativeNodeServer) (h : NativeQueryHandler) : NwpNativeNodeServer :=
  mkNativeServer (nt_codec s) (nt_tier s) (nt_enabled_encodings s) (nt_anchor_ref s) (Some h) (nt_action_handler s).
Definition with_action_handler (s : NwpNativeNodeServer) (h : NativeActionHandler) : NwpNativeNodeServer :=
  mkNativeServer (nt_codec s) (nt_tier s) (nt_enabled_encodings s) (nt_anchor_ref s) (nt_query_handler s) (Some h).

Definition dispatch_query (s : NwpNativeNodeServer) (dict : FrameDict) (w : W) : NpsResult (FrameType * FrameDict) * W :=
  match nt_query_handler s with
  | None => (Err (Frame "No native NWP query handler configured."), w)
  | Some handler =>
    match QueryFrame_from_dict dict with
    | Err e => (Err e, w)
    | Ok frame =>
      let '(r, w) := handler frame w in
      (caps ← r;
       let caps := match q_request_id frame with
                   | Some id => stamp caps (cf_tokenizer_used caps) (Some id)
                   | None => caps
                   end in
       Ok (Caps, CapsFrame_to_dict caps), w)
    end
  end.

Definition action_caps (s : NwpNativeNodeServer) (frame : ActionFrame) (value : Value) : CapsFrame :=
  stamp (CapsFrame_new (nt_anchor_ref s) (if is_null value then [] else [value])) (Some "native-estimate") (act_request_id frame).

Definition dispatch_action (s : NwpNativeNodeServer) (dict : FrameDict) (w : W) : NpsResult (FrameType * FrameDict) * W :=
  match nt_action_handler s with
  | None => (Err (Frame "No native NWP action handler configured."), w)
  | Some handler =>
    match ActionFrame_from_dict dict with
    | Err e => (Err e, w)
    | Ok frame =>
      let '(r, w) := handler frame w in
      (value ← r; Ok (Caps, CapsFrame_to_dict (action_caps s frame value)), w)
    end
  end.

Definition native_dispatch (s : NwpNativeNodeServer) (ft : FrameType) (dict : FrameDict) (w : W)
    : (FrameType * FrameDict) * W :=
  let '(r, w) :=
    match ft with
    | Query => dispatch_query s dict w
    | Action => dispatch_action s dict w
    | _ => (Err (Frame ("Native NWP server does not handle frame type 0x" +:+ fmt_02X (as_u8 ft) +:+ ".")), w)
    end in
  (match r with
   | Ok reply => reply
   | Err err => (Error, error_dict "NPS-SERVER-INTERNAL" "NWP-NATIVE-DISPATCH-FAILED" (error_text err))
   end, w).

Definition encoding_refused (s : NwpNativeNodeServer) (header : FrameHeader) : FrameDict :=
  error_dict "NPS-SERVER-ENCODING-UNSUPPORTED" "NCP-ENCODING-UNSUPPORTED"
    ("Frame type 0x" +:+ fmt_02X (as_u8 (frame_type header)) +:+ " used " +:+ native_encoding_token (encoding_tier header)
       +:+ ", but the negotiated policy allows " +:+ join ", " (nt_enabled_encodings s) +:+ ".").

Definition dispatch_wire (s : NwpNativeNodeServer) (wire : list Z) (w : W) : NpsResult (list Z) * W :=
  match parse wire with
  | Err e => (Err e, w)
  | Ok header =>
    if negb (encoding_allowed header (nt_tier s) (nt_enabled_encodings s))
    then (encode (nt_codec s) Error (encoding_refused s header) (nt_tier s) true, w)
    else
      match decode (nt_codec s) wire with
      | Err e => (Err e, w)
      | Ok (ft, dict) =>
        let '((response_type, response_dict), w) := native_dispatch s ft dict w in
        (encode (nt_codec s) response_type response_dict (nt_tier s) true, w)
      end
  end.

(** One frame off the stream; fewer than four bytes are the end of it. *)
Definition read_wire_frame (input : list Z) : NpsResult (option (list Z) * list Z) :=
  match read_exact eof 4 input with
  | Err _ => Ok (None, [])
  | Ok (header, input) =>
    let is_extended := negb (Z.land (nth 1 header 0) 0x01 =? 0) in
    '(raw, input) ← (if is_extended
                     then '(rest, input) ← read_exact eof 4 input; Ok (header ++ rest, input)
                     else Ok (header, input));
    parsed ← parse raw;
    '(payload, input) ← read_exact eof (Z.to_nat (payload_length parsed)) input;
    Ok (Some (raw ++ payload), input)
  end.

(** The loop of [serve_stream]: its result and what it wrote; [None] is no
    more fuel. *)
Fixpoint serve_frames (fuel : nat) (s : NwpNativeNodeServer) (input out : list Z) (w : W)
    : option (NpsResult unit * list Z * W) :=
  match fuel with
  | O => None
  | S fuel =>
    match read_wire_frame input with
    | Err e => Some (Err e, out, w)
    | Ok (None, _) => Some (Ok tt, out, w)
    | Ok (Some wire, input) =>
      match dispatch_wire s wire w with
      | (Err e, w) => Some (Err e, out, w)
      | (Ok response, w) => serve_frames fuel s input (out ++ response) w
      end
    end
  end.

Definition serve_stream (s : NwpNativeNodeServer) (input : list Z) (w : W) : option (NpsResult unit * list Z * W) :=
  serve_frames (S (length input)) s input [] w.
End native.
Arguments NwpNativeNodeServer : clear implicits.

(** ** The client *)

Record NwpClient : Type := mkNwpClient { nc_base_url : string; nc_codec : NpsFrameCodec; nc_tier : EncodingTier }.

Definition nwp_client_new (base_url : string) : NwpClient :=
  mkNwpClient (trim_end_matches_slash base_url) (codec_new create_full) TMsgPack.
Definition client_with_tier (c : NwpClient) (tier : EncodingTier) : NwpClient := mkNwpClient (nc_base_url c) (nc_codec c) tier.

(** An answer as the HTTP library gives it: the body may fail to arrive. *)
Record FrameResponse : Type := mkFrameResponse {
  fr_status : Z; fr_content_type : option string; fr_body : result string (list Z) }.

Inductive InvokeResult : Type :=
| InvokeFrame (dict : FrameDict)
| InvokeAsync (r : AsyncActionResponse)
| InvokeJson (dict : FrameDict).

Definition CONTENT_TYPE : string := "application/x-nps-frame".

Definition http_ok (status : Z) (path : string) : NpsResult unit :=
  if (200 <=? status) && (status <? 300) then Ok tt
  else Err (Io ("NWP " +:+ path +:+ " failed: HTTP " +:+ fmt_Z status)).

Section client.
Context {SC : SerdeCodec} {W : Type}.
(** The HTTP request, and the text of serde's error for a document that is
    not an object. *)
Context (post : string -> list Z -> W -> result string FrameResponse * W) (not_a_map : Value -> string).
Context (c : NwpClient).

(** A frame posted to a path, up to the check of the status. *)
Definition post_frame (path : string) (ft : FrameType) (dict : FrameDict) (w : W) : NpsResult FrameResponse * W :=
  match encode (nc_codec c) ft dict (nc_tier c) true with
  | Err e => (Err e, w)
  | Ok wire =>
    let '(r, w) := post (nc_base_url c +:+ path) wire w in
    (res ← map_err Io r; _ ← http_ok (fr_status res) path; Ok res, w)
  end.

Definition on_reply {A} (f : FrameResponse -> A) (r : NpsResult FrameResponse * W) : NpsResult A * W :=
  (res ← fst r; Ok (f res), snd r).

Definition send_anchor (frame : AnchorFrame) (w : W) : NpsResult unit * W :=
  on_reply (fun _ => tt) (post_frame "/anchor" Anchor (AnchorFrame_to_dict frame) w).

Definition read_caps (res : FrameResponse) : NpsResult CapsFrame :=
  body ← map_err Io (fr_body res);
  '(ft, dict) ← decode (nc_codec c) body;
  if negb (bool_decide (ft = Caps)) then Err (Frame ("expected Caps, got " +:+ frame_debug ft))
  else CapsFrame_from_dict dict.

Definition client_query (frame : QueryFrame) (w : W) : NpsResult CapsFrame * W :=
  let '(r, w) := post_frame "/query" Query (QueryFrame_to_dict frame) w in (res ← r; read_caps res, w).

(** The frames of a body, up to the last one; [None] is the panic of a slice
    past its end. *)
Fixpoint read_stream (fuel : nat) (body : list Z) : option (NpsResult (list StreamFrame)) :=
  match fuel, body with
  | O, _ | _, [] => Some (Ok [])
  | S fuel, _ =>
    match parse body with
    | Err e => Some (Err e)
    | Ok hdr =>
      let total := (header_size hdr + Z.to_nat (payload_length hdr))%nat in
      if (length body <? total)%nat then None
      else
        match decode (nc_codec c) (take total body) with
        | Err e => Some (Err e)
        | Ok (ft, dict) =>
          if negb (bool_decide (ft = Stream)) then Some (Err (Frame ("expected Stream, got " +:+ frame_debug ft)))
          else
            match StreamFrame_from_dict dict with
            | Err e => Some (Err e)
            | Ok sf =>
              if sf_is_last sf then Some (Ok [sf])
              else rest ← read_stream fuel (drop total body); Some (frames ← rest; Ok (sf :: frames))
            end
        end
    end
  end.

Definition client_stream (frame : QueryFrame) (w : W) : option (NpsResult (list StreamFrame) * W) :=
  let '(r, w) := post_frame "/stream" Query (QueryFrame_to_dict frame) w in
  match (res ← r; map_err Io (fr_body res)) with
  | Err e => Some (Err e, w)
  | Ok body => out ← read_stream (length body) body; Some (out, w)
  end.

(** [serde_json::from_slice] into a map. *)
Definition dict_from_slice (body : list Z) : NpsResult FrameDict :=
  v ← map_err Codec (json_from_slice body);
  match v with VObject m => Ok m | v => Err (Codec (not_a_map v)) end.

Definition read_invoke (frame : ActionFrame) (res : FrameResponse) : NpsResult InvokeResult :=
  let ct := default "" (fr_content_type res) in
  body ← map_err Io (fr_body res);
  if act_async frame then dict ← dict_from_slice body; r ← AsyncActionResponse_from_dict dict; Ok (InvokeAsync r)
  else if str_contains ct CONTENT_TYPE then '(_, dict) ← decode (nc_codec c) body; Ok (InvokeFrame dict)
  else dict ← dict_from_slice body; Ok (InvokeJson dict).

Definition client_invoke (frame : ActionFrame) (w : W) : NpsResult InvokeResult * W :=
  let '(r, w) := post_frame "/invoke" Action (ActionFrame_to_dict frame) w in (res ← r; read_invoke frame res, w).
End client.

(** ** Frames on the wire *)

Section wires.
Context {SC : SerdeCodec} {SL : SerdeLaws}.

(** What [encode] wrote: a header and the payload it counts. *)
Lemma encode_inv c ft dict tier fin wire : encode c ft dict tier fin = Ok wire ->
  exists payload, encode_tier tier dict = Ok payload /\ Z.of_nat (length payload) <= max_payload c /\
    wire = to_bytes (header_new ft tier fin (Z.of_nat (length payload))) ++ payload.
Proof.
  unfold encode. intros E. apply result_bind_Ok in E as (p & Hp & E). case_match eqn:Hl; [done|]. cmp_hyps.
  injection E as <-. exists p. repeat split; [done|lia].
Qed.

(** Its header is the one it was built with, whatever follows. *)
Lemma encode_parse c ft dict tier fin wire rest : max_payload c < 4294967296 -> encode c ft dict tier fin = Ok wire ->
  exists n, (length wire = header_size (header_new ft tier fin (Z.of_nat n)) + n)%nat /\ Z.of_nat n <= max_payload c /\
    parse (wire ++ rest) = Ok (header_new ft tier fin (Z.of_nat n)).
Proof.
  intros Hm (p & _ & Hl & ->)%encode_inv. exists (length p). rewrite length_app, to_bytes_length. split; [done|].
  split; [done|]. rewrite <- app_assoc, parse_to_bytes_new by lia. unfold wrap_u32. by rewrite Z.mod_small by lia.
Qed.

Lemma encode_decoded c ft dict fin wire : readable TMsgPack dict = true -> is_registered (registry c) ft = true -> max_payload c < 4294967296 ->
  encode c ft dict TMsgPack fin = Ok wire -> decode c wire = Ok (ft, dict).
Proof.
  intros Hd Hr Hm (p & Hp & Hl & ->)%encode_inv. rewrite decode_split by lia. rewrite Hr. cbn [negb].
  by rewrite (tier_roundtrip TMsgPack dict p Hd Hp).
Qed.
End wires.

(** ** A client and a node *)

Section conversation.
Context {SC : SerdeCodec} {SL : SerdeLaws} {W : Type}.
Context (s : NwpNativeNodeServer W) (base_url : string).

(** An HTTP server that answers every post with the node's frame. *)
Definition framed (_ : string) (wire : list Z) (w : W) : result string FrameResponse * W :=
  match dispatch_wire s wire w with
  | (Ok out, w) => (Ok (mkFrameResponse 200 (Some CONTENT_TYPE) (Ok out)), w)
  | (Err e, w) => (Ok (mkFrameResponse 500 None (Ok [])), w)
  end.

Hypothesis Hcodec : nt_codec s = codec_new create_full.
Hypothesis Htier : nt_tier s = TMsgPack.

Abbreviation encoded := (fun ft dict => encode (codec_new create_full) ft dict TMsgPack true).

Lemma default_codec : max_payload (codec_new create_full) < 4294967296.
Proof. reflexivity. Qed.

(** A frame of the default client reaches the handlers of the node, and the
    client gets the bytes of the answer. *)
Lemma framed_dispatch ft dict wire reply w w' : readable TMsgPack dict = true -> is_registered create_full ft = true ->
  encoded ft dict = Ok wire -> native_dispatch s ft dict w = (reply, w') ->
  framed "" wire w = match encoded (fst reply) (snd reply) with
                     | Ok out => (Ok (mkFrameResponse 200 (Some CONTENT_TYPE) (Ok out)), w')
                     | Err _ => (Ok (mkFrameResponse 500 None (Ok [])), w')
                     end.
Proof.
  intros Hd Hr E Ed. unfold framed, dispatch_wire.
  destruct (encode_parse _ _ _ _ _ _ [] default_codec E) as (n & _ & _ & Ep). rewrite app_nil_r in Ep. rewrite Ep.
  unfold encoding_allowed. rewrite Htier, header_new_tier, bool_decide_true by done. cbn [orb negb].
  rewrite Hcodec, (encode_decoded (codec_new create_full) ft dict true wire Hd Hr default_codec E), Ed. destruct reply as [rt rd]. cbn [fst snd]. by destruct (encode (codec_new create_full) rt rd TMsgPack true).
Qed.

Lemma read_encoded ft dict out : readable TMsgPack dict = true -> is_registered create_full ft = true -> encoded ft dict = Ok out ->
  read_caps (nwp_client_new base_url) (mkFrameResponse 200 (Some CONTENT_TYPE) (Ok out))
  = if bool_decide (ft = Caps) then CapsFrame_from_dict dict else Err (Frame ("expected Caps, got " +:+ frame_debug ft)).
Proof.
  intros Hd Hr Eo. unfold read_caps. cbn [fr_body map_err mbind result_bind nc_codec nwp_client_new].
  rewrite (encode_decoded (codec_new create_full) ft dict true out Hd Hr default_codec Eo). cbn [mbind result_bind].
  by destruct (bool_decide (ft = Caps)).
Qed.

Definition answered (frame : QueryFrame) (caps : CapsFrame) : CapsFrame :=
  match q_request_id frame with Some id => stamp caps (cf_tokenizer_used caps) (Some id) | None => caps end.

(** The default client and the default node understand each other: the
    handler is called once, with the frame the client was given; the client
    returns the capsule the handler returned, under the request id of the
    frame; an error of the handler is an error of the client, which says only
    that no capsule came.  The frame and the capsule nest no deeper than
    MessagePack is read. *)
Theorem query_answered handler frame wire r w w' :
  readable TMsgPack (QueryFrame_to_dict frame) = true ->
  nt_query_handler s = Some handler -> encoded Query (QueryFrame_to_dict frame) = Ok wire -> handler frame w = (r, w') ->
  match r with
  | Ok caps => forall out, readable TMsgPack (CapsFrame_to_dict (answered frame caps)) = true -> encoded Caps (CapsFrame_to_dict (answered frame caps)) = Ok out ->
      client_query framed (nwp_client_new base_url) frame w = (Ok (caps_counted (answered frame caps)), w')
  | Err e => forall out, encoded Error (error_dict "NPS-SERVER-INTERNAL" "NWP-NATIVE-DISPATCH-FAILED" (error_text e)) = Ok out ->
      client_query framed (nwp_client_new base_url) frame w = (Err (Frame "expected Caps, got Error"), w')
  end.
Proof.
  intros Hq Hh E Er.
  assert (Ed : native_dispatch s Query (QueryFrame_to_dict frame) w
    = (match r with
       | Ok caps => (Caps, CapsFrame_to_dict (answered frame caps))
       | Err e => (Error, error_dict "NPS-SERVER-INTERNAL" "NWP-NATIVE-DISPATCH-FAILED" (error_text e))
       end, w')).
  { unfold native_dispatch, dispatch_query. rewrite Hh, QueryFrame_roundtrip, Er. by destruct r. }
  pose proof (framed_dispatch Query _ wire _ w w' Hq eq_refl E Ed) as Hf.
  unfold client_query, post_frame. cbn [nc_codec nc_tier nwp_client_new]. rewrite E.
  change (framed (nc_base_url (nwp_client_new base_url) +:+ "/query") wire w) with (framed "" wire w). rewrite Hf.
  destruct r as [caps|e]; [intros out Hc Eo|intros out Eo]; cbn [fst snd]; rewrite Eo;
    match goal with |- _ = ?rhs => change ((read_caps (nwp_client_new base_url) (mkFrameResponse 200 (Some CONTENT_TYPE) (Ok out)), w') = rhs) end.
  - by rewrite (read_encoded Caps _ out Hc eq_refl Eo), CapsFrame_roundtrip.
  - assert (He : readable TMsgPack (error_dict "NPS-SERVER-INTERNAL" "NWP-NATIVE-DISPATCH-FAILED" (error_text e)) = true) by done.
    by rewrite (read_encoded Error _ out He eq_refl Eo).
Qed.
End conversation.

(** ** The serving loop *)

Section serving.
Context {SC : SerdeCodec} {W : Type} (eof : string).

(** A frame off the stream takes at least four bytes of it. *)
Lemma read_wire_frame_shorter input wire rest :
  read_wire_frame eof input = Ok (Some wire, rest) -> (length rest < length input)%nat.
Proof.
  assert (Hx : forall n i a r, read_exact eof n i = Ok (a, r) -> (length r + n = length i)%nat).
  { unfold read_exact. intros n i a r. case_match eqn:E; [done|]. cmp_hyps. intros [= _ <-]. rewrite length_drop. lia. }
  unfold read_wire_frame. destruct (read_exact eof 4 input) as [[h i]|] eqn:E; [|done]. apply Hx in E.
  intros H. apply result_bind_Ok in H as ([raw i'] & Hr & H).
  assert (length i' <= length i)%nat.
  { case_match; [|by injection Hr as <- <-]. apply result_bind_Ok in Hr as ([r' i1] & Hr & Hq).
    apply Hx in Hr. injection Hq as <- <-. lia. }
  apply result_bind_Ok in H as (p & _ & H). apply result_bind_Ok in H as ([pl i2] & Hp & H). apply Hx in Hp.
  injection H as <- <-. lia.
Qed.

(** The loop ends: a stream holds at most one frame per four bytes. *)
Lemma serve_frames_ends fuel (s : NwpNativeNodeServer W) input out w : (length input < fuel)%nat ->
  exists r, serve_frames eof fuel s input out w = Some r.
Proof.
  revert input out w. induction fuel as [|fuel IH]; intros input out w Hf; [lia|]. cbn [serve_frames].
  destruct (read_wire_frame eof input) as [[[wire|] rest]|] eqn:E; [|by eexists..].
  apply read_wire_frame_shorter in E. destruct (dispatch_wire s wire w) as [[response|] w1]; [|by eexists].
  apply IH. lia.
Qed.

Lemma serve_stream_ends (s : NwpNativeNodeServer W) input w : exists r, serve_stream eof s input w = Some r.
Proof. apply serve_frames_ends. lia. Qed.

(** More fuel changes nothing. *)
Lemma serve_frames_more fuel more (s : NwpNativeNodeServer W) input out w r : (fuel <= more)%nat ->
  serve_frames eof fuel s input out w = Some r -> serve_frames eof more s input out w = Some r.
Proof.
  revert more input out w. induction fuel as [|fuel IH]; intros more input out w Hm; [done|].
  destruct more as [|more]; [lia|]. cbn [serve_frames].
  destruct (read_wire_frame eof input) as [[[wire|] rest]|]; [|done..].
  destruct (dispatch_wire s wire w) as [[response|] w1]; [|done]. apply IH. lia.
Qed.

(** A short frame of the JSON tier is taken off the stream whole. *)
Lemma read_json_frame ft fin payload rest : Z.of_nat (length payload) <= 65535 ->
  let wire := to_bytes (header_new ft TJson fin (Z.of_nat (length payload))) ++ payload in
  read_wire_frame eof (wire ++ rest) = Ok (Some wire, rest).
Proof.
  intros Hl wire. unfold read_wire_frame, wire. set (h := header_new _ _ _ _).
  assert (He : (0xFFFF <? Z.of_nat (length payload)) = false) by lia.
  assert (Hh : length (to_bytes h) = 4%nat) by (rewrite to_bytes_length; unfold header_size, h, header_new; cbn; by rewrite He).
  assert (Hf : Z.land (nth 1 (to_bytes h) 0) 0x01 =? 0 = true)
    by (unfold h, header_new, to_bytes; cbn [is_extended]; rewrite He; by destruct fin).
  assert (Hp : parse (to_bytes h) = Ok h).
  { rewrite <- (app_nil_r (to_bytes h)). unfold h. rewrite parse_to_bytes_new by lia. unfold wrap_u32. by rewrite Z.mod_small by lia. }
  rewrite <- app_assoc, read_exact_app by done. rewrite Hf. cbn [negb mbind result_bind]. rewrite Hp. cbn [mbind result_bind].
  rewrite read_exact_app by (unfold h, header_new; cbn; lia). done.
Qed.

(** Requests one after the other, as [dispatch_wire] answers them. *)
Fixpoint answers (s : NwpNativeNodeServer W) (wires : list (list Z)) (w : W) : NpsResult unit * list Z * W :=
  match wires with
  | [] => (Ok tt, [], w)
  | wire :: wires =>
    match dispatch_wire s wire w with
    | (Err e, w) => (Err e, [], w)
    | (Ok out, w) => let '(r, outs, w) := answers s wires w in (r, out ++ outs, w)
    end
  end.

(** A node that is sent short JSON frames on its stream answers them in
    their order, each as [dispatch_wire] does in the state the ones before it
    left, and stops at the first that it cannot answer; bytes too few for a
    header are the end of the stream. *)
Theorem json_stream_served (s : NwpNativeNodeServer W) frames tail w :
  Forall (fun f => Z.of_nat (length (snd f)) <= 65535) frames -> (length tail < 4)%nat ->
  let wires := map (fun f => to_bytes (header_new (fst f) TJson true (Z.of_nat (length (snd f)))) ++ snd f) frames in
  serve_stream eof s (concat wires ++ tail) w = Some (answers s wires w).
Proof.
  intros Hall Ht wires. unfold serve_stream.
  assert (G : forall fuel out w, (length frames < fuel)%nat ->
    serve_frames eof fuel s (concat wires ++ tail) out w
    = Some (let '(r, outs, w) := answers s wires w in (r, out ++ outs, w))).
  { subst wires. induction Hall as [|[ft payload] frames Hp Hall IH]; intros fuel out w0 Hf.
    - destruct fuel as [|fuel]; [lia|]. cbn. unfold read_wire_frame, read_exact. split_if. by rewrite app_nil_r.
    - destruct fuel as [|fuel]; [lia|]. cbn [serve_frames map concat fst snd answers] in *.
      rewrite <- app_assoc, read_json_frame by done. destruct (dispatch_wire s _ w0) as [[out1|] w1]; [|by rewrite app_nil_r].
      rewrite IH by (cbn in Hf; lia). destruct (answers s _ w1) as [[r outs] w2]. by rewrite app_assoc. }
  destruct (serve_stream_ends s (concat wires ++ tail) w) as (x & Ex). unfold serve_stream in Ex. rewrite Ex.
  assert (Em : serve_frames eof (S (length frames + length (concat wires ++ tail))) s (concat wires ++ tail) [] w = Some x)
    by (eapply serve_frames_more; [|exact Ex]; lia).
  rewrite G in Em by lia. destruct (answers s wires w) as [[r outs] w1]. by rewrite <- Em.
Qed.

(** ** The test of the extended header *)

Lemma read_exact_short n input : (length input < n)%nat -> read_exact eof n input = Err (Io eof).
Proof. intros H. unfold read_exact. by split_if. Qed.
Lemma read_exact_long n input : (n <= length input)%nat -> read_exact eof n input = Ok (take n input, drop n input).
Proof. intros H. unfold read_exact. by split_if. Qed.

(** The loop takes the low bit of the flags, which is set on the MessagePack
    tier, for the bit of an extended header: it reads four bytes beyond a
    frame of that tier. *)
Lemma msgpack_overread ft fin payload rest : Z.of_nat (length payload) <= 65535 ->
  let wire := to_bytes (header_new ft TMsgPack fin (Z.of_nat (length payload))) ++ payload in
  read_wire_frame eof (wire ++ rest)
  = if (length rest <? 4)%nat then Err (Io eof) else Ok (Some (wire ++ take 4 rest), drop 4 rest).
Proof.
  intros Hl wire. unfold read_wire_frame, wire. set (h := header_new _ _ _ _).
  assert (He : (0xFFFF <? Z.of_nat (length payload)) = false) by lia.
  assert (Hh : length (to_bytes h) = 4%nat) by (rewrite to_bytes_length; unfold header_size, h, header_new; cbn; by rewrite He).
  assert (Hf : Z.land (nth 1 (to_bytes h) 0) 0x01 =? 0 = false)
    by (unfold h, header_new, to_bytes; cbn [is_extended]; rewrite He; by destruct fin).
  rewrite <- app_assoc, read_exact_app by done. rewrite Hf. cbn [negb].
  destruct (Nat.ltb_spec (length rest) 4) as [Hs|Hs].
  - destruct (decide (length (payload ++ rest) < 4)%nat) as [Hq|Hq]; rewrite length_app in Hq.
    { by rewrite read_exact_short by (rewrite length_app; lia). }
    rewrite read_exact_long by (rewrite length_app; lia). cbn [mbind result_bind]. unfold h at 2.
    rewrite parse_to_bytes_new by lia. cbn [mbind result_bind payload_length].
    unfold wrap_u32. rewrite Z.mod_small, Nat2Z.id by lia. by rewrite read_exact_short by (rewrite length_drop, length_app; lia).
  - rewrite read_exact_long by (rewrite length_app; lia). cbn [mbind result_bind]. unfold h at 2.
    rewrite parse_to_bytes_new by lia. cbn [mbind result_bind payload_length].
    unfold wrap_u32. rewrite Z.mod_small, Nat2Z.id by lia. rewrite read_exact_long by (rewrite length_drop, length_app; lia).
    cbn [mbind result_bind]. by rewrite <- !app_assoc, take_take_drop, drop_drop, Nat.add_comm, take_app_add, drop_app_add.
Qed.

(** So a node that speaks the default tier fails on the first frame it is
    sent alone, having answered nothing. *)
Lemma msgpack_frame_unserved ft fin payload (s : NwpNativeNodeServer W) w : Z.of_nat (length payload) <= 65535 ->
  serve_stream eof s (to_bytes (header_new ft TMsgPack fin (Z.of_nat (length payload))) ++ payload) w
  = Some (Err (Io eof), [], w).
Proof.
  intros Hl. unfold serve_stream. set (wire := _ ++ payload). cbn [serve_frames].
  pose proof (msgpack_overread ft fin payload [] Hl) as E. cbv zeta in E. fold wire in E. rewrite app_nil_r in E. by rewrite E.
Qed.

(** A long frame of the JSON tier, whose header is extended, is refused. *)
Lemma extended_json_refused ft fin payload rest : 65535 < Z.of_nat (length payload) ->
  read_wire_frame eof (to_bytes (header_new ft TJson fin (Z.of_nat (length payload))) ++ payload ++ rest)
  = Err (Frame "buffer too small for extended header").
Proof.
  intros Hl. unfold to_bytes, header_new. cbn [is_extended]. replace (0xFFFF <? Z.of_nat (length payload)) with true by lia.
  cbn [frame_type flags payload_length]. unfold read_wire_frame.
  destruct (be_bytes_4 (wrap_u32 (Z.of_nat (length payload)))) as (b4 & b5 & b6 & b7 & ->).
  rewrite <- app_assoc. change ([as_u8 ft; ?f; 0; 0] ++ ?r) with ([as_u8 ft; f; 0; 0] ++ r).
  rewrite read_exact_app by done. by destruct fin, ft.
Qed.
End serving.

(** ** The frames of a stream *)

Section reading.
Context {SC : SerdeCodec} {SL : SerdeLaws}.
Context (c : NwpClient) (Hc : nc_codec c = codec_new create_full).

Abbreviation stream_wire := (fun f => encode (codec_new create_full) Stream (StreamFrame_to_dict f) TMsgPack true).

(** One frame at the head of a body. *)
Lemma read_stream_cons fuel f wire rest : readable TMsgPack (StreamFrame_to_dict f) = true -> stream_wire f = Ok wire ->
  read_stream c (S fuel) (wire ++ rest)
  = if sf_is_last f then Some (Ok [f]) else out ← read_stream c fuel rest; Some (frames ← out; Ok (f :: frames)).
Proof.
  intros Hf E. destruct (encode_parse _ _ _ _ _ _ rest default_codec E) as (n & Hl & Hn & Hp). cbn [read_stream].
  assert (Ht : (header_size (header_new Stream TMsgPack true (Z.of_nat n)) + n)%nat = length wire) by done.
  destruct (wire ++ rest) as [|b body] eqn:Eb; [done|]. rewrite <- Eb in *. rewrite Hp.
  change (payload_length (header_new Stream TMsgPack true (Z.of_nat n))) with (Z.of_nat n). rewrite Nat2Z.id, Ht, length_app.
  split_if. rewrite take_app_length, drop_app_length, Hc.
  rewrite (encode_decoded (codec_new create_full) Stream _ true wire Hf eq_refl default_codec E).
  rewrite bool_decide_true by done. cbn [negb]. by rewrite StreamFrame_roundtrip.
Qed.

(** The frames of a body are read up to the last, and what follows is not
    looked at; a body that ends before its last frame gives the frames it
    has. *)
Lemma read_stream_spec fuel frames wires last_wire last_frame rest :
  Forall2 (fun f wire => (readable TMsgPack (StreamFrame_to_dict f) = true /\ stream_wire f = Ok wire) /\ sf_is_last f = false) frames wires ->
  readable TMsgPack (StreamFrame_to_dict last_frame) = true -> stream_wire last_frame = Ok last_wire -> sf_is_last last_frame = true -> (length frames < fuel)%nat ->
  read_stream c fuel (concat wires ++ last_wire ++ rest) = Some (Ok (frames ++ [last_frame])) /\
  read_stream c fuel (concat wires) = Some (Ok frames).
Proof.
  intros Hall Hl El Hlast. revert fuel. induction Hall as [|f wire frames wires [[Hr E] Hf] Hall IH]; intros fuel Hfuel.
  - destruct fuel as [|fuel]; [cbn in Hfuel; lia|]. split; [|done]. cbn [concat map app].
    by rewrite (read_stream_cons fuel last_frame), Hlast.
  - destruct fuel as [|fuel]; [lia|]. destruct (IH fuel) as [H1 H2]; [cbn in Hfuel; lia|]. cbn [concat].
    rewrite <- app_assoc, !(read_stream_cons fuel f) by done. by rewrite Hf, H1, H2.
Qed.

(** A body that stops within a frame panics. *)
Lemma truncated_stream_panics fuel ft tier fin n body : 0 < n <= 65535 -> (length body < Z.to_nat n)%nat ->
  read_stream c (S fuel) (to_bytes (header_new ft tier fin n) ++ body) = None.
Proof.
  intros Hn Hb. cbn [read_stream]. set (h := header_new ft tier fin n).
  assert (Hh : length (to_bytes h) = 4%nat).
  { rewrite to_bytes_length. unfold header_size, h, header_new. cbn. by split_if. }
  destruct (to_bytes h ++ body) as [|b body'] eqn:Eb; [by destruct (to_bytes h)|]. rewrite <- Eb. unfold h at 1.
  rewrite parse_to_bytes_new by lia. unfold header_size. cbn [is_extended payload_length].
  unfold wrap_u32. rewrite Z.mod_small, length_app by lia. fold h. rewrite Hh. by repeat split_if.
Qed.
End reading.

(** ** A node that counts its calls *)

Definition toy_frame : QueryFrame :=
  mkQueryFrame "a" None None None None None None None (Some "r1") None None None None None None.
Definition toy_caps : CapsFrame := CapsFrame_new "a" [VBool true].
Definition toy_handler (_ : QueryFrame) (calls : nat) : NpsResult CapsFrame * nat := (Ok toy_caps, S calls).
Definition toy_tbl : list Value :=
  [VObject (QueryFrame_to_dict toy_frame); VObject (CapsFrame_to_dict (answered toy_frame toy_caps))].
#[local] Instance toy_serde : SerdeCodec := table_codec toy_tbl.
#[local] Instance toy_serde_laws : SerdeLaws := table_laws toy_tbl.
Definition toy_node : NwpNativeNodeServer nat := with_query_handler native_new toy_handler.

Lemma query_answered_witness :
  client_query (framed toy_node) (nwp_client_new "http://n/") toy_frame 0%nat = (Ok (answered toy_frame toy_caps), 1%nat).
Proof.
  refine (query_answered toy_node "http://n/" eq_refl eq_refl toy_handler toy_frame _ (Ok toy_caps) 0%nat 1%nat eq_refl eq_refl _ eq_refl _ eq_refl _);
    vm_compute; reflexivity.
Defined.

Lemma json_stream_served_witness : exists out,
  serve_stream "eof" (native_with_tier toy_node TJson)
    (concat (map (fun f => to_bytes (header_new (fst f) TJson true (Z.of_nat (length (snd f)))) ++ snd f)
               [(Query, [0]); (Query, [0])]) ++ [16; 4]) 0%nat = Some (Ok tt, out ++ out, 2%nat) /\ out <> [].
Proof.
  exists [4; 4; 0; 1; 1]. rewrite (json_stream_served "eof" (native_with_tier toy_node TJson) [(Query, [0]); (Query, [0])] [16; 4] 0%nat).
  - split; [vm_compute; reflexivity|discriminate].
  - repeat constructor; cbn; lia.
  - cbn; lia.
Defined.
