(* ===== verification/NopClient.v ===== *)
(** * NopClient: submitting tasks and delivering callbacks

    Models nps-nop/src/client.rs and callback.rs: the requests of a client and
    its wait for the end of a task, the signature of a callback and its
    delivery with retries.  HTTP, the clock and the sleep act on a state of
    the surroundings; HMAC and base64 are parameters. *)

From S2P Require Import Prelude RustStr Floats Json CoreFrames CoreCodec CoreCache NopModels NopFrames NipDer NipVerifier NopDag NopCallback NopProfile NopProfileSpec.
Local Open Scope Z_scope.

(** ** The client *)

Record NopClient : Type := mkNopClient { nl_base_url : string }.
Definition nop_client_new (base_url : string) : NopClient := mkNopClient (trim_end_matches_slash base_url).

Record NopHttpRequest : Type := mkNopHttpRequest { hq_method : string; hq_url : string; hq_body : option (list Z) }.
(** The body may fail to arrive. *)
Record NopHttpResponse : Type := mkNopHttpResponse { hr_status : Z; hr_body : result string (list Z) }.

Definition is_ok (status : Z) : bool := (200 <=? status) && (status <? 300).
Definition check_ok (status : Z) (path : string) : NpsResult unit :=
  if is_ok status then Ok tt else Err (Io ("NOP " +:+ path +:+ " failed: HTTP " +:+ fmt_Z status)).

Section client.
Context {SC : SerdeCodec} {W : Type}.
(** HTTP, the clock, the sleep, and serde's error for a document that is not
    an object. *)
Context (http : NopHttpRequest -> W -> result string NopHttpResponse * W) (now : W -> Z) (sleep : Z -> W -> W)
  (not_a_map : Value -> string).
Context (self : NopClient).

Definition nop_send (method path shown : string) (body : option (list Z)) (w : W) : NpsResult NopHttpResponse * W :=
  let '(r, w) := http (mkNopHttpRequest method (nl_base_url self +:+ path) body) w in
  (res ← map_err Io r; _ ← check_ok (hr_status res) shown; Ok res, w).

(** [Response::json]. *)
Definition json_body (res : NopHttpResponse) : NpsResult Value :=
  map_err Codec (b ← hr_body res; json_from_slice b).

Definition submit (frame : TaskFrame) (w : W) : NpsResult string * W :=
  match map_err Codec (json_to_vec (TaskFrame_to_dict frame)) with
  | Err e => (Err e, w)
  | Ok body =>
    let '(r, w) := nop_send "POST" "/tasks" "/tasks" (Some body) w in
    (res ← r; v ← json_body res;
     ok_or (vget "task_id" v ≫= as_str) (Frame "no task_id in response"), w)
  end.

Definition get_status (task_id : string) (w : W) : NpsResult Map * W :=
  let '(r, w) := nop_send "GET" ("/tasks/" +:+ task_id) "/tasks/{id}" None w in
  (res ← r; v ← json_body res;
   match v with VObject m => Ok m | v => Err (Codec (not_a_map v)) end, w).

Definition cancel_task (task_id : string) (w : W) : NpsResult unit * W :=
  let '(r, w) := nop_send "DELETE" ("/tasks/" +:+ task_id) "/tasks/{id}" None w in
  (_ ← r; Ok tt, w).

(** The loop of [wait]; [None] is no more fuel. *)
Fixpoint poll (fuel : nat) (task_id : string) (deadline poll_interval : Z) (w : W) : option (NpsResult Map * W) :=
  match fuel with
  | O => None
  | S fuel =>
    match get_status task_id w with
    | (Err e, w) => Some (Err e, w)
    | (Ok status, w) =>
      if status_is_terminal status then Some (Ok status, w)
      else if deadline <=? now w then Some (Err (Io ("timeout waiting for task " +:+ task_id)), w)
      else poll fuel task_id deadline poll_interval (sleep poll_interval w)
    end
  end.

Definition wait (fuel : nat) (task_id : string) (timeout poll_interval : Z) (w : W) : option (NpsResult Map * W) :=
  poll fuel task_id (now w + timeout) poll_interval w.
End client.

(** ** Callbacks *)

Definition CALLBACK_MAX_RETRIES : Z := 3.

(** [decode_base64url]'s normalization: the standard alphabet, padded to a
    multiple of four bytes. *)
Definition std_char (a : ascii) : ascii :=
  if Ascii.eqb a "-" then "+"%char else if Ascii.eqb a "_" then "/"%char else a.
Fixpoint std_alphabet (s : string) : string :=
  match s with EmptyString => EmptyString | String.String a r => String.String (std_char a) (std_alphabet r) end.
Definition padded (s : string) : string :=
  let pad := ((4 - length (bytes_of s) mod 4) mod 4)%nat in
  s +:+ of_bytes (repeat 61 pad).

Record CallbackPost : Type := mkCallbackPost { cp_url : string; cp_signature : option string; cp_body : string }.

Section callback.
Context {D : Digests} `{Base64} (hmac_sha256 : list Z -> list Z -> list Z).

Definition decode_base64url (value : string) : option (list Z) :=
  match b64_standard (padded (std_alphabet (trim value))) with Ok b => Some b | Err _ => None end.

Definition build_callback_signature (callback_secret : option string) (payload : string) : option string :=
  secret ← callback_secret;
  if is_empty (trim secret) then None
  else
    key ← decode_base64url (trim secret);
    if negb (length key =? 32)%nat then None
    else Some ("sha256=" +:+ hex_encode (hmac_sha256 key (bytes_of payload))).

Context {W : Type}.
(** A post, and whether a response with a success status came. *)
Context (send : CallbackPost -> W -> bool * W).

(** The attempts with the delays slept between them, in milliseconds; [None]
    is the overflow of a delay. *)
Fixpoint callback_attempts (req : CallbackPost) (retry_base_delay_ms : Z) (attempts : list Z) (w : W) : option (list Z * W) :=
  match attempts with
  | [] => Some ([], w)
  | attempt :: rest =>
    let '(delivered, w) := send req w in
    if delivered then Some ([], w)
    else
      delays ← (if (attempt <? CALLBACK_MAX_RETRIES) && (0 <? retry_base_delay_ms)
                then let delay := retry_base_delay_ms * 2 ^ (attempt - 1) in
                     if delay <=? u64_max then Some [delay] else None
                else Some []);
      '(later, w) ← callback_attempts req retry_base_delay_ms rest w;
      Some (delays ++ later, w)
  end.

Definition fire_callback (callback_url : string) (callback_secret : option string) (payload : string)
    (retry_base_delay_ms : Z) (w : W) : option (list Z * W) :=
  callback_attempts (mkCallbackPost callback_url (build_callback_signature callback_secret payload) payload)
    retry_base_delay_ms [1; 2; 3] w.
End callback.

(** ** Waiting *)

Section waiting.
Context {SC : SerdeCodec} {W : Type}.
Context (http : NopHttpRequest -> W -> result string NopHttpResponse * W) (now : W -> Z) (sleep : Z -> W -> W)
  (not_a_map : Value -> string) (self : NopClient).

(** Time does not run backwards, and a sleep lasts at least as long as asked. *)
Class ClockLaws : Prop := {
  request_takes_time req w : now w <= now (snd (http req w));
  sleep_lasts d w : now w + d <= now (sleep d w)
}.

Lemma get_status_time `{ClockLaws} task_id w r w' : get_status http not_a_map self task_id w = (r, w') -> now w <= now w'.
Proof.
  unfold get_status, nop_send. pose proof (request_takes_time (mkNopHttpRequest "GET" (nl_base_url self +:+ "/tasks/" +:+ task_id) None) w) as T.
  destruct (http _ w) as [x w1]. by intros [= _ <-].
Qed.

(** Waiting for a task ends: with fuel for one poll per interval up to
    the deadline there is an answer, which is the status of a task that has
    ended, the error of a request, or the time-out, and the latter only after
    the time asked for. *)
Theorem wait_ends `{ClockLaws} task_id timeout interval w : 0 < interval -> 0 <= timeout ->
  exists r w', wait http now sleep not_a_map self (S (S (Z.to_nat (timeout / interval)))) task_id timeout interval w = Some (r, w') /\
  match r with
  | Ok status => status_is_terminal status = true
  | Err e => (exists w0, get_status http not_a_map self task_id w0 = (Err e, w')) \/
             (e = Io ("timeout waiting for task " +:+ task_id) /\ now w + timeout <= now w')
  end.
Proof.
  intros Hi Ht. unfold wait. set (deadline := now w + timeout).
  assert (G : forall fuel w0, deadline - now w0 <= Z.of_nat fuel * interval ->
    exists r w', poll http now sleep not_a_map self (S fuel) task_id deadline interval w0 = Some (r, w') /\
    match r with
    | Ok status => status_is_terminal status = true
    | Err e => (exists w1, get_status http not_a_map self task_id w1 = (Err e, w')) \/
               (e = Io ("timeout waiting for task " +:+ task_id) /\ deadline <= now w')
    end).
  2:{ apply G. unfold deadline. pose proof (Z.div_mod timeout interval ltac:(lia)) as E.
      pose proof (Z.mod_pos_bound timeout interval Hi). assert (0 <= timeout / interval) by (by apply Z.div_pos; lia).
      rewrite Nat2Z.inj_succ, Z2Nat.id by done. nia. }
  induction fuel as [|fuel IH]; intros w0 Hf; cbn [poll];
    destruct (get_status http not_a_map self task_id w0) as [[status|e] w1] eqn:E;
    try (exists (Err e), w1; split; [done|]; left; by exists w0);
    apply get_status_time in E; (destruct (status_is_terminal status) eqn:Es; [by exists (Ok status), w1|]);
    (destruct (Z.leb_spec deadline (now w1)) as [Hd|Hd]; [eexists _, w1; split; [done|]; by right|]); [lia|].
  apply IH. pose proof (sleep_lasts interval w1). lia.
Qed.
End waiting.

(** ** Delivering a callback *)

Section delivering.
Context {D : Digests} {B64 : Base64} (hmac_sha256 : list Z -> list Z -> list Z) {W : Type}.
Context (send : CallbackPost -> W -> bool * W).

(** The same post again and again: its outcomes. *)
Fixpoint posts (n : nat) (req : CallbackPost) (w : W) : list bool * W :=
  match n with
  | O => ([], w)
  | S n => let '(ok, w) := send req w in let '(oks, w) := posts n req w in (ok :: oks, w)
  end.

(** A callback is one post, sent once and again after each failure, three
    times at most, until one is answered with success; the delays between
    them double. *)
Lemma callback_delivery url secret payload base w delays w' :
  fire_callback hmac_sha256 send url secret payload base w = Some (delays, w') ->
  exists n ok, (n < 3)%nat /\
    posts (S n) (mkCallbackPost url (build_callback_signature hmac_sha256 secret payload) payload) w = (repeat false n ++ [ok], w') /\
    (ok = true \/ n = 2%nat) /\
    delays = if 0 <? base then map (fun k => base * 2 ^ Z.of_nat k) (seq 0 n) else [].
Proof.
  unfold fire_callback. set (req := mkCallbackPost _ _ _). cbn [callback_attempts].
  destruct (send req w) as [[|] w1] eqn:E1.
  { intros [= <- <-]. exists 0%nat, true. cbn [posts]. rewrite E1. repeat split; [lia|by left|by destruct (0 <? base)]. }
  destruct (send req w1) as [[|] w2] eqn:E2; [|destruct (send req w2) as [ok w3] eqn:E3]; intros H;
    [exists 1%nat, true|exists 2%nat, ok]; cbn [posts]; rewrite E1, E2, ?E3;
    destruct (0 <? base); [|idtac| |]; cbn in H |- *; try destruct ok; cbn in H;
    repeat match type of H with context [if ?b then _ else _] => destruct b; [|done]; cbn in H end;
    injection H as <- <-; repeat split; first [lia | by left | by right].
Qed.

(** A receiver that reads the same key accepts the signature that is sent. *)
Lemma callback_accepted secret payload key :
  is_empty (trim secret) = false -> decode_base64url (trim secret) = Some key -> length key = 32%nat ->
  b64_url_no_pad secret = Ok key ->
  exists signature, build_callback_signature hmac_sha256 (Some secret) payload = Some signature /\
    hmac_valid hmac_sha256 secret payload signature = true.
Proof.
  intros He Hd Hl Hu. eexists. split.
  - cbn. rewrite He, Hd. cbn. by rewrite Hl.
  - apply hmac_valid_exact. eauto.
Qed.

(** A secret the sender reads and the receiver does not, such as one with its
    padding, signs callbacks that are all refused. *)
Lemma padded_secret_refused secret payload key e :
  is_empty (trim secret) = false -> decode_base64url (trim secret) = Some key -> length key = 32%nat ->
  b64_url_no_pad secret = Err e ->
  exists signature, build_callback_signature hmac_sha256 (Some secret) payload = Some signature /\
    hmac_valid hmac_sha256 secret payload signature = false.
Proof.
  intros He Hd Hl Hu. eexists. split.
  - cbn. rewrite He, Hd. cbn. by rewrite Hl.
  - unfold hmac_valid. by rewrite Hu.
Qed.
End delivering.

(** Padding completes a text to whole groups of four and leaves a complete
    one alone. *)
Lemma padded_whole s : (length (bytes_of (padded s)) mod 4 = 0)%nat /\ (length (bytes_of s) mod 4 = 0 -> padded s = s)%nat.
Proof.
  unfold padded. set (n := length (bytes_of s)). pose proof (Nat.mod_upper_bound n 4 ltac:(done)) as U.
  pose proof (Nat.div_mod n 4 ltac:(done)) as E. split.
  - assert (F : forall k, Forall u8_range (repeat 61 k)) by (induction k; constructor; [unfold u8_range; lia|done]).
    rewrite bytes_of_app, length_app, bytes_of_of_bytes, repeat_length by done. fold n. rewrite Nat.Div0.add_mod.
    by destruct (n mod 4)%nat as [|[|[|[|k]]]]; [..|lia].
  - intros Hz. rewrite Hz. change (s +:+ "" = s). clear. induction s as [|a s IH]; [done|].
    change (String.String a (s +:+ "") = String.String a s). by rewrite IH.
Qed.

(** Without a secret, or with one of another length, callbacks are not signed. *)
Lemma unsigned_callback {D : Digests} {B64 : Base64} hmac_sha256 secret payload key :
  decode_base64url (trim secret) = Some key -> length key <> 32%nat ->
  build_callback_signature hmac_sha256 (Some secret) payload = None.
Proof.
  intros Hd Hl. cbn. destruct (is_empty (trim secret)); [done|]. rewrite Hd. cbn. by rewrite (proj2 (Nat.eqb_neq _ _) Hl).
Qed.

(** ** A task that ends at the third poll *)

#[local] Instance toy_status : SerdeCodec :=
  table_codec [VObject [("state", VString "running")]; VObject [("state", VString "completed")]].
#[local] Instance toy_clock_laws : ClockLaws
  (fun _ (w : Z * nat) => (Ok (mkNopHttpResponse 200 (Ok [if (snd w <? 2)%nat then 0 else 1])), (fst w, S (snd w))))
  fst (fun d w => (fst w + d, snd w)).
Proof. constructor; intros; cbn; lia. Qed.

Lemma wait_ends_witness : exists r w',
  wait (fun _ (w : Z * nat) => (Ok (mkNopHttpResponse 200 (Ok [if (snd w <? 2)%nat then 0 else 1])), (fst w, S (snd w))))
    fst (fun d w => (fst w + d, snd w)) (fun _ => "") (nop_client_new "http://o") 4 "t" 100 50 (7, 0%nat) = Some (r, w').
Proof.
  destruct (wait_ends (fun _ (w : Z * nat) => (Ok (mkNopHttpResponse 200 (Ok [if (snd w <? 2)%nat then 0 else 1])), (fst w, S (snd w))))
              fst (fun d w => (fst w + d, snd w)) (fun _ => "") (nop_client_new "http://o") "t" 100 50 (7, 0%nat)) as (r & w' & E & _);
    [lia..|]. exists r, w'. exact E.
Defined.
