(* ===== verification/NipIdentity.v ===== *)
(** * NipIdentity: a signing key and its encrypted file

    Models nps-nip/src/identity.rs: signatures over canonical JSON, and the
    file in which the key is kept under a passphrase.  AES-GCM and PBKDF2 are
    parameters; so is the file system, a state with a read and a write. *)

From S2P Require Import Prelude RustStr Floats Json CoreFrames CoreCodec CoreCache NcpFrames NipFrames NipDer NipX509 NipSigner NipReputation NipVerifier.
Local Open Scope Z_scope.

Definition PBKDF2_ITERS : Z := 600000.
Definition SALT_LEN : nat := 16.
Definition NONCE_LEN : nat := 12.

(** ed25519-dalek's key bytes, PBKDF2 with HMAC-SHA256, and AES-256-GCM under
    a key of 32 bytes and a nonce of 12. *)
Class KeyCipher `{Ed25519Signing} : Type := {
  sk_to_bytes : SigningKey -> list Z;
  sk_from_bytes : list Z -> SigningKey;
  pbkdf2_sha256 : list Z -> list Z -> Z -> result string (list Z);
  aes_encrypt : list Z -> list Z -> list Z -> result string (list Z);
  aes_decrypt : list Z -> list Z -> list Z -> result string (list Z)
}.

(** Their documented behaviour, with that of hex and of the text of a
    signature. *)
Class KeyCipherLaws {D : Digests} `{KeyCipher} `{HexDecoder} `{Base64} `{Base64StdEncoder} : Prop := {
  sk_bytes_back sk : sk_from_bytes (sk_to_bytes sk) = sk;
  sk_bytes_len sk : length (sk_to_bytes sk) = 32%nat;
  aes_back key nonce plain ct : aes_encrypt key nonce plain = Ok ct -> aes_decrypt key nonce ct = Ok plain;
  aes_bytes key nonce plain ct : aes_encrypt key nonce plain = Ok ct -> Forall u8_range ct;
  hex_back b : Forall u8_range b -> hex_decode (hex_encode b) = Ok b;
  b64_std_back b : Forall u8_range b -> b64_standard (b64_standard_encode b) = Ok b;
  pk_bytes_u8 k : Forall u8_range (key_to_bytes k);
  signature_u8 s : Forall u8_range (sig_to_bytes s);
  pk_bytes_len k : length (key_to_bytes k) = 32%nat;
  pk_bytes_back k : key_from_bytes (key_to_bytes k) = Ok k;
  signature_len s : length (sig_to_bytes s) = 64%nat;
  signature_back s : sig_from_bytes (sig_to_bytes s) = s;
  signature_slice b : length b = 64%nat -> sig_from_slice b = Ok (sig_from_bytes b);
  signature_verifies sk m : ed_verify (verifying_key sk) m (ed_sign sk m) = Ok tt
}.

Section identity.
Context {D : Digests} `{Base64} `{Base64StdEncoder} `{KeyCipher} `{HexDecoder}.

Definition pub_key_string (sk : SigningKey) : string := "ed25519:" +:+ hex_encode (key_to_bytes (verifying_key sk)).

Definition identity_sign (sk : SigningKey) (payload : FrameDict) : string :=
  "ed25519:" +:+ b64_standard_encode (sig_to_bytes (ed_sign sk (bytes_of (canonical_json payload)))).

Definition verify_with_key (vk : VerifyingKey) (payload : FrameDict) (signature : string) : bool :=
  match strip_prefix "ed25519:" signature with
  | None => false
  | Some sig_b64 =>
    match b64_standard sig_b64 with
    | Err _ => false
    | Ok bytes =>
      if negb (length bytes =? 64)%nat then false
      else is_ok (ed_verify vk (bytes_of (canonical_json payload)) (sig_from_bytes bytes))
    end
  end.
Definition identity_verify (sk : SigningKey) (payload : FrameDict) (signature : string) : bool :=
  verify_with_key (verifying_key sk) payload signature.

(** ** The file *)

Section file.
Context `{JsonParser} {W : Type} (write_file : string -> string -> W -> result string unit * W)
  (read_to_string : string -> W -> result string string).

(** [Nonce::from_slice], which panics at another length than twelve. *)
Definition nonce_from_slice (nonce : list Z) : option (list Z) :=
  if (length nonce =? NONCE_LEN)%nat then Some nonce else None.

Definition envelope (sk : SigningKey) (salt nonce ciphertext : list Z) : Value :=
  VObject [("algorithm", VString "ed25519"); ("ciphertext", VString (hex_encode ciphertext));
           ("nonce", VString (hex_encode nonce)); ("pub_key", VString (pub_key_string sk));
           ("salt", VString (hex_encode salt)); ("version", VNumber (PosInt 1))].

(** [salt] and [nonce] are what the random generator filled in. *)
Definition identity_save (sk : SigningKey) (salt nonce : list Z) (path passphrase : string) (w : W)
    : option (NpsResult unit * W) :=
  match map_err Identity (pbkdf2_sha256 (bytes_of passphrase) salt PBKDF2_ITERS) with
  | Err e => Some (Err e, w)
  | Ok key =>
    nonce_obj ← nonce_from_slice nonce;
    match map_err Identity (aes_encrypt key nonce_obj (sk_to_bytes sk)) with
    | Err e => Some (Err e, w)
    | Ok ciphertext =>
      let '(r, w) := write_file path (json_to_string (envelope sk salt nonce ciphertext)) w in
      Some (map_err Io r, w)
    end
  end.

(** A field of hexadecimal digits. *)
Definition hex_field (v : Value) (name : string) : NpsResult string :=
  ok_or (vget name v ≫= as_str) (Identity ("missing " +:+ name)).

Definition identity_load (path passphrase : string) (w : W) : option (NpsResult SigningKey) :=
  match
    (data ← map_err Io (read_to_string path w);
     v ← map_err Codec (parse_json data);
     salt_hex ← hex_field v "salt"; nonce_hex ← hex_field v "nonce"; ct_hex ← hex_field v "ciphertext";
     salt ← map_err Identity (hex_decode salt_hex);
     nonce ← map_err Identity (hex_decode nonce_hex);
     ct ← map_err Identity (hex_decode ct_hex);
     key ← map_err Identity (pbkdf2_sha256 (bytes_of passphrase) salt PBKDF2_ITERS);
     Ok (key, nonce, ct))
  with
  | Err e => Some (Err e)
  | Ok (key, nonce, ct) =>
    nonce_obj ← nonce_from_slice nonce;
    Some (plaintext ← map_err (fun _ => Identity "decryption failed — wrong passphrase?") (aes_decrypt key nonce_obj ct);
          if negb (length plaintext =? 32)%nat then Err (Identity "invalid key length")
          else Ok (sk_from_bytes plaintext))
  end.
End file.
End identity.

(** ** Signatures *)

Section signatures.
Context `{KeyCipherLaws}.

(** What an identity signs, everyone who has its key accepts: itself, a
    verifier of the key as text, and the verifier of identity frames. *)
Lemma identity_signature_accepted sk payload :
  identity_verify sk payload (identity_sign sk payload) = true /\
  verify_with_pub_key_str payload (pub_key_string sk) (identity_sign sk payload) = true.
Proof.
  unfold identity_verify, verify_with_key, verify_with_pub_key_str, pub_key_string, identity_sign.
  rewrite !strip_prefix_app, b64_std_back, hex_back by (apply signature_u8 || apply pk_bytes_u8).
  rewrite signature_len, pk_bytes_len, pk_bytes_back, signature_back. cbn [negb Nat.eqb].
  by rewrite signature_verifies.
Qed.

Lemma identity_issues_frames `{Calendar} `{X509Parser} `{Timestamps} sk f :
  id_signature f = Some (identity_sign sk (ident_unsigned_dict f)) ->
  valid (verify_signature f (pub_key_string sk)) = true.
Proof.
  intros E. unfold verify_signature. rewrite E. unfold identity_sign. rewrite strip_prefix_app.
  unfold parse_pub_key_string, pub_key_string. rewrite strip_prefix_app, hex_back by apply pk_bytes_u8. cbn [map_err mbind result_bind].
  rewrite pk_bytes_len. cbn [negb Nat.eqb]. rewrite pk_bytes_back, b64_std_back, signature_slice by (apply signature_len || apply signature_u8).
  by rewrite signature_back, signature_verifies.
Qed.

(** ** Keeping a key *)

Context `{JsonParser} {W : Type} (write_file : string -> string -> W -> result string unit * W)
  (read_to_string : string -> W -> result string string).

(** A file that was written is read back. *)
Hypothesis file_back : forall path text w w', write_file path text w = (Ok tt, w') -> read_to_string path w' = Ok text.

(** An identity that was saved is loaded again, the same, under its
    passphrase; a passphrase whose key does not open the ciphertext is refused,
    with the error that says so. *)
Theorem saved_identity_loads sk salt nonce path passphrase w w' :
  Forall u8_range salt -> Forall u8_range nonce ->
  (forall key ct, pbkdf2_sha256 (bytes_of passphrase) salt PBKDF2_ITERS = Ok key -> aes_encrypt key nonce (sk_to_bytes sk) = Ok ct ->
     parse_json (json_to_string (envelope sk salt nonce ct)) = Ok (envelope sk salt nonce ct)) ->
  identity_save write_file sk salt nonce path passphrase w = Some (Ok tt, w') ->
  identity_load read_to_string path passphrase w' = Some (Ok sk) /\
  forall other key key', pbkdf2_sha256 (bytes_of passphrase) salt PBKDF2_ITERS = Ok key ->
    pbkdf2_sha256 (bytes_of other) salt PBKDF2_ITERS = Ok key' ->
    (forall ct, aes_encrypt key nonce (sk_to_bytes sk) = Ok ct -> exists e, aes_decrypt key' nonce ct = Err e) ->
    identity_load read_to_string path other w' = Some (Err (Identity "decryption failed — wrong passphrase?")).
Proof.
  intros Hs Hno Hp. unfold identity_save. destruct (pbkdf2_sha256 (bytes_of passphrase) salt PBKDF2_ITERS) as [key|] eqn:Ek; [|done]. cbn [map_err].
  destruct (nonce_from_slice nonce) as [n|] eqn:En; [|done]. cbn [mbind option_bind].
  destruct (aes_encrypt key n (sk_to_bytes sk)) as [ct|] eqn:Ec; [|done]. cbn [map_err].
  destruct (write_file path _ w) as [[[]|] w1] eqn:Ew; [|done]. intros [= <-]. apply file_back in Ew.
  assert (Hn : n = nonce) by (unfold nonce_from_slice in En; destruct (_ =? _)%nat; congruence). subst n.
  assert (L : forall p, identity_load read_to_string path p w1 =
    match pbkdf2_sha256 (bytes_of p) salt PBKDF2_ITERS with
    | Err e => Some (Err (Identity e))
    | Ok k => Some (plaintext ← map_err (fun _ => Identity "decryption failed — wrong passphrase?") (aes_decrypt k nonce ct);
                    if negb (length plaintext =? 32)%nat then Err (Identity "invalid key length") else Ok (sk_from_bytes plaintext))
    end).
  { intros p. unfold identity_load. rewrite Ew. cbn [map_err mbind result_bind]. rewrite (Hp key ct eq_refl Ec). cbn.
    apply aes_bytes in Ec. rewrite !hex_back by done. cbn.
    destruct (pbkdf2_sha256 (bytes_of p) salt PBKDF2_ITERS) as [k|]; [|done]. cbn. by rewrite En. }
  rewrite L, Ek. split.
  - apply aes_back in Ec. rewrite Ec. cbn [map_err mbind result_bind]. rewrite sk_bytes_len. cbn [negb Nat.eqb]. by rewrite sk_bytes_back.
  - intros other k0 k [= <-] Hk Ho. rewrite L, Hk. destruct (Ho ct Ec) as (e & ->). done.
Qed.

(** A file whose nonce has another length than twelve bytes makes the loader
    panic. *)
Lemma odd_nonce_panics path passphrase w text v salt_hex nonce_hex ct_hex salt nonce ct key :
  read_to_string path w = Ok text -> parse_json text = Ok v ->
  vget "salt" v = Some (VString salt_hex) -> vget "nonce" v = Some (VString nonce_hex) ->
  vget "ciphertext" v = Some (VString ct_hex) -> hex_decode salt_hex = Ok salt -> hex_decode nonce_hex = Ok nonce ->
  hex_decode ct_hex = Ok ct -> pbkdf2_sha256 (bytes_of passphrase) salt PBKDF2_ITERS = Ok key ->
  length nonce <> NONCE_LEN -> identity_load read_to_string path passphrase w = None.
Proof.
  intros E1 E2 E3 E4 E5 E6 E7 E8 E9 Hl. unfold identity_load, hex_field. rewrite E1. cbn [map_err mbind result_bind]. rewrite E2.
  cbn [map_err mbind result_bind]. rewrite E3, E4, E5. cbn. rewrite E6, E7, E8. cbn. rewrite E9. cbn. unfold nonce_from_slice.
  by rewrite (proj2 (Nat.eqb_neq _ _) Hl).
Qed.
End signatures.

(** ** A toy file *)

#[local] Instance std_b64 : Base64 := {|
  b64_standard s := Ok (bytes_of s); b64_url_no_pad s := Ok (bytes_of s); b64_url s := Ok (bytes_of s) |}.
#[local] Instance std_encoder : Base64StdEncoder := {| b64_standard_encode := of_bytes |}.
#[local] Instance unit_ed25519 : Ed25519 := {|
  VerifyingKey := unit; Signature := unit; key_from_bytes _ := Ok tt; sig_from_slice _ := Ok tt;
  sig_from_bytes _ := tt; ed_verify _ _ _ := Ok tt |}.
#[local] Instance unit_signing : Ed25519Signing := {|
  SigningKey := unit; verifying_key _ := tt; ed_sign _ _ := tt;
  sig_to_bytes _ := repeat 0 64; key_to_bytes _ := repeat 0 32 |}.
#[local] Instance raw_hex : HexDecoder := {| hex_decode s := Ok (bytes_of s) |}.
#[local] Instance raw_digests : Digests := {| sha256 l := l; hex_encode := of_bytes; json_to_string _ := "j" |}.
(** The key is the passphrase, and a ciphertext starts with its key. *)
#[local] Instance lock_box : KeyCipher := {|
  sk_to_bytes _ := repeat 0 32; sk_from_bytes _ := tt;
  pbkdf2_sha256 pass _ _ := Ok pass;
  aes_encrypt key _ plain := if decide (Forall u8_range (key ++ plain)) then Ok (key ++ plain) else Err "no";
  aes_decrypt key _ ct := if decide (take (length key) ct = key) then Ok (drop (length key) ct) else Err "no" |}.
#[local] Instance lock_box_laws : KeyCipherLaws.
Proof.
  assert (Z0 : forall n, Forall u8_range (repeat 0 n)) by (induction n; constructor; [unfold u8_range; lia|done]).
  constructor; try done; try (intros; apply Z0).
  - intros []. done.
  - intros key nonce plain ct. cbn. case_decide as Hu; [|done]. intros [= <-]. rewrite take_app_length, drop_app_length.
    by rewrite decide_True.
  - intros key nonce plain ct. cbn. case_decide as Hu; [|done]. by intros [= <-].
  - intros b Hb. cbn. by rewrite bytes_of_of_bytes.
  - intros b Hb. cbn. by rewrite bytes_of_of_bytes.
  - intros []. done.
  - intros []. done.
Qed.

Definition unit_key : SigningKey := tt.

#[local] Instance one_envelope : JsonParser := {|
  parse_json _ := Ok (envelope unit_key (repeat 1 16) (repeat 2 12) (bytes_of "pw" ++ repeat 0 32)) |}.

Lemma saved_identity_loads_witness :
  let write _ text (_ : string) := (Ok tt : result string unit, text) in
  let read _ w := Ok w : result string string in
  exists w, identity_save write unit_key (repeat 1 16) (repeat 2 12) "ca.key" "pw" "" = Some (Ok tt, w) /\
    identity_load read "ca.key" "pw" w = Some (Ok unit_key) /\
    identity_load read "ca.key" "other" w = Some (Err (Identity "decryption failed — wrong passphrase?")).
Proof.
  intros write read. eexists. split; [vm_compute; reflexivity|].
  assert (Hb : forall z n, u8_range z -> Forall u8_range (repeat z n)) by (intros z n Hz; induction n; by constructor).
  destruct (saved_identity_loads write read ltac:(by intros ? ? ? ? [= <-]) unit_key (repeat 1 16) (repeat 2 12) "ca.key" "pw" "" "j")
    as [E1 E2].
  - by apply Hb.
  - by apply Hb.
  - intros key ct [= <-]. cbn. case_decide; [|done]. intros [= <-]. reflexivity.
  - vm_compute. reflexivity.
  - split; [exact E1|]. apply (E2 "other" (bytes_of "pw") (bytes_of "other")); [done..|].
    intros ct. cbn. case_decide; [|done]. intros [= <-]. eexists. case_decide as Hd; [done|reflexivity].
Defined.
