(* ===== verification/CaServer.v ===== *)
(** * CaServer: the stand-alone CA server

    Models ca-server: the key file and the certificates (ca.rs), the statements
    on the certificate table (db.rs), and the handlers with their routes
    (main.rs).  The database connection is a parameter, a state with an
    execution and a query; so are the cipher and the file system.  The clock
    readings and random bytes of a request are arguments.  A handler's [None]
    is a panic, after which the connection goes unanswered.

    The dates come first: from seconds since the epoch to a date and its text,
    and back.  Sums and differences are of [u64]; [None] is the panic of one
    that leaves that width. *)

From S2P Require Import Prelude RustStr Floats Json CoreFrames CoreCodec CoreCache NcpFrames NipFrames NipDer NipX509 NipVerifier NipSigner NipCaStore NipReputation NipCaRouter NipCaSqlStore NipIdentity.
(** ** Dates *)

Local Open Scope Z_scope.

(** ** From seconds to a text *)

Definition civil (days : Z) : Z * Z * Z :=
  let z := days + 719468 in
  let era := z / 146097 in
  let doe := z - era * 146097 in
  let yoe := (doe - doe / 1460 + doe / 36524 - doe / 146096) / 365 in
  let y := yoe + era * 400 in
  let doy := doe - (365 * yoe + yoe / 4 - yoe / 100) in
  let mp := (5 * doy + 2) / 153 in
  let d := doy - (153 * mp + 2) / 5 + 1 in
  let mo := if mp <? 10 then mp + 3 else mp - 9 in
  (if mo <=? 2 then y + 1 else y, mo, d).

Definition epoch_to_parts (secs : Z) : Z * Z * Z * Z * Z * Z :=
  let sec := secs mod 60 in
  let mins := secs / 60 in
  let mi := mins mod 60 in
  let hours := mins / 60 in
  let h := hours mod 24 in
  let '(y, mo, d) := civil (hours / 24) in
  (y, mo, d, h, mi, sec).

Fixpoint zeros (n : nat) : string := match n with O => "" | S n => String.String "0" (zeros n) end.
(** [{:0w}]. *)
Definition pad (w : nat) (n : Z) : string := let s := fmt_Z n in zeros (w - String.length s) +:+ s.

Definition fmt_iso (secs : Z) : string :=
  let '(y, mo, d, h, mi, sec) := epoch_to_parts secs in
  pad 4 y +:+ "-" +:+ pad 2 mo +:+ "-" +:+ pad 2 d +:+ "T" +:+ pad 2 h +:+ ":" +:+ pad 2 mi +:+ ":" +:+ pad 2 sec +:+ "Z".

(** ** And back *)

Definition u64_of (z : Z) : option Z := if (0 <=? z) && (z <=? u64_max) then Some z else None.

Definition days_since_epoch (y mo d : Z) : option Z :=
  '(y, mo) ← (if mo <=? 2 then y ← u64_of (y - 1); Some (y, mo + 9) else Some (y, mo - 3));
  let era := y / 400 in
  let yoe := y - era * 400 in
  m ← u64_of (153 * mo + 2);
  md ← u64_of (m / 5 + d);
  doy ← u64_of (md - 1);
  doe ← u64_of (yoe * 365 + yoe / 4 - yoe / 100 + doy);
  n ← u64_of (era * 146097 + doe);
  u64_of (n - 719468).

Definition is_separator (a : ascii) : bool := Ascii.eqb a "T" || Ascii.eqb a "-" || Ascii.eqb a ":".
Fixpoint split_chars (p : ascii -> bool) (s : string) : list string :=
  match s with
  | EmptyString => [""]
  | String.String a r =>
    if p a then "" :: split_chars p r
    else match split_chars p r with x :: l => String.String a x :: l | [] => [String.String a ""] end
  end.
Definition trim_end_z (s : string) : string := of_bytes (rev (drop_while (fun b => b =? 90) (rev (bytes_of s)))).

Definition iso_to_epoch (s : string) : option Z :=
  match omap parse_u64 (split_chars is_separator (trim_end_z s)) with
  | y :: mo :: d :: h :: mi :: sec :: _ =>
    days ← days_since_epoch y mo d;
    n ← u64_of (days * 86400);
    n ← u64_of (n + h * 3600);
    n ← u64_of (n + mi * 60);
    u64_of (n + sec)
  | _ => Some 0
  end.

(** ** The Gregorian calendar *)

Definition leap (y : Z) : bool := (y mod 4 =? 0) && (negb (y mod 100 =? 0) || (y mod 400 =? 0)).
Definition month_days (y mo : Z) : Z :=
  if mo =? 2 then if leap y then 29 else 28
  else if (mo =? 4) || (mo =? 6) || (mo =? 9) || (mo =? 11) then 30 else 31.
Definition next_day (c : Z * Z * Z) : Z * Z * Z :=
  let '(y, mo, d) := c in
  if d <? month_days y mo then (y, mo, d + 1)
  else if mo <? 12 then (y, mo + 1, 1) else (y + 1, 1, 1).

(** ** One era by computation, the others by their distance to it *)

(** The date of a day of the first era. *)
Definition civil_doe (doe : Z) : Z * Z * Z :=
  let yoe := (doe - doe / 1460 + doe / 36524 - doe / 146096) / 365 in
  let doy := doe - (365 * yoe + yoe / 4 - yoe / 100) in
  let mp := (5 * doy + 2) / 153 in
  let d := doy - (153 * mp + 2) / 5 + 1 in
  let mo := if mp <? 10 then mp + 3 else mp - 9 in
  (if mo <=? 2 then yoe + 1 else yoe, mo, d).
Definition shift_years (n : Z) (c : Z * Z * Z) : Z * Z * Z := let '(y, mo, d) := c in (y + n, mo, d).

Lemma civil_era n : civil n = shift_years ((n + 719468) / 146097 * 400) (civil_doe ((n + 719468) mod 146097)).
Proof.
  unfold civil, civil_doe. rewrite Z.mod_eq by lia. rewrite (Z.mul_comm 146097). cbn [shift_years].
  repeat case_match; f_equal; f_equal; lia.
Qed.

(** A property of the first [n] numbers, checked one by one. *)
Fixpoint all_from (p : Z -> bool) (n : nat) (z : Z) : bool :=
  match n with O => true | S n => p z && all_from p n (z + 1) end.
Lemma all_from_spec p n z : all_from p n z = true -> forall x, z <= x < z + Z.of_nat n -> p x = true.
Proof.
  revert z. induction n as [|n IH]; intros z H x Hx; [lia|]. cbn in H. apply andb_true_iff in H as [Hz H].
  destruct (Z.eq_dec x z) as [->|]; [done|]. apply (IH (z + 1)); [done|lia].
Qed.

(** Years of an era start in March: their first day, and their length. *)
Definition year_start (yoe : Z) : Z := if yoe =? 400 then 146097 else 365 * yoe + yoe / 4 - yoe / 100.
Definition year_len (yoe : Z) : Z := if leap (yoe + 1) then 366 else 365.
Definition year_key (doe : Z) : Z := doe - doe / 1460 + doe / 36524 - doe / 146096.

Lemma sub_div_mono c a b : 0 < c -> a <= b -> a - a / c <= b - b / c.
Proof.
  intros Hc H. assert (b / c <= (a + (b - a) * c) / c) by (apply Z.div_le_mono; nia).
  rewrite Z.div_add in * by lia. lia.
Qed.

Lemma year_key_mono a b : 0 <= a <= b -> year_key a <= year_key b.
Proof.
  intros H. unfold year_key. change 146096 with (36524 * 4). rewrite <- !Z.div_div by lia.
  assert (a / 36524 <= b / 36524) as Hd by (apply Z.div_le_mono; lia).
  pose proof (sub_div_mono 4 _ _ ltac:(lia) Hd). pose proof (sub_div_mono 1460 a b ltac:(lia) ltac:(lia)). lia.
Qed.

Lemma year_len_range y : 365 <= year_len y <= 366.
Proof. unfold year_len. case_match; lia. Qed.

(** The key of a day falls between those of the year before and after. *)
Lemma year_keys yoe : 0 <= yoe < 400 ->
  365 * yoe <= year_key (year_start yoe) /\ year_key (year_start yoe + year_len yoe - 1) < 365 * (yoe + 1) /\
  year_start (yoe + 1) = year_start yoe + year_len yoe /\ 0 <= year_start yoe.
Proof.
  intros H.
  set (p := fun y => (365 * y <=? year_key (year_start y)) && (year_key (year_start y + year_len y - 1) <? 365 * (y + 1)) &&
    (year_start (y + 1) =? year_start y + year_len y) && (0 <=? year_start y)).
  assert (C : p yoe = true) by (apply (all_from_spec p 400 0); [vm_compute; reflexivity|lia]).
  unfold p in C. rewrite !andb_true_iff in C. lia.
Qed.

(** Each day of an era is a day of one of its years. *)
Lemma day_in_year doe : 0 <= doe < 146097 -> exists yoe doy,
  0 <= yoe < 400 /\ 0 <= doy < year_len yoe /\ doe = year_start yoe + doy.
Proof.
  intros H. assert (G : forall n : nat, (n <= 400)%nat -> doe < year_start (Z.of_nat n) -> exists yoe doy,
    0 <= yoe < Z.of_nat n /\ 0 <= doy < year_len yoe /\ doe = year_start yoe + doy).
  { induction n as [|n IH]; intros Hn Hd; [change (year_start (Z.of_nat 0)) with 0 in Hd; lia|].
    destruct (Z.ltb_spec doe (year_start (Z.of_nat n))) as [Hlt|Hge].
    - destruct IH as (yoe & doy & ? & ? & ?); [lia|done|]. exists yoe, doy. split; [lia|done].
    - destruct (year_keys (Z.of_nat n)) as (_ & _ & E & _); [lia|]. rewrite Nat2Z.inj_succ in Hd. unfold Z.succ in Hd.
      exists (Z.of_nat n), (doe - year_start (Z.of_nat n)). lia. }
  destruct (G 400%nat) as (yoe & doy & ? & ? & ?); [lia|change (year_start (Z.of_nat 400)) with 146097; lia|]. exists yoe, doy. split; [lia|done].
Qed.

(** Its month and its day of the month. *)
Definition month_part (doy : Z) : Z * Z :=
  let mp := (5 * doy + 2) / 153 in (if mp <? 10 then mp + 3 else mp - 9, doy - (153 * mp + 2) / 5 + 1).

Lemma civil_doe_parts yoe doy : 0 <= yoe < 400 -> 0 <= doy < year_len yoe ->
  civil_doe (year_start yoe + doy)
  = let '(mo, d) := month_part doy in (if mo <=? 2 then yoe + 1 else yoe, mo, d).
Proof.
  intros Hy Hd. destruct (year_keys yoe Hy) as (H1 & H2 & _ & H0).
  assert (E : year_key (year_start yoe + doy) / 365 = yoe).
  { pose proof (year_key_mono (year_start yoe) (year_start yoe + doy)).
    pose proof (year_key_mono (year_start yoe + doy) (year_start yoe + year_len yoe - 1)). symmetry.
    apply (Z.div_unique_pos _ _ _ (year_key (year_start yoe + doy) - 365 * yoe)); lia. }
  unfold civil_doe. fold (year_key (year_start yoe + doy)). rewrite E. unfold year_start at 2 3 4. replace (yoe =? 400) with false by lia.
  assert (Es : year_start yoe = 365 * yoe + yoe / 4 - yoe / 100) by (unfold year_start; by replace (yoe =? 400) with false by lia).
  rewrite Es. replace (365 * yoe + yoe / 4 - yoe / 100 + doy - (365 * yoe + yoe / 4 - yoe / 100)) with doy by lia. done.
Qed.

(** The days of the months, in a year that starts in March: after each day
    comes the next of its month, or the first of the next month. *)
Lemma month_parts doy : 0 <= doy < 366 -> let '(mo, d) := month_part doy in
  1 <= mo <= 12 /\ 1 <= d <= 31 /\ (mo = 2 -> d <= 29) /\
  (let mo' := if mo <=? 2 then mo + 9 else mo - 3 in (153 * mo' + 2) / 5 + d - 1 = doy) /\
  (doy < 364 -> month_part (doy + 1) =
     if d <? (if mo =? 2 then 28 else month_days 1 mo) then (mo, d + 1) else (if mo <? 12 then mo + 1 else 1, 1)) /\
  (doy < 364 -> mo = 2 -> d < 28) /\ (doy = 364 -> mo = 2 /\ d = 28) /\ (doy = 365 -> mo = 2 /\ d = 29).
Proof.
  intros H.
  set (p := fun doy => let '(mo, d) := month_part doy in
    (1 <=? mo) && (mo <=? 12) && (1 <=? d) && (d <=? 31) && (implb (mo =? 2) (d <=? 29)) &&
    (let mo' := if mo <=? 2 then mo + 9 else mo - 3 in (153 * mo' + 2) / 5 + d - 1 =? doy) &&
    implb (doy <? 364) (let '(mo1, d1) := month_part (doy + 1) in
      if d <? (if mo =? 2 then 28 else month_days 1 mo) then (mo1 =? mo) && (d1 =? d + 1)
      else (mo1 =? (if mo <? 12 then mo + 1 else 1)) && (d1 =? 1)) &&
    implb ((doy <? 364) && (mo =? 2)) (d <? 28) && implb (doy =? 364) ((mo =? 2) && (d =? 28)) &&
    implb (doy =? 365) ((mo =? 2) && (d =? 29))).
  assert (C : p doy = true) by (apply (all_from_spec p 366 0); [vm_compute; reflexivity|lia]).
  unfold p in C. clear p. destruct (month_part doy) as [mo d]. rewrite !andb_true_iff in C.
  destruct C as (((((((((C1 & C2) & C3) & C4) & C5) & C6) & C7) & C8) & C9) & C10).
  split_and!; [lia|lia|lia|lia|..].
  - intros E. rewrite (proj2 (Z.eqb_eq mo 2) E) in C5. cbn in C5. lia.
  - apply Z.eqb_eq in C6. exact C6.
  - intros Hd. rewrite (proj2 (Z.ltb_lt doy 364) Hd) in C7. cbn [implb] in C7. destruct (month_part (doy + 1)) as [m1 d1].
    destruct (d <? _); apply andb_true_iff in C7 as [->%Z.eqb_eq ->%Z.eqb_eq]; done.
  - intros Hd E. rewrite (proj2 (Z.ltb_lt doy 364) Hd), (proj2 (Z.eqb_eq mo 2) E) in C8. cbn in C8. lia.
  - intros E. rewrite (proj2 (Z.eqb_eq doy 364) E) in C9. cbn [implb] in C9. lia.
  - intros E. rewrite (proj2 (Z.eqb_eq doy 365) E) in C10. cbn [implb] in C10. lia.
Qed.

(** ** Day after day *)

Lemma leap_shift y n : leap (y + n * 400) = leap y.
Proof.
  unfold leap. replace (y + n * 400) with (y + (n * 100) * 4) at 1 by lia. replace (y + n * 400) with (y + (n * 4) * 100) at 1 by lia.
  by rewrite !Z.mod_add by lia.
Qed.

Lemma next_day_shift n c : next_day (shift_years (n * 400) c) = shift_years (n * 400) (next_day c).
Proof.
  destruct c as [[y mo] d]. cbn [shift_years next_day]. unfold month_days. rewrite leap_shift.
  destruct (d <? _), (mo <? 12); cbn [shift_years]; f_equal; f_equal; lia.
Qed.

Lemma year_start_lt y : 0 <= y < 400 -> year_start y < 146097.
Proof.
  intros H. unfold year_start. replace (y =? 400) with false by lia.
  assert (y / 4 < 100) by (apply Z.div_lt_upper_bound; lia). assert (0 <= y / 100) by (apply Z.div_pos; lia). lia.
Qed.

(** Inside a year. *)
Lemma next_in_year yoe doy : 0 <= yoe < 400 -> 0 <= doy -> doy + 1 < year_len yoe ->
  civil_doe (year_start yoe + (doy + 1)) = next_day (civil_doe (year_start yoe + doy)).
Proof.
  intros Hy Hd Hl. rewrite !civil_doe_parts by lia.
  assert (Hlen : year_len yoe = 365 \/ year_len yoe = 366 /\ leap (yoe + 1) = true)
    by (unfold year_len; destruct (leap (yoe + 1)); auto).
  pose proof (month_parts doy ltac:(lia)) as M. destruct (month_part doy) as [mo d] eqn:Em.
  destruct M as (M1 & M2 & M3 & _ & M5 & M6 & M7 & _).
  destruct (Z.ltb_spec doy 364) as [Hlt|Hge].
  - rewrite M5 by done. clear M5 M7. unfold next_day, month_days. destruct (Z.eqb_spec mo 2) as [->|Hmo].
    + assert (d < 28) by (by apply M6). replace (d <? 28) with true by lia. replace (d <? if leap _ then 29 else 28) with true; [done|].
      destruct (leap _); lia.
    + change (1 + 1) with 2. destruct (Z.ltb_spec d (if (mo =? 4) || (mo =? 6) || (mo =? 9) || (mo =? 11) then 30 else 31)); [done|].
      destruct (Z.ltb_spec mo 12).
      * destruct (Z.leb_spec mo 2), (Z.leb_spec (mo + 1) 2); try lia; done.
      * replace mo with 12 by lia. done.
  - pose proof (year_len_range yoe). assert (doy = 364) by lia. subst doy. destruct (M7 eq_refl) as [-> ->].
    destruct Hlen as [Hlen|[_ Hleap]]; [lia|]. cbn. by rewrite Hleap.
Qed.

(** From the last day of February to the first of March. *)
Lemma next_year yoe : 0 <= yoe < 400 -> next_day (civil_doe (year_start yoe + (year_len yoe - 1))) = (yoe + 1, 3, 1).
Proof.
  intros Hy. pose proof (year_len_range yoe). rewrite civil_doe_parts by lia. unfold year_len.
  destruct (leap (yoe + 1)) eqn:El.
  - change (month_part (366 - 1)) with (2, 29). change (next_day (yoe + 1, 2, 29) = (yoe + 1, 3, 1)).
    unfold next_day, month_days. by rewrite El.
  - change (month_part (365 - 1)) with (2, 28). change (next_day (yoe + 1, 2, 28) = (yoe + 1, 3, 1)).
    unfold next_day, month_days. by rewrite El.
Qed.

Lemma era_unique m q r : m = 146097 * q + r -> 0 <= r < 146097 -> m / 146097 = q /\ m mod 146097 = r.
Proof. intros E B. split; symmetry; [by apply (Z.div_unique_pos m 146097 q r)|by apply (Z.mod_unique_pos m 146097 q r)]. Qed.

Lemma civil_next n : 0 <= n -> civil (n + 1) = next_day (civil n).
Proof.
  intros Hn. rewrite !civil_era. set (N := n + 719468). replace (n + 1 + 719468) with (N + 1) by lia.
  rewrite next_day_shift. pose proof (Z.div_mod N 146097 ltac:(lia)) as E. pose proof (Z.mod_pos_bound N 146097 ltac:(lia)) as B.
  destruct (day_in_year (N mod 146097) B) as (yoe & doy & Hy & Hd & Hdoe). rewrite Hdoe in *. clearbody N.
  set (q := N / 146097) in *. clearbody q. destruct (year_keys yoe Hy) as (_ & _ & Hs & H0).
  assert (Hend : yoe <> 399 -> year_start (yoe + 1) < 146097) by (intros Hne; apply year_start_lt; lia).
  destruct (Z.ltb_spec (doy + 1) (year_len yoe)) as [Hin|Hout].
  - assert (year_start yoe + (doy + 1) < 146097).
    { destruct (Z.eq_dec yoe 399) as [->|Hne]; [change (year_start (399 + 1)) with 146097 in Hs; lia|specialize (Hend Hne); lia]. }
    destruct (era_unique (N + 1) q (year_start yoe + (doy + 1))) as [-> ->]; [lia..|].
    by rewrite next_in_year by lia.
  - replace doy with (year_len yoe - 1) by lia. rewrite next_year by done.
    destruct (Z.eq_dec yoe 399) as [->|Hne].
    + change (year_start (399 + 1)) with 146097 in Hs.
      destruct (era_unique (N + 1) (q + 1) 0) as [-> ->]; [lia..|].
      change (civil_doe 0) with (0, 3, 1). cbn [shift_years]. f_equal. f_equal. lia.
    + specialize (Hend Hne). destruct (era_unique (N + 1) q (year_start (yoe + 1) + 0)) as [-> ->]; [lia..|].
      pose proof (year_len_range (yoe + 1)). by rewrite civil_doe_parts by lia.
Qed.

(** The dates are those of the Gregorian calendar: as many days after the
    first of January 1970. *)
Lemma civil_gregorian n : civil (Z.of_nat n) = Nat.iter n next_day (1970, 1, 1).
Proof.
  induction n as [|n IH]; [reflexivity|]. rewrite Nat2Z.inj_succ. unfold Z.succ. rewrite civil_next by lia. by rewrite IH.
Qed.

(** ** The date of a day, read back *)

Lemma u64_of_some z : u64_range z -> u64_of z = Some z.
Proof. unfold u64_range, u64_of. intros H. by replace ((0 <=? z) && (z <=? u64_max)) with true by lia. Qed.

Lemma days_since_civil n : 0 <= n <= u64_max - 719468 ->
  (let '(y, mo, d) := civil n in days_since_epoch y mo d) = Some n.
Proof.
  intros Hn. rewrite civil_era. pose proof (Z.div_mod (n + 719468) 146097 ltac:(lia)) as E.
  pose proof (Z.mod_pos_bound (n + 719468) 146097 ltac:(lia)) as B.
  pose proof (Z.div_pos (n + 719468) 146097 ltac:(lia) ltac:(lia)) as Hq. unfold u64_max in *.
  destruct (day_in_year _ B) as (yoe & doy & Hy & Hd & Hdoe). rewrite Hdoe in *.
  set (q := (n + 719468) / 146097) in *. clearbody q.
  rewrite civil_doe_parts by done. pose proof (year_len_range yoe).
  pose proof (month_parts doy ltac:(lia)) as M. destruct (month_part doy) as [mo d]. destruct M as (M1 & M2 & _ & M4 & _).
  cbn [shift_years]. unfold days_since_epoch.
  set (y := yoe + q * 400). set (mo' := if mo <=? 2 then mo + 9 else mo - 3) in *.
  replace (if mo <=? 2 then y0 ← u64_of _; Some (y0, mo + 9) else _) with (Some (y, mo')).
  2:{ subst y mo'. destruct (mo <=? 2); [|done]. rewrite u64_of_some by (unfold u64_range, u64_max; lia).
      cbn. f_equal. f_equal. lia. }
  assert (Hmo : 0 <= mo' <= 11) by (subst mo'; destruct (Z.leb_spec mo 2); lia). clearbody mo'.
  assert (Hyq : y / 400 = q) by (subst y; rewrite Z.div_add by lia; rewrite Z.div_small by lia; lia).
  assert (Hs : year_start yoe = 365 * yoe + yoe / 4 - yoe / 100) by (unfold year_start; by replace (yoe =? 400) with false by lia).
  pose proof (Z.div_pos (153 * mo' + 2) 5 ltac:(lia) ltac:(lia)).
  destruct (year_keys yoe Hy) as (_ & _ & _ & Hs0).
  cbn. rewrite Hyq. replace (y - q * 400) with yoe by (subst y; lia).
  rewrite (u64_of_some (153 * mo' + 2)) by (unfold u64_range, u64_max; lia). cbn.
  assert ((153 * mo' + 2) / 5 < 1000) by (apply Z.div_lt_upper_bound; lia).
  rewrite (u64_of_some ((153 * mo' + 2) / 5 + d)) by (unfold u64_range, u64_max; lia). cbn. rewrite M4.
  rewrite (u64_of_some doy) by (unfold u64_range, u64_max; lia). cbn.
  replace (yoe * 365 + yoe / 4 - yoe / 100 + doy) with (year_start yoe + doy) by lia.
  rewrite (u64_of_some (year_start yoe + doy)) by (unfold u64_range, u64_max; lia). cbn.
  replace (q * 146097 + (year_start yoe + doy)) with (n + 719468) by lia.
  rewrite (u64_of_some (n + 719468)) by (unfold u64_range, u64_max; lia). cbn.
  replace (n + 719468 - 719468) with n by lia. apply u64_of_some. unfold u64_range, u64_max. lia.
Qed.

(** ** Numbers, padded and read back *)

Definition digits_only (s : string) : Prop := Forall (fun b => is_ascii_digit b = true) (bytes_of s).

Lemma digits_only_app s t : digits_only s -> digits_only t -> digits_only (s +:+ t).
Proof. unfold digits_only. rewrite bytes_of_app. intros. by apply Forall_app. Qed.

Lemma pretty_N_char_byte n : (n < 10)%N -> byte_of (pretty_N_char n) = 48 + Z.of_N n.
Proof. intros H. destruct n as [|p]; [done|]. do 4 (destruct p as [p|p|]; try done; try lia). Qed.

(** The text of a number, read as a number. *)
Lemma pretty_N_go_digits n acc : digits_only acc ->
  digits_only (pretty_N_go n acc) /\ digits_val 0 (bytes_of (pretty_N_go n acc)) = digits_val (Z.of_N n) (bytes_of acc).
Proof.
  revert acc. induction (N.lt_wf_0 n) as [n _ IH]. intros acc Hacc.
  destruct (decide (n = 0)%N) as [->|Hn]; [by rewrite pretty_N_go_0|].
  rewrite pretty_N_go_step by lia. pose proof (N.mod_lt n 10 ltac:(lia)) as Hm.
  pose proof (pretty_N_char_byte (n `mod` 10)%N Hm) as Hc.
  assert (Hd : is_ascii_digit (48 + Z.of_N (n `mod` 10)%N) = true).
  { clear - Hm. unfold is_ascii_digit. set (m := (n `mod` 10)%N) in *. clearbody m. lia. }
  destruct (IH (n `div` 10)%N ltac:(apply N.div_lt; lia) (String.String (pretty_N_char (n `mod` 10)) acc)) as [H1 H2].
  { unfold digits_only. cbn [bytes_of]. constructor; [by rewrite Hc|done]. }
  split; [done|]. rewrite H2. cbn [bytes_of digits_val]. rewrite Hc, Hd. f_equal.
  pose proof (N.div_mod n 10 ltac:(lia)). lia.
Qed.

Lemma fmt_Z_digits n : 0 <= n -> digits_only (fmt_Z n) /\ digits_val 0 (bytes_of (fmt_Z n)) = Some n /\ fmt_Z n <> "".
Proof.
  intros Hn. destruct n as [|p|p]; [by split_and!; repeat constructor| |lia].
  change (fmt_Z (Z.pos p)) with (pretty_N_go (N.pos p) "").
  destruct (pretty_N_go_digits (N.pos p) "") as [H1 H2]; [constructor|]. split_and!; [done|done|].
  intros E. by rewrite E in H2.
Qed.

Lemma zeros_digits n : digits_only (zeros n) /\ forall l, digits_val 0 (bytes_of (zeros n) ++ l) = digits_val 0 l.
Proof.
  induction n as [|n [H1 H2]]; [split; [constructor|done]|]. split; [by constructor|]. intros l. apply H2.
Qed.

Lemma pad_digits w n : 0 <= n -> digits_only (pad w n) /\ digits_val 0 (bytes_of (pad w n)) = Some n /\ pad w n <> "".
Proof.
  intros Hn. destruct (fmt_Z_digits n Hn) as (H1 & H2 & H3). destruct (zeros_digits (w - String.length (fmt_Z n))) as [Hz1 Hz2].
  unfold pad. split_and!.
  - by apply digits_only_app.
  - rewrite bytes_of_app, Hz2. done.
  - by destruct (zeros _).
Qed.

Lemma parse_pad w n : u64_range n -> parse_u64 (pad w n) = Some n.
Proof.
  intros [Hn Hm]. destruct (pad_digits w n Hn) as (H1 & H2 & H3). unfold parse_u64.
  destruct (pad w n) as [|a r] eqn:E; [done|].
  assert (Hp : strip_prefix "+" (String.String a r) = None).
  { change (strip_prefix "+" (String.String a r)) with (if Ascii.eqb "+" a then strip_prefix "" r else None).
    unfold digits_only in H1. apply Forall_inv in H1. by destruct (Ascii.eqb_spec "+" a) as [<-|]. }
  rewrite Hp. cbn [is_empty]. rewrite H2. by replace (n <=? u64_max) with true by lia.
Qed.

(** ** The whole text *)

Lemma digit_no_separator a : is_ascii_digit (byte_of a) = true -> is_separator a = false.
Proof.
  intros H. unfold is_separator. destruct (Ascii.eqb_spec a "T") as [->|]; [done|].
  destruct (Ascii.eqb_spec a "-") as [->|]; [done|]. by destruct (Ascii.eqb_spec a ":") as [->|].
Qed.

Lemma split_digits x : digits_only x -> x <> "" -> forall a r, is_separator a = true ->
  split_chars is_separator (x +:+ String.String a r) = x :: split_chars is_separator r.
Proof.
  intros Hx _ a r Ha. induction x as [|b x IH]; [change ("" +:+ String.String a r) with (String.String a r); cbn [split_chars]; by rewrite Ha|].
  apply Forall_cons in Hx as [Hb Hx]. change (String.String b x +:+ String.String a r) with (String.String b (x +:+ String.String a r)).
  cbn [split_chars]. rewrite (digit_no_separator b Hb). by rewrite (IH Hx).
Qed.

Lemma split_last x : digits_only x -> split_chars is_separator x = [x].
Proof.
  intros Hx. induction x as [|b x IH]; [done|]. apply Forall_cons in Hx as [Hb Hx].
  cbn [split_chars]. rewrite (digit_no_separator b Hb). by rewrite (IH Hx).
Qed.

Definition no_z (s : string) : Prop := Forall (fun b => (b =? 90) = false) (bytes_of s).
Lemma no_z_app s t : no_z s -> no_z t -> no_z (s +:+ t).
Proof. unfold no_z. rewrite bytes_of_app. intros. by apply Forall_app. Qed.
Lemma digits_no_z s : digits_only s -> no_z s.
Proof. intros H. apply (List.Forall_impl _ (P := fun b => is_ascii_digit b = true)); [|done]. intros b Hb. unfold is_ascii_digit in Hb. lia. Qed.

Lemma trim_z s : no_z s -> trim_end_z (s +:+ "Z") = s.
Proof.
  intros H. unfold trim_end_z. rewrite bytes_of_app, rev_app_distr. cbn [bytes_of rev app drop_while].
  change (byte_of "Z" =? 90) with true. cbn match.
  assert (E : drop_while (fun b => b =? 90) (rev (bytes_of s)) = rev (bytes_of s)).
  { apply Forall_rev in H. destruct H as [|b l Hb Hl]; [done|]. cbn. by rewrite Hb. }
  rewrite E, rev_involutive. apply of_bytes_bytes_of.
Qed.

Lemma string_app_assoc_z (a b c : string) : (a +:+ b) +:+ c = a +:+ (b +:+ c).
Proof. induction a as [|x a IH]; [done|].
  change (String.String x ((a +:+ b) +:+ c) = String.String x (a +:+ (b +:+ c))). by rewrite IH.
Qed.

(** The six numbers of a date, out of its text. *)
Lemma text_parts y mo d h mi sec :
  u64_range y -> u64_range mo -> u64_range d -> u64_range h -> u64_range mi -> u64_range sec ->
  omap parse_u64 (split_chars is_separator (trim_end_z
    (pad 4 y +:+ "-" +:+ pad 2 mo +:+ "-" +:+ pad 2 d +:+ "T" +:+ pad 2 h +:+ ":" +:+ pad 2 mi +:+ ":" +:+ pad 2 sec +:+ "Z")))
  = [y; mo; d; h; mi; sec].
Proof.
  intros Hy Hmo Hd Hh Hmi Hs.
  assert (P : forall w n, u64_range n -> digits_only (pad w n) /\ pad w n <> "").
  { intros w n [Hn _]. destruct (pad_digits w n Hn) as (? & ? & ?). done. }
  rewrite <- !string_app_assoc_z, trim_z, !string_app_assoc_z.
  2:{ repeat lazymatch goal with |- no_z (_ +:+ _) => apply no_z_app end;
      lazymatch goal with |- no_z (pad _ _) => by apply digits_no_z, P | _ => by repeat constructor end. }
  assert (S : forall w n a r, u64_range n -> is_separator a = true ->
    split_chars is_separator (pad w n +:+ String.String a "" +:+ r) = pad w n :: split_chars is_separator r).
  { intros w n a r Hn Ha. destruct (P w n Hn). by apply split_digits. }
  rewrite !S by done. rewrite split_last by (by apply P).
  cbn [omap list_omap]. by rewrite !parse_pad.
Qed.

Lemma civil_range n : 0 <= n <= u64_max - 719468 ->
  let '(y, mo, d) := civil n in u64_range y /\ 1 <= mo <= 12 /\ 1 <= d <= 31.
Proof.
  intros Hn. rewrite civil_era. pose proof (Z.mod_pos_bound (n + 719468) 146097 ltac:(lia)) as B.
  pose proof (Z.div_pos (n + 719468) 146097 ltac:(lia) ltac:(lia)) as Hq. unfold u64_max in *.
  assert (Hq' : (n + 719468) / 146097 <= 18446744073709551615 / 146097) by (apply Z.div_le_mono; lia).
  change (18446744073709551615 / 146097) with 126263674638832 in Hq'.
  destruct (day_in_year _ B) as (yoe & doy & Hy & Hd & ->). rewrite civil_doe_parts by done.
  pose proof (year_len_range yoe). pose proof (month_parts doy ltac:(lia)) as M. destruct (month_part doy) as [mo d].
  destruct M as (M1 & M2 & _). unfold u64_range, u64_max. cbn [shift_years]. destruct (mo <=? 2); lia.
Qed.

(** The date the CA writes for an instant is that of the Gregorian
    calendar, as many days after the first of January 1970 as there are whole
    days in the instant, with the hour, minute and second of the rest; and
    the text is read back as the instant it was written for, no sum or
    difference of the reader leaving [u64]. *)
Theorem iso_date_kept secs : u64_range secs ->
  (exists y mo d, (y, mo, d) = Nat.iter (Z.to_nat (secs / 86400)) next_day (1970, 1, 1) /\
     epoch_to_parts secs = (y, mo, d, secs mod 86400 / 3600, secs mod 3600 / 60, secs mod 60)) /\
  iso_to_epoch (fmt_iso secs) = Some secs.
Proof.
  intros Hs. unfold u64_range, u64_max in Hs.
  assert (Hday : secs / 60 / 60 / 24 = secs / 86400) by (by rewrite !Z.div_div by lia).
  assert (Hh : (secs / 60 / 60) mod 24 = secs mod 86400 / 3600).
  { rewrite Z.div_div by lia. change (60 * 60) with 3600. Z.to_euclidean_division_equations. lia. }
  assert (Hm : (secs / 60) mod 60 = secs mod 3600 / 60) by (Z.to_euclidean_division_equations; lia).
  assert (Hd : 0 <= secs / 86400 < 213503982334602) by (split; [apply Z.div_pos; lia|apply Z.div_lt_upper_bound; lia]).
  pose proof (civil_range (secs / 86400) ltac:(unfold u64_max; lia)) as R.
  pose proof (days_since_civil (secs / 86400) ltac:(unfold u64_max; lia)) as D.
  pose proof (civil_gregorian (Z.to_nat (secs / 86400))) as G. rewrite Z2Nat.id in G by lia.
  unfold fmt_iso, epoch_to_parts. rewrite Hday, Hh, Hm. destruct (civil (secs / 86400)) as [[y mo] d].
  split; [by exists y, mo, d|]. destruct R as (Ry & Rmo & Rd). unfold iso_to_epoch.
  pose proof (Z.mod_pos_bound secs 86400 ltac:(lia)). pose proof (Z.mod_pos_bound secs 3600 ltac:(lia)). pose proof (Z.mod_pos_bound secs 60 ltac:(lia)).
  assert (0 <= secs mod 86400 / 3600 < 24) by (split; [apply Z.div_pos; lia|apply Z.div_lt_upper_bound; lia]).
  assert (0 <= secs mod 3600 / 60 < 60) by (split; [apply Z.div_pos; lia|apply Z.div_lt_upper_bound; lia]).
  rewrite text_parts by (done || (unfold u64_range, u64_max; lia)). rewrite D. cbn [mbind option_bind].
  set (h := secs mod 86400 / 3600) in *. set (mi := secs mod 3600 / 60) in *.
  assert (E : secs = secs / 86400 * 86400 + h * 3600 + mi * 60 + secs mod 60).
  { subst h mi. clear. Z.to_euclidean_division_equations. lia. }
  do 4 (rewrite u64_of_some by (unfold u64_range, u64_max; lia); cbn [mbind option_bind]). by rewrite <- E.
Qed.

Lemma iso_date_kept_witness : iso_to_epoch (fmt_iso 1709210096) = Some 1709210096 /\ fmt_iso 1709210096 = "2024-02-29T12:34:56Z".
Proof. split; [apply (iso_date_kept 1709210096); by split|reflexivity]. Defined.

Local Open Scope Z_scope.

(** ** The key file *)

(** File-system operations on a state. *)
Record FileSystem {W : Type} : Type := mkFileSystem {
  fs_exists : string -> W -> bool;
  fs_create_parent : string -> W -> result string unit * W;
  fs_write : string -> string -> W -> result string unit * W;
  fs_set_mode : string -> Z -> W -> result string unit * W;
  fs_read : string -> W -> result string string
}.
Arguments FileSystem : clear implicits.

Section keys.
Context {D : Digests} `{KeyCipher} `{HexDecoder} {J : JsonParser} {W : Type} (fs : FileSystem W)
  (pbkdf2_hmac : list Z -> list Z -> Z -> list Z).

Definition ca_pub_key_string (vk : VerifyingKey) : string := "ed25519:" +:+ hex_encode (key_to_bytes vk).

Definition ca_envelope (sk : SigningKey) (salt nonce ciphertext : list Z) : Value :=
  VObject (map_collect [("version", VNumber (PosInt 1)); ("algorithm", VString "ed25519");
    ("pub_key", VString (ca_pub_key_string (verifying_key sk))); ("salt", VString (hex_encode salt));
    ("nonce", VString (hex_encode nonce)); ("ciphertext", VString (hex_encode ciphertext))]).

(** The permissions are set where there are any ([cfg(unix)]). *)
Definition save_key (pretty_json : Value -> string) (sk : SigningKey) (salt nonce : list Z) (path passphrase : string) (w : W)
    : option (result string unit * W) :=
  let dk := pbkdf2_hmac (bytes_of passphrase) salt PBKDF2_ITERS in
  n ← nonce_from_slice nonce;
  match aes_encrypt dk n (sk_to_bytes sk) with
  | Err e => Some (Err ("encrypt: " +:+ e), w)
  | Ok ciphertext =>
    match fs_create_parent fs path w with
    | (Err e, w) => Some (Err e, w)
    | (Ok _, w) =>
      match fs_write fs path (pretty_json (ca_envelope sk salt nonce ciphertext)) w with
      | (Err e, w) => Some (Err e, w)
      | (Ok _, w) => Some (fs_set_mode fs path 384 w)
      end
    end
  end.

Definition envelope_bytes (env : Value) (name : string) : result string (list Z) :=
  hex_decode (default "" (vget name env ≫= as_str)).

Definition load_key (path passphrase : string) (w : W) : option (result string SigningKey) :=
  match (data ← fs_read fs path w; env ← parse_json data;
         salt ← envelope_bytes env "salt"; nonce ← envelope_bytes env "nonce"; ct ← envelope_bytes env "ciphertext";
         Ok (salt, nonce, ct)) with
  | Err e => Some (Err e)
  | Ok (salt, nonce, ct) =>
    let dk := pbkdf2_hmac (bytes_of passphrase) salt PBKDF2_ITERS in
    n ← nonce_from_slice nonce;
    Some (match aes_decrypt dk n ct with
          | Err _ => Err "Key decryption failed — wrong passphrase?"
          | Ok seed => if (length seed =? 32)%nat then Ok (sk_from_bytes seed) else Err "invalid seed length"
          end)
  end.

(** The key the server starts with; [None] is a panic. *)
Definition startup_key (pretty_json : Value -> string) (generated : SigningKey) (salt nonce : list Z) (key_file passphrase : string) (w : W)
    : option (SigningKey * W) :=
  if fs_exists fs key_file w then
    match load_key key_file passphrase w with Some (Ok sk) => Some (sk, w) | _ => None end
  else
    match save_key pretty_json generated salt nonce key_file passphrase w with
    | Some (Ok _, w) => Some (generated, w)
    | _ => None
    end.
End keys.

(** ** Certificates *)

Section certificates.
Context {D : Digests} `{Ed25519Signing} `{Base64StdEncoder}.

(** The keys of a [Map] are in the order of a [BTreeMap]. *)
Definition ca_canonical_json (obj : Map) : list Z := bytes_of (json_to_string (VObject (map_collect obj))).
Definition sign_dict (sk : SigningKey) (obj : Map) : string :=
  "ed25519:" +:+ b64_standard_encode (sig_to_bytes (ed_sign sk (ca_canonical_json obj))).

(** [days as u64]; [None] is an overflow. *)
Definition iso_now_plus (now days : Z) : option (string * string) :=
  span ← u64_of (days mod 2 ^ 64 * 86400);
  exp_secs ← u64_of (now + span);
  Some (fmt_iso now, fmt_iso exp_secs).

Definition cert_body (ca_nid subject_nid subject_pub_key : string) (capabilities : list string) (scope : Map)
    (issued_at expires_at serial : string) : Map :=
  map_collect [("capabilities", vstrings capabilities); ("expires_at", VString expires_at); ("issued_at", VString issued_at);
    ("issued_by", VString ca_nid); ("nid", VString subject_nid); ("pub_key", VString subject_pub_key);
    ("scope", VObject scope); ("serial", VString serial)].

Definition issue_cert (sk : SigningKey) (ca_nid subject_nid subject_pub_key : string) (capabilities : list string) (scope : Map)
    (validity_days : Z) (serial : string) (metadata : option Map) (now : Z) : option Map :=
  '(issued_at, expires_at) ← iso_now_plus now validity_days;
  let unsigned := cert_body ca_nid subject_nid subject_pub_key capabilities scope issued_at expires_at serial in
  let signature := sign_dict sk unsigned in
  let cert := map_insert "signature" (VString signature) unsigned in
  Some (match metadata with Some meta => map_insert "metadata" (VObject meta) cert | None => cert end).
End certificates.

Section nids.
Context {D : Digests}.
Definition generate_nid (domain entity_type : string) (uid : list Z) : string :=
  "urn:nps:" +:+ entity_type +:+ ":" +:+ domain +:+ ":" +:+ hex_encode uid.
End nids.

Definition is_colon (a : ascii) : bool := Ascii.eqb a ":".
Definition ca_domain (ca_nid : string) : string :=
  let parts := split_chars is_colon ca_nid in
  if (5 <=? length parts)%nat then default "" (parts !! (length parts - 2)%nat) else "ca.local".

(** ** The certificate table *)

(** A row by column, in the order of the select. *)
Abbreviation SqlRow := (list (string * CaSqlValue)).
Record Connection {W : Type} : Type := mkConnection {
  cn_execute : string -> list CaSqlValue -> W -> result string Z * W;
  cn_query : string -> list CaSqlValue -> W -> result string (list SqlRow) * W;
  cn_last_insert_rowid : W -> Z
}.
Arguments Connection : clear implicits.

Definition NEXT_SERIAL_SQL : string :=
  "SELECT COALESCE(MAX(CAST(REPLACE(serial,'0x','') AS INTEGER)),0)+1 FROM nip_certificates".
Definition INSERT_CERT_SQL : string :=
  "INSERT INTO nip_certificates (nid,entity_type,serial,pub_key,capabilities,scope_json," +:+
  "issued_by,issued_at,expires_at,metadata_json) VALUES (?,?,?,?,?,?,?,?,?,?)".
Definition GET_ACTIVE_SQL : string :=
  "SELECT * FROM nip_certificates WHERE nid=? AND revoked_at IS NULL ORDER BY issued_at DESC LIMIT 1".
Definition REVOKE_CERT_SQL : string :=
  "UPDATE nip_certificates SET revoked_at=?,revoke_reason=? WHERE nid=? AND revoked_at IS NULL".
Definition CRL_SQL : string :=
  "SELECT serial,nid,revoked_at,revoke_reason FROM nip_certificates WHERE revoked_at IS NOT NULL ORDER BY revoked_at DESC".

Record CertRecord : Type := mkCertRecord {
  cr_id : Z; cr_nid : string; cr_entity_type : string; cr_serial : string; cr_pub_key : string;
  cr_capabilities : list string; cr_scope : Map; cr_issued_by : string; cr_issued_at : string; cr_expires_at : string;
  cr_revoked_at : option string; cr_revoke_reason : option string; cr_metadata : option Map
}.
Record InsertRec : Type := mkInsertRec {
  in_nid : string; in_entity_type : string; in_serial : string; in_pub_key : string; in_capabilities : list string;
  in_scope : Map; in_issued_by : string; in_issued_at : string; in_expires_at : string; in_metadata : option Map
}.

(** [row.get] as an integer, a text, a text or NULL. *)
Definition INVALID_COLUMN : string := "Invalid column type or name".
Definition get_int (v : option CaSqlValue) : result string Z := match v with Some (CaInt n) => Ok n | _ => Err INVALID_COLUMN end.
Definition get_text (v : option CaSqlValue) : result string string := match v with Some (CaText s) => Ok s | _ => Err INVALID_COLUMN end.
Definition get_opt_text (v : option CaSqlValue) : result string (option string) :=
  match v with Some (CaText s) => Ok (Some s) | Some CaNull => Ok None | _ => Err INVALID_COLUMN end.

(** [{:06X}]: a negative [i64] prints its 64 bits. *)
Definition hex6 (n : Z) : string :=
  let s := upper_hex 16 (n mod 2 ^ 64) in zeros (6 - String.length s) +:+ s.

Section db.
Context {D : Digests} {J : JsonParser} {W : Type} (db : Connection W).

Definition map_from_str (s : string) : option Map := match parse_json s with Ok (VObject m) => Some m | _ => None end.

Definition row_to_record (row : SqlRow) : result string CertRecord :=
  let col name := map_get name row in
  caps_json ← get_text (col "capabilities");
  scope_json ← get_text (col "scope_json");
  meta_json ← get_opt_text (col "metadata_json");
  id ← get_int (col "id"); nid ← get_text (col "nid"); entity_type ← get_text (col "entity_type");
  serial ← get_text (col "serial"); pub_key ← get_text (col "pub_key"); issued_by ← get_text (col "issued_by");
  issued_at ← get_text (col "issued_at"); expires_at ← get_text (col "expires_at");
  revoked_at ← get_opt_text (col "revoked_at"); revoke_reason ← get_opt_text (col "revoke_reason");
  Ok (mkCertRecord id nid entity_type serial pub_key (default [] (strings_from_str caps_json))
        (default [] (map_from_str scope_json)) issued_by issued_at expires_at revoked_at revoke_reason
        (meta_json ≫= map_from_str)).

Definition db_next_serial (w : W) : result string string * W :=
  let '(out, w) := cn_query db NEXT_SERIAL_SQL [] w in
  (match out with
   | Err e => Err e
   | Ok [] => Err "Query returned no rows"
   | Ok (row :: _) => n ← get_int (snd <$> row !! 0%nat); Ok ("0x" +:+ hex6 n)
   end, w).

Definition insert_values (rec : InsertRec) : list CaSqlValue :=
  [CaText (in_nid rec); CaText (in_entity_type rec); CaText (in_serial rec); CaText (in_pub_key rec);
   CaText (json_to_string (vstrings (in_capabilities rec))); CaText (json_to_string (VObject (in_scope rec)));
   CaText (in_issued_by rec); CaText (in_issued_at rec); CaText (in_expires_at rec);
   opt_text ((fun m => json_to_string (VObject m)) <$> in_metadata rec)].
Definition db_insert (rec : InsertRec) (w : W) : result string Z * W :=
  match cn_execute db INSERT_CERT_SQL (insert_values rec) w with
  | (Err e, w) => (Err e, w)
  | (Ok _, w) => (Ok (cn_last_insert_rowid db w), w)
  end.

Definition db_get_active (nid : string) (w : W) : result string (option CertRecord) * W :=
  let '(out, w) := cn_query db GET_ACTIVE_SQL [CaText nid] w in
  (match out with
   | Err e => Err e
   | Ok [] => Ok None
   | Ok (row :: _) => rec ← row_to_record row; Ok (Some rec)
   end, w).

Definition db_revoke (nid reason : string) (now : Z) (w : W) : result string bool * W :=
  match cn_execute db REVOKE_CERT_SQL [CaText (fmt_iso now); CaText reason; CaText nid] w with
  | (Err e, w) => (Err e, w)
  | (Ok n, w) => (Ok (0 <? n), w)
  end.

Definition crl_row (row : SqlRow) : result string Value :=
  let col i := snd <$> row !! i in
  serial ← get_text (col 0%nat); nid ← get_text (col 1%nat); revoked_at ← get_text (col 2%nat);
  revoke_reason ← get_opt_text (col 3%nat);
  Ok (VObject (map_collect [("serial", VString serial); ("nid", VString nid); ("revoked_at", VString revoked_at);
        ("revoke_reason", match revoke_reason with Some r => VString r | None => VNull end)])).
Definition db_crl (w : W) : result string (list Value) * W :=
  let '(out, w) := cn_query db CRL_SQL [] w in
  (match out with
   | Err e => Err e
   | Ok rows => Ok (omap (fun row => match crl_row row with Ok v => Some v | Err _ => None end) rows)
   end, w).

(** Opening: each statement of the schema on its own. *)
Definition PRAGMAS : string := "PRAGMA journal_mode=WAL; PRAGMA foreign_keys=ON;".
Fixpoint execute_batches (stmts : list string) (w : W) : result string unit * W :=
  match stmts with
  | [] => (Ok tt, w)
  | stmt :: stmts =>
    let s := trim stmt in
    if is_empty s then execute_batches stmts w
    else match cn_execute db (s +:+ ";") [] w with
         | (Err e, w) => (Err e, w)
         | (Ok _, w) => execute_batches stmts w
         end
  end.
Definition db_open (schema : string) (w : W) : result string unit * W :=
  match cn_execute db PRAGMAS [] w with
  | (Err e, w) => (Err e, w)
  | (Ok _, w) => execute_batches (split_chars (fun a => Ascii.eqb a ";") schema) w
  end.
End db.

(** ** The handlers *)

Record RegisterReq : Type := mkRegisterReq {
  rq_nid : option string; rq_pub_key : string; rq_capabilities : option (list string);
  rq_scope : option Map; rq_metadata : option Map
}.
Record Reply : Type := mkReply { re_status : Z; re_body : Value }.

(** [json!] of an object. *)
Definition jobject (l : list (string * Value)) : Value := VObject (map_collect l).

Section handlers.
Context {D : Digests} {J : JsonParser} `{Ed25519Signing} `{Base64StdEncoder} {W : Type}.

Record AppState : Type := mkAppState {
  as_signing_key : SigningKey; as_pub_key_str : string; as_db : Connection W; as_ca_nid : string; as_base_url : string;
  as_display_name : string; as_agent_days : Z; as_node_days : Z; as_renewal_days : Z
}.
Context (s : AppState).

Definition already_exists (nid : string) : Reply :=
  mkReply 409 (jobject [("error_code", VString "NIP-CA-NID-ALREADY-EXISTS");
                        ("message", VString (nid +:+ " already has an active certificate"))]).
Definition nid_not_found (nid : string) : Reply :=
  mkReply 404 (jobject [("error_code", VString "NIP-CA-NID-NOT-FOUND"); ("message", VString (nid +:+ " not found"))]).
Definition issued (status : Z) (nid serial : string) (cert : Map) : Reply :=
  let text k := VString (default "" (map_get k cert ≫= as_str)) in
  mkReply status (jobject [("nid", VString nid); ("serial", VString serial); ("issued_at", text "issued_at");
                           ("expires_at", text "expires_at"); ("ident_frame", VObject cert)]).

(** [get_active(..).unwrap_or(None)]. *)
Definition active (nid : string) (w : W) : option CertRecord * W :=
  let '(out, w) := db_get_active (as_db s) nid w in (match out with Ok r => r | Err _ => None end, w).

(** The end of [register] and of [renew]: the next serial, the certificate,
    and the row, whose failure is dropped. *)
Definition certify (status : Z) (entity_type nid pub_key : string) (caps : list string) (scope : Map) (metadata : option Map)
    (now : Z) (w : W) : option Reply * W :=
  let days := if String.eqb entity_type "agent" then as_agent_days s else as_node_days s in
  match db_next_serial (as_db s) w with
  | (Err _, w) => (None, w)
  | (Ok serial, w) =>
    match issue_cert (as_signing_key s) (as_ca_nid s) nid pub_key caps scope days serial metadata now with
    | None => (None, w)
    | Some cert =>
      let issued_at := default "" (map_get "issued_at" cert ≫= as_str) in
      let expires_at := default "" (map_get "expires_at" cert ≫= as_str) in
      let '(_, w) := db_insert (as_db s)
        (mkInsertRec nid entity_type serial pub_key caps scope (as_ca_nid s) issued_at expires_at metadata) w in
      (Some (issued status nid serial cert), w)
    end
  end.

Definition register (req : RegisterReq) (entity_type : string) (uid : list Z) (now : Z) (w : W) : option Reply * W :=
  let nid := match rq_nid req with Some n => n | None => generate_nid (ca_domain (as_ca_nid s)) entity_type uid end in
  match active nid w with
  | (Some _, w) => (Some (already_exists nid), w)
  | (None, w) =>
    certify 201 entity_type nid (rq_pub_key req) (default [] (rq_capabilities req)) (default [] (rq_scope req))
      (rq_metadata req) now w
  end.

(** [now] is the reading before the check, [now'] the one of the certificate. *)
Definition renew (nid : string) (now now' : Z) (w : W) : option Reply * W :=
  match active nid w with
  | (None, w) => (Some (nid_not_found nid), w)
  | (Some rec, w) =>
    match iso_to_epoch (cr_expires_at rec) with
    | None => (None, w)
    | Some exp_secs =>
      let days_left := Z.max 0 (exp_secs - now) / 86400 in
      if as_renewal_days s <? days_left then
        (if days_left - as_renewal_days s <=? i64_max then
           Some (mkReply 400 (jobject [("error_code", VString "NIP-CA-RENEWAL-TOO-EARLY");
             ("message", VString ("Renewal window opens in " +:+ fmt_Z (days_left - as_renewal_days s) +:+ " days"))]))
         else None, w)
      else certify 200 (cr_entity_type rec) nid (cr_pub_key rec) (cr_capabilities rec) (cr_scope rec) (cr_metadata rec) now' w
    end
  end.

(** [now] dates the row, [now'] the answer. *)
Definition revoke_handler (nid : string) (body : option (option string)) (now now' : Z) (w : W) : option Reply * W :=
  let reason := match body with Some (Some r) => r | _ => "cessation_of_operation" end in
  let '(out, w) := db_revoke (as_db s) nid reason now w in
  (Some (if match out with Ok b => b | Err _ => false end
         then mkReply 200 (jobject [("nid", VString nid); ("revoked_at", VString (fmt_iso now')); ("reason", VString reason)])
         else nid_not_found nid), w).

Definition verify_handler (nid : string) (now : Z) (w : W) : option Reply * W :=
  match active nid w with
  | (None, w) => (Some (nid_not_found nid), w)
  | (Some rec, w) =>
    match iso_to_epoch (cr_expires_at rec) with
    | None => (None, w)
    | Some expires =>
      let valid := now <? expires in
      let resp := map_collect [("valid", VBool valid); ("nid", VString nid); ("entity_type", VString (cr_entity_type rec));
        ("pub_key", VString (cr_pub_key rec)); ("capabilities", vstrings (cr_capabilities rec));
        ("issued_by", VString (cr_issued_by rec)); ("issued_at", VString (cr_issued_at rec));
        ("expires_at", VString (cr_expires_at rec)); ("serial", VString (cr_serial rec))] in
      (Some (mkReply 200 (VObject (if valid then resp else map_insert "error_code" (VString "NIP-CERT-EXPIRED") resp))), w)
    end
  end.

Definition ca_cert : Reply :=
  mkReply 200 (jobject [("nid", VString (as_ca_nid s)); ("display_name", VString (as_display_name s));
    ("pub_key", VString (as_pub_key_str s)); ("algorithm", VString "ed25519")]).

Definition crl_handler (w : W) : option Reply * W :=
  let '(out, w) := db_crl (as_db s) w in
  (Some (mkReply 200 (jobject [("revoked", VArray (match out with Ok l => l | Err _ => [] end))])), w).

Definition ca_well_known : Reply :=
  let base := trim_end_matches_slash (as_base_url s) in
  mkReply 200 (jobject [("nps_ca", VString "0.1"); ("issuer", VString (as_ca_nid s)); ("display_name", VString (as_display_name s));
    ("public_key", VString (as_pub_key_str s)); ("algorithms", VArray [VString "ed25519"]);
    ("endpoints", jobject [("register", VString (base +:+ "/v1/agents/register"));
      ("verify", VString (base +:+ "/v1/agents/{nid}/verify")); ("ocsp", VString (base +:+ "/v1/agents/{nid}/verify"));
      ("crl", VString (base +:+ "/v1/crl"))]);
    ("capabilities", VArray [VString "agent"; VString "node"]);
    ("max_cert_validity_days", let days := Z.max (as_agent_days s) (as_node_days s) in VNumber (if 0 <=? days then PosInt days else NegInt days))]).

Definition ca_health : Reply := mkReply 200 (jobject [("status", VString "ok")]).

(** A routed request, its path and body decoded, with the clock readings and
    the random bytes its handler may ask for. *)
Inductive ServerRequest : Type :=
| RegisterAgent (req : RegisterReq) (uid : list Z) (now : Z)
| RegisterNode (req : RegisterReq) (uid : list Z) (now : Z)
| Renew (nid : string) (now now' : Z)
| Revoke (nid : string) (body : option (option string)) (now now' : Z)
| VerifyNid (nid : string) (now : Z)
| CaCert | Crl | WellKnown | Health.

Definition ca_serve (r : ServerRequest) (w : W) : option Reply * W :=
  match r with
  | RegisterAgent req uid now => register req "agent" uid now w
  | RegisterNode req uid now => register req "node" uid now w
  | Renew nid now now' => renew nid now now' w
  | Revoke nid body now now' => revoke_handler nid body now now' w
  | VerifyNid nid now => verify_handler nid now w
  | CaCert => (Some ca_cert, w)
  | Crl => crl_handler w
  | WellKnown => (Some ca_well_known, w)
  | Health => (Some ca_health, w)
  end.

(** Requests in a row, with their answers. *)
Fixpoint ca_session (l : list ServerRequest) (w : W) : list (option Reply) * W :=
  match l with
  | [] => ([], w)
  | r :: l => let '(a, w) := ca_serve r w in let '(answers, w) := ca_session l w in (a :: answers, w)
  end.
End handlers.
Arguments AppState {_ _} _.

(** ** Configuration *)

(** [env::var], a name to its value. *)
Definition env_str (env : string -> option string) (k default_value : string) : string := default default_value (env k).
Definition parse_i64_text (s : string) : option Z :=
  let '(neg, body) := match strip_prefix "-" s with
                      | Some r => (true, r)
                      | None => (false, match strip_prefix "+" s with Some r => r | None => s end) end in
  if is_empty body then None
  else n ← digits_val 0 (bytes_of body);
       let z := if neg then - n else n in
       if (- i64_max - 1 <=? z) && (z <=? i64_max) then Some z else None.
Definition env_i64 (env : string -> option string) (k : string) (default_value : Z) : Z :=
  default default_value (env k ≫= parse_i64_text).

(** The state the server starts with; [None] is a missing variable. *)
Definition server_state {W} `{Ed25519Signing} {D : Digests} (env : string -> option string) (signing_key : SigningKey) (db : Connection W)
    : option (AppState W) :=
  ca_nid ← env "NIP_CA_NID";
  _ ← env "NIP_CA_PASSPHRASE";
  base_url ← env "NIP_CA_BASE_URL";
  Some {| as_signing_key := signing_key; as_pub_key_str := ca_pub_key_string (verifying_key signing_key); as_db := db;
          as_ca_nid := ca_nid; as_base_url := base_url; as_display_name := env_str env "NIP_CA_DISPLAY_NAME" "NPS CA";
          as_agent_days := env_i64 env "NIP_CA_AGENT_VALIDITY_DAYS" 30; as_node_days := env_i64 env "NIP_CA_NODE_VALIDITY_DAYS" 90;
          as_renewal_days := env_i64 env "NIP_CA_RENEWAL_WINDOW_DAYS" 7 |}.
