(* ===== verification/CaServerSpec.v ===== *)
(** * CaServerSpec: what the CA server keeps

    The certificate table as SQLite serves it, the life of a certificate
    across the handlers, and how many of them the server's own numbering lets
    the table hold. *)

From S2P Require Import Prelude RustStr Floats Json CoreFrames CoreCodec CoreCache NcpFrames NipFrames NipDer NipX509 NipSigner NipReputation NipVerifier NipCaStore NipCaRouter NipCaSqlStore NipIdentity CaServer.
Local Open Scope Z_scope.

(** ** The table *)

Record TableRow : Type := mkTableRow {
  t_id : Z; t_nid : string; t_entity_type : string; t_serial : string; t_pub_key : string; t_capabilities : string;
  t_scope_json : string; t_issued_by : string; t_issued_at : string; t_expires_at : string; t_revoked_at : option string;
  t_revoke_reason : option string; t_metadata_json : option string; t_created_at : string
}.

Definition sql_row (r : TableRow) : SqlRow :=
  [("id", CaInt (t_id r)); ("nid", CaText (t_nid r)); ("entity_type", CaText (t_entity_type r)); ("serial", CaText (t_serial r));
   ("pub_key", CaText (t_pub_key r)); ("capabilities", CaText (t_capabilities r)); ("scope_json", CaText (t_scope_json r));
   ("issued_by", CaText (t_issued_by r)); ("issued_at", CaText (t_issued_at r)); ("expires_at", CaText (t_expires_at r));
   ("revoked_at", opt_text (t_revoked_at r)); ("revoke_reason", opt_text (t_revoke_reason r));
   ("metadata_json", opt_text (t_metadata_json r)); ("created_at", CaText (t_created_at r))].
Definition sql_crl_row (r : TableRow) : SqlRow :=
  [("serial", CaText (t_serial r)); ("nid", CaText (t_nid r)); ("revoked_at", opt_text (t_revoked_at r));
   ("revoke_reason", opt_text (t_revoke_reason r))].

(** [REPLACE(serial,'0x','')]. *)
Fixpoint replace_0x (s : string) : string :=
  match s with
  | String.String "0" (String.String "x" r) => replace_0x r
  | String.String a r => String.String a (replace_0x r)
  | EmptyString => ""
  end.
(** [CAST(.. AS INTEGER)] of a text: its longest prefix that is an integer,
    after leading spaces, and zero when there is none. *)
Definition digits_prefix (l : list Z) : Z := default 0 (digits_val 0 (take_while is_ascii_digit l)).
Definition cast_integer (s : string) : Z :=
  match drop_while (fun b => (b =? 32) || ((9 <=? b) && (b <=? 13))) (bytes_of s) with
  | c :: r => if c =? 45 then Z.max (- i64_max - 1) (- digits_prefix r)
              else if c =? 43 then Z.min i64_max (digits_prefix r) else Z.min i64_max (digits_prefix (c :: r))
  | [] => 0
  end.
(** [COALESCE(MAX(..),0)]. *)
Definition max_serial (serials : list string) : Z :=
  match map (fun s => cast_integer (replace_0x s)) serials with [] => 0 | n :: l => fold_left Z.max l n end.

Definition row_live (nid : string) (r : TableRow) : bool := String.eqb (t_nid r) nid && negb (is_some (t_revoked_at r)).
Definition row_revoked (r : TableRow) : bool := is_some (t_revoked_at r).
Definition revoke_row (nid at_ reason : string) (r : TableRow) : TableRow :=
  if row_live nid r then
    mkTableRow (t_id r) (t_nid r) (t_entity_type r) (t_serial r) (t_pub_key r) (t_capabilities r) (t_scope_json r) (t_issued_by r)
      (t_issued_at r) (t_expires_at r) (Some at_) (Some reason) (t_metadata_json r) (t_created_at r)
  else r.

Section laws.
Context {D : Digests}.
Definition inserted_cert (id : Z) (created : string) (rec : InsertRec) : TableRow :=
  mkTableRow id (in_nid rec) (in_entity_type rec) (in_serial rec) (in_pub_key rec) (json_to_string (vstrings (in_capabilities rec)))
    (json_to_string (VObject (in_scope rec))) (in_issued_by rec) (in_issued_at rec) (in_expires_at rec) None None
    ((fun m => json_to_string (VObject m)) <$> in_metadata rec) created.
(** The [UNIQUE] and the [CHECK] of the schema. *)
Definition refused_row (rec : InsertRec) (rows : list TableRow) : bool :=
  existsb (String.eqb (in_serial rec)) (map t_serial rows) ||
  negb (existsb (String.eqb (in_entity_type rec)) ["agent"; "node"; "operator"]).

(** A connection without faults, statement by statement; rows of equal dates
    come in any order.  The sum of [NEXT_SERIAL_SQL] is an integer below
    [i64::MAX]; past it SQLite answers a real number. *)
Class ServesTable {W : Type} (db : Connection W) (table : W -> list TableRow) : Prop := {
  serves_next_serial w : max_serial (map t_serial (table w)) < i64_max -> exists name w', cn_query db NEXT_SERIAL_SQL [] w
    = (Ok [[(name, CaInt (max_serial (map t_serial (table w)) + 1))]], w') /\ table w' = table w;
  serves_insert rec w : if refused_row rec (table w)
    then exists e w', cn_execute db INSERT_CERT_SQL (insert_values rec) w = (Err e, w') /\ table w' = table w
    else exists id created w', cn_execute db INSERT_CERT_SQL (insert_values rec) w = (Ok 1, w') /\
           table w' = table w ++ [inserted_cert id created rec];
  serves_active nid w : exists out w', cn_query db GET_ACTIVE_SQL [CaText nid] w = (Ok (map sql_row out), w') /\ table w' = table w /\
    match out with
    | [] => List.filter (row_live nid) (table w) = []
    | [r] => In r (List.filter (row_live nid) (table w)) /\
             forall r', In r' (List.filter (row_live nid) (table w)) -> String.leb (t_issued_at r') (t_issued_at r) = true
    | _ => False
    end;
  serves_revoke nid at_ reason w : exists w', cn_execute db REVOKE_CERT_SQL [CaText at_; CaText reason; CaText nid] w
    = (Ok (Z.of_nat (length (List.filter (row_live nid) (table w)))), w') /\ table w' = map (revoke_row nid at_ reason) (table w);
  serves_crl w : exists out w', cn_query db CRL_SQL [] w = (Ok (map sql_crl_row out), w') /\ table w' = table w /\
    Permutation out (List.filter row_revoked (table w))
}.
End laws.

(** The serials the server gives: 0x000001, 0x000002, ... *)
Definition serial_text (n : nat) : string := "0x" +:+ hex6 (Z.of_nat n).
Definition numbered (rows : list TableRow) : Prop := map t_serial rows = map serial_text (seq 1 (length rows)).

(** ** The numbering *)

(** The first nine texts count up; the tenth reads as zero. *)
Lemma max_of_serials k : (k <= 10)%nat -> max_serial (map serial_text (seq 1 k)) = Z.of_nat (Nat.min k 9).
Proof. intros H. do 11 (destruct k as [|k]; [vm_compute; reflexivity|]). lia. Qed.

Lemma serial_taken k : (k <= 10)%nat ->
  existsb (String.eqb (serial_text (S (Nat.min k 9)))) (map serial_text (seq 1 k)) = (k =? 10)%nat.
Proof. intros H. do 11 (destruct k as [|k]; [vm_compute; reflexivity|]). lia. Qed.

Section server.
Context {D : Digests} {J : JsonParser} `{Ed25519Signing} `{Base64StdEncoder} {W : Type} (s : AppState W) (table : W -> list TableRow)
  `{!ServesTable (as_db s) table}.

(** A row reads back as a record. *)
Definition record_of_row (r : TableRow) : CertRecord :=
  mkCertRecord (t_id r) (t_nid r) (t_entity_type r) (t_serial r) (t_pub_key r)
    (default [] (strings_from_str (t_capabilities r))) (default [] (map_from_str (t_scope_json r))) (t_issued_by r)
    (t_issued_at r) (t_expires_at r) (t_revoked_at r) (t_revoke_reason r) (t_metadata_json r ≫= map_from_str).
Lemma row_reads r : row_to_record (sql_row r) = Ok (record_of_row r).
Proof. destruct r as [? ? ? ? ? ? ? ? ? ? [|] [|] [|] ?]; reflexivity. Qed.

Lemma active_spec nid w : exists out w', active s nid w = (record_of_row <$> out, w') /\ table w' = table w /\
  match out with
  | None => List.filter (row_live nid) (table w) = []
  | Some r => In r (List.filter (row_live nid) (table w)) /\
              forall r', In r' (List.filter (row_live nid) (table w)) -> String.leb (t_issued_at r') (t_issued_at r) = true
  end.
Proof.
  destruct (serves_active (db := as_db s) nid w) as (out & w' & E & T & Hout).
  exists (head out), w'. unfold active, db_get_active. rewrite E. destruct out as [|r [|? ?]]; [done| |done].
  cbn [map head]. by rewrite row_reads.
Qed.

Lemma next_serial_spec w : numbered (table w) -> (length (table w) <= 10)%nat ->
  exists w', db_next_serial (as_db s) w = (Ok (serial_text (S (Nat.min (length (table w)) 9))), w') /\ table w' = table w.
Proof.
  intros Hn Hl. assert (Hmax : max_serial (map t_serial (table w)) = Z.of_nat (Nat.min (length (table w)) 9))
    by (by rewrite Hn, max_of_serials).
  destruct (serves_next_serial (db := as_db s) w) as (name & w' & E & T); [unfold i64_max; lia|]. exists w'.
  unfold db_next_serial. rewrite E, Hmax. cbn. split; [|done].
  unfold serial_text. by rewrite Nat2Z.inj_succ.
Qed.

Lemma insert_spec rec w : numbered (table w) -> (length (table w) <= 10)%nat ->
  in_serial rec = serial_text (S (Nat.min (length (table w)) 9)) ->
  let w' := snd (db_insert (as_db s) rec w) in
  (table w' = table w /\ (length (table w) = 10%nat \/ existsb (String.eqb (in_entity_type rec)) ["agent"; "node"; "operator"] = false)) \/
  ((length (table w) < 10)%nat /\ exists id created, table w' = table w ++ [inserted_cert id created rec]).
Proof.
  intros Hn Hl Hs. pose proof (serves_insert (db := as_db s) rec w) as L. unfold refused_row in L.
  rewrite Hs, Hn, serial_taken in L by done. unfold db_insert.
  destruct (Nat.eqb_spec (length (table w)) 10) as [E|E]; cbn [orb] in L.
  - destruct L as (e & w' & -> & T). left. split; [done|by left].
  - destruct (negb _) eqn:Hneg in L.
    + destruct L as (e & w' & -> & T). left. split; [done|right]. by apply negb_true_iff in Hneg.
    + destruct L as (id & created & w' & -> & T). right. split; [lia|]. by exists id, created.
Qed.

Lemma numbered_app rows r : numbered rows -> t_serial r = serial_text (S (length rows)) -> numbered (rows ++ [r]).
Proof.
  unfold numbered. intros Hn Hr. rewrite map_app, length_app, Nat.add_1_r, seq_S, map_app, Hn. cbn. by rewrite Hr.
Qed.

(** The table after a handler: as before, with revocations, or one longer. *)
Definition ca_inv (w : W) : Prop := numbered (table w) /\ (length (table w) <= 10)%nat.

Lemma ca_inv_same w w' : table w' = table w -> ca_inv w -> ca_inv w'.
Proof. unfold ca_inv. by intros ->. Qed.

Lemma certify_inv st et nid pk caps scope md now w : ca_inv w -> ca_inv (snd (certify s st et nid pk caps scope md now w)).
Proof.
  intros [Hn Hl]. unfold certify. destruct (next_serial_spec w Hn Hl) as (w1 & -> & T).
  destruct (issue_cert _ _ _ _ _ _ _ _ _ _); [|by apply (ca_inv_same w)]. rewrite <- T in Hn, Hl.
  set (rec := mkInsertRec _ _ _ _ _ _ _ _ _ _).
  pose proof (insert_spec rec w1 Hn Hl ltac:(by rewrite T)) as I. destruct (db_insert _ rec w1) as [o w2]. cbn [snd] in *.
  destruct I as [[E _]|(Hlt & id & created & E)]; [by apply (ca_inv_same w1)|]. unfold ca_inv. rewrite E, length_app. cbn.
  split; [|lia]. apply numbered_app; [done|]. cbn. rewrite <- T. by rewrite Nat.min_l by lia.
Qed.

Lemma revoke_serials nid at_ reason rows : map t_serial (map (revoke_row nid at_ reason) rows) = map t_serial rows.
Proof. rewrite map_map. apply map_ext. intros r. unfold revoke_row. by destruct (row_live nid r). Qed.

Lemma serve_inv r w : ca_inv w -> ca_inv (snd (ca_serve s r w)).
Proof.
  intros Hi. destruct r as [req uid now|req uid now|nid now now'|nid body now now'|nid now| | | |]; cbn [ca_serve]; try done.
  1-2: unfold register; lazymatch goal with |- context [active s ?nid ?w0] => destruct (active_spec nid w0) as (out & w1 & -> & T & _) end;
    destruct out; [by apply (ca_inv_same w)|by apply certify_inv, (ca_inv_same w)].
  - unfold renew. destruct (active_spec nid w) as (out & w1 & -> & T & _). destruct out; cbn [fmap option_fmap option_map];
      [|by apply (ca_inv_same w)]. destruct (iso_to_epoch _); [|by apply (ca_inv_same w)].
    destruct (_ <? _); [by apply (ca_inv_same w)|by apply certify_inv, (ca_inv_same w)].
  - unfold revoke_handler, db_revoke.
    destruct (serves_revoke (db := as_db s) nid (fmt_iso now) (match body with Some (Some r) => r | _ => "cessation_of_operation" end) w)
      as (w1 & -> & T).
    cbn. destruct Hi as [Hn Hl]. unfold ca_inv, numbered. rewrite T, length_map, revoke_serials. done.
  - unfold verify_handler. destruct (active_spec nid w) as (out & w1 & -> & T & _). destruct out; cbn [fmap option_fmap option_map];
      [|by apply (ca_inv_same w)]. by destruct (iso_to_epoch _); apply (ca_inv_same w).
  - unfold crl_handler, db_crl. destruct (serves_crl (db := as_db s) w) as (out & w1 & -> & T & _). by apply (ca_inv_same w).
Qed.

Lemma session_inv l w : ca_inv w -> ca_inv (snd (ca_session s l w)).
Proof.
  revert w. induction l as [|r l IH]; intros w Hi; [done|]. cbn [ca_session].
  pose proof (serve_inv r w Hi). destruct (ca_serve s r w) as [a w1]. specialize (IH w1 ltac:(done)).
  by destruct (ca_session s l w1).
Qed.



Lemma revoke_none nid body n1 n2 w : List.filter (row_live nid) (table w) = [] ->
  fst (revoke_handler s nid body n1 n2 w) = Some (nid_not_found nid).
Proof.
  intros E. unfold revoke_handler, db_revoke. set (reason := match body with Some (Some r) => r | _ => _ end).
  destruct (serves_revoke (db := as_db s) nid (fmt_iso n1) reason w) as (w1 & -> & _). by rewrite E.
Qed.

Lemma active_none nid w : List.filter (row_live nid) (table w) = [] -> exists w', active s nid w = (None, w') /\ table w' = table w.
Proof.
  intros E. destruct (active_spec nid w) as ([r|] & w1 & A & T & Hout); [|by exists w1]. rewrite E in Hout. by destruct Hout.
Qed.

Lemma verify_none nid now w : List.filter (row_live nid) (table w) = [] -> fst (verify_handler s nid now w) = Some (nid_not_found nid).
Proof. intros E. unfold verify_handler. by destruct (active_none nid w E) as (w1 & -> & _). Qed.

(** The dates of a certificate, where the clock and the validity stay in
    [u64]. *)
Lemma iso_now_plus_spec now days : 0 <= now -> 0 <= days <= i64_max -> now + days * 86400 <= u64_max ->
  iso_now_plus now days = Some (fmt_iso now, fmt_iso (now + days * 86400)).
Proof.
  intros Hn Hd Hs. unfold iso_now_plus, i64_max, u64_max in *. rewrite Z.mod_small by lia.
  rewrite u64_of_some by (unfold u64_range, u64_max; lia). cbn. by rewrite u64_of_some by (unfold u64_range, u64_max; lia).
Qed.

(** C22: the server numbers its certificates in hexadecimal and reads them
    back in decimal.  However many requests an empty database has served, it
    holds at most ten rows, numbered from 0x000001; and with ten of them,
    every registration that is answered 201 hands out a certificate of serial
    0x00000A that the table does not keep: verifying its name, or revoking
    it, is answered 404. *)
Theorem ten_certificates l w0 : table w0 = [] ->
  let w := snd (ca_session s l w0) in
  map t_serial (table w) = map serial_text (seq 1 (length (table w))) /\ (length (table w) <= 10)%nat /\
  (length (table w) = 10%nat -> forall req et uid now r w', register s req et uid now w = (Some r, w') -> re_status r = 201 ->
     table w' = table w /\ vget "serial" (re_body r) = Some (VString "0x00000A") /\
     exists nid, vget "nid" (re_body r) = Some (VString nid) /\
       (forall now', fst (verify_handler s nid now' w') = Some (nid_not_found nid)) /\
       (forall body n1 n2, fst (revoke_handler s nid body n1 n2 w') = Some (nid_not_found nid))).
Proof.
  intros E0 w. assert (Hi : ca_inv w) by (apply session_inv; unfold ca_inv, numbered; rewrite E0; split; [done|cbn; lia]).
  destruct Hi as [Hn Hl]. split_and!; [done|done|]. clearbody w. intros Hten req et uid now r w'.
  unfold register. set (nid := match rq_nid req with Some n => n | None => _ end).
  destruct (active_spec nid w) as ([rec|] & w1 & -> & T & Hout); cbn [fmap option_fmap option_map]; [by intros [= <- _]|].
  unfold certify. rewrite <- T in Hn, Hl, Hten, Hout. destruct (next_serial_spec w1 Hn Hl) as (w2 & -> & T2).
  destruct (issue_cert _ _ _ _ _ _ _ _ _ _) as [cert|]; [|done]. rewrite <- T2 in Hn, Hl, Hten, Hout |- *. rewrite Hten.
  set (rec := mkInsertRec _ _ _ _ _ _ _ _ _ _).
  pose proof (insert_spec rec w2 Hn Hl ltac:(by rewrite Hten)) as I. destruct (db_insert _ rec w2) as [o w3]. cbn [snd] in I.
  destruct I as [[E _]|[? _]]; [|lia]. intros [= <- <-] _. split_and!; [congruence|reflexivity|]. exists nid. rewrite <- E in Hout.
  split_and!; [reflexivity|intros now'; by apply verify_none|intros body n1 n2; by apply revoke_none].
Qed.

Lemma revoke_row_dead nid at_ reason rows : List.filter (row_live nid) (map (revoke_row nid at_ reason) rows) = [].
Proof.
  induction rows as [|r rows IH]; [done|]. cbn [map List.filter]. rewrite IH.
  replace (row_live nid (revoke_row nid at_ reason r)) with false; [done|]. unfold revoke_row.
  destruct (row_live nid r) eqn:E; [|by rewrite E]. unfold row_live. cbn. by rewrite andb_false_r.
Qed.

(** An entry of the revocation list. *)
Definition listed_entry (r : TableRow) : Value :=
  jobject [("serial", VString (t_serial r)); ("nid", VString (t_nid r)); ("revoked_at", VString (default "" (t_revoked_at r)));
           ("revoke_reason", match t_revoke_reason r with Some x => VString x | None => VNull end)].
Lemma crl_reads rows : Forall (fun r => row_revoked r = true) rows ->
  omap (fun row => match crl_row row with Ok v => Some v | Err _ => None end) (map sql_crl_row rows) = map listed_entry rows.
Proof.
  induction 1 as [|r rows Hr _ IH]; [done|]. destruct r as [? ? ? ? ? ? ? ? ? ? [at_|] [reason|] ? ?]; try done; cbn; by rewrite IH.
Qed.

Lemma crl_spec w : exists l w', crl_handler s w = (Some (mkReply 200 (jobject [("revoked", VArray l)])), w') /\
  forall r, In r (table w) -> row_revoked r = true -> In (listed_entry r) l.
Proof.
  destruct (serves_crl (db := as_db s) w) as (out & w1 & E & _ & P). unfold crl_handler, db_crl. rewrite E.
  rewrite crl_reads.
  2:{ apply Forall_forall. intros r Hr%list_elem_of_In. rewrite P in Hr. by apply filter_In in Hr as [_ ?]. }
  exists (map listed_entry out), w1. split; [done|]. intros r Hr Hrev. apply in_map. rewrite P. by apply filter_In.
Qed.

(** C37: the life of a certificate.  After any sequence of requests to an
    empty database that left less than ten rows (see C22 for the tenth), a name
    without a live certificate is registered with the public key its request
    carries: the answer is 201 and has the name and the next serial (doc/ca-server.md
    says 200, and that the server makes the key pair; it does neither).  Verifying
    the name then gives that key and serial, and says that the certificate is
    valid until the validity of its kind is over; revoking it succeeds; after
    that verifying it answers 404, and the revocation list holds its serial.
    The clock and the validity stay within [u64]. *)
Theorem certificate_lifecycle reqs w0 req et uid now now' n1 n2 n3 nid : table w0 = [] ->
  let w := snd (ca_session s reqs w0) in
  (length (table w) < 10)%nat -> rq_nid req = Some nid -> List.filter (row_live nid) (table w) = [] ->
  et = "agent" \/ et = "node" ->
  let days := if String.eqb et "agent" then as_agent_days s else as_node_days s in
  let serial := VString (serial_text (S (length (table w)))) in
  0 <= now -> 0 <= days <= i64_max -> now + days * 86400 <= u64_max ->
  exists r1 w1, register s req et uid now w = (Some r1, w1) /\ re_status r1 = 201 /\
    vget "nid" (re_body r1) = Some (VString nid) /\ vget "serial" (re_body r1) = Some serial /\
  exists r2 w2, verify_handler s nid now' w1 = (Some r2, w2) /\ re_status r2 = 200 /\
    vget "valid" (re_body r2) = Some (VBool (now' <? now + days * 86400)) /\
    vget "pub_key" (re_body r2) = Some (VString (rq_pub_key req)) /\ vget "serial" (re_body r2) = Some serial /\
  exists r3 w3, revoke_handler s nid None n1 n2 w2 = (Some r3, w3) /\ re_status r3 = 200 /\
    fst (verify_handler s nid n3 w3) = Some (nid_not_found nid) /\
  exists l w4, crl_handler s w3 = (Some (mkReply 200 (jobject [("revoked", VArray l)])), w4) /\
    In (jobject [("serial", serial); ("nid", VString nid); ("revoked_at", VString (fmt_iso n1));
                 ("revoke_reason", VString "cessation_of_operation")]) l.
Proof.
  intros E0 w. assert (Hi : ca_inv w) by (apply session_inv; unfold ca_inv, numbered; rewrite E0; split; [done|cbn; lia]).
  clearbody w. destruct Hi as [Hn Hl]. intros Hlt Hnid Hnone Het days serial Hnow Hdays Hexp.
  destruct (active_none nid w Hnone) as (wa & Ha & Ta).
  destruct (next_serial_spec wa) as (wb & Hb & Tb); [by rewrite Ta..|]. rewrite Ta in Hb, Tb. rewrite Nat.min_l in Hb by lia.
  unfold register. rewrite Hnid, Ha. unfold certify. rewrite Hb. fold days. unfold issue_cert.
  rewrite iso_now_plus_spec by done. cbn [mbind option_bind].
  set (cert := match rq_metadata req with Some meta => _ | None => _ end).
  assert (Hat : map_get "issued_at" cert = Some (VString (fmt_iso now)) /\ map_get "expires_at" cert = Some (VString (fmt_iso (now + days * 86400))))
    by (split; subst cert; destruct (rq_metadata req); reflexivity).
  destruct Hat as [-> ->]. cbn [mbind option_bind as_str default].
  set (rec := mkInsertRec _ _ _ _ _ _ _ _ _ _).
  pose proof (insert_spec rec wb) as I. rewrite Tb in I. specialize (I Hn Hl ltac:(by rewrite Nat.min_l by lia)).
  destruct (db_insert _ rec wb) as [o w1]. cbn [snd] in I.
  destruct I as [[_ [Hten|Hbad]]|(_ & id & created & T1)]; [lia|by destruct Het as [-> | ->]|].
  eexists _, w1. do 4 (split; [reflexivity|]).
  (* verify *)
  set (row := inserted_cert id created rec) in *.
  assert (F1 : List.filter (row_live nid) (table w1) = [row]).
  { rewrite T1, List.filter_app, Hnone. cbn. unfold row_live. cbn. by rewrite String.eqb_refl. }
  unfold verify_handler. destruct (active_spec nid w1) as (out & w2 & -> & T2 & Hout). rewrite F1 in Hout.
  destruct out as [r|]; [|done]. destruct Hout as [[<-|[]] _]. cbn [fmap option_fmap option_map cr_expires_at record_of_row].
  change (t_expires_at row) with (fmt_iso (now + days * 86400)).
  rewrite (proj2 (iso_date_kept (now + days * 86400) ltac:(unfold u64_range; lia))).
  eexists _, w2. split; [reflexivity|]. set (v := now' <? now + days * 86400).
  split; [reflexivity|]. split; [by destruct v|]. split; [by destruct v|]. split; [by destruct v|].
  (* revoke *)
  rewrite <- T2 in F1. unfold revoke_handler, db_revoke.
  destruct (serves_revoke (db := as_db s) nid (fmt_iso n1) "cessation_of_operation" w2) as (w3 & -> & T3). rewrite F1. cbn [length Z.of_nat Z.ltb].
  eexists _, w3. split; [reflexivity|]. split; [reflexivity|]. split; [apply verify_none|].
  { rewrite T3. apply revoke_row_dead. }
  destruct (crl_spec w3) as (l & w4 & E4 & Hin). exists l, w4. split; [exact E4|].
  assert (Hlive : row_live nid row = true) by (unfold row_live; cbn; by rewrite String.eqb_refl).
  enough (G : In (listed_entry (revoke_row nid (fmt_iso n1) "cessation_of_operation" row)) l)
    by (unfold revoke_row in G; rewrite Hlive in G; exact G).
  apply Hin.
  - rewrite T3. apply in_map. rewrite T2, T1. apply in_or_app. right. by left.
  - unfold revoke_row. by rewrite Hlive.
Qed.

(** A database that fails counts as one without the certificate: the name is
    registered again, and a live certificate is neither found nor revoked. *)
Lemma database_error_is_absence nid w e e' : 
  (forall w, exists w', cn_query (as_db s) GET_ACTIVE_SQL [CaText nid] w = (Err e, w')) ->
  (forall vs w, exists w', cn_execute (as_db s) REVOKE_CERT_SQL vs w = (Err e', w')) ->
  fst (active s nid w) = None /\ (forall now, fst (verify_handler s nid now w) = Some (nid_not_found nid)) /\
  (forall body n1 n2, fst (revoke_handler s nid body n1 n2 w) = Some (nid_not_found nid)).
Proof.
  intros HQ HE. assert (A : exists w', active s nid w = (None, w')).
  { unfold active, db_get_active. destruct (HQ w) as [w' ->]. by exists w'. }
  destruct A as [w' A]. split_and!; [by rewrite A| |].
  - intros now. unfold verify_handler. by rewrite A.
  - intros body n1 n2. unfold revoke_handler, db_revoke.
    destruct (HE [CaText (fmt_iso n1); CaText (match body with Some (Some r) => r | _ => "cessation_of_operation" end); CaText nid] w) as [? ->].
    done.
Qed.
End server.

(** ** The key of the server *)

Section key_file.
Context `{KeyCipherLaws} {J : JsonParser} {W : Type} (fs : FileSystem W) (pbkdf2_hmac : list Z -> list Z -> Z -> list Z)
  (pretty_json : Value -> string) (path : string).

(** A file that keeps what was written, also when its mode changes, and texts
    that parse to what they were printed from. *)
Hypothesis written : forall text w w', fs_write fs path text w = (Ok tt, w') -> fs_read fs path w' = Ok text.
Hypothesis mode_kept : forall m w w', fs_set_mode fs path m w = (Ok tt, w') -> fs_read fs path w' = fs_read fs path w.
Hypothesis printed : forall l, parse_json (pretty_json (VObject (map_collect l))) = Ok (VObject (map_collect l)).

Lemma saved_key_loads sk salt nonce passphrase w w' : Forall u8_range salt -> Forall u8_range nonce ->
  save_key fs pbkdf2_hmac pretty_json sk salt nonce path passphrase w = Some (Ok tt, w') ->
  load_key fs pbkdf2_hmac path passphrase w' = Some (Ok sk).
Proof.
  intros Hs Hn. unfold save_key. destruct (nonce_from_slice nonce) as [n|] eqn:En; [|done]. cbn [mbind option_bind].
  assert (n = nonce) as -> by (unfold nonce_from_slice in En; by destruct (_ =? _)%nat; [injection En as <-|]).
  destruct (aes_encrypt _ _ _) as [ct|] eqn:Ea; [|done]. destruct (fs_create_parent fs path w) as [[[]|] w1]; [|done].
  destruct (fs_write fs path _ w1) as [[[]|] w2] eqn:Ew; [|done]. intros [= Em].
  unfold load_key. rewrite (mode_kept _ _ _ Em), (written _ _ _ Ew). cbn [mbind result_bind]. unfold ca_envelope. rewrite printed.
  cbn [mbind result_bind]. unfold envelope_bytes.
  set (env := VObject (map_collect _)). assert (E : vget "salt" env = Some (VString (hex_encode salt)) /\
    vget "nonce" env = Some (VString (hex_encode nonce)) /\ vget "ciphertext" env = Some (VString (hex_encode ct))) by done.
  destruct E as (-> & -> & ->). cbn [mbind option_bind as_str default]. unfold id.
  rewrite !hex_back by (done || by apply (aes_bytes _ _ _ _ Ea)). cbn [mbind result_bind].
  rewrite En. cbn [mbind option_bind]. by rewrite (aes_back _ _ _ _ Ea), sk_bytes_len, sk_bytes_back.
Qed.

(** A server that is started again signs with the key of its first start. *)
Lemma restart_keeps_key generated generated' salt nonce salt' nonce' passphrase w sk w' :
  Forall u8_range salt -> Forall u8_range nonce ->
  startup_key fs pbkdf2_hmac pretty_json generated salt nonce path passphrase w = Some (sk, w') -> fs_exists fs path w' = true ->
  startup_key fs pbkdf2_hmac pretty_json generated' salt' nonce' path passphrase w' = Some (sk, w').
Proof.
  intros Hs Hn. unfold startup_key. destruct (fs_exists fs path w).
  - destruct (load_key fs pbkdf2_hmac path passphrase w) as [[k|]|] eqn:El; [|done|done]. intros [= <- <-] ->. by rewrite El.
  - destruct (save_key _ _ _ _ _ _ _ _ _) as [[[[]|] w1]|] eqn:Es; [|done|done]. intros [= <- <-] ->.
    by rewrite (saved_key_loads _ _ _ _ _ _ Hs Hn Es).
Qed.
End key_file.

(** ** A table in memory *)

Section toy.
Context {D : Digests}.

(** The latest, the first of equals. *)
Definition latest_issued (rows : list TableRow) : list TableRow := take 1 (sort_desc t_issued_at rows).
Definition table_connection : Connection (list TableRow) := {|
  cn_execute sql vs w :=
    if String.eqb sql INSERT_CERT_SQL then
      match vs with
      | [CaText nid; CaText et; CaText serial; CaText pk; CaText caps; CaText scope; CaText by_; CaText at_; CaText exp; meta] =>
        if existsb (String.eqb serial) (map t_serial w) || negb (existsb (String.eqb et) ["agent"; "node"; "operator"])
        then (Err "constraint failed", w)
        else (Ok 1, w ++ [mkTableRow (Z.of_nat (length w) + 1) nid et serial pk caps scope by_ at_ exp None None
                            (match meta with CaText m => Some m | _ => None end) "2026-01-01T00:00:00Z"])
      | _ => (Err "bad parameters", w)
      end
    else if String.eqb sql REVOKE_CERT_SQL then
      match vs with
      | [CaText at_; CaText reason; CaText nid] =>
        (Ok (Z.of_nat (length (List.filter (row_live nid) w))), map (revoke_row nid at_ reason) w)
      | _ => (Err "bad parameters", w)
      end
    else (Ok 0, w);
  cn_query sql vs w :=
    (if String.eqb sql NEXT_SERIAL_SQL then Ok [[("n", CaInt (max_serial (map t_serial w) + 1))]]
     else if String.eqb sql GET_ACTIVE_SQL then
       match vs with
       | [CaText nid] => Ok (map sql_row (latest_issued (List.filter (row_live nid) w)))
       | _ => Err "bad parameters"
       end
     else if String.eqb sql CRL_SQL then
       Ok (map sql_crl_row (sort_desc (fun r => default "" (t_revoked_at r)) (List.filter row_revoked w)))
     else Err "no such statement", w);
  cn_last_insert_rowid w := Z.of_nat (length w)
|}.

Lemma sort_desc_max {A} (key : A -> string) l x y : head (sort_desc key l) = Some x -> In y l -> String.leb (key y) (key x) = true.
Proof.
  intros (a & b & -> & Ha & Hb)%sort_desc_first [Hy|[->|Hy]]%in_app_or.
  - rewrite Forall_forall in Ha. by apply leb_flip, Ha, list_elem_of_In.
  - by destruct (String.leb_total (key y) (key y)).
  - rewrite Forall_forall in Hb. by apply Hb, list_elem_of_In.
Qed.

#[export] Instance table_connection_serves : ServesTable table_connection id.
Proof.
  split.
  - intros w _. by eexists "n", w.
  - intros rec w. cbn [table_connection cn_execute]. rewrite String.eqb_refl. unfold insert_values, refused_row, id.
    destruct (_ || _); [by eexists _, w|]. eexists _, _, _. split; [reflexivity|]. unfold inserted_cert. by destruct (in_metadata rec).
  - intros nid w. exists (latest_issued (List.filter (row_live nid) w)), w. split; [reflexivity|]. split; [done|].
    unfold latest_issued, id. pose proof (fun x y => sort_desc_max t_issued_at (List.filter (row_live nid) w) x y) as M.
    pose proof (sort_desc_perm t_issued_at (List.filter (row_live nid) w)) as P.
    destruct (sort_desc _ _) as [|x xs]; [by apply Permutation_nil in P|]. cbn [take]. split; [|intros y; by apply M].
    rewrite <- P. by left.
  - intros nid at_ reason w. eexists. split; reflexivity.
  - intros w. exists (sort_desc (fun r => default "" (t_revoked_at r)) (List.filter row_revoked w)), w.
    split; [reflexivity|]. split; [done|]. apply sort_desc_perm.
Qed.
End toy.

(** ** Witnesses *)

#[local] Existing Instances const_ed25519 const_signing const_digests std_encoder.
#[local] Instance no_lists : JsonParser := {| parse_json _ := Err "no" |}.

Definition small_ca : AppState (list TableRow) := {|
  as_signing_key := tt; as_pub_key_str := "ed25519:"; as_db := table_connection; as_ca_nid := "urn:nps:org:example.com:ca";
  as_base_url := "http://ca/"; as_display_name := "CA"; as_agent_days := 30; as_node_days := 90; as_renewal_days := 7 |}.
Definition agent_req (nid : string) : RegisterReq := mkRegisterReq (Some nid) "ed25519:00" None None None.
Definition eleven_names : list string :=
  ["a"; "b"; "c"; "d"; "e"; "f"; "g"; "h"; "i"; "j"; "k"].

Lemma ten_certificates_witness :
  let w := snd (ca_session small_ca (map (fun n => RegisterAgent (agent_req n) [] 1700000000) (take 10 eleven_names)) []) in
  length w = 10%nat /\
  exists r w', register small_ca (agent_req "k") "agent" [] 1700000000 w = (Some r, w') /\ re_status r = 201 /\
    fst (verify_handler small_ca "k" 1700000000 w') = Some (nid_not_found "k").
Proof.
  split; [vm_compute; reflexivity|].
  destruct (ten_certificates small_ca id (map (fun n => RegisterAgent (agent_req n) [] 1700000000) (take 10 eleven_names)) [] eq_refl)
    as (_ & _ & T).
  eexists _, _. split; [vm_compute; reflexivity|]. split; [reflexivity|].
  edestruct (T ltac:(vm_compute; reflexivity) (agent_req "k") "agent" [] 1700000000) as (_ & _ & nid & Hn & V & _);
    [vm_compute; reflexivity|reflexivity|].
  vm_compute in Hn. injection Hn as <-. apply V.
Defined.

Lemma certificate_lifecycle_witness : exists w1 r2 w2,
  snd (ca_session small_ca [RegisterAgent (agent_req "b") [] 1700000000] []) = w1 /\ length w1 = 1%nat /\
  register small_ca (agent_req "a") "agent" [] 1700000000 w1 = (Some r2, w2) /\ re_status r2 = 201 /\ length w2 = 2%nat.
Proof.
  destruct (certificate_lifecycle small_ca id [RegisterAgent (agent_req "b") [] 1700000000] []
      (agent_req "a") "agent" [] 1700000000 1700000001 1700000002 1700000003 1700000004 "a")
    as (r1 & w1 & E & S & _);
    [reflexivity|vm_compute; lia|reflexivity|vm_compute; reflexivity|by left|lia|cbn; unfold i64_max; lia|cbn; unfold u64_max; lia|].
  eexists _, r1, w1. split; [reflexivity|]. split; [vm_compute; reflexivity|]. split; [exact E|]. split; [exact S|].
  vm_compute in E. by injection E as <- <-.
Defined.
